(* ===== verification/_CoqProject ===== *)
-Q . S2P
Prelude.v
Codec.v
BigInt.v
Merkle.v
MerkleTheory.v
MerkleProof.v
MerkleConsistency.v
MerkleSpec.v
IntValue.v
VmValue.v
ValueStack.v
VmHeap.v
VmReader.v
Executor.v
VmSafety.v
VmSound.v
VmParams.v
VmExec.v
MemDb.v
MemDbTheory.v
MemDbSpec.v
StoreIter.v
Overlay.v
OverlaySpec.v
NativeData.v
NativeService.v
UnbindOng.v
OntOng.v
TokenTheory.v
TokenSpec.v
OntSpec.v
OntGenesis.v
LinkedList.v
LinkedListSpec.v
Vbft.v
VbftPool.v
VbftSafety.v
VbftPeers.v
LedgerTypes.v
Decode.v
LedgerCodec.v
TxRoot.v
LedgerExample.v
LedgerSpec.v
CrossPath.v
Program.v
ProgramSpec.v
Validation.v
ValidationSpec.v
Increment.v
TxPool.v
TxPoolTheory.v
Conc.v
TxState.v
TxServer.v
TxWorker.v
TxInv.v
TxSafe.v
TxVerified.v
TxExample.v
TxPoolSpec.v
TxEdge.v
GovData.v
GovState.v
GovStake.v
GovSplit.v
GovCommit.v
Governance.v
GovLogic.v
GovAccounts.v
GovMethods.v
GovExample.v
GovSafe.v
GovElect.v
GovRelease.v
GovFees.v
GovCodec.v
CrossChain.v
CrossLogic.v
CrossSpec.v
