(* ===== verification/Prelude.v ===== *)
(** * A verification library for the dad-go node

    dad-go is an Ontology node in Go: a chain of blocks agreed on by consensus, executed by
    virtual machines and native contracts over a layered key-value store, with Merkle trees that
    let light clients check what the chain contains.  This library models the parts whose
    behaviour is decided by the code itself and proves what makes them correct.

    ** Parts and how they interact

    A block's transactions run against a [CacheDB] (one transaction) over an [OverlayDB]
    (one block) over LevelDB; both caches keep their writes in the skip list [MemDB].  Contract
    code runs in the NeoVM [Executor]; native contracts run in a [NativeService], which gives them the
    cache, the call contexts and the witnesses of the transaction.  Parameters, stored values and
    blocks are encoded by the zero-copy codec.  Block hashes go to the compact Merkle tree.  New transactions
    come to the transaction pool, whose workers have them checked by a stateless and a stateful validator before
    consensus is offered them.

    ** Files

    - this file: bytes ([bz], [zb]), machine integers kept at their width ([u64], [s64]), little-endian
      numbers, outcomes ([res]: value, error, panic), the state-and-error monad [ST] with its [do]
      notation, slices, the hint databases [go].
    - [Codec]: [common/zero_copy_source.go] (module [Source]), [zero_copy_sink.go] (module [Sink]),
      [safeMath.go]; the class [Wire] relates a type's Serialization and Deserialization.
    - [BigInt]: [common/bigint.go] and the older conversions of [vm/neovm/types/common.go].
    - [Merkle]: [merkle/]; [CrossPath] the paths of cross-chain messages with their theorems; [MerkleTheory], [MerkleProof],
      [MerkleConsistency] the theory, [MerkleSpec] the theorems.
    - [IntValue], [VmValue], [ValueStack], [VmReader], [Executor]: [vm/neovm/types/], [value_stack.go],
      [utils/vm_reader.go], [executor.go] with every opcode; [VmHeap], [VmSafety], [VmSound], [VmExec] the
      invariant of the machine and what instructions compute, with
      [params_builder.go], whose scripts are run; [VmParams] the encoder of native parameters.
    - [MemDb], [StoreIter], [Overlay]: [core/store/overlaydb/] and [smartcontract/storage/cachedb.go];
      [MemDbTheory], [MemDbSpec], [OverlaySpec] the refinement to maps.
    - [NativeData], [NativeService]: [native/utils/], [native_service.go], the contexts of
      [smart_contract.go]; the class [KVCache] is what a contract may assume of the cache, and the cache
      discharges it.
    - [OntOng]: [native/ont/] and [native/ong/]; [UnbindOng], [TokenTheory], [TokenSpec], [OntSpec],
      [OntGenesis] their theorems, proved against [KVCache].
    - [LinkedList]: the doubly linked lists that contracts keep in storage ([native/utils/linked_list.go]);
      [LinkedListSpec] the refinement to lists.
    - [Vbft]: [consensus/vbft/block_pool.go] and the counting of commits in [node_utils.go]; [VbftPool] the
      invariant of the pool, [VbftSafety] when votes suffice.
    - [VbftPeers]: the selection of the participants of a block ([node_utils.go]).
    - [LedgerTypes]: [core/types/] (transactions, headers, blocks, cross-chain messages), [core/payload/],
      [common/merkle_tree.go]; [Decode] (exact decoders), [LedgerCodec] and [TxRoot] the theory, [LedgerSpec]
      the theorems, [LedgerExample] a concrete instance of the hashes and keys.
    - [Program]: [core/program/program.go], signatures, mutable transactions and addresses; [ProgramSpec] the round trips.
    - [GovData], [GovState], [GovStake], [GovSplit], [GovCommit], [Governance]: [native/governance/] (states.go and param.go;
      utils.go; authorisations, quitting and penalties of method.go; the division of fees; the end of an epoch; the 27 methods
      of governance.go).  [GovLogic] is a small program logic for the methods with the invariant, [GovAccounts] and [GovMethods]
      the accounting of stakes method by method, [GovSafe], [GovElect], [GovRelease], [GovFees] and [GovCodec] the theorems,
      [GovExample] a concrete chain.  The contract's storage is a record of typed tables ([Gov]); an iterator over a prefix is a
      snapshot of the table, as the code updates only entries it has passed; the class [NativeEnv] is what the
      contract asks of the tokens and the transaction, [PeerKeys] of public keys, [RangeOrder] of Go's map order.
    - [Validation]: [core/signature/signature.go] and [core/validation/] (transactions and blocks); [ValidationSpec] the theorem.
    - [Increment]: [validator/increment/increment.go] with its theorem.
    - [TxPool]: [txnpool/common/]; [TxPoolTheory] its lemmas, [TxPoolSpec] what consensus is offered.
    - [Conc]: threads as sequences of atomic actions over a shared state, the relation that interleaves them, and
      the proof rules for an invariant that every action keeps.
    - [TxState], [TxServer], [TxWorker]: [txnpool/proc/] (server, workers, actors) and the validators of [validator/stateless/] and
      [validator/stateful/]; [TxInv] the invariant, [TxSafe] that every thread keeps it, [TxVerified]
      the theorem on the system, [TxExample] a run, [TxEdge] runs the code does not guard against.
    - [CrossChain]: [native/cross_chain/]: the headers of other chains that are trusted ([header_sync]), messages out and in
      ([cross_chain_manager]) and the tokens locked for them ([lock_proxy]), with the calls between these contracts and the tokens
      ([CrossCall], the [Invoke] of the service).  [CrossLogic] is a program logic for what a run does to the storage,
      [CrossSpec] the theorems.

    ** What the theorems show

    - Codec: what is written is read back; readers never panic; a regular length prefix is the canonical
      one; integers have one shortest encoding.
    - Merkle: the incremental tree has the root of the recursive definition; proofs cut out of the store
      are accepted; an accepted inclusion or consistency proof is true or exhibits a hash collision.
    - NeoVM: in every reachable state the limits on stacks, arrays, byte arrays and integers hold and no
      instruction panics; arithmetic is exact or an error; the stack refines a bounded list; struct
      copies and comparisons end on every heap, cyclic ones included; a script of the parameter builder runs to its
      end in as many rounds as it has parameters and one more, and pushes exactly them.
    - Stores: the skip list refines a sorted map whatever heights are drawn; the caches are maps over
      the layer below; commit is exact; iteration is complete and in order; the hash of a block's
      writes does not depend on the order they were made in.
    - Tokens: the handlers implement ledgers with exact arithmetic, in both directions (they succeed
      exactly when the ledger does); totals are conserved, nobody loses without having signed, the
      release schedule is exact and never overflows, the genesis distribution adds up.
    - Consensus: proposals and commits are only added and the server's own votes are final (a commit replaces its committer's endorsements);
      endorsements suffice exactly when enough distinct peers have
      given them, in whatever order a map is traversed; two decisions overlap in more than a third of the peers unless a
      proposer is counted twice; every VRF value gives enough participants.
    - Ledger types: decoding never panics and accepts exactly the canonical encodings of well-formed transactions; blocks, signature
      scripts and mutable transactions survive the round trip; a raw header agrees with the header; the transaction root binds the
      transactions of a block (for trees of the same height: an inner node could be offered as a transaction hash).
    - Governance: whatever method runs, the recorded stakes are the sum of the authorisations and of the stakes of the peers, and
      the promised fees are the sum of the shares; the end of an epoch elects the largest stakes; stake frozen at a peer that is
      not black-listed can be withdrawn after two epochs; a division of fees is covered by the balance; where the arithmetic wraps and what a key
      written in two ways does.
    - Validation: a block (other than of height 0, which is accepted unseen) is accepted only if it follows a known header and is signed by more than two thirds of the announced
      bookkeepers, and, unless a signature is good under two keys, whenever it does; the increment validator finds exactly the duplicates in its window.
    - Transaction pool: however the threads interleave, only transactions whose hash both validators have found good are in the pool, are
      offered to consensus, reported good for a block or passed on, and no thread panics, the validators included; consensus is offered the highest fees;
      a duplicate takes a slot that is not given back; the pool does not see that a block carries other signatures.
    - Cross-chain: paths handed out are accepted, an accepted path is true or exhibits a collision; a message is executed only with a proof under
      a trusted header, and once for each chain the caller names, across any sequence of calls; what is locked stays within the limit and is
      announced exactly; what is unlocked is paid exactly once, to the receiver.  A message is executed again under every other name that a caller gives its chain, one peer can sign for all, the count of crossed
      amounts is a distance, and the ONG of the proxy cannot be withdrawn.

    ** Conventions, fuel and bounds

    A Go integer is a [Z] with its wrap-around written out at each operation that can overflow; a
    [*big.Int] is a [Z].  Offsets into slices ([int]) are [Z] without wrap-around: a slice of [2^63] bytes
    does not exist.  A function that can fail returns [res]; an error leaves no state, since every
    caller modelled here abandons the object then.  Loops that are not structural take fuel and return
    [Panic] (or [None]) when it is used up; the theorems that the code returns a result show that the
    fuel given is enough: the number of bits of an index (Merkle), the number of entries plus the
    levels (skip list), the number of bytes (decoders), 20 rounds for 18 yearly intervals (release
    schedule), depth 1 for nested native calls (tokens; any depth in the cross-chain theorems).  [ZeroCopySink] and the loops over inputs are
    proved for buffers up to [2^58] bytes, as far as the growth of the buffer does not overflow.  Map iteration
    in Go has no fixed order; where the code ranges over a map the model takes the order as given by an
    enumeration, and the theorems hold for every one or say what depends on it.

    In the transaction pool an atomic action is a critical section of a mutex, an operation on a channel, a message sent, or a
    read or write of a field outside a lock; [verifyBlock] holds the lock of the pending block over many actions, so that
    lock is a field of the state and others block on it.  The ledger and the clock change between any two actions.  A message to
    an actor is an event of the state ([sent]) and its handling a thread of its own; the order in which a mailbox delivers is left
    open, which covers the runtime's.  The texts of replies are left out.  The validators get the transaction as a value: the
    cached [SignedAddr], which the stateless one writes to the shared object, is read by no code of the pool.

    In the cross-chain contracts the code of a NeoVM contract, the gas meter and the NeoVM service that runs it are parameters of [CrossChainNeoVMCall]; the theorem that a message
    is executed once assumes that such a contract removes no mark of the manager, whose storage is under another address.  The JSON of a
    consensus payload is a parameter; the event log is left out; the hash of a header is computed each time instead of cached.

    Two interfaces idealise code of the repository.  [PersistStore] is the persistent store as a sorted map without I/O errors: [core/store/leveldbstore] only passes
    calls to LevelDB.  The interpreter takes [signature_Verify] as part of its class [Crypto]; the function itself is modelled as [Verify_sig] in [Validation].

    Parameters stand for code outside the repository: SHA-256 and the other hashes, signature checks, the
    overflow library, the comparer, random source and store of LevelDB, Base58.  Each is a class or a
    section variable with its documented contract, and every theorem that uses one is applied to a concrete
    instance.

    ** Not modelled

    The legacy NeoVM engine, WebAssembly (a third-party interpreter), the network, HTTP, command line,
    wallets and the actor runtime (I/O and goroutines), the trie and RLP (copies of third-party code),
    the ledger store (LevelDB and files).  Of the modelled parts: string dumps, file flushing,
    serialisation of NeoVM values, gas accounting.

    Stopping the transaction pool (its stop channels).  The VBFT server (timers, goroutines, messages) around the block pool, and the pool's sealing of a block, which goes through
    the chain store.

    ** Plan

    Further native contracts (authorisation, global parameters), sealing of blocks in the
    VBFT pool, serialisation of NeoVM values, the NeoVM service and gas. *)

From Stdlib Require Export ZArith Lia.
From Stdlib Require Export Strings.Byte.
From stdpp Require Export base numbers list gmap strings.

#[export] Set Default Goal Selector "!".
#[global] Open Scope Z_scope.

(** ** Bytes

    A Go [byte] is the inductive type [byte] of the Standard Library; [bz] is
    its unsigned value and [zb] the conversion [byte(z)] of an integer, which
    keeps the low eight bits. *)

Definition bz (b : byte) : Z := Z.of_N (Byte.to_N b).

Definition zb (z : Z) : byte :=
  match Byte.of_N (Z.to_N (z mod 256)) with Some b => b | None => x00 end.

#[global] Instance byte_eq_dec : EqDecision byte.
Proof. intros x y. apply Byte.byte_eq_dec. Defined.

Lemma bz_range b : 0 <= bz b < 256.
Proof. unfold bz. pose proof (Byte.to_N_bounded b). lia. Qed.

Lemma zb_bz b : zb (bz b) = b.
Proof.
  unfold zb. rewrite Z.mod_small by apply bz_range.
  unfold bz. rewrite N2Z.id, Byte.of_to_N. reflexivity.
Qed.

Lemma bz_zb z : bz (zb z) = z mod 256.
Proof.
  unfold zb. pose proof (Z.mod_pos_bound z 256 eq_refl) as Hm.
  destruct (Byte.of_N (Z.to_N (z mod 256))) as [b|] eqn:E.
  - apply Byte.to_of_N in E. unfold bz. rewrite E. lia.
  - apply Byte.of_N_None_iff in E. lia.
Qed.

Lemma bz_zb_small z : 0 <= z < 256 -> bz (zb z) = z.
Proof. intros. rewrite bz_zb. apply Z.mod_small. lia. Qed.

#[global] Instance bz_inj : Inj (=) (=) bz.
Proof. intros x y H. rewrite <- (zb_bz x), <- (zb_bz y), H. reflexivity. Qed.

#[global] Instance byte_countable : Countable byte.
Proof.
  apply (inj_countable' (fun b => Byte.to_N b)
    (fun n => match Byte.of_N n with Some b => b | None => x00 end)).
  intros b. rewrite Byte.of_to_N. reflexivity.
Defined.

(** ** Machine integers

    Go integers are values of [Z] kept at their width: [uN z] is the conversion
    to an N-bit unsigned type, [sN z] to an N-bit signed one. *)

Definition u8 (z : Z) : Z := z mod 2 ^ 8.
Definition u16 (z : Z) : Z := z mod 2 ^ 16.
Definition u32 (z : Z) : Z := z mod 2 ^ 32.
Definition u64 (z : Z) : Z := z mod 2 ^ 64.
Definition swrap (w z : Z) : Z := (z + 2 ^ (w - 1)) mod 2 ^ w - 2 ^ (w - 1).
Definition s16 (z : Z) : Z := swrap 16 z.
Definition s32 (z : Z) : Z := swrap 32 z.
Definition s64 (z : Z) : Z := swrap 64 z.

Definition is_u32 (z : Z) : Prop := 0 <= z < 2 ^ 32.
Definition is_u64 (z : Z) : Prop := 0 <= z < 2 ^ 64.
Definition is_s64 (z : Z) : Prop := - 2 ^ 63 <= z < 2 ^ 63.

Definition MAX_UINT64 : Z := 2 ^ 64 - 1.
Definition MaxInt64 : Z := 2 ^ 63 - 1.
Definition MinInt64 : Z := - 2 ^ 63.

(** The powers of two that occur as word sizes, as literals [lia] reads. *)
Lemma pow8 : 2 ^ 8 = 256. Proof. reflexivity. Qed.
Lemma pow16 : 2 ^ 16 = 65536. Proof. reflexivity. Qed.
Lemma pow31 : 2 ^ 31 = 2147483648. Proof. reflexivity. Qed.
Lemma pow32 : 2 ^ 32 = 4294967296. Proof. reflexivity. Qed.
Lemma pow63 : 2 ^ 63 = 9223372036854775808. Proof. reflexivity. Qed.
Lemma pow64 : 2 ^ 64 = 18446744073709551616. Proof. reflexivity. Qed.

(** [words] unfolds the width predicates and conversions and normalises the
    powers, then hands the goal to [lia] (which knows [mod] and [div]). *)
Ltac words_in_all :=
  unfold u8, u16, u32, u64, s16, s32, s64, swrap, is_u32, is_u64, is_s64,
    MAX_UINT64, MaxInt64, MinInt64 in *;
  rewrite ?pow8, ?pow16, ?pow31, ?pow32, ?pow63, ?pow64 in *.

Ltac words := words_in_all; try lia; try (Z.div_mod_to_equations; lia).

Lemma u64_small z : is_u64 z -> u64 z = z.
Proof. intros. unfold u64. apply Z.mod_small. assumption. Qed.

Lemma u32_small z : is_u32 z -> u32 z = z.
Proof. intros. unfold u32. apply Z.mod_small. assumption. Qed.

Lemma s64_small z : is_s64 z -> s64 z = z.
Proof. intros. unfold s64, swrap. rewrite Z.mod_small; words. Qed.

Lemma u64_range z : is_u64 (u64 z).
Proof. apply Z.mod_pos_bound. reflexivity. Qed.

Lemma u32_range z : is_u32 (u32 z).
Proof. apply Z.mod_pos_bound. reflexivity. Qed.

Lemma s64_range z : is_s64 (s64 z).
Proof.
  unfold s64, swrap, is_s64. pose proof (Z.mod_pos_bound (z + 2 ^ 63) (2 ^ 64) eq_refl).
  change (64 - 1) with 63. lia.
Qed.

(** ** Little-endian numbers: [binary.LittleEndian] of the Go library *)

Fixpoint le2z (l : list byte) : Z :=
  match l with [] => 0 | b :: l' => bz b + 256 * le2z l' end.

Fixpoint z2le (n : nat) (z : Z) : list byte :=
  match n with O => [] | S n' => zb z :: z2le n' (z / 256) end.

Lemma length_z2le n z : length (z2le n z) = n.
Proof. revert z; induction n; intros; simpl; auto. Qed.

Lemma le2z_range l : 0 <= le2z l < 256 ^ Z.of_nat (length l).
Proof.
  induction l as [|b l IH]; [simpl; lia|].
  cbn [length le2z]. rewrite Nat2Z.inj_succ, Z.pow_succ_r by lia.
  pose proof (bz_range b). nia.
Qed.

Lemma le2z_z2le n z : le2z (z2le n z) = z mod 256 ^ Z.of_nat n.
Proof.
  revert z; induction n as [|n IH]; intros z.
  - simpl. rewrite Z.mod_1_r. reflexivity.
  - cbn [z2le le2z]. rewrite IH, bz_zb, Nat2Z.inj_succ, Z.pow_succ_r by lia.
    rewrite Z.rem_mul_r by lia. reflexivity.
Qed.

Lemma z2le_le2z l : z2le (length l) (le2z l) = l.
Proof.
  induction l as [|b l IH]; [reflexivity|].
  cbn [length le2z z2le]. pose proof (bz_range b) as Hb.
  replace (256 * le2z l) with (le2z l * 256) by lia.
  rewrite Z.div_add, Z.div_small, Z.add_0_l, IH by lia. f_equal.
  apply (inj bz). rewrite bz_zb, Z.mod_add, Z.mod_small by lia. reflexivity.
Qed.

Lemma le2z_app l1 l2 :
  le2z (l1 ++ l2) = le2z l1 + 256 ^ Z.of_nat (length l1) * le2z l2.
Proof.
  induction l1 as [|b l1 IH]; [simpl; lia|].
  rewrite <- app_comm_cons. cbn [length le2z].
  rewrite IH, Nat2Z.inj_succ, Z.pow_succ_r by lia. ring.
Qed.

Lemma le2z_inj l1 l2 : length l1 = length l2 -> le2z l1 = le2z l2 -> l1 = l2.
Proof. intros Hl He. rewrite <- (z2le_le2z l1), <- (z2le_le2z l2), Hl, He. reflexivity. Qed.

(** ** Outcomes

    A Go function that may fail returns a value or an error; one that indexes
    out of range panics.  [res] has the three outcomes. *)

Definition gerror := string.

Inductive res (A : Type) : Type :=
  | Ok (a : A)
  | Err (e : gerror)
  | Panic.
Arguments Ok {A} _.
Arguments Err {A} _.
Arguments Panic {A}.

Definition res_bind {A B} (c : res A) (k : A -> res B) : res B :=
  match c with Ok a => k a | Err e => Err e | Panic => Panic end.

Declare Scope go_scope.
Delimit Scope go_scope with go.
Notation "'let*' x ':=' c 'in' k" := (res_bind c (fun x => k))
  (at level 10, x binder, c at level 100, k at level 200) : go_scope.
Notation "'let*' ' p ':=' c 'in' k" := (res_bind c (fun x => match x with p => k end))
  (at level 10, p pattern, c at level 100, k at level 200) : go_scope.
#[global] Open Scope go_scope.

Lemma res_bind_Ok {A B} (c : res A) (k : A -> res B) b :
  res_bind c k = Ok b <-> exists a, c = Ok a /\ k a = Ok b.
Proof.
  destruct c as [a|e|]; simpl; split; intros H; try discriminate.
  - exists a. auto.
  - destruct H as (a' & [= <-] & H). exact H.
  - destruct H as (a' & [=] & _).
  - destruct H as (a' & [=] & _).
Qed.

(** [guard b e]: the early return [if !b { return err }]. *)
Definition guard (b : bool) (e : gerror) : res unit := if b then Ok () else Err e.

(** [inv_res] takes apart a hypothesis [res_bind _ _ = Ok _]. *)
Ltac inv_res :=
  repeat match goal with
  | H : res_bind _ _ = Ok _ |- _ =>
      apply res_bind_Ok in H; destruct H as (? & ? & H)
  | H : Ok _ = Ok _ |- _ => injection H as H; subst
  | H : Err _ = Ok _ |- _ => discriminate H
  | H : Panic = Ok _ |- _ => discriminate H
  end.

(** ** State and errors

    Code that mutates a receiver [self] of type [S] and may fail is a function
    [S -> res (A * S)].  An error or a panic leaves no state: the callers
    modelled here all abandon the object then. *)

Definition ST (S A : Type) : Type := S -> res (A * S).
Definition st_ret {S A} (a : A) : ST S A := fun s => Ok (a, s).
Definition st_bind {S A B} (c : ST S A) (k : A -> ST S B) : ST S B :=
  fun s => match c s with Ok (a, s') => k a s' | Err e => Err e | Panic => Panic end.
Definition st_err {S A} (e : gerror) : ST S A := fun _ => Err e.
Definition st_panic {S A} : ST S A := fun _ => Panic.
Definition st_get {S} : ST S S := fun s => Ok (s, s).
Definition st_put {S} (s : S) : ST S unit := fun _ => Ok ((), s).
Definition st_lift {S A} (r : res A) : ST S A :=
  fun s => match r with Ok a => Ok (a, s) | Err e => Err e | Panic => Panic end.
Definition st_guard {S} (b : bool) (e : gerror) : ST S unit := st_lift (guard b e).

Notation "'do' x <- c ; k" := (st_bind c (fun x => k))
  (at level 10, x binder, c at level 100, k at level 200) : go_scope.
Notation "'do' ' p <- c ; k" := (st_bind c (fun x => match x with p => k end))
  (at level 10, p pattern, c at level 100, k at level 200) : go_scope.
Notation "'do_' c ; k" := (st_bind c (fun _ => k))
  (at level 10, c at level 100, k at level 200) : go_scope.

Lemma st_bind_Ok {S A B} (c : ST S A) (k : A -> ST S B) s b s' :
  st_bind c k s = Ok (b, s') <-> exists a s1, c s = Ok (a, s1) /\ k a s1 = Ok (b, s').
Proof.
  unfold st_bind. destruct (c s) as [[a s1]|e|]; split; intros H; try discriminate.
  - exists a, s1. auto.
  - destruct H as (a' & s1' & [= <- <-] & H). exact H.
  - destruct H as (a' & s1' & [=] & _).
  - destruct H as (a' & s1' & [=] & _).
Qed.

Lemma st_bind_eq {S A B} (c : ST S A) (k : A -> ST S B) s a s1 :
  c s = Ok (a, s1) -> st_bind c k s = k a s1.
Proof. intros H. unfold st_bind. rewrite H. reflexivity. Qed.

Lemma st_bind_err {S A B} (c : ST S A) (k : A -> ST S B) s e : c s = Err e -> st_bind c k s = Err e.
Proof. intros E. unfold st_bind. rewrite E. reflexivity. Qed.

(** [run E] performs the first step of a [do] by the equation [E] for it. *)
Ltac run E := rewrite (st_bind_eq _ _ _ _ _ E).

(** ** Lists and slices *)

Definition zlen {A} (l : list A) : Z := Z.of_nat (length l).

Lemma zlen_nonneg {A} (l : list A) : 0 <= zlen l.
Proof. unfold zlen. lia. Qed.

Lemma zlen_nil {A} : zlen (@nil A) = 0.
Proof. reflexivity. Qed.

Lemma zlen_cons {A} (x : A) l : zlen (x :: l) = 1 + zlen l.
Proof. unfold zlen. simpl. lia. Qed.

Lemma zlen_app {A} (l1 l2 : list A) : zlen (l1 ++ l2) = zlen l1 + zlen l2.
Proof. unfold zlen. rewrite length_app. lia. Qed.

Lemma zlen_z2le n z : zlen (z2le n z) = Z.of_nat n.
Proof. unfold zlen. rewrite length_z2le. reflexivity. Qed.

(** [slice l i j]: the Go slice expression [l[i:j]]; it panics unless
    [0 <= i <= j <= len l]. *)
Definition slice {A} (l : list A) (i j : Z) : option (list A) :=
  if (0 <=? i) && (i <=? j) && (j <=? zlen l)
  then Some (take (Z.to_nat (j - i)) (drop (Z.to_nat i) l)) else None.

Lemma slice_Some {A} (l : list A) i j :
  0 <= i -> i <= j -> j <= zlen l ->
  slice l i j = Some (take (Z.to_nat (j - i)) (drop (Z.to_nat i) l)).
Proof.
  intros. unfold slice.
  rewrite (proj2 (Z.leb_le 0 i)), (proj2 (Z.leb_le i j)), (proj2 (Z.leb_le j (zlen l))) by lia.
  reflexivity.
Qed.

(** Cutting [b] out of [a ++ b ++ c]. *)
Lemma take_drop_middle_app {A} (a b c : list A) :
  take (length b) (drop (length a) (a ++ b ++ c)) = b.
Proof. rewrite drop_app_length, take_app_length. reflexivity. Qed.

Lemma slice_middle {A} (a b c : list A) :
  slice (a ++ b ++ c) (zlen a) (zlen a + zlen b) = Some b.
Proof.
  rewrite slice_Some; rewrite ?zlen_app; unfold zlen; try lia.
  replace (Z.to_nat _) with (length b) by lia.
  rewrite Nat2Z.id, take_drop_middle_app. reflexivity.
Qed.

(** ** In-place reversal

    [for i, j := 0, len(u)-1; i < j; i, j = i+1, j-1 { u[i], u[j] = u[j], u[i] }]:
    the loop with its two indices; [k] bounds the iterations ([length u] are
    enough). *)
Fixpoint swap_loop {A} (k i j : nat) (u : list A) : list A :=
  match k with
  | O => u
  | S k' =>
      if (i <? j)%nat then
        match u !! i, u !! j with
        | Some x, Some y => swap_loop k' (S i) (j - 1)%nat (<[j := x]> (<[i := y]> u))
        | _, _ => u
        end
      else u
  end.

Definition reverse_in_place {A} (u : list A) : list A := swap_loop (length u) 0 (length u - 1) u.

Lemma insert_middle {A} (a b : list A) (x y : A) i :
  length a = i -> <[i := y]> (a ++ x :: b) = a ++ y :: b.
Proof. intros <-. rewrite insert_app_r_alt, Nat.sub_diag by lia. reflexivity. Qed.

Lemma swap_ends {A} (a b : list A) (x y : A) m i j :
  length a = i -> j = (i + S (length m))%nat ->
  <[j := x]> (<[i := y]> (a ++ x :: m ++ y :: b)) = a ++ y :: m ++ x :: b.
Proof.
  intros Ha ->. rewrite (insert_middle a _ x y i Ha).
  rewrite app_comm_cons, app_assoc, insert_middle by (rewrite length_app; simpl; lia).
  rewrite <- app_assoc. reflexivity.
Qed.

Lemma swap_loop_rev {A} k (a u b : list A) i j :
  length a = i -> j = (i + length u - 1)%nat -> (length u <= k)%nat ->
  swap_loop k i j (a ++ u ++ b) = a ++ rev u ++ b.
Proof.
  revert a u b i j. induction k as [|k IH]; intros a u b i j Ha Hj Hk.
  { destruct u; simpl in *; [reflexivity | lia]. }
  destruct u as [|x u]; [simpl in *; destruct (Nat.ltb_spec i j); [lia | reflexivity]|].
  destruct u as [|y0 u0] using rev_ind.
  { simpl in *. destruct (Nat.ltb_spec i j); [lia | reflexivity]. }
  clear IHu0. cbn [length swap_loop] in *. rewrite length_app in Hj, Hk. simpl in Hj, Hk.
  rewrite (proj2 (Nat.ltb_lt i j)) by lia.
  replace (a ++ (x :: u0 ++ [y0]) ++ b) with (a ++ x :: u0 ++ y0 :: b)
    by (rewrite <- app_comm_cons, <- app_assoc; reflexivity).
  rewrite list_lookup_middle by congruence.
  rewrite app_comm_cons, app_assoc, list_lookup_middle
    by (rewrite length_app; simpl; lia).
  rewrite <- app_assoc, <- app_comm_cons, swap_ends by lia.
  replace (a ++ y0 :: u0 ++ x :: b) with ((a ++ [y0]) ++ u0 ++ x :: b)
    by (rewrite <- app_assoc; reflexivity).
  rewrite (IH (a ++ [y0]) u0 (x :: b) (S i) (j - 1)%nat); rewrite ?length_app; simpl; try lia.
  rewrite rev_app_distr. simpl. rewrite <- !app_assoc. reflexivity.
Qed.

Lemma reverse_in_place_rev {A} (u : list A) : reverse_in_place u = rev u.
Proof.
  unfold reverse_in_place. rewrite <- (app_nil_r u) at 3. rewrite <- (app_nil_l (u ++ [])).
  rewrite (swap_loop_rev _ [] u []); simpl; rewrite ?app_nil_r; auto with lia.
Qed.

(** ** Hint databases *)

Create HintDb go.
Create Rewrite HintDb go.
#[export] Hint Resolve bz_range u64_range u32_range s64_range zlen_nonneg le2z_range : go.
#[export] Hint Rewrite @zlen_app @zlen_cons @zlen_nil zlen_z2le length_z2le : go.
