(* ===== verification/Codec.v ===== *)
(** * Byte codec: [common/zero_copy_source.go], [common/zero_copy_sink.go],
    [common/safeMath.go]

    [Source] models the cursor [ZeroCopySource], [Sink] the growable buffer
    [ZeroCopySink] with its backing array, length and capacity.  The interface
    between the two, and to every type with [Serialization] and
    [Deserialization] methods, is the class [Wire] at the end. *)

From S2P Require Import Prelude.

(** ** [common/safeMath.go] *)

Definition SafeSub (x y : Z) : Z * bool := (u64 (x - y), x <? y).
Definition SafeAdd (x y : Z) : Z * bool := (u64 (x + y), MAX_UINT64 - x <? y).
Definition SafeMul (x y : Z) : Z * bool :=
  if (x =? 0) || (y =? 0) then (0, false)
  else (u64 (x * y), MAX_UINT64 / x <? y).

Lemma SafeAdd_ok x y : is_u64 x -> is_u64 y -> x + y < 2 ^ 64 -> SafeAdd x y = (x + y, false).
Proof.
  intros Hx Hy H. unfold SafeAdd. rewrite u64_small by words.
  f_equal. apply Z.ltb_ge. words.
Qed.

Lemma SafeAdd_overflow x y : is_u64 x -> 2 ^ 64 <= x + y -> snd (SafeAdd x y) = true.
Proof. intros Hx H. unfold SafeAdd. apply Z.ltb_lt. words. Qed.

Definition UINT16_SIZE : Z := 2.
Definition UINT32_SIZE : Z := 4.
Definition UINT64_SIZE : Z := 8.
Definition UINT256_SIZE : Z := 32.
Definition ADDR_LEN : Z := 20.
Definition I128_SIZE : Z := 16.

(** ** [ZeroCopySource] *)

Record ZeroCopySource := mkSource { src_s : list byte; src_off : Z }.

Definition NewZeroCopySource (b : list byte) : ZeroCopySource := mkSource b 0.

Module Source.

Definition Len (self : ZeroCopySource) : Z :=
  if zlen (src_s self) <=? src_off self then 0 else zlen (src_s self) - src_off self.
Definition Pos (self : ZeroCopySource) : Z := src_off self.
Definition Size (self : ZeroCopySource) : Z := zlen (src_s self).

(** The reading methods return their results, the last of which is [eof]. *)
Definition NextBytes (n : Z) : ST ZeroCopySource (list byte * bool) := fun self =>
  let m := zlen (src_s self) in
  let '(e, overflow) := SafeAdd (src_off self) n in
  let '(e, eof) := if overflow || (m <? e) then (m, true) else (e, false) in
  match slice (src_s self) (src_off self) e with
  | Some data => Ok ((data, eof), mkSource (src_s self) e)
  | None => Panic
  end.

Definition Skip (n : Z) : ST ZeroCopySource bool := fun self =>
  let m := zlen (src_s self) in
  let '(e, overflow) := SafeAdd (src_off self) n in
  let '(e, eof) := if overflow || (m <? e) then (m, true) else (e, false) in
  Ok (eof, mkSource (src_s self) e).

Definition NextByte : ST ZeroCopySource (byte * bool) := fun self =>
  if zlen (src_s self) <=? src_off self then Ok ((x00, true), self)
  else match src_s self !! Z.to_nat (src_off self) with
       | Some b => Ok ((b, false), mkSource (src_s self) (u64 (src_off self + 1)))
       | None => Panic
       end.

Definition NextUint8 : ST ZeroCopySource (Z * bool) :=
  do '(val, eof) <- NextByte; st_ret (bz val, eof).

(** [NextBool] returns [data], [irregular], [eof]. *)
Definition NextBool : ST ZeroCopySource (bool * bool * bool) :=
  do '(val, eof) <- NextByte;
  if bz val =? 0 then st_ret (false, false, eof)
  else if bz val =? 1 then st_ret (true, false, eof)
  else st_ret (true, true, eof).

Definition BackUp (n : Z) : ST ZeroCopySource unit := fun self =>
  Ok ((), mkSource (src_s self) (u64 (src_off self - n))).

(** The fixed-width integers share one body: [NextBytes(size)], then
    [binary.LittleEndian] unless the end was reached. *)
Definition NextUintN (size : Z) : ST ZeroCopySource (Z * bool) :=
  do '(buf, eof) <- NextBytes size;
  if eof : bool then st_ret (0, eof) else st_ret (le2z buf, eof).

Definition NextUint16 : ST ZeroCopySource (Z * bool) := NextUintN UINT16_SIZE.
Definition NextUint32 : ST ZeroCopySource (Z * bool) := NextUintN UINT32_SIZE.
Definition NextUint64 : ST ZeroCopySource (Z * bool) := NextUintN UINT64_SIZE.

Definition NextInt16 : ST ZeroCopySource (Z * bool) :=
  do '(val, eof) <- NextUint16; st_ret (s16 val, eof).
Definition NextInt32 : ST ZeroCopySource (Z * bool) :=
  do '(val, eof) <- NextUint32; st_ret (s32 val, eof).
Definition NextInt64 : ST ZeroCopySource (Z * bool) :=
  do '(val, eof) <- NextUint64; st_ret (s64 val, eof).

Definition getVarUintSize (value : Z) : Z :=
  if value <? 0xfd then 1
  else if value <=? 0xffff then 3
  else if value <=? 0xffffffff then 5
  else 9.

(** [NextVarUint] returns [data], [size], [irregular], [eof]. *)
Definition NextVarUint : ST ZeroCopySource (Z * Z * bool * bool) :=
  do '(fb, eof) <- NextByte;
  if eof : bool then st_ret (0, 0, false, eof) else
  let wide (next : ST ZeroCopySource (Z * bool)) (size : Z) :=
    do '(val, e) <- next;
    if e : bool then st_ret (0, 0, false, e)
    else st_ret (val, size, negb (size =? getVarUintSize val), false) in
  if bz fb =? 0xfd then wide NextUint16 3
  else if bz fb =? 0xfe then wide NextUint32 5
  else if bz fb =? 0xff then wide NextUint64 9
  else st_ret (bz fb, 1, negb (1 =? getVarUintSize (bz fb)), false).

(** [NextVarBytes] returns [data], [size], [irregular], [eof]. *)
Definition NextVarBytes : ST ZeroCopySource (list byte * Z * bool * bool) :=
  do '(count, size, irregular, eof) <- NextVarUint;
  let size := u64 (size + count) in
  if 0 <? count then
    do '(data, eof) <- NextBytes count; st_ret (data, size, irregular, eof)
  else st_ret ([], size, irregular, eof).

(** Fixed-size arrays: [NextAddress], [NextI128], [NextHash]; the zero array
    is returned with [eof]. *)
Definition NextArray (size : Z) : ST ZeroCopySource (list byte * bool) :=
  do '(buf, eof) <- NextBytes size;
  if eof : bool then st_ret (repeat x00 (Z.to_nat size), eof) else st_ret (buf, eof).

Definition NextAddress : ST ZeroCopySource (list byte * bool) := NextArray ADDR_LEN.
Definition NextI128 : ST ZeroCopySource (list byte * bool) := NextArray I128_SIZE.
Definition NextHash : ST ZeroCopySource (list byte * bool) := NextArray UINT256_SIZE.

(** A Go [string] is its bytes. *)
Definition NextString : ST ZeroCopySource (list byte * Z * bool * bool) := NextVarBytes.

(** *** Invariant and the unread suffix *)

(** The cursor stays inside the slice; a Go slice has fewer than [2^63] bytes. *)
Definition wf (src : ZeroCopySource) : Prop :=
  0 <= src_off src <= zlen (src_s src) /\ zlen (src_s src) < 2 ^ 63.

Definition rest (src : ZeroCopySource) : list byte := drop (Z.to_nat (src_off src)) (src_s src).

Definition adv (n : Z) (src : ZeroCopySource) : ZeroCopySource :=
  mkSource (src_s src) (src_off src + n).

Lemma zlen_rest src : wf src -> zlen (rest src) = zlen (src_s src) - src_off src.
Proof. intros [H _]. unfold rest, zlen in *. rewrite length_drop. lia. Qed.

Lemma wf_adv n src : wf src -> 0 <= n <= zlen (rest src) -> wf (adv n src).
Proof. intros Hwf Hn. rewrite zlen_rest in Hn by assumption. destruct Hwf. split; simpl; lia. Qed.

Lemma rest_adv n src : wf src -> 0 <= n -> rest (adv n src) = drop (Z.to_nat n) (rest src).
Proof.
  intros [Ho _] Hn. unfold rest, adv; simpl. rewrite drop_drop. f_equal. lia.
Qed.

Lemma adv_adv n m src : adv n (adv m src) = adv (m + n) src.
Proof. unfold adv; simpl. f_equal. lia. Qed.

Lemma adv_0 src : adv 0 src = src.
Proof. destruct src. unfold adv; simpl. f_equal. lia. Qed.

Lemma wf_new_source b : zlen b < 2 ^ 63 -> wf (NewZeroCopySource b).
Proof. intros. split; simpl; [pose proof (zlen_nonneg b); lia | assumption]. Qed.

Lemma rest_new b : rest (NewZeroCopySource b) = b.
Proof. reflexivity. Qed.

(** [NextBytes] on a well-formed cursor: the whole behaviour. *)
Lemma NextBytes_spec n src :
  wf src -> is_u64 n ->
  NextBytes n src =
    if n <=? zlen (rest src)
    then Ok ((take (Z.to_nat n) (rest src), false), adv n src)
    else Ok ((rest src, true), adv (zlen (rest src)) src).
Proof.
  intros Hwf Hn. pose proof (zlen_rest _ Hwf) as Hr. destruct Hwf as [Ho Hs].
  unfold NextBytes. assert (0 <= n < 2 ^ 64) as Hn' by exact Hn.
  destruct (Z.leb_spec n (zlen (rest src))) as [Hle|Hgt].
  - rewrite SafeAdd_ok by words. cbn [orb].
    rewrite (proj2 (Z.ltb_ge _ _)) by lia. rewrite slice_Some by lia.
    unfold rest, adv. do 3 f_equal. f_equal. f_equal. lia.
  - assert (He : (let '(e, overflow) := SafeAdd (src_off src) n in
                  if overflow || (zlen (src_s src) <? e)
                  then (zlen (src_s src), true) else (e, false))
                 = (zlen (src_s src), true)).
    { destruct (Z.ltb_spec (src_off src + n) (2 ^ 64)).
      - rewrite SafeAdd_ok by words. cbn [orb].
        rewrite (proj2 (Z.ltb_lt _ _)) by lia. reflexivity.
      - pose proof (SafeAdd_overflow (src_off src) n) as Hov.
        destruct (SafeAdd (src_off src) n) as [e ov]. simpl in Hov.
        rewrite Hov by words. reflexivity. }
    destruct (SafeAdd (src_off src) n) as [e ov]. cbn beta iota in He. rewrite He.
    rewrite slice_Some by lia. unfold rest, adv.
    rewrite take_ge by (rewrite length_drop; unfold zlen in *; lia).
    do 2 f_equal. f_equal. unfold zlen in *. rewrite length_drop. lia.
Qed.

Lemma NextByte_cons src b bs :
  wf src -> rest src = b :: bs -> NextByte src = Ok ((b, false), adv 1 src).
Proof.
  intros Hwf Hr. pose proof (zlen_rest _ Hwf) as Hl. rewrite Hr, zlen_cons in Hl.
  pose proof (zlen_nonneg bs). unfold NextByte.
  rewrite (proj2 (Z.leb_gt _ _)) by lia.
  assert (Hlk : src_s src !! Z.to_nat (src_off src) = Some b).
  { rewrite <- (Nat.add_0_r (Z.to_nat _)), <- lookup_drop. fold (rest src). rewrite Hr. reflexivity. }
  rewrite Hlk, u64_small by (destruct Hwf; words). reflexivity.
Qed.

Lemma NextByte_nil src :
  wf src -> rest src = [] -> NextByte src = Ok ((x00, true), src).
Proof.
  intros Hwf Hr. pose proof (zlen_rest _ Hwf) as Hl. rewrite Hr, zlen_nil in Hl.
  unfold NextByte. rewrite (proj2 (Z.leb_le _ _)) by lia. reflexivity.
Qed.

(** *** Readers that cannot fail

    [safe r]: on a well-formed cursor [r] returns (never panics), only moves
    the cursor forward and leaves it well formed. *)
Definition safe {A} (r : ST ZeroCopySource A) : Prop :=
  forall src, wf src -> exists a src',
    r src = Ok (a, src') /\ wf src' /\ src_s src' = src_s src /\ src_off src <= src_off src'.

Lemma rd_ret {A} (a : A) : safe (st_ret a).
Proof. intros src H. exists a, src. auto with lia. Qed.

Lemma rd_bind {A B} (c : ST ZeroCopySource A) (k : A -> ST ZeroCopySource B) :
  safe c -> (forall a, safe (k a)) -> safe (st_bind c k).
Proof.
  intros Hc Hk src H. destruct (Hc src H) as (a & s1 & E1 & W1 & S1 & O1).
  destruct (Hk a s1 W1) as (b & s2 & E2 & W2 & S2 & O2).
  exists b, s2. rewrite (st_bind_eq _ _ _ _ _ E1). repeat split; auto; try congruence; try apply W2; lia.
Qed.

Lemma safe_adv {A} (r : ST ZeroCopySource A) src a n :
  wf src -> r src = Ok (a, adv n src) -> 0 <= n <= zlen (rest src) ->
  exists a src', r src = Ok (a, src') /\ wf src' /\ src_s src' = src_s src /\ src_off src <= src_off src'.
Proof.
  intros H E Hn. exists a, (adv n src). split; [exact E|]. split; [apply wf_adv; assumption|].
  simpl. auto with lia.
Qed.

Lemma safe_NextBytes n : is_u64 n -> safe (NextBytes n).
Proof.
  intros Hn src H. pose proof (NextBytes_spec n src H Hn) as E.
  pose proof (zlen_nonneg (rest src)).
  destruct Hn. destruct (Z.leb_spec n (zlen (rest src)));
    (eapply safe_adv; [exact H | exact E | lia]).
Qed.

Lemma safe_NextByte : safe NextByte.
Proof.
  intros src H. destruct (rest src) as [|b bs] eqn:Hr.
  - exists (x00, true), src. rewrite (NextByte_nil src H Hr). auto with lia.
  - pose proof (NextByte_cons src b bs H Hr) as E.
    pose proof (zlen_nonneg bs).
    eapply safe_adv; [exact H | exact E | rewrite Hr, zlen_cons; lia].
Qed.

Lemma safe_if {A} (b : bool) (r1 r2 : ST ZeroCopySource A) :
  safe r1 -> safe r2 -> safe (if b then r1 else r2).
Proof. destruct b; auto. Qed.

Lemma safe_NextUintN n : is_u64 n -> safe (NextUintN n).
Proof.
  intros Hn. apply rd_bind; [apply safe_NextBytes; exact Hn|].
  intros [buf eof]. apply safe_if; apply rd_ret.
Qed.

(** The value [NextVarUint] decodes is a 64-bit number. *)
Lemma NextUintN_range n src v e s' :
  wf src -> 0 <= n <= 8 -> NextUintN n src = Ok ((v, e), s') -> is_u64 v.
Proof.
  intros H Hn E. unfold NextUintN in E. unfold st_bind in E.
  rewrite NextBytes_spec in E by (auto; words). revert E.
  destruct (Z.leb_spec n (zlen (rest src))); unfold st_ret; intros [= <- <- <-]; [|words].
  pose proof (le2z_range (take (Z.to_nat n) (rest src))) as Hr. unfold zlen in *.
  rewrite length_take_le in Hr by lia.
  assert (256 ^ Z.of_nat (Z.to_nat n) <= 256 ^ 8) by (apply Z.pow_le_mono_r; lia).
  change (256 ^ 8) with (2 ^ 64) in *. split; lia.
Qed.

Lemma NextVarUint_range src v sz irr e s' :
  wf src -> NextVarUint src = Ok ((v, sz, irr, e), s') -> is_u64 v.
Proof.
  intros H E. unfold NextVarUint in E.
  apply st_bind_Ok in E as ([fb eof] & s1 & E1 & E).
  destruct (safe_NextByte src H) as (a & s1' & E1' & W1 & _).
  assert (s1' = s1) as -> by congruence.
  destruct eof; [injection E as <- <- <- <- <-; words|].
  assert (Hw : forall n size, 0 <= n <= 8 ->
    (do '(val, e0) <- NextUintN n;
     if e0 : bool then st_ret (0, 0, false, e0)
     else st_ret (val, size, negb (size =? getVarUintSize val), false)) s1 = Ok ((v, sz, irr, e), s')
    -> is_u64 v).
  { intros n size Hn Ew. apply st_bind_Ok in Ew as ([val e0] & s2 & E2 & Ew).
    apply NextUintN_range in E2; auto.
    destruct e0; injection Ew as <- <- <- <- <-; [words | assumption]. }
  repeat case_match; [| | | injection E as <- <- <- <- <-; pose proof (bz_range fb); words];
    eapply Hw; [|exact E| |exact E| |exact E]; unfold UINT16_SIZE, UINT32_SIZE, UINT64_SIZE; lia.
Qed.

Lemma safe_NextVarUint : safe NextVarUint.
Proof.
  apply rd_bind; [apply safe_NextByte|]. intros [fb eof].
  repeat apply safe_if; try apply rd_ret;
    (apply rd_bind; [apply safe_NextUintN; split; [discriminate | reflexivity] |
      intros [val e0]; apply safe_if; apply rd_ret]).
Qed.

Lemma safe_NextVarBytes : safe NextVarBytes.
Proof.
  intros src H. unfold NextVarBytes.
  destruct (safe_NextVarUint src H) as ([[[count size] irr] eof] & s1 & E1 & W1 & S1 & O1).
  pose proof (NextVarUint_range _ _ _ _ _ _ H E1) as Hc.
  rewrite (st_bind_eq _ _ _ _ _ E1).
  assert (Hk : safe (if 0 <? count then
    do '(data, eof0) <- NextBytes count; st_ret (data, u64 (size + count), irr, eof0)
    else st_ret ([], u64 (size + count), irr, eof))).
  { apply safe_if; [|apply rd_ret].
    apply rd_bind; [apply safe_NextBytes; exact Hc | intros [? ?]; apply rd_ret]. }
  destruct (Hk s1 W1) as (b & s2 & E2 & W2 & S2 & O2).
  exists b, s2. rewrite E2. repeat split; auto; try congruence; try apply W2; lia.
Qed.

Lemma safe_NextArray n : is_u64 n -> safe (NextArray n).
Proof.
  intros Hn. apply rd_bind; [apply safe_NextBytes; exact Hn|].
  intros [buf eof]. apply safe_if; apply rd_ret.
Qed.

End Source.

(** ** The wire format of variable-length integers and byte strings *)

Definition enc_varuint (v : Z) : list byte :=
  if v <? 0xfd then [zb v]
  else if v <=? 0xffff then zb 0xfd :: z2le 2 v
  else if v <=? 0xffffffff then zb 0xfe :: z2le 4 v
  else zb 0xff :: z2le 8 v.

Definition enc_varbytes (bs : list byte) : list byte := enc_varuint (zlen bs) ++ bs.

Lemma zlen_enc_varuint v : zlen (enc_varuint v) = Source.getVarUintSize v.
Proof. unfold enc_varuint, Source.getVarUintSize. repeat case_match; reflexivity. Qed.

Lemma getVarUintSize_bounds v : 1 <= Source.getVarUintSize v <= 9.
Proof. unfold Source.getVarUintSize. repeat case_match; lia. Qed.

(** *** Parsers

    [parses r a bs]: reading [bs] off the front of the unread bytes, whatever
    follows, [r] returns [a] and consumes exactly [bs]. *)
Definition parses {A} (r : ST ZeroCopySource A) (a : A) (bs : list byte) : Prop :=
  forall src c, Source.wf src -> Source.rest src = bs ++ c ->
    r src = Ok (a, Source.adv (zlen bs) src).

Lemma parses_ret {A} (a : A) : parses (st_ret a) a [].
Proof. intros src c _ _. rewrite zlen_nil, Source.adv_0. reflexivity. Qed.

Lemma rest_adv_app src bs c :
  Source.wf src -> Source.rest src = bs ++ c ->
  Source.wf (Source.adv (zlen bs) src) /\ Source.rest (Source.adv (zlen bs) src) = c.
Proof.
  intros H Hr. pose proof (zlen_nonneg bs). pose proof (zlen_nonneg c). split.
  - apply Source.wf_adv; [exact H|]. rewrite Hr, zlen_app. lia.
  - rewrite Source.rest_adv, Hr by auto. unfold zlen. rewrite Nat2Z.id. apply drop_app_length.
Qed.

Lemma parses_bind {A B} (r : ST ZeroCopySource A) (k : A -> ST ZeroCopySource B) a b b1 b2 :
  parses r a b1 -> parses (k a) b b2 -> parses (st_bind r k) b (b1 ++ b2).
Proof.
  intros Hr Hk src c H Hs. rewrite <- app_assoc in Hs.
  rewrite (st_bind_eq _ _ _ _ _ (Hr src (b2 ++ c) H Hs)).
  destruct (rest_adv_app src b1 (b2 ++ c) H Hs) as [W1 R1].
  rewrite (Hk _ c W1 R1), Source.adv_adv, zlen_app. reflexivity.
Qed.

Lemma parses_bind' {A B} (r : ST ZeroCopySource A) (k : A -> ST ZeroCopySource B) a b b1 :
  parses r a b1 -> parses (k a) b [] -> parses (st_bind r k) b b1.
Proof. intros Hr Hk. rewrite <- (app_nil_r b1). eapply parses_bind; eassumption. Qed.

Lemma parses_bind_cons {A B} (r : ST ZeroCopySource A) (k : A -> ST ZeroCopySource B) a b x bs :
  parses r a [x] -> parses (k a) b bs -> parses (st_bind r k) b (x :: bs).
Proof. apply (parses_bind r k a b [x] bs). Qed.

Lemma parses_NextBytes bs : is_u64 (zlen bs) -> parses (Source.NextBytes (zlen bs)) (bs, false) bs.
Proof.
  intros Hn src c H Hr. rewrite Source.NextBytes_spec by assumption.
  rewrite Hr, zlen_app. pose proof (zlen_nonneg c).
  rewrite (proj2 (Z.leb_le _ _)) by lia.
  unfold zlen. rewrite Nat2Z.id, take_app_length. reflexivity.
Qed.

Lemma parses_NextByte b : parses Source.NextByte (b, false) [b].
Proof. intros src c H Hr. rewrite (Source.NextByte_cons _ _ _ H Hr). reflexivity. Qed.

Lemma parses_NextUintN n v :
  (n <= 8)%nat -> 0 <= v < 256 ^ Z.of_nat n ->
  parses (Source.NextUintN (Z.of_nat n)) (v, false) (z2le n v).
Proof.
  intros Hn Hv. rewrite <- (zlen_z2le n v). eapply parses_bind'.
  - apply parses_NextBytes. rewrite zlen_z2le. words.
  - cbn beta iota. rewrite le2z_z2le, Z.mod_small by assumption. apply parses_ret.
Qed.

Lemma parses_NextVarUint v :
  is_u64 v ->
  parses Source.NextVarUint (v, Source.getVarUintSize v, false, false) (enc_varuint v).
Proof.
  intros Hv. unfold Source.NextVarUint, enc_varuint, Source.getVarUintSize.
  destruct (Z.ltb_spec v 0xfd) as [H1|H1].
  { eapply parses_bind'; [apply parses_NextByte|]. cbn beta iota zeta.
    rewrite bz_zb_small by words.
    rewrite (proj2 (Z.eqb_neq v 0xfd)), (proj2 (Z.eqb_neq v 0xfe)), (proj2 (Z.eqb_neq v 0xff)) by words.
    unfold Source.getVarUintSize. rewrite (proj2 (Z.ltb_lt v 0xfd)) by lia. apply parses_ret. }
  destruct (Z.leb_spec v 0xffff) as [H2|H2];
    [|destruct (Z.leb_spec v 0xffffffff) as [H3|H3]];
    (eapply parses_bind_cons; [apply parses_NextByte|]);
    cbn beta iota zeta; rewrite bz_zb_small by lia; cbn [Z.eqb Pos.eqb].
  - eapply parses_bind'; [apply (parses_NextUintN 2); [lia | words]|]. cbn beta iota.
    unfold Source.getVarUintSize.
    rewrite (proj2 (Z.ltb_ge v 0xfd)), (proj2 (Z.leb_le v 0xffff)) by lia. apply parses_ret.
  - eapply parses_bind'; [apply (parses_NextUintN 4); [lia | words]|]. cbn beta iota.
    unfold Source.getVarUintSize.
    rewrite (proj2 (Z.ltb_ge v 0xfd)), (proj2 (Z.leb_gt v 0xffff)), (proj2 (Z.leb_le v 0xffffffff)) by lia.
    apply parses_ret.
  - eapply parses_bind'; [apply (parses_NextUintN 8); [lia | words]|]. cbn beta iota.
    unfold Source.getVarUintSize.
    rewrite (proj2 (Z.ltb_ge v 0xfd)), (proj2 (Z.leb_gt v 0xffff)), (proj2 (Z.leb_gt v 0xffffffff)) by lia.
    apply parses_ret.
Qed.

Lemma parses_NextVarBytes bs :
  zlen bs < 2 ^ 63 ->
  parses Source.NextVarBytes
    (bs, Source.getVarUintSize (zlen bs) + zlen bs, false, false) (enc_varbytes bs).
Proof.
  intros Hl. pose proof (zlen_nonneg bs). unfold enc_varbytes.
  pose proof (getVarUintSize_bounds (zlen bs)).
  eapply parses_bind; [apply parses_NextVarUint; words|]. cbn beta iota zeta.
  rewrite u64_small by words.
  destruct (Z.ltb_spec 0 (zlen bs)).
  - eapply parses_bind'; [apply parses_NextBytes; words | apply parses_ret].
  - assert (bs = []) as -> by (destruct bs; [reflexivity | rewrite zlen_cons in *; pose proof (zlen_nonneg bs); lia]).
    apply parses_ret.
Qed.

(** *** Canonical decoding

    A value accepted as regular was written in its only accepted form. *)

Lemma NextBytes_Ok_inv n src data src' :
  Source.wf src -> is_u64 n -> Source.NextBytes n src = Ok ((data, false), src') ->
  exists c, Source.rest src = data ++ c /\ zlen data = n /\ src' = Source.adv n src.
Proof.
  intros H Hn E. rewrite Source.NextBytes_spec in E by assumption.
  revert E. destruct (Z.leb_spec n (zlen (Source.rest src))) as [Hle|]; [|discriminate].
  intros [= <- <-]. exists (drop (Z.to_nat n) (Source.rest src)).
  rewrite take_drop. destruct Hn. split; [reflexivity|]. split; [|reflexivity].
  unfold zlen in *. rewrite length_take_le; lia.
Qed.

Lemma NextByte_Ok_inv src b src' :
  Source.wf src -> Source.NextByte src = Ok ((b, false), src') ->
  exists c, Source.rest src = b :: c /\ src' = Source.adv 1 src.
Proof.
  intros H E. destruct (Source.rest src) as [|b' c] eqn:Hr.
  - rewrite (Source.NextByte_nil _ H Hr) in E. discriminate.
  - rewrite (Source.NextByte_cons _ _ _ H Hr) in E. injection E as <- <-. eauto.
Qed.

Lemma NextUintN_Ok_inv n src v src' :
  Source.wf src -> (n <= 8)%nat -> Source.NextUintN (Z.of_nat n) src = Ok ((v, false), src') ->
  exists c, Source.rest src = z2le n v ++ c /\ src' = Source.adv (Z.of_nat n) src.
Proof.
  intros H Hn E. apply st_bind_Ok in E as ([buf eof] & s1 & E1 & E).
  destruct eof; [discriminate|]. injection E as <- <-.
  apply NextBytes_Ok_inv in E1 as (c & Hr & Hl & ->); [|assumption|words].
  exists c. split; [|reflexivity]. rewrite Hr. f_equal.
  replace n with (length buf) by (unfold zlen in Hl; lia). symmetry. apply z2le_le2z.
Qed.

Lemma zb_const_eq b z : bz b = z -> b = zb z.
Proof. intros <-. symmetry. apply zb_bz. Qed.

Lemma wide_canonical n tag src v sz irr src' (size : Z) :
  Source.wf src -> (n <= 8)%nat ->
  size = 1 + Z.of_nat n ->
  enc_varuint v = zb tag :: z2le n v \/ Source.getVarUintSize v <> size ->
  Source.rest src = zb tag :: drop 1 (Source.rest src) ->
  (do '(val, e) <- Source.NextUintN (Z.of_nat n);
   if e : bool then st_ret (0, 0, false, e)
   else st_ret (val, size, negb (size =? Source.getVarUintSize val), false)) (Source.adv 1 src)
    = Ok ((v, sz, irr, false), src') ->
  irr = false ->
  exists c, Source.rest src = enc_varuint v ++ c /\ src' = Source.adv (zlen (enc_varuint v)) src.
Proof.
  intros H Hn Hsz Henc Htag E ->. apply st_bind_Ok in E as ([val e] & s2 & E2 & E).
  destruct e; [discriminate|]. injection E as <- <- Hirr <-.
  apply negb_false_iff, Z.eqb_eq in Hirr.
  destruct Henc as [Henc|Hbad]; [|congruence].
  destruct (rest_adv_app src [zb tag] (drop 1 (Source.rest src)) H Htag) as [W1 R1].
  apply NextUintN_Ok_inv in E2 as (c & Hr & ->); [|exact W1|exact Hn].
  exists c. rewrite Henc. split.
  - rewrite Htag, <- app_comm_cons. f_equal. rewrite <- Hr. symmetry. exact R1.
  - rewrite Source.adv_adv. f_equal. rewrite zlen_cons, zlen_z2le. reflexivity.
Qed.

Lemma enc_varuint_by_size v :
  (enc_varuint v = zb 0xfd :: z2le 2 v \/ Source.getVarUintSize v <> 3) /\
  (enc_varuint v = zb 0xfe :: z2le 4 v \/ Source.getVarUintSize v <> 5) /\
  (enc_varuint v = zb 0xff :: z2le 8 v \/ Source.getVarUintSize v <> 9).
Proof. unfold enc_varuint, Source.getVarUintSize. repeat case_match; auto with lia. Qed.

Lemma NextVarUint_canonical_enc src v sz src' :
  Source.wf src -> Source.NextVarUint src = Ok ((v, sz, false, false), src') ->
  exists c, Source.rest src = enc_varuint v ++ c /\ src' = Source.adv (zlen (enc_varuint v)) src.
Proof.
  intros H E. unfold Source.NextVarUint in E.
  apply st_bind_Ok in E as ([fb eof] & s1 & E1 & E).
  destruct eof; [discriminate|].
  apply NextByte_Ok_inv in E1 as (c & Hr & ->); [|exact H].
  destruct (enc_varuint_by_size v) as (B3 & B5 & B9).
  assert (Htag : forall t, bz fb = t -> Source.rest src = zb t :: drop 1 (Source.rest src)).
  { intros t Ht. rewrite Hr. simpl. f_equal. apply zb_const_eq, Ht. }
  destruct (Z.eqb_spec (bz fb) 0xfd) as [T|T1];
    [eapply (wide_canonical 2); eauto with lia|].
  destruct (Z.eqb_spec (bz fb) 0xfe) as [T|T2];
    [eapply (wide_canonical 4); eauto with lia|].
  destruct (Z.eqb_spec (bz fb) 0xff) as [T|T3];
    [eapply (wide_canonical 8); eauto with lia|].
  injection E as <- <- _ <-. exists c. pose proof (bz_range fb).
  unfold enc_varuint. rewrite (proj2 (Z.ltb_lt _ _)) by lia.
  rewrite zb_bz. auto.
Qed.

Lemma NextVarBytes_canonical_enc src data sz src' :
  Source.wf src -> Source.NextVarBytes src = Ok ((data, sz, false, false), src') ->
  exists c, Source.rest src = enc_varbytes data ++ c /\ src' = Source.adv (zlen (enc_varbytes data)) src.
Proof.
  intros H E. apply st_bind_Ok in E as ([[[count size] irr] eof] & s1 & E1 & E).
  pose proof (Source.NextVarUint_range _ _ _ _ _ _ H E1) as Hc.
  assert (irr = false) as ->.
  { destruct (0 <? count); [apply st_bind_Ok in E as ([? ?] & ? & _ & E)|];
      injection E as _ _ -> _ _; reflexivity. }
  destruct (Z.ltb_spec 0 count) as [Hpos|Hz].
  - apply st_bind_Ok in E as ([d e] & s2 & E2 & E). injection E as -> _ -> ->.
    destruct eof.
    { exfalso. destruct (Source.safe_NextVarUint src H) as (a & s1' & E1' & W1 & _).
      assert (s1' = s1) as -> by congruence.
      revert E1. unfold Source.NextVarUint. clear - Hpos. intros E1.
      apply st_bind_Ok in E1 as ([fb e] & s0 & _ & E1).
      destruct e; [injection E1 as <- _ _; lia|].
      repeat case_match; try (apply st_bind_Ok in E1 as ([val e] & s3 & _ & E1);
        destruct e; injection E1 as <- _ _; lia); discriminate. }
    apply NextVarUint_canonical_enc in E1 as (c & Hr & ->); [|exact H].
    destruct (rest_adv_app src _ c H Hr) as [W1 R1].
    apply NextBytes_Ok_inv in E2 as (c' & Hr' & Hl & ->); [|exact W1|exact Hc].
    exists c'. unfold enc_varbytes. rewrite Hl, Hr, <- app_assoc. split.
    + f_equal. congruence.
    + rewrite Source.adv_adv, zlen_app. f_equal. lia.
  - injection E as <- _ -> <-.
    apply NextVarUint_canonical_enc in E1 as (c & Hr & ->); [|exact H].
    assert (count = 0) as -> by (destruct Hc; lia).
    exists c. unfold enc_varbytes. rewrite zlen_nil, app_nil_r. auto.
Qed.

(** ** [ZeroCopySink]

    The Go slice [buf] is a window on a backing array: [sink_arr] is the array
    (its length is the capacity) and [sink_len] the length of [buf]. *)

Record ZeroCopySink := mkSink { sink_arr : list byte; sink_len : Z }.

Definition maxInt : Z := MaxInt64.

(** The visible contents [self.buf]. *)
Definition sink_bytes (s : ZeroCopySink) : list byte := take (Z.to_nat (sink_len s)) (sink_arr s).

Module Sink.

Definition cap (s : ZeroCopySink) : Z := zlen (sink_arr s).

(** [NewZeroCopySink(nil)]; a caller's buffer [b] becomes the array. *)
Definition NewZeroCopySink (b : option (list byte)) : ZeroCopySink :=
  match b with None => mkSink (repeat x00 512) 0 | Some b => mkSink b (zlen b) end.

(** [self.buf = self.buf[:l]] *)
Definition reslice (l : Z) : ST ZeroCopySink unit := fun self =>
  if (0 <=? l) && (l <=? cap self) then Ok ((), mkSink (sink_arr self) l) else Panic.

Definition tryGrowByReslice (n : Z) : ST ZeroCopySink (Z * bool) := fun self =>
  let l := sink_len self in
  if n <=? cap self - l then (do_ reslice (l + n); st_ret (l, true)) self
  else Ok ((0, false), self).

(** [makeSlice(n)]: a zeroed slice; [make] panics on a negative size. *)
Definition makeSlice (n : Z) : option (list byte) :=
  if 0 <=? n then Some (repeat x00 (Z.to_nat n)) else None.

Definition grow (n : Z) : ST ZeroCopySink Z :=
  do '(i, ok) <- tryGrowByReslice n;
  if ok : bool then st_ret i else fun self =>
  let l := sink_len self in
  let c := cap self in
  if s64 (s64 (maxInt - c) - n) <? c then Panic (* ErrTooLarge *)
  else match makeSlice (s64 (2 * c + n)) with
       | None => Panic
       | Some buf =>
           (do_ reslice (l + n); st_ret l)
             (mkSink (sink_bytes self ++ drop (Z.to_nat l) buf) l)
       end.

(** [NextBytes] returns the offset of the fresh window [self.buf[m:]]. *)
Definition NextBytes (n : Z) : ST ZeroCopySink Z :=
  do '(m, ok) <- tryGrowByReslice (s64 n);
  if ok : bool then st_ret m else grow (s64 n).

(** Writing [bs] into the array at offset [i]. *)
Definition blit (i : Z) (bs : list byte) : ST ZeroCopySink unit := fun self =>
  if (0 <=? i) && (i + zlen bs <=? sink_len self)
  then Ok ((), mkSink (take (Z.to_nat i) (sink_arr self) ++ bs
                       ++ drop (Z.to_nat (i + zlen bs)) (sink_arr self)) (sink_len self))
  else Panic.

Definition WriteBytes (p : list byte) : ST ZeroCopySink unit :=
  do data <- NextBytes (zlen p); blit data p.

Definition Size (self : ZeroCopySink) : Z := sink_len self.

Definition BackUp (n : Z) : ST ZeroCopySink unit := fun self =>
  reslice (s64 (sink_len self - s64 n)) self.

Definition WriteUint8 (data : byte) : ST ZeroCopySink unit :=
  do buf <- NextBytes 1; blit buf [data].
Definition WriteByte (c : byte) : ST ZeroCopySink unit := WriteUint8 c.
Definition WriteBool (data : bool) : ST ZeroCopySink unit :=
  if data then WriteByte x01 else WriteByte x00.

Definition WriteUint16 (data : Z) : ST ZeroCopySink unit :=
  do buf <- NextBytes 2; blit buf (z2le 2 data).
Definition WriteUint32 (data : Z) : ST ZeroCopySink unit :=
  do buf <- NextBytes 4; blit buf (z2le 4 data).
Definition WriteUint64 (data : Z) : ST ZeroCopySink unit :=
  do buf <- NextBytes 8; blit buf (z2le 8 data).
Definition WriteInt16 (data : Z) : ST ZeroCopySink unit := WriteUint16 (u16 data).
Definition WriteInt32 (data : Z) : ST ZeroCopySink unit := WriteUint32 (u32 data).
Definition WriteInt64 (data : Z) : ST ZeroCopySink unit := WriteUint64 (u64 data).

(** [WriteVarUint] reserves nine bytes, fills what it needs and gives the
    rest back; it returns the number of bytes written. *)
Definition WriteVarUint (data : Z) : ST ZeroCopySink Z :=
  do buf <- NextBytes 9;
  do size <- (if data <? 0xfd then do_ blit buf [zb data]; st_ret 1
              else if data <=? 0xffff then do_ blit buf (zb 0xfd :: z2le 2 data); st_ret 3
              else if data <=? 0xffffffff then do_ blit buf (zb 0xfe :: z2le 4 data); st_ret 5
              else do_ blit buf (zb 0xff :: z2le 8 data); st_ret 9);
  do_ BackUp (9 - size);
  st_ret size.

Definition WriteVarBytes (data : list byte) : ST ZeroCopySink Z :=
  let l := zlen data in
  do sz <- WriteVarUint l;
  do_ WriteBytes data;
  st_ret (u64 (sz + l)).

Definition WriteString (data : list byte) : ST ZeroCopySink Z := WriteVarBytes data.
Definition WriteAddress (addr : list byte) : ST ZeroCopySink unit := WriteBytes addr.
Definition WriteHash (hash : list byte) : ST ZeroCopySink unit := WriteBytes hash.
Definition WriteI128 (i128 : list byte) : ST ZeroCopySink unit := WriteBytes i128.

Definition Bytes (self : ZeroCopySink) : list byte := sink_bytes self.
Definition Reset : ST ZeroCopySink unit := reslice 0.

(** *** Invariant: the window is inside the array, and the array is far from
    the size at which [grow] gives up. *)
Definition wf (s : ZeroCopySink) : Prop := 0 <= sink_len s <= cap s /\ cap s <= 2 ^ 60.

Lemma wf_new_sink : wf (NewZeroCopySink None).
Proof. split; unfold cap, zlen; simpl; rewrite ?repeat_length; lia. Qed.

Lemma zlen_sink_bytes s : wf s -> zlen (sink_bytes s) = sink_len s.
Proof.
  intros [H _]. unfold cap, sink_bytes, zlen in *. rewrite length_take. lia.
Qed.

(** [NextBytes n] makes room: the old contents are a prefix of the array and
    the window is longer by [n]. *)
Lemma NextBytes_room n s :
  wf s -> 0 <= n -> sink_len s + n <= 2 ^ 58 ->
  exists s', NextBytes n s = Ok (sink_len s, s') /\ wf s' /\
    sink_len s' = sink_len s + n /\ take (Z.to_nat (sink_len s)) (sink_arr s') = sink_bytes s.
Proof.
  intros Hwf Hn Hb. pose proof (zlen_sink_bytes s Hwf) as Hlb. destruct Hwf as [Hl Hc].
  unfold NextBytes. rewrite (s64_small n) by words.
  assert (Hres : forall arr, cap s <= zlen arr -> sink_len s + n <= zlen arr -> zlen arr <= 2 ^ 60 ->
    take (Z.to_nat (sink_len s)) arr = sink_bytes s -> forall (B : Type) (l : B),
    exists s', (do_ reslice (sink_len s + n); st_ret l) (mkSink arr (sink_len s)) = Ok (l, s') /\ wf s' /\
      sink_len s' = sink_len s + n /\ take (Z.to_nat (sink_len s)) (sink_arr s') = sink_bytes s).
  { intros arr H1 H2 H3 H4 B l. exists (mkSink arr (sink_len s + n)).
    unfold st_bind, reslice, st_ret, cap; simpl.
    rewrite (proj2 (Z.leb_le 0 _)), (proj2 (Z.leb_le _ (zlen arr))) by lia.
    split; [reflexivity|]. split; [split; unfold cap; simpl; lia|]. auto. }
  destruct (Z.leb_spec n (cap s - sink_len s)) as [Hfit|Hno].
  - destruct (Hres (sink_arr s) ltac:(unfold cap in *; lia) ltac:(unfold cap in *; lia)
      ltac:(unfold cap in *; lia) eq_refl _ (sink_len s, true)) as (s' & E & P).
    assert (Ht : tryGrowByReslice n s = Ok ((sink_len s, true), s')).
    { unfold tryGrowByReslice. rewrite (proj2 (Z.leb_le _ _)) by lia. destruct s; exact E. }
    exists s'. rewrite (st_bind_eq _ _ _ _ _ Ht). split; [reflexivity | exact P].
  - assert (Ht : tryGrowByReslice n s = Ok ((0, false), s)).
    { unfold tryGrowByReslice. rewrite (proj2 (Z.leb_gt _ _)) by lia. reflexivity. }
    rewrite (st_bind_eq _ _ _ _ _ Ht). cbn beta iota. unfold grow.
    rewrite (st_bind_eq _ _ _ _ _ Ht). cbn beta iota zeta.
    unfold maxInt. rewrite !s64_small by words.
    rewrite (proj2 (Z.ltb_ge _ _)) by words.
    unfold makeSlice. rewrite (proj2 (Z.leb_le 0 _)) by lia.
    apply Hres; rewrite ?zlen_app, ?Hlb.
    1-3: unfold zlen at 1; rewrite length_drop, repeat_length; lia.
    rewrite take_app_le by (unfold zlen in Hlb; lia). apply take_ge. unfold zlen in Hlb. lia.
Qed.

(** *** Appending

    [appends w a bs]: the writer [w] returns [a] and appends exactly [bs] to
    the visible contents; the contents stay below [2^58] bytes. *)
Definition appends {A} (w : ST ZeroCopySink A) (a : A) (bs : list byte) : Prop :=
  forall s, wf s -> sink_len s + zlen bs + 9 <= 2 ^ 58 ->
    exists s', w s = Ok (a, s') /\ wf s' /\ sink_bytes s' = sink_bytes s ++ bs.

Lemma appends_ret {A} (a : A) : appends (st_ret a) a [].
Proof. intros s H _. exists s. rewrite app_nil_r. auto. Qed.

Lemma appends_bind {A B} (w : ST ZeroCopySink A) (k : A -> ST ZeroCopySink B) a b b1 b2 :
  appends w a b1 -> appends (k a) b b2 -> appends (st_bind w k) b (b1 ++ b2).
Proof.
  intros Hw Hk s H Hl. rewrite zlen_app in Hl. pose proof (zlen_nonneg b2).
  destruct (Hw s H ltac:(lia)) as (s1 & E1 & W1 & B1).
  assert (sink_len s1 = sink_len s + zlen b1) as L1.
  { rewrite <- !zlen_sink_bytes, B1, zlen_app by assumption. reflexivity. }
  destruct (Hk s1 W1 ltac:(lia)) as (s2 & E2 & W2 & B2).
  exists s2. rewrite (st_bind_eq _ _ _ _ _ E1), app_assoc, <- B1. auto.
Qed.

Lemma appends_bind' {A B} (w : ST ZeroCopySink A) (k : A -> ST ZeroCopySink B) a b b1 :
  appends w a b1 -> appends (k a) b [] -> appends (st_bind w k) b b1.
Proof. intros Hw Hk. rewrite <- (app_nil_r b1). eapply appends_bind; eassumption. Qed.

(** Filling a window at the end of the contents. *)
Lemma blit_end s pre bs :
  wf s -> take (Z.to_nat (sink_len s - zlen bs)) (sink_arr s) = pre ->
  zlen bs <= sink_len s ->
  exists s', blit (sink_len s - zlen bs) bs s = Ok ((), s') /\ wf s' /\
    sink_len s' = sink_len s /\ sink_bytes s' = pre ++ bs.
Proof.
  intros [Hl Hc] Hpre Hfit. unfold blit, cap in *. pose proof (zlen_nonneg bs).
  rewrite (proj2 (Z.leb_le 0 _)), (proj2 (Z.leb_le _ (sink_len s))) by lia.
  cbn [andb]. eexists. split; [reflexivity|]. rewrite Hpre.
  assert (Hp : zlen pre = sink_len s - zlen bs).
  { rewrite <- Hpre. unfold zlen in *. rewrite length_take. lia. }
  unfold wf, cap, sink_bytes; cbn [sink_arr sink_len].
  rewrite !zlen_app, Hp. replace (sink_len s - zlen bs + zlen bs) with (sink_len s) by lia.
  assert (zlen (drop (Z.to_nat (sink_len s)) (sink_arr s)) = zlen (sink_arr s) - sink_len s).
  { unfold zlen in *. rewrite length_drop. lia. }
  split; [lia|]. split; [reflexivity|].
  rewrite app_assoc, take_app_le by (rewrite length_app; unfold zlen in *; lia).
  apply take_ge. rewrite length_app. unfold zlen in *. lia.
Qed.

(** The common shape of the fixed-width writers. *)
Lemma appends_window n bs :
  zlen bs = n -> n < 2 ^ 63 -> appends (do buf <- NextBytes n; blit buf bs) () bs.
Proof.
  intros <- Hn s H Hl. pose proof (zlen_nonneg bs). pose proof (proj1 (proj1 H)).
  destruct (NextBytes_room (zlen bs) s H ltac:(lia) ltac:(lia)) as (s1 & E1 & W1 & L1 & P1).
  rewrite (st_bind_eq _ _ _ _ _ E1).
  assert (Heq : sink_len s = sink_len s1 - zlen bs) by lia. rewrite Heq in P1 |- *.
  destruct (blit_end s1 _ bs W1 P1 ltac:(lia)) as (s2 & E2 & W2 & L2 & B2). eauto.
Qed.

Lemma appends_WriteBytes p : zlen p < 2 ^ 63 -> appends (WriteBytes p) () p.
Proof. apply appends_window. reflexivity. Qed.

Lemma appends_WriteByte c : appends (WriteByte c) () [c].
Proof. apply appends_window; reflexivity. Qed.

Lemma appends_WriteBool b : appends (WriteBool b) () [if b then x01 else x00].
Proof. destruct b; apply appends_WriteByte. Qed.

Lemma appends_WriteUint16 v : appends (WriteUint16 v) () (z2le 2 v).
Proof. apply appends_window; rewrite ?zlen_z2le; reflexivity. Qed.
Lemma appends_WriteUint32 v : appends (WriteUint32 v) () (z2le 4 v).
Proof. apply appends_window; rewrite ?zlen_z2le; reflexivity. Qed.
Lemma appends_WriteUint64 v : appends (WriteUint64 v) () (z2le 8 v).
Proof. apply appends_window; rewrite ?zlen_z2le; reflexivity. Qed.

(** Reserving nine bytes, filling [bs] and giving back the rest. *)
Lemma appends_reserve9 bs size :
  zlen bs = size -> 1 <= size <= 9 ->
  appends (do buf <- NextBytes 9; do sz <- (do_ blit buf bs; st_ret size);
           do_ BackUp (9 - sz); st_ret sz) size bs.
Proof.
  intros <- Hsz s H Hl.
  destruct (NextBytes_room 9 s H ltac:(lia) ltac:(lia)) as (s1 & E1 & W1 & L1 & P1).
  rewrite (st_bind_eq _ _ _ _ _ E1).
  pose proof (zlen_sink_bytes s H) as Hb. destruct H as [H0 H1]. destruct W1 as [W1 W1'].
  unfold st_bind, blit, BackUp, reslice, st_ret, cap in *; cbn [sink_arr sink_len].
  rewrite (proj2 (Z.leb_le 0 (sink_len s))), (proj2 (Z.leb_le _ (sink_len s1))) by lia.
  cbn [andb sink_arr sink_len]. rewrite P1, !s64_small by words.
  replace (sink_len s1 - (9 - zlen bs)) with (sink_len s + zlen bs) by lia.
  rewrite !zlen_app, Hb.
  assert (Hd : zlen (drop (Z.to_nat (sink_len s + zlen bs)) (sink_arr s1))
               = zlen (sink_arr s1) - (sink_len s + zlen bs)).
  { unfold zlen in *. rewrite length_drop. lia. }
  rewrite Hd, (proj2 (Z.leb_le 0 _)), (proj2 (Z.leb_le (sink_len s + _) _)) by lia.
  eexists. split; [reflexivity|]. unfold wf, cap; cbn [sink_arr sink_len].
  rewrite !zlen_app, Hb, Hd. split; [lia|].
  unfold sink_bytes at 1; cbn [sink_arr sink_len].
  rewrite app_assoc, take_app_le by (rewrite length_app; unfold zlen in *; lia).
  apply take_ge. rewrite length_app. unfold zlen in *. lia.
Qed.

Lemma appends_WriteVarUint v :
  is_u64 v -> appends (WriteVarUint v) (Source.getVarUintSize v) (enc_varuint v).
Proof.
  intros Hv. unfold WriteVarUint, Source.getVarUintSize, enc_varuint.
  repeat case_match; (apply appends_reserve9; [reflexivity | lia]).
Qed.

Lemma appends_WriteVarBytes bs :
  zlen bs < 2 ^ 58 ->
  appends (WriteVarBytes bs) (Source.getVarUintSize (zlen bs) + zlen bs) (enc_varbytes bs).
Proof.
  intros Hl. pose proof (zlen_nonneg bs). pose proof (getVarUintSize_bounds (zlen bs)).
  eapply appends_bind; [apply appends_WriteVarUint; words|].
  eapply appends_bind'; [apply appends_WriteBytes; words|].
  rewrite u64_small by words. apply appends_ret.
Qed.

End Sink.

(** ** Interface: types with a wire format

    [Wire T] is what a type with [Serialization(sink)] and
    [Deserialization(source)] methods promises its users: the two agree on the
    format [wire].  Clients are proved against the class. *)
Class Wire (T : Type) := {
  wire : T -> list byte;
  wire_ok : T -> Prop;
  Serialization : T -> ST ZeroCopySink unit;
  Deserialization : ST ZeroCopySource T;
  ser_appends : forall t, wire_ok t -> Sink.appends (Serialization t) () (wire t);
  des_parses : forall t, wire_ok t -> parses Deserialization t (wire t)
}.

(** [common.SerializeToBytes] of one value ([common/codec.go]). *)
Definition SerializeToBytes {T} `{Wire T} (val : T) : res (list byte) :=
  let* '(_, s) := Serialization val (Sink.NewZeroCopySink None) in Ok (Sink.Bytes s).

Lemma SerializeToBytes_wire {T} `{Wire T} (t : T) :
  wire_ok t -> zlen (wire t) + 9 <= 2 ^ 58 -> SerializeToBytes t = Ok (wire t).
Proof.
  intros Hok Hl. destruct (ser_appends t Hok (Sink.NewZeroCopySink None) Sink.wf_new_sink) as (s & E & _ & B).
  { simpl. lia. }
  unfold SerializeToBytes. rewrite E. simpl. unfold Sink.Bytes. rewrite B. reflexivity.
Qed.

(** Parsing a whole buffer. *)
Lemma parses_all {A} (r : ST ZeroCopySource A) a bs :
  parses r a bs -> zlen bs < 2 ^ 63 ->
  exists src', r (NewZeroCopySource bs) = Ok (a, src') /\ Source.Len src' = 0.
Proof.
  intros Hp Hl. eexists. split.
  - apply (Hp _ []); [apply Source.wf_new_source, Hl | rewrite app_nil_r; reflexivity].
  - unfold Source.Len, Source.adv; simpl. rewrite (proj2 (Z.leb_le _ _)) by lia. reflexivity.
Qed.

Lemma wire_roundtrip_all {T} `{Wire T} (t : T) :
  wire_ok t -> zlen (wire t) + 9 <= 2 ^ 58 ->
  exists bs src', SerializeToBytes t = Ok bs /\
    Deserialization (NewZeroCopySource bs) = Ok (t, src') /\ Source.Len src' = 0.
Proof.
  intros Hok Hl. destruct (parses_all _ _ _ (des_parses t Hok) ltac:(lia)) as (src' & E & L).
  exists (wire t), src'. rewrite SerializeToBytes_wire; auto.
Qed.

(** ** Properties *)

(** What [WriteVarBytes] appends to any sink, [NextVarBytes] reads back
    from the finished buffer: the same bytes, the same size, regular and not at
    the end, leaving the cursor right behind them; nothing written earlier
    changes. *)
Theorem varbytes_roundtrip (s : ZeroCopySink) (bs : list byte) :
  Sink.wf s -> sink_len s + zlen (enc_varbytes bs) + 9 <= 2 ^ 58 ->
  exists s' size, Sink.WriteVarBytes bs s = Ok (size, s') /\
    take (Z.to_nat (sink_len s)) (Sink.Bytes s') = Sink.Bytes s /\
    Source.NextVarBytes (mkSource (Sink.Bytes s') (sink_len s))
      = Ok ((bs, size, false, false), mkSource (Sink.Bytes s') (Sink.Size s')).
Proof.
  intros H Hl. pose proof (zlen_nonneg (enc_varbytes bs)). pose proof (proj1 (proj1 H)).
  assert (Hbs : zlen bs < 2 ^ 58).
  { unfold enc_varbytes in Hl. rewrite zlen_app, zlen_enc_varuint in Hl.
    pose proof (getVarUintSize_bounds (zlen bs)). lia. }
  destruct (Sink.appends_WriteVarBytes bs Hbs s H Hl) as (s' & E & W & B).
  exists s', (Source.getVarUintSize (zlen bs) + zlen bs). split; [exact E|].
  pose proof (Sink.zlen_sink_bytes s H) as L. pose proof (Sink.zlen_sink_bytes s' W) as L'.
  unfold Sink.Bytes, Sink.Size. rewrite B in *. rewrite zlen_app, L in L'. split.
  - rewrite <- L. unfold zlen. rewrite Nat2Z.id. apply take_app_length.
  - set (src := mkSource _ _).
    assert (Hr : Source.rest src = enc_varbytes bs ++ []).
    { unfold Source.rest, src; simpl. rewrite <- L. unfold zlen.
      rewrite Nat2Z.id, app_nil_r. apply drop_app_length. }
    assert (Hw : Source.wf src).
    { split; simpl; rewrite zlen_app, L; lia. }
    rewrite (parses_NextVarBytes bs ltac:(lia) src [] Hw Hr).
    unfold Source.adv, src; simpl. do 3 f_equal. lia.
Qed.

Lemma varbytes_roundtrip_witness :
  exists s' size, Sink.WriteVarBytes [x61; x62] (Sink.NewZeroCopySink None) = Ok (size, s') /\
    take (Z.to_nat 0) (Sink.Bytes s') = [] /\
    Source.NextVarBytes (mkSource (Sink.Bytes s') 0)
      = Ok (([x61; x62], size, false, false), mkSource (Sink.Bytes s') (Sink.Size s')).
Proof.
  apply (varbytes_roundtrip (Sink.NewZeroCopySink None) [x61; x62]).
  - split; unfold Sink.cap, zlen; simpl; lia.
  - vm_compute. discriminate.
Defined.

(** Decoding is canonical.  Whenever [NextVarBytes] accepts data as regular
    before the end of the input, the bytes it consumed are exactly the encoding
    [WriteVarBytes] gives that data: two different inputs never decode to the
    same value. *)
Theorem NextVarBytes_canonical (src : ZeroCopySource) data size src' :
  Source.wf src -> Source.NextVarBytes src = Ok ((data, size, false, false), src') ->
  exists c, Source.rest src = enc_varbytes data ++ c /\
    src' = Source.adv (zlen (enc_varbytes data)) src.
Proof. apply NextVarBytes_canonical_enc. Qed.

Lemma NextVarBytes_canonical_witness :
  exists c, Source.rest (mkSource [x02; x61; x62; x07] 0) = enc_varbytes [x61; x62] ++ c /\
    mkSource [x02; x61; x62; x07] 3
      = Source.adv (zlen (enc_varbytes [x61; x62])) (mkSource [x02; x61; x62; x07] 0).
Proof.
  apply (NextVarBytes_canonical (mkSource [x02; x61; x62; x07] 0) [x61; x62] 3).
  - split; simpl; unfold zlen; simpl; lia.
  - reflexivity.
Defined.

(** Every reader of [ZeroCopySource] is total on a well-formed cursor: no
    slice panic on any input bytes (truncated and over-long lengths included),
    and the cursor stays inside the slice and never moves back. *)
Theorem source_readers_safe :
  (forall n, is_u64 n -> Source.safe (Source.NextBytes n)) /\
  Source.safe Source.NextByte /\ Source.safe Source.NextBool /\
  Source.safe Source.NextUint16 /\ Source.safe Source.NextUint32 /\ Source.safe Source.NextUint64 /\
  Source.safe Source.NextInt16 /\ Source.safe Source.NextInt32 /\ Source.safe Source.NextInt64 /\
  Source.safe Source.NextVarUint /\ Source.safe Source.NextVarBytes /\
  Source.safe Source.NextAddress /\ Source.safe Source.NextI128 /\ Source.safe Source.NextHash.
Proof.
  assert (HI : forall n f, is_u64 n ->
    Source.safe (do '(val, eof) <- Source.NextUintN n; st_ret ((f val, eof) : Z * bool))).
  { intros n f Hn. apply Source.rd_bind; [apply Source.safe_NextUintN, Hn|].
    intros [? ?]. apply Source.rd_ret. }
  repeat split; first
    [ exact Source.safe_NextBytes | exact Source.safe_NextByte | exact Source.safe_NextVarUint
    | exact Source.safe_NextVarBytes
    | apply Source.safe_NextUintN; split; [discriminate | reflexivity]
    | apply Source.safe_NextArray; split; [discriminate | reflexivity]
    | apply HI; split; [discriminate | reflexivity]
    | apply Source.rd_bind; [apply Source.safe_NextByte|];
      intros [? ?]; repeat apply Source.safe_if; apply Source.rd_ret ].
Qed.

(** The growable buffer refines a list of bytes: whatever its capacity,
    window and stale contents, each writer appends exactly its encoding to the
    visible bytes ([WriteVarUint] despite reserving nine bytes first). *)
Theorem sink_writers_append :
  (forall p, zlen p < 2 ^ 63 -> Sink.appends (Sink.WriteBytes p) () p) /\
  (forall c, Sink.appends (Sink.WriteByte c) () [c]) /\
  (forall b, Sink.appends (Sink.WriteBool b) () [if b then x01 else x00]) /\
  (forall v, Sink.appends (Sink.WriteUint16 v) () (z2le 2 v)) /\
  (forall v, Sink.appends (Sink.WriteUint32 v) () (z2le 4 v)) /\
  (forall v, Sink.appends (Sink.WriteUint64 v) () (z2le 8 v)) /\
  (forall v, is_u64 v -> Sink.appends (Sink.WriteVarUint v) (Source.getVarUintSize v) (enc_varuint v)).
Proof.
  split; [exact Sink.appends_WriteBytes|]. split; [exact Sink.appends_WriteByte|].
  split; [exact Sink.appends_WriteBool|]. split; [exact Sink.appends_WriteUint16|].
  split; [exact Sink.appends_WriteUint32|]. split; [exact Sink.appends_WriteUint64|].
  exact Sink.appends_WriteVarUint.
Qed.
