(* ===== verification/BigInt.v ===== *)
(** * Integers on the wire: [common/bigint.go]

    [BigIntToNeoBytes] and [BigIntFromNeoBytes] convert arbitrary-precision
    integers to and from the little-endian two's complement byte strings of the
    virtual machine and of every native contract's parameters.  A [*big.Int] is
    a [Z]. *)

From S2P Require Import Prelude.

(** ** [math/big]: [Bytes] and [SetBytes]

    [Bytes] is the big-endian magnitude without leading zero bytes. *)
Definition nbytes (z : Z) : Z := if z =? 0 then 0 else Z.log2 (Z.abs z) / 8 + 1.
Definition big_Bytes (z : Z) : list byte := rev (z2le (Z.to_nat (nbytes z)) (Z.abs z)).
Definition big_SetBytes (bs : list byte) : Z := le2z (rev bs).

(** ** [common/bigint.go] *)

Definition bytesReverse (u : list byte) : list byte := reverse_in_place u.

(** [^b] on a byte. *)
Definition compl (b : byte) : byte := zb (255 - bz b).

(** The carry loop: [255] becomes [0] and the loop goes on, any other byte is
    incremented and the loop breaks. *)
Fixpoint inc_carry (bs : list byte) : list byte :=
  match bs with
  | [] => []
  | b :: bs' => if bz b =? 255 then x00 :: inc_carry bs' else zb (bz b + 1) :: bs'
  end.

Definition BigIntToNeoBytes (data : Z) : list byte :=
  let bs := big_Bytes data in
  if zlen bs =? 0 then []
  else
    let bs := bytesReverse bs in
    if data <? 0 then
      let bs := compl <$> bs in
      let bs := inc_carry bs in
      if bz (List.last bs x00) <? 128 then bs ++ [zb 255] else bs
    else
      if 128 <=? bz (List.last bs x00) then bs ++ [x00] else bs.

Definition BigIntFromNeoBytes (ba : list byte) : Z :=
  if zlen ba =? 0 then 0
  else
    let bytes := bytesReverse ba in
    match bytes with
    | [] => 0
    | b0 :: _ =>
        if Z.shiftr (bz b0) 7 =? 1 then
          let bytes := compl <$> bytes in
          let temp := big_SetBytes bytes in
          let temp := temp + 1 in
          let bytes := big_Bytes temp in
          - big_SetBytes bytes
        else big_SetBytes bytes
    end.

(** ** The reference: two's complement *)

Definition msb_set (l : list byte) : bool := 128 <=? bz (List.last l x00).
Definition twos (l : list byte) : Z :=
  le2z l - (if msb_set l then 256 ^ zlen l else 0).

Lemma nbytes_nonneg z : 0 <= nbytes z.
Proof. unfold nbytes. case_match; [lia|]. pose proof (Z.log2_nonneg (Z.abs z)). Z.div_mod_to_equations; lia. Qed.

(** The magnitude fits in [nbytes] bytes and in no fewer. *)
Lemma nbytes_upper z : Z.abs z < 256 ^ nbytes z.
Proof.
  unfold nbytes. destruct (Z.eqb_spec z 0) as [->|Hz]; [reflexivity|].
  change 256 with (2 ^ 8). pose proof (Z.log2_nonneg (Z.abs z)).
  pose proof (Z.log2_spec (Z.abs z) ltac:(lia)) as [_ Hu].
  rewrite <- Z.pow_mul_r by (Z.div_mod_to_equations; lia).
  eapply Z.lt_le_trans; [exact Hu|]. apply Z.pow_le_mono_r; [lia|].
  Z.div_mod_to_equations; lia.
Qed.

Lemma nbytes_lower z : z <> 0 -> 256 ^ (nbytes z - 1) <= Z.abs z.
Proof.
  intros Hz. unfold nbytes. rewrite (proj2 (Z.eqb_neq z 0)) by assumption.
  pose proof (Z.log2_nonneg (Z.abs z)). pose proof (Z.log2_spec (Z.abs z) ltac:(lia)) as [Hl _].
  change 256 with (2 ^ 8). rewrite <- Z.pow_mul_r by (Z.div_mod_to_equations; lia).
  eapply Z.le_trans; [|exact Hl]. apply Z.pow_le_mono_r; [lia|].
  Z.div_mod_to_equations; lia.
Qed.

Lemma nbytes_pos z : z <> 0 -> 1 <= nbytes z.
Proof.
  intros Hz. unfold nbytes. rewrite (proj2 (Z.eqb_neq z 0)) by assumption.
  pose proof (Z.log2_nonneg (Z.abs z)). Z.div_mod_to_equations; lia.
Qed.

Lemma SetBytes_Bytes z : big_SetBytes (big_Bytes z) = Z.abs z.
Proof.
  unfold big_SetBytes, big_Bytes. rewrite rev_involutive, le2z_z2le.
  pose proof (nbytes_nonneg z). rewrite Z2Nat.id by assumption.
  apply Z.mod_small. pose proof (nbytes_upper z). lia.
Qed.

Lemma zlen_big_Bytes z : zlen (big_Bytes z) = nbytes z.
Proof. unfold big_Bytes, zlen. rewrite length_rev, length_z2le. pose proof (nbytes_nonneg z). lia. Qed.

(** Complementing every byte subtracts from [256^n - 1]. *)
Lemma le2z_compl l : le2z (compl <$> l) = 256 ^ zlen l - 1 - le2z l.
Proof.
  induction l as [|b l IH]; [reflexivity|].
  cbn [fmap list_fmap le2z]. rewrite IH, zlen_cons, Z.add_comm, Z.pow_add_r
    by (pose proof (zlen_nonneg l); lia).
  unfold compl. rewrite bz_zb_small by (pose proof (bz_range b); lia). lia.
Qed.

Lemma inc_carry_length l : length (inc_carry l) = length l.
Proof. induction l as [|b l IH]; simpl; [reflexivity|]. case_match; simpl; auto. Qed.

Lemma le2z_inc_carry l : le2z l < 256 ^ zlen l - 1 -> le2z (inc_carry l) = le2z l + 1.
Proof.
  induction l as [|b l IH]; [intros H; vm_compute in H; discriminate|]. intros H. cbn [inc_carry le2z] in *.
  rewrite zlen_cons, Z.pow_add_r in H by (pose proof (zlen_nonneg l); lia).
  destruct (Z.eqb_spec (bz b) 255) as [E|E]; cbn [le2z].
  - rewrite IH by (change (256 ^ 1) with 256 in H; lia). rewrite E. change (bz x00) with 0. lia.
  - rewrite bz_zb_small by (pose proof (bz_range b); lia). lia.
Qed.

(** The most significant byte decides the upper half. *)
Lemma last_snoc_le2z l :
  l <> [] -> exists l' b, l = l' ++ [b] /\ List.last l x00 = b /\
    le2z l = le2z l' + 256 ^ zlen l' * bz b /\ zlen l = zlen l' + 1 /\ 0 <= le2z l' < 256 ^ zlen l'.
Proof.
  intros Hl. destruct (exists_last Hl) as (l' & b & ->). exists l', b.
  rewrite last_last, le2z_app, zlen_app. cbn [le2z]. repeat split; try apply le2z_range.
  unfold zlen. lia.
Qed.

Lemma msb_set_le2z l : l <> [] -> msb_set l = (256 ^ zlen l <=? 2 * le2z l).
Proof.
  intros Hl. destruct (last_snoc_le2z l Hl) as (l' & b & E & Hla & Hv & Hn & Hr).
  unfold msb_set. rewrite Hla, Hv, Hn, Z.pow_add_r by (pose proof (zlen_nonneg l'); lia).
  change (256 ^ 1) with 256.
  destruct (Z.leb_spec 128 (bz b)), (Z.leb_spec (256 ^ zlen l' * 256) (2 * (le2z l' + 256 ^ zlen l' * bz b)));
    auto; nia.
Qed.

Lemma twos_range l : l <> [] -> - 256 ^ zlen l <= 2 * twos l < 256 ^ zlen l.
Proof.
  intros Hl. unfold twos. rewrite msb_set_le2z by assumption.
  pose proof (le2z_range l). unfold zlen in *.
  destruct (Z.leb_spec (256 ^ Z.of_nat (length l)) (2 * le2z l)); lia.
Qed.

Lemma twos_extend_0 l : l <> [] -> msb_set l = true -> twos (l ++ [x00]) = le2z l.
Proof.
  intros Hl Hm. unfold twos, msb_set. rewrite last_last, le2z_app. cbn. lia.
Qed.

Lemma twos_extend_255 l : l <> [] -> twos (l ++ [zb 255]) = le2z l - 256 ^ zlen l.
Proof.
  intros Hl. unfold twos, msb_set. rewrite last_last, le2z_app, zlen_app. cbn [le2z].
  rewrite bz_zb_small by lia. change (128 <=? 255) with true. cbv iota.
  change (zlen [zb 255]) with 1. rewrite Z.pow_add_r by (pose proof (zlen_nonneg l); lia).
  unfold zlen. lia.
Qed.

Lemma neg_pattern l : l <> [] -> 0 < le2z l ->
  le2z (inc_carry (compl <$> l)) = 256 ^ zlen l - le2z l /\
  zlen (inc_carry (compl <$> l)) = zlen l.
Proof.
  intros Hl Hp. assert (Hz : zlen (compl <$> l) = zlen l) by (unfold zlen; rewrite length_fmap; reflexivity).
  split.
  - rewrite le2z_inc_carry; rewrite le2z_compl, ?Hz; lia.
  - unfold zlen. rewrite inc_carry_length, length_fmap. reflexivity.
Qed.

(** [BigIntToNeoBytes] produces a two's complement encoding of its argument. *)
Lemma twos_ToNeo z : twos (BigIntToNeoBytes z) = z.
Proof.
  unfold BigIntToNeoBytes. rewrite zlen_big_Bytes.
  destruct (Z.eqb_spec (nbytes z) 0) as [E|E].
  { assert (z = 0) as -> by (destruct (Z.eq_dec z 0); [auto | pose proof (nbytes_pos z); lia]). reflexivity. }
  unfold bytesReverse. rewrite reverse_in_place_rev.
  set (l := rev (big_Bytes z)).
  assert (Hv : le2z l = Z.abs z) by apply SetBytes_Bytes.
  assert (Hn : zlen l = nbytes z) by (rewrite <- zlen_big_Bytes; unfold zlen, l; rewrite length_rev; reflexivity).
  assert (Hl : l <> []) by (intros ->; rewrite zlen_nil in Hn; lia).
  pose proof (nbytes_upper z) as Hu. destruct (Z.ltb_spec z 0) as [Hneg|Hpos].
  - destruct (neg_pattern l Hl ltac:(lia)) as [Hi Hin]. set (l' := inc_carry (compl <$> l)) in *.
    assert (Hl' : l' <> []) by (intros E'; rewrite E', zlen_nil in Hin; lia).
    destruct (Z.ltb_spec (bz (List.last l' x00)) 128) as [Hs|Hs].
    + rewrite twos_extend_255, Hi, Hin, Hv by assumption. lia.
    + unfold twos, msb_set. rewrite (proj2 (Z.leb_le _ _)), Hi, Hin, Hv by lia. lia.
  - destruct (Z.leb_spec 128 (bz (List.last l x00))) as [Hs|Hs].
    + rewrite twos_extend_0, Hv; [lia | exact Hl | unfold msb_set; apply Z.leb_le; exact Hs].
    + unfold twos, msb_set. rewrite (proj2 (Z.leb_gt _ _)), Hv by lia. lia.
Qed.

Lemma zlen_zero_nil {A} (l : list A) : zlen l = 0 -> l = [].
Proof. destruct l; [reflexivity | rewrite zlen_cons; pose proof (zlen_nonneg l); lia]. Qed.

Lemma shiftr7 b : (Z.shiftr (bz b) 7 =? 1) = (128 <=? bz b).
Proof.
  rewrite Z.shiftr_div_pow2 by lia. pose proof (bz_range b).
  destruct (Z.eqb_spec (bz b / 2 ^ 7) 1), (Z.leb_spec 128 (bz b)); auto; Z.div_mod_to_equations; lia.
Qed.

(** [BigIntFromNeoBytes] reads two's complement. *)
Lemma FromNeo_twos l : BigIntFromNeoBytes l = twos l.
Proof.
  unfold BigIntFromNeoBytes. destruct (Z.eqb_spec (zlen l) 0) as [E|E].
  { apply zlen_zero_nil in E as ->. reflexivity. }
  assert (Hl : l <> []) by (intros ->; rewrite zlen_nil in E; lia).
  unfold bytesReverse. rewrite reverse_in_place_rev.
  destruct (last_snoc_le2z l Hl) as (l' & b & El & Hla & Hv & Hn & Hr).
  assert (Hrev : rev l = b :: rev l') by (rewrite El, rev_app_distr; reflexivity).
  rewrite Hrev, shiftr7, <- Hrev. unfold twos, msb_set. rewrite Hla.
  case_match.
  - rewrite SetBytes_Bytes. unfold big_SetBytes.
    rewrite <- map_rev, rev_involutive. change (map compl l) with (compl <$> l).
    rewrite le2z_compl. pose proof (le2z_range l). unfold zlen in *. lia.
  - unfold big_SetBytes. rewrite rev_involutive. lia.
Qed.

(** The number of bytes two's complement needs. *)
Lemma zlen_ToNeo z : z <> 0 ->
  256 ^ (zlen (BigIntToNeoBytes z) - 1) <= 2 * (if z <? 0 then - z - 1 else z) \/ zlen (BigIntToNeoBytes z) = 1.
Proof.
  intros Hz. unfold BigIntToNeoBytes. rewrite zlen_big_Bytes.
  pose proof (nbytes_pos z Hz). rewrite (proj2 (Z.eqb_neq (nbytes z) 0)) by lia.
  unfold bytesReverse. rewrite reverse_in_place_rev.
  set (l := rev (big_Bytes z)).
  assert (Hv : le2z l = Z.abs z) by apply SetBytes_Bytes.
  assert (Hn : zlen l = nbytes z) by (rewrite <- zlen_big_Bytes; unfold zlen, l; rewrite length_rev; reflexivity).
  assert (Hl : l <> []) by (intros E; rewrite E, zlen_nil in Hn; lia).
  pose proof (nbytes_lower z Hz) as Hlow. pose proof (nbytes_upper z) as Hu.
  destruct (Z.ltb_spec z 0) as [Hneg|Hpos].
  - destruct (neg_pattern l Hl ltac:(lia)) as [Hi Hin]. set (l' := inc_carry (compl <$> l)) in *.
    assert (Hl' : l' <> []) by (intros E'; rewrite E', zlen_nil in Hin; lia).
    pose proof (msb_set_le2z l' Hl') as Hm. unfold msb_set in Hm. rewrite Hi, Hin, Hv in Hm.
    destruct (Z.ltb_spec (bz (List.last l' x00)) 128) as [Hs|Hs].
    + rewrite (proj2 (Z.leb_gt _ _)) in Hm by lia. symmetry in Hm. apply Z.leb_gt in Hm.
      rewrite zlen_app, Hin. change (zlen [zb 255]) with 1. left.
      replace (zlen l + 1 - 1) with (zlen l) by lia.
      assert (Heven : 256 ^ zlen l = 2 * (128 * 256 ^ (zlen l - 1))).
      { replace (zlen l) with (1 + (zlen l - 1)) at 1 by lia. rewrite Z.pow_add_r by lia. lia. }
      lia.
    + rewrite Hin, Hn. destruct (Z.eq_dec (nbytes z) 1); [right; assumption|left].
      assert (Heven : 256 ^ (nbytes z - 1) = 2 * (128 * 256 ^ (nbytes z - 2))).
      { replace (nbytes z - 1) with (1 + (nbytes z - 2)) by lia. rewrite Z.pow_add_r by lia. lia. }
      lia.
  - pose proof (msb_set_le2z l Hl) as Hm. unfold msb_set in Hm. rewrite Hv in Hm.
    destruct (Z.leb_spec 128 (bz (List.last l x00))) as [Hs|Hs].
    + symmetry in Hm. apply Z.leb_le in Hm. rewrite zlen_app. change (zlen [x00]) with 1. left.
      replace (zlen l + 1 - 1) with (zlen l) by lia. lia.
    + rewrite Hn. destruct (Z.eq_dec (nbytes z) 1); [right; assumption|left]. lia.
Qed.

(** ** [vm/neovm/types/common.go]: the older conversion

    [BigIntToBytes] complements the big-endian magnitude, adds one as a number
    and takes [Bytes] again, which drops leading zero bytes. *)
Definition BigIntToBytes (data : Z) : list byte :=
  let bs := big_Bytes data in
  match bs with
  | [] => []
  | b :: _ =>
      if data <? 0 then
        let bs := compl <$> bs in
        let temp := big_SetBytes bs in
        let temp2 := temp + 1 in
        let bs := bytesReverse (big_Bytes temp2) in
        if Z.shiftr (bz b) 7 =? 1 then bs ++ [zb 255] else bs
      else
        let bs := bytesReverse bs in
        if Z.shiftr (bz b) 7 =? 1 then bs ++ [x00] else bs
  end.

(** [BigIntFromBytes] of the same file. *)
Definition BigIntFromBytes (ba : list byte) : Z :=
  match bytesReverse ba with
  | [] => 0
  | (b0 :: _) as bytes =>
      if Z.shiftr (bz b0) 7 =? 1 then - big_SetBytes (big_Bytes (big_SetBytes (compl <$> bytes) + 1))
      else big_SetBytes bytes
  end.

(** ** Properties *)

(** [BigIntFromNeoBytes] inverts [BigIntToNeoBytes] on every integer. *)
Theorem neo_bytes_roundtrip (z : Z) : BigIntFromNeoBytes (BigIntToNeoBytes z) = z.
Proof. rewrite FromNeo_twos. apply twos_ToNeo. Qed.

(** The encoding is the shortest one: [BigIntFromNeoBytes] reads any byte
    string as little-endian two's complement, and re-encoding what it read never
    takes more bytes. *)
Theorem neo_bytes_shortest (l : list byte) :
  BigIntFromNeoBytes l = twos l /\ zlen (BigIntToNeoBytes (BigIntFromNeoBytes l)) <= zlen l.
Proof.
  rewrite FromNeo_twos. split; [reflexivity|]. destruct (decide (l = [])) as [->|Hl]; [reflexivity|].
  pose proof (twos_range l Hl) as Hr. set (z := twos l) in *.
  destruct (Z.eq_dec z 0) as [->|Hz]; [apply zlen_nonneg|].
  assert (1 <= zlen l) by (destruct l; [congruence | rewrite zlen_cons; pose proof (zlen_nonneg l); lia]).
  destruct (zlen_ToNeo z Hz) as [Hlow|E1]; [|lia].
  destruct (Z.le_gt_cases (zlen (BigIntToNeoBytes z)) (zlen l)) as [|Hgt]; [assumption|exfalso].
  assert (256 ^ zlen l <= 256 ^ (zlen (BigIntToNeoBytes z) - 1)) by (apply Z.pow_le_mono_r; lia).
  destruct (Z.ltb_spec z 0); lia.
Qed.

(** The older conversion loses magnitude: it maps two different negative
    integers to the same bytes, so no decoder can invert it. *)
Theorem BigIntToBytes_not_injective :
  BigIntToBytes (-65535) = BigIntToBytes (-255) /\
  BigIntFromNeoBytes (BigIntToBytes (-65535)) = -255.
Proof. split; vm_compute; reflexivity. Qed.

(** On the integers that are not negative the older pair is a round trip, and
    its bytes are those of the newer one. *)
Theorem BigIntToBytes_nonneg z : 0 <= z -> BigIntToBytes z = BigIntToNeoBytes z /\ BigIntFromBytes (BigIntToBytes z) = z.
Proof.
  intros Hz. assert (E : BigIntToBytes z = BigIntToNeoBytes z).
  { unfold BigIntToBytes, BigIntToNeoBytes. destruct (big_Bytes z) as [|b bs] eqn:Eb; [reflexivity|].
    rewrite (proj2 (Z.eqb_neq _ 0)) by (rewrite zlen_cons; pose proof (zlen_nonneg bs); lia). rewrite (proj2 (Z.ltb_ge z 0)) by exact Hz.
    unfold bytesReverse. rewrite reverse_in_place_rev. cbn [rev]. rewrite last_last, Z.shiftr_div_pow2 by lia. change (2 ^ 7) with 128.
    pose proof (bz_range b). assert (bz b / 128 = 1 <-> 128 <= bz b) by (Z.div_mod_to_equations; lia).
    destruct (Z.eqb_spec (bz b / 128) 1), (Z.leb_spec 128 (bz b)); try lia; reflexivity. }
  split; [exact E|]. rewrite E. transitivity (BigIntFromNeoBytes (BigIntToNeoBytes z)); [|rewrite FromNeo_twos; apply twos_ToNeo].
  unfold BigIntFromBytes, BigIntFromNeoBytes. destruct (BigIntToNeoBytes z) as [|b l]; [reflexivity|].
  rewrite (proj2 (Z.eqb_neq _ 0)) by (rewrite zlen_cons; pose proof (zlen_nonneg l); lia). case_match; reflexivity.
Qed.
