(* ===== verification/Merkle.v ===== *)
(** * Compact Merkle tree: [merkle/util.go], [merkle/merkle_hasher.go],
    [merkle/merkle_tree.go], [merkle/file_hash_store.go]

    The append-only Merkle tree of the block log: the tree keeps the roots of
    its maximal full subtrees, every hash ever computed goes to a hash store in
    post-order, and inclusion and consistency proofs are cut out of the store.
    SHA-256 is a parameter [sha256]; the theorems hold for every function. *)

From S2P Require Import Prelude.

(** ** [merkle/util.go]

    The loops run at most once per bit of a [uint32]; the fuel is 32. *)

Fixpoint countBit_loop (fuel : nat) (num count : Z) : Z :=
  match fuel with
  | O => count
  | S f => if num =? 0 then count
           else countBit_loop f (Z.land num (u32 (num - 1))) (count + 1)
  end.
Definition countBit (num : Z) : Z := countBit_loop 32 num 0.

Definition isPower2 (num : Z) : bool := countBit num =? 1.

Fixpoint highBit_loop (fuel : nat) (num hiBit : Z) : Z :=
  match fuel with
  | O => hiBit
  | S f => if num =? 0 then hiBit else highBit_loop f (Z.shiftr num 1) (hiBit + 1)
  end.
Definition highBit (num : Z) : Z := highBit_loop 32 num 0.

Definition lowBit (num : Z) : Z := highBit (Z.land num (u32 (- num))).

Definition Uint256 := list byte.
Definition EMPTY_HASH : Uint256 := repeat x00 32.

#[global] Instance Uint256_eq_dec : EqDecision Uint256.
Proof. unfold Uint256. apply _. Defined.

(** [1 << (highBit(n-1) - 1)] as a [uint32]: the split point of a tree of [n]
    leaves. *)
Definition split_point (n : Z) : Z := u32 (Z.shiftl 1 (highBit (u32 (n - 1)) - 1)).

(** ** Positions in the hash store *)

(** The loop shared by [getSubTreeSize] and [getSubTreePos]: from the low bits
    of [n] up, one entry [2^(h+1) - 1] per set bit, filled from the end of the
    slice; the result is the slice. *)
Fixpoint subtree_loop (fuel : nat) (n id : Z) (acc : list Z) : list Z :=
  match fuel with
  | O => acc
  | S f => if n =? 0 then acc
           else let id := u32 (id * 2) in
                subtree_loop f (Z.shiftr n 1) id
                  (if n mod 2 =? 1 then u32 (id - 1) :: acc else acc)
  end.

Definition getSubTreeSize (n : Z) : list Z := subtree_loop 32 n 1 [].

(** [hashespos[i] += hashespos[i-1]] *)
Fixpoint prefix_sums (acc : Z) (l : list Z) : list Z :=
  match l with
  | [] => []
  | x :: l' => u32 (acc + x) :: prefix_sums (u32 (acc + x)) l'
  end.

Definition getSubTreePos (n : Z) : list Z := prefix_sums 0 (subtree_loop 32 n 1 []).

Definition getStoredHashNum (tree_size : Z) : Z :=
  foldl (fun sum v => s64 (sum + v)) 0 (getSubTreeSize tree_size).

(** ** The hash store

    [HashStore S] is the Go interface as the tree uses it: [Append] extends the
    stored sequence [hs_view], [GetHash] reads it (the tree ignores the error
    and then holds the zero hash). *)
Class HashStore (S : Type) := {
  hs_wf : S -> Prop;
  hs_view : S -> list Uint256;
  hs_Append : list Uint256 -> S -> S;
  hs_GetHash : S -> Z -> res Uint256;
  hs_Append_wf : forall s hs, hs_wf s -> Forall (fun h => length h = 32%nat) hs -> hs_wf (hs_Append hs s);
  hs_Append_view : forall s hs, hs_wf s -> Forall (fun h => length h = 32%nat) hs ->
    hs_view (hs_Append hs s) = hs_view s ++ hs;
  hs_GetHash_view : forall s pos h, hs_wf s -> 0 <= pos -> hs_view s !! Z.to_nat pos = Some h ->
    hs_GetHash s pos = Ok h
}.

(** [memHashStore]: a slice; [GetHash] out of range panics. *)
Module MemStore.

Record memHashStore := mkMem { mem_hashes : list Uint256 }.
Definition Append (hash : list Uint256) (self : memHashStore) : memHashStore :=
  mkMem (mem_hashes self ++ hash).
Definition GetHash (self : memHashStore) (pos : Z) : res Uint256 :=
  match mem_hashes self !! Z.to_nat pos with Some h => Ok h | None => Panic end.

#[global] Instance mem_store : HashStore memHashStore.
Proof.
  refine {| hs_wf _ := True; hs_view := mem_hashes; hs_Append := Append; hs_GetHash := GetHash |}.
  - auto.
  - reflexivity.
  - intros s pos h _ _ E. unfold GetHash. rewrite E. reflexivity.
Defined.

End MemStore.

(** [fileHashStore]: the bytes of the file and the offset of the next write.
    A store opened on a longer file overwrites what is behind the offset. *)
Module FileStore.

Record fileHashStore := mkFile { file : list byte; offset : Z }.

Definition checkConsistence (file : list byte) (tree_size : Z) : bool :=
  negb (zlen file <? getStoredHashNum tree_size * 32).

Definition NewFileHashStore (file : list byte) (tree_size : Z) : res fileHashStore :=
  if checkConsistence file tree_size
  then Ok (mkFile file (getStoredHashNum tree_size * 32))
  else Err "stored hashes are less than expected".

Definition Append (hash : list Uint256) (self : fileHashStore) : fileHashStore :=
  let buf := concat hash in
  mkFile (take (Z.to_nat (offset self)) (file self) ++ buf
          ++ drop (Z.to_nat (offset self + zlen buf)) (file self))
         (offset self + zlen buf).

Definition GetHash (self : fileHashStore) (pos : Z) : res Uint256 :=
  match slice (file self) (pos * 32) (pos * 32 + 32) with
  | Some h => Ok h
  | None => Err "EOF"
  end.

Fixpoint chop (n : nat) (bs : list byte) : list Uint256 :=
  match n with O => [] | S n' => take 32 bs :: chop n' (drop 32 bs) end.

Definition wf (s : fileHashStore) : Prop :=
  0 <= offset s <= zlen (file s) /\ offset s mod 32 = 0.
Definition view (s : fileHashStore) : list Uint256 := chop (Z.to_nat (offset s / 32)) (file s).

Lemma chop_concat hs bs n :
  Forall (fun h => length h = 32%nat) hs -> n = length hs -> chop n (concat hs ++ bs) = hs.
Proof.
  intros Hhs ->. revert bs. induction Hhs as [|h hs Hh Hhs IH]; intros bs; [reflexivity|].
  cbn [concat length chop]. rewrite <- app_assoc, <- Hh, take_app_length, drop_app_length, IH. reflexivity.
Qed.

Lemma chop_app m n bs : chop (m + n) bs = chop m bs ++ chop n (drop (32 * m) bs).
Proof.
  revert bs. induction m as [|m IH]; intros bs; [reflexivity|].
  cbn [Nat.add chop app]. rewrite IH, drop_drop.
  replace (32 * S m)%nat with (32 + 32 * m)%nat by lia. reflexivity.
Qed.

Lemma chop_take n bs bs' : take (32 * n) bs = take (32 * n) bs' -> chop n bs = chop n bs'.
Proof.
  revert bs bs'. induction n as [|n IH]; intros bs bs' E; [reflexivity|]. cbn [chop].
  pose proof (f_equal (take 32) E) as E1. rewrite !take_take in E1.
  replace (32 `min` (32 * S n))%nat with 32%nat in E1 by lia.
  pose proof (f_equal (drop 32) E) as E2. rewrite !skipn_firstn_comm in E2.
  replace (32 * S n - 32)%nat with (32 * n)%nat in E2 by lia.
  rewrite E1, (IH _ _ E2). reflexivity.
Qed.

Lemma zlen_concat32 hs : Forall (fun h => length h = 32%nat) hs -> zlen (concat hs : list byte) = 32 * zlen hs.
Proof.
  induction 1 as [|h hs Hh Hhs IH]; [reflexivity|]. cbn [concat].
  rewrite zlen_app, zlen_cons, IH. unfold zlen at 1. lia.
Qed.

Lemma chop_lookup n bs i h :
  (32 * n <= length bs)%nat -> chop n bs !! i = Some h -> h = take 32 (drop (32 * i) bs) /\ (i < n)%nat.
Proof.
  revert bs i. induction n as [|n IH]; intros bs i Hl E; [discriminate|].
  destruct i as [|i]; cbn [chop] in E.
  - injection E as <-. rewrite Nat.mul_0_r. split; [reflexivity | lia].
  - apply IH in E as [-> Hi]; [|rewrite length_drop; lia].
    rewrite drop_drop. split; [|lia]. do 2 f_equal. lia.
Qed.

Lemma append_view s hs :
  wf s -> Forall (fun h => length h = 32%nat) hs -> view (Append hs s) = view s ++ hs.
Proof.
  intros [Ho Hm] Hhs. unfold view, Append; cbn [file offset].
  pose proof (zlen_concat32 hs Hhs) as Hc.
  replace (Z.to_nat ((offset s + zlen (concat hs)) / 32)) with (Z.to_nat (offset s / 32) + length hs)%nat
    by (rewrite Hc; unfold zlen; Z.div_mod_to_equations; lia).
  assert (Hoff : (32 * Z.to_nat (offset s / 32))%nat = Z.to_nat (offset s)) by (Z.div_mod_to_equations; lia).
  assert (Hlen : length (take (Z.to_nat (offset s)) (file s)) = Z.to_nat (offset s))
    by (rewrite length_take; unfold zlen in Ho; lia).
  rewrite chop_app. f_equal.
  - apply chop_take. rewrite Hoff, take_app_le, take_take by lia. f_equal. lia.
  - rewrite Hoff, drop_app_le, drop_ge by lia. apply chop_concat; auto.
Qed.

#[global] Instance file_store : HashStore fileHashStore.
Proof.
  refine {| hs_wf := wf; hs_view := view; hs_Append := Append; hs_GetHash := GetHash |}.
  - intros s hs [Ho Hm] Hhs. unfold wf, Append; cbn [file offset].
    pose proof (zlen_concat32 hs Hhs) as Hc. pose proof (zlen_nonneg hs).
    rewrite !zlen_app. split; [|rewrite Hc; Z.div_mod_to_equations; lia].
    assert (zlen (take (Z.to_nat (offset s)) (file s)) = offset s)
      by (unfold zlen in *; rewrite length_take; lia).
    pose proof (zlen_nonneg (drop (Z.to_nat (offset s + zlen (concat hs))) (file s))). lia.
  - exact append_view.
  - intros s pos h [Ho Hm] Hpos E. unfold view in E.
    apply chop_lookup in E as [-> Hi]; [|unfold zlen in Ho; Z.div_mod_to_equations; lia].
    unfold GetHash. rewrite slice_Some by (Z.div_mod_to_equations; lia).
    do 2 f_equal; [lia|]. f_equal. lia.
Defined.

End FileStore.

Section WithHash.
Context (sha256 : list byte -> Uint256).

(** ** [TreeHasher] ([merkle/merkle_hasher.go]) *)

Definition hash_empty : Uint256 := sha256 [].
Definition hash_leaf (data : list byte) : Uint256 := sha256 (x00 :: data).
Definition hash_children (left right : Uint256) : Uint256 := sha256 (x01 :: left ++ right).

(** [_hash_full(leaves, l_idx, r_idx)] returns the root and the roots of the
    full subtrees; the recursion halves the width, [fuel] bounds it. *)
Fixpoint hash_full (fuel : nat) (leaves : list Uint256) (l_idx r_idx : Z) : res (Uint256 * list Uint256) :=
  match fuel with
  | O => Panic
  | S f =>
      let width := u32 (r_idx - l_idx) in
      if width =? 0 then Ok (hash_empty, [])
      else if width =? 1 then
        match leaves !! Z.to_nat l_idx with
        | Some leaf_hash => Ok (leaf_hash, [leaf_hash])
        | None => Panic
        end
      else
        let split_width := split_point width in
        let* '(l_root, l_hashes) := hash_full f leaves l_idx (u32 (l_idx + split_width)) in
        if negb (zlen l_hashes =? 1) then Panic
        else
          let* '(r_root, r_hashes) := hash_full f leaves (u32 (l_idx + split_width)) r_idx in
          let root_hash := hash_children l_root r_root in
          let hashes := if u32 (split_width * 2) =? width then [root_hash] else l_hashes ++ r_hashes in
          Ok (root_hash, hashes)
  end.

(** [_hash_fold]: from the last hash back; an empty slice panics. *)
Definition hash_fold (hashes : list Uint256) : res Uint256 :=
  match rev hashes with
  | [] => Panic
  | accum :: rest => Ok (foldl (fun accum h => hash_children h accum) accum rest)
  end.

Definition HashFullTreeWithLeafHash (leaves : list Uint256) : res Uint256 :=
  let length := u32 (zlen leaves) in
  let* '(root_hash, hashes) := hash_full 33 leaves 0 length in
  if zlen hashes =? countBit length then Ok root_hash else Panic.

Definition HashFullTree (leaves : list (list byte)) : res Uint256 :=
  HashFullTreeWithLeafHash (hash_leaf <$> leaves).

(** ** [CompactMerkleTree] ([merkle/merkle_tree.go]) *)

Section Tree.
Context {S : Type} `{HashStore S}.

Record CompactMerkleTree := mkTree {
  mintree_h : Z;
  hashes : list Uint256;
  hashStore : option S;
  rootHash : Uint256;
  treeSize : Z
}.

Definition update (tree_size : Z) (hs : list Uint256) (self : CompactMerkleTree) : res CompactMerkleTree :=
  if negb (zlen hs =? countBit tree_size) then Panic
  else Ok (mkTree (lowBit tree_size) hs (hashStore self) EMPTY_HASH tree_size).

Definition NewTree (tree_size : Z) (hs : list Uint256) (store : option S) : res CompactMerkleTree :=
  update tree_size hs (mkTree 0 [] store EMPTY_HASH 0).

Definition Root (self : CompactMerkleTree) : res (Uint256 * CompactMerkleTree) :=
  if decide (rootHash self = EMPTY_HASH) then
    let* r := if negb (zlen (hashes self) =? 0) then hash_fold (hashes self) else Ok hash_empty in
    Ok (r, mkTree (mintree_h self) (hashes self) (hashStore self) r (treeSize self))
  else Ok (rootHash self, self).

Definition GetRootWithNewLeaf (newLeaf : Uint256) (self : CompactMerkleTree) : res Uint256 :=
  hash_fold (hashes self ++ [newLeaf]).

Definition cloneMem (self : CompactMerkleTree) : CompactMerkleTree :=
  mkTree (mintree_h self) (hashes self) None (rootHash self) (treeSize self).

(** The merge loop of [AppendHash]: state is the remaining counter [s], the
    number [size] of old hashes left, the current [leaf], [mintree_h] and the
    hashes to store. *)
Fixpoint append_loop (fuel : nat) (hs : list Uint256) (s size : Z) (leaf : Uint256) (mh : Z)
    (store : list Uint256) : res (Z * Uint256 * Z * list Uint256) :=
  match fuel with
  | O => Ok (size, leaf, mh, store)
  | Datatypes.S f =>
      if s mod 2 =? 1 then
        if size <=? 0 then Panic else
        match hs !! Z.to_nat (size - 1) with
        | None => Panic
        | Some h =>
            let leaf := hash_children h leaf in
            append_loop f hs (Z.shiftr s 1) (size - 1) leaf (mh + 1) (store ++ [leaf])
        end
      else Ok (size, leaf, mh, store)
  end.

(** [AppendHash] returns the audit path (the old hashes, reversed). *)
Definition AppendHash (leaf : Uint256) (self : CompactMerkleTree) : res (list Uint256 * CompactMerkleTree) :=
  let auditPath := rev (hashes self) in
  let* '(size, leaf', mh, storehashes) :=
    append_loop 32 (hashes self) (treeSize self) (zlen (hashes self)) leaf 1 [leaf] in
  Ok (auditPath,
      mkTree mh (take (Z.to_nat size) (hashes self) ++ [leaf'])
        (hs_Append storehashes <$> hashStore self) EMPTY_HASH (u32 (treeSize self + 1))).

Definition Append (leafv : list byte) (self : CompactMerkleTree) : res (list Uint256 * CompactMerkleTree) :=
  AppendHash (hash_leaf leafv) self.

Fixpoint append_all (newLeaf : list Uint256) (tree : CompactMerkleTree) : res CompactMerkleTree :=
  match newLeaf with
  | [] => Ok tree
  | h :: rest => let* '(_, t) := AppendHash h tree in append_all rest t
  end.

Definition GetRootWithNewLeaves (newLeaf : list Uint256) (self : CompactMerkleTree) : res Uint256 :=
  let* tree := append_all newLeaf (cloneMem self) in
  let* '(r, _) := Root tree in Ok r.

(** *** Marshalling *)

Definition Marshal (self : CompactMerkleTree) : list byte :=
  rev (z2le 4 (treeSize self)) ++ concat (hashes self).

Fixpoint read_hashes (n : nat) (buf : list byte) : list Uint256 :=
  match n with O => [] | Datatypes.S n' => take 32 buf :: read_hashes n' (drop 32 buf) end.

Definition UnMarshal (buf : list byte) (self : CompactMerkleTree) : res CompactMerkleTree :=
  match slice buf 0 4 with
  | None => Panic
  | Some b =>
      let tree_size := le2z (rev b) in
      let nhashes := countBit tree_size in
      if zlen buf <? 4 + nhashes * 32 then Err "Too short input buf length"
      else update tree_size (read_hashes (Z.to_nat nhashes) (drop 4 buf)) self
  end.

(** *** Proofs out of the store *)

(** [self.hashStore.GetHash] with the error ignored. *)
Definition get_hash (store : S) (pos : Z) : res Uint256 :=
  match hs_GetHash store pos with Ok h => Ok h | Err _ => Ok EMPTY_HASH | Panic => Panic end.

Fixpoint get_hashes (store : S) (pos : list Z) : res (list Uint256) :=
  match pos with
  | [] => Ok []
  | p :: pos' =>
      let* h := get_hash store (u32 (p - 1)) in
      let* hs := get_hashes store pos' in Ok (h :: hs)
  end.

Definition merkleRoot (store : S) (n : Z) : res Uint256 :=
  let* hs := get_hashes store (getSubTreePos n) in hash_fold hs.

(** Root of the leaves right of the split: [pos[p] += offset + k*2 - 1]. *)
Definition root_k2n (store : S) (n k offset : Z) : res Uint256 :=
  let* hs := get_hashes store ((fun p => u32 (p + u32 (offset + k * 2 - 1))) <$> getSubTreePos (u32 (n - k))) in
  hash_fold hs.

(** The loop of [InclusionProof]; [acc] is the slice [hashes] built so far. *)
Fixpoint inclusion_loop (fuel : nat) (store : S) (m n offset : Z) (acc : list Uint256) : res (list Uint256) :=
  match fuel with
  | O => Panic
  | Datatypes.S f =>
      if n =? 1 then Ok acc
      else
        let k := split_point n in
        if m <? k then
          let* rootk2n := root_k2n store n k offset in
          inclusion_loop f store m k offset (acc ++ [rootk2n])
        else
          let offset := u32 (offset + (k * 2 - 1)) in
          let* root02k := get_hash store (u32 (offset - 1)) in
          inclusion_loop f store (u32 (m - k)) (u32 (n - k)) offset (acc ++ [root02k])
  end.

Definition InclusionProof (m n : Z) (self : CompactMerkleTree) : res (list Uint256) :=
  if n <=? m then Err "wrong parameters"
  else if treeSize self <? n then Err "not available yet"
  else match hashStore self with
       | None => Err "hash store not available"
       | Some store => let* hs := inclusion_loop 64 store m n 0 [] in Ok (rev hs)
       end.

Fixpoint subproof_loop (fuel : nat) (store : S) (m n offset : Z) (b : bool) (acc : list Uint256)
    : res (Z * Z * bool * list Uint256) :=
  match fuel with
  | O => Panic
  | Datatypes.S f =>
      if m <? n then
        let k := split_point n in
        if m <=? k then
          let* rootk2n := root_k2n store n k offset in
          subproof_loop f store m k offset b (acc ++ [rootk2n])
        else
          let offset := u32 (offset + (k * 2 - 1)) in
          let* root02k := get_hash store (u32 (offset - 1)) in
          subproof_loop f store (u32 (m - k)) (u32 (n - k)) offset false (acc ++ [root02k])
      else Ok (n, offset, b, acc)
  end.

Definition subproof (store : S) (m n : Z) (b : bool) : res (list Uint256) :=
  let* '(n, offset, b, hs) := subproof_loop 64 store m n 0 b [] in
  if b : bool then Ok (rev hs)
  else match getSubTreePos n with
       | [p] => let* root02n := get_hash store (u32 (u32 (p + offset) - 1)) in Ok (rev (hs ++ [root02n]))
       | _ => Panic (* assert error *)
       end.

(** [ConsistencyProof]: [None] is the nil slice of the error returns. *)
Definition ConsistencyProof (m n : Z) (self : CompactMerkleTree) : res (option (list Uint256)) :=
  match hashStore self with
  | Some store =>
      if (n <? m) || (treeSize self <? n) then Ok None
      else let* p := subproof store m n true in Ok (Some p)
  | None => Ok None
  end.

End Tree.

(** ** [MerkleVerifier] ([merkle/merkle_tree.go]) *)

Fixpoint audit_loop (fuel : nat) (node_index last_node : Z) (path : list Uint256) (calculated : Uint256)
    : res Uint256 :=
  match fuel with
  | O => Panic
  | S f =>
      if 0 <? last_node then
        match path with
        | [] => Err "Proof too short"
        | p :: path' =>
            if node_index mod 2 =? 1 then
              audit_loop f (node_index / 2) (last_node / 2) path' (hash_children p calculated)
            else if node_index <? last_node then
              audit_loop f (node_index / 2) (last_node / 2) path' (hash_children calculated p)
            else audit_loop f (node_index / 2) (last_node / 2) path calculated
        end
      else match path with [] => Ok calculated | _ => Err "Proof too long" end
  end.

Definition calculate_root_hash_from_audit_path (leaf_hash : Uint256) (node_index : Z)
    (audit_path : list Uint256) (tree_size : Z) : res Uint256 :=
  audit_loop 33 node_index (u32 (tree_size - 1)) audit_path leaf_hash.

Definition VerifyLeafHashInclusion (leaf_hash : Uint256) (leaf_index : Z) (proof : list Uint256)
    (root_hash : Uint256) (tree_size : Z) : res unit :=
  if tree_size <=? leaf_index then Err "Wrong params: the tree size is smaller than the leaf index"
  else
    let* calculated := calculate_root_hash_from_audit_path leaf_hash leaf_index proof tree_size in
    if decide (calculated = root_hash) then Ok ()
    else Err "Constructed root hash differs from provided root hash".

Definition VerifyLeafInclusion (leaf : list byte) (leaf_index : Z) (proof : list Uint256)
    (root_hash : Uint256) (tree_size : Z) : res unit :=
  VerifyLeafHashInclusion (hash_leaf leaf) leaf_index proof root_hash tree_size.

(** "while we are the right child" *)
Fixpoint skip_right (fuel : nat) (node last_node : Z) : Z * Z :=
  match fuel with
  | O => (node, last_node)
  | S f => if node mod 2 =? 1 then skip_right f (node / 2) (last_node / 2) else (node, last_node)
  end.

(** The loop [for node != 0]. *)
Fixpoint climb (fuel : nat) (node last_node : Z) (proof : list Uint256) (old_hash new_hash : Uint256)
    : res (Z * list Uint256 * Uint256 * Uint256) :=
  match fuel with
  | O => Panic
  | S f =>
      if node =? 0 then Ok (last_node, proof, old_hash, new_hash)
      else if node mod 2 =? 1 then
        match proof with
        | [] => Err "Wrong proof length"
        | next :: proof' =>
            climb f (node / 2) (last_node / 2) proof' (hash_children next old_hash) (hash_children next new_hash)
        end
      else if node <? last_node then
        match proof with
        | [] => Err "Wrong proof length"
        | next :: proof' =>
            climb f (node / 2) (last_node / 2) proof' old_hash (hash_children new_hash next)
        end
      else climb f (node / 2) (last_node / 2) proof old_hash new_hash
  end.

(** The loop [for last_node != 0]. *)
Fixpoint climb_new (fuel : nat) (last_node : Z) (proof : list Uint256) (new_hash : Uint256)
    : res (list Uint256 * Uint256) :=
  match fuel with
  | O => Panic
  | S f =>
      if last_node =? 0 then Ok (proof, new_hash)
      else match proof with
           | [] => Err "Wrong proof length"
           | next :: proof' => climb_new f (last_node / 2) proof' (hash_children new_hash next)
           end
  end.

Definition VerifyConsistency (old_size new_size : Z) (old_root new_root : Uint256)
    (proof : list Uint256) : res unit :=
  if new_size <? old_size then Err "Older tree has bigger size"
  else if decide (old_root = new_root) then Ok ()
  else if old_size =? 0 then Ok ()
  else
    let '(node, last_node) := skip_right 33 (u32 (old_size - 1)) (u32 (new_size - 1)) in
    match proof with
    | [] => Err "Wrong proof length"
    | p0 :: proof' =>
        let '(h0, rest) := if negb (node =? 0) then (p0, proof') else (old_root, proof) in
        let* '(last_node, rest, old_hash, new_hash) := climb 33 node last_node rest h0 h0 in
        let* '(rest, new_hash) := climb_new 33 last_node rest new_hash in
        if negb (bool_decide (new_hash = new_root)) then Err "Bad Merkle proof: second root hash does not match"
        else if negb (bool_decide (old_hash = old_root)) then Err "Inconsistency: first root hash does not match"
        else match rest with [] => Ok () | _ => Err "Proof too long" end
    end.

End WithHash.
