(* ===== verification/MerkleTheory.v ===== *)
(** * Theory of the compact Merkle tree

    Reference definitions (perfect trees, the decomposition of a list of leaves
    into perfect trees of decreasing size, the Merkle tree hash [mth] of
    RFC 6962, the post-order store) and the invariant that [AppendHash]
    maintains: hashes, store and size of the tree are those of the leaves. *)

From S2P Require Import Prelude Merkle.

(** ** Bits *)

Lemma highBit_loop_log2 fuel num c :
  0 < num < 2 ^ Z.of_nat fuel -> highBit_loop fuel num c = c + Z.log2 num + 1.
Proof.
  revert num c. induction fuel as [|f IH]; intros num c H; [simpl in H; lia|].
  cbn [highBit_loop]. rewrite (proj2 (Z.eqb_neq num 0)) by lia.
  rewrite Z.shiftr_div_pow2 by lia. change (2 ^ 1) with 2.
  destruct (Z.eq_dec num 1) as [->|H1].
  { change (1 / 2) with 0. destruct f; simpl; lia. }
  rewrite Nat2Z.inj_succ, Z.pow_succ_r in H by lia.
  rewrite IH by (Z.div_mod_to_equations; lia).
  assert (Hl : Z.log2 num = Z.log2 (num / 2) + 1).
  { change 2 with (2 ^ 1) at 1. rewrite <- Z.shiftr_div_pow2, Z.log2_shiftr by lia.
    pose proof (Z.log2_le_mono 2 num ltac:(lia)) as Hm. change (Z.log2 2) with 1 in Hm. lia. }
  lia.
Qed.

Lemma highBit_log2 num : 0 < num < 2 ^ 32 -> highBit num = Z.log2 num + 1.
Proof. intros. unfold highBit. rewrite highBit_loop_log2 by (simpl; lia). lia. Qed.

(** The split point is the largest power of two below [n]. *)
Lemma split_point_spec h n :
  0 <= h < 31 -> 2 ^ h < n <= 2 ^ (h + 1) -> split_point n = 2 ^ h.
Proof.
  intros Hh Hn. unfold split_point.
  assert (2 ^ (h + 1) <= 2 ^ 31) by (apply Z.pow_le_mono_r; lia).
  pose proof (Z.pow_pos_nonneg 2 h ltac:(lia) ltac:(lia)).
  rewrite (u32_small (n - 1)) by words. rewrite highBit_log2 by words.
  assert (Hlog : Z.log2 (n - 1) = h) by (apply Z.log2_unique; lia).
  rewrite Hlog. replace (h + 1 - 1) with h by lia.
  rewrite Z.shiftl_1_l. apply u32_small. words.
Qed.

Definition pow2 (h : nat) : nat := 2 ^ h.

Lemma pow2_S h : pow2 (S h) = (2 * pow2 h)%nat.
Proof. reflexivity. Qed.
Lemma pow2_pos h : (1 <= pow2 h)%nat.
Proof. unfold pow2. pose proof (Nat.pow_nonzero 2 h). lia. Qed.
Lemma pow2_Z h : Z.of_nat (pow2 h) = 2 ^ Z.of_nat h.
Proof. unfold pow2. rewrite Nat2Z.inj_pow. reflexivity. Qed.
Lemma log2_pow2 h r : (r < pow2 h)%nat -> Nat.log2 (pow2 h + r) = h.
Proof.
  intros Hr. apply Nat.log2_unique; [lia|]. fold (pow2 h) (pow2 (S h)). rewrite pow2_S. lia.
Qed.
Lemma pow2_log2 n : (0 < n)%nat -> (pow2 (Nat.log2 n) <= n < 2 * pow2 (Nat.log2 n))%nat.
Proof. intros Hn. pose proof (Nat.log2_spec n Hn). rewrite <- pow2_S. assumption. Qed.
#[global] Opaque pow2.

Lemma pow2_lt_mono a b : (pow2 a < pow2 b)%nat -> (a < b)%nat.
Proof.
  intros H. apply Nat2Z.inj_lt. apply (Z.pow_lt_mono_r_iff 2); try lia. rewrite <- !pow2_Z. lia.
Qed.

Section Theory.
Context (sha256 : list byte -> Uint256).
Abbreviation hc := (hash_children sha256).
Implicit Types (l t r a b : list Uint256).

(** ** Perfect trees of height [h] *)

Fixpoint proot (h : nat) (t : list Uint256) : Uint256 :=
  match h with
  | O => default EMPTY_HASH (head t)
  | S h' => hc (proot h' (take (pow2 h') t)) (proot h' (drop (pow2 h') t))
  end.

Fixpoint ppost (h : nat) (t : list Uint256) : list Uint256 :=
  match h with
  | O => t
  | S h' => ppost h' (take (pow2 h') t) ++ ppost h' (drop (pow2 h') t) ++ [proot (S h') t]
  end.

Lemma proot_app h a b : length a = pow2 h -> proot (S h) (a ++ b) = hc (proot h a) (proot h b).
Proof. intros Ha. cbn [proot]. rewrite <- Ha, take_app_length, drop_app_length. reflexivity. Qed.

Lemma ppost_app h a b :
  length a = pow2 h -> ppost (S h) (a ++ b) = ppost h a ++ ppost h b ++ [proot (S h) (a ++ b)].
Proof. intros Ha. cbn [ppost]. rewrite <- Ha, take_app_length, drop_app_length. reflexivity. Qed.

Lemma length_half h (t : list Uint256) :
  length t = pow2 (S h) ->
  length (take (pow2 h) t) = pow2 h /\ length (drop (pow2 h) t) = pow2 h.
Proof. rewrite pow2_S. intros. rewrite length_take, length_drop. lia. Qed.

Lemma length_ppost h t : length t = pow2 h -> length (ppost h t) = (2 * pow2 h - 1)%nat.
Proof.
  revert t. induction h as [|h IH]; intros t Ht; [exact Ht|].
  destruct (length_half h t Ht) as [H1 H2]. pose proof (pow2_pos h).
  cbn [ppost]. rewrite !length_app, (IH _ H1), (IH _ H2), pow2_S. simpl. lia.
Qed.

(** A perfect tree's store ends with its root. *)
Lemma ppost_last h t : length t = pow2 h -> exists s, ppost h t = s ++ [proot h t].
Proof.
  destruct h as [|h]; intros Ht.
  - destruct t as [|x [|y t]]; try discriminate. exists []. reflexivity.
  - cbn [ppost]. eexists (_ ++ _). rewrite <- app_assoc. reflexivity.
Qed.

(** ** Decomposition into perfect trees, largest first *)

Fixpoint forest_fuel (fuel : nat) (l : list Uint256) : list (nat * list Uint256) :=
  match fuel, l with
  | S f, _ :: _ =>
      let h := Nat.log2 (length l) in (h, take (pow2 h) l) :: forest_fuel f (drop (pow2 h) l)
  | _, _ => []
  end.
Definition forest (l : list Uint256) := forest_fuel (length l) l.


Lemma forest_fuel_irrel f f' l :
  (length l <= f)%nat -> (length l <= f')%nat -> forest_fuel f l = forest_fuel f' l.
Proof.
  revert f' l. induction f as [|f IH]; intros f' l Hl Hl'.
  { destruct l; [destruct f'; reflexivity | simpl in Hl; lia]. }
  destruct l as [|x l]; [destruct f'; reflexivity|].
  destruct f' as [|f']; [simpl in Hl'; lia|]. cbn [forest_fuel].
  pose proof (pow2_pos (Nat.log2 (length (x :: l)))).
  f_equal. apply IH; rewrite length_drop; simpl in *; lia.
Qed.

(** A list is [t ++ r] with [t] perfect and [r] shorter than [t]. *)
Lemma perfect_cases (l : list Uint256) :
  l <> [] -> exists h (t r : list Uint256), l = t ++ r /\ length t = pow2 h /\ (length r < pow2 h)%nat.
Proof.
  intros Hl. assert (0 < length l)%nat as Hp by (destruct l; simpl; [congruence | lia]).
  pose proof (pow2_log2 _ Hp). set (h := Nat.log2 (length l)) in *.
  exists h, (take (pow2 h) l), (drop (pow2 h) l).
  rewrite take_drop, length_take, length_drop. split; [reflexivity|]. lia.
Qed.

Lemma forest_app h t r :
  length t = pow2 h -> (length r < pow2 h)%nat -> forest (t ++ r) = (h, t) :: forest r.
Proof.
  intros Ht Hr. pose proof (pow2_pos h) as Hp. unfold forest.
  destruct (t ++ r) as [|x l] eqn:E.
  { apply (f_equal length) in E. rewrite length_app in E. simpl in E. lia. }
  cbn [length forest_fuel]. rewrite <- E.
  assert (HL : S (length l) = (pow2 h + length r)%nat).
  { apply (f_equal length) in E. rewrite length_app in E. simpl in E. lia. }
  rewrite HL, log2_pow2 by assumption.
  rewrite <- Ht, take_app_length, drop_app_length. f_equal.
  apply forest_fuel_irrel; lia.
Qed.

Lemma forest_nil : forest [] = [].
Proof. reflexivity. Qed.

Lemma forest_perfect h t : length t = pow2 h -> forest t = [(h, t)].
Proof. intros Ht. rewrite <- (app_nil_r t) at 1. rewrite (forest_app h); auto using pow2_pos. Qed.

(** Induction along the decomposition. *)
Lemma perfect_ind (P : list Uint256 -> Prop) :
  P [] ->
  (forall h t r, length t = pow2 h -> (length r < pow2 h)%nat -> P r -> P (t ++ r)) ->
  forall l, P l.
Proof.
  intros H0 HS l. remember (length l) as n eqn:En. revert l En.
  induction n as [n IH] using lt_wf_ind. intros l ->.
  destruct (decide (l = [])) as [->|Hl]; [exact H0|].
  destruct (perfect_cases l Hl) as (h & t & r & -> & Ht & Hr).
  apply (HS h); auto. pose proof (pow2_pos h).
  apply (IH (length r)); [rewrite length_app; lia | reflexivity].
Qed.

(** ** Peaks, store and the Merkle tree hash *)

Definition peaks (l : list Uint256) : list Uint256 := (fun '(h, t) => proot h t) <$> forest l.
Definition pstore (l : list Uint256) : list Uint256 := concat ((fun '(h, t) => ppost h t) <$> forest l).

Fixpoint fold1 (hs : list Uint256) : Uint256 :=
  match hs with
  | [] => hash_empty sha256
  | x :: hs' => match hs' with [] => x | _ :: _ => hc x (fold1 hs') end
  end.
Definition mth (l : list Uint256) : Uint256 := fold1 (peaks l).

Lemma peaks_app h t r :
  length t = pow2 h -> (length r < pow2 h)%nat -> peaks (t ++ r) = proot h t :: peaks r.
Proof. intros. unfold peaks. rewrite (forest_app h) by assumption. reflexivity. Qed.

Lemma pstore_app h t r :
  length t = pow2 h -> (length r < pow2 h)%nat -> pstore (t ++ r) = ppost h t ++ pstore r.
Proof. intros. unfold pstore. rewrite (forest_app h) by assumption. reflexivity. Qed.

Lemma pstore_perfect h t : length t = pow2 h -> pstore t = ppost h t.
Proof.
  intros Ht. unfold pstore. rewrite (forest_perfect h t Ht). cbn. apply app_nil_r.
Qed.

Lemma peaks_perfect h t : length t = pow2 h -> peaks t = [proot h t].
Proof. intros Ht. unfold peaks. rewrite (forest_perfect h t Ht). reflexivity. Qed.

Lemma mth_perfect h t : length t = pow2 h -> mth t = proot h t.
Proof. intros Ht. unfold mth, peaks. rewrite (forest_perfect h t Ht). reflexivity. Qed.

Lemma peaks_nil_iff l : peaks l = [] <-> l = [].
Proof.
  split; [|intros ->; reflexivity]. intros H. destruct (decide (l = [])) as [|Hl]; [assumption|].
  destruct (perfect_cases l Hl) as (h & t & r & -> & Ht & Hr).
  rewrite (peaks_app h) in H by assumption. discriminate.
Qed.

Lemma mth_app h t r :
  length t = pow2 h -> (0 < length r < pow2 h)%nat -> mth (t ++ r) = hc (proot h t) (mth r).
Proof.
  intros Ht Hr. unfold mth. rewrite (peaks_app h) by lia. cbn [fold1].
  destruct (peaks r) as [|x hs] eqn:E; [|reflexivity].
  apply peaks_nil_iff in E as ->. simpl in Hr. lia.
Qed.

Lemma hash_fold_fold1 hs : hs <> [] -> hash_fold sha256 hs = Ok (fold1 hs).
Proof.
  intros Hhs. destruct (exists_last Hhs) as (a & x & ->). unfold hash_fold.
  rewrite rev_app_distr. cbn [rev app]. f_equal. clear Hhs.
  induction a as [|y a IH]; [reflexivity|]. cbn [rev app].
  rewrite foldl_app. cbn [foldl]. rewrite IH. cbn [fold1].
  destruct (a ++ [x]) eqn:E; [destruct a; discriminate | reflexivity].
Qed.

(** The recursion of RFC 6962: split at the largest power of two below the
    size; the stores of the two halves lie next to each other. *)
Lemma split_rfc h a b :
  length a = pow2 h -> (0 < length b <= pow2 h)%nat ->
  mth (a ++ b) = hc (mth a) (mth b) /\
  exists x, pstore (a ++ b) = pstore a ++ pstore b ++ x.
Proof.
  intros Ha Hb. destruct (decide (length b = pow2 h)) as [Eb|Nb].
  - assert (Hab : length (a ++ b) = pow2 (S h)) by (rewrite length_app, pow2_S; lia).
    rewrite (mth_perfect (S h)), (mth_perfect h a), (mth_perfect h b), proot_app by assumption.
    split; [reflexivity|]. exists [proot (S h) (a ++ b)].
    rewrite (pstore_perfect (S h)), (pstore_perfect h a), (pstore_perfect h b), ppost_app by assumption.
    reflexivity.
  - rewrite (mth_app h), (mth_perfect h a) by lia. split; [reflexivity|].
    exists []. rewrite (pstore_app h), (pstore_perfect h a), app_nil_r by lia. reflexivity.
Qed.

Lemma length_pstore_perfect h t : length t = pow2 h -> length (pstore t) = (2 * pow2 h - 1)%nat.
Proof. intros Ht. rewrite (pstore_perfect h), length_ppost by assumption. reflexivity. Qed.

Lemma length_pstore_le l : (length (pstore l) <= 2 * length l)%nat.
Proof.
  induction l as [|h t r Ht Hr IH] using perfect_ind; [simpl; lia|].
  rewrite (pstore_app h), !length_app, length_ppost by assumption. lia.
Qed.

(** ** The binary counter

    [Fr h n fs]: [fs] lists, smallest first, perfect trees whose sizes are
    [2^h] times the set bits of [n]. *)
Inductive Fr : nat -> Z -> list (nat * list Uint256) -> Prop :=
  | Fr_zero h : Fr h 0 []
  | Fr_even h q fs : 0 < q -> Fr (S h) q fs -> Fr h (2 * q) fs
  | Fr_odd h q t fs : 0 <= q -> length t = pow2 h -> Fr (S h) q fs -> Fr h (2 * q + 1) ((h, t) :: fs).

Fixpoint leaves_of (fs : list (nat * list Uint256)) : list Uint256 :=
  match fs with [] => [] | (_, t) :: fs' => leaves_of fs' ++ t end.
Fixpoint roots_of (fs : list (nat * list Uint256)) : list Uint256 :=
  match fs with [] => [] | (h, t) :: fs' => roots_of fs' ++ [proot h t] end.
Fixpoint stores_of (fs : list (nat * list Uint256)) : list Uint256 :=
  match fs with [] => [] | (h, t) :: fs' => stores_of fs' ++ ppost h t end.

Lemma Fr_nonneg h n fs : Fr h n fs -> 0 <= n.
Proof. induction 1; lia. Qed.

Lemma Fr_pow j h (t : list Uint256) : length t = pow2 (h + j) -> Fr h (2 ^ Z.of_nat j) [((h + j)%nat, t)].
Proof.
  revert h. induction j as [|j IH]; intros h Ht.
  - rewrite Nat.add_0_r in *. apply (Fr_odd h 0 t []); [lia | exact Ht | constructor].
  - rewrite Nat2Z.inj_succ, Z.pow_succ_r by lia. replace (h + S j)%nat with (S h + j)%nat in * by lia.
    apply Fr_even; [lia|]. apply IH, Ht.
Qed.

(** Adding a larger tree on top. *)
Lemma Fr_snoc h n fs j (t : list Uint256) :
  Fr h n fs -> n < 2 ^ Z.of_nat j -> length t = pow2 (h + j) ->
  Fr h (n + 2 ^ Z.of_nat j) (fs ++ [((h + j)%nat, t)]).
Proof.
  intros HF. revert j. induction HF as [h|h q fs Hq HF IH|h q t0 fs Hq Ht0 HF IH]; intros j Hn Ht.
  - apply Fr_pow, Ht.
  - destruct j as [|j]; [simpl in Hn; lia|].
    rewrite Nat2Z.inj_succ, Z.pow_succ_r in * by lia.
    replace (2 * q + 2 * 2 ^ Z.of_nat j) with (2 * (q + 2 ^ Z.of_nat j)) by lia.
    replace (h + S j)%nat with (S h + j)%nat in * by lia.
    apply Fr_even; [lia|]. apply IH; [lia | exact Ht].
  - destruct j as [|j]; [simpl in Hn; lia|].
    rewrite Nat2Z.inj_succ, Z.pow_succ_r in * by lia.
    replace (2 * q + 1 + 2 * 2 ^ Z.of_nat j) with (2 * (q + 2 ^ Z.of_nat j) + 1) by lia.
    replace (h + S j)%nat with (S h + j)%nat in * by lia.
    cbn [app]. apply Fr_odd; [lia | exact Ht0 |]. apply IH; [lia | exact Ht].
Qed.

Lemma Fr_forest l : Fr 0 (zlen l) (rev (forest l)) /\ leaves_of (rev (forest l)) = l /\
  roots_of (rev (forest l)) = peaks l /\ stores_of (rev (forest l)) = pstore l.
Proof.
  induction l as [|h t r Ht Hr (IF & IL & IR & IS)] using perfect_ind.
  { repeat split. constructor. }
  rewrite (peaks_app h), (pstore_app h), (forest_app h) by assumption. cbn [rev].
  assert (Hsn : forall fs, leaves_of (fs ++ [(h, t)]) = t ++ leaves_of fs /\
    roots_of (fs ++ [(h, t)]) = proot h t :: roots_of fs /\
    stores_of (fs ++ [(h, t)]) = ppost h t ++ stores_of fs).
  { induction fs as [|[h' t'] fs (I1 & I2 & I3)]; cbn [app leaves_of roots_of stores_of].
    - rewrite !app_nil_r. auto.
    - rewrite I1, I2, I3, <- !app_assoc. auto. }
  destruct (Hsn (rev (forest r))) as (-> & -> & ->). rewrite IL, IR, IS. split; [|auto].
  rewrite zlen_app, Z.add_comm. replace (zlen t) with (2 ^ Z.of_nat h) by (rewrite <- pow2_Z; unfold zlen; lia).
  apply (Fr_snoc 0 (zlen r) _ h); [exact IF | rewrite <- pow2_Z; unfold zlen; lia | exact Ht].
Qed.

Lemma Fr_unique h n fs fs' : Fr h n fs -> Fr h n fs' -> leaves_of fs = leaves_of fs' -> fs = fs'.
Proof.
  intros HF. revert fs'. induction HF as [h|h q fs Hq HF IH|h q t fs Hq Ht HF IH]; intros fs' HF' E;
    inversion HF'; subst; try lia.
  - reflexivity.
  - assert (q0 = q) as -> by lia. apply IH; assumption.
  - assert (q0 = q) as -> by lia. cbn [leaves_of] in E.
    apply app_inj_2 in E as [E ->]; [|congruence]. f_equal. apply IH; assumption.
Qed.

(** ** The merge loop of [AppendHash] *)

Lemma take_roots (hs : list Uint256) (n : Z) rs x :
  take (Z.to_nat n) hs = rs ++ [x] -> zlen rs + 1 = n ->
  hs !! Z.to_nat (n - 1) = Some x /\ take (Z.to_nat (n - 1)) hs = rs.
Proof.
  intros E Hn. assert (Hr : Z.to_nat (n - 1) = length rs) by (unfold zlen in Hn; lia).
  split.
  - rewrite <- (lookup_take_lt _ (Z.to_nat n)) by (unfold zlen in Hn; lia).
    rewrite E, Hr. apply list_lookup_middle. reflexivity.
  - replace (Z.to_nat (n - 1)) with (Z.to_nat (n - 1) `min` Z.to_nat n)%nat by lia.
    rewrite <- take_take, E, Hr. apply take_app_length.
Qed.

Lemma zlen_roots_cons h (t : list Uint256) fs : zlen (roots_of ((h, t) :: fs)) = zlen (roots_of fs) + 1.
Proof. cbn [roots_of]. rewrite zlen_app. reflexivity. Qed.

Lemma fold1_merge (rs : list Uint256) x y : fold1 (rs ++ [x; y]) = fold1 (rs ++ [hc x y]).
Proof.
  induction rs as [|r rs IH]; [reflexivity|]. cbn [app fold1]. rewrite IH.
  destruct rs; reflexivity.
Qed.

Lemma append_loop_spec fuel h n fs hs t mh st :
  Fr h n fs -> n < 2 ^ Z.of_nat fuel -> length t = pow2 h ->
  take (Z.to_nat (zlen (roots_of fs))) hs = roots_of fs ->
  exists size leaf mh' extra fs',
    append_loop sha256 fuel hs n (zlen (roots_of fs)) (proot h t) mh st = Ok (size, leaf, mh', st ++ extra) /\
    Fr h (n + 1) fs' /\ leaves_of fs' = leaves_of fs ++ t /\
    take (Z.to_nat size) hs ++ [leaf] = roots_of fs' /\
    stores_of fs' = stores_of fs ++ ppost h t ++ extra /\
    fold1 (roots_of fs ++ [proot h t]) = fold1 (roots_of fs').
Proof.
  intros HF. revert fuel t mh st. induction HF as [h|h q fs Hq HF IH|h q t0 fs Hq Ht0 HF IH];
    intros fuel t mh st Hn Ht Htk.
  - exists 0, (proot h t), mh, [], [(h, t)]. rewrite !app_nil_r.
    split; [destruct fuel; reflexivity|].
    split; [apply (Fr_odd h 0 t []); [lia | exact Ht | constructor]|]. auto.
  - destruct fuel as [|f]; [simpl in Hn; lia|]. cbn [append_loop].
    rewrite Z.mul_comm, Z.mod_mul by lia. cbn [Z.eqb].
    exists (zlen (roots_of fs)), (proot h t), mh, [], ((h, t) :: fs). rewrite !app_nil_r, Htk.
    split; [reflexivity|]. split; [rewrite Z.mul_comm; apply Fr_odd; auto with lia|]. auto.
  - destruct fuel as [|f]; [simpl in Hn; lia|]. cbn [append_loop].
    rewrite zlen_roots_cons in *. pose proof (zlen_nonneg (roots_of fs)).
    replace ((2 * q + 1) mod 2) with 1 by (Z.div_mod_to_equations; lia). cbn [Z.eqb Pos.eqb].
    rewrite (proj2 (Z.leb_gt _ 0)) by lia.
    destruct (take_roots _ _ _ _ Htk eq_refl) as [-> Htk'].
    replace (Z.shiftr (2 * q + 1) 1) with q by (rewrite Z.shiftr_div_pow2 by lia; Z.div_mod_to_equations; lia).
    replace (zlen (roots_of fs) + 1 - 1) with (zlen (roots_of fs)) in * by lia.
    rewrite Nat2Z.inj_succ, Z.pow_succ_r in Hn by lia. rewrite <- proot_app by assumption.
    destruct (IH f (t0 ++ t) (mh + 1) (st ++ [proot (S h) (t0 ++ t)]))
      as (size & leaf & mh' & extra & fs' & E & HF' & HL & HR & HS & HM);
      [lia | rewrite length_app, pow2_S; lia | exact Htk' |].
    exists size, leaf, mh', (proot (S h) (t0 ++ t) :: extra), fs'. rewrite E, <- app_assoc.
    split; [reflexivity|].
    split; [replace (2 * q + 1 + 1) with (2 * (q + 1)) by lia; apply Fr_even; [lia | exact HF']|].
    split; [rewrite HL; cbn [leaves_of]; rewrite app_assoc; reflexivity|]. split; [exact HR|].
    split; [rewrite HS, ppost_app by assumption; cbn [stores_of]; rewrite <- !app_assoc; reflexivity|].
    cbn [roots_of]. rewrite <- app_assoc. cbn [app]. rewrite fold1_merge, <- proot_app by assumption. exact HM.
Qed.

(** ** Counting bits *)

Lemma land_pred_even q : 0 < q -> Z.land (2 * q) (2 * q - 1) = 2 * Z.land q (q - 1).
Proof.
  intros Hq. apply Z.bits_inj'. intros i Hi.
  replace (2 * q - 1) with (2 * (q - 1) + 1) by lia.
  rewrite Z.land_spec. destruct (Z.eq_dec i 0) as [->|Hi0].
  - rewrite !Z.testbit_even_0. reflexivity.
  - replace i with (Z.succ (i - 1)) by lia.
    rewrite !Z.testbit_even_succ, Z.testbit_odd_succ, Z.land_spec by lia. reflexivity.
Qed.

Lemma land_pred_odd q : 0 <= q -> Z.land (2 * q + 1) (2 * q) = 2 * q.
Proof.
  intros Hq. apply Z.bits_inj'. intros i Hi. rewrite Z.land_spec.
  destruct (Z.eq_dec i 0) as [->|Hi0].
  - rewrite Z.testbit_even_0. apply andb_false_r.
  - replace i with (Z.succ (i - 1)) by lia.
    rewrite !Z.testbit_even_succ, Z.testbit_odd_succ by lia. apply andb_diag.
Qed.

Lemma land_range q p : 0 <= q -> 0 <= p -> 0 <= Z.land q p <= q.
Proof.
  intros Hq Hp. split; [apply Z.land_nonneg; auto|].
  rewrite <- (Z2N.id q), <- (Z2N.id p), <- N2Z.inj_land by assumption.
  apply N2Z.inj_le, N.land_le_l.
Qed.

Lemma countBit_loop_even fuel q c :
  0 <= q -> 2 * q < 2 ^ 32 -> countBit_loop fuel (2 * q) c = countBit_loop fuel q c.
Proof.
  revert q c. induction fuel as [|f IH]; intros q c Hq Hb; [reflexivity|]. cbn [countBit_loop].
  destruct (Z.eqb_spec (2 * q) 0), (Z.eqb_spec q 0); try lia.
  rewrite !u32_small, land_pred_even by words.
  pose proof (land_range q (q - 1)). apply IH; lia.
Qed.

Lemma countBit_loop_Fr h n fs fuel c :
  Fr h n fs -> n < 2 ^ 32 -> (length fs <= fuel)%nat -> countBit_loop fuel n c = c + zlen fs.
Proof.
  intros HF. revert fuel c. induction HF as [h|h q fs Hq HF IH|h q t fs Hq Ht HF IH]; intros fuel c Hn Hf.
  - destruct fuel; simpl; rewrite zlen_nil; lia.
  - rewrite countBit_loop_even by lia. apply IH; [lia | exact Hf].
  - destruct fuel as [|f]; [simpl in Hf; lia|]. cbn [countBit_loop].
    rewrite (proj2 (Z.eqb_neq _ 0)), u32_small by words.
    replace (2 * q + 1 - 1) with (2 * q) by lia.
    rewrite land_pred_odd, countBit_loop_even, IH, zlen_cons by (simpl in Hf; lia). lia.
Qed.

Lemma Fr_length h n fs j : Fr h n fs -> n < 2 ^ Z.of_nat j -> (length fs <= j)%nat.
Proof.
  intros HF. revert j. induction HF as [h|h q fs Hq HF IH|h q t fs Hq Ht HF IH]; intros j Hn; [simpl; lia| |];
    (destruct j as [|j]; [simpl in Hn; lia|]; rewrite Nat2Z.inj_succ, Z.pow_succ_r in Hn by lia;
     specialize (IH j ltac:(lia)); simpl; lia).
Qed.

Lemma length_roots fs : length (roots_of fs) = length fs.
Proof. induction fs as [|[h t] fs IH]; [reflexivity|]. cbn [roots_of]. rewrite length_app. simpl. lia. Qed.

Lemma countBit_peaks l : zlen l < 2 ^ 32 -> countBit (zlen l) = zlen (peaks l).
Proof.
  intros Hl. destruct (Fr_forest l) as (HF & _ & HR & _). unfold countBit.
  rewrite (countBit_loop_Fr _ _ _ _ _ HF Hl) by (apply (Fr_length _ _ _ 32 HF Hl)).
  rewrite <- HR. unfold zlen. rewrite length_roots. lia.
Qed.

(** ** Splitting at the split point *)

Lemma split_cases l H :
  (2 <= length l)%nat -> (length l <= pow2 H)%nat -> (H <= 31)%nat ->
  exists h a b, l = a ++ b /\ length a = pow2 h /\ (0 < length b <= pow2 h)%nat /\ (h < H)%nat /\
    split_point (zlen l) = zlen a.
Proof.
  intros H2 HH H31. pose proof (pow2_log2 (length l - 1) ltac:(lia)) as Hp.
  set (h := Nat.log2 (length l - 1)) in *.
  assert (Hh : (h < H)%nat) by (apply pow2_lt_mono; lia).
  exists h, (take (pow2 h) l), (drop (pow2 h) l).
  rewrite take_drop, length_take, length_drop. split; [reflexivity|].
  split; [lia|]. split; [lia|]. split; [exact Hh|].
  rewrite (split_point_spec (Z.of_nat h)); unfold zlen; rewrite ?length_take.
  - rewrite <- pow2_Z. lia.
  - lia.
  - rewrite Z.pow_add_r, <- pow2_Z by lia. lia.
Qed.

(** ** [_hash_full] computes the Merkle tree hash and the peaks *)

Lemma hash_full_spec H fuel pre l suf :
  (length l <= pow2 H)%nat -> (H <= 31)%nat -> (H < fuel)%nat -> zlen pre + zlen l < 2 ^ 32 ->
  hash_full sha256 fuel (pre ++ l ++ suf) (zlen pre) (zlen pre + zlen l) = Ok (mth l, peaks l).
Proof.
  revert fuel pre l suf. induction H as [H IH] using lt_wf_ind. intros fuel pre l suf Hl H31 Hf Hb.
  pose proof (zlen_nonneg pre). pose proof (zlen_nonneg l).
  destruct fuel as [|f]; [lia|]. cbn [hash_full].
  replace (zlen pre + zlen l - zlen pre) with (zlen l) by lia. rewrite u32_small by words.
  destruct (Z.eqb_spec (zlen l) 0) as [E0|N0].
  { destruct l; [reflexivity | rewrite zlen_cons in E0; pose proof (zlen_nonneg l); lia]. }
  destruct (Z.eqb_spec (zlen l) 1) as [E1|N1].
  { destruct l as [|x [|y l]]; try (unfold zlen in E1; simpl in E1; lia).
    cbn [app]. unfold zlen at 1. rewrite Nat2Z.id, list_lookup_middle by reflexivity. reflexivity. }
  destruct (split_cases l H) as (h & a & b & -> & Ha & Hb' & Hh & ->); try (unfold zlen in *; lia).
  rewrite zlen_app in *. pose proof (zlen_nonneg a). pose proof (zlen_nonneg b).
  rewrite (u32_small (zlen pre + zlen a)) by words.
  rewrite <- app_assoc, (IH h) by (lia || (unfold zlen in *; lia)). cbn [res_bind].
  rewrite (peaks_perfect h a Ha).
  change (zlen [proot h a] =? 1) with true. cbn [negb].
  rewrite (app_assoc pre a). rewrite Z.add_assoc, <- (zlen_app pre a).
  rewrite (IH h) by (rewrite ?zlen_app; lia || (unfold zlen in *; lia)). cbn [res_bind].
  destruct (split_rfc h a b Ha Hb') as [Hm _]. rewrite Hm.
  assert (zlen a = 2 ^ Z.of_nat h) as Hza by (rewrite <- pow2_Z; unfold zlen; lia).
  assert (2 ^ Z.of_nat h <= 2 ^ 30) by (apply Z.pow_le_mono_r; lia).
  rewrite u32_small by words.
  destruct (Z.eqb_spec (zlen a * 2) (zlen a + zlen b)) as [Ee|Ne].
  - rewrite <- Hm. assert (Hab : length (a ++ b) = pow2 (S h)) by (rewrite length_app, pow2_S; unfold zlen in *; lia).
    rewrite (peaks_perfect (S h)), (mth_perfect (S h)) by exact Hab. reflexivity.
  - rewrite (peaks_app h) by (unfold zlen in *; lia). reflexivity.
Qed.

Lemma HashFullTreeWithLeafHash_mth l :
  zlen l <= 2 ^ 31 -> HashFullTreeWithLeafHash sha256 l = Ok (mth l).
Proof.
  intros Hl. pose proof (zlen_nonneg l). unfold HashFullTreeWithLeafHash. rewrite u32_small by words.
  pose proof (hash_full_spec 31 33 [] l []) as E. rewrite zlen_nil, app_nil_r, Z.add_0_l in E.
  cbn [app] in E. rewrite E; try lia; [|apply Nat2Z.inj_le; rewrite pow2_Z; exact Hl].
  cbn [res_bind]. rewrite countBit_peaks by words. rewrite Z.eqb_refl. reflexivity.
Qed.

End Theory.

(** ** The invariant of [CompactMerkleTree] *)

Definition hash_ok (h : Uint256) : Prop := length h = 32%nat.

Section Invariant.
Context (sha256 : list byte -> Uint256).
(** SHA-256 returns 32 bytes. *)
Context (sha256_len : forall bs, hash_ok (sha256 bs)).
Context {S : Type} `{HashStore S}.

Lemma Forall_pstore l : Forall hash_ok l -> Forall hash_ok (pstore sha256 l).
Proof.
  intros Hl. unfold pstore. rewrite Forall_concat, Forall_fmap.
  induction l as [|h t r Ht Hr IH] using perfect_ind; [constructor|].
  rewrite (forest_app h) by assumption. apply Forall_app in Hl as [Hlt Hlr].
  constructor; [|apply IH, Hlr]. cbn. clear IH Hr Hlr r. revert t Ht Hlt.
  induction h as [|h IH]; intros t Ht Hlt; [exact Hlt|].
  destruct (length_half h t Ht) as [H1 H2]. cbn [ppost]. rewrite !Forall_app.
  split; [apply IH; [exact H1 | apply Forall_take, Hlt]|].
  split; [apply IH; [exact H2 | apply Forall_drop, Hlt]|].
  constructor; [apply sha256_len | constructor].
Qed.

(** [tree_inv l t]: [t] is the tree of the leaf hashes [l]. *)
Definition tree_inv (l : list Uint256) (t : @CompactMerkleTree S) : Prop :=
  treeSize t = zlen l /\ hashes t = peaks sha256 l /\
  (rootHash t = EMPTY_HASH \/ rootHash t = mth sha256 l) /\
  (forall s, hashStore t = Some s -> hs_wf s /\ hs_view s = pstore sha256 l) /\
  Forall hash_ok l /\ zlen l < 2 ^ 31.

Lemma AppendHash_inv l t x :
  tree_inv l t -> hash_ok x -> zlen l + 1 < 2 ^ 31 ->
  exists t', AppendHash sha256 x t = Ok (rev (hashes t), t') /\ tree_inv (l ++ [x]) t' /\
    (is_Some (hashStore t') <-> is_Some (hashStore t)).
Proof.
  intros (Hsz & Hhs & _ & Hst & Hok & Hb) Hx Hb'. pose proof (zlen_nonneg l).
  destruct (Fr_forest sha256 l) as (HF & HL & HR & HS).
  destruct (append_loop_spec sha256 32 0 (zlen l) _ (hashes t) [x] 1 [x] HF)
    as (size & leaf & mh & extra & fs' & E & HF' & HL' & HR' & HS' & _).
  { words. } { reflexivity. }
  { rewrite HR, Hhs. apply take_ge. unfold zlen. lia. }
  assert (Hfs : fs' = rev (forest (l ++ [x]))).
  { destruct (Fr_forest sha256 (l ++ [x])) as (HFx & HLx & _). rewrite zlen_app in HFx.
    eapply Fr_unique; [exact HF' | exact HFx | rewrite HL', HL, HLx; reflexivity]. }
  destruct (Fr_forest sha256 (l ++ [x])) as (_ & _ & HRx & HSx).
  rewrite Hfs, HRx in HR'. rewrite Hfs, HSx, HS in HS'.
  assert (Hokx : Forall hash_ok (l ++ [x])) by (apply Forall_app; auto).
  rewrite HR, Hhs in E. change (proot sha256 0 [x]) with x in E. rewrite Hhs in HR'.
  unfold AppendHash. rewrite Hsz, Hhs.
  rewrite E. eexists. split; [reflexivity|]. cbn [hashStore]. split; [|destruct (hashStore t); cbn; split; intros [? ?]; eauto; discriminate].
  unfold tree_inv; cbn [treeSize hashes rootHash hashStore]. rewrite zlen_app. change (zlen [x]) with 1.
  split; [apply u32_small; words|]. split; [exact HR'|]. split; [left; reflexivity|].
  split; [|auto with lia]. intros s Es. destruct (hashStore t) as [s0|]; [|discriminate].
  cbn in Es. injection Es as <-. destruct (Hst s0 eq_refl) as [W V].
  assert (Hext : Forall hash_ok ([x] ++ extra)).
  { pose proof (Forall_pstore _ Hokx) as Hf. rewrite HS' in Hf. apply Forall_app in Hf as [_ Hf]. exact Hf. }
  split; [apply hs_Append_wf; assumption|]. rewrite hs_Append_view, V, HS' by assumption. reflexivity.
Qed.

Lemma Root_inv l t :
  tree_inv l t -> exists t', Root sha256 t = Ok (mth sha256 l, t') /\ tree_inv l t' /\
    hashStore t' = hashStore t.
Proof.
  intros (Hsz & Hhs & Hr & Hrest). unfold Root.
  destruct (decide (rootHash t = EMPTY_HASH)) as [E|N].
  - assert (Hf : (if negb (zlen (hashes t) =? 0) then hash_fold sha256 (hashes t) else Ok (hash_empty sha256))
      = Ok (mth sha256 l)).
    { rewrite Hhs. destruct (Z.eqb_spec (zlen (peaks sha256 l)) 0) as [Ez|Nz]; cbn [negb].
      - unfold mth. destruct (peaks sha256 l); [reflexivity|]. rewrite zlen_cons in Ez.
        pose proof (zlen_nonneg l0). lia.
      - apply hash_fold_fold1. intros Ep. rewrite Ep in Nz. apply Nz. reflexivity. }
    rewrite Hf. cbn [res_bind]. eexists. split; [reflexivity|].
    split; [|reflexivity]. split; [exact Hsz|]. split; [exact Hhs|]. split; [right; reflexivity | exact Hrest].
  - destruct Hr as [Hr|Hr]; [congruence|]. exists t. rewrite Hr. split; [reflexivity|].
    split; [|reflexivity]. split; [exact Hsz|]. split; [exact Hhs|]. split; [right; exact Hr | exact Hrest].
Qed.

Lemma append_all_inv xs l t :
  tree_inv l t -> Forall hash_ok xs -> zlen l + zlen xs < 2 ^ 31 ->
  exists t', append_all sha256 xs t = Ok t' /\ tree_inv (l ++ xs) t' /\
    (is_Some (hashStore t') <-> is_Some (hashStore t)).
Proof.
  revert l t. induction xs as [|x xs IH]; intros l t Hinv Hxs Hb.
  { exists t. rewrite app_nil_r. split; [reflexivity|]. split; [exact Hinv | reflexivity]. }
  inversion Hxs; subst. rewrite zlen_cons in Hb. pose proof (zlen_nonneg xs).
  destruct (AppendHash_inv l t x Hinv) as (t1 & E1 & I1 & S1); [assumption | lia |].
  destruct (IH (l ++ [x]) t1 I1) as (t2 & E2 & I2 & S2); [assumption | rewrite zlen_app; change (zlen [x]) with 1; lia |].
  exists t2. cbn [append_all]. rewrite E1. cbn [res_bind]. rewrite E2, <- app_assoc in *.
  split; [reflexivity|]. split; [exact I2|]. tauto.
Qed.

Lemma cloneMem_inv l t : tree_inv l t -> tree_inv l (cloneMem t).
Proof.
  intros (Hsz & Hhs & Hr & _ & Hok & Hb). repeat split; try assumption; discriminate.
Qed.

Lemma GetRootWithNewLeaf_mth l t x :
  tree_inv l t -> GetRootWithNewLeaf sha256 x t = Ok (mth sha256 (l ++ [x])).
Proof.
  intros (Hsz & Hhs & _ & _ & _ & Hb). unfold GetRootWithNewLeaf. rewrite Hhs.
  rewrite hash_fold_fold1 by (destruct (peaks sha256 l); discriminate). f_equal. unfold mth.
  destruct (Fr_forest sha256 l) as (HF & HL & HR & HS).
  destruct (append_loop_spec sha256 32 0 (zlen l) _ (peaks sha256 l) [x] 1 [x] HF)
    as (size & leaf & mh & extra & fs' & E & HF' & HL' & _ & _ & HM).
  { words. } { reflexivity. }
  { rewrite HR. apply take_ge. unfold zlen. lia. }
  destruct (Fr_forest sha256 (l ++ [x])) as (HFx & HLx & HRx & _). rewrite zlen_app in HFx.
  assert (Hfs : fs' = rev (forest (l ++ [x]))).
  { eapply Fr_unique; [exact HF' | exact HFx | rewrite HL', HL, HLx; reflexivity]. }
  rewrite HR in HM. change (proot sha256 0 [x]) with x in HM. rewrite HM, Hfs, HRx. reflexivity.
Qed.

End Invariant.
