(* ===== verification/MerkleProof.v ===== *)
(** * Inclusion and consistency proofs of the compact Merkle tree

    The proofs that [InclusionProof] and [ConsistencyProof] cut out of the hash
    store are the audit paths of RFC 6962, [MerkleVerifier] accepts them, and
    what it accepts is right up to a collision of SHA-256. *)

From S2P Require Import Prelude Merkle MerkleTheory.

(** Conversion unfolds the loops last: their fuel is a literal. *)
Strategy 1000 [audit_loop climb climb_new skip_right inclusion_loop subproof_loop hash_full].

Section Positions.
Context (sha256 : list byte -> Uint256).
Context {S : Type} `{HS : HashStore S}.
Abbreviation hc := (hash_children sha256).
Abbreviation mth := (mth sha256).
Abbreviation pstore := (pstore sha256).
Abbreviation proot := (proot sha256).
Abbreviation ppost := (ppost sha256).
Implicit Types (l a b : list Uint256) (st : S).

(** ** Store positions *)

Definition tsize (f : nat * list Uint256) : Z := 2 ^ (Z.of_nat (fst f) + 1) - 1.

Lemma subtree_loop_Fr fuel h n fs acc :
  Fr h n fs -> n < 2 ^ Z.of_nat fuel -> n * 2 ^ Z.of_nat h < 2 ^ 31 ->
  subtree_loop fuel n (2 ^ Z.of_nat h) acc = rev (tsize <$> fs) ++ acc.
Proof.
  intros HF. revert fuel acc. induction HF as [h|h q fs Hq HF IH|h q t fs Hq Ht HF IH];
    intros fuel acc Hn Hb; [destruct fuel; reflexivity| |];
    (destruct fuel as [|f]; [simpl in Hn; lia|]); rewrite Nat2Z.inj_succ, Z.pow_succ_r in Hn by lia;
    pose proof (Z.pow_pos_nonneg 2 (Z.of_nat h) ltac:(lia) ltac:(lia)) as Hp;
    cbn [subtree_loop]; rewrite (proj2 (Z.eqb_neq _ 0)) by lia;
    rewrite Z.shiftr_div_pow2 by lia; change (2 ^ 1) with 2.
  - replace (2 * q / 2) with q by (Z.div_mod_to_equations; lia).
    replace ((2 * q) mod 2) with 0 by (Z.div_mod_to_equations; lia). cbn [Z.eqb].
    rewrite u32_small by (words; nia). replace (2 ^ Z.of_nat h * 2) with (2 ^ Z.of_nat (Datatypes.S h))
      by (rewrite Nat2Z.inj_succ, Z.pow_succ_r by lia; lia).
    apply IH; [lia|]. rewrite Nat2Z.inj_succ, Z.pow_succ_r by lia. lia.
  - replace ((2 * q + 1) / 2) with q by (Z.div_mod_to_equations; lia).
    replace ((2 * q + 1) mod 2) with 1 by (Z.div_mod_to_equations; lia). cbn [Z.eqb Pos.eqb].
    assert (2 ^ Z.of_nat h < 2 ^ 31) by nia.
    rewrite !u32_small by words. replace (2 ^ Z.of_nat h * 2) with (2 ^ Z.of_nat (Datatypes.S h))
      by (rewrite Nat2Z.inj_succ, Z.pow_succ_r by lia; lia).
    rewrite IH; [| lia | rewrite Nat2Z.inj_succ, Z.pow_succ_r by lia; lia].
    cbn [fmap list_fmap rev]. rewrite <- app_assoc. unfold tsize at 3; cbn [fst].
    rewrite Nat2Z.inj_succ, <- Z.add_1_r. reflexivity.
Qed.

Lemma subtree_loop_forest l :
  zlen l < 2 ^ 31 -> subtree_loop 32 (zlen l) 1 [] = tsize <$> forest l.
Proof.
  intros Hl. destruct (Fr_forest sha256 l) as (HF & _).
  pose proof (subtree_loop_Fr 32 0 (zlen l) _ [] HF) as E.
  change (2 ^ Z.of_nat 0) with 1 in E. rewrite E by (rewrite ?Z.mul_1_r; words).
  rewrite app_nil_r, <- map_rev, rev_involutive. reflexivity.
Qed.

Lemma forest_sizes l : Forall (fun '(h, t) => length t = pow2 h) (forest l).
Proof.
  induction l as [|h t r Ht Hr IH] using perfect_ind; [constructor|].
  rewrite (forest_app h) by assumption. constructor; assumption.
Qed.

Lemma zlen_ppost h t : length t = pow2 h -> zlen (ppost h t) = tsize (h, t).
Proof.
  intros Ht. unfold tsize, zlen. rewrite length_ppost by assumption. pose proof (pow2_pos h).
  rewrite Z.pow_add_r, <- pow2_Z by lia. cbn [fst]. lia.
Qed.

(** Reading the roots of a run of perfect trees. *)
Lemma get_hashes_run st fs pre suf off acc :
  hs_wf st -> Forall (fun '(h, t) => length t = pow2 h) fs ->
  hs_view st = pre ++ concat ((fun '(h, t) => ppost h t) <$> fs) ++ suf ->
  zlen pre = off + acc -> 0 <= off -> 0 <= acc ->
  zlen pre + zlen (concat ((fun '(h, t) => ppost h t) <$> fs)) < 2 ^ 32 ->
  get_hashes st ((fun p => u32 (p + off)) <$> prefix_sums acc (tsize <$> fs))
    = Ok ((fun '(h, t) => proot h t) <$> fs).
Proof.
  intros W Hfs. revert pre acc. induction Hfs as [|[h t] fs Ht Hfs IH]; intros pre acc V Hpre Ho Ha Hb; [reflexivity|].
  destruct (ppost_last sha256 h t Ht) as [s Hs]. pose proof (zlen_ppost h t Ht) as Hz.
  cbn [fmap list_fmap concat] in V, Hb. rewrite zlen_app, Hz in Hb.
  pose proof (zlen_nonneg (concat ((fun '(h, t) => ppost h t) <$> fs))) as Hc.
  pose proof (zlen_nonneg pre). pose proof (zlen_nonneg (ppost h t)) as Hpp. rewrite Hz in Hpp.
  assert (Hs1 : zlen s = tsize (h, t) - 1) by (rewrite <- Hz, Hs, zlen_app; change (zlen [proot h t]) with 1; lia).
  pose proof (zlen_nonneg s).
  cbn [fmap list_fmap prefix_sums get_hashes].
  rewrite (u32_small (acc + tsize (h, t))) by words. rewrite (u32_small (acc + tsize (h, t) + off)) by words.
  rewrite u32_small by words. unfold get_hash at 1.
  rewrite (hs_GetHash_view st _ (proot h t) W); [|lia|].
  - cbn [res_bind]. change (list_fmap Z Z (λ p : Z, u32 (p + off))) with (fmap (M := list) (fun p : Z => u32 (p + off))).
    change (map tsize fs) with (tsize <$> fs).
    rewrite (IH (pre ++ ppost h t)); [reflexivity | | | | |]; rewrite ?zlen_app, ?Hz; try lia.
    rewrite V, <- !app_assoc. reflexivity.
  - rewrite V, Hs. replace (Z.to_nat (acc + tsize (h, t) + off - 1)) with (length (pre ++ s)).
    2: { rewrite length_app. unfold zlen in *. lia. }
    rewrite <- !app_assoc. rewrite (app_assoc pre s). apply list_lookup_middle. reflexivity.
Qed.

Lemma pstore_forest l : pstore l = concat ((fun '(h, t) => ppost h t) <$> forest l).
Proof. reflexivity. Qed.

(** The roots of the subtrees of [l], stored from position [off] on, fold to
    its Merkle tree hash. *)
Lemma root_at st pre l suf :
  hs_wf st -> hs_view st = pre ++ pstore l ++ suf -> l <> [] ->
  zlen l < 2 ^ 31 -> zlen pre + zlen (pstore l) < 2 ^ 32 ->
  (let* hs := get_hashes st ((fun p => u32 (p + zlen pre)) <$> getSubTreePos (zlen l)) in hash_fold sha256 hs)
    = Ok (mth l).
Proof.
  intros W V Hne Hl Hb. unfold getSubTreePos. rewrite subtree_loop_forest by assumption.
  rewrite (get_hashes_run st (forest l) pre suf (zlen pre) 0);
    auto using forest_sizes, zlen_nonneg with lia.
  cbn [res_bind]. apply hash_fold_fold1. intros E.
  apply Hne, (peaks_nil_iff sha256). exact E.
Qed.

Lemma prefix_sums_u32 acc xs : (fun p => u32 (p + 0)) <$> prefix_sums acc xs = prefix_sums acc xs.
Proof.
  revert acc. induction xs as [|x xs IH]; intros acc; [reflexivity|].
  cbn [prefix_sums fmap list_fmap]. rewrite Z.add_0_r. f_equal; [|apply IH].
  apply u32_small, u32_range.
Qed.

Lemma merkleRoot_mth st l suf :
  hs_wf st -> hs_view st = pstore l ++ suf -> l <> [] -> zlen l < 2 ^ 31 ->
  merkleRoot sha256 st (zlen l) = Ok (mth l).
Proof.
  intros W V Hne Hl. rewrite <- (root_at st [] l suf W V Hne Hl).
  - rewrite zlen_nil. unfold getSubTreePos. rewrite prefix_sums_u32. reflexivity.
  - pose proof (length_pstore_le sha256 l). unfold zlen in *. simpl length. words.
Qed.

(** The root of a perfect tree is the last hash of its store. *)
Lemma perfect_root_at st pre h a suf :
  hs_wf st -> length a = pow2 h -> hs_view st = pre ++ pstore a ++ suf ->
  zlen pre + zlen (pstore a) < 2 ^ 32 ->
  get_hash st (u32 (u32 (zlen pre + (zlen a * 2 - 1)) - 1)) = Ok (mth a).
Proof.
  intros W Ha V Hb. rewrite (pstore_perfect sha256 h), (mth_perfect sha256 h) in * by assumption.
  destruct (ppost_last sha256 h a Ha) as [s Hs]. pose proof (zlen_nonneg pre). pose proof (zlen_nonneg s).
  assert (Hz : zlen (ppost h a) = zlen a * 2 - 1).
  { unfold zlen. rewrite length_ppost by assumption. pose proof (pow2_pos h). lia. }
  assert (Hs1 : zlen s = zlen a * 2 - 2) by (rewrite Hs, zlen_app in Hz; change (zlen [_]) with 1 in Hz; lia).
  rewrite (u32_small (_ + _)) by words. rewrite u32_small by words.
  unfold get_hash. rewrite (hs_GetHash_view st _ (proot h a) W); [reflexivity | lia |].
  rewrite V, Hs. replace (Z.to_nat _) with (length (pre ++ s)) by (rewrite length_app; unfold zlen in *; lia).
  rewrite <- !app_assoc, (app_assoc pre s). apply list_lookup_middle. reflexivity.
Qed.

(** ** The audit path of RFC 6962

    [path H m l] is PATH(m, l) for a list of at most [2^H] leaves. *)
Fixpoint path (H : nat) (m : nat) (l : list Uint256) : list Uint256 :=
  match H with
  | O => []
  | Datatypes.S h =>
      if (length l <=? pow2 h)%nat then path h m l
      else if (m <? pow2 h)%nat then path h m (take (pow2 h) l) ++ [mth (drop (pow2 h) l)]
      else path h (m - pow2 h) (drop (pow2 h) l) ++ [mth (take (pow2 h) l)]
  end.

(** A list longer than [2^h] and not longer than [2^(h+1)] splits at [2^h]. *)
Lemma split_at h (l : list Uint256) :
  (pow2 h < length l <= pow2 (Datatypes.S h))%nat -> (h < 31)%nat ->
  exists a b, l = a ++ b /\ length a = pow2 h /\ (0 < length b <= pow2 h)%nat /\
    split_point (zlen l) = zlen a /\ take (pow2 h) l = a /\ drop (pow2 h) l = b.
Proof.
  intros Hl Hh. rewrite pow2_S in Hl. exists (take (pow2 h) l), (drop (pow2 h) l).
  rewrite take_drop. unfold zlen. rewrite length_take, length_drop.
  split; [reflexivity|]. split; [lia|]. split; [lia|]. split; [|auto].
  rewrite (split_point_spec (Z.of_nat h)); [| lia |].
  - rewrite <- pow2_Z. lia.
  - rewrite Z.pow_add_r, <- pow2_Z by lia. lia.
Qed.

Lemma zlen_perfect h a : length a = pow2 h -> zlen (pstore a) = zlen a * 2 - 1.
Proof.
  intros Ha. unfold zlen. rewrite (length_pstore_perfect sha256 h) by assumption.
  pose proof (pow2_pos h). lia.
Qed.

(** Both branches of the loops that cut proofs out of the store read the root
    of one half. *)
Lemma root_k2n_at st pre h a b suf x :
  hs_wf st -> length a = pow2 h -> (0 < length b <= pow2 h)%nat ->
  hs_view st = pre ++ (pstore a ++ pstore b ++ x) ++ suf -> zlen b < 2 ^ 31 ->
  zlen pre + zlen (pstore a ++ pstore b ++ x) < 2 ^ 32 ->
  root_k2n sha256 st (zlen (a ++ b)) (zlen a) (zlen pre) = Ok (mth b).
Proof.
  intros W Ha Hb V Hb31 Hz. rewrite !zlen_app in Hz.
  pose proof (zlen_nonneg pre). pose proof (zlen_nonneg (pstore b)). pose proof (zlen_nonneg x).
  pose proof (zlen_perfect h a Ha) as Hpa. pose proof (zlen_nonneg (pstore a)).
  unfold root_k2n. replace (zlen (a ++ b) - zlen a) with (zlen b) by (rewrite zlen_app; lia).
  pose proof (zlen_nonneg b). rewrite (u32_small (zlen b)) by words.
  rewrite (u32_small (zlen pre + zlen a * 2 - 1)) by words.
  replace (zlen pre + zlen a * 2 - 1) with (zlen (pre ++ pstore a)) by (rewrite zlen_app; lia).
  apply (root_at st (pre ++ pstore a) b (x ++ suf)); try assumption.
  - rewrite V, <- !app_assoc. reflexivity.
  - intros ->. simpl in Hb. lia.
  - rewrite zlen_app. lia.
Qed.

Lemma root_02k_at st pre h a b suf x :
  hs_wf st -> length a = pow2 h ->
  hs_view st = pre ++ (pstore a ++ pstore b ++ x) ++ suf ->
  zlen pre + zlen (pstore a ++ pstore b ++ x) < 2 ^ 32 ->
  u32 (zlen pre + (zlen a * 2 - 1)) = zlen (pre ++ pstore a) /\
  get_hash st (u32 (zlen (pre ++ pstore a) - 1)) = Ok (mth a).
Proof.
  intros W Ha V Hz. rewrite !zlen_app in *.
  pose proof (zlen_nonneg pre). pose proof (zlen_nonneg (pstore b)). pose proof (zlen_nonneg x).
  pose proof (zlen_perfect h a Ha) as Hpa. pose proof (zlen_nonneg (pstore a)).
  assert (E : u32 (zlen pre + (zlen a * 2 - 1)) = zlen pre + zlen (pstore a)) by (rewrite u32_small; words).
  split; [exact E|]. rewrite <- E.
  apply (perfect_root_at st pre h a (pstore b ++ x ++ suf)); try assumption; [|lia].
  rewrite V, <- !app_assoc. reflexivity.
Qed.

Lemma inclusion_loop_path H fuel st pre l suf m acc :
  hs_wf st -> hs_view st = pre ++ pstore l ++ suf ->
  (m < length l <= pow2 H)%nat -> (H <= 31)%nat -> (H < fuel)%nat ->
  zlen l < 2 ^ 31 -> zlen pre + zlen (pstore l) < 2 ^ 32 ->
  inclusion_loop sha256 fuel st (Z.of_nat m) (zlen l) (zlen pre) acc = Ok (acc ++ rev (path H m l)).
Proof.
  intros W. revert fuel pre l suf m acc. induction H as [|h IH]; intros fuel pre l suf m acc V Hm H31 Hf Hl Hz.
  { destruct fuel as [|f]; [lia|]. change (pow2 0) with 1%nat in Hm. cbn [inclusion_loop path rev].
    replace (zlen l) with 1 by (unfold zlen; lia). rewrite app_nil_r. reflexivity. }
  cbn [path]. destruct (Nat.leb_spec (length l) (pow2 h)) as [Hle|Hgt].
  { apply IH with suf; auto with lia. }
  destruct (split_at h l) as (a & b & -> & Ha & Hb & Hk & -> & ->); [lia | lia |].
  destruct (split_rfc sha256 h a b Ha Hb) as (_ & x & Hx). rewrite Hx in V, Hz.
  pose proof (zlen_nonneg a). pose proof (zlen_nonneg b).
  destruct fuel as [|f]; [lia|]. cbn [inclusion_loop]. rewrite Hk.
  rewrite (proj2 (Z.eqb_neq _ 1)) by (pose proof (pow2_pos h); rewrite zlen_app; unfold zlen; lia).
  pose proof Hl as Hl'. rewrite zlen_app in Hl'. rewrite length_app in Hm.
  destruct (Nat.ltb_spec m (pow2 h)) as [Hlt|Hge].
  - rewrite (proj2 (Z.ltb_lt _ _)) by (unfold zlen; lia).
    rewrite (root_k2n_at st pre h a b suf x) by (assumption || lia). cbn [res_bind].
    rewrite !zlen_app in Hz. pose proof (zlen_nonneg (pstore b)). pose proof (zlen_nonneg x).
    rewrite (IH f pre a (pstore b ++ x ++ suf)); [| rewrite V, <- !app_assoc; reflexivity | lia | lia | lia | lia | lia].
    rewrite rev_app_distr, <- app_assoc. reflexivity.
  - rewrite (proj2 (Z.ltb_ge _ _)) by (unfold zlen; lia).
    destruct (root_02k_at st pre h a b suf x W Ha V Hz) as [-> ->]. cbn [res_bind].
    replace (Z.of_nat m - zlen a) with (Z.of_nat (m - pow2 h)) by (unfold zlen; lia).
    replace (zlen (a ++ b) - zlen a) with (zlen b) by (rewrite zlen_app; lia).
    rewrite !u32_small by (unfold zlen in *; words).
    rewrite !zlen_app in Hz. pose proof (zlen_nonneg x).
    rewrite (IH f (pre ++ pstore a) b (x ++ suf)); [| rewrite V, <- !app_assoc; reflexivity | lia | lia | lia | lia | rewrite zlen_app; lia].
    rewrite rev_app_distr, <- app_assoc. reflexivity.
Qed.

(** The store only grows: the store of a prefix is a prefix of the store. *)
Lemma pstore_snoc l x : zlen l < 2 ^ 31 -> exists extra, pstore (l ++ [x]) = pstore l ++ extra.
Proof.
  intros Hl. destruct (Fr_forest sha256 l) as (HF & HL & HR & HS').
  destruct (append_loop_spec sha256 32 0 (zlen l) _ (peaks sha256 l) [x] 1 [x] HF)
    as (size & leaf & mh & extra & fs' & E & HF' & HL' & HR' & HSx & _).
  { words. } { reflexivity. }
  { rewrite HR. apply take_ge. unfold zlen. lia. }
  destruct (Fr_forest sha256 (l ++ [x])) as (HFx & HLx & _ & HSy). rewrite zlen_app in HFx.
  assert (Hfs : fs' = rev (forest (l ++ [x]))).
  { eapply Fr_unique; [exact HF' | exact HFx | rewrite HL', HL, HLx; reflexivity]. }
  rewrite Hfs, HSy, HS' in HSx. eauto.
Qed.

Lemma pstore_prefix l l' : zlen l + zlen l' < 2 ^ 31 -> exists extra, pstore (l ++ l') = pstore l ++ extra.
Proof.
  revert l. induction l' as [|x l' IH]; intros l Hl.
  { exists []. rewrite !app_nil_r. reflexivity. }
  rewrite zlen_cons in Hl. pose proof (zlen_nonneg l').
  destruct (pstore_snoc l x ltac:(lia)) as [e1 E1].
  destruct (IH (l ++ [x])) as [e2 E2]; [rewrite zlen_app; change (zlen [x]) with 1; lia|].
  exists (e1 ++ e2). rewrite <- app_assoc in E2. cbn [app] in E2. rewrite E2, E1, <- app_assoc. reflexivity.
Qed.

Lemma zlen_pstore_bound l : zlen l < 2 ^ 31 -> zlen (pstore l) < 2 ^ 32.
Proof. intros Hl. pose proof (length_pstore_le sha256 l). unfold zlen in *. words. Qed.

(** The store of a tree begins with the store of its first [n] leaves. *)
Lemma store_take l t s n :
  tree_inv sha256 l t -> hashStore t = Some s -> (n <= length l)%nat ->
  hs_wf s /\ zlen (take n l) = Z.of_nat n /\ Z.of_nat n < 2 ^ 31 /\
  exists suf, hs_view s = pstore (take n l) ++ suf.
Proof.
  intros (_ & _ & _ & Hst & _ & Hb) Es Hn. destruct (Hst s Es) as [W V]. split; [exact W|].
  assert (Ht : zlen (take n l) = Z.of_nat n) by (unfold zlen; rewrite length_take; lia).
  split; [exact Ht|]. split; [unfold zlen in Hb; lia|].
  destruct (pstore_prefix (take n l) (drop n l)) as [e E].
  { rewrite <- zlen_app, take_drop. exact Hb. }
  rewrite take_drop in E. exists e. congruence.
Qed.

Lemma length_pow2_31 (l : list Uint256) : zlen l < 2 ^ 31 -> (length l <= pow2 31)%nat.
Proof. intros Hl. apply Nat2Z.inj_le. rewrite pow2_Z. unfold zlen in Hl. change (Z.of_nat 31) with 31. lia. Qed.

Lemma InclusionProof_path l t s m n :
  tree_inv sha256 l t -> hashStore t = Some s -> (m < n <= length l)%nat ->
  InclusionProof sha256 (Z.of_nat m) (Z.of_nat n) t = Ok (path 31 m (take n l)).
Proof.
  intros Hinv Es Hmn. destruct (store_take l t s n Hinv Es ltac:(lia)) as (W & Hz & Hb & suf & V).
  destruct Hinv as (Hsz & _). unfold InclusionProof.
  rewrite (proj2 (Z.leb_gt _ _)), (proj2 (Z.ltb_ge _ _)), Es by (rewrite ?Hsz; unfold zlen; lia).
  rewrite <- Hz in *. change 0 with (zlen (@nil Uint256)).
  rewrite (inclusion_loop_path 31 64 s [] (take n l) suf m []); try assumption; try lia.
  - cbn [res_bind app]. rewrite rev_involutive. reflexivity.
  - pose proof (length_pow2_31 (take n l) Hb). split; [rewrite length_take; lia | assumption].
  - rewrite zlen_nil. pose proof (zlen_pstore_bound (take n l) Hb). lia.
Qed.

End Positions.

(** ** Climbing to the root

    The loops of the verifier walk from a node to the root and consume the
    proof: [fr] combines the value with a left sibling, [fl] with a right one.
    [walk] is their common shape. *)

Section Walk.
Context {C : Type} (fl : C -> Uint256 -> C) (fr : Uint256 -> C -> C).
Implicit Types (p : list Uint256) (q : Uint256) (c r : C).

Fixpoint walk (fuel : nat) (node last : Z) (path : list Uint256) (c : C) : res C :=
  match fuel with
  | O => Panic
  | S f =>
      if 0 <? last then
        match path with
        | [] => Err "Proof too short"
        | p :: path' =>
            if node mod 2 =? 1 then walk f (node / 2) (last / 2) path' (fr p c)
            else if node <? last then walk f (node / 2) (last / 2) path' (fl c p)
            else walk f (node / 2) (last / 2) path c
        end
      else match path with [] => Ok c | _ => Err "Proof too long" end
  end.

Lemma pow2_half h : 2 ^ Z.of_nat (S h) = 2 * 2 ^ Z.of_nat h /\ 0 < 2 ^ Z.of_nat h.
Proof. rewrite Nat2Z.inj_succ, Z.pow_succ_r by lia. split; lia. Qed.

Ltac halves := Z.div_mod_to_equations; lia.

Lemma walk_fuel f m last p c r : walk f m last p c = Ok r -> walk (S f) m last p c = Ok r.
Proof.
  revert m last p c. induction f as [|f IH]; intros m last p c E; [discriminate|].
  remember (S f) as f1 eqn:Ef. cbn [walk]. subst f1. cbn [walk] in E.
  repeat case_match; auto.
Qed.

Lemma walk_fuel_le f f' m last p c r : (f <= f')%nat -> walk f m last p c = Ok r -> walk f' m last p c = Ok r.
Proof. induction 1; auto using walk_fuel. Qed.

(** A node of the left perfect tree of a level with more than [2^h] nodes: the
    path is its path in that tree, then the right sibling of the tree. *)
Lemma walk_left h f m last p c r :
  0 <= m < 2 ^ Z.of_nat h -> 2 ^ Z.of_nat h <= last < 2 ^ Z.of_nat (S h) ->
  walk (S f) m last p c = Ok r <->
  exists p' q r', p = p' ++ [q] /\ walk f m (2 ^ Z.of_nat h - 1) p' c = Ok r' /\ r = fl r' q.
Proof.
  revert f m last p c. induction h as [|h IH]; intros f m last p c Hm Hl.
  - change (2 ^ Z.of_nat 0) with 1 in *. change (2 ^ Z.of_nat 1) with 2 in *.
    assert (m = 0) as -> by lia. assert (last = 1) as -> by lia. split.
    + intros E. destruct f as [|f]; [destruct p; discriminate|]. destruct p as [|q [|]]; try discriminate.
      injection E as <-. exists [], q, c. auto.
    + intros (p' & q & r' & -> & E & ->). destruct f as [|f]; [discriminate|].
      destruct p'; [|discriminate]. injection E as ->. reflexivity.
  - destruct (pow2_half h) as [P1 Hp]. destruct (pow2_half (S h)) as [P2 _].
    rewrite P2 in Hl. rewrite P1 in Hm, Hl. destruct f as [|f].
    { split; [|intros (p' & q & r' & _ & E & _); discriminate]. cbn [walk].
      rewrite (proj2 (Z.ltb_lt 0 last)) by lia. intros E. repeat case_match; discriminate. }
    assert (Hstep : forall p c, walk (S f) (m / 2) (last / 2) p c = Ok r <->
      exists p' q r', p = p' ++ [q] /\ walk f (m / 2) (2 ^ Z.of_nat h - 1) p' c = Ok r' /\ r = fl r' q)
      by (intros; apply IH; rewrite ?P1; halves).
    assert (Hdiv : (2 * 2 ^ Z.of_nat h - 1) / 2 = 2 ^ Z.of_nat h - 1) by halves.
    assert (H1 : (0 <? 2 * 2 ^ Z.of_nat h - 1) = true) by (apply Z.ltb_lt; lia).
    remember (S f) as f1 eqn:Ef1. cbn [walk]. rewrite P1.
    rewrite (proj2 (Z.ltb_lt 0 last)), (proj2 (Z.ltb_lt m last)) by lia. split.
    + intros E. destruct p as [|p0 p]; [discriminate|].
      destruct (Z.eqb_spec (m mod 2) 1) as [Ho|He]; subst f1; apply Hstep in E as (p' & q & r' & -> & E & ->);
        exists (p0 :: p'), q, r'; cbn [walk]; rewrite H1, Hdiv.
      * rewrite (proj2 (Z.eqb_eq _ _) Ho). auto.
      * rewrite (proj2 (Z.eqb_neq _ _) He), (proj2 (Z.ltb_lt m _)) by halves. auto.
    + intros (p' & q & r' & -> & E & ->). subst f1. cbn [walk] in E. rewrite H1, Hdiv in E.
      destruct p' as [|p0 p']; [discriminate|]. cbn [app].
      destruct (Z.eqb_spec (m mod 2) 1) as [Ho|He]; [apply Hstep; eauto 6|].
      rewrite (proj2 (Z.ltb_lt m _)) in E by halves. apply Hstep; eauto 6.
Qed.

(** A node right of the left perfect tree: its path in the right part, then the
    root of the left tree. *)
Lemma walk_right h f m last p c r :
  0 <= m <= last -> last < 2 ^ Z.of_nat h -> (h < f)%nat ->
  walk (S f) (m + 2 ^ Z.of_nat h) (last + 2 ^ Z.of_nat h) p c = Ok r <->
  exists p' q r', p = p' ++ [q] /\ walk f m last p' c = Ok r' /\ r = fr q r'.
Proof.
  revert f m last p c. induction h as [|h IH]; intros f m last p c Hm Hl Hf.
  - change (2 ^ Z.of_nat 0) with 1 in *. assert (m = 0) as -> by lia. assert (last = 0) as -> by lia.
    destruct f as [|f]; [lia|]. split.
    + intros E. destruct p as [|q [|]]; try discriminate. injection E as <-. exists [], q, c. auto.
    + intros (p' & q & r' & -> & E & ->). destruct p'; [|discriminate]. injection E as ->. reflexivity.
  - destruct (pow2_half h) as [P1 Hp]. rewrite P1 in *. destruct f as [|f]; [lia|].
    assert (Hstep : forall p c, walk (S f) (m / 2 + 2 ^ Z.of_nat h) (last / 2 + 2 ^ Z.of_nat h) p c = Ok r <->
      exists p' q r', p = p' ++ [q] /\ walk f (m / 2) (last / 2) p' c = Ok r' /\ r = fr q r')
      by (intros; apply IH; [halves | halves | lia]).
    remember (S f) as f1 eqn:Ef1. cbn [walk].
    rewrite (proj2 (Z.ltb_lt 0 (last + _))) by lia.
    replace ((m + 2 * 2 ^ Z.of_nat h) / 2) with (m / 2 + 2 ^ Z.of_nat h) by halves.
    replace ((last + 2 * 2 ^ Z.of_nat h) / 2) with (last / 2 + 2 ^ Z.of_nat h) by halves.
    replace ((m + 2 * 2 ^ Z.of_nat h) mod 2) with (m mod 2) by halves.
    replace (m + 2 * 2 ^ Z.of_nat h <? last + 2 * 2 ^ Z.of_nat h) with (m <? last)
      by (destruct (Z.ltb_spec m last); symmetry; [apply Z.ltb_lt | apply Z.ltb_ge]; lia).
    subst f1. destruct (Z.ltb_spec 0 last) as [Hl0|Hl0].
    + assert (L0 : (0 <? last) = true) by (apply Z.ltb_lt; lia). split.
      * intros E. destruct p as [|p0 p]; [discriminate|].
        destruct (m mod 2 =? 1) eqn:Ho; [|destruct (m <? last) eqn:Hlt];
          apply Hstep in E as (p' & q & r' & E1 & E & ->).
        -- exists (p0 :: p'), q, r'. cbn [walk]. rewrite L0, Ho, E1. auto.
        -- exists (p0 :: p'), q, r'. cbn [walk]. rewrite L0, Ho, Hlt, E1. auto.
        -- destruct p' as [|p1 p'].
           { destruct f; cbn in E; [discriminate|].
             apply Z.eqb_neq in Ho. apply Z.ltb_ge in Hlt.
             rewrite (proj2 (Z.ltb_lt 0 _)) in E by halves. discriminate. }
           injection E1 as <- ->. exists (p0 :: p'), q, r'. cbn [walk]. rewrite L0, Ho, Hlt. auto.
      * intros (p' & q & r' & -> & E & ->). cbn [walk] in E. rewrite L0 in E.
        destruct p' as [|p0 p']; [discriminate|]. cbn [app].
        destruct (m mod 2 =? 1); [apply Hstep; eauto 6|].
        destruct (m <? last); [apply Hstep; eauto 6|].
        apply Hstep. exists (p0 :: p'). eauto.
    + assert (last = 0) as -> by lia. assert (m = 0) as -> by lia.
      change (0 / 2) with 0 in *. change (0 mod 2 =? 1) with false. change (0 <? 0) with false.
      assert (H0 : forall p c x, walk f 0 0 p c = Ok x <-> walk (S f) 0 0 p c = Ok x)
        by (intros; destruct f; [lia | reflexivity]).
      split.
      * intros E. destruct p as [|p0 p]; [discriminate|].
        apply Hstep in E as (p' & q & r' & E1 & E & ->). apply H0 in E. eauto 6.
      * intros (p' & q & r' & -> & E & ->). apply H0 in E.
        assert (exists z zs, p' ++ [q] = z :: zs) as (z & zs & Ep) by (destruct p'; eexists _, _; reflexivity).
        rewrite Ep. apply Hstep. rewrite <- Ep. eauto 6.
Qed.

End Walk.

(** ** Inclusion: what the verifier accepts

    [audit_step_l] and [audit_step_r] record what the verifier hashes. *)

Section Inclusion.
Context (sha256 : list byte -> Uint256).
Context (sha256_len : forall bs, hash_ok (sha256 bs)).
Abbreviation hc := (hash_children sha256).
Abbreviation mth := (mth sha256).
Implicit Types (l a b p : list Uint256) (c q r : Uint256).

Lemma audit_loop_walk f m last p c : audit_loop sha256 f m last p c = walk hc hc f m last p c.
Proof.
  revert m last p c. induction f as [|f IH]; intros; [reflexivity|]. cbn [audit_loop walk].
  repeat case_match; auto.
Qed.

Definition traced : Type := Uint256 * list (list byte).
Definition trace_l (c : traced) (q : Uint256) : traced := (hc c.1 q, c.2 ++ [x01 :: c.1 ++ q]).
Definition trace_r (q : Uint256) (c : traced) : traced := (hc q c.1, c.2 ++ [x01 :: q ++ c.1]).

(** The byte strings the verifier hashes on its way to the root. *)
Definition audit_inputs (f : nat) (m last : Z) (p : list Uint256) (c : Uint256) : list (list byte) :=
  match walk trace_l trace_r f m last p (c, []) with Ok r => r.2 | _ => [] end.

Lemma walk_traced f m last p (c : traced) r :
  walk hc hc f m last p c.1 = Ok r ->
  exists tr, walk trace_l trace_r f m last p c = Ok (r, tr).
Proof.
  revert m last p c. induction f as [|f IH]; intros m last p c E; [discriminate|]. cbn [walk] in *.
  repeat case_match; try discriminate; try (apply IH; exact E).
  injection E as <-. destruct c; eauto.
Qed.

(** The byte strings hashed in the tree of [l]. *)
Fixpoint tree_inputs (H : nat) (l : list Uint256) : list (list byte) :=
  match H with
  | O => []
  | S h =>
      if (length l <=? pow2 h)%nat then tree_inputs h l
      else let a := take (pow2 h) l in let b := drop (pow2 h) l in
           (x01 :: mth a ++ mth b) :: tree_inputs h a ++ tree_inputs h b
  end.

(** A collision between a string of [xs] and one of [ys]. *)
Definition collision (xs ys : list (list byte)) : Prop :=
  exists x y, x ∈ xs /\ y ∈ ys /\ x <> y /\ sha256 x = sha256 y.

Lemma collision_mono xs ys xs' ys' :
  xs ⊆ xs' -> ys ⊆ ys' -> collision xs ys -> collision xs' ys'.
Proof. intros H1 H2 (x & y & Hx & Hy & Hne & E). exists x, y. auto. Qed.

Lemma hc_inj_or (a b a' b' : Uint256) :
  hash_ok a -> hash_ok a' -> hc a b = hc a' b' ->
  (a = a' /\ b = b') \/ collision [x01 :: a ++ b] [x01 :: a' ++ b'].
Proof.
  intros Ha Ha' E. destruct (decide (a ++ b = a' ++ b')) as [Eab|N].
  - left. apply app_inj_1 in Eab; [exact Eab | unfold hash_ok in *; lia].
  - right. exists (x01 :: a ++ b), (x01 :: a' ++ b'). rewrite !list_elem_of_singleton.
    split; [reflexivity|]. split; [reflexivity|]. split; [congruence | exact E].
Qed.

Lemma mth_ok l : Forall hash_ok l -> hash_ok (mth l).
Proof.
  intros Hl. unfold MerkleTheory.mth.
  induction l as [|h t r Ht Hr IH] using perfect_ind; [apply sha256_len|].
  apply Forall_app in Hl as [Hlt Hlr]. rewrite (peaks_app sha256 h) by assumption. cbn [fold1].
  destruct (peaks sha256 r); [|apply sha256_len]. destruct h; [|apply sha256_len].
  destruct t as [|x t]; [discriminate|]. inversion Hlt; subst. assumption.
Qed.

Lemma walk_ok f m last p (c r : traced) :
  hash_ok c.1 -> walk trace_l trace_r f m last p c = Ok r -> hash_ok r.1.
Proof.
  revert m last p c. induction f as [|f IH]; intros m last p c Hc E; [discriminate|]. cbn [walk] in E.
  repeat case_match; try discriminate; try (eapply IH; [|exact E]; try exact Hc; apply sha256_len).
  injection E as <-. exact Hc.
Qed.

Lemma audit_sound H f m l p c tr :
  (m < length l <= pow2 H)%nat -> (H <= 31)%nat -> (H < f)%nat -> hash_ok c -> Forall hash_ok l ->
  Forall hash_ok p ->
  walk trace_l trace_r f (Z.of_nat m) (zlen l - 1) p (c, []) = Ok (mth l, tr) ->
  l !! m = Some c \/ collision tr (tree_inputs H l).
Proof.
  revert f m l p tr. induction H as [|h IH]; intros f m l p tr Hm H31 Hf Hc Hl Hp E.
  { change (pow2 0) with 1%nat in Hm. destruct l as [|x [|y l]]; try (simpl in Hm; lia).
    destruct m; [|simpl in Hm; lia]. destruct f as [|f]; [lia|].
    destruct p; [|discriminate]. injection E as -> <-. left. reflexivity. }
  cbn [tree_inputs]. destruct (Nat.leb_spec (length l) (pow2 h)) as [Hle|Hgt].
  { apply (IH f m l p tr); auto with lia. }
  destruct (split_at h l) as (a & b & -> & Ha & Hb & _ & -> & ->); [lia | lia |].
  destruct (split_rfc sha256 h a b Ha Hb) as (Hmth & _). rewrite Hmth in E. rewrite length_app in Hm.
  apply Forall_app in Hl as [Hla Hlb]. destruct f as [|f]; [lia|].
  destruct (decide (m < pow2 h)%nat) as [Hlt|Hge].
  - apply (walk_left _ _ h) in E as (p' & q & [r' tr'] & -> & E & Er);
      rewrite ?zlen_app, <- ?pow2_Z, ?pow2_S; unfold zlen; try lia.
    injection Er as Er ->. cbn [fst snd] in *. apply Forall_app in Hp as [Hp' Hq].
    pose proof (walk_ok _ _ _ _ (c, []) (r', tr') Hc E) as Hr'. cbn [fst] in Hr'.
    symmetry in Er. apply hc_inj_or in Er as [[-> ->]|Hcol]; auto using mth_ok.
    + rewrite <- pow2_Z, <- Ha in E.
      destruct (IH f m a p' tr') as [E1|Hcol]; auto with lia.
      * left. rewrite lookup_app_l by lia. exact E1.
      * right. eapply collision_mono; [| |exact Hcol]; set_solver.
    + right. eapply collision_mono; [| |exact Hcol]; set_solver.
  - replace (Z.of_nat m) with (Z.of_nat (m - pow2 h) + 2 ^ Z.of_nat h) in E by (rewrite <- pow2_Z; lia).
    replace (zlen (a ++ b) - 1) with (zlen b - 1 + 2 ^ Z.of_nat h) in E
      by (rewrite <- pow2_Z, zlen_app; unfold zlen; lia).
    apply (walk_right _ _ h) in E as (p' & q & [r' tr'] & -> & E & Er); [|unfold zlen; lia|rewrite <- pow2_Z; unfold zlen; lia|lia].
    injection Er as Er ->. cbn [fst snd] in *. apply Forall_app in Hp as [Hp' Hq]. inversion Hq; subst.
    symmetry in Er. apply hc_inj_or in Er as [[-> ->]|Hcol]; auto using mth_ok.
    + destruct (IH f (m - pow2 h)%nat b p' tr') as [E1|Hcol]; auto with lia.
      * left. rewrite lookup_app_r, Ha by lia. exact E1.
      * right. eapply collision_mono; [| |exact Hcol]; set_solver.
    + right. eapply collision_mono; [| |exact Hcol]; set_solver.
Qed.

Lemma audit_path_complete H m l c :
  (m < length l <= pow2 H)%nat -> (H <= 31)%nat -> l !! m = Some c ->
  audit_loop sha256 (S H) (Z.of_nat m) (zlen l - 1) (path sha256 H m l) c = Ok (mth l).
Proof.
  rewrite audit_loop_walk. revert m l. induction H as [|h IH]; intros m l Hm H31 Hc.
  { change (pow2 0) with 1%nat in Hm. destruct l as [|x [|y l]]; try (simpl in Hm; lia).
    destruct m; [|discriminate]. injection Hc as ->. reflexivity. }
  cbn [path]. destruct (Nat.leb_spec (length l) (pow2 h)) as [Hle|Hgt].
  { apply walk_fuel. apply IH; auto with lia. }
  destruct (split_at h l) as (a & b & -> & Ha & Hb & _ & -> & ->); [lia | lia |].
  destruct (split_rfc sha256 h a b Ha Hb) as (-> & _). rewrite length_app in Hm.
  destruct (Nat.ltb_spec m (pow2 h)) as [Hlt|Hge].
  - apply (walk_left _ _ h); rewrite ?zlen_app, <- ?pow2_Z, ?pow2_S; unfold zlen; try lia.
    rewrite lookup_app_l in Hc by lia. do 3 eexists. split; [reflexivity|]. split; [|reflexivity].
    rewrite <- Ha. apply IH; [lia | lia | exact Hc].
  - rewrite lookup_app_r in Hc by lia. rewrite Ha in Hc.
    replace (Z.of_nat m) with (Z.of_nat (m - pow2 h) + 2 ^ Z.of_nat h) by (rewrite <- pow2_Z; lia).
    replace (zlen (a ++ b) - 1) with (zlen b - 1 + 2 ^ Z.of_nat h)
      by (rewrite <- pow2_Z, zlen_app; unfold zlen; lia).
    apply (walk_right _ _ h); [unfold zlen; lia | rewrite <- pow2_Z; unfold zlen; lia | lia |].
    do 3 eexists. split; [reflexivity|]. split; [|reflexivity]. apply IH; [lia | lia | exact Hc].
Qed.

End Inclusion.
