(* ===== verification/MerkleConsistency.v ===== *)
(** * Consistency proofs of the compact Merkle tree

    [ConsistencyProof m n] returns the proof of RFC 6962 that the tree of the
    first [m] leaves is a prefix of the tree of the first [n]; [VerifyConsistency]
    accepts it, and what it accepts determines the older root. *)

From S2P Require Import Prelude Merkle MerkleTheory MerkleProof.

(** ** Odd parts *)

Lemma pow2_add j k : pow2 (j + k) = (pow2 j * pow2 k)%nat.
Proof. apply Nat2Z.inj. rewrite Nat2Z.inj_mul, !pow2_Z, Nat2Z.inj_add, Z.pow_add_r by lia. reflexivity. Qed.

Lemma pow2_le_odd j h q : (pow2 j * (2 * q + 1) < 2 * pow2 h)%nat -> (pow2 h < pow2 j * (2 * q + 1))%nat -> (j < h)%nat.
Proof.
  intros H1 H2. destruct (decide (j < h)%nat) as [|Hge]; [assumption|].
  replace j with (h + (j - h))%nat in H1, H2 by lia. rewrite pow2_add, <- Nat.mul_assoc in H1, H2.
  pose proof (pow2_pos h). set (x := (pow2 (j - h) * (2 * q + 1))%nat) in *.
  destruct (decide (x <= 1)%nat); nia.
Qed.

Lemma odd_pow2 j h q : (pow2 j * (2 * q + 1) = pow2 h)%nat -> q = 0%nat /\ j = h.
Proof.
  intros E. destruct (decide (j < h)%nat) as [Hlt|Hge].
  - replace h with (j + S (h - j - 1))%nat in E by lia. rewrite pow2_add, pow2_S in E.
    pose proof (pow2_pos j). apply Nat.mul_cancel_l in E; lia.
  - replace j with (h + (j - h))%nat in E |- * by lia. rewrite pow2_add in E.
    pose proof (pow2_pos h). pose proof (pow2_pos (j - h)).
    assert (pow2 (j - h) * (2 * q + 1) = 1)%nat by (rewrite <- Nat.mul_assoc in E; nia). destruct (j - h)%nat eqn:Ed; [|rewrite pow2_S in *; nia].
    change (pow2 0) with 1%nat in *. lia.
Qed.

(** Taking the larger power of two off [m = 2^j (2q + 1)]. *)
Lemma odd_sub j h q :
  (pow2 h < pow2 j * (2 * q + 1) < 2 * pow2 h)%nat ->
  exists q', q = (q' + pow2 (h - j - 1))%nat /\ (j < h)%nat /\
    (pow2 j * (2 * q + 1) = pow2 j * (2 * q' + 1) + pow2 h)%nat.
Proof.
  intros [H1 H2]. pose proof (pow2_le_odd j h q H2 H1) as Hj.
  assert (Hh : pow2 h = (pow2 j * (2 * pow2 (h - j - 1)))%nat).
  { rewrite <- pow2_S, <- pow2_add. f_equal. lia. }
  pose proof (pow2_pos j). exists (q - pow2 (h - j - 1))%nat. rewrite Hh in *. split; [nia|]. split; [exact Hj|].
  assert (pow2 (h - j - 1) <= q)%nat by nia.
  replace q with (q - pow2 (h - j - 1) + pow2 (h - j - 1))%nat at 1 by lia. lia.
Qed.

Section Subproof.
Context (sha256 : list byte -> Uint256).
Context {S : Type} `{HS : HashStore S}.
Abbreviation hc := (hash_children sha256).
Abbreviation mth := (mth sha256).
Abbreviation pstore := (pstore sha256).
Implicit Types (l a c : list Uint256) (st : S) (b : bool).

(** The proof above the last perfect subtree of the old tree, and [SUBPROOF]. *)
Fixpoint upper (H m : nat) (l : list Uint256) : list Uint256 :=
  match H with
  | O => []
  | Datatypes.S h =>
      if (length l <=? pow2 h)%nat then upper h m l
      else if (length l <=? m)%nat then []
      else if (m <=? pow2 h)%nat then upper h m (take (pow2 h) l) ++ [mth (drop (pow2 h) l)]
      else upper h (m - pow2 h) (drop (pow2 h) l) ++ [mth (take (pow2 h) l)]
  end.

(** The state in which the loop of [subproof] stops: the leaves that are left,
    what lies before them in the store, and the flag. *)
Lemma subproof_loop_upper H fuel st pre l suf j q b acc :
  hs_wf st -> hs_view st = pre ++ pstore l ++ suf ->
  (0 < pow2 j * (2 * q + 1) <= length l)%nat -> (length l <= pow2 H)%nat ->
  (pow2 j * (2 * q + 1) < length l \/ length l = pow2 j)%nat ->
  (H <= 31)%nat -> (H < fuel)%nat -> zlen l < 2 ^ 31 -> zlen pre + zlen (pstore l) < 2 ^ 32 ->
  let m := (pow2 j * (2 * q + 1))%nat in
  exists pre' suf', hs_view st = pre' ++ pstore (drop (m - pow2 j) (take m l)) ++ suf' /\
    zlen pre' + zlen (pstore (drop (m - pow2 j) (take m l))) < 2 ^ 32 /\
    subproof_loop sha256 fuel st (Z.of_nat m) (zlen l) (zlen pre) b acc
      = Ok (Z.of_nat (pow2 j), zlen pre', b && (q =? 0)%nat, acc ++ rev (upper H m l)).
Proof.
  intros W. revert fuel pre l suf q b acc.
  induction H as [|h IH]; intros fuel pre l suf q b acc V Hm HH Hor H31 Hf Hl Hz; cbn zeta;
    pose proof (pow2_pos j) as Hj.
  { change (pow2 0) with 1%nat in HH. assert (Hq : q = 0%nat) by nia. subst q.
    replace (pow2 j * (2 * 0 + 1))%nat with (pow2 j) in * by lia.
    rewrite take_ge, Nat.sub_diag, drop_0 by lia. exists pre, suf. split; [exact V|]. split; [exact Hz|].
    destruct fuel as [|f]; [lia|]. cbn [subproof_loop upper rev].
    rewrite (proj2 (Z.ltb_ge _ _)) by (unfold zlen; lia). rewrite andb_true_r, app_nil_r. unfold zlen.
    do 5 f_equal. lia. }
  set (m := (pow2 j * (2 * q + 1))%nat) in *.
  destruct (decide (length l <= pow2 h)%nat) as [Hle|Hgt].
  { destruct (IH fuel pre l suf q b acc V) as (pre' & suf' & V' & Z' & E); try assumption; try lia.
    exists pre', suf'. split; [exact V'|]. split; [exact Z'|]. fold m in E. rewrite E. cbn [upper].
    rewrite (proj2 (Nat.leb_le _ _) Hle). reflexivity. }
  cbn [upper]. rewrite (proj2 (Nat.leb_gt _ _)) by lia.
  destruct (Nat.leb_spec (length l) m) as [Hstop|Hgo].
  { assert (Hq : q = 0%nat) by (unfold m in *; nia). assert (Hmj : m = pow2 j) by (unfold m; lia). rewrite Hmj, Hq.
    rewrite take_ge, Nat.sub_diag, drop_0 by lia. exists pre, suf. split; [exact V|]. split; [exact Hz|].
    destruct fuel as [|f]; [lia|]. cbn [subproof_loop rev].
    rewrite (proj2 (Z.ltb_ge _ _)) by (unfold zlen; lia). rewrite andb_true_r, app_nil_r. unfold zlen.
    do 5 f_equal. lia. }
  destruct (split_at h l) as (a & c & -> & Ha & Hb & Hk & -> & ->); [lia | lia |].
  destruct (split_rfc sha256 h a c Ha Hb) as (_ & x & Hx). rewrite Hx in V, Hz.
  pose proof (zlen_nonneg a). pose proof (zlen_nonneg c). pose proof (zlen_nonneg pre). pose proof (zlen_nonneg x).
  pose proof (zlen_nonneg (pstore c)). pose proof (zlen_nonneg (pstore a)).
  destruct fuel as [|f]; [lia|]. cbn [subproof_loop]. rewrite Hk.
  rewrite (proj2 (Z.ltb_lt _ _)) by (unfold zlen; lia).
  pose proof Hl as Hl'. rewrite zlen_app in Hl'. rewrite length_app in *.
  destruct (Nat.leb_spec m (pow2 h)) as [Hlt|Hge].
  - rewrite (proj2 (Z.leb_le _ _)) by (unfold zlen; lia).
    rewrite (root_k2n_at sha256 st pre h a c suf x) by (assumption || lia). cbn [res_bind].
    rewrite !zlen_app in Hz.
    destruct (IH f pre a (pstore c ++ x ++ suf) q b (acc ++ [mth c])) as (pre' & suf' & V' & Z' & E);
      fold m; try lia.
    { rewrite V, <- !app_assoc. reflexivity. }
    { destruct (decide (m < pow2 h)%nat); [left; lia|right].
      destruct (odd_pow2 j h q) as [_ ->]; [fold m; lia | exact Ha]. }
    exists pre', suf'. fold m in E, V', Z'. rewrite take_app_le by lia. split; [exact V'|]. split; [exact Z'|].
    rewrite E, rev_app_distr, <- app_assoc. reflexivity.
  - rewrite (proj2 (Z.leb_gt _ _)) by (unfold zlen; lia).
    destruct (root_02k_at sha256 st pre h a c suf x W Ha V Hz) as [-> ->]. cbn [res_bind].
    destruct (odd_sub j h q) as (q' & Hq' & Hjh & Em); [fold m; lia|]. fold m in Em.
    replace (m - pow2 h)%nat with (pow2 j * (2 * q' + 1))%nat by lia.
    replace (Z.of_nat m - zlen a) with (Z.of_nat (pow2 j * (2 * q' + 1))) by (unfold zlen; lia).
    replace (zlen (a ++ c) - zlen a) with (zlen c) by (rewrite zlen_app; lia).
    rewrite !u32_small by (unfold zlen in *; words). rewrite !zlen_app in Hz.
    destruct (IH f (pre ++ pstore a) c (x ++ suf) q' false (acc ++ [mth a])) as (pre' & suf' & V' & Z' & E);
      try (rewrite ?zlen_app; lia).
    { rewrite V, <- !app_assoc. reflexivity. }
    cbn zeta in *. set (m' := (pow2 j * (2 * q' + 1))%nat) in *.
    assert (Hd : drop (m - pow2 j) (take m (a ++ c)) = drop (m' - pow2 j) (take m' c)).
    { rewrite take_app_ge, drop_app_ge by (rewrite ?Ha; nia). f_equal; [|f_equal]; lia. }
    rewrite Hd. exists pre', suf'. split; [exact V'|]. split; [exact Z'|].
    rewrite E, rev_app_distr, <- app_assoc. rewrite (proj2 (Nat.eqb_neq q 0)), andb_false_r by (pose proof (pow2_pos (h - j - 1)); lia).
    reflexivity.
Qed.

End Subproof.

Section Proof.
Context (sha256 : list byte -> Uint256).
Context {S : Type} `{HS : HashStore S}.
Abbreviation mth := (mth sha256).
Implicit Types (l a c : list Uint256) (st : S).

(** The last perfect subtree of the first [m = 2^j (2q + 1)] leaves. *)
Definition last_block (j m : nat) (l : list Uint256) : list Uint256 := drop (m - pow2 j) (take m l).

Lemma length_last_block j q l :
  (pow2 j * (2 * q + 1) <= length l)%nat -> length (last_block j (pow2 j * (2 * q + 1)) l) = pow2 j.
Proof. intros H. unfold last_block. rewrite length_drop, length_take. nia. Qed.

Lemma getSubTreePos_perfect j a :
  length a = pow2 j -> zlen a < 2 ^ 31 -> getSubTreePos (zlen a) = [zlen a * 2 - 1].
Proof.
  intros Ha Hz. unfold getSubTreePos. rewrite (subtree_loop_forest sha256) by assumption.
  rewrite (forest_perfect j a Ha). cbn [fmap list_fmap prefix_sums]. unfold tsize. cbn [fst].
  pose proof (pow2_pos j). rewrite Z.pow_add_r, <- pow2_Z, <- Ha by lia. fold (zlen a).
  rewrite u32_small; [f_equal; lia|]. unfold zlen in *. words.
Qed.

Lemma ConsistencyProof_upper l t s j q n :
  tree_inv sha256 l t -> hashStore t = Some s ->
  let m := (pow2 j * (2 * q + 1))%nat in (m < n <= length l)%nat ->
  ConsistencyProof sha256 (Z.of_nat m) (Z.of_nat n) t
    = Ok (Some ((if (q =? 0)%nat then [] else [mth (last_block j m (take n l))]) ++ upper sha256 31 m (take n l))).
Proof.
  intros Hinv Es m Hmn. destruct (store_take sha256 l t s n Hinv Es ltac:(lia)) as (W & Hz & Hb & suf & V).
  destruct Hinv as (Hsz & _). unfold ConsistencyProof. rewrite Es.
  rewrite (proj2 (Z.ltb_ge _ _)), (proj2 (Z.ltb_ge _ _)) by (rewrite ?Hsz; unfold zlen; lia). cbn [orb].
  pose proof (pow2_pos j). pose proof (zlen_pstore_bound sha256 (take n l)) as Hp. rewrite Hz in Hp.
  assert (Hl : length (take n l) = n) by (unfold zlen in Hz; lia).
  destruct (subproof_loop_upper sha256 31 64 s [] (take n l) suf j q true []) as (pre' & suf' & V' & Z' & E);
    try (rewrite ?Hz, ?Hl; first [assumption | fold m; lia]).
  { rewrite Hl. apply Nat2Z.inj_le. rewrite pow2_Z. change (Z.of_nat 31) with 31. lia. }
  { rewrite zlen_nil. specialize (Hp Hb). lia. }
  fold m in E, V', Z'. fold (last_block j m (take n l)) in V', Z'. unfold subproof.
  rewrite Hz in E. change (zlen (@nil Uint256)) with 0 in E. rewrite E. cbn [res_bind app andb].
  destruct (Nat.eqb_spec q 0) as [Hq|Hq]; [cbn [res_bind app]; rewrite rev_involutive; reflexivity|].
  pose proof (length_last_block j q (take n l)) as Hlb. fold m in Hlb. rewrite Hl in Hlb. specialize (Hlb ltac:(lia)).
  set (blk := last_block j m (take n l)) in *.
  replace (Z.of_nat (pow2 j)) with (zlen blk) by (unfold zlen; lia).
  rewrite (getSubTreePos_perfect j) by (assumption || (unfold zlen in *; nia)).
  rewrite Z.add_comm, (perfect_root_at sha256 s pre' j blk suf') by assumption.
  cbn [res_bind]. rewrite rev_app_distr, rev_involutive. reflexivity.
Qed.

(** ** The verifier *)

Context (sha256_len : forall bs, hash_ok (sha256 bs)).
Abbreviation hc := (hash_children sha256).

(** Old hash, new hash, and the byte strings hashed for the new one. *)
Definition pair_traced : Type := Uint256 * Uint256 * list (list byte).
Definition both_l (x : pair_traced) (q : Uint256) : pair_traced :=
  let '(o, n, tr) := x in (o, hc n q, tr ++ [x01 :: n ++ q]).
Definition both_r (q : Uint256) (x : pair_traced) : pair_traced :=
  let '(o, n, tr) := x in (hc q o, hc q n, tr ++ [x01 :: q ++ n]).

Ltac halves := Z.div_mod_to_equations; lia.

Lemma pow2_div j k : (j <= k)%nat -> exists i, k = (j + i)%nat /\ pow2 k = (pow2 j * pow2 i)%nat.
Proof. intros H. exists (k - j)%nat. rewrite <- pow2_add. split; [|f_equal]; lia. Qed.

(** Node numbers on level [j] of a split tree. *)
Lemma level_left h j (n : Z) :
  (j <= h)%nat -> 2 ^ Z.of_nat h < n <= 2 ^ Z.of_nat (Datatypes.S h) ->
  exists i, h = (j + i)%nat /\ 2 ^ Z.of_nat i <= (n - 1) / 2 ^ Z.of_nat j < 2 ^ Z.of_nat (Datatypes.S i) /\
    (2 ^ Z.of_nat h - 1) / 2 ^ Z.of_nat j = 2 ^ Z.of_nat i - 1.
Proof.
  intros Hj Hn. exists (h - j)%nat. assert (Hh : h = (j + (h - j))%nat) by lia. split; [exact Hh|].
  set (i := (h - j)%nat) in *. destruct (pow2_half h) as [P1 _]. destruct (pow2_half i) as [P2 Hi].
  rewrite P1, P2 in *. rewrite Hh, Nat2Z.inj_add, Z.pow_add_r in * by lia.
  destruct (pow2_half j) as [_ Hpj]. split; [split|].
  - apply Z.div_le_lower_bound; lia.
  - apply Z.div_lt_upper_bound; lia.
  - symmetry. apply (Z.div_unique _ _ _ (2 ^ Z.of_nat j - 1)); [lia | ring].
Qed.

Lemma level_right h j (n : Z) :
  (j <= h)%nat -> exists i, h = (j + i)%nat /\
    (n + 2 ^ Z.of_nat h - 1) / 2 ^ Z.of_nat j = (n - 1) / 2 ^ Z.of_nat j + 2 ^ Z.of_nat i.
Proof.
  intros Hj. exists (h - j)%nat. split; [lia|].
  replace (n + 2 ^ Z.of_nat h - 1) with (n - 1 + 2 ^ Z.of_nat (h - j) * 2 ^ Z.of_nat j).
  - rewrite Z.div_add by (pose proof (proj2 (pow2_half j)); lia). reflexivity.
  - rewrite <- Z.pow_add_r, <- Nat2Z.inj_add by lia. replace (h - j + j)%nat with h by lia. lia.
Qed.

Abbreviation walk := (walk both_l both_r).
Abbreviation level j l := ((zlen l - 1) / 2 ^ Z.of_nat j).

Lemma level_split_left h f j q a c p x r :
  length a = pow2 h -> (0 < length c <= pow2 h)%nat -> (pow2 j * (2 * q + 1) <= pow2 h)%nat ->
  walk (Datatypes.S f) (2 * Z.of_nat q) (level j (a ++ c)) p x = Ok r <->
  exists p' w r', p = p' ++ [w] /\ walk f (2 * Z.of_nat q) (level j a) p' x = Ok r' /\ r = both_l r' w.
Proof.
  intros Ha Hc Hm. assert (Hj : (j <= h)%nat).
  { destruct (decide (j <= h)%nat); [assumption|]. destruct (pow2_div (Datatypes.S h) j) as (i & -> & E); [lia|].
    rewrite E, pow2_S in Hm. pose proof (pow2_pos i). pose proof (pow2_pos h). nia. }
  destruct (level_left h j (zlen (a ++ c)) Hj) as (i & -> & Hr & He).
  { rewrite <- !pow2_Z, zlen_app, pow2_S. unfold zlen. lia. }
  replace (zlen a) with (2 ^ Z.of_nat (j + i)) by (rewrite <- pow2_Z; unfold zlen; lia). rewrite He.
  apply walk_left; [|exact Hr]. rewrite <- pow2_Z. rewrite pow2_add in Hm. pose proof (pow2_pos j). nia.
Qed.

Lemma level_split_right h f j q q' a c p x r :
  length a = pow2 h -> (0 < length c <= pow2 h)%nat -> (h < f)%nat -> (j < h)%nat ->
  q = (q' + pow2 (h - j - 1))%nat -> (pow2 j * (2 * q' + 1) <= length c)%nat ->
  walk (Datatypes.S f) (2 * Z.of_nat q) (level j (a ++ c)) p x = Ok r <->
  exists p' w r', p = p' ++ [w] /\ walk f (2 * Z.of_nat q') (level j c) p' x = Ok r' /\ r = both_r w r'.
Proof.
  intros Ha Hc Hf Hj -> Hm. destruct (level_right h j (zlen c)) as (i & -> & E); [lia|].
  replace (zlen (a ++ c) - 1) with (zlen c + 2 ^ Z.of_nat (j + i) - 1)
    by (rewrite <- pow2_Z, zlen_app; unfold zlen; lia).
  rewrite E. replace (j + i - j - 1)%nat with (i - 1)%nat by lia.
  assert (Hi : pow2 i = (2 * pow2 (i - 1))%nat) by (rewrite <- pow2_S; f_equal; lia).
  replace (2 * Z.of_nat (q' + pow2 (i - 1))) with (2 * Z.of_nat q' + 2 ^ Z.of_nat i) by (rewrite <- pow2_Z; lia).
  destruct (pow2_half j) as [_ Hpj]. pose proof (pow2_pos j).
  apply walk_right; [split; [lia|] | | lia].
  - apply Z.div_le_lower_bound; [exact Hpj|]. rewrite <- pow2_Z. unfold zlen. nia.
  - apply Z.div_lt_upper_bound; [exact Hpj|]. rewrite <- !pow2_Z, <- Nat2Z.inj_mul, <- pow2_add. unfold zlen. lia.
Qed.

Lemma level_zero j a : length a = pow2 j -> level j a = 0.
Proof. intros Ha. apply Z.div_small. rewrite <- pow2_Z. pose proof (pow2_pos j). unfold zlen. lia. Qed.

(** The three cases of the induction over the height: the tree is the block
    itself, the old tree lies in the left half, or it covers the left half. *)
Lemma consistency_ind (P : nat -> list Uint256 -> Prop) j :
  (forall l, length l = pow2 j -> P 0%nat l) ->
  (forall h q a c, length a = pow2 h -> (0 < length c <= pow2 h)%nat -> (h < 31)%nat ->
     (pow2 j * (2 * q + 1) <= pow2 h)%nat -> P q a -> P q (a ++ c)) ->
  (forall h q q' a c, length a = pow2 h -> (0 < length c <= pow2 h)%nat -> (h < 31)%nat -> (j < h)%nat ->
     q = (q' + pow2 (h - j - 1))%nat -> (pow2 j * (2 * q' + 1) < length c)%nat ->
     (pow2 j * (2 * q + 1) = pow2 j * (2 * q' + 1) + pow2 h)%nat -> P q' c -> P q (a ++ c)) ->
  forall H q l, (length l <= pow2 H)%nat -> (H <= 31)%nat ->
    (pow2 j * (2 * q + 1) < length l \/ (length l = pow2 j /\ q = 0))%nat -> P q l.
Proof.
  intros H0 HL HR H. induction H as [|h IH]; intros q l HH H31 Hor; pose proof (pow2_pos j).
  { change (pow2 0) with 1%nat in HH. destruct Hor as [Hlt|[Hl ->]]; [nia | apply H0, Hl]. }
  destruct Hor as [Hlt|[Hl ->]]; [|apply H0, Hl].
  destruct (decide (length l <= pow2 h)%nat) as [Hle|Hgt]; [apply IH; auto with lia|].
  destruct (split_at h l) as (a & c & -> & Ha & Hc & _); [lia | lia |]. rewrite length_app in Hlt.
  destruct (decide (pow2 j * (2 * q + 1) <= pow2 h)%nat) as [Hm|Hm].
  - apply (HL h); try assumption. apply IH; [lia | lia |].
    destruct (decide (pow2 j * (2 * q + 1) < pow2 h)%nat); [left; lia|right].
    destruct (odd_pow2 j h q) as [-> ->]; [lia|]. auto.
  - destruct (odd_sub j h q) as (q' & Hq' & Hjh & Em); [lia|].
    apply (HR h q q'); try assumption; try lia. apply IH; [lia | lia | left; lia].
Qed.

(** Definitions by height do not depend on the height chosen. *)
Lemma height_unique h H (l : list Uint256) :
  (pow2 h < length l <= pow2 (Datatypes.S h))%nat -> (length l <= pow2 H)%nat ->
  (h < H)%nat /\ forall h', H = Datatypes.S h' -> (length l <=? pow2 h')%nat = false -> h' = h.
Proof.
  intros Hl HH. split; [apply pow2_lt_mono; lia|]. intros h' -> E. apply Nat.leb_gt in E.
  assert (h < Datatypes.S h')%nat by (apply pow2_lt_mono; lia).
  assert (h' < Datatypes.S h)%nat by (apply pow2_lt_mono; lia). lia.
Qed.

Lemma split_range h a c :
  length a = pow2 h -> (0 < length c <= pow2 h)%nat -> (pow2 h < length (a ++ c) <= pow2 (Datatypes.S h))%nat.
Proof. intros. rewrite length_app, pow2_S. lia. Qed.

Lemma upper_split h H m a c :
  length a = pow2 h -> (0 < length c <= pow2 h)%nat -> (m < length (a ++ c) <= pow2 H)%nat ->
  upper sha256 H m (a ++ c) = if (m <=? pow2 h)%nat then upper sha256 h m a ++ [mth c]
                       else upper sha256 h (m - pow2 h) c ++ [mth a].
Proof.
  intros Ha Hc. pose proof (split_range h a c Ha Hc) as Hs. induction H as [|h' IH]; intros Hm.
  { change (pow2 0) with 1%nat in Hm. pose proof (pow2_pos h). lia. }
  destruct (height_unique h _ (a ++ c) Hs (proj2 Hm)) as [_ Hu]. cbn [upper].
  destruct (length (a ++ c) <=? pow2 h')%nat eqn:E; [apply IH; apply Nat.leb_le in E; lia|].
  rewrite (Hu h' eq_refl E). rewrite (proj2 (Nat.leb_gt _ _)) by lia.
  rewrite <- Ha, take_app_length, drop_app_length. reflexivity.
Qed.

Lemma tree_inputs_split h H a c :
  length a = pow2 h -> (0 < length c <= pow2 h)%nat -> (length (a ++ c) <= pow2 H)%nat ->
  tree_inputs sha256 H (a ++ c)
    = (x01 :: mth a ++ mth c) :: tree_inputs sha256 h a ++ tree_inputs sha256 h c.
Proof.
  intros Ha Hc. pose proof (split_range h a c Ha Hc) as Hs. induction H as [|h' IH]; intros Hm.
  { change (pow2 0) with 1%nat in Hm. pose proof (pow2_pos h). lia. }
  destruct (height_unique h _ (a ++ c) Hs Hm) as [_ Hu]. cbn [tree_inputs].
  destruct (length (a ++ c) <=? pow2 h')%nat eqn:E; [apply IH; apply Nat.leb_le in E; lia|].
  rewrite (Hu h' eq_refl E). rewrite <- Ha, take_app_length, drop_app_length. reflexivity.
Qed.

Lemma upper_block H j l : length l = pow2 j -> upper sha256 H (pow2 j) l = [].
Proof.
  intros Hl. induction H as [|h IH]; [reflexivity|]. cbn [upper]. rewrite IH, Hl.
  rewrite Nat.leb_refl. destruct (_ <=? _)%nat; reflexivity.
Qed.

Lemma last_block_left j m a c : (m <= length a)%nat -> last_block j m (a ++ c) = last_block j m a.
Proof. intros H. unfold last_block. rewrite take_app_le by assumption. reflexivity. Qed.

Lemma last_block_right j m a c :
  (pow2 j <= m)%nat -> last_block j (m + length a) (a ++ c) = last_block j m c.
Proof.
  intros H. unfold last_block. rewrite take_app_ge, drop_app_ge by lia.
  f_equal; [lia|]. f_equal. lia.
Qed.

Lemma walk_complete j H q l :
  let m := (pow2 j * (2 * q + 1))%nat in
  (length l <= pow2 H)%nat -> (length l <= pow2 31)%nat -> (m < length l \/ (length l = pow2 j /\ q = 0))%nat ->
  exists tr, walk (Datatypes.S H) (2 * Z.of_nat q) (level j l) (upper sha256 H m l)
    (mth (last_block j m l), mth (last_block j m l), []) = Ok (mth (take m l), mth l, tr).
Proof.
  intros m HH H31 Hor. unfold m in *. clear m. revert H HH.
  apply (consistency_ind (fun q l => forall H, (length l <= pow2 H)%nat -> exists tr,
    walk (Datatypes.S H) (2 * Z.of_nat q) (level j l) (upper sha256 H (pow2 j * (2 * q + 1)) l)
    (mth (last_block j (pow2 j * (2 * q + 1)) l), mth (last_block j (pow2 j * (2 * q + 1)) l), [])
      = Ok (mth (take (pow2 j * (2 * q + 1)) l), mth l, tr)) j) with (H := 31%nat);
    [| | | exact H31 | lia | exact Hor]; clear q l H31 Hor.
  - intros l Hl H HH. replace (pow2 j * (2 * 0 + 1))%nat with (pow2 j) by lia. unfold last_block.
    rewrite level_zero, upper_block, take_ge, Nat.sub_diag, drop_0 by lia. exists []. reflexivity.
  - intros h q a c Ha Hc Hh Hm IH H HH. destruct (IH h) as [tr E]; [lia|]. pose proof (split_range h a c Ha Hc) as Hs.
    exists (tr ++ [x01 :: mth a ++ mth c]). destruct (height_unique h H _ Hs HH) as [HhH _].
    apply (walk_fuel_le _ _ (Datatypes.S (Datatypes.S h))); [lia|].
    rewrite (upper_split h), (proj2 (Nat.leb_le _ _)), last_block_left, take_app_le by lia.
    apply (level_split_left h); try assumption. do 3 eexists. split; [reflexivity|]. split; [exact E|].
    rewrite (proj1 (split_rfc sha256 h a c Ha Hc)). reflexivity.
  - intros h q q' a c Ha Hc Hh Hjh Hq Hm Em IH H HH. destruct (IH h) as [tr E]; [lia|].
    pose proof (split_range h a c Ha Hc) as Hs. pose proof (pow2_pos j).
    exists (tr ++ [x01 :: mth a ++ mth c]). destruct (height_unique h H _ Hs HH) as [HhH _].
    apply (walk_fuel_le _ _ (Datatypes.S (Datatypes.S h))); [lia|].
    rewrite (upper_split h), (proj2 (Nat.leb_gt _ _)) by (pose proof (length_app a c); lia).
    rewrite Em. replace (pow2 j * (2 * q' + 1) + pow2 h - pow2 h)%nat with (pow2 j * (2 * q' + 1))%nat by lia.
    rewrite <- Ha, last_block_right, take_app_ge by lia.
    replace (pow2 j * (2 * q' + 1) + length a - length a)%nat with (pow2 j * (2 * q' + 1))%nat by lia.
    apply (level_split_right h _ j q q'); try assumption; try lia. do 3 eexists. split; [reflexivity|].
    split; [exact E|]. rewrite (proj1 (split_rfc sha256 h a c Ha Hc)).
    rewrite (proj1 (split_rfc sha256 h a (take (pow2 j * (2 * q' + 1)) c) Ha ltac:(rewrite length_take; lia))).
    reflexivity.
Qed.

Lemma walk_new_ok f m last p (x r : pair_traced) :
  hash_ok x.1.2 -> walk f m last p x = Ok r -> hash_ok r.1.2.
Proof.
  revert m last p x. induction f as [|f IH]; intros m last p [[o n] tr] Hc E; [discriminate|]. cbn [MerkleProof.walk] in E.
  repeat case_match; try discriminate; try (eapply IH; [|exact E]; try exact Hc; apply sha256_len).
  injection E as <-. exact Hc.
Qed.

Lemma walk_sound j H q l :
  (length l <= pow2 H)%nat -> (length l <= pow2 31)%nat ->
  (pow2 j * (2 * q + 1) < length l \/ (length l = pow2 j /\ q = 0))%nat ->
  forall f p s o tr, (H < f)%nat -> Forall hash_ok l -> Forall hash_ok p -> hash_ok s ->
  walk f (2 * Z.of_nat q) (level j l) p (s, s, []) = Ok (o, mth l, tr) ->
  o = mth (take (pow2 j * (2 * q + 1)) l) \/ collision sha256 tr (tree_inputs sha256 H l).
Proof.
  intros HH H31 Hor. revert H HH.
  apply (consistency_ind (fun q l => forall H, (length l <= pow2 H)%nat ->
    forall f p s o tr, (H < f)%nat -> Forall hash_ok l -> Forall hash_ok p -> hash_ok s ->
    walk f (2 * Z.of_nat q) (level j l) p (s, s, []) = Ok (o, mth l, tr) ->
    o = mth (take (pow2 j * (2 * q + 1)) l) \/ collision sha256 tr (tree_inputs sha256 H l)) j) with (H := 31%nat);
    [| | | exact H31 | lia | exact Hor]; clear q l H31 Hor.
  - intros l Hl H HH f p s o tr Hf _ _ _ E. replace (pow2 j * (2 * 0 + 1))%nat with (pow2 j) by lia.
    rewrite take_ge by lia. rewrite level_zero in E by assumption. destruct f as [|f]; [lia|].
    destruct p; [|discriminate]. injection E as -> -> _. auto.
  - intros h q a c Ha Hc Hh Hm IH H HH f p s o tr Hf Hl Hp Hs E. pose proof (split_range h a c Ha Hc) as Hr.
    destruct (height_unique h H _ Hr HH) as [HhH _]. destruct f as [|f]; [lia|].
    apply (level_split_left h) in E as (p' & w & [[o' n'] tr'] & -> & E & Er); try assumption.
    rewrite (proj1 (split_rfc sha256 h a c Ha Hc)) in Er. injection Er as -> Er ->.
    apply Forall_app in Hl as [Hla Hlc]. apply Forall_app in Hp as [Hp' Hq].
    pose proof (walk_new_ok _ _ _ _ (s, s, []) (o', n', tr') Hs E) as Hn. cbn [fst snd] in Hn.
    rewrite (tree_inputs_split h), take_app_le by (assumption || lia).
    symmetry in Er. apply hc_inj_or in Er as [[-> ->]|Hcol]; auto using mth_ok.
    + destruct (IH h ltac:(lia) f p' s o' tr') as [E1|Hcol]; auto with lia.
      right. eapply collision_mono; [| |exact Hcol]; set_solver.
    + right. eapply collision_mono; [| |exact Hcol]; set_solver.
  - intros h q q' a c Ha Hc Hh Hjh Hq Hm Em IH H HH f p s o tr Hf Hl Hp Hs E.
    pose proof (split_range h a c Ha Hc) as Hr. pose proof (pow2_pos j).
    destruct (height_unique h H _ Hr HH) as [HhH _]. destruct f as [|f]; [lia|].
    apply (level_split_right h _ j q q') in E as (p' & w & [[o' n'] tr'] & -> & E & Er); try assumption; try lia.
    rewrite (proj1 (split_rfc sha256 h a c Ha Hc)) in Er. injection Er as -> Er ->.
    apply Forall_app in Hl as [Hla Hlc]. apply Forall_app in Hp as [Hp' Hw]. inversion Hw; subst.
    rewrite (tree_inputs_split h) by assumption. rewrite Em, take_app_ge by lia.
    replace (pow2 j * (2 * q' + 1) + pow2 h - length a)%nat with (pow2 j * (2 * q' + 1))%nat by lia.
    rewrite (proj1 (split_rfc sha256 h a (take (pow2 j * (2 * q' + 1)) c) Ha ltac:(rewrite length_take; lia))).
    symmetry in Er. apply hc_inj_or in Er as [[-> ->]|Hcol]; auto using mth_ok.
    + destruct (IH h ltac:(lia) f p' s o' tr') as [E1|Hcol]; auto with lia; [left; congruence|].
      right. eapply collision_mono; [| |exact Hcol]; set_solver.
    + right. eapply collision_mono; [| |exact Hcol]; set_solver.
Qed.

(** *** The loops of [VerifyConsistency] *)

Lemma skip_right_spec j f q last :
  (j <= f)%nat -> 0 <= q -> 0 <= last ->
  skip_right f (2 ^ Z.of_nat j * (2 * q + 1) - 1) last = (2 * q, last / 2 ^ Z.of_nat j).
Proof.
  revert f last. induction j as [|j IH]; intros f last Hf Hq Hl.
  - change (2 ^ Z.of_nat 0) with 1. rewrite Z.div_1_r. replace (1 * (2 * q + 1) - 1) with (2 * q) by lia.
    destruct f as [|f]; [reflexivity|]. cbn [skip_right].
    replace (2 * q mod 2) with 0 by halves. reflexivity.
  - destruct f as [|f]; [lia|]. destruct (pow2_half j) as [P1 Hp]. rewrite P1. cbn [skip_right].
    set (x := 2 ^ Z.of_nat j * (2 * q + 1)) in *. replace (2 * 2 ^ Z.of_nat j * (2 * q + 1) - 1) with (2 * (x - 1) + 1) by (unfold x; ring).
    replace ((2 * (x - 1) + 1) mod 2) with 1 by halves. cbn [Z.eqb Pos.eqb].
    replace ((2 * (x - 1) + 1) / 2) with (x - 1) by halves.
    rewrite IH by (lia || halves). rewrite Z.div_div by lia. reflexivity.
Qed.

Lemma climb_new_walk f g last p o n tr o' n' :
  0 <= last < 2 ^ Z.of_nat f -> (f <= g)%nat ->
  climb_new sha256 (Datatypes.S g) last p n = Ok ([], n') /\ o = o' <->
  exists tr', walk (Datatypes.S f) 0 last p (o, n, tr) = Ok (o', n', tr').
Proof.
  revert g last p n tr. induction f as [|f IH]; intros g last p n tr Hl Hg.
  - change (2 ^ Z.of_nat 0) with 1 in Hl. assert (last = 0) as -> by lia.
    change (climb_new sha256 (Datatypes.S g) 0 p n) with (@Ok (list Uint256 * Uint256) (p, n)).
    change (walk 1 0 0 p (o, n, tr)) with (match p with [] => Ok (o, n, tr) | _ => Err "Proof too long" end).
    split; [intros [[= -> ->] ->]; eauto | intros [tr' E]; destruct p; [injection E as -> -> _; auto | discriminate]].
  - destruct (pow2_half f) as [P1 Hp]. rewrite P1 in Hl. destruct g as [|g]; [lia|].
    remember (Datatypes.S f) as f1 eqn:Ef1. remember (Datatypes.S g) as g1 eqn:Eg1.
    cbn [climb_new MerkleProof.walk]. destruct (Z.eqb_spec last 0) as [->|Hn].
    { change (0 <? 0) with false.
      split; [intros [[= -> ->] ->]; eauto | intros [tr' E]; destruct p; [injection E as -> -> _; auto | discriminate]]. }
    rewrite (proj2 (Z.ltb_lt 0 last)) by lia. change (0 mod 2 =? 1) with false. change (0 / 2) with 0.
    destruct p as [|w p]; [split; [intros [[=] _] | intros [? [=]]]|].
    rewrite Eg1. apply IH; [halves | lia].
Qed.

(** Without a proof the climb from a node other than 0 fails. *)
Lemma climb_nil f node last o n x :
  0 < node <= last -> climb sha256 f node last [] o n <> Ok x.
Proof.
  revert node last. induction f as [|f IH]; intros node last Hn E; [discriminate|]. cbn [climb] in E.
  rewrite (proj2 (Z.eqb_neq _ _)) in E by lia. destruct (Z.eqb_spec (node mod 2) 1); [discriminate|].
  destruct (Z.ltb_spec node last); [discriminate|]. apply IH in E; [exact E | halves].
Qed.

Lemma climb_walk f g node last p o n tr o' n' :
  0 <= node <= last -> last < 2 ^ Z.of_nat f -> (f <= g)%nat ->
  (exists last' p' n1, climb sha256 (Datatypes.S f) node last p o n = Ok (last', p', o', n1) /\
     climb_new sha256 (Datatypes.S g) last' p' n1 = Ok ([], n')) <->
  exists tr', walk (Datatypes.S f) node last p (o, n, tr) = Ok (o', n', tr').
Proof.
  revert node last p o n tr. induction f as [|f IH]; intros node last p o n tr Hn Hl Hg;
    (destruct (Z.eq_dec node 0) as [->|Hn0]; [rewrite <- (climb_new_walk _ g) by lia; cbn [climb Z.eqb];
      split; [intros (? & ? & ? & [= <- <- <- <-] & E); auto | intros [E ->]; eauto 6] |]).
  { change (2 ^ Z.of_nat 0) with 1 in Hl. lia. }
  destruct (pow2_half f) as [P1 Hp]. rewrite P1 in Hl. remember (Datatypes.S f) as f1 eqn:Ef1.
  cbn [climb MerkleProof.walk]. rewrite (proj2 (Z.eqb_neq _ _) Hn0), (proj2 (Z.ltb_lt 0 last)) by lia.
  destruct p as [|w p].
  - split; [|intros [? [=]]]. intros (? & ? & ? & E & _). exfalso.
    destruct (node mod 2 =? 1) eqn:Ho; [discriminate|]. destruct (node <? last) eqn:Hlt; [discriminate|].
    apply Z.eqb_neq in Ho. apply Z.ltb_ge in Hlt. apply climb_nil in E; [exact E | halves].
  - destruct (node mod 2 =? 1); [apply IH; [halves | halves | lia]|].
    destruct (node <? last); apply IH; solve [halves | lia].
Qed.

(** What [VerifyConsistency] hashes for the new root. *)
Definition consistency_start (old_size new_size : Z) (old_root : Uint256) (proof : list Uint256)
    : Z * Z * Uint256 * list Uint256 :=
  let '(node, last) := skip_right 33 (u32 (old_size - 1)) (u32 (new_size - 1)) in
  match proof with
  | p0 :: proof' => if node =? 0 then (node, last, old_root, proof) else (node, last, p0, proof')
  | [] => (node, last, old_root, proof)
  end.

Definition consistency_inputs (old_size new_size : Z) (old_root : Uint256) (proof : list Uint256) : list (list byte) :=
  let '(node, last, h0, rest) := consistency_start old_size new_size old_root proof in
  match walk 33 node last rest (h0, h0, []) with Ok (_, tr) => tr | _ => [] end.

Lemma VerifyConsistency_walk j q n old_root new_root proof :
  let m := (pow2 j * (2 * q + 1))%nat in
  (m <= n)%nat -> Z.of_nat n < 2 ^ 31 -> old_root <> new_root ->
  VerifyConsistency sha256 (Z.of_nat m) (Z.of_nat n) old_root new_root proof = Ok () <->
  proof <> [] /\ exists tr,
    let '(h0, rest) := if (q =? 0)%nat then (old_root, proof)
                       else (default EMPTY_HASH (head proof), tail proof) in
    walk 33 (2 * Z.of_nat q) ((Z.of_nat n - 1) / 2 ^ Z.of_nat j) rest (h0, h0, []) = Ok (old_root, new_root, tr).
Proof.
  intros m Hmn Hn Hne. pose proof (pow2_pos j). assert (0 < m)%nat by (unfold m; nia).
  assert (Hj : (j < 31)%nat).
  { apply Nat2Z.inj_lt, (Z.pow_lt_mono_r_iff 2); [lia | lia |]. rewrite <- pow2_Z. unfold m in *.
    change (Z.of_nat 31) with 31. nia. }
  unfold VerifyConsistency. rewrite (proj2 (Z.ltb_ge _ _)) by lia. rewrite decide_False by exact Hne.
  rewrite (proj2 (Z.eqb_neq _ 0)), !u32_small by words.
  replace (Z.of_nat m - 1) with (2 ^ Z.of_nat j * (2 * Z.of_nat q + 1) - 1) by (unfold m; rewrite <- pow2_Z; lia).
  rewrite (skip_right_spec j) by lia.
  destruct proof as [|p0 proof]; [split; [intros [=] | intros [[] _]; reflexivity]|].
  assert (Hz : (2 * Z.of_nat q =? 0) = (q =? 0)%nat).
  { destruct (Nat.eqb_spec q 0); [apply Z.eqb_eq | apply Z.eqb_neq]; lia. }
  rewrite Hz. destruct (pow2_half j) as [_ Hpj].
  assert (Hlev : 2 * Z.of_nat q <= (Z.of_nat n - 1) / 2 ^ Z.of_nat j < 2 ^ Z.of_nat 32).
  { split; [apply Z.div_le_lower_bound; [exact Hpj|]; rewrite <- pow2_Z; unfold m in Hmn; nia|].
    apply Z.div_lt_upper_bound; [exact Hpj|]. change (Z.of_nat 32) with 32. nia. }
  assert (HX : forall h0 rest,
    (let* '(last_node, rest, old_hash, new_hash) := climb sha256 33 (2 * Z.of_nat q) ((Z.of_nat n - 1) / 2 ^ Z.of_nat j) rest h0 h0 in
     let* '(rest, new_hash) := climb_new sha256 33 last_node rest new_hash in
     if negb (bool_decide (new_hash = new_root)) then Err "Bad Merkle proof: second root hash does not match"
     else if negb (bool_decide (old_hash = old_root)) then Err "Inconsistency: first root hash does not match"
     else match rest with [] => Ok () | _ => Err "Proof too long" end) = Ok () <->
    exists tr, walk 33 (2 * Z.of_nat q) ((Z.of_nat n - 1) / 2 ^ Z.of_nat j) rest (h0, h0, []) = Ok (old_root, new_root, tr)).
  { intros h0 rest. rewrite <- (climb_walk 32 32) by lia. rewrite res_bind_Ok. split.
    - intros ([[[l' r'] o'] n1] & E1 & E2). apply res_bind_Ok in E2 as ([r2 n2] & E2 & E3).
      destruct (bool_decide_reflect (n2 = new_root)) as [->|]; [|discriminate].
      destruct (bool_decide_reflect (o' = old_root)) as [->|]; [|discriminate].
      destruct r2; [|discriminate]. eauto 6.
    - intros (l' & r' & n1 & E1 & E2). exists (l', r', old_root, n1). split; [exact E1|].
      rewrite E2. cbn [res_bind]. rewrite !bool_decide_true by reflexivity. reflexivity. }
  destruct (Nat.eqb_spec q 0) as [Hq|Hq]; cbn [negb]; rewrite HX; cbn [head tail default];
    (split; [intros E; split; [discriminate | exact E] | intros [_ E]; exact E]).
Qed.

End Proof.
