(* ===== verification/MerkleSpec.v ===== *)
(** * Correctness of the compact Merkle tree

    The theorems about [merkle/]: the incremental tree computes the hash of the
    recursive definition, proofs cut out of the store are accepted by the
    verifier, and what the verifier accepts is true unless it exhibits two
    byte strings with the same hash. *)

From S2P Require Import Prelude Merkle MerkleTheory MerkleProof MerkleConsistency.

(** ** A concrete hash function for the witnesses *)

Definition toy_hash (bs : list byte) : Uint256 := take 32 (rev bs ++ repeat x00 32).

Lemma toy_hash_len bs : hash_ok (toy_hash bs).
Proof. unfold hash_ok, toy_hash. rewrite length_take, length_app, repeat_length. lia. Qed.

Definition toy_leaf (b : byte) : Uint256 := repeat b 32.
Definition toy_leaves : list Uint256 := toy_leaf <$> [x01; x02; x03; x04; x05].

Lemma toy_leaves_ok : Forall hash_ok toy_leaves.
Proof. repeat constructor. Qed.

Section Spec.
Context (sha256 : list byte -> Uint256).
Context {S : Type} `{HS : HashStore S}.

Definition empty_tree (store : option S) : CompactMerkleTree := mkTree 0 [] store EMPTY_HASH 0.

Lemma NewTree_empty (store : option S) : NewTree 0 [] store = Ok (empty_tree store).
Proof. reflexivity. Qed.

Lemma empty_tree_inv (store : option S) :
  (forall s, store = Some s -> hs_wf s /\ hs_view s = []) -> tree_inv sha256 [] (empty_tree store).
Proof.
  intros Hs. unfold tree_inv, empty_tree; cbn [treeSize hashes rootHash hashStore].
  split; [reflexivity|]. split; [reflexivity|]. split; [auto|]. split; [exact Hs|].
  split; [constructor | reflexivity].
Qed.

Context (sha256_len : forall bs, hash_ok (sha256 bs)).

(** Read [n] hashes back from their concatenation. *)
Lemma read_hashes_concat hs : Forall hash_ok hs -> read_hashes (length hs) (concat hs) = hs.
Proof.
  induction 1 as [|h hs Hh Hhs IH]; [reflexivity|]. cbn [length read_hashes concat].
  rewrite <- Hh, take_app_length, drop_app_length, IH. reflexivity.
Qed.

Lemma peaks_ok l : Forall hash_ok l -> Forall hash_ok (peaks sha256 l).
Proof.
  induction l as [|h t r Ht Hr IH] using perfect_ind; intros Hl; [constructor|].
  apply Forall_app in Hl as [Hlt Hlr]. rewrite (peaks_app sha256 h) by assumption.
  constructor; [|apply IH, Hlr]. rewrite <- (mth_perfect sha256 h) by assumption. apply mth_ok; assumption.
Qed.

End Spec.

(** C24: appending leaf hashes one by one to an empty tree succeeds, and [Root]
    of the result is the hash that the recursive [HashFullTreeWithLeafHash]
    computes for the whole list. *)
Theorem incremental_root_is_full_tree_hash {S} `{HS : HashStore S} sha256 (store : option S) xs :
  (forall bs, hash_ok (sha256 bs)) -> (forall s, store = Some s -> hs_wf s /\ hs_view s = []) ->
  Forall hash_ok xs -> zlen xs < 2 ^ 31 ->
  exists t t' r, append_all sha256 xs (empty_tree store) = Ok t /\ Root sha256 t = Ok (r, t') /\
    HashFullTreeWithLeafHash sha256 xs = Ok r /\ treeSize t = zlen xs.
Proof.
  intros Hlen Hs Hxs Hz.
  destruct (append_all_inv sha256 Hlen xs [] (empty_tree store)) as (t & E & Hinv & _);
    [apply empty_tree_inv, Hs | exact Hxs | exact Hz |].
  destruct (Root_inv sha256 xs t Hinv) as (t' & Er & _).
  exists t, t', (mth sha256 xs). rewrite HashFullTreeWithLeafHash_mth by lia.
  split; [exact E|]. split; [exact Er|]. split; [reflexivity | apply Hinv].
Qed.

Lemma incremental_root_is_full_tree_hash_witness :
  exists t t' r, append_all toy_hash toy_leaves (empty_tree (Some (MemStore.mkMem []))) = Ok t /\
    Root toy_hash t = Ok (r, t') /\ HashFullTreeWithLeafHash toy_hash toy_leaves = Ok r /\ treeSize t = 5.
Proof.
  apply (incremental_root_is_full_tree_hash toy_hash (Some (MemStore.mkMem [])) toy_leaves).
  - exact toy_hash_len.
  - intros s [= <-]. split; reflexivity.
  - exact toy_leaves_ok.
  - reflexivity.
Defined.

(** The proof [InclusionProof m n] of leaf [m] in the tree of the first [n]
    leaves, cut out of the hash store of a tree with at least [n] leaves, is
    accepted by [VerifyLeafHashInclusion] against the root of those [n] leaves. *)
Theorem inclusion_proof_accepted {S} `{HS : HashStore S} sha256 l t (s : S) m n leaf :
  tree_inv sha256 l t -> hashStore t = Some s -> (m < n <= length l)%nat -> l !! m = Some leaf ->
  exists proof root, InclusionProof sha256 (Z.of_nat m) (Z.of_nat n) t = Ok proof /\
    HashFullTreeWithLeafHash sha256 (take n l) = Ok root /\ merkleRoot sha256 s (Z.of_nat n) = Ok root /\
    VerifyLeafHashInclusion sha256 leaf (Z.of_nat m) proof root (Z.of_nat n) = Ok ().
Proof.
  intros Hinv Es Hmn Hleaf. exists (path sha256 31 m (take n l)), (mth sha256 (take n l)).
  destruct (store_take sha256 l t s n Hinv Es) as (W & Hz & Hb & suf & V); [lia|].
  split; [eapply InclusionProof_path; eauto|].
  split; [apply HashFullTreeWithLeafHash_mth; lia|].
  split; [rewrite <- Hz in *; eapply merkleRoot_mth; eauto; intros E; rewrite E, zlen_nil in Hz; lia|].
  unfold VerifyLeafHashInclusion, calculate_root_hash_from_audit_path.
  rewrite (proj2 (Z.leb_gt _ _)), u32_small by words. rewrite audit_loop_walk.
  rewrite (walk_fuel_le _ _ 32 33 _ _ _ _ (mth sha256 (take n l))); [cbn [res_bind]; rewrite decide_True by reflexivity; reflexivity | lia |].
  rewrite <- Hz, <- audit_loop_walk. apply audit_path_complete; [|lia|].
  - split; [unfold zlen in Hz; lia|]. apply length_pow2_31. lia.
  - rewrite lookup_take_lt by lia. exact Hleaf.
Qed.

(** The tree of the five example leaves. *)
Lemma toy_tree_inv :
  exists t s, append_all toy_hash toy_leaves (empty_tree (Some (MemStore.mkMem []))) = Ok t /\
    hashStore t = Some s /\ tree_inv toy_hash toy_leaves t.
Proof.
  destruct (append_all_inv toy_hash toy_hash_len toy_leaves [] (empty_tree (Some (MemStore.mkMem [])))) as (t & E & Hinv & Hs).
  - apply empty_tree_inv. intros s [= <-]. split; reflexivity.
  - exact toy_leaves_ok.
  - reflexivity.
  - destruct (proj2 Hs) as [s Es]; [eexists; reflexivity|]. eauto 6.
Qed.

Lemma inclusion_proof_accepted_witness :
  exists t proof root, append_all toy_hash toy_leaves (empty_tree (Some (MemStore.mkMem []))) = Ok t /\
    InclusionProof toy_hash 2 5 t = Ok proof /\ HashFullTreeWithLeafHash toy_hash (take 5 toy_leaves) = Ok root /\
    VerifyLeafHashInclusion toy_hash (toy_leaf x03) 2 proof root 5 = Ok ().
Proof.
  destruct toy_tree_inv as (t & s & E & Es & Hinv).
  destruct (inclusion_proof_accepted toy_hash toy_leaves t s 2 5 (toy_leaf x03) Hinv Es) as (proof & root & E1 & E2 & _ & E3).
  - simpl. lia.
  - reflexivity.
  - exists t, proof, root. auto.
Defined.

(** Acceptance is a walk to the root. *)
Lemma HashFullTreeWithLeafHash_inv sha256 l root :
  zlen l < 2 ^ 31 -> HashFullTreeWithLeafHash sha256 l = Ok root -> root = mth sha256 l.
Proof. intros Hz E. rewrite HashFullTreeWithLeafHash_mth in E by lia. congruence. Qed.

Lemma VerifyLeafHashInclusion_walk sha256 l m leaf proof :
  0 <= m < 2 ^ 32 -> zlen l < 2 ^ 31 ->
  VerifyLeafHashInclusion sha256 leaf m proof (mth sha256 l) (zlen l) = Ok () ->
  m < zlen l /\ walk (hash_children sha256) (hash_children sha256) 33 m (zlen l - 1) proof leaf = Ok (mth sha256 l).
Proof.
  intros Hm Hz E. pose proof (zlen_nonneg l).
  unfold VerifyLeafHashInclusion, calculate_root_hash_from_audit_path in E.
  destruct (Z.leb_spec (zlen l) m) as [|Hlt]; [discriminate|]. rewrite u32_small in E by words.
  apply res_bind_Ok in E as (r & E & Er). rewrite audit_loop_walk in E.
  destruct (decide (r = mth sha256 l)) as [->|]; [|discriminate]. auto.
Qed.

Lemma audit_sound_inputs sha256 H F l m leaf proof :
  (forall bs, hash_ok (sha256 bs)) -> Forall hash_ok l -> hash_ok leaf -> Forall hash_ok proof ->
  0 <= m < zlen l -> (length l <= pow2 H)%nat -> (H <= 31)%nat -> (H < F)%nat ->
  walk (hash_children sha256) (hash_children sha256) F m (zlen l - 1) proof leaf = Ok (mth sha256 l) ->
  l !! Z.to_nat m = Some leaf \/
  collision sha256 (audit_inputs sha256 F m (zlen l - 1) proof leaf) (tree_inputs sha256 H l).
Proof.
  intros Hlen Hl Hleaf Hp Hm HH H31 HF E.
  destruct (walk_traced sha256 F m (zlen l - 1) proof (leaf, []) (mth sha256 l) E) as [tr Et].
  unfold audit_inputs. rewrite Et. cbn [snd]. rewrite <- (Z2Nat.id m) in Et by lia.
  apply (audit_sound sha256 Hlen H F (Z.to_nat m) l proof leaf tr); try assumption.
  split; [unfold zlen in Hm; lia | assumption].
Qed.

(** C6: a proof that [VerifyLeafHashInclusion] accepts for position [m] against
    the root of the leaf hashes [l] proves that the leaf is the one at [m]; the
    only other possibility is a pair of distinct byte strings with the same
    hash, one hashed by the verifier, the other in the tree of [l]. *)
Theorem inclusion_proof_sound sha256 l m leaf proof root :
  (forall bs, hash_ok (sha256 bs)) -> Forall hash_ok l -> hash_ok leaf -> Forall hash_ok proof ->
  0 <= m < 2 ^ 32 -> zlen l < 2 ^ 31 -> HashFullTreeWithLeafHash sha256 l = Ok root ->
  VerifyLeafHashInclusion sha256 leaf m proof root (zlen l) = Ok () ->
  l !! Z.to_nat m = Some leaf \/
  collision sha256 (audit_inputs sha256 33 m (zlen l - 1) proof leaf) (tree_inputs sha256 31 l).
Proof.
  intros Hlen Hl Hleaf Hp Hm Hz Hroot E.
  apply HashFullTreeWithLeafHash_inv in Hroot as ->; [|exact Hz].
  destruct (VerifyLeafHashInclusion_walk sha256 l m leaf proof Hm Hz E) as [Hlt Ew].
  apply audit_sound_inputs; try assumption; [lia | apply length_pow2_31, Hz | lia | lia].
Qed.

Lemma inclusion_proof_sound_witness :
  exists root proof, HashFullTreeWithLeafHash toy_hash toy_leaves = Ok root /\
    VerifyLeafHashInclusion toy_hash (toy_leaf x03) 2 proof root 5 = Ok () /\
    (toy_leaves !! 2%nat = Some (toy_leaf x03) \/
     collision toy_hash (audit_inputs toy_hash 33 2 4 proof (toy_leaf x03)) (tree_inputs toy_hash 31 toy_leaves)).
Proof.
  exists (mth toy_hash toy_leaves), (path toy_hash 3 2 toy_leaves).
  assert (E1 : HashFullTreeWithLeafHash toy_hash toy_leaves = Ok (mth toy_hash toy_leaves)) by (vm_compute; reflexivity).
  assert (E2 : VerifyLeafHashInclusion toy_hash (toy_leaf x03) 2 (path toy_hash 3 2 toy_leaves)
    (mth toy_hash toy_leaves) 5 = Ok ()) by (vm_compute; reflexivity).
  split; [exact E1|]. split; [exact E2|].
  apply (inclusion_proof_sound toy_hash toy_leaves 2 (toy_leaf x03) (path toy_hash 3 2 toy_leaves)
    (mth toy_hash toy_leaves) toy_hash_len toy_leaves_ok); [reflexivity | | lia | reflexivity | exact E1 | exact E2].
  vm_compute. repeat constructor.
Defined.

(** Every positive number is a power of two times an odd number. *)
Lemma odd_part m : (0 < m)%nat -> exists j q, m = (pow2 j * (2 * q + 1))%nat.
Proof.
  induction m as [m IH] using lt_wf_ind. intros Hm.
  destruct (Nat.Even_or_Odd m) as [[k ->]|[k ->]].
  - destruct (IH k) as (j & q & ->); [lia | lia |]. exists (S j), q. rewrite pow2_S. lia.
  - exists 0%nat, k. change (pow2 0) with 1%nat. lia.
Qed.

Lemma last_block_whole j (l : list Uint256) : last_block j (pow2 j) l = take (pow2 j) l.
Proof. unfold last_block. rewrite Nat.sub_diag. reflexivity. Qed.

Lemma take_length_pow2 n (l : list Uint256) : Z.of_nat n < 2 ^ 31 -> (length (take n l) <= pow2 31)%nat.
Proof. intros H. apply length_pow2_31. unfold zlen. rewrite length_take. lia. Qed.

(** The proof of [ConsistencyProof] passes the verifier's walk. *)
Lemma consistency_accepted_walk sha256 j q n l :
  let m := (pow2 j * (2 * q + 1))%nat in
  (m < n <= length l)%nat -> Z.of_nat n < 2 ^ 31 ->
  let proof := (if (q =? 0)%nat then [] else [mth sha256 (last_block j m (take n l))]) ++ upper sha256 31 m (take n l) in
  mth sha256 (take m l) <> mth sha256 (take n l) ->
  VerifyConsistency sha256 (Z.of_nat m) (Z.of_nat n) (mth sha256 (take m l)) (mth sha256 (take n l)) proof = Ok ().
Proof.
  intros m Hmn Hn proof Hne. assert (Hlen : length (take n l) = n) by (rewrite length_take; lia).
  assert (Hl : zlen (take n l) = Z.of_nat n) by (unfold zlen; lia).
  destruct (walk_complete sha256 j 31 q (take n l)) as [tr E]; fold m; rewrite ?Hlen; auto using take_length_pow2 with lia.
  { rewrite <- Hlen. apply take_length_pow2, Hn. }
  { rewrite <- Hlen. apply take_length_pow2, Hn. }
  fold m in E. rewrite Hl, take_take in E. replace (m `min` n)%nat with m in E by lia.
  apply (walk_fuel_le _ _ 32 33) in E; [|lia].
  apply (VerifyConsistency_walk sha256 j q n); fold m; try assumption; [lia|]. unfold proof.
  destruct (Nat.eqb_spec q 0) as [Hq|Hq]; cbn [app head tail default]; (split; [|exists tr]).
  - intros Ex. rewrite Ex in E. cbn [MerkleProof.walk] in E.
    rewrite (proj2 (Z.ltb_lt 0 _)) in E; [discriminate|].
    destruct (pow2_half j) as [_ Hp]. apply Z.div_str_pos. rewrite <- pow2_Z in *. unfold m in *. nia.
  - assert (Hm : m = pow2 j) by (unfold m; lia). rewrite Hm in *. rewrite last_block_whole, take_take in E.
    replace (pow2 j `min` n)%nat with (pow2 j) in E by lia. exact E.
  - discriminate.
  - exact E.
Qed.

Lemma subproof_loop_stop {S} `{HS : HashStore S} sha256 f (st : S) n o b acc :
  subproof_loop sha256 (Datatypes.S f) st n n o b acc = Ok (n, o, b, acc).
Proof. cbn [subproof_loop]. rewrite Z.ltb_irrefl. reflexivity. Qed.

(** For [0 < m <= n] not above the tree size, [ConsistencyProof m n] returns a
    proof that [VerifyConsistency] accepts for the roots of the first [m] and
    of the first [n] leaves. *)
Theorem consistency_proof_accepted {S} `{HS : HashStore S} sha256 l t (s : S) m n :
  tree_inv sha256 l t -> hashStore t = Some s -> (0 < m <= n)%nat -> (n <= length l)%nat ->
  exists proof old_root new_root,
    ConsistencyProof sha256 (Z.of_nat m) (Z.of_nat n) t = Ok (Some proof) /\
    HashFullTreeWithLeafHash sha256 (take m l) = Ok old_root /\
    HashFullTreeWithLeafHash sha256 (take n l) = Ok new_root /\
    VerifyConsistency sha256 (Z.of_nat m) (Z.of_nat n) old_root new_root proof = Ok ().
Proof.
  intros Hinv Es Hmn Hn. destruct (store_take sha256 l t s n Hinv Es Hn) as (_ & Hz & Hb & _).
  destruct (odd_part m) as (j & q & Em); [lia|].
  assert (Hroots : forall k, (k <= n)%nat -> HashFullTreeWithLeafHash sha256 (take k l) = Ok (mth sha256 (take k l))).
  { intros k Hk. apply HashFullTreeWithLeafHash_mth. unfold zlen. rewrite length_take. lia. }
  destruct (decide (m = n)) as [->|Hne].
  - exists [], (mth sha256 (take n l)), (mth sha256 (take n l)). rewrite !Hroots by lia.
    split; [|split; [reflexivity|split; [reflexivity|]]].
    + destruct Hinv as (Hsz & _). unfold ConsistencyProof. rewrite Es.
      rewrite (proj2 (Z.ltb_ge _ _)), (proj2 (Z.ltb_ge _ _)) by (rewrite ?Hsz; unfold zlen; lia).
      unfold subproof. rewrite subproof_loop_stop. reflexivity.
    + unfold VerifyConsistency. rewrite Z.ltb_irrefl, decide_True by reflexivity. reflexivity.
  - eexists _, (mth sha256 (take m l)), (mth sha256 (take n l)). rewrite !Hroots by lia.
    split; [rewrite Em; apply (ConsistencyProof_upper sha256 l t s j q n Hinv Es); rewrite <- Em; lia|].
    split; [reflexivity|]. split; [reflexivity|].
    destruct (decide (mth sha256 (take m l) = mth sha256 (take n l))) as [E|N].
    + unfold VerifyConsistency. rewrite (proj2 (Z.ltb_ge _ _)), decide_True by (assumption || lia). reflexivity.
    + rewrite Em in *. apply consistency_accepted_walk; [lia | exact Hb | exact N].
Qed.

Lemma consistency_proof_accepted_witness :
  exists t proof old_root new_root,
    append_all toy_hash toy_leaves (empty_tree (Some (MemStore.mkMem []))) = Ok t /\
    ConsistencyProof toy_hash 3 5 t = Ok (Some proof) /\
    HashFullTreeWithLeafHash toy_hash (take 3 toy_leaves) = Ok old_root /\
    HashFullTreeWithLeafHash toy_hash (take 5 toy_leaves) = Ok new_root /\
    VerifyConsistency toy_hash 3 5 old_root new_root proof = Ok ().
Proof.
  destruct toy_tree_inv as (t & s & E & Es & Hinv).
  destruct (consistency_proof_accepted toy_hash toy_leaves t s 3 5 Hinv Es) as (proof & o & n & E1 & E2 & E3 & E4).
  - lia.
  - simpl. lia.
  - exists t, proof, o, n. auto.
Defined.

(** The main case: a non-empty older tree with another root. *)
Lemma consistency_proof_determines sha256 l m old_root new_root proof :
  (forall bs, hash_ok (sha256 bs)) -> Forall hash_ok l -> Forall hash_ok proof -> hash_ok old_root ->
  (0 < m < length l)%nat -> zlen l < 2 ^ 31 ->
  HashFullTreeWithLeafHash sha256 l = Ok new_root -> old_root <> new_root ->
  VerifyConsistency sha256 (Z.of_nat m) (zlen l) old_root new_root proof = Ok () ->
  HashFullTreeWithLeafHash sha256 (take m l) = Ok old_root \/
  collision sha256 (consistency_inputs sha256 (Z.of_nat m) (zlen l) old_root proof) (tree_inputs sha256 31 l).
Proof.
  intros Hlen Hl Hp Ho Hm Hz Hroot Hne E. apply HashFullTreeWithLeafHash_inv in Hroot as ->; [|exact Hz].
  destruct (odd_part m) as (j & q & Em); [lia|]. pose proof (pow2_pos j).
  unfold zlen in E at 1. rewrite Em in E.
  apply (VerifyConsistency_walk sha256 j q (length l)) in E as [Hnil [tr E]]; [| lia | exact Hz | exact Hne].
  rewrite HashFullTreeWithLeafHash_mth by (unfold zlen in *; rewrite length_take; lia).
  assert (Hin : consistency_inputs sha256 (Z.of_nat m) (zlen l) old_root proof = tr).
  { unfold consistency_inputs, consistency_start. rewrite !u32_small by (unfold zlen in *; words).
    replace (Z.of_nat m - 1) with (2 ^ Z.of_nat j * (2 * Z.of_nat q + 1) - 1) by (rewrite Em, <- pow2_Z; lia).
    assert (Hj : (j < 31)%nat).
    { apply Nat2Z.inj_lt, (Z.pow_lt_mono_r_iff 2); [lia | lia |]. rewrite <- pow2_Z.
      change (Z.of_nat 31) with 31. unfold zlen in Hz. nia. }
    rewrite (skip_right_spec j) by (unfold zlen; lia). destruct proof as [|p0 proof]; [congruence|].
    replace (2 * Z.of_nat q =? 0) with (q =? 0)%nat by (destruct (Nat.eqb_spec q 0); symmetry; [apply Z.eqb_eq | apply Z.eqb_neq]; lia).
    unfold zlen. destruct (q =? 0)%nat; cbn [head tail default from_option id] in E; rewrite E; reflexivity. }
  rewrite Hin.
  assert (Hs : exists s rest, hash_ok s /\ Forall hash_ok rest /\
    walk (both_l sha256) (both_r sha256) 33 (2 * Z.of_nat q) ((zlen l - 1) / 2 ^ Z.of_nat j) rest (s, s, [])
      = Ok (old_root, mth sha256 l, tr)).
  { destruct (q =? 0)%nat; [exists old_root, proof; auto|]. destruct proof as [|p0 proof]; [congruence|].
    inversion Hp; subst. exists p0, proof. auto. }
  destruct Hs as (s & rest & Hs & Hrest & Ew).
  pose proof (length_pow2_31 l Hz) as H31.
  assert (Hlt : (pow2 j * (2 * q + 1) < length l)%nat) by lia.
  destruct (walk_sound sha256 Hlen j 31 q l H31 H31 (or_introl Hlt) 33 rest s old_root tr
    ltac:(lia) Hl Hrest Hs Ew) as [->|Hc]; [|auto].
  left. rewrite Em. reflexivity.
Qed.

(** Trees of one size have one root: both hashes are computed alike. *)
Lemma skip_right_same f : forall n, exists k, skip_right f n n = (k, k).
Proof. induction f as [|f IH]; intros n; cbn [skip_right]; [exists n; reflexivity|]. destruct (_ =? 1); [apply IH | exists n; reflexivity]. Qed.

Lemma climb_same sha256 f : forall n proof h r, climb sha256 f n n proof h h = Ok r -> exists rest x, r = (0, rest, x, x).
Proof.
  induction f as [|f IH]; intros n proof h r E; cbn [climb] in E; [discriminate|]. destruct (Z.eqb_spec n 0) as [->|_]; [injection E as <-; eauto|].
  destruct (_ =? 1); [destruct proof as [|p proof]; [discriminate | exact (IH _ _ _ _ E)]|]. rewrite Z.ltb_irrefl in E. exact (IH _ _ _ _ E).
Qed.

Lemma VerifyConsistency_same_size sha256 n old_root new_root proof :
  n <> 0 -> VerifyConsistency sha256 n n old_root new_root proof = Ok () -> old_root = new_root.
Proof.
  intros Hn. unfold VerifyConsistency. rewrite Z.ltb_irrefl, (proj2 (Z.eqb_neq _ 0)) by exact Hn. destruct (decide _) as [|_]; [auto|].
  destruct (skip_right_same 33 (u32 (n - 1))) as [k ->]. destruct proof as [|p0 proof]; [discriminate|]. destruct (if negb _ then _ else _) as [h0 rest]. cbn [res_bind].
  destruct (climb _ _ _ _ _ _ _) as [r| |] eqn:E; cbn [res_bind]; try discriminate. destruct (climb_same _ _ _ _ _ _ E) as (rest' & x & ->). cbn [climb_new Z.eqb res_bind].
  do 2 (case_bool_decide; cbn [negb]; [|discriminate]). intros _. congruence.
Qed.

(** C17: what [VerifyConsistency] says against the root of the leaf hashes [l], for every older size [m].  An older tree that is said to
    be larger is refused.  With [m = 0], or with an older root equal to the newer one, everything is accepted: no proof is
    looked at.  Otherwise equal sizes are refused, and for [0 < m < length l] and a different older root what is accepted is the root of the
    first [m] leaves, unless the verifier and the tree of [l] hash two distinct byte strings to the same value. *)
Theorem consistency_proof_sound sha256 l m old_root new_root proof :
  (forall bs, hash_ok (sha256 bs)) -> Forall hash_ok l -> Forall hash_ok proof -> hash_ok old_root ->
  zlen l < 2 ^ 31 -> HashFullTreeWithLeafHash sha256 l = Ok new_root ->
  let verdict := VerifyConsistency sha256 (Z.of_nat m) (zlen l) old_root new_root proof in
  ((length l < m)%nat -> verdict = Err "Older tree has bigger size") /\
  ((m <= length l)%nat -> m = 0%nat \/ old_root = new_root -> verdict = Ok ()) /\
  ((0 < m <= length l)%nat -> old_root <> new_root -> verdict = Ok () -> (m < length l)%nat /\
    (HashFullTreeWithLeafHash sha256 (take m l) = Ok old_root \/
     collision sha256 (consistency_inputs sha256 (Z.of_nat m) (zlen l) old_root proof) (tree_inputs sha256 31 l))).
Proof.
  intros Hlen Hl Hp Ho Hz Hroot verdict. split; [|split].
  - intros Hm. unfold verdict, VerifyConsistency, zlen. rewrite (proj2 (Z.ltb_lt _ _)) by lia. reflexivity.
  - intros Hm H. unfold verdict, VerifyConsistency, zlen. rewrite (proj2 (Z.ltb_ge _ _)) by lia.
    destruct (decide (old_root = new_root)) as [|Hne]; [reflexivity|]. destruct H as [->|H]; [reflexivity | contradiction].
  - intros Hm Hne E. destruct (decide (m = length l)) as [->|Hne']; [destruct Hne; exact (VerifyConsistency_same_size _ (zlen l) _ _ _ ltac:(unfold zlen; lia) E)|].
    split; [lia|]. refine (consistency_proof_determines _ _ _ _ _ _ Hlen Hl Hp Ho _ Hz Hroot Hne E). lia.
Qed.

Lemma consistency_proof_sound_witness :
  exists old_root new_root proof, HashFullTreeWithLeafHash toy_hash toy_leaves = Ok new_root /\
    VerifyConsistency toy_hash 3 5 old_root new_root proof = Ok () /\
    (HashFullTreeWithLeafHash toy_hash (take 3 toy_leaves) = Ok old_root \/
     collision toy_hash (consistency_inputs toy_hash 3 5 old_root proof) (tree_inputs toy_hash 31 toy_leaves)).
Proof.
  set (o := mth toy_hash (take 3 toy_leaves)). set (n := mth toy_hash toy_leaves).
  set (p := mth toy_hash [toy_leaf x03] :: upper toy_hash 3 3 toy_leaves).
  assert (E1 : HashFullTreeWithLeafHash toy_hash toy_leaves = Ok n) by (vm_compute; reflexivity).
  assert (E2 : VerifyConsistency toy_hash 3 5 o n p = Ok ()) by (vm_compute; reflexivity).
  exists o, n, p. split; [exact E1|]. split; [exact E2|].
  refine (proj2 (proj2 (proj2 (consistency_proof_sound toy_hash toy_leaves 3 o n p toy_hash_len toy_leaves_ok _ _ _ E1)) _ _ E2));
    [vm_compute; repeat constructor | reflexivity | reflexivity | simpl; lia | vm_compute; discriminate].
Defined.

(** [VerifyConsistency] accepts any older root that equals the newer one,
    whatever the sizes and the proof: the early return on equal roots runs before
    the sizes are compared, so a tree of three leaves is reported consistent
    with a tree of five that has the same root. *)
Theorem VerifyConsistency_equal_roots sha256 root proof m n :
  m <= n -> VerifyConsistency sha256 m n root root proof = Ok ().
Proof.
  intros H. unfold VerifyConsistency. rewrite (proj2 (Z.ltb_ge _ _)), decide_True by (reflexivity || lia). reflexivity.
Qed.

Lemma VerifyConsistency_equal_roots_witness :
  VerifyConsistency toy_hash 3 5 (toy_leaf x07) (toy_leaf x07) [] = Ok ().
Proof. apply (VerifyConsistency_equal_roots toy_hash (toy_leaf x07) [] 3 5). lia. Defined.

(** [GetRootWithNewLeaves] (on a copy of the tree without a store) and
    [GetRootWithNewLeaf] return the root the tree will have once the new leaf
    hashes are appended to it. *)
Theorem root_with_new_leaves {S} `{HS : HashStore S} sha256 l (t : @CompactMerkleTree S) xs x :
  (forall bs, hash_ok (sha256 bs)) -> tree_inv sha256 l t -> Forall hash_ok (xs ++ [x]) ->
  zlen l + zlen (xs ++ [x]) < 2 ^ 31 ->
  exists t1 t2 t3 r, append_all sha256 xs t = Ok t1 /\ AppendHash sha256 x t1 = Ok (rev (hashes t1), t2) /\
    Root sha256 t2 = Ok (r, t3) /\ GetRootWithNewLeaf sha256 x t1 = Ok r /\
    GetRootWithNewLeaves sha256 (xs ++ [x]) t = Ok r /\ tree_inv sha256 (l ++ xs ++ [x]) t3.
Proof.
  intros Hlen Hinv Hxs Hz. rewrite zlen_app in Hz. change (zlen [x]) with 1 in Hz.
  apply Forall_app in Hxs as [Hxs Hx]. inversion Hx; subst.
  destruct (append_all_inv sha256 Hlen xs l t Hinv Hxs) as (t1 & E1 & I1 & _); [lia|].
  destruct (AppendHash_inv sha256 Hlen (l ++ xs) t1 x I1) as (t2 & E2 & I2 & _); [assumption | rewrite zlen_app; lia |].
  rewrite <- app_assoc in I2. destruct (Root_inv sha256 _ t2 I2) as (t3 & E3 & I3 & _).
  exists t1, t2, t3, (mth sha256 (l ++ xs ++ [x])). split; [exact E1|]. split; [exact E2|]. split; [exact E3|].
  split; [rewrite (GetRootWithNewLeaf_mth sha256 (l ++ xs)), <- app_assoc by exact I1; reflexivity|].
  split; [|exact I3]. unfold GetRootWithNewLeaves.
  destruct (append_all_inv sha256 Hlen (xs ++ [x]) l (cloneMem t)) as (t4 & E4 & I4 & _).
  - apply cloneMem_inv, Hinv.
  - apply Forall_app; auto.
  - rewrite zlen_app. exact Hz.
  - rewrite E4. cbn [res_bind]. destruct (Root_inv sha256 _ t4 I4) as (t5 & E5 & _). rewrite E5. reflexivity.
Qed.

Lemma root_with_new_leaves_witness :
  exists t : @CompactMerkleTree MemStore.memHashStore, tree_inv toy_hash toy_leaves t /\
  exists t1 t2 t3 r, append_all toy_hash [toy_leaf x08] t = Ok t1 /\
    AppendHash toy_hash (toy_leaf x09) t1 = Ok (rev (hashes t1), t2) /\
    Root toy_hash t2 = Ok (r, t3) /\ GetRootWithNewLeaf toy_hash (toy_leaf x09) t1 = Ok r /\
    GetRootWithNewLeaves toy_hash ([toy_leaf x08] ++ [toy_leaf x09]) t = Ok r /\
    tree_inv toy_hash (toy_leaves ++ [toy_leaf x08] ++ [toy_leaf x09]) t3.
Proof.
  destruct toy_tree_inv as (t & s & E & Es & Hinv). exists t. split; [exact Hinv|].
  apply (root_with_new_leaves toy_hash toy_leaves t [toy_leaf x08] (toy_leaf x09) toy_hash_len Hinv);
    [repeat constructor | reflexivity].
Defined.

(** [UnMarshal] of the bytes [Marshal] writes restores a tree of the same
    leaves: same size, same subtree roots, invariant kept; a shorter buffer is
    refused. *)
Theorem marshal_roundtrip {S} `{HS : HashStore S} sha256 l (t t0 : @CompactMerkleTree S) :
  (forall bs, hash_ok (sha256 bs)) -> tree_inv sha256 l t -> hashStore t0 = hashStore t ->
  exists t', UnMarshal (Marshal t) t0 = Ok t' /\ tree_inv sha256 l t' /\
    hashes t' = hashes t /\ treeSize t' = treeSize t /\
    forall k, 4 <= k < zlen (Marshal t) -> UnMarshal (take (Z.to_nat k) (Marshal t)) t0 = Err "Too short input buf length".
Proof.
  intros Hlen (Hsz & Hhs & Hr & Hst & Hok & Hb) Es. pose proof (zlen_nonneg l).
  pose proof (peaks_ok sha256 Hlen l Hok) as Hpk. rewrite <- Hhs in Hpk.
  assert (Hcb : countBit (treeSize t) = zlen (hashes t)) by (rewrite Hsz, Hhs; apply countBit_peaks; words).
  set (pre := rev (z2le 4 (treeSize t))).
  assert (Hpre : zlen pre = 4) by (unfold zlen, pre; rewrite length_rev, length_z2le; reflexivity).
  assert (Hm : zlen (Marshal t) = 4 + zlen (hashes t) * 32).
  { unfold Marshal. fold pre. rewrite zlen_app, FileStore.zlen_concat32 by exact Hpk.
    change (@zlen (list byte) (hashes t)) with (@zlen Uint256 (hashes t)). lia. }
  assert (Hslice : forall k, 4 <= k -> slice (take (Z.to_nat k) (Marshal t)) 0 4 = Some pre).
  { intros k Hk. unfold Marshal. fold pre. rewrite take_app_ge by (unfold zlen in Hpre; lia).
    pose proof (slice_middle [] pre (take (Z.to_nat k - length pre) (concat (hashes t)))) as Hsl.
    rewrite Hpre in Hsl. exact Hsl. }
  assert (Hle : le2z (rev pre) = treeSize t).
  { unfold pre. rewrite rev_involutive, le2z_z2le. apply Z.mod_small. rewrite Hsz. change (256 ^ Z.of_nat 4) with (2 ^ 32). words. }
  exists (mkTree (lowBit (treeSize t)) (hashes t) (hashStore t0) EMPTY_HASH (treeSize t)).
  split; [|split; [|split; [reflexivity|split; [reflexivity|]]]].
  - unfold UnMarshal. pose proof (Hslice (zlen (Marshal t))) as Hs1. unfold zlen at 2 in Hs1.
    rewrite Nat2Z.id, firstn_all in Hs1. pose proof (zlen_nonneg (hashes t)).
    rewrite Hs1, Hle, Hcb, Hm, Z.ltb_irrefl by lia.
    unfold Marshal. fold pre. replace 4%nat with (length pre) by (unfold zlen in Hpre; lia).
    rewrite drop_app_length. unfold zlen at 1. rewrite Nat2Z.id, read_hashes_concat by exact Hpk.
    unfold update. rewrite Hcb, Z.eqb_refl. reflexivity.
  - unfold tree_inv; cbn [treeSize hashes rootHash hashStore]. rewrite Es. auto 8.
  - intros k Hk. unfold UnMarshal. rewrite Hslice, Hle, Hcb by lia.
    rewrite (proj2 (Z.ltb_lt _ _)); [reflexivity|]. unfold zlen at 1. rewrite length_take. unfold zlen in *. lia.
Qed.

Lemma marshal_roundtrip_witness :
  exists t t' : @CompactMerkleTree MemStore.memHashStore, tree_inv toy_hash toy_leaves t /\ UnMarshal (Marshal t) t = Ok t' /\ tree_inv toy_hash toy_leaves t'.
Proof.
  destruct toy_tree_inv as (t & s & E & Es & Hinv).
  destruct (marshal_roundtrip toy_hash toy_leaves t t toy_hash_len Hinv eq_refl) as (t' & E' & I' & _).
  exists t, t'. auto.
Defined.
