(* ===== verification/IntValue.v ===== *)
(** * NeoVM integers: [vm/neovm/types/int_value.go]

    [IntValue] holds an [int64] when the number fits and a [*big.Int] otherwise.
    The arithmetic of [int64] with overflow detection comes from the package
    github.com/JohnCGriffin/overflow; it is the class [Overflow] here, with the
    documented contract: the flag says whether the exact result is an [int64]
    and then the value is exact. *)

From S2P Require Import Prelude BigInt.

Definition ERR_BAD_VALUE : gerror := "bad value".
Definition ERR_BAD_TYPE : gerror := "bad type".
Definition ERR_INTEGER_UNDERFLOW : gerror := "integer underflow".
Definition ERR_SHIFT_BY_NEG : gerror := "shift by negtive value".
Definition ERR_DIV_MOD_BY_ZERO : gerror := "div or mod by zero".
Definition ERR_OVER_MAX_BIGINTEGER_SIZE : gerror := "the biginteger over max size 32bit".

Definition MAX_INT_SIZE : Z := 32.

Record IntValue := mkInt { isbig : bool; integer : Z; bigint : Z }.
#[global] Instance IntValue_eq_dec : EqDecision IntValue.
Proof. solve_decision. Defined.

(** The zero value [IntValue{}]. *)
Definition IntZero : IntValue := mkInt false 0 0.

Definition is_int64 (z : Z) : bool := (MinInt64 <=? z) && (z <=? MaxInt64).
Definition is_uint64 (z : Z) : bool := (0 <=? z) && (z <=? MAX_UINT64).

(** [None] is the nil pointer. *)
Definition IntValFromBigInt (val : option Z) : res IntValue :=
  match val with
  | None => Err ERR_BAD_VALUE
  | Some v =>
      if MAX_INT_SIZE <? zlen (big_Bytes v) then Err ERR_OVER_MAX_BIGINTEGER_SIZE
      else if is_int64 v then Ok (mkInt false v 0) else Ok (mkInt true 0 v)
  end.

Definition IntValFromNeoBytes (val : list byte) : res IntValue :=
  IntValFromBigInt (Some (BigIntFromNeoBytes val)).

Definition IntValFromInt (val : Z) : IntValue := mkInt false val 0.

(** The [*big.Int] of an [IntValue]. *)
Definition big_of (self : IntValue) : Z := if isbig self then bigint self else integer self.

Definition ToNeoBytes (self : IntValue) : list byte := BigIntToNeoBytes (big_of self).

Definition IsZero (self : IntValue) : bool :=
  if isbig self then Z.sgn (bigint self) =? 0 else integer self =? 0.

Definition Sign (self : IntValue) : Z :=
  if isbig self then Z.sgn (bigint self)
  else if integer self <? 0 then -1 else if integer self =? 0 then 0 else 1.

(** [big.Int.Cmp] *)
Definition big_Cmp (a b : Z) : Z := match a ?= b with Lt => -1 | Eq => 0 | Gt => 1 end.

(** The shift count, shared by [Rsh] and [Lsh]. *)
Definition shift_count (other : IntValue) : res Z :=
  if negb (isbig other) then
    if integer other <? 0 then Err ERR_SHIFT_BY_NEG else Ok (u64 (integer other))
  else if negb (is_uint64 (bigint other)) then Err ERR_SHIFT_BY_NEG else Ok (bigint other).

Definition Rsh (self other : IntValue) : res IntValue :=
  let* val := shift_count other in
  if MAX_INT_SIZE * 8 <? val then
    if Sign self <? 0 then Ok (IntValFromInt (-1)) else Ok IntZero
  else IntValFromBigInt (Some (Z.shiftr (big_of self) val)).

Definition Lsh (self other : IntValue) : res IntValue :=
  let* val := shift_count other in
  if MAX_INT_SIZE * 8 <? val then Err ERR_OVER_MAX_BIGINTEGER_SIZE
  else IntValFromBigInt (Some (Z.shiftl (big_of self) val)).

Definition intOp (self other : IntValue) (littleintFunc : Z -> Z -> Z * bool)
    (bigintFunc : Z -> Z -> res IntValue) : res IntValue :=
  if negb (isbig self) && negb (isbig other) then
    let '(val, ok) := littleintFunc (integer self) (integer other) in
    if ok : bool then Ok (IntValFromInt val) else bigintFunc (big_of self) (big_of other)
  else bigintFunc (big_of self) (big_of other).

Definition Max (self other : IntValue) : res IntValue :=
  intOp self other (fun a b => (if a <? b then b else a, true))
    (fun a b => IntValFromBigInt (Some (if big_Cmp a b <=? 0 then b else a))).

Definition Min (self other : IntValue) : res IntValue :=
  intOp self other (fun a b => (if a <? b then a else b, true))
    (fun a b => IntValFromBigInt (Some (if big_Cmp a b <=? 0 then a else b))).

Definition Xor (self other : IntValue) : res IntValue :=
  intOp self other (fun a b => (Z.lxor a b, true)) (fun a b => IntValFromBigInt (Some (Z.lxor a b))).
Definition And (self other : IntValue) : res IntValue :=
  intOp self other (fun a b => (Z.land a b, true)) (fun a b => IntValFromBigInt (Some (Z.land a b))).
Definition Or (self other : IntValue) : res IntValue :=
  intOp self other (fun a b => (Z.lor a b, true)) (fun a b => IntValFromBigInt (Some (Z.lor a b))).

Definition Cmp (self other : IntValue) : Z :=
  if negb (isbig self) && negb (isbig other) then
    if integer self <? integer other then -1 else if integer self =? integer other then 0 else 1
  else big_Cmp (big_of self) (big_of other).

(** [^x] of an [int64] and [big.Int.Not]. *)
Definition Not (self : IntValue) : IntValue :=
  if isbig self then mkInt true 0 (Z.lnot (bigint self)) else mkInt false (Z.lnot (integer self)) 0.

Definition Abs (self : IntValue) : IntValue :=
  if isbig self then mkInt true 0 (Z.abs (bigint self))
  else if integer self =? MinInt64 then mkInt true 0 (Z.abs (integer self))
  else if integer self <? 0 then mkInt false (s64 (- integer self)) 0
  else mkInt false (integer self) 0.

(** [a % b] and [a / b] on [int64] truncate, and the quotient wraps. *)
Definition Mod (self other : IntValue) : res IntValue :=
  if IsZero other then Err ERR_DIV_MOD_BY_ZERO
  else intOp self other (fun a b => (s64 (Z.rem a b), true)) (fun a b => IntValFromBigInt (Some (Z.rem a b))).

Definition Div (self other : IntValue) : res IntValue :=
  if IsZero other then Err ERR_DIV_MOD_BY_ZERO
  else intOp self other (fun a b => (s64 (Z.quot a b), true)) (fun a b => IntValFromBigInt (Some (Z.quot a b))).

Class Overflow := {
  Mul64 : Z -> Z -> Z * bool;
  Add64 : Z -> Z -> Z * bool;
  Sub64 : Z -> Z -> Z * bool;
  Mul64_spec : forall a b, is_s64 a -> is_s64 b ->
    (snd (Mul64 a b) = true <-> is_s64 (a * b)) /\ (snd (Mul64 a b) = true -> fst (Mul64 a b) = a * b);
  Add64_spec : forall a b, is_s64 a -> is_s64 b ->
    (snd (Add64 a b) = true <-> is_s64 (a + b)) /\ (snd (Add64 a b) = true -> fst (Add64 a b) = a + b);
  Sub64_spec : forall a b, is_s64 a -> is_s64 b ->
    (snd (Sub64 a b) = true <-> is_s64 (a - b)) /\ (snd (Sub64 a b) = true -> fst (Sub64 a b) = a - b)
}.

Section Ops.
Context `{Overflow}.

Definition Mul (self other : IntValue) : res IntValue :=
  intOp self other Mul64 (fun a b => IntValFromBigInt (Some (a * b))).
Definition Add (self other : IntValue) : res IntValue :=
  intOp self other Add64 (fun a b => IntValFromBigInt (Some (a + b))).
Definition Sub (self other : IntValue) : res IntValue :=
  intOp self other Sub64 (fun a b => IntValFromBigInt (Some (a - b))).

End Ops.

(** ** Invariant and specification *)

(** Small numbers are stored as [int64], all others as [*big.Int]; a value has
    at most 32 bytes. *)
Definition fits (z : Z) : Prop := Z.abs z < 2 ^ 256.
Definition norm (v : IntValue) : Prop :=
  if isbig v then ~ is_s64 (bigint v) else is_s64 (integer v).
Definition int_wf (v : IntValue) : Prop := norm v /\ fits (big_of v).

(** [spec_of z r]: [r] is the value [z] when it fits, and the size error
    otherwise. *)
Definition spec_of (z : Z) (r : res IntValue) : Prop :=
  (fits z -> exists v, r = Ok v /\ int_wf v /\ big_of v = z) /\
  (~ fits z -> r = Err ERR_OVER_MAX_BIGINTEGER_SIZE).

Lemma is_int64_spec z : is_int64 z = true <-> is_s64 z.
Proof. unfold is_int64. rewrite andb_true_iff, !Z.leb_le. words. Qed.

Lemma s64_fits z : is_s64 z -> fits z.
Proof. unfold is_s64, fits. intros H. assert (2 ^ 63 <= 2 ^ 255) by (apply Z.pow_le_mono_r; lia).
  change (2 ^ 256) with (2 * 2 ^ 255). lia. Qed.

Lemma nbytes_fits z : nbytes z <= 32 <-> fits z.
Proof.
  unfold fits. split; intros Hz.
  - pose proof (nbytes_upper z). pose proof (nbytes_nonneg z).
    assert (256 ^ nbytes z <= 256 ^ 32) by (apply Z.pow_le_mono_r; lia). change (2 ^ 256) with (256 ^ 32). lia.
  - destruct (Z.eq_dec z 0) as [->|N]; [unfold nbytes; simpl; lia|].
    destruct (Z.le_gt_cases (nbytes z) 32) as [|G]; [assumption|]. pose proof (nbytes_lower z N).
    assert (256 ^ 32 <= 256 ^ (nbytes z - 1)) by (apply Z.pow_le_mono_r; lia).
    change (2 ^ 256) with (256 ^ 32) in Hz. lia.
Qed.

Lemma IntValFromBigInt_spec z : spec_of z (IntValFromBigInt (Some z)).
Proof.
  unfold spec_of, IntValFromBigInt. rewrite zlen_big_Bytes. unfold MAX_INT_SIZE. rewrite <- nbytes_fits.
  destruct (Z.ltb_spec 32 (nbytes z)); [split; intros; [lia | reflexivity]|].
  split; [|lia]. intros Hf. pose proof (is_int64_spec z) as Hi. unfold int_wf, norm, big_of.
  destruct (is_int64 z); eexists; (split; [reflexivity|]); cbn [isbig integer bigint]; (split; [split|]);
    try apply nbytes_fits; auto; try tauto. intros Hs. apply Hi in Hs. discriminate.
Qed.

Lemma IntValFromInt_wf z : is_s64 z -> int_wf (IntValFromInt z) /\ big_of (IntValFromInt z) = z.
Proof. intros. repeat split; try (apply s64_fits; assumption); apply H. Qed.

(** The shape of all binary operations. *)
Lemma intOp_spec f little a b :
  int_wf a -> int_wf b ->
  (forall x y, is_s64 x -> is_s64 y -> x = big_of a -> y = big_of b ->
    (snd (little x y) = true -> is_s64 (f x y) /\ fst (little x y) = f x y)) ->
  spec_of (f (big_of a) (big_of b)) (intOp a b little (fun x y => IntValFromBigInt (Some (f x y)))).
Proof.
  intros [Na _] [Nb _] Hl. unfold intOp.
  destruct (negb (isbig a) && negb (isbig b)) eqn:E; [|apply IntValFromBigInt_spec].
  apply andb_true_iff in E as [Ea Eb]. apply negb_true_iff in Ea, Eb.
  unfold norm in Na, Nb. rewrite Ea in Na. rewrite Eb in Nb.
  assert (Ba : big_of a = integer a) by (unfold big_of; rewrite Ea; reflexivity).
  assert (Bb : big_of b = integer b) by (unfold big_of; rewrite Eb; reflexivity).
  specialize (Hl _ _ Na Nb (eq_sym Ba) (eq_sym Bb)).
  destruct (little (integer a) (integer b)) as [v ok]. cbn [fst snd] in Hl.
  destruct ok; [|apply IntValFromBigInt_spec]. destruct (Hl eq_refl) as [Hs ->]. rewrite Ba, Bb.
  destruct (IntValFromInt_wf _ Hs) as [W E]. split; [eauto|]. intros N. destruct N. apply s64_fits, Hs.
Qed.

(** An [int64] is a number whose bits from 63 on are all equal. *)
Lemma s64_shiftr z : is_s64 z <-> Z.shiftr z 63 = 0 \/ Z.shiftr z 63 = -1.
Proof. rewrite Z.shiftr_div_pow2 by lia. split; intros H; words. Qed.

Lemma bitop_s64 (op : Z -> Z -> Z) a b :
  (forall x y n, Z.shiftr (op x y) n = op (Z.shiftr x n) (Z.shiftr y n)) ->
  (forall x y, (x = 0 \/ x = -1) -> (y = 0 \/ y = -1) -> op x y = 0 \/ op x y = -1) ->
  is_s64 a -> is_s64 b -> is_s64 (op a b).
Proof. intros Hsh Hop Ha Hb. rewrite s64_shiftr in *. rewrite Hsh. auto. Qed.

Lemma land_s64 a b : is_s64 a -> is_s64 b -> is_s64 (Z.land a b).
Proof. apply bitop_s64; [intros; apply Z.shiftr_land | intros x y [->| ->] [->| ->]; auto]. Qed.
Lemma lor_s64 a b : is_s64 a -> is_s64 b -> is_s64 (Z.lor a b).
Proof. apply bitop_s64; [intros; apply Z.shiftr_lor | intros x y [->| ->] [->| ->]; auto]. Qed.
Lemma lxor_s64 a b : is_s64 a -> is_s64 b -> is_s64 (Z.lxor a b).
Proof. apply bitop_s64; [intros; apply Z.shiftr_lxor | intros x y [->| ->] [->| ->]; auto]. Qed.

Lemma big_Cmp_max a b : (if big_Cmp a b <=? 0 then b else a) = Z.max a b.
Proof. unfold big_Cmp, Z.max. destruct (Z.compare_spec a b); simpl; lia. Qed.
Lemma big_Cmp_min a b : (if big_Cmp a b <=? 0 then a else b) = Z.min a b.
Proof. unfold big_Cmp, Z.min. destruct (Z.compare_spec a b); simpl; lia. Qed.
Lemma ltb_max a b : (if a <? b then b else a) = Z.max a b.
Proof. destruct (Z.ltb_spec a b); lia. Qed.
Lemma ltb_min a b : (if a <? b then a else b) = Z.min a b.
Proof. destruct (Z.ltb_spec a b); lia. Qed.

(** [spec_of] respects equality of the specified number and of the code. *)
Lemma spec_of_eq z z' r r' : z = z' -> r = r' -> spec_of z r -> spec_of z' r'.
Proof. intros -> ->. auto. Qed.

Lemma intOp_ext a b l l' f f' :
  (forall x y, l x y = l' x y) -> (forall x y, f x y = f' x y) -> intOp a b l f = intOp a b l' f'.
Proof. intros Hl Hf. unfold intOp. rewrite Hl, !Hf. reflexivity. Qed.

Lemma Max_spec a b : int_wf a -> int_wf b -> spec_of (Z.max (big_of a) (big_of b)) (Max a b).
Proof.
  intros Wa Wb. unfold Max.
  rewrite (intOp_ext a b _ (fun x y => (Z.max x y, true)) _ (fun x y => IntValFromBigInt (Some (Z.max x y))))
    by (intros; rewrite ?ltb_max, ?big_Cmp_max; reflexivity).
  apply intOp_spec; auto. intros x y Hx Hy _ _ _. split; [words | reflexivity].
Qed.

Lemma Min_spec a b : int_wf a -> int_wf b -> spec_of (Z.min (big_of a) (big_of b)) (Min a b).
Proof.
  intros Wa Wb. unfold Min.
  rewrite (intOp_ext a b _ (fun x y => (Z.min x y, true)) _ (fun x y => IntValFromBigInt (Some (Z.min x y))))
    by (intros; rewrite ?ltb_min, ?big_Cmp_min; reflexivity).
  apply intOp_spec; auto. intros x y Hx Hy _ _ _. split; [words | reflexivity].
Qed.

Lemma Cmp_spec a b : int_wf a -> int_wf b -> Cmp a b = big_Cmp (big_of a) (big_of b).
Proof.
  intros _ _. unfold Cmp, big_of, big_Cmp.
  destruct (isbig a), (isbig b); cbn [negb andb]; try reflexivity.
  destruct (Z.compare_spec (integer a) (integer b)), (Z.ltb_spec (integer a) (integer b)),
    (Z.eqb_spec (integer a) (integer b)); lia.
Qed.

Lemma Abs_spec a : int_wf a -> int_wf (Abs a) /\ big_of (Abs a) = Z.abs (big_of a).
Proof.
  intros [Na Fa]. unfold Abs, int_wf, norm, fits, big_of in *.
  destruct (isbig a); cbn [isbig integer bigint]; [repeat split; words|].
  destruct (Z.eqb_spec (integer a) MinInt64) as [E|E]; cbn [isbig integer bigint];
    [rewrite E in *; repeat split; words|].
  destruct (Z.ltb_spec (integer a) 0); cbn [isbig integer bigint].
  - rewrite s64_small by words. repeat split; words.
  - repeat split; words.
Qed.

Lemma Not_spec a : int_wf a ->
  norm (Not a) /\ big_of (Not a) = - big_of a - 1 /\ (big_of a <> 2 ^ 256 - 1 -> int_wf (Not a)).
Proof.
  intros [Na Fa]. unfold Not, int_wf, norm, fits, big_of in *.
  destruct (isbig a); cbn [isbig integer bigint]; rewrite ?Z.lnot_eq_pred_opp; repeat split; words.
Qed.

Lemma IsZero_spec a : IsZero a = (big_of a =? 0).
Proof.
  unfold IsZero, big_of. destruct (isbig a); [|reflexivity].
  destruct (Z.eqb_spec (bigint a) 0), (Z.eqb_spec (Z.sgn (bigint a)) 0); auto; lia.
Qed.

Lemma Sign_spec a : Sign a = Z.sgn (big_of a).
Proof.
  unfold Sign, big_of. destruct (isbig a); [reflexivity|].
  destruct (Z.ltb_spec (integer a) 0), (Z.eqb_spec (integer a) 0); lia.
Qed.

Lemma quot_s64 a b : is_s64 a -> is_s64 b -> b <> 0 -> ~ (a = MinInt64 /\ b = -1) -> is_s64 (Z.quot a b).
Proof.
  intros Ha Hb Hn Hc. pose proof (Z.quot_rem' a b). pose proof (Z.rem_bound_abs a b Hn).
  unfold is_s64, MinInt64 in *.
  assert (Hq : Z.abs (Z.quot a b) <= Z.abs a).
  { rewrite <- Z.quot_abs by lia. apply Z.quot_le_upper_bound; [lia|]. nia. }
  destruct (Z.eq_dec (Z.quot a b) (2 ^ 63)) as [E|]; [|lia].
  assert (a = - 2 ^ 63) as -> by lia. exfalso. apply Hc. split; [reflexivity|].
  rewrite E in *. nia.
Qed.

Lemma rem_s64 a b : is_s64 a -> is_s64 b -> b <> 0 -> is_s64 (Z.rem a b).
Proof. intros Ha Hb Hn. pose proof (Z.rem_bound_abs a b Hn). unfold is_s64 in *. lia. Qed.

Lemma shift_count_spec b : int_wf b ->
  shift_count b = if (0 <=? big_of b) && (big_of b <? 2 ^ 64) then Ok (big_of b) else Err ERR_SHIFT_BY_NEG.
Proof.
  intros [Nb _]. unfold shift_count, big_of, norm, is_uint64, MAX_UINT64 in *.
  destruct (isbig b); cbn [negb].
  - destruct (Z.leb_spec 0 (bigint b)), (Z.leb_spec (bigint b) (2 ^ 64 - 1)), (Z.ltb_spec (bigint b) (2 ^ 64));
      cbn [andb negb]; try reflexivity; lia.
  - destruct (Z.ltb_spec (integer b) 0), (Z.leb_spec 0 (integer b)), (Z.ltb_spec (integer b) (2 ^ 64));
      cbn [andb]; try lia; try reflexivity; [rewrite u64_small by words; reflexivity | words].
Qed.

(** Numbers of at most 32 bytes vanish when shifted by more than 256. *)
Lemma shiftr_small z n : fits z -> 256 < n -> Z.shiftr z n = if z <? 0 then -1 else 0.
Proof.
  unfold fits. intros Hz Hn. rewrite Z.shiftr_div_pow2 by lia.
  assert (2 ^ 256 <= 2 ^ n) by (apply Z.pow_le_mono_r; lia).
  destruct (Z.ltb_spec z 0); [|apply Z.div_small; lia].
  symmetry. apply (Z.div_unique _ _ _ (z + 2 ^ n)); lia.
Qed.

(** Division and remainder truncate toward zero and are exact except for one
    pair, whose quotient wraps to the dividend; a zero divisor is an error. *)
Lemma division_spec a b :
  int_wf a -> int_wf b ->
  (big_of b = 0 -> Div a b = Err ERR_DIV_MOD_BY_ZERO /\ Mod a b = Err ERR_DIV_MOD_BY_ZERO) /\
  (big_of b <> 0 -> spec_of (Z.rem (big_of a) (big_of b)) (Mod a b)) /\
  (big_of b <> 0 -> ~ (big_of a = MinInt64 /\ big_of b = -1) ->
    spec_of (Z.quot (big_of a) (big_of b)) (Div a b)) /\
  (big_of a = MinInt64 -> big_of b = -1 -> Div a b = Ok (IntValFromInt MinInt64)).
Proof.
  intros Wa Wb. unfold Div, Mod. rewrite IsZero_spec.
  split; [intros ->; auto|]. split; [|split]; intros Hb; [rewrite (proj2 (Z.eqb_neq _ _)) by exact Hb ..|].
  - apply (intOp_spec Z.rem); auto. intros x y Hx Hy -> -> _.
    pose proof (rem_s64 _ _ Hx Hy Hb). split; [assumption | apply s64_small; assumption].
  - intros Hc. apply (intOp_spec Z.quot); auto. intros x y Hx Hy -> -> _.
    pose proof (quot_s64 _ _ Hx Hy Hb Hc). split; [assumption | apply s64_small; assumption].
  - intros Hc. rewrite Hc. destruct Wa as [Na _], Wb as [Nb _]. unfold intOp, norm, big_of in *. destruct (isbig a); [rewrite Hb in Na; destruct Na; words|].
    destruct (isbig b); [rewrite Hc in Nb; destruct Nb; words|]. cbn [negb andb Z.eqb]. rewrite Hb, Hc. vm_compute. reflexivity.
Qed.

(** Shifts. A negative count or one of 64 bits or more is an error. A
    right shift is the floor of the division by the power of two, also when the
    count exceeds 256 and the code answers without shifting; a left shift is
    exact up to a count of 256 and the size error beyond it, even of 0. *)
Lemma shifts_spec a b :
  int_wf a -> int_wf b ->
  (~ 0 <= big_of b < 2 ^ 64 -> Rsh a b = Err ERR_SHIFT_BY_NEG /\ Lsh a b = Err ERR_SHIFT_BY_NEG) /\
  (0 <= big_of b < 2 ^ 64 -> spec_of (big_of a / 2 ^ big_of b) (Rsh a b)) /\
  (0 <= big_of b <= 256 -> spec_of (big_of a * 2 ^ big_of b) (Lsh a b)) /\
  (256 < big_of b < 2 ^ 64 -> Lsh a b = Err ERR_OVER_MAX_BIGINTEGER_SIZE).
Proof.
  intros [Na Fa] Wb. unfold Rsh, Lsh. rewrite shift_count_spec by exact Wb. change (MAX_INT_SIZE * 8) with 256.
  set (n := big_of b). destruct (Z.leb_spec 0 n), (Z.ltb_spec n (2 ^ 64)); cbn [andb res_bind];
    (split; [intros; first [lia | auto]|]); (split; [|split]); intros Hn; try lia.
  - rewrite Sign_spec. destruct (Z.ltb_spec 256 n) as [G|G].
    + rewrite <- Z.shiftr_div_pow2, shiftr_small by (assumption || lia).
      destruct (Z.ltb_spec (big_of a) 0), (Z.ltb_spec (Z.sgn (big_of a)) 0); try lia.
      * destruct (IntValFromInt_wf (-1)) as [W E]; [words|]. split; [eauto|]. intros N. destruct N. apply s64_fits. words.
      * destruct (IntValFromInt_wf 0) as [W E]; [words|]. split; [eauto|]. intros N. destruct N. apply s64_fits. words.
    + rewrite <- Z.shiftr_div_pow2 by lia. apply IntValFromBigInt_spec.
  - rewrite (proj2 (Z.ltb_ge 256 n)), <- Z.shiftl_mul_pow2 by lia. apply IntValFromBigInt_spec.
  - rewrite (proj2 (Z.ltb_lt 256 n)) by lia. reflexivity.
Qed.

Section Spec.
Context `{Overflow}.

Lemma Add_spec a b : int_wf a -> int_wf b -> spec_of (big_of a + big_of b) (Add a b).
Proof.
  intros. apply (intOp_spec Z.add); auto. intros x y Hx Hy _ _ E.
  destruct (Add64_spec x y Hx Hy) as [[? _] ?]. auto.
Qed.
Lemma Sub_spec a b : int_wf a -> int_wf b -> spec_of (big_of a - big_of b) (Sub a b).
Proof.
  intros. apply (intOp_spec Z.sub); auto. intros x y Hx Hy _ _ E.
  destruct (Sub64_spec x y Hx Hy) as [[? _] ?]. auto.
Qed.
Lemma Mul_spec a b : int_wf a -> int_wf b -> spec_of (big_of a * big_of b) (Mul a b).
Proof.
  intros. apply (intOp_spec Z.mul); auto. intros x y Hx Hy _ _ E.
  destruct (Mul64_spec x y Hx Hy) as [[? _] ?]. auto.
Qed.

(** C25: the operations on NeoVM integers.  Addition, subtraction, multiplication, the bitwise operations, maximum and minimum return the
    mathematical result, normalised and of at most 32 bytes, or the size error when the result is larger; comparison is the order of the
    numbers, and the absolute value is exact.  Division and remainder truncate toward zero, fail on a zero divisor, and are
    exact but for the smallest [int64] divided by [-1], whose quotient wraps to the dividend.  A shift by a negative count or by one of more than
    64 bits is an error; a right shift is the floor of the division by the power of two; a left shift is exact up to a count
    of 256 and the size error beyond.  [Not] is exact, and within the size limit except for the complement of [2^256 - 1]: it makes no size check. *)
Theorem int_operations_exact a b :
  int_wf a -> int_wf b ->
  (spec_of (big_of a + big_of b) (Add a b) /\ spec_of (big_of a - big_of b) (Sub a b) /\
   spec_of (big_of a * big_of b) (Mul a b) /\
   spec_of (Z.land (big_of a) (big_of b)) (And a b) /\ spec_of (Z.lor (big_of a) (big_of b)) (Or a b) /\
   spec_of (Z.lxor (big_of a) (big_of b)) (Xor a b) /\
   spec_of (Z.max (big_of a) (big_of b)) (Max a b) /\ spec_of (Z.min (big_of a) (big_of b)) (Min a b) /\
   Cmp a b = big_Cmp (big_of a) (big_of b) /\ (int_wf (Abs a) /\ big_of (Abs a) = Z.abs (big_of a))) /\
  ((big_of b = 0 -> Div a b = Err ERR_DIV_MOD_BY_ZERO /\ Mod a b = Err ERR_DIV_MOD_BY_ZERO) /\
   (big_of b <> 0 -> spec_of (Z.rem (big_of a) (big_of b)) (Mod a b)) /\
   (big_of b <> 0 -> ~ (big_of a = MinInt64 /\ big_of b = -1) -> spec_of (Z.quot (big_of a) (big_of b)) (Div a b)) /\
   (big_of a = MinInt64 -> big_of b = -1 -> Div a b = Ok (IntValFromInt MinInt64))) /\
  ((~ 0 <= big_of b < 2 ^ 64 -> Rsh a b = Err ERR_SHIFT_BY_NEG /\ Lsh a b = Err ERR_SHIFT_BY_NEG) /\
   (0 <= big_of b < 2 ^ 64 -> spec_of (big_of a / 2 ^ big_of b) (Rsh a b)) /\
   (0 <= big_of b <= 256 -> spec_of (big_of a * 2 ^ big_of b) (Lsh a b)) /\
   (256 < big_of b < 2 ^ 64 -> Lsh a b = Err ERR_OVER_MAX_BIGINTEGER_SIZE)) /\
  (norm (Not a) /\ big_of (Not a) = - big_of a - 1 /\ (big_of a <> 2 ^ 256 - 1 -> int_wf (Not a))).
Proof.
  intros Wa Wb. split; [|split; [exact (division_spec a b Wa Wb) | split; [exact (shifts_spec a b Wa Wb) | exact (Not_spec a Wa)]]].
  split; [apply Add_spec; auto|]. split; [apply Sub_spec; auto|]. split; [apply Mul_spec; auto|].
  split; [apply (intOp_spec Z.land); auto; intros; split; [apply land_s64; auto | reflexivity]|].
  split; [apply (intOp_spec Z.lor); auto; intros; split; [apply lor_s64; auto | reflexivity]|].
  split; [apply (intOp_spec Z.lxor); auto; intros; split; [apply lxor_s64; auto | reflexivity]|].
  split; [apply Max_spec; auto|]. split; [apply Min_spec; auto|]. split; [apply Cmp_spec; auto | apply Abs_spec, Wa].
Qed.

End Spec.

(** The smallest [int64] divided by [-1] wraps around: [Div] takes the
    [int64] path, whose result is the dividend again, where the exact quotient
    [2^63] is a representable NeoVM integer. *)
Theorem int_division_wraps :
  Div (IntValFromInt MinInt64) (IntValFromInt (-1)) = Ok (IntValFromInt MinInt64) /\
  fits (Z.quot MinInt64 (-1)).
Proof. split; [vm_compute; reflexivity|]. unfold fits. vm_compute. reflexivity. Qed.

(** [Not] has no size check: the complement of the largest 32-byte number
    needs 33 bytes, and the next operation that reads it back fails. *)
Theorem Not_leaves_the_range :
  exists a, int_wf a /\ ~ fits (big_of (Not a)) /\
    IntValFromBigInt (Some (big_of (Not a))) = Err ERR_OVER_MAX_BIGINTEGER_SIZE.
Proof.
  exists (mkInt true 0 (2 ^ 256 - 1)). split; [|split].
  - unfold int_wf, norm, fits, is_s64. cbn [isbig bigint big_of]. vm_compute. intuition discriminate.
  - unfold fits. vm_compute. discriminate.
  - vm_compute. reflexivity.
Qed.

(** The reference implementation of the overflow checks. *)
Definition check64 (f : Z -> Z -> Z) (a b : Z) : Z * bool := (s64 (f a b), is_int64 (f a b)).

#[local] Instance overflow_ref : Overflow.
Proof.
  refine {| Mul64 := check64 Z.mul; Add64 := check64 Z.add; Sub64 := check64 Z.sub |};
    intros a b _ _; unfold check64; cbn [fst snd]; (split; [apply is_int64_spec|]);
    intros E; apply s64_small, is_int64_spec, E.
Defined.

(** The same on two numbers: the sum of the largest [int64] with itself needs a [*big.Int], [-7] is divided and shifted. *)
Lemma int_operations_exact_witness :
  spec_of (2 ^ 64 - 2) (Add (IntValFromInt MaxInt64) (IntValFromInt MaxInt64)) /\
  spec_of (-3) (Div (IntValFromInt (-7)) (IntValFromInt 2)) /\ spec_of (-2) (Rsh (IntValFromInt (-7)) (IntValFromInt 2)).
Proof.
  destruct (IntValFromInt_wf MaxInt64) as [Wm _]; [words|]. destruct (IntValFromInt_wf (-7)) as [Wa _]; [words|]. destruct (IntValFromInt_wf 2) as [Wb _]; [words|].
  destruct (int_operations_exact (IntValFromInt (-7)) (IntValFromInt 2) Wa Wb) as (_ & (_ & _ & Hd & _) & (_ & Hs & _) & _).
  destruct (int_operations_exact (IntValFromInt MaxInt64) (IntValFromInt MaxInt64) Wm Wm) as ((Ha & _) & _).
  split; [exact Ha|]. split; [apply Hd; [discriminate | intros [E _]; discriminate E] | apply Hs; split; [discriminate | reflexivity]].
Defined.
