(* ===== verification/VmValue.v ===== *)
(** * NeoVM values: [vm/neovm/types/neovm_value.go], [array_value.go],
    [struct_value.go], [map_value.go], [interop_value.go]

    Arrays, structs and maps are shared objects: a value holds a location of the
    heap, and every value with the same location sees an update.  Interop
    objects come from the node; they are a parameter with what the code uses of
    them, [ToArray] and deep equality. *)

From stdpp Require Import sorting.
From S2P Require Import Prelude Codec BigInt IntValue.

Definition ERR_OVER_MAX_ITEM_SIZE : gerror := "the item over max size".
Definition ERR_OVER_MAX_ARRAY_SIZE : gerror := "the array over max size".
Definition ERR_INDEX_OUT_OF_BOUND : gerror := "the index out of bound".

Definition MAX_BYTEARRAY_SIZE : Z := 1024 * 1024.
Definition MAX_ARRAY_SIZE : Z := 1024.
Definition MAX_STRUCT_DEPTH : nat := 10.
Definition MAX_CLONE_LENGTH : Z := 1024.

Class Interops := {
  Interop : Type;
  ToArray : Interop -> list byte;
  interop_deep_eq : Interop -> Interop -> bool
}.

Section Values.
Context `{Interops}.

Definition loc := nat.

(** [valType] with the field it selects. *)
Inductive VmValue :=
  | VBytes (byteArray : list byte)
  | VBool (b : bool)
  | VInt (integer : Z)
  | VBig (bigInt : Z)
  | VInterop (data : option Interop)
  | VArray (array : loc)
  | VStruct (structval : loc)
  | VMap (mapval : loc).

Inductive vm_type := ByteArrayType | BooleanType | IntegerType | InterfaceType | ArrayType | StructType | MapType.

(** The objects behind the pointers; [nil_data] tells a nil slice from an empty
    one (reflect.DeepEqual does, the other operations do not). *)
Inductive HObj :=
  | OArr (nil_data : bool) (data : list VmValue)
  | OStruct (nil_data : bool) (data : list VmValue)
  | OMap (data : gmap (list byte) (VmValue * VmValue)).

Record Heap := mkHeap { objs : gmap loc HObj; next : loc }.

Definition alloc (o : HObj) (h : Heap) : loc * Heap :=
  (next h, mkHeap (<[next h := o]> (objs h)) (S (next h))).
Definition store (l : loc) (o : HObj) (h : Heap) : Heap := mkHeap (<[l := o]> (objs h)) (next h).

(** A nil or ill-typed pointer panics. *)
Definition arr_data (h : Heap) (l : loc) : res (list VmValue) :=
  match objs h !! l with Some (OArr _ d) => Ok d | _ => Panic end.
Definition struct_data (h : Heap) (l : loc) : res (list VmValue) :=
  match objs h !! l with Some (OStruct _ d) => Ok d | _ => Panic end.
Definition map_data (h : Heap) (l : loc) : res (gmap (list byte) (VmValue * VmValue)) :=
  match objs h !! l with Some (OMap d) => Ok d | _ => Panic end.

(** ** Constructors *)

Definition VmValueFromInt64 (val : Z) : VmValue := VInt val.
Definition VmValueFromBytes (val : list byte) : res VmValue :=
  if MAX_BYTEARRAY_SIZE <? zlen val then Err ERR_OVER_MAX_ITEM_SIZE else Ok (VBytes val).
Definition VmValueFromBool (val : bool) : VmValue := VBool val.
Definition VmValueFromUint64 (val : Z) : VmValue :=
  if val <=? MaxInt64 then VmValueFromInt64 val else VBig val.
Definition VmValueFromIntValue (val : IntValue) : VmValue :=
  if isbig val then VBig (bigint val) else VInt (integer val).
Definition VmValueFromBigInt (val : option Z) : res VmValue :=
  let* value := IntValFromBigInt val in Ok (VmValueFromIntValue value).

(** ** Conversions *)

Definition AsBytes (self : VmValue) : res (list byte) :=
  match self with
  | VBool b => Ok [if b then x01 else x00]
  | VInt i => Ok (BigIntToNeoBytes i)
  | VBig z => Ok (BigIntToNeoBytes z)
  | VBytes b => Ok b
  | VArray _ | VMap _ | VStruct _ | VInterop _ => Err ERR_BAD_TYPE
  end.

Definition bool_int (b : bool) : Z := if b then 1 else 0.

Definition AsBigInt (self : VmValue) : res Z :=
  match self with
  | VInt i => Ok i
  | VBool b => Ok (bool_int b)
  | VBig z => Ok z
  | VBytes b => Ok (BigIntFromNeoBytes b)
  | VArray _ | VMap _ | VStruct _ | VInterop _ => Err ERR_BAD_TYPE
  end.

Definition AsIntValue (self : VmValue) : res IntValue :=
  match self with
  | VInt i => Ok (IntValFromInt i)
  | VBool b => Ok (IntValFromInt (bool_int b))
  | VBig z => IntValFromBigInt (Some z)
  | VBytes b => IntValFromNeoBytes b
  | VArray _ | VMap _ | VStruct _ | VInterop _ => Err ERR_BAD_TYPE
  end.

Definition AsInt64 (self : VmValue) : res Z :=
  let* val := AsIntValue self in
  if isbig val then
    if is_int64 (bigint val) then Ok (s64 (bigint val)) else Err ERR_INTEGER_UNDERFLOW
  else Ok (integer val).

Definition AsBool (self : VmValue) : res bool :=
  match self with
  | VInt i => Ok (negb (i =? 0))
  | VBool b => Ok (negb (bool_int b =? 0))
  | VBig z => Ok (negb (Z.sgn z =? 0))
  | VBytes bs => Ok (existsb (fun b => negb (bz b =? 0)) bs)
  | VStruct _ | VMap _ => Ok true
  | VArray _ => Err ERR_BAD_TYPE
  | VInterop d => Ok (match d with None => false | Some _ => true end)
  end.

Definition AsMapValue (self : VmValue) : res loc :=
  match self with VMap l => Ok l | _ => Err ERR_BAD_TYPE end.
Definition AsStructValue (self : VmValue) : res loc :=
  match self with VStruct l => Ok l | _ => Err ERR_BAD_TYPE end.
Definition AsArrayValue (self : VmValue) : res loc :=
  match self with VArray l => Ok l | _ => Err ERR_BAD_TYPE end.
Definition AsInteropValue (self : VmValue) : res (option Interop) :=
  match self with VInterop d => Ok d | _ => Err ERR_BAD_TYPE end.

Definition GetType (self : VmValue) : vm_type :=
  match self with
  | VInt _ | VBig _ => IntegerType
  | VBytes _ => ByteArrayType | VBool _ => BooleanType | VInterop _ => InterfaceType
  | VArray _ => ArrayType | VStruct _ => StructType | VMap _ => MapType
  end.

Definition GetMapKey (self : VmValue) : res (list byte) := AsBytes self.

(** ** Arrays, structs and maps *)

(** [Append] of [ArrayValue] and of [StructValue] on the slice. *)
Definition data_append (data : list VmValue) (item : VmValue) : res (list VmValue) :=
  if MAX_ARRAY_SIZE <=? zlen data then Err ERR_OVER_MAX_ARRAY_SIZE else Ok (data ++ [item]).

Definition ArrayAppend (l : loc) (item : VmValue) (h : Heap) : res Heap :=
  let* d := arr_data h l in
  let* d := data_append d item in Ok (store l (OArr false d) h).
Definition StructAppend (l : loc) (item : VmValue) (h : Heap) : res Heap :=
  let* d := struct_data h l in
  let* d := data_append d item in Ok (store l (OStruct false d) h).

Definition RemoveAt (l : loc) (index : Z) (h : Heap) : res Heap :=
  let* d := arr_data h l in
  if (index <? 0) || (zlen d <=? index) then Err ERR_INDEX_OUT_OF_BOUND
  else Ok (store l (OArr false (take (Z.to_nat index) d ++ drop (Z.to_nat (index + 1)) d)) h).

Definition MapSet (l : loc) (key value : VmValue) (h : Heap) : res Heap :=
  let* skey := GetMapKey key in
  let* m := map_data h l in
  Ok (store l (OMap (<[skey := (key, value)]> m)) h).
Definition MapRemove (l : loc) (key : VmValue) (h : Heap) : res Heap :=
  let* skey := GetMapKey key in
  let* m := map_data h l in
  Ok (store l (OMap (delete skey m)) h).
Definition MapGet (l : loc) (key : VmValue) (h : Heap) : res (option VmValue) :=
  let* skey := GetMapKey key in
  let* m := map_data h l in
  Ok (snd <$> m !! skey).

(** The order of Go strings. *)
Fixpoint bytes_leb (a b : list byte) : bool :=
  match a, b with
  | [], _ => true
  | _ :: _, [] => false
  | x :: a', y :: b' => (bz x <? bz y) || ((bz x =? bz y) && bytes_leb a' b')
  end.
Definition bytes_le (a b : list byte) : Prop := bytes_leb a b = true.
#[global] Instance bytes_le_dec : RelDecision bytes_le.
Proof. intros a b. unfold bytes_le. apply _. Defined.

Definition getMapSortedKey (m : gmap (list byte) (VmValue * VmValue)) : list (list byte) :=
  merge_sort bytes_le (fst <$> map_to_list m).

Definition GetMapSortedKey (m : gmap (list byte) (VmValue * VmValue)) : list VmValue :=
  omap (fun k => fst <$> m !! k) (getMapSortedKey m).
Definition GetValues (m : gmap (list byte) (VmValue * VmValue)) : list VmValue :=
  omap (fun k => snd <$> m !! k) (getMapSortedKey m).

(** [cloneStruct]: [length] counts the elements visited; a call nested [d] deep
    has [length >= d], so the recursion stops at depth [MAX_CLONE_LENGTH + 1].
    The loop over the elements takes the recursive call as an argument. *)
Fixpoint clone_items (rec : loc -> Z -> Heap -> res (loc * Z * Heap)) (data arr : list VmValue) (length : Z) (h : Heap)
    : res (list VmValue * Z * Heap) :=
  match data with
  | [] => Ok (arr, length, h)
  | v :: data' =>
      let length := length + 1 in
      match v with
      | VStruct temp =>
          let* '(vc, length, h) := rec temp length h in
          clone_items rec data' (arr ++ [VStruct vc]) length h
      | _ => clone_items rec data' (arr ++ [v]) length h
      end
  end.

Fixpoint cloneStruct (fuel : nat) (s : loc) (length : Z) (h : Heap) : res (loc * Z * Heap) :=
  match fuel with
  | O => Panic
  | S f =>
      if MAX_CLONE_LENGTH <? length then Err "over max struct clone length"
      else
        let* data := struct_data h s in
        let* '(arr, length, h) := clone_items (cloneStruct f) data [] length h in
        let '(l, h) := alloc (OStruct (match arr with [] => true | _ => false end) arr) h in
        Ok (l, length, h)
  end.

Definition clone_fuel : nat := 1027.
Definition StructClone (s : loc) (h : Heap) : res (loc * Heap) :=
  let* '(l, _, h) := cloneStruct clone_fuel s 0 h in Ok (l, h).

(** ** Equality

    [reflect.DeepEqual] on two struct pointers: pointers that are equal, or that
    are already being compared, are equal; otherwise the objects are compared
    field by field.  [vis] is the set of pairs compared so far, [fuel] bounds the
    nesting (every descent visits a new pair). *)

Definition canon (l1 l2 : loc) : loc * loc := if (l1 <=? l2)%nat then (l1, l2) else (l2, l1).
Definition visited := gset (loc * loc).

Fixpoint deep_seq (eq : visited -> VmValue -> VmValue -> option (bool * visited)) (vis : visited)
    (d1 d2 : list VmValue) : option (bool * visited) :=
  match d1, d2 with
  | [], [] => Some (true, vis)
  | x :: d1', y :: d2' =>
      match eq vis x y with
      | Some (true, vis) => deep_seq eq vis d1' d2'
      | r => r
      end
  | _, _ => Some (false, vis)
  end.

Definition deep_ptr (vis : visited) (l1 l2 : loc) (k : visited -> option (bool * visited)) : option (bool * visited) :=
  if decide (canon l1 l2 ∈ vis) then Some (true, vis)
  else if (l1 =? l2)%nat then Some (true, {[canon l1 l2]} ∪ vis)
  else k ({[canon l1 l2]} ∪ vis).

Definition deep_slices eq (n1 n2 : bool) (d1 d2 : list VmValue) (vis : visited) : option (bool * visited) :=
  if negb (Bool.eqb n1 n2) || negb (length d1 =? length d2)%nat then Some (false, vis) else deep_seq eq vis d1 d2.

(** The entries of the second map in the order of the first. *)
Fixpoint map_align (l1 : list (list byte * (VmValue * VmValue))) (m2 : gmap (list byte) (VmValue * VmValue))
    : option (list VmValue * list VmValue) :=
  match l1 with
  | [] => Some ([], [])
  | (k, (a, b)) :: l1' =>
      match m2 !! k, map_align l1' m2 with
      | Some (c, d), Some (x, y) => Some (a :: b :: x, c :: d :: y)
      | _, _ => None
      end
  end.

Fixpoint deep_eq (fuel : nat) (h : Heap) (vis : visited) (v1 v2 : VmValue) : option (bool * visited) :=
  match fuel with
  | O => None
  | S f =>
      match v1, v2 with
      | VBytes a, VBytes b => Some (bool_decide (a = b), vis)
      | VBool a, VBool b => Some (Bool.eqb a b, vis)
      | VInt a, VInt b | VBig a, VBig b => Some (a =? b, vis)
      | VInterop a, VInterop b =>
          Some (match a, b with Some x, Some y => interop_deep_eq x y | None, None => true | _, _ => false end, vis)
      | VArray l1, VArray l2 =>
          deep_ptr vis l1 l2 (fun vis =>
            match objs h !! l1, objs h !! l2 with
            | Some (OArr n1 d1), Some (OArr n2 d2) => deep_slices (deep_eq f h) n1 n2 d1 d2 vis
            | _, _ => Some (false, vis)
            end)
      | VStruct l1, VStruct l2 =>
          deep_ptr vis l1 l2 (fun vis =>
            match objs h !! l1, objs h !! l2 with
            | Some (OStruct n1 d1), Some (OStruct n2 d2) => deep_slices (deep_eq f h) n1 n2 d1 d2 vis
            | _, _ => Some (false, vis)
            end)
      | VMap l1, VMap l2 =>
          deep_ptr vis l1 l2 (fun vis =>
            match objs h !! l1, objs h !! l2 with
            | Some (OMap m1), Some (OMap m2) =>
                if negb (size m1 =? size m2)%nat then Some (false, vis)
                else match map_align (map_to_list m1) m2 with
                     | Some (d1, d2) => deep_seq (deep_eq f h) vis d1 d2
                     | None => Some (false, vis)
                     end
            | _, _ => Some (false, vis)
            end)
      | _, _ => Some (false, vis)
      end
  end.

Definition deep_fuel (h : Heap) : nat := S (size (objs h) * size (objs h)).

Definition DeepEqual (h : Heap) (v1 v2 : VmValue) : res bool :=
  match deep_eq (deep_fuel h) h ∅ v1 v2 with Some (b, _) => Ok b | None => Panic end.

(** [InteropValue.Equals] *)
Definition InteropEquals (a b : option Interop) : bool :=
  match a, b with Some x, Some y => bool_decide (ToArray x = ToArray y) | _, _ => false end.

Definition Equals (h : Heap) (self other : VmValue) : res bool :=
  match AsBytes self, AsBytes other with
  | Ok v1, Ok v2 => Ok (bool_decide (v1 = v2))
  | _, _ =>
      match self, other with
      | VMap l1, VMap l2 => Ok (l1 =? l2)%nat
      | VStruct _, VStruct _ => DeepEqual h self other
      | VArray l1, VArray l2 => Ok (l1 =? l2)%nat
      | VInterop a, VInterop b => Ok (InteropEquals a b)
      | _, _ => Ok false
      end
  end.

(** ** [CircularRefAndDepthDetection]

    The loops over the elements return in their first iteration; for a map the
    first element is whichever the iteration order of Go yields: [range] is that
    order, any list of the entries. *)
Definition MapOrder : Type := gmap (list byte) (VmValue * VmValue) -> list (list byte * (VmValue * VmValue)).

Fixpoint circularRef (range : MapOrder) (fuel : nat) (h : Heap) (vis : gset loc) (self : VmValue) : res bool :=
  match fuel with
  | O => Ok true (* depth > MAX_STRUCT_DEPTH *)
  | S f =>
      let first (p : loc) (d : list VmValue) : res bool :=
        match d with
        | [] => Ok false
        | v :: _ => if decide (p ∈ vis) then Ok true else circularRef range f h ({[p]} ∪ vis) v
        end in
      match self with
      | VArray p => let* d := arr_data h p in first p d
      | VStruct p => let* d := struct_data h p in first p d
      | VMap p =>
          let* m := map_data h p in
          if decide (p ∈ vis) then Ok true
          else match range m with
               | [] => Ok false
               | (_, (_, v)) :: _ => circularRef range f h ({[p]} ∪ vis) v
               end
      | _ => Ok false
      end
  end.

Definition CircularRefAndDepthDetection (range : MapOrder) (h : Heap) (self : VmValue) : res bool :=
  circularRef range (S MAX_STRUCT_DEPTH) h ∅ self.

End Values.
