(* ===== verification/ValueStack.v ===== *)
(** * The evaluation stack: [vm/neovm/value_stack.go],
    [vm/neovm/value_stack_conversion.go]

    The stack is a slice whose last element is the top.  Operations are
    functions of the stack that may fail; an index counts from the top.  The
    specification is the list of the values from the top down, bounded by the
    limit. *)

From S2P Require Import Prelude Codec BigInt IntValue VmValue.

Definition ERR_OVER_STACK_LEN : gerror := "the count over the stack length".
Definition ERR_OVER_LIMIT_STACK : gerror := "the stack over max size".

Lemma reverse_rev {A} (l : list A) : reverse l = rev l.
Proof. unfold reverse. rewrite <- rev_alt. reflexivity. Qed.

Section Stack.
Context `{Interops}.

Record ValueStack := mkStack { data : list VmValue; limit : Z }.
Abbreviation SM A := (ST ValueStack A).

Definition NewValueStack (limit : Z) : ValueStack := mkStack [] limit.

Definition Count : SM Z := fun s => Ok (zlen (data s), s).

(** [append], then [copy(data[index+1:], data[index:])], then the assignment. *)
Definition Insert (index : Z) (t : VmValue) : SM unit := fun self =>
  let l := zlen (data self) in
  if limit self <=? l then Err ERR_OVER_LIMIT_STACK
  else if (l <? index) || (index <? 0) then Err ERR_INDEX_OUT_OF_BOUND
  else
    let i := Z.to_nat (l - index) in
    let d := data self ++ [t] in
    let d := take (i + 1) d ++ take (length d - (i + 1)) (drop i d) in
    Ok ((), mkStack (<[i := t]> d) (limit self)).

Definition Peek (index : Z) : SM VmValue := fun self =>
  let l := zlen (data self) in
  if (l <=? index) || (index <? 0) then Err ERR_INDEX_OUT_OF_BOUND
  else match data self !! Z.to_nat (l - index - 1) with Some v => Ok (v, self) | None => Panic end.

Definition Remove (index : Z) : SM VmValue := fun self =>
  let l := zlen (data self) in
  if (l <=? index) || (index <? 0) then Err ERR_INDEX_OUT_OF_BOUND
  else
    let i := l - index in
    match data self !! Z.to_nat (i - 1) with
    | Some v => Ok (v, mkStack (take (Z.to_nat (i - 1)) (data self) ++ drop (Z.to_nat i) (data self)) (limit self))
    | None => Panic
    end.

(** [Set] counts from the bottom. *)
Definition Set_ (index : Z) (t : VmValue) : SM unit := fun self =>
  if (zlen (data self) <=? index) || (index <? 0) then Err ERR_INDEX_OUT_OF_BOUND
  else Ok ((), mkStack (<[Z.to_nat index := t]> (data self)) (limit self)).

Definition Push (t : VmValue) : SM unit := fun self =>
  if limit self <=? zlen (data self) then Err ERR_OVER_STACK_LEN
  else Ok ((), mkStack (data self ++ [t]) (limit self)).

Definition PushMany (vals : list VmValue) : SM unit := fun self =>
  if limit self <? zlen (data self) + zlen vals then Err ERR_OVER_STACK_LEN
  else Ok ((), mkStack (data self ++ vals) (limit self)).

(** The loop of [PushAsArray], [KEYS] and [VALUES]: fill a new array. *)
Fixpoint append_values (arr vals : list VmValue) : res (list VmValue) :=
  match vals with
  | [] => Ok arr
  | v :: vals' => let* arr := data_append arr v in append_values arr vals'
  end.

Definition PushAsArray (vals : list VmValue) (h : Heap) (self : ValueStack) : res (Heap * ValueStack) :=
  if limit self <? zlen (data self) + 1 then Err ERR_OVER_STACK_LEN
  else
    let* arr := append_values [] vals in
    let '(l, h) := alloc (OArr false arr) h in
    Ok (h, mkStack (data self ++ [VArray l]) (limit self)).

Definition Pop : SM VmValue := fun self =>
  let length := zlen (data self) in
  if length =? 0 then Err ERR_INDEX_OUT_OF_BOUND
  else match data self !! Z.to_nat (length - 1) with
       | Some v => Ok (v, mkStack (take (Z.to_nat (length - 1)) (data self)) (limit self))
       | None => Panic
       end.

Definition PopPair : SM (VmValue * VmValue) :=
  do rhs <- Pop; do lhs <- Pop; st_ret (lhs, rhs).
Definition PopTriple : SM (VmValue * VmValue * VmValue) :=
  do '(mid, rhs) <- PopPair; do lhs <- Pop; st_ret (lhs, mid, rhs).

Definition Swap (i j : Z) : SM unit := fun self =>
  let l := zlen (data self) in
  if (l <=? i) || (i <? 0) then Err ERR_INDEX_OUT_OF_BOUND
  else if (l <=? j) || (j <? 0) then Err ERR_INDEX_OUT_OF_BOUND
  else if i =? j then Ok ((), self)
  else
    let a := Z.to_nat (l - i - 1) in let b := Z.to_nat (l - j - 1) in
    match data self !! a, data self !! b with
    | Some x, Some y => Ok ((), mkStack (<[b := x]> (<[a := y]> (data self))) (limit self))
    | _, _ => Panic
    end.

Definition CopyTo (stack : ValueStack) (self : ValueStack) : res ValueStack :=
  if limit stack <? zlen (data self) + zlen (data stack) then Err ERR_OVER_STACK_LEN
  else Ok (mkStack (data stack ++ data self) (limit stack)).

(** ** Conversions *)

Definition PushBool (val : bool) : SM unit := Push (VmValueFromBool val).
Definition PopAsBool : SM bool := do val <- Pop; st_lift (AsBool val).
Definition PushInt64 (val : Z) : SM unit := Push (VmValueFromInt64 val).
Definition PushUint64 (val : Z) : SM unit := Push (VmValueFromUint64 val).
Definition PushUint32 (val : Z) : SM unit := Push (VmValueFromUint64 val).
Definition PopAsInt64 : SM Z := do val <- Pop; st_lift (AsInt64 val).
Definition PopAsIntValue : SM IntValue := do val <- Pop; st_lift (AsIntValue val).
Definition PushBytes (val : list byte) : SM unit := do v <- st_lift (VmValueFromBytes val); Push v.
Definition PopAsBytes : SM (list byte) := do val <- Pop; st_lift (AsBytes val).
Definition PopAsArray : SM loc := do val <- Pop; st_lift (AsArrayValue val).
Definition PopAsMap : SM loc := do val <- Pop; st_lift (AsMapValue val).
Definition PopAsStruct : SM loc := do val <- Pop; st_lift (AsStructValue val).
Definition PushAsInteropValue (val : option Interop) : SM unit := Push (VInterop val).
Definition PopAsInteropValue : SM (option Interop) := do val <- Pop; st_lift (AsInteropValue val).
Definition PopPairAsBytes : SM (list byte * list byte) :=
  do rhs <- PopAsBytes; do lhs <- PopAsBytes; st_ret (lhs, rhs).
Definition PopPairAsBool : SM (bool * bool) :=
  do rhs <- PopAsBool; do lhs <- PopAsBool; st_ret (lhs, rhs).
Definition PopPairAsInt64 : SM (Z * Z) :=
  do rhs <- PopAsInt64; do lhs <- PopAsInt64; st_ret (lhs, rhs).
Definition PopPairAsIntVal : SM (IntValue * IntValue) :=
  do rhs <- PopAsIntValue; do lhs <- PopAsIntValue; st_ret (lhs, rhs).
Definition PopTripleAsBytes : SM (list byte * list byte * list byte) :=
  do rhs <- PopAsBytes; do mid <- PopAsBytes; do lhs <- PopAsBytes; st_ret (lhs, mid, rhs).
Definition PopTripleAsBool : SM (bool * bool * bool) :=
  do rhs <- PopAsBool; do mid <- PopAsBool; do lhs <- PopAsBool; st_ret (lhs, mid, rhs).
Definition PopTripleAsIntVal : SM (IntValue * IntValue * IntValue) :=
  do rhs <- PopAsIntValue; do mid <- PopAsIntValue; do lhs <- PopAsIntValue; st_ret (lhs, mid, rhs).
Definition PeekAsBytes (index : Z) : SM (list byte) := do val <- Peek index; st_lift (AsBytes val).

(** ** The specification: a bounded list, top first *)

Definition abs (s : ValueStack) : list VmValue := rev (data s).

(** [s'] is a stack with the same limit and contents [l]. *)
Definition holds (s s' : ValueStack) (l : list VmValue) : Prop := abs s' = l /\ limit s' = limit s.

Lemma abs_lookup s i : 0 <= i < zlen (data s) -> data s !! Z.to_nat (zlen (data s) - i - 1) = abs s !! Z.to_nat i.
Proof.
  intros Hi. unfold abs. rewrite <- reverse_rev. unfold zlen in *. rewrite reverse_lookup by lia. f_equal. lia.
Qed.

Lemma abs_length s : zlen (abs s) = zlen (data s).
Proof. unfold abs, zlen. rewrite length_rev. reflexivity. Qed.

Lemma abs_is_Some s i : 0 <= i < zlen (data s) -> exists v, abs s !! Z.to_nat i = Some v.
Proof. intros Hi. apply lookup_lt_is_Some_2. rewrite <- abs_length in Hi. unfold zlen in Hi. lia. Qed.

Lemma rev_insert {A} (l : list A) i x : (i < length l)%nat -> rev (<[i := x]> l) = <[(length l - i - 1)%nat := x]> (rev l).
Proof.
  intros Hi. apply list_eq. intros j. rewrite <- !reverse_rev. destruct (decide (j < length l)%nat) as [Hj|Hj].
  - rewrite reverse_lookup by (rewrite length_insert; lia). rewrite length_insert.
    destruct (decide (j = length l - i - 1)%nat) as [->|N].
    + rewrite (list_lookup_insert_eq (reverse l)) by (rewrite length_reverse; lia).
      replace (length l - S (length l - i - 1))%nat with i by lia. apply list_lookup_insert_eq; lia.
    + rewrite (list_lookup_insert_ne (reverse l)) by lia. rewrite reverse_lookup by lia.
      apply list_lookup_insert_ne. lia.
  - rewrite !lookup_ge_None_2; [reflexivity | |]; rewrite ?length_insert, ?length_reverse, ?length_insert; lia.
Qed.

Lemma insert_memmove {A} (d : list A) i t :
  (i <= length d)%nat ->
  <[i := t]> (take (i + 1) (d ++ [t]) ++ take (length (d ++ [t]) - (i + 1)) (drop i (d ++ [t])))
  = take i d ++ t :: drop i d.
Proof.
  intros Hi. rewrite length_app, Nat.add_1_r. cbn [length].
  rewrite drop_app_le by lia. rewrite take_app_le with (n := (length d + 1 - S i)%nat) by (rewrite length_drop; lia).
  rewrite (take_ge (drop i d)) by (rewrite length_drop; lia).
  destruct (decide (i < length d)%nat) as [Hlt|Hge].
  - destruct (lookup_lt_is_Some_2 d i Hlt) as [x Hx].
    rewrite take_app_le, (take_S_r d i x) by (assumption || lia). rewrite <- app_assoc. cbn [app].
    apply insert_middle. rewrite length_take. lia.
  - assert (i = length d) as -> by lia. rewrite take_ge by (rewrite length_app; simpl; lia).
    rewrite drop_ge, !app_nil_r, take_ge by lia. rewrite insert_middle by reflexivity. reflexivity.
Qed.

Lemma rev_take_drop {A} (d : list A) n : (n <= length d)%nat ->
  rev (take (length d - n) d) = drop n (rev d) /\ rev (drop (length d - n) d) = take n (rev d).
Proof. intros Hn. rewrite skipn_rev, firstn_rev. auto. Qed.

Lemma Push_spec s t :
  (zlen (data s) < limit s -> exists s', Push t s = Ok ((), s') /\ holds s s' (t :: abs s)) /\
  (limit s <= zlen (data s) -> Push t s = Err ERR_OVER_STACK_LEN).
Proof.
  unfold Push. destruct (Z.leb_spec (limit s) (zlen (data s))); split; intros; try lia; [reflexivity|].
  eexists. split; [reflexivity|]. split; [apply rev_app_distr | reflexivity].
Qed.

Lemma Pop_spec s :
  (forall v l, abs s = v :: l -> exists s', Pop s = Ok (v, s') /\ holds s s' l) /\
  (abs s = [] -> Pop s = Err ERR_INDEX_OUT_OF_BOUND).
Proof.
  unfold Pop. rewrite <- abs_length. split.
  - intros v l E. rewrite (proj2 (Z.eqb_neq _ 0)) by (rewrite E, zlen_cons; pose proof (zlen_nonneg l); lia).
    assert (Hz : 0 <= 0 < zlen (data s)) by (rewrite <- abs_length, E, zlen_cons; pose proof (zlen_nonneg l); lia).
    pose proof (abs_lookup s 0 Hz) as Hl. rewrite <- abs_length, Z.sub_0_r, E in Hl. rewrite <- E in Hl at 1.
    rewrite Hl. cbn. eexists. split; [reflexivity|]. split; [|reflexivity].
    destruct (rev_take_drop (data s) 1) as [Ht _]; [unfold zlen in Hz; lia|].
    rewrite abs_length. unfold abs; cbn [data]. replace (Z.to_nat (zlen (data s) - 1)) with (length (data s) - 1)%nat by (unfold zlen; lia).
    rewrite Ht. fold (abs s). rewrite E. reflexivity.
  - intros ->. reflexivity.
Qed.

Lemma Peek_spec s n :
  (forall v, 0 <= n -> abs s !! Z.to_nat n = Some v -> Peek n s = Ok (v, s)) /\
  (~ 0 <= n < zlen (abs s) -> Peek n s = Err ERR_INDEX_OUT_OF_BOUND).
Proof.
  unfold Peek. rewrite <- abs_length. split.
  - intros v H0 Hv. pose proof (lookup_lt_Some _ _ _ Hv) as Hlt.
    rewrite (proj2 (Z.leb_gt _ _)), (proj2 (Z.ltb_ge _ _)) by (unfold zlen; lia). cbn [orb].
    rewrite abs_length, abs_lookup, Hv by (rewrite <- abs_length; unfold zlen; lia). reflexivity.
  - intros Hn. destruct (Z.leb_spec (zlen (abs s)) n), (Z.ltb_spec n 0); cbn [orb]; auto; lia.
Qed.

Lemma Remove_spec s n :
  (forall v, 0 <= n -> abs s !! Z.to_nat n = Some v ->
    exists s', Remove n s = Ok (v, s') /\ holds s s' (delete (Z.to_nat n) (abs s))) /\
  (~ 0 <= n < zlen (abs s) -> Remove n s = Err ERR_INDEX_OUT_OF_BOUND).
Proof.
  unfold Remove. rewrite <- abs_length. split.
  - intros v H0 Hv. pose proof (lookup_lt_Some _ _ _ Hv) as Hlt.
    rewrite (proj2 (Z.leb_gt _ _)), (proj2 (Z.ltb_ge _ _)) by (unfold zlen; lia). cbn [orb].
    rewrite abs_length, abs_lookup, Hv by (rewrite <- abs_length; unfold zlen; lia).
    eexists. split; [reflexivity|]. split; [|reflexivity]. unfold abs at 1; cbn [data].
    unfold abs in Hlt. rewrite length_rev in Hlt.
    replace (Z.to_nat (zlen (data s) - n)) with (length (data s) - Z.to_nat n)%nat by (unfold zlen; lia).
    replace (Z.to_nat (zlen (data s) - n - 1)) with (length (data s) - S (Z.to_nat n))%nat by (unfold zlen; lia).
    rewrite rev_app_distr, delete_take_drop.
    rewrite (proj2 (rev_take_drop (data s) (Z.to_nat n) ltac:(lia))),
      (proj1 (rev_take_drop (data s) (S (Z.to_nat n)) ltac:(lia))). reflexivity.
  - intros Hn. destruct (Z.leb_spec (zlen (abs s)) n), (Z.ltb_spec n 0); cbn [orb]; auto; lia.
Qed.

Lemma Insert_spec s n t :
  (zlen (data s) < limit s -> 0 <= n <= zlen (abs s) ->
    exists s', Insert n t s = Ok ((), s') /\ holds s s' (take (Z.to_nat n) (abs s) ++ t :: drop (Z.to_nat n) (abs s))) /\
  (limit s <= zlen (data s) -> Insert n t s = Err ERR_OVER_LIMIT_STACK) /\
  (zlen (data s) < limit s -> ~ 0 <= n <= zlen (abs s) -> Insert n t s = Err ERR_INDEX_OUT_OF_BOUND).
Proof.
  unfold Insert. rewrite abs_length. split; [|split].
  - intros Hl Hn. rewrite (proj2 (Z.leb_gt _ _)), (proj2 (Z.ltb_ge _ _)), (proj2 (Z.ltb_ge _ _)) by lia. cbn [orb].
    eexists. split; [reflexivity|]. split; [|reflexivity]. unfold abs; cbn [data].
    rewrite insert_memmove by (unfold zlen; lia). rewrite rev_app_distr. cbn [rev].
    replace (Z.to_nat (zlen (data s) - n)) with (length (data s) - Z.to_nat n)%nat by (unfold zlen in *; lia).
    destruct (rev_take_drop (data s) (Z.to_nat n)) as [-> ->]; [unfold zlen in Hn; lia|].
    rewrite <- app_assoc. reflexivity.
  - intros Hl. rewrite (proj2 (Z.leb_le _ _)) by lia. reflexivity.
  - intros Hl Hn. rewrite (proj2 (Z.leb_gt _ _)) by lia.
    destruct (Z.ltb_spec (zlen (data s)) n), (Z.ltb_spec n 0); cbn [orb]; auto; lia.
Qed.

Lemma Swap_spec s i j :
  (forall x y, 0 <= i -> 0 <= j -> abs s !! Z.to_nat i = Some x -> abs s !! Z.to_nat j = Some y ->
    exists s', Swap i j s = Ok ((), s') /\ holds s s' (<[Z.to_nat j := x]> (<[Z.to_nat i := y]> (abs s)))) /\
  (~ (0 <= i < zlen (abs s) /\ 0 <= j < zlen (abs s)) -> Swap i j s = Err ERR_INDEX_OUT_OF_BOUND).
Proof.
  unfold Swap. rewrite <- abs_length. split.
  - intros x y Hi Hj Hx Hy. pose proof (lookup_lt_Some _ _ _ Hx). pose proof (lookup_lt_Some _ _ _ Hy).
    rewrite (proj2 (Z.leb_gt _ i)), (proj2 (Z.leb_gt _ j)), (proj2 (Z.ltb_ge i 0)), (proj2 (Z.ltb_ge j 0))
      by (unfold zlen; lia). cbn [orb].
    destruct (Z.eqb_spec i j) as [->|N].
    + exists s. split; [reflexivity|]. split; [|reflexivity]. rewrite list_insert_insert_eq.
      rewrite list_insert_id by congruence. reflexivity.
    + rewrite abs_length, !abs_lookup, Hx, Hy by (rewrite <- abs_length; unfold zlen; lia).
      eexists. split; [reflexivity|]. split; [|reflexivity]. unfold abs at 1; cbn [data].
      unfold abs in *. rewrite length_rev in *. rewrite !rev_insert by (rewrite ?length_insert; unfold zlen; lia).
      rewrite length_insert. f_equal; [unfold zlen; lia|]. f_equal. unfold zlen; lia.
  - intros Hn. destruct (Z.leb_spec (zlen (abs s)) i), (Z.ltb_spec i 0), (Z.leb_spec (zlen (abs s)) j), (Z.ltb_spec j 0);
      cbn [orb]; auto; lia.
Qed.

Lemma Set_spec s n t :
  (0 <= n < zlen (abs s) -> exists s', Set_ n t s = Ok ((), s') /\ holds s s' (<[(length (abs s) - S (Z.to_nat n))%nat := t]> (abs s))) /\
  (~ 0 <= n < zlen (abs s) -> Set_ n t s = Err ERR_INDEX_OUT_OF_BOUND).
Proof.
  unfold Set_. rewrite <- abs_length. split.
  - intros Hn. rewrite (proj2 (Z.leb_gt _ n)), (proj2 (Z.ltb_ge n 0)) by lia. eexists. split; [reflexivity|]. split; [|reflexivity].
    unfold abs in *. rewrite length_rev. unfold zlen in Hn. rewrite length_rev in Hn. cbn [data]. rewrite rev_insert by lia. f_equal. lia.
  - intros Hn. destruct (Z.leb_spec (zlen (abs s)) n), (Z.ltb_spec n 0); cbn [orb]; auto; lia.
Qed.

Lemma PushMany_spec s vals :
  (zlen (data s) + zlen vals <= limit s -> exists s', PushMany vals s = Ok ((), s') /\ holds s s' (rev vals ++ abs s)) /\
  (limit s < zlen (data s) + zlen vals -> PushMany vals s = Err ERR_OVER_STACK_LEN).
Proof.
  unfold PushMany. destruct (Z.ltb_spec (limit s) (zlen (data s) + zlen vals)); split; intros; try lia; [reflexivity|].
  eexists. split; [reflexivity|]. split; [apply rev_app_distr | reflexivity].
Qed.

Lemma append_values_spec vals : forall arr, zlen arr <= MAX_ARRAY_SIZE ->
  append_values arr vals = if MAX_ARRAY_SIZE <? zlen arr + zlen vals then Err ERR_OVER_MAX_ARRAY_SIZE else Ok (arr ++ vals).
Proof.
  induction vals as [|v vals IH]; intros arr Ha; cbn [append_values].
  - rewrite Z.add_0_r, (proj2 (Z.ltb_ge _ _)), app_nil_r by exact Ha. reflexivity.
  - unfold data_append. rewrite zlen_cons. pose proof (zlen_nonneg vals). destruct (Z.leb_spec MAX_ARRAY_SIZE (zlen arr)); cbn [res_bind].
    + rewrite (proj2 (Z.ltb_lt _ _)) by lia. reflexivity.
    + rewrite IH by (rewrite zlen_app; change (zlen [v]) with 1; lia). rewrite zlen_app, <- app_assoc. cbn [app]. change (zlen [v]) with 1.
      replace (zlen arr + 1 + zlen vals) with (zlen arr + (1 + zlen vals)) by lia. reflexivity.
Qed.

Lemma PushAsArray_spec s h vals :
  (zlen (data s) < limit s -> zlen vals <= MAX_ARRAY_SIZE -> exists s', PushAsArray vals h s = Ok (snd (alloc (OArr false vals) h), s') /\
     holds s s' (VArray (fst (alloc (OArr false vals) h)) :: abs s)) /\
  (limit s <= zlen (data s) -> PushAsArray vals h s = Err ERR_OVER_STACK_LEN) /\
  (zlen (data s) < limit s -> MAX_ARRAY_SIZE < zlen vals -> PushAsArray vals h s = Err ERR_OVER_MAX_ARRAY_SIZE).
Proof.
  unfold PushAsArray. rewrite append_values_spec by discriminate. change (zlen (@nil VmValue)) with 0. cbn [app]. rewrite Z.add_0_l.
  split; [|split]; intros Hl; [intros Hv; rewrite (proj2 (Z.ltb_ge (limit s) _)), (proj2 (Z.ltb_ge MAX_ARRAY_SIZE _)) by lia |
    rewrite (proj2 (Z.ltb_lt (limit s) _)) by lia; reflexivity | intros Hv; rewrite (proj2 (Z.ltb_ge (limit s) _)), (proj2 (Z.ltb_lt MAX_ARRAY_SIZE _)) by lia; reflexivity].
  cbn [res_bind alloc fst snd]. eexists. split; [reflexivity|]. split; [apply rev_app_distr | reflexivity].
Qed.

(** Two values from the top: the upper one is the right operand. *)
Lemma PopPair_spec s :
  (forall r l rest, abs s = r :: l :: rest -> exists s', PopPair s = Ok ((l, r), s') /\ holds s s' rest) /\
  (zlen (abs s) < 2 -> PopPair s = Err ERR_INDEX_OUT_OF_BOUND).
Proof.
  unfold PopPair. split.
  - intros r l rest E. destruct (proj1 (Pop_spec s) r (l :: rest) E) as (s1 & E1 & A1 & L1). destruct (proj1 (Pop_spec s1) l rest A1) as (s2 & E2 & A2 & L2).
    exists s2. rewrite (st_bind_eq _ _ _ _ _ E1), (st_bind_eq _ _ _ _ _ E2). split; [reflexivity | split; [exact A2 | congruence]].
  - intros Hl. destruct (abs s) as [|v [|w rest]] eqn:E.
    + unfold st_bind. rewrite (proj2 (Pop_spec s) E). reflexivity.
    + destruct (proj1 (Pop_spec s) v [] E) as (s1 & E1 & A1 & L1). rewrite (st_bind_eq _ _ _ _ _ E1). unfold st_bind. rewrite (proj2 (Pop_spec s1) A1). reflexivity.
    + rewrite !zlen_cons in Hl. pose proof (zlen_nonneg rest). lia.
Qed.

Lemma PopTriple_spec s :
  (forall r m l rest, abs s = r :: m :: l :: rest -> exists s', PopTriple s = Ok ((l, m, r), s') /\ holds s s' rest) /\
  (zlen (abs s) < 3 -> PopTriple s = Err ERR_INDEX_OUT_OF_BOUND).
Proof.
  unfold PopTriple. split.
  - intros r m l rest E. destruct (proj1 (PopPair_spec s) r m (l :: rest) E) as (s1 & E1 & A1 & L1). destruct (proj1 (Pop_spec s1) l rest A1) as (s2 & E2 & A2 & L2).
    exists s2. rewrite (st_bind_eq _ _ _ _ _ E1), (st_bind_eq _ _ _ _ _ E2). split; [reflexivity | split; [exact A2 | congruence]].
  - intros Hl. destruct (abs s) as [|v [|w [|x rest]]] eqn:E.
    1, 2: unfold st_bind at 1; rewrite (proj2 (PopPair_spec s)) by (rewrite E; cbn; unfold zlen; cbn; lia); reflexivity.
    + destruct (proj1 (PopPair_spec s) v w [] E) as (s1 & E1 & A1 & L1). rewrite (st_bind_eq _ _ _ _ _ E1). unfold st_bind. rewrite (proj2 (Pop_spec s1) A1). reflexivity.
    + rewrite !zlen_cons in Hl. pose proof (zlen_nonneg rest). lia.
Qed.

Lemma CopyTo_spec s dst :
  (zlen (data s) + zlen (data dst) <= limit dst -> exists s', CopyTo dst s = Ok s' /\ holds dst s' (abs s ++ abs dst)) /\
  (limit dst < zlen (data s) + zlen (data dst) -> CopyTo dst s = Err ERR_OVER_STACK_LEN).
Proof.
  unfold CopyTo. destruct (Z.ltb_spec (limit dst) (zlen (data s) + zlen (data dst))); split; intros; try lia; [reflexivity|].
  eexists. split; [reflexivity|]. split; [apply rev_app_distr | reflexivity].
Qed.

(** C26: the stack of the virtual machine is a bounded list indexed from the top.
    [Push], [Pop], [Peek], [Remove], [Insert], [Swap], [PushMany], [PushAsArray], [PopPair], [PopTriple] and [CopyTo] act on it as cons, tail,
    lookup, delete, insertion, exchange, putting many values or one new array on top, taking two or three values, and
    copying on top of another stack; [Set] replaces a value counted from the bottom and [Count] is the length.  Over the limit (of the stack,
    or of 1024 elements for the array) or out of range they return an error, and none of them panics. *)
Theorem value_stack_refines_list s dst t vals h n i j :
  ((zlen (data s) < limit s -> exists s', Push t s = Ok ((), s') /\ holds s s' (t :: abs s)) /\
   (limit s <= zlen (data s) -> Push t s = Err ERR_OVER_STACK_LEN)) /\
  ((forall v l, abs s = v :: l -> exists s', Pop s = Ok (v, s') /\ holds s s' l) /\
   (abs s = [] -> Pop s = Err ERR_INDEX_OUT_OF_BOUND)) /\
  ((forall v, 0 <= n -> abs s !! Z.to_nat n = Some v -> Peek n s = Ok (v, s)) /\
   (~ 0 <= n < zlen (abs s) -> Peek n s = Err ERR_INDEX_OUT_OF_BOUND)) /\
  ((forall v, 0 <= n -> abs s !! Z.to_nat n = Some v ->
      exists s', Remove n s = Ok (v, s') /\ holds s s' (delete (Z.to_nat n) (abs s))) /\
   (~ 0 <= n < zlen (abs s) -> Remove n s = Err ERR_INDEX_OUT_OF_BOUND)) /\
  ((zlen (data s) < limit s -> 0 <= n <= zlen (abs s) ->
      exists s', Insert n t s = Ok ((), s') /\ holds s s' (take (Z.to_nat n) (abs s) ++ t :: drop (Z.to_nat n) (abs s))) /\
   (limit s <= zlen (data s) -> Insert n t s = Err ERR_OVER_LIMIT_STACK) /\
   (zlen (data s) < limit s -> ~ 0 <= n <= zlen (abs s) -> Insert n t s = Err ERR_INDEX_OUT_OF_BOUND)) /\
  ((forall x y, 0 <= i -> 0 <= j -> abs s !! Z.to_nat i = Some x -> abs s !! Z.to_nat j = Some y ->
      exists s', Swap i j s = Ok ((), s') /\ holds s s' (<[Z.to_nat j := x]> (<[Z.to_nat i := y]> (abs s)))) /\
   (~ (0 <= i < zlen (abs s) /\ 0 <= j < zlen (abs s)) -> Swap i j s = Err ERR_INDEX_OUT_OF_BOUND)) /\
  ((0 <= n < zlen (abs s) -> exists s', Set_ n t s = Ok ((), s') /\ holds s s' (<[(length (abs s) - S (Z.to_nat n))%nat := t]> (abs s))) /\
   (~ 0 <= n < zlen (abs s) -> Set_ n t s = Err ERR_INDEX_OUT_OF_BOUND)) /\
  ((zlen (data s) + zlen vals <= limit s -> exists s', PushMany vals s = Ok ((), s') /\ holds s s' (rev vals ++ abs s)) /\
   (limit s < zlen (data s) + zlen vals -> PushMany vals s = Err ERR_OVER_STACK_LEN)) /\
  ((zlen (data s) < limit s -> zlen vals <= MAX_ARRAY_SIZE -> exists s', PushAsArray vals h s = Ok (snd (alloc (OArr false vals) h), s') /\
      holds s s' (VArray (fst (alloc (OArr false vals) h)) :: abs s)) /\
   (limit s <= zlen (data s) -> PushAsArray vals h s = Err ERR_OVER_STACK_LEN) /\
   (zlen (data s) < limit s -> MAX_ARRAY_SIZE < zlen vals -> PushAsArray vals h s = Err ERR_OVER_MAX_ARRAY_SIZE)) /\
  ((forall r l rest, abs s = r :: l :: rest -> exists s', PopPair s = Ok ((l, r), s') /\ holds s s' rest) /\
   (zlen (abs s) < 2 -> PopPair s = Err ERR_INDEX_OUT_OF_BOUND)) /\
  ((forall r m l rest, abs s = r :: m :: l :: rest -> exists s', PopTriple s = Ok ((l, m, r), s') /\ holds s s' rest) /\
   (zlen (abs s) < 3 -> PopTriple s = Err ERR_INDEX_OUT_OF_BOUND)) /\
  ((zlen (data s) + zlen (data dst) <= limit dst -> exists s', CopyTo dst s = Ok s' /\ holds dst s' (abs s ++ abs dst)) /\
   (limit dst < zlen (data s) + zlen (data dst) -> CopyTo dst s = Err ERR_OVER_STACK_LEN)) /\
  Count s = Ok (zlen (abs s), s).
Proof.
  split; [apply Push_spec|]. split; [apply Pop_spec|]. split; [apply Peek_spec|]. split; [apply Remove_spec|]. split; [apply Insert_spec|].
  split; [apply Swap_spec|]. split; [apply Set_spec|]. split; [apply PushMany_spec|]. split; [apply PushAsArray_spec|]. split; [apply PopPair_spec|].
  split; [apply PopTriple_spec|]. split; [apply CopyTo_spec|]. rewrite abs_length. reflexivity.
Qed.

End Stack.

(** A stack of three booleans with room for one more. *)
Section Witness.
#[local] Instance stack_interops : Interops := {| Interop := False; ToArray := fun _ => []; interop_deep_eq := fun _ _ => true |}.

Lemma value_stack_refines_list_witness :
  let s := mkStack [VBool true; VBool false; VBool false] 4 in
  (exists s', Push (VBool true) s = Ok ((), s') /\ holds s s' [VBool true; VBool false; VBool false; VBool true]) /\
  (exists s', Set_ 0 (VBool false) s = Ok ((), s') /\ holds s s' [VBool false; VBool false; VBool false]) /\
  PushMany [VBool true; VBool true] s = Err ERR_OVER_STACK_LEN.
Proof.
  intros s. destruct (value_stack_refines_list s s (VBool true) [VBool true; VBool true] (mkHeap ∅ 0%nat) 0 0 0) as ((Hp & _) & _ & _ & _ & _ & _ & _ & (_ & Hm) & _).
  destruct (value_stack_refines_list s s (VBool false) [] (mkHeap ∅ 0%nat) 0 0 0) as (_ & _ & _ & _ & _ & _ & (Hs & _) & _).
  split; [apply Hp; reflexivity|]. split; [apply Hs; split; [discriminate | reflexivity] | apply Hm; reflexivity].
Defined.
End Witness.
