(* ===== verification/VmHeap.v ===== *)
(** * The heap of the virtual machine

    Well-formed heaps and values: references point to objects of their kind,
    arrays and structs have at most 1024 elements, byte arrays at most 1 MiB,
    integers are normalised.  Every operation on objects keeps the heap
    well-formed and never panics; in particular copying a struct and comparing
    two structs terminate. *)

From S2P Require Import Prelude Codec BigInt IntValue VmValue.

Section Heap.
Context `{Interops}.

Inductive okind := KArr | KStruct | KMap.
Definition kind_of (o : HObj) : okind :=
  match o with OArr _ _ => KArr | OStruct _ _ => KStruct | OMap _ => KMap end.

Definition has_kind (h : Heap) (l : loc) (k : okind) : Prop := exists o, objs h !! l = Some o /\ kind_of o = k.

Definition val_ok (h : Heap) (v : VmValue) : Prop :=
  match v with
  | VBytes b => zlen b <= MAX_BYTEARRAY_SIZE
  | VInt i => is_s64 i
  | VBig z => ~ is_s64 z /\ Z.abs z <= 2 ^ 256
  | VArray l => has_kind h l KArr
  | VStruct l => has_kind h l KStruct
  | VMap l => has_kind h l KMap
  | VBool _ | VInterop _ => True
  end.

Definition items_ok (h : Heap) (d : list VmValue) : Prop := zlen d <= MAX_ARRAY_SIZE /\ Forall (val_ok h) d.
Definition entries_ok (h : Heap) (m : gmap (list byte) (VmValue * VmValue)) : Prop :=
  forall k a b, m !! k = Some (a, b) -> val_ok h a /\ val_ok h b /\ AsBytes a = Ok k.
Definition obj_ok (h : Heap) (o : HObj) : Prop :=
  match o with OArr _ d | OStruct _ d => items_ok h d | OMap m => entries_ok h m end.

Definition heap_ok (h : Heap) : Prop := forall l o, objs h !! l = Some o -> (l < next h)%nat /\ obj_ok h o.

(** Objects stay and keep their kind. *)
Definition heap_ext (h h' : Heap) : Prop := forall l k, has_kind h l k -> has_kind h' l k.

#[global] Instance heap_ext_preorder : PreOrder heap_ext.
Proof. split; unfold heap_ext; [intros h l k Hk; exact Hk | intros h1 h2 h3 H1 H2 l k Hk; auto]. Qed.

Lemma val_ok_mono h h' v : heap_ext h h' -> val_ok h v -> val_ok h' v.
Proof. intros He. destruct v; cbn; auto. Qed.

Lemma items_ok_mono h h' d : heap_ext h h' -> items_ok h d -> items_ok h' d.
Proof. intros He [Hl Hd]. split; [exact Hl|]. eapply Forall_impl; [exact Hd|]. intros. eapply val_ok_mono; eauto. Qed.

Lemma obj_ok_mono h h' o : heap_ext h h' -> obj_ok h o -> obj_ok h' o.
Proof.
  intros He. destruct o; cbn; try (apply items_ok_mono, He).
  intros Hm k a b E. destruct (Hm k a b E) as (Ha & Hb & Hk). eauto using val_ok_mono.
Qed.

Lemma has_kind_insert objs' l o l' k n :
  has_kind (mkHeap (<[l := o]> objs') n) l' k <->
  (l = l' /\ kind_of o = k) \/ (l <> l' /\ exists o', objs' !! l' = Some o' /\ kind_of o' = k).
Proof.
  unfold has_kind; cbn [objs]. destruct (decide (l = l')) as [->|N].
  - rewrite lookup_insert_eq. split; [intros (o' & [= <-] & E); auto | intros [[_ E]|[[] _]]; eauto].
  - rewrite lookup_insert_ne by assumption. split; [eauto|]. intros [[E _]|[_ E]]; [congruence | exact E].
Qed.

Lemma alloc_ok h o : heap_ok h -> obj_ok h o ->
  forall l h', alloc o h = (l, h') -> heap_ok h' /\ heap_ext h h' /\ has_kind h' l (kind_of o).
Proof.
  intros Hh Ho l h' [= <- <-].
  assert (He : heap_ext h (mkHeap (<[next h := o]> (objs h)) (S (next h)))).
  { intros l k (o' & E & Ek). apply has_kind_insert. right. split; [|eauto]. apply Hh in E. lia. }
  split; [|split; [exact He | apply has_kind_insert; auto]].
  intros l o' E. cbn [objs next] in *. destruct (decide (next h = l)) as [<-|N].
  - rewrite lookup_insert_eq in E. injection E as <-. split; [lia | eapply obj_ok_mono; eauto].
  - rewrite lookup_insert_ne in E by assumption. destruct (Hh l o' E). split; [lia | eapply obj_ok_mono; eauto].
Qed.

Lemma store_ok h l o : heap_ok h -> has_kind h l (kind_of o) -> obj_ok h o ->
  heap_ok (store l o h) /\ heap_ext h (store l o h).
Proof.
  intros Hh (o0 & E0 & Ek) Ho.
  assert (He : heap_ext h (store l o h)).
  { intros l' k (o' & E & Ek'). apply has_kind_insert. destruct (decide (l = l')) as [->|N]; [left | right; eauto].
    split; [reflexivity|]. assert (o' = o0) as -> by congruence. congruence. }
  split; [|exact He]. intros l' o' E. cbn [store objs next] in *. destruct (decide (l = l')) as [<-|N].
  - rewrite lookup_insert_eq in E. injection E as <-. split; [apply (Hh _ _ E0) | eapply obj_ok_mono; eauto].
  - rewrite lookup_insert_ne in E by assumption. destruct (Hh l' o' E). split; [lia | eapply obj_ok_mono; eauto].
Qed.

(** ** Reading objects *)

Lemma arr_data_ok h l : heap_ok h -> has_kind h l KArr -> exists d, arr_data h l = Ok d /\ items_ok h d.
Proof.
  intros Hh (o & E & Ek). unfold arr_data. rewrite E. destruct o; try discriminate. apply Hh in E. eexists. split; [reflexivity | apply E].
Qed.
Lemma struct_data_ok h l : heap_ok h -> has_kind h l KStruct -> exists d, struct_data h l = Ok d /\ items_ok h d.
Proof.
  intros Hh (o & E & Ek). unfold struct_data. rewrite E. destruct o; try discriminate. apply Hh in E. eexists. split; [reflexivity | apply E].
Qed.
Lemma map_data_ok h l : heap_ok h -> has_kind h l KMap -> exists m, map_data h l = Ok m /\ entries_ok h m.
Proof.
  intros Hh (o & E & Ek). unfold map_data. rewrite E. destruct o; try discriminate. apply Hh in E. eexists. split; [reflexivity | apply E].
Qed.

(** ** Outcomes without a panic *)

Definition fine {A} (r : res A) (Q : A -> Prop) : Prop :=
  match r with Ok a => Q a | Err _ => True | Panic => False end.

Lemma fine_bind {A B} (r : res A) (k : A -> res B) Q R :
  fine r Q -> (forall a, Q a -> fine (k a) R) -> fine (res_bind r k) R.
Proof. destruct r; cbn; auto. Qed.

Lemma fine_impl {A} (r : res A) (Q R : A -> Prop) : fine r Q -> (forall a, Q a -> R a) -> fine r R.
Proof. destruct r; cbn; auto. Qed.

Lemma data_append_fine h d v : items_ok h d -> val_ok h v -> fine (data_append d v) (items_ok h).
Proof.
  intros [Hl Hd] Hv. unfold data_append. destruct (Z.leb_spec MAX_ARRAY_SIZE (zlen d)); [exact I|]. cbn.
  split; [rewrite zlen_app; change (zlen [v]) with 1; lia | apply Forall_app; auto].
Qed.

(** The result of an update: a good heap with the same objects. *)
Definition good_heap (h h' : Heap) : Prop := heap_ok h' /\ heap_ext h h'.

Lemma ArrayAppend_fine h l v : heap_ok h -> has_kind h l KArr -> val_ok h v -> fine (ArrayAppend l v h) (good_heap h).
Proof.
  intros Hh Hl Hv. unfold ArrayAppend. destruct (arr_data_ok h l Hh Hl) as (d & -> & Hd). cbn [res_bind].
  eapply fine_bind; [eapply data_append_fine; eassumption|]. intros d' Hd'. apply store_ok; assumption.
Qed.
Lemma StructAppend_fine h l v : heap_ok h -> has_kind h l KStruct -> val_ok h v -> fine (StructAppend l v h) (good_heap h).
Proof.
  intros Hh Hl Hv. unfold StructAppend. destruct (struct_data_ok h l Hh Hl) as (d & -> & Hd). cbn [res_bind].
  eapply fine_bind; [eapply data_append_fine; eassumption|]. intros d' Hd'. apply store_ok; assumption.
Qed.
Lemma RemoveAt_fine h l i : heap_ok h -> has_kind h l KArr -> fine (RemoveAt l i h) (good_heap h).
Proof.
  intros Hh Hl. unfold RemoveAt. destruct (arr_data_ok h l Hh Hl) as (d & -> & Hd). cbn [res_bind].
  destruct (_ || _); [exact I|]. destruct Hd as [Hz Hf]. apply store_ok; [assumption | assumption |]. split.
  - unfold zlen in *. rewrite length_app, length_take, length_drop. lia.
  - apply Forall_app; auto using Forall_take, Forall_drop.
Qed.

Lemma entries_insert h m k a b : entries_ok h m -> val_ok h a -> val_ok h b -> AsBytes a = Ok k ->
  entries_ok h (<[k := (a, b)]> m).
Proof.
  intros Hm Ha Hb Hk k' a' b' E. destruct (decide (k = k')) as [<-|N].
  - rewrite lookup_insert_eq in E. injection E as <- <-. auto.
  - rewrite lookup_insert_ne in E by assumption. eauto.
Qed.

Lemma AsBytes_fine v : fine (AsBytes v) (fun k => AsBytes v = Ok k).
Proof. destruct v; cbn; auto. Qed.

Lemma MapSet_fine h l k v : heap_ok h -> has_kind h l KMap -> val_ok h k -> val_ok h v -> fine (MapSet l k v h) (good_heap h).
Proof.
  intros Hh Hl Hk Hv. unfold MapSet, GetMapKey. eapply fine_bind; [apply AsBytes_fine|]. intros sk Esk.
  destruct (map_data_ok h l Hh Hl) as (m & -> & Hm). cbn [res_bind]. apply store_ok; [assumption | assumption |].
  apply entries_insert; assumption.
Qed.
Lemma MapRemove_fine h l k : heap_ok h -> has_kind h l KMap -> fine (MapRemove l k h) (good_heap h).
Proof.
  intros Hh Hl. unfold MapRemove, GetMapKey. eapply fine_bind; [apply AsBytes_fine|]. intros sk Esk.
  destruct (map_data_ok h l Hh Hl) as (m & -> & Hm). cbn [res_bind]. apply store_ok; [assumption | assumption |].
  intros k' a b E. apply lookup_delete_Some in E as [_ E]. eauto.
Qed.
Lemma MapGet_fine h l k : heap_ok h -> has_kind h l KMap ->
  fine (MapGet l k h) (fun o => forall v, o = Some v -> val_ok h v).
Proof.
  intros Hh Hl. unfold MapGet, GetMapKey. eapply fine_bind; [apply AsBytes_fine|]. intros sk Esk.
  destruct (map_data_ok h l Hh Hl) as (m & -> & Hm). cbn. intros v E.
  destruct (m !! sk) as [[a b]|] eqn:Em; [|discriminate]. injection E as <-. apply (Hm sk a b Em).
Qed.

Lemma keys_ok h m : entries_ok h m -> Forall (val_ok h) (GetMapSortedKey m) /\ Forall (val_ok h) (GetValues m).
Proof.
  intros Hm. unfold GetMapSortedKey, GetValues.
  split; apply Forall_forall; intros v Hv; apply list_elem_of_omap in Hv as (k & _ & E);
    destruct (m !! k) as [[a b]|] eqn:Em; try discriminate; injection E as <-; apply (Hm k a b Em).
Qed.

(** ** Copying a struct *)

Definition clone_result (h : Heap) (length : Z) (r : res (loc * Z * Heap)) : Prop :=
  fine r (fun '(l, length', h') => good_heap h h' /\ has_kind h' l KStruct /\ length <= length').

Lemma clone_items_fine (rec : loc -> Z -> Heap -> res (loc * Z * Heap)) data :
  forall arr length h,
  (forall s len h', heap_ok h' -> has_kind h' s KStruct -> length < len -> clone_result h' len (rec s len h')) ->
  heap_ok h -> Forall (val_ok h) data -> Forall (val_ok h) arr ->
  fine (clone_items rec data arr length h) (fun '(arr', length', h') =>
    good_heap h h' /\ Forall (val_ok h') arr' /\ zlen arr' = zlen arr + zlen data /\ length <= length').
Proof.
  induction data as [|v data IH]; intros arr length h Hrec Hh Hd Ha.
  { cbn. split; [split; [exact Hh | reflexivity]|]. rewrite zlen_nil. auto with lia. }
  inversion Hd as [|? ? Hv Hd']; subst. rewrite zlen_cons. pose proof (zlen_nonneg data).
  assert (Hstep : forall v' h' len', good_heap h h' -> val_ok h' v' -> length + 1 <= len' ->
    fine (clone_items rec data (arr ++ [v']) len' h') (fun '(arr', length', h'') =>
      good_heap h h'' /\ Forall (val_ok h'') arr' /\ zlen arr' = zlen arr + (1 + zlen data) /\ length <= length')).
  { intros v' h' len' [Hh' He] Hv' Hlen. eapply fine_impl; [apply IH|].
    - intros s len h'' ? ? ?. apply Hrec; auto with lia.
    - exact Hh'.
    - eapply Forall_impl; [exact Hd'|]. intros. eapply val_ok_mono; eauto.
    - apply Forall_app. split; [|auto]. eapply Forall_impl; [exact Ha|]. intros. eapply val_ok_mono; eauto.
    - intros [[arr' length'] h''] ([Hh'' He'] & Hf & Hz & Hle).
      split; [split; [exact Hh'' | etransitivity; eauto]|]. rewrite zlen_app in Hz. change (zlen [v']) with 1 in Hz.
      split; [exact Hf | lia]. }
  assert (Hself : good_heap h h) by (split; [exact Hh | reflexivity]).
  cbn [clone_items]. destruct v; try (apply Hstep; auto with lia).
  eapply fine_bind; [apply Hrec; [exact Hh | exact Hv | lia]|].
  intros [[vc len'] h'] (Hg & Hk & Hle). apply Hstep; auto with lia.
Qed.

Lemma cloneStruct_fine fuel : forall s length h,
  heap_ok h -> has_kind h s KStruct -> 0 <= length -> (1 <= fuel)%nat -> 1026 <= Z.of_nat fuel + length ->
  clone_result h length (cloneStruct fuel s length h).
Proof.
  induction fuel as [|f IH]; intros s length h Hh Hs Hlen Hf Hb; [lia|]. unfold clone_result. cbn [cloneStruct].
  destruct (Z.ltb_spec MAX_CLONE_LENGTH length) as [|Hle]; [exact I|]. unfold MAX_CLONE_LENGTH in Hle.
  destruct (struct_data_ok h s Hh Hs) as (d & -> & Hz & Hd). cbn [res_bind].
  eapply fine_bind.
  { apply (clone_items_fine (cloneStruct f) d [] length h); auto.
    intros s' len h' Hh' Hs' Hl'. apply IH; auto; lia. }
  intros [[arr length'] h'] ([Hh' He] & Ha & Hza & Hll). rewrite zlen_nil in Hza.
  destruct (alloc _ h') as [l h''] eqn:Eal.
  eapply alloc_ok in Eal as (Hh'' & He' & Hk); [|exact Hh'|split; [rewrite Hza; exact Hz | exact Ha]].
  cbn. split; [split; [exact Hh'' | etransitivity; eauto]|]. auto.
Qed.

Lemma StructClone_fine h s : heap_ok h -> has_kind h s KStruct ->
  fine (StructClone s h) (fun '(l, h') => good_heap h h' /\ has_kind h' l KStruct).
Proof.
  intros Hh Hs. unfold StructClone. eapply fine_bind.
  - apply cloneStruct_fine; auto; unfold clone_fuel; lia.
  - intros [[l len] h'] (Hg & Hk & _). cbn. auto.
Qed.

(** ** Deep equality terminates *)

Definition locs (h : Heap) : list loc := fst <$> map_to_list (objs h).
Definition pairs (h : Heap) : list (loc * loc) := list_prod (locs h) (locs h).
Definition fresh (h : Heap) (vis : visited) : nat := length (filter (fun p => p ∉ vis) (pairs h)).

Lemma length_locs h : length (locs h) = size (objs h).
Proof. unfold locs. rewrite length_fmap, length_map_to_list. reflexivity. Qed.

Lemma elem_of_locs h l o : objs h !! l = Some o -> l ∈ locs h.
Proof. intros E. apply list_elem_of_fmap. exists (l, o). split; [reflexivity|]. apply elem_of_map_to_list, E. Qed.

Lemma pairs_spec h a b : a ∈ locs h -> b ∈ locs h -> canon a b ∈ pairs h.
Proof.
  rewrite !list_elem_of_In. intros Ha Hb. unfold canon, pairs.
  destruct (_ <=? _)%nat; apply in_prod; assumption.
Qed.

Lemma fresh_le h : (fresh h ∅ <= size (objs h) * size (objs h))%nat.
Proof.
  unfold fresh, pairs. etransitivity; [apply length_filter|]. rewrite length_prod, length_locs. reflexivity.
Qed.

Lemma filter_visit (l : list (loc * loc)) (vis : visited) p :
  (length (filter (fun x => x ∉ {[p]} ∪ vis) l) <= length (filter (fun x => x ∉ vis) l))%nat /\
  (p ∈ l -> p ∉ vis -> length (filter (fun x => x ∉ {[p]} ∪ vis) l) < length (filter (fun x => x ∉ vis) l))%nat.
Proof.
  induction l as [|x l [IH1 IH2]]; [split; [reflexivity | intros Hp; inversion Hp]|].
  rewrite !filter_cons. destruct (decide (x = p)) as [->|N].
  - rewrite decide_False by set_solver. destruct (decide (p ∉ vis)); cbn [length]; split; intros; try lia; contradiction.
  - destruct (decide (x ∉ {[p]} ∪ vis)), (decide (x ∉ vis)); try set_solver; cbn [length];
      (split; [lia|]); intros Hp Hv; apply elem_of_cons in Hp as [->|Hp]; try congruence; specialize (IH2 Hp Hv); lia.
Qed.

(** A total answer that does not need more fresh pairs than before. *)
Definition total (h : Heap) (vis : visited) (r : option (bool * visited)) : Prop :=
  exists b vis', r = Some (b, vis') /\ (fresh h vis' <= fresh h vis)%nat.

Lemma total_here h vis b : total h vis (Some (b, vis)).
Proof. exists b, vis. auto. Qed.

Lemma deep_seq_total h n eq d1 d2 vis :
  (forall vis x y, (fresh h vis <= n)%nat -> total h vis (eq vis x y)) ->
  (fresh h vis <= n)%nat -> total h vis (deep_seq eq vis d1 d2).
Proof.
  intros Heq. revert d2 vis. induction d1 as [|x d1 IH]; intros [|y d2] vis Hv; cbn [deep_seq];
    try apply total_here.
  destruct (Heq vis x y Hv) as (b & vis' & E & Hle). rewrite E. destruct b; [|exists false, vis'; auto].
  destruct (IH d2 vis') as (b & vis'' & E' & Hle'); [lia|]. exists b, vis''. auto with lia.
Qed.

Lemma deep_ptr_total h vis l1 l2 k :
  (forall vis', ((fresh h vis' < fresh h vis)%nat \/ objs h !! l1 = None \/ objs h !! l2 = None) -> total h vis' (k vis')) ->
  total h vis (deep_ptr vis l1 l2 k).
Proof.
  intros Hk. unfold deep_ptr. destruct (filter_visit (pairs h) vis (canon l1 l2)) as [F1 F2].
  destruct (decide _) as [|Hv]; [apply total_here|]. destruct (_ =? _)%nat; [eexists _, _; split; [reflexivity | exact F1]|].
  destruct (Hk ({[canon l1 l2]} ∪ vis)) as (b & vis' & E & Hle).
  - destruct (objs h !! l1) as [o1|] eqn:E1; [|auto]. destruct (objs h !! l2) as [o2|] eqn:E2; [|auto]. left.
    apply F2; [|exact Hv]. apply pairs_spec; eapply elem_of_locs; eassumption.
  - exists b, vis'. split; [exact E|]. unfold fresh in *. lia.
Qed.

Lemma deep_slices_total h n eq n1 n2 d1 d2 vis :
  (forall vis x y, (fresh h vis <= n)%nat -> total h vis (eq vis x y)) ->
  (fresh h vis <= n)%nat -> total h vis (deep_slices eq n1 n2 d1 d2 vis).
Proof. intros Heq Hv. unfold deep_slices. destruct (_ || _); [apply total_here | eapply deep_seq_total; eauto]. Qed.

Lemma deep_eq_total fuel h : forall vis v1 v2, (fresh h vis < fuel)%nat -> total h vis (deep_eq fuel h vis v1 v2).
Proof.
  induction fuel as [|f IH]; intros vis v1 v2 Hf; [lia|]. cbn [deep_eq].
  assert (Hrec : forall n vis x y, (n < f)%nat -> (fresh h vis <= n)%nat -> total h vis (deep_eq f h vis x y))
    by (intros; apply IH; lia).
  destruct v1, v2; try apply total_here; apply deep_ptr_total; intros vis' [Hlt|[->| ->]];
    try (repeat case_match; apply total_here);
    repeat case_match; try apply total_here;
    first [eapply deep_slices_total | eapply deep_seq_total]; try (intros; eapply Hrec; eauto); try reflexivity; lia.
Qed.

Lemma DeepEqual_fine h v1 v2 : fine (DeepEqual h v1 v2) (fun _ => True).
Proof.
  unfold DeepEqual. destruct (deep_eq_total (deep_fuel h) h ∅ v1 v2) as (b & vis & -> & _); [|exact I].
  unfold deep_fuel. pose proof (fresh_le h). lia.
Qed.

Lemma Equals_fine h v1 v2 : fine (Equals h v1 v2) (fun _ => True).
Proof.
  unfold Equals. destruct v1, v2; cbn [AsBytes]; try exact I. apply DeepEqual_fine.
Qed.

(** The only error of a copy. *)
Lemma cloneStruct_err fuel : forall s length h e,
  cloneStruct fuel s length h = Err e -> e = "over max struct clone length".
Proof.
  induction fuel as [|f IH]; intros s length h e E; [discriminate|]. cbn [cloneStruct] in E.
  destruct (_ <? _); [injection E as <-; reflexivity|].
  unfold struct_data in E. destruct (objs h !! s) as [[| |]|]; cbn [res_bind] in E; try discriminate.
  assert (Hit : forall data arr length h, clone_items (cloneStruct f) data arr length h = Err e -> e = "over max struct clone length").
  { intros d. induction d as [|v d IHd]; intros arr len h0 Ed; [discriminate|].
    cbn [clone_items] in Ed. destruct v; eauto.
    destruct (cloneStruct f structval (len + 1) h0) as [[[? ?] ?]|e'|] eqn:Ec; cbn in Ed; eauto; [|discriminate].
    injection Ed as <-. eauto. }
  destruct (clone_items _ _ _ _ _) as [[[? ?] ?]|e'|] eqn:Ec; cbn in E; try discriminate.
  injection E as <-. eauto.
Qed.

(** C28: copying a struct and comparing values terminate without a panic on
    every well-formed heap: the length check bounds the recursion of
    [cloneStruct], and [Equals] visits every pair of objects at most once; the
    copy leaves the heap well-formed and refers to a struct. *)
Theorem clone_and_equals_terminate h s v1 v2 :
  heap_ok h -> has_kind h s KStruct ->
  (exists b, Equals h v1 v2 = Ok b) /\
  match StructClone s h with
  | Ok (l, h') => heap_ok h' /\ heap_ext h h' /\ has_kind h' l KStruct
  | Err e => e = "over max struct clone length"
  | Panic => False
  end.
Proof.
  intros Hh Hs. split.
  - pose proof (Equals_fine h v1 v2) as Hf. unfold Equals, DeepEqual in *.
    destruct v1, v2; cbn [AsBytes] in *; eauto. case_match; [|contradiction]. destruct p. eauto.
  - pose proof (StructClone_fine h s Hh Hs) as Hf. unfold StructClone in *.
    destruct (cloneStruct clone_fuel s 0 h) as [[[l len] h']|e|] eqn:E; cbn in Hf |- *; [|eapply cloneStruct_err; eauto | exact Hf].
    destruct Hf as [[? ?] ?]. auto.
Qed.

End Heap.

(** A machine without interop objects, for the witnesses. *)
Definition no_interops : Interops := {| Interop := Empty_set; ToArray := fun x => match x with end;
  interop_deep_eq := fun x _ => match x with end |}.

(** The heap with one struct that holds the number 7. *)
Definition one_struct : @Heap no_interops := mkHeap {[ 0%nat := OStruct false [VInt 7] ]} 1%nat.

Lemma one_struct_ok : @heap_ok no_interops one_struct /\ @has_kind no_interops one_struct 0%nat KStruct.
Proof.
  split.
  - intros l o E. unfold one_struct in E; cbn [objs] in E. apply lookup_singleton_Some in E as [<- <-].
    split; [cbn; lia|]. split; [vm_compute; discriminate|]. constructor; [cbn; words | constructor].
  - eexists. split; reflexivity.
Qed.

Lemma clone_and_equals_terminate_witness :
  exists l h', @StructClone no_interops 0%nat one_struct = Ok (l, h') /\ @heap_ok no_interops h' /\
    exists b, @Equals no_interops one_struct (VStruct 0%nat) (VStruct 0%nat) = Ok b.
Proof.
  destruct one_struct_ok as [Hh Hs].
  destruct (@clone_and_equals_terminate no_interops one_struct 0%nat (VStruct 0%nat) (VStruct 0%nat) Hh Hs) as [Hb Hc].
  assert (E : exists l h', @StructClone no_interops 0%nat one_struct = Ok (l, h'))
    by (eexists _, _; vm_compute; reflexivity).
  destruct E as (l & h' & E). rewrite E in Hc. exists l, h'. split; [exact E|]. split; [apply Hc | exact Hb].
Defined.
