(* ===== verification/VmReader.v ===== *)
(** * Reading code: [vm/neovm/utils/vm_reader.go], [vm/neovm/execution_context.go]

    [VmReader] wraps a [bytes.Reader] over the contract code; an
    [ExecutionContext] is the code with a reader on it. *)

From S2P Require Import Prelude Codec.

(** ** [VmReader] *)

Record VmReader := mkReader { BaseStream : list byte; index : Z; AllowEOF : bool }.
Abbreviation RM A := (ST VmReader A).

Definition EOF : gerror := "EOF".

Definition NewVmReader (b : list byte) : VmReader := mkReader b 0 false.

(** [bytes.Reader.Len]: the unread bytes. *)
Definition Length (r : VmReader) : Z :=
  if zlen (BaseStream r) <=? index r then 0 else zlen (BaseStream r) - index r.
Definition Position (r : VmReader) : Z := zlen (BaseStream r) - Length r.

Definition seek_to (i : Z) (r : VmReader) : VmReader := mkReader (BaseStream r) i (AllowEOF r).

(** [Seek(offset, io.SeekStart)] may go past the end. *)
Definition Seek (offset : Z) : RM unit := fun r =>
  if offset <? 0 then Err "bytes.Reader.Seek: negative position" else Ok ((), seek_to offset r).

Definition ReadByte : RM byte := fun r =>
  if zlen (BaseStream r) <=? index r then Err EOF
  else match BaseStream r !! Z.to_nat (index r) with
       | Some b => Ok (b, seek_to (index r + 1) r)
       | None => Panic
       end.

(** [bytes.Reader.Read] into a zeroed buffer of [count] bytes: it copies what is
    left and reports the end of the input only when nothing is left. *)
Definition read_into (count : Z) : RM (list byte) := fun r =>
  if zlen (BaseStream r) <=? index r then Err EOF
  else
    let b := take (Z.to_nat count) (drop (Z.to_nat (index r)) (BaseStream r)) in
    Ok (b ++ repeat x00 (Z.to_nat count - length b), seek_to (index r + zlen b) r).

Definition ReadBytes (count : Z) : RM (list byte) := fun r =>
  let amount := if AllowEOF r then 1 * 1024 * 1024 else Length r in
  if amount <? count then Err EOF else read_into count r.

Definition ReadUint16 : RM Z := do b <- read_into 2; st_ret (le2z b).
Definition ReadUint32 : RM Z := do b <- read_into 4; st_ret (le2z b).
Definition ReadUint64 : RM Z := do b <- read_into 8; st_ret (le2z b).
Definition ReadInt16 : RM Z := do val <- ReadUint16; st_ret (s16 val).
Definition ReadInt32 : RM Z := do val <- ReadUint32; st_ret (s32 val).

(** [ReadVarInt] ignores the error of its first read (the byte is then 0). *)
Definition ReadVarInt (max : Z) : RM Z := fun r =>
  let '(fb, r) := match ReadByte r with Ok (b, r) => (bz b, r) | _ => (0, r) end in
  match (if fb =? 253 then do val <- ReadInt16; st_ret (u64 val)
         else if fb =? 254 then ReadUint32
         else if fb =? 255 then ReadUint64
         else st_ret fb) r with
  | Ok (value, r) => if max <? value then Ok (0, r) else Ok (value, r)
  | Err e => Err e
  | Panic => Panic
  end.

Definition ReadVarBytes (max : Z) : RM (list byte) := do n <- ReadVarInt max; ReadBytes (s64 n).

Definition ReadVarString (maxlen : Z) : RM (list byte) := ReadVarBytes maxlen.

(** ** [ExecutionContext] *)

Record VmFeatureFlag := mkFlag { DisableHasKey : bool; AllowReaderEOF : bool }.

Record ExecutionContext := mkCtx {
  Code : list byte;
  OpReader : VmReader;
  InstructionPointer : Z;
  vmFlags : VmFeatureFlag
}.

Definition NewExecutionContext (code : list byte) (flag : VmFeatureFlag) : ExecutionContext :=
  mkCtx code (mkReader code 0 (AllowReaderEOF flag)) 0 flag.

Definition GetInstructionPointer (ec : ExecutionContext) : Z := Position (OpReader ec).

Definition with_reader {A} (c : RM A) : ST ExecutionContext A := fun ec =>
  match c (OpReader ec) with
  | Ok (a, r) => Ok (a, mkCtx (Code ec) r (InstructionPointer ec) (vmFlags ec))
  | Err e => Err e
  | Panic => Panic
  end.

Definition SetInstructionPointer (offset : Z) : ST ExecutionContext unit := with_reader (Seek offset).

(** The opcode under the pointer; indexing behind the code panics. *)
Definition NextInstruction (ec : ExecutionContext) : res Z :=
  match Code ec !! Z.to_nat (Position (OpReader ec)) with Some b => Ok (bz b) | None => Panic end.

Definition ReadOpCode : ST ExecutionContext Z := with_reader (do code <- ReadByte; st_ret (bz code)).

(** [Clone]: a new reader at the same position; the error of the seek is
    ignored. *)
Definition Clone (ec : ExecutionContext) : ExecutionContext :=
  let context := NewExecutionContext (Code ec) (vmFlags ec) in
  let context := mkCtx (Code context) (OpReader context) (InstructionPointer ec) (vmFlags context) in
  match SetInstructionPointer (GetInstructionPointer ec) context with
  | Ok (_, context) => context
  | _ => context
  end.

(** ** Well-formed contexts *)

Definition ctx_ok (ec : ExecutionContext) : Prop :=
  BaseStream (OpReader ec) = Code ec /\ 0 <= index (OpReader ec).

Definition reader_ok (r : VmReader) : Prop := 0 <= index r.

(** A reader operation that keeps its input and does not panic. *)
Definition reads {A} (c : RM A) (Q : A -> Prop) : Prop :=
  forall r, reader_ok r ->
  match c r with
  | Ok (a, r') => BaseStream r' = BaseStream r /\ AllowEOF r' = AllowEOF r /\ reader_ok r' /\ Q a
  | Err _ => True
  | Panic => False
  end.

Lemma reads_bind {A B} (c : RM A) (k : A -> RM B) (Q : A -> Prop) (R : B -> Prop) :
  reads c Q -> (forall a, Q a -> reads (k a) R) -> reads (st_bind c k) R.
Proof.
  intros Hc Hk r Hr. specialize (Hc r Hr). unfold st_bind. destruct (c r) as [[a r1]|e|]; auto.
  destruct Hc as (E1 & E2 & Hr1 & Qa). specialize (Hk a Qa r1 Hr1). destruct (k a r1) as [[b r2]|e|]; auto.
  destruct Hk as (E3 & E4 & Hr2 & Rb). rewrite E3, E4. auto.
Qed.

Lemma reads_ret {A} (a : A) (Q : A -> Prop) : Q a -> reads (st_ret a) Q.
Proof. intros Qa r Hr. cbn. auto. Qed.

Lemma reads_ReadByte : reads ReadByte (fun _ => True).
Proof.
  intros r Hr. unfold reader_ok in Hr. unfold ReadByte. destruct (Z.leb_spec (zlen (BaseStream r)) (index r)); [exact I|].
  destruct (lookup_lt_is_Some_2 (BaseStream r) (Z.to_nat (index r))) as [b ->]; [unfold zlen in *; lia|].
  cbn. unfold reader_ok; cbn. auto with lia.
Qed.

Lemma reads_read_into n : 0 <= n -> reads (read_into n) (fun b => zlen b = n).
Proof.
  intros Hn r Hr. unfold reader_ok in Hr. unfold read_into.
  destruct (Z.leb_spec (zlen (BaseStream r)) (index r)); [exact I|]. cbn.
  set (b := take _ _). assert (Hb : (length b <= Z.to_nat n)%nat) by (unfold b; rewrite length_take; lia).
  split; [reflexivity|]. split; [reflexivity|]. split.
  - unfold reader_ok; cbn. pose proof (zlen_nonneg b). lia.
  - unfold zlen. rewrite length_app, repeat_length. lia.
Qed.

Lemma reads_ReadBytes n : 0 <= n -> reads (ReadBytes n) (fun b => zlen b = n).
Proof.
  intros Hn r Hr. unfold ReadBytes. destruct (_ <? n); [exact I|]. apply reads_read_into; assumption.
Qed.

Lemma le2z_bound b n : zlen b = n -> 0 <= le2z b < 256 ^ n.
Proof. intros <-. pose proof (le2z_range b). unfold zlen. lia. Qed.

Lemma reads_uint n c : 0 <= n -> c = (do b <- read_into n; st_ret (le2z b)) -> reads c (fun z => 0 <= z < 256 ^ n).
Proof.
  intros Hn ->. eapply reads_bind; [apply reads_read_into, Hn|]. intros b Hb. apply reads_ret, le2z_bound, Hb.
Qed.

Lemma reads_ReadInt16 : reads ReadInt16 (fun z => - 2 ^ 15 <= z < 2 ^ 15).
Proof.
  eapply reads_bind; [apply (reads_uint 2); [lia | reflexivity]|]. intros b Hb. apply reads_ret.
  unfold s16, swrap. change (16 - 1) with 15. pose proof (Z.mod_pos_bound (b + 2 ^ 15) (2 ^ 16) eq_refl). lia.
Qed.

Lemma Position_range r : reader_ok r -> 0 <= Position r <= zlen (BaseStream r).
Proof.
  unfold reader_ok, Position, Length. intros. pose proof (zlen_nonneg (BaseStream r)).
  destruct (Z.leb_spec (zlen (BaseStream r)) (index r)); lia.
Qed.

Lemma Clone_ok ec : ctx_ok ec -> ctx_ok (Clone ec) /\ Code (Clone ec) = Code ec.
Proof.
  intros [E Hi]. unfold Clone, SetInstructionPointer, with_reader, Seek, ctx_ok.
  pose proof (Position_range (OpReader ec) Hi) as Hp. unfold GetInstructionPointer.
  rewrite (proj2 (Z.ltb_ge _ 0)) by lia. cbn. auto with lia.
Qed.

(** [NextInstruction] is the opcode the loop reads next, and panics at the end of the code, where the loop stops. *)
Lemma NextInstruction_spec ec : ctx_ok ec ->
  match ReadOpCode ec with Ok (op, _) => NextInstruction ec = Ok op | _ => NextInstruction ec = Panic end.
Proof.
  intros [Hb Hi]. unfold NextInstruction, ReadOpCode, with_reader, st_bind, ReadByte, Position, Length. rewrite Hb.
  destruct (Z.leb_spec (zlen (Code ec)) (index (OpReader ec))) as [H|H].
  - rewrite lookup_ge_None_2; [reflexivity|]. unfold zlen in *. lia.
  - replace (Z.to_nat (zlen (Code ec) - (zlen (Code ec) - index (OpReader ec)))) with (Z.to_nat (index (OpReader ec))) by lia.
    destruct (lookup_lt_is_Some_2 (Code ec) (Z.to_nat (index (OpReader ec)))) as [b ->]; [unfold zlen in *; lia | reflexivity].
Qed.
