(* ===== verification/Executor.v ===== *)
(** * The NeoVM interpreter: [vm/neovm/opcode.go], [vm/neovm/executor.go]

    The state is the [Executor] with the heap its values live in.  [ExecuteOp]
    is split by the sections of the switch statement.  An error abandons the
    engine, so a failed operation carries no state; [THROW] is not an error but
    the state [FAULT].  In the code the current context is both a field and an
    argument of [ExecuteOp], the same pointer at every call; here it is the
    field. *)

From S2P Require Import Prelude Codec BigInt IntValue VmValue ValueStack VmReader.

(** ** Opcodes *)

Inductive OpCode :=
  | PUSH0 | PUSHBYTES (n : Z) | PUSHDATA1 | PUSHDATA2 | PUSHDATA4 | PUSHNUM (opcode : Z)
  | NOP | JMP | JMPIF | JMPIFNOT | CALL | RET | APPCALL | SYSCALL | TAILCALL
  | DUPFROMALTSTACK | TOALTSTACK | FROMALTSTACK | XDROP | DCALL | XSWAP | XTUCK | DEPTH | DROP | DUP | NIP
  | OVER | PICK | ROLL | ROT | SWAP | TUCK
  | CAT | SUBSTR | LEFT | RIGHT | SIZE
  | INVERT | AND | OR | XOR | EQUAL
  | INC | DEC | SIGN | NEGATE | ABS | NOT | NZ | ADD | SUB | MUL | DIV | MOD | SHL | SHR | BOOLAND | BOOLOR
  | NUMEQUAL | NUMNOTEQUAL | LT | GT | LTE | GTE | MIN | MAX | WITHIN
  | SHA1 | SHA256 | HASH160 | HASH256 | CHECKSIG | VERIFY | CHECKMULTISIG
  | ARRAYSIZE | PACK | UNPACK | PICKITEM | SETITEM | NEWARRAY | NEWSTRUCT | NEWMAP | APPEND | REVERSE | REMOVE
  | HASKEY | KEYS | VALUES
  | THROW | THROWIFNOT
  | UNKNOWN (opcode : Z).

(** The constants of [opcode.go]. *)
Definition opcode_table : list (Z * OpCode) :=
  [(0x00, PUSH0); (0x4C, PUSHDATA1); (0x4D, PUSHDATA2); (0x4E, PUSHDATA4);
   (0x61, NOP); (0x62, JMP); (0x63, JMPIF); (0x64, JMPIFNOT); (0x65, CALL); (0x66, RET);
   (0x67, APPCALL); (0x68, SYSCALL); (0x69, TAILCALL);
   (0x6A, DUPFROMALTSTACK); (0x6B, TOALTSTACK); (0x6C, FROMALTSTACK); (0x6D, XDROP); (0x6E, DCALL);
   (0x72, XSWAP); (0x73, XTUCK); (0x74, DEPTH); (0x75, DROP); (0x76, DUP); (0x77, NIP); (0x78, OVER);
   (0x79, PICK); (0x7A, ROLL); (0x7B, ROT); (0x7C, SWAP); (0x7D, TUCK);
   (0x7E, CAT); (0x7F, SUBSTR); (0x80, LEFT); (0x81, RIGHT); (0x82, SIZE);
   (0x83, INVERT); (0x84, AND); (0x85, OR); (0x86, XOR); (0x87, EQUAL);
   (0x8B, INC); (0x8C, DEC); (0x8D, SIGN); (0x8F, NEGATE); (0x90, ABS); (0x91, NOT); (0x92, NZ);
   (0x93, ADD); (0x94, SUB); (0x95, MUL); (0x96, DIV); (0x97, MOD); (0x98, SHL); (0x99, SHR);
   (0x9A, BOOLAND); (0x9B, BOOLOR); (0x9C, NUMEQUAL); (0x9E, NUMNOTEQUAL);
   (0x9F, LT); (0xA0, GT); (0xA1, LTE); (0xA2, GTE); (0xA3, MIN); (0xA4, MAX); (0xA5, WITHIN);
   (0xA7, SHA1); (0xA8, SHA256); (0xA9, HASH160); (0xAA, HASH256);
   (0xAC, CHECKSIG); (0xAD, VERIFY); (0xAE, CHECKMULTISIG);
   (0xC0, ARRAYSIZE); (0xC1, PACK); (0xC2, UNPACK); (0xC3, PICKITEM); (0xC4, SETITEM); (0xC5, NEWARRAY);
   (0xC6, NEWSTRUCT); (0xC7, NEWMAP); (0xC8, APPEND); (0xC9, REVERSE); (0xCA, REMOVE);
   (0xCB, HASKEY); (0xCC, KEYS); (0xCD, VALUES);
   (0xF0, THROW); (0xF1, THROWIFNOT)].

Fixpoint assoc_op (z : Z) (t : list (Z * OpCode)) : option OpCode :=
  match t with [] => None | (k, o) :: t' => if z =? k then Some o else assoc_op z t' end.

Definition decode (z : Z) : OpCode :=
  if (0x01 <=? z) && (z <=? 0x4B) then PUSHBYTES z
  else if (z =? 0x4F) || ((0x51 <=? z) && (z <=? 0x60)) then PUSHNUM z
  else match assoc_op z opcode_table with Some o => o | None => UNKNOWN z end.

(** ** [VMState] *)

Definition NONE : Z := 0.
Definition HALT : Z := 1.
Definition FAULT : Z := 2.
Definition BREAK : Z := 4.

Definition STACK_LIMIT : Z := 2 * 1024.
Definition MAX_INVOCATION_STACK_SIZE : Z := 1024.

Definition ERR_FAULT : gerror := "the exeution meet fault".
Definition ERR_NOT_SUPPORT_OPCODE : gerror := "does not support the operation code".
Definition ERR_DCALL_OFFSET_ERROR : gerror := "DCALL offset is not right".
Definition ERR_MAP_NOT_EXIST : gerror := "map not contain key".

(** Hashes and signatures: crypto/sha1, crypto/sha256, x/crypto/ripemd160,
    dad-go-crypto. *)
Class Crypto := {
  sha1 : list byte -> list byte;
  sha256 : list byte -> list byte;
  ripemd160 : list byte -> list byte;
  PublicKey : Type;
  DeserializePublicKey : list byte -> gerror + PublicKey;
  signature_Verify : PublicKey -> list byte -> list byte -> bool
}.

Section Engine.
Context `{Interops} `{Overflow} `{Crypto}.

Record Executor := mkExec {
  EvalStack : ValueStack;
  AltStack : ValueStack;
  State : Z;
  Features : VmFeatureFlag;
  Callers : list ExecutionContext;
  Context : option ExecutionContext;
  heap : Heap
}.
Abbreviation EM A := (ST Executor A).

Definition NewExecutor (code : list byte) (feature : VmFeatureFlag) : Executor :=
  mkExec (NewValueStack STACK_LIMIT) (NewValueStack STACK_LIMIT) BREAK feature []
    (Some (NewExecutionContext code feature)) (mkHeap ∅ 0%nat).

(** Running an operation of a component. *)
Definition on_eval {A} (c : ST ValueStack A) : EM A := fun e =>
  match c (EvalStack e) with
  | Ok (a, s) => Ok (a, mkExec s (AltStack e) (State e) (Features e) (Callers e) (Context e) (heap e))
  | Err m => Err m
  | Panic => Panic
  end.
Definition on_alt {A} (c : ST ValueStack A) : EM A := fun e =>
  match c (AltStack e) with
  | Ok (a, s) => Ok (a, mkExec (EvalStack e) s (State e) (Features e) (Callers e) (Context e) (heap e))
  | Err m => Err m
  | Panic => Panic
  end.
Definition on_ctx {A} (c : ST ExecutionContext A) : EM A := fun e =>
  match Context e with
  | None => Panic
  | Some x =>
      match c x with
      | Ok (a, x) => Ok (a, mkExec (EvalStack e) (AltStack e) (State e) (Features e) (Callers e) (Some x) (heap e))
      | Err m => Err m
      | Panic => Panic
      end
  end.
Definition on_reader {A} (c : ST VmReader A) : EM A := on_ctx (with_reader c).
Definition on_heap {A} (c : Heap -> res (A * Heap)) : EM A := fun e =>
  match c (heap e) with
  | Ok (a, h) => Ok (a, mkExec (EvalStack e) (AltStack e) (State e) (Features e) (Callers e) (Context e) h)
  | Err m => Err m
  | Panic => Panic
  end.
Definition read_heap {A} (c : Heap -> res A) : EM A := on_heap (fun h => let* a := c h in Ok (a, h)).
Definition write_heap (c : Heap -> res Heap) : EM unit := on_heap (fun h => let* h := c h in Ok ((), h)).
Definition new_object (o : HObj) : EM loc := on_heap (fun h => Ok (alloc o h)).

(** ** Contexts *)

Definition PushContext (context : ExecutionContext) : EM unit := fun e =>
  if MAX_INVOCATION_STACK_SIZE <=? zlen (Callers e) then Err ERR_OVER_STACK_LEN
  else Ok ((), mkExec (EvalStack e) (AltStack e) (State e) (Features e) (Callers e ++ [context]) (Context e) (heap e)).

Definition PopContext : EM ExecutionContext := fun e =>
  let total := zlen (Callers e) in
  if total =? 0 then Err ERR_INDEX_OUT_OF_BOUND
  else match Callers e !! Z.to_nat (total - 1) with
       | Some c => Ok (c, mkExec (EvalStack e) (AltStack e) (State e) (Features e)
                            (take (Z.to_nat (total - 1)) (Callers e)) (Context e) (heap e))
       | None => Panic
       end.

Definition set_Context (c : option ExecutionContext) (e : Executor) : Executor :=
  mkExec (EvalStack e) (AltStack e) (State e) (Features e) (Callers e) c (heap e).
Definition set_State (s : Z) (e : Executor) : Executor :=
  mkExec (EvalStack e) (AltStack e) s (Features e) (Callers e) (Context e) (heap e).

Definition checkFeaturesEnabled (opcode : OpCode) (e : Executor) : res unit :=
  match opcode with
  | HASKEY | KEYS | DCALL | VALUES =>
      if DisableHasKey (Features e) then Err ERR_NOT_SUPPORT_OPCODE else Ok ()
  | _ => Ok ()
  end.

(** ** [ExecuteOp] *)

Definition push_data (data : list byte) : EM Z :=
  do val <- st_lift (VmValueFromBytes data);
  do_ on_eval (Push val);
  st_ret NONE.

Definition exec_push (op : OpCode) : EM Z :=
  match op with
  | PUSHBYTES n => do buf <- on_reader (ReadBytes n); push_data buf
  | PUSH0 => do_ on_eval (Push (VmValueFromInt64 0)); st_ret NONE
  | PUSHDATA1 => do d <- on_reader ReadByte; do data <- on_reader (ReadBytes (bz d)); push_data data
  | PUSHDATA2 => do num <- on_reader ReadUint16; do data <- on_reader (ReadBytes num); push_data data
  | PUSHDATA4 => do num <- on_reader ReadUint32; do data <- on_reader (ReadBytes num); push_data data
  | PUSHNUM opcode => do_ on_eval (Push (VmValueFromInt64 (opcode - 0x51 + 1))); st_ret NONE
  | _ => st_err ERR_NOT_SUPPORT_OPCODE
  end.

(** The jump: [CALL] has pushed its caller before. *)
Definition exec_jump (op : OpCode) : EM Z :=
  do num <- on_reader ReadInt16;
  do offset <- on_ctx (fun c => Ok (GetInstructionPointer c + num - 3, c));
  do len <- on_ctx (fun c => Ok (zlen (Code c), c));
  do_ st_guard (negb ((offset <? 0) || (len <? offset))) ERR_FAULT;
  do needJmp <- match op with
                | JMP => st_ret true
                | JMPIF => on_eval PopAsBool
                | _ => do val <- on_eval PopAsBool; st_ret (negb val)
                end;
  if needJmp : bool then do_ on_ctx (SetInstructionPointer offset); st_ret NONE
  else st_ret NONE.

Definition exec_flow (op : OpCode) : EM Z :=
  match op with
  | NOP => st_ret NONE
  | JMP | JMPIF | JMPIFNOT => exec_jump op
  | CALL =>
      do caller <- on_ctx (fun c => Ok (Clone c, c));
      do caller <- st_lift (match SetInstructionPointer (GetInstructionPointer caller + 2) caller with
                            | Ok (_, c) => Ok c | Err m => Err m | Panic => Panic end);
      do_ PushContext caller;
      exec_jump JMP
  | DCALL =>
      do caller <- on_ctx (fun c => Ok (Clone c, c));
      do_ PushContext caller;
      do target <- on_eval PopAsInt64;
      do len <- on_ctx (fun c => Ok (zlen (Code c), c));
      do_ st_guard (negb ((target <? 0) || (len <=? target))) ERR_DCALL_OFFSET_ERROR;
      do_ on_ctx (SetInstructionPointer target);
      st_ret NONE
  | RET => fun e =>
      match PopContext e with
      | Ok (c, e) => Ok (NONE, set_Context (Some c) e)
      | Err _ => Ok (NONE, set_Context None e)
      | Panic => Panic
      end
  | _ => st_err ERR_NOT_SUPPORT_OPCODE
  end.

Definition exec_stack (op : OpCode) : EM Z :=
  match op with
  | DUPFROMALTSTACK => do val <- on_alt (Peek 0); do_ on_eval (Push val); st_ret NONE
  | TOALTSTACK => do val <- on_eval Pop; do_ on_alt (Push val); st_ret NONE
  | FROMALTSTACK => do val <- on_alt Pop; do_ on_eval (Push val); st_ret NONE
  | XDROP => do n <- on_eval PopAsInt64; do_ on_eval (Remove n); st_ret NONE
  | XSWAP => do n <- on_eval PopAsInt64; do_ on_eval (Swap 0 n); st_ret NONE
  | XTUCK => do n <- on_eval PopAsInt64; do val <- on_eval (Peek 0); do_ on_eval (Insert n val); st_ret NONE
  | DEPTH => do n <- on_eval Count; do_ on_eval (PushInt64 n); st_ret NONE
  | DROP => do_ on_eval Pop; st_ret NONE
  | DUP => do val <- on_eval (Peek 0); do_ on_eval (Push val); st_ret NONE
  | NIP => do '(_, val) <- on_eval PopPair; do_ on_eval (Push val); st_ret NONE
  | OVER => do val <- on_eval (Peek 1); do_ on_eval (Push val); st_ret NONE
  | PICK => do n <- on_eval PopAsInt64; do val <- on_eval (Peek n); do_ on_eval (Push val); st_ret NONE
  | ROT => do val <- on_eval (Remove 2); do_ on_eval (Push val); st_ret NONE
  | ROLL => do n <- on_eval PopAsInt64; do val <- on_eval (Remove n); do_ on_eval (Push val); st_ret NONE
  | SWAP => do_ on_eval (Swap 0 1); st_ret NONE
  | TUCK => do '(x1, x2) <- on_eval PopPair; do_ on_eval (PushMany [x2; x1; x2]); st_ret NONE
  | _ => st_err ERR_NOT_SUPPORT_OPCODE
  end.

(** [arr[i:j]], which panics out of range. *)
Definition st_slice (arr : list byte) (i j : Z) : EM (list byte) :=
  match slice arr i j with Some b => st_ret b | None => st_panic end.

Definition exec_splice (op : OpCode) : EM Z :=
  match op with
  | CAT => do '(lhs, rhs) <- on_eval PopPairAsBytes; do_ on_eval (PushBytes (lhs ++ rhs)); st_ret NONE
  | SUBSTR =>
      do '(start, count) <- on_eval PopPairAsInt64;
      do arr <- on_eval PopAsBytes;
      let length := zlen arr in
      do_ st_guard (negb ((start <? 0) || (length <? start))) ERR_OVER_MAX_ARRAY_SIZE;
      do_ st_guard (negb ((count <? 0) || (length <? count))) ERR_OVER_MAX_ARRAY_SIZE;
      let end_ := s64 (start + count) in
      do_ st_guard (negb (length <? end_)) ERR_OVER_MAX_ARRAY_SIZE;
      do b <- st_slice arr start end_;
      do_ on_eval (PushBytes b); st_ret NONE
  | LEFT =>
      do count <- on_eval PopAsInt64;
      do arr <- on_eval PopAsBytes;
      do_ st_guard (negb ((count <? 0) || (zlen arr <? count))) ERR_OVER_MAX_ARRAY_SIZE;
      do b <- st_slice arr 0 count;
      do_ on_eval (PushBytes b); st_ret NONE
  | RIGHT =>
      do count <- on_eval PopAsInt64;
      do arr <- on_eval PopAsBytes;
      do_ st_guard (negb ((count <? 0) || (zlen arr <? count))) ERR_OVER_MAX_ARRAY_SIZE;
      do b <- st_slice arr (zlen arr - count) (zlen arr);
      do_ on_eval (PushBytes b); st_ret NONE
  | SIZE => do arr <- on_eval PopAsBytes; do_ on_eval (PushInt64 (zlen arr)); st_ret NONE
  | _ => st_err ERR_NOT_SUPPORT_OPCODE
  end.

Definition push_int (val : IntValue) : EM Z := do_ on_eval (Push (VmValueFromIntValue val)); st_ret NONE.
Definition push_bool (val : bool) : EM Z := do_ on_eval (PushBool val); st_ret NONE.

Definition exec_bitwise (op : OpCode) : EM Z :=
  match op with
  | INVERT => do lhs <- on_eval PopAsIntValue; push_int (Not lhs)
  | AND => do '(lhs, rhs) <- on_eval PopPairAsIntVal; do val <- st_lift (And lhs rhs); push_int val
  | OR => do '(lhs, rhs) <- on_eval PopPairAsIntVal; do val <- st_lift (Or lhs rhs); push_int val
  | XOR => do '(lhs, rhs) <- on_eval PopPairAsIntVal; do val <- st_lift (Xor lhs rhs); push_int val
  | EQUAL =>
      do '(lhs, rhs) <- on_eval PopPair;
      do b <- read_heap (fun h => Equals h lhs rhs);
      push_bool b
  | _ => st_err ERR_NOT_SUPPORT_OPCODE
  end.

Definition exec_unary (op : OpCode) : EM Z :=
  do x <- on_eval PopAsIntValue;
  match op with
  | INC => do val <- st_lift (Add x (IntValFromInt 1)); push_int val
  | DEC => do val <- st_lift (Sub x (IntValFromInt 1)); push_int val
  | SIGN => push_int (IntValFromInt (Cmp x (IntValFromInt 0)))
  | NEGATE => do val <- st_lift (Sub (IntValFromInt 0) x); push_int val
  | ABS => push_int (Abs x)
  | _ => push_bool (negb (Cmp x (IntValFromInt 0) =? 0)) (* NZ *)
  end.

Definition binary_op (op : OpCode) (lhs rhs : IntValue) : res IntValue :=
  match op with
  | ADD => Add lhs rhs
  | SUB => Sub lhs rhs
  | MUL => Mul lhs rhs
  | DIV => Div lhs rhs
  | MOD => Mod lhs rhs
  | MAX => Max lhs rhs
  | MIN => Min lhs rhs
  | SHL => Lsh lhs rhs
  | _ => Rsh lhs rhs (* SHR *)
  end.

Definition compare_op (op : OpCode) (c : Z) : bool :=
  match op with
  | LT => c <? 0
  | GT => 0 <? c
  | LTE => c <=? 0
  | GTE => 0 <=? c
  | NUMEQUAL => c =? 0
  | _ => negb (c =? 0) (* NUMNOTEQUAL *)
  end.

Definition exec_arith (op : OpCode) : EM Z :=
  match op with
  | INC | DEC | SIGN | NEGATE | ABS | NZ => exec_unary op
  | ADD | SUB | MUL | DIV | MOD | MAX | MIN | SHL | SHR =>
      do '(lhs, rhs) <- on_eval PopPairAsIntVal; do val <- st_lift (binary_op op lhs rhs); push_int val
  | NUMEQUAL | NUMNOTEQUAL =>
      do '(lhs, rhs) <- on_eval PopPairAsBytes;
      push_bool (compare_op op (big_Cmp (BigIntFromNeoBytes lhs) (BigIntFromNeoBytes rhs)))
  | LT | GT | LTE | GTE =>
      do '(leftVal, rightVal) <- on_eval PopPair;
      do lhs <- st_lift (AsBigInt leftVal);
      do rhs <- st_lift (AsBigInt rightVal);
      push_bool (compare_op op (big_Cmp lhs rhs))
  | BOOLAND => do '(lhs, rhs) <- on_eval PopPairAsBool; push_bool (lhs && rhs)
  | BOOLOR => do '(lhs, rhs) <- on_eval PopPairAsBool; push_bool (lhs || rhs)
  | NOT => do x <- on_eval PopAsBool; push_bool (negb x)
  | WITHIN =>
      do '(val, lhs, rhs) <- on_eval PopTripleAsIntVal;
      push_bool ((0 <=? Cmp val lhs) && (Cmp val rhs <? 0))
  | _ => st_err ERR_NOT_SUPPORT_OPCODE
  end.

Definition exec_crypto (op : OpCode) : EM Z :=
  match op with
  | SHA1 => do x <- on_eval PopAsBytes; push_data (sha1 x)
  | SHA256 => do x <- on_eval PopAsBytes; push_data (sha256 x)
  | HASH160 => do x <- on_eval PopAsBytes; push_data (ripemd160 (sha256 x))
  | HASH256 => do x <- on_eval PopAsBytes; push_data (sha256 (sha256 x))
  | VERIFY =>
      do '(pub, sig, data) <- on_eval PopTripleAsBytes;
      match DeserializePublicKey pub with
      | inl err => st_err err
      | inr key => push_bool (signature_Verify key data sig)
      end
  | _ => st_err ERR_NOT_SUPPORT_OPCODE
  end.

(** The loop of [PACK]: every round pops one value, so one more round than the
    stack has values is enough. *)
Fixpoint pack_loop (fuel : nat) (i size : Z) (array : list VmValue) : EM (list VmValue) :=
  match fuel with
  | O => st_panic
  | S f =>
      if i <? size then
        do val <- on_eval Pop;
        do array <- st_lift (data_append array val);
        pack_loop f (i + 1) size array
      else st_ret array
  end.

Fixpoint push_all (vals : list VmValue) : EM unit :=
  match vals with
  | [] => st_ret ()
  | v :: vals' => do_ on_eval (Push v); push_all vals'
  end.

Definition in_range (ind len : Z) : bool := negb ((ind <? 0) || (len <=? ind)).
Definition st_index {A} (l : list A) (ind : Z) : EM A :=
  match l !! Z.to_nat ind with Some v => st_ret v | None => st_panic end.

Definition pick_item (item index : VmValue) : EM VmValue :=
  match item with
  | VArray l =>
      do data <- read_heap (fun h => arr_data h l);
      do ind <- st_lift (AsInt64 index);
      do_ st_guard (in_range ind (zlen data)) ERR_INDEX_OUT_OF_BOUND;
      st_index data ind
  | VStruct l =>
      do data <- read_heap (fun h => struct_data h l);
      do ind <- st_lift (AsInt64 index);
      do_ st_guard (in_range ind (zlen data)) ERR_INDEX_OUT_OF_BOUND;
      st_index data ind
  | VMap l =>
      do value <- read_heap (MapGet l index);
      match value with Some v => st_ret v | None => st_err ERR_MAP_NOT_EXIST end
  | _ =>
      match AsBytes item with
      | Ok buf =>
          do ind <- st_lift (AsInt64 index);
          do_ st_guard (in_range ind (zlen buf)) ERR_INDEX_OUT_OF_BOUND;
          do b <- st_index buf ind;
          st_ret (VmValueFromInt64 (bz b))
      | _ => st_err ERR_BAD_TYPE
      end
  end.

(** A struct is copied when it is stored. *)
Definition clone_if_struct (val : VmValue) : EM VmValue :=
  match val with
  | VStruct s => do t <- on_heap (StructClone s); st_ret (VStruct t)
  | _ => st_ret val
  end.

Definition set_item (item index val : VmValue) : EM unit :=
  match item with
  | VArray l =>
      do data <- read_heap (fun h => arr_data h l);
      do ind <- st_lift (AsInt64 index);
      do_ st_guard (in_range ind (zlen data)) ERR_INDEX_OUT_OF_BOUND;
      write_heap (fun h => Ok (store l (OArr false (<[Z.to_nat ind := val]> data)) h))
  | VStruct l =>
      do data <- read_heap (fun h => struct_data h l);
      do ind <- st_lift (AsInt64 index);
      do_ st_guard (in_range ind (zlen data)) ERR_INDEX_OUT_OF_BOUND;
      write_heap (fun h => Ok (store l (OStruct false (<[Z.to_nat ind := val]> data)) h))
  | VMap l => write_heap (MapSet l index val)
  | _ => st_err ERR_BAD_TYPE
  end.

(** [NEWARRAY], [NEWSTRUCT]: the elements of the new object. *)
Definition new_items : EM (list VmValue) :=
  do count <- on_eval PopAsInt64;
  do_ st_guard (negb ((count <? 0) || (MAX_ARRAY_SIZE <? count))) ERR_BAD_VALUE;
  st_lift (append_values [] (repeat (VmValueFromBool false) (Z.to_nat count))).

Definition append_item (val item : VmValue) : EM unit :=
  match GetType val, val with
  | StructType, VStruct l => write_heap (StructAppend l item)
  | ArrayType, VArray l => write_heap (ArrayAppend l item)
  | _, _ => st_err "[executor] ExecuteOp APPEND error, unknown datatype"
  end.

(** [Pop] with its error ignored: the value is then [VmValue{}]. *)
Definition pop_or_zero : EM VmValue := fun e =>
  match on_eval Pop e with Ok r => Ok r | Err _ => Ok (VBytes [], e) | Panic => Panic end.

Definition reverse_item (item : VmValue) : EM unit :=
  match item with
  | VArray l => write_heap (fun h => match objs h !! l with
      | Some (OArr n d) => Ok (store l (OArr n (reverse_in_place d)) h) | _ => Panic end)
  | VStruct l => write_heap (fun h => match objs h !! l with
      | Some (OStruct n d) => Ok (store l (OStruct n (reverse_in_place d)) h) | _ => Panic end)
  | _ => st_err ERR_BAD_TYPE
  end.

Definition remove_item (item index : VmValue) : EM unit :=
  match item with
  | VMap l => write_heap (MapRemove l index)
  | VArray l => do i <- st_lift (AsInt64 index); write_heap (RemoveAt l i)
  | _ => st_err "[REMOVE] not support datatype"
  end.

Definition push_array (vals : list VmValue) : EM Z :=
  do l <- new_object (OArr false vals);
  do_ on_eval (Push (VArray l));
  st_ret NONE.

Definition exec_array (op : OpCode) : EM Z :=
  match op with
  | ARRAYSIZE =>
      do val <- on_eval Pop;
      do length <- match val with
                   | VArray l => do d <- read_heap (fun h => arr_data h l); st_ret (zlen d)
                   | _ => match AsBytes val with Ok buf => st_ret (zlen buf) | _ => st_err ERR_BAD_TYPE end
                   end;
      do_ on_eval (PushInt64 length); st_ret NONE
  | PACK =>
      do size <- on_eval PopAsInt64;
      do_ st_guard (negb (size <? 0)) ERR_BAD_VALUE;
      do n <- on_eval Count;
      do array <- pack_loop (S (Z.to_nat n)) 0 size [];
      push_array array
  | UNPACK =>
      do l <- on_eval PopAsArray;
      do d <- read_heap (fun h => arr_data h l);
      do_ push_all (rev d);
      do_ on_eval (PushInt64 (zlen d)); st_ret NONE
  | PICKITEM =>
      do '(item, index) <- on_eval PopPair;
      do val <- pick_item item index;
      do_ on_eval (Push val); st_ret NONE
  | SETITEM =>
      do '(item, index, val) <- on_eval PopTriple;
      do val <- clone_if_struct val;
      do_ set_item item index val; st_ret NONE
  | NEWARRAY => do items <- new_items; push_array items
  | NEWSTRUCT =>
      do items <- new_items;
      do l <- new_object (OStruct false items);
      do_ on_eval (Push (VStruct l)); st_ret NONE
  | NEWMAP => do l <- new_object (OMap ∅); do_ on_eval (Push (VMap l)); st_ret NONE
  | APPEND =>
      do item <- on_eval Pop;
      do item <- clone_if_struct item;
      do val <- pop_or_zero;
      do_ append_item val item; st_ret NONE
  | REVERSE => do item <- on_eval Pop; do_ reverse_item item; st_ret NONE
  | REMOVE => do '(item, index) <- on_eval PopPair; do_ remove_item item index; st_ret NONE
  | HASKEY =>
      do '(item, key) <- on_eval PopPair;
      do l <- st_lift (AsMapValue item);
      do v <- read_heap (MapGet l key);
      push_bool (match v with Some _ => true | None => false end)
  | KEYS =>
      do item <- on_eval Pop;
      do l <- st_lift (AsMapValue item);
      do m <- read_heap (fun h => map_data h l);
      do arr <- st_lift (append_values [] (GetMapSortedKey m));
      push_array arr
  | VALUES =>
      do item <- on_eval Pop;
      do l <- st_lift (AsMapValue item);
      do m <- read_heap (fun h => map_data h l);
      do arr <- st_lift (append_values [] (GetValues m));
      push_array arr
  | _ => st_err ERR_NOT_SUPPORT_OPCODE
  end.

Definition exec_exception (op : OpCode) : EM Z :=
  match op with
  | THROW => st_ret FAULT
  | THROWIFNOT => do val <- on_eval PopAsBool; st_ret (if val : bool then NONE else FAULT)
  | _ => st_err ERR_NOT_SUPPORT_OPCODE
  end.

(** The switch of [ExecuteOp]. *)
Definition dispatch (op : OpCode) : EM Z :=
  match op with
  | PUSH0 | PUSHBYTES _ | PUSHDATA1 | PUSHDATA2 | PUSHDATA4 | PUSHNUM _ => exec_push op
  | NOP | JMP | JMPIF | JMPIFNOT | CALL | DCALL | RET => exec_flow op
  | DUPFROMALTSTACK | TOALTSTACK | FROMALTSTACK | XDROP | XSWAP | XTUCK | DEPTH | DROP | DUP | NIP
  | OVER | PICK | ROLL | ROT | SWAP | TUCK => exec_stack op
  | CAT | SUBSTR | LEFT | RIGHT | SIZE => exec_splice op
  | INVERT | AND | OR | XOR | EQUAL => exec_bitwise op
  | INC | DEC | SIGN | NEGATE | ABS | NOT | NZ | ADD | SUB | MUL | DIV | MOD | SHL | SHR | BOOLAND | BOOLOR
  | NUMEQUAL | NUMNOTEQUAL | LT | GT | LTE | GTE | MIN | MAX | WITHIN => exec_arith op
  | SHA1 | SHA256 | HASH160 | HASH256 | VERIFY => exec_crypto op
  | ARRAYSIZE | PACK | UNPACK | PICKITEM | SETITEM | NEWARRAY | NEWSTRUCT | NEWMAP | APPEND | REVERSE | REMOVE
  | HASKEY | KEYS | VALUES => exec_array op
  | THROW | THROWIFNOT => exec_exception op
  | APPCALL | SYSCALL | TAILCALL | CHECKSIG | CHECKMULTISIG | UNKNOWN _ => st_err ERR_NOT_SUPPORT_OPCODE
  end.

Definition ExecuteOp (op : OpCode) : EM Z := fun e =>
  match checkFeaturesEnabled op e with
  | Ok _ => dispatch op e
  | Err m => Err m
  | Panic => Panic
  end.

(** One round of the loop of [Execute]: [inl] when the loop ends. *)
Definition step (self : Executor) : res (Executor + Executor) :=
  match Context self with
  | None => Ok (inl self)
  | Some ctx =>
      if (State self =? FAULT) || (State self =? HALT) || (State self =? BREAK) then Ok (inl self)
      else match ReadOpCode ctx with
           | Err _ => Ok (inl self)
           | Panic => Panic
           | Ok (opcode, ctx) =>
               let* '(state, self) := ExecuteOp (decode opcode) (set_Context (Some ctx) self) in
               Ok (inr (set_State state self))
           end
  end.

(** [fuel] rounds of [Execute]; [None] when they are not enough (a program may
    loop for ever). *)
Fixpoint run (fuel : nat) (self : Executor) : option (res Executor) :=
  match fuel with
  | O => None
  | S f =>
      match step self with
      | Ok (inl e) => Some (Ok e)
      | Ok (inr e) => run f e
      | Err m => Some (Err m)
      | Panic => Some Panic
      end
  end.

Definition Execute (fuel : nat) (self : Executor) : option (res Executor) :=
  run fuel (set_State (Z.land (State self) (u8 (Z.lnot BREAK))) self).

End Engine.
