(* ===== verification/VmSafety.v ===== *)
(** * Safety of the interpreter

    The invariant [vm_ok] (stacks within their limits, values and heap
    well-formed, contexts on their code) holds in every reachable state, and no
    step panics: every instruction either succeeds, faults or returns an
    error. *)

From S2P Require Import Prelude Codec BigInt IntValue VmValue ValueStack VmHeap VmReader Executor.

Section Safety.
Context `{Interops} `{Overflow} `{Crypto}.
Implicit Types (h : Heap) (v : VmValue) (e : Executor) (s : ValueStack).

(** ** Stack operations *)

Definition stack_ok h s : Prop :=
  limit s = STACK_LIMIT /\ zlen (data s) <= limit s /\ Forall (val_ok h) (data s).

(** [sop h c Q]: on a good stack [c] does not panic, leaves a good stack, and
    its result satisfies [Q]. *)
Definition sop {A} h (c : ST ValueStack A) (Q : A -> Prop) : Prop :=
  forall s, stack_ok h s -> fine (c s) (fun '(a, s') => stack_ok h s' /\ Q a).

Lemma sop_bind {A B} h (c : ST ValueStack A) (k : A -> ST ValueStack B) Q R :
  sop h c Q -> (forall a, Q a -> sop h (k a) R) -> sop h (st_bind c k) R.
Proof.
  intros Hc Hk s Hs. specialize (Hc s Hs). unfold st_bind. destruct (c s) as [[a s1]|m|]; cbn in *; auto.
  destruct Hc as [Hs1 Qa]. exact (Hk a Qa s1 Hs1).
Qed.

Lemma sop_ret {A} h (a : A) (Q : A -> Prop) : Q a -> sop h (st_ret a) Q.
Proof. intros Qa s Hs. cbn. auto. Qed.

Lemma sop_lift {A} h (r : res A) (Q : A -> Prop) : fine r Q -> sop h (st_lift r) Q.
Proof. intros Hr s Hs. unfold st_lift. destruct r; cbn in *; auto. Qed.

Lemma stack_ok_push h s d : stack_ok h s -> Forall (val_ok h) d -> zlen d <= limit s -> stack_ok h (mkStack d (limit s)).
Proof. intros (Hl & _ & _) Hd Hz. split; [exact Hl|]. auto. Qed.

Lemma sop_Push h v : val_ok h v -> sop h (Push v) (fun _ => True).
Proof.
  intros Hv s Hs. unfold Push. destruct (Z.leb_spec (limit s) (zlen (data s))); cbn; [exact I|]. split; [|exact I].
  destruct Hs as (Hl & Hz & Hf). apply stack_ok_push; [split; auto | apply Forall_app; auto |].
  rewrite zlen_app. change (zlen [v]) with 1. lia.
Qed.

Lemma sop_PushMany h vs : Forall (val_ok h) vs -> sop h (PushMany vs) (fun _ => True).
Proof.
  intros Hv s Hs. unfold PushMany. destruct (Z.ltb_spec (limit s) (zlen (data s) + zlen vs)); cbn; [exact I|].
  split; [|exact I]. destruct Hs as (Hl & Hz & Hf). apply stack_ok_push; [split; auto | apply Forall_app; auto |].
  rewrite zlen_app. lia.
Qed.

(** A part of the data, in any order, of a good stack. *)
Lemma stack_ok_sub h s d : stack_ok h s -> Forall (val_ok h) d -> zlen d <= zlen (data s) -> stack_ok h (mkStack d (limit s)).
Proof. intros Hs Hd Hz. apply stack_ok_push; [exact Hs | exact Hd |]. destruct Hs as (_ & Hz' & _). lia. Qed.

Lemma zlen_take_le {A} n (l : list A) : zlen (take n l) <= zlen l.
Proof. unfold zlen. rewrite length_take. lia. Qed.

Lemma sop_Pop h : sop h Pop (val_ok h).
Proof.
  intros s Hs. unfold Pop. destruct (Z.eqb_spec (zlen (data s)) 0); [exact I|].
  pose proof (zlen_nonneg (data s)). destruct (lookup_lt_is_Some_2 (data s) (Z.to_nat (zlen (data s) - 1))) as [v Hv]; [unfold zlen in *; lia|].
  rewrite Hv. cbn. pose proof Hs as (_ & _ & Hf). split.
  - apply stack_ok_sub; [exact Hs | apply Forall_take, Hf | apply zlen_take_le].
  - eapply Forall_lookup_1; eauto.
Qed.

Lemma sop_Peek h n : sop h (Peek n) (val_ok h).
Proof.
  intros s Hs. unfold Peek. destruct (Z.leb_spec (zlen (data s)) n), (Z.ltb_spec n 0); cbn [orb]; try exact I.
  destruct (lookup_lt_is_Some_2 (data s) (Z.to_nat (zlen (data s) - n - 1))) as [v Hv]; [unfold zlen in *; lia|].
  rewrite Hv. cbn. split; [exact Hs|]. destruct Hs as (_ & _ & Hf). eapply Forall_lookup_1; eauto.
Qed.

Lemma sop_Remove h n : sop h (Remove n) (val_ok h).
Proof.
  intros s Hs. unfold Remove. destruct (Z.leb_spec (zlen (data s)) n), (Z.ltb_spec n 0); cbn [orb]; try exact I.
  destruct (lookup_lt_is_Some_2 (data s) (Z.to_nat (zlen (data s) - n - 1))) as [v Hv]; [unfold zlen in *; lia|].
  rewrite Hv. cbn. pose proof Hs as (_ & _ & Hf). split; [|eapply Forall_lookup_1; eauto].
  apply stack_ok_sub; [exact Hs | apply Forall_app; auto using Forall_take, Forall_drop |].
  unfold zlen in *. rewrite length_app, length_take, length_drop. lia.
Qed.

Lemma sop_Insert h n v : val_ok h v -> sop h (Insert n v) (fun _ => True).
Proof.
  intros Hv s Hs. unfold Insert. destruct (Z.leb_spec (limit s) (zlen (data s))); [exact I|].
  destruct (Z.ltb_spec (zlen (data s)) n), (Z.ltb_spec n 0); cbn [orb]; try exact I. cbn. split; [|exact I].
  rewrite insert_memmove by (unfold zlen; lia). pose proof Hs as (_ & _ & Hf).
  apply stack_ok_push; [exact Hs | apply Forall_app; split; [apply Forall_take, Hf | constructor; [exact Hv | apply Forall_drop, Hf]] |].
  unfold zlen in *. rewrite length_app. cbn [length]. rewrite length_take, length_drop. lia.
Qed.

Lemma sop_Swap h i j : sop h (Swap i j) (fun _ => True).
Proof.
  intros s Hs. unfold Swap. repeat (case_match; [cbn; auto; fail|]).
  apply orb_false_iff in H2 as [Hi1 Hi2]. apply orb_false_iff in H3 as [Hj1 Hj2].
  apply Z.leb_gt in Hi1, Hj1. apply Z.ltb_ge in Hi2, Hj2.
  destruct (lookup_lt_is_Some_2 (data s) (Z.to_nat (zlen (data s) - i - 1))) as [x Hx]; [unfold zlen in *; lia|].
  destruct (lookup_lt_is_Some_2 (data s) (Z.to_nat (zlen (data s) - j - 1))) as [y Hy]; [unfold zlen in *; lia|].
  rewrite Hx, Hy. cbn. split; [|exact I]. pose proof Hs as (_ & _ & Hf).
  apply stack_ok_sub; [exact Hs | | unfold zlen; rewrite !length_insert; lia].
  apply Forall_insert; [apply Forall_insert; [exact Hf|]|]; eapply Forall_lookup_1; eauto.
Qed.

Lemma sop_Count h : sop h Count (fun n => 0 <= n <= STACK_LIMIT).
Proof.
  intros s Hs. cbn. split; [exact Hs|]. destruct Hs as (Hl & Hz & _). pose proof (zlen_nonneg (data s)). lia.
Qed.

(** ** Conversions *)

Lemma AsIntValue_fine h v : val_ok h v -> fine (AsIntValue v) int_wf.
Proof.
  intros Hv. destruct v as [b|b|i|z| | | |]; cbn [AsIntValue]; try exact I.
  - pose proof (IntValFromBigInt_spec (BigIntFromNeoBytes b)) as [Hf Hn].
    unfold IntValFromNeoBytes. destruct (Z_lt_dec (Z.abs (BigIntFromNeoBytes b)) (2 ^ 256)) as [F|F].
    + destruct (Hf F) as (x & -> & W & _). exact W.
    + rewrite (Hn F). exact I.
  - cbn [fine]. apply IntValFromInt_wf. destruct b; unfold bool_int; words.
  - cbn [fine]. apply IntValFromInt_wf, Hv.
  - pose proof (IntValFromBigInt_spec z) as [Hf Hn]. destruct (Z_lt_dec (Z.abs z) (2 ^ 256)) as [F|F].
    + destruct (Hf F) as (x & -> & W & _). exact W.
    + rewrite (Hn F). exact I.
Qed.

Lemma AsInt64_fine h v : val_ok h v -> fine (AsInt64 v) is_s64.
Proof.
  intros Hv. unfold AsInt64. eapply fine_bind; [eapply AsIntValue_fine; eauto|]. intros x [Nx _].
  unfold norm in Nx. destruct (isbig x); [|exact Nx]. destruct (is_int64 (bigint x)); [|exact I]. apply s64_range.
Qed.

Lemma AsBool_fine v : fine (AsBool v) (fun _ => True).
Proof. destruct v; exact I. Qed.

Lemma AsBigInt_fine v : fine (AsBigInt v) (fun _ => True).
Proof. destruct v; exact I. Qed.

Lemma AsBytes_len h v : val_ok h v -> fine (AsBytes v) (fun b => zlen b <= MAX_BYTEARRAY_SIZE).
Proof.
  assert (Hneo : forall z, Z.abs z <= 2 ^ 256 -> zlen (BigIntToNeoBytes z) <= MAX_BYTEARRAY_SIZE).
  { intros z Hz. unfold MAX_BYTEARRAY_SIZE. destruct (Z.eq_dec z 0) as [->|N]; [vm_compute; discriminate|].
    destruct (zlen_ToNeo z N) as [E|E]; [|lia]. pose proof (zlen_nonneg (BigIntToNeoBytes z)).
    destruct (Z_le_dec (zlen (BigIntToNeoBytes z)) 34) as [|G]; [lia|].
    assert (256 ^ 33 <= 256 ^ (zlen (BigIntToNeoBytes z) - 1)) by (apply Z.pow_le_mono_r; lia).
    change (256 ^ 33) with (256 * 2 ^ 256) in *. destruct (z <? 0); lia. }
  intros Hv. destruct v as [b|b|i|z| | | |]; cbn; try exact I.
  - exact Hv.
  - vm_compute. discriminate.
  - apply Hneo. pose proof (s64_fits _ Hv) as Hf. unfold fits in Hf. lia.
  - apply Hneo, Hv.
Qed.

(** Popping and converting. *)
Lemma sop_pop_as {A} h (f : VmValue -> res A) (Q : A -> Prop) :
  (forall v, val_ok h v -> fine (f v) Q) -> sop h (do v <- Pop; st_lift (f v)) Q.
Proof. intros Hf. eapply sop_bind; [apply sop_Pop|]. intros v Hv. apply sop_lift; auto. Qed.

Lemma sop_pair {A} h (c : ST ValueStack A) Q :
  sop h c Q -> sop h (do rhs <- c; do lhs <- c; st_ret (lhs, rhs)) (fun '(l, r) => Q l /\ Q r).
Proof.
  intros Hc. eapply sop_bind; [exact Hc|]. intros r Hr. eapply sop_bind; [exact Hc|]. intros l Hl. apply sop_ret. auto.
Qed.

Lemma sop_triple {A} h (c : ST ValueStack A) Q :
  sop h c Q -> sop h (do rhs <- c; do mid <- c; do lhs <- c; st_ret (lhs, mid, rhs)) (fun '(l, m, r) => Q l /\ Q m /\ Q r).
Proof.
  intros Hc. eapply sop_bind; [exact Hc|]. intros r Hr. eapply sop_bind; [exact Hc|]. intros m Hm.
  eapply sop_bind; [exact Hc|]. intros l Hl. apply sop_ret. auto.
Qed.

Lemma sop_PopAsBool h : sop h PopAsBool (fun _ => True).
Proof. apply sop_pop_as. intros. apply AsBool_fine. Qed.
Lemma sop_PopAsInt64 h : sop h PopAsInt64 is_s64.
Proof. apply sop_pop_as. intros. eapply AsInt64_fine; eauto. Qed.
Lemma sop_PopAsIntValue h : sop h PopAsIntValue int_wf.
Proof. apply sop_pop_as. intros. eapply AsIntValue_fine; eauto. Qed.
Lemma sop_PopAsBytes h : sop h PopAsBytes (fun b => zlen b <= MAX_BYTEARRAY_SIZE).
Proof. apply sop_pop_as. intros. eapply AsBytes_len; eauto. Qed.
Lemma sop_PopAsArray h : sop h PopAsArray (fun l => has_kind h l KArr).
Proof. apply sop_pop_as. intros v Hv. destruct v; cbn in *; auto. Qed.
Lemma sop_PopPair h : sop h PopPair (fun '(l, r) => val_ok h l /\ val_ok h r).
Proof. apply sop_pair, sop_Pop. Qed.
Lemma sop_PopTriple h : sop h PopTriple (fun '(l, m, r) => val_ok h l /\ val_ok h m /\ val_ok h r).
Proof.
  eapply sop_bind; [apply sop_PopPair|]. intros [m r] [Hm Hr]. eapply sop_bind; [apply sop_Pop|].
  intros l Hl. apply sop_ret. auto.
Qed.
Lemma sop_PopPairAsBytes h : sop h PopPairAsBytes (fun _ => True).
Proof. intros s Hs. eapply fine_impl; [apply (sop_pair h _ _ (sop_PopAsBytes h)), Hs|]. intros [[] ?] []. auto. Qed.
Lemma sop_PopPairAsBool h : sop h PopPairAsBool (fun _ => True).
Proof. intros s Hs. eapply fine_impl; [apply (sop_pair h _ _ (sop_PopAsBool h)), Hs|]. intros [[] ?] []. auto. Qed.
Lemma sop_PopPairAsInt64 h : sop h PopPairAsInt64 (fun '(l, r) => is_s64 l /\ is_s64 r).
Proof. apply sop_pair, sop_PopAsInt64. Qed.
Lemma sop_PopPairAsIntVal h : sop h PopPairAsIntVal (fun '(l, r) => int_wf l /\ int_wf r).
Proof. apply sop_pair, sop_PopAsIntValue. Qed.
Lemma sop_PopTripleAsBytes h : sop h PopTripleAsBytes (fun _ => True).
Proof. intros s Hs. eapply fine_impl; [apply (sop_triple h _ _ (sop_PopAsBytes h)), Hs|]. intros [[[] ?] ?] []. auto. Qed.
Lemma sop_PopTripleAsIntVal h : sop h PopTripleAsIntVal (fun '(l, m, r) => int_wf l /\ int_wf m /\ int_wf r).
Proof. apply sop_triple, sop_PopAsIntValue. Qed.
Lemma VmValueFromBytes_fine h b : fine (VmValueFromBytes b) (val_ok h).
Proof. unfold VmValueFromBytes. destruct (Z.ltb_spec MAX_BYTEARRAY_SIZE (zlen b)); cbn; auto. Qed.
Lemma sop_PushBytes h b : sop h (PushBytes b) (fun _ => True).
Proof. eapply sop_bind; [apply sop_lift, (VmValueFromBytes_fine h)|]. intros v Hv. apply sop_Push, Hv. Qed.
Lemma sop_PushInt64 h z : is_s64 z -> sop h (PushInt64 z) (fun _ => True).
Proof. intros Hz. apply sop_Push, Hz. Qed.
Lemma sop_PushBool h b : sop h (PushBool b) (fun _ => True).
Proof. apply sop_Push. exact I. Qed.
Lemma sop_push_int h x : norm x -> Z.abs (big_of x) <= 2 ^ 256 -> sop h (Push (VmValueFromIntValue x)) (fun _ => True).
Proof.
  intros Nx Hx. apply sop_Push. unfold VmValueFromIntValue, norm, big_of in *. destruct (isbig x); cbn; auto.
Qed.

(** ** Integer operations *)

Lemma IntValFromBigInt_fine z : fine (IntValFromBigInt (Some z)) int_wf.
Proof.
  pose proof (IntValFromBigInt_spec z) as [Hf Hn]. destruct (Z_lt_dec (Z.abs z) (2 ^ 256)) as [F|F].
  - destruct (Hf F) as (x & -> & W & _). exact W.
  - rewrite (Hn F). exact I.
Qed.

Lemma intOp_fine f little a b :
  int_wf a -> int_wf b ->
  (forall x y, is_s64 x -> is_s64 y -> snd (little x y) = true -> is_s64 (fst (little x y))) ->
  fine (intOp a b little (fun x y => IntValFromBigInt (Some (f x y)))) int_wf.
Proof.
  intros [Na _] [Nb _] Hl. unfold intOp. destruct (isbig a) eqn:Ea, (isbig b) eqn:Eb; cbn [negb andb];
    try apply IntValFromBigInt_fine.
  unfold norm in *. rewrite Ea in Na. rewrite Eb in Nb. specialize (Hl _ _ Na Nb).
  destruct (little (integer a) (integer b)) as [z ok]. destruct ok; [|apply IntValFromBigInt_fine].
  apply IntValFromInt_wf, Hl. reflexivity.
Qed.

Lemma shift_fine b (k : Z -> res IntValue) :
  int_wf b -> (forall n, fine (k n) int_wf) -> fine (let* n := shift_count b in k n) int_wf.
Proof. intros Wb Hk. rewrite shift_count_spec by exact Wb. destruct (_ && _); cbn; auto. Qed.

Lemma binary_op_fine op a b : int_wf a -> int_wf b -> fine (binary_op op a b) int_wf.
Proof.
  intros Wa Wb.
  assert (HR : fine (Rsh a b) int_wf).
  { apply shift_fine; [exact Wb|]. intros n. destruct (_ <? _); [|apply IntValFromBigInt_fine].
    destruct (_ <? _); cbn [fine]; apply (IntValFromInt_wf _); words. }
  destruct op; cbn [binary_op]; try exact HR.
  - apply intOp_fine; auto. intros x y Hx Hy E. destruct (Add64_spec x y Hx Hy) as [[Hi _] ->]; auto.
  - apply intOp_fine; auto. intros x y Hx Hy E. destruct (Sub64_spec x y Hx Hy) as [[Hi _] ->]; auto.
  - apply intOp_fine; auto. intros x y Hx Hy E. destruct (Mul64_spec x y Hx Hy) as [[Hi _] ->]; auto.
  - unfold Div. destruct (IsZero b); [exact I|]. apply intOp_fine; auto. intros x y _ _ _. apply s64_range.
  - unfold Mod. destruct (IsZero b); [exact I|]. apply intOp_fine; auto. intros x y _ _ _. apply s64_range.
  - apply shift_fine; [exact Wb|]. intros n. destruct (_ <? _); [exact I | apply IntValFromBigInt_fine].
  - apply (intOp_fine (fun x y => if big_Cmp x y <=? 0 then x else y)); auto. intros x y Hx Hy _. cbn. destruct (_ <? _); assumption.
  - apply (intOp_fine (fun x y => if big_Cmp x y <=? 0 then y else x)); auto. intros x y Hx Hy _. cbn. destruct (_ <? _); assumption.
Qed.

Lemma bit_op_fine a b : int_wf a -> int_wf b ->
  fine (And a b) int_wf /\ fine (Or a b) int_wf /\ fine (Xor a b) int_wf.
Proof.
  intros Wa Wb. split; [|split]; apply intOp_fine; auto; intros x y Hx Hy _; cbn;
    [apply land_s64 | apply lor_s64 | apply lxor_s64]; assumption.
Qed.

Lemma int_wf_push x : int_wf x -> norm x /\ Z.abs (big_of x) <= 2 ^ 256.
Proof. intros [Nx Fx]. unfold fits in Fx. split; [exact Nx | lia]. Qed.

Lemma Not_push x : int_wf x -> norm (Not x) /\ Z.abs (big_of (Not x)) <= 2 ^ 256.
Proof.
  intros W. destruct (Not_spec x W) as (Nn & -> & _). split; [exact Nn|]. destruct W as [_ F]. unfold fits in F. lia.
Qed.

Lemma Cmp_range a b : -1 <= Cmp a b <= 1.
Proof. unfold Cmp, big_Cmp. repeat case_match; lia. Qed.

(** ** The machine *)

Definition vm_ok e : Prop :=
  heap_ok (heap e) /\ stack_ok (heap e) (EvalStack e) /\ stack_ok (heap e) (AltStack e) /\
  zlen (Callers e) <= MAX_INVOCATION_STACK_SIZE /\ Forall ctx_ok (Callers e) /\
  (forall c, Context e = Some c -> ctx_ok c).

(** ... with a current context. *)
Definition vm_run e : Prop := vm_ok e /\ exists c, Context e = Some c /\ ctx_ok c.

Lemma stack_ok_mono h h' s : heap_ext h h' -> stack_ok h s -> stack_ok h' s.
Proof.
  intros He (Hl & Hz & Hf). split; [exact Hl|]. split; [exact Hz|].
  eapply Forall_impl; [exact Hf|]. intros. eapply val_ok_mono; eauto.
Qed.

(** [safe c e Q]: from [e] the computation does not panic, and after success the
    machine is good, its objects are still there, and [Q] holds. *)
Definition safe {A} (c : ST Executor A) e (Q : A -> Executor -> Prop) : Prop :=
  fine (c e) (fun '(a, e') => vm_run e' /\ heap_ext (heap e) (heap e') /\ Q a e').

Lemma safe_bind {A B} (c : ST Executor A) (k : A -> ST Executor B) e Q R :
  safe c e Q ->
  (forall a e', vm_run e' -> heap_ext (heap e) (heap e') -> Q a e' -> safe (k a) e' R) ->
  safe (st_bind c k) e R.
Proof.
  intros Hc Hk. unfold safe, st_bind in *. destruct (c e) as [[a e1]|m|]; cbn in *; auto.
  destruct Hc as (Hr & He & HQ). eapply fine_impl; [exact (Hk a e1 Hr He HQ)|].
  intros [b e2] (Hr2 & He2 & HR). split; [exact Hr2|]. split; [etransitivity; eauto | exact HR].
Qed.

Lemma safe_ret {A} (a : A) e (Q : A -> Executor -> Prop) : vm_run e -> Q a e -> safe (st_ret a) e Q.
Proof. intros Hr HQ. unfold safe, st_ret. cbn [fine]. split; [exact Hr|]. split; [reflexivity | exact HQ]. Qed.

Lemma safe_err {A} m e (Q : A -> Executor -> Prop) : safe (st_err m) e Q.
Proof. exact I. Qed.

Lemma safe_lift_bind {A B} (r : res A) (k : A -> ST Executor B) e Q R :
  fine r Q -> (forall a, Q a -> safe (k a) e R) -> safe (st_bind (st_lift r) k) e R.
Proof. intros Hr Hk. unfold safe, st_bind, st_lift in *. destruct r; cbn in *; auto. Qed.

Lemma safe_guard {B} b m (k : unit -> ST Executor B) e R :
  (b = true -> safe (k ()) e R) -> safe (st_bind (st_guard b m) k) e R.
Proof. intros Hk. unfold st_guard, guard. destruct b; [apply Hk; reflexivity | exact I]. Qed.

Lemma run_eval e s : vm_run e -> stack_ok (heap e) s ->
  vm_run (mkExec s (AltStack e) (State e) (Features e) (Callers e) (Context e) (heap e)).
Proof. intros [(Hh & He & Ha & Hc & Hf & Hx) Hctx] Hs. split; [|exact Hctx].
  unfold vm_ok; cbn [heap EvalStack AltStack Callers Context]. tauto. Qed.

Lemma run_alt e s : vm_run e -> stack_ok (heap e) s ->
  vm_run (mkExec (EvalStack e) s (State e) (Features e) (Callers e) (Context e) (heap e)).
Proof. intros [(Hh & He & Ha & Hc & Hf & Hx) Hctx] Hs. split; [|exact Hctx].
  unfold vm_ok; cbn [heap EvalStack AltStack Callers Context]. tauto. Qed.

Lemma run_heap e h' : vm_run e -> good_heap (heap e) h' ->
  vm_run (mkExec (EvalStack e) (AltStack e) (State e) (Features e) (Callers e) (Context e) h').
Proof.
  intros [(Hh & He & Ha & Hc & Hf & Hx) Hctx] [Hh' Hext]. split; [|exact Hctx].
  split; [exact Hh'|]. split; [eapply stack_ok_mono; eauto|]. split; [eapply stack_ok_mono; eauto|]. auto.
Qed.

Lemma run_ctx e c : vm_run e -> ctx_ok c ->
  vm_run (mkExec (EvalStack e) (AltStack e) (State e) (Features e) (Callers e) (Some c) (heap e)).
Proof.
  intros [(Hh & He & Ha & Hc & Hf & Hx) Hctx] Hcc. split; [|eexists; split; [reflexivity | exact Hcc]].
  unfold vm_ok; cbn [heap EvalStack AltStack Callers Context].
  assert (forall c', Some c = Some c' -> ctx_ok c') by (intros c' [= <-]; exact Hcc). tauto.
Qed.

(** Sequencing after an operation of a component. *)
Lemma safe_eval {A B} (c : ST ValueStack A) (k : A -> ST Executor B) e Q R :
  vm_run e -> sop (heap e) c Q ->
  (forall a e', vm_run e' -> heap e' = heap e -> Q a -> safe (k a) e' R) ->
  safe (st_bind (on_eval c) k) e R.
Proof.
  intros Hr Hc Hk. eapply (safe_bind _ _ _ (fun a e' => heap e' = heap e /\ Q a)); [|intros a e' ? _ []; auto].
  pose proof Hr as [(_ & Hs & _) _]. specialize (Hc _ Hs). unfold safe, on_eval.
  destruct (c (EvalStack e)) as [[a s]|m|]; cbn in *; auto. destruct Hc as [Hs' HQ].
  split; [apply run_eval; assumption|]. split; [reflexivity | auto].
Qed.

Lemma safe_alt {A B} (c : ST ValueStack A) (k : A -> ST Executor B) e Q R :
  vm_run e -> sop (heap e) c Q ->
  (forall a e', vm_run e' -> heap e' = heap e -> Q a -> safe (k a) e' R) ->
  safe (st_bind (on_alt c) k) e R.
Proof.
  intros Hr Hc Hk. eapply (safe_bind _ _ _ (fun a e' => heap e' = heap e /\ Q a)); [|intros a e' ? _ []; auto].
  pose proof Hr as [(_ & _ & Hs & _) _]. specialize (Hc _ Hs). unfold safe, on_alt.
  destruct (c (AltStack e)) as [[a s]|m|]; cbn in *; auto. destruct Hc as [Hs' HQ].
  split; [apply run_alt; assumption|]. split; [reflexivity | auto].
Qed.

Lemma safe_read_heap {A B} (c : Heap -> res A) (k : A -> ST Executor B) e Q R :
  vm_run e -> fine (c (heap e)) Q ->
  (forall a, Q a -> safe (k a) e R) ->
  safe (st_bind (read_heap c) k) e R.
Proof.
  intros Hr Hc Hk. unfold safe, st_bind, read_heap, on_heap in *.
  destruct (c (heap e)) as [a|m|]; cbn in *; auto. specialize (Hk a Hc). destruct e. exact Hk.
Qed.

Lemma safe_on_heap {A} (c : Heap -> res (A * Heap)) e (Q : A -> Heap -> Prop) :
  vm_run e -> fine (c (heap e)) (fun '(a, h') => good_heap (heap e) h' /\ Q a h') ->
  safe (on_heap c) e (fun a e' => Q a (heap e')).
Proof.
  intros Hr Hc. unfold safe, on_heap. destruct (c (heap e)) as [[a h']|m|]; cbn in *; auto.
  destruct Hc as [Hg HQ]. split; [apply run_heap; assumption|]. split; [apply Hg | exact HQ].
Qed.

Lemma safe_write_heap (c : Heap -> res Heap) e :
  vm_run e -> fine (c (heap e)) (good_heap (heap e)) -> safe (write_heap c) e (fun _ _ => True).
Proof.
  intros Hr Hc. apply (safe_on_heap _ _ (fun _ _ => True)); [exact Hr|].
  destruct (c (heap e)); cbn in *; auto.
Qed.

Lemma safe_new_object o e :
  vm_run e -> obj_ok (heap e) o -> safe (new_object o) e (fun l e' => has_kind (heap e') l (kind_of o)).
Proof.
  intros Hr Ho. apply (safe_on_heap _ _ (fun l h' => has_kind h' l (kind_of o))); [exact Hr|].
  cbn [fine]. destruct (alloc o (heap e)) as [l h'] eqn:E.
  eapply alloc_ok in E as (Hh & He & Hk); [|apply Hr|exact Ho]. split; [split|]; assumption.
Qed.

(** Contexts. *)
Lemma safe_ctx {A B} (c : ST ExecutionContext A) (k : A -> ST Executor B) e Q R :
  vm_run e -> (forall x, ctx_ok x -> fine (c x) (fun '(a, x') => ctx_ok x' /\ Q a)) ->
  (forall a e', vm_run e' -> heap e' = heap e -> Q a -> safe (k a) e' R) ->
  safe (st_bind (on_ctx c) k) e R.
Proof.
  intros Hr Hc Hk. eapply (safe_bind _ _ _ (fun a e' => heap e' = heap e /\ Q a)); [|intros a e' ? _ []; auto].
  pose proof Hr as [_ (x & Ex & Hx)]. specialize (Hc x Hx). unfold safe, on_ctx. rewrite Ex.
  destruct (c x) as [[a x']|m|]; cbn in *; auto. destruct Hc as [Hx' HQ].
  split; [apply run_ctx; assumption|]. split; [reflexivity | auto].
Qed.

Lemma safe_reader {A B} (c : ST VmReader A) (k : A -> ST Executor B) e Q R :
  vm_run e -> reads c Q -> (forall a e', vm_run e' -> heap e' = heap e -> Q a -> safe (k a) e' R) ->
  safe (st_bind (on_reader c) k) e R.
Proof.
  intros Hr Hc. apply safe_ctx; [exact Hr|]. intros x [Eb Hi]. specialize (Hc (OpReader x) Hi).
  unfold with_reader. destruct (c (OpReader x)) as [[a r]|m|]; cbn in *; auto.
  destruct Hc as (E1 & _ & Hr' & HQ). split; [|exact HQ]. split; cbn; [congruence | exact Hr'].
Qed.

Lemma SetInstructionPointer_fine n x : ctx_ok x -> fine (SetInstructionPointer n x) (fun '(_, x') => ctx_ok x' /\ True).
Proof.
  intros [Eb Hi]. unfold SetInstructionPointer, with_reader, Seek. destruct (Z.ltb_spec n 0); cbn; auto.
  split; [split; cbn; auto|exact I].
Qed.

Lemma safe_PushContext {B} c (k : unit -> ST Executor B) e R :
  vm_run e -> ctx_ok c ->
  (forall e', vm_run e' -> heap e' = heap e -> safe (k ()) e' R) ->
  safe (st_bind (PushContext c) k) e R.
Proof.
  intros Hr Hc Hk. eapply (safe_bind _ _ _ (fun a e' => heap e' = heap e)); [|intros [] e' ? _ ?; auto].
  unfold safe, PushContext. destruct (Z.leb_spec MAX_INVOCATION_STACK_SIZE (zlen (Callers e))); cbn; [exact I|].
  split; [|split; reflexivity]. destruct Hr as [(Hh & He & Ha & Hz & Hf & Hx) Hctx]. split; [|exact Hctx].
  unfold vm_ok; cbn [heap EvalStack AltStack Callers Context].
  assert (zlen (Callers e ++ [c]) <= MAX_INVOCATION_STACK_SIZE) by (rewrite zlen_app; change (zlen [c]) with 1; lia).
  assert (Forall ctx_ok (Callers e ++ [c])) by (apply Forall_app; auto). tauto.
Qed.

Definition state_ok (st : Z) e : Prop := st = NONE \/ st = FAULT.

End Safety.
