(* ===== verification/VmSound.v ===== *)
(** * Every instruction is safe

    The instructions one group at a time, then [ExecuteOp], one round of
    [Execute], and the states reachable from [NewExecutor]. *)

From S2P Require Import Prelude Codec BigInt IntValue VmValue ValueStack VmHeap VmReader Executor VmSafety.

Create HintDb sop.

Section Sound.
Context `{HI : Interops} `{HO : Overflow} `{HC : Crypto}.
Implicit Types (h : Heap) (v : VmValue) (e : Executor).

#[local] Hint Resolve sop_Push sop_PushMany sop_Pop sop_Peek sop_Remove sop_Insert sop_Swap sop_Count sop_PopAsBool
  sop_PopAsInt64 sop_PopAsIntValue sop_PopAsBytes sop_PopAsArray sop_PopPair sop_PopTriple sop_PopPairAsBytes
  sop_PopPairAsBool sop_PopPairAsInt64 sop_PopPairAsIntVal sop_PopTripleAsBytes sop_PopTripleAsIntVal
  sop_PushBytes sop_PushInt64 sop_PushBool : sop.

#[local] Hint Extern 4 (is_s64 _) =>
  (unfold STACK_LIMIT, MAX_BYTEARRAY_SIZE, MAX_ARRAY_SIZE in *; words) : sop.
#[local] Hint Extern 3 (is_s64 (zlen ?l)) =>
  (pose proof (zlen_nonneg l); unfold MAX_BYTEARRAY_SIZE, MAX_ARRAY_SIZE in *; words) : sop.
#[local] Hint Constructors Forall : sop.

Ltac split_result :=
  repeat match goal with
  | x : _ * _ |- _ => destruct x
  | HQ : _ /\ _ |- _ => destruct HQ
  end.

Ltac next_state :=
  let a := fresh "a" in let e := fresh "e" in let Hr := fresh "Hr" in let Hh := fresh "Hh" in
  intros a e Hr Hh ?; rewrite <- ?Hh in *; clear Hh; split_result; cbv beta iota in *.

Ltac finish := apply safe_ret; [eassumption | left; reflexivity].

(** One step of an instruction. *)
Ltac vstep :=
  match goal with
  | |- safe (st_bind (on_eval _) _) _ _ => eapply safe_eval; [eassumption | solve [eauto with sop] | next_state]
  | |- safe (st_bind (on_alt _) _) _ _ => eapply safe_alt; [eassumption | solve [eauto with sop] | next_state]
  | |- safe (st_bind (st_guard _ _) _) _ _ => eapply safe_guard; intros
  | |- safe (st_ret NONE) _ _ => finish
  | |- safe (st_err _) _ _ => exact I
  end.

Lemma push_data_safe b e : vm_run e -> safe (push_data b) e state_ok.
Proof.
  intros Hr. eapply safe_lift_bind; [apply (VmValueFromBytes_fine (heap e))|]. intros v Hv. repeat vstep.
Qed.

Lemma push_bool_safe b e : vm_run e -> safe (push_bool b) e state_ok.
Proof. intros Hr. unfold push_bool. repeat vstep. Qed.

Lemma push_int_safe x e : vm_run e -> norm x -> Z.abs (big_of x) <= 2 ^ 256 -> safe (push_int x) e state_ok.
Proof.
  intros Hr Nx Hx. eapply safe_eval; [exact Hr | apply sop_push_int; assumption |]. next_state. finish.
Qed.

Definition op_ok (op : OpCode) : Prop :=
  match op with PUSHBYTES n => 0 <= n <= 255 | PUSHNUM n => 0 <= n <= 255 | _ => True end.

Lemma decode_ok z : 0 <= z < 256 -> op_ok (decode z).
Proof.
  intros Hz. unfold decode. destruct (_ && _); [cbn; lia|]. destruct (_ || _); [cbn; lia|].
  assert (HT : forall t, Forall (fun p => op_ok (snd p)) t -> forall o, assoc_op z t = Some o -> op_ok o).
  { induction 1 as [|[k o'] t Ho Ht IH]; intros o E; [discriminate|]. cbn in E.
    destruct (z =? k); [injection E as <-; exact Ho | auto]. }
  destruct (assoc_op z opcode_table) as [o|] eqn:E; [|exact I]. eapply HT; [|exact E].
  unfold opcode_table. repeat (constructor; [exact I|]). constructor.
Qed.

Lemma exec_push_safe op e : op_ok op -> vm_run e -> safe (exec_push op) e state_ok.
Proof.
  intros Hop Hr.
  assert (Hb : forall n e, vm_run e -> 0 <= n -> safe (do d <- on_reader (ReadBytes n); push_data d) e state_ok).
  { intros n e0 Hr0 Hn. eapply safe_reader; [exact Hr0 | apply reads_ReadBytes, Hn |].
    next_state. apply push_data_safe. assumption. }
  destruct op; try exact I; cbn [exec_push].
  - eapply safe_eval; [exact Hr | apply sop_Push; cbn; words |]. next_state. finish.
  - apply Hb; [exact Hr | cbn in Hop; lia].
  - eapply safe_reader; [exact Hr | apply reads_ReadByte |]. next_state. apply Hb; [assumption|]. apply bz_range.
  - eapply safe_reader; [exact Hr | apply (reads_uint 2); [lia | reflexivity] |]. next_state. apply Hb; [assumption | lia].
  - eapply safe_reader; [exact Hr | apply (reads_uint 4); [lia | reflexivity] |]. next_state. apply Hb; [assumption | lia].
  - eapply safe_eval; [exact Hr | apply sop_Push; cbn in *; words |]. next_state. finish.
Qed.

Lemma exec_stack_safe op e : vm_run e -> safe (exec_stack op) e state_ok.
Proof.
  intros Hr. destruct op; try exact I; cbn [exec_stack]; repeat vstep.
Qed.

Lemma slice_safe b i j (k : list byte -> ST Executor Z) e :
  0 <= i <= j -> j <= zlen b -> (forall x, safe (k x) e state_ok) -> safe (st_bind (st_slice b i j) k) e state_ok.
Proof. intros Hi Hj Hk. unfold st_slice. rewrite slice_Some by lia. apply Hk. Qed.

Ltac bools :=
  repeat match goal with
  | Hb : negb _ = true |- _ => apply negb_true_iff in Hb
  | Hb : _ || _ = false |- _ => apply orb_false_iff in Hb; destruct Hb
  | Hb : (_ <? _) = false |- _ => apply Z.ltb_ge in Hb
  | Hb : (_ <=? _) = false |- _ => apply Z.leb_gt in Hb
  end.

Lemma exec_splice_safe op e : vm_run e -> safe (exec_splice op) e state_ok.
Proof.
  intros Hr. destruct op; try exact I; cbn [exec_splice]; cbv zeta; repeat vstep; cbv zeta; repeat vstep; bools;
    apply slice_safe; try lia; try (intros; repeat vstep).
  unfold MAX_BYTEARRAY_SIZE in *. rewrite s64_small by words. lia.
Qed.

Lemma exec_bitwise_safe op e : vm_run e -> safe (exec_bitwise op) e state_ok.
Proof.
  intros Hr. destruct op; try exact I; cbn [exec_bitwise]; vstep.
  - apply push_int_safe; [assumption | |]; apply Not_push; assumption.
  - edestruct bit_op_fine as (Hf & _ & _); [| |eapply safe_lift_bind; [exact Hf|]]; try eassumption.
    intros x Hx. destruct (int_wf_push x Hx). apply push_int_safe; assumption.
  - edestruct bit_op_fine as (_ & Hf & _); [| |eapply safe_lift_bind; [exact Hf|]]; try eassumption.
    intros x Hx. destruct (int_wf_push x Hx). apply push_int_safe; assumption.
  - edestruct bit_op_fine as (_ & _ & Hf); [| |eapply safe_lift_bind; [exact Hf|]]; try eassumption.
    intros x Hx. destruct (int_wf_push x Hx). apply push_int_safe; assumption.
  - eapply safe_read_heap; [eassumption | apply Equals_fine |]. intros. apply push_bool_safe. assumption.
Qed.

Lemma push_op_safe r e : fine r int_wf -> vm_run e -> safe (do x <- st_lift r; push_int x) e state_ok.
Proof.
  intros Hf Hr. eapply safe_lift_bind; [exact Hf|]. intros x Hx. destruct (int_wf_push x Hx). apply push_int_safe; assumption.
Qed.

Lemma IntValFromInt_small z : -1 <= z <= 1 -> int_wf (IntValFromInt z).
Proof. intros Hz. apply IntValFromInt_wf. words. Qed.

Lemma exec_unary_safe op e : vm_run e -> safe (exec_unary op) e state_ok.
Proof.
  intros Hr. unfold exec_unary. vstep. rename a into x.
  assert (H1 : int_wf (IntValFromInt 1)) by (apply IntValFromInt_small; lia).
  assert (H0 : int_wf (IntValFromInt 0)) by (apply IntValFromInt_small; lia).
  destruct op; try (apply push_bool_safe; assumption).
  - apply push_op_safe; [apply (binary_op_fine ADD); assumption | assumption].
  - apply push_op_safe; [apply (binary_op_fine SUB); assumption | assumption].
  - destruct (int_wf_push _ (IntValFromInt_small _ (Cmp_range x (IntValFromInt 0)))). apply push_int_safe; assumption.
  - apply push_op_safe; [apply (binary_op_fine SUB); assumption | assumption].
  - match goal with Hx : int_wf x |- _ => destruct (int_wf_push _ (proj1 (Abs_spec x Hx))) end.
    apply push_int_safe; assumption.
Qed.

Lemma exec_arith_safe op e : vm_run e -> safe (exec_arith op) e state_ok.
Proof.
  intros Hr. destruct op; try exact I; cbn [exec_arith]; try (apply exec_unary_safe; assumption); vstep;
    try (apply push_bool_safe; assumption);
    try (apply push_op_safe; [apply binary_op_fine; assumption | assumption]);
    (eapply safe_lift_bind; [apply AsBigInt_fine|]; intros; eapply safe_lift_bind; [apply AsBigInt_fine|]; intros;
     apply push_bool_safe; assumption).
Qed.

Lemma exec_crypto_safe op e : vm_run e -> safe (exec_crypto op) e state_ok.
Proof.
  intros Hr. destruct op; try exact I; cbn [exec_crypto]; vstep; try (apply push_data_safe; assumption).
  destruct (DeserializePublicKey _); [exact I | apply push_bool_safe; assumption].
Qed.

Lemma exec_exception_safe op e : vm_run e -> safe (exec_exception op) e state_ok.
Proof.
  intros Hr. destruct op; try exact I; cbn [exec_exception].
  - apply safe_ret; [assumption | right; reflexivity].
  - vstep. apply safe_ret; [assumption|]. destruct a; [left | right]; reflexivity.
Qed.

(** ** Arrays, structs, maps *)

Lemma vm_heap_ok e : vm_run e -> heap_ok (heap e).
Proof. intros [(Hh & _) _]. exact Hh. Qed.
#[local] Hint Resolve vm_heap_ok : core.

Lemma Pop_shrinks s v s' : Pop s = Ok (v, s') -> zlen (data s') = zlen (data s) - 1.
Proof.
  unfold Pop. destruct (Z.eqb_spec (zlen (data s)) 0) as [|N]; [discriminate|].
  destruct (data s !! _) eqn:E; [|discriminate]. intros [= <- <-]. cbn. apply lookup_lt_Some in E.
  unfold zlen in *. rewrite length_take. lia.
Qed.

Lemma pack_loop_safe fuel : forall i size arr e,
  vm_run e -> items_ok (heap e) arr -> zlen (data (EvalStack e)) < Z.of_nat fuel ->
  safe (pack_loop fuel i size arr) e (fun a e' => heap e' = heap e /\ items_ok (heap e) a).
Proof.
  induction fuel as [|f IH]; intros i size arr e Hr Ha Hz; [pose proof (zlen_nonneg (data (EvalStack e))); lia|].
  cbn [pack_loop]. destruct (_ <? _); [|apply safe_ret; auto].
  pose proof Hr as [(_ & Hs & _) _]. pose proof (sop_Pop (heap e) _ Hs) as Hp.
  unfold safe, st_bind, on_eval. destruct (Pop (EvalStack e)) as [[v s']|m|] eqn:Ep; cbn in Hp; [|exact I | contradiction].
  destruct Hp as [Hs' Hv]. pose proof (data_append_fine _ _ _ Ha Hv) as Hd. unfold st_lift.
  destruct (data_append arr v) as [arr'|m|]; cbn in Hd; [|exact I | contradiction].
  assert (Hz' : zlen (data s') < Z.of_nat f) by (rewrite (Pop_shrinks _ _ _ Ep); lia).
  exact (IH (i + 1) size arr' _ (run_eval e s' Hr Hs') Hd Hz').
Qed.

Lemma push_all_safe vs : forall e, vm_run e -> Forall (val_ok (heap e)) vs ->
  safe (push_all vs) e (fun _ e' => heap e' = heap e).
Proof.
  induction vs as [|v vs IH]; intros e Hr Hv; cbn [push_all]; [apply safe_ret; auto|].
  inversion Hv as [|? ? Hv1 Hvs]; subst.
  eapply safe_eval; [exact Hr | apply sop_Push, Hv1 |]. intros a e' Hr' Hh _.
  rewrite <- Hh in *. apply IH; assumption.
Qed.

Lemma push_array_safe vs e : vm_run e -> items_ok (heap e) vs -> safe (push_array vs) e state_ok.
Proof.
  intros Hr Hv. eapply safe_bind; [apply safe_new_object; [exact Hr | exact Hv]|].
  intros l e' Hr' _ Hk. eapply safe_eval; [exact Hr' | apply sop_Push, Hk |]. next_state. finish.
Qed.

Lemma append_values_fine h vs : forall arr, items_ok h arr -> Forall (val_ok h) vs ->
  fine (append_values arr vs) (items_ok h).
Proof.
  induction vs as [|v vs IH]; intros arr Ha Hv; cbn [append_values]; [exact Ha|].
  inversion Hv as [|? ? Hv1 Hvs]; subst. eapply fine_bind; [apply (data_append_fine h); assumption|].
  intros arr' Ha'. apply IH; assumption.
Qed.

Lemma items_nil h : items_ok h [].
Proof. split; [rewrite zlen_nil; unfold MAX_ARRAY_SIZE; lia | constructor]. Qed.

Lemma new_items_safe {B} (k : list VmValue -> ST Executor B) e R :
  vm_run e -> (forall items e', vm_run e' -> items_ok (heap e') items -> safe (k items) e' R) ->
  safe (st_bind new_items k) e R.
Proof.
  intros Hr Hk. eapply (safe_bind _ _ _ (fun items e' => items_ok (heap e') items)); [|intros; apply Hk; assumption].
  unfold new_items. vstep. vstep. eapply fine_impl with (Q := fun '(x, e') => e' = e0 /\ items_ok (heap e0) x).
  - unfold st_lift. pose proof (append_values_fine (heap e0) (repeat (VmValueFromBool false) (Z.to_nat a)) [] (items_nil _)) as Hf.
    assert (Hrep : Forall (val_ok (heap e0)) (repeat (VmValueFromBool false) (Z.to_nat a))).
    { apply Forall_forall. intros v Hv. apply list_elem_of_In, repeat_spec in Hv. subst v. exact I. }
    specialize (Hf Hrep). destruct (append_values _ _); cbn in *; auto.
  - intros [x e'] [-> Hx]. split; [assumption|]. split; [reflexivity | exact Hx].
Qed.

Lemma index_safe {A} (l : list A) i (k : A -> ST Executor VmValue) e R :
  in_range i (zlen l) = true -> (forall x, x ∈ l -> safe (k x) e R) -> safe (st_bind (st_index l i) k) e R.
Proof.
  intros Hi Hk. unfold in_range in Hi. bools. unfold st_index.
  destruct (lookup_lt_is_Some_2 l (Z.to_nat i)) as [x Hx]; [unfold zlen in *; lia|]. rewrite Hx.
  apply Hk. eapply list_elem_of_lookup_2; eauto.
Qed.

Lemma elem_val_ok h d v : items_ok h d -> v ∈ d -> val_ok h v.
Proof. intros [_ Hd] Hv. eapply Forall_forall in Hd; eauto. Qed.

Lemma pick_safe e d index :
  vm_run e -> items_ok (heap e) d -> val_ok (heap e) index ->
  safe (do ind <- st_lift (AsInt64 index); do_ st_guard (in_range ind (zlen d)) ERR_INDEX_OUT_OF_BOUND; st_index d ind) e
    (fun v e' => val_ok (heap e') v).
Proof.
  intros Hr Hd Hi. eapply safe_lift_bind; [eapply AsInt64_fine; eassumption|]. intros ind _. apply safe_guard. intros Hir.
  unfold in_range in Hir. bools. unfold st_index.
  destruct (lookup_lt_is_Some_2 d (Z.to_nat ind)) as [x Hx]; [unfold zlen in *; lia|]. rewrite Hx.
  apply safe_ret; [exact Hr|]. eapply elem_val_ok; [exact Hd|]. eapply list_elem_of_lookup_2; eauto.
Qed.

Lemma pick_item_safe item index e :
  vm_run e -> val_ok (heap e) item -> val_ok (heap e) index ->
  safe (pick_item item index) e (fun v e' => val_ok (heap e') v).
Proof.
  intros Hr Hi Hx.
  assert (Hbytes : forall b, safe (do ind <- st_lift (AsInt64 index);
    do_ st_guard (in_range ind (zlen b)) ERR_INDEX_OUT_OF_BOUND;
    do x <- st_index b ind; st_ret (VmValueFromInt64 (bz x))) e (fun v e' => val_ok (heap e') v)).
  { intros b. eapply safe_lift_bind; [eapply AsInt64_fine; eassumption|]. intros ind _. apply safe_guard. intros Hir.
    apply index_safe; [exact Hir|]. intros x _. apply safe_ret; [exact Hr|]. cbn. pose proof (bz_range x). words. }
  destruct item as [b|b|i|z|d|l|l|l]; cbn [pick_item AsBytes]; try apply Hbytes; try exact I.
  - destruct (arr_data_ok (heap e) l) as (d & E & Hd); auto.
    eapply (safe_read_heap _ _ _ (fun x => x = d)); [exact Hr | rewrite E; reflexivity|]. intros ? ->. apply pick_safe; assumption.
  - destruct (struct_data_ok (heap e) l) as (d & E & Hd); auto.
    eapply (safe_read_heap _ _ _ (fun x => x = d)); [exact Hr | rewrite E; reflexivity|]. intros ? ->. apply pick_safe; assumption.
  - eapply safe_read_heap; [exact Hr | apply MapGet_fine; auto |]. intros [v|] Hv; [apply safe_ret; auto | exact I].
Qed.

Lemma clone_if_struct_safe v e : vm_run e -> val_ok (heap e) v ->
  safe (clone_if_struct v) e (fun v' e' => val_ok (heap e') v').
Proof.
  intros Hr Hv. destruct v; cbn [clone_if_struct]; try (apply safe_ret; auto; fail).
  eapply (safe_bind _ _ _ (fun t e' => has_kind (heap e') t KStruct)).
  - apply (safe_on_heap _ _ (fun l h' => has_kind h' l KStruct)); [exact Hr|]. apply StructClone_fine; auto.
  - intros t e' Hr' _ Hk. apply safe_ret; [exact Hr' | exact Hk].
Qed.

Lemma items_insert h d i v : items_ok h d -> val_ok h v -> items_ok h (<[i := v]> d).
Proof. intros [Hz Hd] Hv. split; [unfold zlen; rewrite length_insert; exact Hz | apply Forall_insert; assumption]. Qed.

Lemma set_item_safe item index v e :
  vm_run e -> val_ok (heap e) item -> val_ok (heap e) index -> val_ok (heap e) v ->
  safe (set_item item index v) e (fun _ _ => True).
Proof.
  intros Hr Hi Hx Hv. destruct item as [b|b|i|z|d|l|l|l]; cbn [set_item]; try exact I.
  - destruct (arr_data_ok (heap e) l) as (d & E & Hd); auto.
    eapply (safe_read_heap _ _ _ (fun x => x = d)); [exact Hr | rewrite E; reflexivity|]. intros ? ->.
    eapply safe_lift_bind; [eapply AsInt64_fine; eassumption|]. intros ind _. apply safe_guard. intros _.
    apply safe_write_heap; [exact Hr|]. apply store_ok; auto. apply items_insert; assumption.
  - destruct (struct_data_ok (heap e) l) as (d & E & Hd); auto.
    eapply (safe_read_heap _ _ _ (fun x => x = d)); [exact Hr | rewrite E; reflexivity|]. intros ? ->.
    eapply safe_lift_bind; [eapply AsInt64_fine; eassumption|]. intros ind _. apply safe_guard. intros _.
    apply safe_write_heap; [exact Hr|]. apply store_ok; auto. apply items_insert; assumption.
  - apply safe_write_heap; [exact Hr|]. apply MapSet_fine; auto.
Qed.

Lemma pop_or_zero_safe {B} (k : VmValue -> ST Executor B) e R :
  vm_run e -> (forall v e', vm_run e' -> heap e' = heap e -> val_ok (heap e') v -> safe (k v) e' R) ->
  safe (st_bind pop_or_zero k) e R.
Proof.
  intros Hr Hk. eapply (safe_bind _ _ _ (fun v e' => heap e' = heap e /\ val_ok (heap e') v)); [|intros v e' ? _ []; auto].
  pose proof Hr as [(_ & Hs & _) _]. pose proof (sop_Pop (heap e) _ Hs) as Hp.
  unfold safe, pop_or_zero, on_eval. destruct (Pop (EvalStack e)) as [[v s']|m|]; cbn in *.
  - destruct Hp as [Hs' Hv]. split; [apply run_eval; assumption|]. split; [reflexivity | auto].
  - split; [exact Hr|]. split; [reflexivity|]. split; [reflexivity|]. vm_compute. discriminate.
  - contradiction.
Qed.

Lemma append_item_safe v item e : vm_run e -> val_ok (heap e) v -> val_ok (heap e) item ->
  safe (append_item v item) e (fun _ _ => True).
Proof.
  intros Hr Hv Hi. destruct v; cbn [append_item GetType]; try exact I; (apply safe_write_heap; [exact Hr|]).
  - apply ArrayAppend_fine; auto.
  - apply StructAppend_fine; auto.
Qed.

Lemma items_rev h d : items_ok h d -> items_ok h (reverse_in_place d).
Proof.
  intros [Hz Hd]. rewrite reverse_in_place_rev. split; [unfold zlen; rewrite length_rev; exact Hz|].
  rewrite <- reverse_rev. apply Forall_reverse, Hd.
Qed.

Lemma reverse_item_safe v e : vm_run e -> val_ok (heap e) v -> safe (reverse_item v) e (fun _ _ => True).
Proof.
  intros Hr Hv. destruct v; cbn [reverse_item]; try exact I; (apply safe_write_heap; [exact Hr|]);
    destruct Hv as (o & E & Ek); rewrite E; destruct o; try discriminate;
    (apply store_ok; [auto | eexists; split; [exact E | reflexivity] |]);
    apply vm_heap_ok in E; auto; apply items_rev, E.
Qed.

Lemma remove_item_safe v index e : vm_run e -> val_ok (heap e) v -> val_ok (heap e) index ->
  safe (remove_item v index) e (fun _ _ => True).
Proof.
  intros Hr Hv Hi. destruct v; cbn [remove_item]; try exact I.
  - eapply safe_lift_bind; [eapply AsInt64_fine; eassumption|]. intros i _.
    apply safe_write_heap; [exact Hr|]. apply RemoveAt_fine; auto.
  - apply safe_write_heap; [exact Hr|]. apply MapRemove_fine; auto.
Qed.

(** An object update, then the end of the instruction. *)
Lemma then_none (c : ST Executor unit) e : safe c e (fun _ _ => True) -> safe (do_ c; st_ret NONE) e state_ok.
Proof. intros Hc. eapply safe_bind; [exact Hc|]. intros. finish. Qed.

Lemma map_keys_safe (f : gmap (list byte) (VmValue * VmValue) -> list VmValue) item e :
  (forall h m, entries_ok h m -> Forall (val_ok h) (f m)) -> vm_run e -> val_ok (heap e) item ->
  safe (do l <- st_lift (AsMapValue item); do m <- read_heap (fun h => map_data h l);
        do arr <- st_lift (append_values [] (f m)); push_array arr) e state_ok.
Proof.
  intros Hf Hr Hi. destruct item; try exact I. cbn [val_ok] in Hi.
  destruct (map_data_ok (heap e) mapval) as (m & E & Hm); auto.
  eapply (safe_lift_bind _ _ _ (fun l => l = mapval)); [reflexivity|]. intros ? ->.
  eapply (safe_read_heap _ _ _ (fun x => x = m)); [exact Hr | rewrite E; reflexivity |]. intros ? ->.
  eapply safe_lift_bind; [apply (append_values_fine (heap e)); [apply items_nil | apply Hf, Hm]|].
  intros arr Ha. apply push_array_safe; assumption.
Qed.

Lemma array_size_safe e : vm_run e -> safe (exec_array ARRAYSIZE) e state_ok.
Proof.
  intros Hr. cbn [exec_array]. vstep.
  eapply (safe_bind _ _ _ (fun n e' => is_s64 n)); [|intros n e' Hr' _ Hn; vstep; finish].
  assert (Hlen : forall d, items_ok (heap e0) d -> is_s64 (zlen d)).
  { intros d [Hz _]. pose proof (zlen_nonneg d). unfold MAX_ARRAY_SIZE in Hz. words. }
  assert (Hb : fine (AsBytes a) (fun b => is_s64 (zlen b))).
  { eapply fine_impl; [eapply AsBytes_len; eassumption|]. intros b Hz. pose proof (zlen_nonneg b).
    unfold MAX_BYTEARRAY_SIZE in Hz. words. }
  destruct a as [b|b|i|z|d|l|l|l]; try exact I; try (apply safe_ret; [assumption | exact Hb]).
  destruct (arr_data_ok (heap e0) l) as (d & E & Hd); auto.
  eapply (safe_read_heap _ _ _ (fun x => x = d)); [assumption | rewrite E; reflexivity|]. intros ? ->. apply safe_ret; auto.
Qed.

Lemma pack_safe e : vm_run e -> safe (exec_array PACK) e state_ok.
Proof.
  intros Hr. cbn [exec_array]. vstep. vstep. unfold safe, st_bind at 1, on_eval, Count. cbn [fine].
  assert (Hp : safe (do array <- pack_loop (S (Z.to_nat (zlen (data (EvalStack e0))))) 0 a []; push_array array) e0 state_ok).
  { eapply safe_bind; [apply pack_loop_safe; [assumption | apply items_nil |]; pose proof (zlen_nonneg (data (EvalStack e0))); lia|].
    intros arr e' Hr' _ [Eh Ha]. apply push_array_safe; [assumption|]. rewrite Eh. exact Ha. }
  destruct e0. exact Hp.
Qed.

Lemma unpack_safe e : vm_run e -> safe (exec_array UNPACK) e state_ok.
Proof.
  intros Hr. cbn [exec_array]. vstep. destruct (arr_data_ok (heap e0) a) as (d & E & Hd); auto.
  eapply (safe_read_heap _ _ _ (fun x => x = d)); [assumption | rewrite E; reflexivity|]. intros ? ->.
  pose proof Hd as [Hz Hf]. eapply safe_bind; [apply push_all_safe; [assumption|]|].
  - rewrite <- reverse_rev. apply Forall_reverse, Hf.
  - intros _ e' Hr' _ _. vstep. finish.
Qed.

(** A new object, pushed. *)
Lemma push_object_safe o (c : loc -> VmValue) e :
  vm_run e -> obj_ok (heap e) o -> (forall h l, has_kind h l (kind_of o) -> val_ok h (c l)) ->
  safe (do l <- new_object o; do_ on_eval (Push (c l)); st_ret NONE) e state_ok.
Proof.
  intros Hr Ho Hc. eapply safe_bind; [apply safe_new_object; [exact Hr | exact Ho]|]. intros l e' Hr' _ Hk.
  eapply safe_eval; [exact Hr' | apply sop_Push, Hc, Hk |]. next_state. finish.
Qed.

Lemma exec_array_safe op e : vm_run e -> safe (exec_array op) e state_ok.
Proof.
  intros Hr. destruct op; try exact I;
    try (first [apply array_size_safe | apply pack_safe | apply unpack_safe]; exact Hr); cbn [exec_array].
  - (* PICKITEM *) vstep. eapply safe_bind; [apply pick_item_safe; eassumption|]. intros v' e' Hr' _ Hv'. vstep. finish.
  - (* SETITEM *) vstep. eapply safe_bind; [apply clone_if_struct_safe; eassumption|].
    intros v' e' Hr' He Hv'. apply then_none, set_item_safe; try assumption; eapply val_ok_mono; eassumption.
  - (* NEWARRAY *) apply new_items_safe; [exact Hr|]. intros items e' Hr' Hi. apply push_array_safe; assumption.
  - (* NEWSTRUCT *) apply new_items_safe; [exact Hr|]. intros items e' Hr' Hi.
    apply (push_object_safe (OStruct false items) VStruct); auto.
  - (* NEWMAP *) apply (push_object_safe (OMap ∅) VMap); auto.
    intros k x y E. rewrite lookup_empty in E. discriminate.
  - (* APPEND *) vstep. eapply safe_bind; [apply clone_if_struct_safe; eassumption|].
    intros v' e' Hr' He Hv'. apply pop_or_zero_safe; [exact Hr'|]. intros v e'' Hr'' Hh Hv.
    apply then_none, append_item_safe; try assumption. rewrite Hh. exact Hv'.
  - (* REVERSE *) vstep. apply then_none, reverse_item_safe; assumption.
  - (* REMOVE *) vstep. apply then_none, remove_item_safe; assumption.
  - (* HASKEY *) vstep. match goal with |- safe (st_bind (st_lift (AsMapValue ?x)) _) _ _ => destruct x; try exact I end.
    eapply (safe_lift_bind _ _ _ (fun l => l = mapval)); [reflexivity|]. intros ? ->.
    eapply safe_read_heap; [eassumption | apply MapGet_fine; auto |]. intros. apply push_bool_safe. assumption.
  - (* KEYS *) vstep. apply map_keys_safe; try assumption. intros. apply keys_ok. assumption.
  - (* VALUES *) vstep. apply map_keys_safe; try assumption. intros. apply keys_ok. assumption.
Qed.

(** ** Flow control *)

Lemma exec_jump_safe op e : vm_run e -> safe (exec_jump op) e state_ok.
Proof.
  intros Hr. unfold exec_jump. eapply safe_reader; [exact Hr | apply reads_ReadInt16 |]. next_state.
  eapply (safe_ctx _ _ _ (fun _ => True)); [eassumption | intros x Hx; cbn; auto |]. next_state.
  eapply (safe_ctx _ _ _ (fun _ => True)); [eassumption | intros x Hx; cbn; auto |]. next_state.
  vstep. eapply (safe_bind _ _ _ (fun _ _ => True)).
  - assert (Hp : forall (k : bool -> bool), safe (do b <- on_eval PopAsBool; st_ret (k b)) e2 (fun _ _ => True)).
    { intros k. vstep. apply safe_ret; auto. }
    destruct op; try apply (Hp negb); [apply safe_ret; auto|].
    pose proof (Hp (fun b => b)) as Hid. unfold safe, st_bind in *. destruct (on_eval PopAsBool e2) as [[b e']|m|]; exact Hid.
  - intros [] e' Hr' _ _; [|finish].
    eapply (safe_ctx _ _ _ (fun _ => True)); [eassumption | intros x Hx; apply SetInstructionPointer_fine, Hx |]. next_state. finish.
Qed.

Lemma clone_context {B} (k : ExecutionContext -> ST Executor B) e R :
  vm_run e -> (forall c e', vm_run e' -> ctx_ok c -> safe (k c) e' R) ->
  safe (st_bind (on_ctx (fun c => Ok (Clone c, c))) k) e R.
Proof.
  intros Hr Hk. eapply (safe_ctx _ _ _ ctx_ok); [exact Hr | intros x Hx; cbn; split; [exact Hx | apply Clone_ok, Hx] |].
  intros c e' Hr' _ Hc. apply Hk; assumption.
Qed.

(** The result of an instruction; [RET] may leave no context. *)
Definition op_result e (r : res (Z * Executor)) : Prop :=
  fine r (fun '(st, e') => vm_ok e' /\ heap_ext (heap e) (heap e') /\ (st = NONE \/ st = FAULT)).

Lemma safe_op_result c e : safe c e state_ok -> op_result e (c e).
Proof. intros Hc. eapply fine_impl; [exact Hc|]. intros [st e'] ([Hr _] & He & Hs). auto. Qed.

Lemma ret_result e : vm_run e -> op_result e (exec_flow RET e).
Proof.
  intros [(Hh & He & Ha & Hz & Hf & Hx) Hctx]. unfold op_result. cbn [exec_flow]. unfold PopContext.
  assert (Hnone : forall c cs, Forall ctx_ok cs -> zlen cs <= MAX_INVOCATION_STACK_SIZE -> (forall x, c = Some x -> ctx_ok x) ->
    vm_ok (mkExec (EvalStack e) (AltStack e) (State e) (Features e) cs c (heap e))).
  { intros c cs H1 H2 H3. unfold vm_ok. cbn [heap EvalStack AltStack Callers Context]. tauto. }
  destruct (Z.eqb_spec (zlen (Callers e)) 0) as [|N].
  - cbn. split; [apply (Hnone None); auto; discriminate|]. split; [reflexivity | auto].
  - destruct (Callers e !! Z.to_nat (zlen (Callers e) - 1)) as [c|] eqn:E.
    + cbn. pose proof (Forall_lookup_1 _ _ _ _ Hf E) as Hc. split; [|split; [reflexivity | auto]].
      apply (Hnone (Some c)); [apply Forall_take, Hf | etransitivity; [apply zlen_take_le | exact Hz] |].
      intros x [= <-]. exact Hc.
    + apply lookup_ge_None_1 in E. pose proof (zlen_nonneg (Callers e)). unfold zlen in *. lia.
Qed.

Lemma exec_flow_result op e : vm_run e -> op_result e (exec_flow op e).
Proof.
  intros Hr. destruct op; try exact I; try (apply ret_result, Hr); apply safe_op_result; cbn [exec_flow];
    try (apply exec_jump_safe, Hr); [finish | |]; (apply clone_context; [exact Hr|]); intros c e' Hr' Hc.
  - eapply (safe_lift_bind _ _ _ ctx_ok).
    + pose proof (SetInstructionPointer_fine (GetInstructionPointer c + 2) c Hc) as Hf.
      destruct (SetInstructionPointer _ c) as [[[] x]|m|]; cbn in *; tauto.
    + intros c' Hc'. apply safe_PushContext; [exact Hr' | exact Hc' |]. intros e'' Hr'' _. apply exec_jump_safe, Hr''.
  - apply safe_PushContext; [exact Hr' | exact Hc |]. intros e'' Hr'' _. vstep.
    eapply (safe_ctx _ _ _ (fun _ => True)); [eassumption | intros x Hx; cbn; auto |]. next_state. vstep.
    eapply (safe_ctx _ _ _ (fun _ => True)); [eassumption | intros x Hx; apply SetInstructionPointer_fine, Hx |]. next_state. finish.
Qed.

Lemma ExecuteOp_result op e : op_ok op -> vm_run e -> op_result e (ExecuteOp op e).
Proof.
  intros Hop Hr. unfold ExecuteOp.
  assert (Hd : op_result e (dispatch op e)).
  { destruct op; cbn [dispatch]; try exact I;
      first [ apply exec_flow_result, Hr | apply safe_op_result;
        first [ apply exec_push_safe; assumption | apply exec_stack_safe, Hr | apply exec_splice_safe, Hr
              | apply exec_bitwise_safe, Hr | apply exec_arith_safe, Hr | apply exec_crypto_safe, Hr
              | apply exec_array_safe, Hr | apply exec_exception_safe, Hr ] ]. }
  unfold checkFeaturesEnabled. destruct op; try exact Hd; destruct (DisableHasKey (Features e)); solve [exact Hd | exact I].
Qed.

Lemma step_result e : vm_ok e ->
  fine (step e) (fun r => match r with inl e' => e' = e | inr e' => vm_ok e' end).
Proof.
  intros Hok. unfold step. destruct (Context e) as [ctx|] eqn:Ec; [|reflexivity].
  destruct (_ || _); [reflexivity|]. pose proof Hok as (Hh & He & Ha & Hz & Hf & Hx). pose proof (Hx ctx Ec) as Hcx.
  destruct (ReadOpCode ctx) as [[opc ctx']|m|] eqn:Er.
  - unfold ReadOpCode, with_reader in Er.
    pose proof (reads_ReadByte (OpReader ctx) (proj2 Hcx)) as Hrb. unfold st_bind in Er.
    destruct (ReadByte (OpReader ctx)) as [[b r]|m|]; try discriminate. cbn in Er. injection Er as <- <-.
    destruct Hrb as (Eb & _ & Hr & _).
    assert (Hc' : ctx_ok (mkCtx (Code ctx) r (InstructionPointer ctx) (vmFlags ctx))).
    { split; cbn; [rewrite Eb; apply Hcx | exact Hr]. }
    eapply fine_bind.
    + apply ExecuteOp_result; [apply decode_ok, bz_range|]. apply (run_ctx e); [|exact Hc'].
      split; [exact Hok | eauto].
    + intros [st e'] (Hok' & _ & _). cbn. exact Hok'.
  - reflexivity.
  - unfold ReadOpCode, with_reader, st_bind in Er.
    pose proof (reads_ReadByte (OpReader ctx) (proj2 Hcx)) as Hrb.
    destruct (ReadByte (OpReader ctx)) as [[b r]|m|]; [discriminate | discriminate | exact Hrb].
Qed.

(** States of a program: rounds of the loop from a fresh engine. *)
Inductive reachable (code : list byte) (flags : VmFeatureFlag) : Executor -> Prop :=
  | reach_start : reachable code flags (set_State NONE (NewExecutor code flags))
  | reach_step e e' : reachable code flags e -> step e = Ok (inr e') -> reachable code flags e'.

Lemma NewExecutor_ok code flags : vm_ok (set_State NONE (NewExecutor code flags)).
Proof.
  assert (Hs : forall h, stack_ok h (NewValueStack STACK_LIMIT)).
  { intros h. split; [reflexivity|]. split; [vm_compute; discriminate | constructor]. }
  split; [intros l o E; cbn in E; rewrite lookup_empty in E; discriminate|].
  split; [apply Hs|]. split; [apply Hs|]. split; [vm_compute; discriminate|]. split; [constructor|].
  intros c [= <-]. split; cbn; [reflexivity | lia].
Qed.

Lemma reachable_ok code flags e : reachable code flags e -> vm_ok e.
Proof.
  induction 1 as [|e e' _ IH E]; [apply NewExecutor_ok|].
  pose proof (step_result e IH) as Hs. rewrite E in Hs. exact Hs.
Qed.

(** C1: for every program, in every state its execution reaches, both stacks hold at
    most 2048 values, at most 1024 callers are waiting, every array and struct
    has at most 1024 elements and every byte array at most 1 MiB, references
    lead to objects of their kind and integers are normalised; and the next
    instruction never panics. *)
Theorem interpreter_invariant code flags e :
  reachable code flags e ->
  vm_ok e /\ step e <> Panic.
Proof.
  intros Hre. pose proof (reachable_ok _ _ _ Hre) as Hok.
  split; [exact Hok|]. intros Ep. pose proof (step_result e Hok) as Hs. rewrite Ep in Hs. exact Hs.
Qed.

Lemma run_reachable fuel : forall e, vm_ok e -> run fuel e <> Some Panic.
Proof.
  induction fuel as [|f IH]; intros e Hok E; [discriminate|]. cbn [run] in E. pose proof (step_result e Hok) as Hs.
  destruct (step e) as [[e'|e']|m|]; cbn in Hs; try discriminate; [exact (IH e' Hs E) | contradiction].
Qed.

(** [Execute] never panics, whatever the code and however long it runs. *)
Theorem Execute_no_panic code flags fuel : Execute fuel (NewExecutor code flags) <> Some Panic.
Proof. apply (run_reachable fuel _ (NewExecutor_ok code flags)). Qed.

End Sound.
