(* ===== verification/VmParams.v ===== *)
(** * Parameters for native contracts: [BuildParamToNative] of
    [vm/neovm/types/neovm_value.go]

    The encoder walks the value recursively.  The recursion need not end, so the
    model takes fuel and returns [None] when it is used up. *)

From S2P Require Import Prelude Codec BigInt IntValue VmValue ValueStack VmHeap VmReader Executor.

Section Params.
Context `{HI : Interops}.

(** [None]: not finished yet. *)
Definition sink_result := option (res ZeroCopySink).
Definition w {A} (c : ST ZeroCopySink A) (s : ZeroCopySink) : sink_result :=
  Some (match c s with Ok (_, s') => Ok s' | Err e => Err e | Panic => Panic end).
Definition andthen (c : sink_result) (k : ZeroCopySink -> sink_result) : sink_result :=
  match c with Some (Ok s) => k s | r => r end.

Fixpoint build_all (rec : VmValue -> ZeroCopySink -> sink_result) (data : list VmValue) (s : ZeroCopySink) : sink_result :=
  match data with
  | [] => Some (Ok s)
  | v :: data' => andthen (rec v s) (build_all rec data')
  end.

(** [buildParamToNative] with the recursive calls as an argument. *)
Definition build_body (rec : VmValue -> ZeroCopySink -> sink_result) (h : Heap) (self : VmValue) (s : ZeroCopySink) : sink_result :=
  match self with
  | VBytes b => w (Sink.WriteVarBytes b) s
  | VBool _ => match AsBool self with Ok b => w (Sink.WriteBool b) s | Err e => Some (Err e) | Panic => Some Panic end
  | VInt _ | VBig _ =>
      match AsBytes self with Ok bs => w (Sink.WriteVarBytes bs) s | Err e => Some (Err e) | Panic => Some Panic end
  | VArray l =>
      match arr_data h l with
      | Ok data => andthen (w (Sink.WriteVarBytes (BigIntToNeoBytes (zlen data))) s) (build_all rec data)
      | Err e => Some (Err e)
      | Panic => Some Panic
      end
  | VStruct l =>
      match struct_data h l with Ok data => build_all rec data s | Err e => Some (Err e) | Panic => Some Panic end
  | VMap _ | VInterop _ => Some (Err ERR_BAD_TYPE)
  end.

Fixpoint BuildParamToNative (range : MapOrder) (fuel : nat) (h : Heap) (self : VmValue) (s : ZeroCopySink) : sink_result :=
  match fuel with
  | O => None
  | S f =>
      match CircularRefAndDepthDetection range h self with
      | Err e => Some (Err e)
      | Panic => Some Panic
      | Ok true => Some (Err "runtime serialize: can not serialize circular reference data")
      | Ok false => build_body (BuildParamToNative range f h) h self s
      end
  end.

End Params.

(** ** Writers return no errors *)

Definition no_err {A} (c : ST ZeroCopySink A) : Prop := forall s e, c s <> Err e.

Lemma no_err_bind {A B} (c : ST ZeroCopySink A) (k : A -> ST ZeroCopySink B) :
  no_err c -> (forall a, no_err (k a)) -> no_err (st_bind c k).
Proof.
  intros Hc Hk s e E. unfold st_bind in E. destruct (c s) as [[a s1]|m|] eqn:Ec; [| |discriminate].
  - exact (Hk a s1 e E).
  - exact (Hc s m Ec).
Qed.
Lemma no_err_ret {A} (a : A) : no_err (st_ret a).
Proof. intros s e. discriminate. Qed.
Lemma no_err_reslice l : no_err (Sink.reslice l).
Proof. intros s e. unfold Sink.reslice. destruct (_ && _); discriminate. Qed.
Lemma no_err_blit i bs : no_err (Sink.blit i bs).
Proof. intros s e. unfold Sink.blit. destruct (_ && _); discriminate. Qed.

Create HintDb noerr.
#[local] Hint Resolve no_err_bind no_err_ret no_err_reslice no_err_blit : noerr.

Lemma no_err_NextBytes n : no_err (Sink.NextBytes n).
Proof.
  assert (Ht : no_err (Sink.tryGrowByReslice (s64 n))).
  { intros s e. unfold Sink.tryGrowByReslice. destruct (_ <=? _); [|discriminate].
    apply no_err_bind; auto with noerr. }
  apply no_err_bind; [exact Ht|]. intros [m []]; [auto with noerr|].
  apply no_err_bind; [exact Ht|]. intros [i []]; [auto with noerr|]. intros s e.
  cbv beta zeta. repeat case_match; try discriminate. apply no_err_bind; auto with noerr.
Qed.
#[local] Hint Resolve no_err_NextBytes : noerr.

Lemma no_err_WriteVarBytes bs : no_err (Sink.WriteVarBytes bs).
Proof.
  apply no_err_bind; [|intros; apply no_err_bind; [apply no_err_bind; auto with noerr | auto with noerr]].
  apply no_err_bind; [auto with noerr|]. intros i. apply no_err_bind.
  - repeat case_match; apply no_err_bind; auto with noerr.
  - intros sz. apply no_err_bind; [intros s e; apply no_err_reslice | auto with noerr].
Qed.
Lemma no_err_WriteBool b : no_err (Sink.WriteBool b).
Proof. destruct b; apply no_err_bind; auto with noerr. Qed.

Lemma w_cases {A} (c : ST ZeroCopySink A) s : no_err c -> (exists s', w c s = Some (Ok s')) \/ w c s = Some Panic.
Proof. intros Hc. unfold w. destruct (c s) as [[a s']|e|] eqn:E; eauto. destruct (Hc s e E). Qed.

(** ** A cyclic array that passes the check *)

Definition no_crypto : Crypto := {| sha1 b := b; sha256 b := b; ripemd160 b := b; PublicKey := unit;
  DeserializePublicKey b := inr (); signature_Verify _ _ _ := true |}.

#[local] Existing Instances no_interops overflow_ref no_crypto.

(** [PUSH1 NEWARRAY DUP DUP APPEND]: an array that holds [false] and itself. *)
Definition cyclic_program : list byte := zb <$> [0x51; 0xC5; 0x76; 0x76; 0xC8].
Definition cyclic_heap : Heap := mkHeap {[ 0%nat := OArr false [VBool false; VArray 0%nat] ]} 1%nat.

(** C29: a five-byte program builds an array that contains itself; the cycle check
    looks only at the first element and does not see it, and
    [BuildParamToNative] of that array never returns: no amount of recursion
    produces a result or an error, in whatever order maps are visited. *)
Theorem native_params_diverge (range : MapOrder) :
  (exists e, Execute 6 (NewExecutor cyclic_program (mkFlag false false)) = Some (Ok e) /\
    data (EvalStack e) = [VArray 0%nat] /\ heap e = cyclic_heap) /\
  CircularRefAndDepthDetection range cyclic_heap (VArray 0%nat) = Ok false /\
  forall fuel s, match BuildParamToNative range fuel cyclic_heap (VArray 0%nat) s with
                 | Some (Ok _) | Some (Err _) => False
                 | Some Panic | None => True
                 end.
Proof.
  split; [|split].
  - eexists. split; [vm_compute; reflexivity|]. split; vm_compute; reflexivity.
  - vm_compute. reflexivity.
  - induction fuel as [|f IH]; intros s; [exact I|]. cbn [BuildParamToNative].
    change (CircularRefAndDepthDetection range cyclic_heap (VArray 0%nat)) with (@Ok bool false). cbn [build_body].
    change (arr_data cyclic_heap 0%nat) with (Ok [VBool false; VArray 0%nat]).
    destruct (w_cases (Sink.WriteVarBytes (BigIntToNeoBytes (zlen [VBool false; VArray 0%nat]))) s
      (no_err_WriteVarBytes _)) as [[s1 E1]|E1]; rewrite E1; cbn [andthen]; [|exact I].
    cbn [build_all]. destruct f as [|f]; [exact I|].
    change (BuildParamToNative range (S f) cyclic_heap (VBool false) s1) with (w (Sink.WriteBool false) s1).
    destruct (w_cases (Sink.WriteBool false) s1 (no_err_WriteBool _)) as [[s2 E2]|E2]; rewrite E2; cbn [andthen]; [|exact I].
    specialize (IH s2). destruct (BuildParamToNative range (S f) cyclic_heap (VArray 0%nat) s2) as [[s3|e|]|];
      cbn [andthen]; tauto.
Qed.
