(* ===== verification/VmExec.v ===== *)
(** * What instructions compute

    Functional behaviour of the interpreter: arithmetic instructions are exact on
    the integers of the stack, a call returns to the instruction behind it, and
    the scripts of the parameter builder ([params_builder.go]) push what they were
    built from. *)

From S2P Require Import Prelude Codec BigInt IntValue VmValue ValueStack VmHeap VmReader Executor VmSafety VmSound VmParams.

Section Exec.
Context `{HI : Interops} `{HO : Overflow} `{HC : Crypto}.
Implicit Types (v : VmValue) (e : Executor).

(** ** Arithmetic *)

(** The exact result; [None] for division by zero. *)
Definition exact_result (op : OpCode) (x y : Z) : option Z :=
  match op with
  | ADD => Some (x + y)
  | SUB => Some (x - y)
  | MUL => Some (x * y)
  | DIV => if y =? 0 then None else Some (Z.quot x y)
  | MOD => if y =? 0 then None else Some (Z.rem x y)
  | MAX => Some (Z.max x y)
  | MIN => Some (Z.min x y)
  | _ => None
  end.

Definition is_arith (op : OpCode) : bool :=
  match op with ADD | SUB | MUL | DIV | MOD | MAX | MIN => true | _ => false end.

Lemma binary_op_exact op x y :
  is_arith op = true -> int_wf x -> int_wf y ->
  (op = DIV -> ~ (big_of x = MinInt64 /\ big_of y = -1)) ->
  match exact_result op (big_of x) (big_of y) with
  | Some z => spec_of z (binary_op op x y)
  | None => binary_op op x y = Err ERR_DIV_MOD_BY_ZERO
  end.
Proof.
  intros Ho Wx Wy Hd. destruct op; try discriminate; cbn [exact_result binary_op];
    try (first [apply Add_spec | apply Sub_spec | apply Mul_spec | apply Max_spec | apply Min_spec]; assumption).
  - unfold Div. rewrite IsZero_spec. destruct (Z.eqb_spec (big_of y) 0) as [E|E]; [reflexivity|].
    apply (intOp_spec Z.quot); auto. intros a b Ha Hb -> -> _. pose proof (quot_s64 _ _ Ha Hb E (Hd eq_refl)).
    split; [assumption | apply s64_small; assumption].
  - unfold Mod. rewrite IsZero_spec. destruct (Z.eqb_spec (big_of y) 0) as [E|E]; [reflexivity|].
    apply (intOp_spec Z.rem); auto. intros a b Ha Hb -> -> _. pose proof (rem_s64 _ _ Ha Hb E).
    split; [assumption | apply s64_small; assumption].
Qed.

Lemma Pop_abs s v l : abs s = v :: l -> exists s', Pop s = Ok (v, s') /\ holds s s' l.
Proof. apply Pop_spec. Qed.

(** Two conversions off the stack. *)
Lemma PopPairAsIntVal_abs s v1 v2 l x y :
  abs s = v2 :: v1 :: l -> AsIntValue v1 = Ok x -> AsIntValue v2 = Ok y ->
  exists s', PopPairAsIntVal s = Ok ((x, y), s') /\ holds s s' l.
Proof.
  intros Hs Hx Hy. destruct (Pop_abs s v2 (v1 :: l) Hs) as (s1 & E1 & A1 & L1).
  destruct (Pop_abs s1 v1 l A1) as (s2 & E2 & A2 & L2).
  exists s2. split; [|split; [exact A2 | congruence]].
  unfold PopPairAsIntVal, PopAsIntValue, st_bind, st_lift. rewrite E1, Hy, E2, Hx. reflexivity.
Qed.

Definition with_eval e s : Executor := mkExec s (AltStack e) (State e) (Features e) (Callers e) (Context e) (heap e).

Lemma exec_arith_run op e s x y :
  is_arith op = true -> PopPairAsIntVal (EvalStack e) = Ok ((x, y), s) ->
  ExecuteOp op e = match binary_op op x y with
                   | Ok z => push_int z (with_eval e s) | Err m => Err m | Panic => Panic end.
Proof.
  intros Ho E. destruct op; try discriminate; unfold ExecuteOp; cbn [checkFeaturesEnabled dispatch exec_arith];
    unfold st_bind at 1, on_eval at 1; rewrite E; cbv beta iota; unfold st_bind at 1, st_lift, with_eval;
    destruct (binary_op _ x y); reflexivity.
Qed.

(** On a stack whose two top values convert to the integers [x] (below) and
    [y] (top), ADD, SUB, MUL, DIV, MOD, MAX and MIN replace them by the exact
    result when it fits in 32 bytes and fail otherwise, or when dividing by zero;
    the one exception is the smallest [int64] divided by [-1]. *)
Theorem arithmetic_instructions_exact op e v1 v2 rest x y :
  is_arith op = true -> vm_run e -> abs (EvalStack e) = v2 :: v1 :: rest ->
  AsIntValue v1 = Ok x -> AsIntValue v2 = Ok y ->
  (op = DIV -> ~ (big_of x = MinInt64 /\ big_of y = -1)) ->
  match exact_result op (big_of x) (big_of y) with
  | Some z =>
      (fits z -> exists e' r, ExecuteOp op e = Ok (NONE, e') /\ abs (EvalStack e') = VmValueFromIntValue r :: rest /\
        big_of r = z /\ e' = with_eval e (EvalStack e')) /\
      (~ fits z -> ExecuteOp op e = Err ERR_OVER_MAX_BIGINTEGER_SIZE)
  | None => ExecuteOp op e = Err ERR_DIV_MOD_BY_ZERO
  end.
Proof.
  intros Ho Hr Habs Hx Hy Hd. destruct Hr as [(Hh & (Hlim & Hlen & Hvals) & _) _].
  assert (Hv : val_ok (heap e) v2 /\ val_ok (heap e) v1).
  { unfold abs in Habs. apply (f_equal (@rev VmValue)) in Habs. rewrite rev_involutive in Habs. rewrite Habs in Hvals.
    cbn [rev] in Hvals. apply Forall_app in Hvals as [Hvals H2]. apply Forall_app in Hvals as [_ H1].
    inversion H2; inversion H1; subst; auto. }
  pose proof (AsIntValue_fine _ _ (proj2 Hv)) as Wx. rewrite Hx in Wx. pose proof (AsIntValue_fine _ _ (proj1 Hv)) as Wy. rewrite Hy in Wy.
  destruct (PopPairAsIntVal_abs _ _ _ _ _ _ Habs Hx Hy) as (s & Es & As & Ls).
  pose proof (binary_op_exact op x y Ho Wx Wy Hd) as Hspec. rewrite (exec_arith_run op e s x y Ho Es).
  destruct (exact_result op (big_of x) (big_of y)) as [z|]; [|rewrite Hspec; reflexivity].
  destruct Hspec as [Hfit Hnofit]. split; [|intros N; rewrite (Hnofit N); reflexivity].
  intros F. destruct (Hfit F) as (r & -> & _ & Er).
  destruct (proj1 (Push_spec s (VmValueFromIntValue r))) as (s' & Ep & Ap & _).
  { rewrite Ls, Hlim. rewrite Hlim in Hlen. rewrite <- abs_length in Hlen |- *. rewrite Habs in Hlen. rewrite As.
    rewrite !zlen_cons in Hlen. lia. }
  exists (with_eval e s'), r. unfold push_int, st_bind, on_eval, with_eval. cbn [EvalStack]. rewrite Ep.
  split; [reflexivity|]. cbn [EvalStack]. rewrite Ap, As. auto.
Qed.

(** ** Calls *)

Lemma read_two c : 0 <= index (OpReader c) -> BaseStream (OpReader c) = Code c -> index (OpReader c) + 2 <= zlen (Code c) ->
  ReadInt16 (OpReader c) = Ok (s16 (le2z (take 2 (drop (Z.to_nat (index (OpReader c))) (Code c)))),
                               seek_to (index (OpReader c) + 2) (OpReader c)).
Proof.
  intros Hi Hb Hl. unfold ReadInt16, ReadUint16, read_into, st_bind. rewrite Hb.
  rewrite (proj2 (Z.leb_gt _ _)) by lia. change (Z.to_nat 2) with 2%nat.
  set (b := take 2 _). assert (Hlen : length b = 2%nat) by (unfold b; rewrite length_take, length_drop; unfold zlen in Hl; lia).
  rewrite Hlen, Nat.sub_diag, app_nil_r. unfold zlen. rewrite Hlen. reflexivity.
Qed.

Lemma Position_at r i : 0 <= i <= zlen (BaseStream r) -> Position (seek_to i r) = i.
Proof.
  intros Hi. unfold Position, Length, seek_to; cbn [BaseStream index].
  destruct (Z.leb_spec (zlen (BaseStream r)) i); lia.
Qed.

(** A CALL at code position [p - 1] jumps by its signed 16-bit offset relative to the
    opcode and remembers the instruction behind its operand; the matching RET
    resumes there with the callers as they were before the call. *)
Theorem call_returns e c num :
  vm_run e -> Context e = Some c ->
  index (OpReader c) + 2 <= zlen (Code c) ->
  num = s16 (le2z (take 2 (drop (Z.to_nat (index (OpReader c))) (Code c)))) ->
  0 <= index (OpReader c) - 1 + num <= zlen (Code c) ->
  zlen (Callers e) < MAX_INVOCATION_STACK_SIZE ->
  exists e1 c1 c2, ExecuteOp CALL e = Ok (NONE, e1) /\
    Context e1 = Some c1 /\ GetInstructionPointer c1 = index (OpReader c) - 1 + num /\
    EvalStack e1 = EvalStack e /\ Callers e1 = Callers e ++ [c2] /\
    forall e2, Callers e2 = Callers e1 ->
      exists e3, ExecuteOp RET e2 = Ok (NONE, e3) /\ Context e3 = Some c2 /\ Code c2 = Code c /\
        GetInstructionPointer c2 = index (OpReader c) + 2 /\ Callers e3 = Callers e /\ EvalStack e3 = EvalStack e2.
Proof.
  intros [(_ & _ & _ & _ & _ & Hx) _] Hc Hlen Hnum Hrange Hcall. destruct (Hx c Hc) as [Hb Hi].
  set (p := index (OpReader c)) in *.
  assert (Hpos : Position (OpReader c) = p).
  { rewrite <- (Position_at (OpReader c) p) by (rewrite Hb; lia). destruct (OpReader c); reflexivity. }
  set (r2 := mkReader (Code c) (p + 2) (AllowReaderEOF (vmFlags c))).
  set (c2 := mkCtx (Code c) r2 (InstructionPointer c) (vmFlags c)).
  set (c1 := mkCtx (Code c) (seek_to (p - 1 + num) (OpReader c)) (InstructionPointer c) (vmFlags c)).
  exists (mkExec (EvalStack e) (AltStack e) (State e) (Features e) (Callers e ++ [c2]) (Some c1) (heap e)), c1, c2.
  assert (Hclone : SetInstructionPointer (GetInstructionPointer (Clone c) + 2) (Clone c) = Ok ((), c2)).
  { unfold Clone, SetInstructionPointer, with_reader, Seek, GetInstructionPointer. rewrite Hpos.
    rewrite (proj2 (Z.ltb_ge p 0)) by lia. cbn [OpReader Code InstructionPointer vmFlags NewExecutionContext].
    rewrite Position_at by (cbn; lia). rewrite (proj2 (Z.ltb_ge (p + 2) 0)) by lia. reflexivity. }
  split.
  - unfold ExecuteOp. cbn [checkFeaturesEnabled dispatch exec_flow]. unfold st_bind at 1, on_ctx at 1. rewrite Hc.
    cbv beta iota. unfold st_bind at 1, st_lift at 1. rewrite Hclone. cbv beta iota.
    unfold st_bind at 1, PushContext. cbn [Callers]. rewrite (proj2 (Z.leb_gt _ _)) by exact Hcall. cbv beta iota.
    unfold exec_jump, st_bind at 1, on_reader, on_ctx at 1, with_reader. cbn [Context EvalStack AltStack State Features Callers heap].
    rewrite read_two by assumption. fold p. rewrite <- Hnum. cbv beta iota. unfold st_bind at 1, on_ctx at 1.
    cbn [Context EvalStack AltStack State Features Callers heap].
    unfold GetInstructionPointer; cbn [OpReader]. rewrite Position_at by (rewrite Hb; lia).
    unfold st_bind at 1, on_ctx at 1. cbn [Context EvalStack AltStack State Features Callers heap Code].
    unfold st_bind at 1, st_guard, st_lift, guard. replace (p + 2 + num - 3) with (p - 1 + num) by lia.
    rewrite (proj2 (Z.ltb_ge (p - 1 + num) 0)), (proj2 (Z.ltb_ge (zlen (Code c)) _)) by lia. cbn [orb negb].
    unfold st_bind at 1, st_ret at 1. cbv beta iota.
    unfold st_bind, on_ctx, SetInstructionPointer, with_reader, Seek. cbn [Context EvalStack AltStack State Features Callers heap OpReader].
    rewrite (proj2 (Z.ltb_ge (p - 1 + num) 0)) by lia. reflexivity.
  - split; [reflexivity|]. split; [apply Position_at; rewrite Hb; lia|]. split; [reflexivity|]. split; [reflexivity|].
    cbn [Callers]. intros e2 He2.
    exists (mkExec (EvalStack e2) (AltStack e2) (State e2) (Features e2) (Callers e) (Some c2) (heap e2)).
    split; [|repeat split; apply Position_at; cbn; lia].
    unfold ExecuteOp. cbn [checkFeaturesEnabled dispatch exec_flow]. unfold PopContext. rewrite He2, zlen_app.
    change (zlen [c2]) with 1. pose proof (zlen_nonneg (Callers e)).
    rewrite (proj2 (Z.eqb_neq _ 0)) by lia. replace (Z.to_nat (zlen (Callers e) + 1 - 1)) with (length (Callers e)) by (unfold zlen; lia).
    rewrite list_lookup_middle, take_app_length by reflexivity. reflexivity.
Qed.

(** ** Scripts of the parameter builder

    [vm/neovm/params_builder.go]: the builder emits the instructions that push the parameters of a call.  Running them pushes values that mean the
    parameters, although zero, the empty bytes and false are pushed by the same instruction, and small integers as numbers. *)

Definition ParamsBuilder : Type := list byte.
Definition NewParamsBuilder (buffer : list byte) : ParamsBuilder := buffer.
Definition Emit (op : Z) (p : ParamsBuilder) : ParamsBuilder := p ++ [zb op].
Definition EmitPushBool (data : bool) (p : ParamsBuilder) : ParamsBuilder := if data then Emit 0x51 p else Emit 0x00 p.
Definition EmitPushByteArray (data : list byte) (p : ParamsBuilder) : ParamsBuilder :=
  let l := zlen data in
  (if l <? 0x4B then p ++ [zb l]
   else if l <? 0x100 then Emit 0x4C p ++ [zb l]
   else if l <? 0x10000 then Emit 0x4D p ++ z2le 2 l
   else Emit 0x4E p ++ z2le 4 l) ++ data.
Definition EmitPushInteger (data : Z) (p : ParamsBuilder) : ParamsBuilder :=
  if data =? -1 then Emit 0x4F p
  else if data =? 0 then Emit 0x00 p
  else if (0 <? data) && (data <? 16) then Emit (0x51 - 1 + data) p
  else EmitPushByteArray (BigIntToNeoBytes data) p.
Definition EmitPushCall (address : list byte) (p : ParamsBuilder) : ParamsBuilder := Emit 0x67 p ++ address.
Definition ToArray (p : ParamsBuilder) : list byte := p.

Inductive param := PBool (b : bool) | PInt (z : Z) | PBytes (d : list byte).
Definition emit (q : param) : ParamsBuilder -> ParamsBuilder :=
  match q with PBool b => EmitPushBool b | PInt z => EmitPushInteger z | PBytes d => EmitPushByteArray d end.
Definition script (ps : list param) : list byte := ToArray (foldl (fun p q => emit q p) (NewParamsBuilder []) ps).

(** The instruction of a parameter, and the value it pushes. *)
Definition data_push (d : list byte) : list byte :=
  (if zlen d <? 0x4B then [zb (zlen d)]
   else if zlen d <? 0x100 then [zb 0x4C; zb (zlen d)]
   else if zlen d <? 0x10000 then zb 0x4D :: z2le 2 (zlen d)
   else zb 0x4E :: z2le 4 (zlen d)) ++ d.
Definition small_push (z : Z) : list byte := [zb (if z =? 0 then 0x00 else 0x51 - 1 + z)].
Definition small (z : Z) : bool := (-1 <=? z) && (z <? 16).
Definition push_code (q : param) : list byte :=
  match q with
  | PBool b => small_push (if b then 1 else 0)
  | PInt z => if small z then small_push z else data_push (BigIntToNeoBytes z)
  | PBytes d => data_push d
  end.
Definition data_value (d : list byte) : VmValue := if zlen d =? 0 then VInt 0 else VBytes d.
Definition pushed (q : param) : VmValue :=
  match q with
  | PBool b => VInt (if b then 1 else 0)
  | PInt z => if small z then VInt z else data_value (BigIntToNeoBytes z)
  | PBytes d => data_value d
  end.

(** A value stands for a parameter. *)
Definition means (q : param) (v : VmValue) : Prop :=
  match q with
  | PBool b => AsBool v = Ok b
  | PInt z => exists i, AsIntValue v = Ok i /\ big_of i = z
  | PBytes d => AsBytes v = Ok d
  end.
Definition param_ok (q : param) : Prop := match q with PBool _ => True | PInt z => fits z | PBytes d => zlen d <= MAX_BYTEARRAY_SIZE end.

Lemma emit_code q p : emit q p = p ++ push_code q.
Proof.
  assert (Hd : forall d, EmitPushByteArray d p = p ++ data_push d).
  { intros d. unfold EmitPushByteArray, data_push, Emit. repeat case_match; rewrite <- ?app_assoc; reflexivity. }
  destruct q as [b|z|d]; cbn [emit push_code]; [destruct b; reflexivity| |apply Hd].
  unfold EmitPushInteger, small, small_push. destruct (Z.eqb_spec z (-1)) as [->|H1]; [reflexivity|]. destruct (Z.eqb_spec z 0) as [->|H0]; [reflexivity|].
  destruct (Z.ltb_spec 0 z), (Z.leb_spec (-1) z), (Z.ltb_spec z 16); cbn [andb]; try lia; first [reflexivity | apply Hd].
Qed.
Lemma script_code ps : script ps = flat_map push_code ps.
Proof.
  unfold script, ToArray, NewParamsBuilder. rewrite <- (app_nil_l (flat_map push_code ps)). generalize (@nil byte). induction ps as [|q ps IH]; intros p; cbn [foldl flat_map]; [symmetry; apply app_nil_r|].
  rewrite IH, emit_code, app_assoc. reflexivity.
Qed.

Lemma pushed_means q : param_ok q -> means q (pushed q).
Proof.
  assert (Hd : forall d, AsBytes (data_value d) = Ok d) by (intros [|x d]; reflexivity).
  destruct q as [b|z|d]; cbn [param_ok means pushed]; intros Hq; [destruct b; reflexivity| |apply Hd].
  destruct (small z) eqn:Es; [exists (IntValFromInt z); auto|]. assert (Hn : (zlen (BigIntToNeoBytes z) =? 0) = false).
  { apply Z.eqb_neq. intros E. pose proof (twos_ToNeo z) as H. destruct (BigIntToNeoBytes z); [cbn in H; subst z; discriminate Es | rewrite zlen_cons in E; pose proof (zlen_nonneg l); lia]. }
  unfold data_value. rewrite Hn. cbn [AsIntValue]. unfold IntValFromNeoBytes. rewrite FromNeo_twos, twos_ToNeo.
  destruct (proj1 (IntValFromBigInt_spec z) Hq) as (i & E & _ & Ei). eauto.
Qed.

(** The machine in front of [rest]. *)
Definition facing (f : VmFeatureFlag) (code rest : list byte) (e : Executor) : Prop :=
  State e = NONE /\ limit (EvalStack e) = STACK_LIMIT /\
  exists i, Context e = Some (mkCtx code (mkReader code i (AllowReaderEOF f)) 0 f) /\ 0 <= i /\ drop (Z.to_nat i) code = rest.

Lemma drop_on {A} (l d rest : list A) i : 0 <= i -> drop (Z.to_nat i) l = d ++ rest -> drop (Z.to_nat (i + zlen d)) l = rest.
Proof. intros Hi E. replace (Z.to_nat (i + zlen d)) with (Z.to_nat i + length d)%nat by (unfold zlen; lia). rewrite <- drop_drop, E. apply drop_app_length. Qed.
Lemma drop_room {A} (l d rest : list A) i : 0 <= i -> d <> [] -> drop (Z.to_nat i) l = d ++ rest -> i + zlen d + zlen rest = zlen l.
Proof.
  intros Hi Hd E. apply (f_equal length) in E. rewrite length_drop, length_app in E. destruct d; [congruence|]. unfold zlen. cbn [length] in *. lia.
Qed.

Lemma ReadByte_at code b rest i a : 0 <= i -> drop (Z.to_nat i) code = b :: rest -> ReadByte (mkReader code i a) = Ok (b, mkReader code (i + 1) a).
Proof.
  intros Hi E. pose proof (drop_room code [b] rest i Hi ltac:(discriminate) E) as Hr. pose proof (zlen_nonneg rest). change (zlen [b]) with 1 in Hr.
  unfold ReadByte. cbn [BaseStream index]. rewrite (proj2 (Z.leb_gt _ _)) by lia. rewrite <- (Nat.add_0_r (Z.to_nat i)), <- lookup_drop, E. reflexivity.
Qed.
Lemma read_into_at code d rest i a n : 0 <= i -> d <> [] -> zlen d = n -> drop (Z.to_nat i) code = d ++ rest -> read_into n (mkReader code i a) = Ok (d, mkReader code (i + n) a).
Proof.
  intros Hi Hd <- E. pose proof (drop_room code d rest i Hi Hd E). pose proof (zlen_nonneg rest). assert (0 < zlen d) by (destruct d; [congruence | rewrite zlen_cons; pose proof (zlen_nonneg d); lia]).
  unfold read_into. cbn [BaseStream index]. rewrite (proj2 (Z.leb_gt _ _)) by lia. assert (Ht : take (Z.to_nat (zlen d)) (d ++ rest) = d) by (unfold zlen; rewrite Nat2Z.id; apply take_app_length).
  rewrite E, Ht. replace (Z.to_nat (zlen d) - length d)%nat with 0%nat by (unfold zlen; lia). cbn [repeat]. rewrite app_nil_r. reflexivity.
Qed.
Lemma ReadBytes_at code d rest i a : 0 <= i -> d <> [] -> zlen d <= MAX_BYTEARRAY_SIZE -> drop (Z.to_nat i) code = d ++ rest ->
  ReadBytes (zlen d) (mkReader code i a) = Ok (d, mkReader code (i + zlen d) a).
Proof.
  intros Hi Hd Hm E. pose proof (drop_room code d rest i Hi Hd E). pose proof (zlen_nonneg rest). pose proof (zlen_nonneg d). unfold ReadBytes. cbn [AllowEOF]. unfold Length. cbn [BaseStream index].
  unfold MAX_BYTEARRAY_SIZE in Hm. assert (Hc : ((if a then 1 * 1024 * 1024 else if zlen code <=? i then 0 else zlen code - i) <? zlen d) = false).
  { apply Z.ltb_ge. destruct a; [lia|]. destruct (Z.leb_spec (zlen code) i); lia. }
  rewrite Hc. apply (read_into_at code d rest); auto.
Qed.

Lemma on_reader_at {A} (c : RM A) e code i b fp f a i' : Context e = Some (mkCtx code (mkReader code i b) fp f) -> c (mkReader code i b) = Ok (a, mkReader code i' b) ->
  on_reader c e = Ok (a, set_Context (Some (mkCtx code (mkReader code i' b) fp f)) e).
Proof. intros Hc E. unfold on_reader, on_ctx, with_reader. rewrite Hc. cbn [OpReader Code InstructionPointer vmFlags]. rewrite E. reflexivity. Qed.

Lemma push_value e v : limit (EvalStack e) = STACK_LIMIT -> zlen (abs (EvalStack e)) < STACK_LIMIT ->
  exists s, on_eval (Push v) e = Ok ((), with_eval e s) /\ holds (EvalStack e) s (v :: abs (EvalStack e)).
Proof.
  intros Hl Hr. destruct (proj1 (Push_spec (EvalStack e) v)) as (s & E & H); [rewrite Hl, <- abs_length; exact Hr|].
  exists s. unfold on_eval. rewrite E. auto.
Qed.

(** The operand of a data instruction, if it is not part of the opcode. *)
Definition operand (d : list byte) : list byte :=
  if zlen d <? 0x4B then [] else if zlen d <? 0x100 then [zb (zlen d)] else if zlen d <? 0x10000 then z2le 2 (zlen d) else z2le 4 (zlen d).
Definition data_op (d : list byte) : Z := if zlen d <? 0x4B then zlen d else if zlen d <? 0x100 then 0x4C else if zlen d <? 0x10000 then 0x4D else 0x4E.
Lemma data_push_eq d : data_push d = zb (data_op d) :: operand d ++ d.
Proof. unfold data_push, data_op, operand. repeat case_match; reflexivity. Qed.

Lemma exec_data e code i b fp f d rest : Context e = Some (mkCtx code (mkReader code i b) fp f) -> 0 <= i -> drop (Z.to_nat i) code = operand d ++ d ++ rest ->
  d <> [] -> zlen d <= MAX_BYTEARRAY_SIZE ->
  exec_push (decode (data_op d)) e = push_data d (set_Context (Some (mkCtx code (mkReader code (i + zlen (operand d) + zlen d) b) fp f)) e).
Proof.
  intros Hc Hi Hd Hne Hm. pose proof (zlen_nonneg (operand d)) as Ho. pose proof (drop_on _ _ _ _ Hi Hd) as Hd2. assert (Hz : 0 < zlen d) by (destruct d; [congruence | rewrite zlen_cons; pose proof (zlen_nonneg d); lia]).
  pose proof (ReadBytes_at code d rest (i + zlen (operand d)) b ltac:(lia) Hne Hm Hd2) as Hr. set (c1 := mkCtx code (mkReader code (i + zlen (operand d)) b) fp f).
  assert (Hread : forall e', Context e' = Some c1 -> on_reader (ReadBytes (zlen d)) e' = Ok (d, set_Context (Some (mkCtx code (mkReader code (i + zlen (operand d) + zlen d) b) fp f)) e')) by (intros e' He; eapply on_reader_at; eassumption).
  unfold MAX_BYTEARRAY_SIZE in Hm. unfold data_op. unfold operand in Hd, Hread, c1, Ho |- *. destruct (Z.ltb_spec (zlen d) 75).
  { assert (decode (zlen d) = PUSHBYTES (zlen d)) as -> by (unfold decode; rewrite (proj2 (Z.leb_le 1 _)), (proj2 (Z.leb_le _ 75)) by lia; reflexivity).
    cbn [exec_push]. run (Hread e ltac:(rewrite Hc; unfold c1; rewrite zlen_nil, Z.add_0_r; reflexivity)). reflexivity. }
  destruct (Z.ltb_spec (zlen d) 256).
  { change (decode 76) with PUSHDATA1. cbn [exec_push]. run (on_reader_at ReadByte e code i b fp f _ _ Hc (ReadByte_at code _ _ i b Hi Hd)). rewrite bz_zb_small by lia.
    run (Hread (set_Context (Some c1) e) eq_refl). reflexivity. }
  destruct (Z.ltb_spec (zlen d) 65536).
  - change (decode 77) with PUSHDATA2. cbn [exec_push]. assert (R : ReadUint16 (mkReader code i b) = Ok (zlen d, mkReader code (i + 2) b)).
    { unfold ReadUint16. run (read_into_at code (z2le 2 (zlen d)) (d ++ rest) i b 2 Hi ltac:(discriminate) ltac:(apply zlen_z2le) Hd). rewrite le2z_z2le, Z.mod_small by lia. reflexivity. }
    run (on_reader_at ReadUint16 e code i b fp f _ _ Hc R). run (Hread (set_Context (Some c1) e) eq_refl). reflexivity.
  - change (decode 78) with PUSHDATA4. cbn [exec_push]. assert (R : ReadUint32 (mkReader code i b) = Ok (zlen d, mkReader code (i + 4) b)).
    { unfold ReadUint32. run (read_into_at code (z2le 4 (zlen d)) (d ++ rest) i b 4 Hi ltac:(discriminate) ltac:(apply zlen_z2le) Hd). rewrite le2z_z2le, Z.mod_small by lia. reflexivity. }
    run (on_reader_at ReadUint32 e code i b fp f _ _ Hc R). run (Hread (set_Context (Some c1) e) eq_refl). reflexivity.
Qed.

(** An instruction [op] followed by [opd] that pushes [v]. *)
Definition pushes (op : Z) (opd : list byte) (v : VmValue) : Prop :=
  0 <= op < 256 /\
  forall e code i b fp f rest, Context e = Some (mkCtx code (mkReader code i b) fp f) -> 0 <= i -> drop (Z.to_nat i) code = opd ++ rest ->
    limit (EvalStack e) = STACK_LIMIT -> zlen (abs (EvalStack e)) < STACK_LIMIT ->
    exists s, ExecuteOp (decode op) e = Ok (NONE, with_eval (set_Context (Some (mkCtx code (mkReader code (i + zlen opd) b) fp f)) e) s) /\
      holds (EvalStack e) s (v :: abs (EvalStack e)).

Lemma small_pushes z : small z = true -> pushes (if z =? 0 then 0x00 else 0x51 - 1 + z) [] (VInt z).
Proof.
  unfold small. intros [H1 H2]%andb_prop. apply Z.leb_le in H1. apply Z.ltb_lt in H2. split; [case_match; lia|].
  intros e code i b fp f rest Hc Hi Hd Hl Hr. destruct (push_value e (VInt z) Hl Hr) as (s & E & H). exists s. split; [|exact H].
  change (zlen []) with 0. rewrite Z.add_0_r, <- Hc. unfold ExecuteOp. destruct (Z.eqb_spec z 0) as [->|Hz].
  - change (decode 0) with PUSH0. cbn [checkFeaturesEnabled dispatch exec_push]. run E. destruct e; reflexivity.
  - assert (decode (0x51 - 1 + z) = PUSHNUM (0x51 - 1 + z)) as ->.
    { unfold decode. rewrite (proj2 (Z.leb_gt _ 0x4B)), andb_false_r by lia. destruct (Z.eqb_spec (0x51 - 1 + z) 0x4F); [reflexivity|]. rewrite (proj2 (Z.leb_le 0x51 _)), (proj2 (Z.leb_le _ 0x60)) by lia. reflexivity. }
    cbn [checkFeaturesEnabled dispatch exec_push]. replace (0x51 - 1 + z - 0x51 + 1) with z by lia. run E. destruct e; reflexivity.
Qed.

Lemma data_op_push d : zlen d <= MAX_BYTEARRAY_SIZE -> d <> [] -> 0 <= data_op d < 256 /\ ExecuteOp (decode (data_op d)) = exec_push (decode (data_op d)).
Proof.
  intros Hm Hne. assert (Hz : 0 < zlen d) by (destruct d; [congruence | rewrite zlen_cons; pose proof (zlen_nonneg d); lia]).
  unfold data_op. destruct (Z.ltb_spec (zlen d) 75); [|repeat case_match; split; first [lia | reflexivity]].
  split; [lia|]. unfold decode. rewrite (proj2 (Z.leb_le 1 _)), (proj2 (Z.leb_le _ 75)) by lia. reflexivity.
Qed.

Lemma data_pushes d : zlen d <= MAX_BYTEARRAY_SIZE -> d <> [] -> pushes (data_op d) (operand d ++ d) (VBytes d).
Proof.
  intros Hm Hne. destruct (data_op_push d Hm Hne) as [Hb Hop]. split; [exact Hb|]. intros e code i b fp f rest Hc Hi Hd Hl Hr. rewrite <- app_assoc in Hd.
  rewrite Hop, (exec_data e code i b fp f d rest) by assumption. rewrite zlen_app, Z.add_assoc. set (e1 := set_Context _ e).
  destruct (push_value e1 (VBytes d) Hl Hr) as (s & E & H). exists s. split; [|exact H]. unfold push_data, st_bind at 1, st_lift, VmValueFromBytes.
  rewrite (proj2 (Z.ltb_ge MAX_BYTEARRAY_SIZE _)) by exact Hm. cbv beta iota. run E. reflexivity.
Qed.

Lemma fits_bytes z : fits z -> small z = false -> zlen (BigIntToNeoBytes z) <= MAX_BYTEARRAY_SIZE.
Proof.
  unfold fits, MAX_BYTEARRAY_SIZE. intros Hf Hs. assert (Hz : z <> 0) by (intros ->; discriminate Hs). destruct (zlen_ToNeo z Hz) as [Hl|Hl]; [|lia].
  destruct (Z.le_gt_cases (zlen (BigIntToNeoBytes z)) 34) as [|Hgt]; [lia|]. pose proof (Z.pow_le_mono_r 256 34 (zlen (BigIntToNeoBytes z) - 1)).
  change (256 ^ 34) with (2 ^ 256 * 2 ^ 16) in *. destruct (Z.ltb_spec z 0); lia.
Qed.

Lemma param_pushes q : param_ok q -> exists op opd, push_code q = zb op :: opd /\ pushes op opd (pushed q).
Proof.
  assert (Hs : forall z, small z = true -> exists op opd, small_push z = zb op :: opd /\ pushes op opd (VInt z)).
  { intros z Hz. eexists _, []. split; [reflexivity | apply small_pushes, Hz]. }
  assert (Hd : forall d, zlen d <= MAX_BYTEARRAY_SIZE -> exists op opd, data_push d = zb op :: opd /\ pushes op opd (data_value d)).
  { intros d Hm. destruct d as [|x d]; [apply (Hs 0 eq_refl)|]. unfold data_value. rewrite (proj2 (Z.eqb_neq _ 0)) by (rewrite zlen_cons; pose proof (zlen_nonneg d); lia).
    rewrite data_push_eq. eexists _, _. split; [reflexivity | apply data_pushes; [exact Hm | discriminate]]. }
  destruct q as [[]|z|d]; cbn [param_ok push_code pushed]; intros Hq; auto. destruct (small z) eqn:Es; [auto | apply Hd, fits_bytes; assumption].
Qed.

Lemma push_step f code q rest e : param_ok q -> facing f code (push_code q ++ rest) e -> zlen (abs (EvalStack e)) < STACK_LIMIT ->
  exists e', step e = Ok (inr e') /\ facing f code rest e' /\ abs (EvalStack e') = pushed q :: abs (EvalStack e).
Proof.
  intros Hq (Hst & Hl & i & Hc & Hi & Hd) Hr. destruct (param_pushes q Hq) as (op & opd & E & Hop & Hrun). rewrite E in Hd.
  pose proof (drop_on code [zb op] (opd ++ rest) i Hi Hd) as Hd1. change (zlen [zb op]) with 1 in Hd1.
  set (e1 := set_Context (Some (mkCtx code (mkReader code (i + 1) (AllowReaderEOF f)) 0 f)) e).
  destruct (Hrun e1 code (i + 1) (AllowReaderEOF f) 0 f rest eq_refl ltac:(lia) Hd1 Hl Hr) as (s & Es & As & Ls).
  eexists. split; [|split; [split; [|split]|]].
  - unfold step. rewrite Hc, Hst. cbn [orb Z.eqb NONE FAULT HALT BREAK]. unfold ReadOpCode, with_reader. cbn [OpReader Code InstructionPointer vmFlags].
    run (ReadByte_at code (zb op) (opd ++ rest) i (AllowReaderEOF f) Hi Hd). unfold st_ret. rewrite bz_zb_small by lia. fold e1. rewrite Es. reflexivity.
  - reflexivity.
  - cbn. rewrite Ls. exact Hl.
  - exists (i + 1 + zlen opd). split; [reflexivity|]. pose proof (zlen_nonneg opd). split; [lia|]. apply drop_on; [lia | exact Hd1].
  - exact As.
Qed.

Lemma facing_end f code e : facing f code [] e -> step e = Ok (inl e).
Proof.
  intros (Hst & _ & i & Hc & Hi & Hd). apply (f_equal length) in Hd. rewrite length_drop in Hd. cbn [length] in Hd.
  unfold step. rewrite Hc, Hst. cbn [orb Z.eqb NONE FAULT HALT BREAK]. unfold ReadOpCode, with_reader, st_bind, ReadByte. cbn [OpReader BaseStream index].
  rewrite (proj2 (Z.leb_le _ _)) by (unfold zlen; lia). reflexivity.
Qed.

Lemma script_runs f code ps e : Forall param_ok ps -> facing f code (flat_map push_code ps) e -> zlen (abs (EvalStack e)) + zlen ps <= STACK_LIMIT ->
  exists e', Executor.run (S (length ps)) e = Some (Ok e') /\ abs (EvalStack e') = rev (pushed <$> ps) ++ abs (EvalStack e).
Proof.
  intros Hp. revert e. induction Hp as [|q ps Hq Hp IH]; intros e Hf Hr.
  - exists e. cbn [length Executor.run]. rewrite (facing_end f code e Hf). auto.
  - rewrite zlen_cons in Hr. pose proof (zlen_nonneg ps). destruct (push_step f code q _ e Hq Hf ltac:(lia)) as (e1 & E & Hf1 & A).
    destruct (IH e1 Hf1) as (e' & E' & A'); [rewrite A, zlen_cons; lia|]. exists e'. split; [|rewrite A', A; cbn [fmap list_fmap rev]; rewrite <- app_assoc; reflexivity].
    change (length (q :: ps)) with (S (length ps)). remember (S (length ps)) as n. cbn [Executor.run]. rewrite E. exact E'.
Qed.


End Exec.

(** ** Witnesses *)

#[local] Existing Instances no_interops overflow_ref no_crypto.

Definition flags0 : VmFeatureFlag := mkFlag false false.

(** [PUSH2 PUSH3 ADD] *)
Definition add_program : list byte := zb <$> [0x52; 0x53; 0x93].
Definition nth_state (n : nat) (code : list byte) : Executor :=
  Nat.iter n (fun e => match step e with Ok (inr e') => e' | _ => e end) (set_State NONE (NewExecutor code flags0)).

Lemma nth_reachable n code : reachable code flags0 (nth_state n code).
Proof.
  induction n as [|n IH]; [constructor|]. unfold nth_state in *. rewrite Nat.iter_succ.
  destruct (step _) as [[e'|e']|m|] eqn:E; try exact IH. exact (reach_step _ _ _ _ IH E).
Qed.

Lemma interpreter_invariant_witness :
  abs (EvalStack (nth_state 3 add_program)) = [VInt 5] /\
  vm_ok (nth_state 3 add_program) /\ step (nth_state 3 add_program) <> Panic.
Proof.
  split; [vm_compute; reflexivity|].
  apply (interpreter_invariant add_program flags0 (nth_state 3 add_program)), nth_reachable.
Defined.

Lemma arithmetic_instructions_exact_witness :
  exists e' r, ExecuteOp ADD (nth_state 2 add_program) = Ok (NONE, e') /\
    abs (EvalStack e') = [VmValueFromIntValue r] /\ big_of r = 5.
Proof.
  pose proof (reachable_ok _ _ _ (nth_reachable 2 add_program)) as Hok.
  destruct (arithmetic_instructions_exact ADD (nth_state 2 add_program) (VInt 2) (VInt 3) []
    (IntValFromInt 2) (IntValFromInt 3)) as [Hf _].
  - reflexivity.
  - split; [exact Hok|]. eexists. split; [vm_compute; reflexivity|]. split; [vm_compute; reflexivity | vm_compute; discriminate].
  - vm_compute. reflexivity.
  - reflexivity.
  - reflexivity.
  - discriminate.
  - destruct Hf as (e' & r & E & A & R & _); [vm_compute; reflexivity|]. exists e', r. auto.
Defined.

(** [CALL +4; RET; PUSH1; RET], after its first opcode has been read. *)
Definition call_program : list byte := zb <$> [0x65; 0x04; 0x00; 0x66; 0x51; 0x66].
Definition call_context : ExecutionContext := mkCtx call_program (mkReader call_program 1 false) 0 flags0.
Definition call_state : Executor := set_Context (Some call_context) (nth_state 0 call_program).

Lemma call_returns_witness :
  exists e1 c1, ExecuteOp CALL call_state = Ok (NONE, e1) /\ Context e1 = Some c1 /\ GetInstructionPointer c1 = 4 /\
    exists e3 c2, ExecuteOp RET e1 = Ok (NONE, e3) /\ Context e3 = Some c2 /\ GetInstructionPointer c2 = 3.
Proof.
  assert (Hc : ctx_ok call_context) by (split; vm_compute; [reflexivity | discriminate]).
  destruct (call_returns call_state call_context 4) as (e1 & c1 & c2 & E1 & X1 & P1 & _ & _ & R).
  - split; [|exists call_context; split; [reflexivity | exact Hc]].
    pose proof (reachable_ok _ _ _ (nth_reachable 0 call_program)) as (H1 & H2 & H3 & H4 & H5 & _).
    repeat (split; [assumption|]). intros c [= <-]. exact Hc.
  - reflexivity.
  - vm_compute. discriminate.
  - vm_compute. reflexivity.
  - vm_compute. split; discriminate.
  - vm_compute. reflexivity.
  - exists e1, c1. split; [exact E1|]. split; [exact X1|]. split; [exact P1|].
    destruct (R e1 eq_refl) as (e3 & E3 & X3 & _ & P3 & _). exists e3, c2. auto.
Defined.

(** A boolean, a small and a large integer, and more bytes than a single opcode can announce. *)
Definition some_params : list param := [PBool false; PInt (-1); PInt 1000; PBytes (repeat x07 300); PBytes []].

