(* ===== verification/MemDb.v ===== *)
(** * The write set: [core/store/overlaydb/memdb.go]

    [MemDB] is a skip list laid out in two flat arrays: [kvData] holds keys and
    values, [nodeData] the nodes (offset into [kvData], key length, value length,
    height, and one link per level).  Links are offsets into [nodeData]; [0] is
    the head and also the end of every list.  A deleted key stays in the list
    with an empty value.

    The comparer of goleveldb and the random heights are parameters.  Offsets are
    Go [int]s that stay below the length of a slice, so they are integers here;
    indexing outside a slice is [Panic]. *)

From S2P Require Import Prelude.

(** ** Parameters *)

(** [comparer.BasicComparer]: a total order on byte strings in which only equal
    strings compare equal; [Compare] returns -1, 0 or 1. *)
Class Comparer := {
  Compare : list byte -> list byte -> Z;
  Compare_sign a b : Compare a b = -1 \/ Compare a b = 0 \/ Compare a b = 1;
  Compare_eq a b : Compare a b = 0 <-> a = b;
  Compare_flip a b : Compare a b = - Compare b a;
  Compare_trans a b c : Compare a b < 0 -> Compare b c < 0 -> Compare a c < 0;
  Compare_empty b : b <> [] -> Compare [] b < 0
}.

(** [bytes.Compare], which goleveldb's default comparer calls. *)
Fixpoint bytes_Compare (a b : list byte) : Z :=
  match a, b with
  | [], [] => 0
  | [], _ :: _ => -1
  | _ :: _, [] => 1
  | x :: a, y :: b => if bz x <? bz y then -1 else if bz y <? bz x then 1 else bytes_Compare a b
  end.

Definition DefaultComparer : Comparer.
Proof.
  refine {| Compare := bytes_Compare |}.
  - induction a as [|x a IH]; intros [|y b]; cbn; auto. destruct (bz x <? bz y), (bz y <? bz x); auto.
  - induction a as [|x a IH]; intros [|y b]; cbn; try (split; congruence).
    destruct (Z.ltb_spec (bz x) (bz y)), (Z.ltb_spec (bz y) (bz x)); try lia;
      try (split; [discriminate | intros [= -> ->]; lia]).
    rewrite IH. assert (x = y) by (apply bz_inj; lia). split; congruence.
  - induction a as [|x a IH]; intros [|y b]; cbn; auto.
    destruct (Z.ltb_spec (bz x) (bz y)), (Z.ltb_spec (bz y) (bz x)); auto; lia.
  - induction a as [|x a IH]; intros [|y b] [|z c]; cbn; try lia.
    destruct (Z.ltb_spec (bz x) (bz y)), (Z.ltb_spec (bz y) (bz x)), (Z.ltb_spec (bz y) (bz z)), (Z.ltb_spec (bz z) (bz y)),
      (Z.ltb_spec (bz x) (bz z)), (Z.ltb_spec (bz z) (bz x)); try lia. apply IH.
  - intros [|x b] Hb; [congruence | reflexivity].
Defined.

(** [math/rand]: a source seeded by a number; [Int] draws and moves it on. *)
Class Rand := { Rng : Type; NewSource : Z -> Rng; rand_Int : Rng -> Z * Rng }.

(** ** Slices indexed by [int] *)

Definition ix {A} (l : list A) (i : Z) : res A :=
  if i <? 0 then Panic else match l !! Z.to_nat i with Some x => Ok x | None => Panic end.
Definition upd {A} (l : list A) (i : Z) (x : A) : res (list A) :=
  if (i <? 0) || (zlen l <=? i) then Panic else Ok (<[Z.to_nat i := x]> l).
Definition sub_slice {A} (l : list A) (i j : Z) : res (list A) :=
  match slice l i j with Some s => Ok s | None => Panic end.

Definition tMaxHeight : Z := 12.
Definition nKV : Z := 0.
Definition nKey : Z := 1.
Definition nVal : Z := 2.
Definition nHeight : Z := 3.
Definition nNext : Z := 4.

Section Db.
Context `{HCmp : Comparer} `{HRand : Rand}.

Record MemDB := mkDB {
  rnd : Rng;
  kvData : list byte;
  nodeData : list Z;
  prevNode : list Z;
  maxHeight : Z;
  entries : Z;
  kvSize : Z
}.

Definition seed : Z := 0xdeadbeef.

Definition NewMemDB : MemDB :=
  mkDB (NewSource seed) [] (<[Z.to_nat nHeight := tMaxHeight]> (repeat 0 16)) (repeat 0 12) 1 0 0.

(** The rounds of [randHeight]; at most [tMaxHeight] of them. *)
Fixpoint rand_loop (fuel : nat) (h : Z) (r : Rng) : Z * Rng :=
  match fuel with
  | O => (h, r)
  | S f => if h <? tMaxHeight
           then let '(i, r) := rand_Int r in if Z.rem i 4 =? 0 then rand_loop f (h + 1) r else (h, r)
           else (h, r)
  end.
Definition randHeight (p : MemDB) : Z * Rng := rand_loop 12 1 (rnd p).

(** The key of a node: [p.kvData[o : o+p.nodeData[next+nKey]]]. *)
Definition key_at (p : MemDB) (node : Z) : res (list byte) :=
  let* o := ix (nodeData p) node in
  let* kl := ix (nodeData p) (node + nKey) in
  sub_slice (kvData p) o (o + kl).

Definition compare_node (p : MemDB) (next : Z) (key : list byte) : res Z :=
  if next =? 0 then Ok 1 else let* k := key_at p next in Ok (Compare k key).

(** The loop of [findGE]; returns the node, whether its key is [key], and
    [prevNode].  Every round goes to another node or down a level. *)
Fixpoint findGE_loop (fuel : nat) (p : MemDB) (key : list byte) (prev : bool) (node h : Z) (pn : list Z)
    : res (Z * bool * list Z) :=
  match fuel with
  | O => Panic
  | S f =>
      let* next := ix (nodeData p) (node + nNext + h) in
      let* cmp := compare_node p next key in
      if cmp <? 0 then findGE_loop f p key prev next h pn
      else if negb prev && (cmp =? 0) then Ok (next, true, pn)
      else
        let* pn := if prev then upd pn h node else Ok pn in
        if h =? 0 then Ok (next, cmp =? 0, pn) else findGE_loop f p key prev node (h - 1) pn
  end.

Definition find_fuel (p : MemDB) : nat := Z.to_nat (entries p) + 13.
Definition findGE (p : MemDB) (key : list byte) (prev : bool) : res (Z * bool * list Z) :=
  findGE_loop (find_fuel p) p key prev 0 (maxHeight p - 1) (prevNode p).

Fixpoint findLT_loop (fuel : nat) (p : MemDB) (key : list byte) (node h : Z) : res Z :=
  match fuel with
  | O => Panic
  | S f =>
      let* next := ix (nodeData p) (node + nNext + h) in
      let* o := ix (nodeData p) next in
      let* stop := if next =? 0 then Ok true
                   else let* kl := ix (nodeData p) (next + nKey) in
                        let* k := sub_slice (kvData p) o (o + kl) in Ok (0 <=? Compare k key) in
      if stop : bool then if h =? 0 then Ok node else findLT_loop f p key node (h - 1)
      else findLT_loop f p key next h
  end.
Definition findLT (p : MemDB) (key : list byte) : res Z :=
  findLT_loop (find_fuel p) p key 0 (maxHeight p - 1).

Fixpoint findLast_loop (fuel : nat) (p : MemDB) (node h : Z) : res Z :=
  match fuel with
  | O => Panic
  | S f =>
      let* next := ix (nodeData p) (node + nNext + h) in
      if next =? 0 then if h =? 0 then Ok node else findLast_loop f p node (h - 1)
      else findLast_loop f p next h
  end.
Definition findLast (p : MemDB) : res Z := findLast_loop (find_fuel p) p 0 (maxHeight p - 1).

(** [for i := p.maxHeight; i < h; i++ { p.prevNode[i] = 0 }] *)
Fixpoint clear_prev (fuel : nat) (i h : Z) (pn : list Z) : res (list Z) :=
  match fuel with
  | O => Ok pn
  | S f => if i <? h then let* pn := upd pn i 0 in clear_prev f (i + 1) h pn else Ok pn
  end.

(** [for i, n := range p.prevNode[:h]]: append the old link, point to the node. *)
Fixpoint link_levels (prevs : list Z) (i node : Z) (nd : list Z) : res (list Z) :=
  match prevs with
  | [] => Ok nd
  | n :: prevs =>
      let m := n + nNext + i in
      let* old := ix nd m in
      let* nd := upd (nd ++ [old]) m node in
      link_levels prevs (i + 1) node nd
  end.

Definition Put (key value : list byte) (p : MemDB) : res MemDB :=
  let* '(node, exact, pn) := findGE p key true in
  if exact : bool then
    let kvOffset := zlen (kvData p) in
    let* '(kv, nd) :=
      if negb (zlen value =? 0)
      then let* nd := upd (nodeData p) node kvOffset in Ok (kvData p ++ key ++ value, nd)
      else Ok (kvData p, nodeData p) in
    let* m := ix nd (node + nVal) in
    let* nd := upd nd (node + nVal) (zlen value) in
    Ok (mkDB (rnd p) kv nd pn (maxHeight p) (entries p) (kvSize p + (zlen value - m)))
  else
    let '(h, r) := randHeight p in
    let* '(pn, mh) :=
      if maxHeight p <? h then let* pn := clear_prev 12 (maxHeight p) h pn in Ok (pn, h)
      else Ok (pn, maxHeight p) in
    let kvOffset := zlen (kvData p) in
    let node := zlen (nodeData p) in
    let* prevs := sub_slice pn 0 h in
    let* nd := link_levels prevs 0 node (nodeData p ++ [kvOffset; zlen key; zlen value; h]) in
    Ok (mkDB r (kvData p ++ key ++ value) nd pn mh (entries p + 1) (kvSize p + (zlen key + zlen value))).

Definition Delete (key : list byte) (p : MemDB) : res MemDB := Put key [] p.

(** The value ([None] is [nil]) and whether the key is unknown. *)
Definition Get (p : MemDB) (key : list byte) : res (option (list byte) * bool) :=
  let* '(node, exact, _) := findGE p key false in
  if exact : bool then
    let* valen := ix (nodeData p) (node + nVal) in
    if negb (valen =? 0) then
      let* o := ix (nodeData p) node in
      let* kl := ix (nodeData p) (node + nKey) in
      let* value := sub_slice (kvData p) (o + kl) (o + kl + valen) in
      Ok (Some value, false)
    else Ok (None, false)
  else Ok (None, true).

Definition ErrNotFound : gerror := "leveldb: not found".

Definition Find (p : MemDB) (key : list byte) : res (list byte * option (list byte)) :=
  let* '(node, _, _) := findGE p key false in
  if negb (node =? 0) then
    let* n := ix (nodeData p) node in
    let* kl := ix (nodeData p) (node + nKey) in
    let m := n + kl in
    let* rkey := sub_slice (kvData p) n m in
    let* valen := ix (nodeData p) (node + nVal) in
    if negb (valen =? 0) then let* v := sub_slice (kvData p) m (m + valen) in Ok (rkey, Some v)
    else Ok (rkey, None)
  else Err ErrNotFound.

(** [ForEach f]; [f] acts on a state [s] outside the database. *)
Fixpoint forEach_loop {S} (f : list byte -> list byte -> S -> res S) (fuel : nat) (p : MemDB) (node : Z) (s : S)
    : res S :=
  match fuel with
  | O => Panic
  | S fuel =>
      if node =? 0 then Ok s
      else
        let* n := ix (nodeData p) node in
        let* kl := ix (nodeData p) (node + nKey) in
        let m := n + kl in
        let* key := sub_slice (kvData p) n m in
        let* vl := ix (nodeData p) (node + nVal) in
        let* val := sub_slice (kvData p) m (m + vl) in
        let* s := f key val s in
        let* next := ix (nodeData p) (node + nNext) in
        forEach_loop f fuel p next s
  end.
Definition ForEach {S} (f : list byte -> list byte -> S -> res S) (p : MemDB) (s : S) : res S :=
  let* node := ix (nodeData p) nNext in forEach_loop f (find_fuel p) p node s.

Definition Size (p : MemDB) : Z := kvSize p.
Definition Len (p : MemDB) : Z := entries p.

(** [Reset] keeps the buffers and clears the head node. *)
Definition Reset (p : MemDB) : res MemDB :=
  let* nd := sub_slice (nodeData p) 0 (nNext + tMaxHeight) in
  Ok (mkDB (NewSource seed) []
        (foldl (fun nd n => <[Z.to_nat (nNext + n) := 0]> nd)
          (<[3%nat := tMaxHeight]> (<[2%nat := 0]> (<[1%nat := 0]> (<[0%nat := 0]> nd)))) (seqZ 0 tMaxHeight))
        (foldl (fun pn n => <[Z.to_nat n := 0]> pn) (prevNode p) (seqZ 0 tMaxHeight)) 1 0 0).

End Db.
