(* ===== verification/MemDbTheory.v ===== *)
(** * The skip list refines a sorted list of entries

    [repr p l]: the arrays of [p] hold the entries [l], sorted by key; the lists of
    the levels are sublists of one another.  Every operation of [MemDB] keeps
    such a representation and computes what the same operation does on [l]. *)

From stdpp Require Import sorting.
From S2P Require Import Prelude MemDb.

(** ** Arrays *)

Definition at_ (l : list Z) (i : Z) : Z := nth (Z.to_nat i) l 0.

Lemma ix_at l i : 0 <= i < zlen l -> ix l i = Ok (at_ l i).
Proof.
  intros Hi. unfold ix, at_. rewrite (proj2 (Z.ltb_ge i 0)) by lia.
  destruct (lookup_lt_is_Some_2 l (Z.to_nat i)) as [x E]; [unfold zlen in Hi; lia|].
  rewrite E. rewrite (nth_lookup_Some _ _ 0 _ E). reflexivity.
Qed.

Lemma upd_ok {A} (l : list A) i x : 0 <= i < zlen l -> upd l i x = Ok (<[Z.to_nat i := x]> l).
Proof.
  intros Hi. unfold upd. rewrite (proj2 (Z.ltb_ge i 0)), (proj2 (Z.leb_gt (zlen l) i)) by lia. reflexivity.
Qed.

Lemma zlen_insert {A} (l : list A) i x : zlen (<[i := x]> l) = zlen l.
Proof. unfold zlen. rewrite length_insert. reflexivity. Qed.

Lemma zlen_snoc {A} (l : list A) x : zlen (l ++ [x]) = zlen l + 1.
Proof. rewrite zlen_app. reflexivity. Qed.

Lemma at_insert l i j x : 0 <= i < zlen l -> 0 <= j -> at_ (<[Z.to_nat i := x]> l) j = if j =? i then x else at_ l j.
Proof.
  intros Hi Hj. unfold at_. rewrite !nth_lookup. destruct (Z.eqb_spec j i) as [->|N].
  - rewrite list_lookup_insert_eq by (unfold zlen in Hi; lia). reflexivity.
  - rewrite list_lookup_insert_ne by lia. reflexivity.
Qed.

Lemma at_app_l l1 l2 i : 0 <= i < zlen l1 -> at_ (l1 ++ l2) i = at_ l1 i.
Proof. intros Hi. unfold at_. apply app_nth1. unfold zlen in Hi. lia. Qed.

Lemma at_app_r l1 l2 i : zlen l1 <= i -> at_ (l1 ++ l2) i = at_ l2 (i - zlen l1).
Proof. intros Hi. unfold at_. rewrite app_nth2 by (unfold zlen in Hi; lia). f_equal. unfold zlen in *. lia. Qed.

Lemma sub_slice_ok {A} (l : list A) i j : 0 <= i -> i <= j -> j <= zlen l ->
  sub_slice l i j = Ok (take (Z.to_nat (j - i)) (drop (Z.to_nat i) l)).
Proof. intros. unfold sub_slice. rewrite slice_Some by lia. reflexivity. Qed.

(** A key and a value behind the data so far. *)
Lemma cut_appended (kv k v : list byte) :
  take (Z.to_nat (zlen k)) (drop (Z.to_nat (zlen kv)) (kv ++ k ++ v)) = k /\
  take (Z.to_nat (zlen v)) (drop (Z.to_nat (zlen kv + zlen k)) (kv ++ k ++ v)) = v.
Proof.
  unfold zlen. rewrite <- Nat2Z.inj_add, !Nat2Z.id, drop_app_length, take_app_length. split; [reflexivity|].
  rewrite app_assoc, <- length_app, drop_app_length, firstn_all. reflexivity.
Qed.

(** The end of a list of nodes, [0] (the head) when it is empty. *)
Definition endz (l : list Z) : Z := List.last l 0.
Definition hdz (l : list Z) : Z := List.hd 0 l.

Lemma endz_snoc l x : endz (l ++ [x]) = x.
Proof. apply List.last_last. Qed.

Lemma endz_app l1 l2 : endz (l1 ++ l2) = if decide (l2 = []) then endz l1 else endz l2.
Proof.
  case_decide as E; [subst; rewrite app_nil_r; reflexivity|].
  destruct l2 as [|x l2 _] using rev_ind; [congruence|]. rewrite app_assoc, !endz_snoc. reflexivity.
Qed.

Lemma endz_In l : endz l = 0 \/ In (endz l) l.
Proof.
  destruct l as [|x l _] using rev_ind; [left; reflexivity|]. right. rewrite endz_snoc. apply in_app_iff. right; left; reflexivity.
Qed.

(** ** Linking a new node *)

(** The words [link_levels] redirects: one per level. *)
Fixpoint link_addrs (prevs : list Z) (i : Z) : list Z :=
  match prevs with [] => [] | n :: prevs => n + nNext + i :: link_addrs prevs (i + 1) end.

Lemma link_addrs_lookup prevs i j : link_addrs prevs i !! j = (fun n => n + nNext + (i + Z.of_nat j)) <$> prevs !! j.
Proof.
  revert i j. induction prevs as [|n prevs IH]; intros i [|j]; cbn [link_addrs]; try reflexivity.
  - cbn. f_equal. lia.
  - change (link_addrs prevs (i + 1) !! j = (fun n => n + nNext + (i + Z.of_nat (S j))) <$> prevs !! j).
    rewrite IH. destruct (prevs !! j); cbn; [f_equal; lia | reflexivity].
Qed.

Lemma link_levels_spec prevs : forall i node nd,
  Forall (fun a => 0 <= a < zlen nd) (link_addrs prevs i) -> NoDup (link_addrs prevs i) ->
  exists nd', link_levels prevs i node nd = Ok nd' /\ zlen nd' = zlen nd + zlen prevs /\
    (forall a, 0 <= a < zlen nd -> at_ nd' a = if bool_decide (a ∈ link_addrs prevs i) then node else at_ nd a) /\
    (forall j a, link_addrs prevs i !! j = Some a -> at_ nd' (zlen nd + Z.of_nat j) = at_ nd a).
Proof.
  induction prevs as [|n prevs IH]; intros i node nd Hr Hnd; cbn [link_addrs link_levels] in *.
  { exists nd. split; [reflexivity|]. split; [rewrite zlen_nil; lia|]. split; [reflexivity | discriminate]. }
  set (m := n + nNext + i) in *. apply Forall_cons in Hr as [Hm Hr]. apply NoDup_cons in Hnd as [Hnm Hnd].
  rewrite ix_at by exact Hm. cbn [res_bind]. rewrite upd_ok by (rewrite zlen_snoc; lia). cbn [res_bind].
  set (nd1 := <[Z.to_nat m := node]> (nd ++ [at_ nd m])).
  assert (Hlen : zlen nd1 = zlen nd + 1) by (unfold nd1; rewrite zlen_insert, zlen_snoc; lia).
  assert (Hat : forall a, 0 <= a < zlen nd -> at_ nd1 a = if a =? m then node else at_ nd a).
  { intros a Ha. unfold nd1. rewrite at_insert by (rewrite ?zlen_snoc; lia).
    rewrite at_app_l by exact Ha. reflexivity. }
  destruct (IH (i + 1) node nd1) as (nd' & E & Hl & Hold & Hnew); [| exact Hnd |].
  { eapply Forall_impl; [exact Hr|]. cbn beta. intros; lia. }
  exists nd'. split; [exact E|]. split; [rewrite Hl, Hlen, zlen_cons; lia|]. split.
  - intros a Ha. rewrite Hold, Hat by lia. destruct (Z.eqb_spec a m) as [->|Hne].
    + rewrite (bool_decide_eq_true_2 (m ∈ m :: _)) by (left). destruct (bool_decide _); reflexivity.
    + rewrite (bool_decide_ext (a ∈ m :: link_addrs prevs (i + 1)) (a ∈ link_addrs prevs (i + 1))); [reflexivity|].
      rewrite elem_of_cons. tauto.
  - intros [|j] a Ea.
    + injection Ea as <-. rewrite Z.add_0_r, Hold by lia. rewrite bool_decide_eq_false_2.
      * unfold nd1. rewrite at_insert by (rewrite ?zlen_snoc; lia).
        rewrite (proj2 (Z.eqb_neq _ _)), at_app_r, Z.sub_diag by lia. reflexivity.
      * intros Hin. rewrite Forall_forall in Hr. specialize (Hr _ Hin). lia.
    + cbn in Ea. replace (zlen nd + Z.of_nat (S j)) with (zlen nd1 + Z.of_nat j) by lia. rewrite (Hnew j a Ea).
      apply list_elem_of_lookup_2 in Ea. rewrite Forall_forall in Hr. rewrite Hat by (apply Hr, Ea).
      rewrite (proj2 (Z.eqb_neq a m)); [reflexivity|]. intros ->. exact (Hnm Ea).
Qed.

Lemma endz_cons_In x l : In (endz (x :: l)) (x :: l).
Proof.
  destruct l as [|y l _] using rev_ind; [left; reflexivity|]. rewrite app_comm_cons, endz_snoc. apply in_app_iff. right; left; reflexivity.
Qed.

Lemma removelast_In {A} (x : A) l : In x (removelast l) -> In x l.
Proof.
  destruct l as [|y l _] using rev_ind; [auto|]. rewrite removelast_last, in_app_iff. auto.
Qed.

Lemma end_not_before l : List.NoDup (0 :: l) -> endz l ∉ removelast (0 :: l).
Proof.
  intros Hn. destruct l as [|e l _] using rev_ind; [apply not_elem_of_nil|].
  rewrite endz_snoc. rewrite app_comm_cons in Hn |- *. rewrite removelast_last, list_elem_of_In.
  apply NoDup_remove_2 in Hn. rewrite app_nil_r in Hn. exact Hn.
Qed.

Section Nodes.
Context `{HCmp : Comparer}.
Implicit Types (nd : list Z) (kv : list byte) (ns A B C : list Z) (k : list byte).

(** ** Nodes *)

Definition NO nd x : Z := at_ nd x.
Definition NKl nd x : Z := at_ nd (x + nKey).
Definition NVl nd x : Z := at_ nd (x + nVal).
Definition NH nd x : Z := at_ nd (x + nHeight).
Definition NN nd x i : Z := at_ nd (x + nNext + i).
Definition NK nd kv x : list byte := take (Z.to_nat (NKl nd x)) (drop (Z.to_nat (NO nd x)) kv).
Definition NV nd kv x : list byte := take (Z.to_nat (NVl nd x)) (drop (Z.to_nat (NO nd x + NKl nd x)) kv).
Definition entry nd kv x : list byte * list byte := (NK nd kv x, NV nd kv x).

Definition lt_key k1 k2 : Prop := Compare k1 k2 < 0.

(** The nodes of level [i]. *)
Definition level nd i ns : list Z := List.filter (fun x => i <? NH nd x) ns.

(** Links of level [i] from [p] through the nodes of [l]. *)
Fixpoint seg nd (i p : Z) (l : list Z) : Prop :=
  match l with [] => True | x :: l => NN nd p i = x /\ seg nd i x l end.
Definition chain nd i l : Prop := seg nd i 0 l /\ NN nd (endz l) i = 0.

Definition apart nd (x y : Z) : Prop := x + nNext + NH nd x <= y \/ y + nNext + NH nd y <= x.

Definition node_ok nd kv (mh : Z) (x : Z) : Prop :=
  16 <= x /\ 1 <= NH nd x <= mh /\ x + nNext + NH nd x <= zlen nd /\
  0 <= NO nd x /\ 0 <= NKl nd x /\ 0 <= NVl nd x /\ NO nd x + NKl nd x + NVl nd x <= zlen kv.

Record db_inv nd kv (mh : Z) ns : Prop := {
  inv_len : 16 <= zlen nd;
  inv_head : NH nd 0 = tMaxHeight;
  inv_mh : 1 <= mh <= tMaxHeight;
  inv_nodes : Forall (node_ok nd kv mh) ns;
  inv_apart : forall x y, In x ns -> In y ns -> x <> y -> apart nd x y;
  inv_sorted : StronglySorted (fun x y => lt_key (NK nd kv x) (NK nd kv y)) ns;
  inv_chains : forall i, 0 <= i < tMaxHeight -> chain nd i (level nd i ns)
}.

(** ** Lists of nodes *)

Lemma level_app nd i A B : level nd i (A ++ B) = level nd i A ++ level nd i B.
Proof. apply List.filter_app. Qed.

Lemma level_In nd i A x : In x (level nd i A) <-> In x A /\ i < NH nd x.
Proof. unfold level. rewrite filter_In, Z.ltb_lt. reflexivity. Qed.

Lemma level_0 nd kv mh A : Forall (node_ok nd kv mh) A -> level nd 0 A = A.
Proof.
  induction 1 as [|x A (_ & Hh & _) _ IH]; [reflexivity|]. cbn [level List.filter].
  rewrite (proj2 (Z.ltb_lt _ _)) by lia. f_equal. exact IH.
Qed.

(** A node that reaches level [i] stays the last one there. *)
Lemma endz_level nd i A : 0 <= i -> (A = [] \/ i < NH nd (endz A)) -> endz (level nd i A) = endz A.
Proof.
  intros Hi HA. destruct A as [|x A _] using rev_ind; [reflexivity|].
  destruct HA as [HA|HA]; [destruct A; discriminate|]. rewrite endz_snoc in *. rewrite level_app. cbn [level List.filter].
  rewrite (proj2 (Z.ltb_lt _ _)) by exact HA. apply endz_snoc.
Qed.

(** The first node of a level in a list, with those it jumps over. *)
Lemma level_first nd i C x l : level nd i C = x :: l ->
  exists C1 C2, C = C1 ++ x :: C2 /\ level nd i C1 = [] /\ i < NH nd x.
Proof.
  revert x l. induction C as [|c C IH]; intros x l E; [discriminate|]. cbn [level List.filter] in E.
  destruct (Z.ltb_spec i (NH nd c)) as [Hc|Hc].
  - injection E as -> _. exists [], C. auto.
  - destruct (IH _ _ E) as (C1 & C2 & -> & E1 & Hx). exists (c :: C1), C2. split; [reflexivity|]. split; [|exact Hx].
    cbn [level List.filter]. rewrite (proj2 (Z.ltb_ge _ _)) by exact Hc. exact E1.
Qed.

Lemma seg_app nd i p A B : seg nd i p (A ++ B) <-> seg nd i p A /\ seg nd i (List.last A p) B.
Proof.
  revert p. induction A as [|x A IH]; intros p; cbn [app seg]; [tauto|].
  rewrite IH. assert (E : List.last (x :: A) p = List.last A x).
  { destruct A as [|y A]; [reflexivity|]. clear IH. revert y. induction A as [|z A IH]; intros y; [reflexivity | apply (IH z)]. }
  rewrite E. tauto.
Qed.

(** The link behind a prefix of a level leads to the first node after it. *)
Lemma chain_next nd i A B : chain nd i (A ++ B) -> NN nd (endz A) i = hdz B.
Proof.
  intros [Hs He]. apply seg_app in Hs as [_ Hs]. destruct B as [|b B]; [rewrite app_nil_r in He; exact He | exact (proj1 Hs)].
Qed.

Lemma compare_neq0 k1 k2 : ~ lt_key k1 k2 -> Compare k1 k2 <> 0 -> lt_key k2 k1.
Proof. unfold lt_key. intros H1 H2. pose proof (Compare_flip k1 k2). lia. Qed.

Lemma lt_key_irrefl k : ~ lt_key k k.
Proof. unfold lt_key. rewrite (proj2 (Compare_eq k k) eq_refl). lia. Qed.

(** ** Searching *)

Section Search.
Context {nd : list Z} {kv : list byte} {mh : Z} {ns : list Z} (Hinv : db_inv nd kv mh ns).

Lemma node_In x : In x ns -> node_ok nd kv mh x.
Proof. intros Hx. eapply List.Forall_forall; [apply Hinv | exact Hx]. Qed.

Lemma NoDup_nodes : List.NoDup ns.
Proof.
  pose proof (inv_sorted _ _ _ _ Hinv) as Hs. clear Hinv. induction Hs as [|x l _ IH Hx]; [constructor|]. constructor; [|exact IH].
  intros Hin. rewrite List.Forall_forall in Hx. exact (lt_key_irrefl _ (Hx x Hin)).
Qed.

Lemma split_key k : exists A B, ns = A ++ B /\
  Forall (fun x => lt_key (NK nd kv x) k) A /\ Forall (fun x => ~ lt_key (NK nd kv x) k) B.
Proof.
  pose proof (inv_sorted _ _ _ _ Hinv) as Hs. clear Hinv. induction Hs as [|x l _ IH Hx]; [exists [], []; auto|].
  destruct (Z_lt_dec (Compare (NK nd kv x) k) 0) as [Hk|Hk].
  - destruct IH as (A & B & -> & HA & HB). exists (x :: A), B. auto.
  - exists [], (x :: l). split; [reflexivity|]. split; [constructor|]. constructor; [exact Hk|].
    eapply Forall_impl; [exact Hx|]. intros y Hxy Hyk. apply Hk. exact (Compare_trans _ _ _ Hxy Hyk).
Qed.

(** In a list of keys not below [k], only the first can be [k]. *)
Lemma first_exact k A b B x : ns = A ++ b :: B -> Forall (fun x => ~ lt_key (NK nd kv x) k) (b :: B) ->
  In x (b :: B) -> Compare (NK nd kv x) k = 0 -> x = b.
Proof.
  intros Hns HB [->|Hx] Hk; [reflexivity|]. exfalso. apply Compare_eq in Hk.
  pose proof (inv_sorted _ _ _ _ Hinv) as Hs. rewrite Hns in Hs. apply StronglySorted_app in Hs as (_ & _ & Hs).
  apply StronglySorted_inv in Hs as [_ Hb]. rewrite List.Forall_forall in Hb.
  specialize (Hb x Hx). rewrite Hk in Hb. exact (Forall_inv HB Hb).
Qed.

Lemma end_addr A B h : ns = A ++ B -> 0 <= h < tMaxHeight -> (A = [] \/ h < NH nd (endz A)) ->
  0 <= endz A + nNext + h < zlen nd.
Proof.
  intros Hns Hh HA. pose proof (inv_len _ _ _ _ Hinv). unfold nNext, tMaxHeight in *.
  destruct HA as [->|HA]; [change (endz []) with 0; lia|]. destruct (endz_In A) as [E|Hin]; [rewrite E in *; lia|].
  destruct (node_In (endz A)) as (? & ? & ? & _); [rewrite Hns; apply in_app_iff; auto|]. unfold nNext in *. lia.
Qed.

End Search.

(** ** Changing the arrays *)

Section Frame.
Context {nd : list Z} {kv : list byte} {mh : Z} {ns : list Z} (Hinv : db_inv nd kv mh ns).

Lemma chain_ext nd' i l : (forall y, y = 0 \/ In y l -> NN nd' y i = NN nd y i) -> chain nd i l -> chain nd' i l.
Proof.
  intros Hy [Hs He]. split; [|rewrite Hy; [exact He | destruct (endz_In l); auto]]. clear He.
  cut (forall q, (q = 0 \/ In q l) -> seg nd i q l -> seg nd' i q l); [intros Hq; apply Hq; auto|]. clear Hs.
  assert (Hl : forall l' q, (forall y, In y l' -> In y l) -> (q = 0 \/ In q l) -> seg nd i q l' -> seg nd' i q l').
  { induction l' as [|x l' IH]; intros q Hin Hq; [auto|]. intros [E Hs]. split; [rewrite Hy; auto|].
    apply IH; [intros; apply Hin; right; auto | right; apply Hin; left; reflexivity | exact Hs]. }
  intros q. apply Hl. auto.
Qed.

Lemma level_ext nd' i l : (forall y, In y l -> NH nd' y = NH nd y) -> level nd' i l = level nd i l.
Proof. intros Hy. apply List.filter_ext_in. intros y H. rewrite Hy by exact H. reflexivity. Qed.

(** New offsets and lengths for the same nodes, keys and links. *)
Lemma inv_relocate nd' kv' : zlen nd' = zlen nd ->
  (forall y, y = 0 \/ In y ns -> NH nd' y = NH nd y /\ forall i, 0 <= i < NH nd y -> NN nd' y i = NN nd y i) ->
  (forall y, In y ns -> NK nd' kv' y = NK nd kv y /\ 0 <= NO nd' y /\ 0 <= NKl nd' y /\ 0 <= NVl nd' y /\
     NO nd' y + NKl nd' y + NVl nd' y <= zlen kv') ->
  db_inv nd' kv' mh ns.
Proof.
  intros Hlen Hh Hk. destruct Hinv as [H1 H2 H3 H4 H5 H6 H7]. split.
  - lia.
  - rewrite (proj1 (Hh 0 (or_introl eq_refl))). exact H2.
  - exact H3.
  - apply List.Forall_forall. intros y Hy. rewrite List.Forall_forall in H4. destruct (H4 y Hy) as (? & ? & ? & _).
    destruct (Hk y Hy) as (_ & ? & ? & ? & ?). destruct (Hh y (or_intror Hy)) as [E _]. unfold node_ok. rewrite E. lia.
  - intros x y Hx Hy Hne. unfold apart. rewrite !(fun z Hz => proj1 (Hh z (or_intror Hz))) by assumption. apply H5; auto.
  - clear -H6 Hk. induction H6 as [|x l _ IH Hx]; constructor; [apply IH; intros; apply Hk; right; auto|].
    rewrite List.Forall_forall in *. intros y Hy. rewrite !(fun z Hz => proj1 (Hk z Hz)) by (cbn; auto). apply Hx, Hy.
  - intros i Hi. rewrite (level_ext nd') by (intros; apply Hh; auto). apply (chain_ext nd'); [|apply H7, Hi].
    intros y [->|Hy].
    + apply Hh; [auto | rewrite H2; exact Hi].
    + apply level_In in Hy as [Hy Hyi]. apply Hh; [auto | lia].
Qed.

(** Words of different nodes are different. *)
Lemma addr_apart x y a b : (x = 0 \/ In x ns) -> (y = 0 \/ In y ns) -> x <> y ->
  0 <= a < nNext + NH nd x -> 0 <= b < nNext + NH nd y -> x + a <> y + b.
Proof.
  intros Hx Hy Hne Ha Hb. pose proof (inv_head _ _ _ _ Hinv) as H0. unfold nNext, tMaxHeight in *.
  destruct Hx as [->|Hx], Hy as [->|Hy]; [congruence| | |].
  - rewrite H0 in Ha. destruct (node_In Hinv y Hy) as (? & _). lia.
  - rewrite H0 in Hb. destruct (node_In Hinv x Hx) as (? & _). lia.
  - destruct (inv_apart _ _ _ _ Hinv x y Hx Hy Hne); unfold nNext in *; lia.
Qed.

End Frame.

(** ** A new node *)

Section Insert.
Context {nd : list Z} {kv : list byte} {mh : Z} {A B : list Z} (Hinv : db_inv nd kv mh (A ++ B)).
Context (nd' : list Z) (h : Z) (k v : list byte).
Let L := zlen nd.
Let kv' := kv ++ k ++ v.

(** What [link_levels] leaves behind for a node of height [h] between [A] and [B]. *)
Context (Hh : 1 <= h <= tMaxHeight)
  (Hlen : zlen nd' = L + nNext + h)
  (Hdata : forall y a, y = 0 \/ In y (A ++ B) -> 0 <= a < nNext -> at_ nd' (y + a) = at_ nd (y + a))
  (Hlinks : forall y i, y = 0 \/ In y (A ++ B) -> 0 <= i < NH nd y ->
     NN nd' y i = if (i <? h) && (y =? endz (level nd i A)) then L else NN nd y i)
  (Hnew : NO nd' L = zlen kv /\ NKl nd' L = zlen k /\ NVl nd' L = zlen v /\ NH nd' L = h)
  (Hnext : forall i, 0 <= i < h -> NN nd' L i = NN nd (endz (level nd i A)) i)
  (HA : Forall (fun x => lt_key (NK nd kv x) k) A) (HB : Forall (fun x => lt_key k (NK nd kv x)) B).

Lemma old_data y : In y (A ++ B) ->
  NO nd' y = NO nd y /\ NKl nd' y = NKl nd y /\ NVl nd' y = NVl nd y /\ NH nd' y = NH nd y.
Proof.
  intros Hy. unfold NO, NKl, NVl, NH. replace y with (y + 0) at 1 2 by lia.
  split; [|repeat split]; apply Hdata; auto; unfold nNext, nKey, nVal, nHeight; lia.
Qed.

Lemma old_entry y : In y (A ++ B) -> entry nd' kv' y = entry nd kv y.
Proof.
  intros Hy. destruct (old_data y Hy) as (E1 & E2 & E3 & _). destruct (node_In Hinv y Hy) as (? & ? & ? & ? & ? & ? & ?).
  unfold entry, NK, NV. rewrite E1, E2, E3. unfold kv', zlen in *. f_equal.
  - rewrite drop_app_le, take_app_le by (rewrite ?length_drop; lia). reflexivity.
  - rewrite drop_app_le, take_app_le by (rewrite ?length_drop; lia). reflexivity.
Qed.

Lemma new_entry : entry nd' kv' L = (k, v).
Proof.
  destruct Hnew as (E1 & E2 & E3 & _). unfold entry, NK, NV. rewrite E1, E2, E3.
  destruct (cut_appended kv k v) as [Ek Ev]. unfold kv'. rewrite Ek, Ev. reflexivity.
Qed.

Lemma L_fresh y : y = 0 \/ In y (A ++ B) -> y <> L.
Proof.
  pose proof (inv_len _ _ _ _ Hinv). intros [->|Hy]; unfold L; [lia|].
  destruct (node_In Hinv y Hy) as (? & ? & ? & _). unfold nNext in *. lia.
Qed.

Lemma level_new i : 0 <= i -> level nd' i (A ++ L :: B) = level nd i A ++ (if i <? h then [L] else []) ++ level nd i B.
Proof.
  intros Hi. destruct Hnew as (_ & _ & _ & EH). rewrite level_app. f_equal.
  - apply level_ext. intros y Hy. apply old_data, in_app_iff. auto.
  - cbn [level List.filter]. rewrite EH. fold (level nd' i B).
    rewrite (level_ext (nd := nd) nd' i B) by (intros y Hy; apply old_data, in_app_iff; auto). destruct (i <? h); reflexivity.
Qed.

(** Links inside a part of a level that is not the end of [A] are untouched. *)
Lemma seg_keep i l : forall q, 0 <= i < tMaxHeight -> (q = 0 \/ In q (A ++ B)) -> i < NH nd q ->
  (forall y, In y l -> In y (A ++ B) /\ i < NH nd y) ->
  (i < h -> endz (level nd i A) ∉ removelast (q :: l)) ->
  seg nd i q l -> seg nd' i q l.
Proof.
  induction l as [|x l IH]; intros q Hi Hq Hqi Hl Hne; [auto|]. intros [E Hs]. destruct (Hl x (or_introl eq_refl)) as [Hx Hxi].
  change (removelast (q :: x :: l)) with (q :: removelast (x :: l)) in Hne. split.
  - rewrite Hlinks by (auto; lia). destruct (Z.ltb_spec i h) as [Hlt|]; [|exact E]. specialize (Hne Hlt).
    apply not_elem_of_cons in Hne as [Hne _]. rewrite (proj2 (Z.eqb_neq q _)) by auto. exact E.
  - apply IH; auto; [intros; apply Hl; right; auto|]. intros Hlt. apply Hne in Hlt. apply not_elem_of_cons in Hlt. tauto.
Qed.

Lemma end_level i : 0 <= i < tMaxHeight ->
  (endz (level nd i A) = 0 \/ In (endz (level nd i A)) A) /\ i < NH nd (endz (level nd i A)).
Proof.
  intros Hi. destruct (endz_In (level nd i A)) as [E|Hin].
  - rewrite E, (inv_head _ _ _ _ Hinv). auto with lia.
  - apply level_In in Hin as [H1 H2]. auto.
Qed.

Lemma nodes_disjoint x : In x A -> In x B -> False.
Proof.
  intros HxA HxB. pose proof (NoDup_nodes Hinv) as Hn. clear -HxA HxB Hn. induction A as [|a l IH]; [destruct HxA|].
  inversion Hn as [|? ? Ha Hl]; subst. destruct HxA as [->|HxA]; [apply Ha, in_app_iff; auto | exact (IH HxA Hl)].
Qed.

Lemma NoDup_level i : List.NoDup (level nd i A).
Proof. apply List.NoDup_filter. pose proof (NoDup_nodes Hinv) as Hn. apply NoDup_app_remove_r in Hn. exact Hn. Qed.

Lemma chain_high i : h <= i < tMaxHeight -> chain nd' i (level nd' i (A ++ L :: B)).
Proof.
  intros Hi. rewrite level_new, (proj2 (Z.ltb_ge i h)) by lia. cbn [app]. rewrite <- level_app.
  apply (chain_ext (nd := nd)); [|apply Hinv; lia]. intros y Hy. rewrite Hlinks.
  - rewrite (proj2 (Z.ltb_ge i h)) by lia. reflexivity.
  - destruct Hy as [->|Hy]; [auto | apply level_In in Hy; tauto].
  - destruct Hy as [->|Hy]; [rewrite (inv_head _ _ _ _ Hinv); lia | apply level_In in Hy; lia].
Qed.

Lemma chain_low i : 0 <= i < h -> chain nd' i (level nd' i (A ++ L :: B)).
Proof.
  intros Hi. assert (Hi12 : 0 <= i < tMaxHeight) by lia. rewrite level_new, (proj2 (Z.ltb_lt i h)) by lia.
  pose proof (inv_chains _ _ _ _ Hinv i Hi12) as Hc. rewrite level_app in Hc. destruct (end_level i Hi12) as [HeA Hei].
  assert (HeAB : endz (level nd i A) = 0 \/ In (endz (level nd i A)) (A ++ B)) by (rewrite in_app_iff; tauto).
  pose proof (chain_next _ _ _ _ Hc) as Hnx. destruct Hc as [Hs He]. apply seg_app in Hs as [HsA HsB].
  assert (HlB : forall y, In y (level nd i B) -> In y (A ++ B) /\ i < NH nd y /\ y <> endz (level nd i A) /\ y <> 0).
  { intros y Hy. apply level_In in Hy as [Hy Hyi]. assert (HyAB : In y (A ++ B)) by (apply in_app_iff; auto).
    destruct (node_In Hinv y HyAB) as (? & _). split; [exact HyAB|]. split; [exact Hyi|]. split; [|lia].
    intros E. destruct HeA as [E0|HeA]; [lia|]. rewrite <- E in HeA. exact (nodes_disjoint y HeA Hy). }
  assert (HL : NN nd' (endz (level nd i A)) i = L).
  { rewrite Hlinks, (proj2 (Z.ltb_lt i h)), Z.eqb_refl by (auto; lia). reflexivity. }
  split.
  - apply seg_app. split.
    + apply seg_keep; auto.
      * rewrite (inv_head _ _ _ _ Hinv). lia.
      * intros y Hy. apply level_In in Hy. rewrite in_app_iff. tauto.
      * intros _. apply end_not_before. constructor; [|apply NoDup_level]. intros H0. apply level_In in H0 as [H0 _].
        destruct (node_In Hinv 0) as (? & _); [apply in_app_iff; auto | lia].
    + fold (endz (level nd i A)). split; [exact HL|]. destruct (level nd i B) as [|b l] eqn:EB; [exact I|].
      split; [rewrite Hnext by lia; exact Hnx|]. destruct HsB as [_ HsB]. apply seg_keep; auto; try lia.
      * right. apply HlB. left; reflexivity.
      * apply HlB. left; reflexivity.
      * intros y Hy. destruct (HlB y (or_intror Hy)) as (? & ? & _). auto.
      * intros _ Hin. apply list_elem_of_In, removelast_In in Hin. destruct (HlB _ Hin) as (_ & _ & Hne & _). congruence.
  - rewrite endz_app. rewrite decide_False by discriminate. destruct (level nd i B) as [|b l] eqn:EB.
    + cbn [app]. change (endz [L]) with L. rewrite Hnext by lia. rewrite Hnx. reflexivity.
    + rewrite endz_app, decide_False by discriminate. rewrite endz_app, decide_False in He by discriminate.
      destruct (HlB _ (endz_cons_In b l)) as (H1 & H2 & H3 & _). rewrite Hlinks by (auto; lia). rewrite (proj2 (Z.eqb_neq _ _)) by exact H3.
      rewrite andb_false_r. exact He.
Qed.

Lemma new_key y : In y (A ++ B) -> NK nd' kv' y = NK nd kv y.
Proof. intros Hy. exact (f_equal fst (old_entry y Hy)). Qed.

Lemma sorted_sub l : (forall y, In y l -> In y (A ++ B)) ->
  StronglySorted (fun x y => lt_key (NK nd kv x) (NK nd kv y)) l ->
  StronglySorted (fun x y => lt_key (NK nd' kv' x) (NK nd' kv' y)) l.
Proof.
  intros Hl Hs. induction Hs as [|x l _ IH Hx]; constructor; [apply IH; intros; apply Hl; right; assumption|].
  rewrite List.Forall_forall in *. intros y Hy. rewrite !new_key by (apply Hl; cbn; auto). apply Hx, Hy.
Qed.

Lemma insert_sorted : StronglySorted (fun x y => lt_key (NK nd' kv' x) (NK nd' kv' y)) (A ++ L :: B).
Proof.
  assert (EL : NK nd' kv' L = k) by exact (f_equal fst new_entry).
  destruct (proj1 (StronglySorted_app _ _ _) (inv_sorted _ _ _ _ Hinv)) as (HAB & HsA & HsB).
  apply StronglySorted_app. pose proof (proj1 (List.Forall_forall _ _) HA) as HA'. pose proof (proj1 (List.Forall_forall _ _) HB) as HB'. split; [|split].
  - intros x y Hx Hy. apply list_elem_of_In in Hx. apply elem_of_cons in Hy as [->|Hy].
    + rewrite EL, new_key by (apply in_app_iff; auto). apply HA', Hx.
    + apply list_elem_of_In in Hy. rewrite !new_key by (apply in_app_iff; auto).
      apply HAB; apply list_elem_of_In; assumption.
  - apply sorted_sub; [intros; apply in_app_iff; auto | exact HsA].
  - constructor; [apply sorted_sub; [intros; apply in_app_iff; auto | exact HsB]|].
    apply List.Forall_forall. intros y Hy. rewrite EL, new_key by (apply in_app_iff; auto). apply HB', Hy.
Qed.

Lemma insert_In y : In y (A ++ L :: B) <-> y = L \/ In y (A ++ B).
Proof. rewrite !in_app_iff. cbn [In]. split; intuition congruence. Qed.

Lemma insert_inv : db_inv nd' kv' (Z.max mh h) (A ++ L :: B).
Proof.
  pose proof (inv_len _ _ _ _ Hinv) as H16. pose proof (inv_mh _ _ _ _ Hinv) as Hmh.
  destruct Hnew as (E1 & E2 & E3 & E4). change nNext with 4 in Hlen. split.
  - rewrite Hlen. unfold L. lia.
  - rewrite <- (inv_head _ _ _ _ Hinv). apply (Hdata 0); unfold nHeight, nNext; auto with lia.
  - lia.
  - apply List.Forall_forall. intros y Hy. apply insert_In in Hy as [->|Hy].
    + unfold node_ok. rewrite E1, E2, E3, E4. change nNext with 4. unfold kv'. rewrite !zlen_app, Hlen. repeat split; auto with go; unfold L; lia.
    + destruct (node_In Hinv y Hy) as (? & ? & ? & ? & ? & ? & ?).
      unfold node_ok, kv'. destruct (old_data y Hy) as (-> & -> & -> & ->). rewrite !zlen_app, Hlen. unfold L.
      pose proof (zlen_nonneg k). pose proof (zlen_nonneg v). lia.
  - assert (HL : forall y, In y (A ++ B) -> y + nNext + NH nd y <= L).
    { intros y Hy. destruct (node_In Hinv y Hy) as (? & ? & ? & _). assumption. }
    intros x y Hx Hy Hne. apply insert_In in Hx, Hy. unfold apart.
    destruct Hx as [->|Hx], Hy as [->|Hy]; [congruence| | |].
    + destruct (old_data y Hy) as (_ & _ & _ & ->). right. apply HL, Hy.
    + destruct (old_data x Hx) as (_ & _ & _ & ->). left. apply HL, Hx.
    + destruct (old_data x Hx) as (_ & _ & _ & ->). destruct (old_data y Hy) as (_ & _ & _ & ->).
      apply (inv_apart _ _ _ _ Hinv); assumption.
  - exact insert_sorted.
  - intros i Hi. destruct (Z_lt_le_dec i h); [apply chain_low | apply chain_high]; lia.
Qed.

End Insert.

(** ** Overwriting a value *)

Lemma take_drop_grow (kv x : list byte) o n : 0 <= o -> 0 <= n -> o + n <= zlen kv ->
  take (Z.to_nat n) (drop (Z.to_nat o) (kv ++ x)) = take (Z.to_nat n) (drop (Z.to_nat o) kv).
Proof.
  intros. unfold zlen in *. rewrite drop_app_le, take_app_le by (rewrite ?length_drop; lia). reflexivity.
Qed.

Section Update.
Context {nd : list Z} {kv : list byte} {mh : Z} {A B : list Z} {b : Z} (Hinv : db_inv nd kv mh (A ++ b :: B)).
Context (nd' : list Z) (x : list byte) (o : Z) (k v : list byte).

(** Node [b] gets offset [o] and the length of [v]; nothing else changes. *)
Context (Hlen : zlen nd' = zlen nd)
  (Hwords : forall y a, y = 0 \/ In y (A ++ b :: B) -> 0 <= a < nNext + NH nd y ->
     at_ nd' (y + a) = if (y =? b) && (a =? 0) then o else if (y =? b) && (a =? 2) then zlen v else at_ nd (y + a))
  (Hkey : NK nd kv b = k) (Hent : entry nd' (kv ++ x) b = (k, v))
  (Ho : 0 <= o) (Hov : o + NKl nd b + zlen v <= zlen (kv ++ x)).

Lemma upd_fields y : In y (A ++ b :: B) ->
  NO nd' y = (if y =? b then o else NO nd y) /\ NKl nd' y = NKl nd y /\
  NVl nd' y = (if y =? b then zlen v else NVl nd y) /\ NH nd' y = NH nd y.
Proof.
  intros Hy. destruct (node_In Hinv y Hy) as (_ & ? & _). unfold NO, NKl, NVl, nKey, nVal.
  assert (EH : NH nd' y = NH nd y).
  { unfold NH, nHeight. rewrite Hwords by (unfold nNext; auto with lia). rewrite andb_false_r, andb_false_r. reflexivity. }
  rewrite EH. replace (at_ nd' y) with (at_ nd' (y + 0)) by (f_equal; lia). rewrite !Hwords by (unfold nNext; auto with lia).
  rewrite Z.add_0_r. destruct (y =? b); auto.
Qed.

Lemma upd_entry y : In y (A ++ b :: B) -> y <> b -> entry nd' (kv ++ x) y = entry nd kv y.
Proof.
  intros Hy Hne. destruct (upd_fields y Hy) as (E1 & E2 & E3 & _). rewrite (proj2 (Z.eqb_neq y b) Hne) in *.
  destruct (node_In Hinv y Hy) as (_ & _ & _ & ? & ? & ? & ?). unfold entry, NK, NV. rewrite E1, E2, E3.
  rewrite !take_drop_grow by lia. reflexivity.
Qed.

Lemma update_inv : db_inv nd' (kv ++ x) mh (A ++ b :: B).
Proof.
  apply (inv_relocate Hinv); [exact Hlen| |].
  - intros y Hy. assert (EH : 1 <= NH nd y).
    { destruct Hy as [->|Hy]; [rewrite (inv_head _ _ _ _ Hinv); unfold tMaxHeight; lia | apply (node_In Hinv y Hy)]. }
    assert (Hw : forall a, 3 <= a < nNext + NH nd y -> at_ nd' (y + a) = at_ nd (y + a)).
    { intros a Ha. rewrite Hwords by (auto; unfold nNext in *; lia).
      rewrite (proj2 (Z.eqb_neq a 0)), (proj2 (Z.eqb_neq a 2)), !andb_false_r by lia. reflexivity. }
    split; [apply Hw; unfold nHeight, nNext; lia|]. intros i Hi. unfold NN. rewrite <- !Z.add_assoc. apply Hw. unfold nNext; lia.
  - intros y Hy. destruct (upd_fields y Hy) as (E1 & E2 & E3 & _). destruct (node_In Hinv y Hy) as (_ & _ & _ & ? & ? & ? & ?).
    rewrite E1, E2, E3. destruct (Z.eqb_spec y b) as [->|Hne].
    + split; [rewrite Hkey; exact (f_equal fst Hent)|]. pose proof (zlen_nonneg v). lia.
    + split; [exact (f_equal fst (upd_entry y Hy Hne))|]. rewrite zlen_app. pose proof (zlen_nonneg x). lia.
Qed.

Lemma update_entries : map (entry nd' (kv ++ x)) (A ++ b :: B) = map (entry nd kv) A ++ (k, v) :: map (entry nd kv) B.
Proof.
  pose proof (NoDup_nodes Hinv) as Hn. apply NoDup_remove_2 in Hn. rewrite map_app. cbn [map]. rewrite Hent. f_equal; [|f_equal].
  - apply map_ext_in. intros y Hy. apply upd_entry; [apply in_app_iff; auto|]. intros ->. apply Hn, in_app_iff. auto.
  - apply map_ext_in. intros y Hy. apply upd_entry; [apply in_app_iff; right; right; exact Hy|]. intros ->. apply Hn, in_app_iff. auto.
Qed.

End Update.

End Nodes.

Section Db.
Context `{HCmp : Comparer} `{HRand : Rand}.
Implicit Types (p : MemDB) (k v : list byte).

Section Find.
Context {p : MemDB} {ns : list Z} (Hinv : db_inv (nodeData p) (kvData p) (maxHeight p) ns).
Local Notation nd := (nodeData p).
Local Notation kv := (kvData p).

Lemma key_at_ok x : In x ns -> key_at p x = Ok (NK nd kv x).
Proof.
  intros Hx. destruct (node_In Hinv x Hx) as (? & ? & ? & ? & ? & ? & ?). unfold key_at, nNext, nKey in *.
  rewrite !ix_at by lia. cbn [res_bind]. fold (NO nd x). change (at_ (nodeData p) (x + 1)) with (NKl nd x).
  rewrite sub_slice_ok by lia. unfold NK. do 2 f_equal. lia.
Qed.

Lemma compare_node_ok x k : In x ns -> compare_node p x k = Ok (Compare (NK nd kv x) k).
Proof.
  intros Hx. unfold compare_node. rewrite key_at_ok by exact Hx. destruct (node_In Hinv x Hx) as (? & _).
  rewrite (proj2 (Z.eqb_neq x 0)) by lia. reflexivity.
Qed.

(** Whether the first of the nodes [B], none of which has a key below [k], has
    the key [k]. *)
Definition exact_of (B : list Z) k : bool :=
  match B with [] => false | b :: _ => Compare (NK nd kv b) k =? 0 end.

Lemma level0_suffix A B : ns = A ++ B -> level nd 0 B = B.
Proof.
  intros Hns. eapply level_0. apply List.Forall_forall. intros y Hy. apply (node_In Hinv). rewrite Hns, in_app_iff. auto.
Qed.

(** The comparison at a level without nodes between the current one and [B]. *)
Lemma stop_cmp k A B h : ns = A ++ B -> Forall (fun x => ~ lt_key (NK nd kv x) k) B ->
  exists c, compare_node p (hdz (level nd h B)) k = Ok c /\ 0 <= c /\
    (c = 0 -> hdz (level nd h B) = hdz B /\ exact_of B k = true) /\ (h = 0 -> (c =? 0) = exact_of B k).
Proof.
  intros Hns HB. assert (H0 : h = 0 -> level nd h B = B) by (intros ->; eapply level0_suffix, Hns).
  destruct (level nd h B) as [|b lB] eqn:EB.
  - exists 1. split; [reflexivity|]. split; [lia|]. split; [lia|]. intros E. rewrite <- (H0 E). reflexivity.
  - assert (Hb : In b B) by (apply (level_In nd h); rewrite EB; left; reflexivity).
    assert (HbB : In b ns) by (rewrite Hns, in_app_iff; auto).
    exists (Compare (NK nd kv b) k). split; [apply compare_node_ok, HbB|].
    split; [rewrite List.Forall_forall in HB; specialize (HB b Hb); unfold lt_key in HB; lia|].
    split; [|intros E; rewrite <- (H0 E); reflexivity]. intros E. destruct B as [|b0 B]; [destruct Hb|].
    rewrite (first_exact Hinv k A b0 B b) in * by auto. cbn [hdz List.hd exact_of]. rewrite E. auto.
Qed.

Lemma findGE_loop_spec k prev B fuel : forall A C h pn,
  ns = A ++ C ++ B -> Forall (fun x => lt_key (NK nd kv x) k) C -> Forall (fun x => ~ lt_key (NK nd kv x) k) B ->
  0 <= h < maxHeight p -> (A = [] \/ h < NH nd (endz A)) -> zlen pn = 12 -> (length C + Z.to_nat h < fuel)%nat ->
  exists pn', findGE_loop fuel p k prev (endz A) h pn = Ok (hdz B, exact_of B k, pn') /\ zlen pn' = 12 /\
    (prev = true -> forall j, 0 <= j -> at_ pn' j = if j <=? h then endz (level nd j (A ++ C)) else at_ pn j).
Proof.
  induction fuel as [|f IH]; intros A C h pn Hns HC HB Hh HA Hpn Hf; [lia|].
  pose proof (inv_mh _ _ _ _ Hinv) as Hmh. cbn [findGE_loop].
  rewrite ix_at by (eapply (end_addr Hinv); eauto; lia). cbn [res_bind].
  change (at_ (nodeData p) (endz A + nNext + h)) with (NN nd (endz A) h).
  assert (Hchain : chain nd h (level nd h A ++ level nd h (C ++ B))).
  { rewrite <- level_app, <- Hns. apply Hinv. lia. }
  apply chain_next in Hchain. rewrite (endz_level nd h A) in Hchain by (auto; lia). rewrite Hchain, level_app. clear Hchain.
  destruct (level nd h C) as [|x l] eqn:EC.
  - (* no node of this level before [k] *)
    cbn [app]. assert (Hend : endz (level nd h (A ++ C)) = endz A).
    { rewrite level_app, EC, app_nil_r. apply endz_level; auto. lia. }
    destruct (stop_cmp k (A ++ C) B h) as (c & -> & Hc0 & Hceq & Hc); [rewrite <- app_assoc; exact Hns | exact HB|]. cbn [res_bind]. rewrite (proj2 (Z.ltb_ge c 0)) by lia.
    destruct prev; cbn [negb andb].
    + rewrite upd_ok by (unfold tMaxHeight in *; lia). cbn [res_bind].
      destruct (Z.eqb_spec h 0) as [E|E].
      * subst h. exists (<[Z.to_nat 0 := endz A]> pn). rewrite Hc by reflexivity.
        rewrite (level0_suffix (A ++ C) B) by (rewrite <- app_assoc; exact Hns). split; [reflexivity|]. split; [rewrite zlen_insert; exact Hpn|]. intros _ j Hj.
        rewrite at_insert by lia. destruct (Z.eqb_spec j 0) as [->|]; [rewrite Hend; reflexivity|].
        rewrite (proj2 (Z.leb_gt j 0)) by lia. reflexivity.
      * destruct (IH A C (h - 1) (<[Z.to_nat h := endz A]> pn)) as (pn' & -> & Hl & Hj); auto; try lia.
        { destruct HA; [auto | right; lia]. } { rewrite zlen_insert; exact Hpn. }
        exists pn'. split; [reflexivity|]. split; [exact Hl|]. intros _ j Hj0. rewrite Hj by auto.
        destruct (Z.leb_spec j (h - 1)), (Z.leb_spec j h); try lia.
        -- replace j with h by lia. rewrite at_insert by (unfold tMaxHeight in *; lia). rewrite Z.eqb_refl. congruence.
        -- rewrite at_insert by (unfold tMaxHeight in *; lia). rewrite (proj2 (Z.eqb_neq j h)) by lia. reflexivity.
    + destruct (Z.eqb_spec c 0) as [Ec|Ec].
      * destruct (Hceq Ec) as [-> ->]. exists pn. split; [reflexivity|]. split; [exact Hpn | discriminate].
      * cbn [res_bind]. destruct (Z.eqb_spec h 0) as [E|E].
        -- subst h. rewrite <- Hc by reflexivity.
           rewrite (level0_suffix (A ++ C) B) by (rewrite <- app_assoc; exact Hns). exists pn.
           split; [reflexivity|]. split; [exact Hpn | discriminate].
        -- destruct (IH A C (h - 1) pn) as (pn' & -> & Hl & _); auto; try lia. { destruct HA; [auto | right; lia]. }
           exists pn'. split; [reflexivity|]. split; [exact Hl | discriminate].
  - (* go on to the node [x] *)
    cbn [app hdz List.hd]. destruct (level_first nd h C x l EC) as (C1 & C2 & -> & E1 & Hx).
    rewrite compare_node_ok by (rewrite Hns, !in_app_iff; right; left; right; left; reflexivity). cbn [res_bind].
    apply Forall_app in HC as [_ HC]. inversion HC as [|? ? Hxk HC2]; subst x0 l0. unfold lt_key in Hxk.
    rewrite (proj2 (Z.ltb_lt _ _)) by exact Hxk.
    destruct (IH (A ++ C1 ++ [x]) C2 h pn) as (pn' & E & Hl & Hj); auto.
    { rewrite Hns, <- !app_assoc. reflexivity. } { right. rewrite app_assoc, endz_snoc. exact Hx. }
    { rewrite length_app in Hf. cbn [length] in Hf. lia. }
    rewrite app_assoc, endz_snoc in E. exists pn'. split; [exact E|]. split; [exact Hl|]. intros Hp j Hj0.
    rewrite Hj by auto. rewrite <- !app_assoc. reflexivity.
Qed.

End Find.

End Db.
