(* ===== verification/MemDbSpec.v ===== *)
(** * [MemDB] as a sorted list of entries

    The abstract write set is a list of entries sorted by key, a deleted key
    having an empty value.  Every operation of the skip list computes the
    operation on that list, whatever heights the random source gives. *)

From stdpp Require Import sorting.
From S2P Require Import Prelude MemDb MemDbTheory.

(** ** The abstract write set *)

Section Entries.
Context `{HCmp : Comparer}.

Definition kvs : Type := list (list byte * list byte).

Fixpoint put_kv (k v : list byte) (l : kvs) : kvs :=
  match l with
  | [] => [(k, v)]
  | (k', v') :: r => if Compare k' k <? 0 then (k', v') :: put_kv k v r
                     else if Compare k' k =? 0 then (k, v) :: r else (k, v) :: l
  end.

Fixpoint get_kv (k : list byte) (l : kvs) : option (list byte) :=
  match l with [] => None | (k', v') :: r => if decide (k' = k) then Some v' else get_kv k r end.

Definition kv_bytes (l : kvs) : Z := foldr (fun e s => zlen (fst e) + zlen (snd e) + s) 0 l.

Definition kv_sorted (l : kvs) : Prop := StronglySorted (fun e1 e2 => lt_key (fst e1) (fst e2)) l.

Lemma get_put k v l k' : get_kv k' (put_kv k v l) = if decide (k = k') then Some v else get_kv k' l.
Proof.
  induction l as [|[k0 v0] l IH]; cbn [put_kv get_kv]; [reflexivity|].
  destruct (Z.ltb_spec (Compare k0 k) 0) as [Hlt|Hge].
  - cbn [get_kv]. rewrite IH. repeat case_decide; try reflexivity. subst. rewrite (proj2 (Compare_eq _ _) eq_refl) in Hlt. lia.
  - destruct (Z.eqb_spec (Compare k0 k) 0) as [E|E]; [apply Compare_eq in E; subst; cbn [get_kv]; repeat case_decide; congruence|].
    cbn [get_kv]. repeat case_decide; congruence.
Qed.

Lemma put_kv_app k v l1 l2 : Forall (fun e => lt_key (fst e) k) l1 -> put_kv k v (l1 ++ l2) = l1 ++ put_kv k v l2.
Proof.
  induction 1 as [|[k0 v0] l1 Hk _ IH]; [reflexivity|]. cbn [app put_kv fst] in *. rewrite (proj2 (Z.ltb_lt _ _)) by exact Hk.
  rewrite IH. reflexivity.
Qed.

Lemma put_kv_new k v l : Forall (fun e => lt_key k (fst e)) l -> put_kv k v l = (k, v) :: l.
Proof.
  intros [|[k0 v0] l' Hk _]; [reflexivity|]. cbn [put_kv fst] in *. unfold lt_key in Hk. rewrite Compare_flip in Hk.
  rewrite (proj2 (Z.ltb_ge _ _)), (proj2 (Z.eqb_neq _ _)) by lia. reflexivity.
Qed.

Lemma put_kv_here k v v0 l : put_kv k v ((k, v0) :: l) = (k, v) :: l.
Proof. cbn [put_kv]. rewrite (proj2 (Compare_eq k k) eq_refl). reflexivity. Qed.

End Entries.

Section Spec.
Context `{HCmp : Comparer} `{HRand : Rand}.
Implicit Types (p : MemDB) (k v : list byte) (l : kvs).

(** [p] stores the entries [l] in the nodes [ns]. *)
Record stores p (ns : list Z) l : Prop := {
  st_inv : db_inv (nodeData p) (kvData p) (maxHeight p) ns;
  st_entries : entries p = zlen ns;
  st_prev : zlen (prevNode p) = 12;
  st_list : l = map (entry (nodeData p) (kvData p)) ns;
  st_size : kvSize p = kv_bytes l
}.
Definition repr p l : Prop := exists ns, stores p ns l.

Lemma findGE_spec p ns l k prev : stores p ns l ->
  exists A B pn, ns = A ++ B /\ Forall (fun x => lt_key (NK (nodeData p) (kvData p) x) k) A /\
    Forall (fun x => ~ lt_key (NK (nodeData p) (kvData p) x) k) B /\
    findGE p k prev = Ok (hdz B, exact_of (p := p) B k, pn) /\ zlen pn = 12 /\
    (prev = true -> forall j, 0 <= j < maxHeight p -> at_ pn j = endz (level (nodeData p) j A)).
Proof.
  intros [Hinv He Hp _ _]. pose proof (inv_mh _ _ _ _ Hinv) as Hmh. destruct (split_key Hinv k) as (A & B & Hns & HA & HB).
  destruct (findGE_loop_spec Hinv k prev B (find_fuel p) [] A (maxHeight p - 1) (prevNode p)) as (pn & E & Hl & Hj); auto; try lia.
  { unfold find_fuel, tMaxHeight in *. rewrite He, Hns, zlen_app. unfold zlen. lia. }
  exists A, B, pn. repeat (split; [assumption|]). intros Hp' j Hj'. rewrite Hj by (auto; lia).
  rewrite (proj2 (Z.leb_le _ _)) by lia. reflexivity.
Qed.

(** The node whose key is [k], and that it is the only one. *)
Lemma exact_node p k B : exact_of (p := p) B k = true -> exists b B', B = b :: B' /\ NK (nodeData p) (kvData p) b = k.
Proof. destruct B as [|b B]; [discriminate|]. cbn. intros E. apply Z.eqb_eq, Compare_eq in E. eauto. Qed.

Lemma not_exact_above p ns l A B k : stores p ns l -> ns = A ++ B ->
  Forall (fun x => ~ lt_key (NK (nodeData p) (kvData p) x) k) B -> exact_of (p := p) B k = false ->
  Forall (fun x => lt_key k (NK (nodeData p) (kvData p) x)) B.
Proof.
  intros [Hinv _ _ _ _] Hns HB E. apply List.Forall_forall. intros x Hx. rewrite List.Forall_forall in HB.
  apply compare_neq0; [apply HB, Hx|]. intros Ek. destruct B as [|b B]; [destruct Hx|].
  rewrite (first_exact Hinv k A b B x Hns) in Ek; auto; [|apply List.Forall_forall; assumption]. cbn in E. apply Z.eqb_neq in E. contradiction.
Qed.

(** ** Put *)

Lemma rand_loop_range fuel : forall h r, 1 <= h <= tMaxHeight -> 1 <= fst (rand_loop fuel h r) <= tMaxHeight.
Proof.
  induction fuel as [|f IH]; intros h r Hh; cbn [rand_loop]; [exact Hh|]. destruct (Z.ltb_spec h tMaxHeight); [|exact Hh].
  destruct (rand_Int r) as [i r']. destruct (_ =? 0); [apply IH; lia | exact Hh].
Qed.

Lemma clear_prev_spec fuel : forall i h pn, zlen pn = 12 -> 0 <= i -> h <= 12 -> h - i <= Z.of_nat fuel ->
  exists pn', clear_prev fuel i h pn = Ok pn' /\ zlen pn' = 12 /\
    forall j, 0 <= j -> at_ pn' j = if (i <=? j) && (j <? h) then 0 else at_ pn j.
Proof.
  induction fuel as [|f IH]; intros i h pn Hl Hi Hh Hf; cbn [clear_prev].
  { exists pn. split; [reflexivity|]. split; [exact Hl|]. intros j Hj.
    destruct (Z.leb_spec i j), (Z.ltb_spec j h); try reflexivity; lia. }
  destruct (Z.ltb_spec i h) as [Hlt|Hge].
  - rewrite upd_ok by lia. cbn [res_bind]. destruct (IH (i + 1) h (<[Z.to_nat i := 0]> pn)) as (pn' & E & Hl' & Hj); try lia.
    { rewrite zlen_insert. exact Hl. }
    exists pn'. split; [exact E|]. split; [exact Hl'|]. intros j Hj0. rewrite Hj, at_insert by lia.
    destruct (Z.leb_spec (i + 1) j), (Z.leb_spec i j), (Z.ltb_spec j h), (Z.eqb_spec j i); cbn; try reflexivity; lia.
  - exists pn. split; [reflexivity|]. split; [exact Hl|]. intros j Hj.
    destruct (Z.leb_spec i j), (Z.ltb_spec j h); try reflexivity; lia.
Qed.

Lemma kv_bytes_app l1 l2 : kv_bytes (l1 ++ l2) = kv_bytes l1 + kv_bytes l2.
Proof. unfold kv_bytes. induction l1 as [|e l1 IH]; cbn [app foldr]; [reflexivity|]. rewrite IH. lia. Qed.

Lemma kv_bytes_cons k v l : kv_bytes ((k, v) :: l) = zlen k + zlen v + kv_bytes l.
Proof. reflexivity. Qed.

Lemma zlen_take {A} (l : list A) n : 0 <= n <= zlen l -> zlen (take (Z.to_nat n) l) = n.
Proof. unfold zlen. rewrite length_take. lia. Qed.

Lemma zlen_NV nd kv mh x : node_ok nd kv mh x -> zlen (NV nd kv x) = NVl nd x /\ zlen (NK nd kv x) = NKl nd x.
Proof.
  intros (_ & _ & _ & ? & ? & ? & ?). unfold NV, NK. rewrite !zlen_take; [auto| |]; unfold zlen in *; rewrite length_drop; lia.
Qed.

Lemma Put_exact p A b B l k v pn : stores p (A ++ b :: B) l -> NK (nodeData p) (kvData p) b = k -> zlen pn = 12 ->
  Forall (fun x => lt_key (NK (nodeData p) (kvData p) x) k) A -> findGE p k true = Ok (b, true, pn) ->
  exists p', Put k v p = Ok p' /\ stores p' (A ++ b :: B) (put_kv k v l).
Proof.
  intros [Hinv He _ Hl Hsz] Hk Hpn HA E. unfold Put. rewrite E. cbn [res_bind]. clear E.
  assert (Hb : In b (A ++ b :: B)) by (apply in_app_iff; right; left; reflexivity).
  destruct (node_In Hinv b Hb) as (Hb16 & HbH & Hbnd & Hbo & Hbk & Hbv & Hbkv).
  destruct (zlen_NV _ _ _ _ (node_In Hinv b Hb)) as [HzV HzK]. rewrite Hk in HzK.
  set (nd := nodeData p) in *. set (kv := kvData p) in *.
  set (o := if zlen v =? 0 then NO nd b else zlen kv). set (x := if zlen v =? 0 then [] else k ++ v).
  set (nd1 := if zlen v =? 0 then nd else <[Z.to_nat b := zlen kv]> nd).
  assert (E1 : (if negb (zlen v =? 0) then let* nd0 := upd nd b (zlen kv) in Ok (kv ++ k ++ v, nd0) else Ok (kv, nd))
               = Ok (kv ++ x, nd1)).
  { unfold x, nd1. unfold nNext in Hbnd. destruct (zlen v =? 0); cbn [negb]; [rewrite app_nil_r; reflexivity|].
    rewrite upd_ok by lia. reflexivity. }
  rewrite E1. cbn [res_bind]. assert (Hl1 : zlen nd1 = zlen nd) by (unfold nd1; destruct (zlen v =? 0); rewrite ?zlen_insert; reflexivity).
  assert (Hat1 : forall a, 0 <= a -> at_ nd1 a = if a =? b then o else at_ nd a).
  { intros a Ha. unfold nd1, o, nNext in *. destruct (zlen v =? 0); [destruct (Z.eqb_spec a b) as [->|]; reflexivity|]. apply at_insert; lia. }
  unfold nVal, nNext in *. rewrite ix_at, upd_ok by lia. cbn [res_bind]. set (nd2 := <[Z.to_nat (b + 2) := zlen v]> nd1).
  assert (Hl2 : zlen nd2 = zlen nd) by (unfold nd2; rewrite zlen_insert; exact Hl1).
  assert (Hw : forall y a, y = 0 \/ In y (A ++ b :: B) -> 0 <= a < nNext + NH nd y ->
     at_ nd2 (y + a) = if (y =? b) && (a =? 0) then o else if (y =? b) && (a =? 2) then zlen v else at_ nd (y + a)).
  { intros y a Hy Ha. assert (0 <= y) by (destruct Hy as [->|Hy]; [lia | destruct (node_In Hinv y Hy); lia]).
    unfold nd2. rewrite at_insert, Hat1 by lia. destruct (Z.eqb_spec y b) as [->|Hne]; cbn [andb].
    - destruct (Z.eqb_spec (b + a) (b + 2)), (Z.eqb_spec (b + a) b), (Z.eqb_spec a 0), (Z.eqb_spec a 2); try reflexivity; lia.
    - pose proof (addr_apart Hinv y b a 2 Hy (or_intror Hb) Hne Ha ltac:(unfold nNext; lia)).
      pose proof (addr_apart Hinv y b a 0 Hy (or_intror Hb) Hne Ha ltac:(unfold nNext; lia)).
      rewrite (proj2 (Z.eqb_neq _ _)), (proj2 (Z.eqb_neq _ _)) by lia. reflexivity. }
  pose proof (zlen_nonneg v) as Hv0.
  assert (Hent : entry nd2 (kv ++ x) b = (k, v)).
  { unfold entry, NK, NV. assert (F0 : NO nd2 b = o /\ NKl nd2 b = NKl nd b /\ NVl nd2 b = zlen v).
    { unfold NO, NKl, NVl, nKey, nVal, nNext in *. replace (at_ nd2 b) with (at_ nd2 (b + 0)) by (f_equal; lia).
      rewrite !Hw by (auto; lia). rewrite Z.eqb_refl. auto. }
    destruct F0 as (-> & -> & ->). unfold o, x. destruct (Z.eqb_spec (zlen v) 0) as [Ev|Ev].
    - rewrite app_nil_r. destruct v; [|unfold zlen in Ev; cbn in Ev; lia]. fold (NK nd kv b). rewrite Hk. reflexivity.
    - rewrite <- HzK. destruct (cut_appended kv k v) as [-> ->]. reflexivity. }
  assert (Ho : 0 <= o) by (unfold o; destruct (zlen v =? 0); auto with go).
  assert (Hov : o + NKl nd b + zlen v <= zlen (kv ++ x)).
  { unfold o, x. rewrite zlen_app. destruct (Z.eqb_spec (zlen v) 0) as [Ev|Ev]; [rewrite zlen_nil, Ev; lia|]. rewrite zlen_app. lia. }
  eexists. split; [reflexivity|].
  assert (Hput : put_kv k v l = map (entry nd kv) A ++ (k, v) :: map (entry nd kv) B).
  { rewrite Hl, map_app. cbn [map]. rewrite put_kv_app; [|apply Forall_map; exact HA]. unfold entry at 2. fold nd kv. rewrite Hk, put_kv_here. reflexivity. }
  split; cbn [nodeData kvData maxHeight entries prevNode kvSize].
  - exact (update_inv Hinv nd2 x o k v Hl2 Hw Hk Hent Ho Hov).
  - exact He.
  - exact Hpn.
  - rewrite Hput. symmetry. exact (update_entries Hinv nd2 x o k v Hw Hent).
  - rewrite Hput, Hsz, Hl, map_app, !kv_bytes_app. cbn [map]. unfold entry at 2. fold nd kv. rewrite !kv_bytes_cons, Hk, HzV.
    rewrite Hat1 by lia. rewrite (proj2 (Z.eqb_neq (b + 2) b)) by lia. change (at_ nd (b + 2)) with (NVl nd b). lia.
Qed.

(** The links a new node of height [h] behind [A] takes over. *)
Section Link.
Context {nd : list Z} {kv : list byte} {mh : Z} {A B : list Z} (Hinv : db_inv nd kv mh (A ++ B)).
Context (h : Z) (pn hdr : list Z) (Hh : 1 <= h <= tMaxHeight) (Hpn : zlen pn = 12) (Hhdr : zlen hdr = nNext)
  (Hprev : forall j, 0 <= j < h -> at_ pn j = endz (level nd j A)).

Definition prevs : list Z := take (Z.to_nat h) pn.
Definition is_node (y : Z) : Prop := y = 0 \/ In y (A ++ B).

Lemma link_at j : 0 <= j < h -> link_addrs prevs 0 !! Z.to_nat j = Some (endz (level nd j A) + (nNext + j)).
Proof.
  intros Hj. rewrite link_addrs_lookup.
  destruct (lookup_lt_is_Some_2 prevs (Z.to_nat j)) as [n En]; [unfold prevs, zlen, tMaxHeight in *; rewrite length_take; lia|].
  rewrite En. cbn. f_equal. apply lookup_take_Some in En as [En _]. rewrite <- Hprev by exact Hj. unfold at_.
  rewrite (nth_lookup_Some _ _ 0 _ En). lia.
Qed.

Lemma link_at_inv j a : link_addrs prevs 0 !! j = Some a ->
  Z.of_nat j < h /\ a = endz (level nd (Z.of_nat j) A) + (nNext + Z.of_nat j).
Proof.
  intros E. assert (Hj : Z.of_nat j < h).
  { rewrite link_addrs_lookup in E. destruct (prevs !! j) as [n|] eqn:En; [|discriminate].
    apply lookup_take_Some in En as [_ Hj]. lia. }
  split; [exact Hj|]. pose proof (link_at (Z.of_nat j) ltac:(lia)) as E'. rewrite Nat2Z.id in E'. congruence.
Qed.

Lemma link_end i : 0 <= i < h ->
  is_node (endz (level nd i A)) /\ 0 <= nNext + i < nNext + NH nd (endz (level nd i A)).
Proof.
  intros Hi. destruct (end_level Hinv i ltac:(lia)) as [He Hlt]. unfold is_node, nNext. rewrite in_app_iff. split; [tauto | lia].
Qed.

Lemma node_word y a : is_node y -> 0 <= a < nNext + NH nd y -> 0 <= y + a < zlen nd.
Proof.
  intros Hy Ha. pose proof (inv_len _ _ _ _ Hinv). unfold nNext in *. destruct Hy as [->|Hy].
  - rewrite (inv_head _ _ _ _ Hinv) in Ha. unfold tMaxHeight in Ha. lia.
  - destruct (node_In Hinv y Hy) as (? & ? & ? & _). unfold nNext in *. lia.
Qed.

Lemma link_in y a : is_node y -> 0 <= a < nNext + NH nd y ->
  y + a ∈ link_addrs prevs 0 <-> exists i, 0 <= i < h /\ a = nNext + i /\ y = endz (level nd i A).
Proof.
  intros Hy Ha. rewrite list_elem_of_lookup. split.
  - intros [j E]. destruct (link_at_inv j _ E) as [Hj Ea]. destruct (link_end (Z.of_nat j) ltac:(lia)) as [He Hlt].
    exists (Z.of_nat j). destruct (Z.eq_dec y (endz (level nd (Z.of_nat j) A))) as [Ey|Hne]; [lia|].
    pose proof (addr_apart Hinv y _ a (nNext + Z.of_nat j) Hy He Hne Ha Hlt). lia.
  - intros (i & Hi & -> & ->). exists (Z.to_nat i). apply link_at, Hi.
Qed.

Lemma link_run : exists nd', link_levels prevs 0 (zlen nd) (nd ++ hdr) = Ok nd' /\ zlen nd' = zlen nd + nNext + h /\
  (forall a, 0 <= a < zlen nd + nNext ->
    at_ nd' a = if bool_decide (a ∈ link_addrs prevs 0) then zlen nd else at_ (nd ++ hdr) a) /\
  (forall i, 0 <= i < h -> NN nd' (zlen nd) i = NN nd (endz (level nd i A)) i).
Proof.
  assert (Hhl : zlen (nd ++ hdr) = zlen nd + nNext) by (rewrite zlen_app, Hhdr; reflexivity).
  destruct (link_levels_spec prevs 0 (zlen nd) (nd ++ hdr)) as (nd' & E & Hl & Hold & Hnew).
  { apply Forall_lookup_2. intros j a Ej. destruct (link_at_inv j a Ej) as [Hj ->]. destruct (link_end (Z.of_nat j) ltac:(lia)) as [He Hlt].
    pose proof (node_word _ _ He Hlt). unfold nNext in Hhl. lia. }
  { apply NoDup_alt. intros j j' a Ej Ej'. destruct (link_at_inv j a Ej) as [Hj Ea]. destruct (link_at_inv j' a Ej') as [Hj' Ea'].
    destruct (link_end (Z.of_nat j) ltac:(lia)) as [He Hlt]. destruct (link_end (Z.of_nat j') ltac:(lia)) as [He' Hlt'].
    destruct (Z.eq_dec (endz (level nd (Z.of_nat j) A)) (endz (level nd (Z.of_nat j') A))) as [Ee|Hne]; [lia|].
    pose proof (addr_apart Hinv _ _ _ _ He He' Hne Hlt Hlt'). lia. }
  exists nd'. split; [exact E|]. split; [rewrite Hl, Hhl; f_equal; apply zlen_take; unfold tMaxHeight in *; lia|].
  split; [intros a Ha; apply Hold; lia|]. intros i Hi. destruct (link_end i Hi) as [He Hlt]. pose proof (node_word _ _ He Hlt).
  unfold NN. replace (zlen nd + nNext + i) with (zlen (nd ++ hdr) + Z.of_nat (Z.to_nat i)) by lia.
  rewrite (Hnew _ _ (link_at i Hi)), at_app_l by lia. f_equal. lia.
Qed.

Lemma link_new : exists nd', link_levels prevs 0 (zlen nd) (nd ++ hdr) = Ok nd' /\ zlen nd' = zlen nd + nNext + h /\
  (forall y a, is_node y -> 0 <= a < nNext -> at_ nd' (y + a) = at_ nd (y + a)) /\
  (forall y i, is_node y -> 0 <= i < NH nd y ->
     NN nd' y i = if (i <? h) && (y =? endz (level nd i A)) then zlen nd else NN nd y i) /\
  (forall a, 0 <= a < nNext -> at_ nd' (zlen nd + a) = at_ hdr a) /\
  (forall i, 0 <= i < h -> NN nd' (zlen nd) i = NN nd (endz (level nd i A)) i).
Proof.
  destruct link_run as (nd' & E & Hl & Hold & Hnew). exists nd'. split; [exact E|]. split; [exact Hl|].
  assert (H4 : 0 < nNext) by (unfold nNext; lia).
  split; [|split; [|split; [|exact Hnew]]].
  - intros y a Hy Ha. assert (Ha' : 0 <= a < nNext + NH nd y).
    { destruct Hy as [->|Hy]; [rewrite (inv_head _ _ _ _ Hinv); unfold tMaxHeight; lia | destruct (node_In Hinv y Hy) as (_ & ? & _); lia]. }
    pose proof (node_word y a Hy Ha'). rewrite Hold by lia. rewrite bool_decide_eq_false_2, at_app_l; [reflexivity | lia |].
    rewrite link_in by auto. intros (i & ? & ? & _). lia.
  - intros y i Hy Hi. assert (Ha : 0 <= nNext + i < nNext + NH nd y) by lia. pose proof (node_word y _ Hy Ha).
    unfold NN. rewrite <- Z.add_assoc, Hold, at_app_l by lia. pose proof (link_in y _ Hy Ha) as Hin.
    destruct (Z.ltb_spec i h) as [Hlt|Hge]; cbn [andb]; [destruct (Z.eqb_spec y (endz (level nd i A))) as [Ey|Ny]|].
    + rewrite bool_decide_eq_true_2; [reflexivity|]. apply Hin. exists i. auto with lia.
    + rewrite bool_decide_eq_false_2; [reflexivity|]. rewrite Hin. intros (j & ? & ? & ?). replace j with i in * by lia. contradiction.
    + rewrite bool_decide_eq_false_2; [reflexivity|]. rewrite Hin. intros (j & ? & ? & _). lia.
  - intros a Ha. pose proof (zlen_nonneg nd). rewrite Hold by lia. rewrite bool_decide_eq_false_2.
    + rewrite at_app_r by lia. f_equal. lia.
    + intros Hi. apply list_elem_of_lookup in Hi as [j Ej]. destruct (link_at_inv j _ Ej) as [Hj Ea].
      destruct (link_end (Z.of_nat j) ltac:(lia)) as [He Hlt]. pose proof (node_word _ _ He Hlt). lia.
Qed.

End Link.

Lemma prev_levels p ns l A B pn h : stores p ns l -> ns = A ++ B -> zlen pn = 12 -> h <= tMaxHeight ->
  (forall j, 0 <= j < maxHeight p -> at_ pn j = endz (level (nodeData p) j A)) ->
  exists pn', (if maxHeight p <? h then let* pn := clear_prev 12 (maxHeight p) h pn in Ok (pn, h) else Ok (pn, maxHeight p))
      = Ok (pn', Z.max (maxHeight p) h) /\ zlen pn' = 12 /\
    forall j, 0 <= j < h -> at_ pn' j = endz (level (nodeData p) j A).
Proof.
  intros [Hinv _ _ _ _] -> Hpn Hh Hj. pose proof (inv_mh _ _ _ _ Hinv) as Hmh. unfold tMaxHeight in *.
  destruct (Z.ltb_spec (maxHeight p) h) as [Hlt|Hge].
  - destruct (clear_prev_spec 12 (maxHeight p) h pn) as (pn' & -> & Hl & Hat); try lia. exists pn'. cbn [res_bind].
    rewrite Z.max_r by lia. split; [reflexivity|]. split; [exact Hl|]. intros j Hj'. rewrite Hat by lia.
    rewrite (proj2 (Z.ltb_lt j h)), andb_true_r by lia. destruct (Z.leb_spec (maxHeight p) j) as [Hm|Hm]; [|apply Hj; lia].
    destruct (level (nodeData p) j A) as [|x r] eqn:E; [reflexivity|].
    assert (Hx : In x (level (nodeData p) j A)) by (rewrite E; left; reflexivity). apply level_In in Hx as [Hx Hxj].
    destruct (node_In Hinv x) as (_ & ? & _); [apply in_app_iff; auto | lia].
  - exists pn. rewrite Z.max_l by lia. split; [reflexivity|]. split; [exact Hpn|]. intros j Hj'. apply Hj. lia.
Qed.

Lemma Put_new p A B l k v pn : stores p (A ++ B) l -> zlen pn = 12 ->
  Forall (fun x => lt_key (NK (nodeData p) (kvData p) x) k) A -> Forall (fun x => lt_key k (NK (nodeData p) (kvData p) x)) B ->
  (forall j, 0 <= j < maxHeight p -> at_ pn j = endz (level (nodeData p) j A)) ->
  findGE p k true = Ok (hdz B, false, pn) ->
  exists p', Put k v p = Ok p' /\ stores p' (A ++ zlen (nodeData p) :: B) (put_kv k v l).
Proof.
  intros Hst Hpn HA HB Hj E. pose proof Hst as [Hinv He _ Hl Hsz]. unfold Put. rewrite E. cbn [res_bind].
  pose proof (rand_loop_range 12 1 (rnd p) ltac:(unfold tMaxHeight; lia)) as Hh. fold (randHeight p) in Hh.
  destruct (randHeight p) as [h r]. cbn [fst] in Hh.
  destruct (prev_levels p _ l A B pn h Hst eq_refl Hpn ltac:(lia) Hj) as (pn' & -> & Hl' & Hj'). cbn [res_bind].
  unfold tMaxHeight in Hh. rewrite sub_slice_ok by lia. rewrite Z.sub_0_r, drop_0. cbn [res_bind].
  set (hdr := [zlen (kvData p); zlen k; zlen v; h]).
  destruct (link_new Hinv h pn' hdr Hh Hl' eq_refl Hj') as (nd' & El & Hlen & Hdata & Hlinks & Hhdr & Hnext).
  unfold prevs in El. rewrite El. cbn [res_bind]. eexists. split; [reflexivity|].
  assert (Hnew : NO nd' (zlen (nodeData p)) = zlen (kvData p) /\ NKl nd' (zlen (nodeData p)) = zlen k /\
    NVl nd' (zlen (nodeData p)) = zlen v /\ NH nd' (zlen (nodeData p)) = h).
  { unfold NO, NKl, NVl, NH, nKey, nVal, nHeight. replace (at_ nd' (zlen (nodeData p))) with (at_ nd' (zlen (nodeData p) + 0)) by (f_equal; lia).
    rewrite !Hhdr by (unfold nNext; lia). auto. }
  assert (Hput : put_kv k v l = map (entry (nodeData p) (kvData p)) A ++ (k, v) :: map (entry (nodeData p) (kvData p)) B).
  { rewrite Hl, map_app, put_kv_app by (apply Forall_map; exact HA). rewrite put_kv_new by (apply Forall_map; exact HB). reflexivity. }
  split; cbn [nodeData kvData maxHeight entries prevNode kvSize].
  - apply insert_inv; auto.
  - rewrite He, !zlen_app, zlen_cons. lia.
  - exact Hl'.
  - rewrite Hput, map_app. cbn [map]. rewrite (new_entry nd' h k v Hnew). f_equal; [|f_equal]; apply map_ext_in; intros y Hy;
      symmetry; apply (old_entry Hinv nd' k v); auto; apply in_app_iff; auto.
  - rewrite Hput, Hsz, Hl, map_app, !kv_bytes_app, kv_bytes_cons. lia.
Qed.

Lemma Put_spec p l k v : repr p l -> exists p', Put k v p = Ok p' /\ repr p' (put_kv k v l).
Proof.
  intros [ns Hst]. destruct (findGE_spec p ns l k true Hst) as (A & B & pn & -> & HA & HB & E & Hpn & Hj).
  destruct (exact_of B k) eqn:Ex.
  - destruct (exact_node p k B Ex) as (b & B' & -> & Hk). destruct (Put_exact p A b B' l k v pn) as (p' & Ep & Hp'); auto.
    exists p'. split; [exact Ep|]. eexists; exact Hp'.
  - destruct (Put_new p A B l k v pn) as (p' & Ep & Hp'); auto.
    { eapply not_exact_above; eauto. }
    exists p'. split; [exact Ep|]. eexists; exact Hp'.
Qed.

(** ** Reading *)

Lemma get_kv_app k l1 l2 : Forall (fun e => fst e <> k) l1 -> get_kv k (l1 ++ l2) = get_kv k l2.
Proof.
  induction 1 as [|[k0 v0] l1 Hk _ IH]; [reflexivity|]. cbn [app get_kv fst] in *. rewrite decide_False by exact Hk. exact IH.
Qed.

Lemma keys_ne p k A : Forall (fun x => lt_key (NK (nodeData p) (kvData p) x) k) A ->
  Forall (fun e => fst e <> k) (map (entry (nodeData p) (kvData p)) A).
Proof. intros HA. apply Forall_map. eapply Forall_impl; [exact HA|]. intros x Hx E. cbn in E. cbv beta in Hx. rewrite E in Hx. exact (lt_key_irrefl _ Hx). Qed.

Lemma keys_ne' p k B : Forall (fun x => lt_key k (NK (nodeData p) (kvData p) x)) B ->
  get_kv k (map (entry (nodeData p) (kvData p)) B) = None.
Proof.
  intros HB. rewrite <- (app_nil_r (map _ B)). rewrite get_kv_app; [reflexivity|].
  apply Forall_map. eapply Forall_impl; [exact HB|]. intros x Hx E. cbn in E. cbv beta in Hx. rewrite E in Hx. exact (lt_key_irrefl _ Hx).
Qed.

(** What the code reads of a node. *)
Lemma node_reads p ns l x : stores p ns l -> In x ns ->
  (x =? 0) = false /\
  ix (nodeData p) x = Ok (NO (nodeData p) x) /\
  ix (nodeData p) (x + nKey) = Ok (NKl (nodeData p) x) /\
  ix (nodeData p) (x + nVal) = Ok (NVl (nodeData p) x) /\
  sub_slice (kvData p) (NO (nodeData p) x) (NO (nodeData p) x + NKl (nodeData p) x) = Ok (NK (nodeData p) (kvData p) x) /\
  sub_slice (kvData p) (NO (nodeData p) x + NKl (nodeData p) x) (NO (nodeData p) x + NKl (nodeData p) x + NVl (nodeData p) x)
    = Ok (NV (nodeData p) (kvData p) x) /\
  (NVl (nodeData p) x =? 0) = (zlen (NV (nodeData p) (kvData p) x) =? 0).
Proof.
  intros [Hinv _ _ _ _] Hx. pose proof (node_In Hinv x Hx) as Hok. destruct (zlen_NV _ _ _ _ Hok) as [HzV _].
  destruct Hok as (H1 & H2 & H3 & H4 & H5 & H6 & H7). unfold nVal, nKey, nNext in *. rewrite HzV, !ix_at, !sub_slice_ok by lia.
  split; [apply Z.eqb_neq; lia|]. repeat (split; [reflexivity|]). unfold NK, NV.
  split; [do 2 f_equal; lia|]. split; [do 2 f_equal; lia | reflexivity].
Qed.

(** The link of the last node of [A] leads to [B]. *)
Lemma next_read p ns l A b B : stores p ns l -> ns = A ++ b :: B -> ix (nodeData p) (b + nNext) = Ok (hdz B).
Proof.
  intros [Hinv _ _ _ _] Hns. assert (Hin : In b ns) by (rewrite Hns, in_app_iff; right; left; reflexivity).
  destruct (node_In Hinv b Hin) as (H1 & H2 & H3 & _). unfold nNext in *. rewrite ix_at by lia. f_equal.
  assert (Hc : chain (nodeData p) 0 ((A ++ [b]) ++ B)).
  { rewrite <- app_assoc. cbn [app]. rewrite <- Hns. rewrite <- (level_0 _ _ _ ns (inv_nodes _ _ _ _ Hinv)). apply Hinv. unfold tMaxHeight; lia. }
  apply chain_next in Hc. rewrite endz_snoc in Hc. unfold NN, nNext in Hc. rewrite Z.add_0_r in Hc. exact Hc.
Qed.

Lemma first_read p ns l : stores p ns l -> ix (nodeData p) nNext = Ok (hdz ns).
Proof.
  intros [Hinv _ _ _ _]. pose proof (inv_len _ _ _ _ Hinv). rewrite ix_at by (unfold nNext; lia). f_equal.
  assert (Hc : chain (nodeData p) 0 ([] ++ ns)).
  { cbn [app]. rewrite <- (level_0 _ _ _ ns (inv_nodes _ _ _ _ Hinv)). apply Hinv. unfold tMaxHeight; lia. }
  apply chain_next in Hc. exact Hc.
Qed.

(** The value field of a node: [nil] when empty. *)
Definition value_of (v : list byte) : option (list byte) := if zlen v =? 0 then None else Some v.

Lemma read_value p ns l x : stores p ns l -> In x ns ->
  (let* valen := ix (nodeData p) (x + nVal) in
   if negb (valen =? 0) then
     let* o := ix (nodeData p) x in
     let* kl := ix (nodeData p) (x + nKey) in
     let* value := sub_slice (kvData p) (o + kl) (o + kl + valen) in Ok (Some value, false)
   else Ok (None, false)) = Ok (value_of (NV (nodeData p) (kvData p) x), false).
Proof.
  intros Hst Hx. destruct (node_reads p ns l x Hst Hx) as (_ & -> & -> & -> & _ & Ev & E0). cbn [res_bind]. unfold value_of. rewrite E0. clear E0.
  destruct (_ =? 0); cbn [negb]; [reflexivity|]. rewrite Ev. reflexivity.
Qed.

Lemma Get_spec p l k : repr p l ->
  Get p k = Ok (match get_kv k l with Some v => (value_of v, false) | None => (None, true) end).
Proof.
  intros [ns Hst]. destruct (findGE_spec p ns l k false Hst) as (A & B & pn & Hns & HA & HB & E & _). unfold Get. rewrite E.
  cbn [res_bind]. pose proof (st_list _ _ _ Hst) as Hl. rewrite Hl, Hns, map_app, get_kv_app by (apply keys_ne, HA).
  destruct (exact_of B k) eqn:Ex.
  - destruct (exact_node p k B Ex) as (b & B' & -> & Hk). cbn [map get_kv entry hdz List.hd]. rewrite decide_True by exact Hk.
    eapply read_value; [exact Hst|]. rewrite Hns, in_app_iff. right; left; reflexivity.
  - rewrite keys_ne' by (eapply not_exact_above; eauto). reflexivity.
Qed.

(** The first entry whose key is not below [k]. *)
Fixpoint find_kv (k : list byte) (l : kvs) : option (list byte * list byte) :=
  match l with [] => None | (k', v') :: r => if Compare k' k <? 0 then find_kv k r else Some (k', v') end.

Lemma Find_spec p l k : repr p l ->
  Find p k = match find_kv k l with Some (k', v') => Ok (k', value_of v') | None => Err ErrNotFound end.
Proof.
  intros [ns Hst]. destruct (findGE_spec p ns l k false Hst) as (A & B & pn & Hns & HA & HB & E & _). unfold Find. rewrite E.
  cbn [res_bind]. pose proof (st_list _ _ _ Hst) as Hl. pose proof (st_inv _ _ _ Hst) as Hinv. rewrite Hl, Hns, map_app.
  assert (Hskip : find_kv k (map (entry (nodeData p) (kvData p)) A ++ map (entry (nodeData p) (kvData p)) B)
                = find_kv k (map (entry (nodeData p) (kvData p)) B)).
  { clear -HA. induction HA as [|a A Ha _ IH]; [reflexivity|]. cbn [map app find_kv entry]. rewrite (proj2 (Z.ltb_lt _ _)) by exact Ha. exact IH. }
  rewrite Hskip. destruct B as [|b B]; [reflexivity|]. cbn [map find_kv entry hdz List.hd]. apply Forall_cons in HB as [Hb _].
  unfold lt_key in Hb. rewrite (proj2 (Z.ltb_ge _ _)) by lia.
  assert (Hin : In b ns) by (rewrite Hns, in_app_iff; right; left; reflexivity).
  destruct (node_reads p ns l b Hst Hin) as (-> & -> & -> & -> & Ek & Ev & E0). cbn [negb res_bind]. rewrite Ek. cbn [res_bind].
  unfold value_of. rewrite E0. clear E0. destruct (_ =? 0); cbn [negb]; [reflexivity|]. rewrite Ev. reflexivity.
Qed.

(** A pass over the entries in order. *)
Fixpoint each {S} (f : list byte -> list byte -> S -> res S) (l : kvs) (s : S) : res S :=
  match l with [] => Ok s | (k, v) :: l => let* s := f k v s in each f l s end.

Lemma forEach_loop_spec {S} (f : list byte -> list byte -> S -> res S) p ns l B : stores p ns l ->
  forall A fuel s, ns = A ++ B -> (length B < fuel)%nat ->
  forEach_loop f fuel p (hdz B) s = each f (map (entry (nodeData p) (kvData p)) B) s.
Proof.
  intros Hst. induction B as [|b B IH]; intros A fuel s Hns Hf; (destruct fuel as [|fuel]; [cbn in Hf; lia|]); [reflexivity|].
  assert (Hin : In b ns) by (rewrite Hns, in_app_iff; right; left; reflexivity).
  destruct (node_reads p ns l b Hst Hin) as (E0 & Eo & Ekl & Evl & Ek & Ev & _). cbn [hdz List.hd map each entry forEach_loop].
  rewrite E0, Eo, Ekl. cbn [res_bind]. rewrite Ek. cbn [res_bind]. rewrite Evl. cbn [res_bind]. rewrite Ev. cbn [res_bind].
  destruct (f _ _ s) as [s'| |]; cbn [res_bind]; try reflexivity. rewrite (next_read p ns l A b B Hst Hns). cbn [res_bind].
  apply (IH (A ++ [b])); [rewrite <- app_assoc; exact Hns | cbn in Hf; lia].
Qed.

Lemma ForEach_spec {S} (f : list byte -> list byte -> S -> res S) p l s : repr p l -> ForEach f p s = each f l s.
Proof.
  intros [ns Hst]. pose proof Hst as [_ He _ Hl _]. unfold ForEach. rewrite (first_read p ns l Hst), Hl. cbn [res_bind].
  apply (forEach_loop_spec f p ns l ns Hst [] (find_fuel p)); [reflexivity|]. unfold find_fuel. rewrite He. unfold zlen. lia.
Qed.

(** ** Empty databases *)

Definition empty_nodes : list Z := <[Z.to_nat nHeight := tMaxHeight]> (repeat 0 16).

Lemma empty_inv kv : db_inv empty_nodes kv 1 [].
Proof.
  split.
  - vm_compute. discriminate.
  - reflexivity.
  - unfold tMaxHeight; lia.
  - constructor.
  - intros ? ? [].
  - constructor.
  - intros i Hi. split; [exact I|]. change (endz (level empty_nodes i [])) with 0. unfold NN, empty_nodes, nNext, nHeight, tMaxHeight in *.
    rewrite at_insert by (try (unfold zlen; cbn); lia). rewrite (proj2 (Z.eqb_neq _ _)) by lia. unfold at_. apply nth_repeat.
Qed.

Lemma NewMemDB_spec : repr NewMemDB [].
Proof. exists []. split; try reflexivity. apply empty_inv. Qed.

Lemma Reset_spec p l : repr p l -> exists p', Reset p = Ok p' /\ repr p' [].
Proof.
  intros [ns [Hinv _ Hp _ _]]. pose proof (inv_len _ _ _ _ Hinv). unfold Reset, nNext, tMaxHeight. rewrite sub_slice_ok by lia.
  cbn [res_bind]. eexists. split; [reflexivity|]. exists [].
  assert (H16 : length (take (Z.to_nat (4 + 12 - 0)) (drop (Z.to_nat 0) (nodeData p))) = 16%nat).
  { rewrite drop_0, length_take. unfold zlen in *. lia. }
  revert H16. generalize (take (Z.to_nat (4 + 12 - 0)) (drop (Z.to_nat 0) (nodeData p))) as l16. intros l16 H16.
  split; cbn [nodeData kvData maxHeight entries prevNode kvSize]; try reflexivity.
  - do 16 (destruct l16 as [|? l16]; [discriminate|]). destruct l16; [|discriminate]. apply empty_inv.
  - assert (Hk : forall js q, zlen (foldl (fun pn n => <[Z.to_nat n := 0]> pn) q js) = zlen q).
    { induction js as [|j js IH]; intros q; [reflexivity|]. cbn [foldl]. rewrite IH, zlen_insert. reflexivity. }
    rewrite Hk. exact Hp.
Qed.

Lemma stores_sorted p ns l : stores p ns l -> kv_sorted l.
Proof.
  intros [Hinv _ _ -> _]. pose proof (inv_sorted _ _ _ _ Hinv) as Hs. clear Hinv.
  induction Hs as [|x r _ IH Hx]; constructor; [exact IH|]. apply Forall_map. exact Hx.
Qed.

(** C5: the skip list is a sorted map. A new [MemDB] is empty; on one that stores the
    entries [l], whatever the random heights, [Put] and [Delete] return a
    database that stores the updated entries, [Get] and [Find] return the value
    or the following entry, [ForEach] visits the entries in key order, [Len] and
    [Size] count them and [Reset] empties the database; none of them panics.  A deletion
    is an entry with an empty value: it stays in the list (it must hide the key in the layer
    below), and [Len] and [Size] count it and its key, against the comments on [Size] and [NewMemDB]. *)
Theorem memdb_refines_sorted_map p l k v : repr p l ->
  (exists p', Put k v p = Ok p' /\ repr p' (put_kv k v l)) /\
  (exists p', Delete k p = Ok p' /\ repr p' (put_kv k [] l)) /\
  Get p k = Ok (match get_kv k l with Some v => (value_of v, false) | None => (None, true) end) /\
  Find p k = match find_kv k l with Some (k', v') => Ok (k', value_of v') | None => Err ErrNotFound end /\
  (forall S (f : list byte -> list byte -> S -> res S) s, ForEach f p s = each f l s) /\
  Len p = zlen l /\ Size p = kv_bytes l /\ kv_sorted l /\
  (exists p', Reset p = Ok p' /\ repr p' []) /\
  (forall k', get_kv k' (put_kv k v l) = if decide (k = k') then Some v else get_kv k' l).
Proof.
  intros Hr. repeat (split; [first [apply Put_spec | apply Get_spec | apply Find_spec | idtac]; try assumption|]).
  - intros S f s. apply ForEach_spec, Hr.
  - destruct Hr as [ns [_ He _ -> _]]. unfold Len. rewrite He. unfold zlen. rewrite length_map. reflexivity.
  - destruct Hr as [ns [_ _ _ _ Hs]]. exact Hs.
  - destruct Hr as [ns Hst]. exact (stores_sorted p ns l Hst).
  - exact (Reset_spec p l Hr).
  - intros k'. apply get_put.
Qed.

End Spec.

(** ** A concrete database *)

Definition coin : Rand := {| Rng := Z; NewSource s := s; rand_Int r := (r, r / 4 + 1) |}.
#[local] Existing Instances DefaultComparer coin.

Lemma memdb_refines_sorted_map_witness :
  exists p, Put [x02] [x0a] NewMemDB = Ok p /\ repr p [([x02], [x0a])] /\
    (exists p', Delete [x01] p = Ok p' /\ repr p' [([x01], []); ([x02], [x0a])]) /\ Get p [x02] = Ok (Some [x0a], false).
Proof.
  destruct (memdb_refines_sorted_map NewMemDB [] [x02] [x0a] NewMemDB_spec) as ((p & Ep & Hp) & _).
  exists p. split; [exact Ep|]. split; [exact Hp|].
  destruct (memdb_refines_sorted_map p [([x02], [x0a])] [x01] [] Hp) as (_ & Hd & _).
  destruct (memdb_refines_sorted_map p [([x02], [x0a])] [x02] [] Hp) as (_ & _ & Hg & _). split; [exact Hd | exact Hg].
Defined.
