(* ===== verification/StoreIter.v ===== *)
(** * Iterators over a write set and the store below it

    [dbIter] of [core/store/overlaydb/memdb.go] walks a [MemDB] within a key range;
    [JoinIter] of [core/store/overlaydb/iterator.go] merges it with an iterator over
    the store below, the write set winning and deleted keys left out.
    [StoreIterator] is the interface of [core/store/common/store.go] both implement. *)

From stdpp Require Import sorting.
From S2P Require Import Prelude MemDb MemDbTheory MemDbSpec.

(** ** The interface *)

Definition nonempty {A} (l : list A) : bool := match l with [] => false | _ => true end.
Definition head_kv (l : kvs) : list byte * list byte := match l with e :: _ => e | [] => ([], []) end.

(** [over i l]: a fresh iterator over the entries [l]; [cursor i l]: one whose current
    entry is the first of [l], or which is exhausted when [l] is empty.  A call of
    [First] or [Next] may loop; [fuel] bounds the rounds and some bound is enough. *)
Class StoreIterator (I : Type) := {
  First : nat -> I -> res (bool * I);
  Next : nat -> I -> res (bool * I);
  Key : I -> list byte;
  Value : I -> list byte;
  Error : I -> option gerror;
  over : I -> kvs -> Prop;
  cursor : I -> kvs -> Prop;
  First_law i l : over i l ->
    exists N i', (forall fuel, (N <= fuel)%nat -> First fuel i = Ok (nonempty l, i')) /\ cursor i' l;
  Next_law i l : cursor i l ->
    exists N i', (forall fuel, (N <= fuel)%nat -> Next fuel i = Ok (nonempty (tail l), i')) /\ cursor i' (tail l);
  cursor_law i l : cursor i l -> Key i = fst (head_kv l) /\ Value i = snd (head_kv l) /\ Error i = None
}.

(** ** [dbIter] *)

(** [util.Range] of goleveldb; [None] is a nil bound. *)
Record Range := mkRange { Start : option (list byte); Limit : option (list byte) }.

Section Mem.
Context `{HCmp : Comparer} `{HRand : Rand}.

Record dbIter := mkIter {
  it_p : MemDB;
  it_slice : option Range;
  it_node : Z;
  it_forward : bool;
  it_key : list byte;
  it_value : list byte;
  it_err : option gerror;
  it_released : bool
}.

Definition NewIterator (p : MemDB) (slice : option Range) : dbIter := mkIter p slice 0 false [] [] None false.

Definition bail (i : dbIter) (node : Z) (forward : bool) : dbIter :=
  mkIter (it_p i) (it_slice i) node forward [] [] (it_err i) (it_released i).

(** [fill] after [i.node = node] and [i.forward = forward]. *)
Definition fill (checkStart checkLimit : bool) (node : Z) (forward : bool) (i : dbIter) : res (bool * dbIter) :=
  let p := it_p i in
  if negb (node =? 0) then
    let* n := ix (nodeData p) node in
    let* kl := ix (nodeData p) (node + nKey) in
    let m := n + kl in
    let* key := sub_slice (kvData p) n m in
    let out := match it_slice i with
               | None => false
               | Some r =>
                   match Limit r with Some lim => checkLimit && (0 <=? Compare key lim) | None => false end ||
                   match Start r with Some st => checkStart && (Compare key st <? 0) | None => false end
               end in
    if out then Ok (false, bail i 0 forward)
    else
      let* vl := ix (nodeData p) (node + nVal) in
      let* value := sub_slice (kvData p) m (m + vl) in
      Ok (true, mkIter p (it_slice i) node forward key value (it_err i) (it_released i))
  else Ok (false, bail i node forward).

Definition ErrIterReleased : gerror := "leveldb/memdb: iterator released".
Definition released (i : dbIter) : dbIter :=
  mkIter (it_p i) (it_slice i) (it_node i) (it_forward i) (it_key i) (it_value i) (Some ErrIterReleased) (it_released i).

Definition dbFirst (i : dbIter) : res (bool * dbIter) :=
  if it_released i then Ok (false, released i)
  else
    let* node := match it_slice i with
                 | Some {| Start := Some st |} => let* '(node, _, _) := findGE (it_p i) st false in Ok node
                 | _ => ix (nodeData (it_p i)) nNext
                 end in
    fill false true node true i.

Definition dbLast (i : dbIter) : res (bool * dbIter) :=
  if it_released i then Ok (false, released i)
  else
    let* node := match it_slice i with
                 | Some {| Limit := Some lim |} => findLT (it_p i) lim
                 | _ => findLast (it_p i)
                 end in
    fill true false node false i.

Definition dbSeek (key : list byte) (i : dbIter) : res (bool * dbIter) :=
  if it_released i then Ok (false, released i)
  else
    let key := match it_slice i with
               | Some {| Start := Some st |} => if Compare key st <? 0 then st else key
               | _ => key
               end in
    let* '(node, _, _) := findGE (it_p i) key false in
    fill false true node true i.

Definition dbNext (i : dbIter) : res (bool * dbIter) :=
  if it_released i then Ok (false, released i)
  else if it_node i =? 0 then if negb (it_forward i) then dbFirst i else Ok (false, i)
  else let* node := ix (nodeData (it_p i)) (it_node i + nNext) in fill false true node true i.

Definition dbPrev (i : dbIter) : res (bool * dbIter) :=
  if it_released i then Ok (false, released i)
  else if it_node i =? 0 then if it_forward i then dbLast i else Ok (false, i)
  else let* node := findLT (it_p i) (it_key i) in fill true false node false i.

Definition dbRelease (i : dbIter) : dbIter :=
  if it_released i then i else mkIter (it_p i) (it_slice i) 0 (it_forward i) [] [] (it_err i) true.

(** *** The entries of a range *)

Fixpoint below (lim : option (list byte)) (l : kvs) : kvs :=
  match lim, l with
  | Some lm, (k, v) :: r => if Compare k lm <? 0 then (k, v) :: below lim r else []
  | _, _ => l
  end.
Fixpoint from (k : list byte) (l : kvs) : kvs :=
  match l with [] => [] | (k', v') :: r => if Compare k' k <? 0 then from k r else l end.

Lemma below_nil lim : below lim [] = [].
Proof. destruct lim; reflexivity. Qed.

Definition limit_of (s : option Range) : option (list byte) := match s with Some r => Limit r | None => None end.
Definition start_of (s : option Range) : option (list byte) := match s with Some r => Start r | None => None end.
Definition in_slice (s : option Range) (l : kvs) : kvs :=
  below (limit_of s) (match start_of s with Some st => from st l | None => l end).

(** The iterator stands at the first of the nodes [B], or past the range. *)
Definition db_cursor (i : dbIter) (rest : kvs) : Prop :=
  it_released i = false /\ it_forward i = true /\ it_err i = None /\
  exists ns l A B, stores (it_p i) ns l /\ ns = A ++ B /\
    rest = below (limit_of (it_slice i)) (map (entry (nodeData (it_p i)) (kvData (it_p i))) B) /\
    match rest with
    | [] => it_node i = 0 /\ it_key i = [] /\ it_value i = []
    | (k, v) :: _ => it_node i = hdz B /\ it_key i = k /\ it_value i = v
    end.

Lemma fill_spec i ns l A B : stores (it_p i) ns l -> ns = A ++ B -> it_released i = false -> it_err i = None ->
  exists i', fill false true (hdz B) true i =
      Ok (nonempty (below (limit_of (it_slice i)) (map (entry (nodeData (it_p i)) (kvData (it_p i))) B)), i') /\
    db_cursor i' (below (limit_of (it_slice i)) (map (entry (nodeData (it_p i)) (kvData (it_p i))) B)).
Proof.
  intros Hst Hns Hrel Herr. destruct B as [|b B].
  { cbn [map]. rewrite below_nil. exists (bail i 0 true). split; [reflexivity|].
    repeat (split; [assumption || reflexivity|]). exists ns, l, A, []. cbn [it_p it_slice bail map]. rewrite below_nil. auto 8. }
  assert (Hin : In b ns) by (rewrite Hns, in_app_iff; right; left; reflexivity).
  destruct (node_reads _ ns l b Hst Hin) as (E0 & Eo & Ekl & Evl & Ek & Ev & _). set (p := it_p i) in *.
  unfold fill. cbn [hdz List.hd]. fold p. rewrite E0, Eo, Ekl. cbn [negb res_bind]. rewrite Ek. cbn [res_bind].
  rewrite Evl. cbn [res_bind]. rewrite Ev. cbn [res_bind].
  set (out := match it_slice i with None => false | Some _ => _ end).
  assert (Hout : out = match limit_of (it_slice i) with Some lim => 0 <=? Compare (NK (nodeData p) (kvData p) b) lim | None => false end).
  { unfold out, limit_of. destruct (it_slice i) as [[[s|] [lm|]]|]; cbn; rewrite ?orb_false_r; reflexivity. }
  rewrite Hout. cbn [map]. destruct (limit_of (it_slice i)) as [lim|] eqn:El; cbn [below entry].
  - rewrite Z.ltb_antisym. destruct (0 <=? _) eqn:E; cbn [negb nonempty].
    + eexists. split; [reflexivity|]. repeat (split; [assumption || reflexivity|]). exists ns, l, A, (b :: B). cbn [it_p it_slice bail].
      rewrite El. cbn [map below entry]. fold p. rewrite Z.ltb_antisym, E. cbn [negb]. auto 8.
    + eexists. split; [reflexivity|]. repeat (split; [assumption || reflexivity|]). exists ns, l, A, (b :: B). cbn [it_p it_slice bail].
      rewrite El. cbn [map below entry]. fold p. rewrite Z.ltb_antisym, E. cbn [negb]. auto 8.
  - cbn [nonempty]. eexists. split; [reflexivity|]. repeat (split; [assumption || reflexivity|]). exists ns, l, A, (b :: B). cbn [it_p it_slice bail].
    rewrite El. cbn [map below entry]. auto 8.
Qed.

Lemma from_split p A B k :
  Forall (fun x => lt_key (NK (nodeData p) (kvData p) x) k) A -> Forall (fun x => ~ lt_key (NK (nodeData p) (kvData p) x) k) B ->
  from k (map (entry (nodeData p) (kvData p)) (A ++ B)) = map (entry (nodeData p) (kvData p)) B.
Proof.
  intros HA HB. induction HA as [|a A Ha _ IH]; cbn [app map from entry].
  - destruct HB as [|b B Hb _]; [reflexivity|]. cbn [map from entry]. unfold lt_key in Hb. rewrite (proj2 (Z.ltb_ge _ _)) by lia. reflexivity.
  - rewrite (proj2 (Z.ltb_lt _ _)) by exact Ha. exact IH.
Qed.

(** A fresh iterator, of which [First] has not been called. *)
Definition db_over (i : dbIter) (r : kvs) : Prop :=
  it_released i = false /\ it_err i = None /\ exists l, repr (it_p i) l /\ r = in_slice (it_slice i) l.

Lemma dbFirst_spec i r : db_over i r -> exists i', dbFirst i = Ok (nonempty r, i') /\ db_cursor i' r.
Proof.
  intros (Hrel & Herr & l & [ns Hst] & ->). unfold dbFirst, in_slice. rewrite Hrel. pose proof (st_list _ _ _ Hst) as Hl.
  destruct (start_of (it_slice i)) as [st|] eqn:Es.
  - destruct (findGE_spec _ ns l st false Hst) as (A & B & pn & Hns & HA & HB & E & _).
    destruct (it_slice i) as [[[s|] lim]|] eqn:Ei; try discriminate. injection Es as ->. rewrite E. cbn [res_bind].
    rewrite Hl, Hns, (from_split _ A B st HA HB). rewrite <- Ei. apply (fill_spec i ns l A B); assumption.
  - assert (E : match it_slice i with
                | Some {| Start := Some st |} => let* '(node, _, _) := findGE (it_p i) st false in Ok node
                | _ => ix (nodeData (it_p i)) nNext end = Ok (hdz ns)).
    { destruct (it_slice i) as [[[s|] lim]|]; [discriminate| |]; exact (first_read _ ns l Hst). }
    rewrite E, Hl. cbn [res_bind]. apply (fill_spec i ns l [] ns); auto.
Qed.

Lemma below_tail lim e l r : below lim (e :: l) = e :: r -> r = below lim l.
Proof.
  destruct lim as [lm|], e as [k v]; cbn [below]; [|intros [= ->]; destruct r; reflexivity].
  destruct (_ <? 0); [congruence | discriminate].
Qed.

Lemma dbNext_spec i r : db_cursor i r -> exists i', dbNext i = Ok (nonempty (tail r), i') /\ db_cursor i' (tail r).
Proof.
  intros (Hrel & Hfw & Herr & ns & l & A & B & Hst & Hns & Hr & Hcur). unfold dbNext. rewrite Hrel. destruct r as [|[k v] r].
  - pose proof Hcur as (-> & _). rewrite Hfw. exists i. split; [reflexivity|]. repeat (split; [assumption|]). exists ns, l, A, B. auto 8.
  - destruct B as [|b B]; [cbn [map] in Hr; rewrite below_nil in Hr; discriminate|]. destruct Hcur as (-> & _ & _). cbn [hdz List.hd tail].
    assert (Hin : In b ns) by (rewrite Hns, in_app_iff; right; left; reflexivity).
    destruct (node_reads _ ns l b Hst Hin) as (-> & _). rewrite (next_read _ ns l A b B Hst Hns). cbn [res_bind].
    cbn [map] in Hr. assert (He : entry (nodeData (it_p i)) (kvData (it_p i)) b = (k, v)).
    { unfold entry in *. destruct (limit_of (it_slice i)); cbn [below] in Hr; [destruct (_ <? 0); congruence | congruence]. }
    rewrite He in Hr. symmetry in Hr. apply below_tail in Hr. rewrite Hr.
    apply (fill_spec i ns l (A ++ [b]) B); auto. rewrite <- app_assoc. exact Hns.
Qed.

#[global] Instance db_iterator : StoreIterator dbIter.
Proof.
  refine {| First _ := dbFirst; Next _ := dbNext; Key := it_key; Value := it_value; Error := it_err;
            over := db_over; cursor := db_cursor |}.
  - intros i l Hi. destruct (dbFirst_spec i l Hi) as (i' & E & Hc). exists 0%nat, i'. auto.
  - intros i l Hi. destruct (dbNext_spec i l Hi) as (i' & E & Hc). exists 0%nat, i'. auto.
  - intros i [|[k v] l] (_ & _ & He & ns & l0 & A & B & _ & _ & _ & (_ & Hk & Hv)); auto.
Defined.

End Mem.

(** ** [JoinIter] *)

Inductive KeyOrigin := FromMem | FromBack | FromBoth.

Section Join.
Context `{HCmp : Comparer} {B M : Type} `{HB : StoreIterator B} `{HM : StoreIterator M}.

Record JoinIter := mkJoin {
  backend : B;
  memdb : M;
  j_key : list byte;
  j_value : list byte;
  keyOrigin : KeyOrigin;
  nextMemEnd : bool;
  nextBackEnd : bool
}.

Definition NewJoinIter (memIter : M) (backendIter : B) : JoinIter :=
  mkJoin backendIter memIter [] [] FromMem false false.

Definition j_Error (iter : JoinIter) : option gerror :=
  match Error (backend iter) with Some e => Some e | None => Error (memdb iter) end.

Definition is_some {A} (o : option A) : bool := match o with Some _ => true | None => false end.

Definition j_first (fuel : nat) (iter : JoinIter) : res (bool * JoinIter) :=
  let* '(back, b) := First fuel (backend iter) in
  let* '(mem, m) := First fuel (memdb iter) in
  let set k v o := mkJoin b m k v o (nextMemEnd iter) (nextBackEnd iter) in
  let iter := set (j_key iter) (j_value iter) (keyOrigin iter) in
  if is_some (j_Error iter) then Ok (false, iter)
  else if back : bool then
    if negb mem then Ok (true, set (Key b) (Value b) FromBack)
    else
      let cmp := Compare (Key m) (Key b) in
      if cmp <? 1 then Ok (true, set (Key m) (Value m) (if cmp =? 0 then FromBoth else FromMem))
      else Ok (true, set (Key b) (Value b) FromBack)
  else if mem : bool then Ok (true, set (Key m) (Value m) FromMem)
  else Ok (false, iter).

Definition from_mem (o : KeyOrigin) : bool := match o with FromMem | FromBoth => true | FromBack => false end.
Definition from_back (o : KeyOrigin) : bool := match o with FromBack | FromBoth => true | FromMem => false end.

Definition j_next (fuel : nat) (iter : JoinIter) : res (bool * JoinIter) :=
  let* '(m, memEnd) :=
    if from_mem (keyOrigin iter) && negb (nextMemEnd iter)
    then let* '(ok, m) := Next fuel (memdb iter) in Ok (m, negb ok)
    else Ok (memdb iter, nextMemEnd iter) in
  let* '(b, backEnd) :=
    if from_back (keyOrigin iter) && negb (nextBackEnd iter)
    then let* '(ok, b) := Next fuel (backend iter) in Ok (b, negb ok)
    else Ok (backend iter, nextBackEnd iter) in
  let set k v o := mkJoin b m k v o memEnd backEnd in
  let iter := set (j_key iter) (j_value iter) (keyOrigin iter) in
  if is_some (j_Error iter) then Ok (false, iter)
  else if backEnd then
    if memEnd then Ok (false, set [] [] (keyOrigin iter))
    else Ok (true, set (Key m) (Value m) FromMem)
  else if memEnd then Ok (true, set (Key b) (Value b) FromBack)
  else
    let cmp := Compare (Key m) (Key b) in
    if cmp =? -1 then Ok (true, set (Key m) (Value m) FromMem)
    else if cmp =? 0 then Ok (true, set (Key m) (Value m) FromBoth)
    else if cmp =? 1 then Ok (true, set (Key b) (Value b) FromBack)
    else Panic.

(** [for len(iter.value) == 0 { if iter.next() == false { return false } }] *)
Fixpoint skip_deleted (fuel : nat) (iter : JoinIter) : res (bool * JoinIter) :=
  match fuel with
  | O => Panic
  | S f =>
      if zlen (j_value iter) =? 0 then
        let* '(ok, iter) := j_next f iter in
        if ok : bool then skip_deleted f iter else Ok (false, iter)
      else Ok (true, iter)
  end.

Definition j_First (fuel : nat) (iter : JoinIter) : res (bool * JoinIter) :=
  let* '(f, iter) := j_first fuel iter in
  if f : bool then skip_deleted fuel iter else Ok (false, iter).

Definition j_Next (fuel : nat) (iter : JoinIter) : res (bool * JoinIter) :=
  let* '(f, iter) := j_next fuel iter in
  if f : bool then skip_deleted fuel iter else Ok (false, iter).

(** *** What it enumerates *)

Fixpoint merge (m : kvs) : kvs -> kvs :=
  match m with
  | [] => fun b => b
  | (mk, mv) :: m' =>
      fix merge_b (b : kvs) : kvs :=
        match b with
        | [] => m
        | (bk, bv) :: b' =>
            if Compare mk bk <? 0 then (mk, mv) :: merge m' b
            else if Compare mk bk =? 0 then (mk, mv) :: merge m' b'
            else (bk, bv) :: merge_b b'
        end
  end.

Definition live (l : kvs) : kvs := List.filter (fun e => negb (zlen (snd e) =? 0)) l.
Definition join (m b : kvs) : kvs := live (merge m b).
Definition keyed (l : kvs) : Prop := Forall (fun e => fst e <> []) l.

Lemma merge_nil_r m : merge m [] = m.
Proof. destruct m as [|[k v] m]; reflexivity. Qed.

Lemma live_app l1 l2 : live (l1 ++ l2) = live l1 ++ live l2.
Proof. apply List.filter_app. Qed.

Lemma live_one e : live [e] = if zlen (snd e) =? 0 then [] else [e].
Proof. cbn. destruct (zlen _ =? 0); reflexivity. Qed.

(** An exhausted side counts as an entry without a value. *)
Lemma live_head l : live l = live [head_kv l] ++ live (tail l).
Proof. destruct l as [|e l]; [reflexivity|]. rewrite <- live_app. reflexivity. Qed.

(** *** One step *)

(** Both sides are cursors; a side marked as ended is exhausted, and the current
    entry does not come from an ended side. *)
Definition j_live (it : JoinIter) (m b : kvs) : Prop :=
  cursor (memdb it) m /\ cursor (backend it) b /\
  (nextMemEnd it = true -> m = []) /\ (nextBackEnd it = true -> b = []) /\
  (from_mem (keyOrigin it) = true -> nextMemEnd it = false) /\
  (from_back (keyOrigin it) = true -> nextBackEnd it = false).

(** What is left behind the current entry. *)
Definition pend (adv : bool) (l : kvs) : kvs := if adv then tail l else l.
Definition rest_of (it : JoinIter) (m b : kvs) : kvs :=
  live (merge (pend (from_mem (keyOrigin it)) m) (pend (from_back (keyOrigin it)) b)).

Definition open (e : bool) : nat := if e then 0 else 1.
Definition size_of (it : JoinIter) (m b : kvs) : nat :=
  length m + length b + open (nextMemEnd it) + open (nextBackEnd it).

Definition j_ended (it : JoinIter) : Prop :=
  cursor (memdb it) [] /\ cursor (backend it) [] /\ nextMemEnd it = true /\ nextBackEnd it = true.

(** Moving one side on, unless it has ended. *)
Lemma advance {I} `{StoreIterator I} (i : I) (adv e : bool) (l : kvs) :
  cursor i l -> (e = true -> l = []) -> (adv = true -> e = false) ->
  exists N i' e', (forall fuel, (N <= fuel)%nat ->
      (if adv && negb e then let* '(ok, i) := Next fuel i in Ok (i, negb ok) else Ok (i, e)) = Ok (i', e')) /\
    cursor i' (pend adv l) /\ (e' = true -> pend adv l = []) /\
    (length (pend adv l) + open e' + (if adv then 1 else 0) <= length l + open e)%nat.
Proof.
  intros Hc He Ha. destruct adv; cbn [pend].
  - rewrite Ha by reflexivity. destruct (Next_law i l Hc) as (N & i' & E & Hc'). exists N, i', (negb (nonempty (tail l))).
    split; [intros fuel Hf; rewrite (E fuel Hf); reflexivity|]. split; [exact Hc'|].
    destruct l as [|x [|y l]]; cbn; (split; [congruence || reflexivity | lia]).
  - exists 0%nat, i, e. split; [reflexivity|]. split; [exact Hc|]. split; [exact He | lia].
Qed.

Definition step_ok (it' : JoinIter) (m b : kvs) : Prop :=
  j_live it' m b /\ live (merge m b) = live [(j_key it', j_value it')] ++ rest_of it' m b.

(** The choice between the heads of the two sides. *)
Lemma choose_step (mm : M) (bb : B) m b : cursor mm m -> cursor bb b -> keyed m -> keyed b ->
  let set k v o := mkJoin bb mm k v o false false in
  let cmp := Compare (Key mm) (Key bb) in
  exists it', (if cmp =? -1 then Ok (true, set (Key mm) (Value mm) FromMem)
     else if cmp =? 0 then Ok (true, set (Key mm) (Value mm) FromBoth)
     else if cmp =? 1 then Ok (true, set (Key bb) (Value bb) FromBack) else Panic) = Ok (true, it') /\
    step_ok it' m b /\ nextMemEnd it' = false /\ nextBackEnd it' = false.
Proof.
  intros Hm Hb Km Kb set cmp. destruct (cursor_law mm m Hm) as (Ekm & Evm & _). destruct (cursor_law bb b Hb) as (Ekb & Evb & _).
  assert (Hlive : forall k v o, j_live (set k v o) m b) by (intros k v o; repeat split; try assumption; discriminate).
  assert (Hmerge : forall k v o, cmp = match o with FromMem => -1 | FromBoth => 0 | FromBack => 1 end ->
    (k, v) = match o with FromBack => head_kv b | _ => head_kv m end -> step_ok (set k v o) m b).
  { intros k v o Ec Ekv. split; [apply Hlive|]. unfold rest_of. cbn [set keyOrigin j_key j_value]. rewrite Ekv. unfold cmp in Ec. rewrite Ekm, Ekb in Ec.
    destruct m as [|[mk mv] m], b as [|[bk bv] b]; cbn [head_kv fst] in Ec.
    - destruct o; reflexivity.
    - assert (Hlt : Compare [] bk < 0) by (apply Compare_empty, (Forall_inv Kb)). destruct o; try lia. reflexivity.
    - assert (Hlt : Compare [] mk < 0) by (apply Compare_empty, (Forall_inv Km)). rewrite Compare_flip in Ec. destruct o; try lia.
      cbn [from_mem from_back pend tail]. rewrite merge_nil_r. reflexivity.
    - cbn [merge]. rewrite Ec. destruct o; cbn [Z.ltb Z.compare Z.eqb from_mem from_back pend tail head_kv].
      + apply (live_app [(mk, mv)]). 
      + apply (live_app [(bk, bv)]).
      + apply (live_app [(mk, mv)]). }
  destruct (Compare_sign (Key mm) (Key bb)) as [E|[E|E]]; fold cmp in E; rewrite E; cbn [Z.eqb Z.opp Pos.eqb]; eexists; (split; [reflexivity|]);
    (split; [apply Hmerge; rewrite ?Ekm, ?Evm, ?Ekb, ?Evb; [exact E|]; symmetry; apply surjective_pairing | auto]).
Qed.

Lemma j_next_spec it m b : j_live it m b -> keyed m -> keyed b ->
  exists N it' ok, (forall fuel, (N <= fuel)%nat -> j_next fuel it = Ok (ok, it')) /\
    let m1 := pend (from_mem (keyOrigin it)) m in
    let b1 := pend (from_back (keyOrigin it)) b in
    if ok : bool then step_ok it' m1 b1 /\ (size_of it' m1 b1 < size_of it m b)%nat
    else rest_of it m b = [] /\ j_ended it' /\ j_key it' = [] /\ j_value it' = [].
Proof.
  intros (Hm & Hb & Em & Eb & Om & Ob) Km Kb.
  destruct (advance (memdb it) (from_mem (keyOrigin it)) (nextMemEnd it) m Hm Em Om) as (N1 & mm & em & H1 & Hm1 & Em1 & S1).
  destruct (advance (backend it) (from_back (keyOrigin it)) (nextBackEnd it) b Hb Eb Ob) as (N2 & bb & eb & H2 & Hb1 & Eb1 & S2).
  unfold rest_of. set (m1 := pend (from_mem (keyOrigin it)) m) in *. set (b1 := pend (from_back (keyOrigin it)) b) in *.
  assert (Km1 : keyed m1) by (unfold m1, pend; destruct (from_mem _), m; try assumption; exact (Forall_inv_tail Km)).
  assert (Kb1 : keyed b1) by (unfold b1, pend; destruct (from_back _), b; try assumption; exact (Forall_inv_tail Kb)).
  assert (Hs : (length m1 + length b1 + open em + open eb < size_of it m b)%nat).
  { unfold size_of. destruct (keyOrigin it); cbn [from_mem from_back] in *; lia. }
  destruct (cursor_law mm m1 Hm1) as (Ekm & Evm & Erm). destruct (cursor_law bb b1 Hb1) as (Ekb & Evb & Erb).
  assert (Hrun : forall fuel, (Nat.max N1 N2 <= fuel)%nat -> j_next fuel it =
    let set k v o := mkJoin bb mm k v o em eb in
    if eb then if em then Ok (false, set [] [] (keyOrigin it)) else Ok (true, set (Key mm) (Value mm) FromMem)
    else if em then Ok (true, set (Key bb) (Value bb) FromBack)
    else let cmp := Compare (Key mm) (Key bb) in
      if cmp =? -1 then Ok (true, set (Key mm) (Value mm) FromMem)
      else if cmp =? 0 then Ok (true, set (Key mm) (Value mm) FromBoth)
      else if cmp =? 1 then Ok (true, set (Key bb) (Value bb) FromBack) else Panic).
  { intros fuel Hf. unfold j_next. rewrite H1 by lia. cbn [res_bind]. rewrite H2 by lia. cbn [res_bind].
    unfold j_Error. cbn [backend memdb]. rewrite Erm, Erb. reflexivity. }
  destruct eb, em.
  - exists (Nat.max N1 N2), (mkJoin bb mm [] [] (keyOrigin it) true true), false. split; [exact Hrun|].
    rewrite (Em1 eq_refl), (Eb1 eq_refl) in *. repeat split; assumption || reflexivity.
  - exists (Nat.max N1 N2), (mkJoin bb mm (Key mm) (Value mm) FromMem false true), true. split; [exact Hrun|].
    split; [|exact Hs]. split; [repeat split; auto; discriminate|]. unfold rest_of. cbn [j_key j_value keyOrigin from_mem from_back pend].
    rewrite (Eb1 eq_refl), !merge_nil_r, Ekm, Evm, <- surjective_pairing. apply live_head.
  - exists (Nat.max N1 N2), (mkJoin bb mm (Key bb) (Value bb) FromBack true false), true. split; [exact Hrun|].
    split; [|exact Hs]. split; [repeat split; auto; discriminate|]. unfold rest_of. cbn [j_key j_value keyOrigin from_mem from_back pend].
    rewrite (Em1 eq_refl), Ekb, Evb, <- surjective_pairing. apply live_head.
  - destruct (choose_step mm bb m1 b1 Hm1 Hb1 Km1 Kb1) as (it' & E & Hok & F1 & F2). exists (Nat.max N1 N2), it', true.
    split; [intros fuel Hf; rewrite Hrun by exact Hf; exact E|]. split; [exact Hok|]. unfold size_of. rewrite F1, F2. exact Hs.
Qed.

(** *** Skipping deleted keys *)

Definition j_cursor (it : JoinIter) (l : kvs) : Prop :=
  j_key it = fst (head_kv l) /\ j_value it = snd (head_kv l) /\
  match l with
  | [] => j_ended it \/ j_live it [] []
  | (k, v) :: r => zlen v <> 0 /\ exists m b, keyed m /\ keyed b /\ j_live it m b /\ r = rest_of it m b
  end.

Lemma pend_keyed adv l : keyed l -> keyed (pend adv l).
Proof. intros Hl. destruct adv, l; try assumption. exact (Forall_inv_tail Hl). Qed.

Lemma skip_deleted_spec n : forall it m b, (size_of it m b < n)%nat -> j_live it m b -> keyed m -> keyed b ->
  exists N it', (forall fuel, (N <= fuel)%nat -> skip_deleted fuel it =
      Ok (nonempty (live [(j_key it, j_value it)] ++ rest_of it m b), it')) /\
    j_cursor it' (live [(j_key it, j_value it)] ++ rest_of it m b).
Proof.
  induction n as [|n IH]; intros it m b Hn Hj Km Kb; [lia|]. rewrite live_one. cbn [snd].
  destruct (zlen (j_value it) =? 0) eqn:Ev; cbn [app nonempty].
  - destruct (j_next_spec it m b Hj Km Kb) as (N & it1 & ok & E & Hok). destruct ok; cbv zeta in Hok.
    + destruct Hok as [[Hj1 Hl1] Hs]. destruct (IH it1 _ _ (Nat.lt_le_trans _ _ _ Hs (proj1 (Nat.lt_succ_r _ _) Hn)) Hj1 (pend_keyed _ m Km) (pend_keyed _ b Kb))
        as (N1 & it2 & E1 & Hc).
      rewrite <- Hl1 in E1, Hc. exists (S (Nat.max N N1)), it2. split; [|exact Hc]. intros [|f] Hf; [lia|]. cbn [skip_deleted].
      rewrite Ev, E by lia. cbn [res_bind]. apply E1. lia.
    + destruct Hok as (Hr & Hend & Hk & Hv). rewrite Hr. exists (S N), it1. split.
      * intros [|f] Hf; [lia|]. cbn [skip_deleted]. rewrite Ev, E by lia. reflexivity.
      * split; [exact Hk|]. split; [exact Hv|]. left; exact Hend.
  - exists 1%nat, it. split.
    + intros [|f] Hf; [lia|]. cbn [skip_deleted]. rewrite Ev. reflexivity.
    + split; [reflexivity|]. split; [reflexivity|]. split; [apply Z.eqb_neq, Ev|]. exists m, b. auto.
Qed.

Lemma j_Next_live it m b : j_live it m b -> keyed m -> keyed b ->
  exists N it', (forall fuel, (N <= fuel)%nat -> j_Next fuel it = Ok (nonempty (rest_of it m b), it')) /\
    j_cursor it' (rest_of it m b).
Proof.
  intros Hj Km Kb. destruct (j_next_spec it m b Hj Km Kb) as (N & it1 & ok & E & Hok). destruct ok; cbv zeta in Hok.
  - destruct Hok as [[Hj1 Hl1] _].
    destruct (skip_deleted_spec _ it1 _ _ (Nat.lt_succ_diag_r _) Hj1 (pend_keyed _ m Km) (pend_keyed _ b Kb)) as (N1 & it2 & E1 & Hc).
    rewrite <- Hl1 in E1, Hc. exists (Nat.max N N1), it2. split; [|exact Hc]. intros fuel Hf. unfold j_Next. rewrite E by lia. cbn [res_bind]. apply E1. lia.
  - destruct Hok as (Hr & Hend & Hk & Hv). rewrite Hr. exists N, it1. split.
    + intros fuel Hf. unfold j_Next. rewrite E by lia. reflexivity.
    + split; [exact Hk|]. split; [exact Hv|]. left; exact Hend.
Qed.

Lemma j_Next_spec it l : j_cursor it l ->
  exists N it', (forall fuel, (N <= fuel)%nat -> j_Next fuel it = Ok (nonempty (tail l), it')) /\ j_cursor it' (tail l).
Proof.
  intros (Hk & Hv & Hc). destruct l as [|[k v] r].
  - destruct Hc as [(Hm & Hb & Em & Eb)|Hj].
    + destruct (cursor_law _ _ Hm) as (_ & _ & Erm). destruct (cursor_law _ _ Hb) as (_ & _ & Erb).
      exists 0%nat, (mkJoin (backend it) (memdb it) [] [] (keyOrigin it) true true). split; [|repeat split; left; repeat split; assumption].
      intros fuel _. unfold j_Next, j_next. rewrite Em, Eb, !andb_false_r. cbn [res_bind]. unfold j_Error. cbn [backend memdb].
      rewrite Erm, Erb. reflexivity.
    + destruct (j_Next_live it [] [] Hj) as (N & it' & E & Hc'); [constructor|constructor|].
      assert (Hr : rest_of it [] [] = []) by (unfold rest_of, pend; destruct (from_mem _), (from_back _); reflexivity).
      rewrite Hr in *. exists N, it'. auto.
  - destruct Hc as (_ & m & b & Km & Kb & Hj & ->). exact (j_Next_live it m b Hj Km Kb).
Qed.

Definition j_over (it : JoinIter) (l : kvs) : Prop :=
  j_key it = [] /\ j_value it = [] /\ keyOrigin it = FromMem /\ nextMemEnd it = false /\ nextBackEnd it = false /\
  exists m b, over (memdb it) m /\ over (backend it) b /\ keyed m /\ keyed b /\ l = join m b.

Lemma j_First_spec it l : j_over it l ->
  exists N it', (forall fuel, (N <= fuel)%nat -> j_First fuel it = Ok (nonempty l, it')) /\ j_cursor it' l.
Proof.
  intros (Hk & Hv & Ho & Em & Eb & m & b & Hm & Hb & Km & Kb & ->).
  destruct (First_law _ _ Hm) as (N1 & mm & E1 & Hm1). destruct (First_law _ _ Hb) as (N2 & bb & E2 & Hb1).
  destruct (cursor_law mm m Hm1) as (Ekm & Evm & Erm). destruct (cursor_law bb b Hb1) as (Ekb & Evb & Erb).
  assert (Hfirst : exists it1 ok, (forall fuel, (Nat.max N1 N2 <= fuel)%nat -> j_first fuel it = Ok (ok, it1)) /\
    if ok : bool then step_ok it1 m b else m = [] /\ b = [] /\ j_live it1 [] [] /\ j_key it1 = [] /\ j_value it1 = []).
  { assert (Hlive : forall k v o, j_live (mkJoin bb mm k v o false false) m b) by (intros; repeat split; try assumption; discriminate).
    destruct m as [|[mk mv] m], b as [|[bk bv] b].
    - exists (mkJoin bb mm [] [] FromMem false false), false. split; [|auto].
      intros fuel Hf. unfold j_first. rewrite E2 by lia. cbn [res_bind]. rewrite E1 by lia. cbn [res_bind nonempty].
      unfold j_Error. cbn [backend memdb]. rewrite Erm, Erb, Em, Eb, Ho, Hk, Hv. reflexivity.
    - exists (mkJoin bb mm bk bv FromBack false false), true. split; [|split; [apply Hlive | apply (live_app [(bk, bv)])]].
      intros fuel Hf. unfold j_first. rewrite E2 by lia. cbn [res_bind]. rewrite E1 by lia. cbn [res_bind nonempty].
      unfold j_Error. cbn [backend memdb]. rewrite Erm, Erb, Em, Eb, Ekb, Evb. reflexivity.
    - exists (mkJoin bb mm mk mv FromMem false false), true. split; [|split; [apply Hlive | unfold rest_of; cbn [keyOrigin from_mem from_back pend tail]; rewrite !merge_nil_r;
      apply (live_app [(mk, mv)])]].
      intros fuel Hf. unfold j_first. rewrite E2 by lia. cbn [res_bind]. rewrite E1 by lia. cbn [res_bind nonempty].
      unfold j_Error. cbn [backend memdb]. rewrite Erm, Erb, Em, Eb, Ekm, Evm. reflexivity.
    - destruct (choose_step mm bb _ _ Hm1 Hb1 Km Kb) as (it1 & E & Hok & _). exists it1, true. split; [|exact Hok].
      intros fuel Hf. unfold j_first. rewrite E2 by lia. cbn [res_bind]. rewrite E1 by lia. cbn [res_bind nonempty].
      unfold j_Error. cbn [backend memdb]. rewrite Erm, Erb, Em, Eb. cbn [is_some negb]. rewrite <- E.
      destruct (Compare_sign (Key mm) (Key bb)) as [Ec|[Ec|Ec]]; rewrite Ec; reflexivity. }
  destruct Hfirst as (it1 & ok & E & Hok). destruct ok.
  - destruct Hok as [Hj Hl]. destruct (skip_deleted_spec _ it1 _ _ (Nat.lt_succ_diag_r _) Hj Km Kb) as (N & it2 & E' & Hc).
    rewrite <- Hl in E', Hc. exists (Nat.max (Nat.max N1 N2) N), it2. split; [|exact Hc].
    intros fuel Hf. unfold j_First. rewrite E by lia. cbn [res_bind]. apply E'. lia.
  - destruct Hok as (-> & -> & Hj & Hk1 & Hv1). exists (Nat.max N1 N2), it1. split; [|split; [exact Hk1 | split; [exact Hv1 | right; exact Hj]]].
    intros fuel Hf. unfold j_First. rewrite E by lia. reflexivity.
Qed.

#[global] Instance join_iterator : StoreIterator JoinIter.
Proof.
  refine {| First := j_First; Next := j_Next; Key := j_key; Value := j_value; Error := j_Error;
            over := j_over; cursor := j_cursor |}.
  - exact j_First_spec.
  - exact j_Next_spec.
  - intros it l (Hk & Hv & Hc). split; [exact Hk|]. split; [exact Hv|].
    assert (He : exists m b, cursor (memdb it) m /\ cursor (backend it) b).
    { destruct l as [|[k v] r]; [destruct Hc as [(? & ? & _)|(? & ? & _)]; eauto | destruct Hc as (_ & m & b & _ & _ & (? & ? & _) & _); eauto]. }
    destruct He as (m & b & Hm & Hb). unfold j_Error. destruct (cursor_law _ _ Hm) as (_ & _ & ->). destruct (cursor_law _ _ Hb) as (_ & _ & ->). reflexivity.
Defined.

End Join.

(** ** Draining an iterator

    [for has := iter.First(); has; has = iter.Next() { ... iter.Key(), iter.Value() ... }],
    as the callers of an iterator do. *)

Section Drain.
Context {I : Type} `{HI : StoreIterator I}.

Fixpoint drain_loop (n fuel : nat) (has : bool) (it : I) : res kvs :=
  match n with
  | O => Panic
  | S n =>
      if has then
        let* '(has', it') := Next fuel it in
        let* r := drain_loop n fuel has' it' in
        Ok ((Key it, Value it) :: r)
      else Ok []
  end.
Definition drain (n fuel : nat) (it : I) : res kvs := let* '(has, it) := First fuel it in drain_loop n fuel has it.

Lemma drain_loop_spec l : forall it, cursor it l ->
  exists N, forall n fuel, (length l < n)%nat -> (N <= fuel)%nat -> drain_loop n fuel (nonempty l) it = Ok l.
Proof.
  induction l as [|[k v] l IH]; intros it Hc.
  - exists 0%nat. intros [|n] fuel Hn _; [lia | reflexivity].
  - destruct (Next_law it _ Hc) as (N & it' & E & Hc'). destruct (IH it' Hc') as (N' & E'). destruct (cursor_law it _ Hc) as (Ek & Ev & _).
    exists (Nat.max N N'). intros [|n] fuel Hn Hf; [lia|]. cbn [drain_loop nonempty]. rewrite E by lia. cbn [res_bind tail].
    rewrite E' by (cbn in Hn; lia). cbn [res_bind]. rewrite Ek, Ev. reflexivity.
Qed.

Lemma drain_spec it l : over it l ->
  exists N, forall n fuel, (length l < n)%nat -> (N <= fuel)%nat -> drain n fuel it = Ok l.
Proof.
  intros Ho. destruct (First_law it l Ho) as (N & it' & E & Hc). destruct (drain_loop_spec l it' Hc) as (N' & E').
  exists (Nat.max N N'). intros n fuel Hn Hf. unfold drain. rewrite E by lia. cbn [res_bind]. apply E'; lia.
Qed.

End Drain.

(** ** The merged view as a map *)

Section View.
Context `{HCmp : Comparer}.
Implicit Types (m b l : kvs) (k : list byte).

(** Reading a key through the write set [m] on top of [b]. *)
Definition overlay_get m b k : option (list byte) :=
  match get_kv k m with
  | Some v => value_of v
  | None => match get_kv k b with Some v => value_of v | None => None end
  end.

Lemma get_above k k' l : kv_sorted l -> Forall (fun e => lt_key k' (fst e)) l -> ~ lt_key k' k -> get_kv k l = None.
Proof.
  intros _ Hl Hk. induction Hl as [|[k0 v0] l H0 _ IH]; [reflexivity|]. cbn [get_kv]. rewrite decide_False; [exact IH|].
  intros ->. exact (Hk H0).
Qed.

Lemma sorted_inv e l : kv_sorted (e :: l) -> kv_sorted l /\ Forall (fun e' => lt_key (fst e) (fst e')) l.
Proof. intros H. apply StronglySorted_inv in H. exact H. Qed.

Lemma merge_get m : forall b k, kv_sorted m -> kv_sorted b ->
  get_kv k (merge m b) = match get_kv k m with Some v => Some v | None => get_kv k b end.
Proof.
  induction m as [|[mk mv] m IHm]; intros b k Hm Hb; [reflexivity|]. apply sorted_inv in Hm as [Hm Hma]. cbn [fst] in Hma.
  induction b as [|[bk bv] b IHb]; [rewrite merge_nil_r; destruct (get_kv _ _); reflexivity|].
  pose proof (sorted_inv _ _ Hb) as [Hb' Hba]. cbn [fst] in Hba. cbn [merge].
  destruct (Z.ltb_spec (Compare mk bk) 0) as [Hlt|Hge]; [|destruct (Z.eqb_spec (Compare mk bk) 0) as [He|Hne]].
  - cbn [get_kv]. case_decide; [reflexivity|]. rewrite IHm by assumption. reflexivity.
  - apply Compare_eq in He. subst bk. cbn [get_kv]. case_decide; [reflexivity|]. rewrite IHm by assumption. reflexivity.
  - change ((fix merge_b (b : kvs) : kvs := _) b) with (merge ((mk, mv) :: m) b).
    cbn [get_kv] in IHb |- *. destruct (decide (bk = k)) as [Hk|Hk].
    + subst k. rewrite decide_False by (intros ->; apply Hne, Compare_eq; reflexivity).
      rewrite (get_above bk mk m Hm Hma); [reflexivity|]. unfold lt_key. lia.
    + apply IHb, Hb'.
Qed.

Lemma live_get k l : kv_sorted l -> get_kv k (live l) = match get_kv k l with Some v => value_of v | None => None end.
Proof.
  induction l as [|[k0 v0] l IH]; intros Hs; [reflexivity|]. apply sorted_inv in Hs as [Hs Ha]. cbn [fst] in Ha.
  change (live ((k0, v0) :: l)) with (live ([(k0, v0)] ++ l)). rewrite live_app, live_one. cbn [snd get_kv].
  destruct (decide (k0 = k)) as [Hk|Hk].
  - subst k0. unfold value_of at 1. destruct (zlen v0 =? 0) eqn:E; cbn [app get_kv].
    + rewrite (IH Hs), (get_above k k l Hs Ha (lt_key_irrefl k)). reflexivity.
    + rewrite decide_True by reflexivity. reflexivity.
  - destruct (zlen v0 =? 0); cbn [app get_kv]; rewrite ?decide_False by exact Hk; apply IH, Hs.
Qed.

Lemma merge_above k m b : Forall (fun e => lt_key k (fst e)) m -> Forall (fun e => lt_key k (fst e)) b ->
  Forall (fun e => lt_key k (fst e)) (merge m b).
Proof.
  revert b. induction m as [|[mk mv] m IHm]; intros b Hm Hb; [exact Hb|].
  induction b as [|[bk bv] b IHb]; [exact Hm|]. cbn [merge]. pose proof (Forall_inv Hm). pose proof (Forall_inv_tail Hm).
  pose proof (Forall_inv Hb). pose proof (Forall_inv_tail Hb). repeat case_match; constructor; auto.
Qed.

Lemma lt_key_trans k1 k2 k3 : lt_key k1 k2 -> lt_key k2 k3 -> lt_key k1 k3.
Proof. apply Compare_trans. Qed.

Lemma merge_sorted m : forall b, kv_sorted m -> kv_sorted b -> kv_sorted (merge m b).
Proof.
  induction m as [|[mk mv] m IHm]; intros b Hm Hb; [exact Hb|]. pose proof (sorted_inv _ _ Hm) as [Hm' Hma]. cbn [fst] in Hma.
  induction b as [|[bk bv] b IHb]; [exact Hm|]. pose proof (sorted_inv _ _ Hb) as [Hb' Hba]. cbn [fst] in Hba. cbn [merge].
  destruct (Z.ltb_spec (Compare mk bk) 0) as [Hlt|Hge]; [|destruct (Z.eqb_spec (Compare mk bk) 0) as [He|Hne]].
  - constructor; [apply IHm; assumption|]. apply merge_above; [exact Hma|]. constructor; [exact Hlt|].
    eapply Forall_impl; [exact Hba|]. intros e. apply lt_key_trans, Hlt.
  - apply Compare_eq in He. subst bk. constructor; [apply IHm; assumption | apply merge_above; assumption].
  - change ((fix merge_b (b : kvs) : kvs := _) b) with (merge ((mk, mv) :: m) b).
    assert (Hlt : lt_key bk mk) by (apply compare_neq0; [unfold lt_key; lia | exact Hne]).
    constructor; [apply IHb, Hb'|]. apply merge_above; [|exact Hba]. constructor; [exact Hlt|].
    eapply Forall_impl; [exact Hma|]. intros e. apply lt_key_trans, Hlt.
Qed.

Lemma live_sorted l : kv_sorted l -> kv_sorted (live l).
Proof.
  induction 1 as [|e l _ IH Ha]; [constructor|]. unfold live. cbn [List.filter]. destruct (negb _); [|exact IH].
  constructor; [exact IH|]. apply List.Forall_forall. intros x Hx. apply filter_In in Hx as [Hx _].
  rewrite List.Forall_forall in Ha. apply Ha, Hx.
Qed.

Lemma join_get m b k : kv_sorted m -> kv_sorted b -> get_kv k (join m b) = overlay_get m b k.
Proof.
  intros Hm Hb. unfold join, overlay_get. rewrite live_get by (apply merge_sorted; assumption). rewrite merge_get by assumption.
  destruct (get_kv k m); reflexivity.
Qed.

Lemma join_sorted m b : kv_sorted m -> kv_sorted b -> kv_sorted (join m b).
Proof. intros Hm Hb. apply live_sorted, merge_sorted; assumption. Qed.

End View.

(** A [JoinIter] over an iterator of the write set [m] and one of the store below
    [b] yields, in key order, exactly the keys with a value in [m], or in [b] when [m] does not
    mention them, each once and with that value: deleted keys are left out, and
    the write set wins. Draining it terminates. *)
Theorem join_iterator_enumerates `{HCmp : Comparer} {B M : Type} `{HB : StoreIterator B} `{HM : StoreIterator M}
    (mi : M) (bi : B) m b :
  over mi m -> over bi b -> keyed m -> keyed b -> kv_sorted m -> kv_sorted b ->
  exists l N, (forall n fuel, (N <= n)%nat -> (N <= fuel)%nat -> drain n fuel (NewJoinIter mi bi) = Ok l) /\
    kv_sorted l /\ forall k, get_kv k l = overlay_get m b k.
Proof.
  intros Hm Hb Km Kb Sm Sb. exists (join m b).
  destruct (drain_spec (NewJoinIter mi bi) (join m b)) as (N & E).
  { repeat (split; [reflexivity|]). exists m, b. auto. }
  exists (Nat.max N (S (length (join m b)))). split; [intros n fuel Hn Hf; apply E; lia|].
  split; [apply join_sorted; assumption | intros k; apply join_get; assumption].
Qed.
