(* ===== verification/Overlay.v ===== *)
(** * Block and transaction caches

    [OverlayDB] of [core/store/overlaydb/overlaydb.go] collects the writes of a block on top of
    the persistent store; [CacheDB] of [smartcontract/storage/cachedb.go] collects those of a
    transaction on top of the block's.  Both keep their writes in a [MemDB].  The
    persistent store (LevelDB) is a parameter. *)

From stdpp Require Import sorting.
From S2P Require Import Prelude MemDb MemDbTheory MemDbSpec StoreIter.

(** ** The persistent store *)

(** [common.ErrNotFound] *)
Definition ErrNotFound : gerror := "not found".

(** [PersistStore]: [content] is what the store holds, [batched] the writes of the
    open batch ([None] deletes).  [NewIterator prefix] iterates over the keys that
    start with [prefix]. *)
Class PersistStore (S : Type) `{HCmp : Comparer} := {
  store_Get : S -> list byte -> res (list byte);
  BatchPut : list byte -> list byte -> S -> S;
  BatchDelete : list byte -> S -> S;
  BatchCommit : S -> res S;
  SIter : Type;
  SIter_ops :: StoreIterator SIter;
  store_NewIterator : S -> list byte -> SIter;
  content : S -> list byte -> option (list byte);
  batched : S -> list (list byte * option (list byte));
  store_Get_law s k : store_Get s k = match content s k with Some v => Ok v | None => Err ErrNotFound end;
  BatchPut_law s k v : content (BatchPut k v s) = content s /\ batched (BatchPut k v s) = batched s ++ [(k, Some v)];
  BatchDelete_law s k : content (BatchDelete k s) = content s /\ batched (BatchDelete k s) = batched s ++ [(k, None)];
  BatchCommit_law s : exists s', BatchCommit s = Ok s' /\ batched s' = [] /\
    forall k, content s' k = foldl (fun o w => if decide (fst w = k) then snd w else o) (content s k) (batched s);
  store_NewIterator_law s pre : exists l, over (store_NewIterator s pre) l /\ kv_sorted l /\
    forall k, get_kv k l = if decide (pre `prefix_of` k) then content s k else None
}.

(** [util.BytesPrefix]: the range of the keys with a prefix. *)
Class PrefixRange `{HCmp : Comparer} := {
  BytesPrefix : list byte -> Range;
  BytesPrefix_start pre : Start (BytesPrefix pre) = Some pre;
  BytesPrefix_law pre k : pre `prefix_of` k <->
    0 <= Compare k pre /\ match Limit (BytesPrefix pre) with Some lim => Compare k lim < 0 | None => True end
}.

(** ** [OverlayDB] *)

Module Overlay.
Section Overlay.
Context `{HCmp : Comparer} `{HRand : Rand} `{HP : !PrefixRange} {S : Type} `{HS : !PersistStore S}.

Record OverlayDB := mkOverlay { store : S; memdb : MemDB; dbErr : option gerror }.

Definition NewOverlayDB (store : S) : OverlayDB := mkOverlay store NewMemDB None.

Definition with_mem (m : MemDB) (self : OverlayDB) : OverlayDB := mkOverlay (store self) m (dbErr self).

Definition Reset (self : OverlayDB) : res OverlayDB := let* m := MemDb.Reset (memdb self) in Ok (with_mem m self).
Definition Error (self : OverlayDB) : option gerror := dbErr self.
Definition SetError (err : option gerror) (self : OverlayDB) : OverlayDB := mkOverlay (store self) (memdb self) err.

(** The value or the error, and the overlay: an error is remembered. *)
Definition Get (key : list byte) (self : OverlayDB) : res ((option (list byte) + gerror) * OverlayDB) :=
  let* '(value, unknown) := MemDb.Get (memdb self) key in
  if negb unknown then Ok (inl value, self)
  else match store_Get (store self) key with
       | Ok value => Ok (inl (Some value), self)
       | Err err => if decide (err = ErrNotFound) then Ok (inl None, self)
                    else Ok (inr err, mkOverlay (store self) (memdb self) (Some err))
       | Panic => Panic
       end.

Definition Put (key value : list byte) (self : OverlayDB) : res OverlayDB :=
  let* m := MemDb.Put key value (memdb self) in Ok (with_mem m self).
Definition Delete (key : list byte) (self : OverlayDB) : res OverlayDB :=
  let* m := MemDb.Delete key (memdb self) in Ok (with_mem m self).

Definition CommitTo (self : OverlayDB) : res OverlayDB :=
  let* s := ForEach (fun key val s => Ok (if zlen val =? 0 then BatchDelete key s else BatchPut key val s))
              (memdb self) (store self) in
  Ok (mkOverlay s (memdb self) (dbErr self)).

Definition GetWriteSet (self : OverlayDB) : MemDB := memdb self.

(** What [ChangeHash] feeds to SHA-256, and the hash. *)
Definition change_bytes (self : OverlayDB) : res (list byte) :=
  ForEach (fun key val acc => Ok (acc ++ key ++ val)) (memdb self) [].
Definition ChangeHash (sha256 : list byte -> list byte) (self : OverlayDB) : res (list byte) :=
  let* b := change_bytes self in Ok (sha256 b).

Definition NewIterator (key : list byte) (self : OverlayDB) : @JoinIter SIter dbIter :=
  let backIter := store_NewIterator (store self) key in
  let memIter := StoreIter.NewIterator (memdb self) (Some (BytesPrefix key)) in
  NewJoinIter memIter backIter.

(** *** The overlay as a map *)

(** The overlay holds the writes [w] on top of its store. *)
Definition holds (self : OverlayDB) (w : kvs) : Prop := repr (memdb self) w.

Definition view (self : OverlayDB) (w : kvs) (k : list byte) : option (list byte) :=
  match get_kv k w with Some v => value_of v | None => content (store self) k end.

Lemma Get_view self w k : holds self w -> Get k self = Ok (inl (view self w k), self).
Proof.
  intros Hw. unfold Get, view. rewrite (Get_spec _ w k Hw). cbn [res_bind].
  destruct (get_kv k w) as [v|]; cbn [negb]; [reflexivity|]. rewrite store_Get_law.
  destruct (content (store self) k); [reflexivity|]. rewrite decide_True by reflexivity. reflexivity.
Qed.

Lemma Put_view self w k v : holds self w ->
  exists self', Put k v self = Ok self' /\ store self' = store self /\ holds self' (put_kv k v w).
Proof.
  intros Hw. destruct (Put_spec _ w k v Hw) as (m & E & Hm). unfold Put. rewrite E. eexists. split; [reflexivity|]. auto.
Qed.

Lemma Delete_view self w k : holds self w ->
  exists self', Delete k self = Ok self' /\ store self' = store self /\ holds self' (put_kv k [] w).
Proof. exact (Put_view self w k []). Qed.

Lemma view_put self self' w k v k' : store self' = store self ->
  view self' (put_kv k v w) k' = if decide (k = k') then value_of v else view self w k'.
Proof. intros Es. unfold view. rewrite get_put, Es. case_decide; reflexivity. Qed.

(** The batch [CommitTo] builds. *)
Definition writes (w : kvs) : list (list byte * option (list byte)) := map (fun e => (fst e, value_of (snd e))) w.

Lemma each_batch w : forall s,
  exists s', each (fun key val s => Ok (if zlen val =? 0 then BatchDelete key s else BatchPut key val s)) w s = Ok s' /\
    content s' = content s /\ batched s' = batched s ++ writes w.
Proof.
  induction w as [|[k v] w IH]; intros s; cbn [each writes map fst snd].
  - exists s. rewrite app_nil_r. auto.
  - cbn [res_bind]. unfold value_of. destruct (zlen v =? 0).
    + destruct (BatchDelete_law s k) as [Ec Eb]. destruct (IH (BatchDelete k s)) as (s' & E & Ec' & Eb').
      exists s'. rewrite Ec', Eb', Ec, Eb, <- app_assoc. auto.
    + destruct (BatchPut_law s k v) as [Ec Eb]. destruct (IH (BatchPut k v s)) as (s' & E & Ec' & Eb').
      exists s'. rewrite Ec', Eb', Ec, Eb, <- app_assoc. auto.
Qed.

Lemma apply_writes w k o : kv_sorted w ->
  foldl (fun o w => if decide (fst w = k) then snd w else o) o (writes w)
  = match get_kv k w with Some v => value_of v | None => o end.
Proof.
  revert o. induction w as [|[k0 v0] w IH]; intros o Hs; [reflexivity|]. apply sorted_inv in Hs as [Hs Ha]. cbn [fst] in Ha.
  change (writes ((k0, v0) :: w)) with ((k0, value_of v0) :: writes w). cbn [foldl fst snd get_kv]. rewrite IH by exact Hs.
  destruct (decide (k0 = k)) as [->|]; [|reflexivity]. rewrite (get_above k k w Hs Ha (lt_key_irrefl k)). reflexivity.
Qed.

(** Committing the batch makes the store what the overlay showed. *)
Lemma CommitTo_view self w : holds self w -> batched (store self) = [] ->
  exists self' s', CommitTo self = Ok self' /\ memdb self' = memdb self /\ content (store self') = content (store self) /\
    BatchCommit (store self') = Ok s' /\ forall k, content s' k = view self w k.
Proof.
  intros Hw Hb. unfold CommitTo. rewrite (ForEach_spec _ _ w _ Hw). destruct (each_batch w (store self)) as (s1 & -> & Ec & Eb).
  cbn [res_bind]. destruct (BatchCommit_law s1) as (s' & E & _ & Hc). eexists (mkOverlay s1 _ _), s'. split; [reflexivity|].
  split; [reflexivity|]. split; [exact Ec|]. split; [exact E|]. intros k. rewrite Hc, Ec, Eb, Hb. cbn [app].
  destruct Hw as [ns Hst]. apply apply_writes. exact (stores_sorted _ ns w Hst).
Qed.

Lemma each_bytes w : forall acc, each (fun key val acc => Ok (acc ++ key ++ val)) w acc
  = Ok (acc ++ concat (map (fun e => fst e ++ snd e) w)).
Proof.
  induction w as [|[k v] w IH]; intros acc; cbn [each map concat]; [rewrite app_nil_r; reflexivity|].
  cbn [res_bind fst snd]. rewrite IH, <- !app_assoc. reflexivity.
Qed.

Lemma change_bytes_spec self w : holds self w -> change_bytes self = Ok (concat (map (fun e => fst e ++ snd e) w)).
Proof. intros Hw. unfold change_bytes. rewrite (ForEach_spec _ _ w _ Hw). apply (each_bytes w []). Qed.

End Overlay.
End Overlay.

(** ** [CacheDB] *)

(** [DataEntryPrefix] values used here. *)
Definition ST_CONTRACT : byte := x04.
Definition ST_STORAGE : byte := x05.

Module Cache.
Section Cache.
Context `{HCmp : Comparer} `{HRand : Rand} `{HP : !PrefixRange} {S : Type} `{HS : !PersistStore S}.

(** [keyScratch] is a buffer; the list is its whole capacity. *)
Record CacheDB := mkCache { memdb : MemDB; backend : Overlay.OverlayDB (S := S); keyScratch : list byte }.

Definition NewCacheDB (store : Overlay.OverlayDB) : CacheDB := mkCache NewMemDB store [].

Definition Reset (self : CacheDB) : res CacheDB :=
  let* m := MemDb.Reset (memdb self) in Ok (mkCache m (backend self) (keyScratch self)).

(** A slice of [n] bytes, in the buffer if it is large enough; with the buffer. *)
Definition ensureBuffer (b : list byte) (n : Z) : list byte :=
  if zlen b <? n then repeat x00 (Z.to_nat n) else b.

(** [dst[0] = prefix; copy(dst[1:], key)]; the key is the first [len key + 1] bytes. *)
Definition makePrefixedKey (dst : list byte) (prefix : byte) (key : list byte) : list byte * list byte :=
  let n := zlen key + 1 in
  let dst := ensureBuffer dst n in
  let dst := prefix :: key ++ drop (Z.to_nat n) dst in
  (take (Z.to_nat n) dst, dst).

(** The write to the block cache for one entry. *)
Definition commit_entry (key val : list byte) (b : Overlay.OverlayDB) : res (Overlay.OverlayDB (S := S)) :=
  if zlen val =? 0 then Overlay.Delete key b else Overlay.Put key val b.
Definition Commit (self : CacheDB) : res CacheDB :=
  let* b := ForEach commit_entry (memdb self) (backend self) in Ok (mkCache (memdb self) b (keyScratch self)).

Definition put (prefix : byte) (key value : list byte) (self : CacheDB) : res CacheDB :=
  let '(pkey, scratch) := makePrefixedKey (keyScratch self) prefix key in
  let* m := MemDb.Put pkey value (memdb self) in Ok (mkCache m (backend self) scratch).
Definition Put (key value : list byte) (self : CacheDB) : res CacheDB := put ST_STORAGE key value self.

Definition get (prefix : byte) (key : list byte) (self : CacheDB) : res ((option (list byte) + gerror) * CacheDB) :=
  let '(pkey, scratch) := makePrefixedKey (keyScratch self) prefix key in
  let* '(value, unknown) := MemDb.Get (memdb self) pkey in
  if unknown : bool then
    let* '(r, b) := Overlay.Get pkey (backend self) in Ok (r, mkCache (memdb self) b scratch)
  else Ok (inl value, mkCache (memdb self) (backend self) scratch).
Definition Get (key : list byte) (self : CacheDB) : res ((option (list byte) + gerror) * CacheDB) := get ST_STORAGE key self.

Definition delete (prefix : byte) (key : list byte) (self : CacheDB) : res CacheDB :=
  let '(pkey, scratch) := makePrefixedKey (keyScratch self) prefix key in
  let* m := MemDb.Delete pkey (memdb self) in Ok (mkCache m (backend self) scratch).
Definition Delete (key : list byte) (self : CacheDB) : res CacheDB := delete ST_STORAGE key self.

Definition NewIterator (key : list byte) (self : CacheDB) : @JoinIter (@JoinIter SIter dbIter) dbIter :=
  let pkey := ST_STORAGE :: key in
  let backIter := Overlay.NewIterator pkey (backend self) in
  let memIter := StoreIter.NewIterator (memdb self) (Some (BytesPrefix pkey)) in
  NewJoinIter memIter backIter.

(** [Iter.Key] removes the prefix. *)
Definition Iter_Key (i : @JoinIter (@JoinIter SIter dbIter) dbIter) : list byte :=
  match j_key i with [] => [] | _ :: key => key end.

(** *** The cache as a map *)

Lemma makePrefixedKey_spec dst prefix key : fst (makePrefixedKey dst prefix key) = prefix :: key.
Proof.
  unfold makePrefixedKey. cbn [fst]. change (prefix :: key ++ ?l) with ((prefix :: key) ++ l).
  replace (Z.to_nat (zlen key + 1)) with (length (prefix :: key)) by (unfold zlen; cbn [length]; lia). apply take_app_length.
Qed.

(** The writes [w] of the transaction on top of the writes [u] of the block. *)
Definition holds (self : CacheDB) (w u : kvs) : Prop := repr (memdb self) w /\ Overlay.holds (backend self) u.
Definition view (self : CacheDB) (w u : kvs) (k : list byte) : option (list byte) :=
  match get_kv k w with Some v => value_of v | None => Overlay.view (backend self) u k end.

Lemma get_view self w u p k : holds self w u ->
  exists self', get p k self = Ok (inl (view self w u (p :: k)), self') /\ holds self' w u /\ backend self' = backend self.
Proof.
  intros [Hw Hu]. unfold get, view. pose proof (makePrefixedKey_spec (keyScratch self) p k) as Ek.
  destruct (makePrefixedKey _ _ _) as [pkey scratch]. cbn [fst] in Ek. subst pkey. rewrite (Get_spec _ w _ Hw). cbn [res_bind].
  destruct (get_kv (p :: k) w) as [v|]; cbn [res_bind].
  - eexists. split; [reflexivity|]. split; [split; assumption | reflexivity].
  - rewrite (Overlay.Get_view _ u _ Hu). cbn [res_bind]. eexists. split; [reflexivity|]. split; [split; assumption | reflexivity].
Qed.

Lemma put_view self w u p k v : holds self w u ->
  exists self', put p k v self = Ok self' /\ holds self' (put_kv (p :: k) v w) u /\ backend self' = backend self.
Proof.
  intros [Hw Hu]. unfold put. pose proof (makePrefixedKey_spec (keyScratch self) p k) as Ek.
  destruct (makePrefixedKey _ _ _) as [pkey scratch]. cbn [fst] in Ek. subst pkey. destruct (Put_spec _ w (p :: k) v Hw) as (m & -> & Hm).
  cbn [res_bind]. eexists. split; [reflexivity|]. split; [split; assumption | reflexivity].
Qed.

Lemma delete_view self w u p k : holds self w u ->
  exists self', delete p k self = Ok self' /\ holds self' (put_kv (p :: k) [] w) u /\ backend self' = backend self.
Proof. exact (put_view self w u p k []). Qed.

Lemma view_cput self self' w u p k v k' : backend self' = backend self ->
  view self' (put_kv (p :: k) v w) u k' = if decide (p :: k = k') then value_of v else view self w u k'.
Proof. intros Eb. unfold view. rewrite get_put, Eb. case_decide; reflexivity. Qed.

(** The block's writes after those of the transaction. *)
Definition committed (w u : kvs) : kvs := foldl (fun u e => put_kv (fst e) (snd e) u) u w.

Lemma value_of_nil (v : list byte) : (zlen v =? 0) = true -> v = [].
Proof. destruct v; [reflexivity|]. rewrite zlen_cons. intros E. apply Z.eqb_eq in E. pose proof (zlen_nonneg v). lia. Qed.

Lemma each_commit w : forall b u, Overlay.holds b u ->
  exists b', each commit_entry w b = Ok b' /\ Overlay.holds b' (committed w u) /\ Overlay.store b' = Overlay.store b.
Proof.
  induction w as [|[k v] w IH]; intros b u Hu; cbn [each committed foldl fst snd]; [eauto|].
  assert (Hstep : exists b1, commit_entry k v b = Ok b1 /\ Overlay.store b1 = Overlay.store b /\ Overlay.holds b1 (put_kv k v u)).
  { unfold commit_entry. destruct (zlen v =? 0) eqn:E; [rewrite (value_of_nil v E); apply Overlay.Delete_view | apply Overlay.Put_view]; exact Hu. }
  destruct Hstep as (b1 & -> & Es & Hb1). cbn [res_bind]. destruct (IH b1 _ Hb1) as (b' & E & Hb' & Es'). exists b'. rewrite Es'. auto.
Qed.

Lemma committed_get w : forall u k, kv_sorted w ->
  get_kv k (committed w u) = match get_kv k w with Some v => Some v | None => get_kv k u end.
Proof.
  induction w as [|[k0 v0] w IH]; intros u k Hs; [reflexivity|]. apply sorted_inv in Hs as [Hs Ha]. cbn [fst] in Ha.
  change (committed ((k0, v0) :: w) u) with (committed w (put_kv k0 v0 u)). rewrite IH, get_put by exact Hs. cbn [get_kv].
  case_decide as E; [|reflexivity]. subst k0. rewrite (get_above k k w Hs Ha (lt_key_irrefl k)). reflexivity.
Qed.

Lemma Commit_view self w u : holds self w u ->
  exists self', Commit self = Ok self' /\ memdb self' = memdb self /\ holds self' w (committed w u) /\
    Overlay.store (backend self') = Overlay.store (backend self) /\
    forall k, Overlay.view (backend self') (committed w u) k = view self w u k.
Proof.
  intros [Hw Hu]. unfold Commit. rewrite (ForEach_spec _ _ w _ Hw). destruct (each_commit w (backend self) u Hu) as (b' & -> & Hb' & Es).
  cbn [res_bind]. eexists. split; [reflexivity|]. split; [reflexivity|]. split; [split; assumption|]. split; [exact Es|].
  intros k. unfold view, Overlay.view. cbn [backend]. destruct Hw as [ns Hst]. rewrite committed_get by exact (stores_sorted _ ns w Hst).
  rewrite Es. destruct (get_kv k w); reflexivity.
Qed.

Lemma Reset_view self w u : holds self w u ->
  exists self', Reset self = Ok self' /\ holds self' [] u /\ backend self' = backend self.
Proof.
  intros [Hw Hu]. destruct (Reset_spec _ w Hw) as (m & E & Hm). unfold Reset. rewrite E. eexists. split; [reflexivity|].
  split; [split; assumption | reflexivity].
Qed.

End Cache.
End Cache.
