(* ===== verification/OverlaySpec.v ===== *)
(** * What the caches promise

    Both caches are maps over the store below; committing makes the lower layer
    equal to what the upper one showed; the hash of a block's writes and the order
    of iteration depend on the writes only. *)

From stdpp Require Import sorting.
From S2P Require Import Prelude MemDb MemDbTheory MemDbSpec StoreIter Overlay.

Section Canonical.
Context `{HCmp : Comparer}.

Lemma get_Some_above k v k' (l : kvs) : Forall (fun e => lt_key k' (fst e)) l -> get_kv k l = Some v -> lt_key k' k.
Proof.
  induction 1 as [|[k0 v0] l H0 _ IH]; [discriminate|]. cbn [get_kv]. case_decide as E; [subst; intros _; exact H0 | exact IH].
Qed.

(** A sorted list is determined by its lookups. *)
Lemma sorted_ext (l1 : kvs) : forall l2, kv_sorted l1 -> kv_sorted l2 -> (forall k, get_kv k l1 = get_kv k l2) -> l1 = l2.
Proof.
  induction l1 as [|[k1 v1] l1 IH]; intros [|[k2 v2] l2] H1 H2 Hg; [reflexivity| | |].
  - specialize (Hg k2). cbn [get_kv] in Hg. rewrite decide_True in Hg by reflexivity. discriminate.
  - specialize (Hg k1). cbn [get_kv] in Hg. rewrite decide_True in Hg by reflexivity. discriminate.
  - apply sorted_inv in H1 as [H1 A1], H2 as [H2 A2]. cbn [fst] in A1, A2.
    assert (E : k1 = k2).
    { pose proof (Hg k1) as G1. pose proof (Hg k2) as G2. cbn [get_kv] in G1, G2. rewrite (decide_True (P := k1 = k1)) in G1 by reflexivity.
      rewrite (decide_True (P := k2 = k2)) in G2 by reflexivity. destruct (decide (k1 = k2)) as [E|N]; [exact E|]. exfalso.
      rewrite decide_False in G1 by congruence. symmetry in G1. apply (get_Some_above _ _ _ _ A2) in G1.
      apply (get_Some_above _ _ _ _ A1) in G2. exact (lt_key_irrefl k1 (Compare_trans _ _ _ G2 G1)). }
    subst k2. assert (Ev : v1 = v2).
    { specialize (Hg k1). cbn [get_kv] in Hg. rewrite !decide_True in Hg by reflexivity. congruence. }
    subst v2. f_equal. apply IH; auto. intros k. destruct (decide (k1 = k)) as [->|N].
    + rewrite (get_above k k l1 H1 A1), (get_above k k l2 H2 A2) by apply lt_key_irrefl. reflexivity.
    + specialize (Hg k). cbn [get_kv] in Hg. rewrite !decide_False in Hg by exact N. exact Hg.
Qed.

(** *** Ranges *)

Lemma from_get k st l : kv_sorted l -> get_kv k (from st l) = if Compare k st <? 0 then None else get_kv k l.
Proof.
  induction l as [|[k0 v0] l IH]; intros Hs; [destruct (_ <? _); reflexivity|]. pose proof (sorted_inv _ _ Hs) as [Hs' Ha]. cbn [fst] in Ha.
  cbn [from]. destruct (Z.ltb_spec (Compare k0 st) 0) as [Hlt|Hge].
  - rewrite IH by exact Hs'. cbn [get_kv]. case_decide as E; [|reflexivity]. subst k0. rewrite (proj2 (Z.ltb_lt _ _)) by exact Hlt. reflexivity.
  - destruct (Z.ltb_spec (Compare k st) 0) as [Hk|Hk]; [|reflexivity]. cbn [get_kv]. rewrite decide_False by (intros ->; lia).
    apply (get_above k k0 l Hs' Ha). intros Hlt. pose proof (Compare_trans _ _ _ Hlt Hk). lia.
Qed.

Lemma below_get k lim l : kv_sorted l ->
  get_kv k (below lim l) = if match lim with Some lm => Compare k lm <? 0 | None => true end then get_kv k l else None.
Proof.
  intros Hs. destruct lim as [lm|]; [|destruct l as [|[? ?] ?]; reflexivity].
  induction l as [|[k0 v0] l IH]; [cbn; destruct (_ <? _); reflexivity|]. pose proof (sorted_inv _ _ Hs) as [Hs' Ha]. cbn [fst] in Ha.
  cbn [below]. destruct (Z.ltb_spec (Compare k0 lm) 0) as [Hlt|Hge].
  - cbn [get_kv]. case_decide as E; [subst k0; rewrite (proj2 (Z.ltb_lt _ _)) by exact Hlt; reflexivity|]. apply IH, Hs'.
  - cbn [get_kv]. destruct (Z.ltb_spec (Compare k lm) 0) as [Hk|Hk]; [|reflexivity]. rewrite decide_False by (intros ->; lia).
    symmetry. apply (get_above k k0 l Hs' Ha). intros Hlt. pose proof (Compare_trans _ _ _ Hlt Hk). lia.
Qed.

Lemma from_sorted st l : kv_sorted l -> kv_sorted (from st l).
Proof.
  induction l as [|[k0 v0] l IH]; intros Hs; [exact Hs|]. cbn [from]. destruct (_ <? _); [|exact Hs]. apply IH. exact (proj1 (sorted_inv _ _ Hs)).
Qed.

Lemma below_In e lim l : In e (below lim l) -> In e l.
Proof.
  destruct lim as [lm|]; [|destruct l as [|[? ?] ?]; auto].
  induction l as [|[k0 v0] l IH]; [auto|]. cbn [below]. destruct (_ <? _); [|intros []]. intros [<-|H]; [left; reflexivity | right; exact (IH H)].
Qed.

Lemma below_sorted lim l : kv_sorted l -> kv_sorted (below lim l).
Proof.
  intros Hs. destruct lim as [lm|]; [|destruct l as [|[? ?] ?]; exact Hs].
  induction l as [|[k0 v0] l IH]; [exact Hs|]. pose proof (sorted_inv _ _ Hs) as [Hs' Ha]. cbn [below]. destruct (_ <? _); [|constructor].
  constructor; [apply IH, Hs'|]. apply List.Forall_forall. intros e He. apply (below_In _ (Some lm)) in He.
  rewrite List.Forall_forall in Ha. apply Ha, He.
Qed.

(** The entries of a sorted list with a prefix. *)
Lemma prefix_slice `{HP : !PrefixRange} pre l : kv_sorted l ->
  kv_sorted (in_slice (Some (BytesPrefix pre)) l) /\
  forall k, get_kv k (in_slice (Some (BytesPrefix pre)) l) = if decide (pre `prefix_of` k) then get_kv k l else None.
Proof.
  intros Hs. unfold in_slice, start_of, limit_of. rewrite BytesPrefix_start. split; [apply below_sorted, from_sorted, Hs|].
  intros k. rewrite below_get, from_get by (try apply from_sorted; exact Hs). pose proof (BytesPrefix_law pre k) as Hl.
  destruct (decide (pre `prefix_of` k)) as [Hp|Hp].
  - apply Hl in Hp as [Hge Hlim]. rewrite (proj2 (Z.ltb_ge _ _)) by exact Hge. destruct (Limit _); [|reflexivity].
    rewrite (proj2 (Z.ltb_lt _ _)) by exact Hlim. reflexivity.
  - destruct (Z.ltb_spec (Compare k pre) 0) as [Hlt|Hge]; [destruct (match Limit _ with Some _ => _ | None => _ end); reflexivity|].
    destruct (Limit _) as [lm|]; [|exfalso; apply Hp, Hl; auto].
    destruct (Z.ltb_spec (Compare k lm) 0) as [Hlt|Hlt]; [exfalso; apply Hp, Hl; auto | reflexivity].
Qed.

End Canonical.

Section Claims.
Context `{HCmp : Comparer} `{HRand : Rand} `{HP : !PrefixRange} {S : Type} `{HS : !PersistStore S}.

(** C30: the block cache is a map over the persistent store: on an overlay with the writes
    [w], [Get] returns the last value written, [nil] for a deleted key and what the store holds
    otherwise; [Put] and [Delete] change exactly their key; and committing the batch
    [CommitTo] prepares leaves a store that holds exactly what the overlay showed. *)
Theorem overlay_refines_map (self : Overlay.OverlayDB) w k v :
  Overlay.holds self w -> batched (Overlay.store self) = [] ->
  Overlay.Get k self = Ok (inl (Overlay.view self w k), self) /\
  (exists self', Overlay.Put k v self = Ok self' /\ Overlay.holds self' (put_kv k v w) /\
     forall k', Overlay.view self' (put_kv k v w) k' = if decide (k = k') then value_of v else Overlay.view self w k') /\
  (exists self', Overlay.Delete k self = Ok self' /\ Overlay.holds self' (put_kv k [] w) /\
     forall k', Overlay.view self' (put_kv k [] w) k' = if decide (k = k') then None else Overlay.view self w k') /\
  (exists self' s', Overlay.CommitTo self = Ok self' /\ BatchCommit (Overlay.store self') = Ok s' /\
     forall k', content s' k' = Overlay.view self w k').
Proof.
  intros Hw Hb. split; [apply Overlay.Get_view, Hw|]. split; [|split].
  - destruct (Overlay.Put_view self w k v Hw) as (self' & E & Es & Hw'). exists self'. split; [exact E|]. split; [exact Hw'|].
    intros k'. apply Overlay.view_put, Es.
  - destruct (Overlay.Delete_view self w k Hw) as (self' & E & Es & Hw'). exists self'. split; [exact E|]. split; [exact Hw'|].
    intros k'. apply (Overlay.view_put self self' w k []), Es.
  - destruct (Overlay.CommitTo_view self w Hw Hb) as (self' & s' & E & _ & _ & Ec & Hv). exists self', s'. auto.
Qed.

(** C10: a transaction's cache is atomic: [Put] and [Delete] on a [CacheDB] change exactly their key
    and leave the block cache as it was; [Get] reads through both; [Commit] makes the
    block cache show exactly what the transaction showed, and [Reset] drops the
    transaction's writes. *)
Theorem cache_atomic (self : Cache.CacheDB (S := S)) w u p k v :
  Cache.holds self w u ->
  (exists self', Cache.get p k self = Ok (inl (Cache.view self w u (p :: k)), self') /\
     Cache.holds self' w u /\ Cache.backend self' = Cache.backend self) /\
  (exists self', Cache.put p k v self = Ok self' /\ Cache.holds self' (put_kv (p :: k) v w) u /\
     Cache.backend self' = Cache.backend self /\
     forall k', Cache.view self' (put_kv (p :: k) v w) u k' = if decide (p :: k = k') then value_of v else Cache.view self w u k') /\
  (exists self', Cache.delete p k self = Ok self' /\ Cache.holds self' (put_kv (p :: k) [] w) u /\
     Cache.backend self' = Cache.backend self /\
     forall k', Cache.view self' (put_kv (p :: k) [] w) u k' = if decide (p :: k = k') then None else Cache.view self w u k') /\
  (exists self' u', Cache.Commit self = Ok self' /\ Overlay.holds (Cache.backend self') u' /\
     forall k', Overlay.view (Cache.backend self') u' k' = Cache.view self w u k') /\
  (exists self', Cache.Reset self = Ok self' /\ Cache.holds self' [] u /\ Cache.backend self' = Cache.backend self /\
     forall k', Cache.view self' [] u k' = Overlay.view (Cache.backend self) u k').
Proof.
  intros Hw. split; [apply Cache.get_view, Hw|]. split; [|split; [|split]].
  - destruct (Cache.put_view self w u p k v Hw) as (self' & E & Hw' & Eb). exists self'. repeat (split; [assumption|]).
    intros k'. apply Cache.view_cput, Eb.
  - destruct (Cache.delete_view self w u p k Hw) as (self' & E & Hw' & Eb). exists self'. repeat (split; [assumption|]).
    intros k'. apply (Cache.view_cput self self' w u p k []), Eb.
  - destruct (Cache.Commit_view self w u Hw) as (self' & E & _ & [_ Hu'] & _ & Hv). exists self', (Cache.committed w u). auto.
  - destruct (Cache.Reset_view self w u Hw) as (self' & E & Hw' & Eb). exists self'. repeat (split; [assumption|]).
    intros k'. unfold Cache.view. cbn [get_kv]. rewrite Eb. reflexivity.
Qed.

(** The hash of a block's state changes is canonical: two overlays whose write sets
    agree as maps, whatever the order of the writes, the skip-list heights and the
    stores below, have the same [ChangeHash], the hash of the keys and values in key order. *)
Theorem change_hash_canonical sha256 (o1 o2 : Overlay.OverlayDB (S := S)) w1 w2 :
  Overlay.holds o1 w1 -> Overlay.holds o2 w2 -> (forall k, get_kv k w1 = get_kv k w2) ->
  Overlay.ChangeHash sha256 o1 = Ok (sha256 (concat (map (fun e => fst e ++ snd e) w1))) /\
  Overlay.ChangeHash sha256 o2 = Overlay.ChangeHash sha256 o1.
Proof.
  intros H1 H2 Hg. pose proof H1 as [n1 S1]. pose proof H2 as [n2 S2].
  assert (E : w1 = w2) by (apply sorted_ext; [eapply stores_sorted, S1 | eapply stores_sorted, S2 | exact Hg]). subst w2.
  unfold Overlay.ChangeHash. rewrite (Overlay.change_bytes_spec o1 w1 H1), (Overlay.change_bytes_spec o2 w1 H2). auto.
Qed.

(** *** Iteration *)

Definition present (o : option (list byte)) : option (list byte) := match o with Some v => value_of v | None => None end.

Lemma keyed_of_get (l : kvs) : get_kv [] l = None -> keyed l.
Proof.
  induction l as [|[k v] l IH]; intros Hg; constructor; cbn [get_kv] in Hg; case_decide as E; try discriminate; [exact E | apply IH, Hg].
Qed.

Lemma prefixed_keyed (pre : list byte) (l : kvs) : pre <> [] ->
  (forall k, get_kv k l = None \/ pre `prefix_of` k) -> keyed l.
Proof.
  intros Hpre Hl. apply keyed_of_get. destruct (Hl []) as [E|Hp]; [exact E|]. apply prefix_nil_inv in Hp. contradiction.
Qed.

Lemma mem_over p w pre : repr p w -> pre <> [] ->
  let l := in_slice (Some (BytesPrefix pre)) w in
  over (StoreIter.NewIterator p (Some (BytesPrefix pre))) l /\ kv_sorted l /\ keyed l /\
  forall k, get_kv k l = if decide (pre `prefix_of` k) then get_kv k w else None.
Proof.
  intros Hr Hpre l. pose proof Hr as [ns Hst]. destruct (prefix_slice pre w (stores_sorted _ ns w Hst)) as [Hs Hg].
  split; [repeat (split; [reflexivity|]); exists w; auto|]. split; [exact Hs|]. split; [|exact Hg].
  apply (prefixed_keyed pre); [exact Hpre|]. intros k. unfold l. rewrite Hg. case_decide; auto.
Qed.

Lemma overlay_over (o : Overlay.OverlayDB (S := S)) u pre : Overlay.holds o u -> pre <> [] ->
  exists l, over (Overlay.NewIterator pre o) l /\ kv_sorted l /\ keyed l /\
    forall k, get_kv k l = if decide (pre `prefix_of` k) then present (Overlay.view o u k) else None.
Proof.
  intros Hu Hpre. destruct (mem_over _ u pre Hu Hpre) as (Hom & Hsm & Hkm & Hgm).
  destruct (store_NewIterator_law (Overlay.store o) pre) as (b & Hob & Hsb & Hgb).
  set (m := in_slice (Some (BytesPrefix pre)) u) in *.
  assert (Hkb : keyed b) by (apply (prefixed_keyed pre); [exact Hpre|]; intros k; rewrite Hgb; case_decide; auto).
  exists (join m b). assert (Hg : forall k, get_kv k (join m b) = if decide (pre `prefix_of` k) then present (Overlay.view o u k) else None).
  { intros k. rewrite join_get by assumption. unfold overlay_get, Overlay.view. rewrite Hgm, Hgb. case_decide; [|reflexivity].
    destruct (get_kv k u) as [v|]; [|reflexivity]. cbn [present]. unfold value_of. destruct (zlen v =? 0) eqn:E; [reflexivity|]. cbn.
    unfold value_of. rewrite E. reflexivity. }
  split; [repeat (split; [reflexivity|]); exists m, b; auto|]. split; [apply join_sorted; assumption|]. split; [|exact Hg].
  apply (prefixed_keyed pre); [exact Hpre|]. intros k. rewrite Hg. case_decide; auto.
Qed.

Lemma present_present v : present (value_of v) = value_of v.
Proof. unfold present, value_of. destruct (zlen v =? 0) eqn:E; [reflexivity|]. rewrite E. reflexivity. Qed.

(** C31: iterating over the storage keys with a prefix through a transaction's cache terminates and
    yields, in key order and each once, exactly the keys with that prefix that the cache
    shows with a value, with that value: writes and deletions of the transaction and
    of the block are taken into account. *)
Theorem cache_iterator_exact (self : Cache.CacheDB (S := S)) w u key :
  Cache.holds self w u ->
  exists l N, (forall n fuel, (N <= n)%nat -> (N <= fuel)%nat -> drain n fuel (Cache.NewIterator key self) = Ok l) /\
    kv_sorted l /\
    forall k, get_kv k l = if decide (ST_STORAGE :: key `prefix_of` k) then present (Cache.view self w u k) else None.
Proof.
  intros [Hw Hu]. set (pre := ST_STORAGE :: key). assert (Hpre : pre <> []) by discriminate.
  destruct (mem_over _ w pre Hw Hpre) as (Hom & Hsm & Hkm & Hgm). destruct (overlay_over _ u pre Hu Hpre) as (b & Hob & Hsb & Hkb & Hgb).
  set (m := in_slice (Some (BytesPrefix pre)) w) in *. exists (join m b).
  destruct (drain_spec (Cache.NewIterator key self) (join m b)) as (N & E).
  { repeat (split; [reflexivity|]). exists m, b. auto. }
  exists (Nat.max N (Datatypes.S (length (join m b)))). split; [intros n fuel Hn Hf; apply E; lia|].
  split; [apply join_sorted; assumption|]. intros k. rewrite join_get by assumption. unfold overlay_get, Cache.view. rewrite Hgm, Hgb.
  case_decide; [|reflexivity]. destruct (get_kv k w) as [v|]; [symmetry; apply present_present|].
  unfold present at 1. destruct (Overlay.view (Cache.backend self) u k) as [v|]; [|reflexivity]. cbn [present].
  destruct (value_of v) as [v'|] eqn:Ev; [|reflexivity]. pose proof (present_present v) as Hp. rewrite Ev in Hp. exact Hp.
Qed.

End Claims.

(** ** A store in memory

    Instances of the parameters, on which the theorems above apply. *)

#[local] Existing Instances DefaultComparer coin.

(** The smallest string above all those with prefix [pre], if any. *)
Fixpoint prefix_limit (pre : list byte) : option (list byte) :=
  match pre with
  | [] => None
  | c :: r => match prefix_limit r with
              | Some r' => Some (c :: r')
              | None => if bz c <? 255 then Some [zb (bz c + 1)] else None
              end
  end.

Lemma prefix_limit_law pre : forall k, pre `prefix_of` k <->
  0 <= bytes_Compare k pre /\ match prefix_limit pre with Some lim => bytes_Compare k lim < 0 | None => True end.
Proof.
  induction pre as [|c pre IH]; intros k.
  { split; [|intros _; apply prefix_nil]. intros _. split; [destruct k; cbn; lia | exact I]. }
  destruct k as [|x k].
  { split; [intros Hp; apply prefix_nil_inv in Hp; discriminate | intros [H _]; cbn in H; lia]. }
  cbn [bytes_Compare prefix_limit]. destruct (decide (x = c)) as [->|Hne].
  - rewrite Z.ltb_irrefl. specialize (IH k).
    assert (Hpc : c :: pre `prefix_of` c :: k <-> pre `prefix_of` k) by (split; [apply prefix_cons_inv_2 | apply prefix_cons]).
    rewrite Hpc, IH. destruct (prefix_limit pre) as [r'|]; cbn [bytes_Compare]; [rewrite Z.ltb_irrefl; reflexivity|].
    destruct (Z.ltb_spec (bz c) 255) as [Hlt|Hge]; cbn [bytes_Compare]; [|tauto].
    rewrite bz_zb_small by (pose proof (bz_range c); lia). rewrite (proj2 (Z.ltb_lt (bz c) (bz c + 1))) by lia. split; [intros [? _]; split; [assumption | lia] | tauto].
  - assert (Hn : ~ c :: pre `prefix_of` x :: k) by (intros Hp; apply prefix_cons_inv_1 in Hp; congruence).
    split; [intros Hp; contradiction|]. intros [Hge Hlim]. exfalso.
    assert (Hxc : bz x <> bz c) by (intros E; apply Hne, bz_inj, E).
    destruct (Z.ltb_spec (bz x) (bz c)) as [Hlt|Hnlt]; [lia|]. destruct (Z.ltb_spec (bz c) (bz x)) as [Hlt|]; [|lia].
    destruct (prefix_limit pre) as [r'|]; cbn [bytes_Compare] in Hlim.
    + rewrite (proj2 (Z.ltb_ge (bz x) (bz c))), (proj2 (Z.ltb_lt (bz c) (bz x))) in Hlim by lia. lia.
    + pose proof (bz_range x). destruct (Z.ltb_spec (bz c) 255); [|lia]. cbn [bytes_Compare] in Hlim. rewrite bz_zb_small in Hlim by (pose proof (bz_range c); lia).
      rewrite (proj2 (Z.ltb_ge (bz x) (bz c + 1))) in Hlim by lia.
      destruct (Z.ltb_spec (bz c + 1) (bz x)); [lia|]. destruct k; cbn in Hlim; lia.
Qed.

Definition bytes_prefix : PrefixRange.
Proof.
  refine {| BytesPrefix pre := mkRange (Some pre) (prefix_limit pre) |}; [reflexivity | exact prefix_limit_law].
Defined.

(** An iterator over a list. *)
Record list_iter := mkListIter { li_all : kvs; li_rest : kvs }.
#[local] Instance list_iterator : StoreIterator list_iter.
Proof.
  refine {| First _ i := Ok (nonempty (li_all i), mkListIter (li_all i) (li_all i));
            Next _ i := Ok (nonempty (tail (li_rest i)), mkListIter (li_all i) (tail (li_rest i)));
            Key i := fst (head_kv (li_rest i)); Value i := snd (head_kv (li_rest i)); Error _ := None;
            over i l := li_all i = l; cursor i l := li_rest i = l |}.
  - intros i l <-. exists 0%nat. eexists. split; [reflexivity | reflexivity].
  - intros i l <-. exists 0%nat. eexists. split; [reflexivity | reflexivity].
  - intros i l <-. auto.
Defined.

Lemma put_sorted k v (l : kvs) : kv_sorted l -> kv_sorted (put_kv k v l).
Proof.
  induction l as [|[k0 v0] l IH]; intros Hs; cbn [put_kv]; [repeat constructor|]. pose proof (sorted_inv _ _ Hs) as [Hs' Ha]. cbn [fst] in Ha.
  destruct (Z.ltb_spec (Compare k0 k) 0) as [Hlt|Hge]; [|destruct (Z.eqb_spec (Compare k0 k) 0) as [E|N]].
  - constructor; [apply IH, Hs'|]. cbn [fst]. clear IH Hs. induction Ha as [|[k1 v1] r H1 Hr IHr]; cbn [put_kv]; [repeat constructor; exact Hlt|].
    pose proof (sorted_inv _ _ Hs') as [Hs1 _]. repeat case_match; constructor; cbn [fst] in *; auto.
  - apply Compare_eq in E. subst k0. constructor; assumption.
  - assert (Hk : lt_key k k0) by (apply compare_neq0; [unfold lt_key; lia | exact N]).
    constructor; [exact Hs|]. constructor; [exact Hk|]. eapply Forall_impl; [exact Ha|]. intros e. apply lt_key_trans, Hk.
Qed.

Definition sorted_entries (m : gmap (list byte) (list byte)) : kvs := map_fold put_kv [] m.

Lemma sorted_entries_spec m : kv_sorted (sorted_entries m) /\ forall k, get_kv k (sorted_entries m) = m !! k.
Proof.
  unfold sorted_entries. apply (map_fold_weak_ind (fun l m => kv_sorted l /\ forall k, get_kv k l = m !! k)).
  - split; [constructor|]. intros k. rewrite lookup_empty. reflexivity.
  - intros k v m' l Hk [Hs Hg]. split; [apply put_sorted, Hs|]. intros k'. rewrite get_put, Hg. case_decide as E.
    + subst. rewrite lookup_insert_eq. reflexivity.
    + rewrite lookup_insert_ne by exact E. reflexivity.
Qed.

Record mem_store := mkStore { ms_map : gmap (list byte) (list byte); ms_batch : list (list byte * option (list byte)) }.

Definition apply_write (m : gmap (list byte) (list byte)) (w : list byte * option (list byte)) : gmap (list byte) (list byte) :=
  match snd w with Some v => <[fst w := v]> m | None => base.delete (fst w) m end.

Definition mem_persist : PersistStore mem_store.
Proof.
  refine {| store_Get s k := match ms_map s !! k with Some v => Ok v | None => Err ErrNotFound end;
            BatchPut k v s := mkStore (ms_map s) (ms_batch s ++ [(k, Some v)]);
            BatchDelete k s := mkStore (ms_map s) (ms_batch s ++ [(k, None)]);
            BatchCommit s := Ok (mkStore (foldl apply_write (ms_map s) (ms_batch s)) []);
            store_NewIterator s pre := mkListIter (sorted_entries (filter (fun kv => pre `prefix_of` fst kv) (ms_map s))) [];
            content s k := ms_map s !! k; batched s := ms_batch s |}.
  - reflexivity.
  - intros s k v. auto.
  - intros s k. auto.
  - intros [m b]. eexists. split; [reflexivity|]. split; [reflexivity|]. cbn [ms_map ms_batch]. revert m.
    induction b as [|[k [v|]] b IH]; intros m k'; cbn [foldl]; [reflexivity| |]; rewrite IH; unfold apply_write; cbn [fst snd]; f_equal;
      case_decide as E; subst; rewrite ?lookup_insert_eq, ?lookup_delete_eq, ?lookup_insert_ne, ?lookup_delete_ne by assumption; reflexivity.
  - intros s pre. eexists. split; [reflexivity|]. cbn [li_all].
    destruct (sorted_entries_spec (filter (fun kv => pre `prefix_of` fst kv) (ms_map s))) as [Hs Hg]. split; [exact Hs|]. intros k. rewrite Hg.
    case_decide as Hp; [|apply map_lookup_filter_None_2; right; intros v _; exact Hp].
    destruct (ms_map s !! k) as [v|] eqn:E; [apply map_lookup_filter_Some_2; [exact E | exact Hp] | apply map_lookup_filter_None_2; left; exact E].
Defined.

#[local] Existing Instances bytes_prefix mem_persist.

(** A block that has written one key over a store with another. *)
Definition base_store : mem_store := mkStore {[ [x05; x01] := [x0a] ]} [].
Definition block0 : Overlay.OverlayDB := Overlay.NewOverlayDB base_store.
Definition tx0 : Cache.CacheDB := Cache.NewCacheDB block0.

Lemma overlay_refines_map_witness :
  (exists o, Overlay.Put [x05; x02] [x0b] block0 = Ok o /\ Overlay.view o [([x05; x02], [x0b])] [x05; x01] = Some [x0a]) /\
  exists o s, Overlay.CommitTo block0 = Ok o /\ BatchCommit (Overlay.store o) = Ok s /\ content s [x05; x01] = Some [x0a].
Proof.
  assert (Hb : batched (Overlay.store block0) = []) by reflexivity.
  destruct (overlay_refines_map block0 [] [x05; x02] [x0b] NewMemDB_spec Hb) as (_ & (o & E & _ & Hv) & _ & (o' & s & E1 & E2 & Hc)).
  split; [exists o; split; [exact E | exact (Hv [x05; x01])]|].
  exists o', s. split; [exact E1|]. split; [exact E2|]. rewrite Hc. reflexivity.
Defined.

Lemma cache_atomic_witness :
  exists c, Cache.put ST_STORAGE [x01] [x0c] tx0 = Ok c /\ Cache.backend c = block0 /\
    Cache.view c [([x05; x01], [x0c])] [] [x05; x01] = Some [x0c].
Proof.
  destruct (cache_atomic tx0 [] [] ST_STORAGE [x01] [x0c] (conj NewMemDB_spec NewMemDB_spec)) as (_ & (c & E & _ & Eb & Hv) & _).
  exists c. split; [exact E|]. split; [exact Eb|]. exact (Hv [x05; x01]).
Defined.

Lemma change_hash_canonical_witness : Overlay.ChangeHash (fun b => b) block0 = Ok [].
Proof.
  exact (proj1 (change_hash_canonical (fun b => b) block0 block0 [] [] NewMemDB_spec NewMemDB_spec (fun _ => eq_refl))).
Defined.

Lemma cache_iterator_exact_witness :
  exists l n, drain n n (Cache.NewIterator [] tx0) = Ok l /\ get_kv [x05; x01] l = Some [x0a] /\ get_kv [x04] l = None.
Proof.
  destruct (cache_iterator_exact tx0 [] [] [] (conj NewMemDB_spec NewMemDB_spec)) as (l & N & E & _ & Hg).
  exists l, N. split; [apply E; lia|]. split; rewrite Hg; reflexivity.
Defined.

Lemma join_iterator_enumerates_witness :
  exists l n, drain n n (NewJoinIter (mkListIter [([x01], []); ([x02], [x0b])] []) (mkListIter [([x01], [x0a])] [])) = Ok l /\
    get_kv [x01] l = None /\ get_kv [x02] l = Some [x0b].
Proof.
  destruct (join_iterator_enumerates (mkListIter [([x01], []); ([x02], [x0b])] []) (mkListIter [([x01], [x0a])] [])
    [([x01], []); ([x02], [x0b])] [([x01], [x0a])]) as (l & N & E & _ & Hg).
  - reflexivity.
  - reflexivity.
  - repeat constructor; discriminate.
  - repeat constructor; discriminate.
  - repeat constructor.
  - repeat constructor.
  - exists l, N. split; [apply E; lia|]. split; rewrite Hg; reflexivity.
Defined.
