(* ===== verification/NativeData.v ===== *)
(** * Parameters and stored values of native contracts

    [smartcontract/service/native/utils/serialization.go] and [ont/states.go] (parameters of
    the token contracts), [core/states/storage_item.go] and [state_base.go] (the envelope
    of a stored value).  An [Address] is a list of 20 bytes. *)

From S2P Require Import Prelude Codec BigInt.

Definition Address := list byte.
Definition ADDRESS_EMPTY : Address := repeat x00 20.

Definition ErrUnexpectedEOF : gerror := "unexpected EOF".
Definition ErrIrregularData : gerror := "irregular data".

(** [AddressParseFromBytes] *)
Definition AddressParseFromBytes (f : list byte) : res Address :=
  if zlen f =? ADDR_LEN then Ok f else Err "[Common]: AddressParseFromBytes err, len != 20".

(** ** [utils/serialization.go] *)

Definition EncodeAddress (addr : Address) : ST ZeroCopySink Z := Sink.WriteVarBytes addr.
(** [big.NewInt(int64(value))]: the value is converted to a signed integer. *)
Definition EncodeVarUint (value : Z) : ST ZeroCopySink Z := Sink.WriteVarBytes (BigIntToNeoBytes (s64 value)).
Definition EncodeVarBytes (v : list byte) : ST ZeroCopySink Z := Sink.WriteVarBytes v.
Definition EncodeString (str : list byte) : ST ZeroCopySink Z := Sink.WriteVarBytes str.

(** [NextVarBytes] with its flags as errors. *)
Definition DecodeVarBytes : ST ZeroCopySource (list byte) :=
  do '(data, _, irregular, eof) <- Source.NextVarBytes;
  do_ st_guard (negb eof) ErrUnexpectedEOF;
  do_ st_guard (negb irregular) ErrIrregularData;
  st_ret data.

Definition DecodeVarUint : ST ZeroCopySource Z :=
  do value <- DecodeVarBytes;
  let v := BigIntFromNeoBytes value in
  do_ st_guard (negb (v <? 0)) "value should not be a negative number.";
  st_ret (u64 v).

Definition DecodeAddress : ST ZeroCopySource Address :=
  do from <- DecodeVarBytes; st_lift (AddressParseFromBytes from).

Definition DecodeUint64 : ST ZeroCopySource Z :=
  do '(data, eof) <- Source.NextUint64; do_ st_guard (negb eof) ErrUnexpectedEOF; st_ret data.
Definition DecodeUint32 : ST ZeroCopySource Z :=
  do '(data, eof) <- Source.NextUint32; do_ st_guard (negb eof) ErrUnexpectedEOF; st_ret data.
Definition DecodeBool : ST ZeroCopySource bool :=
  do '(data, irregular, eof) <- Source.NextBool;
  do_ st_guard (negb eof) ErrUnexpectedEOF; do_ st_guard (negb irregular) ErrIrregularData; st_ret data.
Definition DecodeString : ST ZeroCopySource (list byte) := DecodeVarBytes.

(** ** [ont/states.go] *)

Record State := mkState { st_From : Address; st_To : Address; st_Value : Z }.
Record TransferFrom := mkTF { tf_Sender : Address; tf_From : Address; tf_To : Address; tf_Value : Z }.
Record Transfers := mkTransfers { States : list State }.

Module Ser.
Definition State (this : State) : ST ZeroCopySink unit :=
  do_ EncodeAddress (st_From this); do_ EncodeAddress (st_To this); do_ EncodeVarUint (st_Value this); st_ret ().
Definition TransferFrom (this : TransferFrom) : ST ZeroCopySink unit :=
  do_ EncodeAddress (tf_Sender this); do_ EncodeAddress (tf_From this); do_ EncodeAddress (tf_To this);
  do_ EncodeVarUint (tf_Value this); st_ret ().
Fixpoint states (l : list NativeData.State) : ST ZeroCopySink unit :=
  match l with [] => st_ret () | v :: l => do_ State v; states l end.
Definition Transfers (this : Transfers) : ST ZeroCopySink unit :=
  do_ EncodeVarUint (zlen (States this)); states (States this).
End Ser.

Module Des.
Definition State : ST ZeroCopySource State :=
  do from <- DecodeAddress; do to <- DecodeAddress; do value <- DecodeVarUint; st_ret (mkState from to value).
Definition TransferFrom : ST ZeroCopySource TransferFrom :=
  do sender <- DecodeAddress; do from <- DecodeAddress; do to <- DecodeAddress; do value <- DecodeVarUint;
  st_ret (mkTF sender from to value).
(** [for i := 0; uint64(i) < n; i++]; a state takes some bytes, so as many rounds
    as there are bytes are enough. *)
Fixpoint states (fuel : nat) (i n : Z) (acc : list NativeData.State) : ST ZeroCopySource (list NativeData.State) :=
  match fuel with
  | O => st_panic
  | S f => if i <? n then do state <- State; states f (i + 1) n (acc ++ [state]) else st_ret acc
  end.
Definition Transfers : ST ZeroCopySource Transfers :=
  do n <- DecodeVarUint;
  do src <- st_get;
  do l <- states (S (length (src_s src))) 0 n [];
  st_ret (mkTransfers l).
End Des.

(** ** Stored values *)

(** [StateBase] and [StorageItem]. *)
Record StorageItem := mkItem { StateVersion : byte; item_Value : list byte }.

Definition item_Serialization (this : StorageItem) : ST ZeroCopySink unit :=
  do_ Sink.WriteByte (StateVersion this); do_ Sink.WriteVarBytes (item_Value this); st_ret ().
Definition item_Deserialization : ST ZeroCopySource StorageItem :=
  do '(stateVersion, eof) <- Source.NextByte;
  do_ st_guard (negb eof) "[StorageItem], StateBase Deserialize failed.";
  do '(value, _, irregular, eof) <- Source.NextVarBytes;
  do_ st_guard (negb irregular) "[StorageItem], Value Deserialize failed.";
  do_ st_guard (negb eof) "[StorageItem], Value Deserialize failed.";
  st_ret (mkItem stateVersion value).

(** ** Encodings *)

Lemma parses_guard {A} b e (k : ST ZeroCopySource A) a bs :
  b = true -> parses k a bs -> parses (st_bind (st_guard b e) (fun _ => k)) a bs.
Proof. intros -> Hk src c Hw Hr. exact (Hk src c Hw Hr). Qed.

Lemma parses_DecodeVarBytes bs : zlen bs < 2 ^ 63 -> parses DecodeVarBytes bs (enc_varbytes bs).
Proof.
  intros Hl. eapply parses_bind'; [apply parses_NextVarBytes, Hl|]. cbn beta iota.
  apply parses_guard; [reflexivity|]. apply parses_guard; [reflexivity | apply parses_ret].
Qed.

Definition addr_ok (a : Address) : Prop := zlen a = ADDR_LEN.

Lemma parses_DecodeAddress a : addr_ok a -> parses DecodeAddress a (enc_varbytes a).
Proof.
  intros Ha. unfold addr_ok, ADDR_LEN in Ha. eapply parses_bind'; [apply parses_DecodeVarBytes; lia|].
  unfold AddressParseFromBytes, ADDR_LEN. rewrite Ha. intros src c Hw Hr. rewrite zlen_nil, Source.adv_0. reflexivity.
Qed.

(** The encoding of an amount below [2^63]. *)
Definition enc_uint (v : Z) : list byte := enc_varbytes (BigIntToNeoBytes v).

Lemma zlen_neo v : 0 <= v < 2 ^ 64 -> zlen (BigIntToNeoBytes v) <= 9.
Proof.
  intros Hv. destruct (Z.eq_dec v 0) as [->|Hz]; [vm_compute; discriminate|].
  destruct (zlen_ToNeo v Hz) as [Hl|Hl]; [|lia]. rewrite (proj2 (Z.ltb_ge v 0)) in Hl by lia.
  destruct (Z.le_gt_cases (zlen (BigIntToNeoBytes v)) 9) as [|Hgt]; [assumption|].
  pose proof (Z.pow_le_mono_r 256 9 (zlen (BigIntToNeoBytes v) - 1)). lia.
Qed.

Lemma parses_DecodeVarUint v : 0 <= v < 2 ^ 64 -> parses DecodeVarUint v (enc_uint v).
Proof.
  intros Hv. pose proof (zlen_neo v Hv). eapply parses_bind'; [apply parses_DecodeVarBytes; lia|]. cbv zeta.
  rewrite FromNeo_twos, twos_ToNeo. apply parses_guard; [apply negb_true_iff, Z.ltb_ge; lia|]. rewrite u64_small by (unfold is_u64; lia). apply parses_ret.
Qed.

Lemma appends_EncodeVarUint v : 0 <= v < 2 ^ 63 ->
  Sink.appends (EncodeVarUint v) (Source.getVarUintSize (zlen (BigIntToNeoBytes v)) + zlen (BigIntToNeoBytes v)) (enc_uint v).
Proof.
  intros Hv. pose proof (zlen_neo v ltac:(lia)). unfold EncodeVarUint. rewrite s64_small by (unfold is_s64; lia).
  apply Sink.appends_WriteVarBytes. lia.
Qed.

Lemma appends_EncodeAddress a : addr_ok a ->
  Sink.appends (EncodeAddress a) (Source.getVarUintSize (zlen a) + zlen a) (enc_varbytes a).
Proof. intros Ha. unfold addr_ok, ADDR_LEN in Ha. apply Sink.appends_WriteVarBytes. lia. Qed.

Definition state_ok (s : State) : Prop := addr_ok (st_From s) /\ addr_ok (st_To s) /\ 0 <= st_Value s < 2 ^ 63.
Definition state_wire (s : State) : list byte := enc_varbytes (st_From s) ++ enc_varbytes (st_To s) ++ enc_uint (st_Value s).

#[global] Instance state_Wire : Wire State.
Proof.
  refine {| wire := state_wire; wire_ok := state_ok; Serialization := Ser.State; Deserialization := Des.State |}.
  - intros [f t v] (Hf & Ht & Hv). unfold state_wire. cbn [st_From st_To st_Value] in *.
    eapply Sink.appends_bind; [apply appends_EncodeAddress, Hf|]. eapply Sink.appends_bind; [apply appends_EncodeAddress, Ht|].
    eapply Sink.appends_bind'; [apply appends_EncodeVarUint, Hv | apply Sink.appends_ret].
  - intros [f t v] (Hf & Ht & Hv). unfold state_wire. cbn [st_From st_To st_Value] in *.
    eapply parses_bind; [apply parses_DecodeAddress, Hf|]. eapply parses_bind; [apply parses_DecodeAddress, Ht|].
    eapply parses_bind'; [apply parses_DecodeVarUint; lia | apply parses_ret].
Defined.

Definition tf_ok (s : TransferFrom) : Prop :=
  addr_ok (tf_Sender s) /\ addr_ok (tf_From s) /\ addr_ok (tf_To s) /\ 0 <= tf_Value s < 2 ^ 63.

#[global] Instance transferFrom_Wire : Wire TransferFrom.
Proof.
  refine {| wire s := enc_varbytes (tf_Sender s) ++ enc_varbytes (tf_From s) ++ enc_varbytes (tf_To s) ++ enc_uint (tf_Value s);
            wire_ok := tf_ok; Serialization := Ser.TransferFrom; Deserialization := Des.TransferFrom |}.
  - intros [s f t v] (Hs & Hf & Ht & Hv). cbn [tf_Sender tf_From tf_To tf_Value] in *.
    eapply Sink.appends_bind; [apply appends_EncodeAddress, Hs|]. eapply Sink.appends_bind; [apply appends_EncodeAddress, Hf|].
    eapply Sink.appends_bind; [apply appends_EncodeAddress, Ht|]. eapply Sink.appends_bind'; [apply appends_EncodeVarUint, Hv | apply Sink.appends_ret].
  - intros [s f t v] (Hs & Hf & Ht & Hv). cbn [tf_Sender tf_From tf_To tf_Value] in *.
    eapply parses_bind; [apply parses_DecodeAddress, Hs|]. eapply parses_bind; [apply parses_DecodeAddress, Hf|].
    eapply parses_bind; [apply parses_DecodeAddress, Ht|]. eapply parses_bind'; [apply parses_DecodeVarUint; lia | apply parses_ret].
Defined.

Lemma state_wire_len s : addr_ok (st_From s) -> 1 <= zlen (state_wire s).
Proof.
  intros Hf. unfold state_wire, enc_varbytes. rewrite !zlen_app. unfold addr_ok, ADDR_LEN in Hf.
  pose proof (zlen_nonneg (enc_varuint (zlen (st_From s)))). pose proof (zlen_nonneg (enc_varuint (zlen (st_To s)))).
  pose proof (zlen_nonneg (st_To s)). pose proof (zlen_nonneg (enc_uint (st_Value s))). lia.
Qed.

Lemma parses_states l : forall fuel i n acc, Forall state_ok l -> n = i + zlen l -> (length l < fuel)%nat ->
  parses (Des.states fuel i n acc) (acc ++ l) (concat (map state_wire l)).
Proof.
  induction l as [|s l IH]; intros fuel i n acc Hl Hn Hf; (destruct fuel as [|fuel]; [cbn in Hf; lia|]); cbn [Des.states map concat].
  - rewrite zlen_nil in Hn. rewrite (proj2 (Z.ltb_ge i n)), app_nil_r by lia. apply parses_ret.
  - rewrite zlen_cons in Hn. pose proof (zlen_nonneg l). rewrite (proj2 (Z.ltb_lt i n)) by lia. inversion Hl as [|? ? H2 H3]; subst.
    eapply parses_bind; [exact (des_parses s H2)|]. replace (acc ++ s :: l) with ((acc ++ [s]) ++ l) by (rewrite <- app_assoc; reflexivity).
    apply IH; [assumption | lia | cbn in Hf; lia].
Qed.

Lemma appends_states l : Forall state_ok l -> Sink.appends (Ser.states l) () (concat (map state_wire l)).
Proof.
  induction 1 as [|s l Hs _ IH]; [apply Sink.appends_ret|]. cbn [Ser.states map concat].
  eapply Sink.appends_bind; [exact (ser_appends s Hs) | exact IH].
Qed.

Lemma length_states l : Forall state_ok l -> (length l <= length (concat (map state_wire l)))%nat.
Proof.
  induction 1 as [|s l (Hs & _) _ IH]; [cbn; lia|]. cbn [map concat length]. rewrite length_app. pose proof (state_wire_len s Hs) as Hw.
  unfold zlen in Hw. lia.
Qed.

#[global] Instance transfers_Wire : Wire Transfers.
Proof.
  refine {| wire t := enc_uint (zlen (States t)) ++ concat (map state_wire (States t));
            wire_ok t := Forall state_ok (States t) /\ zlen (States t) < 2 ^ 63;
            Serialization := Ser.Transfers; Deserialization := Des.Transfers |}.
  - intros [l] [Hl Hn]. cbn [States] in *. eapply Sink.appends_bind; [apply appends_EncodeVarUint; split; auto with go | apply appends_states, Hl].
  - intros [l] [Hl Hn]. cbn [States] in *. pose proof (zlen_nonneg l). eapply parses_bind; [apply parses_DecodeVarUint; lia|].
    intros src c Hw Hr. unfold st_bind at 1, st_get.
    assert (Hfuel : (length l < S (length (src_s src)))%nat).
    { pose proof (length_states l Hl). apply (f_equal length) in Hr. unfold Source.rest in Hr. rewrite length_drop, length_app in Hr. lia. }
    rewrite (st_bind_eq _ _ _ _ _ (parses_states l _ 0 (zlen l) [] Hl eq_refl Hfuel src c Hw Hr)). reflexivity.
Defined.

(** *** Stored values *)

#[global] Instance item_Wire : Wire StorageItem.
Proof.
  refine {| wire i := StateVersion i :: enc_varbytes (item_Value i); wire_ok i := zlen (item_Value i) < 2 ^ 58;
            Serialization := item_Serialization; Deserialization := item_Deserialization |}.
  - intros [b v] Hv. cbn [StateVersion item_Value] in *. apply (Sink.appends_bind _ _ () () [b]); [apply Sink.appends_WriteByte|].
    eapply Sink.appends_bind'; [apply Sink.appends_WriteVarBytes, Hv | apply Sink.appends_ret].
  - intros [b v] Hv. cbn [StateVersion item_Value] in *. eapply parses_bind_cons; [apply parses_NextByte|]. cbn beta iota.
    apply parses_guard; [reflexivity|]. eapply parses_bind'; [apply parses_NextVarBytes; lia|]. cbn beta iota.
    apply parses_guard; [reflexivity|]. apply parses_guard; [reflexivity | apply parses_ret].
Defined.

(** The parameters of the token contracts survive serialisation: for addresses of 20 bytes and amounts
    below [2^63], deserialising a list of transfers, or a delegated transfer, from its
    serialisation gives it back and consumes every byte. *)
Theorem token_params_roundtrip (t : Transfers) (tf : TransferFrom) :
  wire_ok t -> zlen (wire t) + 9 <= 2 ^ 58 -> wire_ok tf ->
  (exists bs src, SerializeToBytes t = Ok bs /\ Deserialization (NewZeroCopySource bs) = Ok (t, src) /\ Source.Len src = 0) /\
  (exists bs src, SerializeToBytes tf = Ok bs /\ Deserialization (NewZeroCopySource bs) = Ok (tf, src) /\ Source.Len src = 0).
Proof.
  intros Ht Hl Hf. split; [exact (wire_roundtrip_all t Ht Hl)|]. apply (wire_roundtrip_all tf Hf).
  destruct Hf as (H1 & H2 & H3 & H4). unfold addr_ok, ADDR_LEN in *. cbn [wire transferFrom_Wire]. unfold enc_uint, enc_varbytes.
  rewrite !zlen_app, H1, H2, H3. pose proof (zlen_neo (tf_Value tf) ltac:(lia)). pose proof (zlen_enc_varuint 20).
  pose proof (zlen_enc_varuint (zlen (BigIntToNeoBytes (tf_Value tf)))).
  pose proof (getVarUintSize_bounds 20). pose proof (getVarUintSize_bounds (zlen (BigIntToNeoBytes (tf_Value tf)))). lia.
Qed.

Definition addr_a : Address := repeat x11 20.
Definition addr_b : Address := repeat x22 20.

Lemma token_params_roundtrip_witness :
  exists bs src, SerializeToBytes (mkTransfers [mkState addr_a addr_b 1000]) = Ok bs /\
    Deserialization (NewZeroCopySource bs) = Ok (mkTransfers [mkState addr_a addr_b 1000], src) /\ Source.Len src = 0.
Proof.
  apply (token_params_roundtrip (mkTransfers [mkState addr_a addr_b 1000]) (mkTF addr_b addr_a addr_b 7)).
  - split; [repeat constructor; vm_compute; congruence | vm_compute; reflexivity].
  - vm_compute. discriminate.
  - repeat split; vm_compute; congruence.
Defined.

(** An amount of [2^63] or more does not survive: [EncodeVarUint] converts it to a
    signed integer, and [DecodeVarUint] refuses the negative number it wrote. *)
Theorem large_amounts_not_decoded (v : Z) : 2 ^ 63 <= v < 2 ^ 64 ->
  exists n s, EncodeVarUint v (Sink.NewZeroCopySink None) = Ok (n, s) /\
    DecodeVarUint (NewZeroCopySource (Sink.Bytes s)) = Err "value should not be a negative number.".
Proof.
  intros Hv. assert (Es : s64 v = v - 2 ^ 64).
  { unfold s64, swrap. replace (v + 2 ^ (64 - 1)) with (v - 2 ^ 63 + 1 * 2 ^ 64) by lia. rewrite Z.mod_add, Z.mod_small by lia. lia. }
  unfold EncodeVarUint. rewrite Es. set (bs := BigIntToNeoBytes (v - 2 ^ 64)).
  assert (Hlen : zlen bs <= 9).
  { destruct (zlen_ToNeo (v - 2 ^ 64) ltac:(lia)) as [Hl|Hl]; fold bs in Hl; [|lia]. rewrite (proj2 (Z.ltb_lt _ 0)) in Hl by lia.
    destruct (Z.le_gt_cases (zlen bs) 9) as [|Hgt]; [assumption|]. pose proof (Z.pow_le_mono_r 256 9 (zlen bs - 1)). lia. }
  destruct (Sink.appends_WriteVarBytes bs ltac:(lia) (Sink.NewZeroCopySink None) Sink.wf_new_sink) as (s & E & _ & B).
  { cbn [sink_len Sink.NewZeroCopySink]. pose proof (zlen_enc_varuint (zlen bs)). pose proof (getVarUintSize_bounds (zlen bs)).
    unfold enc_varbytes. rewrite zlen_app. lia. }
  eexists _, s. split; [exact E|]. unfold Sink.Bytes. rewrite B. cbn [sink_bytes Sink.NewZeroCopySink]. change (sink_bytes _ ++ ?l) with l.
  assert (Hw : zlen (enc_varbytes bs) < 2 ^ 63).
  { pose proof (zlen_enc_varuint (zlen bs)). pose proof (getVarUintSize_bounds (zlen bs)). unfold enc_varbytes. rewrite zlen_app. lia. }
  unfold DecodeVarUint, st_bind at 1.
  rewrite (parses_DecodeVarBytes bs ltac:(lia) (NewZeroCopySource (enc_varbytes bs)) [] (Source.wf_new_source _ Hw)) by (rewrite app_nil_r; reflexivity).
  cbv zeta. unfold bs. rewrite FromNeo_twos, twos_ToNeo. unfold st_bind, st_guard, st_lift, guard. rewrite (proj2 (Z.ltb_lt _ 0)) by lia. reflexivity.
Qed.

Lemma large_amounts_not_decoded_witness :
  exists n s, EncodeVarUint (2 ^ 63) (Sink.NewZeroCopySink None) = Ok (n, s) /\
    DecodeVarUint (NewZeroCopySource (Sink.Bytes s)) = Err "value should not be a negative number.".
Proof. apply (large_amounts_not_decoded (2 ^ 63)). lia. Defined.
