(* ===== verification/NativeService.v ===== *)
(** * The environment of native contracts

    [smartcontract/service/native/native_service.go] (the service a contract runs in),
    [smartcontract/smart_contract.go] (contexts and witnesses), [native/utils/store.go]
    (typed access to storage) and [native/utils/unbind_ong.go] (the ONG release schedule). *)

From S2P Require Import Prelude Codec BigInt MemDb MemDbSpec StoreIter Overlay NativeData.

(** ** Storage as the contracts use it *)

(** What a contract needs of [CacheDB]: [kv_is d f] says that [d] shows the map [f];
    an empty value counts as a deletion. *)
Class KVCache (D : Type) := {
  kv_Get : list byte -> D -> res ((option (list byte) + gerror) * D);
  kv_Put : list byte -> list byte -> D -> res D;
  kv_Delete : list byte -> D -> res D;
  kv_is : D -> (list byte -> option (list byte)) -> Prop;
  kv_Get_law d f k : kv_is d f -> exists d', kv_Get k d = Ok (inl (f k), d') /\ kv_is d' f;
  kv_Put_law d f k v : kv_is d f ->
    exists d', kv_Put k v d = Ok d' /\ kv_is d' (fun k' => if decide (k = k') then value_of v else f k');
  kv_Delete_law d f k : kv_is d f ->
    exists d', kv_Delete k d = Ok d' /\ kv_is d' (fun k' => if decide (k = k') then None else f k')
}.

(** The transaction cache provides it, under the prefix of contract storage. *)
Section CacheInstance.
Context `{HCmp : Comparer} `{HRand : Rand} {S : Type} `{HS : !PersistStore S}.

Definition cache_is (d : Cache.CacheDB (S := S)) (f : list byte -> option (list byte)) : Prop :=
  exists w u, Cache.holds d w u /\ forall k, f k = Cache.view d w u (ST_STORAGE :: k).

Lemma cache_put_is d f k v : cache_is d f -> exists d', Cache.Put k v d = Ok d' /\
  cache_is d' (fun k' => if decide (k = k') then value_of v else f k').
Proof.
  intros (w & u & Hh & Hf). destruct (Cache.put_view d w u ST_STORAGE k v Hh) as (d' & E & Hh' & Eb).
  exists d'. split; [exact E|]. exists (put_kv (ST_STORAGE :: k) v w), u. split; [exact Hh'|]. intros k'.
  rewrite (Cache.view_cput d d' w u ST_STORAGE k v) by exact Eb. rewrite Hf. repeat case_decide; congruence.
Qed.

#[global] Instance cache_kv : KVCache (Cache.CacheDB (S := S)).
Proof.
  refine {| kv_Get := Cache.Get; kv_Put := Cache.Put; kv_Delete := Cache.Delete; kv_is := cache_is |}.
  - intros d f k (w & u & Hh & Hf). destruct (Cache.get_view d w u ST_STORAGE k Hh) as (d' & E & Hh' & Eb).
    exists d'. rewrite Hf. split; [exact E|]. exists w, u. split; [exact Hh'|]. intros k'. rewrite Hf. unfold Cache.view. rewrite Eb. reflexivity.
  - exact cache_put_is.
  - intros d f k Hd. exact (cache_put_is d f k [] Hd).
Defined.

End CacheInstance.

(** ** The service *)

(** [ToBase58]: the text form of an address in notifications, from a third-party encoder. *)
Class Base58 := { ToBase58 : Address -> list byte }.

(** [event.NotifyEventInfo] of a transfer. *)
Record NotifyEventInfo := mkEvent { ev_Contract : Address; ev_Name : string; ev_From : list byte; ev_To : list byte; ev_Value : Z }.

(** The handlers the two token contracts register. *)
Inductive Handler :=
  | H_OntInit | H_OntTransfer | H_OntApprove | H_OntTransferFrom | H_OntName | H_OntSymbol | H_OntDecimals
  | H_OntTotalSupply | H_OntBalanceOf | H_OntAllowance
  | H_OngInit | H_OngTransfer | H_OngApprove | H_OngTransferFrom | H_OngName | H_OngSymbol | H_OngDecimals
  | H_OngTotalSupply | H_OngBalanceOf | H_OngAllowance.

(** The part of [SmartContract] behind [ContextRef]: the addresses of the contexts,
    innermost last, the signers of the transaction and the notifications. *)
Record SmartContract := mkSC { Contexts : list Address; Signers : list Address; sc_Notifications : list NotifyEventInfo }.

Section Service.
Context {D : Type} `{HD : KVCache D} `{HB58 : Base58}.

Record NativeService := mkNative {
  CacheDB : D;
  ServiceMap : gmap string Handler;
  Notifications : list NotifyEventInfo;
  Input : list byte;
  Time : Z;
  PreExec : bool;
  ContextRef : SmartContract;
  EnableEventLog : bool
}.

Definition NM := ST NativeService.

Definition set_DB (d : D) (n : NativeService) : NativeService :=
  mkNative d (ServiceMap n) (Notifications n) (Input n) (Time n) (PreExec n) (ContextRef n) (EnableEventLog n).
Definition set_Notifications (e : list NotifyEventInfo) (n : NativeService) : NativeService :=
  mkNative (CacheDB n) (ServiceMap n) e (Input n) (Time n) (PreExec n) (ContextRef n) (EnableEventLog n).
Definition set_Input (i : list byte) (n : NativeService) : NativeService :=
  mkNative (CacheDB n) (ServiceMap n) (Notifications n) i (Time n) (PreExec n) (ContextRef n) (EnableEventLog n).
Definition set_ContextRef (c : SmartContract) (n : NativeService) : NativeService :=
  mkNative (CacheDB n) (ServiceMap n) (Notifications n) (Input n) (Time n) (PreExec n) c (EnableEventLog n).
Definition set_ServiceMap (m : gmap string Handler) (n : NativeService) : NativeService :=
  mkNative (CacheDB n) m (Notifications n) (Input n) (Time n) (PreExec n) (ContextRef n) (EnableEventLog n).

(** ** [SmartContract] *)

Definition PushContext (c : Address) (sc : SmartContract) : SmartContract :=
  mkSC (Contexts sc ++ [c]) (Signers sc) (sc_Notifications sc).
Definition CurrentContext (sc : SmartContract) : option Address :=
  if zlen (Contexts sc) <? 1 then None else Contexts sc !! (length (Contexts sc) - 1)%nat.
Definition CallingContext (sc : SmartContract) : option Address :=
  if zlen (Contexts sc) <? 2 then None else Contexts sc !! (length (Contexts sc) - 2)%nat.
Definition PopContext (sc : SmartContract) : SmartContract :=
  if 1 <? zlen (Contexts sc) then mkSC (take (length (Contexts sc) - 1) (Contexts sc)) (Signers sc) (sc_Notifications sc) else sc.
Definition PushNotifications (e : list NotifyEventInfo) (sc : SmartContract) : SmartContract :=
  mkSC (Contexts sc) (Signers sc) (sc_Notifications sc ++ e).

Definition checkAccountAddress (address : Address) (sc : SmartContract) : bool :=
  existsb (fun v => bool_decide (v = address)) (Signers sc).
Definition checkContractAddress (address : Address) (sc : SmartContract) : bool :=
  match CallingContext sc with Some c => bool_decide (c = address) | None => false end.
Definition CheckWitness (address : Address) (sc : SmartContract) : bool :=
  checkAccountAddress address sc || checkContractAddress address sc.

(** [native.ContextRef.CurrentContext().ContractAddress]: a nil context panics. *)
Definition current_contract : NM Address := fun n =>
  match CurrentContext (ContextRef n) with Some c => Ok (c, n) | None => Panic end.
Definition check_witness (a : Address) : NM bool := fun n => Ok (CheckWitness a (ContextRef n), n).

(** ** [utils/store.go] *)

Definition db_Get (key : list byte) : NM (option (list byte)) := fun n =>
  match kv_Get key (CacheDB n) with
  | Ok (inl v, d) => Ok (v, set_DB d n)
  | Ok (inr e, _) => Err "[GetStorageItem] storage error!"
  | Err e => Err e
  | Panic => Panic
  end.
Definition db_Put (key value : list byte) : NM unit := fun n =>
  match kv_Put key value (CacheDB n) with Ok d => Ok ((), set_DB d n) | Err e => Err e | Panic => Panic end.
Definition db_Delete (key : list byte) : NM unit := fun n =>
  match kv_Delete key (CacheDB n) with Ok d => Ok ((), set_DB d n) | Err e => Err e | Panic => Panic end.

Definition GetStorageItem (key : list byte) : NM (option StorageItem) :=
  do store <- db_Get key;
  match store with
  | None => st_ret None
  | Some raw => match item_Deserialization (NewZeroCopySource raw) with
                | Ok (item, _) => st_ret (Some item)
                | Err _ => st_err "[GetStorageItem] instance doesn't StorageItem!"
                | Panic => st_panic
                end
  end.

Definition ErrEof : gerror := "got EOF, can not get the next byte".

(** [serialization.ReadUint64] and [ReadUint32] from a buffer. *)
Definition ReadUintN (k : nat) (b : list byte) : res Z := if (length b <? k)%nat then Err ErrEof else Ok (le2z (take k b)).

Definition GetStorageUInt64 (key : list byte) : NM Z :=
  do item <- GetStorageItem key;
  match item with None => st_ret 0 | Some i => st_lift (ReadUintN 8 (item_Value i)) end.
Definition GetStorageUInt32 (key : list byte) : NM Z :=
  do item <- GetStorageItem key;
  match item with None => st_ret 0 | Some i => st_lift (ReadUintN 4 (item_Value i)) end.

(** [GenUInt64StorageItem(v).ToArray()] and [GenUInt32StorageItem(v).ToArray()]. *)
Definition GenUInt64StorageItem (value : Z) : res StorageItem :=
  let* '(_, s) := Sink.WriteUint64 value (Sink.NewZeroCopySink None) in Ok (mkItem x00 (Sink.Bytes s)).
Definition GenUInt32StorageItem (value : Z) : StorageItem := mkItem x00 (z2le 4 value).

Definition put_item (key : list byte) (item : res StorageItem) : NM unit :=
  do i <- st_lift item; do raw <- st_lift (SerializeToBytes i); db_Put key raw.

End Service.

(** ** The ONG release schedule *)

Definition ONT_TOTAL_SUPPLY : Z := 1000000000.
Definition ONG_TOTAL_SUPPLY : Z := 1000000000000000000.
Definition TIME_INTERVAL : Z := 31536000.
Definition GENERATION_AMOUNT : list Z := [5; 4; 3; 3; 2; 2; 2; 1; 1; 1; 1; 1; 1; 1; 1; 1; 1; 1].
(** [time.Date(2018, time.June, 30, 0, 0, 0, 0, time.UTC).Unix()] *)
Definition GENESIS_BLOCK_TIMESTAMP : Z := 1530316800.

(** The initialiser of [UNBOUND_DEADLINE]; its consistency check does not panic. *)
Definition unbound_count : Z := u64 (fold_left (fun count m => u64 (count + m)) GENERATION_AMOUNT 0 * TIME_INTERVAL).
Definition UNBOUND_DEADLINE : Z :=
  u32 (u32 (TIME_INTERVAL * zlen GENERATION_AMOUNT) - u32 (unbound_count - ONT_TOTAL_SUPPLY)).

Definition generation (i : Z) : res Z :=
  match GENERATION_AMOUNT !! Z.to_nat i with Some g => Ok g | None => Panic end.

(** [for ustart < uend { amount += ...; ustart++; istart = 0 }]; at most as many rounds
    as there are intervals. *)
Fixpoint unbind_loop (fuel : nat) (ustart uend istart amount : Z) : res (Z * Z * Z) :=
  match fuel with
  | O => Panic
  | S f =>
      if ustart <? uend then
        let* g := generation ustart in
        unbind_loop f (u32 (ustart + 1)) uend 0 (u64 (amount + u64 (u32 (TIME_INTERVAL - istart) * g)))
      else Ok (ustart, istart, amount)
  end.

Definition CalcUnbindOng (balance startOffset endOffset : Z) : res Z :=
  if endOffset <=? startOffset then Ok 0
  else if startOffset <? UNBOUND_DEADLINE then
    let ustart := startOffset / TIME_INTERVAL in
    let istart := startOffset mod TIME_INTERVAL in
    let endOffset := if UNBOUND_DEADLINE <=? endOffset then UNBOUND_DEADLINE else endOffset in
    let uend := endOffset / TIME_INTERVAL in
    let iend := endOffset mod TIME_INTERVAL in
    let* '(ustart, istart, amount) := unbind_loop 20 ustart uend istart 0 in
    let* g := generation ustart in
    Ok (u64 (u64 (amount + u64 (u32 (iend - istart) * g)) * balance))
  else Ok (u64 (0 * balance)).
