(* ===== verification/UnbindOng.v ===== *)
(** * The ONG release schedule is a cumulative sum

    [CalcUnbindOng] computes the ONG released to a balance between two times as a
    loop over years; here it is the difference of one cumulative function. *)

From S2P Require Import Prelude NativeService.

(** Seconds of a year elapsed after [t] seconds. *)
Definition elapsed (t : Z) : Z := Z.max 0 (Z.min t TIME_INTERVAL).

(** ONG per ONT after [t] seconds at the yearly rates [l]. *)
Fixpoint released_by (l : list Z) (t : Z) : Z :=
  match l with [] => 0 | g :: l => g * elapsed t + released_by l (t - TIME_INTERVAL) end.

Definition released (t : Z) : Z := released_by GENERATION_AMOUNT (Z.min t UNBOUND_DEADLINE).

Definition rate (i : Z) : Z := nth (Z.to_nat i) GENERATION_AMOUNT 0.
Definition sumZ (l : list Z) : Z := foldr Z.add 0 l.

Lemma released_by_neg l : forall t, t <= 0 -> released_by l t = 0.
Proof.
  induction l as [|g l IH]; intros t Ht; [reflexivity|]. cbn [released_by]. unfold elapsed, TIME_INTERVAL in *. rewrite IH by lia.
  rewrite Z.max_l by lia. lia.
Qed.

(** In the year [u], after [r] seconds of it. *)
Lemma released_by_at l : forall u r, (u < length l)%nat -> 0 <= r <= TIME_INTERVAL ->
  released_by l (Z.of_nat u * TIME_INTERVAL + r) = TIME_INTERVAL * sumZ (take u l) + r * nth u l 0.
Proof.
  induction l as [|g l IH]; intros u r Hu Hr; [cbn in Hu; lia|]. cbn [released_by]. unfold elapsed. unfold TIME_INTERVAL in *. destruct u as [|u].
  - rewrite released_by_neg by lia. cbn [take sumZ foldr nth]. rewrite Z.min_l, Z.max_r by lia. lia.
  - replace (Z.of_nat (S u) * 31536000 + r - 31536000) with (Z.of_nat u * 31536000 + r) by lia.
    rewrite IH by (cbn in Hu; lia). cbn [take sumZ foldr nth]. fold (sumZ (take u l)). rewrite Z.min_r, Z.max_r by lia. lia.
Qed.

Definition cum (u r : Z) : Z := TIME_INTERVAL * sumZ (take (Z.to_nat u) GENERATION_AMOUNT) + r * rate u.

Lemma released_at t : 0 <= t -> t / TIME_INTERVAL < 18 ->
  released_by GENERATION_AMOUNT t = cum (t / TIME_INTERVAL) (t mod TIME_INTERVAL).
Proof.
  intros Ht Hu. pose proof (Z.div_pos t TIME_INTERVAL Ht ltac:(unfold TIME_INTERVAL; lia)).
  pose proof (Z.mod_pos_bound t TIME_INTERVAL ltac:(unfold TIME_INTERVAL; lia)).
  rewrite (Z.div_mod t TIME_INTERVAL) at 1 by (unfold TIME_INTERVAL; lia). unfold cum, rate.
  replace (TIME_INTERVAL * (t / TIME_INTERVAL)) with (Z.of_nat (Z.to_nat (t / TIME_INTERVAL)) * TIME_INTERVAL)
    by (rewrite Z2Nat.id by assumption; apply Z.mul_comm).
  apply released_by_at; [|lia]. change (length GENERATION_AMOUNT) with 18%nat. lia.
Qed.

Lemma generation_rate i : 0 <= i < 18 -> generation i = Ok (rate i) /\ 1 <= rate i <= 5.
Proof.
  intros Hi. assert (Hn : exists n, i = Z.of_nat n /\ (n < 18)%nat) by (exists (Z.to_nat i); lia). destruct Hn as (n & -> & Hn).
  unfold generation, rate. rewrite Nat2Z.id. do 18 (destruct n as [|n]; [split; [reflexivity | cbn; lia]|]). lia.
Qed.

Lemma cum_next u : 0 <= u < 17 -> cum (u + 1) 0 = cum u TIME_INTERVAL.
Proof.
  intros Hu. assert (Hn : exists n, u = Z.of_nat n /\ (n < 17)%nat) by (exists (Z.to_nat u); lia). destruct Hn as (n & -> & Hn).
  unfold cum, rate. replace (Z.to_nat (Z.of_nat n + 1)) with (S n) by lia. rewrite Nat2Z.id.
  do 17 (destruct n as [|n]; [reflexivity|]). lia.
Qed.

Lemma cum_bound u r : 0 <= u < 18 -> 0 <= r <= TIME_INTERVAL -> 0 <= cum u r <= 2 ^ 33.
Proof.
  intros Hu Hr. assert (Hn : exists n, u = Z.of_nat n /\ (n < 18)%nat) by (exists (Z.to_nat u); lia). destruct Hn as (n & -> & Hn).
  unfold cum, rate, TIME_INTERVAL in *. rewrite Nat2Z.id. do 18 (destruct n as [|n]; [cbn [take sumZ foldr nth GENERATION_AMOUNT]; lia|]). lia.
Qed.

Lemma unbind_loop_spec fuel : forall us ue i amount, 0 <= us -> us < ue -> ue < 18 -> 0 <= i < TIME_INTERVAL ->
  0 <= amount <= cum us i -> (Z.to_nat (ue - us) < fuel)%nat ->
  unbind_loop fuel us ue i amount = Ok (ue, 0, amount + (cum ue 0 - cum us i)).
Proof.
  induction fuel as [|f IH]; intros us ue i amount H0 Hlt H18 Hi Ha Hf; [lia|]. cbn [unbind_loop].
  rewrite (proj2 (Z.ltb_lt us ue)) by lia. destruct (generation_rate us ltac:(lia)) as [-> Hr]. cbn [res_bind].
  assert (Eu : u32 (us + 1) = us + 1) by (apply u32_small; unfold is_u32; lia). rewrite Eu.
  assert (Ei : u32 (TIME_INTERVAL - i) = TIME_INTERVAL - i) by (apply u32_small; unfold is_u32, TIME_INTERVAL in *; lia). rewrite Ei.
  pose proof (cum_bound us i ltac:(lia) ltac:(lia)) as Hcb.
  assert (Hm : 0 <= (TIME_INTERVAL - i) * rate us <= 2 ^ 30) by (unfold TIME_INTERVAL in *; nia).
  rewrite (u64_small ((TIME_INTERVAL - i) * rate us)), u64_small by (unfold is_u64; lia).
  assert (Ec : cum us i + (TIME_INTERVAL - i) * rate us = cum (us + 1) 0) by (rewrite cum_next by lia; unfold cum; ring).
  destruct (Z.eq_dec (us + 1) ue) as [<-|Hne].
  - destruct f as [|f]; [lia|]. cbn [unbind_loop]. rewrite Z.ltb_irrefl. do 2 f_equal. lia.
  - rewrite IH by (unfold TIME_INTERVAL in *; lia). do 2 f_equal. lia.
Qed.

Lemma deadline_value : UNBOUND_DEADLINE = 558496000.
Proof. vm_compute. reflexivity. Qed.

Lemma year_of t : 0 <= t <= UNBOUND_DEADLINE -> 0 <= t / TIME_INTERVAL < 18.
Proof. rewrite deadline_value. unfold TIME_INTERVAL. intros Ht. split; [apply Z.div_pos; lia | apply Z.div_lt_upper_bound; lia]. Qed.

Lemma released_by_mono l : Forall (fun g => 0 <= g) l -> forall s t, s <= t -> released_by l s <= released_by l t.
Proof.
  induction 1 as [|g l Hg _ IH]; intros s t Hst; cbn [released_by]; [lia|]. specialize (IH (s - TIME_INTERVAL) (t - TIME_INTERVAL) ltac:(lia)).
  unfold elapsed. assert (Z.max 0 (Z.min s TIME_INTERVAL) <= Z.max 0 (Z.min t TIME_INTERVAL)) by lia. nia.
Qed.

Lemma released_range t : 0 <= t -> 0 <= released t <= ONT_TOTAL_SUPPLY.
Proof.
  intros Ht. assert (Hg : Forall (fun g => 0 <= g) GENERATION_AMOUNT) by (unfold GENERATION_AMOUNT; repeat constructor; lia).
  unfold released. split.
  - rewrite <- (released_by_neg GENERATION_AMOUNT 0) by lia. apply released_by_mono; [exact Hg|]. rewrite deadline_value. lia.
  - transitivity (released_by GENERATION_AMOUNT UNBOUND_DEADLINE); [apply released_by_mono; [exact Hg | lia]|]. vm_compute. discriminate.
Qed.

Lemma released_mono s t : s <= t -> released s <= released t.
Proof. intros Hst. apply released_by_mono; [unfold GENERATION_AMOUNT; repeat constructor; lia | lia]. Qed.

Lemma CalcUnbindOng_released b s e : 0 <= b <= ONT_TOTAL_SUPPLY -> is_u32 s -> is_u32 e ->
  CalcUnbindOng b s e = Ok (b * Z.max 0 (released e - released s)).
Proof.
  intros Hb Hs He. unfold is_u32 in *. pose proof (released_range s ltac:(lia)) as Rs. pose proof (released_range e ltac:(lia)) as Re.
  unfold CalcUnbindOng. destruct (Z.leb_spec e s) as [Hle|Hlt]; [pose proof (released_mono e s Hle); rewrite Z.max_l by lia; f_equal; lia|].
  pose proof (released_mono s e ltac:(lia)) as Hse. rewrite Z.max_r by lia.
  destruct (Z.ltb_spec s UNBOUND_DEADLINE) as [Hd|Hd].
  2: { assert (E : released e = released s) by (unfold released; rewrite !Z.min_r by lia; reflexivity). rewrite E. f_equal. rewrite Z.mul_0_l. change (u64 0) with 0. lia. }
  set (e' := if UNBOUND_DEADLINE <=? e then UNBOUND_DEADLINE else e).
  assert (Ee : e' = Z.min e UNBOUND_DEADLINE) by (unfold e'; destruct (Z.leb_spec UNBOUND_DEADLINE e); lia).
  assert (Hes : s < e' <= UNBOUND_DEADLINE) by lia.
  assert (RE : released e = cum (e' / TIME_INTERVAL) (e' mod TIME_INTERVAL)) by (unfold released; rewrite <- Ee; apply released_at; [lia | apply year_of; lia]).
  assert (RS : released s = cum (s / TIME_INTERVAL) (s mod TIME_INTERVAL)) by (unfold released; rewrite Z.min_l by lia; apply released_at; [lia | apply year_of; lia]).
  clearbody e'. clear Ee. pose proof (year_of s ltac:(lia)) as Ys. pose proof (year_of e' ltac:(lia)) as Ye.
  assert (HT : 0 < TIME_INTERVAL) by (unfold TIME_INTERVAL; lia).
  pose proof (Z.mod_pos_bound s TIME_INTERVAL HT) as Ms. pose proof (Z.mod_pos_bound e' TIME_INTERVAL HT) as Me.
  pose proof (Z.div_le_mono s e' TIME_INTERVAL HT ltac:(lia)) as Hdiv.
  assert (Hi : s / TIME_INTERVAL = e' / TIME_INTERVAL -> s mod TIME_INTERVAL < e' mod TIME_INTERVAL).
  { intros E. pose proof (Z.div_mod s TIME_INTERVAL ltac:(lia)). pose proof (Z.div_mod e' TIME_INTERVAL ltac:(lia)). rewrite E in *. lia. }
  set (us := s / TIME_INTERVAL) in *. set (ue := e' / TIME_INTERVAL) in *. set (i0 := s mod TIME_INTERVAL) in *. set (i1 := e' mod TIME_INTERVAL) in *.
  destruct (generation_rate ue ltac:(lia)) as [Hgen Hr]. unfold TIME_INTERVAL, ONT_TOTAL_SUPPLY in *.
  destruct (Z.eq_dec us ue) as [E|Hne].
  - specialize (Hi E).
    cbn [unbind_loop]. rewrite E, Z.ltb_irrefl. cbn [res_bind]. rewrite Hgen. cbn [res_bind]. f_equal.
    rewrite (u32_small (i1 - i0)) by (unfold is_u32; lia). rewrite (u64_small ((i1 - i0) * rate ue)) by (unfold is_u64; nia).
    assert (Ec : 0 + (i1 - i0) * rate ue = released e - released s) by (rewrite RE, RS, E; unfold cum; ring).
    rewrite Ec, (u64_small (released e - released s)), u64_small by (unfold is_u64; nia). lia.
  - pose proof (cum_bound us i0 ltac:(lia) ltac:(unfold TIME_INTERVAL; lia)). rewrite unbind_loop_spec by (unfold TIME_INTERVAL; lia). cbn [res_bind]. rewrite Hgen. cbn [res_bind]. f_equal. rewrite Z.sub_0_r.
    rewrite (u32_small i1) by (unfold is_u32; lia). rewrite (u64_small (i1 * rate ue)) by (unfold is_u64; nia).
    assert (Ec : 0 + (cum ue 0 - cum us i0) + i1 * rate ue = released e - released s) by (rewrite RE, RS; unfold cum; ring).
    rewrite Ec, (u64_small (released e - released s)), u64_small by (unfold is_u64; nia). lia.
Qed.

(** For every balance that can exist and every two times, [CalcUnbindOng] is exact, without
    overflow or index panic: it is the balance times the difference of the cumulative release per ONT,
    which starts at zero, never decreases and ends at [ONT_TOTAL_SUPPLY] per ONT; so
    consecutive periods add up, and the whole ONT supply releases exactly the ONG supply. *)
Theorem unbind_schedule_exact (b s m e : Z) :
  0 <= b <= ONT_TOTAL_SUPPLY -> is_u32 s -> is_u32 m -> is_u32 e -> s <= m <= e ->
  CalcUnbindOng b s e = Ok (b * (released e - released s)) /\
  (exists x y, CalcUnbindOng b s m = Ok x /\ CalcUnbindOng b m e = Ok y /\ CalcUnbindOng b s e = Ok (x + y)) /\
  released 0 = 0 /\ (UNBOUND_DEADLINE <= e -> CalcUnbindOng ONT_TOTAL_SUPPLY 0 e = Ok ONG_TOTAL_SUPPLY).
Proof.
  intros Hb Hs Hm He Hsme.
  pose proof (released_mono s m ltac:(lia)). pose proof (released_mono m e ltac:(lia)).
  rewrite !CalcUnbindOng_released by (assumption || unfold is_u32, ONT_TOTAL_SUPPLY in *; lia). rewrite !Z.max_r by lia.
  split; [reflexivity|]. split; [eexists _, _; split; [reflexivity|]; split; [reflexivity | f_equal; lia]|].
  split; [vm_compute; reflexivity|]. intros Hd. f_equal.
  unfold released at 1. rewrite Z.min_r by lia. vm_compute. reflexivity.
Qed.

Lemma unbind_schedule_exact_witness : CalcUnbindOng 100 0 31536001 = Ok (100 * (5 * 31536000 + 4)).
Proof.
  destruct (unbind_schedule_exact 100 0 5 31536001) as (E & _); try (unfold ONT_TOTAL_SUPPLY, is_u32; lia). rewrite E. vm_compute. reflexivity.
Defined.
