(* ===== verification/OntOng.v ===== *)
(** * The native tokens

    [smartcontract/service/native/ont/ont.go] and [utils.go], [ong/ong.go], and the dispatch of
    [native_service.go].  ONT is the token; holding it releases ONG, which ONT transfers
    grant to both parties as an allowance from the ONT contract. *)

From S2P Require Import Prelude Codec BigInt NativeData NativeService.

Definition bytes_of (s : string) : list byte := Stdlib.Strings.String.list_byte_of_string s.

Definition BYTE_FALSE : list byte := [x00].
Definition BYTE_TRUE : list byte := [x01].
Definition OntContractAddress : Address := repeat x00 19 ++ [x01].
Definition OngContractAddress : Address := repeat x00 19 ++ [x02].

Definition UNBOUND_TIME_OFFSET : string := "unboundTimeOffset".
Definition TOTAL_SUPPLY_NAME : string := "totalSupply".
Definition INIT_NAME : string := "init".
Definition TRANSFER_NAME : string := "transfer".
Definition APPROVE_NAME : string := "approve".
Definition TRANSFERFROM_NAME : string := "transferFrom".
Definition NAME_NAME : string := "name".
Definition SYMBOL_NAME : string := "symbol".
Definition DECIMALS_NAME : string := "decimals".
Definition TOTALSUPPLY_NAME : string := "totalSupply".
Definition BALANCEOF_NAME : string := "balanceOf".
Definition ALLOWANCE_NAME : string := "allowance".

Definition TRANSFER_FLAG : Z := 1.
Definition APPROVE_FLAG : Z := 2.

(** ** Keys *)

Definition GenTotalSupplyKey (contract : Address) : list byte := contract ++ bytes_of TOTAL_SUPPLY_NAME.
Definition GenBalanceKey (contract addr : Address) : list byte := contract ++ addr.
Definition GenApproveKey (contract from to : Address) : list byte := contract ++ from ++ to.
Definition genTransferFromKey (contract : Address) (state : TransferFrom) : list byte :=
  contract ++ tf_From state ++ tf_Sender state.
Definition genAddressUnboundOffsetKey (contract address : Address) : list byte :=
  contract ++ bytes_of UNBOUND_TIME_OFFSET ++ address.

(** A parameter read from a buffer. *)
Definition decode {A} (p : ST ZeroCopySource A) (b : list byte) : res A :=
  match p (NewZeroCopySource b) with Ok (a, _) => Ok a | Err e => Err e | Panic => Panic end.

Section Tokens.
Context {D : Type} `{HD : KVCache D} `{HB58 : Base58}.
Local Notation NM := (@NM D).

Definition AddNotifications (contract : Address) (state : State) : NM unit := fun n =>
  if negb (EnableEventLog n) then Ok ((), n)
  else Ok ((), set_Notifications (Notifications n ++
         [mkEvent contract TRANSFER_NAME (ToBase58 (st_From state)) (ToBase58 (st_To state)) (st_Value state)]) n).

Definition GetToUInt64StorageItem (toBalance value : Z) : res StorageItem := GenUInt64StorageItem (u64 (toBalance + value)).

(** ** [ont/utils.go] *)

Definition fromTransfer (fromKey : list byte) (value : Z) : NM Z :=
  do fromBalance <- GetStorageUInt64 fromKey;
  if fromBalance <? value then st_err "[Transfer] balance insufficient."
  else if fromBalance =? value then do_ db_Delete fromKey; st_ret fromBalance
  else do_ put_item fromKey (GenUInt64StorageItem (u64 (fromBalance - value))); st_ret fromBalance.

Definition toTransfer (toKey : list byte) (value : Z) : NM Z :=
  do toBalance <- GetStorageUInt64 toKey;
  do_ put_item toKey (GetToUInt64StorageItem toBalance value);
  st_ret toBalance.

Definition fromApprove (fromApproveKey : list byte) (value : Z) : NM unit :=
  do approveValue <- GetStorageUInt64 fromApproveKey;
  if approveValue <? value then st_err "[TransferFrom] approve balance insufficient!"
  else if approveValue =? value then db_Delete fromApproveKey
  else put_item fromApproveKey (GenUInt64StorageItem (u64 (approveValue - value))).

Definition authentication (a : Address) : NM unit :=
  do ok <- check_witness a; st_guard ok "authentication failed!".

Definition Transfer (contract : Address) (state : State) : NM (Z * Z) :=
  do_ authentication (st_From state);
  do fromBalance <- fromTransfer (GenBalanceKey contract (st_From state)) (st_Value state);
  do toBalance <- toTransfer (GenBalanceKey contract (st_To state)) (st_Value state);
  st_ret (fromBalance, toBalance).

Definition TransferedFrom (currentContract : Address) (state : TransferFrom) : NM (Z * Z) :=
  do_ authentication (tf_Sender state);
  do_ fromApprove (genTransferFromKey currentContract state) (tf_Value state);
  do fromBalance <- fromTransfer (GenBalanceKey currentContract (tf_From state)) (tf_Value state);
  do toBalance <- toTransfer (GenBalanceKey currentContract (tf_To state)) (tf_Value state);
  st_ret (fromBalance, toBalance).

Definition getUnboundOffset (contract address : Address) : NM Z :=
  GetStorageUInt32 (genAddressUnboundOffsetKey contract address).

(** The contract's own input, decoded. *)
Definition input {A} (p : ST ZeroCopySource A) : NM A := fun n => st_lift (decode p (Input n)) n.

(** ** ONT

    [call] is [NativeCall] of the service. *)

Section Ont.
Variable call : Address -> string -> list byte -> NM (list byte).

Definition getApproveArgs (contract ongContract address : Address) (value : Z) : NM (list byte) :=
  do stateValue <- GetStorageUInt64 (GenApproveKey ongContract contract address);
  st_lift (SerializeToBytes (mkState contract address (u64 (value + stateValue)))).

Definition grantOng (contract address : Address) (balance : Z) : NM unit :=
  do startOffset <- getUnboundOffset contract address;
  do n <- st_get;
  if Time n <=? GENESIS_BLOCK_TIMESTAMP then st_ret ()
  else
    let endOffset := u32 (Time n - GENESIS_BLOCK_TIMESTAMP) in
    if endOffset <? startOffset then
      if PreExec n then st_ret () else st_err "grant Ong error: wrong timestamp"
    else if endOffset =? startOffset then st_ret ()
    else
      do_ (if negb (balance =? 0) then
             do value <- st_lift (CalcUnbindOng balance startOffset endOffset);
             do args <- getApproveArgs contract OngContractAddress address value;
             do_ call OngContractAddress APPROVE_NAME args;
             st_ret ()
           else st_ret ());
      put_item (genAddressUnboundOffsetKey contract address) (Ok (GenUInt32StorageItem endOffset)).

Fixpoint ont_transfers (contract : Address) (l : list State) : NM unit :=
  match l with
  | [] => st_ret ()
  | v :: l =>
      if st_Value v =? 0 then ont_transfers contract l
      else
        do_ st_guard (negb (ONT_TOTAL_SUPPLY <? st_Value v)) "transfer ont amount over totalSupply";
        do '(fromBalance, toBalance) <- Transfer contract v;
        do_ grantOng contract (st_From v) fromBalance;
        do_ grantOng contract (st_To v) toBalance;
        do_ AddNotifications contract v;
        ont_transfers contract l
  end.

Definition OntTransfer : NM (list byte) :=
  do transfers <- input Des.Transfers;
  do contract <- current_contract;
  do_ ont_transfers contract (States transfers);
  st_ret BYTE_TRUE.

Definition OntTransferFrom : NM (list byte) :=
  do state <- input Des.TransferFrom;
  if tf_Value state =? 0 then st_ret BYTE_FALSE
  else
    do_ st_guard (negb (ONT_TOTAL_SUPPLY <? tf_Value state)) "transferFrom ont amount over totalSupply";
    do contract <- current_contract;
    do '(fromBalance, toBalance) <- TransferedFrom contract state;
    do_ grantOng contract (tf_From state) fromBalance;
    do_ grantOng contract (tf_To state) toBalance;
    do_ AddNotifications contract (mkState (tf_From state) (tf_To state) (tf_Value state));
    st_ret BYTE_TRUE.

End Ont.

(** The genesis distribution: addresses with amounts, summed with overflow check. *)
Fixpoint read_distribution (fuel : nat) (i num sum : Z) (distribute : gmap Address Z) : ST ZeroCopySource (Z * gmap Address Z) :=
  match fuel with
  | O => st_panic
  | S f =>
      if i <? num then
        do addr <- DecodeAddress;
        do value <- DecodeVarUint;
        let '(sum, overflow) := SafeAdd sum value in
        do_ st_guard (negb overflow) "wrong config. overflow detected";
        read_distribution f (i + 1) num sum (<[addr := u64 (default 0 (distribute !! addr) + value)]> distribute)
      else st_ret (sum, distribute)
  end.

Definition parse_distribution : ST ZeroCopySource (Z * gmap Address Z) :=
  do num <- DecodeVarUint;
  do src <- st_get;
  read_distribution (S (length (src_s src))) 0 num 0 ∅.

(** [for addr, val := range distribute]: the order of the map is not fixed. *)
Fixpoint put_balances (contract : Address) (l : list (Address * Z)) : NM unit :=
  match l with
  | [] => st_ret ()
  | (addr, val) :: l =>
      do_ put_item (GenBalanceKey contract addr) (GenUInt64StorageItem val);
      do_ AddNotifications contract (mkState ADDRESS_EMPTY addr val);
      put_balances contract l
  end.

(** With the parameters cut short the error returned is [errors.NewDetailErr(err, ...)] of a nil [err],
    which is nil: the call returns [BYTE_FALSE] and no error. *)
Definition OntInit : NM (list byte) :=
  do contract <- current_contract;
  do amount <- GetStorageUInt64 (GenTotalSupplyKey contract);
  do_ st_guard (negb (0 <? amount)) "Init ont has been completed!";
  do '(buf, _, irregular, eof) <- input Source.NextVarBytes;
  if eof then st_ret BYTE_FALSE
  else
    do_ st_guard (negb irregular) ErrIrregularData;
    do '(sum, distribute) <- st_lift (decode parse_distribution buf);
    do_ st_guard (sum =? ONT_TOTAL_SUPPLY) "wrong config. total supply";
    do_ put_balances contract (map_to_list distribute);
    do_ put_item (GenTotalSupplyKey contract) (GenUInt64StorageItem ONT_TOTAL_SUPPLY);
    st_ret BYTE_TRUE.

(** [OntApprove] and [OngApprove] differ in the limit. *)
Definition approve (supply : Z) : NM (list byte) :=
  do state <- input Des.State;
  do_ st_guard (negb (supply <? st_Value state)) "approve amount over totalSupply";
  do_ authentication (st_From state);
  do contract <- current_contract;
  do_ put_item (GenApproveKey contract (st_From state) (st_To state)) (GenUInt64StorageItem (st_Value state));
  st_ret BYTE_TRUE.
Definition OntApprove : NM (list byte) := approve ONT_TOTAL_SUPPLY.

Definition OntName : NM (list byte) := st_ret (bytes_of "ONT Token").
Definition OntSymbol : NM (list byte) := st_ret (bytes_of "ONT").
Definition OntDecimals : NM (list byte) := st_ret (BigIntToNeoBytes 0).

(** [BigIntToNeoBytes(big.NewInt(int64(amount)))] *)
Definition amount_bytes (amount : Z) : list byte := BigIntToNeoBytes (s64 amount).

Definition OntTotalSupply : NM (list byte) :=
  do contract <- current_contract;
  do amount <- GetStorageUInt64 (GenTotalSupplyKey contract);
  st_ret (amount_bytes amount).

Definition balance_key (flag : Z) (contract from : Address) : ST ZeroCopySource (list byte) :=
  if flag =? APPROVE_FLAG then do to <- DecodeAddress; st_ret (GenApproveKey contract from to)
  else if flag =? TRANSFER_FLAG then st_ret (GenBalanceKey contract from)
  else st_ret [].
Definition GetBalanceValue (flag : Z) : NM (list byte) :=
  do n <- st_get;
  do '(from, source) <- st_lift (DecodeAddress (NewZeroCopySource (Input n)));
  do contract <- current_contract;
  do '(key, _) <- st_lift (balance_key flag contract from source);
  do amount <- GetStorageUInt64 key;
  st_ret (amount_bytes amount).
Definition OntBalanceOf : NM (list byte) := GetBalanceValue TRANSFER_FLAG.
Definition OntAllowance : NM (list byte) := GetBalanceValue APPROVE_FLAG.

(** ** ONG *)

Definition OngInit : NM (list byte) :=
  do contract <- current_contract;
  do amount <- GetStorageUInt64 (GenTotalSupplyKey contract);
  do_ st_guard (negb (0 <? amount)) "Init ong has been completed!";
  do_ put_item (GenTotalSupplyKey contract) (GenUInt64StorageItem ONG_TOTAL_SUPPLY);
  do_ put_item (contract ++ OntContractAddress) (GenUInt64StorageItem ONG_TOTAL_SUPPLY);
  do_ AddNotifications contract (mkState ADDRESS_EMPTY OntContractAddress ONG_TOTAL_SUPPLY);
  st_ret BYTE_TRUE.

Fixpoint ong_transfers (contract : Address) (l : list State) : NM unit :=
  match l with
  | [] => st_ret ()
  | v :: l =>
      if st_Value v =? 0 then ong_transfers contract l
      else
        do_ st_guard (negb (ONG_TOTAL_SUPPLY <? st_Value v)) "transfer ong amount over totalSupply";
        do_ Transfer contract v;
        do_ AddNotifications contract v;
        ong_transfers contract l
  end.

Definition OngTransfer : NM (list byte) :=
  do transfers <- input Des.Transfers;
  do contract <- current_contract;
  do_ ong_transfers contract (States transfers);
  st_ret BYTE_TRUE.

Definition OngApprove : NM (list byte) := approve ONG_TOTAL_SUPPLY.

Definition OngTransferFrom : NM (list byte) :=
  do state <- input Des.TransferFrom;
  if tf_Value state =? 0 then st_ret BYTE_FALSE
  else
    do_ st_guard (negb (ONG_TOTAL_SUPPLY <? tf_Value state)) "approve ong amount over totalSupply";
    do contract <- current_contract;
    do_ TransferedFrom contract state;
    do_ AddNotifications contract (mkState (tf_From state) (tf_To state) (tf_Value state));
    st_ret BYTE_TRUE.

Definition OngName : NM (list byte) := st_ret (bytes_of "ONG Token").
Definition OngSymbol : NM (list byte) := st_ret (bytes_of "ONG").
Definition OngDecimals : NM (list byte) := st_ret (big_Bytes 9).
Definition OngTotalSupply : NM (list byte) := OntTotalSupply.
Definition OngBalanceOf : NM (list byte) := GetBalanceValue TRANSFER_FLAG.
Definition OngAllowance : NM (list byte) := GetBalanceValue APPROVE_FLAG.

(** ** Registration and dispatch *)

Definition RegisterOntContract : list (string * Handler) :=
  [(INIT_NAME, H_OntInit); (TRANSFER_NAME, H_OntTransfer); (APPROVE_NAME, H_OntApprove);
   (TRANSFERFROM_NAME, H_OntTransferFrom); (NAME_NAME, H_OntName); (SYMBOL_NAME, H_OntSymbol);
   (DECIMALS_NAME, H_OntDecimals); (TOTALSUPPLY_NAME, H_OntTotalSupply); (BALANCEOF_NAME, H_OntBalanceOf);
   (ALLOWANCE_NAME, H_OntAllowance)].
Definition RegisterOngContract : list (string * Handler) :=
  [(INIT_NAME, H_OngInit); (TRANSFER_NAME, H_OngTransfer); (APPROVE_NAME, H_OngApprove);
   (TRANSFERFROM_NAME, H_OngTransferFrom); (NAME_NAME, H_OngName); (SYMBOL_NAME, H_OngSymbol);
   (DECIMALS_NAME, H_OngDecimals); (TOTALSUPPLY_NAME, H_OngTotalSupply); (BALANCEOF_NAME, H_OngBalanceOf);
   (ALLOWANCE_NAME, H_OngAllowance)].

(** The registered contracts, of which the tokens are modelled. *)
Definition Contracts (address : Address) : option (list (string * Handler)) :=
  if decide (address = OntContractAddress) then Some RegisterOntContract
  else if decide (address = OngContractAddress) then Some RegisterOngContract else None.

Definition run_handler (call : Address -> string -> list byte -> NM (list byte)) (h : Handler) : NM (list byte) :=
  match h with
  | H_OntInit => OntInit | H_OntTransfer => OntTransfer call | H_OntApprove => OntApprove
  | H_OntTransferFrom => OntTransferFrom call | H_OntName => OntName | H_OntSymbol => OntSymbol
  | H_OntDecimals => OntDecimals | H_OntTotalSupply => OntTotalSupply | H_OntBalanceOf => OntBalanceOf
  | H_OntAllowance => OntAllowance
  | H_OngInit => OngInit | H_OngTransfer => OngTransfer | H_OngApprove => OngApprove
  | H_OngTransferFrom => OngTransferFrom | H_OngName => OngName | H_OngSymbol => OngSymbol
  | H_OngDecimals => OngDecimals | H_OngTotalSupply => OngTotalSupply | H_OngBalanceOf => OngBalanceOf
  | H_OngAllowance => OngAllowance
  end.

Definition modify (f : NativeService -> NativeService) : NM unit := fun n => Ok ((), f n).

(** [NativeCall], that is [Invoke] with the parameter set.  A contract may call
    another, so the depth is bounded by [fuel]; the tokens nest two calls.  The service map
    accumulates the handlers of the contracts called so far.  [CrossHashes], saved and
    restored the same way, is left out: no token handler touches it. *)
Fixpoint NativeCall (fuel : nat) (address : Address) (method : string) (args : list byte) : NM (list byte) :=
  match fuel with
  | O => st_panic
  | S f =>
      match Contracts address with
      | None => st_err "Native contract address haven't been registered."
      | Some services =>
          do_ modify (fun n => set_ServiceMap (foldl (fun m s => <[fst s := snd s]> m) (ServiceMap n) services) n);
          do n <- st_get;
          match ServiceMap n !! method with
          | None => st_err "Native contract doesn't support this function."
          | Some service =>
              do_ modify (fun n => set_Notifications [] (set_ContextRef (PushContext address (ContextRef n)) (set_Input args n)));
              do result <- run_handler (NativeCall f) service;
              do_ modify (fun m =>
                let sc := PushNotifications (Notifications m) (PopContext (ContextRef m)) in
                set_Input (Input n) (set_Notifications (Notifications n) (set_ContextRef sc m)));
              st_ret result
          end
      end
  end.

End Tokens.
