(* ===== verification/TokenTheory.v ===== *)
(** * Storage of the tokens

    What the storage operations of the token contracts do to the map that the cache shows:
    amounts stored and read back, keys that cannot clash, balances as a function, and the
    effect of moving an amount. *)

From S2P Require Import Prelude Codec BigInt MemDbSpec NativeData NativeService OntOng.

(** ** Amounts in storage *)

Definition view_t := list byte -> option (list byte).

(** What [GetStorageUInt64] ([k = 8]) and [GetStorageUInt32] ([k = 4]) read at a key. *)
Definition num_at (k : nat) (f : view_t) (key : list byte) : res Z :=
  match f key with
  | None => Ok 0
  | Some raw => match item_Deserialization (NewZeroCopySource raw) with
                | Ok (i, _) => ReadUintN k (item_Value i)
                | Err _ => Err "[GetStorageItem] instance doesn't StorageItem!"
                | Panic => Panic
                end
  end.

(** The stored form of a number of [k] bytes. *)
Definition stored (k : nat) (v : Z) : list byte := wire (mkItem x00 (z2le k v)).

Definition upd_view (key : list byte) (v : option (list byte)) (f : view_t) : view_t :=
  fun key' => if decide (key = key') then v else f key'.

Lemma zlen_stored k v : (k <= 8)%nat -> 1 <= zlen (stored k v) <= 20.
Proof.
  intros Hk. unfold stored. cbn [wire item_Wire StateVersion item_Value]. unfold enc_varbytes. rewrite zlen_cons, zlen_app, zlen_z2le.
  pose proof (zlen_enc_varuint (Z.of_nat k)). pose proof (getVarUintSize_bounds (Z.of_nat k)). lia.
Qed.

Lemma num_at_stored k v f key : (k <= 8)%nat -> 0 <= v < 256 ^ Z.of_nat k -> f key = Some (stored k v) -> num_at k f key = Ok v.
Proof.
  intros Hk Hv E. unfold num_at. rewrite E. pose proof (zlen_stored k v Hk).
  destruct (parses_all item_Deserialization (mkItem x00 (z2le k v)) (stored k v)) as (src & -> & _); [|lia|].
  { refine (des_parses (mkItem x00 (z2le k v)) _). cbn [wire_ok item_Wire item_Value]. rewrite zlen_z2le. lia. }
  cbn [item_Value]. unfold ReadUintN. rewrite length_z2le, Nat.ltb_irrefl. f_equal.
  rewrite <- (length_z2le k v) at 1. rewrite firstn_all, le2z_z2le. apply Z.mod_small, Hv.
Qed.

Lemma num_at_None k f key : f key = None -> num_at k f key = Ok 0.
Proof. intros E. unfold num_at. rewrite E. reflexivity. Qed.

Lemma num_at_ext k f f' key : f' key = f key -> num_at k f' key = num_at k f key.
Proof. intros E. unfold num_at. rewrite E. reflexivity. Qed.

Lemma num_at_range k f key v : num_at k f key = Ok v -> 0 <= v < 256 ^ Z.of_nat k.
Proof.
  unfold num_at. destruct (f key) as [raw|]; [|intros [= <-]; lia].
  destruct (item_Deserialization _) as [[i s]|e|]; try discriminate. unfold ReadUintN. case_match eqn:E; [discriminate|]. intros [= <-].
  apply Nat.ltb_ge in E. pose proof (le2z_range (take k (item_Value i))) as Hr. rewrite length_take, Nat.min_l in Hr by exact E. exact Hr.
Qed.

Lemma num_at_upd k f key v : (k <= 8)%nat -> 0 <= v < 256 ^ Z.of_nat k -> num_at k (upd_view key (Some (stored k v)) f) key = Ok v.
Proof. intros Hk Hv. apply num_at_stored; [exact Hk | exact Hv|]. unfold upd_view. apply decide_True. reflexivity. Qed.

Lemma upd_view_ne key v f key' : key <> key' -> upd_view key v f key' = f key'.
Proof. intros Hne. unfold upd_view. apply decide_False, Hne. Qed.

(** ** Operations on a service whose cache shows a map *)

Section Ops.
Context {D : Type} `{HD : KVCache D} `{HB58 : Base58}.
Implicit Types n : @NativeService D.

Lemma set_DB_same n : set_DB (CacheDB n) n = n.
Proof. destruct n. reflexivity. Qed.

Lemma set_DB_set d d' n : set_DB d (set_DB d' n) = set_DB d n.
Proof. reflexivity. Qed.

(** The three operations, when the cache of [n] shows [f]. *)
Lemma get_item_view n f key : kv_is (CacheDB n) f -> exists d, kv_is d f /\
  GetStorageItem key n = match f key with
    | None => Ok (None, set_DB d n)
    | Some raw => match item_Deserialization (NewZeroCopySource raw) with
                  | Ok (i, _) => Ok (Some i, set_DB d n)
                  | Err _ => Err "[GetStorageItem] instance doesn't StorageItem!"
                  | Panic => Panic
                  end
    end.
Proof.
  intros Hn. destruct (kv_Get_law _ _ key Hn) as (d & E & Hd). exists d. split; [exact Hd|].
  unfold GetStorageItem, st_bind, db_Get. rewrite E. destruct (f key) as [raw|]; [|reflexivity].
  destruct (item_Deserialization _) as [[i s]|e|]; reflexivity.
Qed.

Lemma get64_view n f key v : kv_is (CacheDB n) f -> num_at 8 f key = Ok v ->
  exists d, GetStorageUInt64 key n = Ok (v, set_DB d n) /\ kv_is d f.
Proof.
  intros Hn Hv. destruct (get_item_view n f key Hn) as (d & Hd & E). exists d. split; [|exact Hd].
  unfold GetStorageUInt64, st_bind. rewrite E. unfold num_at in Hv. destruct (f key) as [raw|]; [|injection Hv as <-; reflexivity].
  destruct (item_Deserialization _) as [[i s]|e|]; try discriminate. unfold st_lift. rewrite Hv. reflexivity.
Qed.

Lemma get32_view n f key v : kv_is (CacheDB n) f -> num_at 4 f key = Ok v ->
  exists d, GetStorageUInt32 key n = Ok (v, set_DB d n) /\ kv_is d f.
Proof.
  intros Hn Hv. destruct (get_item_view n f key Hn) as (d & Hd & E). exists d. split; [|exact Hd].
  unfold GetStorageUInt32, st_bind. rewrite E. unfold num_at in Hv. destruct (f key) as [raw|]; [|injection Hv as <-; reflexivity].
  destruct (item_Deserialization _) as [[i s]|e|]; try discriminate. unfold st_lift. rewrite Hv. reflexivity.
Qed.

(** Storing an item of any value. *)
Definition raw_item (v : list byte) : list byte := wire (mkItem x00 v).

Lemma zlen_raw_item v : 1 <= zlen (raw_item v) <= zlen v + 10.
Proof.
  unfold raw_item. cbn [wire item_Wire StateVersion item_Value]. unfold enc_varbytes. rewrite zlen_cons, zlen_app.
  pose proof (zlen_enc_varuint (zlen v)). pose proof (getVarUintSize_bounds (zlen v)). pose proof (zlen_nonneg v). lia.
Qed.

Lemma put_raw_view n f key v : zlen v < 2 ^ 57 -> kv_is (CacheDB n) f ->
  exists d, put_item key (Ok (mkItem x00 v)) n = Ok ((), set_DB d n) /\ kv_is d (upd_view key (Some (raw_item v)) f).
Proof.
  intros Hv Hn. pose proof (zlen_raw_item v) as Hl. destruct (kv_Put_law _ _ key (raw_item v) Hn) as (d & E & Hd). exists d. split.
  - unfold put_item, st_bind, st_lift. rewrite (SerializeToBytes_wire (mkItem x00 v)).
    + unfold db_Put. fold (raw_item v). rewrite E. reflexivity.
    + cbn [wire_ok item_Wire item_Value]. lia.
    + fold (raw_item v). lia.
  - replace (value_of (raw_item v)) with (Some (raw_item v)) in Hd; [exact Hd|].
    unfold value_of. rewrite (proj2 (Z.eqb_neq _ 0)) by lia. reflexivity.
Qed.

Lemma put_num_view n f key item k v : (k <= 8)%nat -> kv_is (CacheDB n) f -> item = Ok (mkItem x00 (z2le k v)) ->
  exists d, put_item key item n = Ok ((), set_DB d n) /\ kv_is d (upd_view key (Some (stored k v)) f).
Proof. intros Hk Hn ->. apply put_raw_view; [rewrite zlen_z2le; lia | exact Hn]. Qed.

Lemma gen64 v : GenUInt64StorageItem v = Ok (mkItem x00 (z2le 8 v)).
Proof.
  unfold GenUInt64StorageItem. destruct (Sink.appends_WriteUint64 v (Sink.NewZeroCopySink None) Sink.wf_new_sink) as (s & E & _ & B).
  { rewrite zlen_z2le. cbn. lia. }
  rewrite E. cbn [res_bind]. unfold Sink.Bytes. rewrite B. reflexivity.
Qed.

Lemma put64_view n f key v : kv_is (CacheDB n) f ->
  exists d, put_item key (GenUInt64StorageItem v) n = Ok ((), set_DB d n) /\ kv_is d (upd_view key (Some (stored 8 v)) f).
Proof. intros Hn. apply put_num_view; [lia | exact Hn | apply gen64]. Qed.

Lemma delete_key_view n f key : kv_is (CacheDB n) f ->
  exists d, db_Delete key n = Ok ((), set_DB d n) /\ kv_is d (upd_view key None f).
Proof.
  intros Hn. destruct (kv_Delete_law _ _ key Hn) as (d & E & Hd). exists d. split; [unfold db_Delete; rewrite E; reflexivity | exact Hd].
Qed.

(** *** Adding to and taking from an amount *)

(** Between [f] and [f'] only [key] changes, and there is [y] now. *)
Definition changed (key : list byte) (y : Z) (f f' : view_t) : Prop :=
  num_at 8 f' key = Ok y /\ forall key', key <> key' -> f' key' = f key'.

Lemma changed_put key y f : is_u64 y -> changed key y f (upd_view key (Some (stored 8 y)) f).
Proof. intros Hy. split; [apply num_at_upd; [lia | exact Hy] | intros key' Hne; apply upd_view_ne, Hne]. Qed.

Lemma changed_delete key f : changed key 0 f (upd_view key None f).
Proof.
  split; [|intros key' Hne; apply upd_view_ne, Hne]. apply num_at_None. unfold upd_view. apply decide_True. reflexivity.
Qed.

(** Taking: an error when there is too little, and otherwise exact. *)
Lemma take_view n f key x v : kv_is (CacheDB n) f -> num_at 8 f key = Ok x -> 0 <= v ->
  (x < v -> exists e, fromTransfer key v n = Err e /\ exists e', fromApprove key v n = Err e') /\
  (v <= x -> (exists d f', fromTransfer key v n = Ok (x, set_DB d n) /\ kv_is d f' /\ changed key (x - v) f f') /\
             (exists d f', fromApprove key v n = Ok ((), set_DB d n) /\ kv_is d f' /\ changed key (x - v) f f')).
Proof.
  intros Hn Hx Hv. destruct (get64_view n f key x Hn Hx) as (d0 & E & Hd0). pose proof (num_at_range 8 f key x Hx) as Hr.
  unfold fromTransfer, fromApprove. split.
  { intros Hlt. eexists. run E. rewrite (proj2 (Z.ltb_lt x v)) by lia. split; [reflexivity|]. eexists. run E.
    rewrite (proj2 (Z.ltb_lt x v)) by lia. reflexivity. }
  intros Hle. rewrite !(st_bind_eq _ _ _ _ _ E). rewrite (proj2 (Z.ltb_ge x v)) by lia. destruct (Z.eqb_spec x v) as [->|Hne].
  - rewrite Z.sub_diag. destruct (delete_key_view (set_DB d0 n) f key Hd0) as (d & Ed & Hd).
    split; exists d, (upd_view key None f); (split; [|split; [exact Hd | apply changed_delete]]); [run Ed; reflexivity | exact Ed].
  - assert (Hw : is_u64 (x - v)) by (unfold is_u64; change (256 ^ Z.of_nat 8) with (2 ^ 64) in Hr; lia). rewrite (u64_small _ Hw).
    destruct (put64_view (set_DB d0 n) f key (x - v) Hd0) as (d & Ed & Hd).
    split; exists d, (upd_view key (Some (stored 8 (x - v))) f); (split; [|split; [exact Hd | apply changed_put, Hw]]); [run Ed; reflexivity | exact Ed].
Qed.

Lemma give_view n f key x v : kv_is (CacheDB n) f -> num_at 8 f key = Ok x -> 0 <= v -> x + v < 2 ^ 64 ->
  exists d f', toTransfer key v n = Ok (x, set_DB d n) /\ kv_is d f' /\ changed key (x + v) f f'.
Proof.
  intros Hn Hx Hv Hb. destruct (get64_view n f key x Hn Hx) as (d0 & E & Hd0). pose proof (num_at_range 8 f key x Hx) as Hr.
  assert (Hw : is_u64 (x + v)) by (unfold is_u64; lia). unfold toTransfer, GetToUInt64StorageItem. run E. rewrite (u64_small _ Hw).
  destruct (put64_view (set_DB d0 n) f key (x + v) Hd0) as (d & Ed & Hd).
  exists d, (upd_view key (Some (stored 8 (x + v))) f). split; [run Ed; reflexivity|]. split; [exact Hd | apply changed_put, Hw].
Qed.

End Ops.

(** ** Balances *)

Definition balance_t := Address -> Z.

(** The balances of contract [c] that [f] holds. *)
Definition balances (f : view_t) (c : Address) (b : balance_t) : Prop :=
  forall a, addr_ok a -> num_at 8 f (GenBalanceKey c a) = Ok (b a).

Definition set_bal (a : Address) (y : Z) (b : balance_t) : balance_t := fun x => if decide (x = a) then y else b x.

(** Moving [v] from one account to another, which may be the same. *)
Definition move (from to : Address) (v : Z) (b : balance_t) : balance_t :=
  let b1 := set_bal from (b from - v) b in set_bal to (b1 to + v) b1.

Definition total (L : list Address) (b : balance_t) : Z := foldr (fun a s => b a + s) 0 L.

Lemma total_ext L b b' : (forall a, a ∈ L -> b' a = b a) -> total L b' = total L b.
Proof.
  induction L as [|a L IH]; intros H; [reflexivity|]. cbn [total foldr]. f_equal; [apply H, list_elem_of_here|].
  apply IH. intros x Hx. apply H, list_elem_of_further, Hx.
Qed.

Lemma total_set L a y b : NoDup L -> a ∈ L -> total L (set_bal a y b) = total L b - b a + y.
Proof.
  induction L as [|x L IH]; intros Hnd Ha; [inversion Ha|]. inversion Hnd as [|? ? Hx Hnd']; subst.
  change (set_bal a y b x + total L (set_bal a y b) = b x + total L b - b a + y). unfold set_bal at 1. case_decide as E.
  - subst a. rewrite (total_ext L b); [lia|]. intros z Hz. unfold set_bal. apply decide_False. intros ->. exact (Hx Hz).
  - apply elem_of_cons in Ha as [Ha|Ha]; [congruence|]. rewrite IH by assumption. lia.
Qed.

Lemma total_move L from to v b : NoDup L -> from ∈ L -> to ∈ L -> total L (move from to v b) = total L b.
Proof. intros Hnd Hf Ht. unfold move. rewrite !total_set by assumption. lia. Qed.

Lemma total_ge L b a : (forall x, x ∈ L -> 0 <= b x) -> a ∈ L -> 0 <= b a <= total L b.
Proof.
  induction L as [|x L IH]; intros Hp Ha; [inversion Ha|]. cbn [total foldr]. change (foldr _ 0 L) with (total L b).
  assert (Hp' : forall z, z ∈ L -> 0 <= b z) by (intros z Hz; apply Hp, list_elem_of_further, Hz).
  pose proof (Hp x (list_elem_of_here _ _)). assert (0 <= total L b).
  { clear IH Ha Hp. induction L as [|z L IH]; [cbn; lia|]. cbn [total foldr]. change (foldr _ 0 L) with (total L b).
    pose proof (Hp' z (list_elem_of_here _ _)). enough (0 <= total L b) by lia. apply IH. intros w Hw. apply Hp', list_elem_of_further, Hw. }
  apply elem_of_cons in Ha as [->|Ha]; [lia|]. pose proof (IH Hp' Ha). lia.
Qed.

Lemma balances_range f c b a : balances f c b -> addr_ok a -> is_u64 (b a).
Proof. intros H Ha. exact (num_at_range 8 f _ _ (H a Ha)). Qed.

Lemma balances_set f f' c b a y : balances f c b -> changed (GenBalanceKey c a) y f f' -> balances f' c (set_bal a y b).
Proof.
  intros Hb [Hy Hf] x Hx. unfold set_bal. case_decide as E; [subst; exact Hy|].
  rewrite (num_at_ext 8 f); [exact (Hb x Hx)|]. apply Hf. intros Ek. apply E. symmetry. exact (app_inv_head _ _ _ Ek).
Qed.

(** ** One transfer *)

Lemma st_bind_cong {S A B} (c c' : ST S A) (k : A -> ST S B) s : c s = c' s -> st_bind c k s = st_bind c' k s.
Proof. intros E. unfold st_bind. rewrite E. reflexivity. Qed.

(** All keys but the balances of [c] are as before. *)
Definition balance_frame (c : Address) (f f' : view_t) : Prop :=
  forall key, (forall a, addr_ok a -> key <> GenBalanceKey c a) -> f' key = f key.

Lemma changed_frame f f' c a y : addr_ok a -> changed (GenBalanceKey c a) y f f' -> balance_frame c f f'.
Proof. intros Ha [_ Hf] key Hk. apply Hf. intros E. exact (Hk a Ha (eq_sym E)). Qed.

Lemma balance_frame_trans c f f' f'' : balance_frame c f f' -> balance_frame c f' f'' -> balance_frame c f f''.
Proof. intros H H' key Hk. rewrite (H' key Hk). exact (H key Hk). Qed.

Section Transfer.
Context {D : Type} `{HD : KVCache D} `{HB58 : Base58}.
Implicit Types n : @NativeService D.

Lemma auth_ok a n : CheckWitness a (ContextRef n) = true -> authentication a n = Ok ((), n).
Proof. intros E. unfold authentication, st_bind, check_witness. rewrite E. reflexivity. Qed.

Lemma auth_err a n : CheckWitness a (ContextRef n) = false -> authentication a n = Err "authentication failed!".
Proof. intros E. unfold authentication, st_bind, check_witness. rewrite E. reflexivity. Qed.

(** The debit and the credit that [Transfer] and [TransferedFrom] share. *)
Definition move_amount (c from to : Address) (v : Z) : NM (Z * Z) :=
  do fromBalance <- fromTransfer (GenBalanceKey c from) v;
  do toBalance <- toTransfer (GenBalanceKey c to) v;
  st_ret (fromBalance, toBalance).

Lemma move_view n f c b from to v : kv_is (CacheDB n) f -> balances f c b -> addr_ok from -> addr_ok to -> 0 <= v ->
  (b from < v -> exists e, move_amount c from to v n = Err e) /\
  (v <= b from -> set_bal from (b from - v) b to + v < 2 ^ 64 ->
    exists d f', move_amount c from to v n = Ok ((b from, set_bal from (b from - v) b to), set_DB d n) /\ kv_is d f' /\
      balances f' c (move from to v b) /\ balance_frame c f f').
Proof.
  intros Hn Hb Hf Ht Hv. destruct (take_view n f _ (b from) v Hn (Hb from Hf) Hv) as [Herr Hok]. unfold move_amount. split.
  - intros Hlt. destruct (Herr Hlt) as (e & E & _). exists e. apply st_bind_err, E.
  - intros Hle Hb2. destruct (Hok Hle) as [(d1 & f1 & E1 & Hd1 & C1) _]. run E1.
    pose proof (balances_set f f1 c b from _ Hb C1) as Hb1.
    destruct (give_view (set_DB d1 n) f1 _ _ v Hd1 (Hb1 to Ht) Hv Hb2) as (d2 & f2 & E2 & Hd2 & C2). run E2.
    exists d2, f2. split; [reflexivity|]. split; [exact Hd2|]. split; [exact (balances_set f1 f2 c _ to _ Hb1 C2)|].
    exact (balance_frame_trans c f f1 f2 (changed_frame f f1 c from _ Hf C1) (changed_frame f1 f2 c to _ Ht C2)).
Qed.

Lemma Transfer_witnessed c s n : CheckWitness (st_From s) (ContextRef n) = true ->
  Transfer c s n = move_amount c (st_From s) (st_To s) (st_Value s) n.
Proof. intros Hw. unfold Transfer. run (auth_ok _ _ Hw). reflexivity. Qed.

Lemma AddNotifications_eq c s n : AddNotifications c s n = Ok ((), set_Notifications (Notifications n ++
  if EnableEventLog n then [mkEvent c TRANSFER_NAME (ToBase58 (st_From s)) (ToBase58 (st_To s)) (st_Value s)] else []) n).
Proof.
  unfold AddNotifications. destruct (EnableEventLog n) eqn:E; cbn [negb]; [reflexivity|]. rewrite app_nil_r. destruct n. reflexivity.
Qed.

End Transfer.

(** The room for the credit: two accounts never hold more than the total. *)
Lemma move_room L b from to v M : NoDup L -> (forall x, x ∈ L -> 0 <= b x) -> from ∈ L -> to ∈ L -> 0 <= v <= b from -> total L b <= M ->
  set_bal from (b from - v) b to + v <= M.
Proof.
  intros Hnd Hp Hf Ht Hv Hm. pose proof (total_ge L b from Hp Hf). unfold set_bal. case_decide as E; [lia|].
  assert (Hs : total L (set_bal from 0 b) = total L b - b from) by (rewrite total_set by assumption; lia).
  assert (Hp0 : forall x, x ∈ L -> 0 <= set_bal from 0 b x) by (intros x Hx; unfold set_bal; case_decide; [lia | apply Hp, Hx]).
  pose proof (total_ge L (set_bal from 0 b) to Hp0 Ht) as Hg. rewrite Hs in Hg. unfold set_bal in Hg. rewrite decide_False in Hg by exact E. lia.
Qed.

(** ** Decoded parameters *)

Definition param_ok (s : State) : Prop := addr_ok (st_From s) /\ addr_ok (st_To s) /\ is_u64 (st_Value s).

Lemma DecodeAddress_ok src a src' : DecodeAddress src = Ok (a, src') -> addr_ok a.
Proof.
  unfold DecodeAddress. rewrite st_bind_Ok. intros (x & s1 & _ & E). unfold st_lift, AddressParseFromBytes in E.
  destruct (zlen x =? ADDR_LEN) eqn:Hl; [|discriminate]. injection E as <- _. apply Z.eqb_eq, Hl.
Qed.

Lemma DecodeVarUint_range src v src' : DecodeVarUint src = Ok (v, src') -> is_u64 v.
Proof.
  unfold DecodeVarUint. rewrite st_bind_Ok. intros (x & s1 & _ & E). cbv zeta in E. apply st_bind_Ok in E as (y & s2 & _ & [= <- _]). auto with go.
Qed.

Lemma Des_State_ok src s src' : Des.State src = Ok (s, src') -> param_ok s.
Proof.
  unfold Des.State. rewrite st_bind_Ok. intros (a & s1 & E1 & E). apply st_bind_Ok in E as (b & s2 & E2 & E).
  apply st_bind_Ok in E as (v & s3 & E3 & [= <- _]).
  split; [exact (DecodeAddress_ok _ _ _ E1)|]. split; [exact (DecodeAddress_ok _ _ _ E2) | exact (DecodeVarUint_range _ _ _ E3)].
Qed.

Lemma Des_states_ok fuel : forall i m acc src l src', Forall param_ok acc -> Des.states fuel i m acc src = Ok (l, src') -> Forall param_ok l.
Proof.
  induction fuel as [|fuel IH]; intros i m acc src l src' Hacc E; cbn [Des.states] in E; [discriminate|].
  destruct (i <? m); [|injection E as <- _; exact Hacc]. apply st_bind_Ok in E as (s & s1 & E1 & E).
  apply (IH _ _ _ _ _ _) in E; [exact E|]. apply Forall_app. split; [exact Hacc|]. constructor; [exact (Des_State_ok _ _ _ E1) | constructor].
Qed.

Lemma Des_Transfers_ok buf t : decode Des.Transfers buf = Ok t -> Forall param_ok (States t).
Proof.
  unfold decode. destruct (Des.Transfers _) as [[t' s]|e|] eqn:E; try discriminate. intros [= <-]. unfold Des.Transfers in E.
  apply st_bind_Ok in E as (m & s1 & _ & E). apply st_bind_Ok in E as (src & s2 & _ & E). apply st_bind_Ok in E as (l & s3 & E & [= <- _]).
  cbn [States]. exact (Des_states_ok _ _ _ _ _ _ _ (Forall_nil_2 _) E).
Qed.
