(* ===== verification/TokenSpec.v ===== *)
(** * The tokens as ledgers

    Abstract ledgers with exact arithmetic, and the theorems that the handlers of
    [ont.go] and [ong.go] implement them on any cache that shows a map. *)

From S2P Require Import Prelude Codec BigInt MemDbSpec NativeData NativeService UnbindOng OntOng TokenTheory.

(** ** A list of transfers *)

(** What a list of transfers does to the balances, [w] saying who has signed: all of it, or
    nothing. *)
Fixpoint ledger (supply : Z) (w : Address -> bool) (l : list State) (b : balance_t) : option balance_t :=
  match l with
  | [] => Some b
  | s :: l =>
      if st_Value s =? 0 then ledger supply w l b
      else if supply <? st_Value s then None
      else if negb (w (st_From s)) then None
      else if b (st_From s) <? st_Value s then None
      else ledger supply w l (move (st_From s) (st_To s) (st_Value s) b)
  end.

(** The events of the transfers that move something. *)
Definition events `{Base58} (c : Address) (l : list State) : list NotifyEventInfo :=
  map (fun s => mkEvent c TRANSFER_NAME (ToBase58 (st_From s)) (ToBase58 (st_To s)) (st_Value s))
    (filter (fun s => st_Value s <> 0) l).

Definition parties (l : list State) : list Address := flat_map (fun s => [st_From s; st_To s]) l.

Lemma move_other from to v b a : a <> from -> 0 <= v -> b a <= move from to v b a.
Proof.
  intros Hne Hv. unfold move, set_bal. case_decide as E; [subst a; rewrite decide_False by exact Hne; lia|].
  rewrite decide_False by exact Hne. lia.
Qed.

(** Nobody loses anything without having signed. *)
Lemma ledger_signed supply w l : forall b b', Forall param_ok l -> ledger supply w l b = Some b' -> forall a, b' a < b a -> w a = true.
Proof.
  induction l as [|s l IH]; intros b b' Hl E a Ha; [injection E as <-; lia|]. inversion Hl as [|? ? (Hf & Ht & Hv) Hl']; subst.
  cbn [ledger] in E. destruct (st_Value s =? 0); [exact (IH b b' Hl' E a Ha)|]. destruct (supply <? st_Value s); [discriminate|].
  destruct (w (st_From s)) eqn:Hw; cbn [negb] in E; [|discriminate]. destruct (b (st_From s) <? st_Value s); [discriminate|].
  destruct (decide (a = st_From s)) as [->|Hne]; [exact Hw|]. apply (IH _ b' Hl' E).
  pose proof (move_other (st_From s) (st_To s) (st_Value s) b a Hne ltac:(apply Hv)). lia.
Qed.

(** Every entry of [L] is a valid address with room for the balances. *)
Record accounts (L : list Address) (b : balance_t) (M : Z) : Prop := mkAccounts {
  acc_nodup : NoDup L;
  acc_addr : Forall addr_ok L;
  acc_pos : forall a, a ∈ L -> 0 <= b a;
  acc_total : total L b <= M
}.

Lemma accounts_move L b M from to v : accounts L b M -> from ∈ L -> to ∈ L -> 0 <= v <= b from -> accounts L (move from to v b) M.
Proof.
  intros [Hnd Ha Hp Hm] Hf Ht Hv. constructor; [exact Hnd | exact Ha | | rewrite total_move; assumption].
  intros a Hin. unfold move, set_bal. repeat case_decide; subst; try (pose proof (Hp _ Hin); pose proof (Hp _ Ht); lia).
Qed.

Section Ong.
Context {D : Type} `{HD : KVCache D} `{HB58 : Base58}.
Implicit Types n : @NativeService D.

Definition log n (e : list NotifyEventInfo) : @NativeService D :=
  set_Notifications (Notifications n ++ if EnableEventLog n then e else []) n.

Lemma log_nil n : log n [] = n.
Proof. unfold log. replace (if EnableEventLog n then [] else []) with (@nil NotifyEventInfo) by (destruct (EnableEventLog n); reflexivity). rewrite app_nil_r. destruct n. reflexivity. Qed.

Lemma ong_transfers_view c L l : forall n f b, kv_is (CacheDB n) f -> balances f c b -> Forall param_ok l ->
  accounts L b (2 ^ 64 - 1) -> (forall a, a ∈ parties l -> a ∈ L) ->
  match ledger ONG_TOTAL_SUPPLY (fun a => CheckWitness a (ContextRef n)) l b with
  | Some b' => exists d f', ong_transfers c l n = Ok ((), set_DB d (log n (events c l))) /\ kv_is d f' /\ balances f' c b' /\
      balance_frame c f f' /\ total L b' = total L b
  | None => exists e, ong_transfers c l n = Err e
  end.
Proof.
  induction l as [|s l IH]; intros n f b Hn Hb Hl HL Hin; cbn [ledger ong_transfers].
  { exists (CacheDB n), f. unfold events. cbn [filter map list_filter]. rewrite log_nil, set_DB_same. repeat split; auto. }
  inversion Hl as [|? ? (Hf & Ht & Hv) Hl']; subst.
  assert (Hin' : forall a, a ∈ parties l -> a ∈ L) by (intros a Ha; apply Hin; cbn [parties flat_map]; apply elem_of_app; right; exact Ha).
  assert (HfL : st_From s ∈ L) by (apply Hin; cbn; auto using list_elem_of_here, list_elem_of_further).
  assert (HtL : st_To s ∈ L) by (apply Hin; cbn; auto using list_elem_of_here, list_elem_of_further).
  destruct (Z.eqb_spec (st_Value s) 0) as [E0|Hnz].
  { unfold events. rewrite filter_cons_False by (intros H; exact (H E0)). exact (IH n f b Hn Hb Hl' HL Hin'). }
  unfold st_guard, guard. destruct (Z.ltb_spec ONG_TOTAL_SUPPLY (st_Value s)) as [Hbig|Hsm]; cbn [negb].
  { eexists. apply st_bind_err. reflexivity. }
  rewrite (st_bind_eq _ _ n () n eq_refl). unfold is_u64 in Hv.
  destruct (CheckWitness (st_From s) (ContextRef n)) eqn:Hw; cbn [negb].
  2: { eexists. apply st_bind_err. unfold Transfer. apply st_bind_err, auth_err, Hw. }
  destruct (move_view n f c b (st_From s) (st_To s) (st_Value s) Hn Hb Hf Ht ltac:(lia)) as [Herr Hok].
  destruct (Z.ltb_spec (b (st_From s)) (st_Value s)) as [Hlt|Hge].
  { destruct (Herr Hlt) as (e & E). exists e. apply st_bind_err. rewrite (Transfer_witnessed c s n Hw). exact E. }
  destruct Hok as (d1 & f1 & E1 & Hd1 & Hb1 & Fr1); [lia| |].
  { pose proof (move_room L b (st_From s) (st_To s) (st_Value s) _ (acc_nodup _ _ _ HL) (acc_pos _ _ _ HL) HfL HtL ltac:(lia) (acc_total _ _ _ HL)). lia. }
  rewrite <- (Transfer_witnessed c s n Hw) in E1. run E1. run (AddNotifications_eq c s (set_DB d1 n)).
  set (n1 := set_Notifications _ _).
  assert (HL1 : accounts L (move (st_From s) (st_To s) (st_Value s) b) (2 ^ 64 - 1)) by (apply accounts_move; auto; lia).
  pose proof (IH n1 f1 _ Hd1 Hb1 Hl' HL1 Hin') as HI. cbn [n1 ContextRef set_Notifications set_DB] in HI.
  destruct (ledger _ _ _ _) as [b'|]; [|exact HI]. destruct HI as (d & f' & E & Hd & Hb' & Fr & Htot).
  exists d, f'. split; [|split; [exact Hd|]; split; [exact Hb'|]; split].
  - fold n1. rewrite E. f_equal. f_equal. unfold log, n1, set_DB, set_Notifications. cbn. f_equal. rewrite <- app_assoc. f_equal.
    unfold events. rewrite decide_True by exact Hnz. destruct (EnableEventLog n); reflexivity.
  - exact (balance_frame_trans c f f1 f' Fr1 Fr).
  - rewrite Htot. apply total_move; [exact (acc_nodup _ _ _ HL) | exact HfL | exact HtL].
Qed.

(** C18: [OngTransfer] implements the ledger. On parameters that decode to a list of transfers, with
    balances whose total over the accounts [L] involved fits 64 bits, the handler succeeds exactly when the
    abstract ledger accepts every transfer (amount at most the supply, sender signed, balance
    sufficient); then the stored balances are the ledger's, computed without overflow, the
    total over [L] is unchanged, nobody who has not signed has lost anything, no other
    key of the storage has changed, and one event per non-zero transfer is logged. *)
Theorem ong_transfer_refines_ledger n f c b t L :
  kv_is (CacheDB n) f -> CurrentContext (ContextRef n) = Some c -> decode Des.Transfers (Input n) = Ok t ->
  balances f c b -> accounts L b (2 ^ 64 - 1) -> (forall a, a ∈ parties (States t) -> a ∈ L) ->
  match ledger ONG_TOTAL_SUPPLY (fun a => CheckWitness a (ContextRef n)) (States t) b with
  | Some b' =>
      (exists d f', OngTransfer n = Ok (BYTE_TRUE, set_DB d (log n (events c (States t)))) /\ kv_is d f' /\ balances f' c b' /\
        balance_frame c f f') /\
      total L b' = total L b /\ (forall a, b' a < b a -> CheckWitness a (ContextRef n) = true)
  | None => exists e, OngTransfer n = Err e
  end.
Proof.
  intros Hn Hc Hd Hb HL Hin. pose proof (Des_Transfers_ok _ _ Hd) as Hok.
  assert (Ei : input Des.Transfers n = Ok (t, n)) by (unfold input, st_lift; rewrite Hd; reflexivity).
  assert (Ec : current_contract n = Ok (c, n)) by (unfold current_contract; rewrite Hc; reflexivity).
  unfold OngTransfer. run Ei. run Ec. pose proof (ong_transfers_view c L (States t) n f b Hn Hb Hok HL Hin) as H.
  destruct (ledger _ _ _ _) as [b'|] eqn:El.
  - destruct H as (d & f' & E & Hd' & Hb' & Fr & Ht). split; [|split; [exact Ht | exact (ledger_signed _ _ _ _ _ Hok El)]].
    exists d, f'. run E. auto.
  - destruct H as (e & E). exists e. apply st_bind_err, E.
Qed.

End Ong.

(** ** Delegated transfers *)

Section TransferFrom.
Context {D : Type} `{HD : KVCache D} `{HB58 : Base58}.
Implicit Types n : @NativeService D.

Lemma Des_TransferFrom_ok buf tf : decode Des.TransferFrom buf = Ok tf ->
  addr_ok (tf_Sender tf) /\ addr_ok (tf_From tf) /\ addr_ok (tf_To tf) /\ is_u64 (tf_Value tf).
Proof.
  unfold decode. destruct (Des.TransferFrom _) as [[t' s]|e|] eqn:E; try discriminate. intros [= <-]. unfold Des.TransferFrom in E.
  apply st_bind_Ok in E as (a1 & s1 & E1 & E). apply st_bind_Ok in E as (a2 & s2 & E2 & E). apply st_bind_Ok in E as (a3 & s3 & E3 & E).
  apply st_bind_Ok in E as (v & s4 & E4 & [= <- _]). pose proof (DecodeAddress_ok _ _ _ E1). pose proof (DecodeAddress_ok _ _ _ E2). pose proof (DecodeAddress_ok _ _ _ E3).
  pose proof (DecodeVarUint_range _ _ _ E4). auto.
Qed.

(** The allowance is stored apart from the balances. *)
Lemma approve_key_apart c a b x : addr_ok a -> addr_ok b -> addr_ok x -> GenApproveKey c a b <> GenBalanceKey c x.
Proof.
  unfold addr_ok, ADDR_LEN, GenApproveKey, GenBalanceKey. intros Ha Hb Hx E. apply app_inv_head in E. apply (f_equal zlen) in E. rewrite zlen_app in E. lia.
Qed.

Lemma balances_apart f f' c b key y : balances f c b -> changed key y f f' -> (forall a, addr_ok a -> key <> GenBalanceKey c a) -> balances f' c b.
Proof. intros Hb [_ Hf] Hk a Ha. rewrite (num_at_ext 8 f); [exact (Hb a Ha) | apply Hf, Hk, Ha]. Qed.

(** What a delegated transfer has to satisfy. *)
Definition tf_allowed (supply : Z) (w : Address -> bool) (allowance : Z) (b : balance_t) (tf : TransferFrom) : bool :=
  (tf_Value tf <=? supply) && w (tf_Sender tf) && (tf_Value tf <=? allowance) && (tf_Value tf <=? b (tf_From tf)).

Lemma TransferedFrom_view n f c b x tf : kv_is (CacheDB n) f -> balances f c b ->
  addr_ok (tf_Sender tf) -> addr_ok (tf_From tf) -> addr_ok (tf_To tf) -> 0 <= tf_Value tf ->
  num_at 8 f (genTransferFromKey c tf) = Ok x -> set_bal (tf_From tf) (b (tf_From tf) - tf_Value tf) b (tf_To tf) + tf_Value tf < 2 ^ 64 ->
  tf_Value tf <= b (tf_From tf) ->
  if CheckWitness (tf_Sender tf) (ContextRef n) && (tf_Value tf <=? x) then
    exists d f', TransferedFrom c tf n = Ok ((b (tf_From tf), set_bal (tf_From tf) (b (tf_From tf) - tf_Value tf) b (tf_To tf)), set_DB d n) /\
      kv_is d f' /\ balances f' c (move (tf_From tf) (tf_To tf) (tf_Value tf) b) /\ num_at 8 f' (genTransferFromKey c tf) = Ok (x - tf_Value tf) /\
      (forall key, key <> genTransferFromKey c tf -> (forall a, addr_ok a -> key <> GenBalanceKey c a) -> f' key = f key)
  else exists e, TransferedFrom c tf n = Err e.
Proof.
  intros Hn Hb Hs Hf Ht Hv Hx Hroom Hle'. unfold TransferedFrom. assert (Hapart : forall a, addr_ok a -> genTransferFromKey c tf <> GenBalanceKey c a) by (intros a Ha; apply approve_key_apart; assumption).
  destruct (CheckWitness _ _) eqn:Hw; cbn [andb]; [|eexists; apply st_bind_err, auth_err, Hw]. run (auth_ok _ _ Hw).
  destruct (take_view n f _ x (tf_Value tf) Hn Hx Hv) as [Herr Hok]. destruct (Z.leb_spec (tf_Value tf) x) as [Hle|Hlt]; cbn [andb].
  2: { destruct (Herr Hlt) as (_ & _ & e & E). exists e. apply st_bind_err, E. }
  destruct (Hok Hle) as [_ (d1 & f1 & E1 & Hd1 & C1)]. run E1. pose proof (balances_apart f f1 c b _ _ Hb C1 Hapart) as Hb1.
  destruct (move_view (set_DB d1 n) f1 c b (tf_From tf) (tf_To tf) (tf_Value tf) Hd1 Hb1 Hf Ht Hv) as [_ Hok'].
  destruct (Hok' Hle' Hroom) as (d2 & f2 & E2 & Hd2 & Hb2 & Fr2). exists d2, f2. destruct C1 as [C1 C1'].
  split; [exact E2|]. split; [exact Hd2|]. split; [exact Hb2|]. split.
  - rewrite (num_at_ext 8 f1); [exact C1 | apply Fr2; exact Hapart].
  - intros key Hk Hk'. rewrite (Fr2 key Hk'). apply C1'. congruence.
Qed.

Lemma TransferedFrom_insufficient n f c b x tf : kv_is (CacheDB n) f -> balances f c b ->
  addr_ok (tf_Sender tf) -> addr_ok (tf_From tf) -> addr_ok (tf_To tf) -> 0 <= tf_Value tf -> num_at 8 f (genTransferFromKey c tf) = Ok x ->
  b (tf_From tf) < tf_Value tf -> exists e, TransferedFrom c tf n = Err e.
Proof.
  intros Hn Hb Hs Hf Ht Hv Hx Hlt. unfold TransferedFrom.
  destruct (CheckWitness (tf_Sender tf) (ContextRef n)) eqn:Hw; [|eexists; apply st_bind_err, auth_err, Hw]. run (auth_ok _ _ Hw).
  destruct (take_view n f _ x (tf_Value tf) Hn Hx Hv) as [Herr Hok]. destruct (Z.lt_ge_cases x (tf_Value tf)) as [Hl|Hl].
  { destruct (Herr Hl) as (_ & _ & e & E). exists e. apply st_bind_err, E. }
  destruct (Hok Hl) as [_ (d1 & f1 & E1 & Hd1 & C1)]. run E1.
  assert (Hb1 : balances f1 c b) by (apply (balances_apart f f1 c b _ _ Hb C1); intros a Ha; apply approve_key_apart; assumption).
  exact (proj1 (move_view (set_DB d1 n) f1 c b (tf_From tf) (tf_To tf) (tf_Value tf) Hd1 Hb1 Hf Ht Hv) Hlt).
Qed.

(** [OngTransferFrom] spends an allowance. It does nothing and returns false on amount zero;
    otherwise it succeeds exactly when the amount is at most the supply, the sender has signed, and both the
    allowance [from] gave the sender and the balance of [from] cover it; then the allowance
    and the balances have changed by exactly that amount, the total is the same, and nothing else has changed. *)
Theorem transfer_from_spends_allowance n f c b x tf L :
  kv_is (CacheDB n) f -> CurrentContext (ContextRef n) = Some c -> decode Des.TransferFrom (Input n) = Ok tf -> balances f c b ->
  num_at 8 f (GenApproveKey c (tf_From tf) (tf_Sender tf)) = Ok x ->
  accounts L b (2 ^ 64 - 1) -> tf_From tf ∈ L -> tf_To tf ∈ L ->
  if tf_Value tf =? 0 then OngTransferFrom n = Ok (BYTE_FALSE, n)
  else if tf_allowed ONG_TOTAL_SUPPLY (fun a => CheckWitness a (ContextRef n)) x b tf then
    (exists d f', OngTransferFrom n = Ok (BYTE_TRUE, set_DB d (log n (events c [mkState (tf_From tf) (tf_To tf) (tf_Value tf)]))) /\ kv_is d f' /\
      balances f' c (move (tf_From tf) (tf_To tf) (tf_Value tf) b) /\
      num_at 8 f' (GenApproveKey c (tf_From tf) (tf_Sender tf)) = Ok (x - tf_Value tf) /\
      (forall key, key <> GenApproveKey c (tf_From tf) (tf_Sender tf) -> (forall a, addr_ok a -> key <> GenBalanceKey c a) -> f' key = f key)) /\
    total L (move (tf_From tf) (tf_To tf) (tf_Value tf) b) = total L b
  else exists e, OngTransferFrom n = Err e.
Proof.
  intros Hn Hc Hd Hb Hx HL HfL HtL. destruct (Des_TransferFrom_ok _ _ Hd) as (Hs & Hf & Ht & Hv). unfold is_u64 in Hv.
  assert (Ei : input Des.TransferFrom n = Ok (tf, n)) by (unfold input, st_lift; rewrite Hd; reflexivity).
  assert (Ec : current_contract n = Ok (c, n)) by (unfold current_contract; rewrite Hc; reflexivity).
  unfold OngTransferFrom. rewrite !(st_bind_eq _ _ _ _ _ Ei). destruct (Z.eqb_spec (tf_Value tf) 0) as [E0|Hnz]; [reflexivity|].
  unfold tf_allowed, st_guard, guard. rewrite Z.leb_antisym. destruct (Z.ltb_spec ONG_TOTAL_SUPPLY (tf_Value tf)) as [Hbig|Hsm]; cbn [negb andb].
  { eexists. apply st_bind_err. reflexivity. }
  rewrite !(st_bind_eq _ _ n () n eq_refl). rewrite !(st_bind_eq _ _ _ _ _ Ec). pose proof HL as [Hnd _ Hp Hm].
  destruct (Z.leb_spec (tf_Value tf) (b (tf_From tf))) as [Hle|Hlt].
  - pose proof (move_room L b (tf_From tf) (tf_To tf) (tf_Value tf) _ Hnd Hp HfL HtL ltac:(lia) Hm) as Hroom.
    pose proof (TransferedFrom_view n f c b x tf Hn Hb Hs Hf Ht ltac:(lia) Hx ltac:(lia) Hle) as H. rewrite andb_true_r.
    destruct (_ && _); [|destruct H as (e & E); exists e; apply st_bind_err, E]. destruct H as (d & f' & E & Hd' & Hb' & Ha' & Fr).
    split; [|apply total_move; assumption]. exists d, f'. run E. run (AddNotifications_eq c (mkState (tf_From tf) (tf_To tf) (tf_Value tf)) (set_DB d n)).
    split; [|split; [exact Hd'|]; split; [exact Hb'|]; split; [exact Ha' | exact Fr]].
    unfold events. rewrite filter_cons_True by exact Hnz. reflexivity.
  - rewrite andb_false_r. destruct (TransferedFrom_insufficient n f c b x tf) as (e & E); try assumption; [lia|]. exists e. apply st_bind_err, E.
Qed.

End TransferFrom.

(** ** A concrete service *)

(** A finite map as the cache. *)
#[local] Instance mem_kv : KVCache (gmap (list byte) (list byte)).
Proof.
  refine {| kv_Get k d := Ok (inl (d !! k), d);
            kv_Put k v d := Ok (match value_of v with Some v => <[k := v]> d | None => delete k d end);
            kv_Delete k d := Ok (delete k d);
            kv_is d f := forall k, f k = d !! k |}.
  - intros d f k Hd. exists d. rewrite Hd. auto.
  - intros d f k v Hd. eexists. split; [reflexivity|]. intros k'. destruct (value_of v); case_decide as E; subst;
      rewrite ?lookup_insert_eq, ?lookup_delete_eq, ?lookup_insert_ne, ?lookup_delete_ne by assumption; auto.
  - intros d f k Hd. eexists. split; [reflexivity|]. intros k'. case_decide as E; subst; rewrite ?lookup_delete_eq, ?lookup_delete_ne by assumption; auto.
Defined.

#[local] Instance plain58 : Base58 := {| ToBase58 a := a |}.

(** [addr_a] holds 1000 in contract [c]; it has signed. *)
Definition store_a (c : Address) : gmap (list byte) (list byte) := {[ GenBalanceKey c addr_a := stored 8 1000 ]}.
Definition native_a (d : gmap (list byte) (list byte)) (c : Address) (i : list byte) : NativeService :=
  mkNative d ∅ [] i (GENESIS_BLOCK_TIMESTAMP + 100) false (mkSC [c] [addr_a] []) true.
Definition bal_a : balance_t := set_bal addr_a 1000 (fun _ => 0).

Lemma balances_a (c : Address) (d : gmap (list byte) (list byte)) : d !! GenBalanceKey c addr_a = Some (stored 8 1000) ->
  (forall a, addr_ok a -> a <> addr_a -> d !! GenBalanceKey c a = None) -> balances (fun k => d !! k) c bal_a.
Proof.
  intros E En a Ha. unfold bal_a, set_bal. case_decide as Ea; [subst; apply num_at_stored; [lia | lia | exact E] | apply num_at_None, En; assumption].
Qed.

Lemma balances_store_a (c : Address) : balances (fun k => store_a c !! k) c bal_a.
Proof.
  apply balances_a; unfold store_a; [apply lookup_singleton_eq|]. intros a Ha Hne. apply lookup_singleton_ne. intros E. apply Hne. symmetry. exact (app_inv_head _ _ _ E).
Qed.

Lemma accounts_ab M : 1000 <= M -> accounts [addr_a; addr_b] bal_a M.
Proof.
  intros HM. constructor; [apply (bool_decide_unpack _); vm_compute; exact I | repeat constructor | | vm_compute total; lia].
  intros a _. unfold bal_a, set_bal. case_decide; lia.
Qed.

(** The parameters: 10 from [addr_a] to [addr_b]. *)
Definition input_ab : list byte := wire (mkTransfers [mkState addr_a addr_b 10]).

Lemma ong_transfer_refines_ledger_witness :
  exists d f' b', OngTransfer (native_a (store_a OngContractAddress) OngContractAddress input_ab) =
    Ok (BYTE_TRUE, set_DB d (log (native_a (store_a OngContractAddress) OngContractAddress input_ab)
      (events OngContractAddress [mkState addr_a addr_b 10]))) /\ kv_is d f' /\
    balances f' OngContractAddress b' /\ b' addr_a = 990 /\ b' addr_b = 10.
Proof.
  pose proof (ong_transfer_refines_ledger (native_a (store_a OngContractAddress) OngContractAddress input_ab)
    (fun k => store_a OngContractAddress !! k) OngContractAddress bal_a (mkTransfers [mkState addr_a addr_b 10]) [addr_a; addr_b]
    (fun _ => eq_refl) eq_refl ltac:(vm_compute; reflexivity) (balances_store_a OngContractAddress) ltac:(apply accounts_ab; lia) (fun a Ha => Ha)) as H.
  assert (E : option_map (fun b => (b addr_a, b addr_b)) (ledger ONG_TOTAL_SUPPLY
    (fun a => CheckWitness a (ContextRef (native_a (store_a OngContractAddress) OngContractAddress input_ab))) [mkState addr_a addr_b 10] bal_a) = Some (990, 10))
    by (vm_compute; reflexivity).
  cbn [States] in H. destruct (ledger _ _ _ _) as [b'|]; [|discriminate E]. cbn [option_map] in E. injection E as E1 E2.
  destruct H as [(d & f' & Ho & Hd & Hb & _) _]. exists d, f', b'. auto.
Defined.

(** An allowance of 30 besides. *)
Definition store_tf : gmap (list byte) (list byte) :=
  <[GenApproveKey OngContractAddress addr_a addr_a := stored 8 30]> (store_a OngContractAddress).

Lemma balances_store_tf : balances (fun k => store_tf !! k) OngContractAddress bal_a.
Proof.
  intros a Ha. rewrite (num_at_ext 8 (fun k => store_a OngContractAddress !! k)); [exact (balances_store_a OngContractAddress a Ha)|].
  unfold store_tf. apply lookup_insert_ne, approve_key_apart; [reflexivity | reflexivity | exact Ha].
Qed.

Lemma transfer_from_spends_allowance_witness :
  let n := native_a store_tf OngContractAddress (wire (mkTF addr_a addr_a addr_b 10)) in
  exists d f', OngTransferFrom n = Ok (BYTE_TRUE, set_DB d (log n (events OngContractAddress [mkState addr_a addr_b 10]))) /\ kv_is d f' /\
    balances f' OngContractAddress (move addr_a addr_b 10 bal_a) /\ num_at 8 f' (GenApproveKey OngContractAddress addr_a addr_a) = Ok 20.
Proof.
  intros n. pose proof (transfer_from_spends_allowance n (fun k => store_tf !! k) OngContractAddress bal_a 30 (mkTF addr_a addr_a addr_b 10) [addr_a; addr_b]
    (fun _ => eq_refl) eq_refl ltac:(vm_compute; reflexivity) balances_store_tf ltac:(vm_compute; reflexivity)
    ltac:(apply accounts_ab; lia) ltac:(apply list_elem_of_here) ltac:(apply list_elem_of_further, list_elem_of_here)) as H.
  assert (Ea : tf_allowed ONG_TOTAL_SUPPLY (fun a => CheckWitness a (ContextRef n)) 30 bal_a (mkTF addr_a addr_a addr_b 10) = true) by (vm_compute; reflexivity).
  rewrite Ea in H. cbn [tf_Value tf_From tf_To tf_Sender Z.eqb] in H. destruct H as [(d & f' & Ho & Hd & Hb & Hx & _) _]. exists d, f'. auto.
Defined.
