(* ===== verification/OntSpec.v ===== *)
(** * ONT transfers and the ONG they release

    The ledger of ONT: balances, the time up to which each account has been granted ONG, and the
    ONG allowances granted.  [OntTransfer] and the nested call of ONG's [approve]
    implement it. *)

From S2P Require Import Prelude Codec BigInt MemDbSpec NativeData NativeService UnbindOng OntOng TokenTheory TokenSpec.

(** ** Keys *)

Definition off_key (a : Address) : list byte := genAddressUnboundOffsetKey OntContractAddress a.
Definition allow_key (a : Address) : list byte := GenApproveKey OngContractAddress OntContractAddress a.

Lemma ont_addr : addr_ok OntContractAddress. Proof. reflexivity. Qed.
Lemma ong_addr : addr_ok OngContractAddress. Proof. reflexivity. Qed.

Lemma len_balance_key c a : addr_ok c -> addr_ok a -> zlen (GenBalanceKey c a) = 40.
Proof. unfold addr_ok, ADDR_LEN, GenBalanceKey. intros Hc Ha. rewrite zlen_app. lia. Qed.
Lemma len_off_key a : addr_ok a -> zlen (off_key a) = 57.
Proof.
  unfold addr_ok, ADDR_LEN, off_key, genAddressUnboundOffsetKey. intros Ha. rewrite !zlen_app, Ha. reflexivity.
Qed.
Lemma len_allow_key a : addr_ok a -> zlen (allow_key a) = 60.
Proof. unfold addr_ok, ADDR_LEN, allow_key, GenApproveKey. intros Ha. rewrite !zlen_app, Ha. reflexivity. Qed.

Lemma off_key_inj a a' : off_key a = off_key a' -> a = a'.
Proof. intros E. apply app_inv_head, app_inv_head in E. exact E. Qed.
Lemma allow_key_inj a a' : allow_key a = allow_key a' -> a = a'.
Proof. intros E. apply app_inv_head, app_inv_head in E. exact E. Qed.

(** Keys of different shapes differ, by their lengths. *)
Ltac keys_differ :=
  let E := fresh in intros E; apply (f_equal zlen) in E;
  rewrite ?len_balance_key, ?len_off_key, ?len_allow_key in E by (assumption || apply ont_addr || apply ong_addr); lia.

(** ** The ledger *)

Record Ont := mkOnt { o_bal : balance_t; o_off : balance_t; o_allow : balance_t }.

(** What an account that held [bal] is granted at [time]. *)
Definition grant (time : Z) (pre : bool) (a : Address) (bal : Z) (s : Ont) : option Ont :=
  if time <=? GENESIS_BLOCK_TIMESTAMP then Some s
  else
    let e := time - GENESIS_BLOCK_TIMESTAMP in
    if e <? o_off s a then if pre then Some s else None
    else
      let allow := o_allow s a + bal * (released e - released (o_off s a)) in
      if ONG_TOTAL_SUPPLY <? allow then None
      else Some (mkOnt (o_bal s) (set_bal a e (o_off s)) (set_bal a allow (o_allow s))).

Fixpoint ont_ledger (time : Z) (pre : bool) (w : Address -> bool) (l : list State) (s : Ont) : option Ont :=
  match l with
  | [] => Some s
  | t :: l =>
      let b := o_bal s in
      let '(from, to, v) := (st_From t, st_To t, st_Value t) in
      if v =? 0 then ont_ledger time pre w l s
      else if ONT_TOTAL_SUPPLY <? v then None
      else if negb (w from) then None
      else if b from <? v then None
      else
        match grant time pre from (b from) (mkOnt (move from to v b) (o_off s) (o_allow s)) with
        | None => None
        | Some s1 => match grant time pre to (set_bal from (b from - v) b to) s1 with
                     | None => None
                     | Some s2 => ont_ledger time pre w l s2
                     end
        end
  end.

(** The storage holds the ledger: up to function values at invalid addresses. *)
Record ont_holds (f : view_t) (s : Ont) : Prop := mkHolds {
  h_bal : balances f OntContractAddress (o_bal s);
  h_off : forall a, addr_ok a -> num_at 4 f (off_key a) = Ok (o_off s a);
  h_allow : forall a, addr_ok a -> num_at 8 f (allow_key a) = Ok (o_allow s a);
  h_limit : forall a, addr_ok a -> o_allow s a <= ONG_TOTAL_SUPPLY
}.

(** The other keys. *)
Definition ont_frame (f f' : view_t) : Prop :=
  forall key, (forall a, addr_ok a -> key <> GenBalanceKey OntContractAddress a /\ key <> off_key a /\ key <> allow_key a) -> f' key = f key.

Lemma ont_frame_trans f f' f'' : ont_frame f f' -> ont_frame f' f'' -> ont_frame f f''.
Proof. intros H H' key Hk. rewrite (H' key Hk). exact (H key Hk). Qed.

Lemma ont_frame_balances f f' g : ont_frame f f' -> balances f OngContractAddress g -> balances f' OngContractAddress g.
Proof.
  intros Hf Hg a Ha. rewrite (num_at_ext 8 f); [exact (Hg a Ha)|]. apply Hf. intros x Hx. split; [|split; keys_differ].
  intros E. unfold GenBalanceKey in E. apply app_inj_1 in E as [E _]; [discriminate E | reflexivity].
Qed.

(** Storing a number of [k] bytes under a key, seen from another. *)
Lemma num_at_upd_ne k key v f key' : key <> key' -> num_at k (upd_view key v f) key' = num_at k f key'.
Proof. intros Hne. apply num_at_ext, upd_view_ne, Hne. Qed.

Lemma holds_off f s a e : ont_holds f s -> addr_ok a -> is_u32 e ->
  ont_holds (upd_view (off_key a) (Some (stored 4 e)) f) (mkOnt (o_bal s) (set_bal a e (o_off s)) (o_allow s)).
Proof.
  intros [Hb Ho Hal Hli] Ha He. constructor; cbn [o_bal o_off o_allow]; [| | |exact Hli].
  - intros x Hx. rewrite num_at_upd_ne by keys_differ. exact (Hb x Hx).
  - intros x Hx. unfold set_bal. case_decide as E; [subst; apply num_at_upd; [lia | exact He]|].
    rewrite num_at_upd_ne; [exact (Ho x Hx)|]. intros Ek. apply E. symmetry. exact (off_key_inj _ _ Ek).
  - intros x Hx. rewrite num_at_upd_ne by keys_differ. exact (Hal x Hx).
Qed.

Lemma holds_allow f s a v : ont_holds f s -> addr_ok a -> 0 <= v <= ONG_TOTAL_SUPPLY ->
  ont_holds (upd_view (allow_key a) (Some (stored 8 v)) f) (mkOnt (o_bal s) (o_off s) (set_bal a v (o_allow s))).
Proof.
  intros [Hb Ho Hal Hli] Ha Hv. constructor; cbn [o_bal o_off o_allow].
  - intros x Hx. rewrite num_at_upd_ne by keys_differ. exact (Hb x Hx).
  - intros x Hx. rewrite num_at_upd_ne by keys_differ. exact (Ho x Hx).
  - intros x Hx. unfold set_bal. case_decide as E; [subst; apply num_at_upd; [lia | unfold ONG_TOTAL_SUPPLY in Hv; lia]|].
    rewrite num_at_upd_ne; [exact (Hal x Hx)|]. intros Ek. apply E. symmetry. exact (allow_key_inj _ _ Ek).
  - intros x Hx. unfold set_bal. case_decide; [lia | exact (Hli x Hx)].
Qed.

Lemma upd_frame_off f a v : addr_ok a -> ont_frame f (upd_view (off_key a) v f).
Proof. intros Ha key Hk. apply upd_view_ne. intros <-. exact (proj1 (proj2 (Hk a Ha)) eq_refl). Qed.
Lemma upd_frame_allow f a v : addr_ok a -> ont_frame f (upd_view (allow_key a) v f).
Proof. intros Ha key Hk. apply upd_view_ne. intros <-. exact (proj2 (proj2 (Hk a Ha)) eq_refl). Qed.

(** ** The nested call *)

Section Ont.
Context {D : Type} `{HD : KVCache D} `{HB58 : Base58}.
Implicit Types n : @NativeService D.

Lemma context_nonempty (sc : SmartContract) c : CurrentContext sc = Some c ->
  Contexts sc !! (length (Contexts sc) - 1)%nat = Some c /\ (1 <= length (Contexts sc))%nat.
Proof. unfold CurrentContext. destruct (Z.ltb_spec (zlen (Contexts sc)) 1) as [H|H]; [discriminate|]. unfold zlen in H. intros E. split; [exact E | lia]. Qed.

Lemma calling_pushed sc c x : CurrentContext sc = Some c -> CallingContext (PushContext x sc) = Some c.
Proof.
  intros Hc. destruct (context_nonempty sc c Hc) as [E Hl]. unfold CallingContext, PushContext. cbn [Contexts]. rewrite zlen_app.
  change (zlen [x]) with 1. unfold zlen. rewrite (proj2 (Z.ltb_ge _ 2)) by lia. rewrite length_app. cbn [length].
  rewrite lookup_app_l by lia. replace (length (Contexts sc) + 1 - 2)%nat with (length (Contexts sc) - 1)%nat by lia. exact E.
Qed.

Lemma pop_pushed sc c x : CurrentContext sc = Some c -> PopContext (PushContext x sc) = sc.
Proof.
  intros Hc. destruct (context_nonempty sc c Hc) as [_ Hl]. unfold PopContext, PushContext. cbn [Contexts Signers sc_Notifications].
  rewrite zlen_app. change (zlen [x]) with 1. unfold zlen. rewrite (proj2 (Z.ltb_lt 1 _)) by lia. rewrite length_app. cbn [length].
  replace (length (Contexts sc) + 1 - 1)%nat with (length (Contexts sc)) by lia. rewrite take_app_length. destruct sc. reflexivity.
Qed.

Lemma approve_registered (m : gmap string Handler) :
  foldl (fun m s => <[fst s := snd s]> m) m RegisterOngContract !! APPROVE_NAME = Some H_OngApprove.
Proof.
  cbn [foldl RegisterOngContract fst snd]. do 7 (rewrite lookup_insert_ne by discriminate). apply lookup_insert_eq.
Qed.

(** The parameters of the nested call. *)
Definition approve_args (a : Address) (v : Z) : list byte := wire (mkState OntContractAddress a v).

Lemma approve_args_ok a v : addr_ok a -> 0 <= v < 2 ^ 63 ->
  SerializeToBytes (mkState OntContractAddress a v) = Ok (approve_args a v) /\
  decode Des.State (approve_args a v) = Ok (mkState OntContractAddress a v).
Proof.
  intros Ha Hv. assert (Hok : wire_ok (mkState OntContractAddress a v)) by (split; [exact ont_addr | split; [exact Ha | exact Hv]]).
  assert (Hl : zlen (approve_args a v) + 9 <= 2 ^ 58).
  { unfold approve_args. cbn [wire state_Wire]. unfold state_wire, enc_uint, enc_varbytes. cbn [st_From st_To st_Value].
    rewrite !zlen_app. unfold addr_ok, ADDR_LEN in Ha. pose proof ont_addr as Ho. unfold addr_ok, ADDR_LEN in Ho. rewrite Ha, Ho. pose proof (zlen_neo v ltac:(lia)).
    pose proof (zlen_enc_varuint 20). pose proof (zlen_enc_varuint (zlen (BigIntToNeoBytes v))).
    pose proof (getVarUintSize_bounds 20). pose proof (getVarUintSize_bounds (zlen (BigIntToNeoBytes v))). lia. }
  split; [exact (SerializeToBytes_wire _ Hok Hl)|]. unfold decode.
  destruct (parses_all Des.State _ (approve_args a v) (des_parses _ Hok) ltac:(lia)) as (src & -> & _). reflexivity.
Qed.

(** ONG's [approve], called by the ONT contract: it is witnessed by the calling context. *)
Lemma approve_call k n f a v : kv_is (CacheDB n) f -> CurrentContext (ContextRef n) = Some OntContractAddress -> addr_ok a -> 0 <= v < 2 ^ 63 ->
  if ONG_TOTAL_SUPPLY <? v then exists e, NativeCall (S k) OngContractAddress APPROVE_NAME (approve_args a v) n = Err e
  else exists d m, NativeCall (S k) OngContractAddress APPROVE_NAME (approve_args a v) n = Ok (BYTE_TRUE, set_ServiceMap m (set_DB d n)) /\
    kv_is d (upd_view (allow_key a) (Some (stored 8 v)) f).
Proof.
  intros Hn Hc Ha Hv. set (m := foldl (fun m s => <[fst s := snd s]> m) (ServiceMap n) RegisterOngContract).
  set (n1 := set_Notifications [] (set_ContextRef (PushContext OngContractAddress (ContextRef n)) (set_Input (approve_args a v) (set_ServiceMap m n)))).
  assert (Hcall : NativeCall (S k) OngContractAddress APPROVE_NAME (approve_args a v) n =
    st_bind (OngApprove (HD := HD)) (fun result => do_ modify (fun x =>
      let sc := PushNotifications (Notifications x) (PopContext (ContextRef x)) in
      set_Input (Input n) (set_Notifications (Notifications n) (set_ContextRef sc x))); st_ret result) n1).
  { cbn [NativeCall]. change (Contracts OngContractAddress) with (Some RegisterOngContract). unfold st_bind at 1, modify at 1. unfold st_bind at 1, st_get.
    fold m. cbn [ServiceMap set_ServiceMap]. unfold m at 1. rewrite approve_registered. reflexivity. }
  rewrite Hcall. clear Hcall. unfold OngApprove, approve.
  assert (Ei : input Des.State n1 = Ok (mkState OntContractAddress a v, n1)) by (unfold input, st_lift; cbn [Input n1 set_Input set_Notifications set_ContextRef]; rewrite (proj2 (approve_args_ok a v Ha Hv)); reflexivity).
  destruct (Z.ltb_spec ONG_TOTAL_SUPPLY v) as [Hbig|Hsm].
  { eexists. apply st_bind_err. run Ei. apply st_bind_err. cbn [st_Value]. rewrite (proj2 (Z.ltb_lt _ _) Hbig). reflexivity. }
  assert (Hw : CheckWitness OntContractAddress (ContextRef n1) = true).
  { unfold CheckWitness. apply orb_true_iff. right. unfold checkContractAddress. cbn [ContextRef n1 set_Notifications set_ContextRef].
    rewrite (calling_pushed _ _ _ Hc). apply bool_decide_eq_true. reflexivity. }
  assert (Ec : current_contract n1 = Ok (OngContractAddress, n1)).
  { unfold current_contract, CurrentContext. cbn [ContextRef n1 set_Notifications set_ContextRef PushContext Contexts].
    rewrite zlen_app. pose proof (zlen_nonneg (Contexts (ContextRef n))). change (zlen [OngContractAddress]) with 1. rewrite (proj2 (Z.ltb_ge _ 1)) by lia.
    rewrite length_app. cbn [length]. rewrite lookup_app_r by lia. replace (_ - _)%nat with 0%nat by lia. reflexivity. }
  destruct (put64_view n1 f (allow_key a) v Hn) as (d & Ed & Hd). exists d, m. split; [|exact Hd].
  assert (Ea : (do state <- input Des.State; do_ st_guard (negb (ONG_TOTAL_SUPPLY <? st_Value state)) "approve amount over totalSupply";
     do_ authentication (st_From state); do contract <- current_contract;
     do_ put_item (GenApproveKey contract (st_From state) (st_To state)) (GenUInt64StorageItem (st_Value state)); st_ret BYTE_TRUE) n1
     = Ok (BYTE_TRUE, set_DB d n1)).
  { run Ei. cbn [st_Value st_From st_To]. rewrite (proj2 (Z.ltb_ge _ _) Hsm). rewrite (st_bind_eq _ _ n1 () n1 eq_refl). run (auth_ok _ _ Hw).
    run Ec. run Ed. reflexivity. }
  run Ea. unfold modify, st_bind, st_ret. f_equal. f_equal. unfold n1, set_DB, set_Input, set_Notifications, set_ContextRef, set_ServiceMap. cbn.
  f_equal. rewrite (pop_pushed _ _ _ Hc). unfold PushNotifications. rewrite app_nil_r. destruct (ContextRef n). reflexivity.
Qed.

(** ** Granting *)

Lemma holds_ext f s s' : ont_holds f s -> (forall a, o_bal s' a = o_bal s a) -> (forall a, o_off s' a = o_off s a) ->
  (forall a, o_allow s' a = o_allow s a) -> ont_holds f s'.
Proof.
  intros [Hb Ho Hal Hli] E1 E2 E3. constructor; [intros a Ha; rewrite E1 | intros a Ha; rewrite E2 | intros a Ha; rewrite E3 | intros a Ha; rewrite E3]; auto.
Qed.

Lemma set_bal_same a y b : b a = y -> forall x, set_bal a y b x = b x.
Proof. intros E x. unfold set_bal. case_decide; congruence. Qed.

Lemma getApproveArgs_view n f s a v : kv_is (CacheDB n) f -> ont_holds f s -> addr_ok a -> 0 <= v -> o_allow s a + v < 2 ^ 63 ->
  exists d, getApproveArgs OntContractAddress OngContractAddress a v n = Ok (approve_args a (o_allow s a + v), set_DB d n) /\ kv_is d f.
Proof.
  intros Hn Hs Ha Hv Hlt. destruct (get64_view n f (allow_key a) _ Hn (h_allow _ _ Hs a Ha)) as (d & E & Hd). exists d. split; [|exact Hd].
  pose proof (num_at_range 8 f _ _ (h_allow _ _ Hs a Ha)) as Hr. unfold getApproveArgs. run E.
  rewrite u64_small by (unfold is_u64; lia). unfold st_lift. rewrite Z.add_comm, (proj1 (approve_args_ok a _ Ha (conj (Z.add_nonneg_nonneg _ _ (proj1 Hr) Hv) Hlt))). reflexivity.
Qed.

(** Raising the allowance by what [bal] has released between [s0] and [e]. *)
Lemma raise_view k n f s a bal s0 e : kv_is (CacheDB n) f -> CurrentContext (ContextRef n) = Some OntContractAddress -> ont_holds f s -> addr_ok a ->
  0 <= bal <= ONT_TOTAL_SUPPLY -> is_u32 s0 -> is_u32 e -> s0 < e ->
  let allow := o_allow s a + bal * (released e - released s0) in
  let code := (if negb (bal =? 0) then
                 do value <- st_lift (CalcUnbindOng bal s0 e);
                 do args <- getApproveArgs OntContractAddress OngContractAddress a value;
                 do_ NativeCall (S k) OngContractAddress APPROVE_NAME args;
                 st_ret ()
               else st_ret ()) in
  if ONG_TOTAL_SUPPLY <? allow then exists err, code n = Err err
  else exists d m f', code n = Ok ((), set_ServiceMap m (set_DB d n)) /\ kv_is d f' /\
         ont_holds f' (mkOnt (o_bal s) (o_off s) (set_bal a allow (o_allow s))) /\ ont_frame f f'.
Proof.
  intros Hn Hc Hs Ha Hbal Hs0 He Hlt allow code. pose proof (num_at_range 8 f _ _ (h_allow _ _ Hs a Ha)) as Hr. pose proof (h_limit _ _ Hs a Ha) as Hli.
  destruct (Z.eqb_spec bal 0) as [E0|Hnz]; unfold code; clear code; cbn [negb].
  { assert (Eal : allow = o_allow s a) by (unfold allow; rewrite E0; lia). rewrite Eal, (proj2 (Z.ltb_ge _ _) Hli).
    exists (CacheDB n), (ServiceMap n), f. split; [destruct n; reflexivity|]. split; [exact Hn|].
    split; [apply (holds_ext f s); auto; intros x; apply set_bal_same; reflexivity | intros key _; reflexivity]. }
  unfold is_u32 in *. pose proof (released_mono s0 e ltac:(lia)). pose proof (released_range s0 ltac:(lia)). pose proof (released_range e ltac:(lia)).
  assert (Hv : 0 <= bal * (released e - released s0) <= ONT_TOTAL_SUPPLY * ONT_TOTAL_SUPPLY) by nia. unfold ONT_TOTAL_SUPPLY, ONG_TOTAL_SUPPLY in Hv, Hli.
  assert (Ev : st_lift (CalcUnbindOng bal s0 e) n = Ok (bal * (released e - released s0), n)).
  { unfold st_lift. rewrite CalcUnbindOng_released by (assumption || (unfold is_u32; lia)). rewrite Z.max_r by lia. reflexivity. }
  rewrite (st_bind_eq _ _ _ _ _ Ev).
  destruct (getApproveArgs_view n f s a (bal * (released e - released s0)) Hn Hs Ha ltac:(lia) ltac:(lia)) as (d1 & E1 & Hd1).
  rewrite (st_bind_eq _ _ _ _ _ E1). fold allow in E1 |- *. assert (Hal : 0 <= allow < 2 ^ 63) by (unfold allow; lia).
  pose proof (approve_call k (set_DB d1 n) f a allow Hd1 Hc Ha Hal) as Hcall. destruct (Z.ltb_spec ONG_TOTAL_SUPPLY allow) as [Hbig|Hsm].
  - destruct Hcall as (err & E). exists err. apply st_bind_err, E.
  - destruct Hcall as (d & m & E & Hd). exists d, m, (upd_view (allow_key a) (Some (stored 8 allow)) f). run E.
    split; [reflexivity|]. split; [exact Hd|]. split; [apply holds_allow; [exact Hs | exact Ha | lia] | apply upd_frame_allow, Ha].
Qed.

Lemma grant_view k n f s a bal : kv_is (CacheDB n) f -> CurrentContext (ContextRef n) = Some OntContractAddress -> ont_holds f s -> addr_ok a ->
  is_u32 (Time n) -> 0 <= bal <= ONT_TOTAL_SUPPLY ->
  match grant (Time n) (PreExec n) a bal s with
  | Some s' => exists d m f', grantOng (NativeCall (S k)) OntContractAddress a bal n = Ok ((), set_ServiceMap m (set_DB d n)) /\
      kv_is d f' /\ ont_holds f' s' /\ ont_frame f f' /\ o_bal s' = o_bal s
  | None => exists e, grantOng (NativeCall (S k)) OntContractAddress a bal n = Err e
  end.
Proof.
  intros Hn Hc Hs Ha Ht Hbal. destruct (get32_view n f (off_key a) _ Hn (h_off _ _ Hs a Ha)) as (d0 & E0 & Hd0).
  pose proof (num_at_range 4 f _ _ (h_off _ _ Hs a Ha)) as Ho. change (256 ^ Z.of_nat 4) with (2 ^ 32) in Ho.
  assert (Hnoop : forall r, r = Ok ((), set_DB d0 n) -> ont_holds f s -> exists d m f', r = Ok ((), set_ServiceMap m (set_DB d n)) /\ kv_is d f' /\ ont_holds f' s /\ ont_frame f f' /\ o_bal s = o_bal s).
  { intros r -> _. exists d0, (ServiceMap n), f. repeat split; auto; try apply Hs; destruct n; reflexivity. }
  unfold grantOng, getUnboundOffset, grant. fold (off_key a). run E0. rewrite (st_bind_eq st_get _ _ _ _ eq_refl). cbn [Time PreExec set_DB].
  destruct (Z.leb_spec (Time n) GENESIS_BLOCK_TIMESTAMP) as [Hg|Hg]; [apply Hnoop; [reflexivity | exact Hs]|].
  assert (He : is_u32 (Time n - GENESIS_BLOCK_TIMESTAMP)) by (unfold is_u32, GENESIS_BLOCK_TIMESTAMP in *; lia).
  rewrite (u32_small _ He). set (e := Time n - GENESIS_BLOCK_TIMESTAMP) in *.
  destruct (Z.ltb_spec e (o_off s a)) as [Hlt|Hge].
  { destruct (PreExec n); [apply Hnoop; [reflexivity | exact Hs] | eexists; reflexivity]. }
  destruct (Z.eqb_spec e (o_off s a)) as [Ee|Hne].
  { rewrite <- Ee, Z.sub_diag, Z.mul_0_r, Z.add_0_r. rewrite (proj2 (Z.ltb_ge _ _) (h_limit _ _ Hs a Ha)).
    exists d0, (ServiceMap n), f. split; [destruct n; reflexivity|]. split; [exact Hd0|].
    split; [apply (holds_ext f s); auto; intros x; apply set_bal_same; auto | split; [intros key _; reflexivity | reflexivity]]. }
  pose proof (raise_view k (set_DB d0 n) f s a bal (o_off s a) e Hd0 Hc Hs Ha Hbal Ho He ltac:(lia)) as Hraise. cbv zeta in Hraise.
  destruct (Z.ltb_spec ONG_TOTAL_SUPPLY (o_allow s a + bal * (released e - released (o_off s a)))) as [Hbig|Hsm].
  { destruct Hraise as (err & E). exists err. apply st_bind_err, E. }
  destruct Hraise as (d1 & m & f1 & E1 & Hd1 & Hs1 & Fr1). run E1.
  destruct (put_num_view (set_ServiceMap m (set_DB d1 n)) f1 (off_key a) (Ok (GenUInt32StorageItem e)) 4 e ltac:(lia) Hd1 eq_refl) as (d2 & E2 & Hd2).
  exists d2, m, (upd_view (off_key a) (Some (stored 4 e)) f1). split; [exact E2|]. split; [exact Hd2|].
  split; [exact (holds_off f1 _ a e Hs1 Ha He)|]. split; [|reflexivity]. exact (ont_frame_trans f f1 _ Fr1 (upd_frame_off f1 a _ Ha)).
Qed.

(** ** Transfers *)

Lemma balance_frame_ont f f' s b : ont_holds f s -> balance_frame OntContractAddress f f' -> balances f' OntContractAddress b ->
  ont_holds f' (mkOnt b (o_off s) (o_allow s)) /\ ont_frame f f'.
Proof.
  intros [Hb Ho Hal Hli] Hf Hb'. split.
  - constructor; cbn [o_bal o_off o_allow]; [exact Hb' | | |exact Hli]; intros a Ha;
      [rewrite (num_at_ext 4 f); [exact (Ho a Ha)|] | rewrite (num_at_ext 8 f); [exact (Hal a Ha)|]]; apply Hf; intros x Hx; keys_differ.
  - intros key Hk. apply Hf. intros a Ha. exact (proj1 (Hk a Ha)).
Qed.

Lemma grant_bal time pre a bal s s' : grant time pre a bal s = Some s' -> o_bal s' = o_bal s.
Proof. unfold grant. repeat case_match; intros [=]; subst; reflexivity. Qed.

(** The balances follow the plain ledger. *)
Lemma ont_ledger_bal time pre w l : forall s s', ont_ledger time pre w l s = Some s' -> ledger ONT_TOTAL_SUPPLY w l (o_bal s) = Some (o_bal s').
Proof.
  induction l as [|t l IH]; intros s s' E; cbn [ont_ledger ledger] in *; [congruence|].
  destruct (_ =? 0); [exact (IH s s' E)|]. destruct (_ <? _); [discriminate|]. destruct (negb _); [discriminate|].
  destruct (_ <? _); [discriminate|]. destruct (grant _ _ (st_From t) _ _) as [s1|] eqn:G1; [|discriminate].
  destruct (grant _ _ (st_To t) _ _) as [s2|] eqn:G2; [|discriminate]. apply grant_bal in G1, G2. rewrite <- (IH s2 s' E), G2, G1. reflexivity.
Qed.

Lemma set_ServiceMap_log n m d m' d' e e' : set_ServiceMap m (set_DB d (log (set_ServiceMap m' (set_DB d' (log n e))) e')) =
  set_ServiceMap m (set_DB d (log n (e ++ e'))).
Proof.
  unfold log, set_ServiceMap, set_DB, set_Notifications. cbn. f_equal. rewrite <- app_assoc. f_equal. destruct (EnableEventLog n); reflexivity.
Qed.

(** One transfer with its two grants; [rest] is what follows. *)
Lemma ont_step_view {A} k L t (rest : @NM D A) n f s : kv_is (CacheDB n) f -> CurrentContext (ContextRef n) = Some OntContractAddress -> is_u32 (Time n) ->
  ont_holds f s -> param_ok t -> accounts L (o_bal s) ONT_TOTAL_SUPPLY -> st_From t ∈ L -> st_To t ∈ L -> 0 < st_Value t <= o_bal s (st_From t) ->
  let code := (do '(fromBalance, toBalance) <- move_amount OntContractAddress (st_From t) (st_To t) (st_Value t);
               do_ grantOng (NativeCall (S k)) OntContractAddress (st_From t) fromBalance;
               do_ grantOng (NativeCall (S k)) OntContractAddress (st_To t) toBalance;
               do_ AddNotifications OntContractAddress t; rest) in
  let b := o_bal s in
  match grant (Time n) (PreExec n) (st_From t) (b (st_From t)) (mkOnt (move (st_From t) (st_To t) (st_Value t) b) (o_off s) (o_allow s)) with
  | None => exists e, code n = Err e
  | Some s1 => match grant (Time n) (PreExec n) (st_To t) (set_bal (st_From t) (b (st_From t) - st_Value t) b (st_To t)) s1 with
      | None => exists e, code n = Err e
      | Some s2 => exists d m f', code n = rest (set_ServiceMap m (set_DB d (log n (events OntContractAddress [t])))) /\ kv_is d f' /\
          ont_holds f' s2 /\ ont_frame f f' /\ o_bal s2 = move (st_From t) (st_To t) (st_Value t) b
      end
  end.
Proof.
  intros Hn Hc Ht Hs (Hf & Hto & Hv) HL HfL HtL Hval code b. pose proof HL as [Hnd _ Hp Hm]. fold b in Hval, Hp, Hm.
  pose proof (move_room L b (st_From t) (st_To t) (st_Value t) _ Hnd Hp HfL HtL ltac:(lia) Hm) as Hroom.
  destruct (move_view n f OntContractAddress b (st_From t) (st_To t) (st_Value t) Hn (h_bal _ _ Hs) Hf Hto ltac:(lia)) as [_ Hok].
  destruct Hok as (d1 & f1 & E1 & Hd1 & Hb1 & Fr1); [lia | unfold ONT_TOTAL_SUPPLY in Hroom; lia |].
  destruct (balance_frame_ont f f1 s _ Hs Fr1 Hb1) as [Hs1 Fr1']. unfold code. run E1. clear code.
  pose proof (total_ge L b _ Hp HfL) as Hbf.
  assert (Hbt : 0 <= set_bal (st_From t) (b (st_From t) - st_Value t) b (st_To t) <= ONT_TOTAL_SUPPLY).
  { split; [|lia]. unfold set_bal. case_decide; [lia | apply Hp, HtL]. }
  pose proof (grant_view k (set_DB d1 n) f1 _ (st_From t) (b (st_From t)) Hd1 Hc Hs1 Hf Ht ltac:(lia)) as G1. cbn [Time PreExec set_DB] in G1.
  destruct (grant _ _ (st_From t) _ _) as [s1|]; [|destruct G1 as (e & E); exists e; apply st_bind_err, E].
  destruct G1 as (d2 & m2 & f2 & E2 & Hd2 & Hs2 & Fr2 & Eb2). run E2.
  pose proof (grant_view k (set_ServiceMap m2 (set_DB d2 (set_DB d1 n))) f2 s1 (st_To t) _ Hd2 Hc Hs2 Hto Ht Hbt) as G2. cbn [Time PreExec set_DB set_ServiceMap] in G2.
  destruct (grant _ _ (st_To t) _ _) as [s2|]; [|destruct G2 as (e & E); exists e; apply st_bind_err, E].
  destruct G2 as (d3 & m3 & f3 & E3 & Hd3 & Hs3 & Fr3 & Eb3). run E3. run (AddNotifications_eq OntContractAddress t (set_ServiceMap m3 (set_DB d3 (set_ServiceMap m2 (set_DB d2 (set_DB d1 n)))))).
  exists d3, m3, f3. split.
  - f_equal. unfold events. rewrite filter_cons_True by (intros E; lia). reflexivity.
  - split; [exact Hd3|]. split; [exact Hs3|]. split; [exact (ont_frame_trans _ _ _ (ont_frame_trans _ _ _ Fr1' Fr2) Fr3)|]. rewrite Eb3, Eb2. reflexivity.
Qed.

Lemma ont_transfers_view k L l : forall n f s, kv_is (CacheDB n) f -> CurrentContext (ContextRef n) = Some OntContractAddress -> is_u32 (Time n) ->
  ont_holds f s -> Forall param_ok l -> accounts L (o_bal s) ONT_TOTAL_SUPPLY -> (forall a, a ∈ parties l -> a ∈ L) ->
  match ont_ledger (Time n) (PreExec n) (fun a => CheckWitness a (ContextRef n)) l s with
  | Some s' => exists d m f', ont_transfers (NativeCall (S k)) OntContractAddress l n = Ok ((), set_ServiceMap m (set_DB d (log n (events OntContractAddress l)))) /\
      kv_is d f' /\ ont_holds f' s' /\ ont_frame f f' /\ total L (o_bal s') = total L (o_bal s)
  | None => exists e, ont_transfers (NativeCall (S k)) OntContractAddress l n = Err e
  end.
Proof.
  induction l as [|t l IH]; intros n f s Hn Hc Ht Hs Hl HL Hin; cbn [ont_ledger ont_transfers].
  { exists (CacheDB n), (ServiceMap n), f. unfold events. cbn [filter map list_filter]. rewrite log_nil, set_DB_same.
    split; [destruct n; reflexivity|]. split; [exact Hn|]. split; [exact Hs|]. split; [intros key _; reflexivity | reflexivity]. }
  inversion Hl as [|? ? Hok Hl']; subst.
  assert (Hin' : forall a, a ∈ parties l -> a ∈ L) by (intros a Ha; apply Hin; cbn [parties flat_map]; apply elem_of_app; right; exact Ha).
  assert (HfL : st_From t ∈ L) by (apply Hin; cbn; auto using list_elem_of_here, list_elem_of_further).
  assert (HtL : st_To t ∈ L) by (apply Hin; cbn; auto using list_elem_of_here, list_elem_of_further).
  destruct (Z.eqb_spec (st_Value t) 0) as [E0|Hnz].
  { unfold events. rewrite filter_cons_False by (intros H; exact (H E0)). exact (IH n f s Hn Hc Ht Hs Hl' HL Hin'). }
  unfold st_guard, guard. destruct (Z.ltb_spec ONT_TOTAL_SUPPLY (st_Value t)) as [Hbig|Hsm]; cbn [negb].
  { eexists. apply st_bind_err. reflexivity. }
  rewrite (st_bind_eq _ _ n () n eq_refl).
  destruct (CheckWitness (st_From t) (ContextRef n)) eqn:Hw; cbn [negb].
  2: { eexists. apply st_bind_err. unfold Transfer. apply st_bind_err, auth_err, Hw. }
  pose proof Hok as (Hf & Hto & Hv). unfold is_u64 in Hv.
  destruct (move_view n f OntContractAddress (o_bal s) (st_From t) (st_To t) (st_Value t) Hn (h_bal _ _ Hs) Hf Hto ltac:(lia)) as [Herr _].
  destruct (Z.ltb_spec (o_bal s (st_From t)) (st_Value t)) as [Hlt|Hge].
  { destruct (Herr Hlt) as (e & E). exists e. apply st_bind_err. rewrite (Transfer_witnessed _ t n Hw). exact E. }
  pose proof (ont_step_view k L t (ont_transfers (NativeCall (S k)) OntContractAddress l) n f s Hn Hc Ht Hs Hok HL HfL HtL ltac:(lia)) as Hstep. cbv zeta in Hstep.
  rewrite (st_bind_cong _ _ _ _ (Transfer_witnessed _ t n Hw)).
  destruct (grant _ _ (st_From t) _ _) as [s1|]; [|exact Hstep]. destruct (grant _ _ (st_To t) _ _) as [s2|]; [|exact Hstep].
  destruct Hstep as (d & m & f1 & E1 & Hd & Hs1 & Fr1 & Eb). rewrite E1.
  assert (HL1 : accounts L (o_bal s2) ONT_TOTAL_SUPPLY) by (rewrite Eb; apply accounts_move; auto; lia).
  pose proof (IH (set_ServiceMap m (set_DB d (log n (events OntContractAddress [t])))) f1 s2 Hd Hc Ht Hs1 Hl' HL1 Hin') as HI.
  cbn [Time PreExec ContextRef set_ServiceMap set_DB log set_Notifications] in HI.
  destruct (ont_ledger _ _ _ _ _) as [s'|]; [|exact HI]. destruct HI as (d' & m' & f' & E & Hd' & Hs' & Fr & Htot). exists d', m', f'.
  split; [rewrite E, set_ServiceMap_log; unfold events; rewrite (filter_cons_True _ t l), (filter_cons_True _ t []) by exact Hnz; reflexivity|].
  split; [exact Hd'|]. split; [exact Hs'|]. split; [exact (ont_frame_trans f f1 f' Fr1 Fr)|].
  rewrite Htot, Eb. apply total_move; [exact (acc_nodup _ _ _ HL) | exact HfL | exact HtL].
Qed.

(** C4: [OntTransfer] implements the ledger of ONT, grants included. On parameters that decode, with
    balances over the accounts [L] involved that stay within the supply, the handler (with the
    nested call of ONG's [approve]) succeeds exactly when the ledger does; then the stored balances, grant
    times and allowances are the ledger's: each party is granted, on the balance it held, what the
    release schedule gives for the time since its last grant. The total of ONT over [L] is
    unchanged, who has not signed loses nothing, the ONG balances and every other key are as before. *)
Theorem ont_transfer_refines_ledger k n f s t L g :
  kv_is (CacheDB n) f -> CurrentContext (ContextRef n) = Some OntContractAddress -> is_u32 (Time n) ->
  decode Des.Transfers (Input n) = Ok t -> ont_holds f s -> balances f OngContractAddress g ->
  accounts L (o_bal s) ONT_TOTAL_SUPPLY -> (forall a, a ∈ parties (States t) -> a ∈ L) ->
  match ont_ledger (Time n) (PreExec n) (fun a => CheckWitness a (ContextRef n)) (States t) s with
  | Some s' =>
      (exists d m f', OntTransfer (NativeCall (S k)) n = Ok (BYTE_TRUE, set_ServiceMap m (set_DB d (log n (events OntContractAddress (States t))))) /\
        kv_is d f' /\ ont_holds f' s' /\ balances f' OngContractAddress g /\ ont_frame f f') /\
      total L (o_bal s') = total L (o_bal s) /\ (forall a, o_bal s' a < o_bal s a -> CheckWitness a (ContextRef n) = true)
  | None => exists e, OntTransfer (NativeCall (S k)) n = Err e
  end.
Proof.
  intros Hn Hc Ht Hd Hs Hg HL Hin. pose proof (Des_Transfers_ok _ _ Hd) as Hok.
  assert (Ei : input Des.Transfers n = Ok (t, n)) by (unfold input, st_lift; rewrite Hd; reflexivity).
  assert (Ec : current_contract n = Ok (OntContractAddress, n)) by (unfold current_contract; rewrite Hc; reflexivity).
  unfold OntTransfer. run Ei. run Ec. pose proof (ont_transfers_view k L (States t) n f s Hn Hc Ht Hs Hok HL Hin) as H.
  destruct (ont_ledger _ _ _ _ _) as [s'|] eqn:El.
  - destruct H as (d & m & f' & E & Hd' & Hs' & Fr & Htot).
    split; [|split; [exact Htot | exact (ledger_signed _ _ _ _ _ Hok (ont_ledger_bal _ _ _ _ _ _ El))]].
    exists d, m, f'. run E. split; [reflexivity|]. split; [exact Hd'|]. split; [exact Hs'|]. split; [exact (ont_frame_balances f f' g Fr Hg) | exact Fr].
  - destruct H as (e & E). exists e. apply st_bind_err, E.
Qed.

End Ont.

(** ** A concrete transfer *)

#[local] Existing Instances mem_kv plain58.

(** At 100 seconds after genesis [addr_a], who holds 1000 ONT, sends 10 to [addr_b]. *)
Definition ont_a : Ont := mkOnt bal_a (fun _ => 0) (fun _ => 0).

Lemma ont_holds_a : ont_holds (fun k => store_a OntContractAddress !! k) ont_a.
Proof.
  constructor; [apply balances_store_a | | | intros a _; cbn; unfold ONG_TOTAL_SUPPLY; lia];
    intros a Ha; apply num_at_None; apply lookup_singleton_ne;
    assert (addr_ok addr_a) by reflexivity; keys_differ.
Qed.

Lemma ont_transfer_refines_ledger_witness :
  let n := native_a (store_a OntContractAddress) OntContractAddress input_ab in
  exists s' d m f', OntTransfer (NativeCall 1) n = Ok (BYTE_TRUE, set_ServiceMap m (set_DB d (log n (events OntContractAddress [mkState addr_a addr_b 10])))) /\
    kv_is d f' /\ ont_holds f' s' /\ o_bal s' addr_a = 990 /\ o_bal s' addr_b = 10 /\ o_allow s' addr_a = 500000 /\ o_off s' addr_b = 100.
Proof.
  intros n. pose proof (ont_transfer_refines_ledger 0 n (fun k => store_a OntContractAddress !! k) ont_a (mkTransfers [mkState addr_a addr_b 10]) [addr_a; addr_b] (fun _ => 0)
    (fun _ => eq_refl) eq_refl ltac:(vm_compute; split; congruence) ltac:(vm_compute; reflexivity) ont_holds_a) as H.
  specialize (H ltac:(intros a Ha; apply num_at_None, lookup_singleton_ne; intros E; apply app_inj_1 in E as [E _]; [discriminate E | reflexivity])
    ltac:(apply accounts_ab; unfold ONT_TOTAL_SUPPLY; lia) (fun a Ha => Ha)).
  assert (E : option_map (fun s => (o_bal s addr_a, o_bal s addr_b, o_allow s addr_a, o_off s addr_b))
    (ont_ledger (Time n) (PreExec n) (fun a => CheckWitness a (ContextRef n)) [mkState addr_a addr_b 10] ont_a) = Some (990, 10, 500000, 100)) by (vm_compute; reflexivity).
  cbn [States] in H. destruct (ont_ledger _ _ _ _ _) as [s'|]; [|discriminate E]. cbn [option_map] in E. injection E as E1 E2 E3 E4.
  destruct H as [(d & m & f' & Ho & Hd & Hs & _) _]. exists s', d, m, f'. auto 10.
Defined.
