(* ===== verification/OntGenesis.v ===== *)
(** * The genesis distribution of ONT

    [OntInit] of [ont.go]: the distribution that is parsed, the balances that are stored. *)

From S2P Require Import Prelude Codec BigInt MemDbSpec NativeData NativeService OntOng TokenTheory TokenSpec.

(** ** The parsed distribution *)

Definition dist_sum (m : gmap Address Z) : Z := map_fold (fun _ v acc => v + acc) 0 m.

Lemma dist_sum_insert a v m : m !! a = None -> dist_sum (<[a := v]> m) = v + dist_sum m.
Proof. intros Ha. unfold dist_sum. apply map_fold_insert_L; [intros; lia | exact Ha]. Qed.

Lemma dist_sum_add a v m : dist_sum (<[a := default 0 (m !! a) + v]> m) = dist_sum m + v.
Proof.
  destruct (m !! a) as [x|] eqn:E; cbn [default].
  - assert (Em : dist_sum m = x + dist_sum (delete a m)) by (rewrite <- (dist_sum_insert a x (delete a m) (lookup_delete_eq m a)), (insert_delete_id m a x E); reflexivity).
    rewrite <- (insert_delete_eq m a (x + v)), dist_sum_insert by apply lookup_delete_eq. lia.
  - rewrite dist_sum_insert by exact E. lia.
Qed.

(** What the loop keeps: no wrap-around so far. *)
Record dist_ok (sum : Z) (m : gmap Address Z) : Prop := mkDist {
  d_sum : dist_sum m = sum;
  d_range : is_u64 sum;
  d_entry : forall a v, m !! a = Some v -> addr_ok a /\ 0 <= v <= sum
}.

Lemma dist_ok_add sum m a v : dist_ok sum m -> addr_ok a -> is_u64 v -> sum + v < 2 ^ 64 ->
  dist_ok (sum + v) (<[a := u64 (default 0 (m !! a) + v)]> m).
Proof.
  intros [Hs Hr He] Ha Hv Hb. unfold is_u64 in *. assert (Hd : 0 <= default 0 (m !! a) <= sum) by (destruct (m !! a) as [x|] eqn:E; [apply (He a x E) | cbn; lia]).
  rewrite u64_small by (unfold is_u64; lia). constructor; [rewrite dist_sum_add; lia | unfold is_u64; lia|].
  intros x y Hx. destruct (decide (a = x)) as [->|Hne].
  - rewrite lookup_insert_eq in Hx. injection Hx as <-. split; [exact Ha | lia].
  - rewrite lookup_insert_ne in Hx by exact Hne. destruct (He x y Hx). split; [assumption | lia].
Qed.

Lemma read_distribution_ok fuel : forall i num sum m src r src', dist_ok sum m ->
  read_distribution fuel i num sum m src = Ok (r, src') -> dist_ok (fst r) (snd r).
Proof.
  induction fuel as [|fuel IH]; intros i num sum m src r src' Hok E; cbn [read_distribution] in E; [discriminate|].
  destruct (i <? num); [|injection E as <- _; exact Hok]. apply st_bind_Ok in E as (a & s1 & E1 & E). apply st_bind_Ok in E as (v & s2 & E2 & E).
  pose proof (DecodeVarUint_range _ _ _ E2) as Hv. pose proof (d_range _ _ Hok) as Hr. unfold is_u64 in *.
  unfold SafeAdd, st_guard, guard in E. destruct (Z.ltb_spec (MAX_UINT64 - sum) v) as [Hov|Hno]; cbn [negb] in E; [discriminate|].
  rewrite (st_bind_eq _ _ s2 () s2 eq_refl) in E. unfold MAX_UINT64 in Hno. apply IH in E; [exact E|]. rewrite (u64_small (sum + v)) by (unfold is_u64; lia).
  apply dist_ok_add; [exact Hok | exact (DecodeAddress_ok _ _ _ E1) | exact Hv | lia].
Qed.

Lemma parse_distribution_ok buf sum m : decode parse_distribution buf = Ok (sum, m) -> dist_ok sum m.
Proof.
  unfold decode. destruct (parse_distribution _) as [[r s]|e|] eqn:E; try discriminate. intros [= ->]. unfold parse_distribution in E.
  apply st_bind_Ok in E as (num & s1 & _ & E). apply st_bind_Ok in E as (src & s2 & _ & E). apply read_distribution_ok in E; [exact E|].
  constructor; [reflexivity | unfold is_u64; lia |]. intros a v Ha. rewrite lookup_empty in Ha. discriminate.
Qed.

(** ** Storing it *)

Section Genesis.
Context {D : Type} `{HD : KVCache D} `{HB58 : Base58}.
Implicit Types n : @NativeService D.

(** The balances after the entries of [l]. *)
Definition distributed (l : list (Address * Z)) (b : balance_t) : balance_t := foldl (fun b e => set_bal (fst e) (snd e) b) b l.

Definition genesis_events (c : Address) (l : list (Address * Z)) : list NotifyEventInfo :=
  map (fun e => mkEvent c TRANSFER_NAME (ToBase58 ADDRESS_EMPTY) (ToBase58 (fst e)) (snd e)) l.

Lemma put_balances_view c l : forall n f b, kv_is (CacheDB n) f -> balances f c b -> Forall (fun e => addr_ok (fst e) /\ is_u64 (snd e)) l ->
  exists d f', put_balances c l n = Ok ((), set_DB d (log n (genesis_events c l))) /\ kv_is d f' /\ balances f' c (distributed l b) /\ balance_frame c f f'.
Proof.
  induction l as [|[a v] l IH]; intros n f b Hn Hb Hl; cbn [put_balances distributed foldl genesis_events map fst snd].
  { exists (CacheDB n), f. rewrite log_nil, set_DB_same. repeat split; auto. }
  inversion Hl as [|? ? [Ha Hv] Hl']; subst. cbn [fst snd] in *. destruct (put64_view n f (GenBalanceKey c a) v Hn) as (d1 & E1 & Hd1). run E1.
  pose proof (changed_put (GenBalanceKey c a) v f Hv) as C1. run (AddNotifications_eq c (mkState ADDRESS_EMPTY a v) (set_DB d1 n)). set (n1 := set_Notifications _ _).
  destruct (IH n1 _ _ Hd1 (balances_set _ _ c b a v Hb C1) Hl') as (d & f' & E & Hd & Hb' & Fr).
  exists d, f'. split; [|split; [exact Hd|]; split; [exact Hb'|]].
  - rewrite E. unfold log, n1, set_DB, set_Notifications. cbn. rewrite <- app_assoc. destruct (EnableEventLog n); reflexivity.
  - exact (balance_frame_trans c _ _ _ (changed_frame _ _ c a v Ha C1) Fr).
Qed.

Lemma distributed_at l : forall b a, NoDup (map fst l) -> distributed l b a = match list_to_map (M := gmap Address Z) l !! a with Some v => v | None => b a end.
Proof.
  induction l as [|[x v] l IH]; intros b a Hnd; cbn [distributed foldl list_to_map foldr]; [rewrite lookup_empty; reflexivity|].
  inversion Hnd as [|? ? Hx Hnd']; subst. change (foldl _ _ l) with (distributed l (set_bal x v b)). cbn [fst snd]. rewrite IH by exact Hnd'. unfold set_bal.
  destruct (decide (a = x)) as [->|Hne].
  - rewrite (lookup_insert_eq (list_to_map l)). rewrite (not_elem_of_list_to_map_1 l x) by exact Hx. reflexivity.
  - rewrite (lookup_insert_ne (list_to_map l)) by congruence. reflexivity.
Qed.

(** The sum of the balances of the accounts in the distribution. *)
#[global] Instance total_perm : Proper ((≡ₚ) ==> (=) ==> (=)) total.
Proof. intros L L' HL b ? <-. induction HL; cbn [total foldr] in *; unfold total in *; lia. Qed.

Lemma total_dist m : forall b, (forall a v, m !! a = Some v -> b a = v) -> total (map fst (map_to_list m)) b = dist_sum m.
Proof.
  induction m as [|a v m Ha IH] using map_ind; intros b Hb; [reflexivity|]. rewrite dist_sum_insert by exact Ha.
  rewrite (map_to_list_insert m a v Ha). cbn [map fst total foldr]. rewrite (Hb a v) by apply lookup_insert_eq. f_equal. apply IH.
  intros x y Hx. apply Hb. rewrite lookup_insert_ne by congruence. exact Hx.
Qed.

Definition accounts_of (m : gmap Address Z) : list Address := map fst (map_to_list m).

Lemma distributed_map m b a : distributed (map_to_list m) b a = match m !! a with Some v => v | None => b a end.
Proof. rewrite distributed_at by apply NoDup_fst_map_to_list. rewrite list_to_map_to_list. reflexivity. Qed.

(** The part of [OntInit] behind its parameters. *)
Definition init_with (c : Address) (buf : list byte) : NM (D := D) (list byte) :=
  do '(sum, distribute) <- st_lift (decode parse_distribution buf);
  do_ st_guard (sum =? ONT_TOTAL_SUPPLY) "wrong config. total supply";
  do_ put_balances c (map_to_list distribute);
  do_ put_item (GenTotalSupplyKey c) (GenUInt64StorageItem ONT_TOTAL_SUPPLY);
  st_ret BYTE_TRUE.

Lemma OntInit_params n f c : kv_is (CacheDB n) f -> CurrentContext (ContextRef n) = Some c -> num_at 8 f (GenTotalSupplyKey c) = Ok 0 ->
  exists d, kv_is d f /\ forall buf sz irregular eof, decode Source.NextVarBytes (Input n) = Ok (buf, sz, irregular, eof) ->
    OntInit n = if eof then Ok (BYTE_FALSE, set_DB d n) else if irregular then Err ErrIrregularData else init_with c buf (set_DB d n).
Proof.
  intros Hn Hc Hx. assert (Ec : current_contract n = Ok (c, n)) by (unfold current_contract; rewrite Hc; reflexivity).
  destruct (get64_view n f _ 0 Hn Hx) as (d0 & E0 & Hd0). exists d0. split; [exact Hd0|]. intros buf sz irregular eof Ep.
  assert (Ei : input (D := D) Source.NextVarBytes (set_DB d0 n) = Ok ((buf, sz, irregular, eof), set_DB d0 n)) by (unfold input, st_lift; cbn [Input set_DB]; rewrite Ep; reflexivity).
  unfold OntInit. run Ec. run E0. rewrite (st_bind_eq _ _ (set_DB d0 n) () (set_DB d0 n) eq_refl). run Ei.
  destruct eof; [reflexivity|]. destruct irregular; reflexivity.
Qed.

Lemma supply_key_apart c a : addr_ok a -> GenTotalSupplyKey c <> GenBalanceKey c a.
Proof.
  unfold addr_ok, ADDR_LEN. intros Ha E. apply app_inv_head in E. subst a. discriminate Ha.
Qed.

Lemma init_with_view n f c b buf sum m : kv_is (CacheDB n) f -> balances f c b -> decode parse_distribution buf = Ok (sum, m) ->
  if sum =? ONT_TOTAL_SUPPLY then
    exists d f' b', init_with c buf n = Ok (BYTE_TRUE, set_DB d (log n (genesis_events c (map_to_list m)))) /\ kv_is d f' /\
      balances f' c b' /\ (forall a, b' a = match m !! a with Some v => v | None => b a end) /\ total (accounts_of m) b' = ONT_TOTAL_SUPPLY /\
      num_at 8 f' (GenTotalSupplyKey c) = Ok ONT_TOTAL_SUPPLY /\
      (forall key, key <> GenTotalSupplyKey c -> (forall a, addr_ok a -> key <> GenBalanceKey c a) -> f' key = f key)
  else exists e, init_with c buf n = Err e.
Proof.
  intros Hn Hb Ep. destruct (parse_distribution_ok buf sum m Ep) as [Hs Hr He].
  assert (El : st_lift (decode parse_distribution buf) n = Ok ((sum, m), n)) by (unfold st_lift; rewrite Ep; reflexivity).
  unfold init_with. destruct (Z.eqb_spec sum ONT_TOTAL_SUPPLY) as [Esum|Hne].
  2: { eexists. run El. apply st_bind_err. rewrite (proj2 (Z.eqb_neq _ _) Hne). reflexivity. }
  assert (Hl : Forall (fun e => addr_ok (fst e) /\ is_u64 (snd e)) (map_to_list m)).
  { apply Forall_forall. intros [a v] Hin. apply elem_of_map_to_list in Hin. destruct (He a v Hin) as [Ha Hv]. unfold is_u64 in *. cbn [fst snd]. split; [exact Ha | lia]. }
  destruct (put_balances_view c (map_to_list m) n f b Hn Hb Hl) as (d1 & f1 & E1 & Hd1 & Hb1 & Fr1).
  destruct (put64_view (set_DB d1 (log n (genesis_events c (map_to_list m)))) f1 (GenTotalSupplyKey c) ONT_TOTAL_SUPPLY Hd1) as (d2 & E2 & Hd2).
  assert (Hsup : is_u64 ONT_TOTAL_SUPPLY) by (unfold is_u64, ONT_TOTAL_SUPPLY; lia). pose proof (changed_put (GenTotalSupplyKey c) _ f1 Hsup) as [C1 C2].
  exists d2, (upd_view (GenTotalSupplyKey c) (Some (stored 8 ONT_TOTAL_SUPPLY)) f1), (distributed (map_to_list m) b).
  split; [run El; rewrite (proj2 (Z.eqb_eq _ _) Esum), (st_bind_eq _ _ n () n eq_refl); run E1; run E2; reflexivity|].
  split; [exact Hd2|]. split; [intros a Ha; rewrite (num_at_ext 8 f1); [exact (Hb1 a Ha) | apply C2, supply_key_apart, Ha]|].
  split; [apply distributed_map|]. split; [|split; [exact C1|]].
  - unfold accounts_of. rewrite total_dist; [congruence|]. intros a v Ha. rewrite distributed_map, Ha. reflexivity.
  - intros key Hk Hk'. rewrite C2 by congruence. exact (Fr1 key Hk').
Qed.

(** [OntInit] fixes the supply once. With a supply stored it is refused. Otherwise, on a parameter that parses to a
    distribution, it is refused unless the amounts, added without overflow, are [ONT_TOTAL_SUPPLY]; and
    then it stores for each account the sum of its amounts, in total exactly the supply, stores the
    supply (so that a second call is refused), and changes no other balance or key. *)
Theorem ont_init_fixes_supply n f c b x :
  kv_is (CacheDB n) f -> CurrentContext (ContextRef n) = Some c -> balances f c b -> num_at 8 f (GenTotalSupplyKey c) = Ok x ->
  (0 < x -> exists e, OntInit n = Err e) /\
  forall buf sz sum m, x = 0 -> decode Source.NextVarBytes (Input n) = Ok (buf, sz, false, false) -> decode parse_distribution buf = Ok (sum, m) ->
    if sum =? ONT_TOTAL_SUPPLY then
      exists d f' b', OntInit n = Ok (BYTE_TRUE, set_DB d (log n (genesis_events c (map_to_list m)))) /\ kv_is d f' /\
        balances f' c b' /\ (forall a, b' a = match m !! a with Some v => v | None => b a end) /\ total (accounts_of m) b' = ONT_TOTAL_SUPPLY /\
        num_at 8 f' (GenTotalSupplyKey c) = Ok ONT_TOTAL_SUPPLY /\
        (forall key, key <> GenTotalSupplyKey c -> (forall a, addr_ok a -> key <> GenBalanceKey c a) -> f' key = f key)
    else exists e, OntInit n = Err e.
Proof.
  intros Hn Hc Hb Hx. split.
  - intros Hpos. assert (Ec : current_contract n = Ok (c, n)) by (unfold current_contract; rewrite Hc; reflexivity).
    destruct (get64_view n f _ x Hn Hx) as (d0 & E0 & _). eexists. unfold OntInit. run Ec. run E0. apply st_bind_err.
    rewrite (proj2 (Z.ltb_lt 0 x) Hpos). reflexivity.
  - intros buf sz sum m -> Ep Em. destruct (OntInit_params n f c Hn Hc Hx) as (d & Hd & E). rewrite (E _ _ _ _ Ep).
    exact (init_with_view (set_DB d n) f c b buf sum m Hd Hb Em).
Qed.

(** On parameters cut short [OntInit] returns [BYTE_FALSE] without an error: the error it means to return is built by
    [NewDetailErr] from a nil error, and is nil. The storage is as before. *)
Theorem ont_init_truncated_no_error n f c buf sz irregular :
  kv_is (CacheDB n) f -> CurrentContext (ContextRef n) = Some c -> num_at 8 f (GenTotalSupplyKey c) = Ok 0 ->
  decode Source.NextVarBytes (Input n) = Ok (buf, sz, irregular, true) ->
  exists d, OntInit n = Ok (BYTE_FALSE, set_DB d n) /\ kv_is d f.
Proof. intros Hn Hc Hx Ep. destruct (OntInit_params n f c Hn Hc Hx) as (d & Hd & E). exists d. rewrite (E _ _ _ _ Ep). auto. Qed.

End Genesis.

(** ** A concrete distribution *)

#[local] Existing Instances mem_kv plain58.

Definition dist_buf : list byte :=
  enc_uint 2 ++ enc_varbytes addr_a ++ enc_uint 400000000 ++ enc_varbytes addr_b ++ enc_uint 600000000.
Definition genesis_n (i : list byte) : NativeService := native_a ∅ OntContractAddress i.

Lemma ont_init_fixes_supply_witness :
  exists d f' b', OntInit (genesis_n (enc_varbytes dist_buf)) = Ok (BYTE_TRUE, d) /\ kv_is (CacheDB d) f' /\ balances f' OntContractAddress b' /\
    b' addr_a = 400000000 /\ num_at 8 f' (GenTotalSupplyKey OntContractAddress) = Ok 1000000000.
Proof.
  set (n := genesis_n (enc_varbytes dist_buf)).
  assert (Hk : kv_is (CacheDB n) (fun _ => None)) by (intros k; symmetry; apply lookup_empty).
  destruct (ont_init_fixes_supply n (fun _ => None) OntContractAddress (fun _ => 0) 0
    Hk eq_refl (fun a _ => eq_refl) eq_refl) as [_ H].
  assert (E : match decode parse_distribution dist_buf with Ok (sum, m) => (sum, m !! addr_a) | _ => (0, None) end = (1000000000, Some 400000000)) by (vm_compute; reflexivity).
  destruct (decode parse_distribution dist_buf) as [[sum m]|e|] eqn:Em; [|discriminate E|discriminate E]. injection E as -> Ea.
  destruct (H dist_buf (zlen (enc_varbytes dist_buf)) 1000000000 m eq_refl ltac:(vm_compute; reflexivity) Em) as (d & f' & b' & E & Hd & Hb & Hb' & _ & Hs & _).
  eexists _, f', b'. split; [exact E|]. split; [exact Hd|]. split; [exact Hb|]. split; [rewrite Hb', Ea; reflexivity | exact Hs].
Defined.

Lemma ont_init_truncated_no_error_witness : exists d, OntInit (genesis_n []) = Ok (BYTE_FALSE, set_DB d (genesis_n [])) /\ kv_is d (fun _ => None).
Proof.
  apply (ont_init_truncated_no_error (genesis_n []) (fun _ => None) OntContractAddress [] 0 false);
    [intros k; symmetry; apply lookup_empty | reflexivity | reflexivity | vm_compute; reflexivity].
Defined.
