(* ===== verification/LinkedList.v ===== *)
(** * Linked lists in contract storage: [smartcontract/service/native/utils/linked_list.go]

    A doubly linked list kept in the storage of a native contract: the key [index] holds
    the first item, the key [index ++ item] the node of an item.  ONT ID keeps its
    attributes in such lists.

    A slice read from storage is nil exactly when it is empty ([NextVarBytes] leaves its
    result nil for length zero), so [x == nil] is [x = []] for the fields of a node and for the
    head; only the argument [item] can be empty and not nil, and is an [option]. *)

From S2P Require Import Prelude Codec BigInt MemDbSpec NativeData NativeService TokenTheory.

(** ** Nodes *)

Record LinkedlistNode := mkNode { next : list byte; prev : list byte; payload : list byte }.

Definition node_Serialization (this : LinkedlistNode) : ST ZeroCopySink unit :=
  do_ Sink.WriteVarBytes (next this); do_ Sink.WriteVarBytes (prev this); do_ Sink.WriteVarBytes (payload this); st_ret ().

Definition node_Deserialization : ST ZeroCopySource LinkedlistNode :=
  do n <- DecodeVarBytes; do p <- DecodeVarBytes; do v <- DecodeVarBytes; st_ret (mkNode n p v).

Definition node_ok (n : LinkedlistNode) : Prop := zlen (next n) < 2 ^ 50 /\ zlen (prev n) < 2 ^ 50 /\ zlen (payload n) < 2 ^ 50.

#[global] Instance node_Wire : Wire LinkedlistNode.
Proof.
  refine {| wire n := enc_varbytes (next n) ++ enc_varbytes (prev n) ++ enc_varbytes (payload n); wire_ok := node_ok;
            Serialization := node_Serialization; Deserialization := node_Deserialization |}.
  - intros [n p v] (Hn & Hp & Hv). cbn [next prev payload] in *.
    eapply Sink.appends_bind; [apply Sink.appends_WriteVarBytes; lia|]. eapply Sink.appends_bind; [apply Sink.appends_WriteVarBytes; lia|].
    eapply Sink.appends_bind'; [apply Sink.appends_WriteVarBytes; lia | apply Sink.appends_ret].
  - intros [n p v] (Hn & Hp & Hv). cbn [next prev payload] in *.
    eapply parses_bind; [apply parses_DecodeVarBytes; lia|]. eapply parses_bind; [apply parses_DecodeVarBytes; lia|].
    eapply parses_bind'; [apply parses_DecodeVarBytes; lia | apply parses_ret].
Defined.

Definition makeLinkedlistNode (next prev payload : list byte) : res (list byte) := SerializeToBytes (mkNode next prev payload).

Section Ops.
Context {D : Type} `{HD : KVCache D}.
Local Notation NM := (@NM D).

(** [GetValueFromRawStorageItem] *)
Definition GetValueFromRawStorageItem (raw : list byte) : res (list byte) :=
  match item_Deserialization (NewZeroCopySource raw) with Ok (i, _) => Ok (item_Value i) | Err e => Err e | Panic => Panic end.

(** [PutBytes] of [utils/store.go] *)
Definition PutBytes (key value : list byte) : NM unit := put_item key (Ok (mkItem x00 value)).

Definition getListHead (index : list byte) : NM (list byte) :=
  do head <- db_Get index;
  match head with None => st_ret [] | Some raw => st_lift (GetValueFromRawStorageItem raw) end.

Definition getListNode (index item : list byte) : NM (option LinkedlistNode) :=
  do data <- db_Get (index ++ item);
  match data with
  | None => st_ret None
  | Some raw =>
      do rawNode <- st_lift (GetValueFromRawStorageItem raw);
      if zlen rawNode =? 0 then st_ret None
      else match node_Deserialization (NewZeroCopySource rawNode) with
           | Ok (node, _) => st_ret (Some node) | Err e => st_err e | Panic => st_panic
           end
  end.

(** A node that is dereferenced: nil panics. *)
Definition getListNode_deref (index item : list byte) : NM LinkedlistNode :=
  do q <- getListNode index item; match q with Some q => st_ret q | None => st_panic end.

Definition put_node (index item next prev payload : list byte) : NM unit :=
  do node <- st_lift (makeLinkedlistNode next prev payload); PutBytes (index ++ item) node.

Definition is_nil (l : list byte) : bool := zlen l =? 0.

Definition LinkedlistInsert (index : list byte) (item : option (list byte)) (payload' : list byte) : NM unit :=
  match item with
  | None => st_err "[linked list] invalid item"
  | Some item =>
      do head <- getListHead index;
      do q <- getListNode index item;
      match q with
      | Some q => put_node index item (next q) (prev q) payload'
      | None =>
          if is_nil head then do_ put_node index item [] [] payload'; PutBytes index item
          else
            do_ put_node index item head [] payload';
            do qhead <- getListNode_deref index head;
            do_ put_node index head (next qhead) item (payload qhead);
            PutBytes index item
      end
  end.

Definition LinkedlistDelete (index : list byte) (item : option (list byte)) : NM bool :=
  match item with
  | None => st_err "[linked list] invalid item"
  | Some item =>
      do q <- getListNode index item;
      match q with
      | None => st_ret false
      | Some q =>
          do_ (if is_nil (prev q) then
                 if is_nil (next q) then db_Delete index
                 else
                   do qnext <- getListNode_deref index (next q);
                   do_ put_node index (next q) (next qnext) [] (payload qnext);
                   PutBytes index (next q)
               else if is_nil (next q) then
                 do qprev <- getListNode_deref index (prev q);
                 put_node index (prev q) [] (prev qprev) (payload qprev)
               else
                 do qprev <- getListNode_deref index (prev q);
                 do qnext <- getListNode_deref index (next q);
                 do node_prev <- st_lift (makeLinkedlistNode (next q) (prev qprev) (payload qprev));
                 do node_next <- st_lift (makeLinkedlistNode (next qnext) (prev q) (payload qnext));
                 do_ PutBytes (index ++ prev q) node_prev;
                 PutBytes (index ++ next q) node_next);
          do_ db_Delete (index ++ item);
          st_ret true
      end
  end.

Definition LinkedlistGetItem (index : list byte) (item : option (list byte)) : NM (option LinkedlistNode) :=
  match item with None => st_err "[linkedlist getNext] item is nil" | Some item => getListNode index item end.

Definition LinkedlistGetHead (index : list byte) : NM (list byte) := getListHead index.

(** [for q != nil]: the loops run along the list, however long it is; [fuel] bounds
    the number of rounds. *)
Fixpoint num_loop (fuel : nat) (index q : list byte) (n : Z) : NM Z :=
  if is_nil q then st_ret n
  else match fuel with
       | O => st_panic
       | S fuel => do qnode <- getListNode_deref index q; num_loop fuel index (next qnode) (n + 1)
       end.
Definition LinkedlistGetNumOfItems (fuel : nat) (index : list byte) : NM Z :=
  do head <- getListHead index; num_loop fuel index head 0.

Fixpoint deleteAll_loop (fuel : nat) (index q : list byte) : NM unit :=
  if is_nil q then st_ret ()
  else match fuel with
       | O => st_panic
       | S fuel =>
           do qnode <- getListNode index q;
           do_ db_Delete (index ++ q);
           match qnode with Some qnode => deleteAll_loop fuel index (next qnode) | None => st_panic end
       end.
Definition LinkedlistDeleteAll (fuel : nat) (index : list byte) : NM unit :=
  do head <- getListHead index;
  do_ deleteAll_loop fuel index head;
  db_Delete index.

End Ops.
