(* ===== verification/LinkedListSpec.v ===== *)
(** * The linked lists refine lists of entries

    [is_list f index l]: the storage [f] holds at [index] the list [l] of items with payloads.
    Insertion puts a new item first or updates an old one in place, deletion
    removes it, and the loops count and clear the list. *)

From S2P Require Import Prelude Codec BigInt MemDbSpec NativeData NativeService OntOng TokenTheory TokenSpec LinkedList.

Definition entry := (list byte * list byte)%type.

Definition item_ok (b : list byte) : Prop := zlen b < 2 ^ 50.

(** The first item of [l], or [nx] behind it; the last one, or [pv] before it. *)
Definition hdk (l : list entry) (nx : list byte) : list byte := match l with [] => nx | e :: _ => fst e end.
Fixpoint lastk (pv : list byte) (l : list entry) : list byte := match l with [] => pv | e :: l => lastk (fst e) l end.

Definition raw_node (nx pv p : list byte) : list byte := raw_item (wire (mkNode nx pv p)).

(** The nodes of a segment, between [pv] and [nx]. *)
Fixpoint seg (f : view_t) (index pv : list byte) (l : list entry) (nx : list byte) : Prop :=
  match l with
  | [] => True
  | (i, p) :: l => f (index ++ i) = Some (raw_node (hdk l nx) pv p) /\ seg f index i l nx
  end.

Record is_list (f : view_t) (index : list byte) (l : list entry) : Prop := mkList {
  l_head : f index = match l with [] => None | e :: _ => Some (raw_item (fst e)) end;
  l_seg : seg f index [] l [];
  l_free : forall x, x <> [] -> x ∉ map fst l -> f (index ++ x) = None;
  l_nodup : NoDup (map fst l);
  l_items : Forall (fun e => fst e <> [] /\ item_ok (fst e) /\ item_ok (snd e)) l
}.

(** ** Segments *)

Lemma hdk_app l1 l2 nx : hdk (l1 ++ l2) nx = hdk l1 (hdk l2 nx).
Proof. destruct l1; reflexivity. Qed.

Lemma lastk_app pv l1 l2 : lastk pv (l1 ++ l2) = lastk (lastk pv l1) l2.
Proof. revert pv. induction l1 as [|e l1 IH]; intros pv; [reflexivity | apply IH]. Qed.

Lemma lseg_app f index l1 : forall pv l2 nx, seg f index pv (l1 ++ l2) nx <-> seg f index pv l1 (hdk l2 nx) /\ seg f index (lastk pv l1) l2 nx.
Proof.
  induction l1 as [|[i p] l1 IH]; intros pv l2 nx; cbn [seg app lastk fst]; [tauto|]. rewrite IH, hdk_app. tauto.
Qed.

Lemma seg_ext f f' index l : forall pv nx, (forall i, i ∈ map fst l -> f' (index ++ i) = f (index ++ i)) -> seg f index pv l nx -> seg f' index pv l nx.
Proof.
  induction l as [|[i p] l IH]; intros pv nx Hf H; [exact I|]. destruct H as [H1 H2]. split.
  - rewrite Hf by apply list_elem_of_here. exact H1.
  - apply IH; [|exact H2]. intros j Hj. apply Hf, list_elem_of_further, Hj.
Qed.

(** Splitting a list at an item it has. *)
Lemma lsplit_at (i : list byte) (l : list entry) : i ∈ map fst l -> exists l1 p l2, l = l1 ++ (i, p) :: l2.
Proof.
  intros H. apply list_elem_of_fmap in H as ([j p] & -> & H). apply list_elem_of_split in H as (l1 & l2 & ->). exists l1, p, l2. reflexivity.
Qed.

Lemma snoc_case (l : list entry) : l = [] \/ exists l' i p, l = l' ++ [(i, p)].
Proof. destruct l as [|e l] using rev_ind; [left; reflexivity|]. right. destruct e as [i p]. exists l, i, p. reflexivity. Qed.

Lemma key_ne index (i j : list byte) : i <> j -> index ++ i <> index ++ j.
Proof. intros Hne E. exact (Hne (app_inv_head _ _ _ E)). Qed.

Lemma key_ne_index index (i : list byte) : i <> [] -> index ++ i <> index.
Proof. intros Hne E. apply Hne. apply (app_inv_head index). rewrite app_nil_r. exact E. Qed.

(** ** The abstract operations *)

Definition ins (i p : list byte) (l : list entry) : list entry :=
  if decide (i ∈ map fst l) then map (fun e => if decide (fst e = i) then (i, p) else e) l else (i, p) :: l.
Definition del (i : list byte) (l : list entry) : list entry := filter (fun e => fst e <> i) l.

Lemma map_other i p (l : list entry) : i ∉ map fst l -> map (fun e => if decide (fst e = i) then (i, p) else e) l = l.
Proof.
  induction l as [|[j q] l IH]; intros H; [reflexivity|]. cbn [map fst] in *. apply not_elem_of_cons in H as [H1 H2].
  rewrite decide_False, IH by congruence. reflexivity.
Qed.

Lemma ins_split i p q l1 l2 : i ∉ map fst l1 -> i ∉ map fst l2 -> ins i p (l1 ++ (i, q) :: l2) = l1 ++ (i, p) :: l2.
Proof.
  intros H1 H2. unfold ins. rewrite decide_True by (rewrite map_app; apply elem_of_app; right; apply list_elem_of_here).
  rewrite map_app. cbn [map fst]. rewrite decide_True by reflexivity. rewrite !map_other by assumption. reflexivity.
Qed.

Lemma del_other i (l : list entry) : i ∉ map fst l -> del i l = l.
Proof.
  induction l as [|[j q] l IH]; intros H; [reflexivity|]. cbn [map fst] in H. apply not_elem_of_cons in H as [H1 H2].
  unfold del. rewrite filter_cons_True by (cbn; congruence). f_equal. exact (IH H2).
Qed.

Lemma del_split i q l1 l2 : i ∉ map fst l1 -> i ∉ map fst l2 -> del i (l1 ++ (i, q) :: l2) = l1 ++ l2.
Proof.
  intros H1 H2. unfold del. rewrite filter_app, filter_cons_False by (cbn; congruence). f_equal; apply del_other; assumption.
Qed.

Lemma nodup_split (i p : list byte) (l1 l2 : list entry) : NoDup (map fst (l1 ++ (i, p) :: l2)) ->
  (i ∉ map fst l1) /\ (i ∉ map fst l2) /\ NoDup (map fst (l1 ++ l2)) /\ (forall j, j ∈ map fst l1 -> j ∈ map fst l2 -> False).
Proof.
  rewrite !map_app. cbn [map fst]. intros H. apply NoDup_app in H as (N1 & Hd & N2). inversion N2 as [|? ? Hi N2']; subst.
  split; [intros Hin; exact (Hd i Hin (list_elem_of_here _ _))|]. split; [exact Hi|]. split.
  - apply NoDup_app. split; [exact N1|]. split; [|exact N2']. intros j Hj Hj'. exact (Hd j Hj (list_elem_of_further _ _ _ Hj')).
  - intros j Hj Hj'. exact (Hd j Hj (list_elem_of_further _ _ _ Hj')).
Qed.

(** ** Reading and writing nodes *)

Lemma zlen_node nx pv p : item_ok nx -> item_ok pv -> item_ok p -> 1 <= zlen (wire (mkNode nx pv p)) < 2 ^ 53.
Proof.
  unfold item_ok. intros Hn Hp Hv. cbn [wire node_Wire next prev payload]. unfold enc_varbytes. rewrite !zlen_app.
  pose proof (zlen_enc_varuint (zlen nx)). pose proof (zlen_enc_varuint (zlen pv)). pose proof (zlen_enc_varuint (zlen p)).
  pose proof (getVarUintSize_bounds (zlen nx)). pose proof (getVarUintSize_bounds (zlen pv)). pose proof (getVarUintSize_bounds (zlen p)).
  pose proof (zlen_nonneg nx). pose proof (zlen_nonneg pv). pose proof (zlen_nonneg p). lia.
Qed.

Lemma raw_value v : zlen v < 2 ^ 57 -> GetValueFromRawStorageItem (raw_item v) = Ok v.
Proof.
  intros Hv. pose proof (zlen_raw_item v). unfold GetValueFromRawStorageItem.
  destruct (parses_all item_Deserialization (mkItem x00 v) (raw_item v)) as (src & -> & _); [|lia | reflexivity].
  refine (des_parses (mkItem x00 v) _). cbn [wire_ok item_Wire item_Value]. lia.
Qed.

Section View.
Context {D : Type} `{HD : KVCache D}.
Implicit Types n : @NativeService D.

Lemma db_Get_view n f key : kv_is (CacheDB n) f -> exists d, db_Get key n = Ok (f key, set_DB d n) /\ kv_is d f.
Proof. intros Hn. destruct (kv_Get_law _ _ key Hn) as (d & E & Hd). exists d. unfold db_Get. rewrite E. auto. Qed.

Lemma head_view n f index l : kv_is (CacheDB n) f -> is_list f index l ->
  exists d, getListHead index n = Ok (hdk l [], set_DB d n) /\ kv_is d f.
Proof.
  intros Hn Hl. destruct (db_Get_view n f index Hn) as (d & E & Hd). exists d. split; [|exact Hd]. unfold getListHead. run E.
  rewrite (l_head _ _ _ Hl). destruct l as [|[i p] l]; [reflexivity|]. pose proof (l_items _ _ _ Hl) as Hi. inversion Hi as [|? ? (_ & H & _) _]; subst.
  unfold item_ok in H. cbn [fst] in *. unfold st_lift. rewrite raw_value by lia. reflexivity.
Qed.

Lemma node_view n f index i nx pv p : kv_is (CacheDB n) f -> item_ok nx -> item_ok pv -> item_ok p ->
  f (index ++ i) = Some (raw_node nx pv p) ->
  exists d, getListNode index i n = Ok (Some (mkNode nx pv p), set_DB d n) /\ getListNode_deref index i n = Ok (mkNode nx pv p, set_DB d n) /\ kv_is d f.
Proof.
  intros Hn H1 H2 H3 Hf. destruct (db_Get_view n f (index ++ i) Hn) as (d & E & Hd). exists d.
  assert (En : getListNode index i n = Ok (Some (mkNode nx pv p), set_DB d n)).
  { unfold getListNode. run E. rewrite Hf. pose proof (zlen_node nx pv p H1 H2 H3) as Hz. unfold raw_node, st_bind, st_lift. rewrite raw_value by lia.
    rewrite (proj2 (Z.eqb_neq _ 0)) by lia.
    destruct (parses_all node_Deserialization (mkNode nx pv p) (wire (mkNode nx pv p))) as (src & -> & _); [|lia | reflexivity].
    refine (des_parses (mkNode nx pv p) _). repeat split; assumption. }
  split; [exact En|]. split; [unfold getListNode_deref; run En; reflexivity | exact Hd].
Qed.

Lemma no_node_view n f index i : kv_is (CacheDB n) f -> f (index ++ i) = None ->
  exists d, getListNode index i n = Ok (None, set_DB d n) /\ kv_is d f.
Proof. intros Hn Hf. destruct (db_Get_view n f (index ++ i) Hn) as (d & E & Hd). exists d. unfold getListNode. run E. rewrite Hf. auto. Qed.

Lemma make_node nx pv p : item_ok nx -> item_ok pv -> item_ok p -> makeLinkedlistNode nx pv p = Ok (wire (mkNode nx pv p)).
Proof.
  intros H1 H2 H3. apply SerializeToBytes_wire; [repeat split; assumption|]. pose proof (zlen_node nx pv p H1 H2 H3). lia.
Qed.

Lemma put_bytes_view n f key v : kv_is (CacheDB n) f -> zlen v < 2 ^ 57 ->
  exists d, PutBytes key v n = Ok ((), set_DB d n) /\ kv_is d (upd_view key (Some (raw_item v)) f).
Proof. intros Hn Hv. exact (put_raw_view n f key v Hv Hn). Qed.

Lemma put_node_view n f index i nx pv p : kv_is (CacheDB n) f -> item_ok nx -> item_ok pv -> item_ok p ->
  exists d, put_node index i nx pv p n = Ok ((), set_DB d n) /\ kv_is d (upd_view (index ++ i) (Some (raw_node nx pv p)) f).
Proof.
  intros Hn H1 H2 H3. unfold put_node. unfold st_bind at 1, st_lift. rewrite (make_node nx pv p H1 H2 H3). pose proof (zlen_node nx pv p H1 H2 H3).
  apply put_bytes_view; [exact Hn | lia].
Qed.

(** ** Insertion *)

(** Only keys under [index] change. *)
Definition list_frame (index : list byte) (f f' : view_t) : Prop := forall key, (forall x, key <> index ++ x) -> f' key = f key.

Lemma list_frame_refl index f : list_frame index f f.
Proof. intros key _. reflexivity. Qed.

Lemma list_frame_upd index f f' x v : list_frame index f f' -> list_frame index f (upd_view (index ++ x) v f').
Proof. intros H key Hk. rewrite upd_view_ne by (intros E; exact (Hk x (eq_sym E))). exact (H key Hk). Qed.

Lemma list_frame_upd_index index f f' v : list_frame index f f' -> list_frame index f (upd_view index v f').
Proof. intros H. rewrite <- (app_nil_r index) at 2. apply list_frame_upd, H. Qed.

Lemma upd_view_eq key v f : upd_view key v f key = v.
Proof. unfold upd_view. apply decide_True. reflexivity. Qed.

Definition entry_ok (e : entry) : Prop := fst e <> [] /\ item_ok (fst e) /\ item_ok (snd e).

Lemma item_ok_nil : item_ok [].
Proof. unfold item_ok. rewrite zlen_nil. lia. Qed.

Lemma hdk_ok l nx : Forall entry_ok l -> item_ok nx -> item_ok (hdk l nx).
Proof. intros Hl Hn. destruct l as [|e l]; [exact Hn|]. inversion Hl as [|? ? (_ & H & _) _]; exact H. Qed.

Lemma lastk_ok l : forall pv, Forall entry_ok l -> item_ok pv -> item_ok (lastk pv l).
Proof.
  induction l as [|e l IH]; intros pv Hl Hp; [exact Hp|]. inversion Hl as [|? ? (_ & H & _) Hl']; subst. exact (IH _ Hl' H).
Qed.

(** The keys of a view that has been updated, when they are known to differ. *)
Ltac uv := repeat first
  [ rewrite upd_view_eq
  | rewrite upd_view_ne by (first [assumption | apply key_ne; congruence | apply key_ne_index; assumption | apply not_eq_sym, key_ne_index; assumption]) ].

(** A list with the entry at [i], taken apart. *)
Lemma is_list_split f index l1 i p l2 : is_list f index (l1 ++ (i, p) :: l2) ->
  f (index ++ i) = Some (raw_node (hdk l2 []) (lastk [] l1) p) /\ seg f index [] l1 i /\ seg f index i l2 [] /\
  i <> [] /\ item_ok i /\ item_ok p /\ item_ok (hdk l2 []) /\ item_ok (lastk [] l1) /\ Forall entry_ok l1 /\ Forall entry_ok l2.
Proof.
  intros [_ Hs _ _ Hi]. apply lseg_app in Hs as [H1 [H2 H3]]. apply Forall_app in Hi as [I1 I2]. inversion I2 as [|? ? (Hn & Ha & Hb) I3]; subst.
  repeat (split; [assumption|]). split; [apply hdk_ok; [exact I3 | apply item_ok_nil]|]. split; [apply lastk_ok; [exact I1 | apply item_ok_nil]|]. split; assumption.
Qed.

Lemma item_nonempty f index l j : is_list f index l -> j ∈ map fst l -> j <> [].
Proof.
  intros Hl Hj. pose proof (l_items _ _ _ Hl) as Hit. rewrite Forall_forall in Hit. apply list_elem_of_fmap in Hj as (e & -> & He). apply (Hit e He).
Qed.

Lemma update_list f index l1 i p p' l2 : is_list f index (l1 ++ (i, p) :: l2) -> item_ok p' ->
  is_list (upd_view (index ++ i) (Some (raw_node (hdk l2 []) (lastk [] l1) p')) f) index (l1 ++ (i, p') :: l2).
Proof.
  intros Hl Hp. destruct (is_list_split f index l1 i p l2 Hl) as (_ & S1 & S2 & Hn & Hi & _ & _ & _ & I1 & I2).
  destruct Hl as [Hh _ Hfree Hnd Hit]. destruct (nodup_split i p l1 l2 Hnd) as (N1 & N2 & _ & _). constructor.
  - rewrite upd_view_ne by (apply key_ne_index; exact Hn). rewrite Hh. destruct l1; reflexivity.
  - apply lseg_app. split; [apply (seg_ext f); [|exact S1]; intros j Hj; uv; reflexivity|].
    split; [apply upd_view_eq|]. apply (seg_ext f); [|exact S2]. intros j Hj. uv. reflexivity.
  - intros x Hx Hin. rewrite map_app in Hin. cbn [map fst] in Hin. assert (i <> x) by (intros ->; apply Hin, elem_of_app; right; apply list_elem_of_here).
    uv. apply Hfree; [exact Hx|]. rewrite map_app. exact Hin.
  - rewrite map_app in *. exact Hnd.
  - apply Forall_app in Hit as [J1 J2]. inversion J2; subst. apply Forall_app. split; [exact J1|]. constructor; [repeat split; assumption | assumption].
Qed.

Lemma push_first f index l i p : is_list f index l -> i <> [] -> item_ok i -> item_ok p -> i ∉ map fst l ->
  forall f1, (forall j, j ∈ map fst l -> f1 (index ++ j) = match l with
                | (h, q) :: l' => if decide (j = h) then Some (raw_node (hdk l' []) i q) else f (index ++ j)
                | [] => None end) ->
  f1 (index ++ i) = Some (raw_node (hdk l []) [] p) -> f1 index = Some (raw_item i) ->
  (forall x, x <> [] -> x <> i -> x ∉ map fst l -> f1 (index ++ x) = f (index ++ x)) -> is_list f1 index ((i, p) :: l).
Proof.
  intros [Hh Hs Hfree Hnd Hit] Hn Hi Hp Hni f1 H1 H2 H3 H4. constructor.
  - exact H3.
  - split; [exact H2|]. destruct l as [|[h q] l]; [exact I|]. destruct Hs as [_ Hs]. inversion Hnd as [|? ? Hnh Hnd']; subst. split.
    + rewrite H1 by apply list_elem_of_here. rewrite decide_True by reflexivity. reflexivity.
    + apply (seg_ext f); [|exact Hs]. intros j Hj. rewrite H1 by (apply list_elem_of_further; exact Hj). apply decide_False. intros ->. contradiction.
  - intros x Hx Hin. cbn [map fst] in Hin. apply not_elem_of_cons in Hin as [Hxi Hin]. rewrite H4 by assumption. apply Hfree; assumption.
  - constructor; assumption.
  - constructor; [repeat split; assumption | exact Hit].
Qed.

Lemma is_nil_nil : is_nil [] = true. Proof. reflexivity. Qed.
Lemma is_nil_ne l : l <> [] -> is_nil l = false.
Proof. intros H. apply Z.eqb_neq. destruct l; [contradiction|]. rewrite zlen_cons. pose proof (zlen_nonneg l). lia. Qed.

Lemma insert_view n f index l i p : kv_is (CacheDB n) f -> is_list f index l -> i <> [] -> item_ok i -> item_ok p ->
  exists d f', LinkedlistInsert index (Some i) p n = Ok ((), set_DB d n) /\ kv_is d f' /\ is_list f' index (ins i p l) /\ list_frame index f f'.
Proof.
  intros Hn Hl Hne Hi Hp. destruct (head_view n f index l Hn Hl) as (d0 & E0 & Hd0). unfold LinkedlistInsert. run E0.
  destruct (decide (i ∈ map fst l)) as [Hin|Hout].
  - destruct (lsplit_at i l Hin) as (l1 & q & l2 & ->). destruct (is_list_split f index l1 i q l2 Hl) as (Hf & _ & _ & _ & _ & Hq & Hnx & Hpv & _ & _).
    destruct (node_view (set_DB d0 n) f index i _ _ _ Hd0 Hnx Hpv Hq Hf) as (d1 & E1 & _ & Hd1). run E1. cbn [next prev].
    destruct (put_node_view (set_DB d1 (set_DB d0 n)) f index i _ _ p Hd1 Hnx Hpv Hp) as (d2 & E2 & Hd2). exists d2; eexists. split; [exact E2|]. split; [exact Hd2|].
    destruct (nodup_split i q l1 l2 (l_nodup _ _ _ Hl)) as (N1 & N2 & _ & _). rewrite ins_split by assumption.
    split; [exact (update_list f index l1 i q p l2 Hl Hp) | apply list_frame_upd, list_frame_refl].
  - destruct (no_node_view (set_DB d0 n) f index i Hd0 (l_free _ _ _ Hl i Hne Hout)) as (d1 & E1 & Hd1). run E1.
    unfold ins. rewrite decide_False by exact Hout. destruct l as [|[h q] l]; cbn [hdk fst].
    + rewrite is_nil_nil. destruct (put_node_view (set_DB d1 (set_DB d0 n)) f index i [] [] p Hd1 item_ok_nil item_ok_nil Hp) as (d2 & E2 & Hd2). run E2.
      unfold item_ok in Hi. destruct (put_bytes_view (set_DB d2 (set_DB d1 (set_DB d0 n))) _ index i Hd2 ltac:(lia)) as (d3 & E3 & Hd3).
      exists d3; eexists. split; [exact E3|]. split; [exact Hd3|]. split; [|apply list_frame_upd_index, list_frame_upd, list_frame_refl].
      apply (push_first f index [] i p Hl Hne Hi Hp Hout); [intros j Hj; inversion Hj | uv; reflexivity | uv; reflexivity | intros x Hx Hxi _; uv; reflexivity].
    + destruct (is_list_split f index [] h q l Hl) as (Hf & _ & _ & Hhne & Hh & Hq & Hnx & _ & _ & I2). rewrite (is_nil_ne h Hhne).
      assert (Hih : i <> h) by (intros ->; apply Hout, list_elem_of_here).
      destruct (put_node_view (set_DB d1 (set_DB d0 n)) f index i h [] p Hd1 Hh item_ok_nil Hp) as (d2 & E2 & Hd2). run E2.
      assert (Hf2 : upd_view (index ++ i) (Some (raw_node h [] p)) f (index ++ h) = Some (raw_node (hdk l []) [] q)) by (uv; exact Hf).
      destruct (node_view (set_DB d2 (set_DB d1 (set_DB d0 n))) _ index h _ _ _ Hd2 Hnx item_ok_nil Hq Hf2) as (d3 & _ & E3 & Hd3). run E3. cbn [next payload].
      destruct (put_node_view (set_DB d3 (set_DB d2 (set_DB d1 (set_DB d0 n)))) _ index h _ i q Hd3 Hnx Hi Hq) as (d4 & E4 & Hd4). run E4.
      unfold item_ok in Hi. destruct (put_bytes_view (set_DB d4 (set_DB d3 (set_DB d2 (set_DB d1 (set_DB d0 n))))) _ index i Hd4 ltac:(lia)) as (d5 & E5 & Hd5).
      exists d5; eexists. split; [exact E5|]. split; [exact Hd5|]. split; [|apply list_frame_upd_index, list_frame_upd, list_frame_upd, list_frame_refl].
      apply (push_first f index ((h, q) :: l) i p Hl Hne Hi Hp Hout).
      * intros j Hj. pose proof (item_nonempty f index _ j Hl Hj).
        assert (i <> j) by (intros ->; contradiction). case_decide as Ej; [subst j; uv; reflexivity | uv; reflexivity].
      * assert (h <> i) by congruence. uv. reflexivity.
      * uv. reflexivity.
      * intros x Hx Hxi Hxl. cbn [map fst] in Hxl. apply not_elem_of_cons in Hxl as [Hxh _]. uv. reflexivity.
Qed.

(** ** Deletion *)

Lemma seg_set_next f f' index pv l a x i nx : seg f index pv (l ++ [(a, x)]) i -> (forall j, j ∈ map fst l -> f' (index ++ j) = f (index ++ j)) ->
  f' (index ++ a) = Some (raw_node nx (lastk pv l) x) -> seg f' index pv (l ++ [(a, x)]) nx.
Proof.
  intros Hs Hf Ha. apply lseg_app in Hs as [H1 _]. apply lseg_app. split; [exact (seg_ext f f' index l pv a Hf H1)|]. split; [exact Ha | exact I].
Qed.

Lemma seg_set_prev f f' index i l b y nx pv : seg f index i ((b, y) :: l) nx -> (forall j, j ∈ map fst l -> f' (index ++ j) = f (index ++ j)) ->
  f' (index ++ b) = Some (raw_node (hdk l nx) pv y) -> seg f' index pv ((b, y) :: l) nx.
Proof. intros [_ Hs] Hf Hb. split; [exact Hb | exact (seg_ext f f' index l b nx Hf Hs)]. Qed.

Lemma removed f f' index l1 i p l2 : is_list f index (l1 ++ (i, p) :: l2) ->
  f' index = match l1 ++ l2 with [] => None | e :: _ => Some (raw_item (fst e)) end ->
  seg f' index [] l1 (hdk l2 []) -> seg f' index (lastk [] l1) l2 [] -> f' (index ++ i) = None ->
  (forall x, x <> [] -> x <> i -> x ∉ map fst (l1 ++ l2) -> f' (index ++ x) = f (index ++ x)) -> is_list f' index (l1 ++ l2).
Proof.
  intros [Hh Hs Hfree Hnd Hit] H1 H2 H3 H4 H5. destruct (nodup_split i p l1 l2 Hnd) as (N1 & N2 & N3 & _). constructor.
  - exact H1.
  - apply lseg_app. split; assumption.
  - intros x Hx Hin. destruct (decide (x = i)) as [->|Hxi]; [exact H4|]. rewrite H5 by assumption. apply Hfree; [exact Hx|].
    rewrite map_app in *. cbn [map fst]. intros Hx2. apply Hin. apply elem_of_app in Hx2 as [Hx2|Hx2]; apply elem_of_app; [left; exact Hx2|].
    apply elem_of_cons in Hx2 as [->|Hx2]; [contradiction | right; exact Hx2].
  - exact N3.
  - apply Forall_app in Hit as [J1 J2]. inversion J2; subst. apply Forall_app. split; assumption.
Qed.

(** The node before or behind [i], with what keeps its key apart. *)
Lemma prev_node f index l1 a x i p l2 : is_list f index ((l1 ++ [(a, x)]) ++ (i, p) :: l2) ->
  f (index ++ a) = Some (raw_node i (lastk [] l1) x) /\ a <> [] /\ item_ok a /\ item_ok x /\ item_ok (lastk [] l1) /\
  (a ∉ map fst l1) /\ (a ∉ map fst l2) /\ a <> i.
Proof.
  intros Hl. pose proof (l_nodup _ _ _ Hl) as Hnd. rewrite <- app_assoc in Hl, Hnd. cbn [app] in Hl, Hnd.
  destruct (is_list_split f index l1 a x ((i, p) :: l2) Hl) as (Hf & _ & _ & Ha & Hia & Hx & _ & Hla & _ & _).
  destruct (nodup_split a x l1 ((i, p) :: l2) Hnd) as (N1 & N2 & _ & _). cbn [map fst] in N2. apply not_elem_of_cons in N2 as [N2 N3].
  cbn [hdk fst] in Hf. repeat (split; [assumption|]). assumption.
Qed.

Lemma next_node f index l1 i p b y l2 : is_list f index (l1 ++ (i, p) :: (b, y) :: l2) ->
  f (index ++ b) = Some (raw_node (hdk l2 []) i y) /\ b <> [] /\ item_ok b /\ item_ok y /\ item_ok (hdk l2 []) /\
  (b ∉ map fst l1) /\ (b ∉ map fst l2) /\ b <> i.
Proof.
  intros Hl. pose proof (l_nodup _ _ _ Hl) as Hnd.
  change (l1 ++ (i, p) :: (b, y) :: l2) with (l1 ++ [(i, p)] ++ (b, y) :: l2) in Hl, Hnd. rewrite app_assoc in Hl, Hnd.
  destruct (is_list_split f index (l1 ++ [(i, p)]) b y l2 Hl) as (Hf & _ & _ & Hb & Hib & Hy & Hnx & _ & _ & _).
  destruct (nodup_split b y (l1 ++ [(i, p)]) l2 Hnd) as (N1 & N2 & _ & _). rewrite map_app in N1. cbn [map fst] in N1.
  apply not_elem_of_app in N1 as [N1 N3]. apply not_elem_of_cons in N3 as [N3 _]. rewrite lastk_app in Hf. cbn [lastk fst] in Hf.
  repeat (split; [assumption|]). assumption.
Qed.

Definition unlink (index : list byte) (q : LinkedlistNode) : @NM D unit :=
  if is_nil (prev q) then
    if is_nil (next q) then db_Delete index
    else
      do qnext <- getListNode_deref index (next q);
      do_ put_node index (next q) (next qnext) [] (payload qnext);
      PutBytes index (next q)
  else if is_nil (next q) then
    do qprev <- getListNode_deref index (prev q);
    put_node index (prev q) [] (prev qprev) (payload qprev)
  else
    do qprev <- getListNode_deref index (prev q);
    do qnext <- getListNode_deref index (next q);
    do node_prev <- st_lift (makeLinkedlistNode (next q) (prev qprev) (payload qprev));
    do node_next <- st_lift (makeLinkedlistNode (next qnext) (prev q) (payload qnext));
    do_ PutBytes (index ++ prev q) node_prev;
    PutBytes (index ++ next q) node_next.

(** What is left to show of an unlinked node: deleting it finishes the removal. *)
Definition unlinked (f f' : view_t) (index i : list byte) (l1 l2 : list entry) : Prop :=
  is_list (upd_view (index ++ i) None f') index (l1 ++ l2) /\ list_frame index f f'.

Lemma unlink_only n f index i p : kv_is (CacheDB n) f -> is_list f index [(i, p)] ->
  exists d f', unlink index (mkNode [] [] p) n = Ok ((), set_DB d n) /\ kv_is d f' /\ unlinked f f' index i [] [].
Proof.
  intros Hn Hl. destruct (delete_key_view n f index Hn) as (d & E & Hd). exists d; eexists. split; [exact E|]. split; [exact Hd|].
  destruct (is_list_split f index [] i p [] Hl) as (_ & _ & _ & Hi & _). split; [|apply list_frame_upd_index, list_frame_refl].
  apply (removed f _ index [] i p [] Hl); [uv; reflexivity | exact I | exact I | uv; reflexivity | intros x Hx Hxi _; uv; reflexivity].
Qed.

Lemma unlink_first n f index i p b y l2 : kv_is (CacheDB n) f -> is_list f index ((i, p) :: (b, y) :: l2) ->
  exists d f', unlink index (mkNode b [] p) n = Ok ((), set_DB d n) /\ kv_is d f' /\ unlinked f f' index i [] ((b, y) :: l2).
Proof.
  intros Hn Hl. destruct (next_node f index [] i p b y l2 Hl) as (Hfb & Hb & Hib & Hy & Hnx & _ & Nb & Hbi).
  destruct (is_list_split f index [] i p ((b, y) :: l2) Hl) as (_ & _ & S2 & Hi & Hio & _).
  unfold unlink. cbn [prev next payload]. rewrite is_nil_nil, (is_nil_ne b Hb).
  destruct (node_view n f index b _ _ _ Hn Hnx Hio Hy Hfb) as (d1 & _ & E1 & Hd1). run E1. cbn [next payload].
  destruct (put_node_view (set_DB d1 n) f index b _ [] y Hd1 Hnx item_ok_nil Hy) as (d2 & E2 & Hd2). run E2.
  unfold item_ok in Hib. destruct (put_bytes_view (set_DB d2 (set_DB d1 n)) _ index b Hd2 ltac:(lia)) as (d3 & E3 & Hd3).
  exists d3; eexists. split; [exact E3|]. split; [exact Hd3|]. split; [|apply list_frame_upd_index, list_frame_upd, list_frame_refl].
  assert (Hdj : forall j, j ∈ map fst l2 -> j <> [] /\ j <> i /\ j <> b).
  { intros j Hj. destruct (nodup_split i p [] ((b, y) :: l2) (l_nodup _ _ _ Hl)) as (_ & N & _ & _).
    assert (Hjn : j <> []) by (apply (item_nonempty f index _ j Hl); do 2 apply list_elem_of_further; exact Hj).
    split; [exact Hjn|]. split; [intros ->; apply N, list_elem_of_further, Hj | intros ->; contradiction]. }
  apply (removed f _ index [] i p ((b, y) :: l2) Hl); [uv; reflexivity | exact I | | uv; reflexivity |].
  - apply (seg_set_prev f _ index i); [exact S2 | | uv; reflexivity]. intros j Hj. destruct (Hdj j Hj) as (? & ? & ?). uv. reflexivity.
  - intros x Hx Hxi Hxl. cbn [app map fst] in Hxl. apply not_elem_of_cons in Hxl as [Hxb _]. uv. reflexivity.
Qed.

(** The items of the two sides are apart from [i] and from each other. *)
Lemma sides_apart f index l1 i p l2 : is_list f index (l1 ++ (i, p) :: l2) ->
  (forall j, j ∈ map fst l1 -> j <> [] /\ j <> i) /\ (forall j, j ∈ map fst l2 -> j <> [] /\ j <> i).
Proof.
  intros Hl. destruct (nodup_split i p l1 l2 (l_nodup _ _ _ Hl)) as (N1 & N2 & _ & _).
  split; intros j Hj; (split; [|intros ->; contradiction]); apply (item_nonempty f index _ j Hl); rewrite map_app; apply elem_of_app;
    [left; exact Hj | right; apply list_elem_of_further; exact Hj].
Qed.

Lemma head_snoc (l : list entry) e l2 : match (l ++ [e]) ++ l2 with [] => None | e :: _ => Some (raw_item (fst e)) end =
  match (l ++ [e]) with [] => None | e :: _ => Some (raw_item (fst e)) end.
Proof. destruct l; reflexivity. Qed.

Lemma unlink_last n f index l1 a x i p : kv_is (CacheDB n) f -> is_list f index ((l1 ++ [(a, x)]) ++ [(i, p)]) ->
  exists d f', unlink index (mkNode [] a p) n = Ok ((), set_DB d n) /\ kv_is d f' /\ unlinked f f' index i (l1 ++ [(a, x)]) [].
Proof.
  intros Hn Hl. destruct (prev_node f index l1 a x i p [] Hl) as (Hfa & Ha & Hia & Hx & Hla & Na & _ & Hai).
  destruct (is_list_split f index (l1 ++ [(a, x)]) i p [] Hl) as (_ & S1 & _ & Hi & Hio & _). destruct (sides_apart f index _ i p [] Hl) as [A1 _].
  unfold unlink. cbn [prev next payload]. rewrite (is_nil_ne a Ha), is_nil_nil.
  destruct (node_view n f index a _ _ _ Hn Hio Hla Hx Hfa) as (d1 & _ & E1 & Hd1). run E1. cbn [prev payload].
  destruct (put_node_view (set_DB d1 n) f index a [] _ x Hd1 item_ok_nil Hla Hx) as (d2 & E2 & Hd2).
  exists d2; eexists. split; [exact E2|]. split; [exact Hd2|]. split; [|apply list_frame_upd, list_frame_refl].
  assert (Hia' : i <> a) by congruence.
  apply (removed f _ index (l1 ++ [(a, x)]) i p [] Hl); [| | exact I | uv; reflexivity |].
  - uv. rewrite (l_head _ _ _ Hl), !head_snoc. reflexivity.
  - apply (seg_set_next f _ index [] l1 a x i); [exact S1 | | uv; reflexivity]. intros j Hj.
    destruct (A1 j) as [? ?]; [rewrite map_app; apply elem_of_app; left; exact Hj|]. assert (a <> j) by (intros ->; contradiction). uv. reflexivity.
  - intros z Hz Hzi Hzl. rewrite app_nil_r, map_app in Hzl. apply not_elem_of_app in Hzl as [_ Hza]. cbn in Hza. apply not_elem_of_cons in Hza as [Hza _]. uv. reflexivity.
Qed.

Lemma unlink_middle n f index l1 a x i p b y l2 : kv_is (CacheDB n) f -> is_list f index ((l1 ++ [(a, x)]) ++ (i, p) :: (b, y) :: l2) ->
  exists d f', unlink index (mkNode b a p) n = Ok ((), set_DB d n) /\ kv_is d f' /\ unlinked f f' index i (l1 ++ [(a, x)]) ((b, y) :: l2).
Proof.
  intros Hn Hl. destruct (prev_node f index l1 a x i p ((b, y) :: l2) Hl) as (Hfa & Ha & Hia & Hx & Hla & Na & Na2 & Hai).
  destruct (next_node f index (l1 ++ [(a, x)]) i p b y l2 Hl) as (Hfb & Hb & Hib & Hy & Hnx & Nb & Nb2 & Hbi).
  destruct (is_list_split f index (l1 ++ [(a, x)]) i p ((b, y) :: l2) Hl) as (_ & S1 & S2 & Hi & Hio & _). destruct (sides_apart f index _ i p _ Hl) as [A1 A2].
  cbn [map fst] in Na2. apply not_elem_of_cons in Na2 as [Hab Na2]. rewrite map_app in Nb. apply not_elem_of_app in Nb as [Nb _].
  unfold unlink. cbn [prev next payload]. rewrite (is_nil_ne a Ha), (is_nil_ne b Hb).
  destruct (node_view n f index a _ _ _ Hn Hio Hla Hx Hfa) as (d1 & _ & E1 & Hd1). run E1. cbn [prev payload].
  destruct (node_view (set_DB d1 n) f index b _ _ _ Hd1 Hnx Hio Hy Hfb) as (d2 & _ & E2 & Hd2). run E2. cbn [next payload].
  unfold st_lift. rewrite (make_node b _ x Hib Hla Hx), (make_node _ a y Hnx Hia Hy).
  rewrite (st_bind_eq _ _ (set_DB d2 (set_DB d1 n)) _ _ eq_refl), (st_bind_eq _ _ (set_DB d2 (set_DB d1 n)) _ _ eq_refl).
  assert (Z1 : zlen (wire (mkNode b (lastk [] l1) x)) < 2 ^ 57) by (pose proof (zlen_node b _ x Hib Hla Hx); lia).
  assert (Z2 : zlen (wire (mkNode (hdk l2 []) a y)) < 2 ^ 57) by (pose proof (zlen_node _ a y Hnx Hia Hy); lia).
  destruct (put_bytes_view (set_DB d2 (set_DB d1 n)) f (index ++ a) _ Hd2 Z1) as (d3 & E3 & Hd3). run E3.
  destruct (put_bytes_view (set_DB d3 (set_DB d2 (set_DB d1 n))) _ (index ++ b) _ Hd3 Z2) as (d4 & E4 & Hd4).
  exists d4; eexists. split; [exact E4|]. split; [exact Hd4|]. split; [|apply list_frame_upd, list_frame_upd, list_frame_refl].
  assert (Hia' : i <> a) by congruence. assert (Hib' : i <> b) by congruence. assert (Hba : b <> a) by congruence.
  apply (removed f _ index (l1 ++ [(a, x)]) i p ((b, y) :: l2) Hl); [| | | uv; reflexivity |].
  - uv. rewrite (l_head _ _ _ Hl), !head_snoc. reflexivity.
  - apply (seg_set_next f _ index [] l1 a x i); [exact S1 | | uv; reflexivity]. intros j Hj.
    destruct (A1 j) as [? ?]; [rewrite map_app; apply elem_of_app; left; exact Hj|]. assert (a <> j) by (intros ->; contradiction). assert (b <> j) by (intros ->; contradiction). uv. reflexivity.
  - rewrite lastk_app. cbn [lastk fst]. apply (seg_set_prev f _ index i); [exact S2 | | uv; reflexivity]. intros j Hj.
    destruct (A2 j) as [? ?]; [apply list_elem_of_further; exact Hj|]. assert (a <> j) by (intros ->; contradiction). assert (b <> j) by (intros ->; contradiction). uv. reflexivity.
  - intros z Hz Hzi Hzl. rewrite !map_app in Hzl. apply not_elem_of_app in Hzl as [Hz1 Hz2]. apply not_elem_of_app in Hz1 as [_ Hza]. cbn in Hza, Hz2.
    apply not_elem_of_cons in Hza as [Hza _]. apply not_elem_of_cons in Hz2 as [Hzb _]. uv. reflexivity.
Qed.

Lemma unlink_view n f index l1 i p l2 : kv_is (CacheDB n) f -> is_list f index (l1 ++ (i, p) :: l2) ->
  exists d f', unlink index (mkNode (hdk l2 []) (lastk [] l1) p) n = Ok ((), set_DB d n) /\ kv_is d f' /\ unlinked f f' index i l1 l2.
Proof.
  intros Hn Hl. destruct (snoc_case l1) as [->|(l1' & a & x & ->)]; destruct l2 as [|[b y] l2].
  - exact (unlink_only n f index i p Hn Hl).
  - exact (unlink_first n f index i p b y l2 Hn Hl).
  - rewrite lastk_app. exact (unlink_last n f index l1' a x i p Hn Hl).
  - rewrite lastk_app. exact (unlink_middle n f index l1' a x i p b y l2 Hn Hl).
Qed.

Lemma delete_item_view n f index l i : kv_is (CacheDB n) f -> is_list f index l -> i <> [] ->
  exists d f', LinkedlistDelete index (Some i) n = Ok (bool_decide (i ∈ map fst l), set_DB d n) /\ kv_is d f' /\ is_list f' index (del i l) /\ list_frame index f f'.
Proof.
  intros Hn Hl Hne. unfold LinkedlistDelete. destruct (decide (i ∈ map fst l)) as [Hin|Hout].
  - rewrite bool_decide_eq_true_2 by exact Hin. destruct (lsplit_at i l Hin) as (l1 & p & l2 & ->).
    destruct (is_list_split f index l1 i p l2 Hl) as (Hf & _ & _ & _ & _ & Hp & Hnx & Hpv & _ & _).
    destruct (node_view n f index i _ _ _ Hn Hnx Hpv Hp Hf) as (d1 & E1 & _ & Hd1). run E1.
    destruct (unlink_view (set_DB d1 n) f index l1 i p l2 Hd1 Hl) as (d2 & f2 & E2 & Hd2 & Hl2 & Fr). fold (unlink index (mkNode (hdk l2 []) (lastk [] l1) p)). run E2.
    destruct (delete_key_view (set_DB d2 (set_DB d1 n)) f2 (index ++ i) Hd2) as (d3 & E3 & Hd3). run E3.
    destruct (nodup_split i p l1 l2 (l_nodup _ _ _ Hl)) as (N1 & N2 & _ & _). rewrite del_split by assumption.
    exists d3; eexists. split; [reflexivity|]. split; [exact Hd3|]. split; [exact Hl2 | apply list_frame_upd, Fr].
  - rewrite bool_decide_eq_false_2 by exact Hout. rewrite del_other by exact Hout.
    destruct (no_node_view n f index i Hn (l_free _ _ _ Hl i Hne Hout)) as (d1 & E1 & Hd1). run E1.
    exists d1, f. split; [reflexivity|]. split; [exact Hd1|]. split; [exact Hl | apply list_frame_refl].
Qed.

(** ** Loops *)

Lemma num_view index l : forall fuel n f pv k, kv_is (CacheDB n) f -> seg f index pv l [] -> Forall entry_ok l -> item_ok pv -> (length l <= fuel)%nat ->
  exists d, num_loop fuel index (hdk l []) k n = Ok (k + zlen l, set_DB d n) /\ kv_is d f.
Proof.
  induction l as [|[i p] l IH]; intros fuel n f pv k Hn Hs Hl Hp Hf.
  { exists (CacheDB n). rewrite zlen_nil, Z.add_0_r, set_DB_same. split; [destruct fuel; reflexivity | exact Hn]. }
  destruct fuel as [|fuel]; [cbn in Hf; lia|]. destruct Hs as [H1 H2]. inversion Hl as [|? ? (Hi & Hio & Hpo) Hl']; subst. cbn [fst snd] in *.
  cbn [num_loop hdk fst]. rewrite (is_nil_ne i Hi).
  destruct (node_view n f index i _ _ _ Hn (hdk_ok l [] Hl' item_ok_nil) Hp Hpo H1) as (d1 & _ & E1 & Hd1). run E1. cbn [next].
  destruct (IH fuel (set_DB d1 n) f i (k + 1) Hd1 H2 Hl' Hio ltac:(cbn in Hf; lia)) as (d & E & Hd). exists d. split; [|exact Hd].
  rewrite E, zlen_cons, set_DB_set. f_equal. f_equal. lia.
Qed.

Lemma clear_view index l : forall fuel n f pv, kv_is (CacheDB n) f -> seg f index pv l [] -> Forall entry_ok l -> item_ok pv -> NoDup (map fst l) -> (length l <= fuel)%nat ->
  exists d f', deleteAll_loop fuel index (hdk l []) n = Ok ((), set_DB d n) /\ kv_is d f' /\
    (forall i, i ∈ map fst l -> f' (index ++ i) = None) /\ (forall key, (forall i, i ∈ map fst l -> key <> index ++ i) -> f' key = f key).
Proof.
  induction l as [|[i p] l IH]; intros fuel n f pv Hn Hs Hl Hp Hnd Hf.
  { exists (CacheDB n), f. rewrite set_DB_same. split; [destruct fuel; reflexivity|]. split; [exact Hn|]. split; [intros i Hi; inversion Hi | reflexivity]. }
  destruct fuel as [|fuel]; [cbn in Hf; lia|]. destruct Hs as [H1 H2]. inversion Hl as [|? ? (Hi & Hio & Hpo) Hl']; subst. inversion Hnd as [|? ? Hni Hnd']; subst. cbn [fst snd] in *.
  cbn [deleteAll_loop hdk fst]. rewrite (is_nil_ne i Hi).
  destruct (node_view n f index i _ _ _ Hn (hdk_ok l [] Hl' item_ok_nil) Hp Hpo H1) as (d1 & E1 & _ & Hd1). run E1.
  destruct (delete_key_view (set_DB d1 n) f (index ++ i) Hd1) as (d2 & E2 & Hd2). run E2. cbn [next].
  assert (H2' : seg (upd_view (index ++ i) None f) index i l []) by (apply (seg_ext f); [intros j Hj; assert (i <> j) by (intros ->; contradiction); uv; reflexivity | exact H2]).
  destruct (IH fuel (set_DB d2 (set_DB d1 n)) _ i Hd2 H2' Hl' Hio Hnd' ltac:(cbn in Hf; lia)) as (d & f' & E & Hd & Hc & Hfr).
  exists d, f'. split; [exact E|]. split; [exact Hd|]. split.
  - intros j Hj. cbn [map fst] in Hj. apply elem_of_cons in Hj as [->|Hj]; [|exact (Hc j Hj)].
    rewrite Hfr; [uv; reflexivity|]. intros j Hj. apply key_ne. intros ->. contradiction.
  - intros key Hk. rewrite Hfr by (intros j Hj; apply Hk, list_elem_of_further, Hj). apply upd_view_ne, not_eq_sym, Hk, list_elem_of_here.
Qed.

Lemma delete_all_view fuel n f index l : kv_is (CacheDB n) f -> is_list f index l -> (length l <= fuel)%nat ->
  exists d f', LinkedlistDeleteAll fuel index n = Ok ((), set_DB d n) /\ kv_is d f' /\ is_list f' index [] /\ list_frame index f f'.
Proof.
  intros Hn Hl Hf. destruct (head_view n f index l Hn Hl) as (d0 & E0 & Hd0). unfold LinkedlistDeleteAll. run E0.
  destruct (clear_view index l fuel (set_DB d0 n) f [] Hd0 (l_seg _ _ _ Hl) (l_items _ _ _ Hl) item_ok_nil (l_nodup _ _ _ Hl) Hf) as (d1 & f1 & E1 & Hd1 & Hc & Hfr). run E1.
  destruct (delete_key_view (set_DB d1 (set_DB d0 n)) f1 index Hd1) as (d2 & E2 & Hd2). exists d2; eexists. split; [exact E2|]. split; [exact Hd2|]. split.
  - constructor; [uv; reflexivity | exact I | | constructor | constructor]. intros x Hx _. uv. destruct (decide (x ∈ map fst l)) as [Hin|Hout]; [exact (Hc x Hin)|].
    rewrite Hfr; [exact (l_free _ _ _ Hl x Hx Hout)|]. intros i Hi. apply key_ne. intros ->. contradiction.
  - apply list_frame_upd_index. intros key Hk. apply Hfr. intros i _. apply Hk.
Qed.

(** What a lookup finds. *)
Definition find_entry (i : list byte) (l : list entry) : option (list byte) :=
  match filter (fun e => fst e = i) l with e :: _ => Some (snd e) | [] => None end.

Lemma find_split i p l1 l2 : i ∉ map fst l1 -> find_entry i (l1 ++ (i, p) :: l2) = Some p.
Proof.
  intros H. unfold find_entry. induction l1 as [|[j q] l1 IH]; cbn [app].
  - rewrite filter_cons_True by reflexivity. reflexivity.
  - cbn [map fst] in H. apply not_elem_of_cons in H as [H1 H2]. rewrite filter_cons_False by (cbn; congruence). exact (IH H2).
Qed.

Lemma find_none i (l : list entry) : i ∉ map fst l -> find_entry i l = None.
Proof.
  intros H. unfold find_entry. induction l as [|[j q] l IH]; [reflexivity|]. cbn [map fst] in H. apply not_elem_of_cons in H as [H1 H2].
  rewrite filter_cons_False by (cbn; congruence). exact (IH H2).
Qed.

Lemma get_item_view' n f index l i : kv_is (CacheDB n) f -> is_list f index l -> i <> [] ->
  exists q d, LinkedlistGetItem index (Some i) n = Ok (q, set_DB d n) /\ kv_is d f /\ option_map payload q = find_entry i l.
Proof.
  intros Hn Hl Hne. destruct (decide (i ∈ map fst l)) as [Hin|Hout].
  - destruct (lsplit_at i l Hin) as (l1 & p & l2 & ->). destruct (is_list_split f index l1 i p l2 Hl) as (Hf & _ & _ & _ & _ & Hp & Hnx & Hpv & _ & _).
    destruct (node_view n f index i _ _ _ Hn Hnx Hpv Hp Hf) as (d & E & _ & Hd). exists (Some (mkNode (hdk l2 []) (lastk [] l1) p)), d. split; [exact E|]. split; [exact Hd|].
    destruct (nodup_split i p l1 l2 (l_nodup _ _ _ Hl)) as (N1 & _). rewrite find_split by exact N1. reflexivity.
  - destruct (no_node_view n f index i Hn (l_free _ _ _ Hl i Hne Hout)) as (d & E & Hd). exists None, d. split; [exact E|]. split; [exact Hd|]. rewrite find_none by exact Hout. reflexivity.
Qed.

(** C23: the linked list of [utils/linked_list.go] refines a list of items with payloads. When the storage holds the list [l]
    under [index], inserting a non-empty item puts it first, or updates its payload in place; deleting returns whether it
    was there and removes it, relinking its neighbours; a lookup finds its payload; the head is the first item; counting
    and clearing end after as many rounds as there are items. Keys that do not start with [index] never change. *)
Theorem linked_list_refines_list n f index l i p fuel :
  kv_is (CacheDB n) f -> is_list f index l -> i <> [] -> item_ok i -> item_ok p -> (length l <= fuel)%nat ->
  (exists d f', LinkedlistInsert index (Some i) p n = Ok ((), set_DB d n) /\ kv_is d f' /\ is_list f' index (ins i p l) /\ list_frame index f f') /\
  (exists d f', LinkedlistDelete index (Some i) n = Ok (bool_decide (i ∈ map fst l), set_DB d n) /\ kv_is d f' /\ is_list f' index (del i l) /\ list_frame index f f') /\
  (exists q d, LinkedlistGetItem index (Some i) n = Ok (q, set_DB d n) /\ kv_is d f /\ option_map payload q = find_entry i l) /\
  (exists d, LinkedlistGetHead index n = Ok (hdk l [], set_DB d n) /\ kv_is d f) /\
  (exists d, LinkedlistGetNumOfItems fuel index n = Ok (zlen l, set_DB d n) /\ kv_is d f) /\
  (exists d f', LinkedlistDeleteAll fuel index n = Ok ((), set_DB d n) /\ kv_is d f' /\ is_list f' index [] /\ list_frame index f f').
Proof.
  intros Hn Hl Hne Hi Hp Hf. split; [exact (insert_view n f index l i p Hn Hl Hne Hi Hp)|]. split; [exact (delete_item_view n f index l i Hn Hl Hne)|].
  split; [exact (get_item_view' n f index l i Hn Hl Hne)|]. split; [exact (head_view n f index l Hn Hl)|].
  split; [|exact (delete_all_view fuel n f index l Hn Hl Hf)].
  destruct (head_view n f index l Hn Hl) as (d0 & E0 & Hd0).
  destruct (num_view index l fuel (set_DB d0 n) f [] 0 Hd0 (l_seg _ _ _ Hl) (l_items _ _ _ Hl) item_ok_nil Hf) as (d & E & Hd).
  exists d. unfold LinkedlistGetNumOfItems. run E0. split; [exact E | exact Hd].
Qed.

End View.

(** ** A concrete list *)

#[local] Existing Instance mem_kv.

Definition idx : list byte := [x10; x20].
Definition one_store : gmap (list byte) (list byte) := <[idx := raw_item [x01]]> {[idx ++ [x01] := raw_node [] [] [x05]]}.
Definition list_n : NativeService := native_a one_store OntContractAddress [].

Lemma one_list : is_list (fun k => one_store !! k) idx [([x01], [x05])].
Proof.
  assert (Hs : forall k, one_store !! k = if decide (idx = k) then Some (raw_item [x01]) else if decide (idx ++ [x01] = k) then Some (raw_node [] [] [x05]) else None).
  { intros k. unfold one_store. case_decide as E; [subst; apply lookup_insert_eq|]. rewrite lookup_insert_ne by exact E.
    case_decide as E'; [subst; apply lookup_singleton_eq | apply lookup_singleton_ne, E']. }
  constructor.
  - rewrite Hs. reflexivity.
  - split; [rewrite Hs; reflexivity | exact I].
  - intros x Hx Hin. rewrite Hs, !decide_False; [reflexivity | | intros E; symmetry in E; exact (key_ne_index idx x Hx E)].
    intros E. apply Hin. apply app_inv_head in E. subst x. apply list_elem_of_here.
  - repeat constructor. intros H. inversion H.
  - repeat constructor; vm_compute; congruence.
Qed.

Lemma linked_list_refines_list_witness :
  (exists d f', LinkedlistInsert idx (Some [x02]) [x06] list_n = Ok ((), set_DB d list_n) /\ kv_is d f' /\ is_list f' idx [([x02], [x06]); ([x01], [x05])]) /\
  exists d, LinkedlistGetNumOfItems 1 idx list_n = Ok (1, set_DB d list_n) /\ kv_is d (fun k => one_store !! k).
Proof.
  assert (Hk : kv_is (CacheDB list_n) (fun k => one_store !! k)) by (intros k; reflexivity).
  destruct (linked_list_refines_list list_n (fun k => one_store !! k) idx [([x01], [x05])] [x02] [x06] 1 Hk one_list) as ((d & f' & E & Hd & Hl & _) & _ & _ & _ & Hc & _);
    [discriminate | vm_compute; reflexivity | vm_compute; reflexivity | cbn; lia |].
  split; [exists d, f'; split; [exact E|]; split; [exact Hd | exact Hl] | exact Hc].
Defined.
