(* ===== verification/Vbft.v ===== *)
(** * VBFT votes

    [consensus/vbft/block_pool.go] (the candidates of each block: proposals, endorsements,
    commits, and when they suffice) and the counting of commits of
    [node_utils.go].  Goroutines, timers and the network around them are not modelled:
    every method of the pool runs under its lock, so a run of the pool is a sequence of
    calls.

    Peers and block numbers ([uint32]) are values of [Z]; a Go map is a [gmap].  Where
    the code ranges over a map the order is an argument [ord] (an enumeration of the
    entries), since the language leaves it open. *)

From S2P Require Import Prelude.

Definition MaxUint32 : Z := 2 ^ 32 - 1.

(** ** Messages *)

(** [Block], as far as the pool reads it: proposer and height, the signatures of the block
    and of the empty block, and those of the cross-chain message. *)
Record Block := mkBlock {
  b_proposer : Z;
  b_height : Z;
  b_SigData : list (list byte);
  b_CrossChainSig : option (list (list byte))
}.

(** The messages, with the fields that the pool reads. *)
Record blockProposalMsg := mkProposal { Block_ : Block }.
Record blockEndorseMsg := mkEndorse {
  Endorser : Z; EndorsedProposer : Z; e_BlockNum : Z; EndorseForEmpty : bool;
  EndorserSig : list byte; e_CrossChainSig : list byte }.
Record blockCommitMsg := mkCommit {
  Committer : Z; BlockProposer : Z; c_BlockNum : Z; CommitBlockHash : list byte; CommitForEmpty : bool;
  EndorsersSig : gmap Z (list byte); CommitterSig : list byte;
  c_CrossChainEndorserSig : gmap Z (list byte); c_CrossChainCommitterSig : list byte }.

Definition getProposer (m : blockProposalMsg) : Z := b_proposer (Block_ m).
Definition p_BlockNum (m : blockProposalMsg) : Z := b_height (Block_ m).

(** [SigData[0]]: an empty slice panics. *)
Definition sig0 (l : list (list byte)) : res (list byte) := match l with [] => Panic | s :: _ => Ok s end.

(** ** [BlockPool] *)

Record CandidateEndorseSigInfo := mkSig {
  s_EndorsedProposer : Z; s_Signature : list byte; s_ForEmpty : bool; s_CrossChainMsgSig : list byte }.

(** [EndorseSigs] is nil in the candidates loaded from the chain store. *)
Record CandidateInfo := mkCandidate {
  EndorsedProposal : option blockProposalMsg;
  EndorsedEmptyProposal : option blockProposalMsg;
  CommittedProposal : option blockProposalMsg;
  CommittedEmptyProposal : option blockProposalMsg;
  commitDone_ : bool;
  SealedBlock : option Block;
  Proposals : list blockProposalMsg;
  CommitMsgs : list blockCommitMsg;
  EndorseSigs : option (gmap Z (list CandidateEndorseSigInfo))
}.

Record BlockPool := mkPool { HistoryLen : Z; candidateBlocks : gmap Z CandidateInfo }.

Definition newCandidate : CandidateInfo := mkCandidate None None None None false None [] [] (Some ∅).
Definition historyCandidate (b : Block) : CandidateInfo := mkCandidate None None None None false (Some b) [] [] None.

Definition set_candidate (n : Z) (c : CandidateInfo) (p : BlockPool) : BlockPool := mkPool (HistoryLen p) (<[n := c]> (candidateBlocks p)).

Definition set_EndorseSigs (s : option (gmap Z (list CandidateEndorseSigInfo))) (c : CandidateInfo) : CandidateInfo :=
  mkCandidate (EndorsedProposal c) (EndorsedEmptyProposal c) (CommittedProposal c) (CommittedEmptyProposal c) (commitDone_ c) (SealedBlock c) (Proposals c) (CommitMsgs c) s.
Definition set_Proposals (l : list blockProposalMsg) (c : CandidateInfo) : CandidateInfo :=
  mkCandidate (EndorsedProposal c) (EndorsedEmptyProposal c) (CommittedProposal c) (CommittedEmptyProposal c) (commitDone_ c) (SealedBlock c) l (CommitMsgs c) (EndorseSigs c).
Definition set_CommitMsgs (l : list blockCommitMsg) (c : CandidateInfo) : CandidateInfo :=
  mkCandidate (EndorsedProposal c) (EndorsedEmptyProposal c) (CommittedProposal c) (CommittedEmptyProposal c) (commitDone_ c) (SealedBlock c) (Proposals c) l (EndorseSigs c).
Definition set_Endorsed (e ee : option blockProposalMsg) (c : CandidateInfo) : CandidateInfo :=
  mkCandidate e ee (CommittedProposal c) (CommittedEmptyProposal c) (commitDone_ c) (SealedBlock c) (Proposals c) (CommitMsgs c) (EndorseSigs c).
Definition set_Committed (m me : option blockProposalMsg) (c : CandidateInfo) : CandidateInfo :=
  mkCandidate (EndorsedProposal c) (EndorsedEmptyProposal c) m me (commitDone_ c) (SealedBlock c) (Proposals c) (CommitMsgs c) (EndorseSigs c).
Definition set_commitDone (c : CandidateInfo) : CandidateInfo :=
  mkCandidate (EndorsedProposal c) (EndorsedEmptyProposal c) (CommittedProposal c) (CommittedEmptyProposal c) true (SealedBlock c) (Proposals c) (CommitMsgs c) (EndorseSigs c).

(** An operation of the pool; a Go [error] is a result, the pool lives on. *)
Definition PM := ST BlockPool.
Definition gerr := option gerror.

Definition errDupProposal : gerror := "multi proposal from same proposer".
Definition errDupCommit : gerror := "multi commit from same committer".

(** [newBlockPool]: the last blocks of the chain, which the store must have. *)
Fixpoint load_history (getBlock : Z -> option Block) (fuel : nat) (blkNum last : Z) (m : gmap Z CandidateInfo) : res (gmap Z CandidateInfo) :=
  match fuel with
  | O => Panic
  | S f => if last <? blkNum then Ok m
           else match getBlock blkNum with
                | None => Err "failed to load block"
                | Some b => load_history getBlock f (blkNum + 1) last (<[blkNum := historyCandidate b]> m)
                end
  end.
Definition newBlockPool (historyLen chained : Z) (getBlock : Z -> option Block) : res BlockPool :=
  let blkNum := if historyLen <? chained then chained - historyLen else 0 in
  let* m := load_history getBlock (S (Z.to_nat (chained - blkNum + 1))) blkNum chained ∅ in
  Ok (mkPool historyLen m).

Definition clean : PM unit := fun p => Ok ((), mkPool (HistoryLen p) ∅).

Definition getCandidateInfoLocked (blkNum : Z) : PM CandidateInfo := fun p =>
  match candidateBlocks p !! blkNum with
  | Some c => Ok (c, p)
  | None => Ok (newCandidate, set_candidate blkNum newCandidate p)
  end.

Definition put_candidate (blkNum : Z) (c : CandidateInfo) : PM unit := fun p => Ok ((), set_candidate blkNum c p).

(** The new value of [EndorseSigs[endorser]], or [None] when the endorsement is ignored. *)
Definition add_sig (cur : option (list CandidateEndorseSigInfo)) (eSig : CandidateEndorseSigInfo) (commitment : bool) : option (list CandidateEndorseSigInfo) :=
  match cur with
  | Some eSigs =>
      if commitment then Some [eSig]
      else if existsb s_ForEmpty eSigs then None
      else if s_ForEmpty eSig then Some (eSigs ++ [eSig])
      else if existsb (fun s => s_EndorsedProposer s =? s_EndorsedProposer eSig) eSigs then None
      else Some (eSigs ++ [eSig])
  | None => Some [eSig]
  end.

Definition addBlockEndorsementLocked (blkNum endorser : Z) (eSig : CandidateEndorseSigInfo) (commitment : bool) : PM unit :=
  do candidate <- getCandidateInfoLocked blkNum;
  let sigs := default ∅ (EndorseSigs candidate) in
  match add_sig (sigs !! endorser) eSig commitment with
  | None => st_ret ()
  | Some l => match EndorseSigs candidate with
              | None => st_panic (* assignment to a nil map *)
              | Some m => put_candidate blkNum (set_EndorseSigs (Some (<[endorser := l]> m)) candidate)
              end
  end.

(** The first proposal of the same proposer decides: the same signature is a repetition. *)
Fixpoint dup_proposal (l : list blockProposalMsg) (msg : blockProposalMsg) : res (option gerr) :=
  match l with
  | [] => Ok None
  | p :: l =>
      if getProposer p =? getProposer msg then
        let* s := sig0 (b_SigData (Block_ p)) in
        let* s' := sig0 (b_SigData (Block_ msg)) in
        Ok (Some (if bool_decide (s = s') then None else Some errDupProposal))
      else dup_proposal l msg
  end.

Definition newBlockProposal (msg : blockProposalMsg) : PM gerr :=
  let blkNum := p_BlockNum msg in
  do candidate <- getCandidateInfoLocked blkNum;
  do dup <- st_lift (dup_proposal (Proposals candidate) msg);
  match dup with
  | Some e => st_ret e
  | None =>
      do_ put_candidate blkNum (set_Proposals (Proposals candidate ++ [msg]) candidate);
      do s <- st_lift (sig0 (b_SigData (Block_ msg)));
      do cs <- match b_CrossChainSig (Block_ msg) with
               | Some l => if 1 <? b_height (Block_ msg) then st_lift (sig0 l) else st_ret []
               | None => st_ret []
               end;
      do_ addBlockEndorsementLocked blkNum (getProposer msg) (mkSig (getProposer msg) s false cs) false;
      st_ret None
  end.

Definition newBlockEndorsement (msg : blockEndorseMsg) : PM unit :=
  addBlockEndorsementLocked (e_BlockNum msg) (Endorser msg)
    (mkSig (EndorsedProposer msg) (EndorserSig msg) (EndorseForEmpty msg) (e_CrossChainSig msg)) false.

Fixpoint dup_commit (l : list blockCommitMsg) (msg : blockCommitMsg) : option gerr :=
  match l with
  | [] => None
  | c :: l => if Committer c =? Committer msg then Some (if bool_decide (CommitBlockHash c = CommitBlockHash msg) then None else Some errDupCommit)
              else dup_commit l msg
  end.

Fixpoint add_endorser_sigs (blkNum : Z) (msg : blockCommitMsg) (l : list (Z * list byte)) : PM unit :=
  match l with
  | [] => st_ret ()
  | (endorser, sig) :: l =>
      do_ addBlockEndorsementLocked blkNum endorser
        (mkSig (BlockProposer msg) sig (CommitForEmpty msg) (default [] (c_CrossChainEndorserSig msg !! endorser))) false;
      add_endorser_sigs blkNum msg l
  end.

Definition newBlockCommitment (ord : gmap Z (list byte) -> list (Z * list byte)) (msg : blockCommitMsg) : PM gerr :=
  let blkNum := c_BlockNum msg in
  do candidate <- getCandidateInfoLocked blkNum;
  match dup_commit (CommitMsgs candidate) msg with
  | Some e => st_ret e
  | None =>
      do_ add_endorser_sigs blkNum msg (ord (EndorsersSig msg));
      do_ addBlockEndorsementLocked blkNum (Committer msg)
        (mkSig (BlockProposer msg) (CommitterSig msg) (CommitForEmpty msg) (c_CrossChainCommitterSig msg)) true;
      do candidate <- getCandidateInfoLocked blkNum;
      do_ put_candidate blkNum (set_CommitMsgs (CommitMsgs candidate ++ [msg]) candidate);
      st_ret None
  end.

(** *** The server's own votes *)

Definition setProposalEndorsed (proposal : blockProposalMsg) (forEmpty : bool) : PM gerr := fun p =>
  let blkNum := p_BlockNum proposal in
  match candidateBlocks p !! blkNum with
  | None => Ok (Some "non-candidates when set endorsed", p)
  | Some c =>
      if negb forEmpty then
        match EndorsedProposal c with
        | None => Ok (None, set_candidate blkNum (set_Endorsed (Some proposal) (EndorsedEmptyProposal c) c) p)
        | Some e => if getProposer e =? getProposer proposal then Ok (None, p) else Ok (Some "had endorsed", p)
        end
      else match EndorsedEmptyProposal c with
           | Some _ => Ok (Some "has endorsed for empty", p)
           | None => Ok (None, set_candidate blkNum (set_Endorsed (EndorsedProposal c) (Some proposal) c) p)
           end
  end.

Definition setProposalCommitted (proposal : blockProposalMsg) (forEmpty : bool) : PM gerr := fun p =>
  let blkNum := p_BlockNum proposal in
  match candidateBlocks p !! blkNum with
  | None => Ok (Some "non-candidates when set commit", p)
  | Some c =>
      match CommittedProposal c, CommittedEmptyProposal c with
      | None, None =>
          if forEmpty then Ok (None, set_candidate blkNum (set_Committed None (Some proposal) c) p)
          else Ok (None, set_candidate blkNum (set_Committed (Some proposal) None c) p)
      | _, _ => Ok (Some "had committed", p)
      end
  end.

Definition isSome {A} (o : option A) : bool := match o with Some _ => true | None => false end.

(** [chained] is [chainStore.GetChainedBlockNum()]. *)
Definition endorsedForBlock (chained blkNum : Z) (p : BlockPool) : bool :=
  if blkNum <=? chained then true
  else match candidateBlocks p !! blkNum with
       | None => false
       | Some c => isSome (EndorsedProposal c) || isSome (EndorsedEmptyProposal c)
       end.
Definition endorsedForEmptyBlock (blkNum : Z) (p : BlockPool) : bool :=
  match candidateBlocks p !! blkNum with None => false | Some c => isSome (EndorsedEmptyProposal c) end.
Definition getEndorsedProposal (chained blkNum : Z) (p : BlockPool) : option blockProposalMsg * bool :=
  if negb (endorsedForBlock chained blkNum p) then (None, false)
  else match candidateBlocks p !! blkNum with
       | None => (None, false)
       | Some c => match EndorsedEmptyProposal c with
                   | Some e => (Some e, true)
                   | None => (EndorsedProposal c, false)
                   end
       end.
Definition committedForBlock (chained blkNum : Z) (p : BlockPool) : bool :=
  if blkNum <=? chained then true
  else match candidateBlocks p !! blkNum with
       | None => false
       | Some c => isSome (CommittedProposal c) || isSome (CommittedEmptyProposal c)
       end.
Definition getBlockProposals (blkNum : Z) (p : BlockPool) : list blockProposalMsg :=
  match candidateBlocks p !! blkNum with None => [] | Some c => Proposals c end.

Definition setCommitDone (blkNum : Z) : PM unit := fun p =>
  match candidateBlocks p !! blkNum with
  | None => Ok ((), p)
  | Some c => Ok ((), set_candidate blkNum (set_commitDone c) p)
  end.
Definition isCommitHadDone (blkNum : Z) (p : BlockPool) : bool :=
  match candidateBlocks p !! blkNum with None => false | Some c => commitDone_ c end.

Definition onBlockSealed (blockNum : Z) : PM unit := fun p =>
  if blockNum <=? HistoryLen p then Ok ((), p)
  else Ok ((), mkPool (HistoryLen p) (filter (fun e => blockNum - HistoryLen p <= fst e) (candidateBlocks p))).

(** *** Counting *)

Section Counting.
Variable ord : gmap Z (list CandidateEndorseSigInfo) -> list (Z * list CandidateEndorseSigInfo).

Definition candidate_sigs (c : CandidateInfo) : gmap Z (list CandidateEndorseSigInfo) := default ∅ (EndorseSigs c).

Definition bump (k : Z) (m : gmap Z Z) : gmap Z Z := <[k := u32 (default 0 (m !! k) + 1)]> m.
Definition count (k : Z) (m : gmap Z Z) : Z := default 0 (m !! k).

(** The two nested loops of [endorseDone], over all signatures in order. *)
Fixpoint endorse_loop (C : Z) (l : list CandidateEndorseSigInfo) (cnt : gmap Z Z) (empty : Z) : Z * bool * bool :=
  match l with
  | [] => (MaxUint32, false, false)
  | s :: l =>
      if s_ForEmpty s then
        if C <? empty + 1 then (s_EndorsedProposer s, true, true) else endorse_loop C l cnt (empty + 1)
      else
        let cnt := bump (s_EndorsedProposer s) cnt in
        if C <? count (s_EndorsedProposer s) cnt then (s_EndorsedProposer s, false, true) else endorse_loop C l cnt empty
  end.

Definition endorseDone (blkNum C : Z) (p : BlockPool) : Z * bool * bool :=
  match candidateBlocks p !! blkNum with
  | None => (MaxUint32, false, false)
  | Some c =>
      if Z.of_nat (size (candidate_sigs c)) <? u32 (C + 1) then (MaxUint32, false, false)
      else endorse_loop C (flat_map snd (ord (candidate_sigs c))) ∅ 0
  end.

(** [None]: a proposal has more than [C + 1] endorsements. *)
Fixpoint failed_loop (C : Z) (l : list CandidateEndorseSigInfo) (cnt : gmap Z Z) (empty : Z) : option (gmap Z Z * Z) :=
  match l with
  | [] => Some (cnt, empty)
  | s :: l =>
      if s_ForEmpty s then failed_loop C l cnt (u32 (empty + 1))
      else
        let cnt := bump (s_EndorsedProposer s) cnt in
        if u32 (C + 1) <? count (s_EndorsedProposer s) cnt then None else failed_loop C l cnt empty
  end.

Definition endorseFailed (blkNum C : Z) (p : BlockPool) : bool :=
  match candidateBlocks p !! blkNum with
  | None => false
  | Some c =>
      let n := Z.of_nat (size (candidate_sigs c)) in
      if n <? u32 (C + 1) then false
      else match failed_loop C (flat_map snd (ord (candidate_sigs c))) ∅ 0 with
           | None => false
           | Some (cnt, empty) =>
               if u32 (C + 1) <? Z.of_nat (size cnt) then true
               else if C <? empty then true
               else
                 let l := u32 (2 * C + 1 - n) in
                 forallb (fun e => negb (C <? u32 (snd e + l))) (map_to_list cnt)
           end
  end.

(** *** Commits *)

(** [signCount[proposer][peer] += 1] for the committer and each endorser. *)
Definition sign_all (peers : list Z) (m : gmap Z Z) : gmap Z Z := foldl (fun m k => <[k := default 0 (m !! k) + 1]> m) m peers.
Definition signers (c : blockCommitMsg) : list Z := Committer c :: map fst (map_to_list (EndorsersSig c)).

Fixpoint consensus_loop (C N : Z) (l : list blockCommitMsg) (emptyCommitCount : Z) (emptyCommit : bool) (signCount : gmap Z (gmap Z Z)) : Z * bool :=
  match l with
  | [] => (MaxUint32, false)
  | c :: l =>
      let emptyCommitCount := if CommitForEmpty c then emptyCommitCount + 1 else emptyCommitCount in
      let hit := CommitForEmpty c && (C <? emptyCommitCount) && negb emptyCommit in
      let C := if hit then C + 1 else C in
      let emptyCommit := emptyCommit || hit in
      let signs := sign_all (signers c) (default ∅ (signCount !! BlockProposer c)) in
      let signCount := <[BlockProposer c := signs]> signCount in
      if N - (N - 1) ÷ 3 <=? Z.of_nat (size signs) + 1 then (BlockProposer c, emptyCommit)
      else consensus_loop C N l emptyCommitCount emptyCommit signCount
  end.

Definition getCommitConsensus (commitMsgs : list blockCommitMsg) (C N : Z) : Z * bool := consensus_loop C N commitMsgs 0 false ∅.

(** The signatures of one endorser, up to the first that takes its proposer past [C]. *)
Fixpoint sigs_loop (C : Z) (l : list CandidateEndorseSigInfo) (cnt : gmap Z Z) (empty : Z) : option Z * gmap Z Z * Z :=
  match l with
  | [] => (None, cnt, empty)
  | s :: l =>
      if s_ForEmpty s then sigs_loop C l cnt (u32 (empty + 1))
      else
        let cnt := bump (s_EndorsedProposer s) cnt in
        if C <? count (s_EndorsedProposer s) cnt then (Some (s_EndorsedProposer s), cnt, empty) else sigs_loop C l cnt empty
  end.

(** The empty endorsements of a peer that is not an endorser are counted twice. *)
Fixpoint commit_sigs_loop (isEndorser : Z -> bool) (C : Z) (l : list (Z * list CandidateEndorseSigInfo)) (cnt : gmap Z Z) (empty : Z) (forEmpty : bool) : Z * bool :=
  match l with
  | [] => (MaxUint32, forEmpty)
  | (endorser, eSigs) :: l =>
      let empty := if isEndorser endorser then empty else u32 (empty + Z.of_nat (length (List.filter s_ForEmpty eSigs))) in
      match sigs_loop C eSigs cnt empty with
      | (Some proposer, cnt, empty) =>
          let forEmpty := if forEmpty then true else C <? empty in
          if proposer =? MaxUint32 then commit_sigs_loop isEndorser C l cnt empty forEmpty else (proposer, forEmpty)
      | (None, cnt, empty) => commit_sigs_loop isEndorser C l cnt empty forEmpty
      end
  end.

Definition commitDone (isEndorser : Z -> bool) (blkNum C N : Z) (p : BlockPool) : Z * bool * bool :=
  match candidateBlocks p !! blkNum with
  | None => (MaxUint32, false, false)
  | Some c =>
      let '(proposer, forEmpty) := getCommitConsensus (CommitMsgs c) C N in
      let C := u32 (N - 1 - C) in
      let '(proposer, forEmpty) :=
        if proposer =? MaxUint32 then commit_sigs_loop isEndorser C (ord (candidate_sigs c)) ∅ 0 forEmpty else (proposer, forEmpty) in
      if negb (proposer =? MaxUint32) then (proposer, forEmpty, true) else (MaxUint32, false, false)
  end.

(** The empty proposal with the most endorsements so far. *)
Fixpoint max_empty (l : list CandidateEndorseSigInfo) (cnt : gmap Z Z) (best : Z * Z) : Z * Z :=
  match l with
  | [] => best
  | s :: l =>
      if s_ForEmpty s then
        let n := count (s_EndorsedProposer s) cnt + 1 in
        max_empty l (<[s_EndorsedProposer s := n]> cnt) (if fst best <? n then (n, s_EndorsedProposer s) else best)
      else max_empty l cnt best
  end.
Definition findConsensusEmptyProposal (blockNum : Z) (p : BlockPool) : res blockProposalMsg :=
  match candidateBlocks p !! blockNum with
  | None => Err "no candidate msgs for block"
  | Some c =>
      let '(maxCnt, maxProposer) := max_empty (flat_map snd (ord (candidate_sigs c))) ∅ (0, 0) in
      match (if 0 <? maxCnt then List.find (fun q => getProposer q =? maxProposer) (Proposals c) else None) with
      | Some q => Ok q
      | None => Err "failed to get block proposal"
      end
  end.

End Counting.
