(* ===== verification/VbftPool.v ===== *)
(** * The block pool under any sequence of messages

    Every pool that messages and the server's own votes can lead to keeps one proposal per proposer, one commit per committer and, for each
    endorser, at most one endorsement per proposer and one for the empty block, last; what is recorded is revised by nothing but
    a commit, which takes the place of the endorsements of its committer. *)

From S2P Require Import Prelude Vbft.

(** ** Invariants *)

Definition nonempty_sigs (l : list CandidateEndorseSigInfo) : list CandidateEndorseSigInfo := List.filter (fun s => negb (s_ForEmpty s)) l.
Definition empty_sigs (l : list CandidateEndorseSigInfo) : list CandidateEndorseSigInfo := List.filter s_ForEmpty l.

Definition sigs_ok (l : list CandidateEndorseSigInfo) : Prop :=
  NoDup (map s_EndorsedProposer (nonempty_sigs l)) /\ (length (empty_sigs l) <= 1)%nat.

Record candidate_ok (blk : Z) (c : CandidateInfo) : Prop := mkCOk {
  co_proposers : NoDup (map getProposer (Proposals c));
  co_pblk : Forall (fun m => p_BlockNum m = blk) (Proposals c);
  co_committers : NoDup (map Committer (CommitMsgs c));
  co_cblk : Forall (fun m => c_BlockNum m = blk) (CommitMsgs c);
  co_sigs : forall e l, candidate_sigs c !! e = Some l -> sigs_ok l;
  co_once : CommittedProposal c = None \/ CommittedEmptyProposal c = None
}.

Definition pool_ok (p : BlockPool) : Prop := forall blk c, candidateBlocks p !! blk = Some c -> candidate_ok blk c.

(** The vote that a commit is for its committer. *)
Definition commit_sig (m : blockCommitMsg) : CandidateEndorseSigInfo := mkSig (BlockProposer m) (CommitterSig m) (CommitForEmpty m) (c_CrossChainCommitterSig m).

(** What is recorded in [c] is still there in [c']; the endorsements of a peer are only added to, unless the peer has committed since:
    then its commit comes first in the place of what there was. *)
Definition keeps {A} (o o' : option A) : Prop := forall x, o = Some x -> o' = Some x.
Record extends (c c' : CandidateInfo) : Prop := mkExt {
  ex_proposals : Proposals c `prefix_of` Proposals c';
  ex_commits : CommitMsgs c `prefix_of` CommitMsgs c';
  ex_endorsed : keeps (EndorsedProposal c) (EndorsedProposal c');
  ex_endorsed_empty : keeps (EndorsedEmptyProposal c) (EndorsedEmptyProposal c');
  ex_committed : keeps (CommittedProposal c) (CommittedProposal c');
  ex_committed_empty : keeps (CommittedEmptyProposal c) (CommittedEmptyProposal c');
  ex_sigs : forall e l, candidate_sigs c !! e = Some l -> exists l', candidate_sigs c' !! e = Some l' /\
    (l `prefix_of` l' \/ exists m, m ∈ CommitMsgs c' /\ m ∉ CommitMsgs c /\ Committer m = e /\ [commit_sig m] `prefix_of` l')
}.

#[global] Instance extends_preorder : PreOrder extends.
Proof.
  split.
  - intros c. constructor; try (intros x Hx; exact Hx); try reflexivity. intros e l E. exists l. split; [exact E | left; reflexivity].
  - intros a b c [A1 A2 A3 A4 A5 A6 A7] [B1 B2 B3 B4 B5 B6 B7]. constructor; try (intros x Hx; solve [auto]); try (etrans; eassumption).
    intros e l E. destruct (A7 e l E) as (l1 & E1 & H1). destruct (B7 e l1 E1) as (l2 & E2 & H2). exists l2. split; [exact E2|].
    assert (Hin : forall m, m ∈ CommitMsgs b -> m ∈ CommitMsgs c) by (intros m Hm; destruct B2 as [k ->]; apply elem_of_app; left; exact Hm).
    assert (Hin' : forall m, m ∉ CommitMsgs b -> m ∉ CommitMsgs a) by (intros m Hm Ha; apply Hm; destruct A2 as [k ->]; apply elem_of_app; left; exact Ha).
    destruct H2 as [H2|(m & M1 & M2 & M3 & M4)]; [|right; exists m; auto]. destruct H1 as [H1|(m & M1 & M2 & M3 & M4)]; [left; etrans; eassumption | right; exists m].
    split; [auto|]. split; [exact M2|]. split; [exact M3 | etrans; eassumption].
Qed.

(** Candidates with the same signatures. *)
Lemma same_sigs c c' e l : EndorseSigs c' = EndorseSigs c -> candidate_sigs c !! e = Some l ->
  exists l', candidate_sigs c' !! e = Some l' /\
    (l `prefix_of` l' \/ exists m, m ∈ CommitMsgs c' /\ m ∉ CommitMsgs c /\ Committer m = e /\ [commit_sig m] `prefix_of` l').
Proof. intros Es E. exists l. unfold candidate_sigs in *. rewrite Es. split; [exact E | left; reflexivity]. Qed.

Definition grows (p p' : BlockPool) : Prop :=
  HistoryLen p' = HistoryLen p /\
  forall blk c, candidateBlocks p !! blk = Some c -> exists c', candidateBlocks p' !! blk = Some c' /\ extends c c'.

#[global] Instance grows_preorder : PreOrder grows.
Proof.
  split.
  - intros p. split; [reflexivity|]. intros blk c E. exists c. split; [exact E | reflexivity].
  - intros a b c [H1 H2] [H3 H4]. split; [congruence|]. intros blk x E. destruct (H2 blk x E) as (y & Ey & Hy). destruct (H4 blk y Ey) as (z & Ez & Hz).
    exists z. split; [exact Ez | etrans; eassumption].
Qed.

(** ** Signatures of one endorser *)

Lemma filter_none {A} (f : A -> bool) l : existsb f l = false -> List.filter f l = [].
Proof. induction l as [|x l IH]; cbn; [reflexivity|]. intros H. apply orb_false_iff in H as [-> H]. exact (IH H). Qed.

Lemma sigs_ok_one s : sigs_ok [s].
Proof. unfold sigs_ok, nonempty_sigs, empty_sigs. cbn. destruct (s_ForEmpty s); cbn; split; try lia; repeat constructor; intros H; inversion H. Qed.

Lemma add_sig_ok cur s b l : (forall l, cur = Some l -> sigs_ok l) -> add_sig cur s b = Some l -> sigs_ok l.
Proof.
  intros Hc E. unfold add_sig in E. destruct cur as [eSigs|]; [|injection E as <-; apply sigs_ok_one].
  destruct b; [injection E as <-; apply sigs_ok_one|]. destruct (existsb s_ForEmpty eSigs) eqn:Ee; [discriminate|].
  destruct (Hc eSigs eq_refl) as [Hn _]. pose proof (filter_none _ _ Ee) as Hf. fold (empty_sigs eSigs) in Hf.
  destruct (s_ForEmpty s) eqn:Es.
  - injection E as <-. split; unfold nonempty_sigs, empty_sigs in *; rewrite List.filter_app; cbn [List.filter]; rewrite Es; cbn [negb].
    + rewrite app_nil_r. exact Hn.
    + rewrite Hf. cbn. lia.
  - destruct (existsb _ eSigs) eqn:Ed in E; [discriminate|]. injection E as <-. split; unfold nonempty_sigs, empty_sigs in *; rewrite List.filter_app; cbn [List.filter]; rewrite Es; cbn [negb].
    + rewrite map_app. apply NoDup_app. split; [exact Hn|]. split; [|repeat constructor; intros H; inversion H].
      intros x Hx Hx'. apply list_elem_of_singleton in Hx'. subst x. apply list_elem_of_fmap in Hx as (s' & Es' & Hs').
      apply list_elem_of_In, List.filter_In in Hs' as [Hs' _]. assert (Ht : existsb (fun s0 => s_EndorsedProposer s0 =? s_EndorsedProposer s) eSigs = true).
      { apply existsb_exists. exists s'. split; [exact Hs'|]. apply Z.eqb_eq. congruence. }
      congruence.
    + rewrite app_nil_r, Hf. cbn. lia.
Qed.

(** ** Single operations *)

Lemma new_candidate_ok blk : candidate_ok blk newCandidate.
Proof.
  constructor; cbn; [constructor | constructor | constructor | constructor | | left; reflexivity].
  intros e l H. unfold candidate_sigs in H. cbn in H. rewrite lookup_empty in H. discriminate.
Qed.

Lemma history_candidate_ok blk b : candidate_ok blk (historyCandidate b).
Proof.
  constructor; cbn; [constructor | constructor | constructor | constructor | | left; reflexivity].
  intros e l H. unfold candidate_sigs in H. cbn in H. rewrite lookup_empty in H. discriminate.
Qed.

Lemma pool_ok_put blk c p : pool_ok p -> candidate_ok blk c -> pool_ok (set_candidate blk c p).
Proof.
  intros Hp Hc b x E. cbn in E. destruct (decide (blk = b)) as [<-|Hne]; [rewrite lookup_insert_eq in E; injection E as <-; exact Hc|].
  rewrite lookup_insert_ne in E by exact Hne. exact (Hp b x E).
Qed.

Lemma grows_put blk c p : (forall c0, candidateBlocks p !! blk = Some c0 -> extends c0 c) -> grows p (set_candidate blk c p).
Proof.
  intros Hc. split; [reflexivity|]. intros b x E. cbn. destruct (decide (blk = b)) as [<-|Hne].
  - exists c. split; [apply lookup_insert_eq | exact (Hc x E)].
  - exists x. split; [rewrite lookup_insert_ne by exact Hne; exact E | reflexivity].
Qed.

(** The candidate is there afterwards, and the rest is as before. *)
Lemma getCandidate_spec blk p : pool_ok p -> exists c p', getCandidateInfoLocked blk p = Ok (c, p') /\ pool_ok p' /\ grows p p' /\
  candidateBlocks p' !! blk = Some c /\ candidate_ok blk c.
Proof.
  intros Hp. unfold getCandidateInfoLocked. destruct (candidateBlocks p !! blk) as [c|] eqn:E.
  - exists c, p. split; [reflexivity|]. split; [exact Hp|]. split; [reflexivity|]. split; [exact E | exact (Hp blk c E)].
  - exists newCandidate, (set_candidate blk newCandidate p). split; [reflexivity|]. split; [apply pool_ok_put; [exact Hp | apply new_candidate_ok]|].
    split; [apply grows_put; intros c0 E0; congruence|]. split; [cbn; apply lookup_insert_eq | apply new_candidate_ok].
Qed.

(** Candidates that differ in their signatures only, of which there are more in the second. *)
Definition more_votes (c c' : CandidateInfo) : Prop :=
  c' = set_EndorseSigs (EndorseSigs c') c /\ forall e l, candidate_sigs c !! e = Some l -> exists l', candidate_sigs c' !! e = Some l' /\ l `prefix_of` l'.

Lemma more_votes_refl c : more_votes c c.
Proof. split; [destruct c; reflexivity|]. intros e l E. exists l. split; [exact E | reflexivity]. Qed.
Lemma more_votes_trans a b c : more_votes a b -> more_votes b c -> more_votes a c.
Proof.
  intros [E1 H1] [E2 H2]. split; [rewrite E2, E1; reflexivity|]. intros e l E. destruct (H1 e l E) as (l1 & F1 & P1). destruct (H2 e l1 F1) as (l2 & F2 & P2).
  exists l2. split; [exact F2 | etrans; eassumption].
Qed.
Lemma more_votes_extends c c' : more_votes c c' -> extends c c'.
Proof.
  intros [E H]. rewrite E. constructor; cbn; try (intros x Hx; exact Hx); try reflexivity. intros e l El. destruct (H _ _ El) as (l' & F & P). exists l'. split; [|left; exact P].
  rewrite E in F. exact F.
Qed.

Lemma add_sig_prefix cur s l l0 : add_sig cur s false = Some l -> cur = Some l0 -> l0 `prefix_of` l.
Proof.
  intros E ->. cbn in E. destruct (existsb s_ForEmpty l0); [discriminate|]. destruct (s_ForEmpty s); [injection E as <-; exists [s]; reflexivity|].
  destruct (existsb _ l0); [discriminate|]. injection E as <-. exists [s]. reflexivity.
Qed.

(** What is stored for the endorser. *)
Lemma addEndorsement_sigs blk e s b p p' : pool_ok p -> addBlockEndorsementLocked blk e s b p = Ok ((), p') -> exists c p1 m,
  pool_ok p1 /\ grows p p1 /\ candidateBlocks p1 !! blk = Some c /\ candidate_ok blk c /\ (forall c0, candidateBlocks p !! blk = Some c0 -> c0 = c) /\
  ((p' = p1 /\ b = false) \/ exists l, EndorseSigs c = Some m /\ add_sig (m !! e) s b = Some l /\ p' = set_candidate blk (set_EndorseSigs (Some (<[e := l]> m)) c) p1).
Proof.
  intros Hp E. unfold addBlockEndorsementLocked in E. destruct (getCandidate_spec blk p Hp) as (c & p1 & E1 & Hp1 & G1 & Ec & Hc).
  rewrite (st_bind_eq _ _ _ _ _ E1) in E. exists c, p1, (candidate_sigs c).
  assert (Hsame : forall c0, candidateBlocks p !! blk = Some c0 -> c0 = c).
  { intros c0 E0. unfold getCandidateInfoLocked in E1. rewrite E0 in E1. congruence. }
  split; [exact Hp1|]. split; [exact G1|]. split; [exact Ec|]. split; [exact Hc|]. split; [exact Hsame|]. unfold candidate_sigs.
  destruct (add_sig _ s b) as [l|] eqn:Ea.
  - right. exists l. destruct (EndorseSigs c) as [m|]; [|discriminate]. injection E as <-. auto.
  - left. injection E as <-. split; [reflexivity|]. destruct b; [|reflexivity]. unfold add_sig in Ea. destruct (_ !! e); discriminate.
Qed.

Lemma put_sigs_ok blk e s b c m l p : pool_ok p -> candidate_ok blk c -> EndorseSigs c = Some m -> add_sig (m !! e) s b = Some l ->
  pool_ok (set_candidate blk (set_EndorseSigs (Some (<[e := l]> m)) c) p).
Proof.
  intros Hp Hc Em Ea. apply pool_ok_put; [exact Hp|]. destruct Hc as [H1 H2 H3 H4 H5 H6]. constructor; cbn; auto.
  intros e' l' El. unfold candidate_sigs in H5. rewrite Em in H5. unfold candidate_sigs in El. cbn in El, H5. destruct (decide (e = e')) as [<-|Hne].
  - rewrite lookup_insert_eq in El. injection El as <-. exact (add_sig_ok _ _ _ _ (fun l0 E0 => H5 e l0 E0) Ea).
  - rewrite lookup_insert_ne in El by exact Hne. exact (H5 e' l' El).
Qed.

Lemma addEndorsement_spec blk e s p p' : pool_ok p -> addBlockEndorsementLocked blk e s false p = Ok ((), p') ->
  pool_ok p' /\ grows p p' /\ (forall c, candidateBlocks p !! blk = Some c -> exists c', candidateBlocks p' !! blk = Some c' /\ more_votes c c').
Proof.
  intros Hp E. destruct (addEndorsement_sigs _ _ _ _ _ _ Hp E) as (c & p1 & m & Hp1 & G1 & Ec & Hc & Hsame & [[-> _]|(l & Em & Ea & ->)]).
  { split; [exact Hp1|]. split; [exact G1|]. intros c0 E0. rewrite (Hsame c0 E0). exists c. split; [exact Ec | apply more_votes_refl]. }
  assert (Hext : more_votes c (set_EndorseSigs (Some (<[e := l]> m)) c)).
  { split; [reflexivity|]. intros e' l0 E0. unfold candidate_sigs in *. rewrite Em in E0. cbn in E0 |- *. destruct (decide (e = e')) as [<-|Hne].
    - exists l. split; [apply lookup_insert_eq | exact (add_sig_prefix _ _ _ _ Ea E0)].
    - exists l0. split; [rewrite lookup_insert_ne by exact Hne; exact E0 | reflexivity]. }
  split; [exact (put_sigs_ok _ _ _ _ _ _ _ _ Hp1 Hc Em Ea)|]. split.
  - etrans; [exact G1|]. apply grows_put. intros c0 E0. assert (c0 = c) as -> by congruence. apply more_votes_extends, Hext.
  - intros c0 E0. rewrite (Hsame c0 E0). eexists. split; [cbn; apply lookup_insert_eq | exact Hext].
Qed.

Lemma dup_proposal_None l m : dup_proposal l m = Ok None -> getProposer m ∉ map getProposer l.
Proof.
  induction l as [|p l IH]; cbn [dup_proposal map]; intros H; [intros Hin; inversion Hin|].
  destruct (Z.eqb_spec (getProposer p) (getProposer m)) as [E|Hne].
  - destruct (sig0 _); [|discriminate|discriminate]. cbn [res_bind] in H. destruct (sig0 _); discriminate.
  - apply not_elem_of_cons. split; [congruence | exact (IH H)].
Qed.

Lemma dup_commit_None l m : dup_commit l m = None -> Committer m ∉ map Committer l.
Proof.
  induction l as [|p l IH]; cbn [dup_commit map]; intros H; [intros Hin; inversion Hin|].
  destruct (Z.eqb_spec (Committer p) (Committer m)) as [E|Hne]; [discriminate|]. apply not_elem_of_cons. split; [congruence | exact (IH H)].
Qed.

Lemma NoDup_snoc {A} (l : list A) x : NoDup l -> x ∉ l -> NoDup (l ++ [x]).
Proof.
  intros Hl Hx. apply NoDup_app. split; [exact Hl|]. split; [intros y Hy Hy'; apply list_elem_of_singleton in Hy'; subst; contradiction|].
  constructor; [intros H; inversion H | constructor].
Qed.

Lemma newBlockProposal_spec m p e p' : pool_ok p -> newBlockProposal m p = Ok (e, p') -> pool_ok p' /\ grows p p'.
Proof.
  intros Hp E. unfold newBlockProposal in E. destruct (getCandidate_spec (p_BlockNum m) p Hp) as (c & p1 & E1 & Hp1 & G1 & Ec & Hc).
  rewrite (st_bind_eq _ _ _ _ _ E1) in E. apply st_bind_Ok in E as (dup & s1 & Ed & E). unfold st_lift in Ed.
  destruct (dup_proposal _ _) as [d| |] eqn:Edup; inversion Ed; subst; clear Ed. destruct dup as [er|].
  { injection E as _ <-. split; assumption. }
  apply dup_proposal_None in Edup. rewrite (st_bind_eq (put_candidate _ _) _ _ _ _ eq_refl) in E.
  set (c1 := set_Proposals (Proposals c ++ [m]) c) in *.
  assert (Hp2 : pool_ok (set_candidate (p_BlockNum m) c1 s1)).
  { apply pool_ok_put; [exact Hp1|]. destruct Hc as [H1 H2 H3 H4 H5 H6]. constructor; cbn [c1 set_Proposals Proposals CommitMsgs CommittedProposal CommittedEmptyProposal]; auto.
    - rewrite map_app. apply NoDup_snoc; assumption.
    - apply Forall_app. split; [exact H2|]. constructor; [reflexivity | constructor]. }
  assert (G2 : grows s1 (set_candidate (p_BlockNum m) c1 s1)).
  { apply grows_put. intros c0 E0. assert (c0 = c) as -> by congruence. constructor; cbn; try (intros x Hx; exact Hx); [exists [m]; reflexivity | reflexivity | intros e0 l0; apply same_sigs; reflexivity]. }
  apply st_bind_Ok in E as (s & s2 & Es & E). unfold st_lift in Es. destruct (sig0 _); inversion Es; subst; clear Es.
  apply st_bind_Ok in E as (cs & s2 & Es & E). assert (s2 = set_candidate (p_BlockNum m) c1 s1) as ->.
  { destruct (b_CrossChainSig _); [destruct (_ <? _); [unfold st_lift in Es; destruct (sig0 _)|]|]; inversion Es; reflexivity. }
  apply st_bind_Ok in E as ([] & s3 & Ea & E). injection E as _ <-.
  destruct (addEndorsement_spec _ _ _ _ _ Hp2 Ea) as (Hp3 & G3 & _). split; [exact Hp3|]. etrans; [exact G1|]. etrans; [exact G2 | exact G3].
Qed.

Lemma endorser_sigs_spec blk m l : forall p p', pool_ok p -> add_endorser_sigs blk m l p = Ok ((), p') ->
  pool_ok p' /\ grows p p' /\ (forall c, candidateBlocks p !! blk = Some c -> exists c', candidateBlocks p' !! blk = Some c' /\ more_votes c c').
Proof.
  induction l as [|[e sg] l IH]; intros p p' Hp E; cbn [add_endorser_sigs] in E.
  { injection E as <-. split; [exact Hp|]. split; [reflexivity|]. intros c Ec. exists c. split; [exact Ec | apply more_votes_refl]. }
  apply st_bind_Ok in E as ([] & p1 & E1 & E). destruct (addEndorsement_spec _ _ _ _ _ Hp E1) as (Hp1 & G1 & S1).
  destruct (IH p1 p' Hp1 E) as (Hp' & G2 & S2). split; [exact Hp'|]. split; [etrans; eassumption|]. intros c Ec.
  destruct (S1 c Ec) as (c1 & Ec1 & V1). destruct (S2 _ Ec1) as (c2 & Ec2 & V2). exists c2. split; [exact Ec2 | exact (more_votes_trans _ _ _ V1 V2)].
Qed.

(** A commit takes the place of what its committer had endorsed. *)
Lemma commit_extends c m sigs : Committer m ∉ map Committer (CommitMsgs c) -> EndorseSigs c = Some sigs ->
  extends c (set_CommitMsgs (CommitMsgs c ++ [m]) (set_EndorseSigs (Some (<[Committer m := [commit_sig m]]> sigs)) c)).
Proof.
  intros Hm Es. constructor; cbn; try (intros y Hy; exact Hy); try reflexivity; [exists [m]; reflexivity|]. intros x l E. unfold candidate_sigs in *. rewrite Es in E. cbn in E |- *.
  destruct (decide (Committer m = x)) as [<-|Hne]; [|exists l; split; [rewrite lookup_insert_ne by exact Hne; exact E | left; reflexivity]].
  exists [commit_sig m]. split; [apply lookup_insert_eq|]. right. exists m. split; [apply elem_of_app; right; left|]. split; [|split; reflexivity].
  intros Hin. apply Hm, list_elem_of_fmap. exists m. auto.
Qed.

Lemma newBlockCommitment_spec ord m p e p' : pool_ok p -> newBlockCommitment ord m p = Ok (e, p') -> pool_ok p' /\ grows p p'.
Proof.
  intros Hp E. unfold newBlockCommitment in E. destruct (getCandidate_spec (c_BlockNum m) p Hp) as (c & p1 & E1 & Hp1 & G1 & Ec & Hc).
  rewrite (st_bind_eq _ _ _ _ _ E1) in E. destruct (dup_commit _ _) as [er|] eqn:Edup; [injection E as _ <-; split; assumption|]. apply dup_commit_None in Edup.
  apply st_bind_Ok in E as ([] & p2 & E2 & E). destruct (endorser_sigs_spec _ _ _ _ _ Hp1 E2) as (Hp2 & G2 & S2).
  apply st_bind_Ok in E as ([] & p3 & E3 & E). destruct (S2 c Ec) as (c2 & Ec2 & V2). fold (commit_sig m) in E3.
  destruct (addEndorsement_sigs _ _ _ _ _ _ Hp2 E3) as (c2' & p2' & sigs & Hp2' & G2' & Ec2' & Hc2 & Hsame & [[_ [=]]|(l & Em & Ea & ->)]). assert (c2' = c2) as -> by (symmetry; apply Hsame, Ec2).
  assert (l = [commit_sig m]) as -> by (unfold add_sig in Ea; destruct (sigs !! Committer m); injection Ea as <-; reflexivity).
  set (c3 := set_EndorseSigs _ c2) in *. pose proof (put_sigs_ok _ _ _ _ _ _ _ _ Hp2' Hc2 Em Ea) as Hp3. fold c3 in Hp3.
  unfold getCandidateInfoLocked in E. unfold st_bind at 1 in E. cbn [set_candidate candidateBlocks] in E. rewrite lookup_insert_eq in E. rewrite (st_bind_eq (put_candidate _ _) _ _ _ _ eq_refl) in E. injection E as _ <-.
  assert (Hms : CommitMsgs c2 = CommitMsgs c) by (rewrite (proj1 V2); reflexivity). rewrite <- Hms in Edup.
  destruct (Hp3 (c_BlockNum m) c3 (lookup_insert_eq _ _ _)) as [H1 H2 H3 H4 H5 H6]. split.
  - apply pool_ok_put; [exact Hp3|]. constructor; cbn in *; auto; [rewrite map_app; apply NoDup_snoc; assumption|].
    apply Forall_app. split; [exact H4|]. constructor; [reflexivity | constructor].
  - etrans; [exact G1|]. etrans; [exact G2|]. etrans; [exact G2'|]. split; [reflexivity|]. intros b x Ex. cbn. destruct (decide (c_BlockNum m = b)) as [<-|Hne].
    + eexists. split; [apply lookup_insert_eq|]. assert (x = c2) as -> by congruence. exact (commit_extends _ _ _ Edup Em).
    + exists x. split; [rewrite !lookup_insert_ne by exact Hne; exact Ex | reflexivity].
Qed.

Lemma setEndorsed_spec m b p e p' : pool_ok p -> setProposalEndorsed m b p = Ok (e, p') -> pool_ok p' /\ grows p p'.
Proof.
  intros Hp E. unfold setProposalEndorsed in E. destruct (candidateBlocks p !! p_BlockNum m) as [c|] eqn:Ec; [|injection E as _ <-; split; [exact Hp | reflexivity]].
  pose proof (Hp _ _ Ec) as [H1 H2 H3 H4 H5 H6]. destruct b; cbn [negb] in E.
  - destruct (EndorsedEmptyProposal c) eqn:Ee; injection E as _ <-; [split; [exact Hp | reflexivity]|]. split; [apply pool_ok_put; [exact Hp | constructor; assumption]|].
    apply grows_put. intros c0 E0. assert (c0 = c) as -> by congruence. constructor; cbn; try reflexivity; try (intros e0 l0; apply same_sigs; reflexivity); try (intros x Hx; congruence).
  - destruct (EndorsedProposal c) eqn:Ee.
    + destruct (_ =? _); injection E as _ <-; split; try exact Hp; reflexivity.
    + injection E as _ <-. split; [apply pool_ok_put; [exact Hp | constructor; assumption]|].
      apply grows_put. intros c0 E0. assert (c0 = c) as -> by congruence. constructor; cbn; try reflexivity; try (intros e0 l0; apply same_sigs; reflexivity); try (intros x Hx; congruence).
Qed.

Lemma setCommitted_spec m b p e p' : pool_ok p -> setProposalCommitted m b p = Ok (e, p') -> pool_ok p' /\ grows p p'.
Proof.
  intros Hp E. unfold setProposalCommitted in E. destruct (candidateBlocks p !! p_BlockNum m) as [c|] eqn:Ec; [|injection E as _ <-; split; [exact Hp | reflexivity]].
  pose proof (Hp _ _ Ec) as [H1 H2 H3 H4 H5 H6]. destruct (CommittedProposal c) eqn:E1; [injection E as _ <-; split; [exact Hp | reflexivity]|].
  destruct (CommittedEmptyProposal c) eqn:E2; [injection E as _ <-; split; [exact Hp | reflexivity]|].
  destruct b; injection E as _ <-; (split; [apply pool_ok_put; [exact Hp|]; constructor; cbn; auto|]);
    apply grows_put; intros c0 E0; assert (c0 = c) as -> by congruence; constructor; cbn; try reflexivity; try (intros e0 l0; apply same_sigs; reflexivity); try (intros x Hx; congruence).
Qed.

(** ** Runs *)

Inductive pool_step : BlockPool -> BlockPool -> Prop :=
  | step_proposal m e p p' : newBlockProposal m p = Ok (e, p') -> pool_step p p'
  | step_endorse m p p' : newBlockEndorsement m p = Ok ((), p') -> pool_step p p'
  | step_commit ord m e p p' : newBlockCommitment ord m p = Ok (e, p') -> pool_step p p'
  | step_set_endorsed m b e p p' : setProposalEndorsed m b p = Ok (e, p') -> pool_step p p'
  | step_set_committed m b e p p' : setProposalCommitted m b p = Ok (e, p') -> pool_step p p'
  | step_commit_done n p p' : setCommitDone n p = Ok ((), p') -> pool_step p p'.

Inductive pool_run : BlockPool -> Prop :=
  | run_new h chained getBlock p : newBlockPool h chained getBlock = Ok p -> pool_run p
  | run_step p p' : pool_run p -> pool_step p p' -> pool_run p'
  | run_sealed n p p' : pool_run p -> onBlockSealed n p = Ok ((), p') -> pool_run p'
  | run_clean p p' : pool_run p -> clean p = Ok ((), p') -> pool_run p'.

Lemma step_spec p p' : pool_ok p -> pool_step p p' -> pool_ok p' /\ grows p p'.
Proof.
  intros Hp H. destruct H as [m e p p' E | m p p' E | ord m e p p' E | m b e p p' E | m b e p p' E | n p p' E].
  - exact (newBlockProposal_spec m p e p' Hp E).
  - destruct (addEndorsement_spec _ _ _ _ _ Hp E) as (H1 & H2 & _). split; assumption.
  - exact (newBlockCommitment_spec ord m p e p' Hp E).
  - exact (setEndorsed_spec m b p e p' Hp E).
  - exact (setCommitted_spec m b p e p' Hp E).
  - unfold setCommitDone in E. destruct (candidateBlocks p !! n) as [c|] eqn:Ec; injection E as <-; [|split; [exact Hp | reflexivity]].
    pose proof (Hp _ _ Ec) as [H1 H2 H3 H4 H5 H6]. split; [apply pool_ok_put; [exact Hp | constructor; assumption]|].
    apply grows_put. intros c0 E0. assert (c0 = c) as -> by congruence. constructor; cbn; try reflexivity; try (intros e0 l0; apply same_sigs; reflexivity); try (intros x Hx; exact Hx).
Qed.

Lemma load_history_ok getBlock fuel : forall n last m m', (forall b c, m !! b = Some c -> candidate_ok b c) -> load_history getBlock fuel n last m = Ok m' ->
  forall b c, m' !! b = Some c -> candidate_ok b c.
Proof.
  induction fuel as [|fuel IH]; intros n last m m' Hm E; cbn [load_history] in E; [discriminate|]. destruct (last <? n); [injection E as <-; exact Hm|].
  destruct (getBlock n) as [blk|]; [|discriminate]. refine (IH _ _ _ _ _ E). intros b c Hb. destruct (decide (n = b)) as [<-|Hne].
  - rewrite lookup_insert_eq in Hb. injection Hb as <-. apply history_candidate_ok.
  - rewrite lookup_insert_ne in Hb by exact Hne. exact (Hm b c Hb).
Qed.

Lemma run_ok p : pool_run p -> pool_ok p.
Proof.
  induction 1 as [h ch gb p E | p p' _ IH Hs | n p p' _ IH E | p p' _ IH E].
  - unfold newBlockPool in E. apply res_bind_Ok in E as (m & E & [= <-]). intros b c Hb. refine (load_history_ok _ _ _ _ _ _ _ E b c Hb).
    intros b' c' H. rewrite lookup_empty in H. discriminate.
  - exact (proj1 (step_spec p p' IH Hs)).
  - unfold onBlockSealed in E. destruct (_ <=? _); injection E as <-; [exact IH|]. intros b c Hb. cbn in Hb. apply map_lookup_filter_Some in Hb as [Hb _]. exact (IH b c Hb).
  - injection E as <-. intros b c Hb. cbn in Hb. rewrite lookup_empty in Hb. discriminate.
Qed.

(** C11: in every state that proposals, endorsements, commits, the server's own votes, [setCommitDone], [onBlockSealed] and [clean] lead
    a new pool to, each candidate holds at most one proposal per proposer and one commit
    per committer, all for its own block number; each endorser has at most one endorsement per proposer and at most one
    empty one, and the server has not committed both to a block and to its empty form.  What a message or vote may change: proposals and
    commits are only appended, the server's own endorsements and commitments are final, and the endorsements of a peer are only
    added to, except that the peer's commit replaces them, until the candidate is dropped by [onBlockSealed] or [clean].  (Sealing itself, [setBlockSealed], which
    records the sealed block and goes through the chain store, is not one of the steps.) *)
Theorem vbft_pool_invariant p : pool_run p ->
  pool_ok p /\ (forall p', pool_step p p' -> grows p p') /\
  (forall n p', onBlockSealed n p = Ok ((), p') -> forall blk c, candidateBlocks p !! blk = Some c ->
     if (HistoryLen p <? n) && (blk <? n - HistoryLen p) then candidateBlocks p' !! blk = None else candidateBlocks p' !! blk = Some c).
Proof.
  intros H. pose proof (run_ok p H) as Hp. split; [exact Hp|]. split; [intros p' Hs; exact (proj2 (step_spec p p' Hp Hs))|].
  intros n p' E blk c Ec. unfold onBlockSealed in E. rewrite Z.leb_antisym in E. destruct (HistoryLen p <? n); cbn [negb andb] in *; injection E as <-; [|exact Ec].
  cbn [candidateBlocks]. destruct (Z.ltb_spec blk (n - HistoryLen p)) as [Hlt|Hge].
  - apply map_lookup_filter_None_2. right. intros x _ Hx. cbn in Hx. lia.
  - apply map_lookup_filter_Some_2; [exact Ec | cbn; lia].
Qed.

(** A pool of an empty chain that has taken a proposal and a commit for it. *)
Definition genesis_block : Block := mkBlock 0 0 [[x01]] None.
Definition proposal1 : blockProposalMsg := mkProposal (mkBlock 7 1 [[x02]] None).
Definition commit1 : blockCommitMsg := mkCommit 3 7 1 [x0a] false {[4 := [x0b]]} [x0c] ∅ [].
Definition pool0 : BlockPool := mkPool 10 {[0 := historyCandidate genesis_block]}.

Lemma vbft_pool_invariant_witness : exists p1 p2, newBlockProposal proposal1 pool0 = Ok (None, p1) /\
  newBlockCommitment map_to_list commit1 p1 = Ok (None, p2) /\ pool_ok p2.
Proof.
  assert (R0 : pool_run pool0) by (apply (run_new 10 0 (fun _ => Some genesis_block)); vm_compute; reflexivity).
  assert (X : match newBlockProposal proposal1 pool0 with
              | Ok (None, p) => match newBlockCommitment map_to_list commit1 p with Ok (None, _) => true | _ => false end
              | _ => false end = true) by (vm_compute; reflexivity).
  destruct (newBlockProposal proposal1 pool0) as [[[e1|] p1]| |] eqn:E1; try discriminate X.
  destruct (newBlockCommitment map_to_list commit1 p1) as [[[e2|] p2]| |] eqn:E2; try discriminate X.
  exists p1, p2. split; [reflexivity|]. split; [exact E2|].
  exact (proj1 (vbft_pool_invariant p2 (run_step p1 p2 (run_step pool0 p1 R0 (step_proposal _ _ _ _ E1)) (step_commit _ _ _ _ _ E2)))).
Defined.
