(* ===== verification/VbftSafety.v ===== *)
(** * When the votes of a block suffice

    The counting of endorsements, and the overlap of the quorums of commits. *)

From S2P Require Import Prelude Vbft VbftPool.

(** ** Votes *)

Definition votes_for (q : Z) (l : list CandidateEndorseSigInfo) : bool := existsb (fun s => negb (s_ForEmpty s) && (s_EndorsedProposer s =? q)) l.
Definition votes_empty (l : list CandidateEndorseSigInfo) : bool := existsb s_ForEmpty l.

(** The peers that have endorsed the proposal of [q], and those that have endorsed an empty block. *)
Definition voters (q : Z) (m : gmap Z (list CandidateEndorseSigInfo)) : gset Z := dom (filter (fun e => votes_for q (snd e) = true) m).
Definition empty_voters (m : gmap Z (list CandidateEndorseSigInfo)) : gset Z := dom (filter (fun e => votes_empty (snd e) = true) m).

(** The number of signatures for [q], and of empty ones. *)
Definition nsig (q : Z) (l : list CandidateEndorseSigInfo) : Z :=
  Z.of_nat (length (List.filter (fun s => negb (s_ForEmpty s) && (s_EndorsedProposer s =? q)) l)).
Definition nempty (l : list CandidateEndorseSigInfo) : Z := Z.of_nat (length (empty_sigs l)).

Lemma nsig_cons q s l : nsig q (s :: l) = (if negb (s_ForEmpty s) && (s_EndorsedProposer s =? q) then 1 else 0) + nsig q l.
Proof. unfold nsig. cbn [List.filter]. destruct (negb _ && _); cbn [length]; lia. Qed.
Lemma nempty_cons s l : nempty (s :: l) = (if s_ForEmpty s then 1 else 0) + nempty l.
Proof. unfold nempty, empty_sigs. cbn [List.filter]. destruct (s_ForEmpty s); cbn [length]; lia. Qed.
Lemma nsig_nonneg q l : 0 <= nsig q l. Proof. unfold nsig. lia. Qed.
Lemma nempty_nonneg l : 0 <= nempty l. Proof. unfold nempty. lia. Qed.

(** A well-formed list of signatures votes at most once for each. *)
Lemma nsig_vote q l : sigs_ok l -> nsig q l = if votes_for q l then 1 else 0.
Proof.
  intros [Hn _]. unfold nsig, votes_for. induction l as [|s l IH]; [reflexivity|]. cbn [List.filter existsb].
  unfold nonempty_sigs in *. cbn [List.filter] in Hn. destruct (s_ForEmpty s) eqn:Es; cbn [negb andb orb] in *; [exact (IH Hn)|].
  cbn [map] in Hn. inversion Hn as [|? ? Hx Hn']; subst. destruct (Z.eqb_spec (s_EndorsedProposer s) q) as [E|Hne]; cbn [orb]; [|exact (IH Hn')].
  specialize (IH Hn'). replace (existsb _ l) with false in IH; [cbn [length]; lia|]. symmetry. apply Bool.not_true_is_false. intros Ht.
  apply existsb_exists in Ht as (s' & Hin & Hs'). apply andb_true_iff in Hs' as [H1 H2]. apply Hx, list_elem_of_fmap. exists s'. split; [apply Z.eqb_eq in H2; congruence|].
  apply list_elem_of_In, List.filter_In. split; [exact Hin | exact H1].
Qed.

Lemma nempty_vote l : sigs_ok l -> nempty l = if votes_empty l then 1 else 0.
Proof.
  intros [_ Hl]. unfold nempty, votes_empty. destruct (existsb s_ForEmpty l) eqn:E; [|unfold empty_sigs; rewrite (filter_none _ _ E); reflexivity].
  apply existsb_exists in E as (s & Hin & Hs). assert (Hs' : In s (empty_sigs l)) by (apply List.filter_In; split; assumption).
  destruct (empty_sigs l) as [|a [|b t]]; [destruct Hs' | reflexivity | cbn in Hl; lia].
Qed.

(** ** The loop *)

Lemma count_bump q k cnt : count q (bump k cnt) = if decide (q = k) then u32 (count k cnt + 1) else count q cnt.
Proof.
  unfold count, bump. case_decide as E; [subst; rewrite lookup_insert_eq; reflexivity | rewrite lookup_insert_ne by congruence; reflexivity].
Qed.

Lemma endorse_loop_spec C l : forall cnt empty, 0 <= C < MaxUint32 -> (forall q, 0 <= count q cnt <= C) -> empty <= C ->
  let '(q, fe, done) := endorse_loop C l cnt empty in
  if done then if fe then C < empty + nempty l /\ (exists s, s ∈ l /\ s_ForEmpty s = true /\ s_EndorsedProposer s = q) else C < count q cnt + nsig q l
  else (forall q, count q cnt + nsig q l <= C) /\ empty + nempty l <= C /\ q = MaxUint32 /\ fe = false.
Proof.
  induction l as [|s l IH]; intros cnt empty HC Hc He; cbn [endorse_loop].
  { split; [intros q; specialize (Hc q); unfold nsig; cbn; lia|]. split; [unfold nempty; cbn; lia | split; reflexivity]. }
  destruct (s_ForEmpty s) eqn:Es.
  - destruct (Z.ltb_spec C (empty + 1)) as [Hlt|Hge].
    { rewrite nempty_cons, Es. pose proof (nempty_nonneg l). split; [lia|]. exists s. split; [apply list_elem_of_here | split; [exact Es | reflexivity]]. }
    specialize (IH cnt (empty + 1) HC Hc Hge). destruct (endorse_loop C l cnt (empty + 1)) as [[q fe] done]. destruct done.
    + destruct fe.
      * destruct IH as [H (s' & Hin & Hs')]. rewrite nempty_cons, Es. split; [lia|]. exists s'. split; [apply list_elem_of_further, Hin | exact Hs'].
      * rewrite nsig_cons, Es. cbn [negb andb]. lia.
    + destruct IH as (H1 & H2 & H3). split; [intros q'; rewrite nsig_cons, Es; cbn [negb andb]; specialize (H1 q'); lia|]. rewrite nempty_cons, Es. split; [lia | exact H3].
  - set (k := s_EndorsedProposer s) in *. set (cnt1 := bump k cnt).
    assert (Hk : count k cnt1 = count k cnt + 1) by (unfold cnt1; rewrite count_bump, decide_True by reflexivity; apply u32_small; specialize (Hc k); unfold is_u32, MaxUint32 in *; lia).
    assert (Ho : forall q, q <> k -> count q cnt1 = count q cnt) by (intros q Hq; unfold cnt1; rewrite count_bump, decide_False by exact Hq; reflexivity).
    destruct (Z.ltb_spec C (count k cnt1)) as [Hlt|Hge].
    { rewrite nsig_cons, Es. fold k. rewrite Z.eqb_refl. cbn [negb andb]. pose proof (nsig_nonneg k l). lia. }
    assert (Hc1 : forall q, 0 <= count q cnt1 <= C) by (intros q; destruct (decide (q = k)) as [->|Hq]; [specialize (Hc k); lia | rewrite Ho by exact Hq; apply Hc]).
    assert (Hn : forall q, count q cnt1 + nsig q l = count q cnt + nsig q (s :: l)).
    { intros q. rewrite nsig_cons, Es. cbn [negb andb]. fold k. destruct (Z.eqb_spec k q) as [<-|Hq]; [lia | rewrite Ho by congruence; lia]. }
    specialize (IH cnt1 empty HC Hc1 He). destruct (endorse_loop C l cnt1 empty) as [[q fe] done]. destruct done.
    + destruct fe; [|rewrite <- Hn; exact IH]. destruct IH as [H (s' & Hin & Hs')]. rewrite nempty_cons, Es. split; [lia|]. exists s'. split; [apply list_elem_of_further, Hin | exact Hs'].
    + destruct IH as (H1 & H2 & H3). split; [intros q'; rewrite <- Hn; apply H1|]. rewrite nempty_cons, Es. split; [lia | exact H3].
Qed.

(** ** From signatures to voters *)

Section Order.
Variable ord : gmap Z (list CandidateEndorseSigInfo) -> list (Z * list CandidateEndorseSigInfo).
Hypothesis ord_perm : forall m, ord m ≡ₚ map_to_list m.

Lemma ord_ok m : (forall e l, m !! e = Some l -> sigs_ok l) -> Forall (fun e => sigs_ok (snd e)) (ord m).
Proof.
  intros Hm. rewrite ord_perm. apply Forall_forall. intros [e l] H. apply elem_of_map_to_list in H. exact (Hm e l H).
Qed.

(** Counting through a per-endorser flag. *)
Lemma count_flags (val : list CandidateEndorseSigInfo -> Z) (flag : list CandidateEndorseSigInfo -> bool) (l : list (Z * list CandidateEndorseSigInfo)) :
  (forall a b, val (a ++ b) = val a + val b) -> val [] = 0 -> (forall x, sigs_ok x -> val x = if flag x then 1 else 0) -> Forall (fun e => sigs_ok (snd e)) l ->
  val (flat_map snd l) = Z.of_nat (length (filter (fun e => flag (snd e) = true) l)).
Proof.
  intros Happ H0 Hv. induction 1 as [|[e x] l Hx _ IH]; [exact H0|]. cbn [flat_map snd] in *. rewrite Happ, IH, (Hv x Hx). destruct (flag x) eqn:Ef.
  - rewrite filter_cons_True by exact Ef. cbn [length]. lia.
  - rewrite filter_cons_False by (cbn; congruence). lia.
Qed.

Lemma nsig_app q a b : nsig q (a ++ b) = nsig q a + nsig q b.
Proof. unfold nsig. rewrite List.filter_app, length_app. lia. Qed.
Lemma nempty_app a b : nempty (a ++ b) = nempty a + nempty b.
Proof. unfold nempty, empty_sigs. rewrite List.filter_app, length_app. lia. Qed.

Lemma size_flags (flag : list CandidateEndorseSigInfo -> bool) (m : gmap Z (list CandidateEndorseSigInfo)) :
  Z.of_nat (size (dom (filter (fun e => flag (snd e) = true) m) : gset Z)) = Z.of_nat (length (filter (fun e => flag (snd e) = true) (ord m))).
Proof.
  rewrite size_dom, map_filter_alt, map_size_list_to_map, ord_perm; [reflexivity|].
  apply (sublist_NoDup _ _ (NoDup_fst_map_to_list m)). apply fmap_sublist, sublist_filter.
Qed.

Lemma nsig_voters q m : (forall e l, m !! e = Some l -> sigs_ok l) -> nsig q (flat_map snd (ord m)) = Z.of_nat (size (voters q m)).
Proof.
  intros Hm. unfold voters. rewrite (size_flags (votes_for q)). apply (count_flags (nsig q)); [apply nsig_app | reflexivity | apply nsig_vote | apply ord_ok, Hm].
Qed.
Lemma nempty_voters m : (forall e l, m !! e = Some l -> sigs_ok l) -> nempty (flat_map snd (ord m)) = Z.of_nat (size (empty_voters m)).
Proof.
  intros Hm. unfold empty_voters. rewrite (size_flags votes_empty). apply (count_flags nempty); [apply nempty_app | reflexivity | apply nempty_vote | apply ord_ok, Hm].
Qed.

(** [endorseDone] is exact. On a pool that satisfies its invariant, for every order of traversal of the endorsers, it reports a
    result exactly when more than [C] distinct peers have endorsed one proposal or more than [C] have endorsed an empty
    block; a proposer reported for its block has more than [C] endorsers, and one reported for the empty block has an
    empty endorsement while more than [C] peers have endorsed empty blocks. *)
Theorem endorse_done_exact p blk c C : pool_ok p -> candidateBlocks p !! blk = Some c -> 0 <= C < MaxUint32 ->
  let m := candidate_sigs c in
  let '(q, fe, done) := endorseDone ord blk C p in
  (done = true <-> (exists q, C < Z.of_nat (size (voters q m))) \/ C < Z.of_nat (size (empty_voters m))) /\
  (done = true -> fe = false -> C < Z.of_nat (size (voters q m))) /\
  (done = true -> fe = true -> C < Z.of_nat (size (empty_voters m)) /\ exists e l s, m !! e = Some l /\ s ∈ l /\ s_ForEmpty s = true /\ s_EndorsedProposer s = q).
Proof.
  intros Hp Ec HC m. pose proof (co_sigs _ _ (Hp _ _ Ec)) as Hm. fold m in Hm. unfold endorseDone. rewrite Ec. fold m.
  rewrite (u32_small (C + 1)) by (unfold is_u32, MaxUint32 in *; lia). pose proof (nsig_voters) as Hv. pose proof (nempty_voters) as He.
  destruct (Z.ltb_spec (Z.of_nat (size m)) (C + 1)) as [Hlt|Hge].
  { split; [|split; intros; discriminate]. split; [discriminate|]. intros H. exfalso.
    assert (Hs : forall flag, Z.of_nat (size (dom (filter (fun e => flag (snd e) = true) m) : gset Z)) <= Z.of_nat (size m)).
    { intros flag. rewrite size_dom. apply inj_le, map_size_filter. }
    destruct H as [[q H]|H]; [pose proof (Hs (votes_for q)) | pose proof (Hs votes_empty)]; unfold voters, empty_voters in H; lia. }
  pose proof (endorse_loop_spec C (flat_map snd (ord m)) ∅ 0 HC (fun q => conj (Z.le_refl 0) (proj1 HC)) (proj1 HC)) as Hl.
  destruct (endorse_loop C _ ∅ 0) as [[q fe] done].
  assert (H0 : forall q, count q ∅ = 0) by (intros q'; unfold count; rewrite lookup_empty; reflexivity).
  destruct done; [destruct fe|].
  - destruct Hl as [H1 (s & Hin & Hs)]. rewrite (He m Hm) in H1. split; [split; [intros _; right; lia | reflexivity]|]. split; [discriminate|]. intros _ _. split; [lia|].
    apply list_elem_of_In, in_flat_map in Hin as ([e l] & Hin & Hsl). exists e, l, s. split; [|split; [apply list_elem_of_In, Hsl | exact Hs]].
    apply list_elem_of_In in Hin. rewrite ord_perm in Hin. apply elem_of_map_to_list in Hin. exact Hin.
  - rewrite H0, (Hv q m Hm) in Hl. split; [split; [intros _; left; exists q; lia | reflexivity]|]. split; [intros _ _; lia | discriminate].
  - destruct Hl as (H1 & H2 & _). split; [|split; discriminate]. split; [discriminate|]. intros [[q' H]|H].
    + specialize (H1 q'). rewrite H0, (Hv q' m Hm) in H1. lia.
    + rewrite (He m Hm) in H2. lia.
Qed.

End Order.

(** Two of the peers 3, 4, 5 have endorsed the proposal of 7. *)
Definition sig_of (q : Z) : CandidateEndorseSigInfo := mkSig q [x01] false [].
Definition endorsed_candidate : CandidateInfo := set_EndorseSigs (Some (<[3 := [sig_of 7]]> (<[4 := [sig_of 7]]> {[5 := [sig_of 8]]}))) newCandidate.
Definition endorsed_pool : BlockPool := mkPool 10 {[1 := endorsed_candidate]}.

Lemma endorse_done_exact_witness :
  endorseDone map_to_list 1 1 endorsed_pool = (7, false, true) /\ 1 < Z.of_nat (size (voters 7 (candidate_sigs endorsed_candidate))).
Proof.
  assert (Hp : pool_ok endorsed_pool).
  { intros blk c E. unfold endorsed_pool in E. cbn in E. apply lookup_singleton_Some in E as [<- <-]. destruct (new_candidate_ok 1) as [H1 H2 H3 H4 _ H6].
    constructor; cbn; auto. intros e l E. unfold candidate_sigs in E. cbn in E.
    apply lookup_insert_Some in E as [[_ <-]|[_ E]]; [apply sigs_ok_one|]. apply lookup_insert_Some in E as [[_ <-]|[_ E]]; [apply sigs_ok_one|].
    apply lookup_singleton_Some in E as [_ <-]. apply sigs_ok_one. }
  assert (E : endorseDone map_to_list 1 1 endorsed_pool = (7, false, true)) by (vm_compute; reflexivity).
  pose proof (endorse_done_exact map_to_list (fun m => reflexivity _) endorsed_pool 1 endorsed_candidate 1 Hp eq_refl ltac:(unfold MaxUint32; lia)) as H.
  rewrite E in H. cbv zeta in H. split; [exact E | exact (proj1 (proj2 H) eq_refl eq_refl)].
Defined.

(** ** When commits suffice *)

(** The peers that have signed for [q] in the commits [l]: committers, and endorsers quoted by them. *)
Definition signed_for (q : Z) (l : list blockCommitMsg) : gset Z :=
  ⋃ map (fun c => list_to_set (signers c)) (List.filter (fun c => BlockProposer c =? q) l).

(** The proposer backs its own proposal. *)
Definition backers (q : Z) (l : list blockCommitMsg) : gset Z := {[q]} ∪ signed_for q l.

Definition max_faulty (N : Z) : Z := (N - 1) ÷ 3.
Definition proposed (q : Z) (l : list blockCommitMsg) : Prop := exists c, c ∈ l /\ BlockProposer c = q.
Definition quorum (N q : Z) (l : list blockCommitMsg) : Prop :=
  proposed q l /\ N - max_faulty N <= Z.of_nat (size (signed_for q l)) + 1.

(** ** The map of signatures *)

Lemma signed_for_nil q : signed_for q [] = ∅.
Proof. reflexivity. Qed.

Lemma signed_for_app q l l' : signed_for q (l ++ l') = signed_for q l ∪ signed_for q l'.
Proof. unfold signed_for. rewrite List.filter_app, map_app, union_list_app_L. reflexivity. Qed.

Lemma signed_for_one q c : signed_for q [c] = if BlockProposer c =? q then list_to_set (signers c) else ∅.
Proof. unfold signed_for. cbn [List.filter]. destruct (_ =? q); cbn; [apply union_empty_r_L | reflexivity]. Qed.

Lemma sign_all_dom peers m : dom (sign_all peers m) = dom m ∪ (list_to_set peers : gset Z).
Proof.
  unfold sign_all. revert m. induction peers as [|k peers IH]; intros m; cbn [foldl list_to_set]; [set_solver|].
  rewrite IH, dom_insert_L. set_solver.
Qed.

(** [signCount] after the commits [l]. *)
Definition counts (l : list blockCommitMsg) (sc : gmap Z (gmap Z Z)) : Prop := forall q, dom (default ∅ (sc !! q)) = signed_for q l.

Lemma counts_nil : counts [] ∅.
Proof. intros q. rewrite lookup_empty. apply dom_empty_L. Qed.

Lemma counts_step l sc c : counts l sc -> counts (l ++ [c]) (<[BlockProposer c := sign_all (signers c) (default ∅ (sc !! BlockProposer c))]> sc).
Proof.
  intros H q. rewrite signed_for_app, signed_for_one. destruct (Z.eqb_spec (BlockProposer c) q) as [<-|Hne].
  - rewrite lookup_insert_eq. cbn [default from_option id]. rewrite sign_all_dom, H. reflexivity.
  - rewrite lookup_insert_ne by exact Hne. rewrite H, union_empty_r_L. reflexivity.
Qed.

Lemma quorum_mono N q l l' : quorum N q l -> quorum N q (l ++ l').
Proof.
  intros [(c & Hc & Hq) H]. split; [exists c; split; [apply elem_of_app; left; exact Hc | exact Hq]|].
  pose proof (subseteq_size (signed_for q l) (signed_for q (l ++ l'))) as Hs. rewrite signed_for_app in Hs |- *. specialize (Hs ltac:(set_solver)). lia.
Qed.

Lemma proposed_last q l c : proposed q (l ++ [c]) -> proposed q l \/ q = BlockProposer c.
Proof.
  intros (x & Hx & Hq). apply elem_of_app in Hx as [Hx|Hx]; [left; exists x; split; assumption|].
  apply list_elem_of_singleton in Hx as ->. right. symmetry. exact Hq.
Qed.

(** ** The loop *)

Lemma consensus_loop_exact N l : forall C l0 ec e sc, counts l0 sc -> (forall q, ~ quorum N q l0) ->
  let '(q, fe) := consensus_loop C N l ec e sc in
  (exists l1 c l2, l = l1 ++ c :: l2 /\ q = BlockProposer c /\ quorum N q (l0 ++ l1 ++ [c])) \/
  (q = MaxUint32 /\ fe = false /\ forall q', ~ quorum N q' (l0 ++ l)).
Proof.
  induction l as [|c l IH]; intros C l0 ec e sc Hsc Hno; cbn [consensus_loop].
  { right. rewrite app_nil_r. split; [reflexivity | split; [reflexivity | exact Hno]]. }
  set (signs := sign_all _ _). pose proof (counts_step l0 sc c Hsc) as Hsc'. fold signs in Hsc'.
  assert (Hsz : size signs = size (signed_for (BlockProposer c) (l0 ++ [c]))).
  { rewrite <- (Hsc' (BlockProposer c)), lookup_insert_eq. cbn [default from_option id]. symmetry. apply size_dom. }
  assert (Hp : proposed (BlockProposer c) (l0 ++ [c])) by (exists c; split; [apply elem_of_app; right; apply list_elem_of_here | reflexivity]).
  destruct (Z.leb_spec (N - (N - 1) ÷ 3) (Z.of_nat (size signs) + 1)) as [Hle|Hgt].
  { left. exists [], c, l. split; [reflexivity|]. split; [reflexivity|]. split; [exact Hp|]. cbn [app]. rewrite <- Hsz. exact Hle. }
  match goal with |- context [consensus_loop ?C' N l ?ec' ?e' _] => specialize (IH C' (l0 ++ [c]) ec' e' _ Hsc') end. assert (Hno' : forall q, ~ quorum N q (l0 ++ [c])).
  { intros q Hq. destruct (decide (q = BlockProposer c)) as [->|Hne].
    - destruct Hq as [_ Hq]. rewrite <- Hsz in Hq. unfold max_faulty in Hq. lia.
    - apply (Hno q). destruct Hq as [Hq1 Hq2]. destruct (proposed_last _ _ _ Hq1) as [H|H]; [|contradiction]. split; [exact H|].
      rewrite signed_for_app, signed_for_one, (proj2 (Z.eqb_neq _ _) (not_eq_sym Hne)), union_empty_r_L in Hq2. exact Hq2. }
  specialize (IH Hno'). destruct (consensus_loop _ _ _ _ _ _) as [q fe]. destruct IH as [(l1 & c1 & l2 & -> & Hq & Hqu)|(Hq & Hfe & Hn)].
  - left. exists (c :: l1), c1, l2. split; [reflexivity|]. split; [exact Hq|]. rewrite <- app_assoc in Hqu. exact Hqu.
  - right. split; [exact Hq|]. split; [exact Hfe|]. intros q'. specialize (Hn q'). rewrite <- app_assoc in Hn. exact Hn.
Qed.

Lemma getCommitConsensus_exact l C N :
  let '(q, fe) := getCommitConsensus l C N in
  (exists l1 c l2, l = l1 ++ c :: l2 /\ q = BlockProposer c /\ quorum N q (l1 ++ [c])) \/
  (q = MaxUint32 /\ fe = false /\ forall q', ~ quorum N q' l).
Proof.
  apply (consensus_loop_exact N l C [] 0 false ∅ counts_nil). intros q [(c & Hc & _) _]. inversion Hc.
Qed.

Lemma decided_quorum l C N q fe : getCommitConsensus l C N = (q, fe) -> q <> MaxUint32 -> quorum N q l.
Proof.
  intros E Hq. pose proof (getCommitConsensus_exact l C N) as H. rewrite E in H. destruct H as [(l1 & c & l2 & -> & _ & H)|(H & _)]; [|contradiction].
  replace (l1 ++ c :: l2) with ((l1 ++ [c]) ++ l2) by (rewrite <- app_assoc; reflexivity). exact (quorum_mono _ _ _ _ H).
Qed.

(** Two large subsets of the peers overlap. *)
Lemma overlap (P A B : gset Z) : A ⊆ P -> B ⊆ P -> Z.of_nat (size A) + Z.of_nat (size B) - Z.of_nat (size P) <= Z.of_nat (size (A ∩ B)).
Proof.
  intros HA HB. assert (H1 : (size (A ∪ B) <= size P)%nat) by (apply subseteq_size; set_solver).
  assert (H2 : (size (A ∩ B) <= size B)%nat) by (apply subseteq_size; set_solver).
  rewrite size_union_alt, size_difference_alt in H1. replace (B ∩ A) with (A ∩ B) in H1 by set_solver. lia.
Qed.

(** C9: two decisions overlap. Let every signer and proposer be one of [N] peers and no decided proposer sign its own proposal. When two
    lists of commits (of one server or of two) decide, more than [(N - 1) / 3] peers back both decisions; so while at most that many peers
    back two proposals of a block, all decisions name the same proposer. *)
Theorem commit_quorums_overlap (peers : gset Z) N l1 l2 C1 C2 q1 q2 e1 e2 : Z.of_nat (size peers) = N ->
  getCommitConsensus l1 C1 N = (q1, e1) -> getCommitConsensus l2 C2 N = (q2, e2) -> q1 <> MaxUint32 -> q2 <> MaxUint32 ->
  backers q1 l1 ⊆ peers -> backers q2 l2 ⊆ peers -> q1 ∉ signed_for q1 l1 -> q2 ∉ signed_for q2 l2 ->
  max_faulty N < Z.of_nat (size (backers q1 l1 ∩ backers q2 l2)).
Proof.
  intros HN E1 E2 H1 H2 B1 B2 N1 N2. destruct (decided_quorum _ _ _ _ _ E1 H1) as [_ Q1]. destruct (decided_quorum _ _ _ _ _ E2 H2) as [_ Q2].
  pose proof (overlap peers _ _ B1 B2) as Ho. assert (Hs : forall q l, q ∉ signed_for q l -> size (backers q l) = S (size (signed_for q l))).
  { intros q l Hq. unfold backers. rewrite size_union by set_solver. rewrite size_singleton. reflexivity. }
  rewrite (Hs _ _ N1), (Hs _ _ N2) in Ho. assert (HN1 : 1 <= N).
  { rewrite <- HN. pose proof (subseteq_size {[q1]} peers ltac:(unfold backers in B1; set_solver)) as Hz. rewrite size_singleton in Hz. lia. }
  unfold max_faulty in *. rewrite Z.quot_div_nonneg in * by lia. Z.div_mod_to_equations. lia.
Qed.

Definition commit_of (q committer : Z) (hash : list byte) (endorsers : list Z) : blockCommitMsg :=
  mkCommit committer q 1 hash false (list_to_map (map (fun e => (e, [])) endorsers)) [] ∅ [].

Lemma commit_quorums_overlap_witness :
  max_faulty 4 < Z.of_nat (size (backers 1 [commit_of 1 2 [] [3]] ∩ backers 1 [commit_of 1 4 [] [3]])).
Proof.
  apply (commit_quorums_overlap (list_to_set [1; 2; 3; 4]) 4 _ _ 1 1 1 1 false false); try (vm_compute; reflexivity);
    try discriminate; apply (bool_decide_unpack _); vm_compute; exact I.
Defined.

(** Without that proviso decisions need not overlap so. Peer 0 of the peers 0 to 3 proposes two blocks and commits both itself: its commit and
    that of peer 1 decide for the one, its commit and that of peer 3 for the other. The proposer counts twice in each, so
    a quorum of three is reached by two peers, and only the proposer backs both blocks. *)
Theorem commit_counts_proposer_twice :
  let l1 := [commit_of 0 0 [x01] []; commit_of 0 1 [x01] []] in
  let l2 := [commit_of 0 0 [x02] []; commit_of 0 3 [x02] []] in
  getCommitConsensus l1 1 4 = (0, false) /\ getCommitConsensus l2 1 4 = (0, false) /\ backers 0 l1 ∩ backers 0 l2 = {[0]} /\ max_faulty 4 = 1.
Proof. split; [vm_compute; reflexivity|]. split; [vm_compute; reflexivity|]. split; [apply (bool_decide_unpack _); vm_compute; exact I | reflexivity]. Qed.
