(* ===== verification/VbftPeers.v ===== *)
(** * Participants of a block

    [node_utils.go]: the proposers, endorsers and committers of a block are drawn with the VRF value
    of the previous block from a table in which a peer occurs in proportion to its stake.  The
    server's state that these functions read is an argument: the configuration of the current round, whether a peer is alive or
    active, and the server's own index. *)

From S2P Require Import Prelude Vbft.

Record ChainConfig := mkChain { N_ : Z; C_ : Z; Peers : list Z; PosTable : list Z }.
Record BlockParticipantConfig := mkParticipants {
  p_BlockNumber : Z; Vrf : list byte; Proposers : list Z; Endorsers : list Z; Committers : list Z }.

(** ** Selection *)

(** [l[i]] *)
Definition at_ {A} (l : list A) (i : Z) : res A := match l !! Z.to_nat i with Some x => Ok x | None => Panic end.

(** [vrf] is an array of 64 bytes; an index past the end panics, as does a remainder by zero. *)
Definition calcParticipant (vrf : list byte) (dposTable : list Z) (k : Z) : res Z :=
  let bIdx := k / 8 in
  let bits1 := k mod 8 in
  let bits2 := 8 + bits1 in
  if 512 <=? k then Ok MaxUint32
  else
    let* b1 := at_ vrf bIdx in
    let v1 := u32 (Z.shiftr (bz b1) bits1) in
    let* b2 := at_ vrf (if bIdx + 1 <? Z.of_nat (length vrf) then bIdx + 1 else 0) in
    let v2 := Z.land (bz b2) (u32 (Z.shiftl 1 bits2 - 1)) in
    let v := u32 (u32 (Z.shiftl v2 (8 - bits1)) + v1) in
    if (length dposTable =? 0)%nat then Panic
    else at_ dposTable (v mod Z.of_nat (length dposTable)).

(** [peerMap] holds exactly the elements of [peers], each once: it is not kept apart. *)
Definition present (peer : Z) (peers : list Z) : bool := bool_decide (peer ∈ peers).

(** The first loop, from index [i] with [fuel] entries of the table left. *)
Fixpoint draw (cfg : BlockParticipantConfig) (chain : ChainConfig) (fuel : nat) (i : Z) (peers : list Z) : res (list Z) :=
  match fuel with
  | O => Ok peers
  | S f =>
      let* peerId := calcParticipant (Vrf cfg) (PosTable chain) (u32 i) in
      if peerId =? MaxUint32 then Ok peers
      else if present peerId peers then draw cfg chain f (i + 1) peers
      else
        let peers := peers ++ [peerId] in
        let n := Z.of_nat (length peers) in
        if (C_ chain + 1 + (2 * C_ chain + 1) * 2 <? n) || (n =? N_ chain) then Ok peers
        else draw cfg chain f (i + 1) peers
  end.

(** The second loop: further peers, in the order of the configuration. *)
Fixpoint fill (c : Z) (l : list Z) (peers : list Z) : list Z :=
  match l with
  | [] => peers
  | peer :: l =>
      let peers := if present peer peers then peers else peers ++ [peer] in
      if c * 3 <? Z.of_nat (length peers) then peers else fill c l peers
  end.

(** Appends elements of [src], while the result is shorter than [n]. *)
Fixpoint top_up (n : Z) (src dst : list Z) : list Z :=
  match src with
  | [] => dst
  | x :: src => if Z.of_nat (length dst) <? n then top_up n src (dst ++ [x]) else dst
  end.

Definition select_peers (cfg : BlockParticipantConfig) (chain : ChainConfig) : res (list Z) :=
  let* peers := draw cfg chain (length (PosTable chain)) 0 [] in
  Ok (if Z.of_nat (length peers) <=? C_ chain * 3 then fill (C_ chain) (Peers chain) peers else peers).

(** The roles, as slices of the selected peers; with fewer than [c + 1] of them one of the slice expressions panics. *)
Definition assign_roles (c : nat) (peers : list Z) : res (list Z * list Z * list Z) :=
  if (length peers <? c + 1)%nat then Panic
  else
    let nCommitter := Z.of_nat (2 * c + 1) in
    let propsers := take (c + 1) peers in
    let n1 := ((length peers - length propsers) / 2)%nat in
    let endorsers0 := take n1 (drop (c + 1) peers) in
    let committers := drop (c + 1 + n1) peers in
    let endorsers :=
      if Z.of_nat (length endorsers0) <? nCommitter then
        let e := endorsers0 ++ [nth c propsers 0] in
        let e := top_up nCommitter (rev committers) e in
        top_up nCommitter (rev (drop 1 (take c propsers))) e
      else endorsers0 in
    let committers' :=
      if Z.of_nat (length committers) <? nCommitter then
        let d := top_up nCommitter (drop 1 propsers) committers in
        top_up nCommitter (rev endorsers0) d
      else committers in
    Ok (propsers, endorsers, committers').

Definition calcParticipantPeers (cfg : BlockParticipantConfig) (chain : ChainConfig) : res (list Z * list Z * list Z) :=
  let* peers := select_peers cfg chain in
  assign_roles (Z.to_nat (C_ chain)) peers.

Definition IsNil (v : list byte) : bool := forallb (fun b => Byte.eqb b x00) v.

Definition buildParticipantConfig (blkNum : Z) (vrfValue : list byte) (chain : ChainConfig) : res BlockParticipantConfig :=
  if blkNum =? 0 then Err "not participant config for genesis block"
  else if IsNil vrfValue then Err "failed to calculate participant SelectionSeed"
  else
    let* '(p, e, c) := calcParticipantPeers (mkParticipants blkNum vrfValue [] [] []) chain in
    Ok (mkParticipants blkNum vrfValue p e c).

(** ** Roles of a peer *)

Section Roles.
Variable cfg : BlockParticipantConfig.
Variable C : Z.
Variable Index : Z.
Variable isActiveState : bool.            (* [isActive(self.getState())] *)
Variable isPeerAlive isPeerActive : Z -> bool.

Definition isProposer (peerIdx : Z) : bool :=
  if (peerIdx =? Index) && negb isActiveState then false
  else match List.find isPeerAlive (Proposers cfg) with Some id => peerIdx =? id | None => false end.

Fixpoint rank_of (peerIdx : Z) (l : list Z) (rank : Z) : option Z :=
  match l with
  | [] => None
  | id :: l => if id =? peerIdx then Some rank else rank_of peerIdx l (rank + 1)
  end.
Definition getProposerRankLocked (blockNum peerIdx : Z) : Z :=
  if blockNum =? p_BlockNumber cfg then default (Z.of_nat (length (Proposers cfg))) (rank_of peerIdx (Proposers cfg) 0)
  else Z.of_nat (length (Proposers cfg)).
Definition is2ndProposer (blockNum peerIdx : Z) : bool :=
  let rank := getProposerRankLocked blockNum peerIdx in (0 <? rank) && (rank <=? C).

(** The loop of [isEndorser] and [isCommitter]. *)
Fixpoint among_active (peerIdx : Z) (l : list Z) (activeN : Z) : bool :=
  match l with
  | [] => false
  | id :: l =>
      if id =? peerIdx then true
      else if isPeerActive id then
        let activeN := u32 (activeN + 1) in
        if u32 (C * 2) <? activeN then false else among_active peerIdx l activeN
      else among_active peerIdx l activeN
  end.
Definition isEndorser (peerIdx : Z) : bool := among_active peerIdx (Endorsers cfg) 0.
Definition isCommitter (peerIdx : Z) : bool := among_active peerIdx (Committers cfg) 0.

(** A proposal of another block is skipped; [None] of an inner option: no proposal. *)
Fixpoint best_rank (blockNum : Z) (l : list blockProposalMsg) (proposerRank : Z) (proposal : option blockProposalMsg) : option blockProposalMsg :=
  match l with
  | [] => proposal
  | p :: l =>
      if negb (p_BlockNum p =? blockNum) then best_rank blockNum l proposerRank proposal
      else
        let r := getProposerRankLocked blockNum (getProposer p) in
        if r <? proposerRank then best_rank blockNum l r (Some p) else best_rank blockNum l proposerRank proposal
  end.
Definition getHighestRankProposal (blockNum : Z) (proposals : list blockProposalMsg) : res (option blockProposalMsg) :=
  match best_rank blockNum proposals 10000 None, proposals with
  | None, _ :: _ => Panic
  | o, _ => Ok o
  end.
End Roles.

(** ** Selection succeeds *)

Lemma at_some {A} (l : list A) i : 0 <= i < zlen l -> exists x, at_ l i = Ok x /\ x ∈ l.
Proof.
  unfold zlen. intros Hi. unfold at_. destruct (l !! Z.to_nat i) as [x|] eqn:E; [exists x; split; [reflexivity | exact (list_elem_of_lookup_2 _ _ _ E)]|].
  apply lookup_ge_None in E. lia.
Qed.

Lemma calcParticipant_ok vrf table k : length vrf = 64%nat -> table <> [] -> 0 <= k ->
  exists v, calcParticipant vrf table k = Ok v /\ (v = MaxUint32 \/ v ∈ table).
Proof.
  intros Hv Ht Hk. unfold calcParticipant. destruct (Z.leb_spec 512 k) as [H|H]; [exists MaxUint32; split; [reflexivity | left; reflexivity]|].
  assert (Hb : 0 <= k / 8 < 64) by (Z.div_mod_to_equations; lia). rewrite Hv.
  destruct (at_some vrf (k / 8)) as (b1 & -> & _); [unfold zlen; lia|]. cbn [res_bind].
  destruct (at_some vrf (if k / 8 + 1 <? Z.of_nat 64 then k / 8 + 1 else 0)) as (b2 & -> & _); [unfold zlen; destruct (Z.ltb_spec (k / 8 + 1) (Z.of_nat 64)); lia|]. cbn [res_bind].
  destruct table as [|t table]; [contradiction|]. cbn [length Nat.eqb]. match goal with |- context [at_ _ (?v mod _)] => set (w := v) end.
  destruct (at_some (t :: table) (w mod Z.of_nat (S (length table)))) as (x & -> & Hx); [unfold zlen; cbn [length]; apply Z.mod_pos_bound; lia|].
  exists x. split; [reflexivity | right; exact Hx].
Qed.

(** Duplicate-free and among [all]. *)
Definition chosen (all l : list Z) : Prop := NoDup l /\ l ⊆ all.

Lemma chosen_nil all : chosen all [].
Proof. split; [constructor | intros x H; inversion H]. Qed.

Lemma chosen_snoc all l x : chosen all l -> x ∈ all -> present x l = false -> chosen all (l ++ [x]).
Proof.
  intros [H1 H2] Hx Hp. apply bool_decide_eq_false in Hp. split.
  - apply NoDup_app. split; [exact H1|]. split; [intros y Hy Hy'; apply list_elem_of_singleton in Hy'; congruence | apply NoDup_singleton].
  - intros y Hy. apply elem_of_app in Hy as [Hy|Hy]; [exact (H2 y Hy)|]. apply list_elem_of_singleton in Hy as ->. exact Hx.
Qed.

Lemma draw_ok cfg chain fuel : length (Vrf cfg) = 64%nat -> PosTable chain ⊆ Peers chain -> PosTable chain <> [] -> forall i peers, chosen (Peers chain) peers ->
  exists r, draw cfg chain fuel i peers = Ok r /\ chosen (Peers chain) r.
Proof.
  intros Hv Hsub Ht. induction fuel as [|f IH]; intros i peers Hp; cbn [draw]; [exists peers; split; [reflexivity | exact Hp]|].
  destruct (calcParticipant_ok (Vrf cfg) (PosTable chain) (u32 i) Hv Ht ltac:(unfold u32; apply Z.mod_pos_bound; lia)) as (v & -> & Hin). cbn [res_bind].
  destruct (Z.eqb_spec v MaxUint32) as [|Hne]; [exists peers; split; [reflexivity | exact Hp]|]. destruct (present v peers) eqn:Ep; [apply IH, Hp|].
  assert (Hp' : chosen (Peers chain) (peers ++ [v])) by (apply chosen_snoc; [exact Hp | destruct Hin; [contradiction | apply Hsub; assumption] | exact Ep]).
  destruct (_ || _); [eexists; split; [reflexivity | exact Hp'] | apply IH, Hp'].
Qed.

Lemma fill_chosen all c l : forall peers, l ⊆ all -> chosen all peers -> chosen all (fill c l peers).
Proof.
  induction l as [|x l IH]; intros peers Hl Hp; cbn [fill]; [exact Hp|].
  assert (Hp' : chosen all (if present x peers then peers else peers ++ [x])).
  { destruct (present x peers) eqn:E; [exact Hp|]. apply chosen_snoc; [exact Hp | apply Hl, list_elem_of_here | exact E]. }
  destruct (_ <? _); [exact Hp'|]. apply IH; [|exact Hp']. intros y Hy. apply Hl, list_elem_of_further, Hy.
Qed.

Lemma fill_enough c l : forall peers, c * 3 < Z.of_nat (length (fill c l peers)) \/ (peers ⊆ fill c l peers /\ l ⊆ fill c l peers).
Proof.
  induction l as [|x l IH]; intros peers; cbn [fill]; [right; split; [reflexivity | intros x H; inversion H]|]. set (p' := if present x peers then _ else _).
  assert (Hx : x ∈ p' /\ peers ⊆ p').
  { unfold p', present. case_bool_decide as E; [split; [exact E | reflexivity]|]. split; [apply elem_of_app; right; apply list_elem_of_here | intros y Hy; apply elem_of_app; left; exact Hy]. }
  destruct (Z.ltb_spec (c * 3) (Z.of_nat (length p'))) as [H|H]; [left; exact H|]. destruct (IH p') as [H1|[H1 H2]]; [left; exact H1|]. right. destruct Hx as [Hx Hs].
  split; [etrans; eassumption|]. intros y Hy. apply elem_of_cons in Hy as [->|Hy]; [exact (H1 x Hx) | exact (H2 y Hy)].
Qed.

Lemma select_peers_ok cfg chain : length (Vrf cfg) = 64%nat -> PosTable chain ⊆ Peers chain -> NoDup (Peers chain) -> 0 <= C_ chain -> C_ chain * 3 < zlen (Peers chain) ->
  exists r, select_peers cfg chain = Ok r /\ chosen (Peers chain) r /\ C_ chain * 3 < zlen r.
Proof.
  intros Hv Hsub Hnd HC Hlen. unfold select_peers, zlen in *.
  assert (Hd : exists r, draw cfg chain (length (PosTable chain)) 0 [] = Ok r /\ chosen (Peers chain) r).
  { destruct (decide (PosTable chain = [])) as [->|Ht]; [exists []; split; [reflexivity | apply chosen_nil] | apply draw_ok; auto using chosen_nil]. }
  destruct Hd as (r & -> & Hr). cbn [res_bind]. eexists. split; [reflexivity|]. destruct (Z.leb_spec (Z.of_nat (length r)) (C_ chain * 3)) as [Hle|Hgt]; [|split; [exact Hr | exact Hgt]].
  split; [apply fill_chosen; [reflexivity | exact Hr]|]. destruct (fill_enough (C_ chain) (Peers chain) r) as [H|[_ H]]; [exact H|].
  pose proof (submseteq_length _ _ (NoDup_submseteq _ _ Hnd (fun x Hx => H x Hx))). lia.
Qed.

(** ** Roles *)

Lemma top_up_spec n src : forall dst, exists k, top_up n src dst = dst ++ take k src /\ (n <= zlen (top_up n src dst) \/ take k src = src).
Proof.
  induction src as [|x src IH]; intros dst; cbn [top_up]; [exists O; split; [rewrite app_nil_r; reflexivity | right; reflexivity]|].
  destruct (Z.ltb_spec (Z.of_nat (length dst)) n) as [H|H]; [|exists O; split; [rewrite app_nil_r; reflexivity | left; exact H]].
  destruct (IH (dst ++ [x])) as (k & E & Hk). exists (S k). split; [rewrite E, <- app_assoc; reflexivity|]. destruct Hk as [Hk|Hk]; [left; exact Hk | right; cbn; congruence].
Qed.

(** Two rounds: a part of everything available, and all of it when that is too little. *)
Lemma top_up_twice n A B dst : sublist (top_up n B (top_up n A dst)) (dst ++ A ++ B) /\
  (n <= zlen (top_up n B (top_up n A dst)) \/ top_up n B (top_up n A dst) = dst ++ A ++ B).
Proof.
  destruct (top_up_spec n A dst) as (k & E & Hk). destruct (top_up_spec n B (top_up n A dst)) as (j & E' & Hj). split.
  - rewrite E', E, <- app_assoc. apply sublist_app; [reflexivity|]. apply sublist_app; apply sublist_take.
  - destruct Hj as [Hj|Hj]; [left; exact Hj|]. destruct Hk as [Hk|Hk]; [left; rewrite E'; unfold zlen in *; rewrite length_app; lia|].
    right. rewrite E', E, Hj, Hk, app_assoc. reflexivity.
Qed.

(** A list of enough peers drawn from [rest]. *)
Lemma role_ok (rest full r : list Z) n : full ≡ₚ rest -> NoDup rest -> n <= zlen rest -> sublist r full -> (n <= zlen r \/ r = full) ->
  NoDup r /\ r ⊆ rest /\ n <= zlen r.
Proof.
  intros Hf Hnd Hn Hs Hl. split; [apply (sublist_NoDup _ _ (proj2 (NoDup_Permutation_proper _ _ Hf) Hnd) Hs)|]. split.
  - intros x Hx. rewrite <- Hf. exact (elem_of_submseteq _ _ _ Hx (sublist_submseteq _ _ Hs)).
  - destruct Hl as [Hl | ->]; [exact Hl|]. unfold zlen in *. rewrite Hf. exact Hn.
Qed.

Lemma role_filled (rest full r0 r1 : list Z) n : full ≡ₚ rest -> NoDup rest -> n <= zlen rest -> sublist r0 full -> sublist r1 full /\ (n <= zlen r1 \/ r1 = full) ->
  let r := if Z.of_nat (length r0) <? n then r1 else r0 in NoDup r /\ r ⊆ rest /\ n <= zlen r.
Proof.
  intros Hf Hnd Hn H0 [H1 H1']. cbv zeta. destruct (Z.ltb_spec (Z.of_nat (length r0)) n) as [H|H]; apply (role_ok rest full); auto.
Qed.

Lemma split_roles (c : nat) (peers : list Z) : (1 <= c)%nat -> (c + 1 <= length peers)%nat ->
  exists p0 q pc rest, peers = p0 :: q ++ pc :: rest /\ length q = (c - 1)%nat.
Proof.
  intros Hc Hl. destruct peers as [|p0 peers]; [cbn in Hl; lia|]. cbn in Hl. exists p0, (take (c - 1) peers).
  destruct (drop (c - 1) peers) as [|pc rest] eqn:E; [apply (f_equal length) in E; rewrite length_drop in E; cbn in E; lia|].
  exists pc, rest. rewrite <- E, take_drop, length_take. split; [reflexivity | lia].
Qed.

Lemma assign_roles_ok (c : nat) (peers : list Z) : (1 <= c)%nat -> (3 * c < length peers)%nat -> NoDup peers ->
  exists p0 ps es cs, assign_roles c peers = Ok (p0 :: ps, es, cs) /\ length (p0 :: ps) = (c + 1)%nat /\ chosen peers (p0 :: ps) /\
    chosen (tail peers) es /\ chosen (tail peers) cs /\ 2 * Z.of_nat c + 1 <= zlen es /\ 2 * Z.of_nat c + 1 <= zlen cs /\ p0 ∉ tail peers.
Proof.
  intros Hc Hl Hnd. destruct (split_roles c peers Hc ltac:(lia)) as (p0 & q & pc & rest & -> & Hq). unfold assign_roles.
  destruct (Nat.ltb_spec (length (p0 :: q ++ pc :: rest)) (c + 1)) as [H|_]; [lia|].
  assert (Ht : take (c + 1) (p0 :: q ++ pc :: rest) = p0 :: q ++ [pc]).
  { replace (p0 :: q ++ pc :: rest) with ((p0 :: q ++ [pc]) ++ rest) by (cbn; rewrite <- app_assoc; reflexivity). apply take_app_length'. cbn. rewrite length_app. cbn. lia. }
  assert (Hd : forall n, drop (c + 1 + n) (p0 :: q ++ pc :: rest) = drop n rest).
  { intros n. replace (p0 :: q ++ pc :: rest) with ((p0 :: q ++ [pc]) ++ rest) by (cbn; rewrite <- app_assoc; reflexivity). rewrite <- drop_drop. f_equal. apply drop_app_length'. cbn. rewrite length_app. cbn. lia. }
  pose proof (Hd O) as Hd0. rewrite Nat.add_0_r, drop_0 in Hd0. rewrite Ht, Hd, Hd0. set (n1 := ((_ - _) / 2)%nat). set (e0 := take n1 rest). set (cm := drop n1 rest).
  assert (Hr : e0 ++ cm = rest) by apply take_drop. assert (Hn : nth c (p0 :: q ++ [pc]) 0 = pc).
  { replace c with (S (length q)) by lia. cbn [nth]. rewrite nth_middle. reflexivity. }
  assert (Hq' : drop 1 (take c (p0 :: q ++ [pc])) = q) by (replace c with (S (length q)) by lia; cbn; rewrite take_app_length; apply drop_0).
  rewrite Hn, Hq'. cbn [drop tail]. rewrite ?drop_0. set (n := Z.of_nat (2 * c + 1)). apply NoDup_cons in Hnd as [Hp0 Hnd].
  assert (Hlen : n <= zlen (q ++ pc :: rest)) by (unfold n, zlen; cbn [length] in Hl; lia).
  assert (Pe : (e0 ++ [pc]) ++ rev cm ++ rev q ≡ₚ q ++ pc :: rest) by (rewrite <- Hr, <- !Permutation_rev; solve_Permutation).
  assert (Pc : cm ++ (q ++ [pc]) ++ rev e0 ≡ₚ q ++ pc :: rest) by (rewrite <- Hr, <- !Permutation_rev; solve_Permutation).
  assert (Se : sublist e0 ((e0 ++ [pc]) ++ rev cm ++ rev q)) by (rewrite <- app_assoc; apply sublist_inserts_r; reflexivity).
  assert (Sc : sublist cm (cm ++ (q ++ [pc]) ++ rev e0)) by (apply sublist_inserts_r; reflexivity).
  exists p0, (q ++ [pc]). eexists. eexists. split; [reflexivity|]. split; [cbn; rewrite length_app; cbn; lia|]. split.
  { split; [apply (sublist_NoDup _ (p0 :: q ++ pc :: rest)); [apply NoDup_cons; split; assumption|]|].
    - apply sublist_skip, sublist_app; [reflexivity|]. apply sublist_skip, sublist_nil_l.
    - intros x Hx. rewrite <- (take_drop (c + 1) (p0 :: q ++ pc :: rest)), Ht. apply elem_of_app. left. exact Hx. }
  destruct (role_filled _ _ e0 _ n Pe Hnd Hlen Se (top_up_twice n (rev cm) (rev q) (e0 ++ [pc]))) as (E1 & E2 & E3).
  destruct (role_filled _ _ cm _ n Pc Hnd Hlen Sc (top_up_twice n (q ++ [pc]) (rev e0) cm)) as (C1 & C2 & C3).
  split; [split; assumption|]. split; [split; assumption|]. replace (2 * Z.of_nat c + 1) with n by (unfold n; lia). split; [exact E3|]. split; [exact C3 | exact Hp0].
Qed.

(** C32: the participants of a block. With at least [3C + 1] distinct peers, [C] at least one and a table naming only peers, the selection succeeds for every
    VRF value: there are [C + 1] proposers and at least [2C + 1] endorsers and committers, each without repetition and among the peers,
    and the leader, the first proposer, is neither an endorser nor a committer. *)
Theorem participants_selected cfg chain : length (Vrf cfg) = 64%nat -> NoDup (Peers chain) -> PosTable chain ⊆ Peers chain ->
  1 <= C_ chain -> 3 * C_ chain + 1 <= zlen (Peers chain) ->
  exists leader ps es cs, calcParticipantPeers cfg chain = Ok (leader :: ps, es, cs) /\ zlen (leader :: ps) = C_ chain + 1 /\
    2 * C_ chain + 1 <= zlen es /\ 2 * C_ chain + 1 <= zlen cs /\
    chosen (Peers chain) (leader :: ps) /\ chosen (Peers chain) es /\ chosen (Peers chain) cs /\ ~ (leader ∈ es) /\ ~ (leader ∈ cs).
Proof.
  intros Hv Hnd Hsub HC Hl. destruct (select_peers_ok cfg chain Hv Hsub Hnd ltac:(lia) ltac:(lia)) as (r & E & [Hr1 Hr2] & Hr3).
  destruct (assign_roles_ok (Z.to_nat (C_ chain)) r ltac:(lia) ltac:(unfold zlen in *; lia) Hr1) as (p0 & ps & es & cs & Ea & Hp & Cp & Ce & Cc & Le & Lc & Hx).
  assert (Hsub' : forall all l : list Z, all ⊆ r -> chosen all l -> chosen (Peers chain) l) by (intros all l Ha [H1 H2]; split; [exact H1 | etrans; [exact H2 | etrans; [exact Ha | exact Hr2]]]).
  assert (Ht : tail r ⊆ r) by (destruct r; [reflexivity | intros x Hin; apply list_elem_of_further, Hin]).
  exists p0, ps, es, cs. unfold calcParticipantPeers. rewrite E. cbn [res_bind]. split; [exact Ea|]. split; [unfold zlen; rewrite Hp; lia|]. split; [lia|]. split; [lia|].
  split; [apply (Hsub' r); [reflexivity | exact Cp]|]. split; [exact (Hsub' _ _ Ht Ce)|]. split; [exact (Hsub' _ _ Ht Cc)|].
  split; intros Hin; apply Hx; [exact (proj2 Ce _ Hin) | exact (proj2 Cc _ Hin)].
Qed.

(** Seven peers of unequal stake. *)
Definition seven_peers : ChainConfig := mkChain 7 2 [1; 2; 3; 4; 5; 6; 7] [1; 1; 1; 2; 3; 3; 4; 5; 6; 7].
Definition some_vrf : BlockParticipantConfig := mkParticipants 9 (repeat x5a 64) [] [] [].

Lemma participants_selected_witness : exists leader ps es cs, calcParticipantPeers some_vrf seven_peers = Ok (leader :: ps, es, cs) /\ ~ (leader ∈ es) /\ ~ (leader ∈ cs).
Proof.
  destruct (participants_selected some_vrf seven_peers) as (leader & ps & es & cs & H & _ & _ & _ & _ & _ & _ & H1 & H2);
    try reflexivity; try (vm_compute; discriminate); try (apply (bool_decide_unpack _); vm_compute; exact I).
  exists leader, ps, es, cs. split; [exact H | split; assumption].
Defined.
