(* ===== verification/LedgerTypes.v ===== *)
(** * Transactions, headers and blocks

    [core/types/] (transactions, headers, raw headers, blocks, cross-chain messages), the payloads
    of [core/payload/] and the Merkle root of [common/merkle_tree.go].  A decoder fills a fresh object,
    so it is a reader that returns it.  The hash functions and the public keys of the crypto library are
    parameters. *)

From S2P Require Import Prelude Codec Merkle.

Definition ErrUnexpectedEOF : gerror := "unexpected EOF".
Definition ErrIrregularData : gerror := "irregular data".

(** ** Parameters: public keys and hashes *)

(** [keypair]: keys have a serial form that is read back, and a sort order. *)
Class Keypair := {
  PublicKey : Type;
  SerializePublicKey : PublicKey -> list byte;
  DeserializePublicKey : list byte -> option PublicKey;
  SortPublicKeys : list PublicKey -> list PublicKey;
  key_roundtrip : forall k, DeserializePublicKey (SerializePublicKey k) = Some k;
  key_length : forall k, 1 <= zlen (SerializePublicKey k) < 2 ^ 8;
  sort_keys_perm : forall l, SortPublicKeys l ≡ₚ l;
  sort_keys_canonical : forall l l', l ≡ₚ l' -> SortPublicKeys l = SortPublicKeys l'
}.

Class Hashes := {
  sha256 : list byte -> list byte;
  ripemd160 : list byte -> list byte;
  sha256_length : forall m, zlen (sha256 m) = 32;
  ripemd160_length : forall m, zlen (ripemd160 m) = 20
}.

Definition sha256d {H : Hashes} (m : list byte) : Uint256 := sha256 (sha256 m).
Definition AddressFromVmCode {H : Hashes} (code : list byte) : list byte := ripemd160 (sha256 code).

(** ** [common.ComputeMerkleRoot] *)

Section MerkleRoot.
Context {HH : Hashes}.

(** One round: pairs are hashed, an odd last element with itself.  The code overwrites the front of the slice
    as it reads it, never an element it has still to read. *)
Fixpoint merkle_level (hashes : list Uint256) : list Uint256 :=
  match hashes with
  | a :: b :: rest => sha256d (a ++ b) :: merkle_level rest
  | [a] => [sha256d (a ++ a)]
  | [] => []
  end.

Fixpoint merkle_rounds (fuel : nat) (hashes : list Uint256) : res Uint256 :=
  match hashes with
  | [] => Panic
  | [h] => Ok h
  | _ => match fuel with O => Panic | S f => merkle_rounds f (merkle_level hashes) end
  end.

Definition ComputeMerkleRoot (hashes : list Uint256) : res Uint256 :=
  if zlen hashes =? 0 then Ok EMPTY_HASH else merkle_rounds (length hashes) hashes.

End MerkleRoot.

(** ** Readers *)

(** [data, _, irregular, eof := source.NextVarBytes()], [eof] first. *)
Definition var_bytes_eof_first : ST ZeroCopySource (list byte) :=
  do '(data, _, irregular, eof) <- Source.NextVarBytes;
  if eof : bool then st_err ErrUnexpectedEOF else if irregular : bool then st_err ErrIrregularData else st_ret data.
Definition var_uint_eof_first : ST ZeroCopySource Z :=
  do '(n, _, irregular, eof) <- Source.NextVarUint;
  if eof : bool then st_err ErrUnexpectedEOF else if irregular : bool then st_err ErrIrregularData else st_ret n.
Definition var_uint_irregular_first : ST ZeroCopySource Z :=
  do '(n, _, irregular, eof) <- Source.NextVarUint;
  if irregular : bool then st_err ErrIrregularData else if eof : bool then st_err ErrUnexpectedEOF else st_ret n.
(** The [eof] is left to a later reader. *)
Definition var_bytes_no_eof : ST ZeroCopySource (list byte * bool) :=
  do '(data, _, irregular, eof) <- Source.NextVarBytes;
  if irregular : bool then st_err ErrIrregularData else st_ret (data, eof).

(** [for i := 0; i < int(n); i++]: [n] elements, none when [int(n)] is negative.  Each takes at least a byte or is an error. *)
Fixpoint read_n {A} (fuel : nat) (r : ST ZeroCopySource A) (n : Z) : ST ZeroCopySource (list A) :=
  if n <=? 0 then st_ret []
  else match fuel with
       | O => st_panic
       | S f => do a <- r; do l <- read_n f r (n - 1); st_ret (a :: l)
       end.
Definition read_list {A} (r : ST ZeroCopySource A) (n : Z) : ST ZeroCopySource (list A) :=
  do self <- st_get; read_n (S (length (src_s self))) r n.

(** [plen := source.Pos() - pstart; source.BackUp(plen); source.NextBytes(plen)] *)
Definition reread (pstart : Z) : ST ZeroCopySource (list byte) :=
  do self <- st_get;
  let plen := u64 (Source.Pos self - pstart) in
  do_ Source.BackUp plen;
  do '(raw, _) <- Source.NextBytes plen;
  st_ret raw.

(** ** Payloads *)

Record InvokeCode := mkInvoke { i_Code : list byte }.

Record DeployCode := mkDeploy {
  code : list byte; vmFlags : byte; Name : list byte; d_Version : list byte; Author : list byte; Email : list byte; Description : list byte }.

Module Payload.

Definition NEOVM_TYPE : Z := 1.
Definition WASMVM_TYPE : Z := 3.

Definition VmTypeFromByte (ty : byte) : res byte :=
  if (bz ty =? 1) || (bz ty =? 3) then Ok ty else Err "can not convert byte to vm type".

Definition checkVmFlags (f : byte) : res unit := guard ((bz f =? 0) || (bz f =? 1) || (bz f =? 3)) "invalid vm flags".
Definition VmType (dc : DeployCode) : res Z :=
  if (bz (vmFlags dc) =? 0) || (bz (vmFlags dc) =? 1) then Ok NEOVM_TYPE
  else if bz (vmFlags dc) =? 3 then Ok WASMVM_TYPE else Panic.

Definition maxWasmCodeSize : Z := 512 * 1024.

Definition validateDeployCode (dep : DeployCode) : res unit :=
  let* _ := checkVmFlags (vmFlags dep) in
  let* ty := VmType dep in
  let* _ := guard (if ty =? WASMVM_TYPE then zlen (code dep) <=? maxWasmCodeSize else zlen (code dep) <=? 1024 * 1024) "[contract] Code too long!" in
  let* _ := guard (zlen (Name dep) <=? 252) "[contract] name too long!" in
  let* _ := guard (zlen (d_Version dep) <=? 252) "[contract] version too long!" in
  let* _ := guard (zlen (Author dep) <=? 252) "[contract] version too long!" in
  let* _ := guard (zlen (Email dep) <=? 252) "[contract] email too long!" in
  guard (zlen (Description dep) <=? 65536) "[contract] description too long!".

Definition NewDeployCode (code : list byte) (vmType : byte) (name version author email description : list byte) : res DeployCode :=
  let dc := mkDeploy code vmType name version author email description in
  let* _ := validateDeployCode dc in Ok dc.
Definition CreateDeployCode (code : list byte) (vmType : Z) (name version author email desc : list byte) : res DeployCode :=
  if 255 <? vmType then Err "wrong vm flags" else NewDeployCode code (zb vmType) name version author email desc.

Definition GetWasmCode (dc : DeployCode) : res (list byte) :=
  let* ty := VmType dc in if ty =? WASMVM_TYPE then Ok (code dc) else Err "not wasm contract".
Definition GetNeoCode (dc : DeployCode) : res (list byte) :=
  let* ty := VmType dc in if ty =? NEOVM_TYPE then Ok (code dc) else Err "not neo contract".

Definition Invoke_Serialization (self : InvokeCode) : ST ZeroCopySink unit := do_ Sink.WriteVarBytes (i_Code self); st_ret ().
Definition Invoke_Deserialization : ST ZeroCopySource InvokeCode := do c <- var_bytes_eof_first; st_ret (mkInvoke c).

Definition Deploy_Serialization (dc : DeployCode) : ST ZeroCopySink unit :=
  do_ Sink.WriteVarBytes (code dc);
  do_ Sink.WriteByte (vmFlags dc);
  do_ Sink.WriteString (Name dc);
  do_ Sink.WriteString (d_Version dc);
  do_ Sink.WriteString (Author dc);
  do_ Sink.WriteString (Email dc);
  do_ Sink.WriteString (Description dc);
  st_ret ().

Definition Deploy_Deserialization : ST ZeroCopySource DeployCode :=
  do '(c, _) <- var_bytes_no_eof;
  do '(f, _) <- Source.NextByte;
  do '(name, _) <- var_bytes_no_eof;
  do '(version, _) <- var_bytes_no_eof;
  do '(author, _) <- var_bytes_no_eof;
  do '(email, _) <- var_bytes_no_eof;
  do '(desc, eof) <- var_bytes_no_eof;
  if eof : bool then st_err ErrUnexpectedEOF
  else
    let dc := mkDeploy c f name version author email desc in
    do_ st_lift (validateDeployCode dc); st_ret dc.

End Payload.

(** ** Transactions *)

Inductive PayloadT := PInvoke (p : InvokeCode) | PDeploy (p : DeployCode).

Record RawSig := mkRawSig { Invoke : list byte; Verify : list byte }.

(** The fields shared by [Transaction] and [MutableTransaction] ([attributes] is always zero). *)
Record TxBody := mkBody {
  t_Version : byte; TxType : byte; Nonce : Z; GasPrice : Z; GasLimit : Z; Payer : list byte; Payload_ : PayloadT }.

Record Transaction := mkTx {
  t_body : TxBody; Sigs : list RawSig; Raw : list byte; t_hash : Uint256; SignedAddr : list (list byte); nonDirectConstracted : bool }.

Module Tx.

Definition MAX_TX_SIZE : Z := 1024 * 1024.
Definition TX_MAX_SIG_SIZE : Z := 16.
Definition Deploy : Z := 0xd0.
Definition InvokeNeo : Z := 0xd1.
Definition InvokeWasm : Z := 0xd2.

Definition RawSig_Serialization (self : RawSig) : ST ZeroCopySink unit :=
  do_ Sink.WriteVarBytes (Invoke self); do_ Sink.WriteVarBytes (Verify self); st_ret ().
Definition RawSig_Deserialization : ST ZeroCopySource RawSig :=
  do '(i, _) <- var_bytes_no_eof;
  do '(v, eof) <- var_bytes_no_eof;
  if eof : bool then st_err ErrUnexpectedEOF else st_ret (mkRawSig i v).

Definition read_payload (ty : byte) : ST ZeroCopySource PayloadT :=
  if (bz ty =? InvokeNeo) || (bz ty =? InvokeWasm) then do p <- Payload.Invoke_Deserialization; st_ret (PInvoke p)
  else if bz ty =? Deploy then do p <- Payload.Deploy_Deserialization; st_ret (PDeploy p)
  else st_err "unsupported tx type".

Definition deserializationUnsigned : ST ZeroCopySource TxBody :=
  do '(version, _) <- Source.NextByte;
  do '(txtype, _) <- Source.NextByte;
  do '(nonce, _) <- Source.NextUint32;
  do '(price, _) <- Source.NextUint64;
  do '(limit, _) <- Source.NextUint64;
  do '(buf, eof) <- Source.NextBytes ADDR_LEN;
  if eof : bool then st_err ErrUnexpectedEOF
  else
    do pl <- read_payload txtype;
    do length <- var_uint_irregular_first;
    if negb (length =? 0) then st_err "transaction attribute must be 0"
    else st_ret (mkBody version txtype nonce price limit buf pl).

Section Hashed.
Context {HH : Hashes}.

Definition Deserialization : ST ZeroCopySource Transaction :=
  do start <- st_get;
  let pstart := Source.Pos start in
  do body <- deserializationUnsigned;
  do rawUnsigned <- reread pstart;
  let hash := sha256d rawUnsigned in
  do length <- var_uint_irregular_first;
  if TX_MAX_SIG_SIZE <? length then st_err "transaction signature number execced"
  else
    do sigs <- read_list RawSig_Deserialization (s64 length);
    do self <- st_get;
    let lenAll := u64 (Source.Pos self - pstart) in
    if MAX_TX_SIZE <? lenAll then st_err "execced max transaction size"
    else
      do raw <- reread pstart;
      st_ret (mkTx body sigs raw hash [] true).

Definition TransactionFromRawBytes (raw : list byte) : res Transaction :=
  if MAX_TX_SIZE <? zlen raw then Err "execced max transaction size"
  else let* '(tx, _) := Deserialization (NewZeroCopySource raw) in Ok tx.

Definition Serialization (tx : Transaction) : ST ZeroCopySink unit :=
  if negb (nonDirectConstracted tx) || (zlen (Raw tx) =? 0) then st_panic else Sink.WriteBytes (Raw tx).

Definition Hash (tx : Transaction) : Uint256 := t_hash tx.

Definition GetSignatureAddresses (self : Transaction) : list (list byte) * Transaction :=
  if zlen (SignedAddr self) =? 0 then
    let addrs := map (fun prog => AddressFromVmCode (Verify prog)) (Sigs self) in
    (addrs, mkTx (t_body self) (Sigs self) (Raw self) (t_hash self) addrs (nonDirectConstracted self))
  else (SignedAddr self, self).
End Hashed.

(** [MutableTransaction.serializeUnsigned]; [IntoImmutable] appends the signatures. *)
Definition serializeUnsigned (tx : TxBody) : ST ZeroCopySink unit :=
  do_ Sink.WriteByte (t_Version tx);
  do_ Sink.WriteByte (TxType tx);
  do_ Sink.WriteUint32 (Nonce tx);
  do_ Sink.WriteUint64 (GasPrice tx);
  do_ Sink.WriteUint64 (GasLimit tx);
  do_ Sink.WriteBytes (Payer tx);
  do_ (match Payload_ tx with PDeploy pl => Payload.Deploy_Serialization pl | PInvoke pl => Payload.Invoke_Serialization pl end);
  do_ Sink.WriteVarUint 0;
  st_ret ().

End Tx.

(** ** Headers *)

Section Ledger.
Context {HH : Hashes} {KP : Keypair}.

Record Header := mkHeader {
  h_Version : Z; PrevBlockHash : Uint256; TransactionsRoot : Uint256; BlockRoot : Uint256; Timestamp : Z; Height : Z;
  ConsensusData : Z; ConsensusPayload : list byte; NextBookkeeper : list byte;
  Bookkeepers : list PublicKey; SigData : list (list byte); h_hash : option Uint256 }.

Record RawHeader := mkRaw { r_Height : Z; r_Payload : list byte }.
Record Block := mkBlock { b_Header : Header; Transactions : list Transaction }.

Fixpoint write_all {A} (w : A -> ST ZeroCopySink unit) (l : list A) : ST ZeroCopySink unit :=
  match l with [] => st_ret () | a :: l => do_ w a; write_all w l end.

Definition write_var_bytes (b : list byte) : ST ZeroCopySink unit := do_ Sink.WriteVarBytes b; st_ret ().

Definition h_serializationUnsigned (bd : Header) : ST ZeroCopySink unit :=
  do_ Sink.WriteUint32 (h_Version bd);
  do_ Sink.WriteBytes (PrevBlockHash bd);
  do_ Sink.WriteBytes (TransactionsRoot bd);
  do_ Sink.WriteBytes (BlockRoot bd);
  do_ Sink.WriteUint32 (Timestamp bd);
  do_ Sink.WriteUint32 (Height bd);
  do_ Sink.WriteUint64 (ConsensusData bd);
  do_ Sink.WriteVarBytes (ConsensusPayload bd);
  Sink.WriteBytes (NextBookkeeper bd).

Definition h_Serialization (bd : Header) : ST ZeroCopySink unit :=
  do_ h_serializationUnsigned bd;
  do_ Sink.WriteVarUint (zlen (Bookkeepers bd));
  do_ write_all (fun pubkey => write_var_bytes (SerializePublicKey pubkey)) (Bookkeepers bd);
  do_ Sink.WriteVarUint (zlen (SigData bd));
  write_all write_var_bytes (SigData bd).

(** The header read so far, without keys and signatures. *)
Definition h_deserializationUnsigned : ST ZeroCopySource Header :=
  do '(version, _) <- Source.NextUint32;
  do '(prev, _) <- Source.NextHash;
  do '(txroot, _) <- Source.NextHash;
  do '(blockroot, _) <- Source.NextHash;
  do '(timestamp, _) <- Source.NextUint32;
  do '(height, _) <- Source.NextUint32;
  do '(cdata, _) <- Source.NextUint64;
  do '(payload, _) <- var_bytes_no_eof;
  do '(next, eof) <- Source.NextAddress;
  if eof : bool then st_err ErrUnexpectedEOF
  else st_ret (mkHeader version prev txroot blockroot timestamp height cdata payload next [] [] None).

Definition read_pubkey : ST ZeroCopySource PublicKey :=
  do buf <- var_bytes_eof_first;
  match DeserializePublicKey buf with Some k => st_ret k | None => st_err "deserializing public key failed" end.

Definition with_sigs (bd : Header) (keys : list PublicKey) (sigs : list (list byte)) : Header :=
  mkHeader (h_Version bd) (PrevBlockHash bd) (TransactionsRoot bd) (BlockRoot bd) (Timestamp bd) (Height bd)
    (ConsensusData bd) (ConsensusPayload bd) (NextBookkeeper bd) keys sigs (h_hash bd).

Definition h_Deserialization : ST ZeroCopySource Header :=
  do bd <- h_deserializationUnsigned;
  do n <- var_uint_eof_first;
  do keys <- read_list read_pubkey (s64 n);
  do m <- var_uint_eof_first;
  do sigs <- read_list var_bytes_eof_first (s64 m);
  st_ret (with_sigs bd keys sigs).

Definition HeaderFromRawBytes (raw : list byte) : res Header :=
  let* '(h, _) := h_Deserialization (NewZeroCopySource raw) in Ok h.

(** Runs a writer on a new sink. *)
Definition written (w : ST ZeroCopySink unit) : res (list byte) :=
  let* '(_, s) := w (Sink.NewZeroCopySink None) in Ok (Sink.Bytes s).

Definition set_hash (bd : Header) (h : Uint256) : Header :=
  mkHeader (h_Version bd) (PrevBlockHash bd) (TransactionsRoot bd) (BlockRoot bd) (Timestamp bd) (Height bd)
    (ConsensusData bd) (ConsensusPayload bd) (NextBookkeeper bd) (Bookkeepers bd) (SigData bd) (Some h).

(** The hash is computed once. *)
Definition h_Hash (bd : Header) : res (Uint256 * Header) :=
  match h_hash bd with
  | Some h => Ok (h, bd)
  | None => let* b := written (h_serializationUnsigned bd) in let h := sha256d b in Ok (h, set_hash bd h)
  end.
Definition GetMessage (bd : Header) : res (list byte) := written (h_serializationUnsigned bd).
Definition h_ToArray (bd : Header) : res (list byte) := written (h_Serialization bd).
Definition GetRawHeader (hd : Header) : res RawHeader := let* b := written (h_Serialization hd) in Ok (mkRaw (Height hd) b).

(** *** Raw headers *)

Definition raw_Serialization (self : RawHeader) : ST ZeroCopySink unit := Sink.WriteBytes (r_Payload self).

Definition raw_deserializationUnsigned : ST ZeroCopySource Z :=
  do_ Source.Skip (4 + 32 * 3 + 4);
  do '(height, _) <- Source.NextUint32;
  do_ Source.Skip 8;
  do_ var_bytes_no_eof;
  do eof <- Source.Skip 20;
  if eof : bool then st_err ErrUnexpectedEOF else st_ret height.

Definition raw_Deserialization : ST ZeroCopySource RawHeader :=
  do start <- st_get;
  do height <- raw_deserializationUnsigned;
  do n <- var_uint_eof_first;
  do_ read_list var_bytes_eof_first (s64 n);
  do m <- var_uint_eof_first;
  do_ read_list var_bytes_eof_first (s64 m);
  do payload <- reread (Source.Pos start);
  st_ret (mkRaw height payload).

(** ** Blocks *)

Definition b_Serialization (b : Block) : ST ZeroCopySink unit :=
  do_ h_Serialization (b_Header b);
  do_ Sink.WriteUint32 (u32 (zlen (Transactions b)));
  write_all Tx.Serialization (Transactions b).

(** [mask] holds the hashes of the transactions read so far. *)
Fixpoint read_txs (fuel : nat) (length : Z) (mask : list Uint256) : ST ZeroCopySource (list Transaction) :=
  if length <=? 0 then st_ret []
  else match fuel with
       | O => st_panic
       | S f =>
           do tx <- Tx.Deserialization;
           let txhash := Tx.Hash tx in
           if bool_decide (txhash ∈ mask) then st_err "duplicated transaction in block"
           else do txs <- read_txs f (length - 1) (txhash :: mask); st_ret (tx :: txs)
       end.

Definition b_Deserialization : ST ZeroCopySource Block :=
  do header <- h_Deserialization;
  do '(length, eof) <- Source.NextUint32;
  if eof : bool then st_err ErrUnexpectedEOF
  else
    do self <- st_get;
    do txs <- read_txs (S (List.length (src_s self))) length [];
    do root <- st_lift (ComputeMerkleRoot (map Tx.Hash txs));
    if negb (bool_decide (TransactionsRoot header = root)) then st_err "mismatched transaction root"
    else st_ret (mkBlock header txs).

Definition BlockFromRawBytes (raw : list byte) : res Block :=
  let* '(b, _) := b_Deserialization (NewZeroCopySource raw) in Ok b.
Definition b_ToArray (b : Block) : res (list byte) := written (b_Serialization b).

Definition b_Hash (b : Block) : res (Uint256 * Block) := let* '(h, hd) := h_Hash (b_Header b) in Ok (h, mkBlock hd (Transactions b)).

Definition RebuildMerkleRoot (b : Block) : res Block :=
  let* hash := ComputeMerkleRoot (map Tx.Hash (Transactions b)) in
  let hd := b_Header b in
  Ok (mkBlock (mkHeader (h_Version hd) (PrevBlockHash hd) hash (BlockRoot hd) (Timestamp hd) (Height hd)
    (ConsensusData hd) (ConsensusPayload hd) (NextBookkeeper hd) (Bookkeepers hd) (SigData hd) (h_hash hd)) (Transactions b)).

(** ** Cross-chain messages *)

Record CrossChainMsg := mkCross { x_Version : byte; x_Height : Z; StatesRoot : Uint256; x_SigData : list (list byte); x_hash : option Uint256 }.

Definition x_serializationUnsigned (this : CrossChainMsg) : ST ZeroCopySink unit :=
  do_ Sink.WriteByte (x_Version this); do_ Sink.WriteUint32 (x_Height this); Sink.WriteBytes (StatesRoot this).
Definition x_Serialization (this : CrossChainMsg) : ST ZeroCopySink unit :=
  do_ x_serializationUnsigned this;
  do_ Sink.WriteVarUint (zlen (x_SigData this));
  write_all write_var_bytes (x_SigData this).

(** [make([][]byte, 0, sigLen)] panics when slices of 24 bytes each would not fit the address space of [2^48] bytes. *)
Definition make_slices (n : Z) : ST ZeroCopySource unit := if 2 ^ 48 <? n * 24 then st_panic else st_ret ().

Definition x_read_sig : ST ZeroCopySource (list byte) :=
  do '(v, _, irr, eof) <- Source.NextVarBytes;
  if irr || eof then st_err "CrossChainMsg, deserialization read sigData value error" else st_ret v.

Definition x_Deserialization : ST ZeroCopySource CrossChainMsg :=
  do '(version, eof) <- Source.NextByte;
  if eof : bool then st_err "CrossChainMsg, deserialization read version error" else
  do '(height, eof) <- Source.NextUint32;
  if eof : bool then st_err "CrossChainMsg, deserialization read height error" else
  do '(root, eof) <- Source.NextHash;
  if eof : bool then st_err "CrossChainMsg, deserialization read statesRoot error" else
  do '(sigLen, _, irr, eof) <- Source.NextVarUint;
  if irr || eof then st_err "CrossChainMsg, deserialization read sigData lenght error" else
  do_ make_slices sigLen;
  do sigData <- read_list x_read_sig (s64 sigLen);
  st_ret (mkCross version height root sigData None).

Definition x_Hash (this : CrossChainMsg) : res (Uint256 * CrossChainMsg) :=
  match x_hash this with
  | Some h => Ok (h, this)
  | None => let* b := written (x_serializationUnsigned this) in
            let h := sha256d b in Ok (h, mkCross (x_Version this) (x_Height this) (StatesRoot this) (x_SigData this) (Some h))
  end.
Definition SetHash (hash : Uint256) (this : CrossChainMsg) : CrossChainMsg :=
  mkCross (x_Version this) (x_Height this) (StatesRoot this) (x_SigData this) (Some hash).

End Ledger.
