(* ===== verification/Decode.v ===== *)
(** * Decoders that are exact

    A decoder is exact for a wire format when it accepts precisely the encodings of well-formed values: reading an
    encoding gives the value, and whatever is accepted was such an encoding.  The lemmas below give this for the readers of the
    ledger's types, which check the end of the input only at the end: once it has been passed, a later read reports it. *)

From S2P Require Import Prelude Codec LedgerTypes.

(** [took src bs src']: reading [bs] leads from [src] to [src']. *)
Record took (src : ZeroCopySource) (bs : list byte) (src' : ZeroCopySource) : Prop := mkTook {
  tk_wf : Source.wf src; tk_wf' : Source.wf src'; tk_s : src_s src' = src_s src; tk_rest : Source.rest src = bs ++ Source.rest src' }.

Lemma took_adv src bs c : Source.wf src -> Source.rest src = bs ++ c -> took src bs (Source.adv (zlen bs) src).
Proof. intros H Hr. destruct (rest_adv_app src bs c H Hr) as [W R]. constructor; [exact H | exact W | reflexivity | rewrite R; exact Hr]. Qed.

Lemma took_off src bs src' : took src bs src' -> src_off src' = src_off src + zlen bs.
Proof.
  intros [W W' S R]. apply (f_equal zlen) in R. rewrite zlen_app, !Source.zlen_rest, S in R by assumption. lia.
Qed.

Lemma took_eq src bs src' : took src bs src' -> src' = Source.adv (zlen bs) src.
Proof. intros T. pose proof (took_off _ _ _ T) as Ho. destruct T as [_ _ S _], src, src'. unfold Source.adv. cbn in *. congruence. Qed.

Lemma took_nil src : Source.wf src -> took src [] src.
Proof. intros H. constructor; auto. Qed.

Lemma took_trans src b1 s1 b2 s2 : took src b1 s1 -> took s1 b2 s2 -> took src (b1 ++ b2) s2.
Proof.
  intros [W1 W2 S1 R1] [_ W3 S2 R2]. constructor; [exact W1 | exact W3 | congruence | rewrite R1, R2, app_assoc; reflexivity].
Qed.

(** ** Readers only move forward *)

Definition fwd (src src' : ZeroCopySource) : Prop := Source.wf src' /\ src_s src' = src_s src /\ src_off src <= src_off src'.
Definition forward {A} (r : ST ZeroCopySource A) : Prop := forall src a src', Source.wf src -> r src = Ok (a, src') -> fwd src src'.

Lemma took_fwd src bs src' : took src bs src' -> fwd src src'.
Proof. intros T. pose proof (took_off _ _ _ T). pose proof (zlen_nonneg bs). destruct T. split; [assumption|]. split; [assumption | lia]. Qed.

Lemma fwd_more src src' : Source.wf src -> fwd src src' -> Source.rest src' <> [] -> Source.rest src <> [].
Proof.
  intros W (W' & S & O) Hr E. apply Hr. pose proof (Source.zlen_rest _ W) as L. pose proof (Source.zlen_rest _ W') as L'. rewrite E, zlen_nil in L. rewrite S in L'.
  destruct (Source.rest src') as [|x l] eqn:Er; [reflexivity|]. rewrite zlen_cons in L'. pose proof (zlen_nonneg l). lia.
Qed.

Lemma forward_safe {A} (r : ST ZeroCopySource A) : Source.safe r -> forward r.
Proof. intros H src a src' W E. destruct (H src W) as (a' & s & E' & W' & S & O). assert (s = src') as -> by congruence. split; [exact W' | split; [exact S | exact O]]. Qed.

Lemma forward_bind {A B} (c : ST ZeroCopySource A) (k : A -> ST ZeroCopySource B) : forward c -> (forall a, forward (k a)) -> forward (st_bind c k).
Proof.
  intros Hc Hk src b src' W E. apply st_bind_Ok in E as (a & s & E1 & E2). destruct (Hc _ _ _ W E1) as (W1 & S1 & O1).
  destruct (Hk _ _ _ _ W1 E2) as (W2 & S2 & O2). split; [exact W2|]. split; [congruence | lia].
Qed.
Lemma forward_ret {A} (a : A) : forward (st_ret a).
Proof. intros src x src' W [= _ <-]. split; [exact W | split; [reflexivity | lia]]. Qed.
Lemma forward_err {A} e : forward (A:=A) (st_err e).
Proof. intros src x src' W E. discriminate E. Qed.

(** ** At the end of the input *)

Ltac split_bind E x s := let E' := fresh E in apply st_bind_Ok in E as (x & s & E' & E).

Lemma NextBytes_end n src buf src' : Source.wf src -> is_u64 n -> Source.NextBytes n src = Ok ((buf, true), src') -> Source.rest src' = [].
Proof.
  intros W Hn E. rewrite Source.NextBytes_spec in E by assumption. destruct (n <=? _); [discriminate|]. injection E as _ <-.
  rewrite Source.rest_adv by (auto; apply zlen_nonneg). unfold zlen. rewrite Nat2Z.id. apply drop_ge. lia.
Qed.

Lemma NextUintN_end n src v src' : Source.wf src -> is_u64 n -> Source.NextUintN n src = Ok ((v, true), src') -> Source.rest src' = [].
Proof.
  intros W Hn E. unfold Source.NextUintN in E. apply st_bind_Ok in E as ([buf eof] & s & E1 & E). destruct eof; [|discriminate].
  injection E as _ <-. exact (NextBytes_end _ _ _ _ W Hn E1).
Qed.

Lemma NextByte_end src b src' : Source.wf src -> Source.NextByte src = Ok ((b, true), src') -> Source.rest src' = [].
Proof.
  intros W E. destruct (Source.rest src) as [|x l] eqn:Er; [rewrite (Source.NextByte_nil _ W Er) in E; injection E as _ <-; exact Er|].
  rewrite (Source.NextByte_cons _ _ _ W Er) in E. discriminate.
Qed.

Lemma small_u64 n : 0 <= n <= 256 -> is_u64 n. Proof. intros H. split; lia. Qed.
#[export] Hint Resolve small_u64 : go.

Lemma NextVarUint_end src v sz irr src' : Source.wf src -> Source.NextVarUint src = Ok ((v, sz, irr, true), src') -> Source.rest src' = [].
Proof.
  intros W E. unfold Source.NextVarUint in E. apply st_bind_Ok in E as ([fb eof] & s & E1 & E).
  destruct eof; [injection E as _ _ _ <-; exact (NextByte_end _ _ _ W E1)|]. destruct (forward_safe _ Source.safe_NextByte _ _ _ W E1) as (W1 & _).
  assert (Hw : forall n size, is_u64 n -> (do '(val, e) <- Source.NextUintN n; if e : bool then st_ret (0, 0, false, e) else st_ret (val, size, negb (size =? Source.getVarUintSize val), false)) s
    = Ok ((v, sz, irr, true), src') -> Source.rest src' = []).
  { intros n size Hn Ew. apply st_bind_Ok in Ew as ([val e] & s2 & E2 & Ew). destruct e; [|discriminate]. injection Ew as _ _ _ <-. exact (NextUintN_end _ _ _ _ W1 Hn E2). }
  repeat case_match; try discriminate; (eapply Hw; [|exact E]); apply small_u64; unfold UINT16_SIZE, UINT32_SIZE, UINT64_SIZE; lia.
Qed.

Lemma NextVarBytes_end src d sz irr src' : Source.wf src -> Source.NextVarBytes src = Ok ((d, sz, irr, true), src') -> Source.rest src' = [].
Proof.
  intros W E. unfold Source.NextVarBytes in E. apply st_bind_Ok in E as ([[[count size] ir] eof] & s & E1 & E).
  pose proof (Source.NextVarUint_range _ _ _ _ _ _ W E1) as Hc. destruct (forward_safe _ Source.safe_NextVarUint _ _ _ W E1) as (W1 & _).
  destruct (0 <? count).
  - apply st_bind_Ok in E as ([data e] & s2 & E2 & E). injection E as _ _ _ -> <-. exact (NextBytes_end _ _ _ _ W1 Hc E2).
  - injection E as _ _ _ -> <-. exact (NextVarUint_end _ _ _ _ _ W E1).
Qed.

(** ** Fields read with their [eof] ignored, when more follows *)

(** [r] returned [a] and the end of the input was not reached. *)
Definition more (eof : bool) (src' : ZeroCopySource) : Prop := eof = false \/ Source.rest src' <> [].

Lemma byte_took src b eof src' : Source.wf src -> Source.NextByte src = Ok ((b, eof), src') -> more eof src' -> took src [b] src'.
Proof.
  intros W E Hm. destruct eof; [destruct Hm as [Hm|Hm]; [discriminate | contradiction (Hm (NextByte_end _ _ _ W E))]|].
  apply NextByte_Ok_inv in E as (c & Hr & ->); [|exact W]. exact (took_adv src [b] c W Hr).
Qed.

Lemma bytes_took n src buf eof src' : Source.wf src -> is_u64 n -> Source.NextBytes n src = Ok ((buf, eof), src') -> more eof src' -> took src buf src' /\ zlen buf = n.
Proof.
  intros W Hn E Hm. destruct eof; [destruct Hm as [Hm|Hm]; [discriminate | contradiction (Hm (NextBytes_end _ _ _ _ W Hn E))]|].
  apply NextBytes_Ok_inv in E as (c & Hr & Hl & ->); [|exact W|exact Hn]. split; [|exact Hl]. rewrite <- Hl. exact (took_adv src buf c W Hr).
Qed.

Lemma uint_took (n : nat) src v eof src' : Source.wf src -> (n <= 8)%nat -> Source.NextUintN (Z.of_nat n) src = Ok ((v, eof), src') -> more eof src' ->
  took src (z2le n v) src' /\ 0 <= v < 256 ^ Z.of_nat n.
Proof.
  intros W Hn E Hm. unfold Source.NextUintN in E. apply st_bind_Ok in E as ([buf e] & s & E1 & E).
  assert (e = eof /\ s = src') as [-> ->] by (destruct e; injection E as _ <- <-; split; reflexivity).
  assert (Hu : is_u64 (Z.of_nat n)) by (apply small_u64; lia). destruct (bytes_took _ _ _ _ _ W Hu E1 Hm) as [T L].
  destruct eof; [destruct Hm as [Hm|Hm]; [discriminate | contradiction (Hm (NextBytes_end _ _ _ _ W Hu E1))]|]. injection E as <-.
  pose proof (le2z_range buf) as Hr. fold (zlen buf) in Hr. rewrite L in Hr. split; [|exact Hr]. replace n with (length buf) by (unfold zlen in L; lia). rewrite z2le_le2z. exact T.
Qed.

Lemma array_took n src buf eof src' : Source.wf src -> is_u64 n -> Source.NextArray n src = Ok ((buf, eof), src') -> more eof src' -> took src buf src' /\ zlen buf = n.
Proof.
  intros W Hn E Hm. unfold Source.NextArray in E. apply st_bind_Ok in E as ([b e] & s & E1 & E).
  assert (e = eof /\ s = src') as [-> ->] by (destruct e; injection E as _ <- <-; split; reflexivity).
  destruct (bytes_took _ _ _ _ _ W Hn E1 Hm) as [T L].
  destruct eof; [destruct Hm as [Hm|Hm]; [discriminate | contradiction (Hm (NextBytes_end _ _ _ _ W Hn E1))]|]. injection E as <-. split; assumption.
Qed.

Lemma took_length src bs src' : took src bs src' -> zlen bs < 2 ^ 63.
Proof.
  intros [[Ho Hl] _ _ Hr]. pose proof (zlen_nonneg (Source.rest src')). apply (f_equal zlen) in Hr. rewrite zlen_app in Hr.
  unfold Source.rest, zlen in *. rewrite length_drop in Hr. lia.
Qed.

Lemma enc_varbytes_length bs : zlen bs < zlen (enc_varbytes bs).
Proof. unfold enc_varbytes. rewrite zlen_app, zlen_enc_varuint. pose proof (getVarUintSize_bounds (zlen bs)). lia. Qed.

Lemma var_bytes_took src d eof src' : Source.wf src -> var_bytes_no_eof src = Ok ((d, eof), src') -> more eof src' ->
  took src (enc_varbytes d) src' /\ zlen d < 2 ^ 63.
Proof.
  intros W E Hm. unfold var_bytes_no_eof in E. apply st_bind_Ok in E as ([[[data sz] irr] e] & s & E1 & E).
  destruct irr; [discriminate|]. injection E as -> -> ->.
  destruct eof; [destruct Hm as [Hm|Hm]; [discriminate | contradiction (Hm (NextVarBytes_end _ _ _ _ _ W E1))]|].
  apply NextVarBytes_canonical_enc in E1 as (c & Hr & ->); [|exact W]. pose proof (took_adv _ _ _ W Hr) as T. split; [exact T|].
  pose proof (took_length _ _ _ T). pose proof (enc_varbytes_length d). lia.
Qed.

Lemma took_more eof s bs s' : took s bs s' -> 0 < zlen bs -> more eof s.
Proof. intros [_ _ _ R] Hl. right. rewrite R. destruct bs; [unfold zlen in Hl; cbn in Hl; lia | discriminate]. Qed.

Lemma forward_NextByte : forward Source.NextByte. Proof. apply forward_safe, Source.safe_NextByte. Qed.
Lemma forward_NextBytes n : is_u64 n -> forward (Source.NextBytes n). Proof. intros H. apply forward_safe, Source.safe_NextBytes, H. Qed.
Lemma forward_NextUintN n : is_u64 n -> forward (Source.NextUintN n). Proof. intros H. apply forward_safe, Source.safe_NextUintN, H. Qed.
Lemma forward_NextArray n : is_u64 n -> forward (Source.NextArray n). Proof. intros H. apply forward_safe, Source.safe_NextArray, H. Qed.
Lemma forward_var_bytes : forward var_bytes_no_eof.
Proof. apply forward_bind; [apply forward_safe, Source.safe_NextVarBytes|]. intros [[[d sz] [|]] e]; [apply forward_err | apply forward_ret]. Qed.

(** ** Exact decoders *)

Record exact_decoder {A} (r : ST ZeroCopySource A) (enc : A -> list byte) (ok : A -> Prop) : Prop := mkExact {
  ex_in : forall a, ok a -> parses r a (enc a);
  ex_out : forall src a src', Source.wf src -> r src = Ok (a, src') -> took src (enc a) src' /\ ok a }.

Definition short (d : list byte) : Prop := zlen d < 2 ^ 63.

Lemma parses_var_bytes d : short d -> parses var_bytes_no_eof (d, false) (enc_varbytes d).
Proof. intros H. eapply parses_bind'; [apply parses_NextVarBytes, H|]. cbn beta iota. apply parses_ret. Qed.

Lemma exact_var_bytes : exact_decoder var_bytes_eof_first enc_varbytes short.
Proof.
  split.
  - intros d H. eapply parses_bind'; [apply parses_NextVarBytes, H|]. cbn beta iota. apply parses_ret.
  - intros src d src' W E. unfold var_bytes_eof_first in E. apply st_bind_Ok in E as ([[[data sz] irr] e] & s & E1 & E).
    destruct e; [discriminate|]. destruct irr; [discriminate|]. injection E as -> ->.
    apply (var_bytes_took src d false src' W); [|left; reflexivity]. unfold var_bytes_no_eof. rewrite (st_bind_eq _ _ _ _ _ E1). reflexivity.
Qed.

Lemma var_uint_out src v sz src' : Source.wf src -> Source.NextVarUint src = Ok ((v, sz, false, false), src') -> took src (enc_varuint v) src' /\ is_u64 v.
Proof.
  intros W E. pose proof (Source.NextVarUint_range _ _ _ _ _ _ W E) as Hv. apply NextVarUint_canonical_enc in E as (c & Hr & ->); [|exact W].
  split; [exact (took_adv _ _ _ W Hr) | exact Hv].
Qed.

Lemma exact_var_uint_eof : exact_decoder var_uint_eof_first enc_varuint is_u64.
Proof.
  split.
  - intros v H. eapply parses_bind'; [apply parses_NextVarUint, H|]. cbn beta iota. apply parses_ret.
  - intros src v src' W E. apply st_bind_Ok in E as ([[[n sz] irr] e] & s & E1 & E).
    destruct e; [discriminate|]. destruct irr; [discriminate|]. injection E as -> ->. exact (var_uint_out _ _ _ _ W E1).
Qed.

Lemma exact_var_uint_irr : exact_decoder var_uint_irregular_first enc_varuint is_u64.
Proof.
  split.
  - intros v H. eapply parses_bind'; [apply parses_NextVarUint, H|]. cbn beta iota. apply parses_ret.
  - intros src v src' W E. apply st_bind_Ok in E as ([[[n sz] irr] e] & s & E1 & E).
    destruct irr; [discriminate|]. destruct e; [discriminate|]. injection E as -> ->. exact (var_uint_out _ _ _ _ W E1).
Qed.

(** ** Lists *)

Section Lists.
Context {A : Type} {r : ST ZeroCopySource A} {enc : A -> list byte} {ok : A -> Prop}.
Hypothesis Hpos : forall a, ok a -> 0 < zlen (enc a).

Section Reading.
Hypothesis Hin : forall a, ok a -> parses r a (enc a).

Lemma read_n_in fuel l : (length l <= fuel)%nat -> Forall ok l -> parses (read_n fuel r (zlen l)) l (flat_map enc l).
Proof.
  revert l. induction fuel as [|f IH]; intros [|a l] Hl Hok; try (cbn in Hl; lia).
  - apply parses_ret.
  - apply parses_ret.
  - inversion Hok; subst. cbn [read_n flat_map]. rewrite zlen_cons. pose proof (zlen_nonneg l). rewrite (proj2 (Z.leb_gt (1 + zlen l) 0)) by lia.
    eapply parses_bind; [apply Hin; assumption|]. cbn beta. replace (1 + zlen l - 1) with (zlen l) by lia.
    eapply parses_bind'; [apply IH; [cbn in Hl; lia | assumption] | apply parses_ret].
Qed.

Lemma flat_map_long l : Forall ok l -> zlen l <= zlen (flat_map enc l).
Proof. induction 1 as [|a l Ha _ IH]; cbn [flat_map]; [unfold zlen; cbn; lia|]. rewrite zlen_cons, zlen_app. specialize (Hpos a Ha). lia. Qed.

Lemma read_list_in l : Forall ok l -> parses (read_list r (zlen l)) l (flat_map enc l).
Proof.
  intros Hok src c W Hr. unfold read_list. rewrite (st_bind_eq st_get _ _ _ _ eq_refl). cbn beta. apply (read_n_in _ l) with (c := c); [|exact Hok|exact W|exact Hr].
  pose proof (flat_map_long l Hok) as Hf. pose proof (Source.zlen_rest _ W) as Hz. rewrite Hr, zlen_app in Hz. pose proof (zlen_nonneg c). destruct W as [Ho _]. unfold zlen in *. lia.
Qed.
End Reading.

Hypothesis Hex : exact_decoder r enc ok.

Lemma read_n_out fuel : forall n src l src', Source.wf src -> read_n fuel r n src = Ok (l, src') -> took src (flat_map enc l) src' /\ Forall ok l /\ zlen l = Z.max 0 n.
Proof.
  induction fuel as [|f IH]; intros n src l src' W E; cbn [read_n] in E; (destruct (Z.leb_spec n 0) as [Hn|Hn];
    [injection E as <- <-; split; [apply took_nil, W | split; [constructor | rewrite zlen_nil; lia]]|]); [discriminate|].
  apply st_bind_Ok in E as (a & s & E1 & E). destruct (ex_out _ _ _ Hex _ _ _ W E1) as [T Ha].
  apply st_bind_Ok in E as (l' & s' & E2 & E). injection E as <- <-. destruct (IH _ _ _ _ (tk_wf' _ _ _ T) E2) as (T' & Hl & Hz).
  cbn [flat_map]. split; [exact (took_trans _ _ _ _ _ T T')|]. split; [constructor; assumption | rewrite zlen_cons; lia].
Qed.

Lemma read_list_out n src l src' : Source.wf src -> read_list r n src = Ok (l, src') -> took src (flat_map enc l) src' /\ Forall ok l /\ zlen l = Z.max 0 n.
Proof. intros W E. unfold read_list in E. rewrite (st_bind_eq st_get _ _ _ _ eq_refl) in E. exact (read_n_out _ _ _ _ _ W E). Qed.
End Lists.

(** ** Reading again what has been read *)

Lemma reread_took src bs src' : took src bs src' -> reread (src_off src) src' = Ok (bs, src').
Proof.
  intros T. pose proof (took_off _ _ _ T) as Ho. pose proof (zlen_nonneg bs). pose proof (took_length _ _ _ T). destruct T as [W W' S R].
  unfold reread, st_get, Source.BackUp, Source.Pos. unfold st_bind. cbn beta iota zeta. rewrite Ho.
  replace (src_off src + zlen bs - src_off src) with (zlen bs) by lia. rewrite (u64_small (zlen bs)) by words.
  replace (src_off src + zlen bs - zlen bs) with (src_off src) by lia. rewrite u64_small by (destruct W; words).
  assert (Hs : mkSource (src_s src') (src_off src) = src) by (rewrite S; destruct src; reflexivity). rewrite Hs.
  rewrite (parses_NextBytes bs ltac:(words) src _ W R). cbn. rewrite <- (took_eq src bs src') by (constructor; assumption). reflexivity.
Qed.

(** ** No panic on any input *)

Definition no_panic {A} (r : ST ZeroCopySource A) : Prop := forward r /\ forall src, Source.wf src -> r src <> Panic.

Lemma np_safe {A} (r : ST ZeroCopySource A) : Source.safe r -> no_panic r.
Proof. intros H. split; [apply forward_safe, H|]. intros src W. destruct (H src W) as (a & s & E & _). rewrite E. discriminate. Qed.
Lemma np_ret {A} (a : A) : no_panic (st_ret a). Proof. split; [apply forward_ret | intros; discriminate]. Qed.
Lemma np_err {A} e : no_panic (A:=A) (st_err e). Proof. split; [apply forward_err | intros; discriminate]. Qed.
Lemma np_bind {A B} (c : ST ZeroCopySource A) (k : A -> ST ZeroCopySource B) : no_panic c -> (forall a, no_panic (k a)) -> no_panic (st_bind c k).
Proof.
  intros [F1 N1] Hk. split; [apply forward_bind; [exact F1 | intros a; apply Hk]|]. intros src W. unfold st_bind. specialize (N1 src W).
  destruct (c src) as [[a s]| |] eqn:E; [|discriminate|contradiction]. apply (Hk a). exact (proj1 (F1 _ _ _ W E)).
Qed.
Lemma np_if {A} (b : bool) (r1 r2 : ST ZeroCopySource A) : no_panic r1 -> no_panic r2 -> no_panic (if b then r1 else r2).
Proof. destruct b; auto. Qed.
Lemma np_lift {A} (x : res A) : x <> Panic -> no_panic (st_lift x).
Proof.
  intros H. split.
  - intros src a s W E. unfold st_lift in E. destruct x; try discriminate. injection E as _ <-. split; [exact W | split; [reflexivity | lia]].
  - intros src W. unfold st_lift. destruct x; [discriminate | discriminate | contradiction].
Qed.

Lemma np_byte : no_panic Source.NextByte. Proof. apply np_safe, Source.safe_NextByte. Qed.
Lemma np_uint n : is_u64 n -> no_panic (Source.NextUintN n). Proof. intros H. apply np_safe, Source.safe_NextUintN, H. Qed.
Lemma np_bytes n : is_u64 n -> no_panic (Source.NextBytes n). Proof. intros H. apply np_safe, Source.safe_NextBytes, H. Qed.
Lemma np_array n : is_u64 n -> no_panic (Source.NextArray n). Proof. intros H. apply np_safe, Source.safe_NextArray, H. Qed.
Lemma np_var_bytes : no_panic Source.NextVarBytes. Proof. apply np_safe, Source.safe_NextVarBytes. Qed.
Lemma np_var_uint : no_panic Source.NextVarUint. Proof. apply np_safe, Source.safe_NextVarUint. Qed.
Create HintDb np.
#[export] Hint Resolve np_byte np_var_bytes np_var_uint np_ret np_err : np.
#[export] Hint Extern 1 (no_panic (Source.NextUint32)) => (apply np_uint; apply small_u64; unfold UINT32_SIZE; lia) : np.
#[export] Hint Extern 1 (no_panic (Source.NextUint64)) => (apply np_uint; apply small_u64; unfold UINT64_SIZE; lia) : np.
#[export] Hint Extern 1 (no_panic (Source.NextHash)) => (apply np_array; apply small_u64; unfold UINT256_SIZE; lia) : np.
#[export] Hint Extern 1 (no_panic (Source.NextAddress)) => (apply np_array; apply small_u64; unfold ADDR_LEN; lia) : np.
#[export] Hint Extern 1 (no_panic (Source.NextBytes ADDR_LEN)) => (apply np_bytes; apply small_u64; unfold ADDR_LEN; lia) : np.

(** Sequences of readers, with tuples taken apart. *)
Ltac np_steps := repeat first [progress auto with np | apply np_if | apply np_bind; [|intros ?] | match goal with |- no_panic (let (_, _) := ?p in _) => destruct p end].

Lemma np_var_bytes_eof : no_panic var_bytes_eof_first. Proof. unfold var_bytes_eof_first. np_steps. Qed.
Lemma np_var_bytes_no_eof : no_panic var_bytes_no_eof. Proof. unfold var_bytes_no_eof. np_steps. Qed.
Lemma np_var_uint_eof : no_panic var_uint_eof_first. Proof. unfold var_uint_eof_first. np_steps. Qed.
Lemma np_var_uint_irr : no_panic var_uint_irregular_first. Proof. unfold var_uint_irregular_first. np_steps. Qed.
#[export] Hint Resolve np_var_bytes_eof np_var_bytes_no_eof np_var_uint_eof np_var_uint_irr : np.

(** A reader that takes at least one byte. *)
Definition takes {A} (r : ST ZeroCopySource A) : Prop := forall src a src', Source.wf src -> r src = Ok (a, src') -> zlen (Source.rest src') < zlen (Source.rest src).

Lemma takes_exact {A} (r : ST ZeroCopySource A) enc ok : exact_decoder r enc ok -> (forall a, ok a -> 0 < zlen (enc a)) -> takes r.
Proof.
  intros Hex Hpos src a s W E. destruct (ex_out _ _ _ Hex _ _ _ W E) as [T Ha]. specialize (Hpos a Ha). pose proof (f_equal zlen (tk_rest _ _ _ T)) as Hz. rewrite zlen_app in Hz. lia.
Qed.

Lemma read_n_forward {A} (r : ST ZeroCopySource A) fuel : forward r -> forall n, forward (read_n fuel r n).
Proof.
  intros F. induction fuel as [|f IH]; intros n; cbn [read_n]; destruct (n <=? 0); try apply forward_ret; [intros src a s W E; discriminate E|].
  apply forward_bind; [exact F|]. intros a. apply forward_bind; [apply IH|]. intros l. apply forward_ret.
Qed.

(** The fuel is enough: each element takes a byte. *)
Lemma read_n_no_panic {A} (r : ST ZeroCopySource A) fuel : no_panic r -> takes r -> forall n src, Source.wf src -> zlen (Source.rest src) < Z.of_nat fuel -> read_n fuel r n src <> Panic.
Proof.
  intros [F N] Ht. induction fuel as [|f IH]; intros n src W Hf; [pose proof (zlen_nonneg (Source.rest src)); lia|]. cbn [read_n]. destruct (n <=? 0); [discriminate|].
  unfold st_bind at 1. specialize (N src W). destruct (r src) as [[a s]| |] eqn:E; [|discriminate|contradiction]. pose proof (Ht _ _ _ W E).
  specialize (IH (n - 1) s (proj1 (F _ _ _ W E)) ltac:(lia)). unfold st_bind. destruct (read_n f r (n - 1) s) as [[l s']| |]; [discriminate | discriminate | contradiction].
Qed.

Lemma rest_short src : Source.wf src -> zlen (Source.rest src) < Z.of_nat (S (length (src_s src))).
Proof. intros W. rewrite (Source.zlen_rest _ W). destruct W as [Ho _]. unfold zlen in *. lia. Qed.

Lemma np_get {A} (k : ZeroCopySource -> ST ZeroCopySource A) : (forall src, Source.wf src -> forward (k src) /\ k src src <> Panic) -> no_panic (st_bind st_get k).
Proof.
  intros H. split.
  - intros src a s W E. rewrite (st_bind_eq st_get _ _ _ _ eq_refl) in E. exact (proj1 (H src W) _ _ _ W E).
  - intros src W. rewrite (st_bind_eq st_get _ _ _ _ eq_refl). exact (proj2 (H src W)).
Qed.

Lemma np_read_list {A} (r : ST ZeroCopySource A) n : no_panic r -> takes r -> no_panic (read_list r n).
Proof.
  intros Hr Ht. apply np_get. intros src W. split; [apply read_n_forward, (proj1 Hr)|]. apply read_n_no_panic; auto using rest_short.
Qed.

Lemma fwd_took src s : Source.wf src -> fwd src s -> exists bs, took src bs s.
Proof.
  intros W (W' & S & O). exists (take (Z.to_nat (src_off s - src_off src)) (Source.rest src)). constructor; auto. unfold Source.rest. rewrite S.
  destruct W as [Ho _]. replace (Z.to_nat (src_off s)) with (Z.to_nat (src_off src) + Z.to_nat (src_off s - src_off src))%nat by lia. rewrite <- drop_drop, take_drop. reflexivity.
Qed.

(** Reading again from where a reader started. *)
Lemma reread_fwd src s : Source.wf src -> fwd src s -> exists bs, reread (src_off src) s = Ok (bs, s).
Proof. intros W F. destruct (fwd_took src s W F) as (bs & T). exists bs. exact (reread_took _ _ _ T). Qed.
