(* ===== verification/LedgerCodec.v ===== *)
(** * Exactness of the ledger's decoders

    Payloads, signatures, transactions and the signed part of headers: each decoder accepts exactly the encodings of
    well-formed values; what follows the signed part of a header is read back when it was written by the node. *)

From S2P Require Import Prelude Codec Merkle LedgerTypes Decode.

(** ** Payloads *)

Definition invoke_wire (p : InvokeCode) : list byte := enc_varbytes (i_Code p).
Definition invoke_ok (p : InvokeCode) : Prop := short (i_Code p).

Lemma exact_invoke : exact_decoder Payload.Invoke_Deserialization invoke_wire invoke_ok.
Proof.
  split.
  - intros [c] H. eapply parses_bind'; [exact (ex_in _ _ _ exact_var_bytes c H) | apply parses_ret].
  - intros src p src' W E. apply st_bind_Ok in E as (c & s & E1 & E). injection E as <- <-. exact (ex_out _ _ _ exact_var_bytes _ _ _ W E1).
Qed.

Definition deploy_wire (dc : DeployCode) : list byte :=
  enc_varbytes (code dc) ++ [vmFlags dc] ++ enc_varbytes (Name dc) ++ enc_varbytes (d_Version dc) ++ enc_varbytes (Author dc) ++
  enc_varbytes (Email dc) ++ enc_varbytes (Description dc).
Definition deploy_ok (dc : DeployCode) : Prop := Payload.validateDeployCode dc = Ok ().

Lemma guard_Ok b e u : guard b e = Ok u -> b = true.
Proof. unfold guard. destruct b; [reflexivity | discriminate]. Qed.

Lemma deploy_ok_short dc : deploy_ok dc ->
  short (code dc) /\ short (Name dc) /\ short (d_Version dc) /\ short (Author dc) /\ short (Email dc) /\ short (Description dc).
Proof.
  intros H. unfold deploy_ok, Payload.validateDeployCode in H. repeat (apply res_bind_Ok in H as (? & ? & H)).
  repeat match goal with G : guard _ _ = Ok _ |- _ => apply guard_Ok in G end. unfold short, Payload.maxWasmCodeSize in *. destruct (_ =? Payload.WASMVM_TYPE);
  repeat split; lia.
Qed.

Lemma enc_varbytes_pos d : 0 < zlen (enc_varbytes d). Proof. pose proof (enc_varbytes_length d). pose proof (zlen_nonneg d). lia. Qed.
Lemma enc_varuint_pos v : 0 < zlen (enc_varuint v). Proof. rewrite zlen_enc_varuint. pose proof (getVarUintSize_bounds v). lia. Qed.

Lemma exact_deploy : exact_decoder Payload.Deploy_Deserialization deploy_wire deploy_ok.
Proof.
  split.
  - intros dc H. destruct (deploy_ok_short dc H) as (S1 & S2 & S3 & S4 & S5 & S6). unfold Payload.Deploy_Deserialization, deploy_wire.
    eapply parses_bind; [apply parses_var_bytes, S1|]. eapply parses_bind; [apply parses_NextByte|].
    eapply parses_bind; [apply parses_var_bytes, S2|]. eapply parses_bind; [apply parses_var_bytes, S3|].
    eapply parses_bind; [apply parses_var_bytes, S4|]. eapply parses_bind; [apply parses_var_bytes, S5|].
    eapply parses_bind'; [apply parses_var_bytes, S6|]. cbn beta iota zeta. destruct dc. cbn in *. unfold deploy_ok in H. rewrite H. intros src c W R. rewrite zlen_nil, Source.adv_0. reflexivity.
  - intros src dc src' W E. unfold Payload.Deploy_Deserialization in E.
    apply st_bind_Ok in E as ([c e1] & s1 & E1 & E). pose proof (proj1 (forward_var_bytes _ _ _ W E1)) as W1.
    apply st_bind_Ok in E as ([f e2] & s2 & E2 & E). pose proof (proj1 (forward_NextByte _ _ _ W1 E2)) as W2.
    apply st_bind_Ok in E as ([n e3] & s3 & E3 & E). pose proof (proj1 (forward_var_bytes _ _ _ W2 E3)) as W3.
    apply st_bind_Ok in E as ([v e4] & s4 & E4 & E). pose proof (proj1 (forward_var_bytes _ _ _ W3 E4)) as W4.
    apply st_bind_Ok in E as ([a e5] & s5 & E5 & E). pose proof (proj1 (forward_var_bytes _ _ _ W4 E5)) as W5.
    apply st_bind_Ok in E as ([m e6] & s6 & E6 & E). pose proof (proj1 (forward_var_bytes _ _ _ W5 E6)) as W6.
    apply st_bind_Ok in E as ([d e7] & s7 & E7 & E). destruct e7; [discriminate|].
    apply st_bind_Ok in E as ([] & s8 & E8 & E). injection E as <- <-. unfold st_lift in E8.
    destruct (Payload.validateDeployCode _) as [[]| |] eqn:Ev; try discriminate E8. injection E8 as <-.
    pose proof (proj1 (var_bytes_took _ _ _ _ W6 E7 (or_introl eq_refl))) as T7.
    pose proof (proj1 (var_bytes_took _ _ _ _ W5 E6 (took_more _ _ _ _ T7 (enc_varbytes_pos _)))) as T6.
    pose proof (proj1 (var_bytes_took _ _ _ _ W4 E5 (took_more _ _ _ _ T6 (enc_varbytes_pos _)))) as T5.
    pose proof (proj1 (var_bytes_took _ _ _ _ W3 E4 (took_more _ _ _ _ T5 (enc_varbytes_pos _)))) as T4.
    pose proof (proj1 (var_bytes_took _ _ _ _ W2 E3 (took_more _ _ _ _ T4 (enc_varbytes_pos _)))) as T3.
    pose proof (byte_took _ _ _ _ W1 E2 (took_more _ _ _ _ T3 (enc_varbytes_pos _))) as T2.
    pose proof (proj1 (var_bytes_took _ _ _ _ W E1 (took_more e1 _ [f] _ T2 ltac:(reflexivity)))) as T1.
    split; [|exact Ev]. unfold deploy_wire. cbn [code vmFlags Name d_Version Author Email Description]. repeat (eapply took_trans; [eassumption|]). exact T7.
Qed.

(** ** Transactions *)

Definition sig_wire (s : RawSig) : list byte := enc_varbytes (Invoke s) ++ enc_varbytes (Verify s).
Definition sig_ok (s : RawSig) : Prop := short (Invoke s) /\ short (Verify s).

Lemma exact_sig : exact_decoder Tx.RawSig_Deserialization sig_wire sig_ok.
Proof.
  split.
  - intros [i v] [H1 H2]. eapply parses_bind; [apply parses_var_bytes, H1|]. eapply parses_bind'; [apply parses_var_bytes, H2 | apply parses_ret].
  - intros src s src' W E. apply st_bind_Ok in E as ([i e1] & s1 & E1 & E). pose proof (proj1 (forward_var_bytes _ _ _ W E1)) as W1.
    apply st_bind_Ok in E as ([v e2] & s2 & E2 & E). destruct e2; [discriminate|]. injection E as <- <-.
    destruct (var_bytes_took _ _ _ _ W1 E2 (or_introl eq_refl)) as [T2 L2].
    destruct (var_bytes_took _ _ _ _ W E1 (took_more _ _ _ _ T2 (enc_varbytes_pos _))) as [T1 L1].
    split; [exact (took_trans _ _ _ _ _ T1 T2) | split; assumption].
Qed.

Definition payload_wire (p : PayloadT) : list byte := match p with PInvoke p => invoke_wire p | PDeploy p => deploy_wire p end.
(** The payload is of the kind that the type of the transaction says. *)
Definition payload_ok (ty : byte) (p : PayloadT) : Prop :=
  match p with
  | PInvoke p => (bz ty = Tx.InvokeNeo \/ bz ty = Tx.InvokeWasm) /\ invoke_ok p
  | PDeploy p => bz ty = Tx.Deploy /\ deploy_ok p
  end.

Lemma exact_payload ty : exact_decoder (Tx.read_payload ty) payload_wire (payload_ok ty).
Proof.
  split.
  - intros [p|p] [Ht Hp]; unfold Tx.read_payload; cbn [payload_wire].
    + replace ((bz ty =? Tx.InvokeNeo) || (bz ty =? Tx.InvokeWasm)) with true by (symmetry; apply orb_true_iff; rewrite !Z.eqb_eq; exact Ht).
      eapply parses_bind'; [exact (ex_in _ _ _ exact_invoke p Hp) | apply parses_ret].
    + rewrite Ht. cbn. eapply parses_bind'; [exact (ex_in _ _ _ exact_deploy p Hp) | apply parses_ret].
  - intros src p src' W E. unfold Tx.read_payload in E. destruct (_ || _) eqn:Ei.
    + apply orb_true_iff in Ei. rewrite !Z.eqb_eq in Ei. apply st_bind_Ok in E as (q & s & E1 & E). injection E as <- <-.
      destruct (ex_out _ _ _ exact_invoke _ _ _ W E1) as [T Hq]. split; [exact T | split; assumption].
    + destruct (Z.eqb_spec (bz ty) Tx.Deploy) as [Ed|]; [|discriminate]. apply st_bind_Ok in E as (q & s & E1 & E). injection E as <- <-.
      destruct (ex_out _ _ _ exact_deploy _ _ _ W E1) as [T Hq]. split; [exact T | split; assumption].
Qed.

Definition body_wire (b : TxBody) : list byte :=
  [t_Version b] ++ [TxType b] ++ z2le 4 (Nonce b) ++ z2le 8 (GasPrice b) ++ z2le 8 (GasLimit b) ++ Payer b ++ payload_wire (Payload_ b) ++ enc_varuint 0.
Record body_ok (b : TxBody) : Prop := mkBodyOk {
  bo_nonce : 0 <= Nonce b < 256 ^ 4; bo_price : 0 <= GasPrice b < 256 ^ 8; bo_limit : 0 <= GasLimit b < 256 ^ 8;
  bo_payer : zlen (Payer b) = 20; bo_payload : payload_ok (TxType b) (Payload_ b) }.

Lemma exact_body : exact_decoder Tx.deserializationUnsigned body_wire body_ok.
Proof.
  split.
  - intros b [H1 H2 H3 H4 H5]. unfold Tx.deserializationUnsigned, body_wire.
    eapply parses_bind; [apply parses_NextByte|]. eapply parses_bind; [apply parses_NextByte|].
    eapply parses_bind; [apply (parses_NextUintN 4); [lia | exact H1]|]. eapply parses_bind; [apply (parses_NextUintN 8); [lia | exact H2]|].
    eapply parses_bind; [apply (parses_NextUintN 8); [lia | exact H3]|].
    eapply parses_bind; [replace ADDR_LEN with (zlen (Payer b)) by (rewrite H4; reflexivity); apply parses_NextBytes; rewrite H4; words|]. cbn beta iota.
    eapply parses_bind; [exact (ex_in _ _ _ (exact_payload _) _ H5)|].
    eapply parses_bind'; [apply (ex_in _ _ _ exact_var_uint_irr 0); words|]. destruct b. apply parses_ret.
  - intros src b src' W E. unfold Tx.deserializationUnsigned in E. assert (U4 : is_u64 4) by words. assert (U8 : is_u64 8) by words. assert (U20 : is_u64 20) by words.
    apply st_bind_Ok in E as ([v e1] & s1 & E1 & E). pose proof (proj1 (forward_NextByte _ _ _ W E1)) as W1.
    apply st_bind_Ok in E as ([ty e2] & s2 & E2 & E). pose proof (proj1 (forward_NextByte _ _ _ W1 E2)) as W2.
    apply st_bind_Ok in E as ([n e3] & s3 & E3 & E). pose proof (proj1 (forward_NextUintN _ U4 _ _ _ W2 E3)) as W3.
    apply st_bind_Ok in E as ([p e4] & s4 & E4 & E). pose proof (proj1 (forward_NextUintN _ U8 _ _ _ W3 E4)) as W4.
    apply st_bind_Ok in E as ([l e5] & s5 & E5 & E). pose proof (proj1 (forward_NextUintN _ U8 _ _ _ W4 E5)) as W5.
    apply st_bind_Ok in E as ([a e6] & s6 & E6 & E). destruct e6; [discriminate|].
    destruct (bytes_took _ _ _ _ _ W5 U20 E6 (or_introl eq_refl)) as [T6 L6]. assert (P6 : 0 < zlen a) by lia.
    destruct (uint_took 8 _ _ _ _ W4 ltac:(lia) E5 (took_more _ _ _ _ T6 P6)) as [T5 R5].
    destruct (uint_took 8 _ _ _ _ W3 ltac:(lia) E4 (took_more _ _ _ _ T5 ltac:(reflexivity))) as [T4 R4].
    destruct (uint_took 4 _ _ _ _ W2 ltac:(lia) E3 (took_more _ _ _ _ T4 ltac:(reflexivity))) as [T3 R3].
    pose proof (byte_took _ _ _ _ W1 E2 (took_more _ _ _ _ T3 ltac:(reflexivity))) as T2.
    pose proof (byte_took _ _ _ _ W E1 (took_more e1 _ [ty] _ T2 ltac:(reflexivity))) as T1.
    apply st_bind_Ok in E as (pl & s7 & E7 & E). destruct (ex_out _ _ _ (exact_payload ty) _ _ _ (tk_wf' _ _ _ T6) E7) as [T7 Hp].
    apply st_bind_Ok in E as (len & s8 & E8 & E). destruct (ex_out _ _ _ exact_var_uint_irr _ _ _ (tk_wf' _ _ _ T7) E8) as [T8 _].
    destruct (Z.eqb_spec len 0) as [->|]; [|discriminate]. injection E as <- <-.
    split; [unfold body_wire; cbn [t_Version TxType Nonce GasPrice GasLimit Payer Payload_]; repeat (eapply took_trans; [eassumption|]); exact T8|].
    constructor; cbn; assumption.
Qed.

Definition tx_wire (b : TxBody) (sigs : list RawSig) : list byte := body_wire b ++ enc_varuint (zlen sigs) ++ flat_map sig_wire sigs.

Lemma parses_took {A} (r : ST ZeroCopySource A) a bs src src' : parses r a bs -> took src bs src' -> r src = Ok (a, src').
Proof. intros Hp T. rewrite (took_eq _ _ _ T). exact (Hp src _ (tk_wf _ _ _ T) (tk_rest _ _ _ T)). Qed.

Lemma took_split src b1 b2 : Source.wf src -> Source.rest src = b1 ++ b2 -> exists s, took src b1 s /\ Source.rest s = b2.
Proof. intros W R. exists (Source.adv (zlen b1) src). split; [exact (took_adv _ _ _ W R) | apply (rest_adv_app src b1 b2 W R)]. Qed.

Lemma sig_wire_pos s : sig_ok s -> 0 < zlen (sig_wire s).
Proof. intros _. unfold sig_wire. rewrite zlen_app. pose proof (enc_varbytes_pos (Invoke s)). pose proof (zlen_nonneg (enc_varbytes (Verify s))). lia. Qed.

Section Hashed.
Context {HH : Hashes}.

(** A transaction as decoding leaves it. *)
Record tx_ok (tx : Transaction) : Prop := mkTxOk {
  to_body : body_ok (t_body tx);
  to_sigs : Forall sig_ok (Sigs tx);
  to_count : zlen (Sigs tx) <= Tx.TX_MAX_SIG_SIZE;
  to_raw : Raw tx = tx_wire (t_body tx) (Sigs tx);
  to_hash : t_hash tx = sha256d (body_wire (t_body tx));
  to_size : zlen (Raw tx) <= Tx.MAX_TX_SIZE;
  to_fresh : SignedAddr tx = [];
  to_flag : nonDirectConstracted tx = true }.

Lemma exact_tx : exact_decoder Tx.Deserialization Raw tx_ok.
Proof.
  split.
  - intros tx H src c W R. destruct H as [Hb Hs Hc Hr Hh Hz Hf Hg]. destruct tx as [b sigs raw h sa fl]. cbn [t_body Sigs Raw t_hash SignedAddr nonDirectConstracted] in *. subst raw h sa fl.
    pose proof (took_eq _ _ _ (took_adv _ _ _ W R)) as Hadv. pose proof (took_adv _ _ _ W R) as TA.
    unfold tx_wire in R. rewrite <- !app_assoc in R. destruct (took_split _ _ _ W R) as (s1 & T1 & R1).
    destruct (took_split _ _ _ (tk_wf' _ _ _ T1) R1) as (s2 & T2 & R2). destruct (took_split _ _ _ (tk_wf' _ _ _ T2) R2) as (s3 & T3 & R3).
    pose proof (took_trans _ _ _ _ _ T1 (took_trans _ _ _ _ _ T2 T3)) as T. fold (tx_wire b sigs) in T.
    assert (Es : s3 = Source.adv (zlen (tx_wire b sigs)) src) by exact (took_eq _ _ _ T).
    unfold Tx.Deserialization. rewrite (st_bind_eq st_get _ _ _ _ eq_refl). cbn beta zeta.
    rewrite (st_bind_eq _ _ _ _ _ (parses_took _ _ _ _ _ (ex_in _ _ _ exact_body b Hb) T1)).
    rewrite (st_bind_eq _ _ _ _ _ (reread_took _ _ _ T1)). cbn beta zeta.
    assert (Hn : is_u64 (zlen sigs)) by (pose proof (zlen_nonneg sigs); unfold Tx.TX_MAX_SIG_SIZE in *; words).
    rewrite (st_bind_eq _ _ _ _ _ (parses_took _ _ _ _ _ (ex_in _ _ _ exact_var_uint_irr _ Hn) T2)).
    rewrite (proj2 (Z.ltb_ge Tx.TX_MAX_SIG_SIZE (zlen sigs))) by exact Hc. rewrite s64_small by (unfold Tx.TX_MAX_SIG_SIZE in *; pose proof (zlen_nonneg sigs); words).
    rewrite (st_bind_eq _ _ _ _ _ (parses_took _ _ _ _ _ (read_list_in sig_wire_pos (ex_in _ _ _ exact_sig) sigs Hs) T3)).
    rewrite (st_bind_eq st_get _ _ _ _ eq_refl). cbn beta zeta. unfold Source.Pos at 1. rewrite (took_off _ _ _ T).
    replace (src_off src + zlen (tx_wire b sigs) - Source.Pos src) with (zlen (tx_wire b sigs)) by (unfold Source.Pos; lia).
    pose proof (zlen_nonneg (tx_wire b sigs)). rewrite u64_small by (unfold Tx.MAX_TX_SIZE in *; words). rewrite (proj2 (Z.ltb_ge _ _)) by exact Hz.
    rewrite (st_bind_eq _ _ _ _ _ (reread_took _ _ _ T)). rewrite Es. reflexivity.
  - intros src tx src' W E. unfold Tx.Deserialization in E. rewrite (st_bind_eq st_get _ _ _ _ eq_refl) in E. cbn beta zeta in E.
    apply st_bind_Ok in E as (b & s1 & E1 & E). destruct (ex_out _ _ _ exact_body _ _ _ W E1) as [T1 Hb].
    unfold Source.Pos at 1 in E. rewrite (st_bind_eq _ _ _ _ _ (reread_took _ _ _ T1)) in E. cbn beta zeta in E.
    apply st_bind_Ok in E as (n & s2 & E2 & E). destruct (ex_out _ _ _ exact_var_uint_irr _ _ _ (tk_wf' _ _ _ T1) E2) as [T2 Hn].
    destruct (Z.ltb_spec Tx.TX_MAX_SIG_SIZE n) as [|Hle]; [discriminate|].
    apply st_bind_Ok in E as (sigs & s3 & E3 & E). destruct (read_list_out exact_sig _ _ _ _ (tk_wf' _ _ _ T2) E3) as (T3 & Hs & Hz).
    unfold Tx.TX_MAX_SIG_SIZE in Hle. rewrite s64_small in Hz by (destruct Hn; words). assert (n = zlen sigs) as -> by (destruct Hn; lia).
    pose proof (took_trans _ _ _ _ _ T1 (took_trans _ _ _ _ _ T2 T3)) as T. fold (tx_wire b sigs) in T.
    rewrite (st_bind_eq st_get _ _ _ _ eq_refl) in E. cbn beta zeta in E. unfold Source.Pos at 1 in E. rewrite (took_off _ _ _ T) in E.
    replace (src_off src + zlen (tx_wire b sigs) - Source.Pos src) with (zlen (tx_wire b sigs)) in E by (unfold Source.Pos; lia).
    pose proof (took_length _ _ _ T). pose proof (zlen_nonneg (tx_wire b sigs)). rewrite u64_small in E by words.
    destruct (Z.ltb_spec Tx.MAX_TX_SIZE (zlen (tx_wire b sigs))) as [|Hsz]; [discriminate|].
    unfold Source.Pos in E. rewrite (st_bind_eq _ _ _ _ _ (reread_took _ _ _ T)) in E. injection E as <- <-. split; [exact T|].
    constructor; cbn [t_body Sigs Raw t_hash SignedAddr nonDirectConstracted]; auto.
Qed.

Lemma raw_pos tx : tx_ok tx -> 0 < zlen (Raw tx).
Proof. intros H. rewrite (to_raw _ H). unfold tx_wire, body_wire. rewrite !zlen_app. pose proof (zlen_nonneg (flat_map sig_wire (Sigs tx))).
  pose proof (enc_varuint_pos (zlen (Sigs tx))). repeat match goal with |- context [zlen ?l] => pose proof (zlen_nonneg l); generalize dependent (zlen l); intros end. lia.
Qed.

End Hashed.

(** ** Headers and blocks on the wire *)

Section Ledger.
Context {HH : Hashes} {KP : Keypair}.

Definition hu_wire (h : Header) : list byte :=
  z2le 4 (h_Version h) ++ PrevBlockHash h ++ TransactionsRoot h ++ BlockRoot h ++ z2le 4 (Timestamp h) ++ z2le 4 (Height h) ++
  z2le 8 (ConsensusData h) ++ enc_varbytes (ConsensusPayload h) ++ NextBookkeeper h.

Record hu_ok (h : Header) : Prop := mkHuOk {
  ho_version : 0 <= h_Version h < 256 ^ 4; ho_prev : zlen (PrevBlockHash h) = 32; ho_txroot : zlen (TransactionsRoot h) = 32;
  ho_root : zlen (BlockRoot h) = 32; ho_time : 0 <= Timestamp h < 256 ^ 4; ho_height : 0 <= Height h < 256 ^ 4;
  ho_data : 0 <= ConsensusData h < 256 ^ 8; ho_payload : short (ConsensusPayload h); ho_next : zlen (NextBookkeeper h) = 20 }.

Definition bare (h : Header) : Prop := Bookkeepers h = [] /\ SigData h = [] /\ h_hash h = None.

Lemma parses_NextArray bs n : zlen bs = n -> is_u64 n -> parses (Source.NextArray n) (bs, false) bs.
Proof. intros <- Hn. eapply parses_bind'; [apply parses_NextBytes, Hn | apply parses_ret]. Qed.

Lemma exact_hu : exact_decoder h_deserializationUnsigned hu_wire (fun h => hu_ok h /\ bare h).
Proof.
  assert (U4 : is_u64 4) by words. assert (U8 : is_u64 8) by words. assert (U20 : is_u64 20) by words. assert (U32 : is_u64 32) by words. split.
  - intros h [[H1 H2 H3 H4 H5 H6 H7 H8 H9] (B1 & B2 & B3)]. unfold h_deserializationUnsigned, hu_wire.
    eapply parses_bind; [apply (parses_NextUintN 4); [lia | exact H1]|]. eapply parses_bind; [apply (parses_NextArray _ 32); assumption|].
    eapply parses_bind; [apply (parses_NextArray _ 32); assumption|]. eapply parses_bind; [apply (parses_NextArray _ 32); assumption|].
    eapply parses_bind; [apply (parses_NextUintN 4); [lia | exact H5]|]. eapply parses_bind; [apply (parses_NextUintN 4); [lia | exact H6]|].
    eapply parses_bind; [apply (parses_NextUintN 8); [lia | exact H7]|]. eapply parses_bind; [apply parses_var_bytes, H8|].
    eapply parses_bind'; [apply (parses_NextArray _ 20); assumption|]. cbn beta iota. destruct h as [? ? ? ? ? ? ? ? ? ks sg hs]. cbn in B1, B2, B3. subst. apply parses_ret.
  - intros src h src' W E. unfold h_deserializationUnsigned in E.
    apply st_bind_Ok in E as ([v1 e1] & s1 & E1 & E). pose proof (proj1 (forward_NextUintN _ U4 _ _ _ W E1)) as W1.
    apply st_bind_Ok in E as ([v2 e2] & s2 & E2 & E). pose proof (proj1 (forward_NextArray _ U32 _ _ _ W1 E2)) as W2.
    apply st_bind_Ok in E as ([v3 e3] & s3 & E3 & E). pose proof (proj1 (forward_NextArray _ U32 _ _ _ W2 E3)) as W3.
    apply st_bind_Ok in E as ([v4 e4] & s4 & E4 & E). pose proof (proj1 (forward_NextArray _ U32 _ _ _ W3 E4)) as W4.
    apply st_bind_Ok in E as ([v5 e5] & s5 & E5 & E). pose proof (proj1 (forward_NextUintN _ U4 _ _ _ W4 E5)) as W5.
    apply st_bind_Ok in E as ([v6 e6] & s6 & E6 & E). pose proof (proj1 (forward_NextUintN _ U4 _ _ _ W5 E6)) as W6.
    apply st_bind_Ok in E as ([v7 e7] & s7 & E7 & E). pose proof (proj1 (forward_NextUintN _ U8 _ _ _ W6 E7)) as W7.
    apply st_bind_Ok in E as ([v8 e8] & s8 & E8 & E). pose proof (proj1 (forward_var_bytes _ _ _ W7 E8)) as W8.
    apply st_bind_Ok in E as ([v9 e9] & s9 & E9 & E). destruct e9; [discriminate|]. injection E as <- <-.
    destruct (array_took _ _ _ _ _ W8 U20 E9 (or_introl eq_refl)) as [T9 L9].
    destruct (var_bytes_took _ _ _ _ W7 E8 (took_more _ _ _ _ T9 ltac:(lia))) as [T8 L8].
    destruct (uint_took 8 _ _ _ _ W6 ltac:(lia) E7 (took_more _ _ _ _ T8 (enc_varbytes_pos _))) as [T7 L7].
    destruct (uint_took 4 _ _ _ _ W5 ltac:(lia) E6 (took_more _ _ _ _ T7 ltac:(reflexivity))) as [T6 L6].
    destruct (uint_took 4 _ _ _ _ W4 ltac:(lia) E5 (took_more _ _ _ _ T6 ltac:(reflexivity))) as [T5 L5].
    destruct (array_took _ _ _ _ _ W3 U32 E4 (took_more _ _ _ _ T5 ltac:(reflexivity))) as [T4 L4].
    destruct (array_took _ _ _ _ _ W2 U32 E3 (took_more _ _ _ _ T4 ltac:(lia))) as [T3 L3].
    destruct (array_took _ _ _ _ _ W1 U32 E2 (took_more _ _ _ _ T3 ltac:(lia))) as [T2 L2].
    destruct (uint_took 4 _ _ _ _ W ltac:(lia) E1 (took_more _ _ _ _ T2 ltac:(lia))) as [T1 L1].
    split; [|split; [constructor; assumption | repeat split]].
    unfold hu_wire. cbn [h_Version PrevBlockHash TransactionsRoot BlockRoot Timestamp Height ConsensusData ConsensusPayload NextBookkeeper].
    repeat (eapply took_trans; [eassumption|]). exact T9.
Qed.

(** ** Keys and signatures *)

Definition key_wire (k : PublicKey) : list byte := enc_varbytes (SerializePublicKey k).
Definition header_wire (h : Header) : list byte :=
  hu_wire h ++ enc_varuint (zlen (Bookkeepers h)) ++ flat_map key_wire (Bookkeepers h) ++ enc_varuint (zlen (SigData h)) ++ flat_map enc_varbytes (SigData h).
Record header_ok (h : Header) : Prop := mkHOk {
  hk_u : hu_ok h; hk_keys : zlen (Bookkeepers h) < 2 ^ 63; hk_sigs : zlen (SigData h) < 2 ^ 63; hk_short : Forall short (SigData h); hk_hash : h_hash h = None }.

Lemma parses_pubkey k : parses read_pubkey k (key_wire k).
Proof.
  eapply parses_bind'; [apply (ex_in _ _ _ exact_var_bytes); pose proof (key_length k); unfold short; lia|]. cbn beta. rewrite key_roundtrip. apply parses_ret.
Qed.

Lemma key_wire_pos k : 0 < zlen (key_wire k). Proof. apply enc_varbytes_pos. Qed.

Lemma parses_keys l : parses (read_list read_pubkey (zlen l)) l (flat_map key_wire l).
Proof. apply (read_list_in (ok := fun _ => True) (fun k _ => key_wire_pos k) (fun k _ => parses_pubkey k)). apply Forall_true. auto. Qed.

Definition bare_of (h : Header) : Header := 
  mkHeader (h_Version h) (PrevBlockHash h) (TransactionsRoot h) (BlockRoot h) (Timestamp h) (Height h) (ConsensusData h) (ConsensusPayload h) (NextBookkeeper h) [] [] None.

Lemma hu_bare_of h : hu_ok h -> hu_ok (bare_of h) /\ bare (bare_of h).
Proof. intros []. split; [constructor; assumption | repeat split]. Qed.

Lemma parses_header h : header_ok h -> parses h_Deserialization h (header_wire h).
Proof.
  intros [Hu Hk Hs Hf Hh]. unfold h_Deserialization, header_wire. pose proof (zlen_nonneg (Bookkeepers h)). pose proof (zlen_nonneg (SigData h)).
  eapply parses_bind; [exact (ex_in _ _ _ exact_hu (bare_of h) (hu_bare_of h Hu))|].
  eapply parses_bind; [apply (ex_in _ _ _ exact_var_uint_eof); words|]. cbn beta. rewrite s64_small by words.
  eapply parses_bind; [apply parses_keys|]. eapply parses_bind; [apply (ex_in _ _ _ exact_var_uint_eof); words|]. cbn beta. rewrite s64_small by words.
  eapply parses_bind'; [apply (read_list_in (fun d _ => enc_varbytes_pos d) (ex_in _ _ _ exact_var_bytes)); exact Hf|].
  destruct h as [? ? ? ? ? ? ? ? ? ks sg hs]. cbn in Hh. subst. apply parses_ret.
Qed.

(** ** Raw headers *)

Lemma Skip_took src bs s : took src bs s -> Source.Skip (zlen bs) src = Ok (false, s).
Proof.
  intros T. rewrite (took_eq _ _ _ T). pose proof (took_length _ _ _ T). destruct T as [W _ _ R]. pose proof (zlen_nonneg bs).
  pose proof (Source.zlen_rest _ W) as Hz. rewrite R, zlen_app in Hz. pose proof (zlen_nonneg (Source.rest s)). destruct W as [Ho Hl].
  unfold Source.Skip. rewrite SafeAdd_ok by words. cbn [orb]. rewrite (proj2 (Z.ltb_ge _ _)) by lia. reflexivity.
Qed.

Lemma parses_Skip bs n : zlen bs = n -> parses (Source.Skip n) false bs.
Proof. intros <- src c W R. rewrite (Skip_took _ _ _ (took_adv _ _ _ W R)). reflexivity. Qed.

Lemma raw_unsigned_in h : hu_ok h -> parses raw_deserializationUnsigned (Height h) (hu_wire h).
Proof.
  intros [H1 H2 H3 H4 H5 H6 H7 H8 H9]. unfold raw_deserializationUnsigned, hu_wire.
  replace (z2le 4 (h_Version h) ++ _) with ((z2le 4 (h_Version h) ++ PrevBlockHash h ++ TransactionsRoot h ++ BlockRoot h ++ z2le 4 (Timestamp h)) ++
    z2le 4 (Height h) ++ z2le 8 (ConsensusData h) ++ enc_varbytes (ConsensusPayload h) ++ NextBookkeeper h) by (rewrite <- !app_assoc; reflexivity).
  eapply parses_bind; [apply parses_Skip; rewrite !zlen_app, H2, H3, H4, !zlen_z2le; reflexivity|].
  eapply parses_bind; [apply (parses_NextUintN 4); [lia | exact H6]|]. eapply parses_bind; [apply parses_Skip; rewrite zlen_z2le; reflexivity|].
  eapply parses_bind; [apply parses_var_bytes, H8|]. eapply parses_bind'; [apply parses_Skip; exact H9 | apply parses_ret].
Qed.

(** Reading keys and skipping them take the same bytes. *)
Lemma skip_keys fuel : forall n src keys src', read_n fuel read_pubkey n src = Ok (keys, src') -> exists bufs, read_n fuel var_bytes_eof_first n src = Ok (bufs, src').
Proof.
  induction fuel as [|f IH]; intros n src keys src' E; cbn [read_n] in *; (destruct (n <=? 0); [injection E as _ <-; eexists; reflexivity|]); [discriminate|].
  apply st_bind_Ok in E as (k & s1 & E1 & E). apply st_bind_Ok in E as (l & s2 & E2 & E). injection E as _ <-.
  unfold read_pubkey in E1. apply st_bind_Ok in E1 as (buf & s0 & E0 & E1). destruct (DeserializePublicKey buf); [|discriminate]. injection E1 as _ ->.
  destruct (IH _ _ _ _ E2) as (bufs & Eb). exists (buf :: bufs). rewrite (st_bind_eq _ _ _ _ _ E0), (st_bind_eq _ _ _ _ _ Eb). reflexivity.
Qed.

Lemma skip_key_list n src keys src' : read_list read_pubkey n src = Ok (keys, src') -> exists bufs, read_list var_bytes_eof_first n src = Ok (bufs, src').
Proof. unfold read_list. rewrite !(st_bind_eq st_get _ _ _ _ eq_refl). apply skip_keys. Qed.

(** What decoding a header has read: the signed part, and the rest. *)
Lemma header_out src h src' : Source.wf src -> h_Deserialization src = Ok (h, src') ->
  exists tl, took src (hu_wire h ++ tl) src' /\ hu_ok h /\ h_hash h = None /\ Forall short (SigData h) /\
    raw_Deserialization src = Ok (mkRaw (Height h) (hu_wire h ++ tl), src').
Proof.
  intros W E. unfold h_Deserialization in E.
  apply st_bind_Ok in E as (bd & s1 & E1 & E). destruct (ex_out _ _ _ exact_hu _ _ _ W E1) as [T1 [Hu Hb]].
  apply st_bind_Ok in E as (n & s2 & E2 & E). destruct (ex_out _ _ _ exact_var_uint_eof _ _ _ (tk_wf' _ _ _ T1) E2) as [T2 _].
  apply st_bind_Ok in E as (keys & s3 & E3 & E). destruct (skip_key_list _ _ _ _ E3) as (bufs & E3').
  destruct (read_list_out exact_var_bytes _ _ _ _ (tk_wf' _ _ _ T2) E3') as (T3 & _ & _).
  apply st_bind_Ok in E as (m & s4 & E4 & E). destruct (ex_out _ _ _ exact_var_uint_eof _ _ _ (tk_wf' _ _ _ T3) E4) as [T4 _].
  apply st_bind_Ok in E as (sigs & s5 & E5 & E). destruct (read_list_out exact_var_bytes _ _ _ _ (tk_wf' _ _ _ T4) E5) as (T5 & Hs & _).
  injection E as <- <-. pose proof (took_trans _ _ _ _ _ T2 (took_trans _ _ _ _ _ T3 (took_trans _ _ _ _ _ T4 T5))) as Tt.
  pose proof (took_trans _ _ _ _ _ T1 Tt) as T. destruct Hb as (_ & _ & Hh).
  eexists. split; [exact T|]. split; [destruct Hu; constructor; assumption|]. split; [exact Hh|]. split; [exact Hs|].
  unfold raw_Deserialization. rewrite (st_bind_eq st_get _ _ _ _ eq_refl).
  rewrite (st_bind_eq _ _ _ _ _ (parses_took _ _ _ _ _ (raw_unsigned_in bd Hu) T1)), (st_bind_eq _ _ _ _ _ E2), (st_bind_eq _ _ _ _ _ E3'),
    (st_bind_eq _ _ _ _ _ E4), (st_bind_eq _ _ _ _ _ E5). unfold Source.Pos. rewrite (st_bind_eq _ _ _ _ _ (reread_took _ _ _ T)). reflexivity.
Qed.

End Ledger.
