(* ===== verification/TxRoot.v ===== *)
(** * The root of a block's transactions

    [ComputeMerkleRoot] is total, and binds the list of transaction hashes: lists without repetition that need the same number of
    rounds have different roots, or SHA-256 has a collision.  With repetitions this fails, which is why decoding a block refuses them. *)

From S2P Require Import Prelude Codec Merkle LedgerTypes.

Section Root.
Context {HH : Hashes}.

Definition collision : Prop := exists x y : list byte, x <> y /\ sha256 x = sha256 y.

Lemma sha256d_inj x y : sha256d x = sha256d y -> x = y \/ collision.
Proof.
  intros E. destruct (decide (x = y)) as [|Hne]; [left; assumption|]. right. destruct (decide (sha256 x = sha256 y)) as [H|H]; [exists x, y; split; assumption|].
  exists (sha256 x), (sha256 y). split; assumption.
Qed.

Lemma sha256d_length x : zlen (sha256d x) = 32. Proof. apply sha256_length. Qed.

Definition hash_sized (l : list Uint256) : Prop := Forall (fun h => zlen h = 32) l.

(** ** Rounds *)

Lemma two_step {A} (P : list A -> Prop) : P [] -> (forall a, P [a]) -> (forall a b l, P l -> P (a :: b :: l)) -> forall l, P l.
Proof.
  intros H0 H1 H2 l. cut (P l /\ forall a, P (a :: l)); [tauto|]. induction l as [|x l [IH1 IH2]]; [split; [exact H0 | exact H1]|].
  split; [apply IH2|]. intros a. apply H2, IH1.
Qed.

Lemma level_length l : length (merkle_level l) = Nat.div2 (S (length l)).
Proof. revert l. refine (two_step _ _ _ _); [reflexivity | reflexivity|]. intros a b l IH. cbn [merkle_level length]. rewrite IH. reflexivity. Qed.

Lemma level_sized l : hash_sized (merkle_level l).
Proof. revert l. refine (two_step _ _ _ _); [constructor | intros a; repeat constructor; apply sha256d_length|]. intros a b l IH. constructor; [apply sha256d_length | exact IH]. Qed.

Lemma log2_up_half n : (2 <= n)%nat -> Nat.log2_up n = S (Nat.log2_up (Nat.div2 (S n))).
Proof.
  intros Hn. set (m := Nat.div2 (S n)). assert (Hm : (2 * m = n \/ 2 * m = S n)%nat).
  { pose proof (Nat.div2_odd (S n)) as H. fold m in H. destruct (Nat.odd (S n)); cbn [Nat.b2n] in H; lia. }
  destruct (decide (m = 1)%nat) as [E|E]; [rewrite E; replace n with 2%nat by lia; reflexivity|].
  destruct (Nat.log2_up_spec m ltac:(lia)) as [L U]. apply Nat.log2_up_unique; [lia|]. cbn [Nat.pred].
  rewrite Nat.pow_succ_r'. assert (Hp : (0 < Nat.log2_up m)%nat) by (apply Nat.log2_up_pos; lia).
  replace (Nat.log2_up m) with (S (Nat.pred (Nat.log2_up m))) at 1 by lia. rewrite Nat.pow_succ_r'. lia.
Qed.

(** The number of rounds. *)
Lemma rounds_iter fuel : forall l, l <> [] -> (Nat.log2_up (length l) <= fuel)%nat ->
  exists r, merkle_rounds fuel l = Ok r /\ Nat.iter (Nat.log2_up (length l)) merkle_level l = [r].
Proof.
  induction fuel as [|f IH]; intros l Hl Hf.
  - destruct l as [|a [|b l]]; [contradiction | exists a; split; reflexivity|]. exfalso. pose proof (Nat.log2_up_pos (length (a :: b :: l)) ltac:(cbn; lia)). lia.
  - destruct l as [|a [|b l]]; [contradiction | exists a; split; reflexivity|]. pose proof (log2_up_half (length (a :: b :: l)) ltac:(cbn; lia)) as Hh.
    rewrite <- level_length in Hh. destruct (IH (merkle_level (a :: b :: l)) ltac:(discriminate) ltac:(lia)) as (r & E & I).
    exists r. split; [exact E|]. rewrite Hh. rewrite Nat.iter_succ_r. exact I.
Qed.

Lemma ComputeMerkleRoot_ok l : exists r, ComputeMerkleRoot l = Ok r /\ (l <> [] -> Nat.iter (Nat.log2_up (length l)) merkle_level l = [r]).
Proof.
  unfold ComputeMerkleRoot. destruct (Z.eqb_spec (zlen l) 0) as [E|E].
  - exists EMPTY_HASH. split; [reflexivity|]. intros H. destruct l; [contradiction | rewrite zlen_cons in E; pose proof (zlen_nonneg l); lia].
  - assert (Hl : l <> []) by (intros ->; apply E; reflexivity). destruct (rounds_iter (length l) l Hl) as (r & E1 & I).
    + destruct l as [|a [|b l]]; [contradiction | cbn; lia|]. apply Nat.lt_le_incl, Nat.log2_up_lt_lin. cbn. lia.
    + exists r. split; [exact E1 | intros _; exact I].
Qed.

(** ** Binding *)

Lemma app_inj_32 (a b a' b' : Uint256) : zlen a = 32 -> zlen a' = 32 -> a ++ b = a' ++ b' -> a = a' /\ b = b'.
Proof. intros H H' E. apply app_inj_1; [unfold zlen in *; lia | exact E]. Qed.

Lemma level_elem x l : hash_sized l -> NoDup l -> x ∈ merkle_level l -> exists a b, x = sha256d (a ++ b) /\ zlen a = 32 /\ a ∈ l.
Proof.
  revert l. refine (two_step _ _ _ _).
  - intros _ _ H. inversion H.
  - intros a Hs _ H. apply list_elem_of_singleton in H as ->. exists a, a. inversion Hs; subst. split; [reflexivity|]. split; [assumption | apply list_elem_of_here].
  - intros a b l IH Hs Hn H. inversion Hs as [|? ? Ha Hs1]; subst. inversion Hs1; subst. apply elem_of_cons in H as [->|H].
    + exists a, b. split; [reflexivity|]. split; [exact Ha | apply list_elem_of_here].
    + apply NoDup_cons in Hn as [_ Hn]. apply NoDup_cons in Hn as [_ Hn]. destruct (IH ltac:(assumption) Hn H) as (c & d & E & Hc & Hin).
      exists c, d. split; [exact E|]. split; [exact Hc|]. apply list_elem_of_further, list_elem_of_further, Hin.
Qed.

Lemma level_NoDup l : hash_sized l -> NoDup l -> NoDup (merkle_level l) \/ collision.
Proof.
  revert l. refine (two_step _ _ _ _).
  - intros _ _. left. constructor.
  - intros a _ _. left. apply NoDup_singleton.
  - intros a b l IH Hs Hn. inversion Hs as [|? ? Ha Hs1]; subst. inversion Hs1 as [|? ? Hb Hs2]; subst.
    apply NoDup_cons in Hn as [Hna Hn]. apply NoDup_cons in Hn as [Hnb Hn]. destruct (IH Hs2 Hn) as [IHn|]; [|right; assumption]. cbn [merkle_level].
    destruct (decide (sha256d (a ++ b) ∈ merkle_level l)) as [Hin|Hnin]; [|left; apply NoDup_cons; split; assumption].
    destruct (level_elem _ _ Hs2 Hn Hin) as (c & d & E & Hc & Hcl). destruct (sha256d_inj _ _ E) as [E'|]; [|right; assumption].
    destruct (app_inj_32 _ _ _ _ Ha Hc E') as [-> _]. exfalso. apply Hna, list_elem_of_further, Hcl.
Qed.

Lemma level_inj l : forall l', hash_sized l -> hash_sized l' -> NoDup l -> NoDup l' -> merkle_level l = merkle_level l' -> l = l' \/ collision.
Proof.
  revert l. refine (two_step _ _ _ _).
  - intros [|a [|b l']] _ _ _ _ E; [left; reflexivity | discriminate | discriminate].
  - intros a [|a' [|b' l']] Hs Hs' Hn Hn' E; [discriminate | |].
    + injection E as E. inversion Hs as [|? ? Ha _]; subst. inversion Hs' as [|? ? Ha' _]; subst. destruct (sha256d_inj _ _ E) as [E'|]; [|right; assumption].
      left. f_equal. apply (app_inj_32 _ _ _ _ Ha Ha' E').
    + injection E as E _. inversion Hs as [|? ? Ha _]; subst. inversion Hs' as [|? ? Ha' _]; subst. destruct (sha256d_inj _ _ E) as [E'|]; [|right; assumption].
      destruct (app_inj_32 _ _ _ _ Ha Ha' E') as [-> ->]. apply NoDup_cons in Hn' as [Hn' _]. contradiction Hn'. apply list_elem_of_here.
  - intros a b l IH [|a' [|b' l']] Hs Hs' Hn Hn' E; [discriminate | |]; inversion Hs as [|? ? Ha Hs1]; subst; inversion Hs' as [|? ? Ha' Hs1']; subst.
    + injection E as E _. destruct (sha256d_inj _ _ E) as [E'|]; [|right; assumption].
      destruct (app_inj_32 _ _ _ _ Ha Ha' E') as [-> ->]. apply NoDup_cons in Hn as [Hn _]. contradiction Hn. apply list_elem_of_here.
    + injection E as E El. inversion Hs1; subst. inversion Hs1'; subst. apply NoDup_cons in Hn as [_ Hn]. apply NoDup_cons in Hn as [_ Hn].
      apply NoDup_cons in Hn' as [_ Hn']. apply NoDup_cons in Hn' as [_ Hn']. destruct (sha256d_inj _ _ E) as [E'|]; [|right; assumption].
      destruct (app_inj_32 _ _ _ _ Ha Ha' E') as [-> ->]. destruct (IH l') as [->|]; auto.
Qed.

Lemma rounds_inj d : forall l l' r, hash_sized l -> hash_sized l' -> NoDup l -> NoDup l' -> Nat.iter d merkle_level l = [r] -> Nat.iter d merkle_level l' = [r] -> l = l' \/ collision.
Proof.
  induction d as [|d IH]; intros l l' r Hs Hs' Hn Hn' E E'; [left; cbn in *; congruence|]. rewrite Nat.iter_succ_r in E, E'.
  destruct (level_NoDup l Hs Hn) as [N|]; [|right; assumption]. destruct (level_NoDup l' Hs' Hn') as [N'|]; [|right; assumption].
  destruct (IH _ _ _ (level_sized l) (level_sized l') N N' E E') as [El|]; [|right; assumption]. exact (level_inj l l' Hs Hs' Hn Hn' El).
Qed.

(** The trees are equally high. *)
Definition same_height (l l' : list Uint256) : Prop := l <> [] /\ l' <> [] /\ Nat.log2_up (length l) = Nat.log2_up (length l').

Lemma root_binds l l' r : hash_sized l -> hash_sized l' -> NoDup l -> NoDup l' -> same_height l l' ->
  ComputeMerkleRoot l = Ok r -> ComputeMerkleRoot l' = Ok r -> l = l' \/ collision.
Proof.
  intros Hs Hs' Hn Hn' (Hl & Hl' & Hd) E E'. destruct (ComputeMerkleRoot_ok l) as (x & Ex & Ix). destruct (ComputeMerkleRoot_ok l') as (y & Ey & Iy).
  assert (x = r) as -> by congruence. assert (y = r) as -> by congruence. specialize (Ix Hl). specialize (Iy Hl'). rewrite <- Hd in Iy.
  exact (rounds_inj _ _ _ _ Hs Hs' Hn Hn' Ix Iy).
Qed.

End Root.
