(* ===== verification/LedgerExample.v ===== *)
(** * A concrete instance of hashes and keys

    The parameters of the ledger's types can be met: hashes that cut and pad, keys of one byte. *)

From stdpp Require Import sorting.
From S2P Require Import Prelude LedgerTypes.

Definition cut32 (m : list byte) : list byte := take 32 (m ++ repeat x00 32).
Definition cut20 (m : list byte) : list byte := take 20 (m ++ repeat x00 20).

#[export] Instance cut_hashes : Hashes.
Proof.
  refine {| sha256 := cut32; ripemd160 := cut20 |}; intros m; unfold cut32, cut20, zlen; rewrite length_take, length_app, repeat_length; lia.
Defined.

Definition byte_le (a b : byte) : Prop := bz a <= bz b.
#[local] Instance byte_le_dec : RelDecision byte_le. Proof. intros a b. unfold byte_le. apply _. Defined.
#[local] Instance byte_le_total : Total byte_le. Proof. intros a b. unfold byte_le. lia. Qed.
#[local] Instance byte_le_trans : Transitive byte_le. Proof. intros a b c. unfold byte_le. lia. Qed.
#[local] Instance byte_le_anti : AntiSymm (=) byte_le.
Proof. intros a b H1 H2. unfold byte_le in *. rewrite <- (zb_bz a), <- (zb_bz b). f_equal. lia. Qed.

(** Keys of one byte. *)
#[export] Instance byte_keys : Keypair.
Proof.
  refine {| PublicKey := byte; SerializePublicKey := fun k => [k]; DeserializePublicKey := fun b => match b with [k] => Some k | _ => None end; SortPublicKeys := merge_sort byte_le |}.
  - reflexivity.
  - intros k. split; unfold zlen; cbn; lia.
  - apply merge_sort_Permutation.
  - intros l l' H. apply (StronglySorted_unique byte_le); [apply StronglySorted_merge_sort; apply _ | apply StronglySorted_merge_sort; apply _|].
    rewrite !merge_sort_Permutation. exact H.
Defined.
