(* ===== verification/LedgerSpec.v ===== *)
(** * What decoding a transaction, a header or a block establishes

    Round trips, what a block commits to, and that no bytes make a decoder panic. *)

From S2P Require Import Prelude Codec Merkle LedgerTypes Decode LedgerCodec TxRoot LedgerExample.

Section Ledger.
Context {HH : Hashes} {KP : Keypair}.

(** ** Blocks *)

Lemma txs_in fuel l : forall mask, (length l <= fuel)%nat -> Forall tx_ok l -> NoDup (map Tx.Hash l) -> (forall h, h ∈ map Tx.Hash l -> h ∉ mask) ->
  parses (read_txs fuel (zlen l) mask) l (flat_map Raw l).
Proof.
  revert l. induction fuel as [|f IH]; intros [|tx l] mask Hl Hok Hn Hm; try (cbn in Hl; lia); try apply parses_ret.
  inversion Hok; subst. cbn [map] in Hn, Hm. apply NoDup_cons in Hn as [Hx Hn]. cbn [read_txs flat_map]. rewrite zlen_cons. pose proof (zlen_nonneg l).
  rewrite (proj2 (Z.leb_gt (1 + zlen l) 0)) by lia. eapply parses_bind; [apply (ex_in _ _ _ exact_tx); assumption|]. cbn beta zeta.
  rewrite bool_decide_eq_false_2 by (apply Hm, list_elem_of_here). replace (1 + zlen l - 1) with (zlen l) by lia.
  eapply parses_bind'; [apply IH; [cbn in Hl; lia | assumption | exact Hn|] | apply parses_ret].
  intros h Hh. intros Hin. apply elem_of_cons in Hin as [->|Hin]; [contradiction|]. exact (Hm h (list_elem_of_further _ _ _ Hh) Hin).
Qed.

Lemma txs_out fuel : forall n mask src l src', Source.wf src -> read_txs fuel n mask src = Ok (l, src') ->
  took src (flat_map Raw l) src' /\ Forall tx_ok l /\ NoDup (map Tx.Hash l) /\ (forall h, h ∈ map Tx.Hash l -> h ∉ mask) /\ zlen l = Z.max 0 n.
Proof.
  induction fuel as [|f IH]; intros n mask src l src' W E; cbn [read_txs] in E; (destruct (Z.leb_spec n 0) as [Hn|Hn];
    [injection E as <- <-; split; [apply took_nil, W|]; split; [constructor|]; split; [constructor|]; split; [intros h H; inversion H | unfold zlen; cbn; lia]|]); [discriminate|].
  apply st_bind_Ok in E as (tx & s & E1 & E). destruct (ex_out _ _ _ exact_tx _ _ _ W E1) as [T Htx]. cbn beta zeta in E.
  case_bool_decide as Hmask; [discriminate|]. apply st_bind_Ok in E as (l' & s' & E2 & E). injection E as <- <-.
  destruct (IH _ _ _ _ _ (tk_wf' _ _ _ T) E2) as (T' & Hok & Hnd & Hm & Hz). cbn [flat_map map].
  split; [exact (took_trans _ _ _ _ _ T T')|]. split; [constructor; assumption|]. split; [apply NoDup_cons; split; [|exact Hnd]|].
  - intros Hin. apply (Hm _ Hin), list_elem_of_here.
  - split; [|rewrite zlen_cons; lia]. intros h Hin. apply elem_of_cons in Hin as [->|Hin]; [exact Hmask|]. intros H. apply (Hm _ Hin), list_elem_of_further, H.
Qed.

Definition block_wire (b : Block) : list byte := header_wire (b_Header b) ++ z2le 4 (zlen (Transactions b)) ++ flat_map Raw (Transactions b).

Record block_ok (b : Block) : Prop := mkBlkOk {
  blk_header : header_ok (b_Header b);
  blk_count : zlen (Transactions b) < 2 ^ 32;
  blk_txs : Forall tx_ok (Transactions b);
  blk_nodup : NoDup (map Tx.Hash (Transactions b));
  blk_root : ComputeMerkleRoot (map Tx.Hash (Transactions b)) = Ok (TransactionsRoot (b_Header b)) }.

Lemma raws_long l : Forall tx_ok l -> zlen l <= zlen (flat_map Raw l).
Proof. induction 1 as [|tx l H _ IH]; cbn [flat_map]; [unfold zlen; cbn; lia|]. rewrite zlen_cons, zlen_app. pose proof (raw_pos tx H). lia. Qed.

Lemma parses_block b : block_ok b -> parses b_Deserialization b (block_wire b).
Proof.
  intros [Hh Hc Ht Hn Hr]. unfold b_Deserialization, block_wire. pose proof (zlen_nonneg (Transactions b)).
  eapply parses_bind; [apply parses_header, Hh|]. eapply parses_bind; [apply (parses_NextUintN 4); [lia | split; [lia | exact Hc]]|]. cbn beta iota.
  intros src c W R. rewrite (st_bind_eq st_get _ _ _ _ eq_refl). cbn beta.
  assert (Hp : parses (read_txs (S (length (src_s src))) (zlen (Transactions b)) []) (Transactions b) (flat_map Raw (Transactions b))).
  { apply txs_in; [|exact Ht|exact Hn|intros h _ Hin; inversion Hin]. pose proof (raws_long _ Ht). pose proof (Source.zlen_rest _ W) as Hz. rewrite R, zlen_app in Hz.
    pose proof (zlen_nonneg c). destruct W as [Ho _]. unfold zlen in *. lia. }
  rewrite (st_bind_eq _ _ _ _ _ (Hp src c W R)). unfold st_lift. unfold st_bind. rewrite Hr. rewrite bool_decide_eq_true_2 by reflexivity. destruct b. reflexivity.
Qed.

Lemma block_out src b src' : Source.wf src -> b_Deserialization src = Ok (b, src') ->
  exists tl, took src ((hu_wire (b_Header b) ++ tl) ++ z2le 4 (zlen (Transactions b)) ++ flat_map Raw (Transactions b)) src' /\
    hu_ok (b_Header b) /\ h_hash (b_Header b) = None /\ Forall tx_ok (Transactions b) /\ NoDup (map Tx.Hash (Transactions b)) /\
    ComputeMerkleRoot (map Tx.Hash (Transactions b)) = Ok (TransactionsRoot (b_Header b)).
Proof.
  intros W E. unfold b_Deserialization in E. apply st_bind_Ok in E as (h & s1 & E1 & E). destruct (header_out _ _ _ W E1) as (tl & T1 & Hu & Hh & _ & _).
  apply st_bind_Ok in E as ([n eof] & s2 & E2 & E). destruct eof; [discriminate|].
  destruct (uint_took 4 _ _ _ _ (tk_wf' _ _ _ T1) ltac:(lia) E2 (or_introl eq_refl)) as [T2 Hn].
  rewrite (st_bind_eq st_get _ _ _ _ eq_refl) in E. cbn beta in E. apply st_bind_Ok in E as (txs & s3 & E3 & E).
  destruct (txs_out _ _ _ _ _ _ (tk_wf' _ _ _ T2) E3) as (T3 & Ht & Hnd & _ & Hz). apply st_bind_Ok in E as (root & s4 & E4 & E). unfold st_lift in E4.
  destruct (ComputeMerkleRoot (map Tx.Hash txs)) as [r| |] eqn:Er; try discriminate E4. injection E4 as -> <-.
  case_bool_decide as Hroot; [|discriminate]. injection E as <- <-. exists tl. cbn [b_Header Transactions]. assert (n = zlen txs) as -> by lia.
  split; [exact (took_trans _ _ _ _ _ T1 (took_trans _ _ _ _ _ T2 T3))|]. split; [exact Hu|]. split; [exact Hh|]. split; [exact Ht|]. split; [exact Hnd|]. rewrite Hroot. exact Er.
Qed.

(** ** Writers *)

Lemma written_appends w bs : Sink.appends w () bs -> zlen bs + 9 <= 2 ^ 58 -> written w = Ok bs.
Proof.
  intros H Hl. destruct (H (Sink.NewZeroCopySink None) Sink.wf_new_sink) as (s & E & _ & B); [simpl; lia|].
  unfold written. rewrite E. cbn. unfold Sink.Bytes. rewrite B. reflexivity.
Qed.

Lemma appends_all {A} (w : A -> ST ZeroCopySink unit) enc l : Forall (fun a => Sink.appends (w a) () (enc a)) l -> Sink.appends (write_all w l) () (flat_map enc l).
Proof. induction 1 as [|a l Ha _ IH]; cbn [write_all flat_map]; [apply Sink.appends_ret|]. eapply Sink.appends_bind; [exact Ha | exact IH]. Qed.

Lemma appends_var_bytes d : zlen d < 2 ^ 58 -> Sink.appends (write_var_bytes d) () (enc_varbytes d).
Proof. intros H. eapply Sink.appends_bind'; [apply Sink.appends_WriteVarBytes, H | apply Sink.appends_ret]. Qed.

Lemma appends_hu h : hu_ok h -> zlen (ConsensusPayload h) < 2 ^ 58 -> Sink.appends (h_serializationUnsigned h) () (hu_wire h).
Proof.
  intros [H1 H2 H3 H4 H5 H6 H7 H8 H9] Hp. unfold h_serializationUnsigned, hu_wire.
  eapply Sink.appends_bind; [apply Sink.appends_WriteUint32|]. eapply Sink.appends_bind; [apply Sink.appends_WriteBytes; lia|].
  eapply Sink.appends_bind; [apply Sink.appends_WriteBytes; lia|]. eapply Sink.appends_bind; [apply Sink.appends_WriteBytes; lia|].
  eapply Sink.appends_bind; [apply Sink.appends_WriteUint32|]. eapply Sink.appends_bind; [apply Sink.appends_WriteUint32|].
  eapply Sink.appends_bind; [apply Sink.appends_WriteUint64|]. eapply Sink.appends_bind; [apply Sink.appends_WriteVarBytes, Hp|].
  apply Sink.appends_WriteBytes. lia.
Qed.

Lemma flat_map_part {A} (enc : A -> list byte) a l : a ∈ l -> zlen (enc a) <= zlen (flat_map enc l).
Proof.
  induction 1 as [a l | a b l _ IH]; cbn [flat_map]; rewrite zlen_app; [pose proof (zlen_nonneg (flat_map enc l)) | pose proof (zlen_nonneg (enc b))]; lia.
Qed.

Lemma appends_header h : header_ok h -> zlen (header_wire h) < 2 ^ 58 -> Sink.appends (h_Serialization h) () (header_wire h).
Proof.
  intros [Hu Hk Hs Hf Hh] Hz. unfold header_wire in Hz. rewrite !zlen_app in Hz. unfold hu_wire in Hz. rewrite !zlen_app in Hz.
  repeat match type of Hz with context [zlen (?f ?x)] => lazymatch goal with H : 0 <= zlen (f x) |- _ => fail | _ => pose proof (zlen_nonneg (f x)) end end.
  pose proof (enc_varbytes_length (ConsensusPayload h)). pose proof (zlen_nonneg (Bookkeepers h)). pose proof (zlen_nonneg (SigData h)).
  pose proof (zlen_nonneg (flat_map key_wire (Bookkeepers h))). pose proof (zlen_nonneg (flat_map enc_varbytes (SigData h))).
  pose proof (zlen_nonneg (enc_varuint (zlen (Bookkeepers h)))). pose proof (zlen_nonneg (enc_varuint (zlen (SigData h)))).
  pose proof (zlen_nonneg (z2le 4 (h_Version h))). pose proof (zlen_nonneg (z2le 4 (Timestamp h))). pose proof (zlen_nonneg (z2le 4 (Height h))). pose proof (zlen_nonneg (z2le 8 (ConsensusData h))).
  unfold h_Serialization, header_wire. eapply Sink.appends_bind; [apply appends_hu; [exact Hu | lia]|].
  eapply Sink.appends_bind; [apply Sink.appends_WriteVarUint; words|].
  eapply Sink.appends_bind; [apply appends_all, Forall_forall; intros k _; apply appends_var_bytes; pose proof (key_length k); lia|].
  eapply Sink.appends_bind; [apply Sink.appends_WriteVarUint; words|]. apply appends_all, Forall_forall. intros d Hd. apply appends_var_bytes.
  pose proof (enc_varbytes_length d). pose proof (flat_map_part enc_varbytes d _ Hd). lia.
Qed.

Lemma appends_tx tx : tx_ok tx -> Sink.appends (Tx.Serialization tx) () (Raw tx).
Proof.
  intros H. unfold Tx.Serialization. rewrite (to_flag _ H). pose proof (raw_pos tx H). rewrite (proj2 (Z.eqb_neq (zlen (Raw tx)) 0)) by lia. cbn [negb orb].
  apply Sink.appends_WriteBytes. pose proof (to_size _ H). unfold Tx.MAX_TX_SIZE in *. lia.
Qed.

Lemma appends_block b : block_ok b -> zlen (block_wire b) < 2 ^ 58 -> Sink.appends (b_Serialization b) () (block_wire b).
Proof.
  intros [Hh Hc Ht Hn Hr] Hz. unfold b_Serialization, block_wire in *. rewrite !zlen_app in Hz. pose proof (zlen_nonneg (Transactions b)).
  pose proof (zlen_nonneg (flat_map Raw (Transactions b))). pose proof (zlen_nonneg (z2le 4 (zlen (Transactions b)))).
  eapply Sink.appends_bind; [apply appends_header; [exact Hh | lia]|]. rewrite u32_small by words.
  eapply Sink.appends_bind; [apply Sink.appends_WriteUint32|]. apply appends_all. eapply Forall_impl; [exact Ht|]. intros tx. apply appends_tx.
Qed.

(** ** Consequences *)

Lemma body_wire_inj b1 b2 : body_ok b1 -> body_ok b2 -> body_wire b1 = body_wire b2 -> zlen (body_wire b1) < 2 ^ 63 -> b1 = b2.
Proof.
  intros H1 H2 E Hl. pose proof (ex_in _ _ _ exact_body b1 H1 (NewZeroCopySource (body_wire b1)) [] (Source.wf_new_source _ Hl) ltac:(rewrite app_nil_r; reflexivity)) as P1.
  pose proof (ex_in _ _ _ exact_body b2 H2 (NewZeroCopySource (body_wire b1)) [] (Source.wf_new_source _ Hl) ltac:(rewrite app_nil_r, <- E; reflexivity)) as P2. congruence.
Qed.

Lemma tx_hash_inj t1 t2 : tx_ok t1 -> tx_ok t2 -> t_hash t1 = t_hash t2 -> t_body t1 = t_body t2 \/ collision.
Proof.
  intros H1 H2 E. rewrite (to_hash _ H1), (to_hash _ H2) in E. destruct (sha256d_inj _ _ E) as [E'|]; [|right; assumption]. left.
  apply body_wire_inj; [apply (to_body _ H1) | apply (to_body _ H2) | exact E'|]. pose proof (to_size _ H1) as Hz. rewrite (to_raw _ H1) in Hz. unfold tx_wire, Tx.MAX_TX_SIZE in Hz.
  rewrite zlen_app in Hz. pose proof (zlen_nonneg (enc_varuint (zlen (Sigs t1)) ++ flat_map sig_wire (Sigs t1))). lia.
Qed.

Lemma tx_hashes_inj l1 : forall l2, Forall tx_ok l1 -> Forall tx_ok l2 -> map Tx.Hash l1 = map Tx.Hash l2 -> map t_body l1 = map t_body l2 \/ collision.
Proof.
  induction l1 as [|t1 l1 IH]; intros [|t2 l2] H1 H2 E; try discriminate E; [left; reflexivity|]. inversion H1; subst. inversion H2; subst. injection E as Eh El.
  destruct (tx_hash_inj t1 t2) as [Hb|]; auto. destruct (IH l2) as [Hl|]; auto. left. cbn [map]. congruence.
Qed.

Lemma hashes_sized l : Forall tx_ok l -> hash_sized (map Tx.Hash l).
Proof. induction 1 as [|t l H _ IH]; [constructor|]. constructor; [unfold Tx.Hash; rewrite (to_hash _ H); apply sha256d_length | exact IH]. Qed.

Lemma BlockFromRawBytes_out raw b : zlen raw < 2 ^ 63 -> BlockFromRawBytes raw = Ok b ->
  Forall tx_ok (Transactions b) /\ NoDup (map Tx.Hash (Transactions b)) /\ ComputeMerkleRoot (map Tx.Hash (Transactions b)) = Ok (TransactionsRoot (b_Header b)).
Proof.
  intros Hl E. unfold BlockFromRawBytes in E. apply res_bind_Ok in E as ([b' s] & E1 & [= <-]).
  destruct (block_out _ _ _ (Source.wf_new_source _ Hl) E1) as (tl & _ & _ & _ & H1 & H2 & H3). auto.
Qed.

(** ** Theorems *)

(** C19: decoding a transaction is exact. What [TransactionFromRawBytes] accepts is well formed, its [Raw] is the canonical encoding of its
    fields and signatures and the beginning of the input, and its hash is the double SHA-256 of the encoding without the signatures; conversely
    every well-formed transaction is decoded from its [Raw]. So no two encodings stand for the same transaction. *)
Theorem transaction_decoding_exact (raw : list byte) (tx : Transaction) :
  (Tx.TransactionFromRawBytes raw = Ok tx -> tx_ok tx /\ exists rest, raw = Raw tx ++ rest) /\
  (tx_ok tx -> Tx.TransactionFromRawBytes (Raw tx) = Ok tx).
Proof.
  unfold Tx.TransactionFromRawBytes. split.
  - destruct (Z.ltb_spec Tx.MAX_TX_SIZE (zlen raw)) as [|Hl]; [discriminate|]. intros E. apply res_bind_Ok in E as ([t s] & E1 & [= <-]).
    assert (W : Source.wf (NewZeroCopySource raw)) by (apply Source.wf_new_source; unfold Tx.MAX_TX_SIZE in *; lia).
    destruct (ex_out _ _ _ exact_tx _ _ _ W E1) as [T H]. split; [exact H|]. exists (Source.rest s). exact (tk_rest _ _ _ T).
  - intros H. pose proof (to_size _ H) as Hz. rewrite (proj2 (Z.ltb_ge _ _)) by exact Hz.
    destruct (parses_all _ _ _ (ex_in _ _ _ exact_tx tx H) ltac:(unfold Tx.MAX_TX_SIZE in *; lia)) as (s & E & _). rewrite E. reflexivity.
Qed.

(** A block survives the round trip. A well-formed block (transactions as decoded, no two with the same hash, the root that belongs to them)
    is decoded from its serialisation. *)
Theorem block_roundtrip (b : Block) : block_ok b -> zlen (block_wire b) + 9 <= 2 ^ 58 ->
  exists raw, b_ToArray b = Ok raw /\ BlockFromRawBytes raw = Ok b.
Proof.
  intros H Hl. exists (block_wire b). split; [apply written_appends; [apply appends_block; [exact H | lia] | exact Hl]|].
  unfold BlockFromRawBytes. destruct (parses_all _ _ _ (parses_block b H) ltac:(lia)) as (s & E & _). rewrite E. reflexivity.
Qed.

(** C20: the header binds the transactions. Two blocks that decoding accepts, with the same [TransactionsRoot] and trees of the same height, contain the same
    transactions up to signatures, in the same order, or SHA-256 has a collision. *)
Theorem block_binds_transactions (raw1 raw2 : list byte) (b1 b2 : Block) : zlen raw1 < 2 ^ 63 -> zlen raw2 < 2 ^ 63 ->
  BlockFromRawBytes raw1 = Ok b1 -> BlockFromRawBytes raw2 = Ok b2 -> TransactionsRoot (b_Header b1) = TransactionsRoot (b_Header b2) ->
  same_height (map Tx.Hash (Transactions b1)) (map Tx.Hash (Transactions b2)) ->
  map t_body (Transactions b1) = map t_body (Transactions b2) \/ collision.
Proof.
  intros L1 L2 E1 E2 Er Hh. destruct (BlockFromRawBytes_out _ _ L1 E1) as (T1 & N1 & R1). destruct (BlockFromRawBytes_out _ _ L2 E2) as (T2 & N2 & R2). rewrite Er in R1.
  destruct (root_binds _ _ _ (hashes_sized _ T1) (hashes_sized _ T2) N1 N2 Hh R1 R2) as [E|]; [|right; assumption]. exact (tx_hashes_inj _ _ T1 T2 E).
Qed.

(** A raw header stands for the header. Wherever [Header] is decoded, [RawHeader] is too, with the same height, and keeps exactly the bytes read; the hash of the
    header is the double SHA-256 of the part of them before the signatures. *)
Theorem raw_header_agrees (raw : list byte) (h : Header) : zlen raw < 2 ^ 58 - 9 -> HeaderFromRawBytes raw = Ok h ->
  exists signed unsigned rest src', raw = signed ++ unsigned ++ rest /\
    raw_Deserialization (NewZeroCopySource raw) = Ok (mkRaw (Height h) (signed ++ unsigned), src') /\ Source.rest src' = rest /\
    h_Hash h = Ok (sha256d signed, set_hash h (sha256d signed)).
Proof.
  intros Hl E. unfold HeaderFromRawBytes in E. apply res_bind_Ok in E as ([h' s] & E1 & [= <-]).
  destruct (header_out _ _ _ (Source.wf_new_source raw ltac:(lia)) E1) as (tl & T & Hu & Hh & _ & Er). pose proof (tk_rest _ _ _ T) as R. rewrite Source.rest_new in R.
  exists (hu_wire h'), tl, (Source.rest s), s. split; [rewrite R, <- app_assoc; reflexivity|]. split; [exact Er|]. split; [reflexivity|].
  unfold h_Hash. rewrite Hh. pose proof (zlen_nonneg (Source.rest s)). pose proof (zlen_nonneg tl). apply (f_equal zlen) in R. rewrite !zlen_app in R.
  assert (Hp : zlen (ConsensusPayload h') < 2 ^ 58).
  { assert (Hw : zlen (enc_varbytes (ConsensusPayload h')) <= zlen (hu_wire h')).
    { unfold hu_wire. rewrite !zlen_app. repeat match goal with |- context [zlen ?l] => pose proof (zlen_nonneg l); generalize dependent (zlen l); intros end. lia. }
    pose proof (enc_varbytes_length (ConsensusPayload h')). lia. }
  rewrite (written_appends _ _ (appends_hu h' Hu Hp)) by lia. reflexivity.
Qed.

End Ledger.


(** ** A concrete ledger *)

(** A transaction that calls contract code [0x51], signed once. *)
Definition tx_a : list byte := [x00; xd1] ++ repeat x01 4 ++ repeat x02 8 ++ repeat x03 8 ++ repeat x04 20 ++ [x01; x51; x00; x01; x01; x61; x01; x62].
Definition header_a : list byte := repeat x00 4 ++ repeat x05 32 ++ cut32 (cut32 tx_a) ++ repeat x06 32 ++ repeat x07 4 ++ repeat x08 4 ++ repeat x09 8 ++ [x01; x0a] ++ repeat x0b 20 ++ [x01; x01; x0c; x01; x01; x0d].
Definition block_a : list byte := header_a ++ [x01; x00; x00; x00] ++ tx_a.

Lemma block_a_decodes : exists b, BlockFromRawBytes block_a = Ok b /\ Transactions b <> [].
Proof.
  destruct (BlockFromRawBytes block_a) as [b| |] eqn:E; [|vm_compute in E; discriminate E | vm_compute in E; discriminate E].
  exists b. split; [reflexivity|]. intros Hb. assert (X : match BlockFromRawBytes block_a with Ok b => bool_decide (length (Transactions b) = 1%nat) | _ => false end = true) by (vm_compute; reflexivity).
  rewrite E, Hb in X. discriminate X.
Qed.

Lemma block_binds_transactions_witness : exists b, BlockFromRawBytes block_a = Ok b /\ (map t_body (Transactions b) = map t_body (Transactions b) \/ collision).
Proof.
  destruct block_a_decodes as (b & E & Hb). exists b. split; [exact E|].
  apply (block_binds_transactions block_a block_a b b); [reflexivity | reflexivity | exact E | exact E | reflexivity|].
  split; [|split]; [| |reflexivity]; intros H; apply Hb; destruct (Transactions b); [reflexivity | discriminate H | reflexivity | discriminate H].
Defined.

Lemma raw_header_agrees_witness : exists h signed unsigned rest src', HeaderFromRawBytes header_a = Ok h /\ header_a = signed ++ unsigned ++ rest /\
  raw_Deserialization (NewZeroCopySource header_a) = Ok (mkRaw (Height h) (signed ++ unsigned), src').
Proof.
  destruct (HeaderFromRawBytes header_a) as [h| |] eqn:E; [|vm_compute in E; discriminate E | vm_compute in E; discriminate E].
  destruct (raw_header_agrees header_a h ltac:(reflexivity) E) as (sg & us & rs & s & H1 & H2 & _). exists h, sg, us, rs, s. split; [reflexivity | split; assumption].
Defined.

Lemma transaction_decoding_exact_witness : exists tx, Tx.TransactionFromRawBytes tx_a = Ok tx /\ tx_ok tx.
Proof.
  destruct (Tx.TransactionFromRawBytes tx_a) as [tx| |] eqn:E; [|vm_compute in E; discriminate E | vm_compute in E; discriminate E].
  exists tx. split; [reflexivity|]. exact (proj1 (proj1 (transaction_decoding_exact tx_a tx) E)).
Defined.

Lemma tx_a_decodes : exists tx, tx_ok tx /\ zlen (Raw tx) = zlen tx_a.
Proof.
  destruct (Tx.Deserialization (NewZeroCopySource tx_a)) as [[tx s]| |] eqn:E; [|vm_compute in E; discriminate E | vm_compute in E; discriminate E].
  exists tx. split; [exact (proj2 (ex_out _ _ _ exact_tx _ _ _ (Source.wf_new_source tx_a ltac:(reflexivity)) E))|].
  assert (X : match Tx.Deserialization (NewZeroCopySource tx_a) with Ok (tx, _) => zlen (Raw tx) =? zlen tx_a | _ => false end = true) by (vm_compute; reflexivity).
  rewrite E in X. apply Z.eqb_eq, X.
Qed.

Lemma block_roundtrip_witness : exists b raw, Transactions b <> [] /\ b_ToArray b = Ok raw /\ BlockFromRawBytes raw = Ok b.
Proof.
  destruct tx_a_decodes as (tx & Htx & Hz).
  set (h := mkHeader 1 (repeat x01 32) (Tx.Hash tx) (repeat x02 32) 3 4 5 [x06] (repeat x07 20) [(x08 : @PublicKey byte_keys)] [[x09]] None).
  exists (mkBlock h [tx]). assert (Hh : zlen (Tx.Hash tx) = 32) by (unfold Tx.Hash; rewrite (to_hash _ Htx); apply sha256d_length).
  destruct (block_roundtrip (mkBlock h [tx])) as (raw & E1 & E2).
  - constructor; [|reflexivity | apply Forall_singleton; exact Htx | apply NoDup_singleton | reflexivity]. constructor; [|reflexivity | reflexivity | repeat constructor | reflexivity].
    constructor; try reflexivity; try exact Hh; split; (reflexivity || discriminate).
  - unfold block_wire, header_wire, hu_wire. cbn [b_Header Transactions flat_map h TransactionsRoot PrevBlockHash BlockRoot NextBookkeeper ConsensusPayload Bookkeepers SigData].
    rewrite !zlen_app, Hz, Hh. vm_compute. discriminate.
  - exists raw. split; [discriminate | split; assumption].
Defined.

(** ** Where decoding is not exact *)

(** A count of [2^63] or more is taken for a negative [int]: this header has no keys and no signatures, and neither has the one with both counts zero. *)
Definition huge : list byte := xff :: repeat x00 7 ++ [x80].
Theorem header_counts_not_exact :
  let h := repeat x00 4 ++ repeat x05 32 ++ repeat x05 32 ++ repeat x06 32 ++ repeat x07 4 ++ repeat x08 4 ++ repeat x09 8 ++ [x01; x0a] ++ repeat x0b 20 in
  exists bd, HeaderFromRawBytes (h ++ huge ++ huge) = Ok bd /\ HeaderFromRawBytes (h ++ [x00; x00]) = Ok bd.
Proof. cbv zeta. eexists. split; vm_compute; reflexivity. Qed.

(** The count of signatures of a cross-chain message is trusted when the slice is allocated: a message of 46 bytes panics. *)
Theorem cross_chain_msg_panics : x_Deserialization (NewZeroCopySource (repeat x00 37 ++ huge)) = Panic.
Proof. vm_compute. reflexivity. Qed.

(** With repetitions the root does not bind the transactions. *)
Theorem root_of_repetition a b c : ComputeMerkleRoot [a; b; c] = ComputeMerkleRoot [a; b; c; c].
Proof. reflexivity. Qed.

(** ** Decoding never panics *)

Lemma forward_exact {A} (r : ST ZeroCopySource A) enc ok : exact_decoder r enc ok -> forward r.
Proof. intros H src a s W E. exact (took_fwd _ _ _ (proj1 (ex_out _ _ _ H _ _ _ W E))). Qed.

Lemma np_guard b e : guard b e <> Panic. Proof. unfold guard. destruct b; discriminate. Qed.
Lemma res_np_bind {A B} (c : res A) (k : A -> res B) : c <> Panic -> (forall a, c = Ok a -> k a <> Panic) -> res_bind c k <> Panic.
Proof. intros Hc Hk. destruct c; cbn; [apply Hk; reflexivity | discriminate | contradiction]. Qed.

(** The flags have been checked when the type is asked for. *)
Lemma validate_np dc : Payload.validateDeployCode dc <> Panic.
Proof.
  unfold Payload.validateDeployCode. apply res_np_bind; [apply np_guard|]. intros u Hf. apply guard_Ok in Hf.
  apply res_np_bind.
  - unfold Payload.VmType. destruct ((bz (vmFlags dc) =? 0) || (bz (vmFlags dc) =? 1)); [discriminate|]. cbn [orb] in Hf. rewrite Hf. discriminate.
  - intros ty _. repeat (apply res_np_bind; [apply np_guard | intros ? _]). apply np_guard.
Qed.

Lemma np_deploy : no_panic Payload.Deploy_Deserialization.
Proof. unfold Payload.Deploy_Deserialization. np_steps. apply np_lift, validate_np. Qed.
Lemma np_invoke : no_panic Payload.Invoke_Deserialization.
Proof. unfold Payload.Invoke_Deserialization. np_steps. Qed.
Lemma np_sig : no_panic Tx.RawSig_Deserialization.
Proof. unfold Tx.RawSig_Deserialization. np_steps. Qed.
#[export] Hint Resolve np_deploy np_invoke np_sig : np.
Lemma np_payload ty : no_panic (Tx.read_payload ty).
Proof. unfold Tx.read_payload. np_steps. Qed.
#[export] Hint Resolve np_payload : np.
Lemma np_body : no_panic Tx.deserializationUnsigned.
Proof. unfold Tx.deserializationUnsigned. np_steps. Qed.

(** One step of a decoder that does not panic. *)
Lemma np_next {A B} (c : ST ZeroCopySource A) (k : A -> ST ZeroCopySource B) src : Source.wf src -> no_panic c ->
  (forall a s, c src = Ok (a, s) -> fwd src s -> k a s <> Panic) -> st_bind c k src <> Panic.
Proof.
  intros W [F N] Hk. unfold st_bind. specialize (N src W). destruct (c src) as [[a s]| |] eqn:E; [|discriminate|contradiction]. exact (Hk a s eq_refl (F _ _ _ W E)).
Qed.

Lemma fwd_trans a b c : fwd a b -> fwd b c -> fwd a c.
Proof. intros (W1 & S1 & O1) (W2 & S2 & O2). split; [exact W2|]. split; [congruence | lia]. Qed.

Section Ledger.
Context {HH : Hashes} {KP : Keypair}.

Lemma np_tx : no_panic Tx.Deserialization.
Proof.
  split; [exact (forward_exact _ _ _ exact_tx)|]. intros src W. unfold Tx.Deserialization. rewrite (st_bind_eq st_get _ _ _ _ eq_refl). cbn beta zeta. unfold Source.Pos at 1.
  apply np_next; [exact W | exact np_body|]. intros b s1 _ F1. destruct (reread_fwd _ _ W F1) as (raw & Er). rewrite (st_bind_eq _ _ _ _ _ Er). cbn beta zeta.
  apply np_next; [exact (proj1 F1) | exact np_var_uint_irr|]. intros n s2 _ F2. destruct (_ <? n); [discriminate|].
  apply np_next; [exact (proj1 F2) | apply np_read_list; [exact np_sig | exact (takes_exact _ _ _ exact_sig sig_wire_pos)]|]. intros sigs s3 _ F3.
  rewrite (st_bind_eq st_get _ _ _ _ eq_refl). cbn beta zeta. destruct (_ <? _); [discriminate|].
  destruct (reread_fwd _ _ W (fwd_trans _ _ _ F1 (fwd_trans _ _ _ F2 F3))) as (raw' & Er'). unfold Source.Pos. rewrite (st_bind_eq _ _ _ _ _ Er'). discriminate.
Qed.

Lemma np_pubkey : no_panic read_pubkey.
Proof. unfold read_pubkey. apply np_bind; [apply np_var_bytes_eof|]. intros buf. destruct (DeserializePublicKey buf); auto with np. Qed.

Lemma takes_pubkey : takes read_pubkey.
Proof.
  intros src k s W E. apply st_bind_Ok in E as (buf & s1 & E1 & E). destruct (DeserializePublicKey buf); [|discriminate]. injection E as _ <-.
  exact (takes_exact _ _ _ exact_var_bytes (fun d _ => enc_varbytes_pos d) _ _ _ W E1).
Qed.

Lemma np_hu : no_panic h_deserializationUnsigned.
Proof. unfold h_deserializationUnsigned. np_steps. Qed.

Lemma np_header : no_panic h_Deserialization.
Proof.
  unfold h_Deserialization. apply np_bind; [exact np_hu|]. intros bd. apply np_bind; [exact np_var_uint_eof|]. intros n.
  apply np_bind; [apply np_read_list; [exact np_pubkey | exact takes_pubkey]|]. intros ks. apply np_bind; [exact np_var_uint_eof|]. intros m.
  apply np_bind; [apply np_read_list; [exact np_var_bytes_eof | exact (takes_exact _ _ _ exact_var_bytes (fun d _ => enc_varbytes_pos d))]|]. intros sigs. apply np_ret.
Qed.

Lemma txs_no_panic fuel : forall n mask src, Source.wf src -> zlen (Source.rest src) < Z.of_nat fuel -> read_txs fuel n mask src <> Panic.
Proof.
  induction fuel as [|f IH]; intros n mask src W Hf; [pose proof (zlen_nonneg (Source.rest src)); lia|]. cbn [read_txs]. destruct (n <=? 0); [discriminate|].
  apply np_next; [exact W | exact np_tx|]. intros tx s E F. cbv zeta. destruct (bool_decide _); [discriminate|]. pose proof (takes_exact _ _ _ exact_tx raw_pos _ _ _ W E).
  specialize (IH (n - 1) (Tx.Hash tx :: mask) s (proj1 F) ltac:(lia)). unfold st_bind. destruct (read_txs _ _ _ s) as [[l s']| |]; [discriminate | discriminate | contradiction].
Qed.

Lemma block_no_panic src : Source.wf src -> b_Deserialization src <> Panic.
Proof.
  intros W. unfold b_Deserialization. apply np_next; [exact W | exact np_header|]. intros h s1 _ F1.
  apply np_next; [exact (proj1 F1) | auto with np|]. intros [n eof] s2 _ F2. destruct eof; [discriminate|]. rewrite (st_bind_eq st_get _ _ _ _ eq_refl). cbn beta.
  pose proof (txs_no_panic (S (length (src_s s2))) n [] s2 (proj1 F2) (rest_short _ (proj1 F2))) as N. unfold st_bind. destruct (read_txs _ _ _ s2) as [[txs s3]| |]; [|discriminate|contradiction].
  destruct (ComputeMerkleRoot_ok (map Tx.Hash txs)) as (r & Er & _). unfold st_lift. rewrite Er. destruct (negb _); discriminate.
Qed.

(** C33: decoding is total. On every input, truncated, over-long or hostile, [TransactionFromRawBytes], [HeaderFromRawBytes] and [BlockFromRawBytes] return a value or an
    error: no slice is out of range, no unchecked count makes a loop run away, no type is unknown. *)
Theorem decoding_never_panics (raw : list byte) : zlen raw < 2 ^ 63 ->
  Tx.TransactionFromRawBytes raw <> Panic /\ HeaderFromRawBytes raw <> Panic /\ BlockFromRawBytes raw <> Panic.
Proof.
  intros Hl. pose proof (Source.wf_new_source raw Hl) as W.
  assert (Hp : forall A (r : ST ZeroCopySource A), r (NewZeroCopySource raw) <> Panic -> res_bind (r (NewZeroCopySource raw)) (fun x => match x with (a, _) => Ok a end) <> Panic).
  { intros A r N. destruct (r (NewZeroCopySource raw)) as [[a s]| |]; [discriminate | discriminate | contradiction]. }
  split; [|split].
  - unfold Tx.TransactionFromRawBytes. destruct (_ <? _); [discriminate|]. apply Hp, (proj2 np_tx), W.
  - apply Hp, (proj2 np_header), W.
  - apply Hp, block_no_panic, W.
Qed.

End Ledger.

Lemma decoding_never_panics_witness : BlockFromRawBytes (block_a ++ [x00]) <> Panic /\ HeaderFromRawBytes (take 100 header_a) <> Panic.
Proof.
  split; [exact (proj2 (proj2 (decoding_never_panics (block_a ++ [x00]) ltac:(reflexivity))))|].
  exact (proj1 (proj2 (decoding_never_panics (take 100 header_a) ltac:(reflexivity)))).
Defined.
