(* ===== verification/CrossPath.v ===== *)
(** * Merkle paths of cross-chain messages

    [MerkleLeafPath], [MerkleHashes] and [MerkleProve] of [merkle/merkle_hasher.go]: a path is built from the levels of the tree,
    pairing neighbours and keeping an odd last hash, while the root comes from the recursive [HashFullTreeWithLeafHash].
    The two trees agree, so that paths are accepted; and what is accepted is in the tree or exhibits a collision. *)

From S2P Require Import Prelude Codec Merkle MerkleTheory MerkleProof MerkleSpec LedgerTypes Decode LedgerCodec.

(** ** The code *)

Definition LEFT : byte := x00.
Definition RIGHT : byte := x01.
Definition MAX_SIZE : Z := 1024 * 1024.

(** [int(math.Ceil(math.Log2(float64(n))))]: [Log2] is exact on powers of two, and on the other numbers of leaves that
    [MAX_SIZE] allows the rounding error is far below the distance to the next integer. *)
Definition depth (n : Z) : Z := Z.log2_up n.

Fixpoint getIndex_loop (i : Z) (leaf : Uint256) (hashes : list Uint256) : Z :=
  match hashes with
  | [] => -1
  | v :: hashes => if bool_decide (v = leaf) then i else getIndex_loop (i + 1) leaf hashes
  end.
Definition getIndex (leaf : Uint256) (hashes : list Uint256) : Z := getIndex_loop 0 leaf hashes.

Section Path.
Context (sha256 : list byte -> Uint256).

Definition HashLeaf (data : list byte) : Uint256 := sha256 (x00 :: data).
Definition HashChildren (left right : Uint256) : Uint256 := sha256 (x01 :: left ++ right).

(** One level from the one below it. *)
Fixpoint next_level (level : list Uint256) : list Uint256 :=
  match level with
  | lhs :: rhs :: level => HashChildren lhs rhs :: next_level level
  | _ => level
  end.

(** [levels[0], ..., levels[depth]], the leaves last. *)
Fixpoint MerkleHashes (preLeaves : list Uint256) (depth : nat) : list (list Uint256) :=
  match depth with
  | O => [preLeaves]
  | S d => MerkleHashes (next_level preLeaves) d ++ [preLeaves]
  end.

(** [subTree[i]] *)
Definition at_index (subTree : list Uint256) (i : Z) : ST ZeroCopySink Uint256 :=
  match subTree !! Z.to_nat i with Some h => st_ret h | None => st_panic end.

(** [for i := d; i > 0; i--] *)
Fixpoint path_loop (merkleTree : list (list Uint256)) (i : nat) (index : Z) : ST ZeroCopySink unit :=
  match i with
  | O => st_ret ()
  | S i' =>
      match merkleTree !! i with
      | None => st_panic
      | Some subTree =>
          let subLen := zlen subTree in
          let nIndex := index / 2 in
          if (index =? subLen - 1) && negb (subLen mod 2 =? 0) then path_loop merkleTree i' nIndex
          else if negb (index mod 2 =? 0) then
            do_ Sink.WriteByte LEFT; do h <- at_index subTree (index - 1); do_ Sink.WriteHash h; path_loop merkleTree i' nIndex
          else
            do_ Sink.WriteByte RIGHT; do h <- at_index subTree (index + 1); do_ Sink.WriteHash h; path_loop merkleTree i' nIndex
      end
  end.

(** The sink starts with [make([]byte, 0, size)]. *)
Definition MerkleLeafPath (data : list byte) (hashes : list Uint256) : res (list byte) :=
  let size := zlen hashes * (UINT256_SIZE + 1) + zlen data + 8 in
  if MAX_SIZE <? size then Err "data length over max value"
  else
    let index := getIndex (HashLeaf data) hashes in
    if index <? 0 then Err "values doesn't exist!"
    else
      let d := Z.to_nat (depth (zlen hashes)) in
      let* '(_, sink) := (do_ Sink.WriteVarBytes data; path_loop (MerkleHashes hashes d) d index) (mkSink (repeat x00 (Z.to_nat size)) 0) in
      Ok (Sink.Bytes sink).

(** [for i := 0; i < size; i++] *)
Fixpoint prove_loop (size : nat) (hash : Uint256) : ST ZeroCopySource Uint256 :=
  match size with
  | O => st_ret hash
  | S size =>
      do '(f, eof) <- Source.NextByte;
      if eof : bool then st_err "read byte error"
      else
        do '(v, eof) <- Source.NextHash;
        if eof : bool then st_err "read hash error"
        else prove_loop size (if bool_decide (f = LEFT) then HashChildren v hash else HashChildren hash v)
  end.

(** The number of steps is the number of bytes left over 32, though a step takes 33. *)
Definition MerkleProve (path : list byte) (root : Uint256) : res (list byte) :=
  let* '((value, _, irr, eof), source) := Source.NextVarBytes (NewZeroCopySource path) in
  if (eof || irr) : bool then Err "read bytes error"
  else
    let size := u64 (Source.Size source - Source.Pos source) / UINT256_SIZE in
    let* '(hash, _) := prove_loop (Z.to_nat size) (HashLeaf value) source in
    if bool_decide (hash = root) then Ok value else Err "excepted root is not equal actual root".

(** ** The levels and the recursive tree *)

Local Abbreviation mth := (mth sha256).
Implicit Types (l a b : list Uint256).

Lemma hc_eq x y : HashChildren x y = hash_children sha256 x y. Proof. reflexivity. Qed.

Lemma two_ind (P : list Uint256 -> Prop) : P [] -> (forall x, P [x]) -> (forall x y l, P l -> P (x :: y :: l)) -> forall l, P l.
Proof. intros H0 H1 H2. fix IH 1. intros [|x [|y l]]; [exact H0 | apply H1 | apply H2, IH]. Qed.

Lemma length_next l : length (next_level l) = ((length l + 1) / 2)%nat.
Proof.
  induction l as [|x|x y l IH] using two_ind; [reflexivity ..|]. cbn [next_level length]. rewrite IH.
  replace (S (S (length l)) + 1)%nat with (length l + 1 + 1 * 2)%nat by lia. rewrite Nat.div_add by lia. lia.
Qed.

Lemma next_app h a b : length a = pow2 (S h) -> next_level (a ++ b) = next_level a ++ next_level b.
Proof.
  rewrite pow2_S. generalize (pow2 h). intros n. revert n. induction a as [|x|x y a IH] using two_ind; intros n Hn; [reflexivity | cbn in Hn; lia|].
  cbn [app next_level]. f_equal. destruct n as [|n]; [cbn in Hn; lia|]. apply (IH n). cbn in Hn. lia.
Qed.

(** Pairing neighbours does not change the root. *)
Lemma mth_next l : mth (next_level l) = mth l.
Proof.
  remember (length l) as n eqn:En. revert l En. induction n as [n IH] using lt_wf_ind. intros l ->.
  destruct (decide (length l <= 1)%nat) as [H1|H1]; [destruct l as [|x [|y l]]; [reflexivity .. | cbn in H1; lia]|].
  destruct (decide (length l = 2%nat)) as [E2|N2]; [destruct l as [|x [|y [|z l]]]; try discriminate; reflexivity|].
  pose proof (pow2_log2 (length l - 1) ltac:(lia)) as Hp. destruct (Nat.log2 (length l - 1)) as [|h]; [change (pow2 0) with 1%nat in Hp; lia|].
  rewrite <- (take_drop (pow2 (S h)) l). set (a := take _ _). set (b := drop _ _).
  assert (Ha : length a = pow2 (S h)) by (unfold a; rewrite length_take; lia). assert (Hb : (0 < length b <= pow2 (S h))%nat) by (unfold b; rewrite length_drop; lia).
  assert (Hl : length l = (length a + length b)%nat) by (unfold a, b; rewrite length_take, length_drop; lia). pose proof (pow2_pos h).
  rewrite (next_app h) by exact Ha. destruct (split_rfc sha256 (S h) a b Ha Hb) as [-> _]. rewrite pow2_S in *.
  destruct (split_rfc sha256 h (next_level a) (next_level b)) as [-> _]; [rewrite length_next, Ha | rewrite length_next|].
  - replace (2 * pow2 h + 1)%nat with (1 + pow2 h * 2)%nat by lia. rewrite Nat.div_add by lia. reflexivity.
  - split; [apply Nat.div_str_pos; lia|]. apply Nat.lt_succ_r, Nat.Div0.div_lt_upper_bound. lia.
  - rewrite (IH (length a) ltac:(lia) a eq_refl), (IH (length b) ltac:(lia) b eq_refl). reflexivity.
Qed.

(** ** Steps of a path *)

Record step := mkStep { s_flag : byte; s_hash : Uint256 }.
Definition climb_step (hash : Uint256) (s : step) : Uint256 := if bool_decide (s_flag s = LEFT) then HashChildren (s_hash s) hash else HashChildren hash (s_hash s).
Definition step_wire (s : step) : list byte := s_flag s :: s_hash s.
Definition step_ok (s : step) : Prop := zlen (s_hash s) = 32.

Lemma prove_loop_parses steps hash : Forall step_ok steps -> parses (prove_loop (length steps) hash) (foldl climb_step hash steps) (flat_map step_wire steps).
Proof.
  revert hash. induction steps as [|[f v] steps IH]; intros hash H; [apply parses_ret|]. inversion H as [|? ? Hv Hs]; subst. cbn [length prove_loop flat_map].
  change (step_wire (mkStep f v)) with ([f] ++ v). rewrite <- app_assoc. eapply parses_bind; [apply parses_NextByte|]. cbn beta iota.
  eapply parses_bind; [apply (parses_NextArray v 32 Hv), small_u64; lia|]. cbn beta iota. apply (IH _ Hs).
Qed.

(** ** Paths are accepted *)

(** The steps from position [i] of a level up, by levels. *)
Fixpoint steps_up (d : nat) (l : list Uint256) (i : nat) : list step :=
  match d with
  | O => []
  | S d =>
      let rest := steps_up d (next_level l) (i / 2) in
      if Nat.odd i then match l !! (i - 1)%nat with Some h => mkStep LEFT h :: rest | None => rest end
      else match l !! (i + 1)%nat with Some h => mkStep RIGHT h :: rest | None => rest end
  end.

(** The position above, and the hash there. *)
Lemma level_lookup l i h : l !! i = Some h ->
  next_level l !! (i / 2)%nat = Some (if Nat.odd i then match l !! (i - 1)%nat with Some h' => HashChildren h' h | None => h end
                                      else match l !! (i + 1)%nat with Some h' => HashChildren h h' | None => h end).
Proof.
  revert i. induction l as [|x|x y l IH] using two_ind; intros i E; [discriminate | destruct i as [|i]; [injection E as ->; reflexivity | destruct i; discriminate]|].
  destruct i as [|[|i]]; [injection E as ->; reflexivity .. |]. cbn [next_level].
  replace (S (S i) / 2)%nat with (S (i / 2)) by (change (S (S i)) with (2 + i)%nat; replace (2 + i)%nat with (i + 1 * 2)%nat by lia; rewrite Nat.div_add by lia; lia).
  rewrite lookup_cons. cbn [Nat.add]. rewrite (IH i) by exact E. change (Nat.odd (S (S i))) with (Nat.odd i). destruct (Nat.odd i) eqn:Eo; [|reflexivity].
  destruct i as [|i]; [discriminate|]. cbn [Nat.sub]. rewrite ?Nat.sub_0_r. reflexivity.
Qed.

Lemma half_log d n : (n <= 2 ^ S d)%nat -> ((n + 1) / 2 <= 2 ^ d)%nat.
Proof. intros H. rewrite Nat.pow_succ_r' in H. apply Nat.lt_succ_r, Nat.Div0.div_lt_upper_bound. lia. Qed.

Lemma steps_up_root d l i h : l !! i = Some h -> (length l <= 2 ^ d)%nat -> foldl climb_step h (steps_up d l i) = mth l.
Proof.
  revert l i h. induction d as [|d IH]; intros l i h E Hl.
  - destruct l as [|x [|y l]]; [discriminate | | cbn in Hl; lia]. destruct i as [|i]; [injection E as ->; reflexivity | destruct i; discriminate].
  - rewrite <- mth_next. cbn [steps_up]. pose proof (level_lookup l i h E) as En.
    assert (Hn : (length (next_level l) <= 2 ^ d)%nat) by (rewrite length_next; apply half_log, Hl).
    destruct (Nat.odd i); [destruct (l !! (i - 1)%nat) | destruct (l !! (i + 1)%nat)]; cbn [foldl]; apply (IH _ _ _ En Hn).
Qed.

Hypothesis sha_ok : forall bs, hash_ok (sha256 bs).

Lemma next_ok l : Forall hash_ok l -> Forall hash_ok (next_level l).
Proof. induction l as [|x|x y l IH] using two_ind; intros H; [exact H .. |]. inversion H as [|? ? ? H']; subst. inversion H'; subst. constructor; [apply sha_ok | auto]. Qed.

Lemma steps_up_ok d l i : Forall hash_ok l -> Forall step_ok (steps_up d l i) /\ (length (steps_up d l i) <= d)%nat.
Proof.
  revert l i. induction d as [|d IH]; intros l i Hl; [split; [constructor | reflexivity]|]. cbn [steps_up]. destruct (IH (next_level l) (i / 2)%nat (next_ok _ Hl)) as [H1 H2].
  assert (Hs : forall f j h, l !! j = Some h -> step_ok (mkStep f h)) by (intros f j h E; unfold step_ok, zlen; cbn; rewrite (proj1 (Forall_lookup _ _) Hl _ _ E); reflexivity).
  destruct (Nat.odd i); [destruct (l !! (i - 1)%nat) eqn:E | destruct (l !! (i + 1)%nat) eqn:E]; split; cbn [length]; try lia; try assumption; constructor; eauto.
Qed.

Lemma MerkleHashes_lookup d l i t : (i <= d)%nat -> (MerkleHashes l d ++ t) !! i = MerkleHashes l d !! i.
Proof.
  intros H. apply lookup_app_l. assert (Hl : forall d l, length (MerkleHashes l d) = S d) by (clear; induction d as [|d IH]; intros l; cbn; [reflexivity | rewrite length_app, IH; cbn; lia]).
  rewrite Hl. lia.
Qed.
Lemma MerkleHashes_top d l : MerkleHashes l d !! d = Some l.
Proof.
  destruct d as [|d]; [reflexivity|]. cbn [MerkleHashes]. assert (Hl : forall d l, length (MerkleHashes l d) = S d) by (clear; induction d as [|d IH]; intros l; cbn; [reflexivity | rewrite length_app, IH; cbn; lia]).
  apply list_lookup_middle. rewrite Hl. reflexivity.
Qed.

Lemma path_loop_ext T T' i index : (forall j, (j <= i)%nat -> T !! j = T' !! j) -> path_loop T i index = path_loop T' i index.
Proof.
  revert index. induction i as [|i IH]; intros index H; [reflexivity|]. cbn [path_loop]. rewrite <- (H (S i)) by lia. rewrite (IH (index / 2)) by (intros j Hj; apply H; lia). reflexivity.
Qed.

Lemma odd_mod i : Z.of_nat i mod 2 = if Nat.odd i then 1 else 0.
Proof. pose proof (Nat.div2_odd i) as H. destruct (Nat.odd i); cbn [Nat.b2n] in H; Z.div_mod_to_equations; lia. Qed.

Lemma path_loop_appends d l i : (i < length l <= 2 ^ d)%nat -> Forall hash_ok l ->
  Sink.appends (path_loop (MerkleHashes l d) d (Z.of_nat i)) () (flat_map step_wire (steps_up d l i)).
Proof.
  revert l i. induction d as [|d IH]; intros l i Hi Hl; [apply Sink.appends_ret|]. cbn [path_loop]. rewrite MerkleHashes_top. cbn [steps_up].
  destruct (lookup_lt_is_Some_2 l i) as [h Eh]; [lia|]. pose proof (level_lookup l i h Eh) as En. apply lookup_lt_Some in En.
  assert (Hn : (length (next_level l) <= 2 ^ d)%nat) by (rewrite length_next; apply half_log; lia).
  specialize (IH (next_level l) (i / 2)%nat (conj En Hn) (next_ok _ Hl)).
  replace (Z.of_nat i / 2) with (Z.of_nat (i / 2)) by (rewrite Nat2Z.inj_div; reflexivity).
  rewrite (path_loop_ext (MerkleHashes l (S d)) (MerkleHashes (next_level l) d)) by (intros j Hj; cbn [MerkleHashes]; apply MerkleHashes_lookup, Hj).
  assert (Hw : forall f j h', l !! j = Some h' -> Sink.appends (do_ Sink.WriteByte f; do h <- at_index l (Z.of_nat j); do_ Sink.WriteHash h; path_loop (MerkleHashes (next_level l) d) d (Z.of_nat (i / 2))) ()
    (step_wire (mkStep f h') ++ flat_map step_wire (steps_up d (next_level l) (i / 2)))).
  { intros f j h' E. change (step_wire (mkStep f h')) with ([f] ++ h'). rewrite <- app_assoc. eapply Sink.appends_bind; [apply Sink.appends_WriteByte|].
    unfold at_index. rewrite Nat2Z.id, E. change (Sink.appends (do_ Sink.WriteHash h'; path_loop (MerkleHashes (next_level l) d) d (Z.of_nat (i / 2))) () (h' ++ flat_map step_wire (steps_up d (next_level l) (i / 2)))).
    eapply Sink.appends_bind; [|exact IH]. apply Sink.appends_WriteBytes. pose proof (proj1 (Forall_lookup _ _) Hl _ _ E) as H. unfold hash_ok in H. unfold zlen. rewrite H. lia. }
  pose proof (odd_mod i) as Hm.
  rewrite Hm. destruct (Nat.odd i) eqn:Eo.
  - assert (Ep : exists h', l !! (i - 1)%nat = Some h') by (apply lookup_lt_is_Some_2; lia). destruct Ep as [h' Ep]. rewrite Ep.
    assert (Hf : (Z.of_nat i =? zlen l - 1) && negb (zlen l mod 2 =? 0) = false).
    { destruct (Z.eqb_spec (Z.of_nat i) (zlen l - 1)) as [E|]; [|reflexivity]. replace (zlen l) with (Z.of_nat i + 1) by lia. rewrite Z.add_mod, Hm by lia. reflexivity. }
    rewrite Hf. cbn [Z.eqb negb flat_map]. replace (Z.of_nat i - 1) with (Z.of_nat (i - 1)) by (apply Nat.odd_spec in Eo as [m ->]; lia). apply Hw, Ep.
  - cbn [Z.eqb negb]. destruct (l !! (i + 1)%nat) as [h'|] eqn:Ep.
    + pose proof (lookup_lt_Some _ _ _ Ep). rewrite (proj2 (Z.eqb_neq _ _)) by (unfold zlen; lia). cbn [andb flat_map]. replace (Z.of_nat i + 1) with (Z.of_nat (i + 1)) by lia. apply Hw, Ep.
    + apply lookup_ge_None in Ep. assert (Hz : zlen l = Z.of_nat i + 1) by (unfold zlen; lia). rewrite Hz, (proj2 (Z.eqb_eq _ _)) by lia. rewrite Z.add_mod, Hm by lia. exact IH.
Qed.

Lemma getIndex_loop_spec leaf l k : 0 <= k ->
  (leaf ∈ l -> 0 <= getIndex_loop k leaf l) /\ (0 <= getIndex_loop k leaf l -> exists i, getIndex_loop k leaf l = k + Z.of_nat i /\ l !! i = Some leaf).
Proof.
  revert k. induction l as [|v l IH]; intros k Hk; cbn [getIndex_loop]; [split; [intros H; inversion H | lia]|].
  destruct (bool_decide_reflect (v = leaf)) as [->|Hn]; [split; [lia|]; intros _; exists 0%nat; split; [lia | reflexivity]|].
  destruct (IH (k + 1) ltac:(lia)) as [H1 H2]. split; [intros Hin; inversion Hin; subst; [contradiction | auto]|].
  intros H. destruct (H2 H) as (i & E & Ei). exists (S i). split; [lia | exact Ei].
Qed.

Lemma path_wire_length steps : Forall step_ok steps -> zlen (flat_map step_wire steps) = 33 * Z.of_nat (length steps).
Proof. induction 1 as [|[f v] steps Hv _ IH]; [reflexivity|]. cbn [flat_map length]. rewrite zlen_app, IH. unfold step_wire, step_ok in *. cbn [s_flag s_hash] in *. rewrite zlen_cons. lia. Qed.

(** C36: a path that the node hands out is accepted by the other chain.  [MerkleLeafPath] gives a path exactly for the values whose hash is among the
    leaves, if the message is within the size limit; [MerkleProve] accepts it against the root that [HashFullTreeWithLeafHash] computes for the
    header, although one goes through the tree level by level and the other splits it recursively, and returns the value. *)
Theorem cross_path_accepted (data : list byte) (hashes : list Uint256) : Forall hash_ok hashes ->
  ((exists path, MerkleLeafPath data hashes = Ok path) <-> HashLeaf data ∈ hashes /\ zlen hashes * 33 + zlen data + 8 <= MAX_SIZE) /\
  (forall path, MerkleLeafPath data hashes = Ok path -> exists root, HashFullTreeWithLeafHash sha256 hashes = Ok root /\ MerkleProve path root = Ok data).
Proof.
  intros Hok. unfold MerkleLeafPath. change (UINT256_SIZE + 1) with 33. destruct (Z.ltb_spec MAX_SIZE (zlen hashes * 33 + zlen data + 8)) as [Hs|Hs]; [split; [split; [intros [? [=]] | lia] | discriminate]|].
  unfold getIndex. destruct (getIndex_loop_spec (HashLeaf data) hashes 0 ltac:(lia)) as [Hi1 Hi2]. destruct (Z.ltb_spec (getIndex_loop 0 (HashLeaf data) hashes) 0) as [Hn|Hn]; [split; [split; [intros [? [=]] | intros [H _]; specialize (Hi1 H); lia] | discriminate]|].
  destruct (Hi2 Hn) as (i & Ei & Hl). rewrite Ei, Z.add_0_l. pose proof (lookup_lt_Some _ _ _ Hl) as Hlt. unfold MAX_SIZE in Hs. pose proof (zlen_nonneg data).
  set (d := Z.to_nat (depth (zlen hashes))). assert (Hz : 0 < zlen hashes) by (unfold zlen; lia).
  assert (Hd1 : (length hashes <= 2 ^ d)%nat).
  { apply Nat2Z.inj_le. rewrite Nat2Z.inj_pow. unfold d, depth. rewrite Z2Nat.id by apply Z.log2_up_nonneg. destruct (Z.eq_dec (zlen hashes) 1) as [E1|N1]; [rewrite E1; unfold zlen in E1; rewrite E1; reflexivity|].
    apply Z.log2_up_spec. lia. }
  assert (Hd2 : (d <= 15)%nat).
  { assert (H15 : Z.log2_up (zlen hashes) <= Z.log2_up (2 ^ 15)) by (apply Z.log2_up_le_mono; lia). rewrite Z.log2_up_pow2 in H15 by lia. unfold d, depth. lia. }
  set (steps := steps_up d hashes i). destruct (steps_up_ok d hashes i Hok) as [Hs1 Hs2]. fold steps in Hs1, Hs2. pose proof (path_wire_length steps Hs1) as Hw.
  assert (Hwr : Sink.appends (do_ Sink.WriteVarBytes data; path_loop (MerkleHashes hashes d) d (Z.of_nat i)) () (enc_varbytes data ++ flat_map step_wire steps)).
  { eapply Sink.appends_bind; [apply Sink.appends_WriteVarBytes; lia|]. apply path_loop_appends; [lia | exact Hok]. }
  pose proof (getVarUintSize_bounds (zlen data)) as Hv. assert (Hlen : zlen (enc_varbytes data ++ flat_map step_wire steps) <= 2 ^ 21) by (rewrite zlen_app; unfold enc_varbytes; rewrite zlen_app, zlen_enc_varuint; lia).
  destruct (Hwr (mkSink (repeat x00 (Z.to_nat (zlen hashes * 33 + zlen data + 8))) 0)) as (s' & E & _ & B).
  { split; unfold Sink.cap, zlen in *; cbn [sink_len sink_arr]; rewrite ?repeat_length; lia. }
  { cbn [sink_len]. lia. }
  rewrite E. cbn [res_bind]. unfold Sink.Bytes. rewrite B. cbn [sink_bytes sink_len sink_arr Z.to_nat take app]. split; [split; [intros _ | eauto]|].
  { split; [apply list_elem_of_lookup_2 in Hl; exact Hl | unfold MAX_SIZE; lia]. }
  intros path [= <-]. exists (mth hashes). split; [apply HashFullTreeWithLeafHash_mth; lia|]. unfold MerkleProve. change (sink_bytes (mkSink _ 0)) with (@nil byte). cbn [app].
  set (buf := enc_varbytes data ++ flat_map step_wire steps) in *. assert (W : Source.wf (NewZeroCopySource buf)) by (apply Source.wf_new_source; lia).
  rewrite (parses_NextVarBytes data ltac:(lia) (NewZeroCopySource buf) (flat_map step_wire steps) W (Source.rest_new buf)). cbn [res_bind orb].
  destruct (rest_adv_app (NewZeroCopySource buf) (enc_varbytes data) (flat_map step_wire steps) W (Source.rest_new buf)) as [W1 R1]. set (src1 := Source.adv _ _) in *.
  assert (Hsz : u64 (Source.Size src1 - Source.Pos src1) / UINT256_SIZE = Z.of_nat (length steps)).
  { unfold Source.Size, Source.Pos. rewrite <- Source.zlen_rest by exact W1. rewrite R1, Hw, u64_small by words. unfold UINT256_SIZE. Z.div_mod_to_equations. lia. }
  rewrite Hsz, Nat2Z.id. rewrite (prove_loop_parses steps (HashLeaf data) Hs1 src1 []) by (try exact W1; rewrite app_nil_r; exact R1). cbn [res_bind].
  rewrite bool_decide_eq_true_2; [reflexivity|]. apply steps_up_root; assumption.
Qed.

(** ** What is accepted is in the tree *)

(** What the verifier hashes. *)
Fixpoint step_inputs (hash : Uint256) (steps : list step) : list (list byte) :=
  match steps with
  | [] => []
  | s :: steps => (x01 :: if bool_decide (s_flag s = LEFT) then s_hash s ++ hash else hash ++ s_hash s) :: step_inputs (climb_step hash s) steps
  end.
Fixpoint prove_inputs_loop (size : nat) (hash : Uint256) (source : ZeroCopySource) : list (list byte) :=
  match size with
  | O => []
  | S size =>
      match (do f <- Source.NextByte; do v <- Source.NextHash; st_ret (mkStep f.1 v.1)) source with
      | Ok (s, source) => (x01 :: if bool_decide (s_flag s = LEFT) then s_hash s ++ hash else hash ++ s_hash s) :: prove_inputs_loop size (climb_step hash s) source
      | _ => []
      end
  end.
Definition prove_inputs (path : list byte) : list (list byte) :=
  match Source.NextVarBytes (NewZeroCopySource path) with
  | Ok ((value, _, _, _), source) => (x00 :: value) :: prove_inputs_loop (Z.to_nat (u64 (Source.Size source - Source.Pos source) / UINT256_SIZE)) (HashLeaf value) source
  | _ => []
  end.

Lemma prove_loop_trace n hash src r src' : Source.wf src -> prove_loop n hash src = Ok (r, src') ->
  exists steps, Forall step_ok steps /\ r = foldl climb_step hash steps /\ prove_inputs_loop n hash src = step_inputs hash steps.
Proof.
  revert hash src. induction n as [|n IH]; intros hash src W E; cbn [prove_loop] in E; [injection E as <- <-; exists []; auto|].
  apply st_bind_Ok in E as ((f & e1) & s1 & E1 & E). destruct e1; [discriminate|].
  pose proof (byte_took _ _ _ _ W E1 (or_introl eq_refl)) as T1. apply st_bind_Ok in E as ((v & e2) & s2 & E2 & E). destruct e2; [discriminate|].
  destruct (array_took UINT256_SIZE _ _ _ _ (tk_wf' _ _ _ T1) (small_u64 32 ltac:(lia)) E2 (or_introl eq_refl)) as [T2 Hv].
  destruct (IH _ _ (tk_wf' _ _ _ T2) E) as (steps & H1 & -> & H2). exists (mkStep f v :: steps). split; [constructor; assumption|]. split; [reflexivity|].
  cbn [prove_inputs_loop]. rewrite (st_bind_eq _ _ _ _ _ E1), (st_bind_eq _ _ _ _ _ E2). cbn [st_ret fst step_inputs s_flag s_hash]. f_equal. exact H2.
Qed.

Lemma step_inputs_app hash (l1 l2 : list step) : step_inputs hash (l1 ++ l2) = step_inputs hash l1 ++ step_inputs (foldl climb_step hash l1) l2.
Proof. revert hash. induction l1 as [|s l1 IH]; intros hash; [reflexivity|]. cbn. f_equal. apply IH. Qed.

Lemma foldl_ok hash steps : hash_ok hash -> hash_ok (foldl climb_step hash steps).
Proof. revert hash. induction steps as [|s steps IH]; intros hash H; [exact H|]. apply IH. unfold climb_step. destruct (bool_decide _); apply sha_ok. Qed.

(** The walk down from the root. *)
Lemma steps_sound H (values : list (list byte)) (v : list byte) steps : values <> [] -> (length values <= pow2 H)%nat -> (H <= 31)%nat -> Forall step_ok steps ->
  foldl climb_step (HashLeaf v) steps = mth (HashLeaf <$> values) ->
  v ∈ values \/ collision sha256 ((x00 :: v) :: step_inputs (HashLeaf v) steps) ((cons x00 <$> values) ++ tree_inputs sha256 H (HashLeaf <$> values)).
Proof.
  revert values steps. induction H as [|h IH]; intros values steps Hne Hl H31 Hok E.
  { change (pow2 0) with 1%nat in Hl. destruct values as [|w [|w' values]]; [contradiction | | cbn in Hl; lia]. change (mth _) with (HashLeaf w) in E.
    destruct (decide (v = w)) as [->|Hn]; [left; left|]. right. destruct steps as [|s steps _] using rev_ind.
    - exists (x00 :: v), (x00 :: w). split; [left|]. split; [left|]. split; [congruence | exact E].
    - rewrite foldl_app in E. cbn [foldl] in E. eexists _, (x00 :: w). rewrite step_inputs_app. split; [right; apply elem_of_app; right; left|]. split; [left|].
      split; [discriminate|]. revert E. unfold climb_step at 1. destruct (bool_decide _); auto. }
  cbn [tree_inputs]. rewrite length_map. destruct (Nat.leb_spec (length values) (pow2 h)) as [Hle|Hgt]; [apply IH; auto; lia|].
  destruct (split_at h (HashLeaf <$> values)) as (a & b & Eab & Ha & Hb & _ & Eta & Edb); [rewrite length_map; lia | lia|]. rewrite Eta, Edb. rewrite <- fmap_take in Eta. rewrite <- fmap_drop in Edb.
  set (va := take (pow2 h) values) in *. set (vb := drop (pow2 h) values) in *. assert (Ev : values = va ++ vb) by (unfold va, vb; rewrite take_drop; reflexivity).
  destruct (split_rfc sha256 h a b Ha Hb) as [Em _]. rewrite Eab, Em in E. subst a b. rewrite length_map in Ha, Hb.
  assert (Hin : (x01 :: mth (HashLeaf <$> va) ++ mth (HashLeaf <$> vb)) ∈ (cons x00 <$> values) ++ (x01 :: mth (HashLeaf <$> va) ++ mth (HashLeaf <$> vb)) :: tree_inputs sha256 h (HashLeaf <$> va) ++ tree_inputs sha256 h (HashLeaf <$> vb)) by (apply elem_of_app; right; left).
  assert (Hmok : forall l, hash_ok (mth (HashLeaf <$> l))) by (intros l; apply (mth_ok sha256 sha_ok), Forall_fmap, Forall_true; intros; apply sha_ok).
  destruct steps as [|s steps _] using rev_ind; [right; exists (x00 :: v), (x01 :: mth (HashLeaf <$> va) ++ mth (HashLeaf <$> vb)); split; [left|]; split; [exact Hin|]; split; [discriminate | exact E]|].
  apply Forall_app in Hok as [Hok1 Hs]. apply Forall_inv in Hs. rewrite foldl_app in E. cbn [foldl] in E. rewrite step_inputs_app. cbn [step_inputs].
  set (t := foldl climb_step (HashLeaf v) steps) in *. assert (Ht : hash_ok t) by (apply foldl_ok, sha_ok). assert (Hs' : hash_ok (s_hash s)) by (unfold step_ok, zlen, hash_ok in *; lia).
  assert (Hsub1 : forall i, (x00 :: v) :: step_inputs (HashLeaf v) steps ⊆ (x00 :: v) :: step_inputs (HashLeaf v) steps ++ [i]).
  { intros i z. rewrite !elem_of_cons, elem_of_app. tauto. }
  assert (Hsub2 : forall l, l = va \/ l = vb -> (cons x00 <$> l) ++ tree_inputs sha256 h (HashLeaf <$> l) ⊆
    (cons x00 <$> values) ++ (x01 :: mth (HashLeaf <$> va) ++ mth (HashLeaf <$> vb)) :: tree_inputs sha256 h (HashLeaf <$> va) ++ tree_inputs sha256 h (HashLeaf <$> vb)).
  { intros l Hl'. rewrite Ev at 1. rewrite fmap_app. intros z. rewrite !elem_of_app, elem_of_cons, elem_of_app. destruct Hl' as [->| ->]; tauto. }
  unfold climb_step in E at 1. destruct (bool_decide (s_flag s = LEFT)).
  - destruct (hc_inj_or sha256 _ _ _ _ Hs' (Hmok va) E) as [[_ Et]|(x & y & Hx & Hy & Hxy & Ec)].
    + destruct (IH vb steps) as [Hv|Hc]; [intros Evb; rewrite Evb in Hb; cbn in Hb; lia | lia | lia | exact Hok1 | exact Et | left; rewrite Ev; apply elem_of_app; auto|].
      right. exact (collision_mono _ _ _ _ _ (Hsub1 _) (Hsub2 vb (or_intror eq_refl)) Hc).
    + right. exists x, y. apply list_elem_of_singleton in Hx, Hy. subst x y. split; [right; apply elem_of_app; right; left|]. auto.
  - destruct (hc_inj_or sha256 _ _ _ _ Ht (Hmok va) E) as [[Et _]|(x & y & Hx & Hy & Hxy & Ec)].
    + destruct (IH va steps) as [Hv|Hc]; [intros Eva; rewrite Eva in Ha; cbn in Ha; pose proof (pow2_pos h); lia | lia | lia | exact Hok1 | exact Et | left; rewrite Ev; apply elem_of_app; auto|].
      right. exact (collision_mono _ _ _ _ _ (Hsub1 _) (Hsub2 va (or_introl eq_refl)) Hc).
    + right. exists x, y. apply list_elem_of_singleton in Hx, Hy. subst x y. split; [right; apply elem_of_app; right; left|]. auto.
Qed.

(** C13: a path that [MerkleProve] accepts against the root of a block's cross-chain messages proves that the value is one of the
    messages; the only other possibility is a pair of distinct byte strings of the same hash, one hashed by the verifier and
    the other in the tree.  This holds although neither the length of the path nor what follows it is checked. *)
Theorem cross_path_sound (values : list (list byte)) (path : list byte) (root : Uint256) (v : list byte) :
  values <> [] -> zlen values <= 2 ^ 31 -> zlen path < 2 ^ 63 -> HashFullTree sha256 values = Ok root -> MerkleProve path root = Ok v ->
  v ∈ values \/ collision sha256 (prove_inputs path) ((cons x00 <$> values) ++ tree_inputs sha256 31 (HashLeaf <$> values)).
Proof.
  intros Hne Hz Hp Hr E. unfold HashFullTree in Hr. rewrite HashFullTreeWithLeafHash_mth in Hr by (unfold zlen in *; rewrite length_map; exact Hz). injection Hr as <-.
  unfold MerkleProve in E. unfold prove_inputs. apply res_bind_Ok in E as ((((( value & sz) & irr) & eof) & source) & E1 & E). rewrite E1.
  pose proof (forward_safe _ Source.safe_NextVarBytes _ _ _ (Source.wf_new_source _ Hp) E1) as [W _]. destruct (eof || irr); [discriminate|].
  apply res_bind_Ok in E as ((hash & source') & E2 & E). destruct (bool_decide_reflect (hash = mth (hash_leaf sha256 <$> values))) as [Eh|]; [|discriminate]. injection E as ->.
  destruct (prove_loop_trace _ _ _ _ _ W E2) as (steps & Hok & -> & ->). apply steps_sound; auto. apply Nat2Z.inj_le. rewrite pow2_Z. exact Hz.
Qed.

End Path.

Definition toy_values : list (list byte) := [[x01]; [x02]; [x03]].

Lemma cross_path_accepted_witness : exists path root, MerkleLeafPath toy_hash [x03] (HashLeaf toy_hash <$> toy_values) = Ok path /\
  HashFullTreeWithLeafHash toy_hash (HashLeaf toy_hash <$> toy_values) = Ok root /\ MerkleProve toy_hash path root = Ok [x03].
Proof.
  destruct (cross_path_accepted toy_hash toy_hash_len [x03] (HashLeaf toy_hash <$> toy_values)) as [[_ H1] H2]; [apply Forall_fmap, Forall_true; intros; apply toy_hash_len|].
  destruct H1 as [path E]; [split; [apply list_elem_of_fmap; exists [x03]; split; [reflexivity | apply list_elem_of_lookup; exists 2%nat; reflexivity] | vm_compute; discriminate]|].
  destruct (H2 path E) as (root & E1 & E2). exists path, root. auto.
Defined.

Definition toy_path : list byte := match MerkleLeafPath toy_hash [x03] (HashLeaf toy_hash <$> toy_values) with Ok path => path | _ => [] end.
Definition toy_root : Uint256 := match HashFullTree toy_hash toy_values with Ok root => root | _ => [] end.

Lemma cross_path_sound_witness : MerkleProve toy_hash toy_path toy_root = Ok [x03] /\
  ([x03] ∈ toy_values \/ collision toy_hash (prove_inputs toy_hash toy_path) ((cons x00 <$> toy_values) ++ tree_inputs toy_hash 31 (HashLeaf toy_hash <$> toy_values))).
Proof.
  assert (Er : HashFullTree toy_hash toy_values = Ok toy_root) by (vm_compute; reflexivity). assert (Ep : MerkleProve toy_hash toy_path toy_root = Ok [x03]) by (vm_compute; reflexivity).
  assert (Hp : zlen toy_path < 2 ^ 63) by (vm_compute; reflexivity). assert (Hn : toy_values <> []) by discriminate. assert (Hz : zlen toy_values <= 2 ^ 31) by (vm_compute; discriminate).
  split; [exact Ep | exact (cross_path_sound toy_hash toy_hash_len toy_values toy_path toy_root [x03] Hn Hz Hp Er Ep)].
Defined.
