(* ===== verification/Program.v ===== *)
(** * Signature programs

    [core/program/program.go]: the scripts that say which keys must sign ([verification script]) and carry the signatures
    ([invocation script]), with their parser; the signatures of [core/types/transaction.go], mutable transactions and the
    addresses of [core/types/address.go]. *)

From S2P Require Import Prelude Codec BigInt Merkle LedgerTypes.

Definition PUSH0 : Z := 0x00.
Definition PUSHBYTES1 : Z := 0x01.
Definition PUSHBYTES75 : Z := 0x4B.
Definition PUSHDATA1 : Z := 0x4C.
Definition PUSHDATA2 : Z := 0x4D.
Definition PUSHDATA4 : Z := 0x4E.
Definition PUSH1 : Z := 0x51.
Definition CHECKSIG : Z := 0xAC.
Definition CHECKMULTISIG : Z := 0xAE.
Definition MULTI_SIG_MAX_PUBKEY_SIZE : Z := 16.

Section Program.
Context {KP : Keypair}.

(** ** Building *)

Definition PushOpCode (op : Z) : ST ZeroCopySink unit := Sink.WriteByte (zb op).

Definition PushBytes (data : list byte) : ST ZeroCopySink unit :=
  if zlen data =? 0 then st_panic
  else
    do_ (if zlen data <=? PUSHBYTES75 + 1 - PUSHBYTES1 then Sink.WriteByte (zb (zlen data + PUSHBYTES1 - 1))
         else if zlen data <? 0x100 then do_ Sink.WriteByte (zb PUSHDATA1); Sink.WriteUint8 (zb (zlen data))
         else if zlen data <? 0x10000 then do_ Sink.WriteByte (zb PUSHDATA2); Sink.WriteUint16 (u16 (zlen data))
         else do_ Sink.WriteByte (zb PUSHDATA4); Sink.WriteUint32 (u32 (zlen data)));
    Sink.WriteBytes data.

Definition PushNum (num : Z) : ST ZeroCopySink unit :=
  if num =? 0 then PushOpCode PUSH0
  else if num <=? 16 then PushOpCode (u8 (u8 num - 1 + PUSH1))
  else PushBytes (BigIntToNeoBytes num).

Definition PushPubKey (pubkey : PublicKey) : ST ZeroCopySink unit := PushBytes (SerializePublicKey pubkey).

Definition EncodeSinglePubKeyProgramInto (pubkey : PublicKey) : ST ZeroCopySink unit :=
  do_ PushPubKey pubkey; PushOpCode CHECKSIG.

Definition multi_sig_ok (m n : Z) : bool := (1 <=? m) && (m <=? n) && (1 <? n) && (n <=? MULTI_SIG_MAX_PUBKEY_SIZE).

Definition EncodeMultiPubKeyProgramInto (pubkeys : list PublicKey) (m : Z) : ST ZeroCopySink unit :=
  if negb (multi_sig_ok m (zlen pubkeys)) then st_err "wrong multi-sig param"
  else
    let pubkeys := SortPublicKeys pubkeys in
    do_ PushNum (u16 m);
    do_ write_all PushPubKey pubkeys;
    do_ PushNum (u16 (zlen pubkeys));
    PushOpCode CHECKMULTISIG.

Definition EncodeParamProgramInto (sigs : list (list byte)) : ST ZeroCopySink unit := write_all PushBytes sigs.

(** [sink := common.ZeroCopySink{}]: a sink without a buffer. *)
Definition written_empty (w : ST ZeroCopySink unit) : res (list byte) := let* '(_, s) := w (mkSink [] 0) in Ok (Sink.Bytes s).

Definition ProgramFromPubKey (pubkey : PublicKey) : res (list byte) := written_empty (EncodeSinglePubKeyProgramInto pubkey).
Definition ProgramFromMultiPubKey (pubkeys : list PublicKey) (m : Z) : res (list byte) := written_empty (EncodeMultiPubKeyProgramInto pubkeys m).
Definition ProgramFromParams (sigs : list (list byte)) : res (list byte) := written (EncodeParamProgramInto sigs).

(** ** Parsing *)

Record ProgramInfo := mkInfo { PubKeys : list PublicKey; M : Z }.

Definition ReadOpCode : ST ZeroCopySource Z :=
  do '(code, eof) <- Source.NextByte; if eof : bool then st_err ErrUnexpectedEOF else st_ret (bz code).
Definition PeekOpCode : ST ZeroCopySource Z := do code <- ReadOpCode; do_ Source.BackUp 1; st_ret code.
Definition ExpectEOF : ST ZeroCopySource unit := fun self => if Source.Len self =? 0 then Ok ((), self) else Err "expected eof".

Definition ReadBytes : ST ZeroCopySource (list byte) :=
  do code <- ReadOpCode;
  do '(keylen, eof) <- (if code =? PUSHDATA4 then Source.NextUint32
                        else if code =? PUSHDATA2 then Source.NextUint16
                        else if code =? PUSHDATA1 then Source.NextUint8
                        else if (code <=? PUSHBYTES75) && (PUSHBYTES1 <=? code) then st_ret (code - PUSHBYTES1 + 1, false)
                        else st_err "unexpected opcode");
  if eof : bool then st_err ErrUnexpectedEOF
  else do '(buf, eof) <- Source.NextBytes keylen; if eof : bool then st_err ErrUnexpectedEOF else st_ret buf.

(** [int(code) - int(PUSH1) + 1] when it is one of 1 to 16. *)
Definition small_num (code : Z) : option Z :=
  let num := code - PUSH1 + 1 in if (1 <=? num) && (num <=? 16) then Some num else None.

Definition ReadNum : ST ZeroCopySource Z :=
  do code <- PeekOpCode;
  if code =? PUSH0 then do_ ReadOpCode; st_ret 0
  else match small_num code with
       | Some num => do_ ReadOpCode; st_ret num
       | None =>
           do buff <- ReadBytes;
           let num := s64 (BigIntFromNeoBytes buff) in
           if (2 ^ 16 - 1 <? num) || (num <=? 16) then st_err "num not in range (16, MaxUint16]" else st_ret num
       end.

Definition key_of (buf : list byte) : ST ZeroCopySource PublicKey :=
  match DeserializePublicKey buf with Some k => st_ret k | None => st_err "deserializing public key failed" end.
Definition ReadPubKey : ST ZeroCopySource PublicKey := do buf <- ReadBytes; key_of buf.

(** The elements up to [CHECKMULTISIG]; each takes at least a byte. *)
Fixpoint read_elements (fuel : nat) : ST ZeroCopySource (list (list byte)) :=
  match fuel with
  | O => st_panic
  | S f =>
      do code <- PeekOpCode;
      if code =? CHECKMULTISIG then do_ ReadOpCode; st_ret []
      else
        do buff <- (if code =? PUSH0 then do_ ReadOpCode; st_ret (BigIntToNeoBytes 0)
                    else match small_num code with
                         | Some num => do_ ReadOpCode; st_ret (BigIntToNeoBytes num)
                         | None => ReadBytes
                         end);
        do l <- read_elements f; st_ret (buff :: l)
  end.

Fixpoint keys_of (l : list (list byte)) : ST ZeroCopySource (list PublicKey) :=
  match l with [] => st_ret [] | b :: l => do k <- key_of b; do ks <- keys_of l; st_ret (k :: ks) end.

Definition parse_single : ST ZeroCopySource ProgramInfo :=
  do pubkey <- ReadPubKey; do_ ExpectEOF; st_ret (mkInfo [pubkey] 1).

Definition parse_multi (fuel : nat) : ST ZeroCopySource ProgramInfo :=
  do m <- ReadNum;
  do keys <- read_list ReadPubKey m;
  do buffers <- read_elements fuel;
  do_ ExpectEOF;
  match rev buffers with
  | [] => st_err "missing pubkey length"
  | last :: before =>
      let n := s64 (big_SetBytes last) in
      do more <- keys_of (rev before);
      let keys := keys ++ more in
      if negb (zlen keys =? n) then st_err "number of pubkeys unmarched"
      else if negb (multi_sig_ok m n) then st_err "wrong multi-sig param"
      else st_ret (mkInfo keys m)
  end.

(** Runs a parser on a whole program. *)
Definition parsed {A} (r : ST ZeroCopySource A) (prog : list byte) : res A := let* '(a, _) := r (NewZeroCopySource prog) in Ok a.

Definition GetProgramInfo (program : list byte) : res ProgramInfo :=
  if zlen program <=? 2 then Err "wrong program"
  else
    let end_ := bz (List.last program x00) in
    if end_ =? CHECKSIG then parsed parse_single (take (length program - 1) program)
    else if end_ =? CHECKMULTISIG then parsed (parse_multi (S (length program))) program
    else Err "unsupported program".

Fixpoint read_params (fuel : nat) : ST ZeroCopySource (list (list byte)) :=
  match fuel with
  | O => st_panic
  | S f => do self <- st_get;
           if Source.Len self =? 0 then st_ret [] else do sig <- ReadBytes; do l <- read_params f; st_ret (sig :: l)
  end.
Definition GetParamInfo (program : list byte) : res (list (list byte)) := parsed (read_params (S (length program))) program.

(** ** Signatures and addresses *)

Record Sig := mkSigT { s_SigData : list (list byte); s_PubKeys : list PublicKey; s_M : Z }.

Definition verification_script (self : Sig) : res (list byte) :=
  match s_PubKeys self with
  | [] => Err "no pubkeys in sig"
  | [k] => ProgramFromPubKey k
  | ks => ProgramFromMultiPubKey ks (s_M self)
  end.

Definition GetRawSig (self : Sig) : res RawSig :=
  let* invocationScript := ProgramFromParams (s_SigData self) in
  let* verificationScript := verification_script self in
  Ok (mkRawSig invocationScript verificationScript).

Definition GetSig (self : RawSig) : res Sig :=
  let* sigs := GetParamInfo (Invoke self) in
  let* info := GetProgramInfo (Verify self) in
  Ok (mkSigT sigs (PubKeys info) (M info)).

Definition encode_keys (self : Sig) : ST ZeroCopySink unit :=
  match s_PubKeys self with
  | [] => st_err "no pubkeys in sig"
  | [k] => EncodeSinglePubKeyProgramInto k
  | ks => EncodeMultiPubKeyProgramInto ks (s_M self)
  end.

(** Both scripts are encoded into a sink [temp] first, which is reset between them. *)
Definition Sig_Serialization (self : Sig) : ST ZeroCopySink unit :=
  do temp <- st_lift (let* '(_, t) := EncodeParamProgramInto (s_SigData self) (Sink.NewZeroCopySink None) in Ok t);
  do_ Sink.WriteVarBytes (Sink.Bytes temp);
  do temp <- st_lift (let* '(_, t) := (do_ Sink.Reset; encode_keys self) temp in Ok t);
  do_ Sink.WriteVarBytes (Sink.Bytes temp);
  st_ret ().

Context {HH : Hashes}.

Definition AddressFromPubKey (pubkey : PublicKey) : res (list byte) :=
  let* prog := ProgramFromPubKey pubkey in Ok (AddressFromVmCode prog).
Definition AddressFromMultiPubKeys (pubkeys : list PublicKey) (m : Z) : res (list byte) :=
  if negb (multi_sig_ok m (zlen pubkeys)) then Err "wrong multi-sig param"
  else let* prog := ProgramFromMultiPubKey pubkeys m in Ok (AddressFromVmCode prog).
Definition AddressFromBookkeepers (bookkeepers : list PublicKey) : res (list byte) :=
  match bookkeepers with
  | [k] => AddressFromPubKey k
  | _ => AddressFromMultiPubKeys bookkeepers (zlen bookkeepers - (zlen bookkeepers - 1) ÷ 3)
  end.

(** ** Mutable transactions *)

Record MutableTransaction := mkMutable { m_body : TxBody; m_Sigs : list Sig }.

Definition mutable_serialize (tx : MutableTransaction) : ST ZeroCopySink unit :=
  do_ Tx.serializeUnsigned (m_body tx);
  do_ Sink.WriteVarUint (zlen (m_Sigs tx));
  write_all Sig_Serialization (m_Sigs tx).

Definition IntoImmutable (self : MutableTransaction) : res Transaction :=
  let* raw := written (mutable_serialize self) in Tx.TransactionFromRawBytes raw.

Definition mutable_Hash (self : MutableTransaction) : res Merkle.Uint256 :=
  match IntoImmutable self with Ok tx => Ok (Tx.Hash tx) | Err _ => Ok Merkle.EMPTY_HASH | Panic => Panic end.

(** An error leaves no addresses. *)
Fixpoint signature_addresses (l : list Sig) : res (list (list byte)) :=
  match l with
  | [] => Ok []
  | sig :: l =>
      let* a := (if zlen (s_PubKeys sig) =? 1 then match s_PubKeys sig with k :: _ => AddressFromPubKey k | [] => Panic end
                 else AddressFromMultiPubKeys (s_PubKeys sig) (s_M sig)) in
      let* addrs := signature_addresses l in Ok (a :: addrs)
  end.
Definition mutable_GetSignatureAddresses (self : MutableTransaction) : res (list (list byte)) :=
  match signature_addresses (m_Sigs self) with Err _ => Ok [] | r => r end.

Fixpoint get_sigs (l : list RawSig) : res (list Sig) :=
  match l with [] => Ok [] | raw :: l => let* sig := GetSig raw in let* sigs := get_sigs l in Ok (sig :: sigs) end.
Definition IntoMutable (tx : Transaction) : res MutableTransaction :=
  let* sigs := get_sigs (Sigs tx) in Ok (mkMutable (t_body tx) sigs).

End Program.
