(* ===== verification/ProgramSpec.v ===== *)
(** * Signature programs are read back

    The scripts built for keys and signatures are parsed to the same keys and signatures, so a mutable transaction survives being made
    immutable; the address of a set of keys does not depend on the order in which they are given. *)

From S2P Require Import Prelude Codec BigInt Merkle LedgerTypes Decode LedgerCodec LedgerExample LedgerSpec Program.

(** ** Pushes *)

Lemma zlen_one {A} (x : A) : zlen [x] = 1. Proof. reflexivity. Qed.

Definition push_prefix (n : Z) : list byte :=
  if n <=? 75 then [zb n] else if n <? 0x100 then [zb PUSHDATA1; zb n] else if n <? 0x10000 then zb PUSHDATA2 :: z2le 2 n else zb PUSHDATA4 :: z2le 4 n.
Definition push_wire (d : list byte) : list byte := push_prefix (zlen d) ++ d.
Definition pushable (d : list byte) : Prop := 1 <= zlen d < 2 ^ 32.

Lemma push_wire_pos d : 0 < zlen (push_wire d).
Proof. unfold push_wire, push_prefix. pose proof (zlen_nonneg d). repeat case_match; rewrite zlen_app; cbn [app]; rewrite ?zlen_cons; pose proof (zlen_nonneg (z2le 2 (zlen d))); pose proof (zlen_nonneg (z2le 4 (zlen d))); unfold zlen in *; cbn [length] in *; lia. Qed.

Lemma appends_PushBytes d : pushable d -> Sink.appends (PushBytes d) () (push_wire d).
Proof.
  intros [H1 H2]. unfold PushBytes, push_wire, push_prefix, PUSHBYTES75, PUSHBYTES1. rewrite (proj2 (Z.eqb_neq (zlen d) 0)) by lia.
  change (75 + 1 - 1) with 75. replace (zlen d + 1 - 1) with (zlen d) by lia.
  eapply Sink.appends_bind; [|apply Sink.appends_WriteBytes; lia]. destruct (Z.leb_spec (zlen d) 75); [apply Sink.appends_WriteByte|].
  destruct (Z.ltb_spec (zlen d) 0x100); [apply (Sink.appends_bind _ _ () () [_] [_]); apply Sink.appends_WriteByte|].
  destruct (Z.ltb_spec (zlen d) 0x10000).
  - unfold u16. rewrite Z.mod_small by lia. apply (Sink.appends_bind _ _ () () [_]); [apply Sink.appends_WriteByte | apply Sink.appends_WriteUint16].
  - rewrite u32_small by words. apply (Sink.appends_bind _ _ () () [_]); [apply Sink.appends_WriteByte | apply Sink.appends_WriteUint32].
Qed.

Lemma parses_ReadOpCode b : parses ReadOpCode (bz b) [b].
Proof. eapply parses_bind'; [apply parses_NextByte | apply parses_ret]. Qed.

Lemma parses_ReadBytes d : pushable d -> parses ReadBytes d (push_wire d).
Proof.
  intros [H1 H2]. unfold ReadBytes, push_wire, push_prefix.
  assert (Hd : parses (do '(buf, eof) <- Source.NextBytes (zlen d); if eof : bool then st_err ErrUnexpectedEOF else st_ret buf) d d).
  { eapply parses_bind'; [apply parses_NextBytes; words | apply parses_ret]. }
  destruct (Z.leb_spec (zlen d) 75) as [Hs|Hs].
  { apply (parses_bind _ _ (zlen d) d [zb (zlen d)] d); [rewrite <- (bz_zb_small (zlen d)) at 1 by lia; apply parses_ReadOpCode|].
    rewrite (proj2 (Z.eqb_neq (zlen d) PUSHDATA4)), (proj2 (Z.eqb_neq (zlen d) PUSHDATA2)), (proj2 (Z.eqb_neq (zlen d) PUSHDATA1)) by (unfold PUSHDATA4, PUSHDATA2, PUSHDATA1; lia).
    rewrite (proj2 (Z.leb_le (zlen d) PUSHBYTES75)), (proj2 (Z.leb_le PUSHBYTES1 (zlen d))) by (unfold PUSHBYTES75, PUSHBYTES1; lia). cbn [andb].
    replace (zlen d - PUSHBYTES1 + 1) with (zlen d) by (unfold PUSHBYTES1; lia). exact Hd. }
  destruct (Z.ltb_spec (zlen d) 0x100) as [H3|H3]; [|destruct (Z.ltb_spec (zlen d) 0x10000) as [H4|H4]];
    cbn [app]; (eapply parses_bind_cons; [apply parses_ReadOpCode|]); rewrite bz_zb_small by (unfold PUSHDATA4, PUSHDATA2, PUSHDATA1; lia); cbn [Z.eqb PUSHDATA4 PUSHDATA2 PUSHDATA1 Pos.eqb].
  - apply (parses_bind _ _ (zlen d, false) d [zb (zlen d)] d); [|exact Hd]. unfold Source.NextUint8. eapply parses_bind'; [apply parses_NextByte|]. cbn beta iota. rewrite bz_zb_small by lia. apply parses_ret.
  - eapply parses_bind; [apply (parses_NextUintN 2); [lia | change (256 ^ Z.of_nat 2) with 65536; lia] | exact Hd].
  - eapply parses_bind; [apply (parses_NextUintN 4); [lia | change (256 ^ Z.of_nat 4) with 4294967296; lia] | exact Hd].
Qed.

(** The first byte of a short push is no other instruction. *)
Lemma push_head d : 1 <= zlen d < 2 ^ 8 -> exists b c, push_wire d = b :: c /\ 1 <= bz b <= 0x4C.
Proof.
  intros H. unfold push_wire, push_prefix. destruct (Z.leb_spec (zlen d) 75).
  - exists (zb (zlen d)), d. rewrite bz_zb_small by lia. split; [reflexivity | lia].
  - rewrite (proj2 (Z.ltb_lt (zlen d) 0x100)) by lia. exists (zb PUSHDATA1), (zb (zlen d) :: d). split; [reflexivity|]. rewrite bz_zb_small; unfold PUSHDATA1; lia.
Qed.

(** ** Numbers *)

Lemma small_op n : 1 <= n <= 16 -> bz (zb (n - 1 + PUSH1)) = n - 1 + PUSH1. Proof. intros H. apply bz_zb_small. unfold PUSH1. lia. Qed.

Lemma appends_PushNum n : 1 <= n <= 16 -> Sink.appends (PushNum n) () [zb (n - 1 + PUSH1)].
Proof.
  intros H. unfold PushNum. rewrite (proj2 (Z.eqb_neq n 0)), (proj2 (Z.leb_le n 16)) by lia. unfold u8. rewrite (Z.mod_small n) by lia.
  rewrite Z.mod_small by (unfold PUSH1; lia). apply Sink.appends_WriteByte.
Qed.

Lemma Peek_cons src b c : Source.wf src -> Source.rest src = b :: c -> PeekOpCode src = Ok (bz b, src).
Proof.
  intros W R. unfold PeekOpCode. rewrite (st_bind_eq _ _ _ _ _ (parses_ReadOpCode b src c W R)). unfold Source.BackUp, st_bind, st_ret, Source.adv, zlen. cbn [src_s src_off length].
  destruct W as [Ho Hl]. replace (src_off src + Z.of_nat 1 - 1) with (src_off src) by lia. rewrite u64_small by words. destruct src. reflexivity.
Qed.

Lemma small_num_op n : 1 <= n <= 16 -> small_num (n - 1 + PUSH1) = Some n.
Proof. intros H. unfold small_num. replace (n - 1 + PUSH1 - PUSH1 + 1) with n by lia. rewrite (proj2 (Z.leb_le 1 n)), (proj2 (Z.leb_le n 16)) by lia. reflexivity. Qed.

Lemma parses_ReadNum n : 1 <= n <= 16 -> parses ReadNum n [zb (n - 1 + PUSH1)].
Proof.
  intros H src c W R. unfold ReadNum. rewrite (st_bind_eq _ _ _ _ _ (Peek_cons _ _ _ W R)), small_op by exact H.
  rewrite (proj2 (Z.eqb_neq _ PUSH0)) by (unfold PUSH1, PUSH0; lia). rewrite small_num_op by exact H.
  rewrite (st_bind_eq _ _ _ _ _ (parses_ReadOpCode _ _ _ W R)). reflexivity.
Qed.

(** The number of keys is read as an unsigned big-endian number; up to 16 this is what was written. *)
Lemma small_neo n : 1 <= n <= 16 -> s64 (big_SetBytes (BigIntToNeoBytes n)) = n.
Proof.
  intros H. assert (F : forallb (fun i => s64 (big_SetBytes (BigIntToNeoBytes i)) =? i) (seqZ 1 16) = true) by (vm_compute; reflexivity).
  rewrite forallb_forall in F. apply Z.eqb_eq, F. apply list_elem_of_In, elem_of_seqZ. lia.
Qed.

Section Program.
Context {KP : Keypair}.

(** ** Keys *)

Definition key_push (k : PublicKey) : list byte := push_wire (SerializePublicKey k).
Lemma key_pushable k : pushable (SerializePublicKey k). Proof. pose proof (key_length k). unfold pushable. lia. Qed.

Lemma parses_ReadPubKey k : parses ReadPubKey k (key_push k).
Proof. eapply parses_bind'; [apply parses_ReadBytes, key_pushable|]. unfold key_of. cbn beta. rewrite key_roundtrip. apply parses_ret. Qed.

Lemma parses_key_list l : parses (read_list ReadPubKey (zlen l)) l (flat_map key_push l).
Proof. apply (read_list_in (ok := fun _ => True) (fun k _ => push_wire_pos _) (fun k _ => parses_ReadPubKey k)). apply Forall_true. auto. Qed.

Lemma keys_of_ok l : parses (keys_of (map SerializePublicKey l)) l [].
Proof.
  induction l as [|k l IH]; cbn [map keys_of]; [apply parses_ret|]. apply (parses_bind _ _ k _ [] []); [unfold key_of; rewrite key_roundtrip; apply parses_ret|].
  apply (parses_bind _ _ l _ [] []); [exact IH | apply parses_ret].
Qed.

Lemma parses_elements n l : 1 <= n <= 16 -> forall fuel, (length l + 2 <= fuel)%nat ->
  parses (read_elements fuel) (map SerializePublicKey l ++ [BigIntToNeoBytes n]) (flat_map key_push l ++ [zb (n - 1 + PUSH1)] ++ [zb CHECKMULTISIG]).
Proof.
  intros Hn. induction l as [|k l IH]; intros fuel Hf; cbn [map flat_map app length] in *.
  - destruct fuel as [|[|f]]; [lia | lia|]. intros src c W R. cbn [read_elements]. cbn [app] in R. rewrite (st_bind_eq _ _ _ _ _ (Peek_cons _ _ _ W R)), small_op by exact Hn.
    rewrite (proj2 (Z.eqb_neq _ CHECKMULTISIG)), (proj2 (Z.eqb_neq _ PUSH0)) by (unfold CHECKMULTISIG, PUSH1, PUSH0; lia). rewrite small_num_op by exact Hn.
    assert (P1 : parses (do_ ReadOpCode; st_ret (BigIntToNeoBytes n)) (BigIntToNeoBytes n) [zb (n - 1 + PUSH1)]) by (eapply parses_bind'; [apply parses_ReadOpCode | apply parses_ret]).
    destruct (took_split src [zb (n - 1 + PUSH1)] _ W R) as (s1 & T1 & R1). rewrite (st_bind_eq _ _ _ _ _ (parses_took _ _ _ _ _ P1 T1)).
    destruct (took_split s1 [zb CHECKMULTISIG] c (tk_wf' _ _ _ T1) R1) as (s2 & T2 & R2). pose proof (took_trans _ _ _ _ _ T1 T2) as T.
    assert (P2 : (do code <- PeekOpCode; if code =? CHECKMULTISIG then do_ ReadOpCode; st_ret [] else do buff <- (if code =? PUSH0 then do_ ReadOpCode; st_ret (BigIntToNeoBytes 0)
      else match small_num code with Some num => do_ ReadOpCode; st_ret (BigIntToNeoBytes num) | None => ReadBytes end); do l <- read_elements f; st_ret (buff :: l)) s1 = Ok ([], s2)).
    { rewrite (st_bind_eq _ _ _ _ _ (Peek_cons _ _ _ (tk_wf' _ _ _ T1) R1)). rewrite bz_zb_small by (unfold CHECKMULTISIG; lia). rewrite Z.eqb_refl.
      rewrite (st_bind_eq _ _ _ _ _ (parses_took _ _ _ _ _ (parses_ReadOpCode (zb CHECKMULTISIG)) T2)). reflexivity. }
    rewrite (st_bind_eq _ _ _ _ _ P2). rewrite (took_eq _ _ _ T). reflexivity.
  - destruct fuel as [|f]; [lia|]. specialize (IH f ltac:(lia)). intros src c W R. rewrite <- !app_assoc in R. destruct (push_head (SerializePublicKey k) (key_length k)) as (b & t & Eb & Hb).
    cbn [read_elements]. unfold key_push in R at 1. pose proof R as R'. rewrite Eb in R'. cbn [app] in R'. rewrite (st_bind_eq _ _ _ _ _ (Peek_cons _ _ _ W R')).
    rewrite (proj2 (Z.eqb_neq (bz b) CHECKMULTISIG)), (proj2 (Z.eqb_neq (bz b) PUSH0)) by (unfold CHECKMULTISIG, PUSH0; lia).
    assert (Es : small_num (bz b) = None) by (unfold small_num, PUSH1; rewrite (proj2 (Z.leb_gt 1 (bz b - 0x51 + 1))) by lia; reflexivity). rewrite Es.
    destruct (took_split src _ _ W R) as (s1 & T1 & R1). rewrite (st_bind_eq _ _ _ _ _ (parses_took _ _ _ _ _ (parses_ReadBytes _ (key_pushable k)) T1)).
    rewrite app_assoc in R1. pose proof (took_adv s1 _ c (tk_wf' _ _ _ T1) R1) as T2. pose proof (took_trans _ _ _ _ _ T1 T2) as T.
    rewrite (st_bind_eq _ _ _ _ _ (parses_took _ _ _ _ _ IH T2)), (took_eq _ _ _ T). unfold st_ret. do 4 f_equal. unfold key_push. rewrite <- !app_assoc. reflexivity.
Qed.

(** ** Whole programs *)

Definition single_wire (k : PublicKey) : list byte := key_push k ++ [zb CHECKSIG].
Definition multi_wire (keys : list PublicKey) (m : Z) : list byte :=
  [zb (m - 1 + PUSH1)] ++ flat_map key_push keys ++ [zb (zlen keys - 1 + PUSH1)] ++ [zb CHECKMULTISIG].

Lemma multi_sig_range m n : multi_sig_ok m n = true -> 1 <= m <= n /\ 1 < n <= 16.
Proof. unfold multi_sig_ok, MULTI_SIG_MAX_PUBKEY_SIZE. intros H. lia. Qed.

Lemma zlen_sorted l : zlen (SortPublicKeys l) = zlen l.
Proof. unfold zlen. rewrite (Permutation_length (sort_keys_perm l)). reflexivity. Qed.

Lemma appends_single k : Sink.appends (EncodeSinglePubKeyProgramInto k) () (single_wire k).
Proof. eapply Sink.appends_bind; [apply appends_PushBytes, key_pushable | apply Sink.appends_WriteByte]. Qed.

Lemma appends_multi keys m : multi_sig_ok m (zlen keys) = true -> Sink.appends (EncodeMultiPubKeyProgramInto keys m) () (multi_wire (SortPublicKeys keys) m).
Proof.
  intros H. destruct (multi_sig_range _ _ H) as [H1 H2]. unfold EncodeMultiPubKeyProgramInto, multi_wire. rewrite H. cbn [negb]. cbv zeta. rewrite zlen_sorted.
  unfold u16. rewrite !Z.mod_small by lia. eapply Sink.appends_bind; [apply appends_PushNum; lia|].
  eapply Sink.appends_bind; [apply appends_all, Forall_forall; intros k _; apply appends_PushBytes, key_pushable|].
  eapply Sink.appends_bind; [apply appends_PushNum; lia | apply Sink.appends_WriteByte].
Qed.

Lemma empty_written w bs : Sink.appends w () bs -> zlen bs + 9 <= 2 ^ 58 -> written_empty w = Ok bs.
Proof.
  intros H Hl. destruct (H (mkSink [] 0)) as (s & E & _ & B); [split; unfold Sink.cap, zlen; simpl; lia | simpl; lia|].
  unfold written_empty. rewrite E. cbn. unfold Sink.Bytes. rewrite B. reflexivity.
Qed.

Lemma key_push_length k : zlen (key_push k) <= 2 ^ 9.
Proof.
  pose proof (key_length k). unfold key_push, push_wire, push_prefix. destruct (zlen (SerializePublicKey k) <=? 75); [rewrite zlen_app; unfold zlen at 1; cbn [length]; lia|].
  rewrite (proj2 (Z.ltb_lt (zlen (SerializePublicKey k)) 0x100)) by lia. rewrite zlen_app. unfold zlen at 1. cbn [length]. lia.
Qed.

Lemma keys_length l : zlen (flat_map key_push l) <= 2 ^ 9 * zlen l.
Proof. induction l as [|k l IH]; cbn [flat_map]; [unfold zlen; cbn; lia|]. rewrite zlen_app, zlen_cons. pose proof (key_push_length k). lia. Qed.

Lemma multi_length keys m : zlen (multi_wire keys m) <= 2 ^ 9 * zlen keys + 3.
Proof. unfold multi_wire. rewrite !zlen_app. pose proof (keys_length keys). rewrite !zlen_one. lia. Qed.

Lemma parsed_all {A} (r : ST ZeroCopySource A) a bs : parses r a bs -> zlen bs < 2 ^ 63 -> parsed r bs = Ok a.
Proof. intros P Hl. destruct (parses_all r a bs P Hl) as (s & E & _). unfold parsed. rewrite E. reflexivity. Qed.

(** The end of the input is expected: the reader is followed by nothing. *)
Lemma ExpectEOF_end src : Source.wf src -> Source.rest src = [] -> ExpectEOF src = Ok ((), src).
Proof.
  intros W R. pose proof (Source.zlen_rest _ W) as Hz. rewrite R in Hz. unfold ExpectEOF, Source.Len. unfold zlen at 1 in Hz. cbn in Hz.
  rewrite (proj2 (Z.leb_le (zlen (src_s src)) (src_off src))) by lia. reflexivity.
Qed.

Lemma GetProgramInfo_single k : GetProgramInfo (single_wire k) = Ok (mkInfo [k] 1).
Proof.
  unfold GetProgramInfo, single_wire. pose proof (push_wire_pos (SerializePublicKey k)) as Hp. fold (key_push k) in Hp. pose proof (key_push_length k).
  assert (Hk : 2 <= zlen (key_push k)).
  { unfold key_push, push_wire. rewrite zlen_app. pose proof (key_length k). assert (0 < zlen (push_prefix (zlen (SerializePublicKey k)))); [|lia]. unfold push_prefix. repeat case_match; unfold zlen; cbn; lia. }
  rewrite zlen_app, zlen_one, (proj2 (Z.leb_gt _ 2)) by lia. rewrite List.last_last, bz_zb_small by (unfold CHECKSIG; lia). rewrite Z.eqb_refl.
  rewrite length_app. cbn [length]. replace (length (key_push k) + 1 - 1)%nat with (length (key_push k)) by lia. rewrite take_app_length.
  unfold parsed, parse_single. assert (W : Source.wf (NewZeroCopySource (key_push k))) by (apply Source.wf_new_source; lia).
  destruct (took_split (NewZeroCopySource (key_push k)) (key_push k) [] W) as (s & T & R); [rewrite app_nil_r; reflexivity|].
  rewrite (st_bind_eq _ _ _ _ _ (parses_took _ _ _ _ _ (parses_ReadPubKey k) T)), (st_bind_eq _ _ _ _ _ (ExpectEOF_end _ (tk_wf' _ _ _ T) R)). reflexivity.
Qed.

Lemma GetProgramInfo_multi keys m : multi_sig_ok m (zlen keys) = true -> GetProgramInfo (multi_wire keys m) = Ok (mkInfo keys m).
Proof.
  intros H. destruct (multi_sig_range _ _ H) as [H1 H2]. pose proof (multi_length keys m) as Hl. unfold GetProgramInfo.
  set (k1 := take (Z.to_nat m) keys). set (k2 := drop (Z.to_nat m) keys). assert (Hk : k1 ++ k2 = keys) by apply take_drop.
  assert (Hm : zlen k1 = m) by (unfold k1, zlen in *; rewrite length_take; lia).
  assert (Hw : multi_wire keys m = [zb (m - 1 + PUSH1)] ++ flat_map key_push k1 ++ (flat_map key_push k2 ++ [zb (zlen keys - 1 + PUSH1)] ++ [zb CHECKMULTISIG])).
  { unfold multi_wire. rewrite <- Hk at 1. rewrite flat_map_app, <- app_assoc. reflexivity. }
  assert (Hz : 2 < zlen (multi_wire keys m)).
  { unfold multi_wire. rewrite !zlen_app. assert (Hf : zlen keys <= zlen (flat_map key_push keys)) by (apply (flat_map_long (ok := fun _ => True)); [intros k _; apply push_wire_pos | apply Forall_true; auto]).
    rewrite !zlen_one. lia. }
  rewrite (proj2 (Z.leb_gt _ 2)) by lia. assert (Hlast : List.last (multi_wire keys m) x00 = zb CHECKMULTISIG) by (unfold multi_wire; rewrite !app_assoc; apply List.last_last).
  rewrite Hlast, bz_zb_small by (unfold CHECKMULTISIG; lia). cbn [Z.eqb CHECKMULTISIG CHECKSIG Pos.eqb]. unfold parsed, parse_multi.
  set (fuel := S (length (multi_wire keys m))). assert (W : Source.wf (NewZeroCopySource (multi_wire keys m))) by (apply Source.wf_new_source; lia).
  pose proof Hw as R. rewrite <- (Source.rest_new (multi_wire keys m)), <- (app_nil_r ([_] ++ _)), <- !app_assoc in R.
  destruct (took_split _ _ _ W R) as (s1 & T1 & R1). destruct (took_split _ _ _ (tk_wf' _ _ _ T1) R1) as (s2 & T2 & R2). rewrite !app_assoc in R2. rewrite <- (app_assoc (flat_map key_push k2)) in R2.
  destruct (took_split _ _ _ (tk_wf' _ _ _ T2) R2) as (s3 & T3 & R3). rewrite (st_bind_eq _ _ _ _ _ (parses_took _ _ _ _ _ (parses_ReadNum m ltac:(lia)) T1)).
  rewrite <- Hm at 1. rewrite (st_bind_eq _ _ _ _ _ (parses_took _ _ _ _ _ (parses_key_list k1) T2)).
  assert (Hf : (length k2 + 2 <= fuel)%nat) by (unfold fuel, k2, zlen in *; rewrite length_drop; assert (length keys <= length (multi_wire keys m))%nat; [|lia];
    assert (Hf : zlen keys <= zlen (flat_map key_push keys)) by (apply (flat_map_long (ok := fun _ => True)); [intros k _; apply push_wire_pos | apply Forall_true; auto]);
    unfold multi_wire, zlen in *; rewrite !length_app; lia).
  rewrite (st_bind_eq _ _ _ _ _ (parses_took _ _ _ _ _ (parses_elements (zlen keys) k2 ltac:(lia) fuel Hf) T3)).
  rewrite (st_bind_eq _ _ _ _ _ (ExpectEOF_end _ (tk_wf' _ _ _ T3) R3)). rewrite rev_app_distr. cbn [rev app]. rewrite rev_involutive, small_neo by lia.
  rewrite (st_bind_eq _ _ _ _ _ (parses_took _ _ _ _ _ (keys_of_ok k2) (took_nil _ (tk_wf' _ _ _ T3)))). cbv zeta. rewrite Hk, Z.eqb_refl, H. reflexivity.
Qed.

(** ** Signatures *)

Lemma params_read l : forall fuel src, Forall pushable l -> (length l < fuel)%nat -> Source.wf src -> Source.rest src = flat_map push_wire l ->
  exists s, read_params fuel src = Ok (l, s).
Proof.
  induction l as [|d l IH]; intros [|fuel] src Hok Hf W R; try (cbn in Hf; lia); cbn [read_params]; rewrite (st_bind_eq st_get _ _ _ _ eq_refl); cbn beta.
  - exists src. pose proof (ExpectEOF_end src W R) as E. unfold ExpectEOF in E. destruct (Source.Len src =? 0); [reflexivity | discriminate].
  - inversion Hok; subst. cbn [flat_map] in R. assert (Hlen : (Source.Len src =? 0) = false).
    { pose proof (Source.zlen_rest _ W) as Hz. rewrite R, zlen_app in Hz. pose proof (push_wire_pos d). pose proof (zlen_nonneg (flat_map push_wire l)).
      unfold Source.Len. rewrite (proj2 (Z.leb_gt _ _)) by lia. apply Z.eqb_neq. lia. }
    rewrite Hlen. destruct (took_split _ _ _ W R) as (s1 & T1 & R1). rewrite (st_bind_eq _ _ _ _ _ (parses_took _ _ _ _ _ (parses_ReadBytes d ltac:(assumption)) T1)).
    destruct (IH fuel s1 ltac:(assumption) ltac:(cbn in Hf; lia) (tk_wf' _ _ _ T1) R1) as (s & E). exists s. rewrite (st_bind_eq _ _ _ _ _ E). reflexivity.
Qed.

Lemma GetParamInfo_pushes l : Forall pushable l -> zlen (flat_map push_wire l) < 2 ^ 63 -> GetParamInfo (flat_map push_wire l) = Ok l.
Proof.
  intros Hok Hl. unfold GetParamInfo, parsed.
  assert (Hf : (length l < S (length (flat_map push_wire l)))%nat).
  { assert (Hf : zlen l <= zlen (flat_map push_wire l)) by (apply (flat_map_long (ok := pushable)); [intros d _; apply push_wire_pos | exact Hok]). unfold zlen in Hf. lia. }
  destruct (params_read l _ (NewZeroCopySource (flat_map push_wire l)) Hok Hf (Source.wf_new_source _ Hl) eq_refl) as (s & E). rewrite E. reflexivity.
Qed.


Record sig_good (s : Sig) : Prop := mkSigGood {
  sg_data : Forall pushable (s_SigData s);
  sg_keys : (exists k, s_PubKeys s = [k]) \/ multi_sig_ok (s_M s) (zlen (s_PubKeys s)) = true }.

Definition script_wire (s : Sig) : list byte := match s_PubKeys s with [k] => single_wire k | ks => multi_wire (SortPublicKeys ks) (s_M s) end.
Definition raw_of (s : Sig) : RawSig := mkRawSig (flat_map push_wire (s_SigData s)) (script_wire s).
(** Keys in their canonical order; the threshold of a single key is one. *)
Definition canon_sig (s : Sig) : Sig :=
  match s_PubKeys s with [k] => mkSigT (s_SigData s) [k] 1 | ks => mkSigT (s_SigData s) (SortPublicKeys ks) (s_M s) end.

(** A signature by one key, or by several. *)
Lemma sig_cases s : sig_good s -> (exists k, s_PubKeys s = [k]) \/ (exists k k' l, s_PubKeys s = k :: k' :: l /\ multi_sig_ok (s_M s) (zlen (k :: k' :: l)) = true).
Proof.
  intros [_ [H|H]]; [left; exact H|]. destruct (s_PubKeys s) as [|k [|k' l]]; [|left; exists k; reflexivity | right; exists k, k', l; split; [reflexivity | exact H]].
  destruct (multi_sig_range _ _ H) as [_ Hn]. unfold zlen in Hn. cbn in Hn. lia.
Qed.

Lemma script_length s : sig_good s -> zlen (script_wire s) <= 2 ^ 14.
Proof.
  intros H. unfold script_wire. destruct (sig_cases s H) as [[k ->]|(k & k' & l & -> & Hm)].
  - unfold single_wire. rewrite zlen_app, zlen_one. pose proof (key_push_length k). lia.
  - destruct (multi_sig_range _ _ Hm) as [_ Hn]. pose proof (multi_length (SortPublicKeys (k :: k' :: l)) (s_M s)) as Hl. rewrite zlen_sorted in Hl. lia.
Qed.

Lemma appends_keys s : sig_good s -> Sink.appends (encode_keys s) () (script_wire s).
Proof.
  intros H. unfold encode_keys, script_wire. destruct (sig_cases s H) as [[k ->]|(k & k' & l & -> & Hm)]; [apply appends_single | apply appends_multi, Hm].
Qed.

Lemma GetProgramInfo_script s : sig_good s -> GetProgramInfo (script_wire s) = Ok (mkInfo (s_PubKeys (canon_sig s)) (s_M (canon_sig s))).
Proof.
  intros H. unfold script_wire, canon_sig. destruct (sig_cases s H) as [[k ->]|(k & k' & l & -> & Hm)]; [apply GetProgramInfo_single|].
  cbn [s_PubKeys s_M]. apply GetProgramInfo_multi. rewrite zlen_sorted. exact Hm.
Qed.

Lemma canon_data s : s_SigData (canon_sig s) = s_SigData s.
Proof. unfold canon_sig. destruct (s_PubKeys s) as [|k [|k' l]]; reflexivity. Qed.

Lemma GetSig_raw_of s : sig_good s -> zlen (flat_map push_wire (s_SigData s)) < 2 ^ 63 -> GetSig (raw_of s) = Ok (canon_sig s).
Proof.
  intros H Hl. unfold GetSig, raw_of. cbn [Invoke Verify]. rewrite GetParamInfo_pushes by (auto; apply (sg_data _ H)). cbn [res_bind].
  rewrite GetProgramInfo_script by exact H. cbn [res_bind PubKeys M]. rewrite <- (canon_data s). destruct (canon_sig s). reflexivity.
Qed.

Lemma appends_Sig s : sig_good s -> zlen (flat_map push_wire (s_SigData s)) <= 2 ^ 57 -> Sink.appends (Sig_Serialization s) () (sig_wire (raw_of s)).
Proof.
  intros H Hl. unfold Sig_Serialization, sig_wire, raw_of. cbn [Invoke Verify]. pose proof (script_length s H) as Hs. pose proof (zlen_nonneg (flat_map push_wire (s_SigData s))).
  assert (Hd : Sink.appends (EncodeParamProgramInto (s_SigData s)) () (flat_map push_wire (s_SigData s))).
  { apply appends_all. eapply Forall_impl; [apply (sg_data _ H)|]. intros d. apply appends_PushBytes. }
  destruct (Hd (Sink.NewZeroCopySink None) Sink.wf_new_sink ltac:(simpl; lia)) as (t & Et & Wt & Bt). cbn [app] in Bt.
  assert (Er : Sink.Reset t = Ok ((), mkSink (sink_arr t) 0)).
  { unfold Sink.Reset, Sink.reslice. destruct Wt as [[Wt1 Wt2] Wt3]. rewrite (proj2 (Z.leb_le 0 (Sink.cap t))) by lia. reflexivity. }
  assert (Wr : Sink.wf (mkSink (sink_arr t) 0)) by (destruct Wt as [[Wt1 Wt2] Wt3]; split; unfold Sink.cap in *; cbn [sink_arr sink_len]; lia).
  destruct (appends_keys s H _ Wr ltac:(cbn [sink_len]; lia)) as (t' & Et' & Wt' & Bt').
  intros snk W Hz. rewrite Et. cbn [res_bind]. unfold st_lift at 1. unfold st_bind at 1. unfold Sink.Bytes at 1. rewrite Bt.
  rewrite !zlen_app in Hz. pose proof (enc_varbytes_length (flat_map push_wire (s_SigData s))). pose proof (enc_varbytes_length (script_wire s)). pose proof (zlen_nonneg (script_wire s)).
  destruct (Sink.appends_WriteVarBytes (flat_map push_wire (s_SigData s)) ltac:(lia) snk W ltac:(lia)) as (s1 & E1 & W1 & B1). change (sink_bytes (Sink.NewZeroCopySink None)) with (@nil byte). cbn [app].
  rewrite (st_bind_eq _ _ _ _ _ E1), (st_bind_eq _ _ _ _ _ Er), Et'. cbn [res_bind]. unfold st_lift, st_bind at 1. unfold Sink.Bytes. rewrite Bt'.
  assert (L1 : sink_len s1 = sink_len snk + zlen (enc_varbytes (flat_map push_wire (s_SigData s)))) by (rewrite <- !Sink.zlen_sink_bytes, B1, zlen_app by assumption; reflexivity).
  destruct (Sink.appends_WriteVarBytes (script_wire s) ltac:(lia) s1 W1 ltac:(lia)) as (s2 & E2 & W2 & B2). unfold sink_bytes at 1. cbn [sink_arr sink_len Z.to_nat take app].
  rewrite (st_bind_eq _ _ _ _ _ E2). exists s2. split; [reflexivity|]. split; [exact W2|]. rewrite B2, B1, app_assoc. reflexivity.
Qed.

(** ** Transactions *)

Lemma appends_payload ty p : payload_ok ty p -> zlen (payload_wire p) < 2 ^ 58 ->
  Sink.appends (match p with PDeploy pl => Payload.Deploy_Serialization pl | PInvoke pl => Payload.Invoke_Serialization pl end) () (payload_wire p).
Proof.
  intros H Hl. destruct p as [p|p]; cbn [payload_wire] in *.
  - apply appends_var_bytes. pose proof (enc_varbytes_length (i_Code p)). unfold invoke_wire in Hl. lia.
  - unfold deploy_wire in Hl. rewrite !zlen_app in Hl.
    pose proof (enc_varbytes_length (code p)). pose proof (enc_varbytes_length (Name p)). pose proof (enc_varbytes_length (d_Version p)).
    pose proof (enc_varbytes_length (Author p)). pose proof (enc_varbytes_length (Email p)). pose proof (enc_varbytes_length (Description p)).
    pose proof (zlen_nonneg (code p)). pose proof (zlen_nonneg (Name p)). pose proof (zlen_nonneg (d_Version p)). pose proof (zlen_nonneg (Author p)).
    pose proof (zlen_nonneg (Email p)). pose proof (zlen_nonneg (Description p)). rewrite zlen_one in Hl. unfold Payload.Deploy_Serialization, deploy_wire, Sink.WriteString.
    eapply Sink.appends_bind; [apply Sink.appends_WriteVarBytes; lia|]. eapply Sink.appends_bind; [apply Sink.appends_WriteByte|].
    eapply Sink.appends_bind; [apply Sink.appends_WriteVarBytes; lia|]. eapply Sink.appends_bind; [apply Sink.appends_WriteVarBytes; lia|].
    eapply Sink.appends_bind; [apply Sink.appends_WriteVarBytes; lia|]. eapply Sink.appends_bind; [apply Sink.appends_WriteVarBytes; lia|].
    eapply Sink.appends_bind'; [apply Sink.appends_WriteVarBytes; lia | apply Sink.appends_ret].
Qed.

Lemma appends_body b : body_ok b -> zlen (body_wire b) < 2 ^ 58 -> Sink.appends (Tx.serializeUnsigned b) () (body_wire b).
Proof.
  intros [H1 H2 H3 H4 H5] Hl. unfold body_wire in Hl. rewrite !zlen_app, !zlen_z2le, !zlen_one, H4 in Hl. pose proof (zlen_nonneg (enc_varuint 0)). unfold Tx.serializeUnsigned, body_wire.
  eapply Sink.appends_bind; [apply Sink.appends_WriteByte|]. eapply Sink.appends_bind; [apply Sink.appends_WriteByte|].
  eapply Sink.appends_bind; [apply Sink.appends_WriteUint32|]. eapply Sink.appends_bind; [apply Sink.appends_WriteUint64|].
  eapply Sink.appends_bind; [apply Sink.appends_WriteUint64|]. eapply Sink.appends_bind; [apply Sink.appends_WriteBytes; lia|].
  eapply Sink.appends_bind; [apply (appends_payload _ _ H5); lia|]. eapply Sink.appends_bind'; [apply Sink.appends_WriteVarUint; words | apply Sink.appends_ret].
Qed.

Definition mutable_wire (tx : MutableTransaction) : list byte := tx_wire (m_body tx) (map raw_of (m_Sigs tx)).

Lemma flat_map_map {A B C} (f : A -> B) (g : B -> list C) l : flat_map g (map f l) = flat_map (fun a => g (f a)) l.
Proof. induction l as [|a l IH]; cbn; [reflexivity | rewrite IH; reflexivity]. Qed.

(** Each script is shorter than the transaction. *)
Lemma sig_part tx s : s ∈ m_Sigs tx -> zlen (Invoke (raw_of s)) <= zlen (mutable_wire tx) /\ zlen (Verify (raw_of s)) <= zlen (mutable_wire tx).
Proof.
  intros H. pose proof (flat_map_part (fun s => sig_wire (raw_of s)) s _ H) as Hp. cbv beta in Hp. unfold mutable_wire, tx_wire. rewrite flat_map_map, !zlen_app.
  unfold sig_wire in Hp at 1. rewrite zlen_app in Hp. pose proof (enc_varbytes_length (Invoke (raw_of s))). pose proof (enc_varbytes_length (Verify (raw_of s))).
  pose proof (zlen_nonneg (body_wire (m_body tx))). pose proof (zlen_nonneg (enc_varuint (zlen (map raw_of (m_Sigs tx))))).
  pose proof (zlen_nonneg (Invoke (raw_of s))). pose proof (zlen_nonneg (Verify (raw_of s))). lia.
Qed.

Lemma appends_mutable tx : body_ok (m_body tx) -> Forall sig_good (m_Sigs tx) -> zlen (mutable_wire tx) <= Tx.MAX_TX_SIZE ->
  Sink.appends (mutable_serialize tx) () (mutable_wire tx).
Proof.
  intros Hb Hs Hz. assert (Hp := sig_part tx). unfold mutable_serialize, mutable_wire, tx_wire in *. rewrite !zlen_app in Hz. unfold Tx.MAX_TX_SIZE in Hz.
  set (raws := map raw_of (m_Sigs tx)) in *. pose proof (zlen_nonneg (enc_varuint (zlen raws))). pose proof (zlen_nonneg (flat_map sig_wire raws)). pose proof (zlen_nonneg (body_wire (m_body tx))).
  eapply Sink.appends_bind; [apply appends_body; [exact Hb | lia]|]. assert (Hn : zlen raws = zlen (m_Sigs tx)) by (unfold raws, zlen; rewrite length_map; reflexivity). rewrite Hn.
  assert (Hl : zlen raws <= zlen (flat_map sig_wire raws)).
  { apply (flat_map_long (ok := fun _ => True)); [|apply Forall_true; auto]. intros a _. unfold sig_wire. rewrite zlen_app. pose proof (enc_varbytes_pos (Invoke a)). pose proof (zlen_nonneg (enc_varbytes (Verify a))). lia. }
  pose proof (zlen_nonneg (m_Sigs tx)). eapply Sink.appends_bind; [apply Sink.appends_WriteVarUint; words|].
  unfold raws. rewrite flat_map_map. apply appends_all. rewrite Forall_forall in Hs |- *. intros s Hin. apply appends_Sig; [exact (Hs s Hin)|].
  destruct (Hp s Hin) as [Hi _]. cbn [raw_of Invoke] in Hi. rewrite !zlen_app in Hi. lia.
Qed.

Context {HH : Hashes}.

Lemma get_sigs_raw l : Forall sig_good l -> Forall (fun s => zlen (Invoke (raw_of s)) < 2 ^ 63) l -> get_sigs (map raw_of l) = Ok (map canon_sig l).
Proof.
  induction 1 as [|s l Hs _ IH]; intros Hl; [reflexivity|]. inversion Hl; subst. cbn [map get_sigs]. rewrite GetSig_raw_of by assumption. cbn [res_bind]. rewrite IH by assumption. reflexivity.
Qed.

(** ** No script panics the parser *)

(** A reader whose result satisfies [Q], followed by one that needs it. *)
Lemma np_bind_post {A B} (c : ST ZeroCopySource A) (k : A -> ST ZeroCopySource B) (Q : A -> Prop) : no_panic c ->
  (forall src a s, Source.wf src -> c src = Ok (a, s) -> Q a) -> (forall a, Q a -> no_panic (k a)) -> no_panic (st_bind c k).
Proof.
  intros [F N] HQ Hk. split.
  - intros src b s W E. apply st_bind_Ok in E as (a & s1 & E1 & E2). pose proof (F _ _ _ W E1) as F1. exact (fwd_trans _ _ _ F1 (proj1 (Hk a (HQ _ _ _ W E1)) _ _ _ (proj1 F1) E2)).
  - intros src W. unfold st_bind. specialize (N src W). destruct (c src) as [[a s]| |] eqn:E; [|discriminate|contradiction]. apply (Hk a (HQ _ _ _ W E)). exact (proj1 (F _ _ _ W E)).
Qed.

Lemma fwd_shorter src s : Source.wf src -> fwd src s -> zlen (Source.rest s) <= zlen (Source.rest src).
Proof. intros W (W' & S & O). rewrite (Source.zlen_rest _ W), (Source.zlen_rest _ W'), S. lia. Qed.

Lemma takes_bind {A B} (c : ST ZeroCopySource A) (k : A -> ST ZeroCopySource B) : no_panic c -> takes c -> (forall src a s, Source.wf src -> c src = Ok (a, s) -> forward (k a)) -> takes (st_bind c k).
Proof.
  intros [F _] T Hk src b s W E. apply st_bind_Ok in E as (a & s1 & E1 & E2). pose proof (F _ _ _ W E1) as F1. pose proof (T _ _ _ W E1).
  pose proof (fwd_shorter _ _ (proj1 F1) (Hk _ _ _ W E1 _ _ _ (proj1 F1) E2)). lia.
Qed.

Lemma np_ReadOpCode : no_panic ReadOpCode.
Proof. unfold ReadOpCode. np_steps. Qed.
Lemma ReadOpCode_cases src : Source.wf src -> match Source.rest src with [] => ReadOpCode src = Err ErrUnexpectedEOF | b :: _ => ReadOpCode src = Ok (bz b, Source.adv 1 src) end.
Proof.
  intros W. destruct (Source.rest src) as [|b c] eqn:R; [|exact (parses_ReadOpCode b src c W R)]. unfold ReadOpCode. rewrite (st_bind_eq _ _ _ _ _ (Source.NextByte_nil src W R)). reflexivity.
Qed.
Lemma takes_ReadOpCode : takes ReadOpCode.
Proof.
  intros src a s W E. pose proof (ReadOpCode_cases src W) as H. destruct (Source.rest src) as [|b c] eqn:R; [congruence|]. rewrite H in E. injection E as _ <-.
  pose proof (Source.zlen_rest _ W) as L. rewrite R, zlen_cons in L. pose proof (zlen_nonneg c).
  rewrite (Source.zlen_rest (Source.adv 1 src)) by (apply Source.wf_adv; [exact W | rewrite R, zlen_cons; lia]). rewrite ?R, zlen_cons. cbn [Source.adv src_s src_off]. lia.
Qed.
Lemma Peek_cases src : Source.wf src -> PeekOpCode src = Err ErrUnexpectedEOF \/ exists b c, Source.rest src = b :: c /\ PeekOpCode src = Ok (bz b, src).
Proof.
  intros W. pose proof (ReadOpCode_cases src W) as H. destruct (Source.rest src) as [|b c] eqn:R; [left|right; exists b, c; split; [reflexivity | exact (Peek_cons _ _ _ W R)]].
  unfold PeekOpCode, st_bind. rewrite H. reflexivity.
Qed.
Lemma np_PeekOpCode : no_panic PeekOpCode.
Proof.
  split.
  - intros src a s W E. destruct (Peek_cases src W) as [H|(b & c & _ & H)]; rewrite H in E; [discriminate|]. injection E as _ <-. split; [exact W | split; [reflexivity | lia]].
  - intros src W. destruct (Peek_cases src W) as [H|(b & c & _ & H)]; rewrite H; discriminate.
Qed.
#[local] Hint Resolve np_ReadOpCode np_PeekOpCode : np.

Lemma np_ReadBytes_tail code : 0 <= code < 256 ->
  no_panic (do '(keylen, eof) <- (if code =? PUSHDATA4 then Source.NextUint32
                        else if code =? PUSHDATA2 then Source.NextUint16
                        else if code =? PUSHDATA1 then Source.NextUint8
                        else if (code <=? PUSHBYTES75) && (PUSHBYTES1 <=? code) then st_ret (code - PUSHBYTES1 + 1, false)
                        else st_err "unexpected opcode");
  if eof : bool then st_err ErrUnexpectedEOF
  else do '(buf, eof) <- Source.NextBytes keylen; if eof : bool then st_err ErrUnexpectedEOF else st_ret buf).
Proof.
  intros Hc. apply (np_bind_post _ _ (fun p => is_u64 p.1)).
  - repeat apply np_if; try apply np_uint; try (unfold UINT32_SIZE, UINT16_SIZE; words); unfold Source.NextUint8; np_steps.
  - intros src [v e] s W. repeat case_match; intros E; try discriminate E.
    + apply (Source.NextUintN_range 4 src v e s W ltac:(lia) E).
    + apply (Source.NextUintN_range 2 src v e s W ltac:(lia) E).
    + unfold Source.NextUint8 in E. apply st_bind_Ok in E as ([b e'] & s1 & _ & E). injection E as <- _ _. cbn. pose proof (bz_range b). words.
    + injection E as <- _ _. cbn. unfold PUSHBYTES1. words.
  - intros [v e] Hv. cbn in Hv. apply np_if; [apply np_err|]. apply np_bind; [apply np_bytes, Hv|]. intros [buf e']. np_steps.
Qed.
Lemma ReadOpCode_byte src a s : Source.wf src -> ReadOpCode src = Ok (a, s) -> 0 <= a < 256.
Proof. intros W E. pose proof (ReadOpCode_cases src W) as H. destruct (Source.rest src) as [|b c]; [congruence|]. rewrite H in E. injection E as <- _. apply bz_range. Qed.
Lemma np_ReadBytes : no_panic ReadBytes.
Proof. apply (np_bind_post _ _ (fun c => 0 <= c < 256) np_ReadOpCode ReadOpCode_byte), np_ReadBytes_tail. Qed.
Lemma takes_ReadBytes : takes ReadBytes.
Proof. apply (takes_bind _ _ np_ReadOpCode takes_ReadOpCode). intros src a s W E. exact (proj1 (np_ReadBytes_tail a (ReadOpCode_byte _ _ _ W E))). Qed.
#[local] Hint Resolve np_ReadBytes : np.

Lemma np_key_of b : no_panic (key_of b).
Proof. unfold key_of. destruct (DeserializePublicKey b); auto with np. Qed.
#[local] Hint Resolve np_key_of : np.
Lemma np_ReadPubKey : no_panic ReadPubKey.
Proof. unfold ReadPubKey. np_steps. Qed.
Lemma takes_ReadPubKey : takes ReadPubKey.
Proof. apply (takes_bind _ _ np_ReadBytes takes_ReadBytes). intros src a s _ _. exact (proj1 (np_key_of a)). Qed.
Lemma np_ReadNum : no_panic ReadNum.
Proof. unfold ReadNum. np_steps. destruct (small_num _); np_steps. Qed.
Lemma np_keys_of l : no_panic (keys_of l).
Proof. induction l as [|b l IH]; cbn [keys_of]; [apply np_ret|]. np_steps. Qed.
Lemma np_ExpectEOF : no_panic ExpectEOF.
Proof.
  split; [|intros src _; unfold ExpectEOF; case_match; discriminate]. intros src a s W E. unfold ExpectEOF in E. case_match; [|discriminate]. injection E as _ <-. split; [exact W | split; [reflexivity | lia]].
Qed.
#[local] Hint Resolve np_ReadPubKey np_ReadNum np_keys_of np_ExpectEOF : np.

(** One element of a multi-signature script. *)
Definition read_element (code : Z) : ST ZeroCopySource (list byte) :=
  if code =? PUSH0 then do_ ReadOpCode; st_ret (BigIntToNeoBytes 0)
  else match small_num code with Some num => do_ ReadOpCode; st_ret (BigIntToNeoBytes num) | None => ReadBytes end.
Lemma np_element code : no_panic (read_element code) /\ takes (read_element code).
Proof.
  assert (H : forall v : list byte, no_panic (do_ ReadOpCode; st_ret v) /\ takes (do_ ReadOpCode; st_ret v)).
  { intros v. split; [np_steps|]. apply (takes_bind _ _ np_ReadOpCode takes_ReadOpCode). intros; apply forward_ret. }
  unfold read_element. destruct (_ =? _); [apply H|]. destruct (small_num code); [apply H | exact (conj np_ReadBytes takes_ReadBytes)].
Qed.
Lemma elements_forward fuel : forward (read_elements fuel).
Proof.
  induction fuel as [|f IH]; [intros src a s W E; discriminate E|]. cbn [read_elements]. apply forward_bind; [exact (proj1 np_PeekOpCode)|]. intros code.
  destruct (_ =? _); [apply forward_bind; [exact (proj1 np_ReadOpCode) | intros; apply forward_ret]|]. apply forward_bind; [exact (proj1 (proj1 (np_element code)))|].
  intros b. apply forward_bind; [exact IH | intros; apply forward_ret].
Qed.
Lemma elements_no_panic fuel : forall src, Source.wf src -> zlen (Source.rest src) < Z.of_nat fuel -> read_elements fuel src <> Panic.
Proof.
  induction fuel as [|f IH]; intros src W Hf; [pose proof (zlen_nonneg (Source.rest src)); lia|]. cbn [read_elements]. destruct (Peek_cases src W) as [H|(b & c & _ & H)].
  { unfold st_bind at 1. rewrite H. discriminate. }
  rewrite (st_bind_eq _ _ _ _ _ H). destruct (_ =? _); [apply np_next; [exact W | exact np_ReadOpCode | discriminate]|]. change (st_bind (read_element (bz b)) (fun buff => do l <- read_elements f; st_ret (buff :: l)) src <> Panic).
  destruct (np_element (bz b)) as [N T]. apply np_next; [exact W | exact N|]. intros buff s E F. pose proof (T _ _ _ W E). specialize (IH s (proj1 F) ltac:(lia)).
  unfold st_bind. destruct (read_elements f s) as [[l s']| |]; [discriminate | discriminate | contradiction].
Qed.

Lemma params_no_panic fuel : forall src, Source.wf src -> zlen (Source.rest src) < Z.of_nat fuel -> read_params fuel src <> Panic.
Proof.
  induction fuel as [|f IH]; intros src W Hf; [pose proof (zlen_nonneg (Source.rest src)); lia|]. cbn [read_params]. rewrite (st_bind_eq st_get _ _ _ _ eq_refl). cbn beta.
  destruct (_ =? 0); [discriminate|]. apply np_next; [exact W | exact np_ReadBytes|]. intros sig s E F. pose proof (takes_ReadBytes _ _ _ W E). specialize (IH s (proj1 F) ltac:(lia)).
  unfold st_bind. destruct (read_params f s) as [[l s']| |]; [discriminate | discriminate | contradiction].
Qed.

Lemma parsed_no_panic {A} (r : ST ZeroCopySource A) prog : r (NewZeroCopySource prog) <> Panic -> parsed r prog <> Panic.
Proof. unfold parsed. destruct (r _) as [[a s]| |]; [discriminate | discriminate | contradiction]. Qed.

Lemma multi_no_panic prog : zlen prog < 2 ^ 63 -> parse_multi (S (length prog)) (NewZeroCopySource prog) <> Panic.
Proof.
  intros Hl. pose proof (Source.wf_new_source prog Hl) as W. apply np_next; [exact W | exact np_ReadNum|]. intros m s1 _ F1. apply np_next; [exact (proj1 F1) | exact (np_read_list _ m np_ReadPubKey takes_ReadPubKey)|].
  intros keys s2 _ F2. pose proof (fwd_trans _ _ _ F1 F2) as F. pose proof (elements_no_panic (S (length prog)) s2 (proj1 F)) as N. unfold st_bind at 1.
  destruct (read_elements _ s2) as [[bufs s3]| |] eqn:E; [|discriminate | exfalso; apply N; [|reflexivity]].
  - apply np_next; [exact (proj1 (elements_forward _ _ _ _ (proj1 F) E)) | exact np_ExpectEOF|]. intros _ s4 _ F4. destruct (rev bufs) as [|last before]; [discriminate|]. cbv zeta.
    apply np_next; [exact (proj1 F4) | apply np_keys_of|]. intros more s5 _ _. repeat case_match; discriminate.
  - pose proof (fwd_shorter _ _ W F). pose proof (rest_short _ W). cbn [NewZeroCopySource src_s] in *. lia.
Qed.

Lemma GetSig_no_panic raw : zlen (Invoke raw) < 2 ^ 63 -> zlen (Verify raw) < 2 ^ 63 -> GetSig raw <> Panic.
Proof.
  intros Hi Hv. unfold GetSig. apply res_np_bind.
  - apply parsed_no_panic, params_no_panic; [apply Source.wf_new_source, Hi | apply rest_short, Source.wf_new_source, Hi].
  - intros sigs _. apply res_np_bind; [|discriminate]. unfold GetProgramInfo. destruct (_ <=? 2); [discriminate|]. cbv zeta. destruct (_ =? CHECKSIG).
    + apply parsed_no_panic. assert (N : no_panic parse_single) by (unfold parse_single; np_steps). apply N. apply Source.wf_new_source. unfold zlen in *. rewrite length_take. lia.
    + destruct (_ =? CHECKMULTISIG); [apply parsed_no_panic, multi_no_panic, Hv | discriminate].
Qed.

(** Nor is there a key whose address cannot be computed. *)
Lemma address_single k : AddressFromPubKey k = Ok (AddressFromVmCode (single_wire k)).
Proof.
  unfold AddressFromPubKey, ProgramFromPubKey. rewrite (empty_written _ _ (appends_single k)); [reflexivity|]. unfold single_wire. rewrite zlen_app, zlen_one. pose proof (key_push_length k). lia.
Qed.
Lemma address_multi_no_panic ks m : AddressFromMultiPubKeys ks m <> Panic.
Proof.
  unfold AddressFromMultiPubKeys. destruct (multi_sig_ok m (zlen ks)) eqn:E; cbn [negb]; [|discriminate]. unfold ProgramFromMultiPubKey.
  rewrite (empty_written _ _ (appends_multi ks m E)); [discriminate|]. pose proof (multi_length (SortPublicKeys ks) m). rewrite zlen_sorted in H. destruct (multi_sig_range _ _ E). lia.
Qed.

(** Signing survives encoding. A mutable transaction with well-formed fields and signatures, within the limits on size and number of
    signatures, becomes an immutable one with the same fields, hashed without its signatures, and the immutable one gives the mutable one back: same
    signatures and thresholds, the keys of each multi-signature in their canonical order. *)
Theorem mutable_transaction_roundtrip (mt : MutableTransaction) :
  body_ok (m_body mt) -> Forall sig_good (m_Sigs mt) -> zlen (m_Sigs mt) <= Tx.TX_MAX_SIG_SIZE -> zlen (mutable_wire mt) <= Tx.MAX_TX_SIZE ->
  exists tx, IntoImmutable mt = Ok tx /\ t_body tx = m_body mt /\ t_hash tx = sha256d (body_wire (m_body mt)) /\
    IntoMutable tx = Ok (mkMutable (m_body mt) (map canon_sig (m_Sigs mt))).
Proof.
  intros Hb Hs Hn Hz. assert (Hsig : Forall (fun s => zlen (Invoke (raw_of s)) < 2 ^ 63 /\ zlen (Verify (raw_of s)) < 2 ^ 63) (m_Sigs mt)).
  { apply Forall_forall. intros s Hin. destruct (sig_part mt s Hin). unfold Tx.MAX_TX_SIZE in Hz. lia. }
  set (tx := mkTx (m_body mt) (map raw_of (m_Sigs mt)) (mutable_wire mt) (sha256d (body_wire (m_body mt))) [] true).
  assert (Htx : tx_ok tx).
  { constructor; cbn [t_body Sigs Raw t_hash SignedAddr nonDirectConstracted tx]; try reflexivity; try assumption; [|unfold zlen in *; rewrite length_map; exact Hn].
    apply Forall_map. eapply Forall_impl; [exact Hsig|]. intros s [H1 H2]. split; assumption. }
  exists tx. unfold IntoImmutable. rewrite (written_appends _ _ (appends_mutable mt Hb Hs Hz)) by (unfold Tx.MAX_TX_SIZE in Hz; lia). cbn [res_bind].
  split; [|split; [reflexivity | split; [reflexivity|]]].
  - unfold Tx.TransactionFromRawBytes. rewrite (proj2 (Z.ltb_ge _ _)) by exact Hz.
    destruct (parses_all _ _ _ (ex_in _ _ _ exact_tx tx Htx) ltac:(unfold Tx.MAX_TX_SIZE in *; cbn [Raw tx]; lia)) as (s & E & _). cbn [Raw tx] in E. rewrite E. reflexivity.
  - unfold IntoMutable. cbn [Sigs t_body tx]. rewrite get_sigs_raw; [reflexivity | exact Hs|]. eapply Forall_impl; [exact Hsig|]. intros s [H1 _]. exact H1.
Qed.

(** The address of a multi-signature account does not depend on the order of its keys, nor does that of a set of bookkeepers. *)
Theorem multisig_address_order_independent (ks ks' : list PublicKey) (m : Z) : ks ≡ₚ ks' ->
  AddressFromMultiPubKeys ks m = AddressFromMultiPubKeys ks' m /\ AddressFromBookkeepers ks = AddressFromBookkeepers ks'.
Proof.
  intros H. assert (Hl : zlen ks = zlen ks') by (unfold zlen; rewrite (Permutation_length H); reflexivity).
  assert (Hm : forall m, AddressFromMultiPubKeys ks m = AddressFromMultiPubKeys ks' m).
  { intros m'. unfold AddressFromMultiPubKeys, ProgramFromMultiPubKey, EncodeMultiPubKeyProgramInto. rewrite Hl, (sort_keys_canonical _ _ H). reflexivity. }
  split; [apply Hm|]. unfold AddressFromBookkeepers. destruct ks as [|a [|b ks]], ks' as [|a' [|b' ks']]; try (unfold zlen in Hl; cbn in Hl; lia).
  - reflexivity.
  - apply Permutation_singleton_inj in H as ->. reflexivity.
  - rewrite Hm, Hl. reflexivity.
Qed.

End Program.

(** ** A transaction signed by two of three keys *)

Definition multi_sig : Sig (KP := byte_keys) := mkSigT [[x11]; [x12]] [(x03 : @PublicKey byte_keys); x01; x02] 2.
Definition signed_tx : MutableTransaction (KP := byte_keys) :=
  mkMutable (mkBody x00 xd1 7 500 20000 (repeat x04 20) (PInvoke (mkInvoke [x51]))) [multi_sig].

Lemma mutable_transaction_roundtrip_witness : exists tx, IntoImmutable signed_tx = Ok tx /\
  IntoMutable tx = Ok (mkMutable (m_body signed_tx) [mkSigT [[x11]; [x12]] [(x01 : @PublicKey byte_keys); x02; x03] 2]).
Proof.
  destruct (mutable_transaction_roundtrip signed_tx) as (tx & E & _ & _ & E').
  - constructor; cbn; try lia; try reflexivity. split; [left; reflexivity | reflexivity].
  - apply Forall_singleton. constructor; [repeat constructor; vm_compute; discriminate | right; reflexivity].
  - vm_compute. discriminate.
  - vm_compute. discriminate.
  - exists tx. split; [exact E|]. rewrite E'. reflexivity.
Defined.

Lemma multisig_address_order_independent_witness :
  AddressFromMultiPubKeys [(x03 : @PublicKey byte_keys); x01] 2 = AddressFromMultiPubKeys [(x01 : @PublicKey byte_keys); x03] 2.
Proof. exact (proj1 (multisig_address_order_independent [(x03 : @PublicKey byte_keys); x01] [(x01 : @PublicKey byte_keys); x03] 2 (Permutation_swap _ _ _))). Defined.
