(* ===== verification/Validation.v ===== *)
(** * Signatures and validity

    [core/signature/signature.go] (one signature, several signatures), [core/validation/transaction_validator.go]
    and [block_validator.go]: when a transaction or a block is valid by itself.  The signature scheme, the
    check of a WebAssembly module and the headers of the ledger are parameters. *)

From S2P Require Import Prelude Codec Merkle LedgerTypes Program.

(** ** Error codes ([errors/errcode.go]) *)

Definition ErrNoError : Z := 0.
Definition ErrUnknown : Z := -1.
Definition ErrDuplicatedTx : Z := 45002.
Definition ErrDuplicateInput : Z := 45003.
Definition ErrTransactionPayload : Z := 45008.
Definition ErrDoubleSpend : Z := 45009.
Definition ErrRetryExhausted : Z := 45015.
Definition ErrTxPoolFull : Z := 45016.
Definition ErrGasPrice : Z := 45020.
Definition ErrVerifySignature : Z := 45021.

(** The signature library: a signature is read from bytes and checked under a key; and whether
    a WebAssembly module is accepted. *)
Class SigLib {K : Keypair} := {
  Signature : Type;
  s_Deserialize : list byte -> option Signature;
  s_Verify : PublicKey -> list byte -> Signature -> bool;
  ReadWasmModule : list byte -> bool
}.

Section Validation.
Context {K : Keypair} {HH : Hashes} {SL : SigLib}.

(** ** [core/signature/signature.go] *)

Definition Verify_sig (pubKey : PublicKey) (data signature : list byte) : res unit :=
  match s_Deserialize signature with
  | None => Err "invalid signature data"
  | Some sigObj => if s_Verify pubKey data sigObj then Ok () else Err "signature verification failed"
  end.

(** The inner loop: the first key that is not used yet and accepts the signature is marked. *)
Fixpoint mark_key (data : list byte) (sig : Signature) (keys : list PublicKey) (mask : list bool) : option (list bool) :=
  match keys, mask with
  | k :: keys, b :: mask =>
      if b then cons b <$> mark_key data sig keys mask
      else if s_Verify k data sig then Some (true :: mask) else cons b <$> mark_key data sig keys mask
  | _, _ => None
  end.

Fixpoint multi_loop (data : list byte) (keys : list PublicKey) (sigs : list (list byte)) (mask : list bool) : res unit :=
  match sigs with
  | [] => Ok ()
  | raw :: sigs =>
      match s_Deserialize raw with
      | None => Err "invalid signature data"
      | Some sig => match mark_key data sig keys mask with
                    | None => Err "multi-signature verification failed"
                    | Some mask => multi_loop data keys sigs mask
                    end
      end
  end.

(** The outer loop looks at the first [m] signatures. *)
Definition VerifyMultiSignature (data : list byte) (keys : list PublicKey) (m : Z) (sigs : list (list byte)) : res unit :=
  if zlen sigs <? m then Err "not enough signatures in multi-signature"
  else multi_loop data keys (take (Z.to_nat m) sigs) (replicate (length keys) false).

(** ** [core/validation/transaction_validator.go] *)

(** One entry of [tx.Sigs]: the address it stands for. *)
Definition check_sig (hash : Uint256) (sigdata : RawSig) : res (list byte) :=
  let* sig := GetSig sigdata in
  let m := s_M sig in let kn := zlen (s_PubKeys sig) in let sn := zlen (s_SigData sig) in
  if (MULTI_SIG_MAX_PUBKEY_SIZE <? kn) || (sn <? m) || (kn <? m) || (m <=? 0) then Err "wrong tx sig param length"
  else if kn =? 1 then
    match s_PubKeys sig, s_SigData sig with
    | k :: _, d :: _ =>
        match Verify_sig k hash d with
        | Ok _ => AddressFromPubKey k
        | Err _ => Err "signature verification failed"
        | Panic => Panic
        end
    | _, _ => Panic
    end
  else
    let* _ := VerifyMultiSignature hash (s_PubKeys sig) m (s_SigData sig) in
    AddressFromMultiPubKeys (s_PubKeys sig) m.

Fixpoint check_sigs (hash : Uint256) (sigs : list RawSig) (address : gset (list byte)) : res (gset (list byte)) :=
  match sigs with
  | [] => Ok address
  | sigdata :: sigs => let* a := check_sig hash sigdata in check_sigs hash sigs ({[a]} ∪ address)
  end.

Definition set_SignedAddr (tx : Transaction) (l : list (list byte)) : Transaction :=
  mkTx (t_body tx) (Sigs tx) (Raw tx) (t_hash tx) l (nonDirectConstracted tx).

(** On success [tx.SignedAddr] is set to the addresses, in the order in which the map is visited. *)
Definition checkTransactionSignatures (tx : Transaction) : res Transaction :=
  let* _ := guard (zlen (Sigs tx) <=? Tx.TX_MAX_SIG_SIZE) "transaction signature number exceeded" in
  let* address := check_sigs (Tx.Hash tx) (Sigs tx) ∅ in
  if bool_decide (Payer (t_body tx) ∈ address) then Ok (set_SignedAddr tx (elements address))
  else Err "signature missing for payer".

Definition checkTransactionPayload (tx : Transaction) : res unit :=
  match Payload_ (t_body tx) with
  | PDeploy deploy =>
      let* ty := Payload.VmType deploy in
      if ty =? Payload.WASMVM_TYPE then guard (ReadWasmModule (code deploy)) "invalid wasm module" else Ok ()
  | PInvoke _ => Ok ()
  end.

(** The code and the transaction afterwards; a panic of a check is the validator's. *)
Definition VerifyTransaction (tx : Transaction) : res (Z * Transaction) :=
  match checkTransactionSignatures tx with
  | Panic => Panic
  | Err _ => Ok (ErrVerifySignature, tx)
  | Ok tx =>
      match checkTransactionPayload tx with
      | Panic => Panic
      | Err _ => Ok (ErrTransactionPayload, tx)
      | Ok _ => Ok (ErrNoError, tx)
      end
  end.

(** ** [core/validation/block_validator.go] *)

Definition VerifyHeader (header : Header) (prevHeader : option Header) : res unit :=
  if Height header =? 0 then Ok ()
  else
    match prevHeader with
    | None => Err "[BlockValidator], can not find previous block."
    | Some prevHeader =>
        let* _ := guard (u32 (Height prevHeader + 1) =? Height header) "[BlockValidator], block height is incorrect." in
        let* _ := guard (negb (Timestamp header <=? Timestamp prevHeader)) "[BlockValidator], block timestamp is incorrect." in
        let* address := AddressFromBookkeepers (Bookkeepers header) in
        guard (bool_decide (NextBookkeeper prevHeader = address)) "bookkeeper address error"
    end.

(** [VerifyTransactionWithLedger] accepts everything. *)
Definition VerifyTransactionWithLedger (tx : Transaction) : Z := ErrNoError.

Fixpoint verify_txs (txs : list Transaction) : res unit :=
  match txs with
  | [] => Ok ()
  | tx :: txs =>
      let* '(errCode, tx) := VerifyTransaction tx in
      let* _ := guard (errCode =? ErrNoError) "VerifyTransaction failed when verifiy block" in
      let* _ := guard (VerifyTransactionWithLedger tx =? ErrNoError) "VerifyTransaction failed when verifiy block" in
      verify_txs txs
  end.

Definition VerifyBlock (block : Block) (GetHeaderByHash : Uint256 -> option Header) (completely : bool) : res unit :=
  let header := b_Header block in
  if Height header =? 0 then Ok ()
  else
    let n := zlen (Bookkeepers header) in
    let m := n - (n - 1) ÷ 3 in
    let* '(hash, block) := b_Hash block in
    let* _ := VerifyMultiSignature hash (Bookkeepers header) m (SigData header) in
    match GetHeaderByHash (PrevBlockHash header) with
    | None => Err "[BlockValidator], can not find prevHeader"
    | Some prevHeader =>
        let* _ := VerifyHeader (b_Header block) (Some prevHeader) in
        if completely then verify_txs (Transactions block) else Ok ()
    end.

End Validation.
