(* ===== verification/ValidationSpec.v ===== *)
(** * What validity means

    The greedy matching of signatures to keys finds a matching with distinct keys, and misses none when no
    signature is good under two of the keys; from it, what an accepted transaction and an accepted block
    have been signed with. *)

From S2P Require Import Prelude Codec Merkle LedgerTypes Decode LedgerCodec LedgerExample LedgerSpec Program ProgramSpec Validation.

Section Spec.
Context {K : Keypair} {HH : Hashes} {SL : SigLib}.
Implicit Types (data : list byte) (keys : list PublicKey) (mask : list bool).

(** ** Matchings *)

(** The signature [raw] is good under the key at position [j]. *)
Definition matched data keys (raw : list byte) (j : nat) : Prop :=
  exists k s, keys !! j = Some k /\ s_Deserialize raw = Some s /\ s_Verify k data s = true.

(** The first [m] signatures are good under keys at distinct positions. *)
Definition signed_by data keys (m : Z) (sigs : list (list byte)) : Prop :=
  m <= zlen sigs /\ exists js : list nat, NoDup js /\ Forall2 (matched data keys) (take (Z.to_nat m) sigs) js.

(** No signature is good under the keys of two positions. *)
Definition unambiguous data keys (sigs : list (list byte)) : Prop :=
  forall raw i j, raw ∈ sigs -> matched data keys raw i -> matched data keys raw j -> i = j.

Lemma mark_key_some data s keys mask mask' : mark_key data s keys mask = Some mask' ->
  exists j k, mask !! j = Some false /\ keys !! j = Some k /\ s_Verify k data s = true /\ mask' = <[j := true]> mask.
Proof.
  revert mask mask'. induction keys as [|k keys IH]; intros [|b mask] mask'; cbn; try discriminate.
  assert (H : forall o, cons b <$> o = Some mask' -> (forall m', o = Some m' -> exists j k0, mask !! j = Some false /\ keys !! j = Some k0 /\
    s_Verify k0 data s = true /\ m' = <[j := true]> mask) -> exists j k0, (b :: mask) !! j = Some false /\ (k :: keys) !! j = Some k0 /\
    s_Verify k0 data s = true /\ mask' = <[j := true]> (b :: mask)).
  { intros [m'|] [= <-] Ho. destruct (Ho m' eq_refl) as (j & k0 & ? & ? & ? & ->). exists (S j), k0. repeat split; assumption. }
  destruct b; [intros E; exact (H _ E (IH mask))|]. destruct (s_Verify k data s) eqn:Ev; [|intros E; exact (H _ E (IH mask))].
  intros [= <-]. exists O, k. repeat split. exact Ev.
Qed.

Lemma mark_key_found data s keys mask j k : mask !! j = Some false -> keys !! j = Some k -> s_Verify k data s = true ->
  exists mask', mark_key data s keys mask = Some mask'.
Proof.
  revert mask j. induction keys as [|k0 keys IH]; intros [|b mask] [|j]; cbn; try discriminate.
  - intros [= ->] [= ->] ->. eauto.
  - intros H1 H2 H3. destruct (IH mask j H1 H2 H3) as [m' ->]. destruct b; [cbn; eauto|]. destruct (s_Verify k0 data s); cbn; eauto.
Qed.

Lemma multi_loop_matches data keys sigs mask : multi_loop data keys sigs mask = Ok () ->
  exists js, NoDup js /\ Forall (fun j => mask !! j = Some false) js /\ Forall2 (matched data keys) sigs js.
Proof.
  revert mask. induction sigs as [|raw sigs IH]; intros mask; cbn; [intros _; exists []; repeat constructor|].
  destruct (s_Deserialize raw) as [s|] eqn:Es; [|discriminate]. destruct (mark_key data s keys mask) as [mask'|] eqn:Em; [|discriminate].
  intros E. destruct (mark_key_some _ _ _ _ _ Em) as (j & k & Hj & Hk & Hv & ->). destruct (IH _ E) as (js & Hn & Hf & H2). exists (j :: js).
  assert (Hjs : forall i, i ∈ js -> i <> j /\ mask !! i = Some false).
  { intros i Hi. rewrite Forall_forall in Hf. specialize (Hf i Hi). apply list_lookup_insert_Some in Hf as [(_ & [=] & _)|[Hne Hf]]. auto. }
  repeat split; [constructor; [intros Hi; exact (proj1 (Hjs j Hi) eq_refl) | exact Hn] | | constructor; [exists k, s; auto | exact H2]].
  constructor; [exact Hj|]. apply Forall_forall. intros i Hi. exact (proj2 (Hjs i Hi)).
Qed.

Lemma multi_loop_complete data keys sigs js mask : unambiguous data keys sigs -> NoDup js -> Forall (fun j => mask !! j = Some false) js ->
  Forall2 (matched data keys) sigs js -> multi_loop data keys sigs mask = Ok ().
Proof.
  intros Hu Hn Hf H2. revert mask Hn Hf. induction H2 as [|raw j sigs js (k & s & Hk & Hs & Hv) H2 IH]; intros mask Hn Hf; cbn; [reflexivity|].
  apply NoDup_cons in Hn as [Hnj Hn]. apply Forall_cons in Hf as [Hj Hf]. rewrite Hs. destruct (mark_key_found _ _ _ _ _ _ Hj Hk Hv) as [mask' Em]. rewrite Em.
  destruct (mark_key_some _ _ _ _ _ Em) as (i & k' & Hi & Hk' & Hv' & ->).
  assert (i = j) as -> by (apply (Hu raw); [left | exists k', s; auto | exists k, s; auto]).
  apply IH; [intros r a b Hr; apply Hu; right; exact Hr | exact Hn|]. apply Forall_forall. intros a Ha. rewrite list_lookup_insert_ne by (intros ->; exact (Hnj Ha)).
  exact (proj1 (Forall_forall _ _) Hf a Ha).
Qed.

Lemma fresh_mask keys js : Forall (fun j => (j < length keys)%nat) js -> Forall (fun j => replicate (length keys) false !! j = Some false) js.
Proof. intros H. eapply Forall_impl; [exact H|]. intros j Hj. apply lookup_replicate_2, Hj. Qed.

Lemma multi_signature_sound data keys m sigs : VerifyMultiSignature data keys m sigs = Ok () -> signed_by data keys m sigs.
Proof.
  unfold VerifyMultiSignature. destruct (Z.ltb_spec (zlen sigs) m) as [|Hm]; [discriminate|]. intros E. split; [lia|].
  destruct (multi_loop_matches _ _ _ _ E) as (js & Hn & _ & H2). exists js. auto.
Qed.

Lemma multi_signature_complete data keys m sigs : unambiguous data keys sigs -> signed_by data keys m sigs -> VerifyMultiSignature data keys m sigs = Ok ().
Proof.
  intros Hu (Hm & js & Hn & H2). unfold VerifyMultiSignature. rewrite (proj2 (Z.ltb_ge _ _)) by lia. apply multi_loop_complete with js; [|exact Hn| |exact H2].
  - intros raw i j Hr. apply Hu. apply elem_of_take in Hr as (n & Hr & _). exact (list_elem_of_lookup_2 _ _ _ Hr).
  - apply fresh_mask. apply Forall_forall. intros j Hj. apply list_elem_of_lookup in Hj as [i Hi].
    destruct (Forall2_lookup_r _ _ _ _ _ H2 Hi) as (raw & _ & (k & s & Hk & _)). apply lookup_lt_Some in Hk. exact Hk.
Qed.

(** ** Transactions *)

Definition sig_address (sig : Sig) : res (list byte) :=
  match s_PubKeys sig with [k] => AddressFromPubKey k | keys => AddressFromMultiPubKeys keys (s_M sig) end.

(** The address [a] has signed [hash] by the entry [raw]: the script names [n] keys and a threshold [m] between 1
    and [n], it hashes to [a], and [m] of the keys have signed. *)
Definition authorised (hash : Uint256) (raw : RawSig) (a : list byte) : Prop :=
  exists sig, GetSig raw = Ok sig /\ 1 <= s_M sig <= zlen (s_PubKeys sig) /\ sig_address sig = Ok a /\
    signed_by hash (s_PubKeys sig) (s_M sig) (s_SigData sig).

Lemma check_sig_authorised hash raw a : check_sig hash raw = Ok a -> authorised hash raw a.
Proof.
  unfold check_sig. destruct (GetSig raw) as [sig| |] eqn:Eg; [|discriminate|discriminate]. cbn [res_bind].
  destruct ((_ <? _) || (_ <? _) || (_ <? _) || (_ <=? _)) eqn:Eb; [discriminate|]. rewrite !orb_false_iff, !Z.ltb_ge, Z.leb_gt in Eb.
  intros E. exists sig. split; [exact Eg|]. split; [lia|]. destruct sig as [sigs keys m]; cbn [s_PubKeys s_SigData s_M sig_address] in *. unfold sig_address. cbn [s_PubKeys s_M].
  destruct (Z.eqb_spec (zlen keys) 1) as [Hk|Hk].
  - destruct keys as [|k [|? ?]]; try (exfalso; revert Hk; unfold zlen; cbn [length]; lia). destruct sigs as [|d sigs]; [discriminate|].
    destruct (Verify_sig k hash d) as [[]| |] eqn:Ev; try discriminate. split; [exact E|]. assert (m = 1) as -> by lia. split; [lia|].
    unfold Verify_sig in Ev. destruct (s_Deserialize d) as [s|] eqn:Es; [|discriminate]. destruct (s_Verify k hash s) eqn:Esv; [|discriminate].
    exists [O]. split; [apply NoDup_singleton|]. constructor; [exists k, s; auto | constructor].
  - destruct (VerifyMultiSignature hash keys m sigs) as [[]| |] eqn:Ev; try discriminate. cbn [res_bind] in E.
    split; [destruct keys as [|? [|? ?]]; [exact E | exfalso; apply Hk; reflexivity | exact E] | apply multi_signature_sound, Ev].
Qed.

Lemma check_sigs_authorised hash sigs acc address : check_sigs hash sigs acc = Ok address ->
  (forall a, a ∈ address <-> a ∈ acc \/ exists raw, raw ∈ sigs /\ check_sig hash raw = Ok a) /\
  (forall raw, raw ∈ sigs -> exists a, check_sig hash raw = Ok a).
Proof.
  revert acc. induction sigs as [|raw sigs IH]; intros acc; cbn; [intros [= <-]; split; [intros a; set_solver | set_solver]|].
  destruct (check_sig hash raw) as [a0| |] eqn:E0; try discriminate. cbn [res_bind]. intros E. destruct (IH _ E) as [H1 H2]. split.
  - intros a. rewrite H1. split.
    + intros [Ha|(r & Hr & Er)]; [|right; exists r; split; [right; exact Hr | exact Er]].
      apply elem_of_union in Ha as [Ha|Ha]; [|left; exact Ha]. apply elem_of_singleton in Ha as ->. right. exists raw. split; [left | exact E0].
    + intros [Ha|(r & Hr & Er)]; [left; set_solver|]. apply elem_of_cons in Hr as [->|Hr]; [left; rewrite E0 in Er; injection Er as ->; set_solver | right; eauto].
  - intros r Hr. apply elem_of_cons in Hr as [->|Hr]; eauto.
Qed.

Lemma valid_transaction_signed tx tx' : VerifyTransaction tx = Ok (ErrNoError, tx') ->
  t_body tx' = t_body tx /\ t_hash tx' = t_hash tx /\ Sigs tx' = Sigs tx /\ Payer (t_body tx) ∈ SignedAddr tx' /\
  (forall raw, raw ∈ Sigs tx -> exists a, a ∈ SignedAddr tx' /\ authorised (t_hash tx) raw a) /\
  (forall a, a ∈ SignedAddr tx' -> exists raw, raw ∈ Sigs tx /\ authorised (t_hash tx) raw a).
Proof.
  unfold VerifyTransaction. destruct (checkTransactionSignatures tx) as [t| |] eqn:E; try discriminate.
  intros H. assert (t = tx') as -> by (destruct (checkTransactionPayload t) as [[]| |]; [injection H as ->; reflexivity | discriminate H | discriminate H]). clear H.
  unfold checkTransactionSignatures in E. destruct (guard _ _) as [[]| |]; try discriminate. cbn [res_bind] in E.
  destruct (check_sigs (Tx.Hash tx) (Sigs tx) ∅) as [address| |] eqn:Ec; try discriminate. cbn [res_bind] in E.
  destruct (bool_decide_reflect (Payer (t_body tx) ∈ address)) as [Hp|]; [|discriminate]. injection E as <-. destruct (check_sigs_authorised _ _ _ _ Ec) as [H1 H2].
  cbn [set_SignedAddr t_body t_hash Sigs SignedAddr]. repeat split; [rewrite elem_of_elements; exact Hp | |].
  - intros raw Hr. destruct (H2 raw Hr) as [a Ha]. exists a. rewrite elem_of_elements, H1. split; [right; eauto | exact (check_sig_authorised _ _ _ Ha)].
  - intros a. rewrite elem_of_elements, H1. intros [Ha|(raw & Hr & Er)]; [set_solver|]. exists raw. split; [exact Hr | exact (check_sig_authorised _ _ _ Er)].
Qed.

(** ** The check of a transaction does not panic *)

(** Scripts of a length that a slice can have, and flags of the virtual machine that decoding accepts. *)
Definition checkable (tx : Transaction) : Prop :=
  Forall (fun raw => zlen (Invoke raw) < 2 ^ 63 /\ zlen (Verify raw) < 2 ^ 63) (Sigs tx) /\
  match Payload_ (t_body tx) with PDeploy deploy => Payload.VmType deploy <> Panic | PInvoke _ => True end.

Lemma multi_loop_no_panic data keys sigs mask : multi_loop data keys sigs mask <> Panic.
Proof. revert mask. induction sigs as [|raw sigs IH]; intros mask; cbn [multi_loop]; [discriminate|]. repeat case_match; [apply IH | discriminate ..]. Qed.

Lemma check_sig_no_panic hash raw : zlen (Invoke raw) < 2 ^ 63 /\ zlen (Verify raw) < 2 ^ 63 -> check_sig hash raw <> Panic.
Proof.
  intros [Hi Hv]. unfold check_sig. apply res_np_bind; [apply GetSig_no_panic; assumption|]. intros sig _. cbv zeta.
  destruct (_ || _) eqn:Eg; [discriminate|]. apply orb_false_elim in Eg as [Eg Hm]. apply orb_false_elim in Eg as [Eg _]. apply orb_false_elim in Eg as [_ Hs].
  destruct (Z.eqb_spec (zlen (s_PubKeys sig)) 1) as [Hk|_].
  - destruct (s_PubKeys sig) as [|k ks]; [discriminate Hk|]. destruct (s_SigData sig) as [|d ds]; [rewrite zlen_nil in Hs; lia|]. rewrite address_single.
    unfold Verify_sig. repeat case_match; discriminate.
  - apply res_np_bind; [unfold VerifyMultiSignature; case_match; [discriminate | apply multi_loop_no_panic] | intros _ _; apply address_multi_no_panic].
Qed.

Lemma VerifyTransaction_no_panic tx : checkable tx -> VerifyTransaction tx <> Panic.
Proof.
  intros [Hs Hp]. assert (Hc : forall l acc, Forall (fun raw => zlen (Invoke raw) < 2 ^ 63 /\ zlen (Verify raw) < 2 ^ 63) l -> check_sigs (Tx.Hash tx) l acc <> Panic).
  { induction l as [|raw l IH]; intros acc Hl; [discriminate|]. inversion Hl; subst. cbn [check_sigs]. apply res_np_bind; [apply check_sig_no_panic; assumption | intros a _; apply IH; assumption]. }
  assert (Hsig : checkTransactionSignatures tx <> Panic).
  { unfold checkTransactionSignatures. apply res_np_bind; [apply np_guard|]. intros _ _. apply res_np_bind; [apply Hc, Hs | intros address _; destruct (bool_decide _); discriminate]. }
  unfold VerifyTransaction. destruct (checkTransactionSignatures tx) as [t| |] eqn:E; [|discriminate | contradiction].
  assert (Hb : t_body t = t_body tx).
  { unfold checkTransactionSignatures in E. apply res_bind_Ok in E as (? & _ & E). apply res_bind_Ok in E as (? & _ & E). destruct (bool_decide _); [injection E as <-; reflexivity | discriminate]. }
  unfold checkTransactionPayload. rewrite Hb. destruct (Payload_ (t_body tx)) as [|deploy]; [discriminate|]. destruct (Payload.VmType deploy) as [ty| |]; [|discriminate | contradiction].
  cbn [res_bind]. destruct (ty =? _); [|discriminate]. unfold guard. destruct (ReadWasmModule _); discriminate.
Qed.

(** A decoded transaction is checkable. *)
Lemma decoded_checkable tx : tx_ok tx -> checkable tx.
Proof.
  intros H. split.
  - apply Forall_forall. intros raw Hr. pose proof (to_size _ H) as Hz. rewrite (to_raw _ H) in Hz. unfold tx_wire in Hz. rewrite !zlen_app in Hz.
    assert (Hp : zlen (sig_wire raw) <= zlen (flat_map sig_wire (Sigs tx))).
    { clear -Hr. induction (Sigs tx) as [|r l IH]; [inversion Hr|]. cbn [flat_map]. rewrite zlen_app. pose proof (zlen_nonneg (flat_map sig_wire l)). pose proof (zlen_nonneg (sig_wire r)).
      apply elem_of_cons in Hr as [->|Hr]; [lia | specialize (IH Hr); lia]. }
    set (all := flat_map sig_wire (Sigs tx)) in *. unfold sig_wire in Hp. rewrite zlen_app in Hp. pose proof (enc_varbytes_length (Invoke raw)). pose proof (enc_varbytes_length (Verify raw)).
    pose proof (zlen_nonneg (body_wire (t_body tx))). pose proof (zlen_nonneg (enc_varuint (zlen (Sigs tx)))). pose proof (zlen_nonneg (Invoke raw)). pose proof (zlen_nonneg (Verify raw)).
    unfold Tx.MAX_TX_SIZE in Hz. lia.
  - destruct (Payload_ (t_body tx)) as [|d] eqn:E; [exact I|]. pose proof (bo_payload _ (to_body _ H)) as Hp. rewrite E in Hp.
    destruct Hp as [_ Hp]. unfold deploy_ok, Payload.validateDeployCode in Hp. apply res_bind_Ok in Hp as (u & _ & Hp). apply res_bind_Ok in Hp as (ty & -> & _). discriminate.
Qed.

(** ** Blocks *)

(** [b], of a height other than 0, follows the header [prev] at [hash]: next height, later, by the
    bookkeepers that [prev] has announced, of whom [n - (n - 1) / 3] have signed. *)
Definition follows (prev : Header) (hash : Uint256) (b : Block) : Prop :=
  let h := b_Header b in let n := zlen (Bookkeepers h) in
  Height h = u32 (Height prev + 1) /\ Timestamp prev < Timestamp h /\ AddressFromBookkeepers (Bookkeepers h) = Ok (NextBookkeeper prev) /\
  signed_by hash (Bookkeepers h) (n - (n - 1) ÷ 3) (SigData h).

Lemma verify_txs_Ok txs : verify_txs txs = Ok () <-> Forall (fun tx => exists tx', VerifyTransaction tx = Ok (ErrNoError, tx')) txs.
Proof.
  induction txs as [|tx txs IH]; cbn; [split; auto|]. rewrite Forall_cons, <- IH. destruct (VerifyTransaction tx) as [[e tx']| |]; cbn [res_bind].
  - unfold guard. destruct (Z.eqb_spec e ErrNoError) as [->|Hne]; cbn [res_bind]; [split; [intros ->; eauto | intros [_ ->]; reflexivity]|].
    split; [discriminate|]. intros [[t [= ? ?]] _]. contradiction.
  - split; [discriminate | intros [[t [=]] _]].
  - split; [discriminate | intros [[t [=]] _]].
Qed.

Lemma b_Hash_same b hash b' : b_Hash b = Ok (hash, b') ->
  Height (b_Header b') = Height (b_Header b) /\ Timestamp (b_Header b') = Timestamp (b_Header b) /\
  Bookkeepers (b_Header b') = Bookkeepers (b_Header b) /\ Transactions b' = Transactions b.
Proof.
  unfold b_Hash, h_Hash. destruct (h_hash (b_Header b)); cbn [res_bind]; [intros [= _ <-]; auto|].
  destruct (written _) as [w| |]; cbn [res_bind]; try discriminate. intros [= _ <-]. auto.
Qed.

Lemma VerifyHeader_Ok h prev : Height h <> 0 -> VerifyHeader h (Some prev) = Ok () <->
  Height h = u32 (Height prev + 1) /\ Timestamp prev < Timestamp h /\ AddressFromBookkeepers (Bookkeepers h) = Ok (NextBookkeeper prev).
Proof.
  intros Hz. unfold VerifyHeader. rewrite (proj2 (Z.eqb_neq _ 0)) by exact Hz. unfold guard.
  destruct (Z.eqb_spec (u32 (Height prev + 1)) (Height h)) as [E1|E1]; cbn [res_bind]; [|split; [discriminate | intros (E & _); congruence]].
  destruct (Z.leb_spec (Timestamp h) (Timestamp prev)) as [E2|E2]; cbn [negb res_bind]; [split; [discriminate | lia]|].
  destruct (AddressFromBookkeepers (Bookkeepers h)) as [a| |]; cbn [res_bind]; [|split; [discriminate | intros (_ & _ & [=])] ..].
  destruct (bool_decide_reflect (NextBookkeeper prev = a)) as [->|Hn]; [split; auto|]. split; [discriminate|]. intros (_ & _ & [= ->]). contradiction.
Qed.

End Spec.

(** ** A concrete chain of two blocks *)

Module ValidationExample.
(** A signature is the key that made it. *)
#[export] Instance key_signatures : SigLib :=
  {| Signature := list byte; s_Deserialize := Some; s_Verify := fun (k : @PublicKey byte_keys) _ s => bool_decide (s = [k]); ReadWasmModule := fun _ => true |}.

Definition or_nil (r : res (list byte)) : list byte := match r with Ok l => l | _ => [] end.
Definition payer : list byte := or_nil (AddressFromPubKey (x07 : @PublicKey byte_keys)).
Definition payer_sig : RawSig := match GetRawSig (mkSigT [[x07]] [x07 : @PublicKey byte_keys] 1) with Ok r => r | _ => mkRawSig [] [] end.
Definition paid_tx : Transaction :=
  mkTx (mkBody x00 (zb Tx.InvokeNeo) 0 500 20000 payer (PInvoke (mkInvoke []))) [payer_sig] [] (repeat x0a 32) [] true.
Definition keepers : list (@PublicKey byte_keys) := [x01; x02; x03; x04].
Definition prev_header : Header := mkHeader 0 (repeat x00 32) (repeat x00 32) (repeat x00 32) 100 0 0 [] (or_nil (AddressFromBookkeepers keepers)) [] [] None.
Definition next_header : Header := mkHeader 0 (repeat x00 32) (repeat x00 32) (repeat x00 32) 101 1 0 [] [] keepers [[x04]; [x01]; [x02]] (Some (repeat x0b 32)).
Definition next_block : Block := mkBlock next_header [paid_tx].
End ValidationExample.

Import ValidationExample.
