(* ===== verification/Increment.v ===== *)
(** * The increment validator

    [validator/increment/increment.go]: consensus keeps the hashes of the transactions of the latest blocks, so that a proposal can be checked against blocks that the
    transaction pool's validators may not have seen.  Every method runs under the lock. *)

From S2P Require Import Prelude Codec Merkle LedgerTypes Program Validation ValidationSpec LedgerExample.

Record IncrementValidator := mkIV { blocks : list (gset Uint256); baseHeight : Z; maxBlocks : Z }.

Definition NewIncrementValidator (max : Z) : IncrementValidator := mkIV [] 0 (if max <=? 0 then 20 else max).
Definition Clean (self : IncrementValidator) : IncrementValidator := mkIV [] 0 (maxBlocks self).

(** [start, end) *)
Definition BlockRange (self : IncrementValidator) : Z * Z := (baseHeight self, u32 (baseHeight self + u32 (zlen (blocks self)))).

Section Increment.
Context {K : Keypair}.

Definition tx_hashes (txs : list Transaction) : gset Uint256 := foldl (fun m tx => {[Tx.Hash tx]} ∪ m) ∅ txs.

(** [self.blocks[1:]] of an empty slice panics, which needs [maxBlocks <= 0]. *)
Definition AddBlock (block : Block) (self : IncrementValidator) : res IncrementValidator :=
  let self := if zlen (blocks self) =? 0 then mkIV (blocks self) (Height (b_Header block)) (maxBlocks self) else self in
  if negb (u32 (baseHeight self + u32 (zlen (blocks self))) =? Height (b_Header block)) then Ok self
  else
    let* self := (if maxBlocks self <=? zlen (blocks self)
                  then match blocks self with [] => Panic | _ :: rest => Ok (mkIV rest (u32 (baseHeight self + 1)) (maxBlocks self)) end
                  else Ok self) in
    Ok (mkIV (blocks self ++ [tx_hashes (Transactions block)]) (baseHeight self) (maxBlocks self)).

(** [for i := int(startHeight - self.baseHeight); i < len(self.blocks); i++] *)
Definition increment_Verify (tx : Transaction) (startHeight : Z) (self : IncrementValidator) : res unit :=
  if startHeight <? baseHeight self then Err "can not do increment validation"
  else if existsb (fun m => bool_decide (Tx.Hash tx ∈ m)) (drop (Z.to_nat (u32 (startHeight - baseHeight self))) (blocks self)) then Err "tx duplicated" else Ok ().

(** Blocks in the order in which they are added. *)
Fixpoint AddBlocks (l : list Block) (self : IncrementValidator) : res IncrementValidator :=
  match l with [] => Ok self | b :: l => let* self := AddBlock b self in AddBlocks l self end.

(** ** Theory *)

Definition tx_in (tx : Transaction) (b : Block) : Prop := Tx.Hash tx ∈ map Tx.Hash (Transactions b).

Lemma tx_hashes_in h txs : h ∈ tx_hashes txs <-> h ∈ map Tx.Hash txs.
Proof.
  unfold tx_hashes. enough (H : forall acc, h ∈ foldl (fun m tx => {[Tx.Hash tx]} ∪ m) acc txs <-> h ∈ acc \/ h ∈ map Tx.Hash txs) by (rewrite H; set_solver).
  induction txs as [|tx txs IH]; intros acc; cbn; [set_solver|]. rewrite IH. set_solver.
Qed.

(** The chain from height [H]: consecutive heights, none past the width. *)
Definition consecutive (H : Z) (l : list Block) : Prop :=
  0 <= H /\ H + zlen l <= 2 ^ 32 - 1 /\ forall i b, l !! i = Some b -> Height (b_Header b) = H + Z.of_nat i.

(** The validator holds the blocks of the chain from position [k] on. *)
Definition holds (H : Z) (l : list Block) (k : nat) (v : IncrementValidator) : Prop :=
  (k <= length l)%nat /\ (l = [] \/ (k < length l)%nat) /\ blocks v = map (fun b => tx_hashes (Transactions b)) (drop k l) /\ (l = [] \/ baseHeight v = H + Z.of_nat k) /\ Z.of_nat (length l - k) <= maxBlocks v /\
  (0 < Z.of_nat k -> Z.of_nat (length l - k) = maxBlocks v).

Lemma consecutive_app H l b : consecutive H (l ++ [b]) -> consecutive H l /\ Height (b_Header b) = H + zlen l.
Proof.
  intros (H1 & H2 & H3). unfold zlen in *. rewrite length_app in H2. cbn in H2. split.
  - split; [exact H1|]. split; [unfold zlen; lia|]. intros i x Hx. apply (H3 i x). apply lookup_app_l_Some, Hx.
  - rewrite (H3 (length l) b); [lia|]. rewrite lookup_app_r by lia. rewrite Nat.sub_diag. reflexivity.
Qed.

Lemma AddBlock_holds H l b k v : 0 < maxBlocks v -> consecutive H (l ++ [b]) -> holds H l k v -> exists k' v', AddBlock b v = Ok v' /\ holds H (l ++ [b]) k' v' /\ maxBlocks v' = maxBlocks v.
Proof.
  intros Hm Hc (Hk & Hne & Hb & Hbase & Hlen & Hfull). pose proof (consecutive_app _ _ _ Hc) as [(Hc1 & Hc2 & Hc3) Hh]. destruct Hc as (_ & Hmax & _). unfold zlen in Hmax, Hh, Hc2. rewrite length_app in Hmax. cbn in Hmax.
  assert (Hz : length (blocks v) = (length l - k)%nat) by (rewrite Hb, length_map, length_drop; reflexivity).
  unfold AddBlock. destruct (Z.eqb_spec (zlen (blocks v)) 0) as [Ez|Ez]; cbn [blocks baseHeight maxBlocks].
  - assert (l = []) as -> by (destruct Hne as [->|Hlt]; [reflexivity | unfold zlen in Ez; lia]). cbn in *. assert (blocks v = []) as Eb by (apply nil_length_inv; lia). rewrite Eb.
    change (u32 (zlen [])) with 0. rewrite Z.add_0_r, u32_small by (unfold is_u32; lia). rewrite Z.eqb_refl. cbn [negb]. change (zlen []) with 0. rewrite (proj2 (Z.leb_gt _ _)) by lia. cbn.
    exists 0%nat, (mkIV [tx_hashes (Transactions b)] (Height (b_Header b)) (maxBlocks v)). split; [reflexivity|]. split; [|reflexivity].
    split; [cbn; lia|]. split; [right; cbn; lia|]. split; [reflexivity|]. split; [right; cbn; lia|]. split; [cbn; lia | cbn; lia].
  - assert (Hlt : (k < length l)%nat) by (destruct Hne as [->|Hlt]; [cbn in *; unfold zlen in Ez; lia | exact Hlt]). destruct Hbase as [->|Hbase]; [cbn in Hlt; lia|].
    unfold zlen in *. rewrite Hz, Hbase. rewrite (u32_small (Z.of_nat (length l - k))), u32_small by (unfold is_u32; lia).
    replace (H + Z.of_nat k + Z.of_nat (length l - k)) with (Height (b_Header b)) by lia. rewrite Z.eqb_refl. cbn [negb]. rewrite Hb. destruct (Z.leb_spec (maxBlocks v) (Z.of_nat (length l - k))) as [Hf|Hf].
    + destruct (drop k l) as [|x rest] eqn:Ed; [apply (f_equal length) in Ed; rewrite length_drop in Ed; cbn in Ed; lia|]. cbn [map res_bind]. eexists (S k), _. split; [reflexivity|]. cbn [maxBlocks]. split; [|reflexivity].
      assert (Er : rest = drop (S k) l) by (replace (S k) with (k + 1)%nat by lia; rewrite <- drop_drop, Ed; reflexivity).
      unfold holds. cbn [blocks baseHeight maxBlocks]. rewrite length_app. cbn [length]. split; [lia|]. split; [right; lia|].
      split; [rewrite drop_app_le by lia; rewrite map_app, <- Er; reflexivity|]. split; [right; rewrite u32_small by (unfold is_u32; lia); lia|]. split; lia.
    + cbn [res_bind]. eexists k, _. split; [reflexivity|]. cbn [maxBlocks]. split; [|reflexivity]. unfold holds. cbn [blocks baseHeight maxBlocks]. rewrite length_app. cbn [length]. split; [lia|]. split; [right; lia|].
      split; [rewrite drop_app_le by lia; rewrite Hb, map_app; reflexivity|]. split; [right; lia|]. split; [lia|]. intros Hk0. specialize (Hfull Hk0). lia.
Qed.

Lemma AddBlocks_app l1 l2 v : AddBlocks (l1 ++ l2) v = (let* v := AddBlocks l1 v in AddBlocks l2 v).
Proof. revert v. induction l1 as [|b l1 IH]; intros v; cbn; [reflexivity|]. destruct (AddBlock b v) as [v'| |]; cbn; [apply IH | reflexivity ..]. Qed.

Lemma AddBlocks_holds H l max : consecutive H l -> exists k v, AddBlocks l (NewIncrementValidator max) = Ok v /\ holds H l k v /\ 0 < maxBlocks v.
Proof.
  assert (Hm : 0 < maxBlocks (NewIncrementValidator max)) by (cbn; destruct (Z.leb_spec max 0); lia).
  induction l as [|b l IH] using rev_ind; intros Hc.
  - exists 0%nat, (NewIncrementValidator max). split; [reflexivity|]. split; [|exact Hm]. split; [cbn; lia|]. split; [left; reflexivity|]. split; [reflexivity|]. split; [left; reflexivity|]. cbn in *. lia.
  - destruct (IH (proj1 (consecutive_app _ _ _ Hc))) as (k & v & E & Hh & Hv). destruct (AddBlock_holds _ _ _ _ _ Hv Hc Hh) as (k' & v' & E' & Hh' & Em). exists k', v'.
    rewrite AddBlocks_app, E. cbn [res_bind AddBlocks]. rewrite E'. cbn. split; [reflexivity|]. split; [exact Hh' | lia].
Qed.

(** C35: the increment validator finds exactly the duplicates it can see.  After any consecutive blocks have been added to a new validator it holds the last
    [maxBlocks] of them (20 if the number asked for is not positive) and says so in [BlockRange]; asked about a transaction from a height in that range, it
    refuses it exactly when one of the blocks from that height on contains a transaction of the same hash, and below the range it refuses to answer. *)
Theorem increment_validator_exact (max H : Z) (l : list Block) (tx : Transaction) (start : Z) : consecutive H l -> l <> [] -> is_u32 start ->
  exists v, AddBlocks l (NewIncrementValidator max) = Ok v /\
    snd (BlockRange v) = H + zlen l /\ H <= fst (BlockRange v) /\ Z.of_nat (length (blocks v)) = Z.min (zlen l) (if max <=? 0 then 20 else max) /\
    (start < fst (BlockRange v) -> increment_Verify tx start v = Err "can not do increment validation") /\
    (fst (BlockRange v) <= start ->
       (increment_Verify tx start v = Ok () <-> forall b, b ∈ l -> start <= Height (b_Header b) -> ~ tx_in tx b) /\
       (increment_Verify tx start v = Ok () \/ increment_Verify tx start v = Err "tx duplicated")).
Proof.
  intros Hc Hne Hs. destruct (AddBlocks_holds H l max Hc) as (k & v & E & (Hk & Hk' & Hb & Hbase & Hlen & Hfull) & Hv). exists v. split; [exact E|].
  destruct Hk' as [->|Hlt]; [contradiction|]. destruct Hbase as [->|Hbase]; [contradiction|]. destruct Hc as (Hc1 & Hc2 & Hc3).
  assert (Hz : length (blocks v) = (length l - k)%nat) by (rewrite Hb, length_map, length_drop; reflexivity).
  assert (Emax : maxBlocks v = if max <=? 0 then 20 else max).
  { clear -E. change (if max <=? 0 then 20 else max) with (maxBlocks (NewIncrementValidator max)). revert E. generalize (NewIncrementValidator max). induction l as [|b l IH]; intros w; cbn; [intros [= ->]; reflexivity|].
    destruct (AddBlock b w) as [w'| |] eqn:Ea; cbn [res_bind]; try discriminate. intros E. rewrite (IH _ E). unfold AddBlock in Ea.
    destruct (zlen (blocks w) =? 0); cbn [blocks baseHeight maxBlocks] in Ea; destruct (negb _); try (injection Ea as <-; reflexivity);
    destruct (_ <=? _); try (destruct (blocks w); [discriminate|]); cbn [res_bind] in Ea; injection Ea as <-; reflexivity. }
  unfold BlockRange. cbn [fst snd]. unfold zlen in *. rewrite Hz, Hbase. rewrite (u32_small (Z.of_nat (length l - k))), u32_small by (unfold is_u32; lia).
  split; [lia|]. split; [lia|]. split; [rewrite <- Emax; destruct (Nat.eq_dec k 0%nat) as [->|Hk0]; [rewrite Nat.sub_0_r in *; lia | specialize (Hfull ltac:(lia)); lia]|].
  unfold increment_Verify. rewrite Hbase. split; [intros Hlt'; rewrite (proj2 (Z.ltb_lt _ _)) by exact Hlt'; reflexivity|]. intros Hge. rewrite (proj2 (Z.ltb_ge _ _)) by exact Hge.
  unfold is_u32 in Hs. rewrite u32_small by (unfold is_u32; lia). rewrite Hb, skipn_map, drop_drop. set (n := (k + Z.to_nat (start - (H + Z.of_nat k)))%nat).
  assert (Hn : Z.of_nat n = start - H) by (unfold n; lia).
  assert (Hex : existsb (fun m => bool_decide (Tx.Hash tx ∈ m)) (map (fun b => tx_hashes (Transactions b)) (drop n l)) = true <-> exists b, b ∈ l /\ start <= Height (b_Header b) /\ tx_in tx b).
  { rewrite existsb_exists. split.
    - intros (m & Hm & Hd). apply in_map_iff in Hm as (b & <- & Hin). apply bool_decide_eq_true, tx_hashes_in in Hd. apply list_elem_of_In, list_elem_of_lookup in Hin as [i Hi]. rewrite lookup_drop in Hi.
      exists b. split; [exact (list_elem_of_lookup_2 _ _ _ Hi)|]. split; [rewrite (Hc3 _ _ Hi); lia | exact Hd].
    - intros (b & Hin & Hst & Hd). apply list_elem_of_lookup in Hin as [i Hi]. pose proof (Hc3 _ _ Hi) as Hhi. exists (tx_hashes (Transactions b)). split; [|apply bool_decide_eq_true, tx_hashes_in, Hd].
      apply in_map_iff. exists b. split; [reflexivity|]. apply list_elem_of_In, list_elem_of_lookup. exists (i - n)%nat. rewrite lookup_drop. replace (n + (i - n))%nat with i by lia. exact Hi. }
  destruct (existsb _ _) eqn:Eb; (split; [|auto]).
  - split; [discriminate|]. intros Hall. destruct (proj1 Hex eq_refl) as (b & Hin & Hst & Hd). exfalso. exact (Hall b Hin Hst Hd).
  - split; [|reflexivity]. intros _ b Hin Hst Hd. discriminate (proj2 Hex (ex_intro _ b (conj Hin (conj Hst Hd)))).
Qed.
End Increment.

Import ValidationExample.
Definition block_at (height : Z) (txs : list Transaction) : Block := mkBlock (mkHeader 0 [] [] [] 0 height 0 [] [] ([] : list PublicKey) [] None) txs.
Lemma increment_validator_exact_witness : exists v, AddBlocks [block_at 7 [paid_tx]; block_at 8 []; block_at 9 []] (NewIncrementValidator 2) = Ok v /\
  (increment_Verify paid_tx 8 v = Ok () <-> forall b, b ∈ [block_at 7 [paid_tx]; block_at 8 []; block_at 9 []] -> 8 <= Height (b_Header b) -> ~ tx_in paid_tx b).
Proof.
  destruct (increment_validator_exact 2 7 [block_at 7 [paid_tx]; block_at 8 []; block_at 9 []] paid_tx 8) as (v & E & H1 & _ & H3 & _ & H); [| discriminate | unfold is_u32; lia|].
  - split; [lia|]. split; [unfold zlen; cbn; lia|]. intros [|[|[|i]]] b [= <-]; reflexivity.
  - exists v. split; [exact E|]. apply H. vm_compute in E. injection E as <-. vm_compute. discriminate.
Defined.
