(* ===== verification/TxPool.v ===== *)
(** * The pool of verified transactions

    [txnpool/common/transaction_pool.go] and the types and constants of [txnpool_common.go].  A pool is the map [txList];
    every method holds the pool's lock throughout, so each is one function of the map. *)

From stdpp Require Import sorting.
From S2P Require Import Prelude Codec Merkle LedgerTypes Program Validation.

(** ** What Go leaves open

    The order in which a map is visited, and where [sort.Sort] (which is not stable) puts elements that are not ordered
    by [Less]. *)

Definition weak_order {A} (less : A -> A -> bool) : Prop :=
  (forall x y, less x y = true -> less y x = false) /\
  (forall x y z, less x y = false -> less y z = false -> less x z = false).

Class GoRuntime := {
  range_map : forall K `{Countable K} V, gmap K V -> list (K * V);
  sort_Sort : forall A, (A -> A -> bool) -> list A -> list A;
  range_map_perm : forall K `{Countable K} V (m : gmap K V), range_map K V m ≡ₚ map_to_list m;
  sort_perm : forall A less (l : list A), sort_Sort A less l ≡ₚ l;
  sort_sorted : forall A less (l : list A), weak_order less -> StronglySorted (fun x y => less y x = false) (sort_Sort A less l)
}.
Arguments range_map {_} {_ _ _} {_} _.
Arguments sort_Sort {_} {_} _ _.

(** ** Data *)

(** [validator/types/messages.go] *)
Definition VerifyType_Stateless : Z := 0.
Definition VerifyType_Stateful : Z := 1.

Definition MAX_CAPACITY : Z := 100140.
Definition MAX_PENDING_TXN : Z := 4096 * 10.
Definition MAX_RETRIES : Z := 0.
Definition EXPIRE_INTERVAL : Z := 9.
Definition STATELESS_MASK : Z := 0x1.
Definition STATEFUL_MASK : Z := 0x2.
Definition VERIFY_MASK : Z := Z.lor STATELESS_MASK STATEFUL_MASK.
Definition MAX_LIMITATION : Z := 10000.
Definition UPDATE_FREQUENCY : Z := 100.
Definition MAX_TX_SIZE : Z := 1024 * 1024.

Record TXAttr := mkAttr { a_Height : Z; a_Type : Z; a_ErrCode : Z }.
Record TXEntry := mkEntry { e_Tx : Transaction; Attrs : list TXAttr }.
Abbreviation TXPool := (gmap Uint256 TXEntry).

Record VerifyTxResult := mkResult { v_Height : Z; v_Tx : Transaction; v_ErrCode : Z }.
Record CheckBlkResult := mkBlkResult { VerifiedTxs : list VerifyTxResult; UnverifiedTxs : list Transaction; OldTxs : list Transaction }.
Record TxStatus := mkStatus { st_Hash : Uint256; st_Attrs : list TXAttr }.

Definition tx_GasPrice (tx : Transaction) : Z := GasPrice (t_body tx).

(** [OrderByNetWorkFee]: a higher gas price comes first. *)
Definition fee_less (x y : TXEntry) : bool := tx_GasPrice (e_Tx y) <? tx_GasPrice (e_Tx x).

Section Pool.
Context {G : GoRuntime}.
Implicit Types (tp : TXPool) (tx : Transaction).

Definition pool_Init : TXPool := ∅.

Definition AddTxList (txEntry : TXEntry) tp : bool * TXPool :=
  let txHash := Tx.Hash (e_Tx txEntry) in
  match tp !! txHash with
  | Some _ => (false, tp)
  | None => (true, <[txHash := txEntry]> tp)
  end.

Definition CleanTransactionList (txs : list Transaction) tp : TXPool :=
  foldl (fun tp tx => match tp !! Tx.Hash tx with Some _ => delete (Tx.Hash tx) tp | None => tp end) tp txs.

Definition DelTxList tx tp : bool * TXPool :=
  match tp !! Tx.Hash tx with
  | None => (false, tp)
  | Some _ => (true, delete (Tx.Hash tx) tp)
  end.

(** False if some stateful check was made below [height]. *)
Definition compareTxHeight (txEntry : TXEntry) (height : Z) : bool :=
  forallb (fun v => negb ((a_Type v =? VerifyType_Stateful) && (a_Height v <? height))) (Attrs txEntry).

(** The loop of [GetTxPool] over the entries in order of fees. *)
Fixpoint select_txs (height count num : Z) (orderByFee : list TXEntry) : list TXEntry * list Transaction :=
  match orderByFee with
  | [] => ([], [])
  | txEntry :: rest =>
      if negb (compareTxHeight txEntry height) then
        let '(txList, oldTxList) := select_txs height count num rest in (txList, e_Tx txEntry :: oldTxList)
      else if count <=? num + 1 then ([txEntry], [])
      else let '(txList, oldTxList) := select_txs height count (num + 1) rest in (txEntry :: txList, oldTxList)
  end.

(** [maxTxInBlock] is [config.DefConfig.Consensus.MaxTxInBlock], a [uint]. *)
Definition GetTxPool (maxTxInBlock : Z) (byCount : bool) (height : Z) tp : list TXEntry * list Transaction :=
  let orderByFee := sort_Sort fee_less (range_map tp).*2 in
  let count := s64 maxTxInBlock in
  let byCount := if count <=? 0 then false else byCount in
  let count := if (Z.of_nat (size tp) <? count) || negb byCount then Z.of_nat (size tp) else count in
  select_txs height count 0 orderByFee.

Definition GetTransaction (hash : Uint256) tp : option Transaction := e_Tx <$> tp !! hash.
Definition pool_GetTxStatus (hash : Uint256) tp : option TxStatus := (fun txEntry => mkStatus hash (Attrs txEntry)) <$> tp !! hash.
Definition GetTransactionCount tp : Z := Z.of_nat (size tp).

(** The first stateful attribute of an entry. *)
Fixpoint stateful_attr (attrs : list TXAttr) : option TXAttr :=
  match attrs with
  | [] => None
  | v :: attrs => if a_Type v =? VerifyType_Stateful then Some v else stateful_attr attrs
  end.

Fixpoint GetUnverifiedTxs (txs : list Transaction) (height : Z) tp : CheckBlkResult * TXPool :=
  match txs with
  | [] => (mkBlkResult [] [] [], tp)
  | tx :: txs =>
      match tp !! Tx.Hash tx with
      | None =>
          let '(r, tp) := GetUnverifiedTxs txs height tp in (mkBlkResult (VerifiedTxs r) (tx :: UnverifiedTxs r) (OldTxs r), tp)
      | Some txEntry =>
          if negb (compareTxHeight txEntry height) then
            let '(r, tp) := GetUnverifiedTxs txs height (delete (Tx.Hash tx) tp) in
            (mkBlkResult (VerifiedTxs r) (UnverifiedTxs r) (e_Tx txEntry :: OldTxs r), tp)
          else
            let '(r, tp) := GetUnverifiedTxs txs height tp in
            match stateful_attr (Attrs txEntry) with
            | Some v => (mkBlkResult (mkResult (a_Height v) tx (a_ErrCode v) :: VerifiedTxs r) (UnverifiedTxs r) (OldTxs r), tp)
            | None => (r, tp)
            end
      end
  end.

(** Deleting while ranging: every entry is visited once. *)
Definition RemoveTxsBelowGasPrice (gasPrice : Z) tp : TXPool :=
  foldl (fun tp' txEntry => if tx_GasPrice (e_Tx txEntry) <? gasPrice then delete (Tx.Hash (e_Tx txEntry)) tp' else tp') tp (range_map tp).*2.

Definition Remain tp : list Transaction * TXPool :=
  foldl (fun '(txList, tp') txEntry => (txList ++ [e_Tx txEntry], delete (Tx.Hash (e_Tx txEntry)) tp')) ([], tp) (range_map tp).*2.

End Pool.
