(* ===== verification/TxPoolTheory.v ===== *)
(** * Facts on the pool of transactions

    What the methods of [TXPool] take out of the map and leave in it, for any order in which it is visited. *)

From stdpp Require Import sorting.
From S2P Require Import Prelude Codec Merkle LedgerTypes Program Validation TxPool.

Section Theory.
Context {G : GoRuntime}.
Implicit Types (tp : TXPool) (e : TXEntry) (h : Uint256).

Lemma elem_of_range {V} (m : gmap Uint256 V) (v : V) : v ∈ (range_map m).*2 <-> exists h, m !! h = Some v.
Proof.
  rewrite list_elem_of_fmap. setoid_rewrite range_map_perm. split.
  - intros ([h v'] & -> & H). exists h. apply elem_of_map_to_list, H.
  - intros [h H]. exists (h, v). split; [reflexivity | apply elem_of_map_to_list, H].
Qed.

Lemma range_length {V} (m : gmap Uint256 V) : length (range_map m).*2 = size m.
Proof. rewrite length_fmap, range_map_perm. apply length_map_to_list. Qed.

(** ** Deleting *)

Lemma foldl_delete_sub {A} (f : TXPool -> A -> TXPool) (l : list A) tp :
  (forall tp a, f tp a ⊆ tp) -> foldl f tp l ⊆ tp.
Proof. intros Hf. revert tp. induction l as [|a l IH]; intros tp; cbn; [reflexivity|]. etransitivity; [apply IH | apply Hf]. Qed.

Lemma CleanTransactionList_sub txs tp : CleanTransactionList txs tp ⊆ tp.
Proof. apply foldl_delete_sub. intros tp' tx. destruct (tp' !! Tx.Hash tx); [apply delete_subseteq | reflexivity]. Qed.
Lemma DelTxList_sub tx tp : (DelTxList tx tp).2 ⊆ tp.
Proof. unfold DelTxList. destruct (tp !! Tx.Hash tx); [apply delete_subseteq | reflexivity]. Qed.
Lemma RemoveTxsBelowGasPrice_sub price tp : RemoveTxsBelowGasPrice price tp ⊆ tp.
Proof. apply foldl_delete_sub. intros tp' e. destruct (_ <? _); [apply delete_subseteq | reflexivity]. Qed.

Lemma sub_Forall (P : Uint256 -> TXEntry -> Prop) tp tp' : tp' ⊆ tp -> map_Forall P tp -> map_Forall P tp'.
Proof. intros Hs H h e He. apply H. exact (lookup_weaken _ _ _ _ He Hs). Qed.

(** What a fold that deletes the hashes of some entries leaves. *)
Lemma foldl_delete_lookup (p : TXEntry -> bool) (l : list TXEntry) tp h :
  foldl (fun tp' e => if p e then delete (Tx.Hash (e_Tx e)) tp' else tp') tp l !! h =
  if existsb (fun e => p e && bool_decide (Tx.Hash (e_Tx e) = h)) l then None else tp !! h.
Proof.
  revert tp. induction l as [|e l IH]; intros tp; cbn; [reflexivity|]. rewrite IH. destruct (existsb _ l) eqn:E; [rewrite orb_true_r; reflexivity|].
  rewrite orb_false_r. destruct (p e); cbn; [|reflexivity]. destruct (bool_decide_reflect (Tx.Hash (e_Tx e) = h)) as [->|Hn]; [apply lookup_delete_eq | apply lookup_delete_ne, Hn].
Qed.

(** Entries under their own hash. *)
Definition keyed tp : Prop := map_Forall (fun h e => Tx.Hash (e_Tx e) = h) tp.

Lemma existsb_keyed tp h (p : TXEntry -> bool) : keyed tp ->
  existsb (fun e => p e && bool_decide (Tx.Hash (e_Tx e) = h)) (range_map tp).*2 = match tp !! h with Some e => p e | None => false end.
Proof.
  intros Hk. destruct (existsb _ _) eqn:E.
  - apply existsb_exists in E as (e & He & Hp). apply list_elem_of_In, elem_of_range in He as [h' He]. apply andb_prop in Hp as [Hp Hh]. apply bool_decide_eq_true in Hh.
    rewrite (Hk _ _ He) in Hh. subst h'. rewrite He. symmetry. exact Hp.
  - destruct (tp !! h) as [e|] eqn:Eh; [|reflexivity]. destruct (p e) eqn:Ep; [|reflexivity]. exfalso. rewrite <- not_true_iff_false in E. apply E.
    apply existsb_exists. exists e. split; [apply list_elem_of_In, elem_of_range; eauto | rewrite Ep, bool_decide_true by exact (Hk _ _ Eh); reflexivity].
Qed.

Lemma RemoveTxsBelowGasPrice_filter price tp : keyed tp ->
  RemoveTxsBelowGasPrice price tp = filter (fun kv => price <= tx_GasPrice (e_Tx kv.2)) tp.
Proof.
  intros Hk. apply map_eq. intros h. unfold RemoveTxsBelowGasPrice. rewrite foldl_delete_lookup, (existsb_keyed _ _ (fun e => tx_GasPrice (e_Tx e) <? price)) by exact Hk.
  destruct (tp !! h) as [e|] eqn:Eh.
  - destruct (Z.ltb_spec (tx_GasPrice (e_Tx e)) price) as [Hl|Hl]; symmetry.
    + apply map_lookup_filter_None. right. intros e' He'. rewrite Eh in He'. injection He' as <-. cbn. lia.
    + apply map_lookup_filter_Some. split; [exact Eh | exact Hl].
  - symmetry. apply map_lookup_filter_None. left. exact Eh.
Qed.

Lemma Remain_fold (l : list TXEntry) acc tp :
  foldl (fun '(txList, tp') e => (txList ++ [e_Tx e], delete (Tx.Hash (e_Tx e)) tp')) (acc, tp) l =
  (acc ++ map e_Tx l, foldl (fun tp' e => delete (Tx.Hash (e_Tx e)) tp') tp l).
Proof. revert acc tp. induction l as [|e l IH]; intros acc tp; cbn; [rewrite app_nil_r; reflexivity|]. rewrite IH, <- app_assoc. reflexivity. Qed.

Lemma Remain_list tp : (Remain tp).1 = map e_Tx (range_map tp).*2.
Proof. unfold Remain. rewrite Remain_fold. reflexivity. Qed.
Lemma Remain_sub tp : (Remain tp).2 ⊆ tp.
Proof. unfold Remain. rewrite Remain_fold. apply foldl_delete_sub. intros tp' e. apply delete_subseteq. Qed.
Lemma Remain_empties tp : keyed tp -> (Remain tp).2 = ∅.
Proof.
  intros Hk. apply map_empty. intros h. unfold Remain. rewrite Remain_fold. cbn. pose proof (foldl_delete_lookup (fun _ => true) (range_map tp).*2 tp h) as H. cbn in H. rewrite H.
  pose proof (existsb_keyed tp h (fun _ => true) Hk) as E. cbn in E. rewrite E. destruct (tp !! h); reflexivity.
Qed.

(** ** Selecting *)

Lemma select_elem height count num l txs old : select_txs height count num l = (txs, old) ->
  (forall e, e ∈ txs -> e ∈ l /\ compareTxHeight e height = true) /\ (forall t, t ∈ old -> exists e, e ∈ l /\ t = e_Tx e /\ compareTxHeight e height = false).
Proof.
  revert num txs old. induction l as [|e l IH]; intros num txs old; cbn; [intros [= <- <-]; split; intros ? H; inversion H|].
  destruct (compareTxHeight e height) eqn:Ec; cbn.
  - destruct (count <=? num + 1).
    + intros [= <- <-]. split; [intros e' He; apply list_elem_of_singleton in He as ->; split; [left | exact Ec] | intros t Ht; inversion Ht].
    + destruct (select_txs height count (num + 1) l) as [a b] eqn:E. intros [= <- <-]. destruct (IH _ _ _ E) as [H1 H2]. split.
      * intros e' He. apply elem_of_cons in He as [->|He]; [split; [left | exact Ec]|]. destruct (H1 _ He). split; [right|]; assumption.
      * intros t Ht. destruct (H2 t Ht) as (x & Hx & Hr). exists x. split; [right|]; assumption.
  - destruct (select_txs height count num l) as [a b] eqn:E. intros [= <- <-]. destruct (IH _ _ _ E) as [H1 H2]. split.
    + intros e' He. destruct (H1 _ He). split; [right|]; assumption.
    + intros t Ht. apply elem_of_cons in Ht as [->|Ht]; [exists e; split; [left|]; auto|]. destruct (H2 t Ht) as (x & Hx & Hr). exists x. split; [right|]; assumption.
Qed.

Lemma GetTxPool_elem maxTx byCount height tp txs old : GetTxPool maxTx byCount height tp = (txs, old) ->
  (forall e, e ∈ txs -> exists h, tp !! h = Some e) /\ (forall t, t ∈ old -> exists h e, tp !! h = Some e /\ t = e_Tx e).
Proof.
  unfold GetTxPool. intros E. destruct (select_elem _ _ _ _ _ _ E) as [H1 H2]. split.
  - intros e He. destruct (H1 e He) as [Hl _]. rewrite sort_perm in Hl. apply elem_of_range, Hl.
  - intros t Ht. destruct (H2 t Ht) as (e & Hl & -> & _). rewrite sort_perm in Hl. apply elem_of_range in Hl as [h Hl]. eauto.
Qed.

(** ** A block *)

Lemma stateful_attr_elem l a : stateful_attr l = Some a -> a ∈ l /\ a_Type a = VerifyType_Stateful.
Proof.
  induction l as [|x l IH]; cbn; [discriminate|]. destruct (Z.eqb_spec (a_Type x) VerifyType_Stateful) as [E|E]; [intros [= ->]; split; [left | exact E]|].
  intros H. destruct (IH H). split; [right|]; assumption.
Qed.

Lemma GetUnverifiedTxs_elem txs height tp r tp' : GetUnverifiedTxs txs height tp = (r, tp') ->
  tp' ⊆ tp /\ (forall t, t ∈ OldTxs r -> exists h e, tp !! h = Some e /\ t = e_Tx e) /\
  (forall v, v ∈ VerifiedTxs r -> exists e a, tp !! Tx.Hash (v_Tx v) = Some e /\ stateful_attr (Attrs e) = Some a /\ v = mkResult (a_Height a) (v_Tx v) (a_ErrCode a)).
Proof.
  revert tp r tp'. induction txs as [|tx txs IH]; intros tp r tp'; cbn; [intros [= <- <-]; repeat split; [reflexivity | intros t Ht; inversion Ht | intros v Hv; inversion Hv]|].
  destruct (tp !! Tx.Hash tx) as [e|] eqn:Ee.
  - destruct (compareTxHeight e height); cbn.
    + destruct (GetUnverifiedTxs txs height tp) as [r0 tp0] eqn:E0. destruct (IH _ _ _ E0) as (H1 & H2 & H3).
      destruct (stateful_attr (Attrs e)) as [a|] eqn:Ea; intros [= <- <-]; [|auto]. split; [exact H1|]. split; [exact H2|]. cbn. intros v Hv.
      apply elem_of_cons in Hv as [->|Hv]; [exists e, a; auto | apply H3, Hv].
    + destruct (GetUnverifiedTxs txs height (delete (Tx.Hash tx) tp)) as [r0 tp0] eqn:E0. destruct (IH _ _ _ E0) as (H1 & H2 & H3). intros [= <- <-].
      assert (Hd : forall h x, delete (Tx.Hash tx) tp !! h = Some x -> tp !! h = Some x) by (intros h x Hx; apply lookup_delete_Some in Hx as [_ Hx]; exact Hx).
      split; [etransitivity; [exact H1 | apply delete_subseteq]|]. split; cbn.
      * intros t Ht. apply elem_of_cons in Ht as [->|Ht]; [eauto|]. destruct (H2 t Ht) as (h & x & Hx & ->). eauto.
      * intros v Hv. destruct (H3 v Hv) as (x & a & Hx & Hr). exists x, a. auto.
  - destruct (GetUnverifiedTxs txs height tp) as [r0 tp0] eqn:E0. destruct (IH _ _ _ E0) as (H1 & H2 & H3). intros [= <- <-]. auto.
Qed.

Lemma GetUnverifiedTxs_new txs height tp r tp' : GetUnverifiedTxs txs height tp = (r, tp') -> forall t, t ∈ UnverifiedTxs r -> t ∈ txs.
Proof.
  revert tp r tp'. induction txs as [|tx txs IH]; intros tp r tp'; cbn; [intros [= <- <-] t Ht; inversion Ht|]. destruct (tp !! Tx.Hash tx) as [e|].
  - destruct (negb _); (destruct (GetUnverifiedTxs _ _ _) as [r0 tp0] eqn:E0); [|destruct (stateful_attr _) as [a|]]; intros [= <- <-] t Ht; right; exact (IH _ _ _ E0 t Ht).
  - destruct (GetUnverifiedTxs _ _ _) as [r0 tp0] eqn:E0. intros [= <- <-] t Ht. cbn in Ht. apply elem_of_cons in Ht as [->|Ht]; [left | right; exact (IH _ _ _ E0 t Ht)].
Qed.

End Theory.
