(* ===== verification/Conc.v ===== *)
(** * Threads that share memory

    Go code that runs in several goroutines, as sequences of atomic actions on a shared state: an action is a critical section (what
    is done while a lock is held), an operation on a channel, or a single read or write.  Between two actions of a thread any other thread may
    run.  [safe] is a small program logic for such threads: an invariant of the shared state that every action preserves, and
    knowledge that only grows, which a thread may carry from one action to the next. *)

From S2P Require Import Prelude.

(** What an action can do: it ends, it has to wait (a lock, an empty or full channel), or it panics. *)
Inductive outcome (A : Type) := Done (a : A) | Blocked | Crash.
Arguments Done {_} _. Arguments Blocked {_}. Arguments Crash {_}.

(** A thread: atomic actions in sequence; the rest of the thread depends on what the action has read. *)
Inductive prog (St A : Type) : Type :=
| Ret (a : A)
| Act (B : Type) (f : St -> outcome (B * St)) (k : B -> prog St A).
Arguments Ret {_ _} _. Arguments Act {_ _ _} _ _.

Section Prog.
Context {St : Type}.

Fixpoint pbind {A B} (p : prog St A) (g : A -> prog St B) : prog St B :=
  match p with
  | Ret a => g a
  | Act f k => Act f (fun b => pbind (k b) g)
  end.

(** One atomic action that always goes through, reads, writes, one that may wait. *)
Definition act {A} (f : St -> outcome (A * St)) : prog St A := Act f Ret.
Definition modify {A} (f : St -> A * St) : prog St A := act (fun s => Done (f s)).
Definition reads {A} (f : St -> A) : prog St A := modify (fun s => (f s, s)).
Definition writes (f : St -> St) : prog St unit := modify (fun s => ((), f s)).
Definition crash {A} : prog St A := act (fun _ => Crash).

Fixpoint for_each {A} (l : list A) (body : A -> prog St unit) : prog St unit :=
  match l with [] => Ret () | a :: l => pbind (body a) (fun _ => for_each l body) end.

(** The next action of a thread; a thread that has ended does not move. *)
Definition resume {A} (p : prog St A) (s : St) : outcome (prog St A * St) :=
  match p with
  | Ret _ => Blocked
  | Act f k => match f s with Done (b, s') => Done (k b, s') | Blocked => Blocked | Crash => Crash end
  end.

(** A thread that runs to its end without being interrupted. *)
Fixpoint run {A} (p : prog St A) (s : St) : outcome (A * St) :=
  match p with
  | Ret a => Done (a, s)
  | Act f k => match f s with Done (b, s') => run (k b) s' | Blocked => Blocked | Crash => Crash end
  end.

Lemma run_bind {A B} (p : prog St A) (g : A -> prog St B) s :
  run (pbind p g) s = match run p s with Done (a, s') => run (g a) s' | Blocked => Blocked | Crash => Crash end.
Proof. revert s. induction p as [a|C f k IH]; intros s; cbn; [reflexivity|]. destruct (f s) as [[b s']| |]; [apply IH | reflexivity ..]. Qed.

(** ** Interleavings *)

(** The shared state and the threads; [starts i s p] says that thread [i], when it is idle, may take up [p]
    (it has received a message, say) in state [s]; [env] is what the rest of the world does. *)
Record config := mkConfig { shared : St; threads : list (prog St unit) }.

Inductive step (starts : nat -> St -> prog St unit -> Prop) (env : St -> St -> Prop) : config -> config -> Prop :=
| step_start i s ths p : ths !! i = Some (Ret ()) -> starts i s p -> step starts env (mkConfig s ths) (mkConfig s (<[i := p]> ths))
| step_run i s ths p p' s' : ths !! i = Some p -> resume p s = Done (p', s') -> step starts env (mkConfig s ths) (mkConfig s' (<[i := p']> ths))
| step_env s s' ths : env s s' -> step starts env (mkConfig s ths) (mkConfig s' ths).

(** The schedule [sched] names the thread that makes the next action. *)
Fixpoint run_schedule (sched : list nat) (c : config) : option config :=
  match sched with
  | [] => Some c
  | i :: sched =>
      match threads c !! i with
      | Some p => match resume p (shared c) with
                  | Done (p', s') => run_schedule sched (mkConfig s' (<[i := p']> (threads c)))
                  | _ => None
                  end
      | None => None
      end
  end.

Lemma run_schedule_steps starts env sched c c' : run_schedule sched c = Some c' -> rtc (step starts env) c c'.
Proof.
  revert c. induction sched as [|i sched IH]; intros [s ths]; cbn; [intros [= <-]; apply rtc_refl|].
  destruct (ths !! i) as [p|] eqn:Ei; [|discriminate]. destruct (resume p s) as [[p' s']| |] eqn:Er; try discriminate.
  intros E. eapply rtc_l; [exact (step_run _ _ i s ths p p' s' Ei Er) | exact (IH _ E)].
Qed.

(** A thread that is not interrupted gets to its end. *)
Lemma run_alone starts env i s s' ths (p : prog St unit) : (i < length ths)%nat -> run p s = Done ((), s') ->
  rtc (step starts env) (mkConfig s (<[i := p]> ths)) (mkConfig s' (<[i := Ret ()]> ths)).
Proof.
  intros Hi. revert s. induction p as [[]|B f k IH]; intros s; cbn; [intros [= <-]; apply rtc_refl|]. destruct (f s) as [[b s1]| |] eqn:Ef; [|discriminate ..].
  intros E. specialize (IH b s1 E). eapply rtc_l; [|exact IH]. rewrite <- (list_insert_insert_eq ths i (k b) (Act f k)).
  apply (step_run starts env i s _ (Act f k)); [apply list_lookup_insert_eq, Hi | cbn; rewrite Ef; reflexivity].
Qed.

(** ** A logic of threads *)

Section Safe.
Variable Inv : St -> Prop.
Variable grows : St -> St -> Prop.
Hypothesis grows_refl : forall s, grows s s.
Hypothesis grows_trans : forall s1 s2 s3, grows s1 s2 -> grows s2 s3 -> grows s1 s3.

(** From any state that satisfies the invariant and has grown from the last one seen, an action preserves the
    invariant, takes nothing of what has grown away, and does not panic; at the end [Q] holds of the last state seen. *)
Fixpoint safe {A} (p : prog St A) (s0 : St) (Q : A -> St -> Prop) : Prop :=
  match p with
  | Ret a => Q a s0
  | Act f k => forall s, Inv s -> grows s0 s ->
      match f s with Done (b, s') => Inv s' /\ grows s s' /\ safe (k b) s' Q | Blocked => True | Crash => False end
  end.

Definition stable {A} (Q : A -> St -> Prop) : Prop := forall a s s', grows s s' -> Q a s -> Q a s'.

Lemma safe_later {A} (p : prog St A) s0 s1 Q : stable Q -> grows s0 s1 -> safe p s0 Q -> safe p s1 Q.
Proof. intros HQ Hg. destruct p as [a|B f k]; cbn; [apply HQ, Hg|]. intros H s Hs H1. apply H; [exact Hs | eauto]. Qed.

Lemma safe_weaken {A} (p : prog St A) s0 Q Q' : (forall a s, Q a s -> Q' a s) -> safe p s0 Q -> safe p s0 Q'.
Proof.
  intros HQ. revert s0. induction p as [a|B f k IH]; intros s0; cbn; [apply HQ|]. intros H s Hs Hg. specialize (H s Hs Hg).
  destruct (f s) as [[b s']| |]; [|exact H ..]. destruct H as (H1 & H2 & H3). split; [exact H1|]. split; [exact H2|]. apply IH, H3.
Qed.

Lemma safe_then {A B} (p : prog St A) (g : A -> prog St B) s0 Q : safe p s0 (fun a s => safe (g a) s Q) -> safe (pbind p g) s0 Q.
Proof.
  revert s0. induction p as [a|C f k IH]; intros s0; cbn; [exact id|]. intros H s Hs Hg. specialize (H s Hs Hg).
  destruct (f s) as [[b s']| |]; [|exact H ..]. destruct H as (H1 & H2 & H3). auto.
Qed.

Lemma safe_modify {A} (f : St -> A * St) s0 (Q : A -> St -> Prop) :
  (forall s, Inv s -> grows s0 s -> Inv (f s).2 /\ grows s (f s).2 /\ Q (f s).1 (f s).2) -> safe (modify f) s0 Q.
Proof. intros H s Hs Hg. specialize (H s Hs Hg). destruct (f s) as [a s']. exact H. Qed.

Lemma safe_reads {A} (f : St -> A) s0 (Q : A -> St -> Prop) : (forall s, Inv s -> grows s0 s -> Q (f s) s) -> safe (reads f) s0 Q.
Proof. intros H. apply safe_modify. intros s Hs Hg. cbn. auto. Qed.

Lemma safe_writes (f : St -> St) s0 (Q : unit -> St -> Prop) :
  (forall s, Inv s -> grows s0 s -> Inv (f s) /\ grows s (f s) /\ Q () (f s)) -> safe (writes f) s0 Q.
Proof. intros H. apply safe_modify. exact H. Qed.

(** The last state seen has grown from the first one. *)
Lemma safe_grows {A} (p : prog St A) s0 Q : safe p s0 Q -> safe p s0 (fun a s => grows s0 s /\ Q a s).
Proof.
  enough (H : forall s1, grows s0 s1 -> safe p s1 Q -> safe p s1 (fun a s => grows s0 s /\ Q a s)) by (apply H, grows_refl).
  induction p as [a|B f k IH]; intros s1 Hg Hp; cbn in *; [auto|]. intros s Hs H1. specialize (Hp s Hs H1). destruct (f s) as [[b s2]| |]; [|exact Hp ..].
  destruct Hp as (H2 & H3 & H4). split; [exact H2|]. split; [exact H3|]. apply IH; [eauto | exact H4].
Qed.

(** Sequencing: the second part starts from what the first has established. *)
Lemma safe_seq {A B} (p : prog St A) (g : A -> prog St B) s0 R Q :
  safe p s0 R -> (forall a s, grows s0 s -> R a s -> safe (g a) s Q) -> safe (pbind p g) s0 Q.
Proof. intros Hp Hg. apply safe_then. eapply safe_weaken; [|exact (safe_grows _ _ _ Hp)]. cbn. intros a s [H1 H2]. auto. Qed.

(** A loop whose rounds know [P] of what they have seen and of each element. *)
Lemma safe_for_each {A} (l : list A) (body : A -> prog St unit) s0 (P : A -> St -> Prop) :
  stable P -> (forall a, a ∈ l -> P a s0) -> (forall a s, P a s -> safe (body a) s (fun _ _ => True)) -> safe (for_each l body) s0 (fun _ _ => True).
Proof.
  intros HP Hl Hb. revert s0 Hl. induction l as [|a l IH]; intros s Hl; cbn; [exact I|]. eapply safe_seq; [apply Hb, Hl, list_elem_of_here|].
  intros _ s1 Hg _. apply IH. intros x Hx. exact (HP x s s1 Hg (Hl x (list_elem_of_further _ _ _ Hx))).
Qed.

Lemma safe_resume {A} (p p' : prog St A) s0 s s' Q : safe p s0 Q -> Inv s -> grows s0 s -> resume p s = Done (p', s') ->
  Inv s' /\ grows s s' /\ safe p' s' Q.
Proof.
  destruct p as [a|B f k]; cbn; [discriminate|]. intros H Hs Hg. specialize (H s Hs Hg).
  destruct (f s) as [[b s1]| |]; [|discriminate ..]. intros [= <- <-]. exact H.
Qed.

(** A thread that is safe goes through to its end if it is not made to wait. *)
Lemma safe_run {A} (p : prog St A) s Q : safe p s Q -> Inv s -> match run p s with Done (a, s') => Inv s' /\ grows s s' /\ Q a s' | Blocked => True | Crash => False end.
Proof.
  revert s. induction p as [a|B f k IH]; intros s H Hs; cbn; [auto|]. specialize (H s Hs (grows_refl s)). destruct (f s) as [[b s1]| |]; [|exact H ..].
  destruct H as (H1 & H2 & H3). specialize (IH b s1 H3 H1). destruct (run (k b) s1) as [[a s2]| |]; [|exact IH ..]. destruct IH as (? & ? & ?). eauto.
Qed.

(** *** Many threads *)

Variable starts : nat -> St -> prog St unit -> Prop.
Variable env : St -> St -> Prop.
Hypothesis starts_safe : forall i s p, Inv s -> starts i s p -> safe p s (fun _ _ => True).
Hypothesis env_safe : forall s s', Inv s -> env s s' -> Inv s' /\ grows s s'.

Definition all_safe (c : config) : Prop := Inv (shared c) /\ forall i p, threads c !! i = Some p -> safe p (shared c) (fun _ _ => True).

Lemma later_threads s s' (ths : list (prog St unit)) : grows s s' -> (forall i p, ths !! i = Some p -> safe p s (fun _ _ => True)) ->
  forall i p, ths !! i = Some p -> safe p s' (fun _ _ => True).
Proof. intros Hg H i p Hp. apply (safe_later p s); [intros ? ? ? _ _; exact I | exact Hg | exact (H i p Hp)]. Qed.

Lemma step_safe c c' : all_safe c -> step starts env c c' -> all_safe c'.
Proof.
  intros [Hs Ht] Hst. assert (Hins : forall s (ths : list (prog St unit)) (i : nat) (p : prog St unit), (forall (j : nat) q, ths !! j = Some q -> safe q s (fun _ _ => True)) -> safe p s (fun _ _ => True) ->
    forall (j : nat) q, <[i := p]> ths !! j = Some q -> safe q s (fun _ _ => True)).
  { intros s ths i p H Hp j q Hj. apply list_lookup_insert_Some in Hj as [(_ & <- & _)|[_ Hj]]; [exact Hp | exact (H j q Hj)]. }
  destruct Hst as [i s ths p Hi Hp|i s ths p p' s' Hi Hr|s s' ths He]; cbn in *.
  - split; [exact Hs|]. cbn. apply Hins; [exact Ht | exact (starts_safe i s p Hs Hp)].
  - destruct (safe_resume _ _ _ _ _ _ (Ht i p Hi) Hs (grows_refl s) Hr) as (H1 & H2 & H3). split; [exact H1|]. cbn. apply Hins; [exact (later_threads _ _ _ H2 Ht) | exact H3].
  - destruct (env_safe _ _ Hs He) as [H1 H2]. split; [exact H1|]. exact (later_threads _ _ _ H2 Ht).
Qed.

Lemma reachable_safe c c' : all_safe c -> rtc (step starts env) c c' -> all_safe c'.
Proof. intros H Hr. induction Hr as [|c1 c2 c3 H1 _ IH]; [exact H|]. apply IH. exact (step_safe _ _ H H1). Qed.

Lemma all_safe_no_crash c i p : all_safe c -> threads c !! i = Some p -> resume p (shared c) <> Crash.
Proof.
  intros [Hs Ht] Hi E. specialize (Ht i p Hi). destruct p as [a|B f k]; [discriminate|]. cbn in E. specialize (Ht _ Hs (grows_refl _)).
  destruct (f (shared c)) as [[b s']| |]; [discriminate | discriminate | exact Ht].
Qed.

End Safe.
End Prog.

Arguments config _ : clear implicits.

Declare Scope prog_scope.
Delimit Scope prog_scope with prog.
Notation "'let!' x ':=' p 'in' q" := (pbind p (fun x => q)) (at level 10, x pattern, p at level 200, q at level 200) : prog_scope.
Notation "p ';;;' q" := (pbind p (fun _ => q)) (at level 100, q at level 200, right associativity) : prog_scope.
