(* ===== verification/TxState.v ===== *)
(** * The state of the transaction pool server

    The records of [txnpool/proc/txnpool_server.go] and [txnpool_worker.go], the messages of [validator/types/messages.go] and what the
    server shares with the rest of the node: the ledger, the actors, the clock.  Everything that the
    goroutines of the server share is one record, [Server]; a channel is the list of what it holds, a [PID] a number.

    [sent] is the list of the messages that have left the server, the latest first; [mailbox] holds the answers of the validators
    that are on their way; [ledger_past] the states the ledger has been in. *)

From S2P Require Import Prelude Codec Merkle LedgerTypes Program Validation TxPool.


(** [tc.ActorType] *)
Definition TxActor : Z := 1.
Definition TxPoolActor : Z := 2.
Definition VerifyRspActor : Z := 3.
Definition NetActor : Z := 4.
Definition MaxActor : Z := 5.

Inductive SenderType := NilSender | NetSender | HttpSender.
#[export] Instance SenderType_eq_dec : EqDecision SenderType.
Proof. solve_decision. Defined.

(** [tc.TxnStatsType]: 1 to 6 *)
Definition RcvStats : Z := 1.
Definition SuccessStats : Z := 2.
Definition FailureStats : Z := 3.
Definition DuplicateStats : Z := 4.
Definition SigErrStats : Z := 5.
Definition StateErrStats : Z := 6.
Definition MaxStats : Z := 7.

(** ** Messages *)

Record RegisterValidator := mkValidator { rv_Sender : option Z; rv_Type : Z; rv_Id : string }.
Record CheckTx := mkCheck { c_WorkerId : Z; c_Tx : Transaction }.
Record CheckResponse := mkResponse { r_WorkerId : Z; r_Type : Z; r_Hash : Uint256; r_Height : Z; r_ErrCode : Z }.

(** Answers to queries; the text of a [TxResult] is left out. *)
Inductive Reply :=
| GetTxnRsp (Txn : option Transaction)
| GetTxnStatsRsp (Count : list Z)
| CheckTxnRsp (ok : bool)
| GetTxnStatusRsp (Hash : Uint256) (TxStatus : option (list TXAttr))
| GetTxnCountRsp (Count : list Z)
| GetTxnPoolRsp (TxnPool : list TXEntry)
| GetPendingTxnRsp (Txs : list Transaction).

(** What leaves the server: an answer to an actor, the verdict on a block, a transaction for the network, the result of a
    submitted transaction, a request to a validator, the acknowledgement that it has been removed. *)
Inductive Event :=
| Replied (pid : Z) (r : Reply)
| VerifyBlockRsp (pid : Z) (TxnPool : list VerifyTxResult)
| TxToNet (pid : Z) (tx : Transaction)
| TxResult (ch : Z) (hash : Uint256) (err : Z)
| CheckRequest (pid : Z) (req : CheckTx) (rspPid : Z)
| UnRegisterAck (pid : Z) (id : string) (ty : Z).

(** ** Records of the server *)

Record serverPendingTx := mkServerPending { sp_tx : Transaction; sp_sender : SenderType; sp_ch : option Z }.
Record pendingBlock := mkPendingBlock {
  pb_sender : option Z; pb_height : Z; processedTxs : gmap Uint256 VerifyTxResult; unProcessedTxs : gmap Uint256 Transaction }.
Record pendingTx := mkPending { pt_tx : Transaction; pt_valTime : Z; pt_req : CheckTx; pt_flag : Z; pt_retries : Z; pt_ret : list TXAttr }.

(** A worker's identifier is its position; [stopCh] and the timer belong to the loop. *)
Record Worker := mkWorker {
  rcvTXCh : list Transaction; stfTxCh : list Transaction; rspCh : list CheckResponse; pendingTxList : gmap Uint256 pendingTx }.

(** The ledger, as the pool and the validators use it, and the settings of the node. *)
Class LedgerView := {
  LedgerState : Type;
  GetCurrentBlockHeight : LedgerState -> Z;
  IsContainTransaction : LedgerState -> Uint256 -> option bool;
  PreExecuteContract_Gas : LedgerState -> Transaction -> Z;
  GetContractBalance : LedgerState -> list byte -> option Z;
  getGlobalGasPrice : LedgerState -> option Z;
  config_GasPrice : Z;
  config_GasLimit : Z;
  config_MaxTxInBlock : Z
}.

Section State.
Context {LV : LedgerView}.

Record Server := mkServer {
  txPool : TXPool;
  allPendingTxs : gmap Uint256 serverPendingTx;
  block : pendingBlock;
  block_locked : bool;
  actors : gmap Z Z;
  entries : gmap Z (list RegisterValidator);
  rr_state : gmap Z Z;
  stats : list Z;
  slots : Z;
  s_height : Z;
  gasPrice : Z;
  disablePreExec : bool;
  disableBroadcastNetTx : bool;
  workers : list Worker;
  clock : Z;
  ledger_now : LedgerState;
  ledger_past : list LedgerState;
  mailbox : list CheckResponse;
  sent : list Event }.

Definition set_txPool (v : TXPool) (s : Server) : Server :=
  mkServer v (allPendingTxs s) (block s) (block_locked s) (actors s) (entries s) (rr_state s) (stats s) (slots s) (s_height s) (gasPrice s) (disablePreExec s) (disableBroadcastNetTx s) (workers s) (clock s) (ledger_now s) (ledger_past s) (mailbox s) (sent s).
Definition set_allPendingTxs (v : gmap Uint256 serverPendingTx) (s : Server) : Server :=
  mkServer (txPool s) v (block s) (block_locked s) (actors s) (entries s) (rr_state s) (stats s) (slots s) (s_height s) (gasPrice s) (disablePreExec s) (disableBroadcastNetTx s) (workers s) (clock s) (ledger_now s) (ledger_past s) (mailbox s) (sent s).
Definition set_block (v : pendingBlock) (s : Server) : Server :=
  mkServer (txPool s) (allPendingTxs s) v (block_locked s) (actors s) (entries s) (rr_state s) (stats s) (slots s) (s_height s) (gasPrice s) (disablePreExec s) (disableBroadcastNetTx s) (workers s) (clock s) (ledger_now s) (ledger_past s) (mailbox s) (sent s).
Definition set_block_locked (v : bool) (s : Server) : Server :=
  mkServer (txPool s) (allPendingTxs s) (block s) v (actors s) (entries s) (rr_state s) (stats s) (slots s) (s_height s) (gasPrice s) (disablePreExec s) (disableBroadcastNetTx s) (workers s) (clock s) (ledger_now s) (ledger_past s) (mailbox s) (sent s).
Definition set_actors (v : gmap Z Z) (s : Server) : Server :=
  mkServer (txPool s) (allPendingTxs s) (block s) (block_locked s) v (entries s) (rr_state s) (stats s) (slots s) (s_height s) (gasPrice s) (disablePreExec s) (disableBroadcastNetTx s) (workers s) (clock s) (ledger_now s) (ledger_past s) (mailbox s) (sent s).
Definition set_entries (v : gmap Z (list RegisterValidator)) (s : Server) : Server :=
  mkServer (txPool s) (allPendingTxs s) (block s) (block_locked s) (actors s) v (rr_state s) (stats s) (slots s) (s_height s) (gasPrice s) (disablePreExec s) (disableBroadcastNetTx s) (workers s) (clock s) (ledger_now s) (ledger_past s) (mailbox s) (sent s).
Definition set_rr_state (v : gmap Z Z) (s : Server) : Server :=
  mkServer (txPool s) (allPendingTxs s) (block s) (block_locked s) (actors s) (entries s) v (stats s) (slots s) (s_height s) (gasPrice s) (disablePreExec s) (disableBroadcastNetTx s) (workers s) (clock s) (ledger_now s) (ledger_past s) (mailbox s) (sent s).
Definition set_stats (v : list Z) (s : Server) : Server :=
  mkServer (txPool s) (allPendingTxs s) (block s) (block_locked s) (actors s) (entries s) (rr_state s) v (slots s) (s_height s) (gasPrice s) (disablePreExec s) (disableBroadcastNetTx s) (workers s) (clock s) (ledger_now s) (ledger_past s) (mailbox s) (sent s).
Definition set_slots (v : Z) (s : Server) : Server :=
  mkServer (txPool s) (allPendingTxs s) (block s) (block_locked s) (actors s) (entries s) (rr_state s) (stats s) v (s_height s) (gasPrice s) (disablePreExec s) (disableBroadcastNetTx s) (workers s) (clock s) (ledger_now s) (ledger_past s) (mailbox s) (sent s).
Definition set_s_height (v : Z) (s : Server) : Server :=
  mkServer (txPool s) (allPendingTxs s) (block s) (block_locked s) (actors s) (entries s) (rr_state s) (stats s) (slots s) v (gasPrice s) (disablePreExec s) (disableBroadcastNetTx s) (workers s) (clock s) (ledger_now s) (ledger_past s) (mailbox s) (sent s).
Definition set_gasPrice (v : Z) (s : Server) : Server :=
  mkServer (txPool s) (allPendingTxs s) (block s) (block_locked s) (actors s) (entries s) (rr_state s) (stats s) (slots s) (s_height s) v (disablePreExec s) (disableBroadcastNetTx s) (workers s) (clock s) (ledger_now s) (ledger_past s) (mailbox s) (sent s).
Definition set_workers (v : list Worker) (s : Server) : Server :=
  mkServer (txPool s) (allPendingTxs s) (block s) (block_locked s) (actors s) (entries s) (rr_state s) (stats s) (slots s) (s_height s) (gasPrice s) (disablePreExec s) (disableBroadcastNetTx s) v (clock s) (ledger_now s) (ledger_past s) (mailbox s) (sent s).
Definition set_clock (v : Z) (s : Server) : Server :=
  mkServer (txPool s) (allPendingTxs s) (block s) (block_locked s) (actors s) (entries s) (rr_state s) (stats s) (slots s) (s_height s) (gasPrice s) (disablePreExec s) (disableBroadcastNetTx s) (workers s) v (ledger_now s) (ledger_past s) (mailbox s) (sent s).
Definition set_ledger_now (v : LedgerState) (s : Server) : Server :=
  mkServer (txPool s) (allPendingTxs s) (block s) (block_locked s) (actors s) (entries s) (rr_state s) (stats s) (slots s) (s_height s) (gasPrice s) (disablePreExec s) (disableBroadcastNetTx s) (workers s) (clock s) v (ledger_past s) (mailbox s) (sent s).
Definition set_ledger_past (v : list LedgerState) (s : Server) : Server :=
  mkServer (txPool s) (allPendingTxs s) (block s) (block_locked s) (actors s) (entries s) (rr_state s) (stats s) (slots s) (s_height s) (gasPrice s) (disablePreExec s) (disableBroadcastNetTx s) (workers s) (clock s) (ledger_now s) v (mailbox s) (sent s).
Definition set_mailbox (v : list CheckResponse) (s : Server) : Server :=
  mkServer (txPool s) (allPendingTxs s) (block s) (block_locked s) (actors s) (entries s) (rr_state s) (stats s) (slots s) (s_height s) (gasPrice s) (disablePreExec s) (disableBroadcastNetTx s) (workers s) (clock s) (ledger_now s) (ledger_past s) v (sent s).
Definition set_sent (v : list Event) (s : Server) : Server :=
  mkServer (txPool s) (allPendingTxs s) (block s) (block_locked s) (actors s) (entries s) (rr_state s) (stats s) (slots s) (s_height s) (gasPrice s) (disablePreExec s) (disableBroadcastNetTx s) (workers s) (clock s) (ledger_now s) (ledger_past s) (mailbox s) v.

Definition emit (e : Event) (s : Server) : Server := set_sent (e :: sent s) s.

Definition ledgers (s : Server) : list LedgerState := ledger_now s :: ledger_past s.

Definition set_pending (m : gmap Uint256 pendingTx) (w : Worker) : Worker := mkWorker (rcvTXCh w) (stfTxCh w) (rspCh w) m.
Definition set_rcv (l : list Transaction) (w : Worker) : Worker := mkWorker l (stfTxCh w) (rspCh w) (pendingTxList w).
Definition set_stf (l : list Transaction) (w : Worker) : Worker := mkWorker (rcvTXCh w) l (rspCh w) (pendingTxList w).
Definition set_rsp (l : list CheckResponse) (w : Worker) : Worker := mkWorker (rcvTXCh w) (stfTxCh w) l (pendingTxList w).

Definition set_worker (i : nat) (w : Worker) (s : Server) : Server := set_workers (<[i := w]> (workers s)) s.

Definition set_processed (m : gmap Uint256 VerifyTxResult) (b : pendingBlock) : pendingBlock :=
  mkPendingBlock (pb_sender b) (pb_height b) m (unProcessedTxs b).
Definition set_unprocessed (m : gmap Uint256 Transaction) (b : pendingBlock) : pendingBlock :=
  mkPendingBlock (pb_sender b) (pb_height b) (processedTxs b) m.

(** [getGasPriceConfig] *)
Definition getGasPriceConfig (l : LedgerState) : Z :=
  match getGlobalGasPrice l with
  | None => 0
  | Some globalGasPrice => if globalGasPrice <? config_GasPrice then config_GasPrice else globalGasPrice
  end.

(** [init]: the server before its workers start. *)
Definition init_server (num : nat) (noPreExec noBroadcast : bool) (now : Z) (l : LedgerState) : Server :=
  mkServer pool_Init ∅ (mkPendingBlock None 0 ∅ ∅) false ∅ ∅ ∅ (replicate 6 0) MAX_LIMITATION 0 (getGasPriceConfig l) noPreExec noBroadcast
    (replicate num (mkWorker [] [] [] ∅)) now l [] [] [].

End State.
