(* ===== verification/TxServer.v ===== *)
(** * The transaction pool server

    [txnpool/proc/txnpool_server.go], [txnpool_worker.go], [txnpool_actor.go] and the two validators, as threads on the
    state of [TxState].  An action is a critical section of one of the code's locks, an operation on a channel, or one access
    to a field.  The lock of the pending block is the only one that is held while other actions run ([verifyBlock]), so it
    is part of the state; the lock of a worker protects a map that only the worker itself changes. *)

From S2P Require Import Prelude Codec Merkle LedgerTypes Program Validation TxPool Conc TxState.

Open Scope prog_scope.

Section Server.
Context {K : Keypair} {HH : Hashes} {SL : SigLib} {G : GoRuntime} {LV : LedgerView}.
Notation P := (prog Server).

(** ** Small parts *)

Definition increaseStats (v : Z) : P unit :=
  act (fun s => match stats s !! Z.to_nat (v - 1) with
                | Some n => Done ((), set_stats (<[Z.to_nat (v - 1) := u64 (n + 1)]> (stats s)) s)
                | None => Crash
                end).

(** [select { case txResultCh <- result: default: }] *)
Definition reply (ch : option Z) (hash : Uint256) (err : Z) (s : Server) : Server :=
  match ch with Some c => emit (TxResult c hash err) s | None => s end.
Definition reply_http (sender : SenderType) (ch : option Z) (hash : Uint256) (err : Z) : P unit :=
  if bool_decide (sender = HttpSender) then writes (reply ch hash err) else Ret ().

Definition GetPID (actor : Z) (s : Server) : option Z :=
  if (actor <? TxActor) || (MaxActor <=? actor) then None else actors s !! actor.
Definition RegisterActor (actor pid : Z) : P unit := writes (fun s => set_actors (<[actor := pid]> (actors s)) s).
Definition UnRegisterActor (actor : Z) : P unit := writes (fun s => set_actors (delete actor (actors s)) s).

Definition getHeight : P Z := reads s_height.
Definition setHeight (height : Z) : P unit := writes (set_s_height height).
Definition getGasPrice : P Z := reads gasPrice.
Definition getTransaction (hash : Uint256) : P (option Transaction) := reads (fun s => GetTransaction hash (txPool s)).
Definition getTransactionCount : P Z := reads (fun s => GetTransactionCount (txPool s)).
Definition getPendingListSize : P Z := reads (fun s => Z.of_nat (size (allPendingTxs s))).
Definition getStats : P (list Z) := reads stats.

Definition delTransaction (t : Transaction) : P unit := writes (fun s => set_txPool (DelTxList t (txPool s)).2 s).
Definition addTxList (txEntry : TXEntry) : P bool :=
  let! ret := modify (fun s => let '(ret, tp) := AddTxList txEntry (txPool s) in (ret, set_txPool tp s)) in
  (if ret : bool then Ret () else increaseStats DuplicateStats);;;
  Ret ret.

(** ** The pending block *)

(** [sendBlkResult2Consensus], under the lock of the block. *)
Definition sendBlkResult2Consensus (s : Server) : Server :=
  let b := block s in
  let s := match pb_sender b with
           | Some pid => emit (VerifyBlockRsp pid (range_map (processedTxs b)).*2) s
           | None => s
           end in
  set_block (set_processed ∅ b) s.

Definition process_tx (t : Transaction) (err : Z) (b : pendingBlock) : pendingBlock :=
  set_processed (<[Tx.Hash t := mkResult (pb_height b) t err]> (processedTxs b)) b.

(** One critical section; it waits while [verifyBlock] holds the lock. *)
Definition checkPendingBlockOk (hash : Uint256) (err : Z) : P unit :=
  act (fun s =>
    if block_locked s then Blocked
    else match unProcessedTxs (block s) !! hash with
         | None => Done ((), s)
         | Some tx =>
             let b := set_processed (<[hash := mkResult (pb_height (block s)) tx err]> (processedTxs (block s))) (block s) in
             let b := set_unprocessed (delete hash (unProcessedTxs b)) b in
             let s := set_block b s in
             Done ((), if negb (err =? ErrNoError) || (Z.of_nat (size (unProcessedTxs b)) =? 0) then sendBlkResult2Consensus s else s)
         end).

Definition lock_block : P unit := act (fun s => if block_locked s then Blocked else Done ((), set_block_locked true s)).
Definition unlock_block : P unit := writes (set_block_locked false).

(** ** The pending list *)

(** The critical section of [removePendingTx]. *)
Definition finish_pending (hash : Uint256) (err : Z) (pt : serverPendingTx) (s : Server) : Server :=
  let s := if (err =? ErrNoError) &&
              (bool_decide (sp_sender pt = HttpSender) || (bool_decide (sp_sender pt = NetSender) && negb (disableBroadcastNetTx s)))
           then match GetPID NetActor s with Some pid => emit (TxToNet pid (sp_tx pt)) s | None => s end
           else s in
  let s := if bool_decide (sp_sender pt = HttpSender) then reply (sp_ch pt) hash err s else s in
  let s := set_allPendingTxs (delete hash (allPendingTxs s)) s in
  if Z.of_nat (size (allPendingTxs s)) <? MAX_LIMITATION
  then if slots s <? MAX_LIMITATION then set_slots (slots s + 1) s else s
  else s.

Definition removePendingTx (hash : Uint256) (err : Z) : P unit :=
  let! found := modify (fun s => match allPendingTxs s !! hash with
                                 | None => (false, s)
                                 | Some pt => (true, finish_pending hash err pt s)
                                 end) in
  if found : bool then checkPendingBlockOk hash err else Ret ().

Definition setPendingTx (tx : Transaction) (sender : SenderType) (ch : option Z) : P bool :=
  modify (fun s => match allPendingTxs s !! Tx.Hash tx with
                   | Some _ => (false, s)
                   | None => (true, set_allPendingTxs (<[Tx.Hash tx := mkServerPending tx sender ch]> (allPendingTxs s)) s)
                   end).

(** ** Handing work to the workers *)

Record LB := mkLB { lb_Size : Z; lb_WorkerID : Z }.
Definition lb_less (x y : LB) : bool := lb_Size x <? lb_Size y.
Definition loads (queue : Worker -> list Transaction) (s : Server) : list LB :=
  imap (fun i w => mkLB (zlen (queue w) + Z.of_nat (size (pendingTxList w))) (u8 (Z.of_nat i))) (workers s).

(** [ch <- x]: waits while the channel is full. *)
Definition send_rcv (i : nat) (tx : Transaction) : P unit :=
  act (fun s => match workers s !! i with
                | None => Crash
                | Some w => if zlen (rcvTXCh w) <? MAX_PENDING_TXN then Done ((), set_worker i (set_rcv (rcvTXCh w ++ [tx]) w) s) else Blocked
                end).
Definition send_stf (i : nat) (tx : Transaction) : P unit :=
  act (fun s => match workers s !! i with
                | None => Crash
                | Some w => if zlen (stfTxCh w) <? MAX_PENDING_TXN then Done ((), set_worker i (set_stf (stfTxCh w ++ [tx]) w) s) else Blocked
                end).
Definition send_rsp (i : nat) (rsp : CheckResponse) : P unit :=
  act (fun s => match workers s !! i with
                | None => Crash
                | Some w => if zlen (rspCh w) <? MAX_PENDING_TXN then Done ((), set_worker i (set_rsp (rspCh w ++ [rsp]) w) s) else Blocked
                end).

Definition assignTxToWorker (tx : Transaction) (sender : SenderType) (ch : option Z) : P bool :=
  let! ok := setPendingTx tx sender ch in
  if negb ok then
    increaseStats DuplicateStats;;;
    reply_http sender ch (Tx.Hash tx) ErrDuplicateInput;;;
    Ret false
  else
    let! lb := reads (loads rcvTXCh) in
    match sort_Sort lb_less lb with
    | [] => crash
    | e :: _ => send_rcv (Z.to_nat (lb_WorkerID e)) tx;;; Ret true
    end.

Definition reVerifyStateful (tx : Transaction) (sender : SenderType) : P unit :=
  let! ok := setPendingTx tx sender None in
  if negb ok then increaseStats DuplicateStats
  else
    let! lb := reads (loads stfTxCh) in
    match sort_Sort lb_less lb with
    | [] => crash
    | e :: _ => send_stf (Z.to_nat (lb_WorkerID e)) tx
    end.

Definition assignRspToWorker (rsp : CheckResponse) : P bool :=
  let! n := reads (fun s => zlen (workers s)) in
  (if (0 <=? r_WorkerId rsp) && (r_WorkerId rsp <? u8 n) then send_rsp (Z.to_nat (r_WorkerId rsp)) rsp else Ret ());;;
  (if r_ErrCode rsp =? ErrNoError then increaseStats SuccessStats
   else increaseStats FailureStats;;;
        if r_Type rsp =? VerifyType_Stateless then increaseStats SigErrStats else increaseStats StateErrStats);;;
  Ret true.

(** ** Validators *)

Definition registerValidator (v : RegisterValidator) : P unit :=
  writes (fun s => set_entries (<[rv_Type v := default [] (entries s !! rv_Type v) ++ [v]]> (entries s)) s).

(** The loop of [unRegisterValidator] ranges over a slice of [n] elements whose array [arr] the body shifts in place: the last
    element stays where it was.  The result is the array and the validators found, in order. *)
Fixpoint unregister_loop (id : string) (n i : nat) (arr : list RegisterValidator) (fuel : nat) : list RegisterValidator * list RegisterValidator :=
  match fuel with
  | O => (arr, [])
  | S fuel =>
      match arr !! i with
      | None => (arr, [])
      | Some v =>
          if bool_decide (rv_Id v = id) then
            let arr := take i arr ++ drop (S i) arr ++ drop (n - 1) arr in
            let '(arr, found) := unregister_loop id n (S i) arr fuel in (arr, v :: found)
          else unregister_loop id n (S i) arr fuel
      end
  end.

Definition ack (id : string) (ty : Z) (s : Server) (v : RegisterValidator) : Server :=
  match rv_Sender v with Some pid => emit (UnRegisterAck pid id ty) s | None => s end.

Definition unRegisterValidator (checkType : Z) (id : string) : P unit :=
  writes (fun s =>
    match entries s !! checkType with
    | None => s
    | Some tmpSlice =>
        let n := length tmpSlice in
        let '(arr, found) := unregister_loop id n 0 tmpSlice n in
        let s := foldl (ack id checkType) s found in
        match found with
        | [] => s
        | _ => set_entries (match (n - 1)%nat with
                            | O => delete checkType (entries s)
                            | n' => <[checkType := take n' arr]> (entries s)
                            end) s
        end
    end).

(** The next validator of a type, in turn.  An empty slice would be a division by zero. *)
Definition next_validator (key : Z) (v : list RegisterValidator) (s : Server) : outcome (option Z * Server) :=
  match v with
  | [] => Crash
  | _ => let lastIdx := default 0 (rr_state s !! key) in
         let next := (lastIdx + 1) mod zlen v in
         match v !! Z.to_nat next with
         | Some x => Done (rv_Sender x, set_rr_state (<[key := next]> (rr_state s)) s)
         | None => Crash
         end
  end.

Fixpoint next_validators (l : list (Z * list RegisterValidator)) (s : Server) : outcome (list (option Z) * Server) :=
  match l with
  | [] => Done ([], s)
  | (k, v) :: l =>
      match next_validator k v s with
      | Done (pid, s) => match next_validators l s with Done (pids, s) => Done (pid :: pids, s) | Blocked => Blocked | Crash => Crash end
      | Blocked => Blocked
      | Crash => Crash
      end
  end.

(** No validators at all: the loop over the result does nothing, as for [nil]. *)
Definition getNextValidatorPIDs : P (list (option Z)) := act (fun s => next_validators (range_map (entries s)) s).

Definition getNextValidatorPID (key : Z) : P (option Z) :=
  act (fun s => match entries s !! key with
                | None | Some [] => Done (None, s)
                | Some v => next_validator key v s
                end).

(** [pid.Request(req, rspPid)]; a nil [PID] panics. *)
Definition request (req : CheckTx) (rspPid : Z) (pid : option Z) : P unit :=
  match pid with Some p => writes (emit (CheckRequest p req rspPid)) | None => crash end.

Definition sendReq2Validator (req : CheckTx) : P unit :=
  let! rspPid := reads (GetPID VerifyRspActor) in
  match rspPid with
  | None => Ret ()
  | Some rspPid => let! pids := getNextValidatorPIDs in for_each pids (request req rspPid)
  end.

Definition sendReq2StatefulV (req : CheckTx) : P unit :=
  let! rspPid := reads (GetPID VerifyRspActor) in
  match rspPid with
  | None => Ret ()
  | Some rspPid =>
      let! pid := getNextValidatorPID VerifyType_Stateful in
      match pid with None => Ret () | Some _ => request req rspPid pid end
  end.

End Server.
