(* ===== verification/TxWorker.v ===== *)
(** * Workers, actors and validators of the transaction pool

    [txnpool_worker.go], the operations of [txnpool_server.go] that consensus calls, [txnpool_actor.go] and the actors of
    [validator/stateless] and [validator/stateful]; then the whole system, in which all of them run at the same time. *)

From S2P Require Import Prelude Codec Merkle LedgerTypes Program Validation ValidationSpec TxPool Conc TxState TxServer.

Open Scope prog_scope.

Section Worker.
Context {K : Keypair} {HH : Hashes} {SL : SigLib} {G : GoRuntime} {LV : LedgerView}.
Notation P := (prog Server).

(** ** Workers *)

(** An action of worker [i] on its pending list. *)
Definition on_pending {A} (i : nat) (f : Z -> gmap Uint256 pendingTx -> A * gmap Uint256 pendingTx) : P A :=
  act (fun s => match workers s !! i with
                | None => Crash
                | Some w => let '(a, m) := f (clock s) (pendingTxList w) in Done (a, set_worker i (set_pending m w) s)
                end).
Definition pending_lookup (i : nat) (hash : Uint256) : P (option pendingTx) := on_pending i (fun _ m => (m !! hash, m)).
Definition pending_insert (i : nat) (hash : Uint256) (pt : pendingTx) : P unit := on_pending i (fun _ m => ((), <[hash := pt]> m)).
Definition pending_delete (i : nat) (hash : Uint256) : P unit := on_pending i (fun _ m => ((), delete hash m)).

Definition set_valTime (t : Z) (pt : pendingTx) : pendingTx := mkPending (pt_tx pt) t (pt_req pt) (pt_flag pt) (pt_retries pt) (pt_ret pt).

(** [pt.valTime = time.Now()] *)
Definition touch (i : nat) (hash : Uint256) : P unit := on_pending i (fun now m => ((), alter (set_valTime now) hash m)).

Definition worker_GetTxStatus (i : nat) (hash : Uint256) : P (option TxStatus) :=
  on_pending i (fun _ m => (match m !! hash with Some pt => Some (mkStatus hash (pt_ret pt)) | None => None end, m)).

(** [putTxPool] *)
Definition putTxPool (pt : pendingTx) : P unit :=
  let! _ := addTxList (mkEntry (pt_tx pt) (pt_ret pt)) in
  removePendingTx (Tx.Hash (pt_tx pt)) ErrNoError.

(** The bit of a type in the [uint8] flag; past the eighth it is shifted out. *)
Definition type_bit (ty : Z) : Z := u8 (Z.shiftl 1 ty).

(** [pt.flag |= ...; pt.ret = append(...)], unless the type has answered. *)
Definition record_answer (rsp : CheckResponse) (pt : pendingTx) : pendingTx :=
  if Z.land (pt_flag pt) (type_bit (r_Type rsp)) =? 0 then
    mkPending (pt_tx pt) (pt_valTime pt) (pt_req pt) (Z.lor (pt_flag pt) (type_bit (r_Type rsp))) (pt_retries pt)
      (pt_ret pt ++ [mkAttr (r_Height rsp) (r_Type rsp) (r_ErrCode rsp)])
  else pt.

(** All the checks have been passed. *)
Definition complete (pt : pendingTx) : bool := Z.land (pt_flag pt) 0xf =? VERIFY_MASK.

Definition handleRsp (i : nat) (rsp : CheckResponse) : P unit :=
  if negb (r_WorkerId rsp =? Z.of_nat i) then Ret ()
  else
    let! found := pending_lookup i (r_Hash rsp) in
    match found with
    | None => Ret ()
    | Some pt =>
        if negb (r_ErrCode rsp =? ErrNoError) then
          pending_delete i (r_Hash rsp);;;
          removePendingTx (r_Hash rsp) (r_ErrCode rsp)
        else
          let! below := (if Z.land STATEFUL_MASK (s64 (Z.shiftl 1 (r_Type rsp))) =? 0 then Ret false
                         else let! height := getHeight in Ret (r_Height rsp <? height)) in
          if below : bool then
            sendReq2StatefulV (pt_req pt);;;
            touch i (r_Hash rsp)
          else
            let pt := record_answer rsp pt in
            pending_insert i (r_Hash rsp) pt;;;
            if complete pt then putTxPool pt;;; pending_delete i (r_Hash rsp) else Ret ()
    end.

Definition verifyTx (i : nat) (tx : Transaction) : P unit :=
  let! t := getTransaction (Tx.Hash tx) in
  match t with
  | Some t => removePendingTx (Tx.Hash t) ErrDuplicateInput
  | None =>
      let! known := pending_lookup i (Tx.Hash tx) in
      match known with
      | Some _ => Ret ()
      | None =>
          let req := mkCheck (Z.of_nat i) tx in
          sendReq2Validator req;;;
          pending_insert i (Tx.Hash tx) (mkPending tx 0 req 0 0 []);;;
          touch i (Tx.Hash tx)
      end
  end.

Definition reVerifyTx (i : nat) (txHash : Uint256) : P unit :=
  let! found := pending_lookup i txHash in
  match found with
  | None => Ret ()
  | Some pt => (if complete pt then Ret () else sendReq2Validator (pt_req pt));;; touch i txHash
  end.

Definition verifyStateful (i : nat) (tx : Transaction) : P unit :=
  let req := mkCheck (Z.of_nat i) tx in
  let! now := reads clock in
  pending_insert i (Tx.Hash tx) (mkPending tx now req STATELESS_MASK 0 [mkAttr 0 VerifyType_Stateless ErrNoError]);;;
  sendReq2StatefulV req.

Definition second : Z := 1000000000.
Definition set_retries (n : Z) (pt : pendingTx) : pendingTx := mkPending (pt_tx pt) (pt_valTime pt) (pt_req pt) (pt_flag pt) n (pt_ret pt).

(** One entry of the pending list at a timeout; [now - valTime] in nanoseconds. *)
Definition expire (i : nat) (kv : Uint256 * pendingTx) : P unit :=
  let '(k, v) := kv in
  let! now := reads clock in
  if negb (complete v) && (EXPIRE_INTERVAL <=? Z.quot (now - pt_valTime v) second) then
    if pt_retries v <? MAX_RETRIES then
      reVerifyTx i k;;;
      on_pending i (fun _ m => ((), alter (set_retries (u8 (pt_retries v + 1))) k m))
    else
      pending_delete i k;;;
      removePendingTx k ErrRetryExhausted
  else Ret ().

(** The list is changed by this worker alone, and only at the entry being visited. *)
Definition handleTimeoutEvent (i : nat) : P unit :=
  let! l := on_pending i (fun _ m => (range_map m, m)) in
  for_each l (expire i).

(** A turn of the loop [start]: one of the channels that has something, or the timer. *)
Definition receive {A} (i : nat) (queue : Worker -> list A) (upd : list A -> Worker -> Worker) : P A :=
  act (fun s => match workers s !! i with
                | None => Crash
                | Some w => match queue w with [] => Blocked | x :: l => Done (x, set_worker i (upd l w) s) end
                end).
Definition turn_rcv (i : nat) : P unit := let! tx := receive i rcvTXCh set_rcv in verifyTx i tx.
Definition turn_stf (i : nat) : P unit := let! tx := receive i stfTxCh set_stf in verifyStateful i tx.
Definition turn_rsp (i : nat) : P unit := let! rsp := receive i rspCh set_rsp in handleRsp i rsp.

(** ** What consensus asks *)

Definition getTxPool (byCount : bool) (height : Z) : P (list TXEntry) :=
  setHeight height;;;
  let! (avlTxList, oldTxList) := reads (fun s => GetTxPool config_MaxTxInBlock byCount height (txPool s)) in
  for_each oldTxList (fun t => delTransaction t;;; reVerifyStateful t NilSender);;;
  Ret avlTxList.

(** [preExecCheck] and [isBalanceEnough] *)
Definition preExecCheck (txn : Transaction) : P bool :=
  let! resultGas := reads (fun s => PreExecuteContract_Gas (ledger_now s) txn) in
  if GasLimit (t_body txn) <? resultGas then Ret false
  else
    let '(gas, overflow) := SafeMul (GasPrice (t_body txn)) resultGas in
    if overflow : bool then Ret false
    else
      let! balance := reads (fun s => GetContractBalance (ledger_now s) (Payer (t_body txn))) in
      Ret (match balance with None => false | Some b => gas <=? b end).

Definition update_gas_price : P unit :=
  let! price := reads (fun s => getGasPriceConfig (ledger_now s)) in
  let! oldGasPrice := modify (fun s => (gasPrice s, set_gasPrice price s)) in
  if oldGasPrice <? price then writes (fun s => set_txPool (RemoveTxsBelowGasPrice price (txPool s)) s) else Ret ().

Definition cleanTransactionList (txs : list Transaction) (height : Z) : P unit :=
  writes (fun s => set_txPool (CleanTransactionList txs (txPool s)) s);;;
  (if height mod UPDATE_FREQUENCY =? 0 then update_gas_price else Ret ());;;
  let! disabled := reads disablePreExec in
  if disabled : bool then Ret ()
  else
    let! remain := modify (fun s => let '(l, tp) := Remain (txPool s) in (l, set_txPool tp s)) in
    for_each remain (fun t => let! ok := preExecCheck t in if ok : bool then reVerifyStateful t NilSender else Ret ()).

(** The first loop of [verifyBlock]; false when the verdict has been sent. *)
Definition refuse_block (t : Transaction) (err : Z) : P unit :=
  writes (fun s => sendBlkResult2Consensus (set_block (process_tx t err (block s)) s)).
Fixpoint check_block_txs (seen : gset Uint256) (l : list Transaction) : P bool :=
  match l with
  | [] => Ret true
  | t :: l =>
      let! price := reads gasPrice in
      if tx_GasPrice t <? price then refuse_block t ErrGasPrice;;; Ret false
      else if bool_decide (Tx.Hash t ∈ seen) then refuse_block t ErrDoubleSpend;;; Ret false
      else check_block_txs ({[Tx.Hash t]} ∪ seen) l
  end.

Definition await_tx (t : Transaction) : P unit :=
  writes (fun s => set_block (set_unprocessed (<[Tx.Hash t := t]> (unProcessedTxs (block s))) (block s)) s).

(** Known results are recorded; if nothing is to wait for, the verdict is sent. *)
Definition record_verified (l : list VerifyTxResult) : P unit :=
  for_each l (fun t => writes (fun s => set_block (set_processed (<[Tx.Hash (v_Tx t) := t]> (processedTxs (block s))) (block s)) s));;;
  writes (fun s => if Z.of_nat (size (unProcessedTxs (block s))) =? 0 then sendBlkResult2Consensus s else s).

Definition verifyBlock (height : Z) (txs : list Transaction) (sender : option Z) : P unit :=
  if zlen txs =? 0 then Ret ()
  else
    setHeight height;;;
    lock_block;;;
    writes (set_block (mkPendingBlock sender height ∅ ∅));;;
    let! ok := check_block_txs ∅ txs in
    (if ok : bool then
       let! r := modify (fun s => let '(r, tp) := GetUnverifiedTxs txs height (txPool s) in (r, set_txPool tp s)) in
       for_each (UnverifiedTxs r) (fun t => let! _ := assignTxToWorker t NilSender None in await_tx t);;;
       for_each (OldTxs r) (fun t => reVerifyStateful t NilSender;;; await_tx t);;;
       record_verified (VerifiedTxs r)
     else Ret ());;;
    unlock_block.

(** ** Queries *)

Definition getTxCount : P (list Z) :=
  let! n := getTransactionCount in let! m := getPendingListSize in Ret [u32 n; u32 m].
Definition getPendingTxs (byCount : bool) : P (list Transaction) := reads (fun s => map sp_tx (range_map (allPendingTxs s)).*2).

Definition checkTx (hash : Uint256) : P bool :=
  let! pending := reads (fun s => allPendingTxs s !! hash) in
  match pending with
  | Some _ => Ret true
  | None => let! t := getTransaction hash in Ret (match t with Some _ => true | None => false end)
  end.

Fixpoint status_loop (hash : Uint256) (ids : list nat) : P (option TxStatus) :=
  match ids with
  | [] => reads (fun s => pool_GetTxStatus hash (txPool s))
  | i :: ids => let! ret := worker_GetTxStatus i hash in match ret with Some _ => Ret ret | None => status_loop hash ids end
  end.
Definition getTxStatusReq (hash : Uint256) : P (option TxStatus) :=
  let! n := reads (fun s => length (workers s)) in status_loop hash (seq 0 n).

(** ** Actors *)

Definition CONTRACT_CREATE_GAS : Z := 20000000.

(** [<-ta.server.slots] *)
Definition take_slot : P unit := act (fun s => if slots s <=? 0 then Blocked else Done ((), set_slots (slots s - 1) s)).

Definition handleTransaction (sender : SenderType) (txn : Transaction) (ch : option Z) : P unit :=
  let answer := reply_http sender ch (Tx.Hash txn) in
  increaseStats RcvStats;;;
  match written (Tx.Serialization txn) with
  | Ok raw =>
      if MAX_TX_SIZE <? zlen raw then answer ErrUnknown
      else
        let! known := getTransaction (Tx.Hash txn) in
        match known with
        | Some _ => increaseStats DuplicateStats;;; answer ErrDuplicateInput
        | None =>
            let! count := getTransactionCount in
            if MAX_CAPACITY <=? count then increaseStats FailureStats;;; answer ErrTxPoolFull
            else
              let '(_, overflow) := SafeMul (GasLimit (t_body txn)) (GasPrice (t_body txn)) in
              if overflow : bool then answer ErrUnknown
              else
                let! gasPriceConfig := getGasPrice in
                if (GasLimit (t_body txn) <? config_GasLimit) || (GasPrice (t_body txn) <? gasPriceConfig) then answer ErrUnknown
                else if (bz (TxType (t_body txn)) =? Tx.Deploy) && (GasLimit (t_body txn) <? CONTRACT_CREATE_GAS) then answer ErrUnknown
                else
                  let! disabled := reads disablePreExec in
                  let! ok := (if disabled : bool then Ret true else preExecCheck txn) in
                  if negb ok then answer ErrUnknown
                  else take_slot;;; let! _ := assignTxToWorker txn sender ch in Ret ()
        end
  | _ => crash
  end.

Definition respond (from : option Z) (r : Reply) : P unit :=
  match from with Some pid => writes (emit (Replied pid r)) | None => Ret () end.

Inductive TxMsg :=
| TxReq (tx : Transaction) (sender : SenderType) (TxResultCh : option Z)
| GetTxnReq (hash : Uint256) | GetTxnStats | CheckTxnReq (hash : Uint256) | GetTxnStatusReq (hash : Uint256) | GetTxnCountReq.

Definition TxActor_Receive (from : option Z) (msg : TxMsg) : P unit :=
  match msg with
  | TxReq tx sender ch => handleTransaction sender tx ch
  | GetTxnReq hash => let! res := getTransaction hash in respond from (GetTxnRsp res)
  | GetTxnStats => let! res := getStats in respond from (GetTxnStatsRsp res)
  | CheckTxnReq hash => let! res := checkTx hash in respond from (CheckTxnRsp res)
  | GetTxnStatusReq hash =>
      let! res := getTxStatusReq hash in
      respond from (match res with None => GetTxnStatusRsp hash None | Some st => GetTxnStatusRsp (st_Hash st) (Some (st_Attrs st)) end)
  | GetTxnCountReq => let! res := getTxCount in respond from (GetTxnCountRsp res)
  end.

Inductive TxPoolMsg :=
| GetTxnPoolReq (ByCount : bool) (height : Z) | GetPendingTxnReq (ByCount : bool)
| VerifyBlockReq (height : Z) (Txs : list Transaction) | SaveBlockCompleteMsg (block : option Block).

Definition TxPoolActor_Receive (from : option Z) (msg : TxPoolMsg) : P unit :=
  match msg with
  | GetTxnPoolReq byCount height => let! res := getTxPool byCount height in respond from (GetTxnPoolRsp res)
  | GetPendingTxnReq byCount => let! res := getPendingTxs byCount in respond from (GetPendingTxnRsp res)
  | VerifyBlockReq height txs => verifyBlock height txs from
  | SaveBlockCompleteMsg (Some b) => cleanTransactionList (Transactions b) (Height (b_Header b))
  | SaveBlockCompleteMsg None => Ret ()
  end.

Inductive VerifyRspMsg :=
| RegisterMsg (v : RegisterValidator) | UnRegisterMsg (id : string) (ty : Z) | ResponseMsg (rsp : CheckResponse).

Definition VerifyRspActor_Receive (msg : VerifyRspMsg) : P unit :=
  match msg with
  | RegisterMsg v => registerValidator v
  | UnRegisterMsg id ty => unRegisterValidator ty id
  | ResponseMsg rsp => let! _ := assignRspToWorker rsp in Ret ()
  end.

(** ** Validators *)

Definition tell_response (rsp : CheckResponse) : P unit := writes (fun s => set_mailbox (mailbox s ++ [rsp]) s).

Definition stateless_check (req : CheckTx) : P unit :=
  match VerifyTransaction (c_Tx req) with
  | Ok (errCode, _) => tell_response (mkResponse (c_WorkerId req) VerifyType_Stateless (Tx.Hash (c_Tx req)) 0 errCode)
  | _ => crash
  end.

Definition stateful_check (req : CheckTx) : P unit :=
  let! height := reads (fun s => GetCurrentBlockHeight (ledger_now s)) in
  let! found := reads (fun s => IsContainTransaction (ledger_now s) (Tx.Hash (c_Tx req))) in
  let errCode := match found with None => ErrUnknown | Some true => ErrDuplicatedTx | Some false => ErrNoError end in
  tell_response (mkResponse (c_WorkerId req) VerifyType_Stateful (Tx.Hash (c_Tx req)) height errCode).

(** [Register] and [UnRegister] of the two validators; the latter leaves the type at its zero value. *)
Definition register_msg (ty pid : Z) (id : string) : VerifyRspMsg := RegisterMsg (mkValidator (Some pid) ty id).
Definition unregister_msg (id : string) : VerifyRspMsg := UnRegisterMsg id 0.

(** ** The system *)

(** The answer that the actor of the responses takes from its mailbox next. *)
Definition next_response (n : nat) : P CheckResponse :=
  act (fun s => match mailbox s !! n with None => Blocked | Some r => Done (r, set_mailbox (delete n (mailbox s)) s) end).

(** A transaction that can be serialised and checked, as every decoded one ([decoded_well_made]). *)
Definition well_made (tx : Transaction) : Prop := (exists raw, written (Tx.Serialization tx) = Ok raw) /\ checkable tx.

(** What each thread may take up when it is idle: 0 to 2 are the actors, 3 and 4 the validators, the others the workers. *)
Inductive starts : nat -> Server -> P unit -> Prop :=
| start_tx s from msg : (forall tx sender ch, msg = TxReq tx sender ch -> well_made tx) -> starts 0 s (TxActor_Receive from msg)
| start_pool s from msg : (forall height txs, msg = VerifyBlockReq height txs -> Forall checkable txs) -> starts 1 s (TxPoolActor_Receive from msg)
| start_register s ty pid id : starts 2 s (VerifyRspActor_Receive (register_msg ty pid id))
| start_unregister s id : starts 2 s (VerifyRspActor_Receive (unregister_msg id))
| start_response s n : starts 2 s (let! rsp := next_response n in VerifyRspActor_Receive (ResponseMsg rsp))
| start_actor s actor pid : starts 2 s (RegisterActor actor pid)
| start_actor_gone s actor : starts 2 s (UnRegisterActor actor)
| start_stateless s pid req rspPid : CheckRequest pid req rspPid ∈ sent s -> starts 3 s (stateless_check req)
| start_stateful s pid req rspPid : CheckRequest pid req rspPid ∈ sent s -> starts 4 s (stateful_check req)
| start_rcv s i : (i < length (workers s))%nat -> starts (5 + i) s (turn_rcv i)
| start_stf s i : (i < length (workers s))%nat -> starts (5 + i) s (turn_stf i)
| start_rsp s i : (i < length (workers s))%nat -> starts (5 + i) s (turn_rsp i)
| start_timer s i : (i < length (workers s))%nat -> starts (5 + i) s (handleTimeoutEvent i).

(** The ledger moves on, and time. *)
Inductive world : Server -> Server -> Prop :=
| world_ledger s l : world s (set_ledger_now l (set_ledger_past (ledgers s) s))
| world_clock s t : world s (set_clock t s).

Definition idle (s : Server) : config Server := mkConfig s (replicate (5 + length (workers s)) (Ret ())).
Definition reachable (s0 : Server) (c : config Server) : Prop := rtc (step starts world) (idle s0) c.

End Worker.
