(* ===== verification/TxInv.v ===== *)
(** * The invariant of the transaction pool

    What the shared state of the server guarantees at every moment, whichever thread moves: a transaction is in
    the pool only under its own hash and with exactly one good answer of each validator, and everything on the way there (answers in
    channels, pending lists, results of the pending block) carries the evidence collected so far. *)

From S2P Require Import Prelude Codec Merkle LedgerTypes Program Validation TxPool Conc TxState TxServer TxWorker.

Section Inv.
Context {K : Keypair} {HH : Hashes} {SL : SigLib} {G : GoRuntime} {LV : LedgerView}.
Implicit Types (ls : list LedgerState) (s : Server) (h : Uint256).

(** ** Evidence *)

(** Some transaction of this hash is valid by itself. *)
Definition stateless_ok h : Prop := exists t t', t_hash t = h /\ VerifyTransaction t = Ok (ErrNoError, t').

(** The ledger was at [height], and then or later did not contain the hash. *)
Definition checked ls h (height : Z) : Prop :=
  exists later l2 earlier l1, ls = later ++ l2 :: earlier /\ l1 ∈ l2 :: earlier /\
    GetCurrentBlockHeight l1 = height /\ IsContainTransaction l2 h = Some false.

Definition accepted ls h : Prop := stateless_ok h /\ exists height, checked ls h height.

(** The check of the transaction ends. *)
Definition sound (t : Transaction) : Prop := VerifyTransaction t <> Panic.

(** A transaction that only has to be compared with the ledger again. *)
Definition recheck (t : Transaction) : Prop := stateless_ok (t_hash t) /\ sound t.

Definition approved ls h (a : TXAttr) : Prop :=
  a_ErrCode a = ErrNoError /\ (a_Type a = VerifyType_Stateless -> stateless_ok h) /\ (a_Type a = VerifyType_Stateful -> checked ls h (a_Height a)).

Definition of_type (ty : Z) (l : list TXAttr) : nat := length (filter (fun a => a_Type a = ty) l).

Record verified ls h (e : TXEntry) : Prop := mkVerified {
  vf_hash : t_hash (e_Tx e) = h;
  vf_approved : Forall (approved ls h) (Attrs e);
  vf_stateless : of_type VerifyType_Stateless (Attrs e) = 1%nat;
  vf_stateful : of_type VerifyType_Stateful (Attrs e) = 1%nat;
  vf_sound : sound (e_Tx e) }.

(** A pending transaction: the two low bits of the flag say which checks are recorded. *)
Record pending_ok ls h (pt : pendingTx) : Prop := mkPendingOk {
  po_hash : t_hash (pt_tx pt) = h;
  po_approved : Forall (approved ls h) (pt_ret pt);
  po_flag : forall ty, ty = VerifyType_Stateless \/ ty = VerifyType_Stateful ->
    of_type ty (pt_ret pt) = (if Z.testbit (pt_flag pt) ty then 1 else 0)%nat;
  po_sound : sound (pt_tx pt);
  po_req : sound (c_Tx (pt_req pt)) }.

Definition genuine ls (r : CheckResponse) : Prop :=
  r_ErrCode r = ErrNoError -> approved ls (r_Hash r) (mkAttr (r_Height r) (r_Type r) (r_ErrCode r)).

Definition result_ok ls h (r : VerifyTxResult) : Prop := t_hash (v_Tx r) = h /\ (v_ErrCode r = ErrNoError -> accepted ls h).

Definition event_ok ls (e : Event) : Prop :=
  match e with
  | VerifyBlockRsp _ l => Forall (fun r => v_ErrCode r = ErrNoError -> accepted ls (t_hash (v_Tx r))) l
  | Replied _ (GetTxnPoolRsp l) => Forall (fun e => verified ls (t_hash (e_Tx e)) e) l
  | TxToNet _ tx => accepted ls (t_hash tx)
  | CheckRequest _ req _ => sound (c_Tx req)
  | _ => True
  end.

Record worker_ok ls (w : Worker) : Prop := mkWorkerOk {
  wo_rcv : Forall sound (rcvTXCh w);
  wo_stf : Forall recheck (stfTxCh w);
  wo_rsp : Forall (genuine ls) (rspCh w);
  wo_pending : map_Forall (pending_ok ls) (pendingTxList w) }.

Record block_ok ls (b : pendingBlock) : Prop := mkBlockOk {
  bo_processed : map_Forall (result_ok ls) (processedTxs b);
  bo_unprocessed : map_Forall (fun h t => t_hash t = h) (unProcessedTxs b) }.

Definition validators_ok (m : gmap Z (list RegisterValidator)) : Prop :=
  map_Forall (fun _ l => l <> [] /\ Forall (fun v => rv_Sender v <> None) l) m.

(** ** The invariant *)

Record Inv s : Prop := mkInv {
  inv_pool : map_Forall (verified (ledgers s)) (txPool s);
  inv_pending : map_Forall (fun h pt => t_hash (sp_tx pt) = h) (allPendingTxs s);
  inv_block : block_ok (ledgers s) (block s);
  inv_workers : Forall (worker_ok (ledgers s)) (workers s);
  inv_mailbox : Forall (genuine (ledgers s)) (mailbox s);
  inv_sent : Forall (event_ok (ledgers s)) (sent s);
  inv_entries : validators_ok (entries s);
  inv_rr : map_Forall (fun _ i => 0 <= i) (rr_state s);
  inv_stats : length (stats s) = 6%nat;
  inv_count : (0 < length (workers s) < 256)%nat }.

(** What only grows: the states the ledger has been in; the number of workers stays. *)
Definition grows s s' : Prop := (exists new, ledgers s' = new ++ ledgers s) /\ length (workers s') = length (workers s).
Definition same s s' : Prop := ledgers s' = ledgers s /\ length (workers s') = length (workers s).

Lemma grows_same s s' : same s s' -> grows s s'.
Proof. intros [E1 E2]. split; [exists []; exact E1 | exact E2]. Qed.
Lemma same_refl s : same s s.
Proof. split; reflexivity. Qed.
Lemma same_trans s1 s2 s3 : same s1 s2 -> same s2 s3 -> same s1 s3.
Proof. intros [E1 E2] [E3 E4]. split; congruence. Qed.
Lemma grows_refl s : grows s s.
Proof. apply grows_same, same_refl. Qed.
Lemma grows_trans s1 s2 s3 : grows s1 s2 -> grows s2 s3 -> grows s1 s3.
Proof. intros [[n1 E1] L1] [[n2 E2] L2]. split; [exists (n2 ++ n1); rewrite E2, E1, app_assoc; reflexivity | congruence]. Qed.
Lemma same_set_worker i w s : same s (set_worker i w s).
Proof. split; [reflexivity | apply length_insert]. Qed.

Lemma checked_grows new ls h height : checked ls h height -> checked (new ++ ls) h height.
Proof. intros (a & l2 & b & l1 & -> & H). exists (new ++ a), l2, b, l1. rewrite app_assoc. auto. Qed.
Lemma accepted_grows new ls h : accepted ls h -> accepted (new ++ ls) h.
Proof. intros [H1 [height H2]]. split; [exact H1|]. exists height. apply checked_grows, H2. Qed.
Lemma approved_grows new ls h a : approved ls h a -> approved (new ++ ls) h a.
Proof. intros (H1 & H2 & H3). split; [exact H1|]. split; [exact H2|]. intros H. apply checked_grows, H3, H. Qed.
Lemma verified_grows new ls h e : verified ls h e -> verified (new ++ ls) h e.
Proof. intros [H1 H2 H3 H4 H5]. constructor; auto. eapply Forall_impl; [exact H2 | apply approved_grows]. Qed.
Lemma pending_ok_grows new ls h pt : pending_ok ls h pt -> pending_ok (new ++ ls) h pt.
Proof. intros [H1 H2 H3 H4 H5]. constructor; auto. eapply Forall_impl; [exact H2 | apply approved_grows]. Qed.
Lemma genuine_grows new ls r : genuine ls r -> genuine (new ++ ls) r.
Proof. intros H E. apply approved_grows, H, E. Qed.
Lemma result_ok_grows new ls h r : result_ok ls h r -> result_ok (new ++ ls) h r.
Proof. intros [H1 H2]. split; [exact H1|]. intros E. apply accepted_grows, H2, E. Qed.
Lemma event_ok_grows new ls e : event_ok ls e -> event_ok (new ++ ls) e.
Proof.
  destruct e as [pid [| | | | |l|]|pid l|pid tx| | |]; cbn; auto using accepted_grows; intros H; (eapply Forall_impl; [exact H|]); cbn; auto using accepted_grows, verified_grows.
Qed.
Lemma worker_ok_grows new ls w : worker_ok ls w -> worker_ok (new ++ ls) w.
Proof.
  intros [H0 H1 H2 H3]. constructor; [exact H0 | exact H1 | eapply Forall_impl; [exact H2 | apply genuine_grows]|]. eapply map_Forall_impl; [exact H3|]. intros h pt. apply pending_ok_grows.
Qed.

(** From the state a thread has last seen to the state it acts on. *)
Lemma at_later s s' (F : list LedgerState -> Prop) : (forall new ls, F ls -> F (new ++ ls)) -> grows s s' -> F (ledgers s) -> F (ledgers s').
Proof. intros HF [[new ->] _]. apply HF. Qed.

(** ** Setting one field *)

Ltac one_field := intros []; constructor; cbn in *; auto.

Lemma inv_set_txPool s tp : Inv s -> map_Forall (verified (ledgers s)) tp -> Inv (set_txPool tp s).
Proof. one_field. Qed.
Lemma inv_set_allPendingTxs s m : Inv s -> map_Forall (fun h pt => t_hash (sp_tx pt) = h) m -> Inv (set_allPendingTxs m s).
Proof. one_field. Qed.
Lemma inv_set_block s b : Inv s -> block_ok (ledgers s) b -> Inv (set_block b s).
Proof. one_field. Qed.
Lemma inv_set_block_locked s b : Inv s -> Inv (set_block_locked b s).
Proof. one_field. Qed.
Lemma inv_set_actors s m : Inv s -> Inv (set_actors m s).
Proof. one_field. Qed.
Lemma inv_set_entries s m : Inv s -> validators_ok m -> Inv (set_entries m s).
Proof. one_field. Qed.
Lemma inv_set_rr_state s m : Inv s -> map_Forall (fun _ i => 0 <= i) m -> Inv (set_rr_state m s).
Proof. one_field. Qed.
Lemma inv_set_stats s l : Inv s -> length l = 6%nat -> Inv (set_stats l s).
Proof. one_field. Qed.
Lemma inv_set_slots s n : Inv s -> Inv (set_slots n s).
Proof. one_field. Qed.
Lemma inv_set_s_height s n : Inv s -> Inv (set_s_height n s).
Proof. one_field. Qed.
Lemma inv_set_gasPrice s n : Inv s -> Inv (set_gasPrice n s).
Proof. one_field. Qed.
Lemma inv_set_mailbox s l : Inv s -> Forall (genuine (ledgers s)) l -> Inv (set_mailbox l s).
Proof. one_field. Qed.
Lemma inv_emit s e : Inv s -> event_ok (ledgers s) e -> Inv (emit e s).
Proof. intros [] He. constructor; cbn in *; auto. Qed.
Lemma inv_set_worker s i w w' : Inv s -> workers s !! i = Some w -> worker_ok (ledgers s) w' -> Inv (set_worker i w' s).
Proof.
  intros [] Hi Hw. constructor; cbn in *; auto; [|rewrite length_insert; assumption]. apply Forall_insert; assumption.
Qed.

(** Whatever the rest of the world does. *)
Lemma world_inv s s' : Inv s -> world s s' -> Inv s' /\ grows s s'.
Proof.
  intros Hs Hw. destruct Hw as [s l|s t].
  - split; [|split; [exists [l]; reflexivity | reflexivity]]. destruct Hs. constructor; cbn in *; auto.
    + eapply map_Forall_impl; [eassumption|]. intros h e. exact (verified_grows [l] _ h e).
    + destruct inv_block0 as [H1 H2]. constructor; [|exact H2]. eapply map_Forall_impl; [exact H1|]. intros h r. exact (result_ok_grows [l] _ h r).
    + eapply Forall_impl; [eassumption | exact (worker_ok_grows [l] _)].
    + eapply Forall_impl; [eassumption | exact (genuine_grows [l] _)].
    + eapply Forall_impl; [eassumption | exact (event_ok_grows [l] _)].
  - split; [|apply grows_same; split; reflexivity]. destruct Hs. constructor; auto.
Qed.

Lemma init_inv num noPreExec noBroadcast now l : (0 < num < 256)%nat -> Inv (init_server num noPreExec noBroadcast now l).
Proof.
  intros Hn. constructor; cbn; [apply map_Forall_empty | apply map_Forall_empty | constructor; apply map_Forall_empty | | apply Forall_nil_2 | apply Forall_nil_2
    | apply map_Forall_empty | apply map_Forall_empty | reflexivity | rewrite length_replicate; exact Hn].
  apply Forall_replicate. constructor; cbn; [apply Forall_nil_2 | apply Forall_nil_2 | apply Forall_nil_2 | apply map_Forall_empty].
Qed.

End Inv.

Create HintDb txpool.
#[export] Hint Resolve inv_set_txPool inv_set_allPendingTxs inv_set_block inv_set_block_locked inv_set_actors inv_set_entries inv_set_rr_state inv_set_stats
  inv_set_slots inv_set_s_height inv_set_gasPrice inv_set_mailbox inv_emit inv_set_worker grows_refl grows_same same_refl same_set_worker : txpool.
