(* ===== verification/TxSafe.v ===== *)
(** * Every thread of the transaction pool is safe

    Each operation of the server, the workers, the actors and the validators, from any state that satisfies the invariant,
    preserves it at each of its actions and does not panic; what it knows of its arguments is evidence that only grows. *)

From S2P Require Import Prelude Codec Merkle LedgerTypes Program Validation TxPool TxPoolTheory Conc TxState TxServer TxWorker TxInv.

Section Safe.
Context {K : Keypair} {HH : Hashes} {SL : SigLib} {G : GoRuntime} {LV : LedgerView}.
Implicit Types (s : Server) (h : Uint256).

Definition ok {A} (p : prog Server A) s (Q : A -> Server -> Prop) : Prop := safe Inv grows p s Q.
Definition fine {A} (p : prog Server A) s : Prop := ok p s (fun _ _ => True).

Lemma ok_seq {A B} (p : prog Server A) (g : A -> prog Server B) s R Q : ok p s R -> (forall a s', grows s s' -> R a s' -> ok (g a) s' Q) -> ok (pbind p g) s Q.
Proof. apply safe_seq; [exact grows_refl | exact grows_trans]. Qed.
Lemma fine_seq {A B} (p : prog Server A) (g : A -> prog Server B) s Q : fine p s -> (forall a s', grows s s' -> ok (g a) s' Q) -> ok (pbind p g) s Q.
Proof. intros Hp Hg. eapply ok_seq; [exact Hp|]. intros a s' H _. auto. Qed.
Lemma fine_each {A} (l : list A) (body : A -> prog Server unit) s (F : A -> list LedgerState -> Prop) :
  (forall a new ls, F a ls -> F a (new ++ ls)) -> (forall a, a ∈ l -> F a (ledgers s)) -> (forall a s', F a (ledgers s') -> fine (body a) s') -> fine (for_each l body) s.
Proof.
  intros HF Hl Hb. apply (safe_for_each Inv grows grows_refl grows_trans l body s (fun a s' => F a (ledgers s'))); [|exact Hl | exact Hb].
  intros a s1 s2 Hg. exact (at_later s1 s2 (F a) (HF a) Hg).
Qed.

(** Reads, and writes that preserve the invariant. *)
Lemma ok_reads {A} (f : Server -> A) s (Q : A -> Server -> Prop) : (forall s', Inv s' -> grows s s' -> Q (f s') s') -> ok (reads f) s Q.
Proof. apply safe_reads, grows_refl. Qed.
Lemma fine_reads {A} (f : Server -> A) s : fine (reads f) s.
Proof. apply ok_reads. auto. Qed.
Lemma fine_writes (f : Server -> Server) s : (forall s', Inv s' -> grows s s' -> Inv (f s') /\ same s' (f s')) -> fine (writes f) s.
Proof. intros H. apply safe_writes. intros s' Hs Hg. destruct (H s' Hs Hg) as [H1 H2]. split; [exact H1|]. split; [apply grows_same, H2 | exact I]. Qed.
Lemma fine_ret {A} (a : A) s : fine (Ret a) s.
Proof. exact I. Qed.
Lemma ok_act {A} (f : Server -> outcome (A * Server)) s (Q : A -> Server -> Prop) :
  (forall s', Inv s' -> grows s s' -> match f s' with Done (a, s2) => Inv s2 /\ same s' s2 /\ Q a s2 | Blocked => True | Crash => False end) -> ok (act f) s Q.
Proof.
  intros H s' Hs Hg. specialize (H s' Hs Hg). destruct (f s') as [[a s2]| |]; [|exact H ..]. destruct H as (H1 & H2 & H3). split; [exact H1|]. split; [apply grows_same, H2 | exact H3].
Qed.

(** ** Evidence *)

Lemma of_type_pos ty l : (0 < of_type ty l)%nat -> exists a, a ∈ l /\ a_Type a = ty.
Proof.
  unfold of_type. induction l as [|a l IH]; [cbn; lia|]. rewrite filter_cons. destruct (decide (a_Type a = ty)) as [E|E]; [exists a; split; [left | exact E]|].
  intros H. destruct (IH H) as (x & Hx & Ex). exists x. split; [right|]; assumption.
Qed.

Lemma verified_stateless ls h e : verified ls h e -> stateless_ok h.
Proof.
  intros [_ Ha H1 _ _]. destruct (of_type_pos VerifyType_Stateless (Attrs e)) as (a & Hin & E); [lia|]. rewrite Forall_forall in Ha. exact (proj1 (proj2 (Ha a Hin)) E).
Qed.
Lemma verified_accepted ls h e : verified ls h e -> accepted ls h.
Proof.
  intros Hv. split; [exact (verified_stateless _ _ _ Hv)|]. destruct Hv as [_ Ha _ H2 _]. destruct (of_type_pos VerifyType_Stateful (Attrs e)) as (a & Hin & E); [lia|].
  rewrite Forall_forall in Ha. exists (a_Height a). exact (proj2 (proj2 (Ha a Hin)) E).
Qed.

Lemma type_bit_testbit ty b : b = VerifyType_Stateless \/ b = VerifyType_Stateful -> Z.testbit (type_bit ty) b = (ty =? b).
Proof.
  intros Hb. assert (Hr : 0 <= b < 8) by (unfold VerifyType_Stateless, VerifyType_Stateful in Hb; lia). unfold type_bit, u8.
  rewrite Z.mod_pow2_bits_low, Z.shiftl_spec by lia.
  destruct (Z.eqb_spec ty b) as [->|Hn]; [rewrite Z.sub_diag; reflexivity|]. destruct (Z.lt_ge_cases (b - ty) 0); [apply Z.testbit_neg_r; lia|]. apply Z.bits_above_log2; cbn; lia.
Qed.

Lemma of_type_snoc ty l a : of_type ty (l ++ [a]) = (of_type ty l + if decide (a_Type a = ty) then 1 else 0)%nat.
Proof. unfold of_type. rewrite filter_app, length_app. f_equal. rewrite filter_cons. destruct (decide (a_Type a = ty)); reflexivity. Qed.

Lemma record_answer_ok ls rsp pt : genuine ls rsp -> r_ErrCode rsp = ErrNoError -> pending_ok ls (r_Hash rsp) pt -> pending_ok ls (r_Hash rsp) (record_answer rsp pt).
Proof.
  intros Hg He [H1 H2 H3 H4 H5]. unfold record_answer. destruct (Z.eqb_spec (Z.land (pt_flag pt) (type_bit (r_Type rsp))) 0) as [E|_]; [|constructor; assumption].
  constructor; cbn [pt_tx pt_ret pt_flag pt_req]; [exact H1 | apply Forall_app; split; [exact H2 | constructor; [exact (Hg He) | constructor]] | | exact H4 | exact H5].
  intros ty Hty. rewrite of_type_snoc, (H3 ty Hty), Z.lor_spec, type_bit_testbit by exact Hty. cbn [a_Type].
  destruct (Z.eqb_spec (r_Type rsp) ty) as [Et|Et]; [rewrite decide_True by exact Et | rewrite decide_False by exact Et; rewrite orb_false_r; lia].
  rewrite orb_true_r. assert (Hb : Z.testbit (pt_flag pt) ty && Z.testbit (type_bit (r_Type rsp)) ty = false) by (rewrite <- Z.land_spec, E; apply Z.bits_0).
  rewrite type_bit_testbit, (proj2 (Z.eqb_eq _ _) Et), andb_true_r in Hb by exact Hty. rewrite Hb. reflexivity.
Qed.

Lemma complete_verified ls h pt : pending_ok ls h pt -> complete pt = true -> verified ls h (mkEntry (pt_tx pt) (pt_ret pt)).
Proof.
  intros [H1 H2 H3 H4 _] Hc. apply Z.eqb_eq in Hc. assert (Hb : forall ty, ty = VerifyType_Stateless \/ ty = VerifyType_Stateful -> Z.testbit (pt_flag pt) ty = true).
  { intros ty Hty. assert (E : Z.testbit (Z.land (pt_flag pt) 15) ty = true) by (rewrite Hc; destruct Hty as [->| ->]; reflexivity). rewrite Z.land_spec in E. apply andb_prop in E. exact (proj1 E). }
  constructor; cbn [e_Tx Attrs]; [exact H1 | exact H2 | rewrite (H3 _ (or_introl eq_refl)), (Hb _ (or_introl eq_refl)); reflexivity | rewrite (H3 _ (or_intror eq_refl)), (Hb _ (or_intror eq_refl)); reflexivity | exact H4].
Qed.

(** ** The parts of the server *)

Lemma increaseStats_ok v s : 1 <= v <= 6 -> fine (increaseStats v) s.
Proof.
  intros Hv. apply ok_act. intros s' Hs _. pose proof (inv_stats _ Hs) as Hl. destruct (lookup_lt_is_Some_2 (stats s') (Z.to_nat (v - 1))) as [n ->]; [lia|].
  split; [apply inv_set_stats; [exact Hs | rewrite length_insert; exact Hl]|]. split; [split; reflexivity | exact I].
Qed.

Lemma reply_inv ch h err s : Inv s -> Inv (reply ch h err s) /\ same s (reply ch h err s).
Proof. intros Hs. destruct ch; cbn; [split; [apply inv_emit; [exact Hs | exact I] | split; reflexivity] | auto using same_refl]. Qed.

Lemma reply_http_ok sender ch h err s : fine (reply_http sender ch h err) s.
Proof. unfold reply_http. destruct (bool_decide _); [|apply fine_ret]. apply fine_writes. intros s' Hs _. apply reply_inv, Hs. Qed.

Lemma sendBlkResult_inv s : Inv s -> Inv (sendBlkResult2Consensus s) /\ same s (sendBlkResult2Consensus s).
Proof.
  intros Hs. pose proof (inv_block _ Hs) as [Hp Hu]. unfold sendBlkResult2Consensus. destruct (pb_sender (block s)) as [pid|]; cbn -[emit].
  - split; [|split; reflexivity]. apply inv_set_block; [|constructor; [apply map_Forall_empty | exact Hu]]. apply inv_emit; [exact Hs|]. cbn. apply Forall_forall. intros r Hr E.
    apply elem_of_range in Hr as [h Hr]. destruct (Hp _ _ Hr) as [Hh Ha]. rewrite Hh. exact (Ha E).
  - split; [|split; reflexivity]. apply inv_set_block; [exact Hs|]. constructor; [apply map_Forall_empty | exact Hu].
Qed.

Lemma checkPendingBlockOk_ok h err s : (err = ErrNoError -> accepted (ledgers s) h) -> fine (checkPendingBlockOk h err) s.
Proof.
  intros Ha. apply ok_act. intros s' Hs Hg. destruct (block_locked s'); [exact I|]. pose proof (inv_block _ Hs) as [Hp Hu].
  destruct (unProcessedTxs (block s') !! h) as [tx|] eqn:E; [|auto using same_refl].
  cbv beta iota zeta. match goal with |- Inv (if ?c then sendBlkResult2Consensus ?t else _) /\ _ => assert (Ht : Inv t /\ same s' t) end.
  { split; [|split; reflexivity]. apply inv_set_block; [exact Hs|]. constructor; cbn.
    - apply map_Forall_insert_2; [|exact Hp]. split; [exact (Hu _ _ E)|]. cbn. intros Ee. exact (at_later s s' (fun ls => accepted ls h) (fun new ls => accepted_grows new ls h) Hg (Ha Ee)).
    - apply map_Forall_delete, Hu. }
  destruct Ht as [Ht El]. destruct (negb _ || _); [destruct (sendBlkResult_inv _ Ht) as [H1 H2]|]; eauto using same_trans.
Qed.

Lemma finish_pending_inv h err pt s : Inv s -> t_hash (sp_tx pt) = h -> (err = ErrNoError -> accepted (ledgers s) h) ->
  Inv (finish_pending h err pt s) /\ same s (finish_pending h err pt s).
Proof.
  intros Hs Hh Ha. unfold finish_pending.
  set (s1 := if (err =? ErrNoError) && _ then _ else s). assert (H1 : Inv s1 /\ same s s1).
  { unfold s1. destruct (Z.eqb_spec err ErrNoError) as [Ee|_]; cbn [andb]; [|auto using same_refl]. destruct (_ || _); [|auto using same_refl].
    destruct (GetPID NetActor s); [|auto using same_refl]. split; [apply inv_emit; [exact Hs | cbn; rewrite Hh; exact (Ha Ee)] | split; reflexivity]. }
  clearbody s1. destruct H1 as [Hs1 El1]. set (s2 := if bool_decide _ then _ else s1).
  assert (H2 : Inv s2 /\ same s1 s2) by (unfold s2; destruct (bool_decide _); [apply reply_inv, Hs1 | auto using same_refl]).
  clearbody s2. destruct H2 as [Hs2 El2]. cbv zeta. set (s3 := set_allPendingTxs _ s2).
  assert (Hs3 : Inv s3) by (apply inv_set_allPendingTxs; [exact Hs2 | apply map_Forall_delete, (inv_pending _ Hs2)]).
  assert (El3 : same s s3) by (exact (same_trans _ _ _ El1 El2)). destruct (_ <? _); [|auto]. destruct (_ <? _); [|auto]. split; [apply inv_set_slots, Hs3 | exact El3].
Qed.

Lemma removePendingTx_ok h err s : (err = ErrNoError -> accepted (ledgers s) h) -> fine (removePendingTx h err) s.
Proof.
  intros Ha. assert (Hl : forall s', grows s s' -> err = ErrNoError -> accepted (ledgers s') h).
  { intros s' Hg Ee. exact (at_later s s' (fun ls => accepted ls h) (fun new ls => accepted_grows new ls h) Hg (Ha Ee)). }
  apply fine_seq.
  - apply ok_act. intros s' Hs Hg. destruct (allPendingTxs s' !! h) as [pt|] eqn:E; [|auto using same_refl].
    destruct (finish_pending_inv h err pt s' Hs (inv_pending _ Hs _ _ E) (Hl s' Hg)) as [H1 H2]. auto.
  - intros [] s' Hg; [apply checkPendingBlockOk_ok, Hl, Hg | apply fine_ret].
Qed.

Lemma setPendingTx_ok tx sender ch s : fine (setPendingTx tx sender ch) s.
Proof.
  apply ok_act. intros s' Hs _. destruct (allPendingTxs s' !! Tx.Hash tx); [auto using same_refl|]. split; [|split; [split; reflexivity | exact I]]. apply inv_set_allPendingTxs; [exact Hs|].
  apply map_Forall_insert_2; [reflexivity | exact (inv_pending _ Hs)].
Qed.

End Safe.

(** A counter of [increaseStats] exists. *)
Ltac stat_ok := apply increaseStats_ok; unfold RcvStats, SuccessStats, FailureStats, DuplicateStats, SigErrStats, StateErrStats; lia.

(** ** The operations of workers, actors and validators are safe *)

Section Threads.
Context {K : Keypair} {HH : Hashes} {SL : SigLib} {G : GoRuntime} {LV : LedgerView}.
Implicit Types (s : Server) (h : Uint256).

(** ** Work for the workers *)

(** An action that changes worker [i] alone. *)
Lemma worker_act_ok {A} i (f : Worker -> Server -> outcome (A * Worker)) s (Q : A -> list LedgerState -> Prop) :
  (i < length (workers s))%nat ->
  (forall s' w, Inv s' -> grows s s' -> worker_ok (ledgers s') w ->
     match f w s' with Done (a, w') => worker_ok (ledgers s') w' /\ Q a (ledgers s') | Blocked => True | Crash => False end) ->
  ok (act (fun s => match workers s !! i with
                    | None => Crash
                    | Some w => match f w s with Done (a, w') => Done (a, set_worker i w' s) | Blocked => Blocked | Crash => Crash end
                    end)) s (fun a s' => Q a (ledgers s')).
Proof.
  intros Hi H. apply ok_act. intros s' Hs Hg. destruct (lookup_lt_is_Some_2 (workers s') i) as [w Hw]; [rewrite (proj2 Hg); exact Hi|]. rewrite Hw.
  specialize (H s' w Hs Hg (proj1 (Forall_lookup _ _) (inv_workers _ Hs) _ _ Hw)). destruct (f w s') as [[a w']| |]; [|exact H ..]. destruct H as [H1 H2].
  split; [exact (inv_set_worker _ _ _ _ Hs Hw H1)|]. split; [apply same_set_worker | exact H2].
Qed.

(** The same action, written another way. *)
Lemma ok_act_ext {A} (f g : Server -> outcome (A * Server)) s Q : (forall s', f s' = g s') -> ok (act g) s Q -> ok (act f) s Q.
Proof. intros E H s' Hs Hg. cbn in *. rewrite E. exact (H s' Hs Hg). Qed.

Ltac by_worker f Hi := eapply ok_act_ext; [|apply (worker_act_ok _ f _ (fun _ _ => True) Hi)];
  [intros ?s; cbn; repeat case_match; simplify_eq; reflexivity|].

Lemma send_rcv_ok i tx s : (i < length (workers s))%nat -> sound tx -> fine (send_rcv i tx) s.
Proof.
  intros Hi Ht. by_worker (fun (w : Worker) (_ : Server) => if zlen (rcvTXCh w) <? MAX_PENDING_TXN then Done ((), set_rcv (rcvTXCh w ++ [tx]) w) else Blocked) Hi.
  intros s' w _ _ [H0 H1 H2 H3]. destruct (_ <? _); [|exact I]. split; [constructor; cbn; [apply Forall_app; auto | assumption ..] | exact I].
Qed.
Lemma send_stf_ok i tx s : (i < length (workers s))%nat -> recheck tx -> fine (send_stf i tx) s.
Proof.
  intros Hi Ht. by_worker (fun (w : Worker) (_ : Server) => if zlen (stfTxCh w) <? MAX_PENDING_TXN then Done ((), set_stf (stfTxCh w ++ [tx]) w) else Blocked) Hi.
  intros s' w _ _ [H0 H1 H2 H3]. destruct (_ <? _); [|exact I]. split; [constructor; cbn; [assumption | apply Forall_app; auto | assumption ..] | exact I].
Qed.
Lemma send_rsp_ok i r s : (i < length (workers s))%nat -> genuine (ledgers s) r -> fine (send_rsp i r) s.
Proof.
  intros Hi Hr. by_worker (fun (w : Worker) (_ : Server) => if zlen (rspCh w) <? MAX_PENDING_TXN then Done ((), set_rsp (rspCh w ++ [r]) w) else Blocked) Hi.
  intros s' w _ Hg [H0 H1 H2 H3]. destruct (_ <? _); [|exact I]. split; [|exact I]. constructor; cbn; [assumption | assumption | | assumption].
  apply Forall_app. split; [exact H2|]. constructor; [|constructor]. exact (at_later s s' (fun ls => genuine ls r) (fun new ls => genuine_grows new ls r) Hg Hr).
Qed.

(** The worker with the least load exists. *)
Lemma least_load (queue : Worker -> list Transaction) s : Inv s ->
  exists e l, sort_Sort lb_less (loads queue s) = e :: l /\ (Z.to_nat (lb_WorkerID e) < length (workers s))%nat.
Proof.
  intros Hs. pose proof (inv_count _ Hs) as Hc. pose proof (sort_perm _ lb_less (loads queue s)) as Hp. destruct (sort_Sort lb_less (loads queue s)) as [|e l].
  - apply Permutation_length in Hp. unfold loads in Hp. rewrite length_imap in Hp. cbn in Hp. lia.
  - exists e, l. split; [reflexivity|]. assert (He : e ∈ loads queue s) by (rewrite <- Hp; left). unfold loads in He. apply list_elem_of_lookup in He as [j He].
    rewrite list_lookup_imap in He. apply fmap_Some in He as (w & Hw & ->). apply lookup_lt_Some in Hw. cbn. unfold u8. rewrite Z.mod_small by lia. rewrite Nat2Z.id. exact Hw.
Qed.

Lemma reads_least_ok {A} (queue : Worker -> list Transaction) (g : nat -> prog Server A) s (Q : A -> Server -> Prop) :
  (forall i s', grows s s' -> (i < length (workers s'))%nat -> ok (g i) s' Q) ->
  ok (pbind (reads (loads queue)) (fun lb => match sort_Sort lb_less lb with [] => crash | e :: _ => g (Z.to_nat (lb_WorkerID e)) end)) s Q.
Proof.
  intros H. eapply ok_seq; [apply (ok_reads _ _ (fun lb s' => exists e l, sort_Sort lb_less lb = e :: l /\ (Z.to_nat (lb_WorkerID e) < length (workers s'))%nat))|].
  - intros s' Hs _. apply least_load, Hs.
  - intros lb s' Hg (e & l & -> & Hi). exact (H _ s' Hg Hi).
Qed.

Lemma assignTxToWorker_ok tx sender ch s : sound tx -> fine (assignTxToWorker tx sender ch) s.
Proof.
  intros Ht. apply fine_seq; [apply setPendingTx_ok|]. intros [] s1 Hg1; cbn [negb].
  - apply (reads_least_ok rcvTXCh (fun i => pbind (send_rcv i tx) (fun _ => Ret true))). intros i s2 _ Hi. apply fine_seq; [apply send_rcv_ok; assumption | intros; apply fine_ret].
  - apply fine_seq; [stat_ok|]. intros _ s2 _. apply fine_seq; [apply reply_http_ok | intros; apply fine_ret].
Qed.

Lemma reVerifyStateful_ok tx sender s : recheck tx -> fine (reVerifyStateful tx sender) s.
Proof.
  intros Ht. apply fine_seq; [apply setPendingTx_ok|]. intros [] s1 Hg1; cbn [negb].
  - apply (reads_least_ok stfTxCh (fun i => send_stf i tx)). intros i s2 _ Hi. apply send_stf_ok; assumption.
  - stat_ok.
Qed.

Lemma assignRspToWorker_ok r s : genuine (ledgers s) r -> fine (assignRspToWorker r) s.
Proof.
  intros Hr. eapply ok_seq; [apply (ok_reads _ _ (fun n s' => n = zlen (workers s') /\ n < 256))|].
  { intros s' Hs _. split; [reflexivity|]. pose proof (inv_count _ Hs). unfold zlen. lia. }
  intros n s1 Hg1 [-> Hn]. apply fine_seq.
  - destruct ((0 <=? r_WorkerId r) && (r_WorkerId r <? u8 (zlen (workers s1)))) eqn:E; [|apply fine_ret]. apply andb_prop in E as [E1 E2].
    rewrite Z.leb_le in E1. rewrite Z.ltb_lt in E2. unfold u8 in E2. unfold zlen in *. rewrite Z.mod_small in E2 by lia.
    apply send_rsp_ok; [lia|]. exact (at_later s s1 (fun ls => genuine ls r) (fun new ls => genuine_grows new ls r) Hg1 Hr).
  - intros _ s2 _. apply fine_seq; [|intros; apply fine_ret]. destruct (r_ErrCode r =? ErrNoError); [stat_ok|].
    apply fine_seq; [stat_ok|]. intros _ s3 _. destruct (_ =? _); stat_ok.
Qed.

(** ** Validators *)

Lemma registerValidator_ok v s : rv_Sender v <> None -> fine (registerValidator v) s.
Proof.
  intros Hv. apply fine_writes. intros s' Hs _. split; [|split; reflexivity]. apply inv_set_entries; [exact Hs|]. apply map_Forall_insert_2; [|exact (inv_entries _ Hs)].
  split; [destruct (default [] _); discriminate|]. apply Forall_app. split; [|constructor; [exact Hv | constructor]].
  destruct (entries s' !! rv_Type v) as [l|] eqn:E; cbn; [exact (proj2 (inv_entries _ Hs _ _ E)) | constructor].
Qed.

Lemma unregister_loop_array id n i arr fuel arr' found : unregister_loop id n i arr fuel = (arr', found) -> length arr = n ->
  length arr' = n /\ (forall P : RegisterValidator -> Prop, Forall P arr -> Forall P arr' /\ Forall P found).
Proof.
  revert i arr arr' found. induction fuel as [|fuel IH]; intros i arr arr' found; cbn; [intros [= <- <-]; auto|].
  destruct (arr !! i) as [v|] eqn:Ev; [|intros [= <- <-]; auto]. destruct (bool_decide _); [|intros E Hn; exact (IH _ _ _ _ E Hn)].
  destruct (unregister_loop id n (S i) _ fuel) as [a f] eqn:E. intros [= <- <-] Hn. pose proof (lookup_lt_Some _ _ _ Ev) as Hi.
  destruct (IH _ _ _ _ E) as [H1 H2]; [rewrite !length_app, length_take, !length_drop; lia|]. split; [exact H1|].
  intros P HP. destruct (H2 P) as [H3 H4]; [rewrite !Forall_app; auto using Forall_take, Forall_drop|]. split; [exact H3|]. constructor; [exact (proj1 (Forall_lookup _ _) HP _ _ Ev) | exact H4].
Qed.

Lemma ack_fold_inv id ty l s : Inv s -> Inv (foldl (ack id ty) s l) /\ same s (foldl (ack id ty) s l) /\ entries (foldl (ack id ty) s l) = entries s.
Proof.
  revert s. induction l as [|v l IH]; intros s Hs; cbn; [auto using same_refl|]. assert (H : Inv (ack id ty s v) /\ same s (ack id ty s v) /\ entries (ack id ty s v) = entries s).
  { unfold ack. destruct (rv_Sender v); [split; [apply inv_emit; [exact Hs | exact I] | split; [split; reflexivity | reflexivity]] | auto using same_refl]. }
  destruct H as (H1 & H2 & H3). destruct (IH _ H1) as (H4 & H5 & H6). split; [exact H4|]. split; [exact (same_trans _ _ _ H2 H5) | congruence].
Qed.

Lemma unRegisterValidator_ok ty id s : fine (unRegisterValidator ty id) s.
Proof.
  apply fine_writes. intros s' Hs _. destruct (entries s' !! ty) as [l|] eqn:El; [|auto using same_refl]. destruct (unregister_loop id (length l) 0 l (length l)) as [arr found] eqn:Eu.
  destruct (unregister_loop_array _ _ _ _ _ _ _ Eu eq_refl) as [Ha HP]. destruct (ack_fold_inv id ty found s' Hs) as (H1 & H2 & H3).
  cbv zeta. rewrite Eu. destruct found as [|v found]; [exact (conj H1 H2)|]. split; [|exact H2]. apply inv_set_entries; [exact H1|]. rewrite H3. pose proof (inv_entries _ Hs) as He.
  destruct (length l - 1)%nat as [|m] eqn:En; [apply map_Forall_delete, He|]. apply map_Forall_insert_2; [|exact He].
  split; [intros E; apply (f_equal length) in E; rewrite length_take, Ha in E; change (length (@nil RegisterValidator)) with O in E; lia|]. apply Forall_take. exact (proj1 (HP _ (proj2 (He _ _ El)))).
Qed.

Lemma next_validator_ok key l s : Inv s -> l <> [] -> Forall (fun v => rv_Sender v <> None) l ->
  exists pid s', next_validator key l s = Done (pid, s') /\ Inv s' /\ same s s' /\ entries s' = entries s /\ pid <> None.
Proof.
  intros Hs Hl Hf. unfold next_validator. destruct l as [|v0 l0] eqn:El; [contradiction|]. rewrite <- El in *.
  assert (Hz : 0 < zlen l) by (subst l; unfold zlen; cbn; lia). pose proof (Z.mod_pos_bound (default 0 (rr_state s !! key) + 1) (zlen l) Hz) as Hm.
  set (next := (default 0 (rr_state s !! key) + 1) mod zlen l) in *. destruct (lookup_lt_is_Some_2 l (Z.to_nat next)) as [x Hx]; [unfold zlen in Hm; lia|].
  cbv zeta. rewrite Hx. exists (rv_Sender x), (set_rr_state (<[key := next]> (rr_state s)) s). split; [reflexivity|]. split; [|split; [split; reflexivity|]].
  - apply inv_set_rr_state; [exact Hs|]. apply map_Forall_insert_2; [lia | exact (inv_rr _ Hs)].
  - split; [reflexivity|]. exact (proj1 (Forall_lookup _ _) Hf _ _ Hx).
Qed.

Lemma next_validators_ok l s : Inv s -> (forall k v, (k, v) ∈ l -> v <> [] /\ Forall (fun v => rv_Sender v <> None) v) ->
  exists pids s', next_validators l s = Done (pids, s') /\ Inv s' /\ same s s' /\ (forall pid, pid ∈ pids -> pid <> None).
Proof.
  revert s. induction l as [|[k v] l IH]; intros s Hs Hl; cbn; [exists [], s; split; [reflexivity|]; split; [exact Hs|]; split; [apply same_refl|]; intros pid Hp; inversion Hp|].
  destruct (Hl k v) as [Hv Hf]; [left|]. destruct (next_validator_ok k v s Hs Hv Hf) as (pid & s1 & -> & Hs1 & E1 & _ & Hp).
  destruct (IH s1 Hs1) as (pids & s2 & -> & Hs2 & E2 & Hps); [intros k' v' H; apply (Hl k'); right; exact H|]. exists (pid :: pids), s2.
  split; [reflexivity|]. split; [exact Hs2|]. split; [exact (same_trans _ _ _ E1 E2)|]. intros p Hin. apply elem_of_cons in Hin as [->|Hin]; auto.
Qed.

Lemma request_ok req rspPid pid s : sound (c_Tx req) -> pid <> None -> fine (request req rspPid pid) s.
Proof. intros Hq. destruct pid as [p|]; [|contradiction]. intros _. apply fine_writes. intros s' Hs _. split; [apply inv_emit; [exact Hs | exact Hq] | split; reflexivity]. Qed.

Lemma sendReq2Validator_ok req s : sound (c_Tx req) -> fine (sendReq2Validator req) s.
Proof.
  intros Hq. apply fine_seq; [apply fine_reads|]. intros [rspPid|] s1 _; [|apply fine_ret]. eapply ok_seq; [apply (ok_act _ _ (fun pids _ => forall pid, pid ∈ pids -> pid <> None))|].
  - intros s' Hs _. destruct (next_validators_ok (range_map (entries s')) s' Hs) as (pids & s2 & -> & H); [|tauto].
    intros k v Hkv. rewrite range_map_perm in Hkv. apply elem_of_map_to_list in Hkv. exact (inv_entries _ Hs _ _ Hkv).
  - intros pids s2 _ Hp. apply (fine_each pids _ s2 (fun pid _ => pid <> None)); [auto | exact Hp | intros; apply request_ok; assumption].
Qed.

Lemma sendReq2StatefulV_ok req s : sound (c_Tx req) -> fine (sendReq2StatefulV req) s.
Proof.
  intros Hq. apply fine_seq; [apply fine_reads|]. intros [rspPid|] s1 _; [|apply fine_ret]. apply fine_seq.
  - apply ok_act. intros s' Hs _. destruct (entries s' !! VerifyType_Stateful) as [[|v l]|] eqn:E; [auto using same_refl | | auto using same_refl].
    destruct (inv_entries _ Hs _ _ E) as [H1 H2]. destruct (next_validator_ok VerifyType_Stateful _ s' Hs H1 H2) as (pid & s2 & -> & H3 & H4 & _). auto.
  - intros [pid|] s2 _; [apply request_ok; [exact Hq | discriminate] | apply fine_ret].
Qed.

Lemma genuine_later s s' r : grows s s' -> genuine (ledgers s) r -> genuine (ledgers s') r.
Proof. exact (at_later s s' (fun ls => genuine ls r) (fun new ls => genuine_grows new ls r)). Qed.
Lemma pending_later s s' h pt : grows s s' -> pending_ok (ledgers s) h pt -> pending_ok (ledgers s') h pt.
Proof. exact (at_later s s' (fun ls => pending_ok ls h pt) (fun new ls => pending_ok_grows new ls h pt)). Qed.
Lemma verified_later s s' h e : grows s s' -> verified (ledgers s) h e -> verified (ledgers s') h e.
Proof. exact (at_later s s' (fun ls => verified ls h e) (fun new ls => verified_grows new ls h e)). Qed.
Lemma workers_later (i : nat) s s' : grows s s' -> (i < length (workers s))%nat -> (i < length (workers s'))%nat.
Proof. intros [_ ->]. exact id. Qed.

(** ** Workers *)

Lemma on_pending_ok {A} (i : nat) (f : Z -> gmap Uint256 pendingTx -> A * gmap Uint256 pendingTx) s (Q : A -> list LedgerState -> Prop) :
  (i < length (workers s))%nat ->
  (forall s' now m, grows s s' -> map_Forall (pending_ok (ledgers s')) m -> map_Forall (pending_ok (ledgers s')) (f now m).2 /\ Q (f now m).1 (ledgers s')) ->
  ok (on_pending i f) s (fun a s' => Q a (ledgers s')).
Proof.
  intros Hi H. eapply ok_act_ext; [|apply (worker_act_ok i (fun w s => Done ((f (clock s) (pendingTxList w)).1, set_pending (f (clock s) (pendingTxList w)).2 w)) s Q Hi)].
  - intros s'. cbn. destruct (workers s' !! i) as [w|]; [|reflexivity]. destruct (f (clock s') (pendingTxList w)); reflexivity.
  - intros s' w _ Hg [H0 H1 H2 H3]. destruct (H s' (clock s') _ Hg H3) as [H4 H5]. split; [constructor; assumption | exact H5].
Qed.

Lemma pending_insert_ok (i : nat) h pt s : (i < length (workers s))%nat -> pending_ok (ledgers s) h pt -> fine (pending_insert i h pt) s.
Proof.
  intros Hi Hp. apply (on_pending_ok i _ s (fun _ _ => True) Hi). intros s' now m Hg Hm. split; [|exact I]. cbn. apply map_Forall_insert_2; [exact (pending_later _ _ _ _ Hg Hp) | exact Hm].
Qed.
Lemma pending_delete_ok (i : nat) h s : (i < length (workers s))%nat -> fine (pending_delete i h) s.
Proof. intros Hi. apply (on_pending_ok i _ s (fun _ _ => True) Hi). intros s' now m Hg Hm. split; [apply map_Forall_delete, Hm | exact I]. Qed.
Lemma pending_alter_ok (i : nat) h (f : Z -> pendingTx -> pendingTx) s : (i < length (workers s))%nat -> (forall ls now pt, pending_ok ls h pt -> pending_ok ls h (f now pt)) ->
  fine (on_pending i (fun now m => ((), alter (f now) h m))) s.
Proof.
  intros Hi Hf. apply (on_pending_ok i _ s (fun _ _ => True) Hi). intros s' now m Hg Hm. split; [|exact I]. cbn. intros h' pt Hl.
  apply lookup_alter_Some in Hl as [(<- & pt0 & Hl & ->)|[_ Hl]]; [apply Hf, (Hm _ _ Hl) | exact (Hm _ _ Hl)].
Qed.
Lemma touch_ok (i : nat) h s : (i < length (workers s))%nat -> fine (touch i h) s.
Proof. intros Hi. apply (pending_alter_ok i h set_valTime s Hi). intros ls now pt []. constructor; assumption. Qed.
Lemma pending_lookup_ok (i : nat) h s : (i < length (workers s))%nat -> ok (pending_lookup i h) s (fun o s' => forall pt, o = Some pt -> pending_ok (ledgers s') h pt).
Proof.
  intros Hi. apply (on_pending_ok i _ s (fun o ls => forall pt, o = Some pt -> pending_ok ls h pt) Hi). intros s' now m Hg Hm. split; [exact Hm|]. intros pt Hl. exact (Hm _ _ Hl).
Qed.

Lemma addTxList_ok e s : verified (ledgers s) (t_hash (e_Tx e)) e -> fine (addTxList e) s.
Proof.
  intros He. apply fine_seq.
  - apply ok_act. intros s' Hs Hg. unfold AddTxList. destruct (txPool s' !! Tx.Hash (e_Tx e)) eqn:E; cbv beta iota zeta; (split; [|split; [split; reflexivity | exact I]]); apply inv_set_txPool; try exact Hs.
    + exact (inv_pool _ Hs).
    + apply map_Forall_insert_2; [exact (verified_later _ _ _ _ Hg He) | exact (inv_pool _ Hs)].
  - intros [] s' _; (apply fine_seq; [|intros; apply fine_ret]); [apply fine_ret | stat_ok].
Qed.

Lemma putTxPool_ok h pt s : pending_ok (ledgers s) h pt -> complete pt = true -> fine (putTxPool pt) s.
Proof.
  intros Hp Hc. pose proof (complete_verified _ _ _ Hp Hc) as Hv. destruct (po_hash _ _ _ Hp). apply fine_seq; [apply addTxList_ok, Hv|].
  intros _ s' Hg. apply removePendingTx_ok. intros _. exact (verified_accepted _ _ _ (verified_later _ _ _ _ Hg Hv)).
Qed.

Lemma handleRsp_ok (i : nat) r s : (i < length (workers s))%nat -> genuine (ledgers s) r -> fine (handleRsp i r) s.
Proof.
  intros Hi Hr. unfold handleRsp. destruct (negb _); [apply fine_ret|]. eapply ok_seq; [apply pending_lookup_ok, Hi|]. intros [pt|] s1 Hg1 Hp; [|apply fine_ret]. specialize (Hp pt eq_refl).
  pose proof (workers_later _ _ _ Hg1 Hi) as Hi1. destruct (Z.eqb_spec (r_ErrCode r) ErrNoError) as [He|He]; cbn [negb].
  - apply fine_seq; [destruct (_ =? _); [apply fine_ret | apply fine_seq; [apply fine_reads | intros; apply fine_ret]]|]. intros [] s2 Hg2; pose proof (workers_later _ _ _ Hg2 Hi1) as Hi2.
    + apply fine_seq; [apply sendReq2StatefulV_ok, (po_req _ _ _ Hp)|]. intros _ s3 Hg3. apply touch_ok, (workers_later _ _ _ Hg3 Hi2).
    + pose proof (record_answer_ok (ledgers s2) r pt (genuine_later _ _ _ (grows_trans _ _ _ Hg1 Hg2) Hr) He (pending_later _ _ _ _ Hg2 Hp)) as Hp2. cbv zeta.
      apply fine_seq; [apply pending_insert_ok; assumption|]. intros _ s3 Hg3. destruct (complete (record_answer r pt)) eqn:Ec; [|apply fine_ret].
      apply fine_seq; [exact (putTxPool_ok _ _ _ (pending_later _ _ _ _ Hg3 Hp2) Ec)|]. intros _ s4 Hg4. apply pending_delete_ok, (workers_later _ _ _ (grows_trans _ _ _ Hg3 Hg4) Hi2).
  - apply fine_seq; [apply pending_delete_ok, Hi1|]. intros _ s2 _. apply removePendingTx_ok. intros E. contradiction.
Qed.

Lemma removePendingTx_refused h err s : err <> ErrNoError -> fine (removePendingTx h err) s.
Proof. intros He. apply removePendingTx_ok. intros E. contradiction. Qed.

Lemma verifyTx_ok (i : nat) tx s : (i < length (workers s))%nat -> sound tx -> fine (verifyTx i tx) s.
Proof.
  intros Hi Ht. apply fine_seq; [apply fine_reads|]. intros [t|] s1 Hg1; [apply removePendingTx_refused; discriminate|].
  eapply ok_seq; [apply pending_lookup_ok, (workers_later _ _ _ Hg1 Hi)|]. intros [pt|] s2 Hg2 _; [apply fine_ret|]. pose proof (workers_later _ _ _ (grows_trans _ _ _ Hg1 Hg2) Hi) as Hi2.
  cbv zeta. apply fine_seq; [apply sendReq2Validator_ok, Ht|]. intros _ s3 Hg3. pose proof (workers_later _ _ _ Hg3 Hi2) as Hi3. apply fine_seq.
  - apply pending_insert_ok; [exact Hi3|]. constructor; cbn [pt_tx pt_ret pt_flag]; [reflexivity | constructor | intros ty Hty; rewrite Z.bits_0; reflexivity | exact Ht | exact Ht].
  - intros _ s4 Hg4. apply touch_ok, (workers_later _ _ _ Hg4 Hi3).
Qed.

Lemma reVerifyTx_ok (i : nat) h s : (i < length (workers s))%nat -> fine (reVerifyTx i h) s.
Proof.
  intros Hi. eapply ok_seq; [apply pending_lookup_ok, Hi|]. intros [pt|] s1 Hg1 Hp; [|apply fine_ret]. apply fine_seq; [destruct (complete pt); [apply fine_ret | apply sendReq2Validator_ok, (po_req _ _ _ (Hp pt eq_refl))]|].
  intros _ s2 Hg2. apply touch_ok, (workers_later _ _ _ (grows_trans _ _ _ Hg1 Hg2) Hi).
Qed.

Lemma verifyStateful_ok (i : nat) tx s : (i < length (workers s))%nat -> recheck tx -> fine (verifyStateful i tx) s.
Proof.
  intros Hi [Ht Hq]. unfold verifyStateful. cbv zeta. apply fine_seq; [apply fine_reads|]. intros now s1 Hg1. apply fine_seq; [|intros; apply sendReq2StatefulV_ok, Hq].
  apply pending_insert_ok; [exact (workers_later _ _ _ Hg1 Hi)|]. constructor; cbn [pt_tx pt_ret pt_flag pt_req]; [reflexivity | | intros ty [->| ->]; reflexivity | exact Hq | exact Hq].
  constructor; [|constructor]. split; [reflexivity|]. split; [intros _; exact Ht | discriminate].
Qed.

Lemma expire_ok (i : nat) kv s : (i < length (workers s))%nat -> fine (expire i kv) s.
Proof.
  intros Hi. destruct kv as [k v]. apply fine_seq; [apply fine_reads|]. intros now s1 Hg1. destruct (_ && _); [|apply fine_ret]. pose proof (workers_later _ _ _ Hg1 Hi) as Hi1.
  destruct (_ <? _); (apply fine_seq; [solve [apply reVerifyTx_ok, Hi1 | apply pending_delete_ok, Hi1]|]); intros _ s2 Hg2; [|apply removePendingTx_refused; discriminate].
  apply (pending_alter_ok i k (fun _ => set_retries (u8 (pt_retries v + 1)))); [exact (workers_later _ _ _ Hg2 Hi1)|]. intros ls _ pt []. constructor; assumption.
Qed.

Lemma handleTimeoutEvent_ok (i : nat) s : (i < length (workers s))%nat -> fine (handleTimeoutEvent i) s.
Proof.
  intros Hi. apply fine_seq; [apply (on_pending_ok i _ s (fun _ _ => True) Hi); auto|]. intros l s1 Hg1.
  apply (safe_for_each Inv grows grows_refl grows_trans l (expire i) s1 (fun _ s' => (i < length (workers s'))%nat)).
  - intros _ s2 s3 Hg. apply workers_later, Hg.
  - intros _ _. exact (workers_later _ _ _ Hg1 Hi).
  - intros kv s2. apply expire_ok.
Qed.

Lemma receive_ok {A} (i : nat) (queue : Worker -> list A) upd s (F : A -> list LedgerState -> Prop) : (i < length (workers s))%nat ->
  (forall ls w x l, worker_ok ls w -> queue w = x :: l -> worker_ok ls (upd l w) /\ F x ls) -> ok (receive i queue upd) s (fun x s' => F x (ledgers s')).
Proof.
  intros Hi H. eapply ok_act_ext; [|apply (worker_act_ok i (fun w _ => match queue w with [] => Blocked | x :: l => Done (x, upd l w) end) s F Hi)].
  - intros s'. cbn. destruct (workers s' !! i) as [w|]; [|reflexivity]. destruct (queue w); reflexivity.
  - intros s' w _ _ Hw. destruct (queue w) as [|x l] eqn:E; [exact I|]. exact (H _ _ _ _ Hw E).
Qed.

Lemma turn_rcv_ok (i : nat) s : (i < length (workers s))%nat -> fine (turn_rcv i) s.
Proof.
  intros Hi. eapply ok_seq; [apply (receive_ok i rcvTXCh set_rcv s (fun tx _ => sound tx) Hi)|].
  - intros ls w x l [H0 H1 H2 H3] E. rewrite E in H0. apply Forall_cons in H0 as [Hx Hl]. split; [constructor; assumption | exact Hx].
  - intros tx s1 Hg Ht. apply verifyTx_ok; [exact (workers_later _ _ _ Hg Hi) | exact Ht].
Qed.
Lemma turn_stf_ok (i : nat) s : (i < length (workers s))%nat -> fine (turn_stf i) s.
Proof.
  intros Hi. eapply ok_seq; [apply (receive_ok i stfTxCh set_stf s (fun tx _ => recheck tx) Hi)|].
  - intros ls w x l [H0 H1 H2 H3] E. rewrite E in H1. apply Forall_cons in H1 as [Hx Hl]. split; [constructor; assumption | exact Hx].
  - intros tx s1 Hg Ht. apply verifyStateful_ok; [exact (workers_later _ _ _ Hg Hi) | exact Ht].
Qed.
Lemma turn_rsp_ok (i : nat) s : (i < length (workers s))%nat -> fine (turn_rsp i) s.
Proof.
  intros Hi. eapply ok_seq; [apply (receive_ok i rspCh set_rsp s (fun r ls => genuine ls r) Hi)|].
  - intros ls w x l [H0 H1 H2 H3] E. rewrite E in H2. apply Forall_cons in H2 as [Hx Hl]. split; [constructor; assumption | exact Hx].
  - intros r s1 Hg Hr. apply handleRsp_ok; [exact (workers_later _ _ _ Hg Hi) | exact Hr].
Qed.

End Threads.
