(* ===== verification/TxVerified.v ===== *)
(** * Only verified transactions leave the pool

    The operations that consensus calls and the actors are safe; the theorem on all interleavings of the system. *)

From S2P Require Import Prelude Codec Merkle LedgerTypes LedgerCodec LedgerSpec Program Validation ValidationSpec TxPool TxPoolTheory Conc TxState TxServer TxWorker TxInv TxSafe.

Section Verified.
Context {K : Keypair} {HH : Hashes} {SL : SigLib} {G : GoRuntime} {LV : LedgerView}.
Implicit Types (s : Server) (h : Uint256).

(** ** What consensus asks *)

Lemma set_height_ok height s : fine (setHeight height) s.
Proof. apply fine_writes. intros s' Hs _. split; [apply inv_set_s_height, Hs | split; reflexivity]. Qed.

Lemma sub_pool_ok tp s : Inv s -> tp ⊆ txPool s -> Inv (set_txPool tp s) /\ same s (set_txPool tp s).
Proof. intros Hs Ht. split; [apply inv_set_txPool; [exact Hs | exact (sub_Forall _ _ _ Ht (inv_pool _ Hs))] | split; reflexivity]. Qed.

Lemma delTransaction_ok t s : fine (delTransaction t) s.
Proof. apply fine_writes. intros s' Hs _. apply sub_pool_ok; [exact Hs | apply DelTxList_sub]. Qed.

Lemma pool_recheck s h e : Inv s -> txPool s !! h = Some e -> recheck (e_Tx e).
Proof. intros Hs He. pose proof (inv_pool _ Hs _ _ He) as Hv. split; [rewrite (vf_hash _ _ _ Hv); exact (verified_stateless _ _ _ Hv) | exact (vf_sound _ _ _ Hv)]. Qed.

Lemma getTxPool_ok byCount height s : ok (getTxPool byCount height) s (fun l s' => Forall (fun e => verified (ledgers s') (t_hash (e_Tx e)) e) l).
Proof.
  apply fine_seq; [apply set_height_ok|]. intros _ s1 _.
  eapply ok_seq; [apply (ok_reads _ _ (fun r s' => Forall (fun e => verified (ledgers s') (t_hash (e_Tx e)) e) r.1 /\ Forall recheck r.2))|].
  - intros s' Hs _. destruct (GetTxPool config_MaxTxInBlock byCount height (txPool s')) as [avl old] eqn:E. destruct (GetTxPool_elem _ _ _ _ _ _ E) as [H1 H2]. cbn. split; apply Forall_forall.
    + intros e He. destruct (H1 e He) as [h Hh]. pose proof (inv_pool _ Hs _ _ Hh) as Hv. rewrite (vf_hash _ _ _ Hv). exact Hv.
    + intros t Ht. destruct (H2 t Ht) as (h & e & Hh & ->). exact (pool_recheck _ _ _ Hs Hh).
  - intros [avl old] s2 Hg2 [H1 H2]. cbn in H1, H2. apply fine_seq.
    + apply (fine_each old _ s2 (fun t _ => recheck t)); [auto | apply Forall_forall, H2|]. intros t s3 Ht. apply fine_seq; [apply delTransaction_ok | intros; apply reVerifyStateful_ok, Ht].
    + intros _ s3 Hg3. cbn. eapply Forall_impl; [exact H1|]. intros e. apply verified_later, Hg3.
Qed.

Lemma preExecCheck_ok t s : fine (preExecCheck t) s.
Proof.
  apply fine_seq; [apply fine_reads|]. intros gas s1 _. destruct (_ <? _); [apply fine_ret|]. destruct (SafeMul _ _) as [g []]; [apply fine_ret|].
  apply fine_seq; [apply fine_reads | intros; apply fine_ret].
Qed.

Lemma update_gas_price_ok s : fine update_gas_price s.
Proof.
  apply fine_seq; [apply fine_reads|]. intros price s1 _. apply fine_seq.
  - apply ok_act. intros s' Hs _. split; [apply inv_set_gasPrice, Hs|]. split; [split; reflexivity | exact I].
  - intros old s2 _. destruct (_ <? _); [|apply fine_ret]. apply fine_writes. intros s' Hs _. apply sub_pool_ok; [exact Hs | apply RemoveTxsBelowGasPrice_sub].
Qed.

Lemma cleanTransactionList_ok txs height s : fine (cleanTransactionList txs height) s.
Proof.
  apply fine_seq; [apply fine_writes; intros s' Hs _; apply sub_pool_ok; [exact Hs | apply CleanTransactionList_sub]|]. intros _ s1 _.
  apply fine_seq; [destruct (_ =? _); [apply update_gas_price_ok | apply fine_ret]|]. intros _ s2 _. apply fine_seq; [apply fine_reads|]. intros [] s3 _; [apply fine_ret|].
  eapply ok_seq; [apply (ok_act _ _ (fun l _ => Forall recheck l))|].
  - intros s' Hs _. destruct (Remain (txPool s')) as [l tp] eqn:E. cbv beta iota zeta.
    assert (Hsub : tp ⊆ txPool s') by (pose proof (Remain_sub (txPool s')) as H; rewrite E in H; exact H). destruct (sub_pool_ok tp s' Hs Hsub) as [H1 H2]. split; [exact H1|]. split; [exact H2|].
    pose proof (Remain_list (txPool s')) as Hl. rewrite E in Hl. cbn in Hl. rewrite Hl. apply Forall_forall. intros t Ht. apply list_elem_of_fmap in Ht as (e & -> & He).
    apply elem_of_range in He as [h He]. exact (pool_recheck _ _ _ Hs He).
  - intros l s4 _ Hl. apply (fine_each l _ s4 (fun t _ => recheck t)); [auto | apply Forall_forall, Hl|]. intros t s5 Ht.
    apply fine_seq; [apply preExecCheck_ok|]. intros [] s6 _; [apply reVerifyStateful_ok, Ht | apply fine_ret].
Qed.

Lemma refuse_block_ok t err s : err <> ErrNoError -> fine (refuse_block t err) s.
Proof.
  intros He. apply fine_writes. intros s' Hs _. pose proof (inv_block _ Hs) as [Hp Hu]. set (s1 := set_block _ s'). assert (H1 : Inv s1).
  { apply inv_set_block; [exact Hs|]. constructor; [|exact Hu]. apply map_Forall_insert_2; [|exact Hp]. split; [reflexivity|]. intros E. contradiction. }
  destruct (sendBlkResult_inv s1 H1) as [H2 H3]. split; [exact H2 | exact H3].
Qed.

Lemma check_block_txs_ok l seen s : fine (check_block_txs seen l) s.
Proof.
  revert seen s. induction l as [|t l IH]; intros seen s; cbn [check_block_txs]; [apply fine_ret|]. apply fine_seq; [apply fine_reads|]. intros price s1 _.
  destruct (_ <? _); [apply fine_seq; [apply refuse_block_ok; discriminate | intros; apply fine_ret]|].
  destruct (bool_decide _); [apply fine_seq; [apply refuse_block_ok; discriminate | intros; apply fine_ret] | apply IH].
Qed.

Lemma await_tx_ok t s : fine (await_tx t) s.
Proof.
  apply fine_writes. intros s' Hs _. pose proof (inv_block _ Hs) as [Hp Hu]. split; [|split; reflexivity]. apply inv_set_block; [exact Hs|]. constructor; [exact Hp|].
  apply map_Forall_insert_2; [reflexivity | exact Hu].
Qed.

Lemma record_verified_ok l s : Forall (fun r => result_ok (ledgers s) (Tx.Hash (v_Tx r)) r) l -> fine (record_verified l) s.
Proof.
  intros Hl. apply fine_seq.
  - apply (fine_each l _ s (fun r ls => result_ok ls (Tx.Hash (v_Tx r)) r)); [intros r new ls; apply result_ok_grows | apply Forall_forall, Hl|].
    intros r s1 Hr. apply fine_writes. intros s' Hs Hg. pose proof (inv_block _ Hs) as [Hp Hu]. split; [|split; reflexivity]. apply inv_set_block; [exact Hs|]. constructor; [|exact Hu].
    apply map_Forall_insert_2; [|exact Hp]. exact (at_later s1 s' (fun ls => result_ok ls _ r) (fun new ls => result_ok_grows new ls _ r) Hg Hr).
  - intros _ s1 _. apply fine_writes. intros s' Hs _. destruct (_ =? _); [apply sendBlkResult_inv, Hs | auto using same_refl].
Qed.

Lemma verified_result (ls : list LedgerState) (tp : gmap Uint256 TXEntry) (t : Transaction) (height : Z) (e : TXEntry) (a : TXAttr) : map_Forall (verified ls) tp -> tp !! Tx.Hash t = Some e -> stateful_attr (Attrs e) = Some a -> result_ok ls (Tx.Hash t) (mkResult height t (a_ErrCode a)).
Proof. intros Ht He _. split; [reflexivity|]. intros _. exact (verified_accepted _ _ _ (Ht _ _ He)). Qed.

Lemma verifyBlock_ok height txs sender s : Forall sound txs -> fine (verifyBlock height txs sender) s.
Proof.
  intros Htxs. unfold verifyBlock. destruct (_ =? _); [apply fine_ret|]. apply fine_seq; [apply set_height_ok|]. intros _ s1 _. apply fine_seq.
  { apply ok_act. intros s' Hs _. destruct (block_locked s'); [exact I|]. split; [apply inv_set_block_locked, Hs|]. split; [split; reflexivity | exact I]. }
  intros _ s2 _. apply fine_seq.
  { apply fine_writes. intros s' Hs _. split; [|split; reflexivity]. apply inv_set_block; [exact Hs|]. constructor; apply map_Forall_empty. }
  intros _ s3 _. apply fine_seq; [apply check_block_txs_ok|]. intros good s4 _. apply fine_seq; [|intros _ s5 _; apply fine_writes; intros s' Hs _; split; [apply inv_set_block_locked, Hs | split; reflexivity]].
  destruct good; [|apply fine_ret].
  eapply ok_seq; [apply (ok_act _ _ (fun r s' => Forall sound (UnverifiedTxs r) /\ Forall recheck (OldTxs r) /\ Forall (fun v => result_ok (ledgers s') (Tx.Hash (v_Tx v)) v) (VerifiedTxs r)))|].
  - intros s' Hs _. destruct (GetUnverifiedTxs txs height (txPool s')) as [r tp] eqn:E. destruct (GetUnverifiedTxs_elem _ _ _ _ _ E) as (H1 & H2 & H3). cbv beta iota zeta.
    destruct (sub_pool_ok tp s' Hs H1) as [H4 H5]. split; [exact H4|]. split; [exact H5|]. split; [|split]; apply Forall_forall.
    + intros t Ht. exact (proj1 (Forall_forall _ _) Htxs t (GetUnverifiedTxs_new _ _ _ _ _ E t Ht)).
    + intros t Ht. destruct (H2 t Ht) as (h & e & He & ->). exact (pool_recheck _ _ _ Hs He).
    + intros v Hv. destruct (H3 v Hv) as (e & a & He & Ha & ->). exact (verified_result _ _ _ _ _ _ (inv_pool _ Hs) He Ha).
  - intros r s5 _ (H0 & H1 & H2). apply fine_seq; [|intros _ s6 Hg6; apply fine_seq; [|intros _ s7 Hg7; apply record_verified_ok]].
    + apply (fine_each _ _ s5 (fun t _ => sound t)); [auto | apply Forall_forall, H0|]. intros t s6 Ht. apply fine_seq; [apply assignTxToWorker_ok, Ht | intros; apply await_tx_ok].
    + apply (fine_each _ _ s6 (fun t _ => recheck t)); [auto | apply Forall_forall, H1|]. intros t s7 Ht. apply fine_seq; [apply reVerifyStateful_ok, Ht | intros; apply await_tx_ok].
    + eapply Forall_impl; [exact H2|]. intros v. exact (at_later s5 s7 (fun ls => result_ok ls _ v) (fun new ls => result_ok_grows new ls _ v) (grows_trans _ _ _ Hg6 Hg7)).
Qed.

(** ** Actors *)

Lemma respond_ok from r s : event_ok (ledgers s) (Replied 0 r) -> fine (respond from r) s.
Proof.
  intros Hr. destruct from as [pid|]; [|apply fine_ret]. apply fine_writes. intros s' Hs Hg. split; [|split; reflexivity]. apply inv_emit; [exact Hs|].
  exact (at_later s s' (fun ls => event_ok ls (Replied pid r)) (fun new ls => event_ok_grows new ls _) Hg Hr).
Qed.

Lemma handleTransaction_ok sender tx ch s : well_made tx -> fine (handleTransaction sender tx ch) s.
Proof.
  intros [[raw Hw] Hc]. unfold handleTransaction. cbv zeta. rewrite Hw. apply fine_seq; [stat_ok|]. intros _ s1 _. destruct (_ <? zlen raw); [apply reply_http_ok|].
  apply fine_seq; [apply fine_reads|]. intros [t|] s2 _; [apply fine_seq; [stat_ok | intros; apply reply_http_ok]|]. apply fine_seq; [apply fine_reads|]. intros n s3 _.
  destruct (_ <=? n); [apply fine_seq; [stat_ok | intros; apply reply_http_ok]|]. destruct (SafeMul _ _) as [g []]; [apply reply_http_ok|].
  apply fine_seq; [apply fine_reads|]. intros price s4 _. destruct (_ || _); [apply reply_http_ok|]. destruct (_ && _); [apply reply_http_ok|].
  apply fine_seq; [apply fine_reads|]. intros disabled s5 _. apply fine_seq; [destruct disabled; [apply fine_ret | apply preExecCheck_ok]|]. intros [] s6 _; [|apply reply_http_ok].
  apply fine_seq; [|intros _ s7 _; apply fine_seq; [apply assignTxToWorker_ok, VerifyTransaction_no_panic, Hc | intros; apply fine_ret]].
  apply ok_act. intros s' Hs _. destruct (_ <=? 0); [exact I|]. split; [apply inv_set_slots, Hs|]. split; [split; reflexivity | exact I].
Qed.

Lemma status_loop_ok h l s : (forall i, i ∈ l -> (i < length (workers s))%nat) -> fine (status_loop h l) s.
Proof.
  revert s. induction l as [|i l IH]; intros s Hl; cbn [status_loop]; [apply fine_reads|]. apply fine_seq.
  - apply (on_pending_ok i _ s (fun _ _ => True)); [apply Hl; left|]. intros s' now m _ Hm. split; [exact Hm | exact I].
  - intros [st|] s1 Hg1; [apply fine_ret|]. apply IH. intros j Hj. apply (workers_later _ _ _ Hg1). apply Hl. right. exact Hj.
Qed.

Lemma TxActor_Receive_ok from msg s : (forall tx sender ch, msg = TxReq tx sender ch -> well_made tx) -> fine (TxActor_Receive from msg) s.
Proof.
  intros Hm. destruct msg as [tx sender ch|h| |h|h|]; cbn [TxActor_Receive].
  - apply handleTransaction_ok. exact (Hm _ _ _ eq_refl).
  - apply fine_seq; [apply fine_reads | intros; apply respond_ok; exact I].
  - apply fine_seq; [apply fine_reads | intros; apply respond_ok; exact I].
  - apply fine_seq; [|intros; apply respond_ok; exact I]. apply fine_seq; [apply fine_reads|]. intros [pt|] s1 _; [apply fine_ret|]. apply fine_seq; [apply fine_reads | intros; apply fine_ret].
  - apply fine_seq; [|intros [st|] s1 _; apply respond_ok; exact I]. eapply ok_seq; [apply (ok_reads _ _ (fun n s' => n = length (workers s'))); auto|].
    intros n s1 _ ->. apply status_loop_ok. intros i Hi. apply elem_of_seq in Hi. lia.
  - apply fine_seq; [|intros; apply respond_ok; exact I]. apply fine_seq; [apply fine_reads|]. intros n s1 _. apply fine_seq; [apply fine_reads | intros; apply fine_ret].
Qed.

Lemma TxPoolActor_Receive_ok from msg s : (forall height txs, msg = VerifyBlockReq height txs -> Forall checkable txs) -> fine (TxPoolActor_Receive from msg) s.
Proof.
  intros Hm. destruct msg as [byCount height|byCount|height txs|[b|]]; cbn [TxPoolActor_Receive].
  - eapply ok_seq; [apply getTxPool_ok|]. intros l s1 _ Hl. apply respond_ok. exact Hl.
  - apply fine_seq; [apply fine_reads | intros; apply respond_ok; exact I].
  - apply verifyBlock_ok. eapply Forall_impl; [exact (Hm _ _ eq_refl) | exact VerifyTransaction_no_panic].
  - apply cleanTransactionList_ok.
  - apply fine_ret.
Qed.

(** ** Validators *)

Lemma tell_response_ok r s : genuine (ledgers s) r -> fine (tell_response r) s.
Proof.
  intros Hr. apply fine_writes. intros s' Hs Hg. split; [|split; reflexivity]. apply inv_set_mailbox; [exact Hs|]. apply Forall_app. split; [exact (inv_mailbox _ Hs)|].
  constructor; [exact (genuine_later _ _ _ Hg Hr) | constructor].
Qed.

Lemma VerifyTransaction_no_error tx m : VerifyTransaction tx <> Err m.
Proof. unfold VerifyTransaction. destruct (checkTransactionSignatures tx) as [t| |]; [|discriminate ..]. destruct (checkTransactionPayload t); discriminate. Qed.

Lemma stateless_check_ok req s : sound (c_Tx req) -> fine (stateless_check req) s.
Proof.
  intros Hq. unfold stateless_check. destruct (VerifyTransaction (c_Tx req)) as [[err tx']| |] eqn:E; [|destruct (VerifyTransaction_no_error _ _ E) | contradiction]. apply tell_response_ok. intros He. cbn in He. subst err.
  split; [reflexivity|]. split; [intros _; exists (c_Tx req), tx'; auto | discriminate].
Qed.

Lemma stateful_check_ok req s : fine (stateful_check req) s.
Proof.
  set (h := Tx.Hash (c_Tx req)).
  eapply ok_seq; [apply (ok_reads _ _ (fun height s' => exists new l1 old, ledgers s' = new ++ l1 :: old /\ GetCurrentBlockHeight l1 = height))|].
  { intros s' _ _. exists [], (ledger_now s'), (ledger_past s'). auto. }
  intros height s1 Hg1 Hh1. eapply ok_seq; [apply (ok_reads _ _ (fun found s' => found = Some false -> checked (ledgers s') h height))|].
  - intros s' _ Hg2 Hf. destruct Hh1 as (n1 & l1 & old & E1 & Eh). destruct Hg2 as [[n2 E2] _]. exists [], (ledger_now s'), (ledger_past s'), l1. split; [reflexivity|].
    split; [|auto]. change (l1 ∈ ledgers s'). rewrite E2, E1. rewrite !elem_of_app. right. right. left.
  - intros found s2 _ Hf. cbv zeta. apply tell_response_ok. intros He. cbn in He. destruct found as [[]|]; try discriminate He. split; [reflexivity|]. split; [discriminate|]. intros _. exact (Hf eq_refl).
Qed.

(** ** The system *)

(** The condition on the messages: what has been decoded satisfies it. *)
Lemma decoded_well_made tx : tx_ok tx -> well_made tx.
Proof.
  intros H. split; [|exact (decoded_checkable tx H)]. exists (Raw tx). pose proof (to_size _ H) as Hz. unfold Tx.MAX_TX_SIZE in Hz.
  pose proof (raw_pos tx H) as Hp.
  apply written_appends; [|lia]. unfold Tx.Serialization. rewrite (to_flag _ H), (proj2 (Z.eqb_neq _ 0)) by lia. cbn [negb orb]. apply Sink.appends_WriteBytes. lia.
Qed.

Lemma starts_fine i s p : Inv s -> starts i s p -> fine p s.
Proof.
  intros Hs Hst. destruct Hst as [s from msg Hm|s from msg Hm|s ty pid id|s id|s n|s actor pid|s actor|s pid req rspPid Hin|s pid req rspPid _|s i Hi|s i Hi|s i Hi|s i Hi].
  - apply TxActor_Receive_ok, Hm.
  - apply TxPoolActor_Receive_ok, Hm.
  - apply registerValidator_ok. discriminate.
  - apply unRegisterValidator_ok.
  - eapply ok_seq; [apply (ok_act _ _ (fun r s' => genuine (ledgers s') r))|].
    + intros s' Hs' _. destruct (mailbox s' !! n) as [r|] eqn:E; [|exact I]. pose proof (inv_mailbox _ Hs') as Hm. split; [apply inv_set_mailbox; [exact Hs' | apply Forall_delete, Hm]|].
      split; [split; reflexivity|]. exact (proj1 (Forall_lookup _ _) Hm _ _ E).
    + intros r s1 _ Hr. apply fine_seq; [apply assignRspToWorker_ok, Hr | intros; apply fine_ret].
  - apply fine_writes. intros s' Hs' _. split; [apply inv_set_actors, Hs' | split; reflexivity].
  - apply fine_writes. intros s' Hs' _. split; [apply inv_set_actors, Hs' | split; reflexivity].
  - apply stateless_check_ok. exact (proj1 (Forall_forall _ _) (inv_sent _ Hs) _ Hin).
  - apply stateful_check_ok.
  - apply turn_rcv_ok, Hi.
  - apply turn_stf_ok, Hi.
  - apply turn_rsp_ok, Hi.
  - apply handleTimeoutEvent_ok, Hi.
Qed.

Lemma reachable_all_safe s0 c : Inv s0 -> reachable s0 c -> all_safe Inv grows c.
Proof.
  intros Hs. apply (reachable_safe Inv grows grows_refl grows_trans starts world starts_fine world_inv). split; [exact Hs|].
  intros i p Hp. unfold idle in Hp. cbn [threads] in Hp. apply lookup_replicate in Hp as [-> _]. exact I.
Qed.

(** C3: only verified transactions get into the pool or leave it, in whatever order the threads run.  Start a server with 1 to 255
    workers and let its actors, its workers, the validators, the ledger and the clock run in any interleaving of their atomic
    actions.  At every moment: each transaction of the pool is kept under its own hash, with exactly one answer of the stateless
    and one of the stateful validator, all of them good; a transaction of that hash (the hash does not cover signatures) was found valid by [VerifyTransaction], and the ledger was
    at the recorded height and then or later did not contain the hash.  The same evidence exists for every entry offered to consensus, for every transaction of a block reported
    as good, and for every transaction passed on to the network.  And no thread ever panics, the validators included,
    provided that the transactions that arrive have script lengths and VM flags such as decoding leaves ([decoded_well_made]). *)
Theorem pool_only_verified (num : nat) (noPreExec noBroadcast : bool) (now : Z) (l : LedgerState) (c : config Server) :
  (0 < num < 256)%nat -> reachable (init_server num noPreExec noBroadcast now l) c ->
  let ls := ledgers (shared c) in
  (forall h e, txPool (shared c) !! h = Some e ->
     t_hash (e_Tx e) = h /\ Forall (fun a => a_ErrCode a = ErrNoError) (Attrs e) /\ of_type VerifyType_Stateless (Attrs e) = 1%nat /\
     stateless_ok h /\ exists a, filter (fun a => a_Type a = VerifyType_Stateful) (Attrs e) = [a] /\ checked ls h (a_Height a)) /\
  (forall pid offered e, Replied pid (GetTxnPoolRsp offered) ∈ sent (shared c) -> e ∈ offered -> accepted ls (t_hash (e_Tx e))) /\
  (forall pid results r, VerifyBlockRsp pid results ∈ sent (shared c) -> r ∈ results -> v_ErrCode r = ErrNoError -> accepted ls (t_hash (v_Tx r))) /\
  (forall pid tx, TxToNet pid tx ∈ sent (shared c) -> accepted ls (t_hash tx)) /\
  (forall i p, threads c !! i = Some p -> resume p (shared c) <> Crash).
Proof.
  intros Hn Hr ls. pose proof (reachable_all_safe _ _ (init_inv num noPreExec noBroadcast now l Hn) Hr) as Hall. destruct Hall as [Hs Ht].
  assert (He : forall e, e ∈ sent (shared c) -> event_ok ls e) by (apply Forall_forall, (inv_sent _ Hs)). repeat split.
  - exact (vf_hash _ _ _ (inv_pool _ Hs _ _ H)).
  - eapply Forall_impl; [exact (vf_approved _ _ _ (inv_pool _ Hs _ _ H))|]. intros a Ha. exact (proj1 Ha).
  - exact (vf_stateless _ _ _ (inv_pool _ Hs _ _ H)).
  - exact (verified_stateless _ _ _ (inv_pool _ Hs _ _ H)).
  - destruct (inv_pool _ Hs _ _ H) as [_ Ha _ H1 _]. unfold of_type in H1. destruct (filter _ _) as [|a [|]] eqn:E; try discriminate H1. exists a. split; [reflexivity|].
    assert (Hin : a ∈ filter (fun a => a_Type a = VerifyType_Stateful) (Attrs e)) by (rewrite E; left). apply list_elem_of_filter in Hin as [Hty Hin].
    rewrite Forall_forall in Ha. exact (proj2 (proj2 (Ha a Hin)) Hty).
  - exact (proj1 (verified_accepted _ _ _ (proj1 (Forall_forall _ _) (He _ H) _ H0))).
  - exact (proj2 (verified_accepted _ _ _ (proj1 (Forall_forall _ _) (He _ H) _ H0))).
  - exact (proj1 (proj1 (Forall_forall _ _) (He _ H) _ H0 H1)).
  - exact (proj2 (proj1 (Forall_forall _ _) (He _ H) _ H0 H1)).
  - exact (proj1 (He _ H)).
  - exact (proj2 (He _ H)).
  - intros i p Hp. exact (all_safe_no_crash Inv grows grows_refl c i p (conj Hs Ht) Hp).
Qed.

End Verified.
