(* ===== verification/TxExample.v ===== *)
(** * The transaction pool, one handler after the other

    A schedule in which no two handlers overlap is one of the interleavings; with it, a concrete server in
    which a transaction goes all the way from its sender into the pool and to consensus. *)

From stdpp Require Import sorting.
From S2P Require Import Prelude Codec Merkle LedgerTypes Program Validation ValidationSpec LedgerExample TxPool TxPoolTheory Conc TxState TxServer TxWorker TxInv TxVerified.

Section Quiet.
Context {K : Keypair} {HH : Hashes} {SL : SigLib} {G : GoRuntime} {LV : LedgerView}.

(** With [n] workers: a handler runs from its start to its end, or the world moves. *)
Inductive quiet (n : nat) : Server -> Server -> Prop :=
| quiet_run i s p s' : (i < 5 + n)%nat -> starts i s p -> run p s = Done ((), s') -> quiet n s s'
| quiet_world s s' : world s s' -> quiet n s s'.

Lemma quiet_reachable s0 s : rtc (quiet (length (workers s0))) s0 s -> reachable s0 (mkConfig s (replicate (5 + length (workers s0)) (Ret ()))).
Proof.
  unfold reachable, idle. set (n := length (workers s0)). clearbody n. intros H. induction H as [s|s1 s2 s3 H1 _ IH]; [apply rtc_refl|]. etransitivity; [|exact IH]. clear IH.
  set (ths := replicate (5 + n) (Ret ())). destruct H1 as [i s p s' Hi Hst Hrun|s s' Hw]; [|apply rtc_once, step_env, Hw].
  assert (Hth : ths !! i = Some (Ret ())) by (apply lookup_replicate_2, Hi). eapply rtc_l; [exact (step_start starts world i s ths p Hth Hst)|].
  replace ths with (<[i := Ret ()]> ths) at 2 by (apply list_insert_id, Hth). apply run_alone; [unfold ths; rewrite length_replicate; exact Hi | exact Hrun].
Qed.
End Quiet.

(** ** A concrete node *)

Module TxExample.
Import ValidationExample.

(** Maps in the order of their lists, a merge sort. *)
#[export] Instance go_runtime : GoRuntime.
Proof.
  refine {| range_map := fun K _ _ V m => map_to_list m; sort_Sort := fun A less => @merge_sort A (fun x y => less y x = false) (fun x y => decide (less y x = false)) |}.
  - reflexivity.
  - intros A less l. apply merge_sort_Permutation.
  - intros A less l [H1 H2]. apply StronglySorted_merge_sort; [intros x y z Hxy Hyz; exact (H2 _ _ _ Hyz Hxy)|]. intros x y. destruct (less y x) eqn:E; [right; exact (H1 _ _ E) | left; reflexivity].
Defined.

(** A ledger is its height; it contains nothing. *)
#[export] Instance empty_ledger : LedgerView := {|
  LedgerState := Z; GetCurrentBlockHeight := id; IsContainTransaction := fun _ _ => Some false; PreExecuteContract_Gas := fun _ _ => 20000;
  GetContractBalance := fun _ _ => Some 1000000000; getGlobalGasPrice := fun _ => Some 500; config_GasPrice := 500; config_GasLimit := 20000; config_MaxTxInBlock := 60000 |}.

Definition the_tx : Transaction := mkTx (mkBody x00 (zb Tx.InvokeNeo) 0 500 20000 payer (PInvoke (mkInvoke []))) [payer_sig] [x01] (repeat x0a 32) [] true.
Definition the_req : CheckTx := mkCheck 0 the_tx.

Definition finishes (o : outcome (unit * Server)) : bool := match o with Done _ => true | _ => false end.
Definition after (s : Server) (p : prog Server unit) : Server := match run p s with Done (_, s') => s' | _ => s end.
Lemma run_after s p : finishes (run p s) = true -> run p s = Done ((), after s p).
Proof. unfold after. destruct (run p s) as [[[] s']| |]; [reflexivity | discriminate ..]. Qed.

(** The server with one worker, both validators and the actor for their answers. *)
Definition s0 : Server := init_server 1 true false 0 10.
Definition setup : list (prog Server unit) := [
  RegisterActor VerifyRspActor 9; RegisterActor NetActor 8;
  VerifyRspActor_Receive (register_msg VerifyType_Stateless 100 "stateless"); VerifyRspActor_Receive (register_msg VerifyType_Stateful 101 "stateful")].
Definition ready : Server := foldl after s0 setup.

(** A transaction is submitted, sent to the validators, checked by both, and put into the pool; then consensus asks for transactions. *)
Definition submitted : Server := after ready (TxActor_Receive None (TxReq the_tx HttpSender (Some 7))).
Definition requested : Server := after submitted (turn_rcv 0).
Definition answered : Server := after (after requested (stateless_check the_req)) (stateful_check the_req).
Definition deliver : prog Server unit := pbind (next_response 0) (fun rsp => VerifyRspActor_Receive (ResponseMsg rsp)).
Definition delivered : Server := after (after answered deliver) deliver.
Definition pooled : Server := after (after delivered (turn_rsp 0)) (turn_rsp 0).
Definition offered : Server := after pooled (TxPoolActor_Receive (Some 5) (GetTxnPoolReq true 10)).

(** One more handler. *)
Lemma quiet_after i s p : (i < 6)%nat -> starts i s p -> finishes (run p s) = true -> rtc (quiet 1) s0 s -> rtc (quiet 1) s0 (after s p).
Proof. intros Hi Hst Hf H. eapply rtc_r; [exact H|]. exact (quiet_run 1 i s p _ Hi Hst (run_after s p Hf)). Qed.

Lemma requests_ok : CheckRequest 101 the_req 9 ∈ sent requested /\ CheckRequest 101 the_req 9 ∈ sent (after requested (stateless_check the_req)).
Proof. split; vm_compute; repeat constructor. Qed.

Lemma answered_quiet : rtc (quiet 1) s0 answered.
Proof.
  assert (H1 : rtc (quiet 1) s0 ready).
  { unfold ready, setup. cbn [foldl]. apply (quiet_after 2); [lia | constructor | vm_compute; reflexivity|]. apply (quiet_after 2); [lia | constructor | vm_compute; reflexivity|].
    apply (quiet_after 2); [lia | constructor | vm_compute; reflexivity|]. apply (quiet_after 2); [lia | constructor | vm_compute; reflexivity | apply rtc_refl]. }
  assert (H2 : rtc (quiet 1) s0 requested).
  { apply (quiet_after 5); [lia | apply (start_rcv _ 0); vm_compute; lia | vm_compute; reflexivity|]. apply (quiet_after 0); [lia | | vm_compute; reflexivity | exact H1].
    constructor. intros tx sender ch [= <- _ _]. split; [exists [x01]; vm_compute; reflexivity|]. split; [repeat constructor | exact I]. }
  apply (quiet_after 4); [lia | exact (start_stateful _ _ _ _ (proj2 requests_ok)) | vm_compute; reflexivity|].
  apply (quiet_after 3); [lia | exact (start_stateless _ _ _ _ (proj1 requests_ok)) | vm_compute; reflexivity | exact H2].
Qed.

Lemma pooled_quiet : rtc (quiet 1) s0 pooled.
Proof.
  assert (H4 : rtc (quiet 1) s0 delivered).
  { apply (quiet_after 2); [lia | exact (start_response _ 0) | vm_compute; reflexivity|]. apply (quiet_after 2); [lia | exact (start_response _ 0) | vm_compute; reflexivity | exact answered_quiet]. }
  apply (quiet_after 5); [lia | apply (start_rsp _ 0); vm_compute; lia | vm_compute; reflexivity|]. apply (quiet_after 5); [lia | apply (start_rsp _ 0); vm_compute; lia | vm_compute; reflexivity | exact H4].
Qed.

Lemma offered_quiet : rtc (quiet 1) s0 offered.
Proof. apply (quiet_after 1); [lia | constructor; discriminate | vm_compute; reflexivity | exact pooled_quiet]. Qed.

Definition has_entry (h : Uint256) (s : Server) : bool := match txPool s !! h with Some _ => true | None => false end.
Lemma has_entry_some h s : has_entry h s = true -> exists e, txPool s !! h = Some e.
Proof. unfold has_entry. destruct (txPool s !! h) as [e|]; [eauto | discriminate]. Qed.
End TxExample.

Import ValidationExample TxExample.
Lemma pool_only_verified_witness : exists e, txPool offered !! repeat x0a 32 = Some e /\ of_type VerifyType_Stateless (Attrs e) = 1%nat /\
  (exists a, filter (fun a => a_Type a = VerifyType_Stateful) (Attrs e) = [a] /\ checked (ledgers offered) (repeat x0a 32) (a_Height a)) /\
  accepted (ledgers offered) (repeat x0a 32).
Proof.
  destruct (pool_only_verified (LV := empty_ledger) 1 true false 0 10 _ ltac:(lia) (quiet_reachable s0 offered offered_quiet)) as (H1 & H2 & _).
  destruct (has_entry_some (repeat x0a 32) offered) as [e He]; [vm_compute; reflexivity|]. exists e. destruct (H1 _ _ He) as (_ & _ & H3 & H4 & H5). split; [exact He|]. split; [exact H3|]. split; [exact H5|].
  split; [exact H4|]. destruct H5 as (a & _ & Ha). exists (a_Height a). exact Ha.
Defined.
