(* ===== verification/TxPoolSpec.v ===== *)
(** * What the pool offers to consensus *)

From stdpp Require Import sorting.
From S2P Require Import Prelude Codec Merkle LedgerTypes Program Validation ValidationSpec LedgerExample TxPool TxPoolTheory TxInv TxExample.

Section Offer.
Context {G : GoRuntime}.
Implicit Types (tp : TXPool) (e : TXEntry).

Definition fee e : Z := tx_GasPrice (e_Tx e).

(** Checked by the stateful validator at [height] or later. *)
Definition fresh (height : Z) e : Prop := Forall (fun a => a_Type a = VerifyType_Stateful -> height <= a_Height a) (Attrs e).

Lemma compareTxHeight_fresh e height : compareTxHeight e height = true <-> fresh height e.
Proof.
  unfold compareTxHeight, fresh. rewrite forallb_forall, Forall_forall. setoid_rewrite list_elem_of_In. apply forall_proper. intros a. rewrite negb_true_iff, andb_false_iff, Z.eqb_neq, Z.ltb_ge.
  destruct (Z.eq_dec (a_Type a) VerifyType_Stateful); intuition.
Qed.

Lemma fee_less_weak : weak_order fee_less.
Proof. unfold fee_less. split; intros *; rewrite ?Z.ltb_lt, ?Z.ltb_ge; lia. Qed.

(** The loop: what it has looked at, split into fresh and stale, and when it stops. *)
Lemma select_split height count num l txs old : num < count -> select_txs height count num l = (txs, old) ->
  exists seen rest, l = seen ++ rest /\ txs = List.filter (fun e => compareTxHeight e height) seen /\
    old = map e_Tx (List.filter (fun e => negb (compareTxHeight e height)) seen) /\ num + zlen txs <= count /\ (rest <> [] -> num + zlen txs = count).
Proof.
  revert num txs old. induction l as [|e l IH]; intros num txs old Hn; cbn; [intros [= <- <-]; exists [], []; repeat split; [unfold zlen; cbn; lia | contradiction]|].
  destruct (compareTxHeight e height) eqn:Ec; cbn [negb].
  - destruct (Z.leb_spec count (num + 1)) as [Hc|Hc].
    + intros [= <- <-]. exists [e], l. cbn. rewrite Ec. cbn. unfold zlen. cbn. repeat split; lia.
    + destruct (select_txs height count (num + 1) l) as [a b] eqn:E. intros [= <- <-]. destruct (IH _ _ _ Hc E) as (seen & rest & -> & -> & -> & H1 & H2).
      exists (e :: seen), rest. cbn. rewrite Ec. cbn. repeat split; [unfold zlen in *; cbn; lia|]. intros Hr. specialize (H2 Hr). unfold zlen in *. cbn. lia.
  - destruct (select_txs height count num l) as [a b] eqn:E. intros [= <- <-]. destruct (IH _ _ _ Hn E) as (seen & rest & -> & -> & -> & H1 & H2).
    exists (e :: seen), rest. cbn. rewrite Ec. cbn. repeat split; assumption.
Qed.

(** The limit: the configured number, or everything. *)
Definition limit (maxTx : Z) (byCount : bool) tp : Z := if byCount && (0 <? maxTx) && (maxTx <=? Z.of_nat (size tp)) then maxTx else Z.of_nat (size tp).

Lemma sorted_app_le l1 l2 x y : StronglySorted (fun a b => fee_less b a = false) (l1 ++ l2) -> x ∈ l1 -> y ∈ l2 -> fee y <= fee x.
Proof.
  induction l1 as [|a l1 IH]; cbn; intros Hs Hx Hy; [inversion Hx|]. apply StronglySorted_inv in Hs as [Hs Hf]. apply elem_of_cons in Hx as [->|Hx]; [|exact (IH Hs Hx Hy)].
  rewrite Forall_forall in Hf. specialize (Hf y (proj2 (elem_of_app _ _ _) (or_intror Hy))). unfold fee_less in Hf. apply Z.ltb_ge in Hf. exact Hf.
Qed.

Lemma sorted_filter (f : TXEntry -> bool) l : StronglySorted (fun a b => fee_less b a = false) l -> StronglySorted (fun a b => fee b <= fee a) (List.filter f l).
Proof.
  induction l as [|a l IH]; cbn; [constructor|]. intros Hs. apply StronglySorted_inv in Hs as [Hs Hf]. destruct (f a); [|exact (IH Hs)]. constructor; [exact (IH Hs)|].
  rewrite Forall_forall in Hf |- *. intros x Hx. apply list_elem_of_In, filter_In in Hx as [Hx _]. apply list_elem_of_In in Hx. specialize (Hf x Hx). unfold fee_less in Hf. apply Z.ltb_ge in Hf. exact Hf.
Qed.

(** C16: consensus is offered the transactions of the highest fees.  Whatever the order in which the map is visited and whatever
    [sort.Sort] does with equal fees, [GetTxPool] returns fresh entries of the pool, no entry twice, in order of
    falling gas prices and at most as many as configured (all of them if it is not asked to count or the limit is not positive); a fresh entry is left out only if the
    limit is reached, and then none of those offered pays less.  The transactions to be checked again belong to stale entries,
    and every stale entry that pays more than some entry offered is among them. *)
Theorem pool_offers_highest_fees (maxTx : Z) (byCount : bool) (height : Z) tp txs old : is_s64 maxTx -> tp <> ∅ ->
  GetTxPool maxTx byCount height tp = (txs, old) ->
  (forall e, e ∈ txs -> fresh height e /\ exists h, tp !! h = Some e) /\ (keyed tp -> NoDup (map (fun e => Tx.Hash (e_Tx e)) txs)) /\
  StronglySorted (fun a b => fee b <= fee a) txs /\ zlen txs <= limit maxTx byCount tp /\
  (forall h e, tp !! h = Some e -> fresh height e -> e ∈ txs \/ (zlen txs = limit maxTx byCount tp /\ forall e', e' ∈ txs -> fee e <= fee e')) /\
  (forall t, t ∈ old -> exists h e, tp !! h = Some e /\ t = e_Tx e /\ ~ fresh height e) /\
  (forall h e e', tp !! h = Some e -> ~ fresh height e -> e' ∈ txs -> fee e' < fee e -> e_Tx e ∈ old).
Proof.
  intros Hm Hne. unfold GetTxPool. cbv zeta. rewrite s64_small by exact Hm. set (l := sort_Sort fee_less (range_map tp).*2).
  assert (Hsize : 0 < Z.of_nat (size tp)) by (destruct (size tp) eqn:E; [apply map_size_empty_inv in E; contradiction | lia]).
  assert (Hlim : (if (Z.of_nat (size tp) <? maxTx) || negb (if maxTx <=? 0 then false else byCount) then Z.of_nat (size tp) else maxTx) = limit maxTx byCount tp).
  { unfold limit. destruct (Z.ltb_spec (Z.of_nat (size tp)) maxTx), (Z.leb_spec maxTx 0), (Z.ltb_spec 0 maxTx), (Z.leb_spec maxTx (Z.of_nat (size tp))), byCount; cbn; try lia; reflexivity. }
  rewrite Hlim. intros E. assert (Hl0 : 0 < limit maxTx byCount tp) by (unfold limit; destruct (_ && _) eqn:Eb; [|lia]; rewrite !andb_true_iff, Z.ltb_lt in Eb; lia).
  destruct (select_split _ _ _ _ _ _ Hl0 E) as (seen & rest & El & -> & -> & Hc & Hr). assert (Hp : l ≡ₚ (range_map tp).*2) by apply sort_perm.
  assert (Hsort : StronglySorted (fun a b => fee_less b a = false) l) by (apply sort_sorted, fee_less_weak). rewrite El in Hsort.
  assert (Hin : forall e, e ∈ seen \/ e ∈ rest <-> exists h, tp !! h = Some e) by (intros e; rewrite <- elem_of_app, <- El, Hp; apply elem_of_range).
  assert (Hf : forall (f : TXEntry -> bool) e, e ∈ List.filter f seen <-> f e = true /\ e ∈ seen) by (intros f e; rewrite !list_elem_of_In, filter_In; tauto).
  assert (Hstale : forall e, negb (compareTxHeight e height) = true <-> ~ fresh height e) by (intros e; rewrite negb_true_iff, <- compareTxHeight_fresh, not_true_iff_false; reflexivity).
  repeat split.
  - apply Hf in H. apply compareTxHeight_fresh, (proj1 H).
  - apply Hf in H. apply Hin. left. exact (proj2 H).
  - intros Hk. assert (Hn : NoDup (map (fun e => Tx.Hash (e_Tx e)) l)).
    { rewrite Hp. replace (map _ (range_map tp).*2) with (range_map tp).*1; [rewrite range_map_perm; apply NoDup_fst_map_to_list|]. rewrite <- list_fmap_compose. apply list_fmap_ext.
      intros i [h e] He. cbn. symmetry. apply (Hk h e). apply elem_of_map_to_list. rewrite <- range_map_perm. exact (list_elem_of_lookup_2 _ _ _ He). }
    rewrite El, map_app in Hn. apply NoDup_app in Hn as (Hn & _ & _). clear -Hn. induction seen as [|a seen IH]; cbn in *; [constructor|]. apply NoDup_cons in Hn as [Ha Hn].
    destruct (compareTxHeight a height); [|exact (IH Hn)]. cbn. constructor; [|exact (IH Hn)]. intros H. apply Ha. apply list_elem_of_In, in_map_iff in H as (x & Ex & Hx). apply filter_In in Hx as [Hx _].
    apply list_elem_of_In, in_map_iff. eauto.
  - apply sorted_filter. clear -Hsort. induction seen as [|a seen IH]; [constructor|]. cbn in Hsort. apply StronglySorted_inv in Hsort as [H1 H2]. apply Forall_app in H2 as [H2 _]. constructor; auto.
  - lia.
  - intros h e He Hfr. destruct (proj2 (Hin e) (ex_intro _ h He)) as [Hs|Hs]; [left; apply Hf; split; [apply compareTxHeight_fresh, Hfr | exact Hs]|]. right.
    split; [rewrite <- Hr; [lia | intros ->; inversion Hs]|]. intros e' He'. apply Hf in He' as [_ He']. exact (sorted_app_le _ _ _ _ Hsort He' Hs).
  - intros t Ht. apply list_elem_of_In, in_map_iff in Ht as (e & <- & He). apply list_elem_of_In, Hf in He as [H1 H2]. destruct (proj1 (Hin e) (or_introl H2)) as [h Hh].
    exists h, e. repeat split; [exact Hh | apply Hstale, H1].
  - intros h e e' He Hst He' Hlt. apply Hf in He' as [_ He']. destruct (proj2 (Hin e) (ex_intro _ h He)) as [Hs|Hs].
    + apply list_elem_of_In, in_map_iff. exists e. split; [reflexivity|]. apply list_elem_of_In, Hf. split; [apply Hstale, Hst | exact Hs].
    + pose proof (sorted_app_le _ _ _ _ Hsort He' Hs). lia.
Qed.
End Offer.

(** Three transactions, the best paid of which has to be checked again. *)
Import ValidationExample TxExample.
Definition priced (n : byte) (price height : Z) : TXEntry :=
  mkEntry (mkTx (mkBody x00 (zb Tx.InvokeNeo) 0 price 20000 payer (PInvoke (mkInvoke []))) [] [] (repeat n 32) [] true)
    [mkAttr 0 VerifyType_Stateless ErrNoError; mkAttr height VerifyType_Stateful ErrNoError].
Definition three : TXPool := <[repeat x01 32 := priced x01 500 10]> (<[repeat x02 32 := priced x02 900 9]> (<[repeat x03 32 := priced x03 700 12]> ∅)).

Lemma pool_offers_highest_fees_witness :
  GetTxPool 1 true 10 three = ([priced x03 700 12], [e_Tx (priced x02 900 9)]) /\
  (forall e', e' ∈ [priced x03 700 12] -> fee (priced x01 500 10) <= fee e').
Proof.
  assert (E : GetTxPool 1 true 10 three = ([priced x03 700 12], [e_Tx (priced x02 900 9)])) by (vm_compute; reflexivity). split; [exact E|].
  destruct (pool_offers_highest_fees 1 true 10 three _ _ ltac:(unfold is_s64; lia) (insert_non_empty _ _ _) E) as (_ & _ & _ & _ & H & _).
  destruct (H (repeat x01 32) (priced x01 500 10)) as [Hin|[_ Hle]]; [vm_compute; reflexivity | apply compareTxHeight_fresh; reflexivity | | exact Hle].
  apply list_elem_of_singleton in Hin. discriminate Hin.
Defined.
