(* ===== verification/TxEdge.v ===== *)
(** * Limits of the transaction pool

    What the code does at its edges: a duplicate costs a slot for ever, a block is checked by the hashes of its
    transactions and not by their signatures, and a block can be reported as good on the strength of a check made at a lower height. *)

From S2P Require Import Prelude Codec Merkle LedgerTypes Program Validation ValidationSpec LedgerExample TxPool TxPoolTheory Conc TxState TxServer TxWorker TxInv TxVerified TxExample.

(** ** Slots *)

Section Slots.
Context {K : Keypair} {HH : Hashes} {SL : SigLib} {G : GoRuntime} {LV : LedgerView}.

(** Runs that leave the pending list and the slots alone. *)
Definition keeps_slots {A} (p : prog Server A) : Prop :=
  forall s a s', run p s = Done (a, s') -> allPendingTxs s' = allPendingTxs s /\ slots s' = slots s.

Lemma keeps_bind {A B} (p : prog Server A) (g : A -> prog Server B) : keeps_slots p -> (forall a, keeps_slots (g a)) -> keeps_slots (pbind p g).
Proof.
  intros Hp Hg s b s'. rewrite run_bind. destruct (run p s) as [[a s1]| |] eqn:E; [|discriminate ..]. intros H. destruct (Hp _ _ _ E), (Hg _ _ _ _ H). split; congruence.
Qed.
Lemma keeps_ret {A} (a : A) : keeps_slots (Ret a).
Proof. intros s b s' [= _ <-]. auto. Qed.
Lemma keeps_reads {A} (f : Server -> A) : keeps_slots (reads f).
Proof. intros s b s' [= _ <-]. auto. Qed.
Lemma keeps_stats v : keeps_slots (increaseStats v).
Proof. intros s b s'. cbn. destruct (stats s !! _); [intros [= _ <-]; auto | discriminate]. Qed.
Lemma keeps_reply sender ch h err : keeps_slots (reply_http sender ch h err).
Proof. unfold reply_http. destruct (bool_decide _); [|apply keeps_ret]. intros s b s' [= _ <-]. destruct ch; auto. Qed.
Lemma keeps_preExec t : keeps_slots (preExecCheck t).
Proof.
  apply keeps_bind; [apply keeps_reads|]. intros gas. destruct (_ <? _); [apply keeps_ret|]. destruct (SafeMul _ _) as [g []]; [apply keeps_ret|]. apply keeps_bind; [apply keeps_reads|]. intros; apply keeps_ret.
Qed.

(** Without a slot nothing is accepted. *)
Lemma no_slot_no_accept sender tx ch s s' : slots s = 0 -> run (handleTransaction sender tx ch) s = Done ((), s') -> allPendingTxs s' = allPendingTxs s /\ slots s' = slots s.
Proof.
  intros Hz. pose proof (fun (p : prog Server unit) (H : keeps_slots p) => H s () s') as HK.
  (* the handler up to [take_slot] keeps both; [take_slot] waits *)
  assert (Hseq : forall {A} (p : prog Server A) (g : A -> prog Server unit) s1, keeps_slots p -> allPendingTxs s1 = allPendingTxs s -> slots s1 = slots s ->
    (forall a s2, allPendingTxs s2 = allPendingTxs s -> slots s2 = slots s -> run (g a) s2 = Done ((), s') -> allPendingTxs s' = allPendingTxs s /\ slots s' = slots s) ->
    run (pbind p g) s1 = Done ((), s') -> allPendingTxs s' = allPendingTxs s /\ slots s' = slots s).
  { intros A p g s1 Hp E1 E2 Hg. rewrite run_bind. destruct (run p s1) as [[a s2]| |] eqn:E; [|discriminate ..]. destruct (Hp _ _ _ E) as [E3 E4]. apply Hg; congruence. }
  assert (Hend : forall (p : prog Server unit) s1, keeps_slots p -> allPendingTxs s1 = allPendingTxs s -> slots s1 = slots s -> run p s1 = Done ((), s') -> allPendingTxs s' = allPendingTxs s /\ slots s' = slots s).
  { intros p s1 Hp E1 E2 E. destruct (Hp _ _ _ E). split; congruence. }
  unfold handleTransaction. cbv zeta. apply Hseq; [apply keeps_stats | reflexivity | reflexivity|]. intros _ s1 E1 E2.
  destruct (written _) as [raw| |]; [|discriminate ..]. destruct (_ <? zlen raw); [apply Hend; auto using keeps_reply|]. apply Hseq; [apply keeps_reads | exact E1 | exact E2|]. intros [t|] s2 E3 E4.
  { apply Hseq; [apply keeps_stats | exact E3 | exact E4|]. intros _ s3 E5 E6. apply Hend; auto using keeps_reply. }
  apply Hseq; [apply keeps_reads | exact E3 | exact E4|]. intros n s3 E5 E6. destruct (_ <=? n).
  { apply Hseq; [apply keeps_stats | exact E5 | exact E6|]. intros _ s4 E7 E8. apply Hend; auto using keeps_reply. }
  destruct (SafeMul _ _) as [g []]; [apply Hend; auto using keeps_reply|]. apply Hseq; [apply keeps_reads | exact E5 | exact E6|]. intros price s4 E7 E8.
  destruct (_ || _); [apply Hend; auto using keeps_reply|]. destruct (_ && _); [apply Hend; auto using keeps_reply|]. apply Hseq; [apply keeps_reads | exact E7 | exact E8|]. intros disabled s5 E9 E10.
  apply Hseq; [destruct disabled; [apply keeps_ret | apply keeps_preExec] | exact E9 | exact E10|]. intros [] s6 E11 E12; cbn [negb]; [|apply Hend; auto using keeps_reply].
  rewrite run_bind. cbn. rewrite E12, Hz. discriminate.
Qed.
End Slots.

Import ValidationExample TxExample.

(** One round: a transaction comes twice, is handed to the worker, waits ten seconds for validators that do not answer, and is given up. *)
Definition submit : prog Server unit := TxActor_Receive None (TxReq the_tx NetSender None).
Definition later (s : Server) : Server := set_clock (clock s + 10 * second) s.

(** A server without validators and with one worker: what is pending, in the worker's channel and in its list; the slots. *)
Record stage (pend : gmap Uint256 serverPendingTx) (rcv : list Transaction) (wp : gmap Uint256 pendingTx) (v : Z) (s : Server) : Prop := mkStage {
  re_pool : txPool s = ∅; re_pending : allPendingTxs s = pend; re_locked : block_locked s = false; re_block : unProcessedTxs (block s) = ∅; re_actors : actors s = ∅;
  re_stats : length (stats s) = 6%nat; re_slots : slots s = v; re_price : gasPrice s = 500; re_exec : disablePreExec s = true; re_workers : workers s = [mkWorker rcv [] [] wp] }.

Lemma bump v s : length (stats s) = 6%nat -> 1 <= v <= 6 -> exists l, length l = 6%nat /\ run (increaseStats v) s = Done ((), set_stats l s).
Proof.
  intros Hl Hv. destruct (lookup_lt_is_Some_2 (stats s) (Z.to_nat (v - 1))) as [n Hn]; [lia|]. eexists. split; [|cbn; rewrite Hn; reflexivity]. rewrite length_insert. exact Hl.
Qed.

(** The checks of [handleTransaction] are passed. *)
Definition admitted (s : Server) : Prop :=
  txPool s = ∅ /\ gasPrice s = 500 /\ disablePreExec s = true /\ length (stats s) = 6%nat.

Lemma handle_admitted sender ch s : admitted s -> 0 < slots s -> exists l, length l = 6%nat /\
  run (handleTransaction sender the_tx ch) s =
  match run (assignTxToWorker the_tx sender ch) (set_slots (slots s - 1) (set_stats l s)) with Done (_, s') => Done ((), s') | Blocked => Blocked | Crash => Crash end.
Proof.
  intros (H1 & H2 & H3 & H4) Hs. destruct (bump RcvStats s H4) as (l & Hl & E); [unfold RcvStats; lia|]. exists l. split; [exact Hl|].
  unfold handleTransaction. cbv zeta. rewrite run_bind, E. assert (Ew : written (Tx.Serialization the_tx) = Ok [x01]) by (vm_compute; reflexivity). rewrite Ew.
  change (MAX_TX_SIZE <? zlen [x01]) with false. cbv iota. rewrite run_bind.
  replace (run (getTransaction (Tx.Hash the_tx)) (set_stats l s)) with (Done (@None Transaction, set_stats l s))
    by (unfold getTransaction, reads, modify, act, GetTransaction; cbn [run]; cbn [txPool set_stats]; rewrite H1, lookup_empty; reflexivity).
  cbv iota. rewrite run_bind. replace (run getTransactionCount (set_stats l s)) with (Done (0, set_stats l s))
    by (unfold getTransactionCount, reads, modify, act, GetTransactionCount; cbn [run]; cbn [txPool set_stats]; rewrite H1, map_size_empty; reflexivity).
  change (MAX_CAPACITY <=? 0) with false. cbv iota. change (SafeMul (GasLimit (t_body the_tx)) (GasPrice (t_body the_tx))) with (10000000, false). cbv iota.
  rewrite run_bind. replace (run getGasPrice (set_stats l s)) with (Done (500, set_stats l s)) by (unfold getGasPrice, reads, modify, act; cbn [run]; cbn [gasPrice set_stats]; rewrite H2; reflexivity).
  change ((GasLimit (t_body the_tx) <? config_GasLimit) || (GasPrice (t_body the_tx) <? 500)) with false.
  change ((bz (TxType (t_body the_tx)) =? Tx.Deploy) && (GasLimit (t_body the_tx) <? CONTRACT_CREATE_GAS)) with false. cbv iota.
  rewrite run_bind. unfold reads at 1, modify at 1, act at 1. cbn [run]. cbn [disablePreExec set_stats]. rewrite H3. rewrite run_bind. cbn [run negb]. rewrite run_bind. cbn [run take_slot act].
  cbn [slots set_stats]. rewrite (proj2 (Z.leb_gt _ _)) by lia. rewrite run_bind. destruct (run (assignTxToWorker the_tx sender ch) _) as [[b s']| |]; reflexivity.
Qed.

Definition key : Uint256 := Tx.Hash the_tx.
Definition pend1 : gmap Uint256 serverPendingTx := {[key := mkServerPending the_tx NetSender None]}.
Definition list1 (t : Z) : gmap Uint256 pendingTx := {[key := mkPending the_tx t the_req 0 0 []]}.

Lemma stage_admitted pend rcv wp v s : stage pend rcv wp v s -> admitted s.
Proof. intros []. repeat split; assumption. Qed.

Lemma submit_first v s : stage ∅ [] ∅ v s -> 0 < v -> exists s', run submit s = Done ((), s') /\ stage pend1 [the_tx] ∅ (v - 1) s'.
Proof.
  intros Hs Hv. destruct (handle_admitted NetSender None s (stage_admitted _ _ _ _ _ Hs)) as (l & Hl & E); [destruct Hs; lia|]. unfold submit. cbn [TxActor_Receive]. rewrite E. clear E.
  destruct Hs. unfold assignTxToWorker. rewrite run_bind. unfold setPendingTx, modify, act. cbn [run]. cbn [allPendingTxs set_slots set_stats]. rewrite re_pending0, lookup_empty. cbn [negb].
  rewrite run_bind. unfold reads, modify, act. cbn [run]. set (s1 := set_allPendingTxs _ _). replace (loads rcvTXCh s1) with [mkLB 0 0] by (unfold loads; cbn [workers s1 set_allPendingTxs set_slots set_stats]; rewrite re_workers0; reflexivity).
  change (sort_Sort lb_less [mkLB 0 0]) with [mkLB 0 0]. cbv iota. rewrite run_bind. unfold send_rcv, act. cbn [run]. replace (workers s1) with [mkWorker [] [] [] (∅ : gmap Uint256 pendingTx)] by (symmetry; exact re_workers0).
  cbn. eexists. split; [reflexivity|]. constructor; cbn; auto; try lia; try (rewrite re_workers0; reflexivity).
Qed.

Lemma submit_again rcv wp v s : stage pend1 rcv wp v s -> 0 < v -> exists s', run submit s = Done ((), s') /\ stage pend1 rcv wp (v - 1) s'.
Proof.
  intros Hs Hv. destruct (handle_admitted NetSender None s (stage_admitted _ _ _ _ _ Hs)) as (l & Hl & E); [destruct Hs; lia|]. unfold submit. cbn [TxActor_Receive]. rewrite E. clear E.
  destruct Hs. unfold assignTxToWorker. rewrite run_bind. unfold setPendingTx, modify, act. cbn [run]. cbn [allPendingTxs set_slots set_stats]. rewrite re_pending0. unfold pend1 at 1. rewrite lookup_singleton_eq. cbn [negb].
  set (s1 := set_slots _ _). destruct (bump DuplicateStats s1) as (l' & Hl' & E); [exact Hl | unfold DuplicateStats; lia|]. rewrite run_bind, E, run_bind. unfold reply_http. cbn.
  eexists. split; [reflexivity|]. constructor; cbn; auto; lia.
Qed.

Lemma worker_takes v s : stage pend1 [the_tx] ∅ v s -> exists s', run (turn_rcv 0) s = Done ((), s') /\ stage pend1 [] (list1 (clock s')) v s'.
Proof.
  intros []. unfold turn_rcv. rewrite run_bind. unfold receive, act. cbn [run]. rewrite re_workers0. cbn [lookup list_lookup rcvTXCh]. set (s1 := set_worker _ _ s).
  assert (Hw1 : workers s1 = [mkWorker [] [] [] ∅]) by (cbn; rewrite re_workers0; reflexivity).
  unfold verifyTx. rewrite run_bind. replace (run (getTransaction (Tx.Hash the_tx)) s1) with (Done (@None Transaction, s1)).
  2: { unfold getTransaction, reads, modify, act, GetTransaction. cbn [run]. replace (txPool s1) with (∅ : TXPool) by (symmetry; exact re_pool0). rewrite lookup_empty. reflexivity. }
  rewrite run_bind. unfold pending_lookup, on_pending, act. cbn [run]. rewrite Hw1. cbn [lookup list_lookup pendingTxList set_pending]. rewrite lookup_empty.
  set (s2 := set_worker _ _ s1). assert (Hw2 : workers s2 = [mkWorker [] [] [] ∅]) by (cbn; rewrite re_workers0; reflexivity).
  cbv zeta. rewrite run_bind. replace (run (sendReq2Validator _) s2) with (Done ((), s2)).
  2: { unfold sendReq2Validator. rewrite run_bind. unfold reads, modify, act. cbn [run]. unfold GetPID. replace (actors s2) with (∅ : gmap Z Z) by (symmetry; exact re_actors0). rewrite lookup_empty. reflexivity. }
  rewrite run_bind. unfold pending_insert, on_pending, act. cbn [run]. rewrite Hw2. cbn [lookup list_lookup pendingTxList set_pending]. set (s3 := set_worker _ _ s2).
  assert (Hw3 : workers s3 = [mkWorker [] [] [] (<[key := mkPending the_tx 0 the_req 0 0 []]> ∅)]) by (cbn; rewrite re_workers0; reflexivity).
  unfold touch, on_pending, act. cbn [run]. rewrite Hw3. cbn [lookup list_lookup pendingTxList set_pending]. eexists. split; [reflexivity|].
  constructor; cbn [txPool allPendingTxs block_locked block actors stats slots gasPrice disablePreExec workers set_worker set_workers]; auto. rewrite Hw3. reflexivity.
Qed.

Lemma worker_gives_up v s : stage pend1 [] (list1 (clock s)) v s -> v < MAX_LIMITATION -> exists s', run (handleTimeoutEvent 0) (later s) = Done ((), s') /\ stage ∅ [] ∅ (v + 1) s'.
Proof.
  intros [] Hv. set (s1 := later s). assert (Hw1 : workers s1 = [mkWorker [] [] [] (list1 (clock s))]) by exact re_workers0.
  unfold handleTimeoutEvent. rewrite run_bind. unfold on_pending at 1, act at 1. cbn [run]. rewrite Hw1. cbn [lookup list_lookup pendingTxList set_pending].
  replace (range_map (list1 (clock s))) with [(key, mkPending the_tx (clock s) the_req 0 0 [])] by reflexivity.
  set (s2 := set_worker _ _ s1). assert (Hw2 : workers s2 = [mkWorker [] [] [] (list1 (clock s))]) by (cbn; rewrite re_workers0; reflexivity).
  cbn [for_each]. rewrite run_bind. unfold expire. rewrite run_bind. unfold reads, modify, act. cbn [run]. change (complete _) with false. cbn [negb andb pt_valTime].
  change (clock s2) with (clock s + 10 * second). replace (clock s + 10 * second - clock s) with (10 * second) by lia. change (EXPIRE_INTERVAL <=? Z.quot (10 * second) second) with true.
  cbn [pt_retries]. change (0 <? MAX_RETRIES) with false. cbv iota. rewrite run_bind. unfold pending_delete, on_pending, act. cbn [run]. rewrite Hw2. cbn [lookup list_lookup pendingTxList set_pending].
  set (s3 := set_worker _ _ s2). unfold removePendingTx. rewrite run_bind. unfold modify, act. cbn [run]. replace (allPendingTxs s3) with pend1 by (symmetry; exact re_pending0).
  unfold pend1 at 1. rewrite lookup_singleton_eq. unfold finish_pending. change (ErrRetryExhausted =? ErrNoError) with false. cbn [andb sp_sender].
  rewrite bool_decide_eq_false_2 by discriminate. set (s4 := set_allPendingTxs _ s3). replace (allPendingTxs s4) with (∅ : gmap Uint256 serverPendingTx).
  2: { symmetry. cbn. rewrite re_pending0. apply delete_singleton_eq. }
  rewrite map_size_empty. change (Z.of_nat 0 <? MAX_LIMITATION) with true. cbv iota. change (slots s4) with (slots s). rewrite re_slots0. rewrite (proj2 (Z.ltb_lt _ _)) by exact Hv.
  unfold checkPendingBlockOk, act. cbn [run]. change (block_locked (set_slots (v + 1) s4)) with (block_locked s). rewrite re_locked0. change (block (set_slots (v + 1) s4)) with (block s). rewrite re_block0, lookup_empty.
  eexists. split; [reflexivity|]. constructor; cbn [txPool allPendingTxs block_locked block actors stats slots gasPrice disablePreExec set_slots set_allPendingTxs s4]; auto.
  - cbn. rewrite re_pending0. apply delete_singleton_eq.
  - cbn. rewrite re_workers0. reflexivity.
Qed.

Lemma submit_starts s : starts 0 s submit.
Proof. constructor. intros tx sender ch [= <- _ _]. split; [exists [x01]; vm_compute; reflexivity|]. split; [repeat constructor | exact I]. Qed.

Lemma one_round v s : stage ∅ [] ∅ v s -> 1 < v <= MAX_LIMITATION -> exists s', rtc (quiet 1) s s' /\ stage ∅ [] ∅ (v - 1) s'.
Proof.
  intros Hs Hv. destruct (submit_first v s Hs) as (s1 & E1 & H1); [lia|]. destruct (submit_again _ _ _ _ H1) as (s2 & E2 & H2); [lia|]. destruct (worker_takes _ _ H2) as (s3 & E3 & H3).
  destruct (worker_gives_up _ _ H3) as (s4 & E4 & H4); [lia|]. replace (v - 1 - 1 + 1) with (v - 1) in H4 by lia. exists s4. split; [|exact H4].
  assert (Hw : forall pend rcv wp v s, stage pend rcv wp v s -> (0 < length (workers s))%nat) by (intros pend rcv wp v' s' []; rewrite re_workers0; cbn; lia).
  eapply rtc_l; [exact (quiet_run 1 0 _ _ _ ltac:(lia) (submit_starts s) E1)|]. eapply rtc_l; [exact (quiet_run 1 0 _ _ _ ltac:(lia) (submit_starts s1) E2)|].
  eapply rtc_l; [exact (quiet_run 1 5 _ _ _ ltac:(lia) (start_rcv s2 0 (Hw _ _ _ _ _ H2)) E3)|]. eapply rtc_l; [exact (quiet_world 1 _ _ (world_clock s3 (clock s3 + 10 * second)))|].
  apply rtc_once. exact (quiet_run 1 5 _ _ _ ltac:(lia) (start_timer (later s3) 0 (Hw _ _ _ _ _ H3)) E4).
Qed.

(** A duplicate costs a slot for ever.  [handleTransaction] takes one of the 10000 slots before it finds out that the
    transaction is being verified already, and nothing gives the slot back.  So for every [n] below 10000 the server can get into a state in which
    nothing is pending and only [10000 - n] slots are left; when one is left, a single pending transaction keeps every
    other submission waiting. *)
Theorem duplicates_use_up_slots (n : Z) : 0 <= n < MAX_LIMITATION ->
  exists s, reachable s0 (mkConfig s (replicate 6 (Ret ()))) /\ allPendingTxs s = ∅ /\ slots s = MAX_LIMITATION - n /\
    (n = MAX_LIMITATION - 1 -> exists s1, run submit s = Done ((), s1) /\
       forall sender tx ch s2, run (handleTransaction sender tx ch) s1 = Done ((), s2) -> allPendingTxs s2 = allPendingTxs s1).
Proof.
  intros Hn. assert (H : exists s, rtc (quiet 1) s0 s /\ stage ∅ [] ∅ (MAX_LIMITATION - n) s).
  { assert (H0 : 0 <= n) by lia. revert Hn. pattern n. apply natlike_rec2; [intros _; exists s0; split; [apply rtc_refl | constructor; reflexivity] | | exact H0].
    intros k Hk IH Hn. destruct IH as (s & Hr & Hs); [lia|]. destruct (one_round _ _ Hs) as (s' & Hr' & Hs'); [lia|]. exists s'. split; [etransitivity; eassumption|].
    replace (MAX_LIMITATION - Z.succ k) with (MAX_LIMITATION - k - 1) by lia. exact Hs'. }
  destruct H as (s & Hr & Hs). exists s. split; [exact (quiet_reachable s0 s Hr)|]. destruct (submit_first _ _ Hs) as (s1 & E1 & H1); [lia|].
  destruct Hs. split; [assumption|]. split; [assumption|]. intros ->. exists s1. split; [exact E1|]. intros sender tx ch s2 E. apply no_slot_no_accept in E; [exact (proj1 E)|]. destruct H1. lia.
Qed.

Lemma duplicates_use_up_slots_witness : exists s, reachable s0 (mkConfig s (replicate 6 (Ret ()))) /\ allPendingTxs s = ∅ /\ slots s = 1.
Proof. destruct (duplicates_use_up_slots (MAX_LIMITATION - 1) ltac:(unfold MAX_LIMITATION; lia)) as (s & H1 & H2 & H3 & _). exists s. auto. Defined.

(** ** Signatures of a block *)

Section Signatures.
Context {K : Keypair} {HH : Hashes} {SL : SigLib} {G : GoRuntime} {LV : LedgerView}.

(** A transaction with the fields of another and one more verification script, with nothing to satisfy it. *)
Definition with_script (tx : Transaction) (script : list byte) : Transaction :=
  mkTx (t_body tx) (Sigs tx ++ [mkRawSig [] script]) (Raw tx) (t_hash tx) [] true.

Lemma with_script_address tx script : AddressFromVmCode script ∈ (Tx.GetSignatureAddresses (with_script tx script)).1.
Proof. unfold Tx.GetSignatureAddresses. cbn. rewrite map_app. apply elem_of_app. right. left. Qed.

Lemma single_verified (v : VerifyTxResult) h : (range_map (<[h := v]> (∅ : gmap Uint256 VerifyTxResult))).*2 = [v].
Proof.
  rewrite insert_empty. pose proof (range_map_perm _ _ ({[h := v]} : gmap Uint256 VerifyTxResult)) as Hp. rewrite map_to_list_singleton in Hp.
  apply Permutation_singleton_r in Hp. rewrite Hp. reflexivity.
Qed.

Lemma verifyBlock_in_pool height t pid e a s : block_locked s = false -> txPool s !! Tx.Hash t = Some e -> stateful_attr (Attrs e) = Some a ->
  compareTxHeight e height = true -> gasPrice s <= tx_GasPrice t ->
  exists s', run (verifyBlock height [t] (Some pid)) s = Done ((), s') /\ sent s' = VerifyBlockRsp pid [mkResult (a_Height a) t (a_ErrCode a)] :: sent s.
Proof.
  intros Hl He Ha Hc Hg. unfold verifyBlock. change (zlen [t] =? 0) with false. cbv iota. rewrite run_bind. unfold setHeight, writes, modify, act. cbn [run]. rewrite run_bind. unfold lock_block, act. cbn [run].
  change (block_locked (set_s_height height s)) with (block_locked s). rewrite Hl. rewrite run_bind. cbn [run]. set (s1 := set_block _ _). rewrite run_bind. cbn [check_block_txs]. rewrite run_bind.
  unfold reads, modify, act. cbn [run]. change (gasPrice s1) with (gasPrice s). rewrite (proj2 (Z.ltb_ge _ _)) by exact Hg. rewrite bool_decide_eq_false_2 by (intros H; inversion H). cbn [run].
  rewrite run_bind. rewrite run_bind. cbn [run]. change (txPool s1) with (txPool s). cbn [GetUnverifiedTxs]. rewrite He, Hc. cbn [negb]. rewrite Ha. cbv beta iota zeta. cbn [UnverifiedTxs OldTxs VerifiedTxs].
  rewrite run_bind. cbn [for_each run]. rewrite run_bind. cbn [for_each run]. unfold record_verified. rewrite run_bind. cbn [for_each]. rewrite run_bind. unfold writes, modify, act. cbn [run v_Tx].
  set (s2 := set_block _ _). change (unProcessedTxs (block s2)) with (∅ : gmap Uint256 Transaction). rewrite map_size_empty. change (Z.of_nat 0 =? 0) with true. cbv iota. unfold unlock_block, writes, modify, act. cbn [run].
  eexists. split; [reflexivity|]. unfold sendBlkResult2Consensus. change (pb_sender (block s2)) with (Some pid). cbn [sent set_block_locked set_block emit set_sent].
  change (processedTxs (block s2)) with (<[Tx.Hash t := mkResult (a_Height a) t (a_ErrCode a)]> (∅ : gmap Uint256 VerifyTxResult)). rewrite single_verified. reflexivity.
Qed.

(** C34: a block is checked by the hashes of its transactions, not by their signatures.  The hash does not cover the signatures, and
    [verifyBlock] takes a transaction whose hash is in the pool for verified.  So for any entry of the pool and any verification script there is a
    transaction with the same fields and hash which carries that script without a signature for it; a block with it is
    reported as good at once, no validator being asked; and [GetSignatureAddresses], from which the witnesses of its execution are taken,
    names the address of the script. *)
Theorem block_signatures_unchecked (s : Server) (h : Uint256) (e : TXEntry) (a : TXAttr) (height pid : Z) (script : list byte) :
  block_locked s = false -> txPool s !! h = Some e -> t_hash (e_Tx e) = h -> stateful_attr (Attrs e) = Some a -> compareTxHeight e height = true -> gasPrice s <= tx_GasPrice (e_Tx e) ->
  exists t s', t_body t = t_body (e_Tx e) /\ t_hash t = h /\ AddressFromVmCode script ∈ (Tx.GetSignatureAddresses t).1 /\
    run (verifyBlock height [t] (Some pid)) s = Done ((), s') /\ sent s' = VerifyBlockRsp pid [mkResult (a_Height a) t (a_ErrCode a)] :: sent s.
Proof.
  intros Hl He Hh Ha Hc Hg. destruct (verifyBlock_in_pool height (with_script (e_Tx e) script) pid e a s Hl) as (s' & E1 & E2); [cbn; rewrite Hh; exact He | exact Ha | exact Hc | exact Hg|].
  exists (with_script (e_Tx e) script), s'. split; [reflexivity|]. split; [exact Hh|]. split; [apply with_script_address | auto].
Qed.
End Signatures.

Lemma block_signatures_unchecked_witness : exists t s', t_hash t = repeat x0a 32 /\ AddressFromVmCode [x77] ∈ (Tx.GetSignatureAddresses t).1 /\
  run (verifyBlock 10 [t] (Some 5)) pooled = Done ((), s').
Proof.
  destruct (txPool pooled !! repeat x0a 32) as [e|] eqn:E; [|exfalso; revert E; vm_compute; discriminate].
  assert (He : match txPool pooled !! repeat x0a 32 with Some e => bool_decide (t_hash (e_Tx e) = repeat x0a 32) && (tx_GasPrice (e_Tx e) =? 500) && compareTxHeight e 10 &&
    match stateful_attr (Attrs e) with Some _ => true | None => false end | None => false end = true) by (vm_compute; reflexivity). rewrite E in He. rewrite !andb_true_iff in He.
  destruct He as [[[H1 H2] H3] H4]. apply bool_decide_eq_true in H1. apply Z.eqb_eq in H2. destruct (stateful_attr (Attrs e)) as [a|] eqn:Ea; [|discriminate].
  destruct (block_signatures_unchecked pooled (repeat x0a 32) e a 10 5 [x77]) as (t & s' & _ & H5 & H6 & H7 & _); [vm_compute; reflexivity | exact E | exact H1 | exact Ea | exact H3 | rewrite H2; vm_compute; discriminate|].
  exists t, s'. auto.
Defined.

(** ** A check made at a lower height *)

(** The worker has read the height, then consensus asks for a block at height 20, then the worker goes on. *)
Definition half : Server := after delivered (turn_rsp 0).
Definition idle6 : list (prog Server unit) := replicate 6 (Ret ()).
Definition race : option (config Server) :=
  c ← run_schedule [5; 5; 5]%nat (mkConfig half (<[5%nat := turn_rsp 0]> idle6));
  c ← run_schedule (replicate 10 1%nat) (mkConfig (shared c) (<[1%nat := TxPoolActor_Receive (Some 5) (VerifyBlockReq 20 [the_tx])]> (threads c)));
  run_schedule (replicate 5 5%nat) c.

Definition race_result (c : config Server) : bool :=
  match sent (shared c), txPool (shared c) !! Tx.Hash the_tx with
  | VerifyBlockRsp pid [r] :: _, Some e =>
      (pid =? 5) && (v_Height r =? 20) && (v_ErrCode r =? ErrNoError) && bool_decide (Tx.Hash (v_Tx r) = Tx.Hash the_tx) &&
      match stateful_attr (Attrs e) with Some a => a_Height a =? 10 | None => false end
  | _, _ => false
  end && match ledger_past (shared c) with [] => GetCurrentBlockHeight (ledger_now (shared c)) =? 10 | _ => false end.

Lemma half_quiet : rtc (quiet 1) s0 half.
Proof.
  apply (quiet_after 5); [lia | apply (start_rsp _ 0); vm_compute; lia | vm_compute; reflexivity|].
  apply (quiet_after 2); [lia | exact (start_response _ 0) | vm_compute; reflexivity|]. apply (quiet_after 2); [lia | exact (start_response _ 0) | vm_compute; reflexivity | exact answered_quiet].
Qed.

Lemma run_schedule_reachable sched s c c' : run_schedule sched c = Some c' -> reachable s c -> reachable s c'.
Proof. intros E H. unfold reachable in *. etransitivity; [exact H | exact (run_schedule_steps _ _ _ _ _ E)]. Qed.

Lemma start_reachable i p s c : reachable s c -> threads c !! i = Some (Ret ()) -> starts i (shared c) p -> reachable s (mkConfig (shared c) (<[i := p]> (threads c))).
Proof. intros H Hi Hp. unfold reachable in *. destruct c as [sh ths]. eapply rtc_r; [exact H | exact (step_start _ _ i sh ths p Hi Hp)]. Qed.

(** A block can be reported as good on the strength of a check made below its height.  [verifyBlock] sets the height that answers of the stateful validator
    must have reached, but a worker that has read the old height already goes on with it.  In this run the ledger is at height
    10 all the time and the only stateful check of the transaction was made there; the block at height 20 that contains
    it is reported as good at height 20. *)
Theorem stale_check_accepted : exists c pid r e a, reachable s0 c /\ VerifyBlockRsp pid [r] ∈ sent (shared c) /\ v_ErrCode r = ErrNoError /\ v_Height r = 20 /\
  txPool (shared c) !! Tx.Hash (v_Tx r) = Some e /\ stateful_attr (Attrs e) = Some a /\ a_Height a = 10 /\ (forall l, l ∈ ledgers (shared c) -> GetCurrentBlockHeight l = 10).
Proof.
  assert (H : exists c, race = Some c /\ race_result c = true).
  { destruct race as [c|] eqn:E; [|exfalso; revert E; vm_compute; discriminate]. exists c. split; [reflexivity|].
    assert (Hr : match race with Some c => race_result c | None => false end = true) by (vm_compute; reflexivity). rewrite E in Hr. exact Hr. }
  destruct H as (c & E & Hr). assert (Hc : reachable s0 c).
  { unfold race in E. apply bind_Some in E as (c1 & E1 & E). apply bind_Some in E as (c2 & E2 & E3). apply (run_schedule_reachable _ _ _ _ E3), (run_schedule_reachable _ _ _ _ E2).
    assert (H1 : reachable s0 c1).
    { apply (run_schedule_reachable _ _ _ _ E1). apply (start_reachable 5 _ s0 (mkConfig half idle6)); [exact (quiet_reachable s0 half half_quiet) | reflexivity|]. apply (start_rsp _ 0). vm_compute. lia. }
    apply start_reachable; [exact H1 | | constructor; intros height txs [= _ <-]; repeat constructor]. assert (Ht : match run_schedule [5; 5; 5]%nat (mkConfig half (<[5%nat := turn_rsp 0]> idle6)) with
      Some c => match threads c !! 1%nat with Some (Ret _) => true | _ => false end | None => false end = true) by (vm_compute; reflexivity).
    rewrite E1 in Ht. destruct (threads c1 !! 1%nat) as [[[]|]|]; [reflexivity | discriminate | discriminate]. }
  unfold race_result in Hr. apply andb_prop in Hr as [H1 H2]. destruct (sent (shared c)) as [|[| pid [|r [|]] | | | |] rest] eqn:Es; try discriminate H1.
  destruct (txPool (shared c) !! Tx.Hash the_tx) as [e|] eqn:Ee; [|discriminate H1]. rewrite !andb_true_iff in H1. destruct H1 as [[[[_ Hh] Herr] Hb] Ha]. apply Z.eqb_eq in Hh, Herr. apply bool_decide_eq_true in Hb.
  destruct (stateful_attr (Attrs e)) as [a|] eqn:Ea; [|discriminate Ha]. apply Z.eqb_eq in Ha. exists c, pid, r, e, a. split; [exact Hc|]. split; [rewrite Es; left|]. split; [exact Herr|]. split; [exact Hh|].
  split; [rewrite Hb; exact Ee|]. split; [exact Ea|]. split; [exact Ha|]. intros l Hl. unfold ledgers in Hl. destruct (ledger_past (shared c)); [|discriminate H2]. apply list_elem_of_singleton in Hl as ->. apply Z.eqb_eq, H2.
Qed.

(** The message of [UnRegister] names the type 0, also when the stateful validator sends it: that validator stays registered. *)
Lemma stateful_never_unregistered id s s' : run (VerifyRspActor_Receive (unregister_msg id)) s = Done ((), s') -> entries s' !! VerifyType_Stateful = entries s !! VerifyType_Stateful.
Proof.
  cbn [VerifyRspActor_Receive unregister_msg]. unfold unRegisterValidator, writes, modify, act. cbn [run]. destruct (entries s !! 0) as [l|]; [|intros [= <-]; reflexivity]. cbv zeta.
  destruct (unregister_loop id (length l) 0 l (length l)) as [arr found]. assert (Hack : forall l s, entries (foldl (ack id 0) s l) = entries s).
  { clear. induction l as [|v l IH]; intros s; cbn; [reflexivity|]. rewrite IH. unfold ack. destruct (rv_Sender v); reflexivity. }
  pose proof (Hack found s) as Ef. destruct found as [|v found]; intros [= <-]; [reflexivity|]. cbn [entries set_entries]. cbn [foldl] in Ef. rewrite Ef. destruct (length l - 1)%nat; [apply lookup_delete_ne; discriminate | apply lookup_insert_ne; discriminate].
Qed.
