(* ===== verification/GovData.v ===== *)
(** * Data of the governance contract

    [smartcontract/service/native/governance/states.go] (what the contract stores) and
    [param.go] (the parameters of its methods), with the serialisation of each.  A Go
    string is a list of bytes, an [Address] a list of 20 bytes; a map of peers is a [gmap]
    from the text of the public key. *)

From S2P Require Import Prelude Codec BigInt MemDb NativeData LedgerTypes Decode.

(** A public key as text: the hexadecimal digits a user typed. *)
Definition PubKey := list byte.

(** [Status], a [uint8]. *)
Definition RegisterCandidateStatus : Z := 0.
Definition CandidateStatus : Z := 1.
Definition ConsensusStatus : Z := 2.
Definition QuitConsensusStatus : Z := 3.
Definition QuitingStatus : Z := 4.
Definition BlackStatus : Z := 5.

(** ** Stored values *)

Record BlackListItem := mkBlack { bl_PeerPubkey : PubKey; bl_Address : Address; bl_InitPos : Z }.
Record PeerPoolItem := mkPeer {
  pp_Index : Z; pp_PeerPubkey : PubKey; pp_Address : Address; pp_Status : Z; pp_InitPos : Z; pp_TotalPos : Z }.
Definition PeerPoolMap := gmap PubKey PeerPoolItem.
Record AuthorizeInfo := mkAuth {
  ai_PeerPubkey : PubKey; ai_Address : Address; ConsensusPos : Z; CandidatePos : Z; NewPos : Z;
  WithdrawConsensusPos : Z; WithdrawCandidatePos : Z; WithdrawUnfreezePos : Z }.
Record PeerStakeInfo := mkStakeInfo { si_Index : Z; si_PeerPubkey : PubKey; si_Stake : Z }.
Record GovernanceView := mkView { View : Z; gv_Height : Z; gv_TxHash : list byte }.
Record TotalStake := mkTotal { ts_Address : Address; Stake : Z; ts_TimeOffset : Z }.
Record PenaltyStake := mkPenalty {
  ps_PeerPubkey : PubKey; ps_InitPos : Z; ps_AuthorizePos : Z; ps_TimeOffset : Z; ps_Amount : Z }.
Record CandidateSplitInfo := mkSplitInfo {
  cs_PeerPubkey : PubKey; cs_Address : Address; cs_InitPos : Z; cs_Stake : Z; cs_S : Z }.
Record PeerAttributes := mkAttr {
  pa_PeerPubkey : PubKey; MaxAuthorize : Z; T2PeerCost : Z; T1PeerCost : Z; TPeerCost : Z;
  pa_Field1 : list byte; pa_Field2 : list byte; pa_Field3 : list byte; pa_Field4 : list byte }.
Record SplitFeeAddress := mkSplitFee { sf_Address : Address; sf_Amount : Z }.

(** ** Parameters *)

Record RegisterCandidateParam := mkRegister {
  rc_PeerPubkey : PubKey; rc_Address : Address; rc_InitPos : Z; rc_Caller : list byte; rc_KeyNo : Z }.
(** [UnRegisterCandidateParam], [QuitNodeParam] and [TransferPenaltyParam] have the same fields. *)
Record PeerAddressParam := mkPeerAddress { pk_PeerPubkey : PubKey; pk_Address : Address }.
(** [ApproveCandidateParam], [RejectCandidateParam] and [WhiteNodeParam]. *)
Record PeerParam := mkPeerParam { pr_PeerPubkey : PubKey }.
Record BlackNodeParam := mkBlackParam { bn_PeerPubkeyList : list PubKey }.
(** [AuthorizeForPeerParam] and [WithdrawParam]: keys with amounts. *)
Record PosListParam := mkPosList { al_Address : Address; al_PeerPubkeyList : list PubKey; al_PosList : list Z }.
Record Configuration := mkConfig {
  cfg_N : Z; cfg_C : Z; cfg_K : Z; cfg_L : Z; BlockMsgDelay : Z; HashMsgDelay : Z; PeerHandshakeTimeout : Z;
  MaxBlockChangeView : Z }.
(** [PreConfig.Configuration] is a pointer, nil in a fresh [PreConfig]. *)
Record PreConfig := mkPreConfig { pc_Configuration : option Configuration; SetView : Z }.
Record GlobalParam := mkGlobal {
  CandidateFee : Z; MinInitStake : Z; CandidateNum : Z; PosLimit : Z; gp_A : Z; gp_B : Z; Yita : Z; Penalty : Z }.
Record GlobalParam2 := mkGlobal2 {
  MinAuthorizePos : Z; CandidateFeeSplitNum : Z; DappFee : Z;
  gp_Field2 : list byte; gp_Field3 : list byte; gp_Field4 : list byte; gp_Field5 : list byte; gp_Field6 : list byte }.
Record SplitCurve := mkCurve { Yi : list Z }.
(** [WithdrawOngParam], [WithdrawFeeParam] and [GasAddress]. *)
Record AddressParam := mkAddressParam { ap_Address : Address }.
(** [ChangeMaxAuthorizationParam], [SetPeerCostParam] and [ChangeInitPosParam]: a key, its
    owner and a number. *)
Record PeerNumberParam := mkPeerNumber { pn_PeerPubkey : PubKey; pn_Address : Address; pn_Number : Z }.
Record PromisePos := mkPromise { pm_PeerPubkey : PubKey; pm_PromisePos : Z }.

(** ** Sorting and map order *)

(** Go's [>] on strings. *)
Definition str_gt (a b : PubKey) : bool := 0 <? bytes_Compare a b.

(** [sort.SliceStable]: [less x y] says that [x] comes first; equal elements keep their order. *)
Section Stable.
Context {A : Type} (less : A -> A -> bool).
Fixpoint insert_stable (x : A) (l : list A) : list A :=
  match l with
  | [] => [x]
  | y :: l' => if less y x then y :: insert_stable x l' else x :: l
  end.
Fixpoint sort_stable (l : list A) : list A :=
  match l with [] => [] | x :: l' => insert_stable x (sort_stable l') end.
End Stable.

(** [for _, v := range m]: Go visits the entries of a map in an order it does not fix. *)
Class RangeOrder := {
  range_of : PeerPoolMap -> list PeerPoolItem;
  range_of_perm m : range_of m ≡ₚ (map_to_list m).*2
}.

(** ** Serialisation of [states.go] *)

Definition ser_Address (a : Address) : ST ZeroCopySink unit := Sink.WriteAddress a.
Definition des_Address : ST ZeroCopySource Address :=
  do '(a, eof) <- Source.NextAddress; do_ st_guard (negb eof) ErrUnexpectedEOF; st_ret a.

Definition next_uint64 : ST ZeroCopySource Z :=
  do '(v, eof) <- Source.NextUint64; do_ st_guard (negb eof) ErrUnexpectedEOF; st_ret v.
Definition next_uint32 : ST ZeroCopySource Z :=
  do '(v, eof) <- Source.NextUint32; do_ st_guard (negb eof) ErrUnexpectedEOF; st_ret v.

(** [NextString] or [NextVarBytes] with one test of both flags. *)
Definition next_string : ST ZeroCopySource (list byte) :=
  do '(v, _, irregular, eof) <- Source.NextVarBytes; do_ st_guard (negb (irregular || eof)) "irregular or eof"; st_ret v.

Module Gser.

Definition Status (this : Z) : ST ZeroCopySink unit := Sink.WriteUint8 (zb this).

Definition BlackListItem (this : BlackListItem) : ST ZeroCopySink unit :=
  do_ Sink.WriteString (bl_PeerPubkey this); do_ ser_Address (bl_Address this); do_ Sink.WriteUint64 (bl_InitPos this); st_ret ().

Definition PeerPoolItem (this : PeerPoolItem) : ST ZeroCopySink unit :=
  do_ Sink.WriteUint32 (pp_Index this); do_ Sink.WriteString (pp_PeerPubkey this); do_ ser_Address (pp_Address this);
  do_ Status (pp_Status this); do_ Sink.WriteUint64 (pp_InitPos this); do_ Sink.WriteUint64 (pp_TotalPos this); st_ret ().

Fixpoint items (l : list GovData.PeerPoolItem) : ST ZeroCopySink unit :=
  match l with [] => st_ret () | v :: l => do_ PeerPoolItem v; items l end.
(** The entries are written in decreasing order of their keys. *)
Definition PeerPoolMap {R : RangeOrder} (this : PeerPoolMap) : ST ZeroCopySink unit :=
  do_ Sink.WriteUint32 (u32 (Z.of_nat (size this)));
  items (sort_stable (fun x y => str_gt (pp_PeerPubkey x) (pp_PeerPubkey y)) (range_of this)).

Definition AuthorizeInfo (this : AuthorizeInfo) : ST ZeroCopySink unit :=
  do_ Sink.WriteString (ai_PeerPubkey this); do_ ser_Address (ai_Address this);
  do_ Sink.WriteUint64 (ConsensusPos this); do_ Sink.WriteUint64 (CandidatePos this); do_ Sink.WriteUint64 (NewPos this);
  do_ Sink.WriteUint64 (WithdrawConsensusPos this); do_ Sink.WriteUint64 (WithdrawCandidatePos this);
  do_ Sink.WriteUint64 (WithdrawUnfreezePos this); st_ret ().

(** The view is written with the [io.Writer] functions. *)
Definition GovernanceView (this : GovernanceView) : list byte := z2le 4 (View this) ++ z2le 4 (gv_Height this) ++ gv_TxHash this.

Definition TotalStake (this : TotalStake) : ST ZeroCopySink unit :=
  do_ ser_Address (ts_Address this); do_ Sink.WriteUint64 (Stake this); do_ Sink.WriteUint32 (ts_TimeOffset this); st_ret ().

Definition PenaltyStake (this : PenaltyStake) : ST ZeroCopySink unit :=
  do_ Sink.WriteString (ps_PeerPubkey this); do_ Sink.WriteUint64 (ps_InitPos this); do_ Sink.WriteUint64 (ps_AuthorizePos this);
  do_ Sink.WriteUint32 (ps_TimeOffset this); do_ Sink.WriteUint64 (ps_Amount this); st_ret ().

Definition PeerAttributes (this : PeerAttributes) : ST ZeroCopySink unit :=
  do_ Sink.WriteString (pa_PeerPubkey this); do_ Sink.WriteUint64 (MaxAuthorize this); do_ Sink.WriteUint64 (T2PeerCost this);
  do_ Sink.WriteUint64 (T1PeerCost this); do_ Sink.WriteUint64 (TPeerCost this);
  do_ Sink.WriteVarBytes (pa_Field1 this); do_ Sink.WriteVarBytes (pa_Field2 this);
  do_ Sink.WriteVarBytes (pa_Field3 this); do_ Sink.WriteVarBytes (pa_Field4 this); st_ret ().

Definition SplitFeeAddress (this : SplitFeeAddress) : ST ZeroCopySink unit :=
  do_ ser_Address (sf_Address this); do_ Sink.WriteUint64 (sf_Amount this); st_ret ().

(** *** [param.go] *)

Definition RegisterCandidateParam (this : RegisterCandidateParam) : ST ZeroCopySink unit :=
  do_ Sink.WriteString (rc_PeerPubkey this); do_ Sink.WriteVarBytes (rc_Address this); do_ EncodeVarUint (rc_InitPos this);
  do_ Sink.WriteVarBytes (rc_Caller this); do_ EncodeVarUint (rc_KeyNo this); st_ret ().
Definition PeerAddressParam (this : PeerAddressParam) : ST ZeroCopySink unit :=
  do_ Sink.WriteString (pk_PeerPubkey this); do_ Sink.WriteVarBytes (pk_Address this); st_ret ().
Definition PeerParam (this : PeerParam) : ST ZeroCopySink unit := do_ Sink.WriteString (pr_PeerPubkey this); st_ret ().

Fixpoint strings (l : list (list byte)) : ST ZeroCopySink unit :=
  match l with [] => st_ret () | v :: l => do_ Sink.WriteString v; strings l end.
Fixpoint uints (l : list Z) : ST ZeroCopySink unit :=
  match l with [] => st_ret () | v :: l => do_ EncodeVarUint v; uints l end.

Definition BlackNodeParam (this : BlackNodeParam) : ST ZeroCopySink unit :=
  do_ EncodeVarUint (zlen (bn_PeerPubkeyList this)); strings (bn_PeerPubkeyList this).
Definition PosListParam (this : PosListParam) : ST ZeroCopySink unit :=
  do_ st_guard (negb (1024 <? zlen (al_PeerPubkeyList this))) "length of input list > 1024";
  do_ st_guard (zlen (al_PeerPubkeyList this) =? zlen (al_PosList this)) "length of PeerPubkeyList != length of PosList";
  do_ Sink.WriteVarBytes (al_Address this);
  do_ EncodeVarUint (zlen (al_PeerPubkeyList this)); do_ strings (al_PeerPubkeyList this);
  do_ EncodeVarUint (zlen (al_PosList this)); uints (al_PosList this).

Definition Configuration (this : Configuration) : ST ZeroCopySink unit :=
  uints [cfg_N this; cfg_C this; cfg_K this; cfg_L this; BlockMsgDelay this; HashMsgDelay this; PeerHandshakeTimeout this;
         MaxBlockChangeView this].
(** A nil configuration is dereferenced. *)
Definition PreConfig (this : PreConfig) : ST ZeroCopySink unit :=
  match pc_Configuration this with
  | None => st_panic
  | Some c => do_ Configuration c; do_ EncodeVarUint (SetView this); st_ret ()
  end.
Definition GlobalParam (this : GlobalParam) : ST ZeroCopySink unit :=
  uints [CandidateFee this; MinInitStake this; CandidateNum this; PosLimit this; gp_A this; gp_B this; Yita this; Penalty this].
Definition GlobalParam2 (this : GlobalParam2) : ST ZeroCopySink unit :=
  do_ st_guard (negb (MinAuthorizePos this =? 0)) "globalParam2.MinAuthorizePos can not be 0";
  do_ st_guard (negb (100 <? DappFee this)) "globalParam2.DappFee must <= 100";
  do_ EncodeVarUint (MinAuthorizePos this); do_ EncodeVarUint (CandidateFeeSplitNum this); do_ EncodeVarUint (DappFee this);
  do_ Sink.WriteVarBytes (gp_Field2 this); do_ Sink.WriteVarBytes (gp_Field3 this); do_ Sink.WriteVarBytes (gp_Field4 this);
  do_ Sink.WriteVarBytes (gp_Field5 this); do_ Sink.WriteVarBytes (gp_Field6 this); st_ret ().
Definition SplitCurve (this : SplitCurve) : ST ZeroCopySink unit :=
  do_ st_guard (zlen (Yi this) =? 101) "length of split curve != 101";
  do_ EncodeVarUint (zlen (Yi this)); uints (Yi this).
Definition AddressParam (this : AddressParam) : ST ZeroCopySink unit := do_ Sink.WriteVarBytes (ap_Address this); st_ret ().
Definition PeerNumberParam (this : PeerNumberParam) : ST ZeroCopySink unit :=
  do_ Sink.WriteString (pn_PeerPubkey this); do_ Sink.WriteVarBytes (pn_Address this); do_ EncodeVarUint (pn_Number this); st_ret ().
Definition PromisePos (this : PromisePos) : ST ZeroCopySink unit :=
  do_ Sink.WriteString (pm_PeerPubkey this); do_ EncodeVarUint (pm_PromisePos this); st_ret ().

(** Types of equal layout. *)
Definition UnRegisterCandidateParam := PeerAddressParam.
Definition QuitNodeParam := PeerAddressParam.
Definition TransferPenaltyParam := PeerAddressParam.
Definition ApproveCandidateParam := PeerParam.
Definition RejectCandidateParam := PeerParam.
Definition WhiteNodeParam := PeerParam.
Definition AuthorizeForPeerParam := PosListParam.
Definition WithdrawParam := PosListParam.
Definition WithdrawOngParam := AddressParam.
Definition WithdrawFeeParam := AddressParam.
Definition GasAddress := AddressParam.
Definition ChangeMaxAuthorizationParam := PeerNumberParam.
Definition SetPeerCostParam := PeerNumberParam.
Definition ChangeInitPosParam := PeerNumberParam.

End Gser.

Module Gdes.

Definition Status : ST ZeroCopySource Z :=
  do '(status, eof) <- Source.NextUint8; do_ st_guard (negb eof) "serialization.ReadUint8, deserialize status error"; st_ret status.

Definition BlackListItem : ST ZeroCopySource BlackListItem :=
  do peerPubkey <- DecodeString; do address <- des_Address; do initPos <- next_uint64; st_ret (mkBlack peerPubkey address initPos).

Definition PeerPoolItem : ST ZeroCopySource PeerPoolItem :=
  do index <- next_uint32; do peerPubkey <- DecodeString; do address <- des_Address; do status <- Status;
  do initPos <- next_uint64; do totalPos <- DecodeUint64;
  st_ret (mkPeer index peerPubkey address status initPos totalPos).

Definition PeerPoolMap : ST ZeroCopySource PeerPoolMap :=
  do n <- DecodeUint32;
  do l <- read_list PeerPoolItem n;
  st_ret (foldl (fun m v => <[pp_PeerPubkey v := v]> m) ∅ l).

Definition AuthorizeInfo : ST ZeroCopySource AuthorizeInfo :=
  do peerPubkey <- DecodeString; do address <- des_Address;
  do consensusPos <- DecodeUint64; do candidatePos <- DecodeUint64; do newPos <- DecodeUint64;
  do withDrawConsensusPos <- DecodeUint64; do withDrawCandidatePos <- DecodeUint64; do withDrawUnfreezePos <- DecodeUint64;
  st_ret (mkAuth peerPubkey address consensusPos candidatePos newPos withDrawConsensusPos withDrawCandidatePos withDrawUnfreezePos).

(** [serialization.ReadUint32] and [Uint256.Deserialize] from a buffer. *)
Definition read_buf (n : nat) (b : list byte) : res (list byte * list byte) :=
  if (length b <? n)%nat then Err ErrUnexpectedEOF else Ok (take n b, drop n b).
Definition GovernanceView (b : list byte) : res GovernanceView :=
  let* '(view, b) := read_buf 4 b in
  let* '(height, b) := read_buf 4 b in
  let* '(txHash, _) := read_buf 32 b in
  Ok (mkView (le2z view) (le2z height) txHash).

Definition TotalStake : ST ZeroCopySource TotalStake :=
  do address <- des_Address; do stake <- DecodeUint64; do timeOffset <- DecodeUint32; st_ret (mkTotal address stake timeOffset).

Definition PenaltyStake : ST ZeroCopySource PenaltyStake :=
  do peerPubkey <- DecodeString; do initPos <- DecodeUint64; do authorizePos <- DecodeUint64;
  do timeOffset <- DecodeUint32; do amount <- DecodeUint64;
  st_ret (mkPenalty peerPubkey initPos authorizePos timeOffset amount).

Definition PeerAttributes : ST ZeroCopySource PeerAttributes :=
  do peerPubkey <- DecodeString; do maxAuthorize <- next_uint64; do t2PeerCost <- next_uint64;
  do t1PeerCost <- next_uint64; do tPeerCost <- next_uint64;
  do field1 <- DecodeVarBytes; do field2 <- DecodeVarBytes; do field3 <- DecodeVarBytes; do field4 <- DecodeVarBytes;
  st_ret (mkAttr peerPubkey maxAuthorize t2PeerCost t1PeerCost tPeerCost field1 field2 field3 field4).

Definition SplitFeeAddress : ST ZeroCopySource SplitFeeAddress :=
  do address <- des_Address; do amount <- DecodeUint64; st_ret (mkSplitFee address amount).

(** *** [param.go] *)

(** A number that must fit 32 bits. *)
Definition max_uint32 (v : Z) (e : gerror) : ST ZeroCopySource unit := st_guard (negb (2 ^ 32 - 1 <? v)) e.
Definition uint32_var (e : gerror) : ST ZeroCopySource Z :=
  do k <- DecodeVarUint; do_ max_uint32 k e; st_ret (u32 k).

Definition RegisterCandidateParam : ST ZeroCopySource RegisterCandidateParam :=
  do peerPubkey <- next_string; do address <- DecodeAddress; do initPos <- uint32_var "initPos larger than max of uint32";
  do caller <- next_string; do keyNo <- uint32_var "initPos larger than max of uint32";
  st_ret (mkRegister peerPubkey address initPos caller keyNo).
Definition PeerAddressParam : ST ZeroCopySource PeerAddressParam :=
  do peerPubkey <- DecodeString; do address <- DecodeAddress; st_ret (mkPeerAddress peerPubkey address).
Definition PeerParam : ST ZeroCopySource PeerParam := do peerPubkey <- DecodeString; st_ret (mkPeerParam peerPubkey).
Definition BlackNodeParam : ST ZeroCopySource BlackNodeParam :=
  do n <- DecodeVarUint; do l <- read_list next_string n; st_ret (mkBlackParam l).
(** The keys are read with [NextString] in one of the two types and with [DecodeString]
    in the other: they differ in the text of the error. *)
Definition PosListParam (key : ST ZeroCopySource PubKey) : ST ZeroCopySource PosListParam :=
  do address <- DecodeAddress;
  do n <- DecodeVarUint;
  do_ st_guard (negb (1024 <? n)) "length of input list > 1024";
  do peerPubkeyList <- read_list key n;
  do m <- DecodeVarUint;
  do posList <- read_list (uint32_var "pos larger than max of uint32") m;
  do_ st_guard (m =? n) "length of PeerPubkeyList != length of PosList";
  st_ret (mkPosList address peerPubkeyList posList).

Definition Configuration : ST ZeroCopySource Configuration :=
  do n <- DecodeVarUint; do c <- DecodeVarUint; do k <- DecodeVarUint; do l <- DecodeVarUint;
  do blockMsgDelay <- DecodeVarUint; do hashMsgDelay <- DecodeVarUint; do peerHandshakeTimeout <- DecodeVarUint;
  do maxBlockChangeView <- DecodeVarUint;
  do_ max_uint32 n "n larger than max of uint32"; do_ max_uint32 c "c larger than max of uint32";
  do_ max_uint32 k "k larger than max of uint32"; do_ max_uint32 l "l larger than max of uint32";
  do_ max_uint32 blockMsgDelay "blockMsgDelay larger than max of uint32";
  do_ max_uint32 hashMsgDelay "hashMsgDelay larger than max of uint32";
  do_ max_uint32 peerHandshakeTimeout "peerHandshakeTimeout larger than max of uint32";
  do_ max_uint32 maxBlockChangeView "maxBlockChangeView larger than max of uint32";
  st_ret (mkConfig (u32 n) (u32 c) (u32 k) (u32 l) (u32 blockMsgDelay) (u32 hashMsgDelay) (u32 peerHandshakeTimeout) (u32 maxBlockChangeView)).
Definition PreConfig : ST ZeroCopySource PreConfig :=
  do config <- Configuration; do setView <- uint32_var "setView larger than max of uint32";
  st_ret (mkPreConfig (Some config) setView).
Definition GlobalParam : ST ZeroCopySource GlobalParam :=
  do candidateFee <- DecodeVarUint; do minInitStake <- DecodeVarUint; do candidateNum <- DecodeVarUint; do posLimit <- DecodeVarUint;
  do a <- DecodeVarUint; do b <- DecodeVarUint; do yita <- DecodeVarUint; do penalty <- DecodeVarUint;
  do_ max_uint32 minInitStake "minInitStake larger than max of uint32";
  do_ max_uint32 candidateNum "candidateNum larger than max of uint32";
  do_ max_uint32 posLimit "posLimit larger than max of uint32"; do_ max_uint32 a "a larger than max of uint32";
  do_ max_uint32 b "b larger than max of uint32"; do_ max_uint32 yita "yita larger than max of uint32";
  do_ max_uint32 penalty "penalty larger than max of uint32";
  st_ret (mkGlobal candidateFee (u32 minInitStake) (u32 candidateNum) (u32 posLimit) (u32 a) (u32 b) (u32 yita) (u32 penalty)).
Definition GlobalParam2 : ST ZeroCopySource GlobalParam2 :=
  do minAuthorizePos <- DecodeVarUint; do candidateFeeSplitNum <- DecodeVarUint; do dappFee <- DecodeVarUint;
  do field2 <- DecodeVarBytes; do field3 <- DecodeVarBytes; do field4 <- DecodeVarBytes; do field5 <- DecodeVarBytes;
  do field6 <- DecodeVarBytes;
  do_ max_uint32 minAuthorizePos "minAuthorizePos larger than max of uint32";
  do_ max_uint32 candidateFeeSplitNum "candidateFeeSplitNum larger than max of uint32";
  do_ st_guard (negb (minAuthorizePos =? 0)) "globalParam2.MinAuthorizePos can not be 0";
  do_ st_guard (negb (100 <? dappFee)) "globalParam2.DappFee must <= 100";
  st_ret (mkGlobal2 (u32 minAuthorizePos) (u32 candidateFeeSplitNum) (u32 dappFee) field2 field3 field4 field5 field6).
(** The length of the curve is not tested here. *)
Definition SplitCurve : ST ZeroCopySource SplitCurve :=
  do n <- DecodeVarUint; do yi <- read_list (uint32_var "yi larger than max of uint32") n; st_ret (mkCurve yi).
Definition AddressParam : ST ZeroCopySource AddressParam := do address <- DecodeAddress; st_ret (mkAddressParam address).
Definition PeerNumberParam (e : gerror) : ST ZeroCopySource PeerNumberParam :=
  do peerPubkey <- DecodeString; do address <- DecodeAddress; do v <- uint32_var e; st_ret (mkPeerNumber peerPubkey address v).
Definition PromisePos : ST ZeroCopySource PromisePos :=
  do peerPubkey <- DecodeString; do promisePos <- DecodeVarUint; st_ret (mkPromise peerPubkey promisePos).

(** Types of equal layout. *)
Definition UnRegisterCandidateParam := PeerAddressParam.
Definition QuitNodeParam := PeerAddressParam.
Definition TransferPenaltyParam := PeerAddressParam.
Definition ApproveCandidateParam := PeerParam.
Definition RejectCandidateParam := PeerParam.
Definition WhiteNodeParam := PeerParam.
Definition AuthorizeForPeerParam := PosListParam next_string.
Definition WithdrawParam := PosListParam DecodeString.
Definition WithdrawOngParam := AddressParam.
Definition WithdrawFeeParam := AddressParam.
Definition GasAddress := AddressParam.
Definition ChangeMaxAuthorizationParam := PeerNumberParam "peerCost larger than max of uint32".
Definition SetPeerCostParam := PeerNumberParam "peerCost larger than max of uint32".
Definition ChangeInitPosParam := PeerNumberParam "pos larger than max of uint32".

End Gdes.
