(* ===== verification/GovState.v ===== *)
(** * State of the governance contract

    [smartcontract/service/native/governance/utils.go].  The contract keeps its tables in
    the storage of the chain under keys that start with its address; each table is a field
    of [Gov], from the rest of the key to the value ([GovCodec.v] shows that the encodings
    of the values are faithful).  The other contracts, the transaction and the block are behind [NativeEnv]. *)

From S2P Require Import Prelude Codec BigInt MemDb NativeData LedgerTypes NativeService OntOng GovData.

(** ** [hex.DecodeString] *)

(** Digits of either case. *)
Definition fromHexChar (c : byte) : option Z :=
  let v := bz c in
  if (48 <=? v) && (v <=? 57) then Some (v - 48)
  else if (97 <=? v) && (v <=? 102) then Some (v - 97 + 10)
  else if (65 <=? v) && (v <=? 70) then Some (v - 65 + 10)
  else None.

Fixpoint hex_DecodeString (s : list byte) : res (list byte) :=
  match s with
  | [] => Ok []
  | [p] => match fromHexChar p with Some _ => Err "encoding/hex: odd length hex string" | None => Err "encoding/hex: invalid byte" end
  | p :: q :: s' =>
      match fromHexChar p, fromHexChar q with
      | Some a, Some b => let* r := hex_DecodeString s' in Ok (zb (a * 16 + b) :: r)
      | _, _ => Err "encoding/hex: invalid byte"
      end
  end.

(** ** The tables *)

(** [SerializeToBytes] then [Deserialization]: what a later read of a value gives.  The two tables
    whose encoding loses values ([EncodeVarUint] of [2^63] or more) hold this. *)
Definition read_back {A} (ser : A -> ST ZeroCopySink unit) (des : ST ZeroCopySource A) (a : A) : res A :=
  let* '(_, s) := ser a (Sink.NewZeroCopySink None) in decode des (Sink.Bytes s).

Record Gov := mkGov {
  t_globalParam : option (res GlobalParam);                 (* GLOBAL_PARAM *)
  t_globalParam2 : option GlobalParam2;                     (* GLOBAL_PARAM2 *)
  t_config : option Configuration;                          (* VBFT_CONFIG *)
  t_preConfig : option PreConfig;                           (* PRE_CONFIG *)
  t_view : option GovernanceView;                           (* GOVERNANCE_VIEW *)
  t_candidateIndex : option Z;                              (* CANDIDITE_INDEX *)
  t_peerPool : gmap Z PeerPoolMap;                          (* PEER_POOL, view *)
  t_peerIndex : gmap (list byte) Z;                         (* PEER_INDEX, key of the peer *)
  t_blackList : gmap (list byte) BlackListItem;             (* BLACK_LIST, key of the peer *)
  t_totalStake : gmap Address TotalStake;                   (* TOTAL_STAKE, address *)
  t_penaltyStake : gmap (list byte) PenaltyStake;           (* PENALTY_STAKE, key of the peer *)
  t_splitCurve : option SplitCurve;                         (* SPLIT_CURVE *)
  t_peerAttributes : gmap (list byte) PeerAttributes;       (* PEER_ATTRIBUTES, key of the peer *)
  t_splitFee : option Z;                                    (* SPLIT_FEE *)
  t_splitFeeAddress : gmap Address SplitFeeAddress;         (* SPLIT_FEE_ADDRESS, address *)
  t_promisePos : gmap (list byte) (res PromisePos);         (* PROMISE_POS, key of the peer *)
  t_gasAddress : option AddressParam;                       (* GAS_ADDRESS *)
  t_authorizeInfo : gmap (list byte) AuthorizeInfo          (* AUTHORIZE_INFO_POOL, key of the peer ++ address *)
}.

(** What the contract uses of its environment: [native.NativeCall], the block and the
    transaction, the witnesses, and the operator kept by the parameter contract
    ([global_params.GetStorageRole] of [GenerateOperatorKey]). *)
Class NativeEnv (T : Type) := {
  ne_NativeCall : Address -> string -> list byte -> T -> res (list byte * T);
  ne_Height : T -> Z;
  ne_Time : T -> Z;
  ne_TxHash : T -> list byte;
  ne_Input : T -> list byte;
  ne_Contract : T -> Address;
  ne_CheckWitness : Address -> T -> bool;
  ne_Operator : T -> res Address
}.

(** [vrf.ValidatePublicKey] of a key parsed by [keypair.DeserializePublicKey]: third-party code.  The
    first bytes of a serialised key fix its length, so no valid key is the beginning of another. *)
Class PeerKeys := {
  valid_vrf_key : list byte -> bool;
  valid_prefix_free a b : valid_vrf_key a = true -> valid_vrf_key (a ++ b) = true -> b = []
}.

Definition GovernanceContractAddress : Address := repeat x00 19 ++ [x07].
Definition AuthContractAddress : Address := repeat x00 19 ++ [x06].

Section State.
Context {T : Type} `{HT : NativeEnv T} `{HK : PeerKeys}.

Record GS := mkGS { gov : Gov; env : T }.
Definition GM := ST GS.

Definition gets {A} (f : Gov -> A) : GM A := fun s => Ok (f (gov s), s).
Definition sets (f : Gov -> Gov) : GM unit := fun s => Ok ((), mkGS (f (gov s)) (env s)).
Definition asks {A} (f : T -> A) : GM A := fun s => Ok (f (env s), s).
(** A value that must be there. *)
Definition found {A} (v : option A) (e : gerror) : GM A := match v with Some a => st_ret a | None => st_err e end.

Definition gov_input {A} (p : ST ZeroCopySource A) : GM A := do i <- asks ne_Input; st_lift (decode p i).

(** [utils.ValidateOwner] *)
Definition ValidateOwner (address : Address) : GM unit :=
  do ok <- asks (ne_CheckWitness address); st_guard ok "validateOwner, authentication failed!".
(** The operator read from the parameter contract, which must have signed. *)
Definition check_operator : GM unit := do r <- asks ne_Operator; do adminAddress <- st_lift r; ValidateOwner adminAddress.

Definition hex_key (peerPubkey : PubKey) : GM (list byte) := st_lift (hex_DecodeString peerPubkey).

(** *** Access to the tables *)

Definition GetPeerPoolMap (view : Z) : GM PeerPoolMap :=
  do t <- gets t_peerPool; found (t !! view) "getPeerPoolMap, peerPoolMap is nil".
Definition upd_peerPool f g := mkGov (t_globalParam g) (t_globalParam2 g) (t_config g) (t_preConfig g) (t_view g) (t_candidateIndex g)
  (f (t_peerPool g)) (t_peerIndex g) (t_blackList g) (t_totalStake g) (t_penaltyStake g) (t_splitCurve g) (t_peerAttributes g)
  (t_splitFee g) (t_splitFeeAddress g) (t_promisePos g) (t_gasAddress g) (t_authorizeInfo g).
Definition putPeerPoolMap (view : Z) (peerPoolMap : PeerPoolMap) : GM unit := sets (upd_peerPool (insert view peerPoolMap)).
Definition deletePeerPoolMap (view : Z) : GM unit := sets (upd_peerPool (delete view)).

Definition GetGovernanceView : GM GovernanceView :=
  do v <- gets t_view; found v "getGovernanceView, get nil governanceViewBytes".
Definition upd_view v g := mkGov (t_globalParam g) (t_globalParam2 g) (t_config g) (t_preConfig g) (Some v) (t_candidateIndex g)
  (t_peerPool g) (t_peerIndex g) (t_blackList g) (t_totalStake g) (t_penaltyStake g) (t_splitCurve g) (t_peerAttributes g)
  (t_splitFee g) (t_splitFeeAddress g) (t_promisePos g) (t_gasAddress g) (t_authorizeInfo g).
Definition putGovernanceView (governanceView : GovernanceView) : GM unit := sets (upd_view governanceView).
Definition GetView : GM Z := do governanceView <- GetGovernanceView; st_ret (View governanceView).

Definition getGlobalParam : GM GlobalParam :=
  do v <- gets t_globalParam; do r <- found v "getGlobalParam, get nil globalParamBytes"; st_lift r.
Definition upd_globalParam v g := mkGov (Some v) (t_globalParam2 g) (t_config g) (t_preConfig g) (t_view g) (t_candidateIndex g)
  (t_peerPool g) (t_peerIndex g) (t_blackList g) (t_totalStake g) (t_penaltyStake g) (t_splitCurve g) (t_peerAttributes g)
  (t_splitFee g) (t_splitFeeAddress g) (t_promisePos g) (t_gasAddress g) (t_authorizeInfo g).
Definition putGlobalParam (globalParam : GlobalParam) : GM unit :=
  sets (upd_globalParam (read_back Gser.GlobalParam Gdes.GlobalParam globalParam)).

(** Without a stored value the parameters have defaults. *)
Definition getGlobalParam2 : GM GlobalParam2 :=
  do globalParam <- getGlobalParam;
  do v <- gets t_globalParam2;
  st_ret (default (mkGlobal2 500 (CandidateNum globalParam) 0 [] [] [] [] []) v).
Definition upd_globalParam2 v g := mkGov (t_globalParam g) (Some v) (t_config g) (t_preConfig g) (t_view g) (t_candidateIndex g)
  (t_peerPool g) (t_peerIndex g) (t_blackList g) (t_totalStake g) (t_penaltyStake g) (t_splitCurve g) (t_peerAttributes g)
  (t_splitFee g) (t_splitFeeAddress g) (t_promisePos g) (t_gasAddress g) (t_authorizeInfo g).
(** [Serialization] refuses two values. *)
Definition putGlobalParam2 (globalParam2 : GlobalParam2) : GM unit :=
  do_ st_guard (negb (MinAuthorizePos globalParam2 =? 0)) "globalParam2.MinAuthorizePos can not be 0";
  do_ st_guard (negb (100 <? DappFee globalParam2)) "globalParam2.DappFee must <= 100";
  sets (upd_globalParam2 globalParam2).

Definition getConfig : GM Configuration := do v <- gets t_config; found v "getConfig, configBytes is nil".
Definition upd_config v g := mkGov (t_globalParam g) (t_globalParam2 g) (Some v) (t_preConfig g) (t_view g) (t_candidateIndex g)
  (t_peerPool g) (t_peerIndex g) (t_blackList g) (t_totalStake g) (t_penaltyStake g) (t_splitCurve g) (t_peerAttributes g)
  (t_splitFee g) (t_splitFeeAddress g) (t_promisePos g) (t_gasAddress g) (t_authorizeInfo g).
(** The argument is a pointer: nil panics in [Serialization]. *)
Definition putConfig (config : option Configuration) : GM unit :=
  match config with Some c => sets (upd_config c) | None => st_panic end.

Definition getPreConfig : GM PreConfig := do v <- gets t_preConfig; st_ret (default (mkPreConfig None 0) v).
Definition upd_preConfig v g := mkGov (t_globalParam g) (t_globalParam2 g) (t_config g) (Some v) (t_view g) (t_candidateIndex g)
  (t_peerPool g) (t_peerIndex g) (t_blackList g) (t_totalStake g) (t_penaltyStake g) (t_splitCurve g) (t_peerAttributes g)
  (t_splitFee g) (t_splitFeeAddress g) (t_promisePos g) (t_gasAddress g) (t_authorizeInfo g).
Definition putPreConfig (preConfig : PreConfig) : GM unit :=
  match pc_Configuration preConfig with Some _ => sets (upd_preConfig preConfig) | None => st_panic end.

Definition getCandidateIndex : GM Z := do v <- gets t_candidateIndex; found v "getCandidateIndex, candidateIndex is not init".
Definition upd_candidateIndex v g := mkGov (t_globalParam g) (t_globalParam2 g) (t_config g) (t_preConfig g) (t_view g) (Some v)
  (t_peerPool g) (t_peerIndex g) (t_blackList g) (t_totalStake g) (t_penaltyStake g) (t_splitCurve g) (t_peerAttributes g)
  (t_splitFee g) (t_splitFeeAddress g) (t_promisePos g) (t_gasAddress g) (t_authorizeInfo g).
Definition putCandidateIndex (candidateIndex : Z) : GM unit := sets (upd_candidateIndex candidateIndex).

Definition upd_peerIndex f g := mkGov (t_globalParam g) (t_globalParam2 g) (t_config g) (t_preConfig g) (t_view g) (t_candidateIndex g)
  (t_peerPool g) (f (t_peerIndex g)) (t_blackList g) (t_totalStake g) (t_penaltyStake g) (t_splitCurve g) (t_peerAttributes g)
  (t_splitFee g) (t_splitFeeAddress g) (t_promisePos g) (t_gasAddress g) (t_authorizeInfo g).
Definition upd_blackList f g := mkGov (t_globalParam g) (t_globalParam2 g) (t_config g) (t_preConfig g) (t_view g) (t_candidateIndex g)
  (t_peerPool g) (t_peerIndex g) (f (t_blackList g)) (t_totalStake g) (t_penaltyStake g) (t_splitCurve g) (t_peerAttributes g)
  (t_splitFee g) (t_splitFeeAddress g) (t_promisePos g) (t_gasAddress g) (t_authorizeInfo g).

Definition getSplitFee : GM Z := do v <- gets t_splitFee; st_ret (default 0 v).
Definition upd_splitFee v g := mkGov (t_globalParam g) (t_globalParam2 g) (t_config g) (t_preConfig g) (t_view g) (t_candidateIndex g)
  (t_peerPool g) (t_peerIndex g) (t_blackList g) (t_totalStake g) (t_penaltyStake g) (t_splitCurve g) (t_peerAttributes g)
  (Some v) (t_splitFeeAddress g) (t_promisePos g) (t_gasAddress g) (t_authorizeInfo g).
Definition putSplitFee (splitFee : Z) : GM unit := sets (upd_splitFee splitFee).

Definition getSplitFeeAddress (address : Address) : GM SplitFeeAddress :=
  do t <- gets t_splitFeeAddress; st_ret (default (mkSplitFee address 0) (t !! address)).
Definition upd_splitFeeAddress f g := mkGov (t_globalParam g) (t_globalParam2 g) (t_config g) (t_preConfig g) (t_view g) (t_candidateIndex g)
  (t_peerPool g) (t_peerIndex g) (t_blackList g) (t_totalStake g) (t_penaltyStake g) (t_splitCurve g) (t_peerAttributes g)
  (t_splitFee g) (f (t_splitFeeAddress g)) (t_promisePos g) (t_gasAddress g) (t_authorizeInfo g).
Definition putSplitFeeAddress (address : Address) (splitFeeAddress : SplitFeeAddress) : GM unit :=
  sets (upd_splitFeeAddress (insert address splitFeeAddress)).

Definition getAuthorizeInfo (peerPubkey : PubKey) (address : Address) : GM AuthorizeInfo :=
  do peerPubkeyPrefix <- hex_key peerPubkey;
  do t <- gets t_authorizeInfo;
  st_ret (default (mkAuth peerPubkey address 0 0 0 0 0 0) (t !! (peerPubkeyPrefix ++ address))).
Definition upd_authorizeInfo f g := mkGov (t_globalParam g) (t_globalParam2 g) (t_config g) (t_preConfig g) (t_view g) (t_candidateIndex g)
  (t_peerPool g) (t_peerIndex g) (t_blackList g) (t_totalStake g) (t_penaltyStake g) (t_splitCurve g) (t_peerAttributes g)
  (t_splitFee g) (t_splitFeeAddress g) (t_promisePos g) (t_gasAddress g) (f (t_authorizeInfo g)).
Definition putAuthorizeInfo (authorizeInfo : AuthorizeInfo) : GM unit :=
  do peerPubkeyPrefix <- hex_key (ai_PeerPubkey authorizeInfo);
  sets (upd_authorizeInfo (insert (peerPubkeyPrefix ++ ai_Address authorizeInfo) authorizeInfo)).

(** [CacheDB.NewIterator] over a prefix of the pool: the values in the order of their keys.
    The loops that use it write only under the key they stand at and outside the pool, so the
    values are those of the start. *)
Definition is_prefix (p k : list byte) : bool := bool_decide (take (length p) k = p).
Definition iterate (peerPubkeyPrefix : list byte) (t : gmap (list byte) AuthorizeInfo) : list AuthorizeInfo :=
  (sort_stable (fun x y => bytes_Compare x.1 y.1 <? 0)
     (filter (fun x => is_prefix peerPubkeyPrefix x.1 = true) (map_to_list t))).*2.

Definition getPenaltyStake (peerPubkey : PubKey) : GM PenaltyStake :=
  do peerPubkeyPrefix <- hex_key peerPubkey;
  do t <- gets t_penaltyStake;
  st_ret (default (mkPenalty peerPubkey 0 0 0 0) (t !! peerPubkeyPrefix)).
Definition upd_penaltyStake f g := mkGov (t_globalParam g) (t_globalParam2 g) (t_config g) (t_preConfig g) (t_view g) (t_candidateIndex g)
  (t_peerPool g) (t_peerIndex g) (t_blackList g) (t_totalStake g) (f (t_penaltyStake g)) (t_splitCurve g) (t_peerAttributes g)
  (t_splitFee g) (t_splitFeeAddress g) (t_promisePos g) (t_gasAddress g) (t_authorizeInfo g).
Definition putPenaltyStake (penaltyStake : PenaltyStake) : GM unit :=
  do peerPubkeyPrefix <- hex_key (ps_PeerPubkey penaltyStake);
  sets (upd_penaltyStake (insert peerPubkeyPrefix penaltyStake)).

Definition getTotalStake (address : Address) : GM TotalStake :=
  do t <- gets t_totalStake; st_ret (default (mkTotal address 0 0) (t !! address)).
Definition upd_totalStake f g := mkGov (t_globalParam g) (t_globalParam2 g) (t_config g) (t_preConfig g) (t_view g) (t_candidateIndex g)
  (t_peerPool g) (t_peerIndex g) (t_blackList g) (f (t_totalStake g)) (t_penaltyStake g) (t_splitCurve g) (t_peerAttributes g)
  (t_splitFee g) (t_splitFeeAddress g) (t_promisePos g) (t_gasAddress g) (t_authorizeInfo g).
Definition putTotalStake (totalStake : TotalStake) : GM unit := sets (upd_totalStake (insert (ts_Address totalStake) totalStake)).

Definition getSplitCurve : GM SplitCurve := do v <- gets t_splitCurve; found v "getSplitCurve, get nil splitCurveBytes".
Definition upd_splitCurve v g := mkGov (t_globalParam g) (t_globalParam2 g) (t_config g) (t_preConfig g) (t_view g) (t_candidateIndex g)
  (t_peerPool g) (t_peerIndex g) (t_blackList g) (t_totalStake g) (t_penaltyStake g) (Some v) (t_peerAttributes g)
  (t_splitFee g) (t_splitFeeAddress g) (t_promisePos g) (t_gasAddress g) (t_authorizeInfo g).
Definition putSplitCurve (splitCurve : SplitCurve) : GM unit :=
  do_ st_guard (zlen (Yi splitCurve) =? 101) "length of split curve != 101"; sets (upd_splitCurve splitCurve).

Definition getPeerAttributes (peerPubkey : PubKey) : GM PeerAttributes :=
  do peerPubkeyPrefix <- hex_key peerPubkey;
  do t <- gets t_peerAttributes;
  st_ret (default (mkAttr peerPubkey 0 100 100 100 [] [] [] []) (t !! peerPubkeyPrefix)).
Definition upd_peerAttributes f g := mkGov (t_globalParam g) (t_globalParam2 g) (t_config g) (t_preConfig g) (t_view g) (t_candidateIndex g)
  (t_peerPool g) (t_peerIndex g) (t_blackList g) (t_totalStake g) (t_penaltyStake g) (t_splitCurve g) (f (t_peerAttributes g))
  (t_splitFee g) (t_splitFeeAddress g) (t_promisePos g) (t_gasAddress g) (t_authorizeInfo g).
Definition getPeerCost (peerPubkey : PubKey) : GM Z :=
  do peerAttributes <- getPeerAttributes peerPubkey; st_ret (TPeerCost peerAttributes).
Definition putPeerAttributes (peerAttributes : PeerAttributes) : GM unit :=
  do peerPubkeyPrefix <- hex_key (pa_PeerPubkey peerAttributes);
  sets (upd_peerAttributes (insert peerPubkeyPrefix peerAttributes)).

(** A missing value fails: its bytes do not deserialise. *)
Definition getPromisePos (peerPubkey : PubKey) : GM PromisePos :=
  do peerPubkeyPrefix <- hex_key peerPubkey;
  do t <- gets t_promisePos;
  do r <- found (t !! peerPubkeyPrefix) "get value from promisePosBytes err";
  st_lift r.
Definition upd_promisePos f g := mkGov (t_globalParam g) (t_globalParam2 g) (t_config g) (t_preConfig g) (t_view g) (t_candidateIndex g)
  (t_peerPool g) (t_peerIndex g) (t_blackList g) (t_totalStake g) (t_penaltyStake g) (t_splitCurve g) (t_peerAttributes g)
  (t_splitFee g) (t_splitFeeAddress g) (f (t_promisePos g)) (t_gasAddress g) (t_authorizeInfo g).
Definition putPromisePos (promisePos : PromisePos) : GM unit :=
  do peerPubkeyPrefix <- hex_key (pm_PeerPubkey promisePos);
  sets (upd_promisePos (insert peerPubkeyPrefix (read_back Gser.PromisePos Gdes.PromisePos promisePos))).

Definition getGasAddress : GM AddressParam := do v <- gets t_gasAddress; st_ret (default (mkAddressParam ADDRESS_EMPTY) v).
Definition upd_gasAddress v g := mkGov (t_globalParam g) (t_globalParam2 g) (t_config g) (t_preConfig g) (t_view g) (t_candidateIndex g)
  (t_peerPool g) (t_peerIndex g) (t_blackList g) (t_totalStake g) (t_penaltyStake g) (t_splitCurve g) (t_peerAttributes g)
  (t_splitFee g) (t_splitFeeAddress g) (t_promisePos g) (Some v) (t_authorizeInfo g).
Definition putGasAddress (gasAddress : AddressParam) : GM unit := sets (upd_gasAddress gasAddress).

(** *** Calls of other contracts *)

Definition native_call (contract : Address) (method : string) (args : res (list byte)) : GM (list byte) :=
  do a <- st_lift args;
  fun s => match ne_NativeCall contract method a (env s) with
           | Ok (r, e) => Ok (r, mkGS (gov s) e)
           | Err e => Err e
           | Panic => Panic
           end.

Definition appCallTransfer (contract from to : Address) (amount : Z) : GM unit :=
  do_ native_call contract "transfer" (SerializeToBytes (mkTransfers [mkState from to amount])); st_ret ().
Definition appCallTransferOnt (from to : Address) (amount : Z) : GM unit := appCallTransfer OntContractAddress from to amount.
Definition appCallTransferOng (from to : Address) (amount : Z) : GM unit := appCallTransfer OngContractAddress from to amount.

Definition appCallTransferFrom (contract sender from to : Address) (amount : Z) : GM unit :=
  do_ native_call contract "transferFrom" (SerializeToBytes (mkTF sender from to amount)); st_ret ().
Definition appCallTransferFromOnt (sender from to : Address) (amount : Z) : GM unit :=
  appCallTransferFrom OntContractAddress sender from to amount.
Definition appCallTransferFromOng (sender from to : Address) (amount : Z) : GM unit :=
  appCallTransferFrom OngContractAddress sender from to amount.

(** [sink.Bytes()] of a fresh sink after [write]. *)
Definition sink_bytes_of (write : ST ZeroCopySink unit) : res (list byte) :=
  let* '(_, s) := write (Sink.NewZeroCopySink None) in Ok (Sink.Bytes s).

(** [big.Int.Uint64] keeps the low 64 bits of the absolute value. *)
Definition getOngBalance (address : Address) : GM Z :=
  do value <- native_call OngContractAddress "balanceOf" (sink_bytes_of (do_ EncodeAddress address; st_ret ()));
  st_ret (u64 (Z.abs (BigIntFromNeoBytes value))).

(** [auth.InitContractAdminParam] and [auth.VerifyTokenParam]. *)
Definition appCallInitContractAdmin (adminOntID : list byte) : GM unit :=
  do_ native_call AuthContractAddress "initContractAdmin" (sink_bytes_of (do_ EncodeVarBytes adminOntID; st_ret ())); st_ret ().
Definition appCallVerifyToken (contract : Address) (caller : list byte) (fn : string) (keyNo : Z) : GM unit :=
  do ok <- native_call AuthContractAddress "verifyToken" (sink_bytes_of
       (do_ EncodeAddress contract; do_ EncodeVarBytes caller; do_ EncodeString (bytes_of fn); do_ EncodeVarUint keyNo; st_ret ()));
  st_guard (bool_decide (ok = BYTE_TRUE)) "appCallVerifyToken, verifyToken failed".

(** [vbftconfig.Pubkey] and [vrf.ValidatePublicKey]. *)
Definition validatePeerPubKeyFormat (pubkey : PubKey) : res unit :=
  let* pk := hex_DecodeString pubkey in guard (valid_vrf_key pk) "invalid for VRF".

End State.
