(* ===== verification/GovStake.v ===== *)
(** * Stakes of the governance contract

    [smartcontract/service/native/governance/method.go], lines 33 to 670: registering a
    candidate, authorising a peer, the steps of an authorisation at the end of an epoch,
    the quitting of a peer, and the total and penalty stakes. *)

From S2P Require Import Prelude Codec BigInt NativeData LedgerTypes NativeService OntOng GovData GovState.

(** ** The steps of one authorisation *)

(** Every amount of an authorisation: what the contract holds for the address at this peer. *)
Definition all_pos (i : AuthorizeInfo) : Z :=
  ConsensusPos i + CandidatePos i + NewPos i + WithdrawConsensusPos i + WithdrawCandidatePos i + WithdrawUnfreezePos i.

(** The body of the loop of [normalQuit]; [flag] records that the owner has an entry. *)
Definition quit_info (peerPoolItem : PeerPoolItem) (i : AuthorizeInfo) : AuthorizeInfo :=
  let unfreeze := u64 (u64 (u64 (u64 (u64 (ConsensusPos i + CandidatePos i) + NewPos i) + WithdrawConsensusPos i) +
                            WithdrawCandidatePos i) + WithdrawUnfreezePos i) in
  let unfreeze := if bool_decide (ai_Address i = pp_Address peerPoolItem) then u64 (unfreeze + pp_InitPos peerPoolItem) else unfreeze in
  mkAuth (ai_PeerPubkey i) (ai_Address i) 0 0 0 0 0 unfreeze.

(** The body of the loop of [blackQuit]: the penalty and the authorisation left. *)
Definition black_info (globalParam : GlobalParam) (i : AuthorizeInfo) : Z * AuthorizeInfo :=
  let total := u64 (u64 (u64 (u64 (ConsensusPos i + CandidatePos i) + NewPos i) + WithdrawConsensusPos i) + WithdrawCandidatePos i) in
  let penalty := u64 (u64 (Penalty globalParam * total) + 99) / 100 in
  (penalty, mkAuth (ai_PeerPubkey i) (ai_Address i) 0 0 0 0 0 (u64 (u64 (total - penalty) + WithdrawUnfreezePos i))).

Definition c2c_info (i : AuthorizeInfo) : res AuthorizeInfo :=
  let* _ := guard (CandidatePos i =? 0) "commitPos, candidatePos should be 0" in
  Ok (mkAuth (ai_PeerPubkey i) (ai_Address i) (u64 (ConsensusPos i + NewPos i)) (CandidatePos i) 0
        0 (WithdrawConsensusPos i) (u64 (WithdrawUnfreezePos i + WithdrawCandidatePos i))).

Definition u2c_info (i : AuthorizeInfo) : res AuthorizeInfo :=
  let* _ := guard (ConsensusPos i =? 0) "commitPos, consensusPos should be 0" in
  Ok (mkAuth (ai_PeerPubkey i) (ai_Address i) (u64 (u64 (ConsensusPos i + CandidatePos i) + NewPos i)) 0 0
        0 (WithdrawConsensusPos i) (u64 (WithdrawUnfreezePos i + WithdrawCandidatePos i))).

Definition c2u_info (i : AuthorizeInfo) : res AuthorizeInfo :=
  let* _ := guard (CandidatePos i =? 0) "commitPos, candidatePos should be 0" in
  Ok (mkAuth (ai_PeerPubkey i) (ai_Address i) 0 (u64 (ConsensusPos i + NewPos i)) 0
        0 (WithdrawConsensusPos i) (u64 (WithdrawUnfreezePos i + WithdrawCandidatePos i))).

Definition u2u_info (i : AuthorizeInfo) : res AuthorizeInfo :=
  let* _ := guard (ConsensusPos i =? 0) "commitPos, consensusPos should be 0" in
  Ok (mkAuth (ai_PeerPubkey i) (ai_Address i) (ConsensusPos i) (u64 (NewPos i + CandidatePos i)) 0
        0 (WithdrawConsensusPos i) (u64 (WithdrawUnfreezePos i + WithdrawCandidatePos i))).

Section Stakes.
Context {T : Type} `{HT : NativeEnv T} `{HK : PeerKeys}.
Local Notation GM := (@GM T).

(** ** Total and penalty stakes *)

Definition time_offset : GM Z := do time <- asks ne_Time; st_ret (u32 (time - GENESIS_BLOCK_TIMESTAMP)).

Definition depositTotalStake (address : Address) (stake : Z) : GM unit :=
  do totalStake <- getTotalStake address;
  let preStake := Stake totalStake in
  let preTimeOffset := ts_TimeOffset totalStake in
  do timeOffset <- time_offset;
  do amount <- st_lift (CalcUnbindOng preStake preTimeOffset timeOffset);
  do_ appCallTransferFromOng GovernanceContractAddress OntContractAddress (ts_Address totalStake) amount;
  putTotalStake (mkTotal (ts_Address totalStake) (u64 (preStake + stake)) timeOffset).

Definition withdrawTotalStake (address : Address) (stake : Z) : GM unit :=
  do totalStake <- getTotalStake address;
  do_ st_guard (negb (Stake totalStake <? stake)) "withdraw, ont deposit is not enough";
  let preStake := Stake totalStake in
  let preTimeOffset := ts_TimeOffset totalStake in
  do timeOffset <- time_offset;
  do amount <- st_lift (CalcUnbindOng preStake preTimeOffset timeOffset);
  do_ appCallTransferFromOng GovernanceContractAddress OntContractAddress (ts_Address totalStake) amount;
  putTotalStake (mkTotal (ts_Address totalStake) (u64 (preStake - stake)) timeOffset).

Definition depositPenaltyStake (peerPubkey : PubKey) (initPos authorizePos : Z) : GM unit :=
  do penaltyStake <- getPenaltyStake peerPubkey;
  let preInitPos := ps_InitPos penaltyStake in
  let preAuthorizePos := ps_AuthorizePos penaltyStake in
  let preStake := u64 (preInitPos + preAuthorizePos) in
  do timeOffset <- time_offset;
  do amount <- st_lift (CalcUnbindOng preStake (ps_TimeOffset penaltyStake) timeOffset);
  putPenaltyStake (mkPenalty (ps_PeerPubkey penaltyStake) (u64 (preInitPos + initPos)) (u64 (preAuthorizePos + authorizePos))
    timeOffset (u64 (ps_Amount penaltyStake + amount))).

Definition withdrawPenaltyStake (peerPubkey : PubKey) (address : Address) : GM unit :=
  do penaltyStake <- getPenaltyStake peerPubkey;
  let preStake := u64 (ps_InitPos penaltyStake + ps_AuthorizePos penaltyStake) in
  do timeOffset <- time_offset;
  do amount <- st_lift (CalcUnbindOng preStake (ps_TimeOffset penaltyStake) timeOffset);
  do_ appCallTransferOnt GovernanceContractAddress address preStake;
  do_ appCallTransferFromOng GovernanceContractAddress OntContractAddress address (u64 (amount + ps_Amount penaltyStake));
  do peerPubkeyPrefix <- hex_key peerPubkey;
  sets (upd_penaltyStake (delete peerPubkeyPrefix)).

(** ** Loops over the authorisations of a peer *)

Definition authorizations (peerPoolItem : PeerPoolItem) : GM (list AuthorizeInfo) :=
  do peerPubkeyPrefix <- hex_key (pp_PeerPubkey peerPoolItem);
  do t <- gets t_authorizeInfo;
  st_ret (iterate peerPubkeyPrefix t).

Fixpoint quit_loop (peerPoolItem : PeerPoolItem) (l : list AuthorizeInfo) (flag : bool) : GM bool :=
  match l with
  | [] => st_ret flag
  | i :: l =>
      do_ putAuthorizeInfo (quit_info peerPoolItem i);
      quit_loop peerPoolItem l (flag || bool_decide (ai_Address i = pp_Address peerPoolItem))
  end.

Definition normalQuit (peerPoolItem : PeerPoolItem) : GM unit :=
  do l <- authorizations peerPoolItem;
  do flag <- quit_loop peerPoolItem l false;
  if negb flag then
    putAuthorizeInfo (mkAuth (pp_PeerPubkey peerPoolItem) (pp_Address peerPoolItem) 0 0 0 0 0 (pp_InitPos peerPoolItem))
  else st_ret ().

Fixpoint black_loop (globalParam : GlobalParam) (l : list AuthorizeInfo) (authorizePos : Z) : GM Z :=
  match l with
  | [] => st_ret authorizePos
  | i :: l =>
      let '(penalty, i') := black_info globalParam i in
      do_ putAuthorizeInfo i';
      do_ withdrawTotalStake (ai_Address i) penalty;
      black_loop globalParam l (u64 (authorizePos + penalty))
  end.

Definition blackQuit (peerPoolItem : PeerPoolItem) : GM unit :=
  do_ appCallTransferOnt GovernanceContractAddress GovernanceContractAddress (pp_InitPos peerPoolItem);
  do_ withdrawTotalStake (pp_Address peerPoolItem) (pp_InitPos peerPoolItem);
  let initPos := pp_InitPos peerPoolItem in
  do globalParam <- getGlobalParam;
  do l <- authorizations peerPoolItem;
  do authorizePos <- black_loop globalParam l 0;
  depositPenaltyStake (pp_PeerPubkey peerPoolItem) initPos authorizePos.

(** The loop the four functions below share. *)
Fixpoint update_loop (f : AuthorizeInfo -> res AuthorizeInfo) (l : list AuthorizeInfo) : GM unit :=
  match l with
  | [] => st_ret ()
  | i :: l => do i' <- st_lift (f i); do_ putAuthorizeInfo i'; update_loop f l
  end.

Definition consensusToConsensus (peerPoolItem : PeerPoolItem) : GM unit :=
  do l <- authorizations peerPoolItem; update_loop c2c_info l.
Definition unConsensusToConsensus (peerPoolItem : PeerPoolItem) : GM unit :=
  do l <- authorizations peerPoolItem; update_loop u2c_info l.
Definition consensusToUnConsensus (peerPoolItem : PeerPoolItem) : GM unit :=
  do l <- authorizations peerPoolItem; update_loop c2u_info l.
Definition unConsensusToUnConsensus (peerPoolItem : PeerPoolItem) : GM unit :=
  do l <- authorizations peerPoolItem; update_loop u2u_info l.

(** ** Registering and authorising *)

(** The way the tokens reach the contract. *)
Inductive Flag := FlagTransfer | FlagTransferFrom.

Definition take_ont (flag : Flag) (address : Address) (amount : Z) : GM unit :=
  match flag with
  | FlagTransfer => appCallTransferOnt address GovernanceContractAddress amount
  | FlagTransferFrom => appCallTransferFromOnt GovernanceContractAddress address GovernanceContractAddress amount
  end.
Definition take_ong (flag : Flag) (address : Address) (amount : Z) : GM unit :=
  match flag with
  | FlagTransfer => appCallTransferOng address GovernanceContractAddress amount
  | FlagTransferFrom => appCallTransferFromOng GovernanceContractAddress address GovernanceContractAddress amount
  end.

Definition registerCandidate (flag : Flag) : GM unit :=
  do params <- gov_input Gdes.RegisterCandidateParam;
  do contract <- asks ne_Contract;
  do_ st_guard (negb (rc_InitPos params <? 1)) "registerCandidate, init pos must >= 1";
  do_ appCallVerifyToken contract (rc_Caller params) "registerCandidate" (rc_KeyNo params);
  do_ ValidateOwner (rc_Address params);
  do view <- GetView;
  do_ st_lift (validatePeerPubKeyFormat (rc_PeerPubkey params));
  do peerPubkeyPrefix <- hex_key (rc_PeerPubkey params);
  do blackList <- gets t_blackList;
  do_ st_guard (bool_decide (blackList !! peerPubkeyPrefix = None)) "registerCandidate, this Peer is in BlackList";
  do peerPoolMap <- GetPeerPoolMap view;
  do_ st_guard (bool_decide (peerPoolMap !! rc_PeerPubkey params = None)) "registerCandidate, peerPubkey is already in peerPoolMap";
  do_ putPeerPoolMap view (<[rc_PeerPubkey params :=
        mkPeer 0 (rc_PeerPubkey params) (rc_Address params) RegisterCandidateStatus (rc_InitPos params) 0]> peerPoolMap);
  do globalParam <- getGlobalParam;
  do_ take_ont flag (rc_Address params) (rc_InitPos params);
  do_ take_ong flag (rc_Address params) (CandidateFee globalParam);
  depositTotalStake (rc_Address params) (rc_InitPos params).

Definition is_candidate (p : PeerPoolItem) : bool := (pp_Status p =? CandidateStatus) || (pp_Status p =? ConsensusStatus).

(** One round of the loop of [authorizeForPeer]: the peers and the total after it. *)
Definition authorize_one (globalParam : GlobalParam) (globalParam2 : GlobalParam2) (address : Address)
    (peerPubkey : PubKey) (pos : Z) (peerPoolMap : PeerPoolMap) (total : Z) : GM (PeerPoolMap * Z) :=
  do_ st_guard (negb (pos <? 1)) "authorizeForPeer, pos must >= 1";
  do_ (if pos <? MinAuthorizePos globalParam2 then st_err "authorizeForPeer, pos must be times of MinAuthorizePos"
       else if MinAuthorizePos globalParam2 =? 0 then st_panic
       else st_guard (pos mod MinAuthorizePos globalParam2 =? 0) "authorizeForPeer, pos must be times of MinAuthorizePos");
  do peerPoolItem <- found (peerPoolMap !! peerPubkey) "authorizeForPeer, peerPubkey is not in peerPoolMap";
  do_ st_guard (is_candidate peerPoolItem) "authorizeForPeer, peerPubkey is not candidate and can not be authorized";
  do peerAttributes <- getPeerAttributes peerPubkey;
  do_ st_guard (negb (bool_decide (address = pp_Address peerPoolItem))) "authorizeForPeer error, address can not be node owner";
  do i <- getAuthorizeInfo peerPubkey address;
  let i' := mkAuth (ai_PeerPubkey i) (ai_Address i) (ConsensusPos i) (CandidatePos i) (u64 (NewPos i + pos))
              (WithdrawConsensusPos i) (WithdrawCandidatePos i) (WithdrawUnfreezePos i) in
  let totalPos := u64 (pp_TotalPos peerPoolItem + pos) in
  do_ st_guard (negb (u64 (PosLimit globalParam * pp_InitPos peerPoolItem) <? totalPos)) "authorizeForPeer, pos of this peer is full";
  do_ st_guard (negb (MaxAuthorize peerAttributes <? totalPos)) "authorizeForPeer, pos of this peer is more than peerAttributes.MaxAuthorize";
  do_ putAuthorizeInfo i';
  st_ret (<[peerPubkey := mkPeer (pp_Index peerPoolItem) (pp_PeerPubkey peerPoolItem) (pp_Address peerPoolItem)
             (pp_Status peerPoolItem) (pp_InitPos peerPoolItem) totalPos]> peerPoolMap, u64 (total + pos)).

(** [PosList[i]] is read for each key: a shorter list panics. *)
Fixpoint authorize_loop (globalParam : GlobalParam) (globalParam2 : GlobalParam2) (address : Address)
    (keys : list PubKey) (poss : list Z) (peerPoolMap : PeerPoolMap) (total : Z) : GM (PeerPoolMap * Z) :=
  match keys, poss with
  | [], _ => st_ret (peerPoolMap, total)
  | _ :: _, [] => st_panic
  | peerPubkey :: keys, pos :: poss =>
      do '(m, t) <- authorize_one globalParam globalParam2 address peerPubkey pos peerPoolMap total;
      authorize_loop globalParam globalParam2 address keys poss m t
  end.

Definition authorizeForPeer (flag : Flag) : GM unit :=
  do params <- gov_input Gdes.AuthorizeForPeerParam;
  do_ ValidateOwner (al_Address params);
  do view <- GetView;
  do peerPoolMap <- GetPeerPoolMap view;
  do globalParam <- getGlobalParam;
  do globalParam2 <- getGlobalParam2;
  do '(peerPoolMap, total) <- authorize_loop globalParam globalParam2 (al_Address params)
     (al_PeerPubkeyList params) (al_PosList params) peerPoolMap 0;
  do_ putPeerPoolMap view peerPoolMap;
  do_ take_ont flag (al_Address params) total;
  depositTotalStake (al_Address params) total.

End Stakes.
