(* ===== verification/GovSplit.v ===== *)
(** * Division of the fees

    [smartcontract/service/native/governance/method.go], lines 717 to 995 and 1333 to 1376, with
    [splitCurve] of [utils.go]: at the end of an epoch the ONG the contract earned is divided among the
    peers, and the share of a peer among those who authorised it. *)

From S2P Require Import Prelude Codec BigInt NativeData LedgerTypes NativeService OntOng GovData GovState GovStake.

Definition PRECISE : Z := 1000000.

Definition Xi : list Z := [
  0; 100000; 200000; 300000; 400000; 500000; 600000; 700000; 800000; 900000; 1000000; 1100000; 1200000; 1300000;
  1400000; 1500000; 1600000; 1700000; 1800000; 1900000; 2000000; 2100000; 2200000; 2300000; 2400000; 2500000;
  2600000; 2700000; 2800000; 2900000; 3000000; 3100000; 3200000; 3300000; 3400000; 3500000; 3600000; 3700000;
  3800000; 3900000; 4000000; 4100000; 4200000; 4300000; 4400000; 4500000; 4600000; 4700000; 4800000; 4900000;
  5000000; 5100000; 5200000; 5300000; 5400000; 5500000; 5600000; 5700000; 5800000; 5900000; 6000000; 6100000;
  6200000; 6300000; 6400000; 6500000; 6600000; 6700000; 6800000; 6900000; 7000000; 7100000; 7200000; 7300000;
  7400000; 7500000; 7600000; 7700000; 7800000; 7900000; 8000000; 8100000; 8200000; 8300000; 8400000; 8500000;
  8600000; 8700000; 8800000; 8900000; 9000000; 9100000; 9200000; 9300000; 9400000; 9500000; 9600000; 9700000;
  9800000; 9900000; 10000000].

(** Go's integer division, which panics on zero, and indexing of a slice. *)
Definition go_div (a b : Z) : res Z := if b =? 0 then Panic else Ok (a / b).
Definition at_index {A} (l : list A) (i : Z) : res A :=
  if i <? 0 then Panic else match l !! Z.to_nat i with Some x => Ok x | None => Panic end.

(** The arithmetic of [splitCurve], before the curve is read and after; every operation is on [uint64]. *)
Definition curve_index (pos avg yita : Z) : res (Z * Z) :=
  let* xi := go_div (u64 (u64 (u64 (PRECISE * yita) * 2) * pos)) (u64 (avg * 10)) in
  let index := xi / (PRECISE / 10) in
  let last := zlen Xi - 2 in
  let* xn := at_index Xi (zlen Xi - 1) in
  Ok (if last <? index then (last, xn) else (index, xi)).
Definition curve_point (curve : list Z) (index xi : Z) : res Z :=
  let* y0 := at_index curve index in
  let* y1 := at_index curve (index + 1) in
  let* x0 := at_index Xi index in
  let* x1 := at_index Xi (index + 1) in
  go_div (u64 (u64 (u64 (u64 (y1 * xi) + u64 (y0 * x1)) - u64 (y0 * xi)) - u64 (y1 * x0))) (u64 (x1 - x0)).

(** *** Peers in the order of their stake *)

Definition split_info (p : PeerPoolItem) : CandidateSplitInfo :=
  mkSplitInfo (pp_PeerPubkey p) (pp_Address p) (pp_InitPos p) (u64 (pp_TotalPos p + pp_InitPos p)) 0.

(** By stake, then by key, both decreasing. *)
Definition stake_less (x y : CandidateSplitInfo) : bool :=
  if cs_Stake y <? cs_Stake x then true
  else if cs_Stake x =? cs_Stake y then str_gt (cs_PeerPubkey x) (cs_PeerPubkey y) else false.

Definition split_peers {R : RangeOrder} (m : PeerPoolMap) : list CandidateSplitInfo :=
  sort_stable stake_less (map split_info (filter (fun p => is_candidate p = true) (range_of m))).

(** [for i := 0; i < K; i++ { sum += f(peers[i]) }]: a missing peer panics. *)
Definition first_peers (k : Z) (l : list CandidateSplitInfo) : res (list CandidateSplitInfo) :=
  if zlen l <? k then Panic else Ok (take (Z.to_nat k) l).
Definition sum_u64 {A} (f : A -> Z) (l : list A) : Z := foldl (fun sum x => u64 (sum + f x)) 0 l.

Section Split.
Context {T : Type} `{HT : NativeEnv T} `{HK : PeerKeys} {R : RangeOrder}.
Local Notation GM := (@GM T).

Definition splitCurve (pos avg yita : Z) : GM Z :=
  do_ st_guard (negb (avg =? 0)) "splitCurve, avg stake is 0";
  do '(index, xi) <- st_lift (curve_index pos avg yita);
  do splitCurve <- getSplitCurve;
  st_lift (curve_point (Yi splitCurve) index xi).

(** The weights of the consensus peers and their sum. *)
Fixpoint weigh (avg yita : Z) (l : list CandidateSplitInfo) (sumS : Z) : GM (list CandidateSplitInfo * Z) :=
  match l with
  | [] => st_ret ([], sumS)
  | p :: l =>
      do s <- splitCurve (cs_Stake p) avg yita;
      do '(l', sumS') <- weigh avg yita l (u64 (sumS + s));
      st_ret (mkSplitInfo (cs_PeerPubkey p) (cs_Address p) (cs_InitPos p) (cs_Stake p) s :: l', sumS')
  end.

(** *** The first division *)

(** [balance * share / 100 * weight / sum], in [uint64]. *)
Fixpoint pay_peers (balance share sum : Z) (weight : CandidateSplitInfo -> Z) (l : list CandidateSplitInfo) : GM unit :=
  match l with
  | [] => st_ret ()
  | p :: l =>
      do nodeAmount <- st_lift (go_div (u64 (u64 (balance * share) / 100 * weight p)) sum);
      do_ appCallTransferOng GovernanceContractAddress (cs_Address p) nodeAmount;
      pay_peers balance share sum weight l
  end.

Definition executeSplit (view : Z) : GM unit :=
  do config <- getConfig;
  do peerPoolMap <- GetPeerPoolMap (u32 (view - 1));
  do balance <- getOngBalance GovernanceContractAddress;
  do globalParam <- getGlobalParam;
  let peersCandidate := split_peers peerPoolMap in
  do consensus <- st_lift (first_peers (cfg_K config) peersCandidate);
  let sum := sum_u64 cs_Stake consensus in
  if sum <? cfg_K config then st_ret ()
  else
    do avg <- st_lift (go_div sum (cfg_K config));
    do '(consensus, sumS) <- weigh avg (Yita globalParam) consensus 0;
    do_ st_guard (negb (sumS =? 0)) "executeSplit, sumS is 0";
    do_ pay_peers balance (gp_A globalParam) sumS cs_S consensus;
    let candidates := drop (Z.to_nat (cfg_K config)) peersCandidate in
    let sum := sum_u64 cs_Stake candidates in
    if sum =? 0 then st_ret ()
    else pay_peers balance (gp_B globalParam) sum cs_Stake candidates.

(** *** The second division: shares are credited, and paid when they are asked for *)

Definition executeAddressSplit (i : AuthorizeInfo) (preIfConsensus ifConsensus : bool) (totalPos totalAmount : Z)
    (peerAddress : Address) : GM Z :=
  let validatePos := if ifConsensus || preIfConsensus then u64 (ConsensusPos i + WithdrawConsensusPos i)
                     else u64 (CandidatePos i + WithdrawCandidatePos i) in
  if (validatePos =? 0) || bool_decide (ai_Address i = peerAddress) then st_ret 0
  else
    do amount <- st_lift (go_div (u64 (validatePos * totalAmount)) totalPos);
    do splitFeeAddress <- getSplitFeeAddress (ai_Address i);
    do_ putSplitFeeAddress (ai_Address i) (mkSplitFee (sf_Address splitFeeAddress) (u64 (sf_Amount splitFeeAddress + amount)));
    st_ret amount.

Definition executePeerSplit (peerAddress : Address) (totalAmount : Z) : GM unit :=
  do splitFeeAddress <- getSplitFeeAddress peerAddress;
  putSplitFeeAddress peerAddress (mkSplitFee (sf_Address splitFeeAddress) (u64 (sf_Amount splitFeeAddress + totalAmount))).

Fixpoint split_loop (preIfConsensus ifConsensus : bool) (totalPos amount : Z) (peerAddress : Address) (l : list AuthorizeInfo)
    (sumAmount : Z) : GM Z :=
  match l with
  | [] => st_ret sumAmount
  | i :: l =>
      do splitAmount <- executeAddressSplit i preIfConsensus ifConsensus totalPos amount peerAddress;
      split_loop preIfConsensus ifConsensus totalPos amount peerAddress l (u64 (sumAmount + splitAmount))
  end.

Definition splitNodeFee (peerPubkey : PubKey) (peerAddress : Address) (preIfConsensus ifConsensus : bool)
    (totalPos nodeAmount : Z) : GM unit :=
  do peerPubkeyPrefix <- hex_key peerPubkey;
  do peerCost <- getPeerCost peerPubkey;
  let amount := u64 (nodeAmount * u64 (100 - peerCost)) / 100 in
  do t <- gets t_authorizeInfo;
  do sumAmount <- split_loop preIfConsensus ifConsensus totalPos amount peerAddress (iterate peerPubkeyPrefix t) 0;
  executePeerSplit peerAddress (u64 (nodeAmount - sumAmount)).

(** The shares of a list of peers, on integers without bound; a peer that is in one of the two
    maps only is dereferenced. *)
Fixpoint credit_peers (peerPoolMap currentPeerPoolMap : PeerPoolMap) (nodeIncome share sum : Z)
    (weight : CandidateSplitInfo -> Z) (l : list CandidateSplitInfo) (splitSum : Z) : GM Z :=
  match l with
  | [] => st_ret splitSum
  | p :: l =>
      do nodeAmount <- st_lift (go_div (nodeIncome * share / 100 * weight p) sum);
      match peerPoolMap !! cs_PeerPubkey p, currentPeerPoolMap !! cs_PeerPubkey p with
      | Some pre, Some cur =>
          do_ splitNodeFee (cs_PeerPubkey p) (cs_Address p) (pp_Status pre =? ConsensusStatus) (pp_Status cur =? ConsensusStatus)
                (pp_TotalPos pre) (u64 nodeAmount);
          credit_peers peerPoolMap currentPeerPoolMap nodeIncome share sum weight l (u64 (splitSum + u64 nodeAmount))
      | _, _ => st_panic
      end
  end.

Definition executeSplit2 (view : Z) : GM Z :=
  do config <- getConfig;
  do globalParam2 <- getGlobalParam2;
  do peerPoolMap <- GetPeerPoolMap (u32 (view - 1));
  do currentPeerPoolMap <- GetPeerPoolMap view;
  do balance <- getOngBalance GovernanceContractAddress;
  do splitFee <- getSplitFee;
  if balance <? splitFee then st_panic
  else
    let income := u64 (balance - splitFee) in
    let dappIncome := income * DappFee globalParam2 / 100 in
    do gasAddress <- getGasAddress;
    do dappIncome <- (if bool_decide (ap_Address gasAddress = ADDRESS_EMPTY) then st_ret 0
                      else do_ appCallTransferOng GovernanceContractAddress (ap_Address gasAddress) (u64 dappIncome); st_ret dappIncome);
    if income <? u64 dappIncome then st_panic
    else
      let nodeIncome := income - dappIncome in
      do globalParam <- getGlobalParam;
      let peersCandidate := split_peers peerPoolMap in
      do consensus <- st_lift (first_peers (cfg_K config) peersCandidate);
      let sum := sum_u64 cs_Stake consensus in
      if sum <? cfg_K config then st_ret 0
      else
        do avg <- st_lift (go_div sum (cfg_K config));
        do '(consensus, sumS) <- weigh avg (Yita globalParam) consensus 0;
        do_ st_guard (negb (sumS =? 0)) "executeSplit, sumS is 0";
        do splitSum <- credit_peers peerPoolMap currentPeerPoolMap nodeIncome (gp_A globalParam) sumS cs_S consensus 0;
        let length := if zlen peersCandidate <=? CandidateFeeSplitNum globalParam2 then zlen peersCandidate
                      else CandidateFeeSplitNum globalParam2 in
        let candidates := drop (Z.to_nat (cfg_K config)) (take (Z.to_nat length) peersCandidate) in
        let sum := sum_u64 cs_Stake candidates in
        if sum =? 0 then st_ret splitSum
        else credit_peers peerPoolMap currentPeerPoolMap nodeIncome (gp_B globalParam) sum cs_Stake candidates splitSum.

End Split.
