(* ===== verification/GovCommit.v ===== *)
(** * The end of an epoch

    [executeCommitDpos], [executeCommitDpos1] and [executeCommitDpos2] of
    [smartcontract/service/native/governance/method.go]: fees are divided, peers that quit or were
    blacklisted leave, and the [K] peers of the largest stakes form the next consensus group. *)

From S2P Require Import Prelude Codec BigInt NativeData LedgerTypes NativeService OntOng GovData GovState GovStake GovSplit.

Definition NEW_VERSION_VIEW : Z := 6.

Definition set_status (status : Z) (p : PeerPoolItem) : PeerPoolItem :=
  mkPeer (pp_Index p) (pp_PeerPubkey p) (pp_Address p) status (pp_InitPos p) (pp_TotalPos p).

Definition stake_info (p : PeerPoolItem) : PeerStakeInfo :=
  mkStakeInfo (pp_Index p) (pp_PeerPubkey p) (u64 (pp_TotalPos p + pp_InitPos p)).
Definition peer_less (x y : PeerStakeInfo) : bool :=
  if si_Stake y <? si_Stake x then true
  else if si_Stake x =? si_Stake y then str_gt (si_PeerPubkey x) (si_PeerPubkey y) else false.

Section Commit.
Context {T : Type} `{HT : NativeEnv T} `{HK : PeerKeys} {R : RangeOrder}.
Local Notation GM := (@GM T).

(** The update of [config] that both versions make. *)
Definition update_config (view : Z) : GM unit :=
  do preConfig <- getPreConfig;
  if SetView preConfig =? view then putConfig (pc_Configuration preConfig) else st_ret ().

(** The part of a round that depends on the status of the peer. *)
Definition scan_status (p : PeerPoolItem) (m : PeerPoolMap) (peers : list PeerStakeInfo) : GM (PeerPoolMap * list PeerStakeInfo) :=
  do m <- (if pp_Status p =? QuitingStatus then do_ normalQuit p; st_ret (delete (pp_PeerPubkey p) m) else st_ret m);
  do m <- (if pp_Status p =? BlackStatus then do_ blackQuit p; st_ret (delete (pp_PeerPubkey p) m) else st_ret m);
  let '(p, m) := if pp_Status p =? QuitConsensusStatus
                 then (set_status QuitingStatus p, <[pp_PeerPubkey p := set_status QuitingStatus p]> m) else (p, m) in
  let peers := if is_candidate p then peers ++ [stake_info p] else peers in
  st_ret (m, peers).

(** From view 7 on the cost a peer set takes effect two epochs later. *)
Definition shift_cost (p : PeerPoolItem) : GM unit :=
  do a <- getPeerAttributes (pp_PeerPubkey p);
  putPeerAttributes (mkAttr (pa_PeerPubkey a) (MaxAuthorize a) (T2PeerCost a) (T2PeerCost a) (T1PeerCost a)
    (pa_Field1 a) (pa_Field2 a) (pa_Field3 a) (pa_Field4 a)).

Fixpoint scan_peers (costs : bool) (l : list PeerPoolItem) (m : PeerPoolMap) (peers : list PeerStakeInfo) :
    GM (PeerPoolMap * list PeerStakeInfo) :=
  match l with
  | [] => st_ret (m, peers)
  | p :: l =>
      do_ (if costs then shift_cost p else st_ret ());
      do '(m, peers) <- scan_status p m peers;
      scan_peers costs l m peers
  end.

(** The peers of the next consensus group, then the others. *)
Fixpoint elect (l : list PeerStakeInfo) (m : PeerPoolMap) : GM PeerPoolMap :=
  match l with
  | [] => st_ret m
  | s :: l =>
      do p <- found (m !! si_PeerPubkey s) "commitDpos, peerPubkey is not in peerPoolMap";
      do_ (if pp_Status p =? ConsensusStatus then consensusToConsensus p else unConsensusToConsensus p);
      elect l (<[si_PeerPubkey s := set_status ConsensusStatus p]> m)
  end.
Fixpoint stand_by (l : list PeerStakeInfo) (m : PeerPoolMap) : GM PeerPoolMap :=
  match l with
  | [] => st_ret m
  | s :: l =>
      do p <- found (m !! si_PeerPubkey s) "authorizeForPeer, peerPubkey is not in peerPoolMap";
      do_ (if pp_Status p =? ConsensusStatus then consensusToUnConsensus p else unConsensusToUnConsensus p);
      stand_by l (<[si_PeerPubkey s := set_status CandidateStatus p]> m)
  end.

(** From the pool of [view] to that of the next view. *)
Definition next_pool (costs : bool) (view : Z) : GM unit :=
  do_ update_config view;
  do peerPoolMap <- GetPeerPoolMap view;
  do '(peerPoolMap, peers) <- scan_peers costs (range_of peerPoolMap) peerPoolMap [];
  do config <- getConfig;
  do_ st_guard (negb (zlen peers <? cfg_K config)) "commitDpos, num of peers is less than K";
  let peers := sort_stable peer_less peers in
  do peerPoolMap <- elect (take (Z.to_nat (cfg_K config)) peers) peerPoolMap;
  do peerPoolMap <- stand_by (drop (Z.to_nat (cfg_K config)) peers) peerPoolMap;
  do_ putPeerPoolMap (u32 (view + 1)) peerPoolMap;
  deletePeerPoolMap (u32 (view - 1)).

Definition executeCommitDpos1 : GM unit :=
  do governanceView <- GetGovernanceView;
  let view := View governanceView in
  do_ executeSplit view;
  next_pool false view.

Definition executeCommitDpos2 : GM unit :=
  do governanceView <- GetGovernanceView;
  let view := View governanceView in
  do splitSum <- executeSplit2 view;
  do_ next_pool true view;
  do splitFee <- getSplitFee;
  putSplitFee (u64 (splitSum + splitFee)).

Definition executeCommitDpos : GM unit :=
  do governanceView <- GetGovernanceView;
  do height <- asks ne_Height;
  do_ st_guard (negb (height =? gv_Height governanceView)) "commitDpos, can not do commitDpos twice in one block";
  let view := View governanceView in
  do_ (if view <=? NEW_VERSION_VIEW then executeCommitDpos1 else executeCommitDpos2);
  do height <- asks ne_Height;
  do txHash <- asks ne_TxHash;
  putGovernanceView (mkView (u32 (view + 1)) height txHash).

End Commit.
