(* ===== verification/Governance.v ===== *)
(** * Methods of the governance contract

    [smartcontract/service/native/governance/governance.go]: one definition per registered method.  A
    method returns the bytes of the call or an error; the text of an error is not part of the
    contract's behaviour and is shortened. *)

From S2P Require Import Prelude Codec BigInt NativeData LedgerTypes NativeService OntOng GovData GovState GovStake GovSplit GovCommit.

Definition NEW_VERSION_BLOCK : Z := 414100.
Definition NEW_WITHDRAW_BLOCK : Z := 2800000.
Definition MIN_CANDIDATE_FEE : Z := 1000000000.

(** The curve [InitConfig] stores. *)
Definition INIT_CURVE : list Z := [
  0; 95123; 180968; 258213; 327493; 389401; 444491; 493282; 536257; 573866; 606531; 634645; 658574; 678660; 695220;
  708550; 718927; 726606; 731826; 734808; 735759; 734870; 732317; 728265; 722867; 716262; 708583; 699949; 690472;
  680254; 669391; 657969; 646069; 633765; 621124; 608209; 595076; 581778; 568361; 554869; 541342; 527814; 514317;
  500882; 487534; 474297; 461191; 448236; 435447; 422839; 410425; 398217; 386223; 374452; 362910; 351604; 340537;
  329713; 319135; 308805; 298723; 288890; 279306; 269969; 260879; 252033; 243429; 235066; 226939; 219045; 211382;
  203945; 196731; 189736; 182955; 176384; 170018; 163854; 157887; 152113; 146526; 141122; 135896; 130845; 125963;
  121246; 116690; 112290; 108041; 103940; 99981; 96162; 92477; 88923; 85496; 82192; 79006; 75936; 72977; 70126; 67380].

Definition set_pos (initPos totalPos : Z) (p : PeerPoolItem) : PeerPoolItem :=
  mkPeer (pp_Index p) (pp_PeerPubkey p) (pp_Address p) (pp_Status p) initPos totalPos.
Definition set_index (index : Z) (p : PeerPoolItem) : PeerPoolItem :=
  mkPeer index (pp_PeerPubkey p) (pp_Address p) (pp_Status p) (pp_InitPos p) (pp_TotalPos p).

(** The amounts of an authorisation, its last one increased by [pos]. *)
Definition unfreeze (pos : Z) (i : AuthorizeInfo) : AuthorizeInfo :=
  mkAuth (ai_PeerPubkey i) (ai_Address i) (ConsensusPos i) (CandidatePos i) (NewPos i) (WithdrawConsensusPos i)
    (WithdrawCandidatePos i) (u64 (WithdrawUnfreezePos i + pos)).

(** [VBFTConfig] and its peers, as [InitConfig] reads them ([common/config/config.go]). *)
Record VBFTPeerStakeInfo := mkInitPeer { ip_Index : Z; ip_PeerPubkey : PubKey; ip_Address : list byte; ip_InitPos : Z }.
Record VBFTConfig := mkVBFT {
  v_N : Z; v_C : Z; v_K : Z; v_L : Z; v_BlockMsgDelay : Z; v_HashMsgDelay : Z; v_PeerHandshakeTimeout : Z;
  v_MaxBlockChangeView : Z; v_MinInitStake : Z; v_AdminOntID : list byte; v_VrfValue : list byte; v_VrfProof : list byte;
  v_Peers : list VBFTPeerStakeInfo }.

(** [AddressFromBase58]: a third-party decoder behind it; the result is an array of 20 bytes. *)
Class FromBase58 := {
  AddressFromBase58 : list byte -> res Address;
  AddressFromBase58_len x a : AddressFromBase58 x = Ok a -> length a = 20%nat
}.

(** [NextString] with [irregular] tested first. *)
Definition string_irregular_first : ST ZeroCopySource (list byte) :=
  do '(v, _, irregular, eof) <- Source.NextVarBytes;
  do_ st_guard (negb irregular) ErrIrregularData; do_ st_guard (negb eof) ErrUnexpectedEOF; st_ret v.

Definition ser_VBFTPeerStakeInfo {B : FromBase58} (this : VBFTPeerStakeInfo) : ST ZeroCopySink unit :=
  do_ Sink.WriteUint32 (ip_Index this); do_ Sink.WriteString (ip_PeerPubkey this);
  do address <- st_lift (AddressFromBase58 (ip_Address this));
  do_ ser_Address address; do_ Sink.WriteUint64 (ip_InitPos this); st_ret ().
Definition des_VBFTPeerStakeInfo {B : Base58} : ST ZeroCopySource VBFTPeerStakeInfo :=
  do index <- next_uint32; do peerPubkey <- string_irregular_first; do address <- des_Address; do initPos <- next_uint64;
  st_ret (mkInitPeer index peerPubkey (ToBase58 address) initPos).

Fixpoint ser_peers {B : FromBase58} (l : list VBFTPeerStakeInfo) : ST ZeroCopySink unit :=
  match l with [] => st_ret () | peer :: l => do_ ser_VBFTPeerStakeInfo peer; ser_peers l end.
Definition ser_VBFTConfig {B : FromBase58} (self : VBFTConfig) : ST ZeroCopySink unit :=
  do_ Sink.WriteUint32 (v_N self); do_ Sink.WriteUint32 (v_C self); do_ Sink.WriteUint32 (v_K self); do_ Sink.WriteUint32 (v_L self);
  do_ Sink.WriteUint32 (v_BlockMsgDelay self); do_ Sink.WriteUint32 (v_HashMsgDelay self);
  do_ Sink.WriteUint32 (v_PeerHandshakeTimeout self); do_ Sink.WriteUint32 (v_MaxBlockChangeView self);
  do_ Sink.WriteUint32 (v_MinInitStake self); do_ Sink.WriteString (v_AdminOntID self); do_ Sink.WriteString (v_VrfValue self);
  do_ Sink.WriteString (v_VrfProof self); do_ Sink.WriteVarUint (zlen (v_Peers self)); ser_peers (v_Peers self).
Definition des_VBFTConfig {B : Base58} : ST ZeroCopySource VBFTConfig :=
  do n <- next_uint32; do c <- next_uint32; do k <- next_uint32; do l <- next_uint32;
  do blockMsgDelay <- next_uint32; do hashMsgDelay <- next_uint32; do peerHandshakeTimeout <- next_uint32;
  do maxBlockChangeView <- next_uint32; do minInitStake <- next_uint32;
  do adminOntID <- string_irregular_first; do vrfValue <- string_irregular_first; do vrfProof <- string_irregular_first;
  do length <- var_uint_irregular_first;
  do peers <- read_list des_VBFTPeerStakeInfo length;
  st_ret (mkVBFT n c k l blockMsgDelay hashMsgDelay peerHandshakeTimeout maxBlockChangeView minInitStake adminOntID vrfValue vrfProof peers).

(** The tests of [L], [K], [C] and [N]; a remainder by zero panics. *)
Definition check_quorum (n c k l : Z) : res unit :=
  let* _ := (if l <? u32 (16 * k) then Err "L can not be less than 16*K" else
             if k =? 0 then Panic else guard (l mod k =? 0) "K must be times of L") in
  guard (negb (k <? u32 (u32 (2 * c) + 1))) "K can not be less than 2*C+1".

Section Methods.
Context {T : Type} `{HT : NativeEnv T} `{HK : PeerKeys} {R : RangeOrder} {HB : FromBase58} {HT58 : Base58}.
Local Notation GM := (@GM T).

(** *** Initialisation *)

Fixpoint check_peers (indexMap : list Z) (peerPubkeyMap : list PubKey) (l : list VBFTPeerStakeInfo) : res unit :=
  match l with
  | [] => Ok ()
  | peer :: l =>
      let* _ := guard (negb (bool_decide (ip_Index peer ∈ indexMap))) "initConfig, peer index is duplicated" in
      let* _ := guard (negb (bool_decide (ip_PeerPubkey peer ∈ peerPubkeyMap))) "initConfig, peerPubkey is duplicated" in
      let* _ := guard (negb (ip_Index peer <=? 0)) "initConfig, peer index in config must > 0" in
      let* _ := validatePeerPubKeyFormat (ip_PeerPubkey peer) in
      let* _ := AddressFromBase58 (ip_Address peer) in
      check_peers (ip_Index peer :: indexMap) (ip_PeerPubkey peer :: peerPubkeyMap) l
  end.

Definition CheckVBFTConfig (c : VBFTConfig) : res unit :=
  let* _ := guard (negb (v_C c =? 0)) "initConfig. C can not be 0 in config" in
  let* _ := guard (v_K c =? zlen (v_Peers c)) "initConfig. K must equal to length of peer in config" in
  let* _ := check_quorum (v_N c) (v_C c) (v_K c) (v_L c) in
  let* _ := guard (negb ((v_N c <? v_K c) || (v_K c <? 7))) "initConfig. config not match N >= K >= 7" in
  let* _ := guard (negb (v_BlockMsgDelay c <? 5000)) "initConfig. BlockMsgDelay must >= 5000" in
  let* _ := guard (negb (v_HashMsgDelay c <? 5000)) "initConfig. HashMsgDelay must >= 5000" in
  let* _ := guard (negb (v_PeerHandshakeTimeout c <? 10)) "initConfig. PeerHandshakeTimeout must >= 10" in
  let* _ := guard (negb (v_MinInitStake c <? 10000)) "initConfig. MinInitStake must >= 10000" in
  let* _ := guard (negb (zlen (v_VrfProof c) <? 128)) "initConfig. VrfProof must >= 128" in
  let* _ := guard (negb (zlen (v_VrfValue c) <? 128)) "initConfig. VrfValue must >= 128" in
  check_peers [] [] (v_Peers c).

Fixpoint init_peers (l : list VBFTPeerStakeInfo) (maxId : Z) (m : PeerPoolMap) : GM (Z * PeerPoolMap) :=
  match l with
  | [] => st_ret (maxId, m)
  | peer :: l =>
      let maxId := if maxId <? ip_Index peer then ip_Index peer else maxId in
      do address <- st_lift (AddressFromBase58 (ip_Address peer));
      let m := <[ip_PeerPubkey peer := mkPeer (ip_Index peer) (ip_PeerPubkey peer) address ConsensusStatus (ip_InitPos peer) 0]> m in
      do peerPubkeyPrefix <- hex_key (ip_PeerPubkey peer);
      do_ sets (upd_peerIndex (insert peerPubkeyPrefix (ip_Index peer)));
      do_ depositTotalStake address (ip_InitPos peer);
      init_peers l maxId m
  end.

Definition InitConfig : GM (list byte) :=
  do buf <- gov_input DecodeVarBytes;
  do configuration <- st_lift (decode des_VBFTConfig buf);
  do governanceView <- gets t_view;
  do_ st_guard (bool_decide (governanceView = None)) "initConfig. initConfig is already executed";
  do_ st_lift (CheckVBFTConfig configuration);
  do_ putGlobalParam (mkGlobal 500000000000 (v_MinInitStake configuration) 49 20 50 50 5 5);
  do '(maxId, peerPoolMap) <- init_peers (v_Peers configuration) 0 ∅;
  do_ putPeerPoolMap 0 peerPoolMap;
  do_ putPeerPoolMap 1 peerPoolMap;
  do_ putCandidateIndex (u32 (maxId + 1));
  do height <- asks ne_Height;
  do txHash <- asks ne_TxHash;
  do_ putGovernanceView (mkView 1 height txHash);
  do_ putConfig (Some (mkConfig (v_N configuration) (v_C configuration) (v_K configuration) (v_L configuration)
        (v_BlockMsgDelay configuration) (v_HashMsgDelay configuration) (v_PeerHandshakeTimeout configuration)
        (v_MaxBlockChangeView configuration)));
  do_ putSplitCurve (mkCurve INIT_CURVE);
  do_ appCallInitContractAdmin (v_AdminOntID configuration);
  st_ret BYTE_TRUE.

(** *** Candidates *)

Definition RegisterCandidate : GM (list byte) := do_ registerCandidate FlagTransfer; st_ret BYTE_TRUE.
Definition RegisterCandidateTransferFrom : GM (list byte) := do_ registerCandidate FlagTransferFrom; st_ret BYTE_TRUE.

Definition UnRegisterCandidate : GM (list byte) :=
  do params <- gov_input Gdes.UnRegisterCandidateParam;
  let address := pk_Address params in
  do_ ValidateOwner address;
  do view <- GetView;
  do peerPoolMap <- GetPeerPoolMap view;
  do peerPoolItem <- found (peerPoolMap !! pk_PeerPubkey params) "unRegisterCandidate, peerPubkey is not in peerPoolMap";
  do_ st_guard (pp_Status peerPoolItem =? RegisterCandidateStatus) "unRegisterCandidate, peer status is not RegisterCandidateStatus";
  do_ st_guard (bool_decide (pp_Address peerPoolItem = address)) "unRegisterCandidate, address is not peer owner";
  do authorizeInfo <- getAuthorizeInfo (pk_PeerPubkey params) address;
  do_ putAuthorizeInfo (unfreeze (pp_InitPos peerPoolItem) authorizeInfo);
  do_ putPeerPoolMap view (delete (pk_PeerPubkey params) peerPoolMap);
  st_ret BYTE_TRUE.

Definition count_candidates (m : PeerPoolMap) : Z := zlen (filter (fun p => is_candidate p = true) (range_of m)).

(** The index of a peer: the one it had, or the next free one. *)
Definition assign_index (peerPubkeyPrefix : list byte) : GM Z :=
  do t <- gets t_peerIndex;
  match t !! peerPubkeyPrefix with
  | Some index => st_ret index
  | None =>
      do candidateIndex <- getCandidateIndex;
      do_ putCandidateIndex (u32 (candidateIndex + 1));
      do_ sets (upd_peerIndex (insert peerPubkeyPrefix candidateIndex));
      st_ret candidateIndex
  end.

Definition ApproveCandidate : GM (list byte) :=
  do params <- gov_input Gdes.ApproveCandidateParam;
  do_ check_operator;
  do view <- GetView;
  do globalParam <- getGlobalParam;
  do peerPoolMap <- GetPeerPoolMap view;
  do_ st_guard (negb (CandidateNum globalParam <=? count_candidates peerPoolMap)) "approveCandidate, num of candidate node is full";
  do peerPoolItem <- found (peerPoolMap !! pr_PeerPubkey params) "approveCandidate, peerPubkey is not in peerPoolMap";
  do_ st_guard (negb (pp_InitPos peerPoolItem <? MinInitStake globalParam)) "approveCandidate, initPos must >= MinInitStake";
  do_ st_guard (pp_Status peerPoolItem =? RegisterCandidateStatus) "approveCandidate, peer status is not RegisterCandidateStatus";
  do height <- asks ne_Height;
  do_ (if NEW_VERSION_BLOCK <=? height then putPromisePos (mkPromise (pp_PeerPubkey peerPoolItem) (pp_InitPos peerPoolItem)) else st_ret ());
  do peerPubkeyPrefix <- hex_key (pp_PeerPubkey peerPoolItem);
  do index <- assign_index peerPubkeyPrefix;
  do_ putPeerPoolMap view (<[pr_PeerPubkey params :=
        mkPeer index (pp_PeerPubkey peerPoolItem) (pp_Address peerPoolItem) CandidateStatus (pp_InitPos peerPoolItem) 0]> peerPoolMap);
  st_ret BYTE_TRUE.

Definition RejectCandidate : GM (list byte) :=
  do params <- gov_input Gdes.RejectCandidateParam;
  do_ check_operator;
  do view <- GetView;
  do peerPoolMap <- GetPeerPoolMap view;
  do peerPoolItem <- found (peerPoolMap !! pr_PeerPubkey params) "rejectCandidate, peerPubkey is not in peerPoolMap";
  do_ st_guard (pp_Status peerPoolItem =? RegisterCandidateStatus) "rejectCandidate, peerPubkey is not RegisterCandidateStatus";
  do authorizeInfo <- getAuthorizeInfo (pr_PeerPubkey params) (pp_Address peerPoolItem);
  do_ putAuthorizeInfo (unfreeze (pp_InitPos peerPoolItem) authorizeInfo);
  do_ putPeerPoolMap view (delete (pr_PeerPubkey params) peerPoolMap);
  st_ret BYTE_TRUE.

Fixpoint black_list (l : list PubKey) (m : PeerPoolMap) (commit : bool) : GM (PeerPoolMap * bool) :=
  match l with
  | [] => st_ret (m, commit)
  | peerPubkey :: l =>
      do peerPubkeyPrefix <- hex_key peerPubkey;
      do p <- found (m !! peerPubkey) "blackNode, peerPubkey is not in peerPoolMap";
      do_ sets (upd_blackList (insert peerPubkeyPrefix (mkBlack (pp_PeerPubkey p) (pp_Address p) (pp_InitPos p))));
      black_list l (<[peerPubkey := set_status BlackStatus p]> m) (commit || (pp_Status p =? ConsensusStatus))
  end.

Definition BlackNode : GM (list byte) :=
  do params <- gov_input Gdes.BlackNodeParam;
  do_ check_operator;
  do view <- GetView;
  do peerPoolMap <- GetPeerPoolMap view;
  do '(peerPoolMap, commit) <- black_list (bn_PeerPubkeyList params) peerPoolMap false;
  do_ putPeerPoolMap view peerPoolMap;
  do_ (if commit then executeCommitDpos else st_ret ());
  st_ret BYTE_TRUE.

Definition WhiteNode : GM (list byte) :=
  do params <- gov_input Gdes.WhiteNodeParam;
  do_ check_operator;
  do peerPubkeyPrefix <- hex_key (pr_PeerPubkey params);
  do blackList <- gets t_blackList;
  do_ st_guard (negb (bool_decide (blackList !! peerPubkeyPrefix = None))) "whiteNode, this Peer is not in BlackList";
  do_ sets (upd_blackList (delete peerPubkeyPrefix));
  st_ret BYTE_TRUE.

Definition QuitNode : GM (list byte) :=
  do params <- gov_input Gdes.QuitNodeParam;
  let address := pk_Address params in
  do_ ValidateOwner address;
  do view <- GetView;
  do peerPoolMap <- GetPeerPoolMap view;
  do config <- getConfig;
  do peerPoolItem <- found (peerPoolMap !! pk_PeerPubkey params) "quitNode, peerPubkey is not in peerPoolMap";
  do_ st_guard (bool_decide (address = pp_Address peerPoolItem)) "quitNode, peerPubkey is not registered by this address";
  do_ st_guard (is_candidate peerPoolItem) "quitNode, peerPubkey is not CandidateStatus or ConsensusStatus";
  do_ st_guard (negb (count_candidates peerPoolMap <=? cfg_K config)) "quitNode, num of peers is less than K";
  let status := if pp_Status peerPoolItem =? ConsensusStatus then QuitConsensusStatus else QuitingStatus in
  do_ putPeerPoolMap view (<[pk_PeerPubkey params := set_status status peerPoolItem]> peerPoolMap);
  st_ret BYTE_TRUE.

(** *** Authorisations *)

Definition AuthorizeForPeer : GM (list byte) := do_ authorizeForPeer FlagTransfer; st_ret BYTE_TRUE.
Definition AuthorizeForPeerTransferFrom : GM (list byte) := do_ authorizeForPeer FlagTransferFrom; st_ret BYTE_TRUE.

(** The amounts after [pos] is taken back: first what was deposited in this epoch, which is free at
    once, then what counts for the peer, which is frozen. *)
Definition unauthorize_info (status pos : Z) (i : AuthorizeInfo) : res AuthorizeInfo :=
  if NewPos i <? pos then
    if status =? ConsensusStatus then
      let* _ := guard (negb (ConsensusPos i <? u64 (pos - NewPos i))) "unAuthorizeForPeer, your pos of this peerPubkey is not enough" in
      Ok (mkAuth (ai_PeerPubkey i) (ai_Address i) (u64 (u64 (ConsensusPos i + NewPos i) - pos)) (CandidatePos i) 0
            (u64 (u64 (WithdrawConsensusPos i + pos) - NewPos i)) (WithdrawCandidatePos i) (u64 (WithdrawUnfreezePos i + NewPos i)))
    else if status =? CandidateStatus then
      let* _ := guard (negb (CandidatePos i <? u64 (pos - NewPos i))) "unAuthorizeForPeer, your pos of this peerPubkey is not enough" in
      Ok (mkAuth (ai_PeerPubkey i) (ai_Address i) (ConsensusPos i) (u64 (u64 (CandidatePos i + NewPos i) - pos)) 0
            (WithdrawConsensusPos i) (u64 (u64 (WithdrawCandidatePos i + pos) - NewPos i)) (u64 (WithdrawUnfreezePos i + NewPos i)))
    else Ok i
  else Ok (mkAuth (ai_PeerPubkey i) (ai_Address i) (ConsensusPos i) (CandidatePos i) (u64 (NewPos i - pos))
             (WithdrawConsensusPos i) (WithdrawCandidatePos i) (u64 (WithdrawUnfreezePos i + pos))).

Definition unauthorize_one (globalParam2 : GlobalParam2) (address : Address) (peerPubkey : PubKey) (pos : Z) (m : PeerPoolMap) :
    GM PeerPoolMap :=
  do i <- getAuthorizeInfo peerPubkey address;
  do_ st_guard (negb (pos <? 1)) "unAuthorizeForPeer, pos must >= 1";
  let held := u64 (u64 (ConsensusPos i + CandidatePos i) + NewPos i) in
  do pos <- (if held <? MinAuthorizePos globalParam2 then st_ret held
             else if pos <? MinAuthorizePos globalParam2 then st_err "unAuthorizeForPeer, pos must be times of MinAuthorizePos"
             else if MinAuthorizePos globalParam2 =? 0 then st_panic
             else do_ st_guard (pos mod MinAuthorizePos globalParam2 =? 0) "unAuthorizeForPeer, pos must be times of MinAuthorizePos";
                  st_ret pos);
  do peerPoolItem <- found (m !! peerPubkey) "unAuthorizeForPeer, peerPubkey is not in peerPoolMap";
  do_ st_guard (is_candidate peerPoolItem) "unAuthorizeForPeer, peerPubkey is not candidate and can not be authorized";
  do i' <- st_lift (unauthorize_info (pp_Status peerPoolItem) pos i);
  do_ putAuthorizeInfo i';
  st_ret (<[peerPubkey := set_pos (pp_InitPos peerPoolItem) (u64 (pp_TotalPos peerPoolItem - pos)) peerPoolItem]> m).

Fixpoint unauthorize_loop (globalParam2 : GlobalParam2) (address : Address) (keys : list PubKey) (poss : list Z) (m : PeerPoolMap) :
    GM PeerPoolMap :=
  match keys, poss with
  | [], _ => st_ret m
  | _ :: _, [] => st_panic
  | peerPubkey :: keys, pos :: poss =>
      do m <- unauthorize_one globalParam2 address peerPubkey pos m;
      unauthorize_loop globalParam2 address keys poss m
  end.

Definition UnAuthorizeForPeer : GM (list byte) :=
  do params <- gov_input Gdes.AuthorizeForPeerParam;
  do_ ValidateOwner (al_Address params);
  do view <- GetView;
  do peerPoolMap <- GetPeerPoolMap view;
  do globalParam2 <- getGlobalParam2;
  do peerPoolMap <- unauthorize_loop globalParam2 (al_Address params) (al_PeerPubkeyList params) (al_PosList params) peerPoolMap;
  do_ putPeerPoolMap view peerPoolMap;
  st_ret BYTE_TRUE.

Definition withdraw_info (pos : Z) (i : AuthorizeInfo) : AuthorizeInfo :=
  mkAuth (ai_PeerPubkey i) (ai_Address i) (ConsensusPos i) (CandidatePos i) (NewPos i) (WithdrawConsensusPos i)
    (WithdrawCandidatePos i) (u64 (WithdrawUnfreezePos i - pos)).
Definition is_empty (i : AuthorizeInfo) : bool :=
  (ConsensusPos i =? 0) && (CandidatePos i =? 0) && (NewPos i =? 0) && (WithdrawConsensusPos i =? 0) &&
  (WithdrawCandidatePos i =? 0) && (WithdrawUnfreezePos i =? 0).

Definition withdraw_one (height : Z) (address : Address) (peerPubkey : PubKey) (pos : Z) (total : Z) : GM Z :=
  do_ st_guard (negb ((NEW_WITHDRAW_BLOCK <? height) && (pos <? 1))) "withdraw, amount of withdraw must >= 1";
  do peerPubkeyPrefix <- hex_key peerPubkey;
  do i <- getAuthorizeInfo peerPubkey address;
  do_ st_guard (negb (WithdrawUnfreezePos i <? pos)) "withdraw, your unfreeze withdraw pos of this peerPubkey is not enough";
  let i := withdraw_info pos i in
  do_ putAuthorizeInfo i;
  do_ (if is_empty i then sets (upd_authorizeInfo (delete (peerPubkeyPrefix ++ address))) else st_ret ());
  st_ret (u64 (total + pos)).

Fixpoint withdraw_loop (height : Z) (address : Address) (keys : list PubKey) (poss : list Z) (total : Z) : GM Z :=
  match keys, poss with
  | [], _ => st_ret total
  | _ :: _, [] => st_panic
  | peerPubkey :: keys, pos :: poss =>
      do total <- withdraw_one height address peerPubkey pos total;
      withdraw_loop height address keys poss total
  end.

Definition Withdraw : GM (list byte) :=
  do params <- gov_input Gdes.WithdrawParam;
  let address := al_Address params in
  do_ ValidateOwner address;
  do height <- asks ne_Height;
  do total <- withdraw_loop height address (al_PeerPubkeyList params) (al_PosList params) 0;
  do_ appCallTransferOnt GovernanceContractAddress address total;
  do_ withdrawTotalStake address total;
  st_ret BYTE_TRUE.

(** *** Epochs and parameters *)

Definition CommitDpos : GM (list byte) :=
  do config <- getConfig;
  do governanceView <- GetGovernanceView;
  do r <- asks ne_Operator;
  do adminAddress <- st_lift r;
  do ok <- asks (ne_CheckWitness adminAddress);
  do height <- asks ne_Height;
  do_ st_guard (ok || (MaxBlockChangeView config <=? u32 (height - gv_Height governanceView))) "commitDpos, authentication Failed";
  do_ executeCommitDpos;
  st_ret BYTE_TRUE.

Definition UpdateConfig : GM (list byte) :=
  do_ check_operator;
  do globalParam <- getGlobalParam;
  do c <- gov_input Gdes.Configuration;
  do view <- GetView;
  do peerPoolMap <- GetPeerPoolMap view;
  let candidateNum := count_candidates peerPoolMap in
  do_ st_guard (negb (cfg_C c =? 0)) "updateConfig. C can not be 0 in config";
  do_ st_guard (negb (candidateNum <? cfg_K c)) "updateConfig. K can not be larger than num of candidate peer in config";
  do_ st_lift (check_quorum (cfg_N c) (cfg_C c) (cfg_K c) (cfg_L c));
  do_ st_guard (negb (CandidateNum globalParam <? u32 (4 * cfg_K c))) "updateConfig. 4*K can not be more than candidateNum";
  do_ st_guard (negb ((cfg_N c <? cfg_K c) || (cfg_K c <? 7))) "updateConfig. config not match N >= K >= 7";
  do_ st_guard (negb (BlockMsgDelay c <? 5000)) "updateConfig. BlockMsgDelay must >= 5000";
  do_ st_guard (negb (HashMsgDelay c <? 5000)) "updateConfig. HashMsgDelay must >= 5000";
  do_ st_guard (negb (PeerHandshakeTimeout c <? 10)) "updateConfig. PeerHandshakeTimeout must >= 10";
  do_ st_guard (negb (MaxBlockChangeView c <? 10000)) "updateConfig. MaxBlockChangeView must >= 10000";
  do_ putPreConfig (mkPreConfig (Some c) view);
  st_ret BYTE_TRUE.

Definition UpdateGlobalParam : GM (list byte) :=
  do_ check_operator;
  do config <- getConfig;
  do g <- gov_input Gdes.GlobalParam;
  do_ st_guard (u32 (gp_A g + gp_B g) =? 100) "updateGlobalParam. A + B must equal to 100";
  do_ st_guard (negb (Yita g =? 0)) "updateGlobalParam. Yita must > 0";
  do_ st_guard (negb (100 <? Penalty g)) "updateGlobalParam. Penalty must <= 100";
  do_ st_guard (negb (PosLimit g <? 1)) "updateGlobalParam. PosLimit must >= 1";
  do_ st_guard (negb (CandidateNum g <? u32 (4 * cfg_K config))) "updateGlobalParam. CandidateNum must >= 4*K";
  do_ st_guard (negb (negb (CandidateFee g =? 0) && (CandidateFee g <? MIN_CANDIDATE_FEE))) "updateGlobalParam. CandidateFee must >= MIN_CANDIDATE_FEE";
  do_ st_guard (negb (MinInitStake g <? 1)) "updateGlobalParam. MinInitStake must >= 1";
  do_ putGlobalParam g;
  st_ret BYTE_TRUE.

Definition new_version : GM unit :=
  do height <- asks ne_Height; st_guard (negb (height <? NEW_VERSION_BLOCK)) "block num is not reached for this func".

Definition UpdateGlobalParam2 : GM (list byte) :=
  do_ new_version;
  do_ check_operator;
  do globalParam2 <- gov_input Gdes.GlobalParam2;
  do config <- getConfig;
  do_ st_guard (negb (CandidateFeeSplitNum globalParam2 <? cfg_K config)) "globalParam2.CandidateFeeSplitNum can not be less than config.K";
  do_ putGlobalParam2 globalParam2;
  st_ret BYTE_TRUE.

Definition UpdateSplitCurve : GM (list byte) :=
  do_ check_operator;
  do splitCurve <- gov_input Gdes.SplitCurve;
  do_ putSplitCurve splitCurve;
  st_ret BYTE_TRUE.

Definition TransferPenalty : GM (list byte) :=
  do_ check_operator;
  do param <- gov_input Gdes.TransferPenaltyParam;
  do_ withdrawPenaltyStake (pk_PeerPubkey param) (pk_Address param);
  st_ret BYTE_TRUE.

(** *** Fees and the owner of a peer *)

Definition WithdrawOng : GM (list byte) :=
  do params <- gov_input Gdes.WithdrawOngParam;
  do_ ValidateOwner (ap_Address params);
  do_ appCallTransferOnt GovernanceContractAddress GovernanceContractAddress 1;
  do totalStake <- getTotalStake (ap_Address params);
  do timeOffset <- time_offset;
  do amount <- st_lift (CalcUnbindOng (Stake totalStake) (ts_TimeOffset totalStake) timeOffset);
  do_ appCallTransferFromOng GovernanceContractAddress OntContractAddress (ts_Address totalStake) amount;
  do_ putTotalStake (mkTotal (ts_Address totalStake) (Stake totalStake) timeOffset);
  st_ret BYTE_TRUE.

(** The pool and the peer [peerPubkey], which must belong to [address]. *)
Definition owned_peer (peerPubkey : PubKey) (address : Address) : GM (Z * PeerPoolMap * PeerPoolItem) :=
  do view <- GetView;
  do peerPoolMap <- GetPeerPoolMap view;
  do peerPoolItem <- found (peerPoolMap !! peerPubkey) "peerPubkey is not in peerPoolMap";
  do_ st_guard (bool_decide (pp_Address peerPoolItem = address)) "address is not peer owner";
  st_ret (view, peerPoolMap, peerPoolItem).

Definition ChangeMaxAuthorization : GM (list byte) :=
  do_ new_version;
  do params <- gov_input Gdes.ChangeMaxAuthorizationParam;
  do_ ValidateOwner (pn_Address params);
  do '(_, _, peerPoolItem) <- owned_peer (pn_PeerPubkey params) (pn_Address params);
  do globalParam <- getGlobalParam;
  do_ st_guard (negb (u64 (PosLimit globalParam * pp_InitPos peerPoolItem) <? pn_Number params)) "changeMaxAuthorization, maxAuthorize is out of limit";
  do a <- getPeerAttributes (pn_PeerPubkey params);
  do_ putPeerAttributes (mkAttr (pa_PeerPubkey a) (pn_Number params) (T2PeerCost a) (T1PeerCost a) (TPeerCost a)
        (pa_Field1 a) (pa_Field2 a) (pa_Field3 a) (pa_Field4 a));
  st_ret BYTE_TRUE.

Definition SetPeerCost : GM (list byte) :=
  do_ new_version;
  do params <- gov_input Gdes.SetPeerCostParam;
  do_ st_guard (negb (100 <? pn_Number params)) "peerCost must >= 0 and <= 100";
  do_ ValidateOwner (pn_Address params);
  do_ owned_peer (pn_PeerPubkey params) (pn_Address params);
  do a <- getPeerAttributes (pn_PeerPubkey params);
  do_ putPeerAttributes (mkAttr (pa_PeerPubkey a) (MaxAuthorize a) (pn_Number params) (T1PeerCost a) (TPeerCost a)
        (pa_Field1 a) (pa_Field2 a) (pa_Field3 a) (pa_Field4 a));
  st_ret BYTE_TRUE.

Definition WithdrawFee : GM (list byte) :=
  do_ new_version;
  do params <- gov_input Gdes.WithdrawFeeParam;
  do_ ValidateOwner (ap_Address params);
  do splitFeeAddress <- getSplitFeeAddress (ap_Address params);
  let fee := sf_Amount splitFeeAddress in
  do_ appCallTransferOng GovernanceContractAddress (ap_Address params) fee;
  do_ sets (upd_splitFeeAddress (delete (ap_Address params)));
  do splitFee <- getSplitFee;
  do_ st_guard (negb (splitFee <? fee)) "withdrawFee, splitFee is not enough";
  do_ putSplitFee (u64 (splitFee - fee));
  st_ret BYTE_TRUE.

Definition AddInitPos : GM (list byte) :=
  do_ new_version;
  do params <- gov_input Gdes.ChangeInitPosParam;
  do_ ValidateOwner (pn_Address params);
  do_ st_guard (negb (pn_Number params <? 1)) "addInitPos, pos must >= 1";
  do '(view, peerPoolMap, p) <- owned_peer (pn_PeerPubkey params) (pn_Address params);
  do_ st_guard (is_candidate p || (pp_Status p =? RegisterCandidateStatus)) "addInitPos, peerPubkey is not candidate";
  do_ putPeerPoolMap view (<[pn_PeerPubkey params := set_pos (u64 (pp_InitPos p + pn_Number params)) (pp_TotalPos p) p]> peerPoolMap);
  do_ appCallTransferOnt (pn_Address params) GovernanceContractAddress (pn_Number params);
  do_ depositTotalStake (pn_Address params) (pn_Number params);
  st_ret BYTE_TRUE.

(** What the owner gets back is frozen as long as the status of the peer asks for. *)
Definition reduce_info (status pos : Z) (i : AuthorizeInfo) : res AuthorizeInfo :=
  if status =? ConsensusStatus then
    Ok (mkAuth (ai_PeerPubkey i) (ai_Address i) (ConsensusPos i) (CandidatePos i) (NewPos i)
          (u64 (WithdrawConsensusPos i + pos)) (WithdrawCandidatePos i) (WithdrawUnfreezePos i))
  else if status =? CandidateStatus then
    Ok (mkAuth (ai_PeerPubkey i) (ai_Address i) (ConsensusPos i) (CandidatePos i) (NewPos i)
          (WithdrawConsensusPos i) (u64 (WithdrawCandidatePos i + pos)) (WithdrawUnfreezePos i))
  else if status =? RegisterCandidateStatus then Ok (unfreeze pos i)
  else Err "reduceInitPos, peerPubkey is not candidate".

Definition ReduceInitPos : GM (list byte) :=
  do_ new_version;
  do params <- gov_input Gdes.ChangeInitPosParam;
  do_ ValidateOwner (pn_Address params);
  do_ st_guard (negb (pn_Number params <? 1)) "reduceInitPos, pos must >= 1";
  do '(view, peerPoolMap, p) <- owned_peer (pn_PeerPubkey params) (pn_Address params);
  do_ st_guard (negb (pp_InitPos p <? pn_Number params)) "reduceInitPos, initPos can not be negative";
  let newInitPos := u64 (pp_InitPos p - pn_Number params) in
  do globalParam <- getGlobalParam;
  do limit <- st_lift (go_div (pp_TotalPos p) (PosLimit globalParam));
  do_ st_guard (negb (newInitPos <? limit)) "initPos must more than totalPos/posLimit";
  do promisePos <- getPromisePos (pn_PeerPubkey params);
  do_ st_guard (negb (newInitPos <? pm_PromisePos promisePos)) "initPos must more than promise pos";
  do_ putPeerPoolMap view (<[pn_PeerPubkey params := set_pos newInitPos (pp_TotalPos p) p]> peerPoolMap);
  do i <- getAuthorizeInfo (pn_PeerPubkey params) (pn_Address params);
  do i' <- st_lift (reduce_info (pp_Status p) (pn_Number params) i);
  do_ putAuthorizeInfo i';
  st_ret BYTE_TRUE.

Definition SetPromisePos : GM (list byte) :=
  do_ new_version;
  do_ check_operator;
  do promisePos <- gov_input Gdes.PromisePos;
  do_ putPromisePos promisePos;
  st_ret BYTE_TRUE.

Definition SetGasAddress : GM (list byte) :=
  do_ check_operator;
  do param <- gov_input Gdes.GasAddress;
  do_ putGasAddress param;
  st_ret BYTE_TRUE.

(** *** The methods by name *)

Definition RegisterGovernanceContract : list (string * GM (list byte)) :=
  [("registerCandidate", RegisterCandidate); ("registerCandidateTransferFrom", RegisterCandidateTransferFrom);
   ("unRegisterCandidate", UnRegisterCandidate); ("authorizeForPeer", AuthorizeForPeer);
   ("authorizeForPeerTransferFrom", AuthorizeForPeerTransferFrom); ("unAuthorizeForPeer", UnAuthorizeForPeer);
   ("withdraw", Withdraw); ("quitNode", QuitNode); ("withdrawOng", WithdrawOng);
   ("changeMaxAuthorization", ChangeMaxAuthorization); ("setPeerCost", SetPeerCost); ("withdrawFee", WithdrawFee);
   ("addInitPos", AddInitPos); ("reduceInitPos", ReduceInitPos);
   ("initConfig", InitConfig); ("approveCandidate", ApproveCandidate); ("rejectCandidate", RejectCandidate);
   ("blackNode", BlackNode); ("whiteNode", WhiteNode); ("commitDpos", CommitDpos); ("updateConfig", UpdateConfig);
   ("updateGlobalParam", UpdateGlobalParam); ("updateGlobalParam2", UpdateGlobalParam2); ("updateSplitCurve", UpdateSplitCurve);
   ("transferPenalty", TransferPenalty); ("setPromisePos", SetPromisePos); ("setGasAddress", SetGasAddress)]%string.

End Methods.
