(* ===== verification/GovLogic.v ===== *)
(** * Reasoning about the governance contract

    Integers modulo [2^64] with their congruences, sums over the entries of a table, triples for computations of the contract,
    and the invariant that ties its tables together: what the contract records as the total stake of an address is
    the sum of its authorisations, in every state they can be in, and of the initial stakes of the peers it owns. *)

From S2P Require Import Prelude GovData GovState Codec BigInt MemDb NativeData LedgerTypes NativeService OntOng GovStake GovSplit GovCommit.
From Stdlib Require Import Morphisms Setoid.

(** ** Congruence modulo [2^64] *)

Definition eq64 (a b : Z) : Prop := u64 a = u64 b.
Infix "≡64" := eq64 (at level 70) : go_scope.

#[export] Instance eq64_equiv : Equivalence eq64.
Proof. unfold eq64. split; [intros x; reflexivity | intros x y; congruence | intros x y z; congruence]. Qed.

#[export] Instance add_eq64 : Proper (eq64 ==> eq64 ==> eq64) Z.add.
Proof. intros a b H c d H'. unfold eq64, u64 in *. rewrite (Z.add_mod a c), (Z.add_mod b d), H, H' by discriminate. reflexivity. Qed.
#[export] Instance sub_eq64 : Proper (eq64 ==> eq64 ==> eq64) Z.sub.
Proof. intros a b H c d H'. unfold eq64, u64 in *. rewrite (Zminus_mod a c), (Zminus_mod b d), H, H'. reflexivity. Qed.

Lemma u64_eq64 a : u64 a ≡64 a.
Proof. unfold eq64, u64. apply Z.mod_mod. discriminate. Qed.
Lemma eq64_eq a b : a = b -> a ≡64 b.
Proof. intros ->. reflexivity. Qed.
Lemma eq64_small a b : is_u64 a -> is_u64 b -> a ≡64 b -> a = b.
Proof. intros Ha Hb H. unfold eq64 in H. rewrite !u64_small in H by assumption. exact H. Qed.

(** [mod64] removes the conversions of a congruence and closes it by arithmetic. *)
Ltac mod64 := rewrite ?u64_eq64; apply eq64_eq; lia.

(** ** Sums over a table *)

Section Sums.
Context {K V : Type} `{Countable K}.
Implicit Types (m : gmap K V) (f g : V -> Z).

Definition msum f m : Z := map_fold (fun _ v acc => f v + acc) 0 m.

Lemma msum_empty f : msum f (∅ : gmap K V) = 0.
Proof. apply map_fold_empty. Qed.
Lemma msum_new f m k v : m !! k = None -> msum f (<[k := v]> m) = f v + msum f m.
Proof. intros Hk. unfold msum. apply (map_fold_insert_L (fun _ v acc => f v + acc)); [intros; lia | exact Hk]. Qed.
Lemma msum_delete f m k : msum f (delete k m) = msum f m - from_option f 0 (m !! k).
Proof.
  destruct (m !! k) as [v|] eqn:E; cbn [from_option]; [|rewrite (delete_id m k) by exact E; lia].
  rewrite <- (insert_delete_id m k v E) at 2. rewrite msum_new by apply lookup_delete_eq. lia.
Qed.
Lemma msum_insert f m k v : msum f (<[k := v]> m) = msum f m - from_option f 0 (m !! k) + f v.
Proof. rewrite <- (insert_delete_eq m k v), msum_new by apply lookup_delete_eq. rewrite msum_delete. lia. Qed.
Lemma msum_ext f g m : (forall k v, m !! k = Some v -> f v = g v) -> msum f m = msum g m.
Proof.
  induction m as [|k v m Hk IH] using map_ind; intros Hf; [rewrite !msum_empty; reflexivity|].
  rewrite !msum_new, (Hf k v), IH; [reflexivity | | apply lookup_insert_eq | assumption | assumption].
  intros k' v' H'. apply (Hf k' v'). rewrite lookup_insert_ne; [exact H' | intros ->; congruence].
Qed.
Lemma msum_nonneg f m : (forall k v, m !! k = Some v -> 0 <= f v) -> 0 <= msum f m.
Proof.
  induction m as [|k v m Hk IH] using map_ind; intros Hf; [rewrite msum_empty; lia|].
  rewrite msum_new by assumption. pose proof (Hf k v (lookup_insert_eq _ _ _)).
  enough (0 <= msum f m) by lia. apply IH. intros k' v' H'. apply (Hf k' v'). rewrite lookup_insert_ne; [exact H' | intros ->; congruence].
Qed.
Lemma msum_le f m k v : (forall k v, m !! k = Some v -> 0 <= f v) -> m !! k = Some v -> f v <= msum f m.
Proof.
  intros Hf Hk. rewrite <- (insert_delete_id m k v Hk), msum_new by apply lookup_delete_eq.
  enough (0 <= msum f (delete k m)) by lia. apply msum_nonneg. intros k' v' H'. apply lookup_delete_Some in H' as [_ H']. exact (Hf _ _ H').
Qed.
End Sums.

(** ** Triples *)

Section Triples.
Context {T : Type}.
Local Notation GM := (@GM T).

(** From tables in [P], a computation that returns leaves tables in [Q]. *)
Definition triple {A} (P : Gov -> Prop) (c : GM A) (Q : A -> Gov -> Prop) : Prop :=
  forall s a s', P (gov s) -> c s = Ok (a, s') -> Q a (gov s').

Lemma triple_ret {A} P (a : A) : triple P (st_ret a) (fun b g => b = a /\ P g).
Proof. intros s b s' HP [= <- <-]. auto. Qed.
Lemma triple_bind {A B} P (c : GM A) (k : A -> GM B) Q Q' :
  triple P c Q -> (forall a, triple (Q a) (k a) Q') -> triple P (st_bind c k) Q'.
Proof. intros Hc Hk s b s' HP E. apply st_bind_Ok in E as (a & s1 & E1 & E2). exact (Hk a s1 b s' (Hc s a s1 HP E1) E2). Qed.
Lemma triple_conseq {A} (P P' : Gov -> Prop) (c : GM A) (Q Q' : A -> Gov -> Prop) :
  triple P' c Q' -> (forall g, P g -> P' g) -> (forall a g, Q' a g -> Q a g) -> triple P c Q.
Proof. intros Hc HP HQ s a s' Hs E. exact (HQ _ _ (Hc s a s' (HP _ Hs) E)). Qed.
Lemma triple_if {A} P (b : bool) (c1 c2 : GM A) Q : (b = true -> triple P c1 Q) -> (b = false -> triple P c2 Q) -> triple P (if b then c1 else c2) Q.
Proof. destruct b; auto. Qed.
Lemma triple_err {A} P e Q : triple P (st_err e : GM A) Q.
Proof. intros s a s' _ [=]. Qed.
Lemma triple_panic {A} P Q : triple P (st_panic : GM A) Q.
Proof. intros s a s' _ [=]. Qed.
Lemma triple_gets {A} P (f : Gov -> A) : triple P (gets f) (fun a g => a = f g /\ P g).
Proof. intros s a s' HP [= <- <-]. auto. Qed.
Lemma triple_sets (P : Gov -> Prop) (Q : unit -> Gov -> Prop) f : (forall g, P g -> Q () (f g)) -> triple P (sets f) Q.
Proof. intros H s a s' HP [= <- <-]. apply H, HP. Qed.

(** A computation that, when it returns, leaves the part [f] of the tables as it was. *)
Definition preserves {X A} (f : Gov -> X) (c : GM A) : Prop := forall s a s', c s = Ok (a, s') -> f (gov s') = f (gov s).
Definition reads {A} (c : GM A) : Prop := preserves id c.

Lemma reads_preserves {X A} (f : Gov -> X) (c : GM A) : reads c -> preserves f c.
Proof. intros Hc s a s' E. specialize (Hc _ _ _ E). unfold id in Hc. rewrite Hc. reflexivity. Qed.
Lemma triple_reads {A} P (c : GM A) : reads c -> triple P c (fun _ g => P g).
Proof. intros Hc s a s' HP E. specialize (Hc _ _ _ E). unfold id in Hc. rewrite Hc. exact HP. Qed.
(** The value is kept with what is known of it. *)
Lemma triple_reads_val {A} P (c : GM A) (Q : A -> Gov -> Prop) :
  reads c -> (forall s a s', c s = Ok (a, s') -> P (gov s) -> Q a (gov s)) -> triple P c Q.
Proof. intros Hc HQ s a s' HP E. specialize (Hc _ _ _ E) as Hs. unfold id in Hs. rewrite Hs. exact (HQ _ _ _ E HP). Qed.
Lemma triple_preserves {X A} (f : Gov -> X) (P : X -> Prop) (c : GM A) : preserves f c -> triple (fun g => P (f g)) c (fun _ g => P (f g)).
Proof. intros Hc s a s' HP E. rewrite (Hc _ _ _ E). exact HP. Qed.

Section Preserves.
Context {X : Type} (f : Gov -> X).
Lemma pres_ret {A} (a : A) : preserves f (st_ret a). Proof. intros s b s' [= <- <-]. reflexivity. Qed.
Lemma pres_err {A} e : preserves f (st_err e : GM A). Proof. intros s b s' [=]. Qed.
Lemma pres_panic {A} : preserves f (st_panic : GM A). Proof. intros s b s' [=]. Qed.
Lemma pres_bind {A B} (c : GM A) (k : A -> GM B) : preserves f c -> (forall a, preserves f (k a)) -> preserves f (st_bind c k).
Proof. intros Hc Hk s b s' E. apply st_bind_Ok in E as (a & s1 & E1 & E2). rewrite (Hk _ _ _ _ E2). exact (Hc _ _ _ E1). Qed.
Lemma pres_if {A} (b : bool) (c1 c2 : GM A) : preserves f c1 -> preserves f c2 -> preserves f (if b then c1 else c2).
Proof. destruct b; auto. Qed.
Lemma pres_gets {A} (h : Gov -> A) : preserves f (gets h). Proof. intros s b s' [= <- <-]. reflexivity. Qed.
Lemma pres_asks {A} (h : T -> A) : preserves f (asks h). Proof. intros s b s' [= <- <-]. reflexivity. Qed.
Lemma pres_lift {A} (r : res A) : preserves f (st_lift r).
Proof. intros s b s' E. destruct r; cbn in E; [injection E as <- <-; reflexivity | discriminate | discriminate]. Qed.
Lemma pres_guard b e : preserves f (st_guard b e). Proof. apply pres_lift. Qed.
Lemma pres_found {A} (v : option A) e : preserves f (found v e).
Proof. destruct v; [apply pres_ret | apply pres_err]. Qed.
Lemma pres_sets u : (forall g, f (u g) = f g) -> preserves f (sets u).
Proof. intros Hu s b s' [= <- <-]. apply Hu. Qed.
Lemma pres_call `{NativeEnv T} contract method args : preserves f (native_call contract method args).
Proof.
  apply pres_bind; [apply pres_lift|]. intros a s b s' E. destruct (ne_NativeCall contract method a (env s)) as [[r e]|e|]; [|discriminate|discriminate].
  injection E as <- <-. reflexivity.
Qed.
End Preserves.

End Triples.

Create HintDb gov discriminated.
#[export] Hint Constants Opaque : gov.
#[export] Hint Resolve pres_ret pres_err pres_panic pres_gets pres_asks pres_lift pres_guard pres_found pres_call : gov.
#[export] Hint Extern 1 (preserves _ (hex_key _)) => apply pres_lift : gov.
#[export] Hint Extern 1 (preserves _ (sets _)) => (apply pres_sets; intros []; reflexivity) : gov.

(** [pres_steps] walks through a computation whose writes are outside of [f]. *)
Ltac pres_steps :=
  repeat first
    [ progress auto with gov
    | match goal with |- preserves _ (if _ then _ else _) => apply pres_if end
    | apply pres_bind; [|intros ?]
    | match goal with |- preserves _ (match ?x with _ => _ end) => destruct x end ].

(** ** The accounts of the governance contract *)

(** ** Sorting *)

Section Sorting.
Context {A : Type} (less : A -> A -> bool).
Lemma insert_stable_perm x l : insert_stable less x l ≡ₚ x :: l.
Proof.
  induction l as [|y l IH]; [reflexivity|]. cbn [insert_stable]. destruct (less y x); [|reflexivity].
  rewrite IH. apply Permutation_swap.
Qed.
Lemma sort_stable_perm l : sort_stable less l ≡ₚ l.
Proof. induction l as [|x l IH]; [reflexivity|]. cbn [sort_stable]. rewrite insert_stable_perm, IH. reflexivity. Qed.
End Sorting.

(** ** The invariant *)

Definition held (t : gmap (list byte) AuthorizeInfo) (a : Address) : Z :=
  msum (fun i => if decide (ai_Address i = a) then all_pos i else 0) t.
Definition owned (m : PeerPoolMap) (a : Address) : Z :=
  msum (fun p => if decide (pp_Address p = a) then pp_InitPos p else 0) m.
Definition stake_of (t : gmap Address TotalStake) (a : Address) : Z := from_option Stake 0 (t !! a).

(** The key an authorisation is stored under. *)
Definition akey (i : AuthorizeInfo) : list byte :=
  match hex_DecodeString (ai_PeerPubkey i) with Ok h => h ++ ai_Address i | _ => [] end.

Definition is_addr (a : Address) : Prop := length a = 20%nat.

Section Invariant.
Context `{HK : PeerKeys}.

Definition valid_pubkey (pk : PubKey) : Prop := exists h, hex_DecodeString pk = Ok h /\ valid_vrf_key h = true.

Definition auth_shaped (t : gmap (list byte) AuthorizeInfo) : Prop :=
  forall k i, t !! k = Some i -> k = akey i /\ valid_pubkey (ai_PeerPubkey i) /\ is_addr (ai_Address i).
Definition pool_shaped (m : PeerPoolMap) : Prop :=
  forall pk p, m !! pk = Some p -> pp_PeerPubkey p = pk /\ valid_pubkey pk /\ is_addr (pp_Address p).
Definition total_shaped (t : gmap Address TotalStake) : Prop := forall a s, t !! a = Some s -> ts_Address s = a.

(** The tables of [g] with the pool [m] in use. *)
Record accounted (g : Gov) (m : PeerPoolMap) : Prop := mkAccounted {
  acc_auth : auth_shaped (t_authorizeInfo g);
  acc_pool : pool_shaped m;
  acc_total : total_shaped (t_totalStake g);
  acc_sum : forall a, stake_of (t_totalStake g) a ≡64 held (t_authorizeInfo g) a + owned m a
}.

(** ** Keys *)

Lemma akey_eq i h : hex_DecodeString (ai_PeerPubkey i) = Ok h -> akey i = h ++ ai_Address i.
Proof. intros E. unfold akey. rewrite E. reflexivity. Qed.

Lemma app_addr_inj (h h' a a' : list byte) : is_addr a -> is_addr a' -> h ++ a = h' ++ a' -> h = h' /\ a = a'.
Proof. unfold is_addr. intros Ha Ha' E. apply app_inj_2 in E; [exact E | lia]. Qed.

Lemma is_prefix_spec p k : is_prefix p k = true <-> exists c, k = p ++ c.
Proof.
  unfold is_prefix. rewrite bool_decide_eq_true. split.
  - intros E. exists (drop (length p) k). rewrite <- E at 1. symmetry. apply take_drop.
  - intros [c ->]. apply take_app_length.
Qed.

(** A valid key is the beginning of the key of an authorisation only if it is its own. *)
Lemma prefix_own h h' c a : valid_vrf_key h = true -> valid_vrf_key h' = true -> h' ++ a = h ++ c -> h' = h.
Proof.
  intros V V' E. apply app_eq_app in E as (l & [[-> ->]|[-> ->]]).
  - rewrite (valid_prefix_free h l V V'), app_nil_r. reflexivity.
  - rewrite (valid_prefix_free h' l V' V), app_nil_r. reflexivity.
Qed.

(** ** The authorisations of a peer *)

Lemma in_iterate h t i : auth_shaped t ->
  i ∈ iterate h t <-> t !! akey i = Some i /\ is_prefix h (akey i) = true.
Proof.
  intros Ht. unfold iterate. rewrite list_elem_of_fmap. split.
  - intros ([k j] & -> & Hj). cbn [snd]. rewrite sort_stable_perm in Hj. apply list_elem_of_filter in Hj as [Hp Hj]. cbn in Hp.
    apply elem_of_map_to_list in Hj. destruct (Ht _ _ Hj) as [-> _]. auto.
  - intros [Hi Hp]. exists (akey i, i). split; [reflexivity|]. rewrite sort_stable_perm. apply list_elem_of_filter. split; [exact Hp|].
    apply elem_of_map_to_list, Hi.
Qed.

Lemma nodup_iterate h t : auth_shaped t -> NoDup (map akey (iterate h t)).
Proof.
  intros Ht. unfold iterate. change (map akey) with (fmap akey : list AuthorizeInfo -> list (list byte)). rewrite <- list_fmap_compose.
  assert (Hl : forall k i, (k, i) ∈ sort_stable (fun x y => bytes_Compare x.1 y.1 <? 0) (filter (fun x => is_prefix h x.1 = true) (map_to_list t)) ->
    t !! k = Some i /\ k = akey i).
  { intros k i Hi. rewrite sort_stable_perm in Hi. apply list_elem_of_filter in Hi as [_ Hi]. apply elem_of_map_to_list in Hi.
    destruct (Ht _ _ Hi) as [E _]. auto. }
  apply NoDup_fmap_2_strong.
  - intros [k i] [k' i'] H1 H2 E. cbn in E. destruct (Hl _ _ H1) as [L1 ->], (Hl _ _ H2) as [L2 ->]. rewrite E in L1 |- *. congruence.
  - rewrite sort_stable_perm. apply NoDup_filter, NoDup_map_to_list.
Qed.

(** ** One authorisation is written *)

Definition pos_of (a : Address) (i : AuthorizeInfo) : Z := if decide (ai_Address i = a) then all_pos i else 0.

Lemma held_insert t k i a : held (<[k := i]> t) a = held t a - from_option (pos_of a) 0 (t !! k) + pos_of a i.
Proof. apply msum_insert. Qed.
Lemma held_delete t k a : held (delete k t) a = held t a - from_option (pos_of a) 0 (t !! k).
Proof. apply msum_delete. Qed.

Lemma auth_shaped_insert t i : auth_shaped t -> valid_pubkey (ai_PeerPubkey i) -> is_addr (ai_Address i) -> auth_shaped (<[akey i := i]> t).
Proof.
  intros Ht Hv Ha k j Hj. apply lookup_insert_Some in Hj as [[<- <-]|[_ Hj]]; [auto | exact (Ht _ _ Hj)].
Qed.
Lemma auth_shaped_delete t k : auth_shaped t -> auth_shaped (delete k t).
Proof. intros Ht k' j Hj. apply lookup_delete_Some in Hj as [_ Hj]. exact (Ht _ _ Hj). Qed.

(** ** The pool *)

Definition init_of (a : Address) (p : PeerPoolItem) : Z := if decide (pp_Address p = a) then pp_InitPos p else 0.

Lemma owned_insert m pk p a : owned (<[pk := p]> m) a = owned m a - from_option (init_of a) 0 (m !! pk) + init_of a p.
Proof. apply msum_insert. Qed.
Lemma owned_delete m pk a : owned (delete pk m) a = owned m a - from_option (init_of a) 0 (m !! pk).
Proof. apply msum_delete. Qed.

Lemma pool_shaped_delete m pk : pool_shaped m -> pool_shaped (delete pk m).
Proof. intros Hm k p Hp. apply lookup_delete_Some in Hp as [_ Hp]. exact (Hm _ _ Hp). Qed.
Lemma pool_shaped_insert m pk p :
  pool_shaped m -> pp_PeerPubkey p = pk -> valid_pubkey pk -> is_addr (pp_Address p) -> pool_shaped (<[pk := p]> m).
Proof. intros Hm H1 H2 H3 k q Hq. apply lookup_insert_Some in Hq as [[<- <-]|[_ Hq]]; [auto | exact (Hm _ _ Hq)]. Qed.

(** A peer replaced by one of the same owner and initial stake. *)
Lemma accounted_same g m pk p q : accounted g m -> m !! pk = Some p ->
  pp_PeerPubkey q = pp_PeerPubkey p -> pp_Address q = pp_Address p -> pp_InitPos q = pp_InitPos p -> accounted g (<[pk := q]> m).
Proof.
  intros [H1 H2 H3 H4] Hp E1 E2 E3. destruct (H2 _ _ Hp) as (A1 & A2 & A3). split; [exact H1 | | exact H3 |].
  - apply pool_shaped_insert; [exact H2 | congruence | exact A2 | rewrite E2; exact A3].
  - intros a. rewrite owned_insert, Hp, H4. cbn [from_option]. unfold init_of. rewrite E2, E3. apply eq64_eq. lia.
Qed.

End Invariant.
