(* ===== verification/GovAccounts.v ===== *)
(** * The accounts through the parts of the contract

    Each part of the methods keeps the accounts of [GovLogic.v], with the change it makes to the pool
    in use. *)

From S2P Require Import Prelude Codec BigInt MemDb NativeData LedgerTypes NativeService OntOng GovData GovState GovStake GovSplit GovCommit GovLogic.

Section Accounts.
Context {T : Type} `{HT : NativeEnv T} `{HK : PeerKeys} {R : RangeOrder}.
Local Notation GM := (@GM T).

(** ** Reading *)

Lemma getAuthorizeInfo_val pk a (s s' : GS (T := T)) i : getAuthorizeInfo pk a s = Ok (i, s') ->
  s' = s /\ exists h, hex_DecodeString pk = Ok h /\ i = default (mkAuth pk a 0 0 0 0 0 0) (t_authorizeInfo (gov s) !! (h ++ a)).
Proof.
  unfold getAuthorizeInfo, hex_key. intros E. apply st_bind_Ok in E as (h & s1 & E1 & E). apply st_bind_Ok in E as (t & s2 & E2 & E).
  destruct (hex_DecodeString pk) as [h'|e|] eqn:Eh; cbn in E1; try discriminate. injection E1 as <- <-. injection E2 as <- <-. injection E as <- <-. eauto.
Qed.

Lemma putAuthorizeInfo_val i (s s' : GS (T := T)) u : putAuthorizeInfo i s = Ok (u, s') ->
  (exists h, hex_DecodeString (ai_PeerPubkey i) = Ok h) /\ s' = mkGS (upd_authorizeInfo (insert (akey i) i) (gov s)) (env s).
Proof.
  unfold putAuthorizeInfo, hex_key, akey. intros E. apply st_bind_Ok in E as (h & s1 & E1 & E).
  destruct (hex_DecodeString (ai_PeerPubkey i)) as [h'|e|] eqn:Eh; cbn in E1; try discriminate. injection E1 as <- <-. injection E as <- <-. eauto.
Qed.

(** The entry [getAuthorizeInfo] returns, stored or fresh, has the key it was asked for. *)
Lemma get_shape t pk h a : auth_shaped t -> valid_pubkey pk -> hex_DecodeString pk = Ok h -> is_addr a ->
  let i := default (mkAuth pk a 0 0 0 0 0 0) (t !! (h ++ a)) in
  ai_Address i = a /\ akey i = h ++ a /\ valid_pubkey (ai_PeerPubkey i) /\
  forall b, from_option (pos_of b) 0 (t !! (h ++ a)) = pos_of b i.
Proof.
  intros Ht Hv Eh Ha. destruct (t !! (h ++ a)) as [i|] eqn:E; cbv zeta; cbn [from_option id].
  - destruct (Ht _ _ E) as (Ek & Hi & Hl). destruct Hi as (h' & Eh' & Hv'). rewrite (akey_eq i h' Eh') in Ek.
    apply app_addr_inj in Ek as [-> ->]; [|exact Ha|exact Hl]. rewrite (akey_eq i h' Eh'). repeat split; [exists h'; auto].
  - split; [reflexivity|]. split; [apply akey_eq; exact Eh|]. split; [exact Hv|]. intros b. unfold pos_of, all_pos. cbn. destruct (decide _); reflexivity.
Qed.

(** ** Total stakes *)

Lemma accounted_total g m t s' : accounted g m -> ts_Address s' = t ->
  forall m', pool_shaped m' ->
  (forall a, stake_of (t_totalStake g) a + (if decide (a = t) then Stake s' - stake_of (t_totalStake g) t else 0) ≡64 held (t_authorizeInfo g) a + owned m' a) ->
  accounted (upd_totalStake (insert t s') g) m'.
Proof.
  intros [H1 H2 H3 H4] Es m' Hm' Hs. split; [exact H1 | exact Hm' | |]; cbn.
  - intros a s Ha. apply lookup_insert_Some in Ha as [[<- <-]|[_ Ha]]; [exact Es | exact (H3 _ _ Ha)].
  - intros a. rewrite <- Hs. unfold stake_of. destruct (decide (a = t)) as [->|Hn].
    + rewrite lookup_insert_eq. cbn. apply eq64_eq. lia.
    + rewrite lookup_insert_ne by congruence. apply eq64_eq. lia.
Qed.

(** Both functions write one entry; [d] is the change of the stake. *)
Lemma total_entry t a : total_shaped t -> ts_Address (default (mkTotal a 0 0) (t !! a)) = a /\ Stake (default (mkTotal a 0 0) (t !! a)) = stake_of t a.
Proof. intros Ht. unfold stake_of. destruct (t !! a) as [s|] eqn:E; cbn; [split; [exact (Ht _ _ E) | reflexivity] | auto]. Qed.

Definition stake_moved (a : Address) (d : Z) (g g' : Gov) : Prop :=
  exists off n, n ≡64 stake_of (t_totalStake g) a + d /\ g' = upd_totalStake (insert a (mkTotal a n off)) g.

Lemma stake_moved_ok a d g g' m m' : stake_moved a d g g' -> accounted g m -> pool_shaped m' ->
  (forall b, owned m' b ≡64 owned m b + (if decide (b = a) then d else 0)) -> accounted g' m'.
Proof.
  intros (off & n & Hn & ->) Ha Hm' Ho. apply (accounted_total g m); [exact Ha | reflexivity | exact Hm' |]. intros b. cbn [Stake].
  rewrite Ho, (acc_sum _ _ Ha b). destruct (decide (b = a)) as [->|]; [|apply eq64_eq; lia]. rewrite Hn, (acc_sum _ _ Ha a). apply eq64_eq. lia.
Qed.

Lemma deposit_val a d (s s' : GS (T := T)) u : total_shaped (t_totalStake (gov s)) ->
  depositTotalStake a d s = Ok (u, s') -> stake_moved a d (gov s) (gov s').
Proof.
  intros Ht E. unfold depositTotalStake in E. apply st_bind_Ok in E as (t & s1 & E1 & E). cbn in E1. injection E1 as <- <-.
  destruct (total_entry _ a Ht) as [Ea Es]. rewrite Ea, Es in E.
  apply st_bind_Ok in E as (off & s2 & E2 & E). apply st_bind_Ok in E as (amt & s3 & E3 & E). apply st_bind_Ok in E as (v & s4 & E4 & E).
  injection E as <- <-. assert (G : gov s4 = gov s).
  { transitivity (gov s3); [|transitivity (gov s2)].
    - eapply (pres_bind id) in E4; [exact E4 | apply pres_call | intros; apply pres_ret].
    - exact (pres_lift id _ _ _ _ E3).
    - cbn in E2. injection E2 as <- <-. reflexivity. }
  rewrite G. cbn [gov]. exists off, (u64 (stake_of (t_totalStake (gov s)) a + d)). split; [apply u64_eq64 | reflexivity].
Qed.

Lemma withdraw_val a d (s s' : GS (T := T)) u : total_shaped (t_totalStake (gov s)) ->
  withdrawTotalStake a d s = Ok (u, s') -> stake_moved a (- d) (gov s) (gov s') /\ d <= stake_of (t_totalStake (gov s)) a.
Proof.
  intros Ht E. unfold withdrawTotalStake in E. apply st_bind_Ok in E as (t & s1 & E1 & E). cbn in E1. injection E1 as <- <-.
  destruct (total_entry _ a Ht) as [Ea Es]. rewrite Ea, Es in E.
  apply st_bind_Ok in E as ([] & s0 & E0 & E). unfold st_guard, guard in E0. destruct (stake_of _ a <? d) eqn:El; cbn in E0; [discriminate|]. injection E0 as <-.
  apply st_bind_Ok in E as (off & s2 & E2 & E). apply st_bind_Ok in E as (amt & s3 & E3 & E). apply st_bind_Ok in E as (v & s4 & E4 & E).
  injection E as <- <-. assert (G : gov s4 = gov s).
  { transitivity (gov s3); [|transitivity (gov s2)].
    - eapply (pres_bind id) in E4; [exact E4 | apply pres_call | intros; apply pres_ret].
    - exact (pres_lift id _ _ _ _ E3).
    - cbn in E2. injection E2 as <- <-. reflexivity. }
  rewrite G. cbn [gov]. split; [|lia]. exists off, (u64 (stake_of (t_totalStake (gov s)) a - d)). split; [rewrite u64_eq64; apply eq64_eq; lia | reflexivity].
Qed.

(** ** Authorisations *)

(** An entry is written and the pool changes by the opposite amount. *)
Lemma accounted_put g m m' j : accounted g m -> valid_pubkey (ai_PeerPubkey j) -> is_addr (ai_Address j) -> pool_shaped m' ->
  (forall b, owned m' b + pos_of b j ≡64 owned m b + from_option (pos_of b) 0 (t_authorizeInfo g !! akey j)) ->
  accounted (upd_authorizeInfo (insert (akey j) j) g) m'.
Proof.
  intros [H1 H2 H3 H4] Hv Ha Hm' Hs. split; [apply auth_shaped_insert; assumption | exact Hm' | exact H3 |]. intros b. cbn.
  rewrite held_insert, H4. specialize (Hs b).
  replace (held (t_authorizeInfo g) b - from_option (pos_of b) 0 (t_authorizeInfo g !! akey j) + pos_of b j + owned m' b)
    with (held (t_authorizeInfo g) b - from_option (pos_of b) 0 (t_authorizeInfo g !! akey j) + (owned m' b + pos_of b j)) by lia.
  rewrite Hs. apply eq64_eq. lia.
Qed.

(** The authorisations of a list are in the table, under distinct keys. *)
Definition listed (l : list AuthorizeInfo) (g : Gov) : Prop :=
  NoDup (map akey l) /\ forall i, i ∈ l -> t_authorizeInfo g !! akey i = Some i.

Lemma listed_next i j l g : listed (i :: l) g -> akey j = akey i -> listed l (upd_authorizeInfo (insert (akey j) j) g).
Proof.
  intros [Hn Hl] Ej. cbn in Hn. apply NoDup_cons in Hn as [Hi Hn]. split; [exact Hn|]. intros x Hx. cbn. rewrite lookup_insert_ne; [apply Hl; right; exact Hx|].
  rewrite Ej. intros E. apply Hi. rewrite E. apply list_elem_of_fmap. eauto.
Qed.

Definition same_key (i j : AuthorizeInfo) : Prop := ai_PeerPubkey j = ai_PeerPubkey i /\ ai_Address j = ai_Address i.
Lemma same_akey i j : same_key i j -> akey j = akey i.
Proof. intros [E1 E2]. unfold akey. rewrite E1, E2. reflexivity. Qed.

(** A step of an authorisation that loses nothing. *)
Definition conserving (f : AuthorizeInfo -> res AuthorizeInfo) : Prop :=
  forall i j, f i = Ok j -> same_key i j /\ all_pos j ≡64 all_pos i.

Lemma pos_of_same i j d b : same_key i j -> all_pos j ≡64 all_pos i + d ->
  pos_of b j ≡64 pos_of b i + (if decide (ai_Address i = b) then d else 0).
Proof. intros [_ E] Hd. unfold pos_of. rewrite E. destruct (decide _); [exact Hd | reflexivity]. Qed.

(** The entry of [i] becomes [j], which has [d] more. *)
Lemma accounted_step g m m' i j d : accounted g m -> t_authorizeInfo g !! akey i = Some i -> same_key i j -> all_pos j ≡64 all_pos i + d ->
  pool_shaped m' -> (forall b, owned m' b + (if decide (ai_Address i = b) then d else 0) ≡64 owned m b) ->
  accounted (upd_authorizeInfo (insert (akey j) j) g) m'.
Proof.
  intros Ha Hi Hk Hd Hm' Ho. destruct (acc_auth _ _ Ha _ _ Hi) as (_ & Hv & Hl). destruct Hk as [K1 K2] eqn:EK.
  apply (accounted_put g m); [exact Ha | rewrite K1; exact Hv | rewrite K2; exact Hl | exact Hm' |]. intros b.
  rewrite (same_akey i j (conj K1 K2)), Hi. cbn [from_option]. rewrite (pos_of_same i j d b (conj K1 K2) Hd), <- (Ho b). apply eq64_eq. lia.
Qed.

Lemma update_loop_ok f m l : conserving f -> forall (s s' : GS (T := T)) u, accounted (gov s) m -> listed l (gov s) ->
  update_loop f l s = Ok (u, s') -> accounted (gov s') m.
Proof.
  intros Hf. induction l as [|i l IH]; intros s s' u Ha Hl E; cbn [update_loop] in E; [injection E as <- <-; exact Ha|].
  apply st_bind_Ok in E as (j & s1 & E1 & E). apply st_bind_Ok in E as (v & s2 & E2 & E).
  destruct (f i) as [j'|e|] eqn:Ef; cbn in E1; try discriminate. injection E1 as <- <-. destruct (Hf _ _ Ef) as [Hk Hp].
  apply putAuthorizeInfo_val in E2 as [_ ->]. pose proof (proj2 Hl i ltac:(left)) as Hi.
  apply (IH (mkGS (upd_authorizeInfo (insert (akey j') j') (gov s)) (env s)) s' u); [| apply (listed_next i); [exact Hl | apply same_akey, Hk] | exact E].
  apply (accounted_step (gov s) m m i j' 0); [exact Ha | exact Hi | exact Hk | rewrite Z.add_0_r; exact Hp | apply (acc_pool _ _ Ha) |].
  intros b. destruct (decide _); apply eq64_eq; lia.
Qed.

Lemma listed_iterate h g m : accounted g m -> listed (iterate h (t_authorizeInfo g)) g.
Proof.
  intros Ha. split; [apply nodup_iterate, (acc_auth _ _ Ha)|]. intros i Hi. apply in_iterate in Hi as [Hi _]; [exact Hi | apply (acc_auth _ _ Ha)].
Qed.

Lemma authorizations_val p (s s' : GS (T := T)) l : authorizations p s = Ok (l, s') ->
  s' = s /\ exists h, hex_DecodeString (pp_PeerPubkey p) = Ok h /\ l = iterate h (t_authorizeInfo (gov s)).
Proof.
  unfold authorizations, hex_key. intros E. apply st_bind_Ok in E as (h & s1 & E1 & E). apply st_bind_Ok in E as (t & s2 & E2 & E).
  destruct (hex_DecodeString (pp_PeerPubkey p)) as [h'|e|] eqn:Eh; cbn in E1; try discriminate. injection E1 as <- <-. injection E2 as <- <-. injection E as <- <-. eauto.
Qed.

(** The four ends of an epoch for the authorisations of a peer. *)
Lemma epoch_ok f p m : conserving f -> triple (fun g => accounted g m) (do l <- authorizations p; update_loop f l : GM unit) (fun _ g => accounted g m).
Proof.
  intros Hf s u s' Ha E. apply st_bind_Ok in E as (l & s1 & E1 & E). apply authorizations_val in E1 as (-> & h & Eh & ->).
  exact (update_loop_ok f m _ Hf s s' u Ha (listed_iterate h _ m Ha) E).
Qed.

Ltac epoch_step := intros i j E; unfold guard in E; let H := fresh "Hz" in
  match type of E with context [if ?b then _ else _] => destruct b eqn:H end; cbn [res_bind] in E; [|discriminate]; apply Z.eqb_eq in H; injection E as <-; split; [split; reflexivity|];
  unfold all_pos; cbn [ConsensusPos CandidatePos NewPos WithdrawConsensusPos WithdrawCandidatePos WithdrawUnfreezePos].
Lemma c2c_conserving : conserving c2c_info. Proof. unfold c2c_info. epoch_step. mod64. Qed.
Lemma u2c_conserving : conserving u2c_info. Proof. unfold u2c_info. epoch_step. mod64. Qed.
Lemma c2u_conserving : conserving c2u_info. Proof. unfold c2u_info. epoch_step. mod64. Qed.
Lemma u2u_conserving : conserving u2u_info. Proof. unfold u2u_info. epoch_step. mod64. Qed.

(** ** A peer that quits *)

(** The authorisations of one valid key belong to distinct addresses. *)
Lemma own_addresses h g m : accounted g m -> valid_vrf_key h = true ->
  (forall i, i ∈ iterate h (t_authorizeInfo g) -> akey i = h ++ ai_Address i) /\ NoDup (map ai_Address (iterate h (t_authorizeInfo g))).
Proof.
  intros Ha Hv. pose proof (acc_auth _ _ Ha) as Ht.
  assert (Hk : forall i, i ∈ iterate h (t_authorizeInfo g) -> akey i = h ++ ai_Address i).
  { intros i Hi. apply in_iterate in Hi as [Hi Hp]; [|exact Ht]. destruct (Ht _ _ Hi) as (_ & (h' & Eh & Hv') & _).
    rewrite (akey_eq i h' Eh) in Hp |- *. apply is_prefix_spec in Hp as [c Hc]. rewrite (prefix_own h h' c _ Hv Hv' Hc). reflexivity. }
  split; [exact Hk|]. pose proof (nodup_iterate h _ Ht) as Hn. revert Hn Hk. generalize (iterate h (t_authorizeInfo g)) as l.
  induction l as [|i l IH]; intros Hn Hk; [constructor|]. cbn in Hn |- *. apply NoDup_cons in Hn as [Hi Hn]. apply NoDup_cons.
  split; [|apply IH; [exact Hn | intros j Hj; apply Hk; right; exact Hj]].
  intros Hin. apply Hi. apply list_elem_of_fmap in Hin as (j & Ej & Hj). apply list_elem_of_fmap. exists j. split; [|exact Hj].
  rewrite (Hk i) by left. rewrite (Hk j) by (right; exact Hj). rewrite Ej. reflexivity.
Qed.

Lemma quit_info_sum p i : same_key i (quit_info p i) /\
  all_pos (quit_info p i) ≡64 all_pos i + (if bool_decide (ai_Address i = pp_Address p) then pp_InitPos p else 0).
Proof.
  split; [split; reflexivity|]. unfold quit_info, all_pos. cbn [ConsensusPos CandidatePos NewPos WithdrawConsensusPos WithdrawCandidatePos WithdrawUnfreezePos].
  destruct (bool_decide _); mod64.
Qed.

Section Quit.
Variables (m : PeerPoolMap) (p : PeerPoolItem).
Hypothesis Hp : m !! pp_PeerPubkey p = Some p.

(** The pool in use before and after the initial stake is given back. *)
Definition quit_pool (flag : bool) : PeerPoolMap := if flag then delete (pp_PeerPubkey p) m else m.

Lemma quit_loop_flag l : forall (s s' : GS (T := T)) flag', quit_loop p l true s = Ok (flag', s') -> flag' = true.
Proof.
  induction l as [|i l IH]; intros s s' flag' E; cbn [quit_loop] in E; [injection E as <- _; reflexivity|].
  apply st_bind_Ok in E as (v & s2 & _ & E). exact (IH _ _ _ E).
Qed.

Lemma quit_loop_ok l : NoDup (map ai_Address l) -> forall (s s' : GS (T := T)) flag flag',
  (flag = true -> forall i, i ∈ l -> ai_Address i <> pp_Address p) -> accounted (gov s) (quit_pool flag) -> listed l (gov s) ->
  quit_loop p l flag s = Ok (flag', s') ->
  accounted (gov s') (quit_pool flag') /\ (flag' = false -> forall i, i ∈ l -> ai_Address i <> pp_Address p) /\
  (forall k, t_authorizeInfo (gov s) !! k = None -> t_authorizeInfo (gov s') !! k = None).
Proof.
  induction l as [|i l IH]; intros Hn s s' flag flag' Hf Ha Hl E; cbn [quit_loop] in E.
  - injection E as <- <-. split; [exact Ha|]. split; [intros _ i Hi; apply elem_of_nil in Hi as [] | auto].
  - apply st_bind_Ok in E as (v & s2 & E2 & E). apply putAuthorizeInfo_val in E2 as [_ ->].
    destruct (quit_info_sum p i) as [Hk Hs]. pose proof (proj2 Hl i ltac:(left)) as Hi. cbn in Hn. apply NoDup_cons in Hn as [Hx Hn].
    pose proof E as E0. apply IH in E; [| exact Hn | | | apply (listed_next i); [exact Hl | apply same_akey, Hk]]; cbn [gov].
    + destruct E as (E1 & E2 & E3). split; [exact E1|]. split.
      * intros Ff j Hj. apply elem_of_cons in Hj as [->|Hj]; [|exact (E2 Ff j Hj)]. intros Ea.
        rewrite Ea, bool_decide_eq_true_2, orb_true_r in E0 by reflexivity. rewrite (quit_loop_flag _ _ _ _ E0) in Ff. discriminate.
      * intros k Hk0. apply E3. cbn. rewrite lookup_insert_None. split; [exact Hk0|]. rewrite (same_akey _ _ Hk). congruence.
    + intros Hor j Hj Ej. apply orb_true_iff in Hor as [->|Hor]; [exact (Hf eq_refl j ltac:(right; exact Hj) Ej)|].
      apply bool_decide_eq_true in Hor. apply Hx. rewrite Hor, <- Ej. apply list_elem_of_fmap. eauto.
    + destruct (bool_decide (ai_Address i = pp_Address p)) eqn:Eb; [|rewrite orb_false_r].
      * apply bool_decide_eq_true in Eb. rewrite orb_true_r. destruct flag; [exfalso; exact (Hf eq_refl i ltac:(left) Eb)|].
        apply (accounted_step (gov s) m _ i _ _ Ha Hi Hk Hs); [apply pool_shaped_delete, (acc_pool _ _ Ha)|]. intros b.
        cbn [quit_pool]. rewrite owned_delete, Hp. cbn [from_option]. unfold init_of. rewrite Eb. destruct (decide _); apply eq64_eq; lia.
      * apply (accounted_step (gov s) (quit_pool flag) _ i _ _ Ha Hi Hk Hs); [apply (acc_pool _ _ Ha)|].
        intros b. destruct (decide _); apply eq64_eq; lia.
Qed.

Lemma normalQuit_ok : triple (fun g => accounted g m) (normalQuit p : GM unit) (fun _ g => accounted g (delete (pp_PeerPubkey p) m)).
Proof.
  intros s u s' Ha E. unfold normalQuit in E. apply st_bind_Ok in E as (l & s1 & E1 & E). apply authorizations_val in E1 as (-> & h & Eh & ->).
  destruct (acc_pool _ _ Ha _ _ Hp) as (_ & (h' & Eh' & Hv) & Hl). rewrite Eh in Eh'. injection Eh' as <-.
  apply st_bind_Ok in E as (flag & s2 & E2 & E). destruct (own_addresses h (gov s) m Ha Hv) as [Hk Hn].
  apply (quit_loop_ok _ Hn s s2 false flag) in E2 as (A2 & Hf & Hd); [| discriminate | exact Ha | apply (listed_iterate h _ m Ha)].
  destruct flag; cbn [negb] in E; [injection E as <- <-; exact A2|].
  apply putAuthorizeInfo_val in E as [_ ->]. cbn [gov]. set (j := mkAuth _ _ _ _ _ _ _ _).
  assert (Ek : akey j = h ++ pp_Address p) by (apply akey_eq; exact Eh).
  apply (accounted_put (gov s2) m); [exact A2 | exists h; auto | exact Hl | apply pool_shaped_delete, (acc_pool _ _ Ha) |].
  intros b. rewrite Hd, owned_delete, Hp.
  - cbn [from_option]. unfold pos_of, init_of, all_pos, j. cbn. destruct (decide _); apply eq64_eq; lia.
  - rewrite Ek. destruct (t_authorizeInfo (gov s) !! (h ++ pp_Address p)) as [i|] eqn:E; [|reflexivity]. exfalso.
    destruct (acc_auth _ _ Ha _ _ E) as (Ei & _ & Hi). assert (Hin : i ∈ iterate h (t_authorizeInfo (gov s))).
    { apply in_iterate; [apply (acc_auth _ _ Ha)|]. rewrite <- Ei. split; [exact E|]. apply is_prefix_spec. eauto. }
    apply (Hf eq_refl i Hin). rewrite (Hk i Hin) in Ei. apply app_addr_inj in Ei as [_ Ei]; auto.
Qed.

(** *** A peer that was blacklisted *)

Lemma black_info_sum gp i : same_key i (snd (black_info gp i)) /\ all_pos (snd (black_info gp i)) ≡64 all_pos i + - fst (black_info gp i).
Proof.
  split; [split; reflexivity|]. unfold black_info, all_pos. cbn [fst snd ConsensusPos CandidatePos NewPos WithdrawConsensusPos WithdrawCandidatePos WithdrawUnfreezePos].
  set (pen := _ / 100). mod64.
Qed.

(** The total of the owner falls with the authorisation. *)
Lemma accounted_black g g' m0 i j d : accounted g m0 -> t_authorizeInfo g !! akey i = Some i -> same_key i j -> all_pos j ≡64 all_pos i + - d ->
  stake_moved (ai_Address i) (- d) (upd_authorizeInfo (insert (akey j) j) g) g' -> accounted g' m0.
Proof.
  intros [H1 H2 H3 H4] Hi Hk Hd (off & n & Hm & ->). destruct (H1 _ _ Hi) as (_ & Hv & Hl). destruct Hk as [K1 K2].
  split; cbn; [| exact H2 | |].
  - apply auth_shaped_insert; [exact H1 | rewrite K1; exact Hv | rewrite K2; exact Hl].
  - intros a s Hs. apply lookup_insert_Some in Hs as [[<- <-]|[_ Hs]]; [reflexivity | exact (H3 _ _ Hs)].
  - intros b. rewrite held_insert, (same_akey i j (conj K1 K2)), Hi. cbn [from_option]. rewrite (pos_of_same i j _ b (conj K1 K2) Hd).
    cbn in Hm. unfold stake_of at 1. destruct (decide (ai_Address i = b)) as [<-|Hn].
    + rewrite lookup_insert_eq. cbn. rewrite Hm, H4. apply eq64_eq. lia.
    + rewrite lookup_insert_ne by congruence. fold (stake_of (t_totalStake g) b). rewrite H4. apply eq64_eq. lia.
Qed.

Lemma black_loop_ok gp m0 l : forall (s s' : GS (T := T)) ap ap', accounted (gov s) m0 -> listed l (gov s) ->
  black_loop gp l ap s = Ok (ap', s') -> accounted (gov s') m0.
Proof.
  induction l as [|i l IH]; intros s s' ap ap' Ha Hl E; cbn [black_loop] in E; [injection E as <- <-; exact Ha|].
  destruct (black_info gp i) as [pen j] eqn:Eb. apply st_bind_Ok in E as (v & s1 & E1 & E). apply st_bind_Ok in E as (w & s2 & E2 & E).
  apply putAuthorizeInfo_val in E1 as [_ ->]. destruct (black_info_sum gp i) as [Hk Hs]. rewrite Eb in Hk, Hs. cbn [fst snd] in Hk, Hs.
  pose proof (proj2 Hl i ltac:(left)) as Hi. apply withdraw_val in E2 as [Hm _]; [|exact (acc_total _ _ Ha)]. cbn [gov] in Hm.
  apply (IH s2 s' (u64 (ap + pen)) ap'); [exact (accounted_black _ _ _ _ _ _ Ha Hi Hk Hs Hm) | | exact E].
  destruct Hm as (off & n & _ & ->). pose proof (listed_next i j l (gov s) Hl (same_akey _ _ Hk)) as [L1 L2]. split; [exact L1 | exact L2].
Qed.

End Quit.

Lemma penalty_keeps {X} (f : Gov -> X) pk a b : (forall h g, f (upd_penaltyStake h g) = f g) -> preserves f (depositPenaltyStake pk a b : GM unit).
Proof.
  intros Hf. unfold depositPenaltyStake, getPenaltyStake, putPenaltyStake, hex_key, time_offset. pres_steps. apply pres_sets. intros g. apply Hf.
Qed.

Lemma call_keeps {X} (f : Gov -> X) c m a : preserves f (do_ native_call c m a; st_ret () : GM unit).
Proof. pres_steps. Qed.

Definition accounts (g : Gov) := (t_authorizeInfo g, t_totalStake g).

Lemma accounted_eq g g' m : accounts g' = accounts g -> accounted g m -> accounted g' m.
Proof. unfold accounts. intros E [H1 H2 H3 H4]. injection E as E1 E2. split; rewrite ?E1, ?E2; assumption. Qed.

Lemma accounted_keeps {A} (c : GM A) m : preserves accounts c -> triple (fun g => accounted g m) c (fun _ g => accounted g m).
Proof. intros Hc s a s' Ha E. exact (accounted_eq _ _ m (Hc _ _ _ E) Ha). Qed.

Lemma blackQuit_ok m p : m !! pp_PeerPubkey p = Some p ->
  triple (fun g => accounted g m) (blackQuit p : GM unit) (fun _ g => accounted g (delete (pp_PeerPubkey p) m)).
Proof.
  intros Hp s u s' Ha E. unfold blackQuit in E. apply st_bind_Ok in E as (v & s1 & E1 & E).
  apply (accounted_keeps _ m (call_keeps accounts _ _ _) s v s1 Ha) in E1 as A1.
  apply st_bind_Ok in E as (w & s2 & E2 & E). apply withdraw_val in E2 as [Hm _]; [|exact (acc_total _ _ A1)].
  assert (A2 : accounted (gov s2) (delete (pp_PeerPubkey p) m)).
  { apply (stake_moved_ok _ _ _ _ m _ Hm A1); [apply pool_shaped_delete, (acc_pool _ _ A1)|]. intros b.
    rewrite owned_delete, Hp. cbn [from_option]. unfold init_of. repeat case_decide; try congruence; apply eq64_eq; lia. }
  apply st_bind_Ok in E as (gp & s3 & E3 & E).
  assert (G3 : gov s3 = gov s2). { unfold getGlobalParam in E3. apply (pres_bind id) in E3; [exact E3 | apply pres_gets |]. intros a. pres_steps. }
  apply st_bind_Ok in E as (l & s4 & E4 & E). apply authorizations_val in E4 as (-> & h & Eh & ->).
  apply st_bind_Ok in E as (ap & s5 & E5 & E). rewrite <- G3 in A2.
  apply (black_loop_ok gp _ _ s3 s5 0 ap A2 (listed_iterate h _ _ A2)) in E5 as A5.
  exact (accounted_keeps _ _ (penalty_keeps accounts _ _ _ (fun _ g => eq_refl)) s5 u s' A5 E).
Qed.

End Accounts.
