(* ===== verification/GovMethods.v ===== *)
(** * The accounts through the methods

    The division of the fees leaves the stakes alone; the scan of the pool, the election of the
    consensus group and the change of the view keep the accounts; so does every method of the governance contract,
    from the initialisation on. *)

From S2P Require Import Prelude Codec BigInt MemDb NativeData LedgerTypes NativeService OntOng GovData GovState GovStake GovSplit GovCommit Governance GovLogic GovAccounts.

(** The pools with the view, and these with the accounts. *)
Definition pools (g : Gov) := (t_peerPool g, t_view g).
Definition core (g : Gov) := (accounts g, pools g).

Section Epoch.
Context {T : Type} `{HT : NativeEnv T} `{HK : PeerKeys} {R : RangeOrder}.
Local Notation GM := (@GM T).

(** ** What the parts leave alone *)

Lemma GetPeerPoolMap_keeps {X} (f : Gov -> X) v : preserves f (GetPeerPoolMap v : GM _).
Proof. unfold GetPeerPoolMap. pres_steps. Qed.
Lemma getGlobalParam_keeps {X} (f : Gov -> X) : preserves f (getGlobalParam : GM _).
Proof. unfold getGlobalParam. pres_steps. Qed.
Lemma getGlobalParam2_keeps {X} (f : Gov -> X) : preserves f (getGlobalParam2 : GM _).
Proof. unfold getGlobalParam2. apply pres_bind; [apply getGlobalParam_keeps | intros ?; pres_steps]. Qed.
Lemma getConfig_keeps {X} (f : Gov -> X) : preserves f (getConfig : GM _).
Proof. unfold getConfig. pres_steps. Qed.
Lemma getAuthorizeInfo_keeps {X} (f : Gov -> X) pk a : preserves f (getAuthorizeInfo pk a : GM _).
Proof. unfold getAuthorizeInfo, hex_key. pres_steps. Qed.
Lemma getPeerAttributes_keeps {X} (f : Gov -> X) pk : preserves f (getPeerAttributes pk : GM _).
Proof. unfold getPeerAttributes, hex_key. pres_steps. Qed.
Lemma authorizations_keeps {X} (f : Gov -> X) p : preserves f (authorizations p : GM _).
Proof. unfold authorizations, hex_key. pres_steps. Qed.
Lemma transfer_keeps {X} (f : Gov -> X) c a b n : preserves f (appCallTransfer c a b n : GM _).
Proof. unfold appCallTransfer. pres_steps. Qed.
Lemma transferOng_keeps {X} (f : Gov -> X) a b n : preserves f (appCallTransferOng a b n : GM _).
Proof. apply transfer_keeps. Qed.
Lemma transferOnt_keeps {X} (f : Gov -> X) a b n : preserves f (appCallTransferOnt a b n : GM _).
Proof. apply transfer_keeps. Qed.
Lemma transferFromOng_keeps {X} (f : Gov -> X) a b c n : preserves f (appCallTransferFromOng a b c n : GM _).
Proof. unfold appCallTransferFromOng, appCallTransferFrom. pres_steps. Qed.
Lemma transferFromOnt_keeps {X} (f : Gov -> X) a b c n : preserves f (appCallTransferFromOnt a b c n : GM _).
Proof. unfold appCallTransferFromOnt, appCallTransferFrom. pres_steps. Qed.
Lemma take_ont_keeps {X} (f : Gov -> X) fl a n : preserves f (take_ont fl a n : GM _).
Proof. destruct fl; [apply transferOnt_keeps | apply transferFromOnt_keeps]. Qed.
Lemma take_ong_keeps {X} (f : Gov -> X) fl a n : preserves f (take_ong fl a n : GM _).
Proof. destruct fl; [apply transferOng_keeps | apply transferFromOng_keeps]. Qed.
Lemma getOngBalance_keeps {X} (f : Gov -> X) a : preserves f (getOngBalance a : GM _).
Proof. unfold getOngBalance. pres_steps. Qed.

#[local] Hint Resolve GetPeerPoolMap_keeps getGlobalParam_keeps getGlobalParam2_keeps getConfig_keeps getAuthorizeInfo_keeps
  getPeerAttributes_keeps authorizations_keeps transferOng_keeps transferOnt_keeps transferFromOng_keeps transferFromOnt_keeps
  getOngBalance_keeps take_ont_keeps take_ong_keeps : gov.

(** *** The division of the fees *)

Lemma splitCurve_keeps {X} (f : Gov -> X) a b c : preserves f (splitCurve a b c : GM _).
Proof. unfold splitCurve, getSplitCurve. pres_steps. Qed.
Lemma weigh_keeps {X} (f : Gov -> X) avg yita l : forall n, preserves f (weigh avg yita l n : GM _).
Proof.
  induction l as [|p l IH]; intros n; cbn [weigh]; [apply pres_ret|]. apply pres_bind; [apply splitCurve_keeps|]. intros w.
  apply pres_bind; [apply IH|]. intros []. apply pres_ret.
Qed.
Lemma pay_peers_keeps {X} (f : Gov -> X) b sh sum w l : preserves f (pay_peers b sh sum w l : GM _).
Proof. induction l as [|p l IH]; cbn [pay_peers]; pres_steps. Qed.
#[local] Hint Resolve splitCurve_keeps weigh_keeps pay_peers_keeps : gov.

Lemma executeSplit_keeps {X} (f : Gov -> X) v : preserves f (executeSplit v : GM _).
Proof. unfold executeSplit. pres_steps. Qed.

(** The second division writes only the shares of the addresses. *)
Section Shares.
Context {X : Type} (f : Gov -> X) (Hf : forall h g, f (upd_splitFeeAddress h g) = f g).
Lemma putShare_keeps a x : preserves f (putSplitFeeAddress a x : GM _).
Proof. apply pres_sets, Hf. Qed.
#[local] Hint Resolve putShare_keeps : gov.
Lemma addressSplit_keeps i b1 b2 n1 n2 a : preserves f (executeAddressSplit i b1 b2 n1 n2 a : GM _).
Proof. unfold executeAddressSplit, getSplitFeeAddress. pres_steps. Qed.
Lemma split_loop_keeps b1 b2 n1 n2 a l : forall n, preserves f (split_loop b1 b2 n1 n2 a l n : GM _).
Proof. induction l as [|i l IH]; intros n; cbn [split_loop]; [apply pres_ret|]. apply pres_bind; [apply addressSplit_keeps | intros ?; apply IH]. Qed.
Lemma splitNodeFee_keeps pk a b1 b2 n1 n2 : preserves f (splitNodeFee pk a b1 b2 n1 n2 : GM _).
Proof. unfold splitNodeFee, hex_key, getPeerCost, executePeerSplit, getSplitFeeAddress. pres_steps. apply split_loop_keeps. Qed.
Lemma credit_peers_keeps m1 m2 inc sh sum w l : forall n, preserves f (credit_peers m1 m2 inc sh sum w l n : GM _).
Proof.
  induction l as [|p l IH]; intros n; cbn [credit_peers]; [apply pres_ret|]. apply pres_bind; [apply pres_lift|]. intros amt.
  destruct (m1 !! _); [|apply pres_panic]. destruct (m2 !! _); [|apply pres_panic].
  apply pres_bind; [apply splitNodeFee_keeps | intros ?; apply IH].
Qed.
#[local] Hint Resolve credit_peers_keeps : gov.
Lemma executeSplit2_keeps v : preserves f (executeSplit2 v : GM _).
Proof. unfold executeSplit2, getSplitFee, getGasAddress. pres_steps. Qed.
End Shares.

(** *** Loops over the authorisations *)

Lemma putAuthorizeInfo_pools i : preserves pools (putAuthorizeInfo i : GM _).
Proof. unfold putAuthorizeInfo, hex_key. pres_steps. Qed.
Lemma withdrawTotal_pools a n : preserves pools (withdrawTotalStake a n : GM _).
Proof. unfold withdrawTotalStake, getTotalStake, putTotalStake, time_offset. pres_steps. Qed.
Lemma depositTotal_pools a n : preserves pools (depositTotalStake a n : GM _).
Proof. unfold depositTotalStake, getTotalStake, putTotalStake, time_offset. pres_steps. Qed.
#[local] Hint Resolve putAuthorizeInfo_pools withdrawTotal_pools depositTotal_pools : gov.
Lemma update_loop_pools f l : preserves pools (update_loop f l : GM _).
Proof. induction l as [|i l IH]; cbn [update_loop]; pres_steps. Qed.
Lemma quit_loop_pools p l : forall b, preserves pools (quit_loop p l b : GM _).
Proof. induction l as [|i l IH]; intros b; cbn [quit_loop]; pres_steps. Qed.
Lemma black_loop_pools gp l : forall n, preserves pools (black_loop gp l n : GM _).
Proof. induction l as [|i l IH]; intros b; cbn [black_loop]; [apply pres_ret|]. destruct (black_info gp i). pres_steps. Qed.
#[local] Hint Resolve update_loop_pools quit_loop_pools black_loop_pools : gov.
Lemma normalQuit_pools p : preserves pools (normalQuit p : GM _).
Proof. unfold normalQuit. pres_steps. Qed.
Lemma blackQuit_pools p : preserves pools (blackQuit p : GM _).
Proof. unfold blackQuit. pres_steps. Qed.
#[local] Hint Resolve normalQuit_pools blackQuit_pools : gov.
Lemma shift_cost_keeps p : preserves core (shift_cost p : GM _).
Proof. unfold shift_cost, putPeerAttributes, hex_key. pres_steps. Qed.
Lemma core_pools {A} (c : GM A) : preserves core c -> preserves pools c.
Proof. intros H s a s' E. specialize (H _ _ _ E). unfold core in H. congruence. Qed.
Lemma core_accounts {A} (c : GM A) : preserves core c -> preserves accounts c.
Proof. intros H s a s' E. specialize (H _ _ _ E). unfold core in H. congruence. Qed.
Lemma scan_peers_pools costs l : forall m peers, preserves pools (scan_peers costs l m peers : GM _).
Proof.
  induction l as [|p l IH]; intros m peers; cbn [scan_peers]; [apply pres_ret|]. apply pres_bind.
  - apply pres_if; [apply core_pools, shift_cost_keeps | apply pres_ret].
  - intros _. apply pres_bind; [|intros []; apply IH]. unfold scan_status. pres_steps.
Qed.
Lemma elect_pools l : forall m, preserves pools (elect l m : GM _).
Proof. induction l as [|p l IH]; intros m; cbn [elect]; unfold consensusToConsensus, unConsensusToConsensus; pres_steps. Qed.
Lemma stand_by_pools l : forall m, preserves pools (stand_by l m : GM _).
Proof. induction l as [|p l IH]; intros m; cbn [stand_by]; unfold consensusToUnConsensus, unConsensusToUnConsensus; pres_steps. Qed.
Lemma update_config_keeps v : preserves core (update_config v : GM _).
Proof. unfold update_config, getPreConfig, putConfig. pres_steps. Qed.

(** ** The scan of the pool *)

(** The peers of a list are in the pool, each under its own key. *)
Definition pooled (l : list PeerPoolItem) (m : PeerPoolMap) : Prop :=
  NoDup (map pp_PeerPubkey l) /\ forall p, p ∈ l -> m !! pp_PeerPubkey p = Some p.

Lemma pooled_range m : pool_shaped m -> pooled (range_of m) m.
Proof.
  intros Hm. assert (Hl : forall pk p, m !! pk = Some p -> pp_PeerPubkey p = pk) by (intros pk p Hp; apply (Hm _ _ Hp)).
  split.
  - change (NoDup (pp_PeerPubkey <$> range_of m)). rewrite range_of_perm, <- list_fmap_compose.
    apply NoDup_fmap_2_strong; [|apply NoDup_map_to_list].
    intros [k i] [k' i'] H1 H2 E. cbn in E. apply elem_of_map_to_list in H1, H2. rewrite <- (Hl _ _ H1), <- (Hl _ _ H2). rewrite <- (Hl _ _ H1) in H1.
    rewrite <- (Hl _ _ H2), <- E in H2. rewrite E. rewrite H1 in H2. congruence.
  - intros p Hp. rewrite range_of_perm in Hp. apply list_elem_of_fmap in Hp as ([k q] & -> & Hq). apply elem_of_map_to_list in Hq. cbn.
    rewrite (Hl _ _ Hq). exact Hq.
Qed.

Lemma pooled_next p l m m' : pooled (p :: l) m -> (forall k, k <> pp_PeerPubkey p -> m' !! k = m !! k) -> pooled l m'.
Proof.
  intros [Hn Hl] Hm. cbn in Hn. apply NoDup_cons in Hn as [Hi Hn]. split; [exact Hn|]. intros q Hq. rewrite Hm; [apply Hl; right; exact Hq|].
  intros E. apply Hi. rewrite <- E. apply list_elem_of_fmap. eauto.
Qed.

Definition status_of_scan (p : PeerPoolItem) (m : PeerPoolMap) : PeerPoolMap :=
  if (pp_Status p =? QuitingStatus) || (pp_Status p =? BlackStatus) then delete (pp_PeerPubkey p) m
  else if pp_Status p =? QuitConsensusStatus then <[pp_PeerPubkey p := set_status QuitingStatus p]> m else m.

(** A round of the scan: the accounts follow the pool. *)
Lemma scan_status_ok p m peers : m !! pp_PeerPubkey p = Some p ->
  triple (fun g => accounted g m) (scan_status p m peers : GM _) (fun r g => accounted g (fst r) /\
    r = (status_of_scan p m, if is_candidate p then peers ++ [stake_info p] else peers)).
Proof.
  intros Hp s [m' peers'] s' Ha E. unfold scan_status in E. apply st_bind_Ok in E as (m1 & s1 & E1 & E). apply st_bind_Ok in E as (m2 & s2 & E2 & E).
  unfold status_of_scan, is_candidate in *. destruct (pp_Status p =? QuitingStatus) eqn:S1.
  - apply Z.eqb_eq in S1. rewrite S1 in *. apply st_bind_Ok in E1 as (u & s0 & E1 & E0). injection E0 as <- <-. injection E2 as <- <-. injection E as <- <- <-.
    split; [exact (normalQuit_ok m p Hp s u s0 Ha E1) | rewrite S1; reflexivity].
  - injection E1 as <- <-. destruct (pp_Status p =? BlackStatus) eqn:S2.
    + apply Z.eqb_eq in S2. rewrite S2 in *. apply st_bind_Ok in E2 as (u & s0 & E2 & E0). injection E0 as <- <-. injection E as <- <- <-.
      split; [exact (blackQuit_ok m p Hp s u s0 Ha E2) | rewrite S2; reflexivity].
    + injection E2 as <- <-. destruct (pp_Status p =? QuitConsensusStatus) eqn:S3; injection E as <- <- <-; cbn [fst orb].
      * split; [|apply Z.eqb_eq in S3; rewrite S3; reflexivity]. apply (accounted_same (gov s) m _ p); [exact Ha | exact Hp | reflexivity..].
      * split; [exact Ha | reflexivity].
Qed.

Lemma status_of_scan_ne p m k : k <> pp_PeerPubkey p -> status_of_scan p m !! k = m !! k.
Proof. intros Hk. unfold status_of_scan. repeat case_match; [apply lookup_delete_ne | apply lookup_insert_ne | reflexivity]; congruence. Qed.

(** The pool and the peers after the scan, as the code computes them from the list. *)
Definition scan_result (l : list PeerPoolItem) (m : PeerPoolMap) (peers : list PeerStakeInfo) : PeerPoolMap * list PeerStakeInfo :=
  (foldl (fun m p => status_of_scan p m) m l, peers ++ map stake_info (filter (fun p => is_candidate p = true) l)).

Lemma scan_peers_ok costs l : forall m peers, pooled l m ->
  triple (fun g => accounted g m) (scan_peers costs l m peers : GM _) (fun r g => accounted g (fst r) /\ r = scan_result l m peers).
Proof.
  induction l as [|p l IH]; intros m peers Hl s r s' Ha E; cbn [scan_peers] in E.
  - injection E as <- <-. split; [exact Ha|]. unfold scan_result. cbn. rewrite app_nil_r. reflexivity.
  - apply st_bind_Ok in E as (u & s1 & E1 & E). apply st_bind_Ok in E as ([m1 peers1] & s2 & E2 & E).
    assert (A1 : accounted (gov s1) m).
    { refine (accounted_keeps _ m _ s u s1 Ha E1). apply pres_if; [apply core_accounts, shift_cost_keeps | apply pres_ret]. }
    apply (scan_status_ok p m peers (proj2 Hl p ltac:(left)) s1 _ s2 A1) in E2 as [A2 E2]. cbn [fst] in A2. injection E2 as -> ->.
    apply (IH _ _ (pooled_next p l m _ Hl (status_of_scan_ne p m)) s2 r s' A2) in E as [A3 ->]. split; [exact A3|].
    unfold scan_result. cbn [foldl]. rewrite filter_cons. destruct (is_candidate p) eqn:Ec.
    + rewrite decide_True by reflexivity. cbn [map]. rewrite <- app_assoc. reflexivity.
    + rewrite decide_False by discriminate. reflexivity.
Qed.

(** ** The election *)

Lemma elect_ok l : forall m, triple (fun g => accounted g m) (elect l m : GM _) (fun m' g => accounted g m').
Proof.
  induction l as [|x l IH]; intros m s m' s' Ha E; cbn [elect] in E; [injection E as <- <-; exact Ha|].
  apply st_bind_Ok in E as (p & s1 & E1 & E). destruct (m !! si_PeerPubkey x) as [p'|] eqn:Hp; [|discriminate]. injection E1 as <- <-.
  apply st_bind_Ok in E as (u & s2 & E2 & E).
  assert (A2 : accounted (gov s2) m).
  { destruct (pp_Status p' =? ConsensusStatus); [exact (epoch_ok _ p' m c2c_conserving s u s2 Ha E2) | exact (epoch_ok _ p' m u2c_conserving s u s2 Ha E2)]. }
  refine (IH _ s2 m' s' _ E). apply (accounted_same _ m _ p'); [exact A2 | exact Hp | reflexivity..].
Qed.
Lemma stand_by_ok l : forall m, triple (fun g => accounted g m) (stand_by l m : GM _) (fun m' g => accounted g m').
Proof.
  induction l as [|x l IH]; intros m s m' s' Ha E; cbn [stand_by] in E; [injection E as <- <-; exact Ha|].
  apply st_bind_Ok in E as (p & s1 & E1 & E). destruct (m !! si_PeerPubkey x) as [p'|] eqn:Hp; [|discriminate]. injection E1 as <- <-.
  apply st_bind_Ok in E as (u & s2 & E2 & E).
  assert (A2 : accounted (gov s2) m).
  { destruct (pp_Status p' =? ConsensusStatus); [exact (epoch_ok _ p' m c2u_conserving s u s2 Ha E2) | exact (epoch_ok _ p' m u2u_conserving s u s2 Ha E2)]. }
  refine (IH _ s2 m' s' _ E). apply (accounted_same _ m _ p'); [exact A2 | exact Hp | reflexivity..].
Qed.

(** ** The next view *)

(** The view in force and the pool kept for it. *)
Definition in_view (v : GovernanceView) (m : PeerPoolMap) (g : Gov) : Prop :=
  t_view g = Some v /\ t_peerPool g !! View v = Some m.

Lemma in_view_pools v m g g' : pools g' = pools g -> in_view v m g -> in_view v m g'.
Proof. unfold pools, in_view. intros [= E1 E2]. rewrite E1, E2. auto. Qed.

Lemma next_pool_ok costs v m : triple (fun g => in_view v m g /\ accounted g m) (next_pool costs (View v) : GM _)
  (fun _ g => t_view g = Some v /\ exists m', t_peerPool g !! u32 (View v + 1) = Some m' /\ accounted g m').
Proof.
  intros s u s' [Hv Ha] E. unfold next_pool in E. apply st_bind_Ok in E as (u1 & s1 & E1 & E). pose proof (update_config_keeps _ _ _ _ E1) as C1.
  unfold core in C1. apply (f_equal snd) in C1 as P1. apply (f_equal fst) in C1 as A1. cbn [fst snd] in P1, A1.
  apply (in_view_pools _ _ _ _ P1) in Hv. apply (accounted_eq _ _ m A1) in Ha. clear E1 C1 P1 A1 s u1. rename s1 into s.
  apply st_bind_Ok in E as (m0 & s1 & E1 & E). unfold GetPeerPoolMap in E1. apply st_bind_Ok in E1 as (t & s2 & E2 & E1). injection E2 as <- <-.
  rewrite (proj2 Hv) in E1. injection E1 as <- <-.
  apply st_bind_Ok in E as ([m1 peers] & s1 & E1 & E). pose proof (scan_peers_pools _ _ _ _ _ _ _ E1) as P1.
  apply (scan_peers_ok costs _ m [] (pooled_range m (acc_pool _ _ Ha)) s _ s1 Ha) in E1 as [A1 _]. cbn [fst] in A1.
  apply (in_view_pools _ _ _ _ P1) in Hv. clear P1 Ha s.
  apply st_bind_Ok in E as (c & s2 & E2 & E). pose proof (getConfig_keeps id _ _ _ E2) as G2. unfold id in G2. rewrite <- G2 in Hv, A1. clear G2 E2 s1.
  apply st_bind_Ok in E as (u2 & s3 & E3 & E). pose proof (pres_guard id _ _ _ _ _ E3) as G3. unfold id in G3. rewrite <- G3 in Hv, A1. clear G3 E3 s2.
  apply st_bind_Ok in E as (m2 & s4 & E4 & E). apply (in_view_pools _ _ _ _ (elect_pools _ _ _ _ _ E4)) in Hv. apply (elect_ok _ _ _ _ _ A1) in E4 as A2.
  apply st_bind_Ok in E as (m3 & s5 & E5 & E). apply (in_view_pools _ _ _ _ (stand_by_pools _ _ _ _ _ E5)) in Hv. apply (stand_by_ok _ _ _ _ _ A2) in E5 as A3.
  apply st_bind_Ok in E as (u3 & s6 & E6 & E). injection E6 as <- <-. injection E as <- <-. cbn. split; [exact (proj1 Hv)|]. exists m3. split.
  - rewrite lookup_delete_ne, lookup_insert_eq; [reflexivity|]. clear. unfold u32. rewrite pow32. intros E. Z.div_mod_to_equations. lia.
  - apply (accounted_eq (gov s5)); [reflexivity | exact A3].
Qed.

End Epoch.

(** ** The accounts through the methods *)

Section Methods.
Context {T : Type} `{HT : NativeEnv T} `{HK : PeerKeys} {R : RangeOrder} {HB : FromBase58} {HT58 : Base58}.
Local Notation GM := (@GM T).

(** ** The invariant of the contract *)

(** The pool in force: none before [InitConfig], after it that of the view. *)
Definition in_force (m : PeerPoolMap) (g : Gov) : Prop :=
  match t_view g with None => m = ∅ | Some v => t_peerPool g !! View v = Some m end.
(** The accounts agree with the pool in force. *)
Definition inv (g : Gov) : Prop := exists m, in_force m g /\ accounted g m.

(** In view [v] with the pool [m] stored and the accounts of the pool [m0], which is [m] except within a method. *)
Definition ready (v : GovernanceView) (m m0 : PeerPoolMap) (g : Gov) : Prop := in_view v m g /\ accounted g m0.
Lemma ready_inv v m g : ready v m m g -> inv g.
Proof. intros [[E1 E2] Ha]. exists m. unfold in_force. rewrite E1. auto. Qed.

Lemma in_force_pools m g g' : pools g' = pools g -> in_force m g -> in_force m g'.
Proof. unfold pools, in_force. intros [= E1 E2]. rewrite E1, E2. auto. Qed.

Lemma inv_core g g' : core g' = core g -> inv g -> inv g'.
Proof.
  intros E (m & H1 & H2). exists m. unfold core in E. split; [apply (in_force_pools m g); [congruence | exact H1] | apply (accounted_eq g); [congruence | exact H2]].
Qed.
Lemma ready_core v m m0 g g' : core g' = core g -> ready v m m0 g -> ready v m m0 g'.
Proof.
  intros E [H1 H2]. split; [apply (in_view_pools v m g); [unfold core in E; congruence | exact H1] | apply (accounted_eq g); [unfold core in E; congruence | exact H2]].
Qed.

(** ** Steps of a proof *)

Lemma tb_keeps {A B} (P : Gov -> Prop) (c : GM A) (k : A -> GM B) Q :
  preserves core c -> (forall g g', core g' = core g -> P g -> P g') -> (forall a, triple P (k a) Q) -> triple P (st_bind c k) Q.
Proof. intros Hc HP Hk. apply (triple_bind P c k (fun _ => P)); [|exact Hk]. intros s a s' Hs E. exact (HP _ _ (Hc _ _ _ E) Hs). Qed.
Lemma tb_guard {B} (P : Gov -> Prop) b e (k : unit -> GM B) Q : (b = true -> triple P (k ()) Q) -> triple P (st_bind (st_guard b e) k) Q.
Proof.
  intros Hk s r s' Hs E. apply st_bind_Ok in E as ([] & s1 & E1 & E). unfold st_guard, guard in E1. destruct b; [|discriminate]. injection E1 as <-.
  exact (Hk eq_refl s r s' Hs E).
Qed.
Lemma tb_found {A B} (P : Gov -> Prop) (v : option A) e (k : A -> GM B) Q : (forall a, v = Some a -> triple P (k a) Q) -> triple P (st_bind (found v e) k) Q.
Proof.
  intros Hk s r s' Hs E. apply st_bind_Ok in E as (a & s1 & E1 & E). destruct v as [a'|]; [|discriminate]. injection E1 as <- <-. exact (Hk _ eq_refl s r s' Hs E).
Qed.
Lemma tb_lift {A B} (P : Gov -> Prop) (x : res A) (k : A -> GM B) Q : (forall a, x = Ok a -> triple P (k a) Q) -> triple P (st_bind (st_lift x) k) Q.
Proof.
  intros Hk s r s' Hs E. apply st_bind_Ok in E as (a & s1 & E1 & E). destruct x as [a'|e|]; try discriminate. injection E1 as <- <-. exact (Hk _ eq_refl s r s' Hs E).
Qed.
Lemma tb_view {B} (k : Z -> GM B) Q :
  (forall v, triple (fun g => t_view g = Some v /\ inv g) (k (View v)) Q) -> triple inv (st_bind GetView k) Q.
Proof.
  intros Hk s r s' Hs E. apply st_bind_Ok in E as (x & s1 & E1 & E). unfold GetView, GetGovernanceView in E1.
  apply st_bind_Ok in E1 as (gv & s2 & E1 & E2). apply st_bind_Ok in E1 as (o & s3 & E0 & E1). injection E0 as <- <-.
  destruct (t_view (gov s)) as [v|] eqn:Ev; [|discriminate]. injection E1 as <- <-. injection E2 as <- <-. exact (Hk v s r s' (conj Ev Hs) E).
Qed.
Lemma tb_pool {B} v (k : PeerPoolMap -> GM B) Q :
  (forall m, triple (ready v m m) (k m) Q) -> triple (fun g => t_view g = Some v /\ inv g) (st_bind (GetPeerPoolMap (View v)) k) Q.
Proof.
  intros Hk s r s' [Ev Hi] E. apply st_bind_Ok in E as (m & s1 & E1 & E). unfold GetPeerPoolMap in E1. apply st_bind_Ok in E1 as (t & s2 & E2 & E1).
  injection E2 as <- <-. destruct Hi as (m' & Hm & Ha). unfold in_force in Hm. rewrite Ev in Hm. rewrite Hm in E1. injection E1 as <- <-.
  exact (Hk m' s r s' (conj (conj Ev Hm) Ha) E).
Qed.
(** The pool is written: the accounts may already be those of the new pool, or follow later. *)
Lemma tb_putPool {B} v m m' m0 (k : unit -> GM B) Q :
  triple (ready v m' m0) (k ()) Q -> triple (ready v m m0) (st_bind (putPeerPoolMap (View v) m') k) Q.
Proof.
  intros Hk. apply (triple_bind _ _ _ (fun _ => ready v m' m0)); [|intros []; exact Hk].
  apply triple_sets. intros g [[H1 H2] H3]. split; [split; [exact H1 | apply lookup_insert_eq]|]. apply (accounted_eq g); [reflexivity | exact H3].
Qed.
Lemma t_inv v m (r : list byte) : triple (ready v m m) (st_ret r : GM _) (fun _ => inv).
Proof. intros s x s' Hs [= <- <-]. exact (ready_inv _ _ _ Hs). Qed.
Lemma t_inv_ret (r : list byte) : triple inv (st_ret r : GM _) (fun _ => inv).
Proof. intros s x s' Hs [= <- <-]. exact Hs. Qed.
Lemma inv_keeps {A} (c : GM A) : preserves core c -> triple inv c (fun _ => inv).
Proof. intros Hc s a s' Hs E. exact (inv_core _ _ (Hc _ _ _ E) Hs). Qed.

Lemma view_core v g g' : core g' = core g -> t_view g = Some v /\ inv g -> t_view g' = Some v /\ inv g'.
Proof. intros E [H1 H2]. split; [unfold core, pools in E; congruence | exact (inv_core _ _ E H2)]. Qed.

(** ** Parameters *)

Lemma decode_address src a src' : DecodeAddress src = Ok (a, src') -> is_addr a.
Proof.
  unfold DecodeAddress. intros E. apply st_bind_Ok in E as (b & s1 & _ & E). unfold AddressParseFromBytes, ADDR_LEN in E.
  destruct (zlen b =? 20) eqn:El; [|discriminate]. injection E as <- _. unfold is_addr. apply Z.eqb_eq in El. unfold zlen in El. lia.
Qed.

(** What a decoder of parameters says of its result. *)
Definition yields {A} (p : ST ZeroCopySource A) (Q : A -> Prop) : Prop := forall src a src', p src = Ok (a, src') -> Q a.
Lemma yields_address {A} (k : Address -> ST ZeroCopySource A) Q : (forall a, is_addr a -> yields (k a) Q) -> yields (st_bind DecodeAddress k) Q.
Proof. intros Hk src a src' E. apply st_bind_Ok in E as (x & s1 & E1 & E). exact (Hk x (decode_address _ _ _ E1) _ _ _ E). Qed.
Lemma yields_bind {A B} (c : ST ZeroCopySource B) (k : B -> ST ZeroCopySource A) Q : (forall a, yields (k a) Q) -> yields (st_bind c k) Q.
Proof. intros Hk src a src' E. apply st_bind_Ok in E as (x & s1 & E1 & E). exact (Hk x _ _ _ E). Qed.
Lemma yields_ret {A} (a : A) (Q : A -> Prop) : Q a -> yields (st_ret a) Q.
Proof. intros H src b src' [= <- <-]. exact H. Qed.

Lemma tb_input {A B} (P : Gov -> Prop) (p : ST ZeroCopySource A) (QA : A -> Prop) (k : A -> GM B) Q :
  yields p QA -> (forall a, QA a -> triple P (k a) Q) -> triple P (st_bind (gov_input p) k) Q.
Proof.
  intros Hy Hk s r s' Hs E. apply st_bind_Ok in E as (a & s1 & E1 & E). unfold gov_input in E1. apply st_bind_Ok in E1 as (i & s2 & E2 & E1).
  injection E2 as <- <-. unfold decode in E1. destruct (p (NewZeroCopySource (ne_Input (env s)))) as [[b src]|e|] eqn:Ep; try discriminate.
  injection E1 as <- <-. exact (Hk b (Hy _ _ _ Ep) s r s' Hs E).
Qed.
Lemma yields_true {A} (p : ST ZeroCopySource A) : yields p (fun _ => True).
Proof. intros src a src' _. exact I. Qed.

Lemma ValidateOwner_keeps {X} (f : Gov -> X) a : preserves f (ValidateOwner a : GM _).
Proof. unfold ValidateOwner. pres_steps. Qed.
Lemma check_operator_keeps {X} (f : Gov -> X) : preserves f (check_operator : GM _).
Proof. unfold check_operator, ValidateOwner. pres_steps. Qed.
Lemma new_version_keeps {X} (f : Gov -> X) : preserves f (new_version : GM _).
Proof. unfold new_version. pres_steps. Qed.
Lemma verifyToken_keeps {X} (f : Gov -> X) a b c d : preserves f (appCallVerifyToken a b c d : GM _).
Proof. unfold appCallVerifyToken. pres_steps. Qed.
Lemma getPromisePos_keeps {X} (f : Gov -> X) pk : preserves f (getPromisePos pk : GM _).
Proof. unfold getPromisePos. pres_steps. Qed.
Lemma getSplitFeeAddress_keeps {X} (f : Gov -> X) a : preserves f (getSplitFeeAddress a : GM _).
Proof. unfold getSplitFeeAddress. pres_steps. Qed.
Lemma getSplitFee_keeps {X} (f : Gov -> X) : preserves f (getSplitFee : GM _).
Proof. unfold getSplitFee. pres_steps. Qed.
Lemma putPromisePos_keeps p : preserves core (putPromisePos p : GM _).
Proof. unfold putPromisePos. pres_steps. Qed.
Lemma putPeerAttributes_keeps p : preserves core (putPeerAttributes p : GM _).
Proof. unfold putPeerAttributes. pres_steps. Qed.

End Methods.

#[export] Hint Resolve GetPeerPoolMap_keeps getGlobalParam_keeps getGlobalParam2_keeps getConfig_keeps getAuthorizeInfo_keeps
  getPeerAttributes_keeps transferOng_keeps transferOnt_keeps transferFromOng_keeps transferFromOnt_keeps take_ont_keeps take_ong_keeps
  ValidateOwner_keeps check_operator_keeps new_version_keeps verifyToken_keeps getPromisePos_keeps getSplitFeeAddress_keeps getSplitFee_keeps
  putPromisePos_keeps putPeerAttributes_keeps putAuthorizeInfo_pools withdrawTotal_pools depositTotal_pools : gov.
#[export] Hint Resolve inv_core ready_core view_core : gov.

(** [yields_steps] follows a decoder of parameters. *)
Ltac yields_steps := repeat first [apply yields_address; intros ? ? | apply yields_bind; intros ? | apply yields_ret].

(** [keep] passes over a step that leaves the accounts and the pools alone. *)
Ltac keep := apply tb_keeps; [solve [pres_steps] | solve [eauto with gov] | intros ?].
