(* ===== verification/GovExample.v ===== *)
(** * A small governance state

    Instances of what the contract takes from outside, and a state with one consensus peer and one authorisation, for
    the examples of the theorems about the contract. *)

From S2P Require Import Prelude Codec BigInt MemDb NativeData LedgerTypes NativeService OntOng GovData GovState GovStake GovSplit GovCommit Governance GovLogic GovAccounts GovMethods.

Module GovExample.

(** Calls of other contracts succeed, the contract owns 1000000, every witness is present. *)
Record Chain := mkChain { c_height : Z; c_input : list byte }.
#[export] Instance chain_env : NativeEnv Chain := {|
  ne_NativeCall _ m _ t := Ok (if String.eqb m "balanceOf" then [x40; x42; x0f] else BYTE_TRUE, t); ne_Height := c_height; ne_Time _ := GENESIS_BLOCK_TIMESTAMP; ne_TxHash _ := [];
  ne_Input := c_input; ne_Contract _ := GovernanceContractAddress; ne_CheckWitness _ _ := true; ne_Operator _ := Ok OntContractAddress |}.

(** Keys of 33 bytes. *)
#[export] Instance keys_33 : PeerKeys.
Proof.
  refine {| valid_vrf_key h := (length h =? 33)%nat |}. intros a b Ha Hb. apply Nat.eqb_eq in Ha, Hb. rewrite length_app in Hb.
  apply length_zero_iff_nil. lia.
Defined.
#[export] Instance range_sorted : RangeOrder := {| range_of m := (map_to_list m).*2; range_of_perm m := reflexivity _ |}.
(** Texts are addresses already. *)
#[export] Instance from_58 : FromBase58.
Proof.
  refine {| AddressFromBase58 x := if (length x =? 20)%nat then Ok x else Err "length" |}. intros x a E.
  destruct (length x =? 20)%nat eqn:El; [|discriminate]. injection E as <-. apply Nat.eqb_eq, El.
Defined.
#[export] Instance to_58 : Base58 := {| ToBase58 a := a |}.

Definition peer_key : PubKey := repeat x30 66.
Definition peer_hex : list byte := repeat x00 33.
Definition owner : Address := repeat x01 20.
Definition user : Address := repeat x02 20.
Definition peer : PeerPoolItem := mkPeer 1 peer_key owner ConsensusStatus 10000 1000.
Definition entry : AuthorizeInfo := mkAuth peer_key user 1000 0 0 500 300 200.
Definition pool : PeerPoolMap := {[peer_key := peer]}.

Definition start : Gov := {|
  t_globalParam := Some (Ok (mkGlobal 500000000000 10000 49 20 50 50 5 5));
  t_globalParam2 := None;
  t_config := Some (mkConfig 7 1 1 112 10000 10000 10 10000);
  t_preConfig := None;
  t_view := Some (mkView 1 0 []);
  t_candidateIndex := Some 2;
  t_peerPool := <[1 := pool]> {[0 := pool]};
  t_peerIndex := {[peer_hex := 1]};
  t_blackList := ∅;
  t_totalStake := <[owner := mkTotal owner 10000 0]> {[user := mkTotal user 2000 0]};
  t_penaltyStake := ∅;
  t_splitCurve := Some (mkCurve INIT_CURVE);
  t_peerAttributes := {[peer_hex := mkAttr peer_key 100000 100 100 100 [] [] [] []]};
  t_splitFee := None;
  t_splitFeeAddress := ∅;
  t_promisePos := ∅;
  t_gasAddress := None;
  t_authorizeInfo := {[peer_hex ++ user := entry]} |}.
Definition at_height (h : Z) (input : list byte) : GS (T := Chain) := mkGS start (mkChain h input).

(** The same tables in view 7. *)
Definition start7 : Gov := upd_view (mkView 7 0 []) (upd_peerPool (fun t => <[7 := pool]> (<[6 := pool]> t)) start).
Definition at_height7 (h : Z) (input : list byte) : GS (T := Chain) := mkGS start7 (mkChain h input).

Lemma hex_peer : hex_DecodeString peer_key = Ok peer_hex.
Proof. reflexivity. Qed.
Lemma peer_valid : valid_pubkey peer_key.
Proof. exists peer_hex. split; reflexivity. Qed.

Lemma in_pool pk p : pool !! pk = Some p -> pk = peer_key /\ p = peer.
Proof. unfold pool. intros Hp. pose proof (proj1 (lookup_singleton_Some _ _ _ _) Hp) as [<- <-]. auto. Qed.
Lemma msum_one {K V} `{Countable K} (f : V -> Z) (k : K) v : msum f ({[k := v]} : gmap K V) = f v.
Proof. rewrite <- insert_empty, msum_new, msum_empty by apply lookup_empty. lia. Qed.
Lemma start_accounted : accounted start pool.
Proof.
  split.
  - intros k i Hi. cbn [start t_authorizeInfo] in Hi. apply lookup_singleton_Some in Hi as [<- <-]. split; [reflexivity|]. split; [exact peer_valid | reflexivity].
  - intros pk p Hp. apply in_pool in Hp as [-> ->]. split; [reflexivity|]. split; [exact peer_valid | reflexivity].
  - intros a t Ht. cbn [start t_totalStake] in Ht. apply lookup_insert_Some in Ht as [[<- <-]|[_ Ht]]; [reflexivity|]. apply lookup_singleton_Some in Ht as [<- <-]. reflexivity.
  - intros a. apply eq64_eq. transitivity (pos_of a entry + init_of a peer).
    + unfold stake_of, pos_of, init_of. cbn [start t_totalStake]. change (ai_Address entry) with user. change (pp_Address peer) with owner.
      destruct (decide (a = owner)) as [->|Ho]; [reflexivity|]. rewrite lookup_insert_ne by congruence.
      destruct (decide (a = user)) as [->|Hu]; [reflexivity|]. rewrite lookup_singleton_ne by congruence.
      rewrite !decide_False by congruence. reflexivity.
    + f_equal; symmetry; [apply (msum_one (pos_of a)) | apply (msum_one (init_of a))].
Qed.
Lemma start_inv : inv start.
Proof. exists pool. split; [reflexivity | exact start_accounted]. Qed.

(** A computation that returns, from its evaluation. *)
Definition returns {A S} (r : res (A * S)) : bool := match r with Ok _ => true | _ => false end.
Lemma returns_Ok {A S} (r : res (A * S)) : returns r = true -> exists a s, r = Ok (a, s).
Proof. destruct r as [[a s]|e|]; [eauto | discriminate..]. Qed.

(** [user] authorises the peer with 500 more. *)
Definition authorize_args : list byte :=
  match sink_bytes_of (Gser.AuthorizeForPeerParam (mkPosList user [peer_key] [500])) with Ok b => b | _ => [] end.

End GovExample.
