(* ===== verification/GovSafe.v ===== *)
(** * Safety of the stakes

    Method by method: the accounts are kept.  [governance_stakes_accounted] collects them. *)

From S2P Require Import Prelude Codec BigInt MemDb NativeData LedgerTypes NativeService OntOng GovData GovState GovStake GovSplit GovCommit Governance GovLogic GovAccounts GovMethods GovExample.

Section Safe.
Context {T : Type} `{HT : NativeEnv T} `{HK : PeerKeys} {R : RangeOrder} {HB : FromBase58} {HT58 : Base58}.
Local Notation GM := (@GM T).
Local Notation safe c := (triple inv (c : GM (list byte)) (fun _ => inv)).

(** ** Candidates *)

(** A peer joins the pool or its initial stake grows, and the total of its owner with it. *)
Lemma t_deposit v m m0 a d : pool_shaped m -> (forall b, owned m b ≡64 owned m0 b + (if decide (b = a) then d else 0)) ->
  triple (ready v m m0) (depositTotalStake a d : GM unit) (fun _ => ready v m m).
Proof.
  intros Hm Ho s u s' [H1 H2] E. split; [exact (in_view_pools _ _ _ _ (depositTotal_pools _ _ _ _ _ E) H1)|].
  apply deposit_val in E; [|exact (acc_total _ _ H2)]. exact (stake_moved_ok _ _ _ _ m0 m E H2 Hm Ho).
Qed.

Lemma keep_result {A} (P : Gov -> Prop) (c : GM unit) (Q : Gov -> Prop) (r : A) : triple P c (fun _ => Q) -> triple P (do_ c; st_ret r) (fun _ => Q).
Proof. intros Hc. apply (triple_bind _ _ _ (fun _ => Q)); [exact Hc|]. intros u s x s' Hs [= <- <-]. exact Hs. Qed.

Lemma validate_valid pk : validatePeerPubKeyFormat pk = Ok () -> valid_pubkey pk.
Proof.
  unfold validatePeerPubKeyFormat, guard. intros E. apply res_bind_Ok in E as (h & Eh & E). destruct (valid_vrf_key h) eqn:Ev; [|discriminate]. exists h. auto.
Qed.

Lemma ready_pool v m m0 {A} (c : GM A) Q : (pool_shaped m0 -> triple (ready v m m0) c Q) -> triple (ready v m m0) c Q.
Proof. intros H s a s' Hs E. exact (H (acc_pool _ _ (proj2 Hs)) s a s' Hs E). Qed.

Lemma registerCandidate_ok flag : triple inv (registerCandidate flag : GM unit) (fun _ => inv).
Proof.
  unfold registerCandidate. apply (tb_input _ _ (fun p => is_addr (rc_Address p))); [unfold Gdes.RegisterCandidateParam; yields_steps; assumption|].
  intros p Hp. keep. apply tb_guard. intros _. keep. keep. apply tb_view. intros v.
  apply tb_lift. intros u Hval. destruct u. keep. keep. keep. apply tb_pool. intros m. apply ready_pool. intros Hm. apply tb_guard. intros Hnew.
  apply bool_decide_eq_true in Hnew. apply tb_putPool. keep. keep. keep.
  eapply triple_conseq; [apply t_deposit | intros g Hg; exact Hg | intros ? g; apply ready_inv].
  - apply pool_shaped_insert; [exact Hm | reflexivity | apply validate_valid, Hval | exact Hp].
  - intros b. rewrite owned_insert, Hnew. cbn [from_option]. unfold init_of. cbn. repeat case_decide; try congruence; apply eq64_eq; lia.
Qed.

(** What [getAuthorizeInfo] returned is the entry of the table, or a fresh one. *)
Definition got (pk : PubKey) (a : Address) (i : AuthorizeInfo) (g : Gov) : Prop :=
  exists h, hex_DecodeString pk = Ok h /\ i = default (mkAuth pk a 0 0 0 0 0 0) (t_authorizeInfo g !! (h ++ a)).

Lemma tb_getAuth {B} (P : Gov -> Prop) pk a (k : AuthorizeInfo -> GM B) Q :
  (forall i, triple (fun g => P g /\ got pk a i g) (k i) Q) -> triple P (st_bind (getAuthorizeInfo pk a) k) Q.
Proof.
  intros Hk s r s' Hs E. apply st_bind_Ok in E as (i & s1 & E1 & E). apply getAuthorizeInfo_val in E1 as (-> & h & Eh & Ei).
  apply (Hk i s r s'); [|exact E]. split; [exact Hs | exists h; auto].
Qed.

(** The entry grows by [d], and the pool of the accounts shrinks by as much. *)
Lemma tb_putAuth {B} v m m0 m1 pk a i j d (k : unit -> GM B) Q : valid_pubkey pk -> is_addr a -> same_key i j -> all_pos j ≡64 all_pos i + d ->
  pool_shaped m1 -> (forall b, owned m1 b + (if decide (a = b) then d else 0) ≡64 owned m0 b) ->
  triple (ready v m m1) (k ()) Q -> triple (fun g => ready v m m0 g /\ got pk a i g) (st_bind (putAuthorizeInfo j) k) Q.
Proof.
  intros Hv Ha Hk Hd Hm Ho HQ. apply (triple_bind _ _ _ (fun _ => ready v m m1)); [|intros []; exact HQ].
  intros s u s' [[H1 H2] (h & Eh & Ei)] E. split; [exact (in_view_pools _ _ _ _ (putAuthorizeInfo_pools _ _ _ _ E) H1)|].
  apply putAuthorizeInfo_val in E as [_ ->]. cbn [gov]. destruct (get_shape _ pk h a (acc_auth _ _ H2) Hv Eh Ha) as (S1 & S2 & S3 & S4).
  rewrite <- Ei in S1, S2, S3, S4. apply (accounted_put (gov s) m0); [exact H2 | rewrite (proj1 Hk); exact S3 | rewrite (proj2 Hk), S1; exact Ha | exact Hm |].
  intros b. rewrite (same_akey i j Hk), S2, S4, (pos_of_same i j d b Hk Hd), S1, <- (Ho b). apply eq64_eq. lia.
Qed.

Lemma unfreeze_sum d i : same_key i (unfreeze d i) /\ all_pos (unfreeze d i) ≡64 all_pos i + d.
Proof. split; [split; reflexivity|]. unfold unfreeze, all_pos. cbn. mod64. Qed.

Lemma owned_remove m pk p b : m !! pk = Some p -> owned (delete pk m) b + (if decide (pp_Address p = b) then pp_InitPos p else 0) ≡64 owned m b.
Proof. intros Hp. rewrite owned_delete, Hp. cbn [from_option]. unfold init_of. apply eq64_eq. lia. Qed.

Lemma UnRegisterCandidate_ok : safe UnRegisterCandidate.
Proof.
  unfold UnRegisterCandidate. apply (tb_input _ _ (fun _ => True)); [apply yields_true|]. intros p _. keep. apply tb_view. intros v. apply tb_pool. intros m.
  apply ready_pool. intros Hm. apply tb_found. intros q Hq. apply tb_guard. intros _. apply tb_guard. intros Ea. apply bool_decide_eq_true in Ea.
  destruct (Hm _ _ Hq) as (E1 & Hv & Hl).
  apply tb_getAuth. intros i. destruct (unfreeze_sum (pp_InitPos q) i) as [U1 U2].
  apply (tb_putAuth v m m (delete (pk_PeerPubkey p) m) (pk_PeerPubkey p) (pk_Address p) i _ (pp_InitPos q));
    [exact Hv | rewrite <- Ea; exact Hl | exact U1 | exact U2 | apply pool_shaped_delete, Hm | intros b; rewrite <- Ea; apply owned_remove, Hq |].
  apply tb_putPool. apply t_inv.
Qed.

Lemma RejectCandidate_ok : safe RejectCandidate.
Proof.
  unfold RejectCandidate. apply (tb_input _ _ (fun _ => True)); [apply yields_true|]. intros p _. keep. apply tb_view. intros v. apply tb_pool. intros m.
  apply ready_pool. intros Hm. apply tb_found. intros q Hq. apply tb_guard. intros _. destruct (Hm _ _ Hq) as (E1 & Hv & Hl).
  apply tb_getAuth. intros i. destruct (unfreeze_sum (pp_InitPos q) i) as [U1 U2].
  apply (tb_putAuth v m m (delete (pr_PeerPubkey p) m) (pr_PeerPubkey p) (pp_Address q) i _ (pp_InitPos q));
    [exact Hv | exact Hl | exact U1 | exact U2 | apply pool_shaped_delete, Hm | intros b; apply owned_remove, Hq |].
  apply tb_putPool. apply t_inv.
Qed.

(** A peer is rewritten with the same owner and initial stake. *)
Lemma ready_same v m m0 pk p q {A} (c : GM A) Q : m0 !! pk = Some p -> pp_PeerPubkey q = pp_PeerPubkey p -> pp_Address q = pp_Address p ->
  pp_InitPos q = pp_InitPos p -> triple (ready v m (<[pk := q]> m0)) c Q -> triple (ready v m m0) c Q.
Proof.
  intros H1 H2 H3 H4 Hc s a s' [Hs1 Hs2] E. apply (Hc s a s'); [|exact E]. split; [exact Hs1 | exact (accounted_same _ _ _ _ _ Hs2 H1 H2 H3 H4)].
Qed.

Lemma assign_index_keeps h : preserves core (assign_index h : GM _).
Proof. unfold assign_index, getCandidateIndex, putCandidateIndex. pres_steps. Qed.
#[local] Hint Resolve assign_index_keeps : gov.

Lemma ApproveCandidate_ok : safe ApproveCandidate.
Proof.
  unfold ApproveCandidate. apply (tb_input _ _ (fun _ => True)); [apply yields_true|]. intros p _. keep. apply tb_view. intros v. keep. apply tb_pool. intros m.
  apply tb_guard. intros _. apply tb_found. intros q Hq. apply tb_guard. intros _. apply tb_guard. intros _. keep. keep. keep. keep.
  apply (ready_same v m m _ q (mkPeer a4 (pp_PeerPubkey q) (pp_Address q) CandidateStatus (pp_InitPos q) 0) _ _ Hq eq_refl eq_refl eq_refl).
  apply tb_putPool. apply t_inv.
Qed.

Lemma QuitNode_ok : safe QuitNode.
Proof.
  unfold QuitNode. apply (tb_input _ _ (fun _ => True)); [apply yields_true|]. intros p _. keep. apply tb_view. intros v. apply tb_pool. intros m. keep.
  apply tb_found. intros q Hq. apply tb_guard. intros _. apply tb_guard. intros _. apply tb_guard. intros _.
  eapply (ready_same v m m _ q (set_status _ q) _ _ Hq eq_refl eq_refl eq_refl). apply tb_putPool. apply t_inv.
Qed.

(** ** Epochs *)

Lemma executeCommitDpos_ok : triple inv (executeCommitDpos : GM unit) (fun _ => inv).
Proof.
  intros s u s' Hi E. unfold executeCommitDpos in E. apply st_bind_Ok in E as (gv & s1 & E1 & E). unfold GetGovernanceView in E1.
  apply st_bind_Ok in E1 as (o & s2 & E0 & E1). injection E0 as <- <-. destruct Hi as (m & Hm & Ha). unfold in_force in Hm. destruct (t_view (gov s)) as [v|] eqn:Ev; [|discriminate]. injection E1 as <- <-.
  apply st_bind_Ok in E as (ht & s2 & E2 & E). injection E2 as <- <-.
  apply st_bind_Ok in E as (u1 & s3 & E3 & E). apply (pres_guard id) in E3. unfold id in E3. rewrite <- E3 in Ev, Hm, Ha. clear E3 s. rename s3 into s.
  apply st_bind_Ok in E as (u2 & s4 & E4 & E).
  assert (H4 : t_view (gov s4) = Some v /\ exists m', t_peerPool (gov s4) !! u32 (View v + 1) = Some m' /\ accounted (gov s4) m').
  { destruct (View v <=? NEW_VERSION_VIEW).
    - unfold executeCommitDpos1, GetGovernanceView in E4. apply st_bind_Ok in E4 as (gv & s5 & E5 & E4). apply st_bind_Ok in E5 as (o & s6 & E6 & E5).
      injection E6 as <- <-. rewrite Ev in E5. injection E5 as <- <-. apply st_bind_Ok in E4 as (x & s5 & E5 & E4).
      pose proof (executeSplit_keeps id _ _ _ _ E5) as G5. unfold id in G5. rewrite <- G5 in Ev, Hm, Ha. exact (next_pool_ok false v m s5 u2 s4 (conj (conj Ev Hm) Ha) E4).
    - unfold executeCommitDpos2, GetGovernanceView in E4. apply st_bind_Ok in E4 as (gv & s5 & E5 & E4). apply st_bind_Ok in E5 as (o & s6 & E6 & E5).
      injection E6 as <- <-. rewrite Ev in E5. injection E5 as <- <-. apply st_bind_Ok in E4 as (x & s5 & E5 & E4).
      destruct (ready_core v m m _ _ (executeSplit2_keeps core ltac:(intros ? []; reflexivity) _ _ _ _ E5) (conj (conj Ev Hm) Ha)) as [Hv5 A5].
      apply st_bind_Ok in E4 as (y & s6 & E6 & E4). apply (next_pool_ok true v m s5 y s6 (conj Hv5 A5)) in E6 as (Ev6 & m' & Hm6 & A6).
      apply st_bind_Ok in E4 as (f & s7 & E7 & E4). injection E7 as <- <-. injection E4 as <- <-. cbn. split; [exact Ev6|]. exists m'. split; [exact Hm6|].
      apply (accounted_eq (gov s6)); [reflexivity | exact A6]. }
  destruct H4 as (_ & m' & Hm' & Ha'). apply st_bind_Ok in E as (h1 & s5 & E5 & E). injection E5 as <- <-. apply st_bind_Ok in E as (h2 & s5 & E5 & E). injection E5 as <- <-.
  injection E as <- <-. exists m'. split; [exact Hm'|]. apply (accounted_eq (gov s4)); [reflexivity | exact Ha'].
Qed.

Lemma CommitDpos_ok : safe CommitDpos.
Proof.
  unfold CommitDpos, GetGovernanceView. keep. keep. keep. keep. keep. keep. apply tb_guard. intros _. apply keep_result. exact executeCommitDpos_ok.
Qed.

Lemma black_list_ok v m0 l : forall m commit, triple (ready v m0 m) (black_list l m commit : GM _) (fun r => ready v m0 (fst r)).
Proof.
  induction l as [|pk l IH]; intros m commit; cbn [black_list]; [intros s r s' Hs [= <- <-]; exact Hs|].
  keep. apply tb_found. intros p Hp. keep. apply (ready_same v m0 m pk p (set_status BlackStatus p) _ _ Hp eq_refl eq_refl eq_refl). apply IH.
Qed.

Lemma BlackNode_ok : safe BlackNode.
Proof.
  unfold BlackNode. apply (tb_input _ _ (fun _ => True)); [apply yields_true|]. intros p _. keep. apply tb_view. intros v. apply tb_pool. intros m.
  apply (triple_bind _ _ _ (fun r => ready v m (fst r))); [apply black_list_ok|]. intros [m' commit]. cbn [fst].
  apply tb_putPool. apply keep_result. destruct commit; [|intros s u s' Hs [= <- <-]; exact (ready_inv _ _ _ Hs)].
  intros s u s' Hs. apply executeCommitDpos_ok. exact (ready_inv _ _ _ Hs).
Qed.

(** ** Methods that leave the stakes alone *)

Lemma input_keeps {X A} (f : Gov -> X) (p : ST ZeroCopySource A) : preserves f (gov_input p : GM A).
Proof. unfold gov_input. pres_steps. Qed.
#[local] Hint Resolve input_keeps : gov.

Lemma GetView_keeps {X} (f : Gov -> X) : preserves f (GetView : GM _).
Proof. unfold GetView, GetGovernanceView. pres_steps. Qed.
#[local] Hint Resolve GetView_keeps : gov.
Lemma owned_peer_keeps {X} (f : Gov -> X) pk a : preserves f (owned_peer pk a : GM _).
Proof. unfold owned_peer. pres_steps. Qed.
#[local] Hint Resolve owned_peer_keeps : gov.

Lemma WhiteNode_ok : safe WhiteNode. Proof. apply inv_keeps. unfold WhiteNode. pres_steps. Qed.
Lemma UpdateConfig_ok : safe UpdateConfig. Proof. apply inv_keeps. unfold UpdateConfig, putPreConfig. pres_steps. Qed.
Lemma UpdateGlobalParam_ok : safe UpdateGlobalParam. Proof. apply inv_keeps. unfold UpdateGlobalParam, putGlobalParam. pres_steps. Qed.
Lemma UpdateGlobalParam2_ok : safe UpdateGlobalParam2. Proof. apply inv_keeps. unfold UpdateGlobalParam2, putGlobalParam2. pres_steps. Qed.
Lemma UpdateSplitCurve_ok : safe UpdateSplitCurve. Proof. apply inv_keeps. unfold UpdateSplitCurve, putSplitCurve. pres_steps. Qed.
Lemma TransferPenalty_ok : safe TransferPenalty.
Proof. apply inv_keeps. unfold TransferPenalty, withdrawPenaltyStake, getPenaltyStake, time_offset. pres_steps. Qed.
Lemma ChangeMaxAuthorization_ok : safe ChangeMaxAuthorization. Proof. apply inv_keeps. unfold ChangeMaxAuthorization. pres_steps. Qed.
Lemma SetPeerCost_ok : safe SetPeerCost. Proof. apply inv_keeps. unfold SetPeerCost. pres_steps. Qed.
Lemma WithdrawFee_ok : safe WithdrawFee. Proof. apply inv_keeps. unfold WithdrawFee, putSplitFee. pres_steps. Qed.
Lemma SetPromisePos_ok : safe SetPromisePos. Proof. apply inv_keeps. unfold SetPromisePos. pres_steps. Qed.
Lemma SetGasAddress_ok : safe SetGasAddress. Proof. apply inv_keeps. unfold SetGasAddress, putGasAddress. pres_steps. Qed.

(** ** Authorisations taken back *)

Lemma unauthorize_sum status pos i j : unauthorize_info status pos i = Ok j -> same_key i j /\ all_pos j ≡64 all_pos i + 0.
Proof.
  unfold unauthorize_info, guard. intros E. repeat (case_match; cbn [res_bind] in E; try discriminate); injection E as <-; (split; [split; reflexivity|]);
    unfold all_pos; cbn; mod64.
Qed.

Lemma unauthorize_one_ok v m0 gp2 a pk pos m : is_addr a ->
  triple (ready v m0 m) (unauthorize_one gp2 a pk pos m : GM _) (fun m' => ready v m0 m').
Proof.
  intros Ha. unfold unauthorize_one. apply ready_pool. intros Hm. apply tb_getAuth. intros i. apply tb_guard. intros _. cbv zeta.
  match goal with |- triple _ (st_bind ?c _) _ => assert (Hc : reads c) end.
  { unfold reads. pres_steps. }
  apply (triple_bind _ _ _ (fun _ g => ready v m0 m g /\ got pk a i g)); [apply triple_reads, Hc|]. intros pos'.
  apply tb_found. intros q Hq. apply tb_guard. intros _. apply tb_lift. intros j Hj. destruct (unauthorize_sum _ _ _ _ Hj) as [U1 U2].
  destruct (Hm _ _ Hq) as (E1 & Hv & Hl). apply (tb_putAuth v m0 m m pk a i j 0);
    [exact Hv | exact Ha | exact U1 | exact U2 | exact Hm | intros b; destruct (decide _); apply eq64_eq; lia |].
  eapply (ready_same v m0 m pk q (set_pos (pp_InitPos q) _ q) _ _ Hq eq_refl eq_refl eq_refl). intros s r s' Hs [= <- <-]. exact Hs.
Qed.

Lemma unauthorize_loop_ok v m0 gp2 a keys : is_addr a -> forall poss m,
  triple (ready v m0 m) (unauthorize_loop gp2 a keys poss m : GM _) (fun m' => ready v m0 m').
Proof.
  intros Ha. induction keys as [|pk keys IH]; intros poss m; cbn [unauthorize_loop]; [intros s r s' Hs [= <- <-]; exact Hs|].
  destruct poss as [|pos poss]; [apply triple_panic|]. apply (triple_bind _ _ _ (fun m' => ready v m0 m')); [apply unauthorize_one_ok, Ha | intros m'; apply IH].
Qed.

Lemma yields_poslist key : yields (Gdes.PosListParam key) (fun p => is_addr (al_Address p)).
Proof. unfold Gdes.PosListParam. yields_steps. assumption. Qed.

Lemma UnAuthorizeForPeer_ok : safe UnAuthorizeForPeer.
Proof.
  unfold UnAuthorizeForPeer. apply (tb_input _ _ _ _ _ (yields_poslist _)). intros p Hp. keep. apply tb_view. intros v. apply tb_pool. intros m. keep.
  apply (triple_bind _ _ _ (fun m' => ready v m m')); [apply unauthorize_loop_ok, Hp|]. intros m'. apply tb_putPool. apply t_inv.
Qed.

(** ** The owner of a peer *)

Lemma tb_owned {B} pk a (k : Z * PeerPoolMap * PeerPoolItem -> GM B) Q :
  (forall v m q, m !! pk = Some q -> pp_Address q = a -> triple (ready v m m) (k (View v, m, q)) Q) -> triple inv (st_bind (owned_peer pk a) k) Q.
Proof.
  intros Hk. apply (triple_bind _ _ _ (fun r g => exists v m q, r = (View v, m, q) /\ ready v m m g /\ m !! pk = Some q /\ pp_Address q = a)).
  - apply tb_view. intros v. apply tb_pool. intros m. apply tb_found. intros q Hq. apply tb_guard. intros Ea. apply bool_decide_eq_true in Ea.
    intros s r s' Hs [= <- <-]. exists v, m, q. auto.
  - intros x s r s' (v & m & q & -> & Hs & Hq & Ea). exact (Hk v m q Hq Ea s r s' Hs).
Qed.

Lemma AddInitPos_ok : safe AddInitPos.
Proof.
  unfold AddInitPos. keep. apply (tb_input _ _ (fun _ => True)); [apply yields_true|]. intros p _. keep. apply tb_guard. intros _.
  apply tb_owned. intros v m' q Hq Ea. apply ready_pool. intros Hm. destruct (Hm _ _ Hq) as (E1 & Hv & Hl). apply tb_guard. intros _.
  apply tb_putPool. keep. apply keep_result. eapply triple_conseq; [apply t_deposit | intros g Hg; exact Hg | intros ? g; apply ready_inv].
  - apply pool_shaped_insert; [exact Hm | exact E1 | exact Hv | exact Hl].
  - intros b. rewrite owned_insert, Hq. cbn [from_option]. unfold init_of. cbn. rewrite Ea. repeat case_decide; try congruence; [|apply eq64_eq; lia]. mod64.
Qed.

Lemma reduce_sum status pos i j : reduce_info status pos i = Ok j -> same_key i j /\ all_pos j ≡64 all_pos i + pos.
Proof.
  unfold reduce_info. intros E. repeat (case_match; try discriminate); injection E as <-; (split; [split; reflexivity|]); unfold all_pos; cbn; mod64.
Qed.

Lemma ReduceInitPos_ok : safe ReduceInitPos.
Proof.
  unfold ReduceInitPos. keep. apply (tb_input _ _ (fun _ => True)); [apply yields_true|]. intros p _. keep. apply tb_guard. intros _.
  apply tb_owned. intros v m' q Hq Ea. apply ready_pool. intros Hm. destruct (Hm _ _ Hq) as (E1 & Hv & Hl). apply tb_guard. intros _. cbv zeta.
  keep. keep. apply tb_guard. intros _. keep. apply tb_guard. intros _. apply tb_putPool. apply tb_getAuth. intros i. apply tb_lift. intros j Hj.
  destruct (reduce_sum _ _ _ _ Hj) as [U1 U2]. eapply (tb_putAuth v _ m' _ (pn_PeerPubkey p) (pn_Address p) i j (pn_Number p));
    [exact Hv | rewrite <- Ea; exact Hl | exact U1 | exact U2 | | | apply t_inv].
  - apply pool_shaped_insert; [exact Hm | exact E1 | exact Hv | exact Hl].
  - intros b. rewrite owned_insert, Hq. cbn [from_option]. unfold init_of. cbn. rewrite Ea. destruct (decide _); [|apply eq64_eq; lia]. mod64.
Qed.

(** Methods that do not read the pool. *)
Lemma inv_by {A} (c : GM A) : preserves pools c -> (forall m, triple (fun g => accounted g m) c (fun _ g => accounted g m)) -> triple inv c (fun _ => inv).
Proof. intros H1 H2 s a s' (m & Hm & Ha) E. exists m. split; [exact (in_force_pools _ _ _ (H1 _ _ _ E) Hm) | exact (H2 m s a s' Ha E)]. Qed.

Lemma WithdrawOng_ok : safe WithdrawOng.
Proof.
  apply inv_by; [unfold WithdrawOng, getTotalStake, putTotalStake, time_offset; pres_steps|]. intros m s r s' Ha E. unfold WithdrawOng in E.
  apply st_bind_Ok in E as (p & s1 & E1 & E). apply (accounted_keeps _ m (input_keeps accounts _) _ _ _ Ha) in E1. clear Ha s. rename E1 into Ha.
  apply st_bind_Ok in E as (u1 & s2 & E1 & E). apply (accounted_keeps _ m (ValidateOwner_keeps accounts _) _ _ _ Ha) in E1. clear Ha s1. rename E1 into Ha.
  apply st_bind_Ok in E as (u2 & s1 & E1 & E). apply (accounted_keeps _ m (transferOnt_keeps accounts _ _ _) _ _ _ Ha) in E1. clear Ha s2. rename E1 into Ha.
  apply st_bind_Ok in E as (t & s2 & E1 & E). injection E1 as <- <-. destruct (total_entry _ (ap_Address p) (acc_total _ _ Ha)) as [Ea Es]. rewrite Ea, Es in E.
  apply st_bind_Ok in E as (off & s2 & E1 & E). injection E1 as <- <-. apply st_bind_Ok in E as (amt & s2 & E1 & E). apply (pres_lift id) in E1. unfold id in E1.
  apply st_bind_Ok in E as (u3 & s3 & E3 & E). apply (transferFromOng_keeps id) in E3. unfold id in E3. apply st_bind_Ok in E as (u4 & s4 & E4 & E). injection E4 as <- <-. injection E as <- <-.
  cbn [gov]. rewrite E3, E1. apply (stake_moved_ok (ap_Address p) 0 (gov s1) _ m m); [|exact Ha | exact (acc_pool _ _ Ha) | intros b; destruct (decide _); apply eq64_eq; lia].
  eexists _, _. split; [|reflexivity]. apply eq64_eq. lia.
Qed.

(** ** Amounts that are still owed

    Within [authorizeForPeer] and [Withdraw] the total of the caller follows at the end. *)

Record owing (a : Address) (d : Z) (g : Gov) (m : PeerPoolMap) : Prop := mkOwing {
  ow_auth : auth_shaped (t_authorizeInfo g);
  ow_pool : pool_shaped m;
  ow_total : total_shaped (t_totalStake g);
  ow_sum : forall b, stake_of (t_totalStake g) b + (if decide (b = a) then d else 0) ≡64 held (t_authorizeInfo g) b + owned m b
}.

Lemma owing_start a g m : accounted g m -> owing a 0 g m.
Proof. intros [H1 H2 H3 H4]. split; [exact H1 | exact H2 | exact H3 |]. intros b. rewrite <- H4. destruct (decide _); apply eq64_eq; lia. Qed.

Lemma owing_paid a d e g g' m : owing a d g m -> d ≡64 e -> stake_moved a e g g' -> accounted g' m.
Proof.
  intros [H1 H2 H3 H4] Hd (off & n & Hn & ->). split; [exact H1 | exact H2 | |]; cbn.
  - intros b s Hb. apply lookup_insert_Some in Hb as [[<- <-]|[_ Hb]]; [reflexivity | exact (H3 _ _ Hb)].
  - intros b. rewrite <- H4. unfold stake_of at 1. destruct (decide (b = a)) as [->|Hn'].
    + rewrite lookup_insert_eq. cbn. rewrite Hn, Hd. reflexivity.
    + rewrite lookup_insert_ne by congruence. apply eq64_eq. unfold stake_of. lia.
Qed.

Lemma owing_eq a d g g' m : accounts g' = accounts g -> owing a d g m -> owing a d g' m.
Proof. unfold accounts. intros E [H1 H2 H3 H4]. injection E as E1 E2. split; rewrite ?E1, ?E2; assumption. Qed.

(** The table of authorisations changes by [e] for the caller alone. *)
Lemma owing_move a d e d' g t m : owing a d g m -> auth_shaped t -> d' ≡64 d + e ->
  (forall b, held t b ≡64 held (t_authorizeInfo g) b + (if decide (b = a) then e else 0)) -> owing a d' (upd_authorizeInfo (fun _ => t) g) m.
Proof.
  intros [H1 H2 H3 H4] Ht Hd Hs. split; [exact Ht | exact H2 | exact H3 |]. intros b. cbn. rewrite Hs. specialize (H4 b).
  destruct (decide (b = a)); [rewrite Hd|]; rewrite ?Z.add_0_r in *; [|exact H4].
  replace (held (t_authorizeInfo g) b + e + owned m b) with (held (t_authorizeInfo g) b + owned m b + e) by lia. rewrite <- H4. apply eq64_eq. lia.
Qed.

(** The caller's entry for a peer is rewritten with [e] more. *)
Lemma owing_put a d e d' g m pk h j : owing a d g m -> valid_pubkey pk -> hex_DecodeString pk = Ok h -> is_addr a ->
  same_key (default (mkAuth pk a 0 0 0 0 0 0) (t_authorizeInfo g !! (h ++ a))) j ->
  all_pos j ≡64 all_pos (default (mkAuth pk a 0 0 0 0 0 0) (t_authorizeInfo g !! (h ++ a))) + e -> d' ≡64 d + e ->
  owing a d' (upd_authorizeInfo (insert (akey j) j) g) m.
Proof.
  intros Ho Hv Eh Ha Hk Hs Hd. destruct (get_shape _ pk h a (ow_auth _ _ _ _ Ho) Hv Eh Ha) as (S1 & S2 & S3 & S4). cbv zeta in *.
  set (i := default _ _) in *. apply (owing_move a d e d' g (<[akey j := j]> (t_authorizeInfo g)) m Ho); [| exact Hd |].
  - apply auth_shaped_insert; [exact (ow_auth _ _ _ _ Ho) | rewrite (proj1 Hk); exact S3 | rewrite (proj2 Hk), S1; exact Ha].
  - intros b. rewrite held_insert, (same_akey i j Hk), S2, S4, (pos_of_same i j e b Hk Hs), S1. repeat case_decide; try congruence; apply eq64_eq; lia.
Qed.

Lemma owing_same a d g m pk p q : owing a d g m -> m !! pk = Some p -> pp_PeerPubkey q = pp_PeerPubkey p -> pp_Address q = pp_Address p ->
  pp_InitPos q = pp_InitPos p -> owing a d g (<[pk := q]> m).
Proof.
  intros [H1 H2 H3 H4] Hp E1 E2 E3. destruct (H2 _ _ Hp) as (A1 & A2 & A3). split; [exact H1 | | exact H3 |].
  - apply pool_shaped_insert; [exact H2 | congruence | exact A2 | rewrite E2; exact A3].
  - intros b. rewrite owned_insert, Hp, H4. cbn [from_option]. unfold init_of. rewrite E2, E3. apply eq64_eq. lia.
Qed.

(** *** Authorising *)

Lemma authorize_one_pools gp gp2 a pk pos m t : preserves pools (authorize_one gp gp2 a pk pos m t : GM _).
Proof. unfold authorize_one. pres_steps. Qed.
Lemma authorize_loop_pools gp gp2 a keys : forall poss m t, preserves pools (authorize_loop gp gp2 a keys poss m t : GM _).
Proof.
  induction keys as [|pk keys IH]; intros poss m t; cbn [authorize_loop]; [apply pres_ret|]. destruct poss as [|pos poss]; [apply pres_panic|].
  apply pres_bind; [apply authorize_one_pools | intros []; apply IH].
Qed.

Lemma authorize_one_ok gp gp2 a pk pos m t : is_addr a ->
  triple (fun g => owing a t g m) (authorize_one gp gp2 a pk pos m t : GM _) (fun r g => owing a (snd r) g (fst r)).
Proof.
  intros Ha. unfold authorize_one. apply tb_guard. intros _. match goal with |- triple _ (st_bind ?c _) _ => assert (Hc : reads c) by (unfold reads; pres_steps) end.
  apply (triple_bind _ _ _ (fun _ g => owing a t g m)); [apply triple_reads, Hc|]. intros _. clear Hc.
  apply tb_found. intros q Hq. apply tb_guard. intros _.
  apply (triple_bind _ _ _ (fun _ g => owing a t g m)); [apply triple_reads, getPeerAttributes_keeps|]. intros at0.
  apply tb_guard. intros _. apply tb_getAuth. intros i. apply tb_guard. intros _. apply tb_guard. intros _.
  intros s r s' [Ho (h & Eh & Ei)] E. apply st_bind_Ok in E as (u & s1 & E1 & E). apply putAuthorizeInfo_val in E1 as [_ ->]. injection E as <- <-. cbn [fst snd gov].
  apply (owing_same _ _ _ m _ q); [|exact Hq | reflexivity..]. destruct (ow_pool _ _ _ _ Ho _ _ Hq) as (_ & Hv & _).
  apply (owing_put a t pos _ (gov s) m pk h); [exact Ho | exact Hv | exact Eh | exact Ha | rewrite <- Ei; split; reflexivity | | apply u64_eq64].
  rewrite <- Ei. unfold all_pos. cbn. mod64.
Qed.

Lemma authorize_loop_ok gp gp2 a keys : is_addr a -> forall poss m t,
  triple (fun g => owing a t g m) (authorize_loop gp gp2 a keys poss m t : GM _) (fun r g => owing a (snd r) g (fst r)).
Proof.
  intros Ha. induction keys as [|pk keys IH]; intros poss m t; cbn [authorize_loop]; [intros s r s' Hs [= <- <-]; exact Hs|].
  destruct poss as [|pos poss]; [apply triple_panic|]. apply (triple_bind _ _ _ _ _ (authorize_one_ok gp gp2 a pk pos m t Ha)). intros [m' t']. apply IH.
Qed.

Lemma authorizeForPeer_ok flag : triple inv (authorizeForPeer flag : GM unit) (fun _ => inv).
Proof.
  unfold authorizeForPeer. apply (tb_input _ _ _ _ _ (yields_poslist _)). intros p Hp. keep. apply tb_view. intros v. apply tb_pool. intros m. keep. keep.
  apply (triple_bind _ _ _ (fun r g => in_view v m g /\ owing (al_Address p) (snd r) g (fst r))).
  - intros s r s' [H1 H2] E. split; [exact (in_view_pools _ _ _ _ (authorize_loop_pools _ _ _ _ _ _ _ _ _ _ E) H1)|].
    exact (authorize_loop_ok _ _ _ _ Hp _ _ _ s r s' (owing_start _ _ _ H2) E).
  - intros [m' total]. cbn [fst snd]. intros s u s' [H1 H2] E. apply st_bind_Ok in E as (x & s1 & E1 & E). injection E1 as <- <-.
    apply st_bind_Ok in E as (y & s2 & E2 & E). pose proof (take_ont_keeps id _ _ _ _ _ _ E2) as G2. unfold id in G2. cbn [gov] in G2.
    assert (Ho : owing (al_Address p) total (gov s2) m') by (rewrite G2; apply (owing_eq _ _ (gov s)); [reflexivity | exact H2]).
    pose proof (depositTotal_pools _ _ _ _ _ E) as P3. apply deposit_val in E; [|exact (ow_total _ _ _ _ Ho)].
    exists m'. split; [|exact (owing_paid _ _ _ _ _ _ Ho (eq64_eq _ _ eq_refl) E)].
    unfold in_force. rewrite (f_equal snd P3 : t_view (gov s') = _), (f_equal fst P3 : t_peerPool (gov s') = _), G2. cbn. rewrite (proj1 H1). apply lookup_insert_eq.
Qed.

(** *** Withdrawing *)

Lemma withdraw_one_pools ht a pk pos t : preserves pools (withdraw_one ht a pk pos t : GM _).
Proof. unfold withdraw_one. pres_steps. Qed.
Lemma withdraw_loop_pools ht a keys : forall poss t, preserves pools (withdraw_loop ht a keys poss t : GM _).
Proof.
  induction keys as [|pk keys IH]; intros poss t; cbn [withdraw_loop]; [apply pres_ret|]. destruct poss as [|pos poss]; [apply pres_panic|].
  apply pres_bind; [apply withdraw_one_pools | intros ?; apply IH].
Qed.

Lemma is_empty_sum i : is_empty i = true -> all_pos i = 0.
Proof. unfold is_empty, all_pos. rewrite !andb_true_iff, !Z.eqb_eq. lia. Qed.

Lemma withdraw_sum pos i : same_key i (withdraw_info pos i) /\ all_pos (withdraw_info pos i) ≡64 all_pos i + - pos.
Proof. split; [split; reflexivity|]. unfold withdraw_info, all_pos. cbn. mod64. Qed.

Lemma withdraw_one_ok ht a pk pos t m : is_addr a -> 0 <= pos ->
  triple (fun g => owing a (- t) g m) (withdraw_one ht a pk pos t : GM _) (fun t' g => owing a (- t') g m).
Proof.
  intros Ha Hpos. unfold withdraw_one. apply tb_guard. intros _. apply tb_lift. intros h Eh. apply tb_getAuth. intros i. apply tb_guard. intros Hle.
  apply negb_true_iff, Z.ltb_ge in Hle. intros s r s' [Ho (h' & Eh' & Ei)] E. rewrite Eh in Eh'. injection Eh' as <-.
  apply st_bind_Ok in E as (u & s1 & E1 & E). apply putAuthorizeInfo_val in E1 as [[h2 Eh2] ->]. destruct (withdraw_sum pos i) as [Hk Hs].
  apply st_bind_Ok in E as (w & s2 & E2 & E). injection E as <- <-.
  assert (Hd : - u64 (t + pos) ≡64 - t + - pos). { replace (- u64 (t + pos)) with (0 - u64 (t + pos)) by lia. mod64. }
  destruct (t_authorizeInfo (gov s) !! (h ++ a)) as [i0|] eqn:El; cbn [from_option id] in Ei; subst i.
  - destruct (ow_auth _ _ _ _ Ho _ _ El) as (Ek & Hv & Hl). destruct Hv as (h0 & Eh0 & Hv0). pose proof Ek as Ek'. rewrite (akey_eq i0 h0 Eh0) in Ek'.
    apply app_addr_inj in Ek' as [-> ->]; [|exact Ha|exact Hl].
    assert (Ho1 : owing (ai_Address i0) (- u64 (t + pos)) (upd_authorizeInfo (insert (akey (withdraw_info pos i0)) (withdraw_info pos i0)) (gov s)) m).
    { apply (owing_put _ (- t) (- pos) _ (gov s) m (ai_PeerPubkey i0) h0); [exact Ho | exists h0; auto | exact Eh0 | exact Ha | rewrite El; exact Hk | rewrite El; exact Hs | exact Hd]. }
    destruct (is_empty (withdraw_info pos i0)) eqn:Ee; injection E2 as <- <-; cbn [gov]; [|exact Ho1].
    apply (owing_move _ _ 0 _ _ (delete (h0 ++ ai_Address i0) (<[akey (withdraw_info pos i0) := withdraw_info pos i0]> (t_authorizeInfo (gov s)))) m Ho1);
      [apply auth_shaped_delete, (ow_auth _ _ _ _ Ho1) | apply eq64_eq; lia|].
    intros b. cbn. rewrite held_delete, (same_akey _ _ Hk), <- Ek, lookup_insert_eq. cbn [from_option]. unfold pos_of. rewrite (is_empty_sum _ Ee).
    repeat case_decide; apply eq64_eq; lia.
  - assert (pos = 0) as -> by (cbn in Hle; lia). change (withdraw_info 0 (mkAuth pk a 0 0 0 0 0 0)) with (mkAuth pk a 0 0 0 0 0 0) in *.
    cbn [is_empty] in E2. change (is_empty (mkAuth pk a 0 0 0 0 0 0)) with true in E2. injection E2 as <- <-. cbn [gov].
    apply (owing_move _ _ 0 _ (gov s) (delete (h ++ a) (<[akey (mkAuth pk a 0 0 0 0 0 0) := mkAuth pk a 0 0 0 0 0 0]> (t_authorizeInfo (gov s)))) m Ho).
    + rewrite (akey_eq (mkAuth pk a 0 0 0 0 0 0) h Eh). cbn [ai_Address]. rewrite delete_insert_eq. apply auth_shaped_delete, (ow_auth _ _ _ _ Ho).
    + exact Hd.
    + intros b. rewrite (akey_eq (mkAuth pk a 0 0 0 0 0 0) h Eh). cbn [ai_Address]. rewrite delete_insert_eq, held_delete, El. cbn [from_option].
      destruct (decide _); apply eq64_eq; lia.
Qed.

Lemma withdraw_loop_ok ht a keys m : is_addr a -> forall poss t, Forall (fun x => 0 <= x) poss ->
  triple (fun g => owing a (- t) g m) (withdraw_loop ht a keys poss t : GM _) (fun t' g => owing a (- t') g m).
Proof.
  intros Ha. induction keys as [|pk keys IH]; intros poss t Hp; cbn [withdraw_loop]; [intros s r s' Hs [= <- <-]; exact Hs|].
  destruct poss as [|pos poss]; [apply triple_panic|]. inversion Hp; subst.
  apply (triple_bind _ _ _ _ _ (withdraw_one_ok ht a pk pos t m Ha ltac:(assumption))). intros t'. apply IH. assumption.
Qed.

Lemma yields_uint32 e : yields (Gdes.uint32_var e) (fun x => 0 <= x).
Proof. unfold Gdes.uint32_var. yields_steps. apply u32_range. Qed.
Lemma yields_read_n {A} (r : ST ZeroCopySource A) Q fuel : yields r Q -> forall n, yields (read_n fuel r n) (Forall Q).
Proof.
  intros Hr. induction fuel as [|f IH]; intros n src l src' E; cbn [read_n] in E; (destruct (n <=? 0); [injection E as <- <-; constructor|]); [discriminate|].
  apply st_bind_Ok in E as (a & s1 & E1 & E). apply st_bind_Ok in E as (l' & s2 & E2 & E). injection E as <- <-. constructor; [exact (Hr _ _ _ E1) | exact (IH _ _ _ _ E2)].
Qed.
Lemma yields_read_list {A B} (r : ST ZeroCopySource A) Q n (k : list A -> ST ZeroCopySource B) QB :
  yields r Q -> (forall l, Forall Q l -> yields (k l) QB) -> yields (st_bind (read_list r n) k) QB.
Proof.
  intros Hr Hk src b src' E. apply st_bind_Ok in E as (l & s1 & E1 & E). unfold read_list in E1. rewrite (st_bind_eq st_get _ _ _ _ eq_refl) in E1.
  exact (Hk l (yields_read_n r Q _ Hr n _ _ _ E1) _ _ _ E).
Qed.
Lemma yields_withdraw : yields Gdes.WithdrawParam (fun p => is_addr (al_Address p) /\ Forall (fun x => 0 <= x) (al_PosList p)).
Proof.
  unfold Gdes.WithdrawParam, Gdes.PosListParam. apply yields_address. intros a Ha. apply yields_bind. intros n. apply yields_bind. intros _. apply yields_bind. intros keys.
  apply yields_bind. intros x. apply (yields_read_list _ _ _ _ _ (yields_uint32 _)). intros l Hl. yields_steps. auto.
Qed.

Lemma Withdraw_ok : safe Withdraw.
Proof.
  apply inv_by.
  - unfold Withdraw. pres_steps. apply withdraw_loop_pools.
  - intros m. unfold Withdraw. apply (tb_input _ _ _ _ _ yields_withdraw). intros p [Hp Hl] s r s' Ha E.
    apply st_bind_Ok in E as (u & s1 & E1 & E). pose proof (ValidateOwner_keeps id _ _ _ _ E1) as G1. unfold id in G1. rewrite <- G1 in Ha. clear E1 G1 s.
    apply st_bind_Ok in E as (ht & s2 & E1 & E). injection E1 as <- <-. apply st_bind_Ok in E as (t & s2 & E2 & E).
    apply (withdraw_loop_ok _ _ _ m Hp _ 0 Hl s1 t s2 (owing_start _ _ _ Ha)) in E2 as Ho. clear E2.
    apply st_bind_Ok in E as (x & s3 & E3 & E). pose proof (transferOnt_keeps id _ _ _ _ _ _ E3) as G3. unfold id in G3. rewrite <- G3 in Ho. clear E3 G3.
    apply st_bind_Ok in E as (y & s4 & E4 & E). injection E as <- <-. apply withdraw_val in E4 as [Hm _]; [|exact (ow_total _ _ _ _ Ho)].
    exact (owing_paid _ _ _ _ _ _ Ho (eq64_eq _ _ eq_refl) Hm).
Qed.

(** ** Initialisation *)

Lemma check_peers_ok idx pks l : check_peers idx pks l = Ok () ->
  NoDup (map ip_PeerPubkey l) /\ (forall p, p ∈ l -> (ip_PeerPubkey p ∉ pks) /\ valid_pubkey (ip_PeerPubkey p)).
Proof.
  revert idx pks. induction l as [|p l IH]; intros idx pks E; cbn [check_peers] in E; [split; [constructor | intros p Hp; apply elem_of_nil in Hp as []]|].
  apply res_bind_Ok in E as (u1 & _ & E). apply res_bind_Ok in E as (u2 & E2 & E). apply res_bind_Ok in E as (u3 & _ & E). apply res_bind_Ok in E as ([] & E4 & E).
  apply res_bind_Ok in E as (u5 & _ & E). apply IH in E as [H1 H2]. unfold guard in E2. destruct (bool_decide _) eqn:Eb; [discriminate|]. apply bool_decide_eq_false in Eb.
  cbn. split.
  - apply NoDup_cons. split; [|exact H1]. intros Hin. apply list_elem_of_fmap in Hin as (q & Eq & Hq). apply (proj1 (H2 q Hq)). rewrite Eq. left.
  - intros q Hq. apply elem_of_cons in Hq as [->|Hq]; [split; [exact Eb | apply validate_valid, E4]|]. destruct (H2 q Hq) as [A B]. split; [|exact B].
    intros Hin. apply A. right. exact Hin.
Qed.

Lemma init_peers_pools l : forall n m, preserves pools (init_peers l n m : GM _).
Proof. induction l as [|p l IH]; intros n m; cbn [init_peers]; pres_steps. Qed.

Lemma init_peers_ok l : NoDup (map ip_PeerPubkey l) -> (forall p, p ∈ l -> valid_pubkey (ip_PeerPubkey p)) -> forall n m,
  (forall p, p ∈ l -> m !! ip_PeerPubkey p = None) -> triple (fun g => accounted g m) (init_peers l n m : GM _) (fun r g => accounted g (snd r)).
Proof.
  induction l as [|p l IH]; intros Hn Hv n m Hm; cbn [init_peers]; [intros s r s' Hs [= <- <-]; exact Hs|]. cbn in Hn. apply NoDup_cons in Hn as [Hp Hn].
  cbv zeta. apply tb_lift. intros a Ea. apply tb_lift. intros h Eh. set (q := mkPeer _ _ _ _ _ _).
  apply (triple_bind _ _ _ (fun _ g => accounted g m)).
  { apply triple_sets. intros g Hg. apply (accounted_eq g); [reflexivity | exact Hg]. }
  intros _. apply (triple_bind _ _ _ (fun _ g => accounted g (<[ip_PeerPubkey p := q]> m))).
  - intros s u s' Ha E. apply deposit_val in E; [|exact (acc_total _ _ Ha)].
    apply (stake_moved_ok _ _ _ _ m _ E Ha).
    + apply pool_shaped_insert; [exact (acc_pool _ _ Ha) | reflexivity | apply Hv; left | apply (AddressFromBase58_len _ _ Ea)].
    + intros b. rewrite owned_insert, (Hm p) by left. cbn [from_option]. unfold init_of, q. cbn. repeat case_decide; try congruence; apply eq64_eq; lia.
  - intros _. apply IH; [exact Hn | intros x Hx; apply Hv; right; exact Hx |].
    intros x Hx. transitivity (m !! ip_PeerPubkey x); [apply lookup_insert_ne | apply Hm; right; exact Hx]. intros E. apply Hp. rewrite E. apply list_elem_of_fmap. eauto.
Qed.

Lemma tb_start {B} e (k : unit -> GM B) Q : triple (fun g => accounted g ∅) (k ()) Q ->
  triple inv (do v <- gets t_view; do u <- st_guard (bool_decide (v = None)) e; k u) Q.
Proof.
  intros Hk s r s' (m & Hm & Ha) E. apply st_bind_Ok in E as (o & s1 & E1 & E). injection E1 as <- <-.
  apply st_bind_Ok in E as ([] & s1 & E1 & E). unfold st_guard, guard in E1. destruct (bool_decide _) eqn:Eb; [|discriminate]. injection E1 as <-.
  apply bool_decide_eq_true in Eb. unfold in_force in Hm. rewrite Eb in Hm. subst m. exact (Hk s r s' Ha E).
Qed.

Lemma tb_accounted {A B} m (c : GM A) (k : A -> GM B) Q : preserves accounts c -> (forall a, triple (fun g => accounted g m) (k a) Q) ->
  triple (fun g => accounted g m) (st_bind c k) Q.
Proof. intros Hc Hk. apply (triple_bind _ _ _ (fun _ g => accounted g m)); [apply accounted_keeps, Hc | exact Hk]. Qed.

Lemma InitConfig_ok : safe InitConfig.
Proof.
  unfold InitConfig. apply (tb_input _ _ (fun _ => True)); [apply yields_true|]. intros buf _. apply tb_lift. intros c Ec. apply tb_start.
  apply tb_lift. intros u Ck. destruct u.
  assert (Hc : check_peers [] [] (v_Peers c) = Ok ()). { unfold CheckVBFTConfig in Ck. repeat (apply res_bind_Ok in Ck as (? & _ & Ck)). exact Ck. }
  apply check_peers_ok in Hc as [Hn Hv]. apply tb_accounted; [unfold putGlobalParam; pres_steps|]. intros _.
  apply (triple_bind _ _ _ (fun r g => accounted g (snd r))); [apply init_peers_ok; [exact Hn | intros p Hp; apply Hv, Hp | intros p _; apply lookup_empty]|].
  intros [mx m]. cbn [snd]. apply tb_accounted; [unfold putPeerPoolMap; pres_steps|]. intros _.
  apply (triple_bind _ _ _ (fun _ g => t_peerPool g !! 1 = Some m /\ accounted g m)).
  { apply triple_sets. intros g Hg. split; [apply lookup_insert_eq | apply (accounted_eq g); [reflexivity | exact Hg]]. }
  intros _. apply (triple_bind _ _ _ (fun _ g => t_peerPool g !! 1 = Some m /\ accounted g m)).
  { apply triple_sets. intros g [H1 H2]. split; [exact H1 | apply (accounted_eq g); [reflexivity | exact H2]]. }
  intros _. apply (triple_bind _ _ _ (fun _ g => t_peerPool g !! 1 = Some m /\ accounted g m)); [apply triple_reads, pres_asks|]. intros ht.
  apply (triple_bind _ _ _ (fun _ g => t_peerPool g !! 1 = Some m /\ accounted g m)); [apply triple_reads, pres_asks|]. intros tx.
  apply (triple_bind _ _ _ (fun _ => ready (mkView 1 ht tx) m m)).
  { apply triple_sets. intros g [H1 H2]. split; [split; [reflexivity | exact H1] | apply (accounted_eq g); [reflexivity | exact H2]]. }
  intros _. unfold putConfig, putSplitCurve, appCallInitContractAdmin. keep. keep. keep. apply t_inv.
Qed.

(** ** The contract *)

(** C2: the stakes of the governance contract are accounted for.  Whatever registered method runs, on whatever
    input and in whatever environment, if it returns then the tables satisfy the same invariant as before: for
    every address the recorded total stake equals, modulo [2^64], the sum of its authorisations (active, new,
    frozen and withdrawable) and of the initial stakes of the peers it owns in the pool of the view
    in force.  Nothing is created or lost when a candidate registers, is rejected or approved, when stakes are
    authorised, taken back, frozen and withdrawn, when the epoch ends, and when a peer quits or
    is blacklisted (the penalty leaves the accounts of those who pay it). *)
Theorem governance_stakes_accounted (name : string) (method : GM (list byte)) (s s' : GS) (r : list byte) :
  (name, method) ∈ RegisterGovernanceContract -> inv (gov s) -> method s = Ok (r, s') -> inv (gov s').
Proof.
  intros Hin. assert (H : Forall (fun p => safe (snd p)) RegisterGovernanceContract).
  { unfold RegisterGovernanceContract. repeat (apply Forall_cons; split; [cbn [snd]|]); [..|apply Forall_nil; exact I].
    - apply keep_result, registerCandidate_ok.
    - apply keep_result, registerCandidate_ok.
    - exact UnRegisterCandidate_ok.
    - apply keep_result, authorizeForPeer_ok.
    - apply keep_result, authorizeForPeer_ok.
    - exact UnAuthorizeForPeer_ok.
    - exact Withdraw_ok.
    - exact QuitNode_ok.
    - exact WithdrawOng_ok.
    - exact ChangeMaxAuthorization_ok.
    - exact SetPeerCost_ok.
    - exact WithdrawFee_ok.
    - exact AddInitPos_ok.
    - exact ReduceInitPos_ok.
    - exact InitConfig_ok.
    - exact ApproveCandidate_ok.
    - exact RejectCandidate_ok.
    - exact BlackNode_ok.
    - exact WhiteNode_ok.
    - exact CommitDpos_ok.
    - exact UpdateConfig_ok.
    - exact UpdateGlobalParam_ok.
    - exact UpdateGlobalParam2_ok.
    - exact UpdateSplitCurve_ok.
    - exact TransferPenalty_ok.
    - exact SetPromisePos_ok.
    - exact SetGasAddress_ok. }
  rewrite Forall_forall in H. specialize (H _ Hin). cbn [snd] in H. intros Hi E. exact (H s r s' Hi E).
Qed.

End Safe.

Import GovExample.
(** [authorizeForPeer] on the example. *)
Lemma governance_stakes_accounted_witness : exists r s',
  AuthorizeForPeer (at_height 10 authorize_args) = Ok (r, s') /\ inv (gov s').
Proof.
  destruct (returns_Ok (AuthorizeForPeer (at_height 10 authorize_args))) as (r & s' & E); [vm_compute; reflexivity|].
  exists r, s'. split; [exact E|].
  apply (governance_stakes_accounted "authorizeForPeer" AuthorizeForPeer (at_height 10 authorize_args) s' r); [|exact start_inv | exact E].
  unfold RegisterGovernanceContract. do 3 right. left.
Defined.
