(* ===== verification/GovElect.v ===== *)
(** * The election of the consensus group

    What [CommitDpos] makes of the pool: the peers that quit or were blacklisted leave, and among the candidates
    the [K] of the largest stakes, ties broken by the text of the key, form the next consensus group.  The
    result does not depend on the order in which Go visits the map. *)

From stdpp Require Import sorting.
From S2P Require Import Prelude Codec BigInt MemDb NativeData LedgerTypes NativeService OntOng GovData GovState GovStake GovSplit GovCommit Governance GovLogic GovAccounts GovMethods GovExample.

(** ** Sorting by a strict order *)

Section Order.
Context {A : Type} (less : A -> A -> bool).
Hypothesis less_irrefl : forall x, less x x = false.
Hypothesis less_trans : forall x y z, less x y = true -> less y z = true -> less x z = true.

(** Any two different elements of the list are ordered. *)
Definition ordered (l : list A) : Prop := forall x y, x ∈ l -> y ∈ l -> x = y \/ less x y = true \/ less y x = true.

Lemma ordered_perm l l' : l ≡ₚ l' -> ordered l -> ordered l'.
Proof. intros E H x y Hx Hy. rewrite <- E in Hx, Hy. auto. Qed.

Lemma less_asym x y : less x y = true -> less y x = false.
Proof. intros H. destruct (less y x) eqn:E; [|reflexivity]. rewrite <- (less_irrefl x). symmetry. eauto. Qed.

Lemma filter_no_peer (P : A -> Prop) `{forall x, Decision (P x)} l : Forall (fun x => ~ P x) l -> filter P l = [].
Proof. induction 1 as [|x l Hx _ IH]; [reflexivity|]. rewrite filter_cons, decide_False by exact Hx. exact IH. Qed.

Local Notation sorted := (StronglySorted (fun x y => less x y = true)).

Lemma insert_stable_sorted x l : x ∉ l -> ordered (x :: l) -> sorted l -> sorted (insert_stable less x l).
Proof.
  intros Hx Ho. induction l as [|y l IH]; intros Hs; cbn [insert_stable]; [repeat constructor|].
  inversion Hs as [|? ? Hs' Hy]; subst. apply not_elem_of_cons in Hx as [Hxy Hx]. destruct (less y x) eqn:E.
  - constructor; [apply IH; [exact Hx | | exact Hs'] |].
    + intros a b Ha Hb. apply Ho; set_solver.
    + rewrite insert_stable_perm. constructor; assumption.
  - destruct (Ho x y) as [->|[E'|E']]; [set_solver.. | congruence | | congruence].
    constructor; [exact Hs|]. constructor; [exact E'|]. apply (Forall_impl _ _ _ Hy). eauto.
Qed.
Lemma sort_stable_sorted l : NoDup l -> ordered l -> sorted (sort_stable less l).
Proof.
  induction l as [|x l IH]; intros Hn Ho; cbn [sort_stable]; [constructor|]. apply NoDup_cons in Hn as [Hx Hn].
  apply insert_stable_sorted; [rewrite sort_stable_perm; exact Hx | | apply IH; [exact Hn | intros a b Ha Hb; apply Ho; set_solver]].
  apply (ordered_perm (x :: l)); [rewrite sort_stable_perm; reflexivity | exact Ho].
Qed.

(** The first [k] elements are those with fewer than [k] before them. *)
Lemma sorted_take l k x : sorted l -> x ∈ take k l <-> x ∈ l /\ (length (filter (fun y => less y x = true) l) < k)%nat.
Proof.
  revert k. induction l as [|y l IH]; intros k Hs; [rewrite take_nil; set_solver|]. inversion Hs as [|? ? Hs' Hy]; subst.
  destruct k as [|k]; [split; [set_solver | lia]|]. cbn [take]. rewrite !elem_of_cons, IH, filter_cons by exact Hs'. split.
  - intros [->|[Hx Hc]]; [|split; [auto|]; case_decide; cbn [length]; lia].
    split; [auto|]. rewrite decide_False by (rewrite less_irrefl; discriminate). rewrite filter_no_peer; [cbn; lia|].
    apply (Forall_impl _ _ _ Hy). intros z Hz. rewrite (less_asym _ _ Hz). discriminate.
  - intros [[->|Hx] Hc]; [auto|]. right. split; [exact Hx|]. rewrite Forall_forall in Hy. rewrite decide_True in Hc by (apply Hy, Hx). cbn [length] in Hc. lia.
Qed.

Lemma sorted_unique l l' : sorted l -> sorted l' -> l ≡ₚ l' -> l = l'.
Proof.
  intros Hl Hl' E. apply (StronglySorted_unique_strong (fun x y => less x y = true)); [|exact Hl | exact Hl' | exact E].
  intros x y _ _ H1 H2. rewrite (less_asym _ _ H1) in H2. discriminate.
Qed.
(** The order of the input does not matter. *)
Lemma sort_stable_canonical l l' : NoDup l -> ordered l -> l ≡ₚ l' -> sort_stable less l = sort_stable less l'.
Proof.
  intros Hn Ho E. apply sorted_unique; [apply sort_stable_sorted; assumption | | rewrite !sort_stable_perm; exact E].
  apply sort_stable_sorted; [rewrite <- E; exact Hn | exact (ordered_perm _ _ E Ho)].
Qed.
End Order.

(** ** The order of the candidates *)

Lemma str_gt_irrefl x : str_gt x x = false.
Proof. unfold str_gt. pose proof (proj2 (@Compare_eq DefaultComparer x x) eq_refl) as E. cbn in E. rewrite E. reflexivity. Qed.
Lemma str_gt_trans x y z : str_gt x y = true -> str_gt y z = true -> str_gt x z = true.
Proof.
  unfold str_gt. rewrite !Z.ltb_lt. intros H1 H2. pose proof (@Compare_flip DefaultComparer) as Hf. pose proof (@Compare_trans DefaultComparer z y x) as Ht.
  cbn in Hf, Ht. pose proof (Hf x y). pose proof (Hf y z). pose proof (Hf x z). lia.
Qed.
Lemma str_gt_total x y : x = y \/ str_gt x y = true \/ str_gt y x = true.
Proof.
  unfold str_gt. rewrite !Z.ltb_lt. pose proof (@Compare_flip DefaultComparer x y) as Hf. pose proof (@Compare_eq DefaultComparer x y) as He.
  cbn in Hf, He. destruct (Z.lt_trichotomy (bytes_Compare x y) 0) as [H|[H|H]]; [|left; apply He, H|]; lia.
Qed.

Lemma peer_less_irrefl x : peer_less x x = false.
Proof. unfold peer_less. rewrite Z.ltb_irrefl, Z.eqb_refl. apply str_gt_irrefl. Qed.
Lemma peer_less_iff x y : peer_less x y = true <-> si_Stake y < si_Stake x \/ si_Stake x = si_Stake y /\ str_gt (si_PeerPubkey x) (si_PeerPubkey y) = true.
Proof.
  unfold peer_less. destruct (Z.ltb_spec (si_Stake y) (si_Stake x)); [intuition|]. destruct (Z.eqb_spec (si_Stake x) (si_Stake y)); [intuition lia|].
  split; [discriminate | lia].
Qed.
Lemma peer_less_trans x y z : peer_less x y = true -> peer_less y z = true -> peer_less x z = true.
Proof.
  rewrite !peer_less_iff. intros [H1|[H1 G1]] [H2|[H2 G2]]; try lia. right. split; [lia | eauto using str_gt_trans].
Qed.

(** The keys of a list tell its elements apart. *)
Lemma nodup_key {A B} (f : A -> B) (l : list A) x y : NoDup (map f l) -> x ∈ l -> y ∈ l -> f x = f y -> x = y.
Proof.
  intros Hn Hx Hy E. apply list_elem_of_lookup in Hx as [i Hi], Hy as [j Hj]. enough (i = j) by congruence.
  apply (NoDup_lookup (f <$> l) i j (f x) Hn); rewrite list_lookup_fmap; [rewrite Hi | rewrite Hj]; cbn; congruence.
Qed.

(** Peers of different keys are ordered. *)
Lemma peers_ordered l : NoDup (map si_PeerPubkey l) -> NoDup l /\ ordered peer_less l.
Proof.
  intros Hn. split; [exact (NoDup_fmap_1 si_PeerPubkey l Hn)|]. intros x y Hx Hy.
  destruct (str_gt_total (si_PeerPubkey x) (si_PeerPubkey y)) as [E|H].
  - left. exact (nodup_key si_PeerPubkey l x y Hn Hx Hy E).
  - right. rewrite !peer_less_iff. destruct (Z.lt_trichotomy (si_Stake x) (si_Stake y)) as [?|[?|?]]; intuition.
Qed.

(** ** The pool of the next view *)

(** [q] comes before [p]. *)
Definition beats (p q : PeerPoolItem) : bool := is_candidate q && peer_less (stake_info q) (stake_info p).
Definition rank (m : PeerPoolMap) (p : PeerPoolItem) : nat := length (filter (fun q => beats p q = true) (map_to_list m).*2).
(** What becomes of a peer when the group has [k] members. *)
Definition next_peer (k : Z) (m : PeerPoolMap) (p : PeerPoolItem) : option PeerPoolItem :=
  if (pp_Status p =? QuitingStatus) || (pp_Status p =? BlackStatus) then None
  else if pp_Status p =? QuitConsensusStatus then Some (set_status QuitingStatus p)
  else if is_candidate p then Some (set_status (if Z.of_nat (rank m p) <? k then ConsensusStatus else CandidateStatus) p)
  else Some p.
(** The configuration that takes effect. *)
Definition next_config (g : Gov) (view : Z) : option Configuration :=
  let pre := default (mkPreConfig None 0) (t_preConfig g) in
  if SetView pre =? view then pc_Configuration pre else t_config g.

Definition scan_peer (p : PeerPoolItem) : option PeerPoolItem :=
  if (pp_Status p =? QuitingStatus) || (pp_Status p =? BlackStatus) then None
  else if pp_Status p =? QuitConsensusStatus then Some (set_status QuitingStatus p) else Some p.

Section Election.
Context {T : Type} `{HT : NativeEnv T} `{HK : PeerKeys} {R : RangeOrder} {HB : FromBase58} {HT58 : Base58}.
Local Notation GM := (@GM T).

(** The candidates as the scan collects them. *)
Definition candidates (m : PeerPoolMap) : list PeerStakeInfo := map stake_info (filter (fun p => is_candidate p = true) (range_of m)).

Lemma candidates_nodup m : pool_shaped m -> NoDup (map si_PeerPubkey (candidates m)).
Proof.
  intros Hm. unfold candidates. rewrite map_map. cbn [stake_info si_PeerPubkey].
  eapply sublist_NoDup; [exact (proj1 (pooled_range m Hm))|]. apply (fmap_sublist pp_PeerPubkey). apply sublist_filter.
Qed.

Lemma in_range m p : pool_shaped m -> p ∈ range_of m <-> m !! pp_PeerPubkey p = Some p.
Proof.
  intros Hm. split; [apply (proj2 (pooled_range m Hm))|]. intros Hp. rewrite range_of_perm. apply list_elem_of_fmap. exists (pp_PeerPubkey p, p).
  split; [reflexivity | apply elem_of_map_to_list, Hp].
Qed.

Lemma scan_lookup l : forall m k, pooled l m ->
  foldl (fun m p => status_of_scan p m) m l !! k = if decide (k ∈ map pp_PeerPubkey l) then m !! k ≫= scan_peer else m !! k.
Proof.
  induction l as [|p l IH]; intros m k Hl; cbn [foldl map]; [rewrite decide_False by set_solver; reflexivity|].
  rewrite (IH _ k (pooled_next p l m _ Hl (status_of_scan_ne p m))). destruct (decide (k = pp_PeerPubkey p)) as [->|Hk].
  - destruct Hl as [Hn Hl]. cbn in Hn. apply NoDup_cons in Hn as [Hi _]. rewrite decide_False by exact Hi. rewrite decide_True by left.
    rewrite (Hl p) by left. cbn. unfold status_of_scan, scan_peer. repeat case_match; [apply lookup_delete_eq | apply lookup_insert_eq | apply Hl; left].
  - rewrite status_of_scan_ne by exact Hk. repeat case_decide; try reflexivity; set_solver.
Qed.
Lemma scan_pool_lookup m k : pool_shaped m -> (scan_result (range_of m) m []).1 !! k = m !! k ≫= scan_peer.
Proof.
  intros Hm. cbn [fst scan_result]. rewrite scan_lookup by apply pooled_range, Hm. case_decide as Hk; [reflexivity|].
  destruct (m !! k) as [p|] eqn:Hp; [|reflexivity]. exfalso. apply Hk. destruct (Hm _ _ Hp) as (<- & _). apply (list_elem_of_fmap_2 pp_PeerPubkey).
  apply in_range; [exact Hm | exact Hp].
Qed.

Lemma pool_insert (m : PeerPoolMap) k k' p : (<[k := p]> m : PeerPoolMap) !! k' = if decide (k' = k) then Some p else m !! k'.
Proof. case_decide as H; [subst; apply lookup_insert_eq | apply lookup_insert_ne; congruence]. Qed.

Lemma elect_lookup l : forall m (s s' : GS (T := T)) m', elect l m s = Ok (m', s') ->
  forall k, m' !! k = if decide (k ∈ map si_PeerPubkey l) then set_status ConsensusStatus <$> m !! k else m !! k.
Proof.
  induction l as [|x l IH]; intros m s s' m' E k; cbn [elect map] in *; [injection E as <- <-; rewrite decide_False by set_solver; reflexivity|].
  apply st_bind_Ok in E as (p & s1 & E1 & E). destruct (m !! si_PeerPubkey x) as [p'|] eqn:Hp; [|discriminate]. injection E1 as <- <-.
  apply st_bind_Ok in E as (u & s2 & _ & E). rewrite (IH _ _ _ _ E k), pool_insert. destruct (decide (k = si_PeerPubkey x)) as [->|Hk].
  - rewrite Hp, (decide_True (P := _ ∈ si_PeerPubkey x :: _)) by left. case_decide; reflexivity.
  - repeat case_decide; try reflexivity; set_solver.
Qed.
Lemma stand_by_lookup l : forall m (s s' : GS (T := T)) m', stand_by l m s = Ok (m', s') ->
  forall k, m' !! k = if decide (k ∈ map si_PeerPubkey l) then set_status CandidateStatus <$> m !! k else m !! k.
Proof.
  induction l as [|x l IH]; intros m s s' m' E k; cbn [stand_by map] in *; [injection E as <- <-; rewrite decide_False by set_solver; reflexivity|].
  apply st_bind_Ok in E as (p & s1 & E1 & E). destruct (m !! si_PeerPubkey x) as [p'|] eqn:Hp; [|discriminate]. injection E1 as <- <-.
  apply st_bind_Ok in E as (u & s2 & _ & E). rewrite (IH _ _ _ _ E k), pool_insert. destruct (decide (k = si_PeerPubkey x)) as [->|Hk].
  - rewrite Hp, (decide_True (P := _ ∈ si_PeerPubkey x :: _)) by left. case_decide; reflexivity.
  - repeat case_decide; try reflexivity; set_solver.
Qed.

(** The peers before [p] among the candidates. *)
Lemma rank_candidates m p : length (filter (fun y => peer_less y (stake_info p) = true) (candidates m)) = rank m p.
Proof.
  unfold candidates, rank. rewrite <- range_of_perm. induction (range_of m) as [|q l IH]; [reflexivity|].
  rewrite !filter_cons. destruct (is_candidate q) eqn:Ec.
  - rewrite (decide_True (P := true = true)) by reflexivity. cbn [map]. rewrite filter_cons.
    assert (E : beats p q = peer_less (stake_info q) (stake_info p)) by (unfold beats; rewrite Ec; reflexivity).
    repeat case_decide; cbn [length]; congruence.
  - rewrite (decide_False (P := false = true)) by discriminate. rewrite decide_False; [exact IH|]. unfold beats. rewrite Ec. discriminate.
Qed.

(** The group elected: the candidates of rank below [k]. *)
Lemma in_group m k p : pool_shaped m -> m !! pp_PeerPubkey p = Some p -> is_candidate p = true ->
  pp_PeerPubkey p ∈ map si_PeerPubkey (take k (sort_stable peer_less (candidates m))) <-> (rank m p < k)%nat.
Proof.
  intros Hm Hp Hc. destruct (peers_ordered _ (candidates_nodup m Hm)) as [Hn Ho].
  pose proof (sort_stable_sorted peer_less peer_less_irrefl peer_less_trans _ Hn Ho) as Hs.
  assert (Hi : stake_info p ∈ candidates m) by (apply list_elem_of_fmap_2, list_elem_of_filter; split; [exact Hc | apply in_range; assumption]).
  assert (E : pp_PeerPubkey p ∈ map si_PeerPubkey (take k (sort_stable peer_less (candidates m))) <-> stake_info p ∈ take k (sort_stable peer_less (candidates m))).
  { split; [|apply (list_elem_of_fmap_2 si_PeerPubkey)]. intros H. apply list_elem_of_fmap in H as (x & Ex & Hx). enough (stake_info p = x) by congruence.
    assert (Hx' : x ∈ candidates m) by (rewrite <- (sort_stable_perm peer_less); eapply elem_of_sublist; [exact Hx | apply sublist_take]).
    exact (nodup_key si_PeerPubkey _ _ _ (candidates_nodup m Hm) Hi Hx' Ex). }
  rewrite E, (sorted_take peer_less peer_less_irrefl peer_less_trans _ _ _ Hs), sort_stable_perm, (rank_candidates m p). tauto.
Qed.
(** *** The configuration through the epoch *)

Lemma putAuthorizeInfo_config i : preserves t_config (putAuthorizeInfo i : GM _).
Proof. unfold putAuthorizeInfo. pres_steps. Qed.
Lemma withdrawTotal_config a n : preserves t_config (withdrawTotalStake a n : GM _).
Proof. unfold withdrawTotalStake, getTotalStake, putTotalStake, appCallTransferFromOng, appCallTransferFrom, time_offset. pres_steps. Qed.
#[local] Hint Resolve putAuthorizeInfo_config withdrawTotal_config authorizations_keeps getGlobalParam_keeps transferOnt_keeps : gov.
Lemma update_loop_config f l : preserves t_config (update_loop f l : GM _).
Proof. induction l as [|i l IH]; cbn [update_loop]; pres_steps. Qed.
Lemma quit_loop_config p l : forall b, preserves t_config (quit_loop p l b : GM _).
Proof. induction l as [|i l IH]; intros b; cbn [quit_loop]; pres_steps. Qed.
Lemma black_loop_config gp l : forall n, preserves t_config (black_loop gp l n : GM _).
Proof. induction l as [|i l IH]; intros b; cbn [black_loop]; [apply pres_ret|]. destruct (black_info gp i). pres_steps. Qed.
#[local] Hint Resolve update_loop_config quit_loop_config black_loop_config : gov.
Lemma scan_status_config p m peers : preserves t_config (scan_status p m peers : GM _).
Proof. unfold scan_status, normalQuit, blackQuit, depositPenaltyStake, getPenaltyStake, putPenaltyStake, time_offset. pres_steps. Qed.
Lemma scan_peers_config costs l : forall m peers, preserves t_config (scan_peers costs l m peers : GM _).
Proof.
  induction l as [|p l IH]; intros m peers; cbn [scan_peers]; [apply pres_ret|]. apply pres_bind.
  - apply pres_if; [|apply pres_ret]. unfold shift_cost, getPeerAttributes, putPeerAttributes. pres_steps.
  - intros _. apply pres_bind; [apply scan_status_config | intros []; apply IH].
Qed.
Lemma elect_config l : forall m, preserves t_config (elect l m : GM _).
Proof. induction l as [|p l IH]; intros m; cbn [elect]; unfold consensusToConsensus, unConsensusToConsensus; pres_steps. Qed.
Lemma stand_by_config l : forall m, preserves t_config (stand_by l m : GM _).
Proof. induction l as [|p l IH]; intros m; cbn [stand_by]; unfold consensusToUnConsensus, unConsensusToUnConsensus; pres_steps. Qed.

Lemma update_config_val view (s s' : GS (T := T)) u : update_config view s = Ok (u, s') ->
  t_config (gov s') = next_config (gov s) view /\ core (gov s') = core (gov s).
Proof.
  intros E. split; [|exact (update_config_keeps _ _ _ _ E)]. unfold update_config in E. apply st_bind_Ok in E as (pre & s1 & E1 & E).
  unfold getPreConfig in E1. apply st_bind_Ok in E1 as (o & s2 & E0 & E1). injection E0 as <- <-. injection E1 as <- <-. unfold next_config.
  cbv zeta. destruct (SetView _ =? view); [|injection E as <- <-; reflexivity]. unfold putConfig in E. destruct (pc_Configuration _) as [c|]; [|discriminate].
  injection E as <- <-. reflexivity.
Qed.

(** The parts of [next_pool], each with the state it starts from. *)
Lemma next_pool_parts costs view (s s' : GS (T := T)) u m : t_peerPool (gov s) !! view = Some m -> next_pool costs view s = Ok (u, s') ->
  exists s1 s2 s3 s4 c m1 peers m2 m3,
    core (gov s1) = core (gov s) /\ next_config (gov s) view = Some c /\ t_config (gov s') = Some c /\
    scan_peers costs (range_of m) m [] s1 = Ok ((m1, peers), s2) /\ cfg_K c <= zlen peers /\
    elect (take (Z.to_nat (cfg_K c)) (sort_stable peer_less peers)) m1 s2 = Ok (m2, s3) /\
    stand_by (drop (Z.to_nat (cfg_K c)) (sort_stable peer_less peers)) m2 s3 = Ok (m3, s4) /\
    gov s' = upd_peerPool (delete (u32 (view - 1))) (upd_peerPool (insert (u32 (view + 1)) m3) (gov s4)).
Proof.
  intros Hm E. unfold next_pool in E. apply st_bind_Ok in E as (u1 & s1 & E1 & E). apply update_config_val in E1 as [Ec Hc].
  apply st_bind_Ok in E as (m0 & s1' & E1 & E). unfold GetPeerPoolMap in E1. apply st_bind_Ok in E1 as (t & s2 & E2 & E1). injection E2 as <- <-.
  assert (Hm1 : t_peerPool (gov s1) !! view = Some m) by (apply (f_equal (fst ∘ snd)) in Hc; cbn in Hc; rewrite Hc; exact Hm).
  rewrite Hm1 in E1. injection E1 as <- <-. apply st_bind_Ok in E as ([m1 peers] & s2 & E2 & E).
  apply st_bind_Ok in E as (c & s2' & E3 & E). unfold getConfig in E3. apply st_bind_Ok in E3 as (o & s3 & E4 & E3). injection E4 as <- <-.
  pose proof (scan_peers_config _ _ _ _ _ _ _ E2) as C2. destruct (t_config (gov s2)) as [c'|] eqn:Hc2; [|discriminate]. injection E3 as <- <-.
  apply st_bind_Ok in E as (u2 & s3 & E3 & E). unfold st_guard, guard in E3. destruct (zlen peers <? cfg_K c') eqn:Hk; [discriminate|]. injection E3 as <- <-.
  apply st_bind_Ok in E as (m2 & s3 & E4 & E). apply st_bind_Ok in E as (m3 & s4 & E5 & E). apply st_bind_Ok in E as (u3 & s5 & E6 & E). injection E6 as <- <-.
  injection E as <- <-. apply Z.ltb_ge in Hk. exists s1, s2, s3, s4, c', m1, peers, m2, m3. repeat split; try assumption; [congruence|].
  cbn. rewrite (stand_by_config _ _ _ _ _ E5), (elect_config _ _ _ _ _ E4). exact Hc2.
Qed.

Lemma u32_views v : u32 (v - 1) <> u32 (v + 1).
Proof. unfold u32. rewrite pow32. intros E. Z.div_mod_to_equations. lia. Qed.

(** *** The group *)

Definition sorted_candidates (m : PeerPoolMap) : list PeerStakeInfo := sort_stable peer_less (candidates m).

Lemma sorted_nodup m : pool_shaped m -> NoDup (map si_PeerPubkey (sorted_candidates m)).
Proof.
  intros Hm. change (NoDup (si_PeerPubkey <$> sort_stable peer_less (candidates m))). rewrite (sort_stable_perm peer_less). exact (candidates_nodup m Hm).
Qed.
Lemma in_sorted m p : pool_shaped m -> m !! pp_PeerPubkey p = Some p ->
  pp_PeerPubkey p ∈ map si_PeerPubkey (sorted_candidates m) <-> is_candidate p = true.
Proof.
  intros Hm Hp. change (pp_PeerPubkey p ∈ si_PeerPubkey <$> sort_stable peer_less (candidates m) <-> is_candidate p = true).
  rewrite (sort_stable_perm peer_less). unfold candidates. rewrite <- list_fmap_compose. split.
  - intros Hi. apply list_elem_of_fmap in Hi as (q & Eq & Hq). apply list_elem_of_filter in Hq as [Hq Hr]. apply in_range in Hr; [|exact Hm].
    cbn in Eq. rewrite <- Eq, Hp in Hr. congruence.
  - intros Hc. apply (list_elem_of_fmap_2 (si_PeerPubkey ∘ stake_info)), list_elem_of_filter. split; [exact Hc | apply in_range; assumption].
Qed.

Lemma candidate_status p : is_candidate p = true -> pp_Status p = CandidateStatus \/ pp_Status p = ConsensusStatus.
Proof. unfold is_candidate. intros H. apply orb_true_iff in H as [H|H]; apply Z.eqb_eq in H; auto. Qed.
Lemma candidate_stays p : is_candidate p = true -> scan_peer p = Some p.
Proof. intros H. unfold scan_peer. destruct (candidate_status p H) as [-> | ->]; reflexivity. Qed.
Lemma next_peer_candidate k m p : is_candidate p = true ->
  next_peer k m p = Some (set_status (if Z.of_nat (rank m p) <? k then ConsensusStatus else CandidateStatus) p).
Proof. intros H. unfold next_peer. rewrite H. destruct (candidate_status p H) as [-> | ->]; reflexivity. Qed.
Lemma next_peer_other k m p : is_candidate p = false -> next_peer k m p = scan_peer p.
Proof. intros H. unfold next_peer, scan_peer. rewrite H. reflexivity. Qed.

Lemma next_lookup k m pk : (omap (next_peer k m) m : PeerPoolMap) !! pk = m !! pk ≫= next_peer k m.
Proof. apply lookup_omap. Qed.

(** The two loops give every peer its next status. *)
Lemma elected_peer k m pk : pool_shaped m ->
  (if decide (pk ∈ map si_PeerPubkey (drop (Z.to_nat k) (sorted_candidates m))) then
     set_status CandidateStatus <$> (if decide (pk ∈ map si_PeerPubkey (take (Z.to_nat k) (sorted_candidates m)))
       then set_status ConsensusStatus <$> (m !! pk ≫= scan_peer) else m !! pk ≫= scan_peer)
   else if decide (pk ∈ map si_PeerPubkey (take (Z.to_nat k) (sorted_candidates m)))
     then set_status ConsensusStatus <$> (m !! pk ≫= scan_peer) else m !! pk ≫= scan_peer) = m !! pk ≫= next_peer k m.
Proof.
  intros Hm. destruct (m !! pk) as [p|] eqn:Hp; [|repeat case_decide; reflexivity]. destruct (Hm _ _ Hp) as (<- & _). cbn [mbind option_bind].
  pose proof (sorted_nodup m Hm) as Hn. pose proof (in_sorted m p Hm Hp) as Hi.
  rewrite <- (take_drop (Z.to_nat k) (sorted_candidates m)), map_app in Hn, Hi. apply NoDup_app in Hn as (_ & Hd & _). rewrite elem_of_app in Hi.
  destruct (is_candidate p) eqn:Ec.
  - rewrite (next_peer_candidate k m p Ec), (candidate_stays p Ec). pose proof (in_group m (Z.to_nat k) p Hm Hp Ec) as Hg. fold (sorted_candidates m) in Hg.
    destruct (Z.ltb_spec (Z.of_nat (rank m p)) k) as [Hr|Hr].
    + assert (Ht := proj2 Hg ltac:(lia)). rewrite decide_False by exact (Hd _ Ht). rewrite decide_True by exact Ht. reflexivity.
    + rewrite (decide_False (P := _ ∈ map _ (take _ _))) by (rewrite Hg; lia). rewrite decide_True; [reflexivity|].
      destruct (proj2 Hi eq_refl) as [Ht|Ht]; [apply Hg in Ht; lia | exact Ht].
  - rewrite (next_peer_other k m p Ec), !decide_False; [reflexivity | |]; intros Ht; [discriminate (proj1 Hi (or_introl Ht)) | discriminate (proj1 Hi (or_intror Ht))].
Qed.

(** The pool [next_pool] stores. *)
Lemma next_pool_pool costs view (s s' : GS (T := T)) u m : t_peerPool (gov s) !! view = Some m -> accounted (gov s) m ->
  next_pool costs view s = Ok (u, s') ->
  exists c, next_config (gov s) view = Some c /\ t_config (gov s') = Some c /\ cfg_K c <= zlen (candidates m) /\
    t_peerPool (gov s') !! u32 (view + 1) = Some (omap (next_peer (cfg_K c) m) m).
Proof.
  intros Hm Ha E. destruct (next_pool_parts _ _ _ _ _ _ Hm E) as (s1 & s2 & s3 & s4 & c & m1 & peers & m2 & m3 & Hs & Hc & Hc' & E1 & Hk & E2 & E3 & Hg).
  pose proof (acc_pool _ _ Ha) as Hp. assert (Ha1 : accounted (gov s1) m) by (apply (accounted_eq (gov s)); [unfold core in Hs; congruence | exact Ha]).
  apply (scan_peers_ok costs _ m [] (pooled_range m Hp) s1 _ s2 Ha1) in E1 as [_ Er].
  assert (Ep : peers = candidates m) by (apply (f_equal snd) in Er; exact Er). apply (f_equal fst) in Er. cbn [fst] in Er.
  exists c. repeat split; [exact Hc | exact Hc' | rewrite <- Ep; exact Hk|]. rewrite Hg. cbn. rewrite lookup_delete_ne by apply u32_views. rewrite lookup_insert_eq.
  f_equal. apply map_eq. intros k. etransitivity; [exact (stand_by_lookup _ _ _ _ _ E3 k)|].
  transitivity (m !! k ≫= next_peer (cfg_K c) m); [|symmetry; apply next_lookup].
  rewrite (elect_lookup _ _ _ _ _ E2 k), Er, (scan_pool_lookup m k Hp), Ep. exact (elected_peer (cfg_K c) m k Hp).
Qed.

(** The keys of the consensus peers of a pool. *)
Definition consensus_keys (m : PeerPoolMap) : list PubKey :=
  (filter (fun x => pp_Status x.2 = ConsensusStatus) (map_to_list m)).*1.

Lemma consensus_key m k : k ∈ consensus_keys m <-> exists p, m !! k = Some p /\ pp_Status p = ConsensusStatus.
Proof.
  unfold consensus_keys. rewrite list_elem_of_fmap. split.
  - intros ([k' p] & -> & H). apply list_elem_of_filter in H as [H1 H2]. apply elem_of_map_to_list in H2. exists p. auto.
  - intros (p & H1 & H2). exists (k, p). split; [reflexivity|]. apply list_elem_of_filter. split; [exact H2 | apply elem_of_map_to_list, H1].
Qed.

(** Exactly the first [k] candidates are in the group. *)
Lemma group_keys k m : pool_shaped m ->
  consensus_keys (omap (next_peer k m) m) ≡ₚ map si_PeerPubkey (take (Z.to_nat k) (sorted_candidates m)).
Proof.
  intros Hm. apply NoDup_Permutation.
  - unfold consensus_keys. eapply sublist_NoDup; [exact (NoDup_fst_map_to_list (omap (next_peer k m) m))|]. apply (fmap_sublist fst), sublist_filter.
  - eapply sublist_NoDup; [exact (sorted_nodup m Hm)|]. apply (fmap_sublist si_PeerPubkey), sublist_take.
  - intros pk. rewrite consensus_key. split.
    + intros (q & Hq & Hst). apply (eq_trans (eq_sym (next_lookup k m pk))) in Hq. destruct (m !! pk) as [p|] eqn:Hp; [|discriminate]. destruct (Hm _ _ Hp) as (<- & _). cbn in Hq.
      destruct (is_candidate p) eqn:Ec.
      * rewrite (next_peer_candidate k m p Ec) in Hq. injection Hq as <-. apply (in_group m (Z.to_nat k) p Hm Hp Ec).
        destruct (Z.ltb_spec (Z.of_nat (rank m p)) k); [lia | discriminate].
      * exfalso. rewrite (next_peer_other k m p Ec) in Hq. unfold scan_peer in Hq. unfold is_candidate in Ec. apply orb_false_iff in Ec as [_ Ec].
        repeat case_match; [discriminate | injection Hq as <-; discriminate | injection Hq as <-; apply Z.eqb_neq in Ec; contradiction].
    + intros Hi. assert (Hs : pk ∈ map si_PeerPubkey (sorted_candidates m)).
      { eapply elem_of_sublist; [exact Hi|]. apply (fmap_sublist si_PeerPubkey), sublist_take. }
      assert (Hex : exists p, m !! pp_PeerPubkey p = Some p /\ pk = pp_PeerPubkey p).
      { change (pk ∈ si_PeerPubkey <$> sort_stable peer_less (candidates m)) in Hs. rewrite (sort_stable_perm peer_less) in Hs. unfold candidates in Hs.
        rewrite <- list_fmap_compose in Hs. apply list_elem_of_fmap in Hs as (q & Eq & Hq). apply list_elem_of_filter in Hq as [_ Hq]. exists q. split; [apply in_range; assumption | exact Eq]. }
      destruct Hex as (p & Hp & ->). pose proof (proj1 (in_sorted m p Hm Hp) Hs) as Ec. apply (in_group m (Z.to_nat k) p Hm Hp Ec) in Hi.
      exists (set_status ConsensusStatus p). split; [|reflexivity]. etransitivity; [apply next_lookup|]. rewrite Hp. cbn. rewrite (next_peer_candidate k m p Ec).
      destruct (Z.ltb_spec (Z.of_nat (rank m p)) k); [reflexivity | lia].
Qed.
Lemma group_size k m : pool_shaped m -> 0 <= k <= zlen (candidates m) -> zlen (consensus_keys (omap (next_peer k m) m)) = k.
Proof.
  intros Hm Hk. unfold zlen in *. rewrite (group_keys k m Hm), length_map, length_take. unfold sorted_candidates. rewrite (sort_stable_perm peer_less). lia.
Qed.

(** *** The whole of [executeCommitDpos] *)

(** The tables the division of the fees and the change of the view leave alone. *)
Definition kept (g : Gov) := (accounts g, t_peerPool g, (t_config g, t_preConfig g), t_globalParam g).

Lemma commit_parts (s s' : GS (T := T)) u v : t_view (gov s) = Some v -> executeCommitDpos s = Ok (u, s') ->
  exists costs s1 s2, next_pool costs (View v) s1 = Ok ((), s2) /\ kept (gov s1) = kept (gov s) /\ kept (gov s') = kept (gov s2) /\
    View <$> t_view (gov s') = Some (u32 (View v + 1)).
Proof.
  intros Ev E. unfold executeCommitDpos in E. apply st_bind_Ok in E as (gv & s1 & E1 & E). unfold GetGovernanceView in E1.
  apply st_bind_Ok in E1 as (o & s2 & E0 & E1). injection E0 as <- <-. rewrite Ev in E1. injection E1 as <- <-.
  apply st_bind_Ok in E as (ht & s2 & E2 & E). injection E2 as <- <-.
  apply st_bind_Ok in E as (u1 & s3 & E3 & E). apply (pres_guard id) in E3. unfold id in E3. rewrite <- E3 in Ev |- *. clear E3 s. rename s3 into s.
  apply st_bind_Ok in E as (u2 & s4 & E4 & E).
  assert (H4 : exists costs s1 s2, next_pool costs (View v) s1 = Ok ((), s2) /\ kept (gov s1) = kept (gov s) /\ kept (gov s4) = kept (gov s2)).
  { destruct (View v <=? NEW_VERSION_VIEW); [unfold executeCommitDpos1, GetGovernanceView in E4 | unfold executeCommitDpos2, GetGovernanceView in E4];
      apply st_bind_Ok in E4 as (gv & s5 & E5 & E4); apply st_bind_Ok in E5 as (o & s6 & E6 & E5);
      injection E6 as <- <-; rewrite Ev in E5; injection E5 as <- <-; apply st_bind_Ok in E4 as (x & s5 & E5 & E4).
    - destruct u2. exists false, s5, s4. split; [exact E4|]. split; [exact (executeSplit_keeps kept _ _ _ _ E5) | reflexivity].
    - apply st_bind_Ok in E4 as (y & s6 & E6 & E4). apply st_bind_Ok in E4 as (f & s7 & E7 & E4). injection E7 as <- <-. injection E4 as <- <-. destruct y.
      exists true, s5, s6. split; [exact E6|]. split; [exact (executeSplit2_keeps kept ltac:(intros ? []; reflexivity) _ _ _ _ E5) | reflexivity]. }
  destruct H4 as (costs & t1 & t2 & H1 & H2 & H3). apply st_bind_Ok in E as (h1 & s5 & E5 & E). injection E5 as <- <-. apply st_bind_Ok in E as (h2 & s5 & E5 & E). injection E5 as <- <-.
  injection E as <- <-. exists costs, t1, t2. repeat split; assumption.
Qed.

Lemma next_config_kept g g' v : kept g' = kept g -> next_config g' v = next_config g v.
Proof. unfold kept, next_config. intros [= _ _ _ E1 E2 _]. rewrite E1, E2. reflexivity. Qed.

(** The pool in force after an epoch, and its accounts. *)
Lemma commit_pool (s s' : GS (T := T)) u v m : t_view (gov s) = Some v -> t_peerPool (gov s) !! View v = Some m -> accounted (gov s) m ->
  executeCommitDpos s = Ok (u, s') ->
  exists c, next_config (gov s) (View v) = Some c /\ t_config (gov s') = Some c /\ cfg_K c <= zlen (candidates m) /\
    View <$> t_view (gov s') = Some (u32 (View v + 1)) /\ t_peerPool (gov s') !! u32 (View v + 1) = Some (omap (next_peer (cfg_K c) m) m).
Proof.
  intros Ev Hm Ha E. destruct (commit_parts _ _ _ _ Ev E) as (costs & s1 & s2 & E1 & K1 & K2 & Hv).
  pose proof (next_config_kept _ _ (View v) K1) as Hn. unfold kept in K1, K2. injection K1 as A1 A2 P1 _ _ _. injection K2 as _ _ P2 C2 _ _.
  destruct (next_pool_pool costs (View v) s1 s2 () m) as (c & H1 & H2 & H3 & H4);
    [rewrite P1; exact Hm | apply (accounted_eq (gov s)); [unfold accounts; congruence | exact Ha] | exact E1|].
  exists c. rewrite P2, C2, <- Hn. auto.
Qed.

(** C7: the end of an epoch elects the candidates of the largest stakes.  When [executeCommitDpos] returns, the
    configuration in force is the one that was due, the view has moved on by one, and the pool of the new view
    gives every peer the status its stake calls for: a peer that was quitting or blacklisted has left, one that quit the
    consensus group is quitting, and a candidate is in the group exactly when fewer than [K] candidates have a larger
    stake, or the same stake and a larger key.  The group has [K] members, whatever the order in which the map was visited. *)
Theorem commit_elects_largest_stakes (s s' : GS (T := T)) u v : inv (gov s) -> t_view (gov s) = Some v -> executeCommitDpos s = Ok (u, s') ->
  exists m c, t_peerPool (gov s) !! View v = Some m /\ next_config (gov s) (View v) = Some c /\ t_config (gov s') = Some c /\
    View <$> t_view (gov s') = Some (u32 (View v + 1)) /\
    t_peerPool (gov s') !! u32 (View v + 1) = Some (omap (next_peer (cfg_K c) m) m) /\
    (0 <= cfg_K c -> zlen (consensus_keys (omap (next_peer (cfg_K c) m) m)) = cfg_K c).
Proof.
  intros (m & Hm & Ha) Ev E. unfold in_force in Hm. rewrite Ev in Hm. destruct (commit_pool _ _ _ _ _ Ev Hm Ha E) as (c & H1 & H2 & H3 & H4 & H5).
  exists m, c. repeat split; try assumption. intros Hk. apply group_size; [exact (acc_pool _ _ Ha) | lia].
Qed.
End Election.

Import GovExample.
Lemma commit_elects_largest_stakes_witness : exists s', executeCommitDpos (at_height 10 []) = Ok ((), s') /\
  exists m c, t_peerPool start !! 1 = Some m /\ t_peerPool (gov s') !! 2 = Some (omap (next_peer (cfg_K c) m) m) /\
    zlen (consensus_keys (omap (next_peer (cfg_K c) m) m)) = 1.
Proof.
  destruct (returns_Ok (executeCommitDpos (at_height 10 []))) as (u & s' & E); [vm_compute; reflexivity|]. destruct u. exists s'. split; [exact E|].
  destruct (commit_elects_largest_stakes (at_height 10 []) s' () (mkView 1 0 []) start_inv eq_refl E) as (m & c & H1 & H2 & _ & _ & H3 & H4).
  exists m, c. split; [exact H1|]. split; [exact H3|]. injection H2 as <-. apply H4. discriminate.
Defined.
