(* ===== verification/GovRelease.v ===== *)
(** * What an epoch does to an authorisation

    The authorisations of a peer move through the four amounts that are on their way back to their owner once per
    epoch; after two epochs what was frozen can be withdrawn. *)

From S2P Require Import Prelude Codec BigInt MemDb NativeData LedgerTypes NativeService OntOng GovData GovState GovStake GovSplit GovCommit Governance GovLogic GovAccounts GovMethods GovExample GovSafe GovElect.

Notation Table := (gmap (list byte) AuthorizeInfo) (only parsing).

(** The authorisation is one of the peer with the key [pk]. *)
Definition at_peer (pk : PubKey) (i : AuthorizeInfo) : Prop := hex_DecodeString (ai_PeerPubkey i) = hex_DecodeString pk.

(** From [t] to [t'] the authorisations of the peer follow [F]; no other changes. *)
Definition acts (pk : PubKey) (F : AuthorizeInfo -> AuthorizeInfo -> Prop) (t t' : Table) : Prop :=
  forall k i, t !! k = Some i -> (at_peer pk i -> exists j, F i j /\ same_key i j /\ t' !! k = Some j) /\ (~ at_peer pk i -> t' !! k = Some i).

(** The entries of [l] are replaced one after the other. *)
Inductive writes (F : AuthorizeInfo -> AuthorizeInfo -> Prop) : list AuthorizeInfo -> Table -> Table -> Prop :=
| writes_nil t : writes F [] t t
| writes_cons i j l t t' : F i j -> same_key i j -> writes F l (<[akey j := j]> t) t' -> writes F (i :: l) t t'.

Lemma writes_spec F l t t' : writes F l t t' -> NoDup (map akey l) ->
  (forall i, i ∈ l -> exists j, F i j /\ same_key i j /\ t' !! akey i = Some j) /\ (forall k, k ∉ map akey l -> t' !! k = t !! k).
Proof.
  induction 1 as [t|i j l t t' HF Hk _ IH]; intros Hn; [split; [set_solver | reflexivity]|]. cbn [map] in *. apply NoDup_cons in Hn as [Hi Hn].
  destruct (IH Hn) as [H1 H2]. rewrite (same_akey _ _ Hk) in H2. split.
  - intros x Hx. apply elem_of_cons in Hx as [->|Hx]; [|exact (H1 x Hx)]. exists j. split; [exact HF|]. split; [exact Hk|]. rewrite H2 by exact Hi. apply lookup_insert_eq.
  - intros k Hkk. apply not_elem_of_cons in Hkk as [N1 N2]. rewrite H2 by exact N2. apply lookup_insert_ne. congruence.
Qed.

(** Several peers in turn. *)
Inductive visits : list (PubKey * (AuthorizeInfo -> AuthorizeInfo -> Prop)) -> Table -> Table -> Prop :=
| visits_nil t : visits [] t t
| visits_cons pk F l t t1 t' : acts pk F t t1 -> visits l t1 t' -> visits ((pk, F) :: l) t t'.

Lemma at_peer_same pk i j : same_key i j -> at_peer pk i -> at_peer pk j.
Proof. intros [E _]. unfold at_peer. rewrite E. auto. Qed.

(** Peers of different keys do not meet. *)
Lemma visits_spec l t t' : visits l t t' -> NoDup (map (hex_DecodeString ∘ fst) l) -> forall k i, t !! k = Some i ->
  (forall pk F, (pk, F) ∈ l -> at_peer pk i -> exists j, F i j /\ same_key i j /\ t' !! k = Some j) /\
  ((forall pk F, (pk, F) ∈ l -> ~ at_peer pk i) -> t' !! k = Some i).
Proof.
  induction 1 as [t|pk F l t t1 t' Ha _ IH]; intros Hn k i Hi; [split; [set_solver | auto]|]. cbn [map] in Hn. apply NoDup_cons in Hn as [Hpk Hn].
  assert (Hd : forall qk G, (qk, G) ∈ l -> forall x, at_peer pk x -> ~ at_peer qk x).
  { intros qk G Hq x H1 H2. apply Hpk. unfold at_peer in H1, H2. apply list_elem_of_fmap. exists (qk, G). split; [cbn; congruence | exact Hq]. }
  destruct (Ha k i Hi) as [H1 H2]. split.
  - intros qk G Hq Hat. apply elem_of_cons in Hq as [[= -> ->]|Hq].
    + destruct (H1 Hat) as (j & HF & Hk & Hj). exists j. split; [exact HF|]. split; [exact Hk|]. apply (IH Hn k j Hj). intros qk G Hq.
      exact (Hd qk G Hq j (at_peer_same _ _ _ Hk Hat)).
    + assert (Hi1 : t1 !! k = Some i) by (apply H2; intros H; exact (Hd qk G Hq i H Hat)). exact (proj1 (IH Hn k i Hi1) qk G Hq Hat).
  - intros Hno. apply (IH Hn k i); [apply H2, (Hno pk F); left | intros qk G Hq; apply (Hno qk G); right; exact Hq].
Qed.

Section Moves.
Context {T : Type} `{HT : NativeEnv T} `{HK : PeerKeys} {R : RangeOrder} {HB : FromBase58} {HT58 : Base58}.
Local Notation GM := (@GM T).
Local Notation table s := (t_authorizeInfo (gov s)).

(** The authorisations the loops visit are those of the peer. *)
Lemma iterate_at (h : list byte) (t : Table) (pk : PubKey) (i : AuthorizeInfo) : auth_shaped t -> hex_DecodeString pk = Ok h -> valid_vrf_key h = true -> t !! akey i = Some i ->
  i ∈ iterate h t <-> at_peer pk i.
Proof.
  intros Ht Eh Hv Hi. rewrite (in_iterate h t i Ht). destruct (Ht _ _ Hi) as (_ & (h' & Eh' & Hv') & _). unfold at_peer. rewrite Eh, Eh'.
  rewrite (akey_eq i h' Eh'), is_prefix_spec. split; [intros (_ & c & Hc); rewrite (prefix_own h h' c _ Hv Hv' Hc); reflexivity|].
  intros [= ->]. split; [rewrite (akey_eq i h Eh') in Hi; exact Hi | eauto].
Qed.

Lemma writes_acts (F : AuthorizeInfo -> AuthorizeInfo -> Prop) (pk : PubKey) (h : list byte) (t t' : Table) : auth_shaped t -> hex_DecodeString pk = Ok h -> valid_vrf_key h = true ->
  writes F (iterate h t) t t' -> acts pk F t t'.
Proof.
  intros Ht Eh Hv Hw k i Hi. destruct (writes_spec _ _ _ _ Hw (nodup_iterate h t Ht)) as [H1 H2]. destruct (Ht _ _ Hi) as [-> _]. split.
  - intros Hp. apply H1, (iterate_at h t pk i Ht Eh Hv Hi), Hp.
  - intros Hp. rewrite H2, Hi; [reflexivity|]. intros Hin. apply list_elem_of_fmap in Hin as (j & Ek & Hj). apply Hp. pose proof Hj as Hj'.
    apply in_iterate in Hj as [Hj _]; [|exact Ht]. rewrite Ek in Hi. assert (j = i) as -> by congruence. apply (iterate_at h t pk i Ht Eh Hv Hj), Hj'.
Qed.

(** *** The loops *)

Lemma update_loop_writes f l : conserving f -> forall (s s' : GS (T := T)) u, update_loop f l s = Ok (u, s') ->
  writes (fun i j => f i = Ok j) l (table s) (table s').
Proof.
  intros Hf. induction l as [|i l IH]; intros s s' u E; cbn [update_loop] in E; [injection E as <- <-; constructor|].
  apply st_bind_Ok in E as (j & s1 & E1 & E). apply st_bind_Ok in E as (v & s2 & E2 & E).
  destruct (f i) as [j'|e|] eqn:Ef; cbn in E1; try discriminate. injection E1 as <- <-. apply putAuthorizeInfo_val in E2 as [_ ->].
  apply (writes_cons _ i j'); [exact Ef | apply (Hf _ _ Ef) | exact (IH _ _ _ E)].
Qed.
Lemma quit_loop_writes p l : forall (s s' : GS (T := T)) b b', quit_loop p l b s = Ok (b', s') ->
  writes (fun i j => j = quit_info p i) l (table s) (table s').
Proof.
  induction l as [|i l IH]; intros s s' b b' E; cbn [quit_loop] in E; [injection E as <- <-; constructor|].
  apply st_bind_Ok in E as (v & s2 & E2 & E). apply putAuthorizeInfo_val in E2 as [_ ->].
  apply (writes_cons _ i (quit_info p i)); [reflexivity | apply quit_info_sum | exact (IH _ _ _ _ E)].
Qed.
Lemma withdrawTotal_table a n : preserves t_authorizeInfo (withdrawTotalStake a n : GM _).
Proof. unfold withdrawTotalStake, getTotalStake, putTotalStake, appCallTransferFromOng, appCallTransferFrom, time_offset. pres_steps. Qed.
Lemma black_loop_writes gp l : forall (s s' : GS (T := T)) n n', black_loop gp l n s = Ok (n', s') ->
  writes (fun i j => j = snd (black_info gp i)) l (table s) (table s').
Proof.
  induction l as [|i l IH]; intros s s' n n' E; cbn [black_loop] in E; [injection E as <- <-; constructor|].
  pose proof (black_info_sum gp i) as [Hk _]. destruct (black_info gp i) as [pen i'] eqn:Eb. cbn [snd] in Hk.
  apply st_bind_Ok in E as (v & s2 & E2 & E). apply st_bind_Ok in E as (w & s3 & E3 & E). apply putAuthorizeInfo_val in E2 as [_ ->].
  apply (writes_cons _ i i'); [rewrite Eb; reflexivity | exact Hk |]. apply IH in E. rewrite (withdrawTotal_table _ _ _ _ _ E3) in E. exact E.
Qed.

Section Peer.
Variables (m : PeerPoolMap) (p : PeerPoolItem).
Hypothesis Hp : m !! pp_PeerPubkey p = Some p.

Lemma update_acts f (s s' : GS (T := T)) u : conserving f -> accounted (gov s) m -> (do l <- authorizations p; update_loop f l) s = Ok (u, s') ->
  acts (pp_PeerPubkey p) (fun i j => f i = Ok j) (table s) (table s').
Proof.
  intros Hf Ha E. apply st_bind_Ok in E as (l & s1 & E1 & E). apply authorizations_val in E1 as (-> & h & Eh & ->).
  destruct (acc_pool _ _ Ha _ _ Hp) as (_ & (h' & Eh' & Hv) & _). rewrite Eh in Eh'. injection Eh' as <-.
  apply (writes_acts _ _ h); [apply (acc_auth _ _ Ha) | exact Eh | exact Hv | exact (update_loop_writes f _ Hf _ _ _ E)].
Qed.

Lemma normalQuit_acts (s s' : GS (T := T)) u : accounted (gov s) m -> normalQuit p s = Ok (u, s') ->
  acts (pp_PeerPubkey p) (fun i j => j = quit_info p i) (table s) (table s').
Proof.
  intros Ha E. unfold normalQuit in E. apply st_bind_Ok in E as (l & s1 & E1 & E). apply authorizations_val in E1 as (-> & h & Eh & ->).
  destruct (acc_pool _ _ Ha _ _ Hp) as (_ & (h' & Eh' & Hv) & Hl). rewrite Eh in Eh'. injection Eh' as <-.
  apply st_bind_Ok in E as (flag & s2 & E2 & E). destruct (own_addresses h (gov s) m Ha Hv) as [Hk Hn]. pose proof (acc_auth _ _ Ha) as Ht.
  pose proof (writes_acts _ _ h _ _ Ht Eh Hv (quit_loop_writes _ _ _ _ _ _ E2)) as Hw.
  apply (quit_loop_ok m p Hp _ Hn s s2 false flag) in E2 as (_ & Hf & _); [| discriminate | exact Ha | apply (listed_iterate h _ m Ha)].
  destruct flag; cbn [negb] in E; [injection E as <- <-; exact Hw|]. apply putAuthorizeInfo_val in E as [_ ->]. cbn [gov].
  intros k i Hi. assert (Hkk : k <> h ++ pp_Address p).
  { intros ->. destruct (Ht _ _ Hi) as (Ei & _ & Hia). assert (Hin : i ∈ iterate h (table s)).
    { apply in_iterate; [exact Ht|]. rewrite <- Ei. split; [exact Hi | apply is_prefix_spec; eauto]. }
    apply (Hf eq_refl i Hin). rewrite (Hk i Hin) in Ei. apply app_addr_inj in Ei as [_ Ei]; auto. }
  cbn. rewrite (akey_eq (mkAuth _ _ _ _ _ _ _ _) h Eh), lookup_insert_ne by (cbn; congruence). exact (Hw k i Hi).
Qed.

Lemma blackQuit_acts (s s' : GS (T := T)) u : accounted (gov s) m -> blackQuit p s = Ok (u, s') ->
  acts (pp_PeerPubkey p) (fun _ _ => True) (table s) (table s').
Proof.
  intros Ha E. unfold blackQuit in E. apply st_bind_Ok in E as (u1 & s1 & E1 & E). apply st_bind_Ok in E as (u2 & s2 & E2 & E).
  apply st_bind_Ok in E as (gp & s3 & E3 & E). apply st_bind_Ok in E as (l & s4 & E4 & E). apply st_bind_Ok in E as (n & s5 & E5 & E).
  assert (H3 : table s3 = table s).
  { rewrite (getGlobalParam_keeps t_authorizeInfo _ _ _ E3), (withdrawTotal_table _ _ _ _ _ E2). exact (transferOnt_keeps t_authorizeInfo _ _ _ _ _ _ E1). }
  assert (H5 : table s' = table s5).
  { revert E. generalize (pp_PeerPubkey p) as pk. intros pk E. refine (penalty_keeps t_authorizeInfo _ _ _ _ _ _ _ E). intros ? []. reflexivity. }
  apply authorizations_val in E4 as (-> & h & Eh & ->). destruct (acc_pool _ _ Ha _ _ Hp) as (_ & (h' & Eh' & Hv) & Hl). rewrite Eh in Eh'. injection Eh' as <-.
  apply black_loop_writes in E5. rewrite H3 in E5. rewrite H5. intros k i Hi.
  destruct (writes_acts _ _ h _ _ (acc_auth _ _ Ha) Eh Hv E5 k i Hi) as [H1 H2]. split; [|exact H2]. intros H. destruct (H1 H) as (j & _ & Hk & Hj). eauto.
Qed.
End Peer.

(** *** The scan *)

Definition scan_moves (p : PeerPoolItem) (i j : AuthorizeInfo) : Prop :=
  if pp_Status p =? QuitingStatus then j = quit_info p i else if pp_Status p =? BlackStatus then True else j = i.

Lemma acts_id (pk : PubKey) (t : Table) : acts pk (fun i j => j = i) t t.
Proof. intros k i Hi. split; [|auto]. intros _. exists i. repeat split; exact Hi. Qed.
Lemma acts_impl (pk : PubKey) (F G : AuthorizeInfo -> AuthorizeInfo -> Prop) (t t' : Table) : (forall i j, F i j -> G i j) -> acts pk F t t' -> acts pk G t t'.
Proof. intros H Ha k i Hi. destruct (Ha k i Hi) as [H1 H2]. split; [|exact H2]. intros Hp. destruct (H1 Hp) as (j & HF & Hj). eauto. Qed.

Lemma scan_status_acts p m peers (s s' : GS (T := T)) r : m !! pp_PeerPubkey p = Some p -> accounted (gov s) m ->
  scan_status p m peers s = Ok (r, s') -> acts (pp_PeerPubkey p) (scan_moves p) (table s) (table s').
Proof.
  intros Hp Ha E. unfold scan_status in E. apply st_bind_Ok in E as (m1 & s1 & E1 & E). apply st_bind_Ok in E as (m2 & s2 & E2 & E).
  assert (E3 : table s' = table s2) by (destruct (pp_Status p =? QuitConsensusStatus); injection E as <- <-; reflexivity). rewrite E3.
  destruct (pp_Status p =? QuitingStatus) eqn:S1.
  - apply Z.eqb_eq in S1 as S1'. rewrite S1' in E2. injection E2 as <- <-. apply st_bind_Ok in E1 as (u & s0 & E1 & E0). injection E0 as <- <-.
    apply (acts_impl _ (fun i j => j = quit_info p i)); [intros i j ->; unfold scan_moves; rewrite S1; reflexivity | exact (normalQuit_acts m p Hp _ _ _ Ha E1)].
  - injection E1 as <- <-. destruct (pp_Status p =? BlackStatus) eqn:S2.
    + apply st_bind_Ok in E2 as (u & s0 & E2 & E0). injection E0 as <- <-.
      apply (acts_impl _ (fun _ _ => True)); [intros i j _; unfold scan_moves; rewrite S1, S2; exact I | exact (blackQuit_acts m p Hp _ _ _ Ha E2)].
    + injection E2 as <- <-. apply (acts_impl _ (fun i j => j = i)); [intros i j ->; unfold scan_moves; rewrite S1, S2; reflexivity | apply acts_id].
Qed.

Lemma scan_peers_visits costs l : forall m peers (s s' : GS (T := T)) r, pooled l m -> accounted (gov s) m ->
  scan_peers costs l m peers s = Ok (r, s') -> visits (map (fun p => (pp_PeerPubkey p, scan_moves p)) l) (table s) (table s').
Proof.
  induction l as [|p l IH]; intros m peers s s' r Hl Ha E; cbn [scan_peers map] in E |- *; [injection E as <- <-; constructor|].
  apply st_bind_Ok in E as (u & s1 & E1 & E). apply st_bind_Ok in E as ([m1 peers1] & s2 & E2 & E).
  assert (Hc : preserves accounts (if costs then shift_cost p else st_ret () : GM unit)) by (apply pres_if; [apply core_accounts, shift_cost_keeps | apply pres_ret]).
  pose proof (accounted_keeps _ m Hc s u s1 Ha E1) as A1. apply Hc in E1. assert (Et : table s1 = table s) by exact (f_equal fst E1).
  pose proof (proj2 Hl p ltac:(left)) as Hp. pose proof (scan_status_acts p m peers s1 s2 _ Hp A1 E2) as Hs. rewrite Et in Hs.
  apply (scan_status_ok p m peers Hp s1 _ s2 A1) in E2 as [A2 E2]. cbn [fst] in A2. injection E2 as -> ->.
  econstructor; [exact Hs | exact (IH _ _ _ _ _ (pooled_next p l m _ Hl (status_of_scan_ne p m)) A2 E)].
Qed.

(** *** The election *)

Definition elect_moves (m : PeerPoolMap) (pk : PubKey) (i j : AuthorizeInfo) : Prop :=
  exists p, m !! pk = Some p /\ (if pp_Status p =? ConsensusStatus then c2c_info i else u2c_info i) = Ok j.
Definition stand_by_moves (m : PeerPoolMap) (pk : PubKey) (i j : AuthorizeInfo) : Prop :=
  exists p, m !! pk = Some p /\ (if pp_Status p =? ConsensusStatus then c2u_info i else u2u_info i) = Ok j.

Lemma visits_impl (l l' : list (PubKey * (AuthorizeInfo -> AuthorizeInfo -> Prop))) (t t' : Table) : Forall2 (fun x y => x.1 = y.1 /\ forall i j, x.2 i j -> y.2 i j) l l' -> visits l t t' -> visits l' t t'.
Proof.
  intros HF Hv. revert l' HF. induction Hv as [t|pk F l t t1 t' Ha _ IH]; intros l' HF; inversion HF as [|? [pk' G] ? l'' [E1 E2] HF']; subst; [constructor|].
  cbn in E1, E2. subst. econstructor; [exact (acts_impl _ _ _ _ _ E2 Ha) | exact (IH _ HF')].
Qed.
Lemma visits_insert (mv : PeerPoolMap -> PubKey -> AuthorizeInfo -> AuthorizeInfo -> Prop) (m : PeerPoolMap) (k : PubKey) (q : PeerPoolItem) (l : list PeerStakeInfo) (t t' : Table) :
  (forall m' pk i j, m' !! pk = m !! pk -> mv m' pk i j -> mv m pk i j) -> k ∉ map si_PeerPubkey l ->
  visits (map (fun x => (si_PeerPubkey x, mv (<[k := q]> m) (si_PeerPubkey x))) l) t t' ->
  visits (map (fun x => (si_PeerPubkey x, mv m (si_PeerPubkey x))) l) t t'.
Proof.
  intros Hmv Hk. apply visits_impl. induction l as [|x l IH]; cbn; [constructor|]. cbn in Hk. apply not_elem_of_cons in Hk as [H1 H2].
  constructor; [|exact (IH H2)]. split; [reflexivity|]. intros i j. apply Hmv. rewrite pool_insert, decide_False by congruence. reflexivity.
Qed.

Lemma elect_visits l : forall m (s s' : GS (T := T)) m', NoDup (map si_PeerPubkey l) -> accounted (gov s) m -> elect l m s = Ok (m', s') ->
  visits (map (fun x => (si_PeerPubkey x, elect_moves m (si_PeerPubkey x))) l) (table s) (table s').
Proof.
  induction l as [|x l IH]; intros m s s' m' Hn Ha E; cbn [elect map] in *; [injection E as <- <-; constructor|]. apply NoDup_cons in Hn as [Hx Hn].
  apply st_bind_Ok in E as (p & s1 & E1 & E). destruct (m !! si_PeerPubkey x) as [p'|] eqn:Hp; [|discriminate]. injection E1 as <- <-.
  apply st_bind_Ok in E as (u & s2 & E2 & E). destruct (acc_pool _ _ Ha _ _ Hp) as (Ek & _).
  assert (H2 : accounted (gov s2) m /\ acts (si_PeerPubkey x) (elect_moves m (si_PeerPubkey x)) (table s) (table s2)).
  { assert (Hp' : m !! pp_PeerPubkey p' = Some p') by (rewrite Ek; exact Hp). destruct (pp_Status p' =? ConsensusStatus) eqn:Es.
    - split; [exact (epoch_ok _ p' m c2c_conserving s u s2 Ha E2)|]. rewrite <- Ek at 1.
      refine (acts_impl _ _ _ _ _ _ (update_acts m p' Hp' _ s s2 u c2c_conserving Ha E2)). intros i j Hf. exists p'. rewrite Es. auto.
    - split; [exact (epoch_ok _ p' m u2c_conserving s u s2 Ha E2)|]. rewrite <- Ek at 1.
      refine (acts_impl _ _ _ _ _ _ (update_acts m p' Hp' _ s s2 u u2c_conserving Ha E2)). intros i j Hf. exists p'. rewrite Es. auto. }
  destruct H2 as [A2 Hact]. econstructor; [exact Hact|]. apply (visits_insert elect_moves m (si_PeerPubkey x) (set_status ConsensusStatus p')).
  - intros n pk i j En (q & Hq & Hf). exists q. rewrite <- En. auto.
  - exact Hx.
  - apply (IH _ _ _ _ Hn) in E; [exact E|]. apply (accounted_same _ m _ p'); [exact A2 | exact Hp | reflexivity..].
Qed.
Lemma stand_by_visits l : forall m (s s' : GS (T := T)) m', NoDup (map si_PeerPubkey l) -> accounted (gov s) m -> stand_by l m s = Ok (m', s') ->
  visits (map (fun x => (si_PeerPubkey x, stand_by_moves m (si_PeerPubkey x))) l) (table s) (table s').
Proof.
  induction l as [|x l IH]; intros m s s' m' Hn Ha E; cbn [stand_by map] in *; [injection E as <- <-; constructor|]. apply NoDup_cons in Hn as [Hx Hn].
  apply st_bind_Ok in E as (p & s1 & E1 & E). destruct (m !! si_PeerPubkey x) as [p'|] eqn:Hp; [|discriminate]. injection E1 as <- <-.
  apply st_bind_Ok in E as (u & s2 & E2 & E). destruct (acc_pool _ _ Ha _ _ Hp) as (Ek & _).
  assert (H2 : accounted (gov s2) m /\ acts (si_PeerPubkey x) (stand_by_moves m (si_PeerPubkey x)) (table s) (table s2)).
  { assert (Hp' : m !! pp_PeerPubkey p' = Some p') by (rewrite Ek; exact Hp). destruct (pp_Status p' =? ConsensusStatus) eqn:Es.
    - split; [exact (epoch_ok _ p' m c2u_conserving s u s2 Ha E2)|]. rewrite <- Ek at 1.
      refine (acts_impl _ _ _ _ _ _ (update_acts m p' Hp' _ s s2 u c2u_conserving Ha E2)). intros i j Hf. exists p'. rewrite Es. auto.
    - split; [exact (epoch_ok _ p' m u2u_conserving s u s2 Ha E2)|]. rewrite <- Ek at 1.
      refine (acts_impl _ _ _ _ _ _ (update_acts m p' Hp' _ s s2 u u2u_conserving Ha E2)). intros i j Hf. exists p'. rewrite Es. auto. }
  destruct H2 as [A2 Hact]. econstructor; [exact Hact|]. apply (visits_insert stand_by_moves m (si_PeerPubkey x) (set_status CandidateStatus p')).
  - intros n pk i j En (q & Hq & Hf). exists q. rewrite <- En. auto.
  - exact Hx.
  - apply (IH _ _ _ _ Hn) in E; [exact E|]. apply (accounted_same _ m _ p'); [exact A2 | exact Hp | reflexivity..].
Qed.

(** *** The whole epoch *)

(** No two peers of the pool have texts of the same key. *)
Definition distinct (m : PeerPoolMap) : Prop :=
  forall pk p pk' p', m !! pk = Some p -> m !! pk' = Some p' -> hex_DecodeString pk = hex_DecodeString pk' -> pk = pk'.

(** The step of an authorisation at a peer that is not blacklisted. *)
Definition epoch_moves (k : Z) (m : PeerPoolMap) (p : PeerPoolItem) (i j : AuthorizeInfo) : Prop :=
  if pp_Status p =? QuitingStatus then j = quit_info p i
  else if is_candidate p then
    (if Z.of_nat (rank m p) <? k then (if pp_Status p =? ConsensusStatus then c2c_info i else u2c_info i)
     else (if pp_Status p =? ConsensusStatus then c2u_info i else u2u_info i)) = Ok j
  else j = i.

Lemma distinct_nodup m (l : list PubKey) : distinct m -> NoDup l -> (forall pk, pk ∈ l -> is_Some (m !! pk)) -> NoDup (map hex_DecodeString l).
Proof.
  intros Hd Hn Hl. apply NoDup_fmap_2_strong; [|exact Hn]. intros x y Hx Hy E. destruct (Hl x Hx) as [p Hp], (Hl y Hy) as [q Hq]. exact (Hd _ _ _ _ Hp Hq E).
Qed.
Lemma visits_keys {A} (f : A -> PubKey) (F : A -> AuthorizeInfo -> AuthorizeInfo -> Prop) (l : list A) :
  map (hex_DecodeString ∘ fst) (map (fun x => (f x, F x)) l) = map hex_DecodeString (map f l).
Proof. rewrite !map_map. reflexivity. Qed.
Lemma elem_visits {A} (f : A -> PubKey) (F : A -> AuthorizeInfo -> AuthorizeInfo -> Prop) (l : list A) pk G :
  (pk, G) ∈ map (fun x => (f x, F x)) l -> exists x, x ∈ l /\ pk = f x /\ G = F x.
Proof. intros H. apply list_elem_of_fmap in H as (x & [= -> ->] & Hx). eauto. Qed.

(** Two peers of the pool that hold the authorisation are the same. *)
Lemma one_peer m pk pk' p p' i : distinct m -> m !! pk = Some p -> m !! pk' = Some p' -> at_peer pk i -> at_peer pk' i -> pk = pk'.
Proof. intros Hd H1 H2 A1 A2. apply (Hd _ _ _ _ H1 H2). unfold at_peer in *. congruence. Qed.

Lemma sorted_pooled m pk : pool_shaped m -> pk ∈ map si_PeerPubkey (sorted_candidates m) -> exists p, m !! pk = Some p /\ is_candidate p = true.
Proof.
  intros Hm Hs. change (pk ∈ si_PeerPubkey <$> sort_stable peer_less (candidates m)) in Hs. rewrite (sort_stable_perm peer_less) in Hs. unfold candidates in Hs.
  rewrite <- list_fmap_compose in Hs. apply list_elem_of_fmap in Hs as (q & -> & Hq). apply list_elem_of_filter in Hq as [Hc Hq]. exists q. split; [apply in_range; assumption | exact Hc].
Qed.

(** One round of loops over a part of the candidates, for an authorisation of the peer [p]. *)
Lemma part_visits (m n : PeerPoolMap) (l : list PeerStakeInfo) (pk : PubKey) (p : PeerPoolItem) (mv : PeerPoolMap -> PubKey -> AuthorizeInfo -> AuthorizeInfo -> Prop) (t t' : Table) k i :
  pool_shaped m -> distinct m -> m !! pk = Some p -> at_peer pk i -> t !! k = Some i ->
  l `sublist_of` sorted_candidates m -> visits (map (fun x => (si_PeerPubkey x, mv n (si_PeerPubkey x))) l) t t' ->
  (pk ∈ map si_PeerPubkey l -> exists j, mv n pk i j /\ same_key i j /\ t' !! k = Some j) /\ (pk ∉ map si_PeerPubkey l -> t' !! k = Some i).
Proof.
  intros Hm Hd Hp Hat Hi Hl Hv. assert (Hin : forall x, x ∈ map si_PeerPubkey l -> exists q, m !! x = Some q).
  { intros x Hx. destruct (sorted_pooled m x Hm) as (q & Hq & _); [|eauto]. eapply elem_of_sublist; [exact Hx | apply (fmap_sublist si_PeerPubkey), Hl]. }
  assert (Hn : NoDup (map (hex_DecodeString ∘ fst) (map (fun x => (si_PeerPubkey x, mv n (si_PeerPubkey x))) l))).
  { rewrite (visits_keys si_PeerPubkey (fun x => mv n (si_PeerPubkey x))). apply (distinct_nodup m); [exact Hd | | intros x Hx; apply Hin, Hx].
    eapply sublist_NoDup; [exact (sorted_nodup m Hm) | apply (fmap_sublist si_PeerPubkey), Hl]. }
  destruct (visits_spec _ _ _ Hv Hn k i Hi) as [H1 H2]. split.
  - intros Hx. apply (H1 pk (mv n pk)); [|exact Hat]. apply list_elem_of_fmap in Hx as (x & -> & Hx). apply list_elem_of_fmap. exists x. auto.
  - intros Hx. apply H2. intros qk G HG Hq. apply elem_visits in HG as (x & Hx' & -> & _). apply Hx.
    assert (Hxl : si_PeerPubkey x ∈ map si_PeerPubkey l) by (apply list_elem_of_fmap; eauto). destruct (Hin _ Hxl) as [q Hq'].
    rewrite (one_peer m pk (si_PeerPubkey x) p q i Hd Hp Hq' Hat Hq). exact Hxl.
Qed.

(** The three rounds of an epoch. *)
Lemma next_pool_visits costs view (s s' : GS (T := T)) u m : t_peerPool (gov s) !! view = Some m -> accounted (gov s) m ->
  next_pool costs view s = Ok (u, s') ->
  exists c m1 m2 t2 t3, next_config (gov s) view = Some c /\ (forall pk, m1 !! pk = m !! pk ≫= scan_peer) /\
    (forall pk, pk ∉ map si_PeerPubkey (take (Z.to_nat (cfg_K c)) (sorted_candidates m)) -> m2 !! pk = m1 !! pk) /\
    visits (map (fun p => (pp_PeerPubkey p, scan_moves p)) (range_of m)) (table s) t2 /\
    visits (map (fun x => (si_PeerPubkey x, elect_moves m1 (si_PeerPubkey x))) (take (Z.to_nat (cfg_K c)) (sorted_candidates m))) t2 t3 /\
    visits (map (fun x => (si_PeerPubkey x, stand_by_moves m2 (si_PeerPubkey x))) (drop (Z.to_nat (cfg_K c)) (sorted_candidates m))) t3 (table s').
Proof.
  intros Hm Ha E. destruct (next_pool_parts _ _ _ _ _ _ Hm E) as (s1 & s2 & s3 & s4 & c & m1 & peers & m2 & m3 & Hs & Hc & _ & E1 & _ & E2 & E3 & Hg).
  pose proof (acc_pool _ _ Ha) as Hp. assert (Ha1 : accounted (gov s1) m) by (apply (accounted_eq (gov s)); [unfold core in Hs; congruence | exact Ha]).
  assert (Hts : table s1 = table s) by exact (f_equal (fst ∘ fst) Hs). pose proof (pooled_range m Hp) as Hr.
  pose proof (scan_peers_visits _ _ _ _ _ _ _ Hr Ha1 E1) as V1. apply (scan_peers_ok costs _ m [] Hr s1 _ s2 Ha1) in E1 as [A1 Er]. cbn [fst] in A1.
  assert (Ep : peers = candidates m) by (apply (f_equal snd) in Er; exact Er). apply (f_equal fst) in Er. cbn [fst] in Er. subst peers. fold (sorted_candidates m) in E2, E3.
  pose proof (sorted_nodup m Hp) as Hn. rewrite <- (take_drop (Z.to_nat (cfg_K c)) (sorted_candidates m)), map_app in Hn. apply NoDup_app in Hn as (N1 & _ & N2).
  exists c, m1, m2, (table s2), (table s3). split; [exact Hc|]. split; [intros pk; rewrite Er; apply (scan_pool_lookup m pk Hp)|]. split.
  { intros pk Hpk. rewrite (elect_lookup _ _ _ _ _ E2 pk), decide_False by exact Hpk. reflexivity. }
  split; [rewrite <- Hts; exact V1|]. split; [exact (elect_visits _ _ _ _ _ N1 A1 E2)|]. rewrite Hg. apply (elect_ok _ _ _ _ _ A1) in E2. exact (stand_by_visits _ _ _ _ _ N2 E2 E3).
Qed.

Lemma next_pool_moves costs view (s s' : GS (T := T)) u m : t_peerPool (gov s) !! view = Some m -> accounted (gov s) m -> distinct m ->
  next_pool costs view s = Ok (u, s') ->
  exists c, next_config (gov s) view = Some c /\ forall k i pk p, table s !! k = Some i -> m !! pk = Some p -> at_peer pk i -> pp_Status p <> BlackStatus ->
    exists j, epoch_moves (cfg_K c) m p i j /\ same_key i j /\ table s' !! k = Some j.
Proof.
  intros Hm Ha Hd E. destruct (next_pool_visits _ _ _ _ _ _ Hm Ha E) as (c & m1 & m2 & t2 & t3 & Hc & Em1 & Em2 & V1 & V2 & V3).
  pose proof (acc_pool _ _ Ha) as Hp. pose proof (pooled_range m Hp) as Hr.
  pose proof (sorted_nodup m Hp) as Hn. rewrite <- (take_drop (Z.to_nat (cfg_K c)) (sorted_candidates m)), map_app in Hn. apply NoDup_app in Hn as (_ & Hdis & _).
  exists c. split; [exact Hc|]. intros k i pk p Hi Hpk Hat Hst. destruct (Hp _ _ Hpk) as (Epk & _).
  assert (Hi2 : exists i2, scan_moves p i i2 /\ same_key i i2 /\ t2 !! k = Some i2).
  { assert (Hn : NoDup (map (hex_DecodeString ∘ fst) (map (fun p => (pp_PeerPubkey p, scan_moves p)) (range_of m)))).
    { rewrite (visits_keys pp_PeerPubkey scan_moves). apply (distinct_nodup m); [exact Hd | exact (proj1 Hr)|]. intros x Hx.
      apply list_elem_of_fmap in Hx as (q & -> & Hq). apply in_range in Hq; [eauto | exact Hp]. }
    apply (proj1 (visits_spec _ _ _ V1 Hn k i Hi) pk (scan_moves p)); [|exact Hat]. apply list_elem_of_fmap. exists p. split; [congruence|].
    apply in_range; [exact Hp | rewrite Epk; exact Hpk]. }
  destruct Hi2 as (i2 & F2 & K2 & T2). pose proof (at_peer_same _ _ _ K2 Hat) as Hat2.
  destruct (part_visits m m1 _ pk p elect_moves _ _ k i2 Hp Hd Hpk Hat2 T2 (sublist_take _ _) V2) as [In2 Out2].
  assert (Hs3 : forall i3, t3 !! k = Some i3 -> at_peer pk i3 -> _) by
    exact (fun i3 T3 Hat3 => part_visits m m2 _ pk p stand_by_moves _ _ k i3 Hp Hd Hpk Hat3 T3 (sublist_drop _ _) V3).
  assert (Hm1 : m1 !! pk = scan_peer p) by (rewrite Em1, Hpk; reflexivity).
  unfold epoch_moves. unfold scan_moves in F2. destruct (is_candidate p) eqn:Ec.
  - assert (Hq : (pp_Status p =? QuitingStatus) = false /\ (pp_Status p =? BlackStatus) = false) by (destruct (candidate_status p Ec) as [-> | ->]; split; reflexivity).
    destruct Hq as [Q1 Q2]. rewrite Q1, Q2 in F2. rewrite Q1. subst i2. rewrite (candidate_stays p Ec) in Hm1.
    rewrite <- Epk in Hpk. pose proof (in_group m (Z.to_nat (cfg_K c)) p Hp Hpk Ec) as Hin. fold (sorted_candidates m) in Hin. rewrite Epk in Hpk, Hin.
    destruct (Z.ltb_spec (Z.of_nat (rank m p)) (cfg_K c)) as [Hk|Hk].
    + assert (Ht := proj2 Hin ltac:(lia)). destruct (In2 Ht) as (j & (q & Eq & Hf) & Kj & Tj). exists j. assert (q = p) as -> by congruence.
      split; [exact Hf|]. split; [exact Kj|]. apply (Hs3 j Tj (at_peer_same _ _ _ Kj Hat)). exact (Hdis _ Ht).
    + assert (Ht : pk ∉ map si_PeerPubkey (take (Z.to_nat (cfg_K c)) (sorted_candidates m))) by (rewrite Hin; lia).
      destruct (proj1 (Hs3 i (Out2 Ht) Hat)) as (j & (q & Eq & Hf) & Kj & Tj).
      { rewrite <- Epk in Hpk. pose proof (proj2 (in_sorted m p Hp Hpk) Ec) as Hall. rewrite Epk in Hall.
        rewrite <- (take_drop (Z.to_nat (cfg_K c)) (sorted_candidates m)), map_app in Hall. apply elem_of_app in Hall as [H|H]; [contradiction | exact H]. }
      exists j. rewrite (Em2 pk Ht) in Eq. assert (q = p) as -> by congruence. auto.
  - assert (Hno : pk ∉ map si_PeerPubkey (sorted_candidates m)) by (intros H; destruct (sorted_pooled m pk Hp H) as (q & Hq & Hc'); congruence).
    rewrite <- (take_drop (Z.to_nat (cfg_K c)) (sorted_candidates m)), map_app in Hno. apply not_elem_of_app in Hno as [No1 No2].
    exists i2. split; [|split; [exact K2 | exact (proj2 (Hs3 i2 (Out2 No1) Hat2) No2)]].
    destruct (pp_Status p =? QuitingStatus); [exact F2|]. apply Z.eqb_neq in Hst. rewrite Hst in F2. exact F2.
Qed.

(** ** Release *)

(** The end of the epoch of view [v], whose pool is [m]. *)
Definition epoch_end (v : GovernanceView) (m : PeerPoolMap) (s s' : GS (T := T)) : Prop :=
  t_view (gov s) = Some v /\ t_peerPool (gov s) !! View v = Some m /\ accounted (gov s) m /\ distinct m /\ executeCommitDpos s = Ok ((), s').

(** Amounts of a real balance: not negative, and their sum below [2^64]. *)
Definition bounded (i : AuthorizeInfo) : Prop :=
  0 <= ConsensusPos i /\ 0 <= CandidatePos i /\ 0 <= NewPos i /\ 0 <= WithdrawConsensusPos i /\ 0 <= WithdrawCandidatePos i /\
  0 <= WithdrawUnfreezePos i /\ all_pos i < 2 ^ 64.
(** What the owner asked back. *)
Definition frozen (i : AuthorizeInfo) : Z := WithdrawConsensusPos i + WithdrawCandidatePos i + WithdrawUnfreezePos i.

Lemma epoch_end_moves v m (s s' : GS (T := T)) : epoch_end v m s s' ->
  exists c, forall k i pk p, table s !! k = Some i -> m !! pk = Some p -> at_peer pk i -> pp_Status p <> BlackStatus ->
    exists j, epoch_moves c m p i j /\ same_key i j /\ table s' !! k = Some j.
Proof.
  intros (Hv & Hm & Ha & Hd & E). destruct (commit_parts _ _ _ _ Hv E) as (costs & s1 & s2 & E1 & K1 & K2 & _).
  unfold kept in K1, K2. injection K1 as A1 A2 P1 _ _ _. injection K2 as B1 _ _ _ _ _.
  destruct (next_pool_moves costs (View v) s1 s2 () m) as (c & _ & Hmv);
    [rewrite P1; exact Hm | apply (accounted_eq (gov s)); [unfold accounts; congruence | exact Ha] | exact Hd | exact E1|].
  exists (cfg_K c). intros k i pk p. rewrite B1, <- A1. apply Hmv.
Qed.

Ltac sums := unfold all_pos in *; cbn [ConsensusPos CandidatePos NewPos WithdrawConsensusPos WithdrawCandidatePos WithdrawUnfreezePos] in *.

Ltac no_wrap := repeat match goal with
  | |- context [u64 ?x] => lazymatch x with context [u64 _] => fail | _ => rewrite (u64_small x) by (unfold is_u64; lia) end
  end.

(** At a candidate, what was to be withdrawn moves on by one amount. *)
Lemma candidate_step c m p i j : is_candidate p = true -> bounded i -> epoch_moves c m p i j ->
  bounded j /\ all_pos j = all_pos i /\ WithdrawConsensusPos j = 0 /\ WithdrawCandidatePos j = WithdrawConsensusPos i /\
  WithdrawUnfreezePos j = WithdrawUnfreezePos i + WithdrawCandidatePos i.
Proof.
  intros Hc Hb Hm. unfold epoch_moves in Hm. rewrite Hc in Hm.
  assert (Hq : (pp_Status p =? QuitingStatus) = false) by (destruct (candidate_status p Hc) as [-> | ->]; reflexivity). rewrite Hq in Hm.
  unfold bounded in *. sums. unfold c2c_info, u2c_info, c2u_info, u2u_info, guard in Hm.
  repeat match type of Hm with context [if ?b then _ else _] => destruct b eqn:?Hz end; cbn [res_bind] in Hm; try discriminate; injection Hm as <-; sums;
    repeat match goal with H : (_ =? 0) = true |- _ => apply Z.eqb_eq in H end; no_wrap; lia.
Qed.
(** At a peer that quits, everything is released. *)
Lemma quit_step p i : bounded i -> 0 <= pp_InitPos p -> all_pos i + pp_InitPos p < 2 ^ 64 -> all_pos i <= WithdrawUnfreezePos (quit_info p i).
Proof.
  unfold bounded, quit_info. sums. intros Hb H1 H2. destruct (bool_decide _); no_wrap; lia.
Qed.

(** The entry [i], stored under [key], after [pos] has been withdrawn: deleted when nothing is left. *)
Definition withdrawn (key : list byte) (i : AuthorizeInfo) (pos : Z) (g : Gov) : Gov :=
  let g := upd_authorizeInfo (insert key (withdraw_info pos i)) g in
  if is_empty (withdraw_info pos i) then upd_authorizeInfo (delete key) g else g.

(** An entry with enough to withdraw lets its owner withdraw. *)
Lemma withdraw_one_done (s : GS (T := T)) pk h i height pos total : hex_DecodeString pk = Ok h -> table s !! (h ++ ai_Address i) = Some i ->
  at_peer pk i -> 1 <= pos <= WithdrawUnfreezePos i ->
  withdraw_one height (ai_Address i) pk pos total s = Ok (u64 (total + pos), mkGS (withdrawn (h ++ ai_Address i) i pos (gov s)) (env s)).
Proof.
  intros Eh Hi Hat Hpos. unfold at_peer in Hat. rewrite Eh in Hat. unfold withdraw_one, getAuthorizeInfo, putAuthorizeInfo, hex_key, withdrawn.
  rewrite Eh. unfold st_guard, guard, st_bind, st_lift, gets, sets, st_ret. rewrite (proj2 (Z.ltb_ge pos 1)), andb_false_r by lia. cbn [negb].
  rewrite Hi. cbn [default id from_option]. rewrite (proj2 (Z.ltb_ge (WithdrawUnfreezePos i) pos)) by lia. cbn [negb withdraw_info ai_PeerPubkey ai_Address]. rewrite Hat.
  destruct (is_empty _); reflexivity.
Qed.

(** The token contracts pay: [pos] ONT from the governance contract to the owner, then the ONG that its stake has released. *)
Definition pays (a : Address) (pos : Z) (s : GS (T := T)) : Prop :=
  exists amount e1 e2, let t := default (mkTotal a 0 0) (t_totalStake (gov s) !! a) in
    appCallTransferOnt GovernanceContractAddress a pos s = Ok ((), mkGS (gov s) e1) /\
    CalcUnbindOng (Stake t) (ts_TimeOffset t) (u32 (ne_Time e1 - GENESIS_BLOCK_TIMESTAMP)) = Ok amount /\
    appCallTransferFromOng GovernanceContractAddress OntContractAddress a amount (mkGS (gov s) e1) = Ok ((), mkGS (gov s) e2).

(** A call does not look at the tables. *)
Lemma transfer_frame (c from to : Address) n g g' e e' : appCallTransfer c from to n (mkGS g e : GS (T := T)) = Ok ((), mkGS g e') -> appCallTransfer c from to n (mkGS g' e : GS (T := T)) = Ok ((), mkGS g' e').
Proof.
  unfold appCallTransfer, native_call, st_bind, st_lift. destruct (SerializeToBytes _) as [b| |]; [|discriminate ..]. cbn [env gov]. destruct (ne_NativeCall _ _ _ e) as [[r e1]| |]; [|discriminate ..].
  intros [= ->]. reflexivity.
Qed.
Lemma transferFrom_frame (c sender from to : Address) n g g' e e' : appCallTransferFrom c sender from to n (mkGS g e : GS (T := T)) = Ok ((), mkGS g e') -> appCallTransferFrom c sender from to n (mkGS g' e : GS (T := T)) = Ok ((), mkGS g' e').
Proof.
  unfold appCallTransferFrom, native_call, st_bind, st_lift. destruct (SerializeToBytes _) as [b| |]; [|discriminate ..]. cbn [env gov]. destruct (ne_NativeCall _ _ _ e) as [[r e1]| |]; [|discriminate ..].
  intros [= ->]. reflexivity.
Qed.

Lemma withdrawn_total key i pos g : t_totalStake (withdrawn key i pos g) = t_totalStake g.
Proof. unfold withdrawn. destruct (is_empty _); reflexivity. Qed.

(** The whole of [Withdraw] for one peer. *)
Lemma Withdraw_done (s : GS (T := T)) pk h i pos : hex_DecodeString pk = Ok h -> table s !! (h ++ ai_Address i) = Some i -> at_peer pk i ->
  1 <= pos <= WithdrawUnfreezePos i -> pos < 2 ^ 64 -> total_shaped (t_totalStake (gov s)) ->
  decode Gdes.WithdrawParam (ne_Input (env s)) = Ok (mkPosList (ai_Address i) [pk] [pos]) -> ne_CheckWitness (ai_Address i) (env s) = true ->
  pos <= stake_of (t_totalStake (gov s)) (ai_Address i) -> pays (ai_Address i) pos s ->
  exists s', Withdraw s = Ok (BYTE_TRUE, s') /\
    table s' !! (h ++ ai_Address i) = (if is_empty (withdraw_info pos i) then None else Some (withdraw_info pos i)) /\
    stake_of (t_totalStake (gov s')) (ai_Address i) = u64 (stake_of (t_totalStake (gov s)) (ai_Address i) - pos).
Proof.
  intros Eh Hi Hat Hpos Hmax Hts Hin Hw Hst (amount & e1 & e2 & E1 & E2 & E3). set (a := ai_Address i) in *. set (key := h ++ a) in *.
  set (g1 := withdrawn key i pos (gov s)). set (t := default (mkTotal a 0 0) (t_totalStake (gov s) !! a)) in *.
  assert (Ht : ts_Address t = a /\ Stake t = stake_of (t_totalStake (gov s)) a).
  { unfold t, stake_of. destruct (t_totalStake (gov s) !! a) as [t0|] eqn:E0; [|split; reflexivity]. split; [exact (Hts _ _ E0) | reflexivity]. }
  destruct Ht as [Ha Hs]. unfold Withdraw. assert (Ein : gov_input Gdes.WithdrawParam s = Ok (mkPosList a [pk] [pos], s)) by (unfold gov_input, st_bind, asks, st_lift; rewrite Hin; reflexivity).
  run Ein. cbn [al_Address al_PeerPubkeyList al_PosList]. assert (Ew : ValidateOwner a s = Ok ((), s)) by (unfold ValidateOwner, st_bind, asks, st_guard, st_lift, guard; rewrite Hw; reflexivity).
  run Ew. rewrite (st_bind_eq (asks ne_Height) _ s (ne_Height (env s)) s eq_refl). cbn [withdraw_loop].
  assert (El : (do total <- withdraw_one (ne_Height (env s)) a pk pos 0; st_ret total) s = Ok (pos, mkGS g1 (env s))).
  { run (withdraw_one_done s pk h i (ne_Height (env s)) pos 0 Eh Hi Hat Hpos). rewrite u64_small by words. reflexivity. }
  run El. destruct s as [g e]. cbn [gov env] in *. run (transfer_frame _ _ _ _ _ g1 _ _ E1).
  assert (Et : getTotalStake a (mkGS g1 e1) = Ok (t, mkGS g1 e1)) by (unfold getTotalStake, st_bind, gets, st_ret; cbn [gov]; unfold g1; rewrite withdrawn_total; reflexivity).
  assert (Ed : withdrawTotalStake a pos (mkGS g1 e1) = Ok ((), mkGS (upd_totalStake (insert a (mkTotal a (u64 (Stake t - pos)) (u32 (ne_Time e1 - GENESIS_BLOCK_TIMESTAMP)))) g1) e2)).
  { unfold withdrawTotalStake. run Et. unfold st_guard. rewrite (proj2 (Z.ltb_ge (Stake t) pos)) by lia. cbn [negb]. rewrite (st_bind_eq (st_lift (guard true _)) _ _ () _ eq_refl).
    rewrite (st_bind_eq time_offset _ (mkGS g1 e1) _ _ eq_refl). cbn [env]. rewrite E2. rewrite (st_bind_eq (st_lift (Ok amount)) _ _ amount _ eq_refl). rewrite Ha. run (transferFrom_frame _ _ _ _ _ _ g1 _ _ E3). reflexivity. }
  run Ed. eexists. split; [reflexivity|]. cbn [gov upd_totalStake t_authorizeInfo t_totalStake]. split.
  - unfold g1, withdrawn. destruct (is_empty _); cbn [upd_authorizeInfo t_authorizeInfo]; [apply lookup_delete_eq | apply lookup_insert_eq].
  - unfold stake_of at 1. rewrite lookup_insert_eq. cbn [from_option Stake]. rewrite Hs. reflexivity.
Qed.


End Moves.

(** ** The release on the example *)

Import GovExample.

Definition after {A} (c : @GM Chain A) (s : GS) : GS := match c s with Ok (_, s') => s' | _ => s end.
Lemma after_Ok (c : @GM Chain unit) s : returns (c s) = true -> c s = Ok ((), after c s).
Proof. unfold after. destruct (c s) as [[[] s']|e|]; [reflexivity | discriminate..]. Qed.

Definition epoch1 : GS := after executeCommitDpos (at_height 10 []).
Definition later : GS := mkGS (gov epoch1) (mkChain 20 []).

Lemma pool_distinct (m : PeerPoolMap) : (forall pk, is_Some (m !! pk) -> pk = peer_key) -> distinct m.
Proof. intros H pk p pk' p' H1 H2 _. rewrite (H pk), (H pk'); eauto. Qed.
Lemma example_commit1 : executeCommitDpos (at_height 10 []) = Ok ((), epoch1).
Proof. refine (after_Ok _ _ _). vm_compute. reflexivity. Qed.
Lemma example_commit2 : executeCommitDpos later = Ok ((), after executeCommitDpos later).
Proof. refine (after_Ok _ _ _). vm_compute. reflexivity. Qed.

Section Epochs.
Variable s1 : GS (T := Chain).
Hypothesis E1 : executeCommitDpos (at_height 10 []) = Ok ((), s1).

Lemma example_epoch1 : epoch_end (mkView 1 0 []) pool (at_height 10 []) s1.
Proof.
  split; [reflexivity|]. split; [reflexivity|]. split; [exact start_accounted|]. split; [|exact E1].
  apply pool_distinct. intros pk [p Hp]. apply in_pool in Hp as [-> _]. reflexivity.
Qed.
Lemma example_pool1 : exists v m, t_view (gov s1) = Some v /\ t_peerPool (gov s1) !! View v = Some m /\ accounted (gov s1) m /\ distinct m /\
  m !! peer_key = Some peer.
Proof.
  destruct example_epoch1 as (H1 & H2 & H3 & _ & E). destruct (commit_pool _ _ _ _ _ H1 H2 H3 E) as (c & Hc & _ & _ & Hv & Hm). injection Hc as <-.
  destruct (executeCommitDpos_ok (at_height 10 []) () s1 start_inv E) as (m & Hf & Ha). unfold in_force in Hf.
  destruct (t_view (gov s1)) as [v|]; [|discriminate]. injection Hv as Ev. rewrite Ev in Hf. exists v, m. rewrite Ev. split; [reflexivity|].
  split; [exact Hf|]. split; [exact Ha|]. assert (m = omap (next_peer 1 pool) pool) as -> by (pose proof (eq_trans (eq_sym Hf) Hm) as Em; injection Em as ->; reflexivity). split.
  - apply pool_distinct. intros pk [p Hp]. apply (eq_trans (eq_sym (next_lookup 1 pool pk))) in Hp.
    destruct (pool !! pk) as [q|] eqn:Hq; [|discriminate]. apply in_pool in Hq as [-> _]. reflexivity.
  - etransitivity; [apply next_lookup|]. vm_compute. reflexivity.
Qed.
End Epochs.

(** A call that withdraws 1000. *)
Definition withdraw_args : list byte :=
  match sink_bytes_of (Gser.WithdrawParam (mkPosList user [peer_key] [1000])) with Ok b => b | _ => [] end.
Lemma user_stake : t_totalStake (gov (after executeCommitDpos later)) !! user = Some (mkTotal user 2000 0).
Proof. vm_compute. reflexivity. Qed.


(** ** Edges of the governance contract *)

Import GovExample.

(** ** The share of an address *)

Section Share.
Context {T : Type} `{HT : NativeEnv T} `{HK : PeerKeys} {R : RangeOrder}.
Local Notation GM := (@GM T).

(** The share of an address is [validatePos * totalAmount / totalPos] only while the product is below [2^64]: then
    [executeAddressSplit] credits the address exactly that much.  Past it the product wraps; one holder of all the
    10000000 ONT behind a peer that has 2000 ONG to divide is credited 155 ONG instead of 2000 (the division
    among the peers was moved to unbounded integers, this one was not). *)
Theorem address_share_wraps :
  (forall (i : AuthorizeInfo) (s : GS (T := T)) totalPos totalAmount peerAddress, let pos := ConsensusPos i + WithdrawConsensusPos i in
     0 < pos -> 0 <= totalAmount -> pos < 2 ^ 64 -> pos * totalAmount < 2 ^ 64 -> totalPos <> 0 -> ai_Address i <> peerAddress ->
     exists s', executeAddressSplit i true true totalPos totalAmount peerAddress s = Ok (pos * totalAmount / totalPos, s')) /\
  (forall s : GS (T := Chain), exists s',
     executeAddressSplit (mkAuth peer_key user 10000000 0 0 0 0 0) true true 10000000 2000000000000 owner s = Ok (155325592629, s') /\
     10000000 * 2000000000000 / 10000000 = 2000000000000).
Proof.
  split.
  - cbv zeta. intros i s totalPos totalAmount peerAddress Hp Ha Hp' Hm Ht Hn. unfold executeAddressSplit, getSplitFeeAddress, putSplitFeeAddress. cbn [orb].
    rewrite (u64_small (_ + _)) by (unfold is_u64; lia). rewrite (proj2 (Z.eqb_neq _ 0)) by lia. rewrite bool_decide_eq_false_2 by exact Hn. cbn [orb].
    rewrite u64_small by (unfold is_u64; nia). unfold go_div. rewrite (proj2 (Z.eqb_neq totalPos 0)) by lia. eexists. reflexivity.
  - intros s. eexists. split; reflexivity.
Qed.
End Share.

(** ** Two texts of one key *)

(** A pool whose consensus peer has the key of 33 bytes [0xaa], written in lower case. *)
Definition lower_key : PubKey := repeat x61 66.
Definition upper_key : PubKey := repeat x41 66.
Definition lower_peer : PeerPoolItem := mkPeer 1 lower_key owner ConsensusStatus 10000 1000.
Definition lower_pool : PeerPoolMap := {[lower_key := lower_peer]}.
Definition lower_start : Gov :=
  upd_authorizeInfo (fun _ => {[repeat xaa 33 ++ user := mkAuth lower_key user 1000 0 0 500 300 200]})
    (upd_peerPool (fun _ => <[1 := lower_pool]> {[0 := lower_pool]}) start).

Definition bytes_or_nil (r : res (list byte)) : list byte := match r with Ok b => b | _ => [] end.
Definition register_upper : list byte :=
  bytes_or_nil (sink_bytes_of (Gser.RegisterCandidateParam (mkRegister upper_key user 20000 [] 0))).
Definition approve_upper : list byte := bytes_or_nil (sink_bytes_of (Gser.ApproveCandidateParam (mkPeerParam upper_key))).

Definition call (c : @GM Chain (list byte)) (height : Z) (input : list byte) (g : Gov) : res (list byte * GS) := c (mkGS g (mkChain height input)).
Definition then_call (r : res (list byte * GS (T := Chain))) (c : @GM Chain (list byte)) (height : Z) (input : list byte) : res (list byte * GS) :=
  let* '(_, s) := r in call c height input (gov s).

Definition failed {A} (r : res A) : bool := match r with Err _ => true | _ => false end.

(** Two texts of the same key are two peers, and the second stops the epochs.  [hex.DecodeString] takes digits of
    either case while the pool is keyed by the text, so [registerCandidate] accepts the key of a consensus peer again in
    the other case, and the operator can approve it.  Both peers then share the authorisations, which are stored under the bytes of the key:
    at the end of the epoch the stakes of the one must be consensus stakes and of the other must not be, so [commitDpos], which
    succeeded before the registration, fails. *)
Example case_variant_blocks_epoch :
  hex_DecodeString lower_key = hex_DecodeString upper_key /\ lower_key <> upper_key /\
  returns (call CommitDpos 12 [] lower_start) = true /\
  let registered := call RegisterCandidate 10 register_upper lower_start in
  let approved := then_call registered ApproveCandidate 11 approve_upper in
  returns registered = true /\ returns approved = true /\ failed (then_call approved CommitDpos 12 []) = true.
Proof. split; [reflexivity|]. split; [discriminate|]. split; [vm_compute; reflexivity|]. cbv zeta. repeat split; vm_compute; reflexivity. Qed.
