(* ===== verification/GovFees.v ===== *)
(** * The fees of the governance contract

    The ONG the contract has promised to addresses is recorded twice, per address and as a sum; the two agree.  The
    weight of a consensus peer is the linear interpolation of the curve, and a division of the fees never promises
    more than was earned. *)

From S2P Require Import Prelude Codec BigInt MemDb NativeData LedgerTypes NativeService OntOng GovData GovState GovStake GovSplit GovCommit Governance GovLogic GovAccounts GovMethods GovExample.

Section Fees.
Context {T : Type} `{HT : NativeEnv T} `{HK : PeerKeys} {R : RangeOrder} {HB : FromBase58} {HT58 : Base58}.
Local Notation GM := (@GM T).

(** ** The two records of the fees *)

Definition promised (g : Gov) : Z := msum sf_Amount (t_splitFeeAddress g).
Definition fee_sum (g : Gov) : Z := default 0 (t_splitFee g).
Definition fees_agree (g : Gov) : Prop := promised g ≡64 fee_sum g.
Definition fees (g : Gov) := (t_splitFee g, t_splitFeeAddress g).

(** A computation that promises [d r] more. *)
Definition promises {A} (c : GM A) (d : A -> Z) : Prop :=
  forall s a s', c s = Ok (a, s') -> promised (gov s') ≡64 promised (gov s) + d a /\ t_splitFee (gov s') = t_splitFee (gov s).

Lemma promises_keeps {A} (c : GM A) : preserves fees c -> promises c (fun _ => 0).
Proof. intros Hc s a s' E. specialize (Hc _ _ _ E). unfold fees in Hc. injection Hc as E1 E2. unfold promised. rewrite E1, E2. split; [apply eq64_eq; lia | reflexivity]. Qed.
Lemma promises_bind {A B} (c : GM A) (k : A -> GM B) d d' :
  promises c d -> (forall a, promises (k a) (fun b => d' b - d a)) -> promises (st_bind c k) d'.
Proof.
  intros Hc Hk s b s' E. apply st_bind_Ok in E as (a & s1 & E1 & E2). destruct (Hc _ _ _ E1) as [P1 F1], (Hk a _ _ _ E2) as [P2 F2].
  split; [rewrite P2, P1; apply eq64_eq; lia | congruence].
Qed.
(** A part that promises nothing. *)
Lemma promises_skip {A B} (c : GM A) (k : A -> GM B) d : preserves fees c -> (forall a, promises (k a) d) -> promises (st_bind c k) d.
Proof.
  intros Hc Hk. apply (promises_bind c k (fun _ => 0)); [apply promises_keeps, Hc|]. intros a s b s' E. destruct (Hk a s b s' E) as [P F].
  split; [rewrite P; apply eq64_eq; lia | exact F].
Qed.
Lemma promises_ret {A} (a : A) d : d a ≡64 0 -> promises (st_ret a) d.
Proof. intros Hd s b s' [= <- <-]. split; [rewrite Hd; apply eq64_eq; lia | reflexivity]. Qed.
Lemma promises_panic {A} d : promises (st_panic : GM A) d.
Proof. intros s b s' [=]. Qed.
Lemma promises_ext {A} (c : GM A) d d' : (forall a, d a ≡64 d' a) -> promises c d -> promises c d'.
Proof. intros Hd Hc s a s' E. destruct (Hc s a s' E) as [P F]. split; [rewrite <- (Hd a); exact P | exact F]. Qed.

(** *** A share is credited *)

Lemma credit_promises a n : promises (do x <- getSplitFeeAddress a; putSplitFeeAddress a (mkSplitFee (sf_Address x) (u64 (sf_Amount x + n)))) (fun _ => n).
Proof.
  intros s u s' E. apply st_bind_Ok in E as (x & s1 & E1 & E). unfold getSplitFeeAddress in E1. apply st_bind_Ok in E1 as (t & s2 & E2 & E1).
  injection E2 as <- <-. injection E1 as <- <-. injection E as <- <-. unfold promised. cbn. split; [|reflexivity]. rewrite msum_insert. cbn [sf_Amount].
  destruct (t_splitFeeAddress (gov s) !! a) as [y|]; cbn [from_option default id sf_Amount]; mod64.
Qed.
Lemma addressSplit_promises i b1 b2 n1 n2 a : promises (executeAddressSplit i b1 b2 n1 n2 a) (fun r => r).
Proof.
  unfold executeAddressSplit. destruct (_ || _); [apply promises_ret; reflexivity|]. apply promises_skip; [apply pres_lift|]. intros n s r s' E.
  apply st_bind_Ok in E as (x & s1 & E1 & E). apply st_bind_Ok in E as (v & s2 & E2 & E). injection E as <- <-.
  refine (credit_promises (ai_Address i) n s v s2 _). unfold st_bind. rewrite E1. exact E2.
Qed.
Lemma split_loop_promises b1 b2 n1 n2 a l : forall n, promises (split_loop b1 b2 n1 n2 a l n) (fun r => r - n).
Proof.
  induction l as [|i l IH]; intros n; cbn [split_loop]; [apply promises_ret, eq64_eq; lia|].
  apply (promises_bind _ _ (fun r => r)); [apply addressSplit_promises|]. intros x. apply (promises_ext _ (fun r => r - u64 (n + x))); [|apply IH]. intros r. mod64.
Qed.
Lemma splitNodeFee_promises pk a b1 b2 n1 n : promises (splitNodeFee pk a b1 b2 n1 n) (fun _ => n).
Proof.
  unfold splitNodeFee. apply promises_skip; [apply pres_lift|]. intros h. apply promises_skip; [unfold getPeerCost, getPeerAttributes; pres_steps|]. intros c.
  apply promises_skip; [apply pres_gets|]. intros t. apply (promises_bind _ _ (fun r => r - 0)); [apply split_loop_promises|]. intros r.
  apply (promises_ext _ (fun _ => u64 (n - r))); [intros _; mod64 | apply credit_promises].
Qed.
Lemma credit_peers_promises m1 m2 inc sh sum w l : forall n, promises (credit_peers m1 m2 inc sh sum w l n) (fun r => r - n).
Proof.
  induction l as [|p l IH]; intros n; cbn [credit_peers]; [apply promises_ret, eq64_eq; lia|]. apply promises_skip; [apply pres_lift|]. intros amt.
  destruct (m1 !! _); [|apply promises_panic]. destruct (m2 !! _); [|apply promises_panic].
  apply (promises_bind _ _ (fun _ => u64 amt)); [apply splitNodeFee_promises|]. intros _.
  apply (promises_ext _ (fun r => r - u64 (n + u64 amt))); [|apply IH]. intros r. mod64.
Qed.
Lemma executeSplit2_promises v : promises (executeSplit2 v) (fun r => r).
Proof.
  unfold executeSplit2. do 3 (apply promises_skip; [auto using getConfig_keeps, getGlobalParam2_keeps, GetPeerPoolMap_keeps|]; intros ?).
  apply promises_skip; [apply GetPeerPoolMap_keeps|]. intros m2. apply promises_skip; [apply getOngBalance_keeps|]. intros bal.
  apply promises_skip; [unfold getSplitFee; pres_steps|]. intros sf. destruct (bal <? sf); [apply promises_panic|].
  apply promises_skip; [unfold getGasAddress; pres_steps|]. intros ga.
  apply promises_skip; [apply pres_if; [apply pres_ret | apply pres_bind; [apply transferOng_keeps | intros ?; apply pres_ret]]|]. intros di.
  destruct (_ <? _); [apply promises_panic|]. apply promises_skip; [apply getGlobalParam_keeps|]. intros gp.
  apply promises_skip; [apply pres_lift|]. intros cons. destruct (_ <? _); [apply promises_ret; reflexivity|].
  apply promises_skip; [apply pres_lift|]. intros avg. apply promises_skip; [apply weigh_keeps|]. intros [cs sumS].
  apply promises_skip; [apply pres_guard|]. intros _. apply (promises_bind _ _ (fun r => r - 0)); [apply credit_peers_promises|]. intros n.
  destruct (_ =? 0); [apply promises_ret, eq64_eq; lia|]. apply (promises_ext _ (fun r => r - n)); [intros r; apply eq64_eq; lia | apply credit_peers_promises].
Qed.

(** ** The methods *)

Lemma agree_keeps {A} (c : GM A) : preserves fees c -> triple fees_agree c (fun _ => fees_agree).
Proof. intros Hc s a s' Hs E. specialize (Hc _ _ _ E). unfold fees in Hc. injection Hc as E1 E2. unfold fees_agree, promised, fee_sum in *. rewrite E1, E2. exact Hs. Qed.

Create HintDb gov_def.
#[local] Hint Unfold gov_input check_operator ValidateOwner GetPeerPoolMap putPeerPoolMap deletePeerPoolMap GetGovernanceView putGovernanceView GetView
  getGlobalParam putGlobalParam getGlobalParam2 putGlobalParam2 getConfig putConfig getPreConfig putPreConfig getCandidateIndex putCandidateIndex
  getAuthorizeInfo putAuthorizeInfo getPenaltyStake putPenaltyStake getTotalStake putTotalStake putSplitCurve getPeerAttributes putPeerAttributes
  getPromisePos putPromisePos putGasAddress appCallTransfer appCallTransferOnt appCallTransferOng appCallTransferFrom appCallTransferFromOnt
  appCallTransferFromOng appCallInitContractAdmin appCallVerifyToken time_offset depositTotalStake withdrawTotalStake depositPenaltyStake
  withdrawPenaltyStake authorizations take_ont take_ong new_version owned_peer assign_index hex_key : gov_def.
Ltac keeps_fees := autounfold with gov_def; pres_steps.

Lemma update_loop_fees f l : preserves fees (update_loop f l : GM _).
Proof. induction l as [|i l IH]; cbn [update_loop]; keeps_fees. Qed.
Lemma quit_loop_fees p l : forall b, preserves fees (quit_loop p l b : GM _).
Proof. induction l as [|i l IH]; intros b; cbn [quit_loop]; keeps_fees. Qed.
Lemma black_loop_fees gp l : forall n, preserves fees (black_loop gp l n : GM _).
Proof. induction l as [|i l IH]; intros b; cbn [black_loop]; [apply pres_ret|]. destruct (black_info gp i). keeps_fees. Qed.
#[local] Hint Resolve update_loop_fees quit_loop_fees black_loop_fees : gov.
Lemma scan_peers_fees costs l : forall m peers, preserves fees (scan_peers costs l m peers : GM _).
Proof.
  induction l as [|p l IH]; intros m peers; cbn [scan_peers]; [apply pres_ret|]. unfold shift_cost. apply pres_bind; [keeps_fees|]. intros _.
  apply pres_bind; [unfold scan_status, normalQuit, blackQuit; keeps_fees | intros []; apply IH].
Qed.
Lemma elect_fees l : forall m, preserves fees (elect l m : GM _).
Proof. induction l as [|p l IH]; intros m; cbn [elect]; unfold consensusToConsensus, unConsensusToConsensus; keeps_fees. Qed.
Lemma stand_by_fees l : forall m, preserves fees (stand_by l m : GM _).
Proof. induction l as [|p l IH]; intros m; cbn [stand_by]; unfold consensusToUnConsensus, unConsensusToUnConsensus; keeps_fees. Qed.
#[local] Hint Resolve scan_peers_fees elect_fees stand_by_fees : gov.
Lemma next_pool_fees costs v : preserves fees (next_pool costs v : GM _).
Proof. unfold next_pool, update_config. keeps_fees. Qed.

(** The end of an epoch credits the addresses and adds the same to the sum. *)
Lemma executeCommitDpos_fees : triple fees_agree (executeCommitDpos : GM unit) (fun _ => fees_agree).
Proof.
  unfold executeCommitDpos. apply (triple_bind _ _ _ (fun _ => fees_agree)); [apply agree_keeps; keeps_fees|]. intros gv.
  apply (triple_bind _ _ _ (fun _ => fees_agree)); [apply agree_keeps, pres_asks|]. intros h.
  apply (triple_bind _ _ _ (fun _ => fees_agree)); [apply agree_keeps, pres_guard|]. intros _.
  apply (triple_bind _ _ _ (fun _ => fees_agree)); [|intros _; apply agree_keeps; keeps_fees]. apply triple_if; intros _.
  - apply agree_keeps. unfold executeCommitDpos1. apply pres_bind; [keeps_fees|]. intros ?. apply pres_bind; [apply executeSplit_keeps|]. intros _. apply next_pool_fees.
  - intros s u s' Hs E. unfold executeCommitDpos2 in E. apply st_bind_Ok in E as (g & s1 & E1 & E). apply (agree_keeps GetGovernanceView ltac:(keeps_fees) s g s1 Hs) in E1 as H1.
    apply st_bind_Ok in E as (n & s2 & E2 & E). apply executeSplit2_promises in E2 as [P2 F2]. apply st_bind_Ok in E as (v & s3 & E3 & E).
    pose proof (next_pool_fees _ _ _ _ _ E3) as F3. unfold fees in F3. injection F3 as F3 F3'. apply st_bind_Ok in E as (sf & s4 & E4 & E). injection E4 as <- <-. injection E as <- <-.
    unfold fees_agree, promised, fee_sum in *. cbn. rewrite F3', P2, H1, F3, F2. mod64.
Qed.

Lemma WithdrawFee_fees : triple fees_agree (WithdrawFee : GM _) (fun _ => fees_agree).
Proof.
  unfold WithdrawFee. apply (triple_bind _ _ _ (fun _ => fees_agree)); [apply agree_keeps; keeps_fees|]. intros _.
  apply (triple_bind _ _ _ (fun _ => fees_agree)); [apply agree_keeps; keeps_fees|]. intros p.
  apply (triple_bind _ _ _ (fun _ => fees_agree)); [apply agree_keeps; keeps_fees|]. intros _ s u s' Hs E.
  apply st_bind_Ok in E as (x & s1 & E1 & E). unfold getSplitFeeAddress in E1. apply st_bind_Ok in E1 as (t & s2 & E2 & E1). injection E2 as <- <-. injection E1 as <- <-.
  apply st_bind_Ok in E as (v & s2 & E2 & E). apply (transferOng_keeps fees) in E2. unfold fees in E2. injection E2 as F1 F2.
  apply st_bind_Ok in E as (v1 & s3 & E3 & E). injection E3 as <- <-. apply st_bind_Ok in E as (sf & s4 & E4 & E). injection E4 as <- <-.
  apply st_bind_Ok in E as (v2 & s5 & E5 & E). unfold st_guard, guard in E5. destruct (negb _); [|discriminate]. injection E5 as <- <-.
  apply st_bind_Ok in E as (v3 & s6 & E6 & E). injection E6 as <- <-. injection E as <- <-. unfold fees_agree, promised, fee_sum in *. cbn. rewrite F1, F2, msum_delete, Hs.
  destruct (t_splitFeeAddress (gov s) !! ap_Address p) as [y|]; cbn [from_option default id sf_Amount]; mod64.
Qed.

(** The loops of the methods. *)
Lemma authorize_loop_fees g1 g2 a ks : forall ps m n, preserves fees (authorize_loop g1 g2 a ks ps m n : GM _).
Proof. induction ks as [|k ks IH]; intros [|p ps] m n; cbn [authorize_loop]; [auto with gov..|]. unfold authorize_one. apply pres_bind; [keeps_fees | intros []; apply IH]. Qed.
Lemma unauthorize_loop_fees g2 a ks : forall ps m, preserves fees (unauthorize_loop g2 a ks ps m : GM _).
Proof. induction ks as [|k ks IH]; intros [|p ps] m; cbn [unauthorize_loop]; [auto with gov..|]. unfold unauthorize_one. apply pres_bind; [keeps_fees | intros ?; apply IH]. Qed.
Lemma withdraw_loop_fees h a ks : forall ps n, preserves fees (withdraw_loop h a ks ps n : GM _).
Proof. induction ks as [|k ks IH]; intros [|p ps] n; cbn [withdraw_loop]; [auto with gov..|]. unfold withdraw_one. apply pres_bind; [keeps_fees | intros ?; apply IH]. Qed.
Lemma black_list_fees l : forall m b, preserves fees (black_list l m b : GM _).
Proof. induction l as [|k l IH]; intros m b; cbn [black_list]; keeps_fees. Qed.
Lemma init_peers_fees l : forall n m, preserves fees (init_peers l n m : GM _).
Proof. induction l as [|k l IH]; intros n m; cbn [init_peers]; keeps_fees. Qed.
#[local] Hint Resolve authorize_loop_fees unauthorize_loop_fees withdraw_loop_fees black_list_fees init_peers_fees : gov.

Lemma agree_bind {A B} (c : GM A) (k : A -> GM B) : preserves fees c -> (forall a, triple fees_agree (k a) (fun _ => fees_agree)) ->
  triple fees_agree (st_bind c k) (fun _ => fees_agree).
Proof. intros Hc Hk. apply (triple_bind _ _ _ (fun _ => fees_agree)); [apply agree_keeps, Hc | exact Hk]. Qed.
Lemma agree_commit (b : bool) : triple fees_agree (do_ (if b then executeCommitDpos else st_ret ()); st_ret BYTE_TRUE : GM _) (fun _ => fees_agree).
Proof.
  apply (triple_bind _ _ _ (fun _ => fees_agree)); [|intros _; apply agree_keeps, pres_ret]. destruct b; [apply executeCommitDpos_fees | apply agree_keeps, pres_ret].
Qed.
Lemma BlackNode_fees : triple fees_agree (BlackNode : GM _) (fun _ => fees_agree).
Proof.
  unfold BlackNode. do 4 (apply agree_bind; [keeps_fees | intros ?]). apply agree_bind; [apply black_list_fees|]. intros [m c].
  apply agree_bind; [keeps_fees | intros _; apply agree_commit].
Qed.
Lemma CommitDpos_fees : triple fees_agree (CommitDpos : GM _) (fun _ => fees_agree).
Proof. unfold CommitDpos. do 7 (apply agree_bind; [keeps_fees | intros ?]). exact (agree_commit true). Qed.

(** C21: the promised fees add up.  Whatever registered method of the contract runs, on whatever input and in whatever
    environment, if it returns then the sum of the shares credited to addresses still equals, modulo [2^64], the total
    the contract keeps: the division at the end of an epoch credits the peers and those who authorised
    them exactly what it adds to the total, and a withdrawal of fees takes the same from both. *)
Theorem governance_fees_accounted (name : string) (method : GM (list byte)) (s s' : GS) (r : list byte) :
  (name, method) ∈ RegisterGovernanceContract -> fees_agree (gov s) -> method s = Ok (r, s') -> fees_agree (gov s').
Proof.
  intros Hin Hs E. revert s r s' Hs E. change (triple fees_agree method (fun _ => fees_agree)).
  assert (H : Forall (fun p => triple fees_agree (snd p) (fun _ => fees_agree)) RegisterGovernanceContract).
  { unfold RegisterGovernanceContract. repeat (apply Forall_cons; split; [cbn [snd]|]); [..|apply Forall_nil; exact I].
    all: try exact WithdrawFee_fees; try exact BlackNode_fees; try exact CommitDpos_fees.
    all: try (apply agree_keeps; unfold RegisterCandidate, RegisterCandidateTransferFrom, registerCandidate, UnRegisterCandidate, AuthorizeForPeer,
      AuthorizeForPeerTransferFrom, authorizeForPeer, UnAuthorizeForPeer, Withdraw, QuitNode, WithdrawOng, ChangeMaxAuthorization, SetPeerCost, AddInitPos,
      ReduceInitPos, InitConfig, ApproveCandidate, RejectCandidate, WhiteNode, UpdateConfig, UpdateGlobalParam, UpdateGlobalParam2, UpdateSplitCurve,
      TransferPenalty, SetPromisePos, SetGasAddress; keeps_fees; fail).
  }
  rewrite Forall_forall in H. exact (H _ Hin).
Qed.

(** ** The weight of a consensus peer *)

Lemma Xi_at i : 0 <= i <= 100 -> at_index Xi i = Ok (i * 100000).
Proof.
  intros Hi. assert (H : forallb (fun n => match Xi !! n with Some x => x =? Z.of_nat n * 100000 | None => false end) (seq 0 101) = true) by (vm_compute; reflexivity).
  rewrite forallb_forall in H. specialize (H (Z.to_nat i) ltac:(apply in_seq; lia)). unfold at_index. rewrite (proj2 (Z.ltb_ge i 0)) by lia.
  destruct (Xi !! Z.to_nat i) as [x|]; [|discriminate]. apply Z.eqb_eq in H. f_equal. lia.
Qed.

(** The position on the curve, capped at its end. *)
Definition curve_position (pos avg yita : Z) : Z :=
  Z.min (u64 (u64 (u64 (PRECISE * yita) * 2) * pos) / u64 (avg * 10)) 10000000.
(** The curve at [x] between two of its points. *)
Definition interpolate (curve : list Z) (x : Z) : Z :=
  let i := Z.min (x / 100000) 99 in
  let y0 := nth (Z.to_nat i) curve 0 in
  let y1 := nth (Z.to_nat (i + 1)) curve 0 in
  (y1 * (x - i * 100000) + y0 * ((i + 1) * 100000 - x)) / 100000.

Definition curve_ok (curve : list Z) : Prop := length curve = 101%nat /\ Forall is_u32 curve.

Lemma curve_at curve i : curve_ok curve -> 0 <= i <= 100 -> exists y, at_index curve i = Ok y /\ nth (Z.to_nat i) curve 0 = y /\ is_u32 y.
Proof.
  intros [Hl Hf] Hi. unfold at_index. rewrite (proj2 (Z.ltb_ge i 0)) by lia. destruct (lookup_lt_is_Some_2 curve (Z.to_nat i)) as [y Hy]; [lia|].
  exists y. rewrite Hy. split; [reflexivity|]. split; [apply nth_lookup_Some with (d := 0) in Hy; exact Hy | exact (Forall_lookup_1 _ _ _ _ Hf Hy)].
Qed.

(** Wrapping arithmetic computes the interpolation, which stays within the points of the curve. *)
Lemma curve_value_exact curve pos avg yita : curve_ok curve -> u64 (avg * 10) <> 0 ->
  (let* '(index, xi) := curve_index pos avg yita in curve_point curve index xi) = Ok (interpolate curve (curve_position pos avg yita)) /\
  0 <= interpolate curve (curve_position pos avg yita) < 2 ^ 32.
Proof.
  intros Hc Ha. unfold curve_index, curve_point, curve_position, go_div at 1. rewrite (proj2 (Z.eqb_neq _ _) Ha). cbn [res_bind].
  set (q := u64 (u64 (u64 (PRECISE * yita) * 2) * pos) / u64 (avg * 10)).
  assert (Hq : 0 <= q) by (apply Z.div_pos; [words | assert (0 <= u64 (avg * 10)) by words; lia]).
  change (zlen Xi - 1) with 100. change (zlen Xi - 2) with 99. change (PRECISE / 10) with 100000. rewrite (Xi_at 100) by lia. cbn [res_bind].
  assert (Hx : exists i x, 0 <= i <= 99 /\ i * 100000 <= x <= (i + 1) * 100000 /\ i = Z.min (x / 100000) 99 /\ x = Z.min q 10000000 /\
    (if 99 <? q / 100000 then (99, 100 * 100000) else (q / 100000, q)) = (i, x)).
  { destruct (Z.ltb_spec 99 (q / 100000)) as [H|H]; [exists 99, 10000000 | exists (q / 100000), q]; Z.div_mod_to_equations; repeat split; try lia. }
  destruct Hx as (i & x & Hi & Hix & Ei & Ex & ->). cbn [res_bind]. rewrite <- Ex.
  destruct (curve_at curve i Hc ltac:(lia)) as (y0 & E0 & N0 & B0), (curve_at curve (i + 1) Hc ltac:(lia)) as (y1 & E1 & N1 & B1).
  rewrite E0, E1, (Xi_at i), (Xi_at (i + 1)) by lia. cbn [res_bind]. unfold interpolate. rewrite <- Ei. cbv zeta. rewrite N0, N1.
  assert (Hd : u64 ((i + 1) * 100000 - i * 100000) = 100000) by (rewrite u64_small; [lia | unfold is_u64; lia]). rewrite Hd.
  unfold is_u32 in *. rewrite pow32 in *. set (d := x - i * 100000). assert (Hdd : 0 <= d <= 100000) by lia.
  assert (He : (i + 1) * 100000 - x = 100000 - d) by lia. rewrite He. assert (Hv : 0 <= y1 * d + y0 * (100000 - d) <= 100000 * 4294967295) by nia.
  split; [|split; [apply Z.div_pos; lia | apply Z.div_lt_upper_bound; lia]]. unfold go_div. change (100000 =? 0) with false. cbn iota. do 2 f_equal.
  rewrite <- (u64_small (y1 * d + y0 * (100000 - d))) by (unfold is_u64; lia). 
  match goal with |- u64 ?a = u64 ?b => change (a ≡64 b) end. rewrite !u64_eq64. apply eq64_eq. unfold d. ring.
Qed.

(** ** A division is covered by the income *)

Definition zsum {A} (f : A -> Z) (l : list A) : Z := foldr (fun x n => f x + n) 0 l.
Lemma zsum_nonneg {A} (f : A -> Z) l : Forall (fun x => 0 <= f x) l -> 0 <= zsum f l.
Proof. unfold zsum. induction 1; cbn [foldr]; lia. Qed.
Lemma zsum_le {A} (f : A -> Z) b l : Forall (fun x => f x <= b) l -> zsum f l <= b * zlen l.
Proof. unfold zlen, zsum. induction 1; cbn [foldr length]; lia. Qed.
Lemma zsum_app {A} (f : A -> Z) l l' : zsum f (l ++ l') = zsum f l + zsum f l'.
Proof. unfold zsum. induction l as [|x l IH]; cbn [foldr app]; lia. Qed.
Lemma zsum_cons {A} (f : A -> Z) x l : zsum f (x :: l) = f x + zsum f l.
Proof. reflexivity. Qed.
Lemma sum_u64_exact {A} (f : A -> Z) l : Forall (fun x => 0 <= f x) l -> zsum f l < 2 ^ 64 -> sum_u64 f l = zsum f l.
Proof.
  unfold sum_u64. intros Hf. enough (H : forall n, 0 <= n -> n + zsum f l < 2 ^ 64 -> foldl (fun sum x => u64 (sum + f x)) n l = n + zsum f l) by (intros; rewrite H; lia).
  induction Hf as [|x l Hx Hl IH]; intros n Hn Hs; [cbn; lia|]. cbn [foldl]. rewrite zsum_cons in Hs |- *. pose proof (zsum_nonneg f l Hl).
  rewrite u64_small by (unfold is_u64; lia). rewrite IH by lia. lia.
Qed.

(** A loop of credits adds at most the share of the income, in proportion to the weights. *)
Lemma credit_bound m1 m2 inc share sum w l : 0 <= inc * share / 100 -> 0 < sum -> Forall (fun p => 0 <= w p) l ->
  forall n (s s' : GS (T := T)) r, 0 <= n -> n * sum + inc * share / 100 * zsum w l < 2 ^ 64 * sum ->
  credit_peers m1 m2 inc share sum w l n s = Ok (r, s') -> n <= r /\ r * sum <= n * sum + inc * share / 100 * zsum w l.
Proof.
  intros Hb Hsum Hw. set (b := inc * share / 100) in *. induction Hw as [|p l Hp Hl IH]; intros n s s' r Hn Hs E; [cbn in E; injection E as <- _; change (zsum w []) with 0; lia|]. cbn [credit_peers] in E. rewrite zsum_cons in Hs |- *.
  fold b in E. apply st_bind_Ok in E as (amt & s1 & E1 & E). unfold go_div in E1. rewrite (proj2 (Z.eqb_neq sum 0)) in E1 by lia. injection E1 as <- <-.
  destruct (m1 !! _); [|discriminate]. destruct (m2 !! _); [|discriminate]. apply st_bind_Ok in E as (u & s2 & _ & E).
  pose proof (zsum_nonneg w l Hl). pose proof (Z.mul_div_le (b * w p) sum Hsum) as Hd. assert (Ha : 0 <= b * w p / sum) by (apply Z.div_pos; nia).
  assert (Hlt : n + b * w p / sum < 2 ^ 64) by nia. rewrite (u64_small (b * w p / sum)) in E by (unfold is_u64; lia). rewrite u64_small in E by (unfold is_u64; lia).
  apply IH in E; [lia | lia | nia].
Qed.

Lemma splitCurve_val pos avg yita (s s' : GS (T := T)) v curve : t_splitCurve (gov s) = Some curve -> curve_ok (Yi curve) ->
  splitCurve pos avg yita s = Ok (v, s') -> gov s' = gov s /\ 0 <= v < 2 ^ 32.
Proof.
  intros Hc Hok E. split; [exact (splitCurve_keeps id _ _ _ _ _ _ E)|]. unfold splitCurve, getSplitCurve in E. apply st_bind_Ok in E as (u & s1 & E1 & E).
  apply (pres_guard id) in E1. unfold id in E1. apply st_bind_Ok in E as ([index xi] & s2 & E2 & E).
  destruct (curve_index pos avg yita) as [[index' xi']|e|] eqn:Ei; cbn in E2; try discriminate. injection E2 as <- <- <-.
  apply st_bind_Ok in E as (c & s2 & E2 & E). apply st_bind_Ok in E2 as (o & s3 & E3 & E2). injection E3 as <- <-. rewrite E1, Hc in E2.
  injection E2 as <- <-. destruct (Z.eq_dec (u64 (avg * 10)) 0) as [Ha|Ha].
  - unfold curve_index, go_div in Ei. rewrite Ha in Ei. discriminate.
  - destruct (curve_value_exact (Yi curve) pos avg yita Hok Ha) as [Ev Hv]. rewrite Ei in Ev. cbn [res_bind] in Ev. rewrite Ev in E. injection E as <- _. exact Hv.
Qed.
Lemma weigh_val avg yita curve l : curve_ok (Yi curve) -> forall n (s s' : GS (T := T)) l' sumS, t_splitCurve (gov s) = Some curve ->
  0 <= n -> n + 2 ^ 32 * zlen l < 2 ^ 64 -> weigh avg yita l n s = Ok ((l', sumS), s') ->
  Forall (fun p => 0 <= cs_S p) l' /\ sumS = n + zsum cs_S l'.
Proof.
  intros Hok. induction l as [|p l IH]; intros n s s' l' sumS Hc Hn Hs E; cbn [weigh] in E; [injection E as <- <- _; split; [constructor | cbn; lia]|].
  apply st_bind_Ok in E as (v & s1 & E1 & E). destruct (splitCurve_val _ _ _ _ _ _ _ Hc Hok E1) as [G1 Hv]. apply st_bind_Ok in E as ([l1 sum1] & s2 & E2 & E).
  injection E as <- <- _. unfold zlen in *. cbn [length] in Hs. rewrite u64_small in E2 by (unfold is_u64; lia).
  apply IH in E2 as [F2 ->]; [|rewrite G1; exact Hc | lia | lia]. split; [constructor; [cbn; lia | exact F2]|]. rewrite zsum_cons. cbn [cs_S]. lia.
Qed.

Lemma split_peers_stakes m : Forall (fun p => 0 <= cs_Stake p) (split_peers m).
Proof.
  unfold split_peers. rewrite (sort_stable_perm stake_less). apply Forall_fmap, Forall_true. intros p. cbn. words.
Qed.

(** The second half of [executeSplit2]: the income of the nodes is divided. *)
Definition divide (c : Configuration) (globalParam2 : GlobalParam2) (peerPoolMap currentPeerPoolMap : PeerPoolMap) (nodeIncome : Z) : GM Z :=
  do globalParam <- getGlobalParam;
  let peersCandidate := split_peers peerPoolMap in
  do consensus <- st_lift (first_peers (cfg_K c) peersCandidate);
  let sum := sum_u64 cs_Stake consensus in
  if sum <? cfg_K c then st_ret 0
  else
    do avg <- st_lift (go_div sum (cfg_K c));
    do '(consensus, sumS) <- weigh avg (Yita globalParam) consensus 0;
    do_ st_guard (negb (sumS =? 0)) "executeSplit, sumS is 0";
    do splitSum <- credit_peers peerPoolMap currentPeerPoolMap nodeIncome (gp_A globalParam) sumS cs_S consensus 0;
    let length := if zlen peersCandidate <=? CandidateFeeSplitNum globalParam2 then zlen peersCandidate else CandidateFeeSplitNum globalParam2 in
    let candidates := drop (Z.to_nat (cfg_K c)) (take (Z.to_nat length) peersCandidate) in
    let sum := sum_u64 cs_Stake candidates in
    if sum =? 0 then st_ret splitSum
    else credit_peers peerPoolMap currentPeerPoolMap nodeIncome (gp_B globalParam) sum cs_Stake candidates splitSum.

Section Solvent.
Variables (c : Configuration) (gp : GlobalParam) (curve : SplitCurve) (m : PeerPoolMap).
Hypotheses (HKc : is_u32 (cfg_K c)) (HA : 0 <= gp_A gp) (HBp : 0 <= gp_B gp) (HAB : gp_A gp + gp_B gp = 100)
  (Hcurve : curve_ok (Yi curve)) (Hstakes : zsum cs_Stake (split_peers m) < 2 ^ 64).

Lemma candidates_sum k n : let l := drop k (take n (split_peers m)) in
  Forall (fun p => 0 <= cs_Stake p) l /\ sum_u64 cs_Stake l = zsum cs_Stake l.
Proof.
  cbv zeta. pose proof (split_peers_stakes m) as Hf. rewrite <- (take_drop n (split_peers m)) in Hf at 1. apply Forall_app in Hf as [Hf Hg].
  pose proof Hf as Hf'. rewrite <- (take_drop k (take n (split_peers m))) in Hf at 1. apply Forall_app in Hf as [H1 H2]. split; [exact H2|].
  apply sum_u64_exact; [exact H2|]. rewrite <- (take_drop n (split_peers m)), zsum_app, <- (take_drop k (take n (split_peers m))), zsum_app in Hstakes.
  pose proof (zsum_nonneg _ _ H1). pose proof (zsum_nonneg _ _ Hg). lia.
Qed.

Lemma divide_covered gp2 m2 inc (s s' : GS (T := T)) r : t_globalParam (gov s) = Some (Ok gp) -> t_splitCurve (gov s) = Some curve -> 0 <= inc < 2 ^ 64 ->
  divide c gp2 m m2 inc s = Ok (r, s') -> 0 <= r <= inc.
Proof.
  intros Hgp Hcu Hinc E. unfold divide in E. apply st_bind_Ok in E as (g & s1 & E1 & E). pose proof (getGlobalParam_keeps id _ _ _ E1) as G1. unfold id in G1.
  unfold getGlobalParam in E1. apply st_bind_Ok in E1 as (o & s2 & E2 & E1). injection E2 as <- <-. rewrite Hgp in E1.
  assert (Eg : g = gp) by (cbn in E1; injection E1 as <- _; reflexivity). subst g. clear E1.
  cbv zeta in E. apply st_bind_Ok in E as (cons & s3 & E3 & E). unfold first_peers in E3. destruct (zlen (split_peers m) <? cfg_K c) eqn:Hl; [discriminate|]. injection E3 as <- <-.
  destruct (sum_u64 cs_Stake _ <? cfg_K c); [injection E as <- _; lia|]. apply st_bind_Ok in E as (avg & s4 & E4 & E). apply (pres_lift id) in E4. unfold id in E4.
  apply st_bind_Ok in E as ([cs sumS] & s5 & E5 & E). unfold is_u32 in HKc. rewrite pow32 in HKc.
  destruct (weigh_val avg (Yita gp) curve (take (Z.to_nat (cfg_K c)) (split_peers m)) Hcurve 0 s4 s5 cs sumS) as [Fw ->]; [rewrite E4, G1; exact Hcu | lia | | exact E5 |].
  { unfold zlen. rewrite length_take. lia. }
  apply st_bind_Ok in E as (u & s6 & E6 & E). unfold st_guard, guard in E6. destruct (negb _) eqn:Hz; [|discriminate]. injection E6 as <- <-.
  apply negb_true_iff, Z.eqb_neq in Hz. pose proof (zsum_nonneg _ _ Fw) as Hw. apply st_bind_Ok in E as (n & s7 & E7 & E).
  assert (Hab : 0 <= inc * gp_A gp / 100 /\ 0 <= inc * gp_B gp / 100 /\ inc * gp_A gp / 100 + inc * gp_B gp / 100 <= inc).
  { assert (inc * gp_A gp + inc * gp_B gp = 100 * inc) by (rewrite <- Z.mul_add_distr_l, HAB; lia).
    assert (0 <= inc * gp_A gp) by nia. assert (0 <= inc * gp_B gp) by nia. Z.div_mod_to_equations. lia. }
  apply credit_bound in E7 as [L7 U7]; [|lia | lia | exact Fw | lia | nia].
  assert (Hn : 0 <= n <= inc * gp_A gp / 100) by nia.
  destruct (candidates_sum (Z.to_nat (cfg_K c)) (Z.to_nat (if zlen (split_peers m) <=? CandidateFeeSplitNum gp2 then zlen (split_peers m) else CandidateFeeSplitNum gp2))) as [Fc Ec].
  rewrite Ec in E. pose proof (zsum_nonneg _ _ Fc). destruct (_ =? 0) eqn:Hs0; [injection E as <- _; lia|]. apply Z.eqb_neq in Hs0.
  apply credit_bound in E as [L8 U8]; [nia | lia | lia | exact Fc | lia | nia].
Qed.

(** The part of the income for the gas address, in percent, and what is paid to it. *)
Definition dapp_fee (g : Gov) : Z := from_option DappFee 0 (t_globalParam2 g).
Definition gas_share (g : Gov) (income : Z) : Z :=
  if bool_decide (from_option ap_Address ADDRESS_EMPTY (t_gasAddress g) = ADDRESS_EMPTY) then 0 else income * dapp_fee g / 100.

Lemma getGlobalParam2_val (s s' : GS (T := T)) g2 : getGlobalParam2 s = Ok (g2, s') -> s' = s /\ DappFee g2 = dapp_fee (gov s).
Proof.
  intros E. unfold getGlobalParam2 in E. apply st_bind_Ok in E as (g & s1 & E1 & E). unfold getGlobalParam in E1. apply st_bind_Ok in E1 as (o & s2 & E2 & E1).
  injection E2 as <- <-. destruct (t_globalParam (gov s)) as [[gg|e|]|]; try discriminate. injection E1 as <- <-. apply st_bind_Ok in E as (v & s2 & E2 & E).
  injection E2 as <- <-. injection E as <- <-. split; [reflexivity|]. unfold dapp_fee. destruct (t_globalParam2 (gov s)); reflexivity.
Qed.

Lemma balance_range a (s s' : GS (T := T)) n : getOngBalance a s = Ok (n, s') -> is_u64 n.
Proof. unfold getOngBalance. intros E. apply st_bind_Ok in E as (v & s1 & _ & E). injection E as <- _. words. Qed.

(** C22: a division of the fees is covered by the balance.  With the shares of the two groups adding up to 100 percent, a
    curve of [uint32] points, a DApp share of at most 100 percent and stakes that add up to less than
    [2^64], what [executeSplit2] promises to the peers, with the amounts promised before and the transfer to the
    gas address, does not exceed the ONG the contract owned when it started: no rounding and no wrap-around creates fees. *)
Theorem fee_division_solvent view (s s' : GS (T := T)) splitSum :
  t_config (gov s) = Some c -> t_globalParam (gov s) = Some (Ok gp) -> t_splitCurve (gov s) = Some curve ->
  t_peerPool (gov s) !! u32 (view - 1) = Some m -> 0 <= dapp_fee (gov s) <= 100 -> is_u64 (fee_sum (gov s)) ->
  executeSplit2 view s = Ok (splitSum, s') ->
  exists balance s1, getOngBalance GovernanceContractAddress s = Ok (balance, s1) /\ 0 <= splitSum /\
    fee_sum (gov s) + splitSum + gas_share (gov s) (balance - fee_sum (gov s)) <= balance.
Proof.
  intros Hc Hgp Hcu Hm Hd Hf E. unfold executeSplit2 in E. apply st_bind_Ok in E as (cc & s1 & E1 & E). unfold getConfig in E1. apply st_bind_Ok in E1 as (o & s2 & E2 & E1).
  injection E2 as <- <-. rewrite Hc in E1. injection E1 as <- <-. apply st_bind_Ok in E as (g2 & s1 & E1 & E). apply getGlobalParam2_val in E1 as [-> Hg2].
  apply st_bind_Ok in E as (mm & s1 & E1 & E). unfold GetPeerPoolMap in E1. apply st_bind_Ok in E1 as (t & s2 & E2 & E1). injection E2 as <- <-. rewrite Hm in E1. injection E1 as <- <-.
  apply st_bind_Ok in E as (m2 & s1 & E1 & E). pose proof (GetPeerPoolMap_keeps id _ _ _ _ E1) as G1. unfold GetPeerPoolMap in E1. apply st_bind_Ok in E1 as (t & s2 & E2 & E1). injection E2 as <- <-.
  destruct (t_peerPool (gov s) !! view) as [m2'|]; [|discriminate]. injection E1 as <- <-. clear G1.
  apply st_bind_Ok in E as (bal & s1 & E1 & E). exists bal, s1. split; [exact E1|]. pose proof (balance_range _ _ _ _ E1) as Hbal.
  pose proof (getOngBalance_keeps id _ _ _ _ E1) as G1. unfold id in G1. rewrite <- G1 in *. clear E1 G1 s.
  apply st_bind_Ok in E as (sf & s2 & E2 & E). injection E2 as <- <-. fold (fee_sum (gov s1)) in E. destruct (Z.ltb_spec bal (fee_sum (gov s1))) as [|Hge]; [discriminate|].
  unfold is_u64 in Hbal, Hf. rewrite (u64_small (bal - fee_sum (gov s1))) in E by (unfold is_u64; lia). set (inc := bal - fee_sum (gov s1)) in *. rewrite Hg2 in E.
  apply st_bind_Ok in E as (ga & s2 & E2 & E). apply st_bind_Ok in E2 as (o & s3 & E3 & E2). injection E3 as <- <-. injection E2 as <- <-.
  apply st_bind_Ok in E as (di & s2 & E2 & E).
  assert (Hdi : gov s2 = gov s1 /\ di = gas_share (gov s1) inc).
  { unfold gas_share. assert (Ega : ap_Address (default (mkAddressParam ADDRESS_EMPTY) (t_gasAddress (gov s1))) = from_option ap_Address ADDRESS_EMPTY (t_gasAddress (gov s1))) by (destruct (t_gasAddress (gov s1)); reflexivity).
    rewrite Ega in E2. destruct (bool_decide _); [injection E2 as <- <-; auto|]. apply st_bind_Ok in E2 as (u & s3 & E3 & E2). injection E2 as <- <-.
    split; [exact (transferOng_keeps id _ _ _ _ _ _ E3) | reflexivity]. }
  destruct Hdi as [G2 ->]. assert (Hinc : 0 <= inc < 2 ^ 64) by (unfold inc; lia). assert (Hsh : 0 <= gas_share (gov s1) inc <= inc).
  { clear E E2. unfold gas_share. case_match; [lia|]. split; [apply Z.div_pos; nia | apply Z.div_le_upper_bound; nia]. }
  destruct (inc <? u64 _); [discriminate|]. change (divide c g2 m m2' (inc - gas_share (gov s1) inc) s2 = Ok (splitSum, s')) in E.
  rewrite <- G2 in Hgp, Hcu. assert (Hni : 0 <= inc - gas_share (gov s1) inc < 2 ^ 64) by lia.
  pose proof (divide_covered _ _ _ _ _ _ Hgp Hcu Hni E) as Hr. split; [lia|]. unfold inc in Hr |- *. lia.
Qed.
End Solvent.
End Fees.

Import GovExample.

(** An epoch that divides 1000000. *)
Lemma governance_fees_accounted_witness : exists r s', CommitDpos (at_height7 500000 []) = Ok (r, s') /\ fees_agree (gov s').
Proof.
  destruct (returns_Ok (CommitDpos (at_height7 500000 []))) as (r & s' & E); [vm_compute; reflexivity|]. exists r, s'. split; [exact E|].
  apply (governance_fees_accounted "commitDpos" CommitDpos (at_height7 500000 []) s' r); [|reflexivity | exact E].
  unfold RegisterGovernanceContract. do 19 right. left.
Defined.

Lemma fee_division_solvent_witness : exists n s' balance, executeSplit2 7 (at_height7 500000 []) = Ok (n, s') /\ 0 <= n /\ n <= balance.
Proof.
  destruct (returns_Ok (executeSplit2 7 (at_height7 500000 []))) as (n & s' & E); [vm_compute; reflexivity|]. exists n, s'.
  destruct (fee_division_solvent (mkConfig 7 1 1 112 10000 10000 10 10000) (mkGlobal 500000000000 10000 49 20 50 50 5 5) (mkCurve INIT_CURVE) pool) with
    (view := 7) (s := at_height7 500000 []) (s' := s') (splitSum := n) as (b & s1 & _ & H1 & H2); try exact E; try reflexivity; try (cbn; lia).
  - unfold is_u32. cbn. lia.
  - split; [reflexivity|]. unfold INIT_CURVE. repeat constructor; unfold is_u32; lia.
  - unfold is_u64. cbn. lia.
  - exists b. split; [exact E|]. split; [exact H1|].
    assert (Hg : forall x, gas_share (gov (at_height7 500000 [])) x = 0) by reflexivity. rewrite Hg in H2. change (fee_sum _) with 0 in H2. lia.
Defined.
