(* ===== verification/GovCodec.v ===== *)
(** * Encodings of the governance tables

    What the contract stores it reads back: for values of the width of their fields, deserialising the stored bytes gives the value.  The
    pool of the peers is a map; its encoding lists the peers in the order of their keys, so that every node writes
    the same bytes whatever the order in which its map is visited. *)

From S2P Require Import Prelude Codec BigInt MemDb NativeData LedgerTypes Decode LedgerCodec NativeService OntOng GovData GovState GovLogic GovElect GovExample.

(** ** Fields *)

Definition short_text (b : list byte) : Prop := zlen b < 2 ^ 58.
Create HintDb wire discriminated.

Lemma appends_string b : short_text b -> Sink.appends (Sink.WriteString b) (Source.getVarUintSize (zlen b) + zlen b) (enc_varbytes b).
Proof. apply Sink.appends_WriteVarBytes. Qed.
Lemma appends_varbytes b : short_text b -> Sink.appends (Sink.WriteVarBytes b) (Source.getVarUintSize (zlen b) + zlen b) (enc_varbytes b).
Proof. apply Sink.appends_WriteVarBytes. Qed.
Lemma appends_address a : addr_ok a -> Sink.appends (ser_Address a) () a.
Proof. intros Ha. apply Sink.appends_WriteBytes. unfold addr_ok, ADDR_LEN in Ha. lia. Qed.
Lemma parses_string b : short_text b -> parses DecodeString b (enc_varbytes b).
Proof. intros Hb. apply parses_DecodeVarBytes. unfold short_text in Hb. lia. Qed.
Lemma parses_varbytes b : short_text b -> parses DecodeVarBytes b (enc_varbytes b).
Proof. apply parses_string. Qed.
Lemma parses_checked {A} (r : ST ZeroCopySource (A * bool)) e a bs :
  parses r (a, false) bs -> parses (do '(v, eof) <- r; do_ st_guard (negb eof) e; st_ret v) a bs.
Proof. intros Hr. eapply parses_bind'; [exact Hr|]. cbn beta iota. apply parses_guard; [reflexivity | apply parses_ret]. Qed.
Lemma parses_address a : addr_ok a -> parses des_Address a a.
Proof. intros Ha. apply parses_checked, parses_NextArray; [exact Ha | unfold ADDR_LEN; words]. Qed.
Lemma parses_next_uint64 v : is_u64 v -> parses next_uint64 v (z2le 8 v).
Proof. intros Hv. apply parses_checked, (parses_NextUintN 8); [lia | words]. Qed.
Lemma parses_next_uint32 v : is_u32 v -> parses next_uint32 v (z2le 4 v).
Proof. intros Hv. apply parses_checked, (parses_NextUintN 4); [lia | words]. Qed.
Lemma parses_DecodeUint64 v : is_u64 v -> parses DecodeUint64 v (z2le 8 v).
Proof. apply parses_next_uint64. Qed.
Lemma parses_DecodeUint32 v : is_u32 v -> parses DecodeUint32 v (z2le 4 v).
Proof. apply parses_next_uint32. Qed.
Lemma appends_status v : Sink.appends (Gser.Status v) () [zb v].
Proof. apply Sink.appends_WriteByte. Qed.
Lemma parses_status v : 0 <= v < 256 -> parses Gdes.Status v [zb v].
Proof.
  intros Hv. apply parses_checked. eapply parses_bind'; [apply parses_NextByte|]. cbn beta iota. rewrite bz_zb_small by exact Hv. apply parses_ret.
Qed.
#[export] Hint Resolve appends_string appends_varbytes appends_address appends_status Sink.appends_WriteUint32 Sink.appends_WriteUint64 appends_EncodeVarUint : wire.
#[export] Hint Resolve parses_string parses_varbytes parses_address parses_next_uint64 parses_next_uint32 parses_DecodeUint64 parses_DecodeUint32 parses_status : wire.

(** [wire_steps] follows the fields of a record, in either direction. *)
Ltac wire_steps :=
  repeat match goal with
  | |- Sink.appends (st_ret _) _ _ => apply Sink.appends_ret
  | |- parses (st_ret _) _ _ => apply parses_ret
  | |- Sink.appends (st_bind _ _) _ (_ ++ _) => eapply Sink.appends_bind; [solve [eauto with wire]|]
  | |- Sink.appends (st_bind _ _) _ _ => eapply Sink.appends_bind'; [solve [eauto with wire]|]
  | |- parses (st_bind _ _) _ (_ ++ _) => eapply parses_bind; [solve [eauto with wire]|]
  | |- parses (st_bind _ _) _ _ => eapply parses_bind'; [solve [eauto with wire]|]
  end.

(** ** Records *)

Record peer_ok (p : PeerPoolItem) : Prop := mkPeerOk {
  po_index : is_u32 (pp_Index p); po_key : short_text (pp_PeerPubkey p); po_addr : addr_ok (pp_Address p); po_status : 0 <= pp_Status p < 256;
  po_init : is_u64 (pp_InitPos p); po_total : is_u64 (pp_TotalPos p) }.
#[export] Instance peer_Wire : Wire PeerPoolItem.
Proof.
  refine {| wire p := z2le 4 (pp_Index p) ++ enc_varbytes (pp_PeerPubkey p) ++ pp_Address p ++ [zb (pp_Status p)] ++ z2le 8 (pp_InitPos p) ++ z2le 8 (pp_TotalPos p);
            wire_ok := peer_ok; Serialization := Gser.PeerPoolItem; Deserialization := Gdes.PeerPoolItem |}.
  - intros p []. unfold Gser.PeerPoolItem. wire_steps.
  - intros [] []. unfold Gdes.PeerPoolItem. wire_steps.
Defined.

Record auth_ok (i : AuthorizeInfo) : Prop := mkAuthOk {
  ao_key : short_text (ai_PeerPubkey i); ao_addr : addr_ok (ai_Address i); ao_1 : is_u64 (ConsensusPos i); ao_2 : is_u64 (CandidatePos i); ao_3 : is_u64 (NewPos i);
  ao_4 : is_u64 (WithdrawConsensusPos i); ao_5 : is_u64 (WithdrawCandidatePos i); ao_6 : is_u64 (WithdrawUnfreezePos i) }.
#[export] Instance auth_Wire : Wire AuthorizeInfo.
Proof.
  refine {| wire i := enc_varbytes (ai_PeerPubkey i) ++ ai_Address i ++ z2le 8 (ConsensusPos i) ++ z2le 8 (CandidatePos i) ++ z2le 8 (NewPos i) ++
              z2le 8 (WithdrawConsensusPos i) ++ z2le 8 (WithdrawCandidatePos i) ++ z2le 8 (WithdrawUnfreezePos i);
            wire_ok := auth_ok; Serialization := Gser.AuthorizeInfo; Deserialization := Gdes.AuthorizeInfo |}.
  - intros i []. unfold Gser.AuthorizeInfo. wire_steps.
  - intros [] []. unfold Gdes.AuthorizeInfo. wire_steps.
Defined.

#[export] Instance total_Wire : Wire TotalStake.
Proof.
  refine {| wire t := ts_Address t ++ z2le 8 (Stake t) ++ z2le 4 (ts_TimeOffset t);
            wire_ok t := addr_ok (ts_Address t) /\ is_u64 (Stake t) /\ is_u32 (ts_TimeOffset t); Serialization := Gser.TotalStake; Deserialization := Gdes.TotalStake |}.
  - intros t (H1 & H2 & H3). unfold Gser.TotalStake. wire_steps.
  - intros [] (H1 & H2 & H3). unfold Gdes.TotalStake. wire_steps.
Defined.

#[export] Instance penalty_Wire : Wire PenaltyStake.
Proof.
  refine {| wire p := enc_varbytes (ps_PeerPubkey p) ++ z2le 8 (ps_InitPos p) ++ z2le 8 (ps_AuthorizePos p) ++ z2le 4 (ps_TimeOffset p) ++ z2le 8 (ps_Amount p);
            wire_ok p := short_text (ps_PeerPubkey p) /\ is_u64 (ps_InitPos p) /\ is_u64 (ps_AuthorizePos p) /\ is_u32 (ps_TimeOffset p) /\ is_u64 (ps_Amount p);
            Serialization := Gser.PenaltyStake; Deserialization := Gdes.PenaltyStake |}.
  - intros p (H1 & H2 & H3 & H4 & H5). unfold Gser.PenaltyStake. wire_steps.
  - intros [] (H1 & H2 & H3 & H4 & H5). unfold Gdes.PenaltyStake. wire_steps.
Defined.

#[export] Instance attr_Wire : Wire PeerAttributes.
Proof.
  refine {| wire p := enc_varbytes (pa_PeerPubkey p) ++ z2le 8 (MaxAuthorize p) ++ z2le 8 (T2PeerCost p) ++ z2le 8 (T1PeerCost p) ++ z2le 8 (TPeerCost p) ++
              enc_varbytes (pa_Field1 p) ++ enc_varbytes (pa_Field2 p) ++ enc_varbytes (pa_Field3 p) ++ enc_varbytes (pa_Field4 p);
            wire_ok p := (short_text (pa_PeerPubkey p) /\ is_u64 (MaxAuthorize p) /\ is_u64 (T2PeerCost p) /\ is_u64 (T1PeerCost p) /\ is_u64 (TPeerCost p)) /\
              (short_text (pa_Field1 p) /\ short_text (pa_Field2 p) /\ short_text (pa_Field3 p) /\ short_text (pa_Field4 p));
            Serialization := Gser.PeerAttributes; Deserialization := Gdes.PeerAttributes |}.
  - intros p ((H1 & H2 & H3 & H4 & H5) & H6 & H7 & H8 & H9). unfold Gser.PeerAttributes. wire_steps.
  - intros [] ((H1 & H2 & H3 & H4 & H5) & H6 & H7 & H8 & H9). unfold Gdes.PeerAttributes. wire_steps.
Defined.

#[export] Instance fee_Wire : Wire SplitFeeAddress.
Proof.
  refine {| wire f := sf_Address f ++ z2le 8 (sf_Amount f); wire_ok f := addr_ok (sf_Address f) /\ is_u64 (sf_Amount f);
            Serialization := Gser.SplitFeeAddress; Deserialization := Gdes.SplitFeeAddress |}.
  - intros f (H1 & H2). unfold Gser.SplitFeeAddress. wire_steps.
  - intros [] (H1 & H2). unfold Gdes.SplitFeeAddress. wire_steps.
Defined.

#[export] Instance black_Wire : Wire BlackListItem.
Proof.
  refine {| wire b := enc_varbytes (bl_PeerPubkey b) ++ bl_Address b ++ z2le 8 (bl_InitPos b);
            wire_ok b := short_text (bl_PeerPubkey b) /\ addr_ok (bl_Address b) /\ is_u64 (bl_InitPos b);
            Serialization := Gser.BlackListItem; Deserialization := Gdes.BlackListItem |}.
  - intros b (H1 & H2 & H3). unfold Gser.BlackListItem. wire_steps.
  - intros [] (H1 & H2 & H3). unfold Gdes.BlackListItem. wire_steps.
Defined.

(** *** Parameters written with [EncodeVarUint] *)

Lemma appends_uints l : Forall (fun v => 0 <= v < 2 ^ 63) l -> Sink.appends (Gser.uints l) () (flat_map enc_uint l).
Proof.
  induction 1 as [|v l Hv _ IH]; cbn [Gser.uints flat_map]; [apply Sink.appends_ret|]. eapply Sink.appends_bind; [apply appends_EncodeVarUint, Hv | exact IH].
Qed.
Lemma parses_uint v : 0 <= v < 2 ^ 63 -> parses DecodeVarUint v (enc_uint v).
Proof. intros Hv. apply parses_DecodeVarUint. lia. Qed.
Lemma parses_uint32_var e v : is_u32 v -> parses (Gdes.uint32_var e) v (enc_uint v).
Proof.
  intros Hv. eapply parses_bind'; [apply parses_uint; words|]. apply parses_guard; [apply negb_true_iff, Z.ltb_ge; words|]. rewrite u32_small by exact Hv. apply parses_ret.
Qed.
#[export] Hint Resolve appends_uints parses_uint parses_uint32_var : wire.

Definition config_fields (c : Configuration) : list Z :=
  [cfg_N c; cfg_C c; cfg_K c; cfg_L c; BlockMsgDelay c; HashMsgDelay c; PeerHandshakeTimeout c; MaxBlockChangeView c].
Lemma u32_uint v : is_u32 v -> 0 <= v < 2 ^ 63.
Proof. words. Qed.
#[export] Hint Resolve u32_uint : wire.
#[export] Instance config_Wire : Wire Configuration.
Proof.
  refine {| wire c := flat_map enc_uint (config_fields c); wire_ok c := Forall is_u32 (config_fields c);
            Serialization := Gser.Configuration; Deserialization := Gdes.Configuration |}.
  - intros c Hc. apply appends_uints. apply (Forall_impl _ _ _ Hc), u32_uint.
  - intros [n c k l b h p m] Hc. unfold config_fields in *. cbn [cfg_N cfg_C cfg_K cfg_L BlockMsgDelay HashMsgDelay PeerHandshakeTimeout MaxBlockChangeView] in *.
    repeat (apply Forall_cons in Hc as [? Hc]). cbn [flat_map]. rewrite app_nil_r. unfold Gdes.Configuration. wire_steps.
    repeat (apply parses_guard; [apply negb_true_iff, Z.ltb_ge; words|]). rewrite !u32_small by assumption. apply parses_ret.
Defined.

(** ** The pool *)

Definition key_gt (x y : PeerPoolItem) : bool := str_gt (pp_PeerPubkey x) (pp_PeerPubkey y).
(** The peers as they are written. *)
Definition pool_list (m : PeerPoolMap) : list PeerPoolItem := sort_stable key_gt (map_to_list m).*2.
Definition keyed (m : PeerPoolMap) : Prop := forall pk p, m !! pk = Some p -> pp_PeerPubkey p = pk.

Lemma pool_keys m : keyed m -> map pp_PeerPubkey (map_to_list m).*2 = (map_to_list m).*1.
Proof.
  intros Hm. assert (H : forall k p, (k, p) ∈ map_to_list m -> pp_PeerPubkey p = k) by (intros k p Hp; apply elem_of_map_to_list in Hp; exact (Hm _ _ Hp)).
  revert H. generalize (map_to_list m) as l. induction l as [|[k p] l IH]; intros H; [reflexivity|]. cbn. rewrite (H k p) by left.
  f_equal. apply IH. intros k' p' Hp. apply H. right. exact Hp.
Qed.
Lemma pool_ordered m : keyed m -> NoDup (map_to_list m).*2 /\ ordered key_gt (map_to_list m).*2.
Proof.
  intros Hm. assert (Hn : NoDup (map pp_PeerPubkey (map_to_list m).*2)) by (rewrite (pool_keys m Hm); apply NoDup_fst_map_to_list).
  split; [exact (NoDup_fmap_1 pp_PeerPubkey _ Hn)|]. intros x y Hx Hy. unfold key_gt.
  destruct (str_gt_total (pp_PeerPubkey x) (pp_PeerPubkey y)) as [E|H]; [left; exact (nodup_key pp_PeerPubkey _ x y Hn Hx Hy E) | right; exact H].
Qed.
(** Every visiting order is sorted to the same list. *)
Lemma pool_list_any (R : RangeOrder) m : keyed m -> sort_stable key_gt (range_of m) = pool_list m.
Proof.
  intros Hm. destruct (pool_ordered m Hm) as [Hn Ho]. unfold pool_list. symmetry.
  apply (sort_stable_canonical key_gt (fun x => str_gt_irrefl _) (fun x y z => str_gt_trans _ _ _)); [exact Hn | exact Ho | symmetry; apply range_of_perm].
Qed.

Lemma rebuild l : forall m : PeerPoolMap, NoDup (map pp_PeerPubkey l) ->
  (forall v, v ∈ l -> foldl (fun (m : PeerPoolMap) v => <[pp_PeerPubkey v := v]> m) m l !! pp_PeerPubkey v = Some v) /\
  (forall k, k ∉ map pp_PeerPubkey l -> foldl (fun (m : PeerPoolMap) v => <[pp_PeerPubkey v := v]> m) m l !! k = m !! k).
Proof.
  induction l as [|v l IH]; intros m Hn; [split; [set_solver | reflexivity]|]. cbn [foldl map] in *. apply NoDup_cons in Hn as [Hv Hn].
  destruct (IH (<[pp_PeerPubkey v := v]> m) Hn) as [H1 H2]. split.
  - intros w Hw. apply elem_of_cons in Hw as [->|Hw]; [|exact (H1 w Hw)]. rewrite (H2 _ Hv), pool_insert, decide_True by reflexivity. reflexivity.
  - intros k Hk. apply not_elem_of_cons in Hk as [N1 N2]. rewrite (H2 k N2), pool_insert, decide_False by exact N1. reflexivity.
Qed.
Lemma rebuild_pool m : keyed m -> foldl (fun (m : PeerPoolMap) v => <[pp_PeerPubkey v := v]> m) ∅ (pool_list m) = m.
Proof.
  intros Hm. assert (Hp : pool_list m ≡ₚ (map_to_list m).*2) by apply sort_stable_perm.
  assert (Hn : NoDup (map pp_PeerPubkey (pool_list m))).
  { change (NoDup (pp_PeerPubkey <$> pool_list m)). rewrite Hp. change (NoDup (map pp_PeerPubkey (map_to_list m).*2)). rewrite (pool_keys m Hm). apply NoDup_fst_map_to_list. }
  assert (Hin : forall p, p ∈ pool_list m <-> m !! pp_PeerPubkey p = Some p).
  { intros p. rewrite Hp, list_elem_of_fmap. split.
    - intros ([k q] & -> & Hq). apply elem_of_map_to_list in Hq. cbn. rewrite (Hm _ _ Hq). exact Hq.
    - intros H. exists (pp_PeerPubkey p, p). split; [reflexivity | apply elem_of_map_to_list, H]. }
  destruct (rebuild (pool_list m) ∅ Hn) as [H1 H2]. apply map_eq. intros k. destruct (m !! k) as [p|] eqn:Hk.
  - transitivity (Some p); [|symmetry; exact Hk]. destruct (Hm _ _ Hk). apply H1, Hin, Hk.
  - transitivity (None : option PeerPoolItem); [|symmetry; exact Hk]. etransitivity; [apply H2 | apply lookup_empty].
    intros H. apply list_elem_of_fmap in H as (p & -> & Hp'). apply Hin in Hp'. congruence.
Qed.

Record pool_ok (m : PeerPoolMap) : Prop := mkPoolOk {
  pk_keyed : keyed m; pk_peers : forall pk p, m !! pk = Some p -> peer_ok p; pk_size : Z.of_nat (size m) < 2 ^ 32 }.
Definition pool_wire (m : PeerPoolMap) : list byte := z2le 4 (Z.of_nat (size m)) ++ flat_map wire (pool_list m).

Lemma appends_items l : Forall peer_ok l -> Sink.appends (Gser.items l) () (flat_map wire l).
Proof. induction 1 as [|p l Hp _ IH]; cbn [Gser.items flat_map]; [apply Sink.appends_ret|]. eapply Sink.appends_bind; [exact (ser_appends p Hp) | exact IH]. Qed.
Lemma pool_list_ok m : pool_ok m -> Forall peer_ok (pool_list m) /\ zlen (pool_list m) = Z.of_nat (size m).
Proof.
  intros [H1 H2 H3]. assert (Hp : pool_list m ≡ₚ (map_to_list m).*2) by apply sort_stable_perm. split.
  - rewrite Hp. apply Forall_fmap, Forall_forall. intros [k p] Hkp. apply elem_of_map_to_list in Hkp. exact (H2 _ _ Hkp).
  - unfold zlen. rewrite Hp, length_fmap. f_equal. apply length_map_to_list.
Qed.
Lemma peer_wire_pos (p : PeerPoolItem) : peer_ok p -> 0 < zlen (wire p).
Proof. intros _. cbn [wire peer_Wire]. rewrite zlen_app, zlen_z2le. pose proof (zlen_nonneg (enc_varbytes (pp_PeerPubkey p) ++ pp_Address p ++ [zb (pp_Status p)] ++ z2le 8 (pp_InitPos p) ++ z2le 8 (pp_TotalPos p))). lia. Qed.

Lemma appends_pool (R : RangeOrder) m : pool_ok m -> Sink.appends (Gser.PeerPoolMap m) () (pool_wire m).
Proof.
  intros Hm. unfold Gser.PeerPoolMap, pool_wire. destruct (pool_list_ok m Hm) as [Hf Hl]. eapply Sink.appends_bind.
  - rewrite u32_small by (destruct Hm; unfold is_u32; lia). apply Sink.appends_WriteUint32.
  - change (sort_stable _ (range_of m)) with (sort_stable key_gt (range_of m)). rewrite (pool_list_any R m (pk_keyed m Hm)). apply appends_items, Hf.
Qed.
Lemma parses_pool m : pool_ok m -> parses Gdes.PeerPoolMap m (pool_wire m).
Proof.
  intros Hm. destruct (pool_list_ok m Hm) as [Hf Hl]. unfold Gdes.PeerPoolMap, pool_wire. eapply parses_bind; [apply parses_DecodeUint32; destruct Hm; unfold is_u32; lia|].
  rewrite <- Hl. eapply parses_bind'; [apply (read_list_in (r := Gdes.PeerPoolItem) (enc := wire) (ok := peer_ok) peer_wire_pos (fun p (H : peer_ok p) => @des_parses _ peer_Wire p H)), Hf|].
  rewrite (rebuild_pool m (pk_keyed m Hm)). apply parses_ret.
Qed.

Lemma written {A} (w : ST ZeroCopySink A) a bs : Sink.appends w a bs -> zlen bs + 9 <= 2 ^ 58 ->
  exists s, w (Sink.NewZeroCopySink None) = Ok (a, s) /\ Sink.Bytes s = bs.
Proof.
  intros Hw Hl. destruct (Hw (Sink.NewZeroCopySink None) Sink.wf_new_sink) as (s & E & _ & B); [simpl; lia|]. exists s. split; [exact E|].
  unfold Sink.Bytes. rewrite B. reflexivity.
Qed.

(** The pool of the peers has one encoding.  For peers under their own keys, of the width of their fields, any two
    orders of visiting the map write the same bytes (the value the nodes of the chain agree on by hash), and reading them
    gives the map back. *)
Theorem pool_encoding_canonical (R1 R2 : RangeOrder) (m : PeerPoolMap) : pool_ok m -> zlen (pool_wire m) + 9 <= 2 ^ 58 ->
  exists bs, sink_bytes_of (@Gser.PeerPoolMap R1 m) = Ok bs /\ sink_bytes_of (@Gser.PeerPoolMap R2 m) = Ok bs /\ decode Gdes.PeerPoolMap bs = Ok m.
Proof.
  intros Hm Hl. exists (pool_wire m). unfold sink_bytes_of, decode.
  destruct (written _ _ _ (appends_pool R1 m Hm) Hl) as (s1 & -> & E1), (written _ _ _ (appends_pool R2 m Hm) Hl) as (s2 & -> & E2). cbn [res_bind]. rewrite E1, E2.
  split; [reflexivity|]. split; [reflexivity|]. destruct (parses_all _ _ _ (parses_pool m Hm) ltac:(lia)) as (src & -> & _). reflexivity.
Qed.

Import GovExample.
(** The other way round. *)
Definition range_reversed : RangeOrder.
Proof. refine {| range_of m := reverse (map_to_list m).*2 |}. intros m. apply reverse_Permutation. Defined.
Definition second_key : PubKey := repeat x31 66.
Definition two_peers : PeerPoolMap := <[second_key := mkPeer 2 second_key user CandidateStatus 500 0]> pool.

Lemma pool_encoding_canonical_witness : exists bs, sink_bytes_of (@Gser.PeerPoolMap range_sorted two_peers) = Ok bs /\
  sink_bytes_of (@Gser.PeerPoolMap range_reversed two_peers) = Ok bs /\ decode Gdes.PeerPoolMap bs = Ok two_peers.
Proof.
  assert (Hin : forall pk p, two_peers !! pk = Some p -> pp_PeerPubkey p = pk /\ peer_ok p).
  { intros pk p Hp. unfold two_peers in Hp. rewrite pool_insert in Hp. destruct (decide (pk = second_key)) as [->|_]; [injection Hp as <- | apply in_pool in Hp as [-> ->]];
      (split; [reflexivity | constructor; vm_compute; first [reflexivity | split; [discriminate | reflexivity]]]). }
  apply (pool_encoding_canonical range_sorted range_reversed two_peers); [|vm_compute; discriminate].
  constructor; [intros pk p Hp; apply (Hin pk p Hp) | intros pk p Hp; apply (Hin pk p Hp) | vm_compute; reflexivity].
Defined.
