(* ===== verification/CrossChain.v ===== *)
(** * The cross-chain contracts

    [smartcontract/service/native/cross_chain/]: [common] (headers and messages of other chains), [header_sync] (which headers are
    trusted), [cross_chain_manager] (messages out and in) and [lock_proxy] (tokens locked here and released from there).
    The event log of these contracts is left out; the hash of a header is not cached. *)

From S2P Require Import Prelude Codec BigInt VmValue Merkle MemDb NativeData LedgerTypes Program Validation NativeService OntOng LinkedList GovData GovState CrossPath.

Definition ParamContractAddress : Address := repeat x00 19 ++ [x04].
Definition HeaderSyncContractAddress : Address := repeat x00 19 ++ [x08].
Definition CrossChainContractAddress : Address := repeat x00 19 ++ [x09].
Definition LockProxyContractAddress : Address := repeat x00 19 ++ [x0a].

(** ** Readers *)

(** [data, _, irr, eof := source.NextVarBytes(); if eof || irr] *)
Definition checked_var_bytes (e : gerror) : ST ZeroCopySource (list byte) :=
  do '(data, _, irr, eof) <- Source.NextVarBytes; if (eof || irr) : bool then st_err e else st_ret data.
Definition checked_var_uint (e : gerror) : ST ZeroCopySource Z :=
  do '(n, _, irr, eof) <- Source.NextVarUint; if (eof || irr) : bool then st_err e else st_ret n.
Definition checked {A} (r : ST ZeroCopySource (A * bool)) (e : gerror) : ST ZeroCopySource A :=
  do '(a, eof) <- r; if eof : bool then st_err e else st_ret a.

(** ** Headers of other chains ([common/header.go]) *)

Definition CURR_HEADER_VERSION : Z := 0.

Section Headers.
Context {K : Keypair} {HH : Hashes}.

Record XHeader := mkXHeader {
  x_Version : Z; x_ChainID : Z; x_PrevBlockHash : Uint256; x_TransactionsRoot : Uint256; x_CrossStateRoot : Uint256; x_BlockRoot : Uint256;
  x_Timestamp : Z; x_Height : Z; x_ConsensusData : Z; x_ConsensusPayload : list byte; x_NextBookkeeper : Address;
  x_Bookkeepers : list PublicKey; x_SigData : list (list byte) }.

Definition x_serializationUnsigned (bd : XHeader) : ST ZeroCopySink unit :=
  if CURR_HEADER_VERSION <? x_Version bd then st_panic
  else
    do_ Sink.WriteUint32 (x_Version bd);
    do_ Sink.WriteUint64 (x_ChainID bd);
    do_ Sink.WriteBytes (x_PrevBlockHash bd);
    do_ Sink.WriteBytes (x_TransactionsRoot bd);
    do_ Sink.WriteBytes (x_CrossStateRoot bd);
    do_ Sink.WriteBytes (x_BlockRoot bd);
    do_ Sink.WriteUint32 (x_Timestamp bd);
    do_ Sink.WriteUint32 (x_Height bd);
    do_ Sink.WriteUint64 (x_ConsensusData bd);
    do_ Sink.WriteVarBytes (x_ConsensusPayload bd);
    Sink.WriteBytes (x_NextBookkeeper bd).

Definition x_Serialization (bd : XHeader) : ST ZeroCopySink unit :=
  do_ x_serializationUnsigned bd;
  do_ Sink.WriteVarUint (zlen (x_Bookkeepers bd));
  do_ write_all (fun v => write_var_bytes (SerializePublicKey v)) (x_Bookkeepers bd);
  do_ Sink.WriteVarUint (zlen (x_SigData bd));
  write_all write_var_bytes (x_SigData bd).

Definition x_Hash (bd : XHeader) : res Uint256 := let* b := written (x_serializationUnsigned bd) in Ok (sha256 (sha256 b)).

Definition x_deserializationUnsigned : ST ZeroCopySource XHeader :=
  do version <- checked Source.NextUint32 "[Header] read version error";
  if CURR_HEADER_VERSION <? version then st_err "[Header] header version over max version"
  else
    do chainID <- checked Source.NextUint64 "[Header] read chainID error";
    do prevBlockHash <- checked Source.NextHash "[Header] read prevBlockHash error";
    do transactionsRoot <- checked Source.NextHash "[Header] read transactionsRoot error";
    do crossStateRoot <- checked Source.NextHash "[Header] read crossStatesRoot error";
    do blockRoot <- checked Source.NextHash "[Header] read blockRoot error";
    do timestamp <- checked Source.NextUint32 "[Header] read timestamp error";
    do height <- checked Source.NextUint32 "[Header] read height error";
    do consensusData <- checked Source.NextUint64 "[Header] read consensusData error";
    do consensusPayload <- checked_var_bytes "[Header] read consensusPayload eof error";
    do nextBookkeeper <- checked Source.NextAddress "[Header] read nextBookkeeper error";
    st_ret (mkXHeader version chainID prevBlockHash transactionsRoot crossStateRoot blockRoot timestamp height consensusData consensusPayload nextBookkeeper [] []).

Definition x_pubkey : ST ZeroCopySource PublicKey :=
  do buf <- checked_var_bytes "[Header] deserialize bookkeepers public key error";
  match DeserializePublicKey buf with Some k => st_ret k | None => st_err "deserializing public key failed" end.

Definition x_Deserialization : ST ZeroCopySource XHeader :=
  do bd <- x_deserializationUnsigned;
  do n <- checked_var_uint "[Header] deserialize bookkeepers length error";
  do keys <- read_list x_pubkey (s64 n);
  do m <- checked_var_uint "[Header] deserialize sigData length error";
  do sigs <- read_list (checked_var_bytes "[Header] deserialize sigData error") (s64 m);
  st_ret (mkXHeader (x_Version bd) (x_ChainID bd) (x_PrevBlockHash bd) (x_TransactionsRoot bd) (x_CrossStateRoot bd) (x_BlockRoot bd)
    (x_Timestamp bd) (x_Height bd) (x_ConsensusData bd) (x_ConsensusPayload bd) (x_NextBookkeeper bd) keys sigs).

Definition XHeaderFromRawBytes (raw : list byte) : res XHeader := decode x_Deserialization raw.

End Headers.

(** ** Messages ([common/states.go]) *)

Record MakeTxParam := mkMakeTx {
  m_TxHash : list byte; m_CrossChainID : list byte; m_FromContractAddress : list byte; m_ToChainID : Z; m_ToContractAddress : list byte;
  m_Method : list byte; m_Args : list byte }.
Record ToMerkleValue := mkMerkleValue { v_TxHash : list byte; v_FromChainID : Z; v_MakeTxParam : MakeTxParam }.

Definition MakeTxParam_Serialization (this : MakeTxParam) : ST ZeroCopySink unit :=
  do_ Sink.WriteVarBytes (m_TxHash this);
  do_ Sink.WriteVarBytes (m_CrossChainID this);
  do_ Sink.WriteVarBytes (m_FromContractAddress this);
  do_ Sink.WriteUint64 (m_ToChainID this);
  do_ Sink.WriteVarBytes (m_ToContractAddress this);
  do_ Sink.WriteVarBytes (m_Method this);
  do_ Sink.WriteVarBytes (m_Args this); st_ret ().

Definition MakeTxParam_Deserialization : ST ZeroCopySource MakeTxParam :=
  do txHash <- checked_var_bytes "MakeTxParam deserialize txHash error";
  do crossChainID <- checked_var_bytes "MakeTxParam deserialize crossChainID error";
  do fromContractAddress <- checked_var_bytes "MakeTxParam deserialize fromContractAddress error";
  do toChainID <- checked Source.NextUint64 "MakeTxParam deserialize toChainID error";
  do toContractAddress <- checked_var_bytes "MakeTxParam deserialize toContractAddress error";
  do method <- checked_var_bytes "MakeTxParam deserialize method error";
  do args <- checked_var_bytes "MakeTxParam deserialize args error";
  st_ret (mkMakeTx txHash crossChainID fromContractAddress toChainID toContractAddress method args).

Definition ToMerkleValue_Deserialization : ST ZeroCopySource ToMerkleValue :=
  do txHash <- checked_var_bytes "MerkleValue deserialize txHash error";
  do fromChainID <- checked Source.NextUint64 "MerkleValue deserialize fromChainID error";
  do makeTxParam <- MakeTxParam_Deserialization;
  st_ret (mkMerkleValue txHash fromChainID makeTxParam).

(** ** Parameters of the methods ([cross_chain_manager/param.go], [header_sync/param.go], [lock_proxy/states.go]) *)

Record CreateCrossChainTxParam := mkCreate { cp_ToChainID : Z; cp_ToContractAddress : list byte; cp_Method : list byte; cp_Args : list byte }.
Record ProcessCrossChainTxParam := mkProcess { pr_Address : Address; pr_FromChainID : Z; pr_Height : Z; pr_Proof : list byte; pr_Header : list byte }.
Record SyncBlockHeaderParam := mkSync { sb_Address : Address; sb_Headers : list (list byte) }.
Record LockArgs := mkArgs { ar_TargetAssetHash : list byte; ar_ToAddress : list byte; ar_Value : Z }.
Record LockParam := mkLock { lp_SourceAssetHash : Address; lp_FromAddress : Address; lp_ToChainID : Z; lp_ToAddress : list byte; lp_Value : Z }.
Record UnlockParam := mkUnlock { up_ArgsBs : list byte; up_FromContractHashBs : list byte; up_FromChainId : Z }.
Record BindProxyParam := mkBindProxy { bp_TargetChainId : Z; bp_TargetHash : list byte }.
Record BindAssetParam := mkBindAsset { ba_SourceAssetHash : Address; ba_TargetChainId : Z; ba_TargetAssetHash : list byte; ba_Limit : Z; ba_IsTargetChainAsset : bool }.

Definition CreateCrossChainTxParam_Serialization (this : CreateCrossChainTxParam) : ST ZeroCopySink unit :=
  do_ EncodeVarUint (cp_ToChainID this); do_ EncodeVarBytes (cp_ToContractAddress this); do_ EncodeString (cp_Method this); do_ EncodeVarBytes (cp_Args this); st_ret ().
Definition CreateCrossChainTxParam_Deserialization : ST ZeroCopySource CreateCrossChainTxParam :=
  do toChainID <- DecodeVarUint; do toContractAddress <- DecodeVarBytes; do method <- DecodeString; do args <- DecodeVarBytes;
  st_ret (mkCreate toChainID toContractAddress method args).

Definition ProcessCrossChainTxParam_Serialization (this : ProcessCrossChainTxParam) : ST ZeroCopySink unit :=
  do_ EncodeAddress (pr_Address this); do_ EncodeVarUint (pr_FromChainID this); do_ EncodeVarUint (pr_Height this); do_ EncodeString (pr_Proof this);
  do_ EncodeVarBytes (pr_Header this); st_ret ().
Definition ProcessCrossChainTxParam_Deserialization : ST ZeroCopySource ProcessCrossChainTxParam :=
  do address <- DecodeAddress; do fromChainID <- DecodeVarUint; do height <- DecodeVarUint; do proof <- DecodeString; do header <- DecodeVarBytes;
  st_ret (mkProcess address fromChainID (u32 height) proof header).

(** [for i := 0; uint64(i) < n; i++] *)
Definition SyncBlockHeaderParam_Deserialization : ST ZeroCopySource SyncBlockHeaderParam :=
  do address <- DecodeAddress; do n <- DecodeVarUint; do headers <- read_list DecodeVarBytes n; st_ret (mkSync address headers).

Definition Args_Serialization (this : LockArgs) : ST ZeroCopySink unit :=
  do_ Sink.WriteVarBytes (ar_TargetAssetHash this); do_ Sink.WriteVarBytes (ar_ToAddress this); do_ Sink.WriteVarUint (ar_Value this); st_ret ().
Definition Args_Deserialization : ST ZeroCopySource LockArgs :=
  do assetHash <- checked_var_bytes "Args.Deserialization NextVarBytes AssetHash error";
  do toAddress <- checked_var_bytes "Args.Deserialization NextVarBytes ToAddress error";
  do value <- checked_var_uint "Args.Deserialization NextVarUint Value error";
  st_ret (mkArgs assetHash toAddress value).

Definition LockParam_Deserialization : ST ZeroCopySource LockParam :=
  do sourceAssetHash <- DecodeAddress; do fromAddress <- DecodeAddress; do toChainID <- DecodeVarUint; do toAddress <- DecodeVarBytes; do value <- DecodeVarUint;
  st_ret (mkLock sourceAssetHash fromAddress toChainID toAddress value).
Definition UnlockParam_Deserialization : ST ZeroCopySource UnlockParam :=
  do argsBs <- DecodeVarBytes; do fromContractHashBs <- DecodeVarBytes; do fromChainId <- DecodeVarUint; st_ret (mkUnlock argsBs fromContractHashBs fromChainId).
Definition BindProxyParam_Deserialization : ST ZeroCopySource BindProxyParam :=
  do targetChainId <- DecodeVarUint; do targetHash <- DecodeVarBytes; st_ret (mkBindProxy targetChainId targetHash).
Definition BindAssetParam_Deserialization : ST ZeroCopySource BindAssetParam :=
  do sourceAssetHash <- DecodeAddress; do targetChainId <- DecodeVarUint; do targetAssetHash <- DecodeVarBytes; do limitNeoBytes <- DecodeVarBytes; do isTargetChainAsset <- DecodeBool;
  st_ret (mkBindAsset sourceAssetHash targetChainId targetAssetHash (BigIntFromNeoBytes limitNeoBytes) isTargetChainAsset).

Definition SyncBlockHeaderParam_Serialization (this : SyncBlockHeaderParam) : ST ZeroCopySink unit :=
  do_ EncodeAddress (sb_Address this); do_ EncodeVarUint (zlen (sb_Headers this)); write_all (fun v => do_ EncodeVarBytes v; st_ret ()) (sb_Headers this).
Definition SyncGenesisHeaderParam_Serialization (genesisHeader : list byte) : ST ZeroCopySink unit := do_ EncodeVarBytes genesisHeader; st_ret ().
Definition LockParam_Serialization (this : LockParam) : ST ZeroCopySink unit :=
  do_ EncodeAddress (lp_SourceAssetHash this); do_ EncodeAddress (lp_FromAddress this); do_ EncodeVarUint (lp_ToChainID this);
  do_ EncodeVarBytes (lp_ToAddress this); do_ EncodeVarUint (lp_Value this); st_ret ().
Definition UnlockParam_Serialization (this : UnlockParam) : ST ZeroCopySink unit :=
  do_ EncodeVarBytes (up_ArgsBs this); do_ EncodeVarBytes (up_FromContractHashBs this); do_ EncodeVarUint (up_FromChainId this); st_ret ().
Definition BindProxyParam_Serialization (this : BindProxyParam) : ST ZeroCopySink unit :=
  do_ EncodeVarUint (bp_TargetChainId this); do_ EncodeVarBytes (bp_TargetHash this); st_ret ().
Definition BindAssetParam_Serialization (this : BindAssetParam) : ST ZeroCopySink unit :=
  do_ EncodeAddress (ba_SourceAssetHash this); do_ EncodeVarUint (ba_TargetChainId this); do_ EncodeVarBytes (ba_TargetAssetHash this);
  do_ EncodeVarBytes (BigIntToNeoBytes (ba_Limit this)); do_ Sink.WriteBool (ba_IsTargetChainAsset this); st_ret ().

(** ** Stored values of [header_sync/states.go] *)

Record HPeer := mkHPeer { hp_Index : Z; hp_PeerPubkey : list byte }.
Record ConsensusPeers := mkPeers { cs_ChainID : Z; cs_Height : Z; PeerMap : gmap (list byte) HPeer }.

Definition HPeer_Serialization (this : HPeer) : ST ZeroCopySink unit := do_ EncodeVarUint (hp_Index this); do_ EncodeString (hp_PeerPubkey this); st_ret ().
Definition HPeer_Deserialization : ST ZeroCopySource HPeer :=
  do index <- DecodeVarUint;
  do_ st_guard (index <=? 2 ^ 32 - 1) "deserialize index error: index more than max uint32";
  do peerPubkey <- DecodeString;
  st_ret (mkHPeer index peerPubkey).

(** The list is sorted before it is written, the largest height first. *)
Definition sort_heights (l : list Z) : list Z := sort_stable (fun a b => b <? a) l.
Definition KeyHeights_Serialization (heightList : list Z) : ST ZeroCopySink unit :=
  let l := sort_heights heightList in
  do_ EncodeVarUint (zlen l);
  write_all (fun v => do_ EncodeVarUint v; st_ret ()) l.
Definition key_height : ST ZeroCopySource Z :=
  do height <- DecodeVarUint; do_ st_guard (height <=? 2 ^ 32 - 1) "deserialize height error: height more than max uint32"; st_ret height.
Definition KeyHeights_Deserialization : ST ZeroCopySource (list Z) := do n <- DecodeVarUint; read_list key_height n.

(** The peers are written in falling order of their keys, whatever the order of the map. *)
Definition ConsensusPeers_Serialization (this : ConsensusPeers) : ST ZeroCopySink unit :=
  do_ EncodeVarUint (cs_ChainID this);
  do_ EncodeVarUint (cs_Height this);
  do_ EncodeVarUint (Z.of_nat (size (PeerMap this)));
  write_all HPeer_Serialization (sort_stable (fun a b => str_gt (hp_PeerPubkey a) (hp_PeerPubkey b)) (map_to_list (PeerMap this)).*2).
Definition ConsensusPeers_Deserialization : ST ZeroCopySource ConsensusPeers :=
  do chainID <- DecodeVarUint;
  do height <- DecodeVarUint;
  do_ st_guard (height <=? 2 ^ 32 - 1) "deserialize height error: height more than max uint32";
  do n <- DecodeVarUint;
  do peers <- read_list HPeer_Deserialization n;
  st_ret (mkPeers chainID height (foldl (fun m p => <[hp_PeerPubkey p := p]> m) ∅ peers)).

(** ** The service

    The service of [NativeService] with what the cross-chain contracts use besides: their handlers in the service map, the hashes of the messages that
    the current call ([CrossHashes]) and the calls it has finished ([sc_CrossHashes]) put out, and the hash of the transaction. *)

Inductive CrossHandler :=
  | H_CreateCrossChainTx | H_ProcessCrossChainTx | H_SyncGenesisHeader | H_SyncBlockHeader
  | H_Lock | H_Unlock | H_BindProxyHash | H_BindAssetHash | H_WithdrawONG | H_GetProxyHash | H_GetAssetHash | H_GetCrossedAmount | H_GetCrossedLimit.
#[export] Instance CrossHandler_eq_dec : EqDecision CrossHandler.
Proof. solve_decision. Defined.

(** What the contracts ask of code outside the model: the peers in the JSON of a VBFT block ([json.Unmarshal] of [VbftBlockInfo]: no
    new configuration, or its list of indices and keys) and the bookkeepers of the genesis block. *)
Class CrossEnv {K : Keypair} := {
  NewChainConfig_Peers : list byte -> res (option (list (Z * list byte)));
  GenesisBookkeepers : list PublicKey
}.

Section Contracts.
Context {D : Type} `{HD : KVCache D} `{HB58 : Base58} {K : Keypair} {HH : Hashes} {SL : SigLib} {CE : CrossEnv}.
Local Abbreviation NM := (@NM D).

Record CrossService := mkCross {
  native : NativeService (D := D);
  methods : gmap string CrossHandler;
  CrossHashes : list Uint256;
  sc_CrossHashes : list Uint256;
  x_TxHash : Uint256
}.
Definition CM := ST CrossService.

Definition set_native (n : NativeService) (s : CrossService) : CrossService := mkCross n (methods s) (CrossHashes s) (sc_CrossHashes s) (x_TxHash s).
Definition set_methods (m : gmap string CrossHandler) (s : CrossService) : CrossService := mkCross (native s) m (CrossHashes s) (sc_CrossHashes s) (x_TxHash s).
Definition set_CrossHashes (h : list Uint256) (s : CrossService) : CrossService := mkCross (native s) (methods s) h (sc_CrossHashes s) (x_TxHash s).
Definition set_sc_CrossHashes (h : list Uint256) (s : CrossService) : CrossService := mkCross (native s) (methods s) (CrossHashes s) h (x_TxHash s).

(** An operation of the service alone. *)
Definition on_native {A} (m : NM A) : CM A := fun s =>
  match m (native s) with Ok (a, n) => Ok (a, set_native n s) | Err e => Err e | Panic => Panic end.

Definition x_input {A} (p : ST ZeroCopySource A) : CM A := on_native (input p).
Definition this_contract : CM Address := on_native current_contract.

(** [utils.ValidateOwner] *)
Definition x_ValidateOwner (a : Address) : CM unit := do ok <- on_native (check_witness a); st_guard ok "validateOwner, authentication failed!".

(** [GetStorageVarBytes]: [serialization.ReadVarBytes] of the stored item, which accepts lengths in any form; nothing stored is read as empty. *)
Definition read_var_bytes (b : list byte) : res (list byte) :=
  let* '((n, _, _, eof), src) := Source.NextVarUint (NewZeroCopySource b) in
  if eof : bool then Err ErrEof
  else if zlen b - src_off src <? n then Err ErrEof else Ok (take (Z.to_nat n) (drop (Z.to_nat (src_off src)) b)).
Definition GetStorageVarBytes (key : list byte) : CM (list byte) :=
  do item <- on_native (GetStorageItem key);
  match item with None => st_ret [] | Some i => st_lift (read_var_bytes (item_Value i)) end.
(** [native.CacheDB.Put(key, utils.GenVarBytesStorageItem(value).ToArray())] *)
Definition put_var_bytes (key value : list byte) : CM unit := on_native (PutBytes key (enc_varbytes value)).

(** [GetStorageRole(native, GenerateOperatorKey(utils.ParamContractAddress))] *)
Definition get_operator : CM Address :=
  do item <- on_native (GetStorageItem (ParamContractAddress ++ bytes_of "operator"));
  match item with None => st_ret ADDRESS_EMPTY | Some i => st_lift (decode DecodeAddress (item_Value i)) end.

(** A raw item: [CacheDB.Get] and [GetValueFromRawStorageItem]. *)
Definition get_raw (key : list byte) : CM (option (list byte)) :=
  do store <- on_native (db_Get key);
  match store with None => st_ret None | Some raw => do v <- st_lift (GetValueFromRawStorageItem raw); st_ret (Some v) end.
Definition put_raw (key value : list byte) : CM unit := on_native (PutBytes key value).

(** ** [header_sync] *)

Definition header_key (chainID : Z) (hash : list byte) : list byte := HeaderSyncContractAddress ++ bytes_of "blockHeader" ++ z2le 8 chainID ++ hash.
Definition index_key (chainID height : Z) : list byte := HeaderSyncContractAddress ++ bytes_of "headerIndex" ++ z2le 8 chainID ++ z2le 4 height.
Definition current_key (chainID : Z) : list byte := HeaderSyncContractAddress ++ bytes_of "currentHeight" ++ z2le 8 chainID.
Definition peers_key (chainID height : Z) : list byte := HeaderSyncContractAddress ++ bytes_of "consensusPeer" ++ z2le 8 chainID ++ z2le 4 height.
Definition heights_key (chainID : Z) : list byte := HeaderSyncContractAddress ++ bytes_of "keyHeights" ++ z2le 8 chainID.

Definition PutBlockHeader (blockHeader : XHeader) (header : list byte) : CM unit :=
  do blockHash <- st_lift (x_Hash blockHeader);
  do_ put_raw (header_key (x_ChainID blockHeader) blockHash) header;
  do_ put_raw (index_key (x_ChainID blockHeader) (x_Height blockHeader)) blockHash;
  put_raw (current_key (x_ChainID blockHeader)) (z2le 4 (x_Height blockHeader)).

Definition GetHeaderByHeight (chainID height : Z) : CM (option XHeader) :=
  do blockHash <- get_raw (index_key chainID height);
  match blockHash with
  | None => st_ret None
  | Some blockHashBytes =>
      do header <- get_raw (header_key chainID blockHashBytes);
      match header with None => st_ret None | Some headerBytes => do h <- st_lift (decode x_Deserialization headerBytes); st_ret (Some h) end
  end.

Definition GetHeaderByHash (chainID : Z) (hash : Uint256) : CM XHeader :=
  do header <- get_raw (header_key chainID hash);
  match header with None => st_err "GetHeaderByHash, can not find any records" | Some headerBytes => st_lift (decode x_Deserialization headerBytes) end.

Definition GetKeyHeights (chainID : Z) : CM (list Z) :=
  do value <- get_raw (heights_key chainID);
  match value with None => st_ret [] | Some b => st_lift (decode KeyHeights_Deserialization b) end.
Definition putKeyHeights (chainID : Z) (keyHeights : list Z) : CM unit :=
  do b <- st_lift (written (KeyHeights_Serialization keyHeights)); put_raw (heights_key chainID) b.

Definition getConsensusPeersByHeight (chainID height : Z) : CM ConsensusPeers :=
  do store <- get_raw (peers_key chainID height);
  match store with None => st_err "getConsensusPeerByHeight, can not find any record" | Some b => st_lift (decode ConsensusPeers_Deserialization b) end.
Definition putConsensusPeers (consensusPeers : ConsensusPeers) : CM unit :=
  do b <- st_lift (written (ConsensusPeers_Serialization consensusPeers));
  do_ put_raw (peers_key (cs_ChainID consensusPeers) (cs_Height consensusPeers)) b;
  do keyHeights <- GetKeyHeights (cs_ChainID consensusPeers);
  putKeyHeights (cs_ChainID consensusPeers) (keyHeights ++ [cs_Height consensusPeers]).

Definition UpdateConsensusPeer (header : XHeader) : CM unit :=
  do config <- st_lift (NewChainConfig_Peers (x_ConsensusPayload header));
  match config with
  | None => st_ret ()
  | Some peers => putConsensusPeers (mkPeers (x_ChainID header) (x_Height header) (foldl (fun m p => <[snd p := mkHPeer (fst p) (snd p)]> m) ∅ peers))
  end.

(** [if (height - v) > 0] of two [uint32]: true whenever they differ. *)
Fixpoint find_height (height : Z) (heightList : list Z) : option Z :=
  match heightList with
  | [] => None
  | v :: heightList => if 0 <? u32 (height - v) then Some v else find_height height heightList
  end.
Definition findKeyHeight (height chainID : Z) : CM Z :=
  do keyHeights <- GetKeyHeights chainID;
  match find_height height keyHeights with Some v => st_ret v | None => st_err "findKeyHeight, can not find key height with height" end.

(** [hex.EncodeToString] and [vconfig.PubkeyID] *)
Definition hex_digit (n : Z) : byte := zb (if n <? 10 then 48 + n else 87 + n).
Definition hex_EncodeToString (b : list byte) : list byte := flat_map (fun c => [hex_digit (bz c / 16); hex_digit (bz c mod 16)]) b.
Definition PubkeyID (pub : PublicKey) : list byte := hex_EncodeToString (SerializePublicKey pub).

Definition x_VerifyHeader (header : XHeader) : CM unit :=
  do keyHeight <- findKeyHeight (x_Height header) (x_ChainID header);
  do consensusPeer <- getConsensusPeersByHeight (x_ChainID header) keyHeight;
  if zlen (x_Bookkeepers header) * 3 <? Z.of_nat (size (PeerMap consensusPeer)) * 2 then st_err "verifyHeader, header Bookkeepers num must more than 2/3 consensus node num"
  else if negb (forallb (fun bookkeeper => bool_decide (is_Some (PeerMap consensusPeer !! PubkeyID bookkeeper))) (x_Bookkeepers header)) then st_err "verifyHeader, invalid pubkey error"
  else
    do hash <- st_lift (x_Hash header);
    st_lift (VerifyMultiSignature hash (x_Bookkeepers header) (zlen (x_Bookkeepers header)) (x_SigData header)).

Definition ProcessHeader (header : XHeader) (h : list byte) : CM unit :=
  do_ x_VerifyHeader header; do_ PutBlockHeader header h; UpdateConsensusPeer header.

Definition SyncGenesisHeader : CM (list byte) :=
  do genesisHeader <- x_input DecodeVarBytes;
  do operatorAddress <- get_operator;
  do_ x_ValidateOwner operatorAddress;
  do header <- st_lift (XHeaderFromRawBytes genesisHeader);
  do_ PutBlockHeader header genesisHeader;
  do_ UpdateConsensusPeer header;
  st_ret BYTE_TRUE.

Fixpoint sync_headers (headers : list (list byte)) : CM unit :=
  match headers with
  | [] => st_ret ()
  | v :: headers =>
      do header <- st_lift (XHeaderFromRawBytes v);
      do h <- GetHeaderByHeight (x_ChainID header) (x_Height header);
      do_ (match h with None => ProcessHeader header v | Some _ => st_ret () end);
      sync_headers headers
  end.
Definition SyncBlockHeader : CM (list byte) :=
  do params <- x_input SyncBlockHeaderParam_Deserialization; do_ sync_headers (sb_Headers params); st_ret BYTE_TRUE.

(** ** Calls of NeoVM contracts ([common/common.go])

    [GetContract] is the deployed code at an address, [CheckUseGas] the gas meter of the transaction and [Invoke] the NeoVM service made by
    [NewExecuteEngine]: it runs the code with an array of the given elements and, on top, the name of the method on its stack. *)

Section NeoVM.
Context `{Interops}.
Variable GetContract : Address -> CM (option (list byte)).
Variable CheckUseGas : Z -> CM bool.
Variable Invoke : list byte -> list VmValue -> VmValue -> CM VmValue.

Definition NATIVE_INVOKE_GAS : Z := 1000.

Definition CrossChainNeoVMCall (address : Address) (method args fromContractAddress : list byte) (fromChainID : Z) : CM VmValue :=
  do dep <- GetContract address;
  match dep with
  | None => st_err "[NeoVMCall] native invoke neovm contract is nil"
  | Some code =>
      do m <- st_lift (VmValueFromBytes method);
      do a <- st_lift (VmValueFromBytes args);
      do array <- st_lift (data_append [] a);
      do fca <- st_lift (VmValueFromBytes fromContractAddress);
      do array <- st_lift (data_append array fca);
      do fci <- st_lift (VmValueFromBigInt (Some fromChainID));
      do array <- st_lift (data_append array fci);
      do ok <- CheckUseGas NATIVE_INVOKE_GAS;
      if negb ok then st_err "[CrossChainNeoVMCall], check use gaslimit insufficient" else Invoke code array m
  end.

(** The result of the contract as a number ([AsBigInt]). *)
Definition neovm_result (address : Address) (method args fromContractAddress : list byte) (fromChainID : Z) : CM Z :=
  do v <- CrossChainNeoVMCall address method args fromContractAddress fromChainID; st_lift (AsBigInt v).

End NeoVM.

(** ** [cross_chain_manager]

    [call] is [NativeCall] of the service and [neovm_call] is [neovm_result] with the code, the gas meter and the NeoVM service of the node: what the
    contract does is left open. *)

Section Handlers.
Variable call : Address -> string -> list byte -> CM (list byte).
Variable neovm_call : Address -> list byte -> list byte -> list byte -> Z -> CM Z.

Definition ONT_CHAIN_ID : Z := 3.
Definition CREATE_CROSS_CHAIN_TX : string := "createCrossChainTx".

Definition crossChainID_key : list byte := CrossChainContractAddress ++ bytes_of "crossChainID".
Definition done_key (chainID : Z) (crossChainID : list byte) : list byte := CrossChainContractAddress ++ bytes_of "doneTx" ++ z2le 8 chainID ++ crossChainID.
Definition request_key (chainIDBytes crossChainIDBytes : list byte) : list byte := CrossChainContractAddress ++ bytes_of "request" ++ chainIDBytes ++ crossChainIDBytes.

Definition getCrossChainID : CM Z :=
  do value <- get_raw crossChainID_key;
  match value with None => st_ret 0 | Some b => st_lift (ReadUintN 8 b) end.
Definition putCrossChainID (crossChainID : Z) : CM unit := put_raw crossChainID_key (z2le 8 crossChainID).

Definition putDoneTx (crossChainID : list byte) (chainID : Z) : CM unit := put_raw (done_key chainID crossChainID) crossChainID.
Definition checkDoneTx (crossChainID : list byte) (chainID : Z) : CM unit :=
  do value <- on_native (db_Get (done_key chainID crossChainID));
  match value with None => st_ret () | Some _ => st_err "checkDoneTx, tx already done" end.

Definition PushCrossState (data : list byte) : CM unit := fun s => Ok ((), set_CrossHashes (CrossHashes s ++ [HashLeaf sha256 data]) s).
Definition calling_contract : CM Address := fun s => match CallingContext (ContextRef (native s)) with Some c => Ok (c, s) | None => Panic end.

Definition MakeFromOntProof (params : CreateCrossChainTxParam) : CM unit :=
  do crossChainID <- getCrossChainID;
  do_ putCrossChainID (u64 (crossChainID + 1));
  let crossChainIDBytes := z2le 8 crossChainID in
  do s <- st_get;
  do from <- calling_contract;
  let merkleValue := mkMakeTx (x_TxHash s) crossChainIDBytes from (cp_ToChainID params) (cp_ToContractAddress params) (cp_Method params) (cp_Args params) in
  do b <- st_lift (written (MakeTxParam_Serialization merkleValue));
  do_ put_raw (request_key (z2le 8 (cp_ToChainID params)) crossChainIDBytes) b;
  PushCrossState b.

Definition CreateCrossChainTx : CM (list byte) :=
  do params <- x_input CreateCrossChainTxParam_Deserialization; do_ MakeFromOntProof params; st_ret BYTE_TRUE.

Definition VerifyToOntTx (proof : list byte) (fromChainid : Z) (header : XHeader) : CM ToMerkleValue :=
  do v <- st_lift (MerkleProve sha256 proof (x_CrossStateRoot header));
  do merkleValue <- st_lift (decode ToMerkleValue_Deserialization v);
  do_ checkDoneTx (m_CrossChainID (v_MakeTxParam merkleValue)) fromChainid;
  do_ putDoneTx (m_CrossChainID (v_MakeTxParam merkleValue)) fromChainid;
  st_ret merkleValue.

Definition getUnlockArgs (args fromContractAddress : list byte) (fromChainID : Z) : res (list byte) :=
  written (do_ EncodeVarBytes args; do_ EncodeVarBytes fromContractAddress; do_ EncodeVarUint fromChainID; st_ret ()).

(** The header the proof is checked against: the stored one, else the one that comes with the call, if it is signed. *)
Definition proof_header (params : ProcessCrossChainTxParam) : CM XHeader :=
  do header <- GetHeaderByHeight (pr_FromChainID params) (pr_Height params);
  match header with
  | Some header => st_ret header
  | None =>
      do header2 <- st_lift (decode x_Deserialization (pr_Header params));
      do_ ProcessHeader header2 (pr_Header params);
      st_ret header2
  end.

(** What is done with a message that was proved. *)
Definition execute_message (merkleValue : ToMerkleValue) : CM (list byte) :=
  let p := v_MakeTxParam merkleValue in
  if negb (m_ToChainID p =? ONT_CHAIN_ID) then st_err "ProcessCrossChainTx, to chain id is not ont"
  else
    do dest <- st_lift (AddressParseFromBytes (m_ToContractAddress p));
    if bool_decide (m_ToContractAddress p = LockProxyContractAddress) then
      do argsBytes <- st_lift (getUnlockArgs (m_Args p) (m_FromContractAddress p) (v_FromChainID merkleValue));
      do_ call LockProxyContractAddress (Stdlib.Strings.String.string_of_list_byte (m_Method p)) argsBytes;
      st_ret BYTE_TRUE
    else
      do v <- neovm_call dest (m_Method p) (m_Args p) (m_FromContractAddress p) (v_FromChainID merkleValue);
      if v =? 0 then st_err "ProcessCrossChainTx, res of neo vm call is false" else st_ret BYTE_TRUE.

Definition ProcessCrossChainTx : CM (list byte) :=
  do params <- x_input ProcessCrossChainTxParam_Deserialization;
  do header <- proof_header params;
  do proof <- st_lift (hex_DecodeString (pr_Proof params));
  do merkleValue <- VerifyToOntTx proof (pr_FromChainID params) header;
  execute_message merkleValue.

(** ** [lock_proxy] *)

Definition UNLOCK_NAME : string := "unlock".
Definition BIND_PROXY_NAME : string := "bindProxy".
Definition BIND_ASSET_NAME : string := "bindAsset".

Definition GenBindProxyKey (contract : Address) (chainId : Z) : list byte := contract ++ bytes_of BIND_PROXY_NAME ++ z2le 8 chainId.
Definition GenBindAssetHashKey (contract assetContract : Address) (chainId : Z) : list byte :=
  contract ++ bytes_of BIND_ASSET_NAME ++ bytes_of "TargetAssetHash" ++ assetContract ++ z2le 8 chainId.
Definition GenCrossedLimitKey (contract assetContract : Address) (chainId : Z) : list byte :=
  contract ++ bytes_of BIND_ASSET_NAME ++ bytes_of "AssetCrossLimit" ++ assetContract ++ z2le 8 chainId.
Definition GenCrossedAmountKey (contract sourceContract : Address) (chainId : Z) : list byte :=
  contract ++ bytes_of "AssetCrossedAmount" ++ sourceContract ++ z2le 8 chainId.

(** Amounts are stored as the bytes of their absolute value. *)
Definition getAmount (key : list byte) : CM Z := do valueBs <- GetStorageVarBytes key; st_ret (big_SetBytes valueBs).
Definition putAmount (key : list byte) (amount : Z) : CM unit := put_var_bytes key (big_Bytes amount).

Definition getCreateTxArgs (toChainID : Z) (contractHashBytes : list byte) (method : string) (argsBytes : list byte) : res (list byte) :=
  written (CreateCrossChainTxParam_Serialization (mkCreate toChainID contractHashBytes (bytes_of method) argsBytes)).
Definition getTransferInput (state : State) : res (list byte) := written (Ser.Transfers (mkTransfers [state])).
Definition getAllowanceInput : res (list byte) := written (do_ Sink.WriteAddress OntContractAddress; Sink.WriteAddress LockProxyContractAddress).
Definition getTransferFromInput (toAddress : Address) (value : Z) : res (list byte) :=
  written (Ser.TransferFrom (mkTF LockProxyContractAddress OntContractAddress toAddress value)).

Definition BindProxyHash : CM (list byte) :=
  do contract <- this_contract;
  do bindParam <- x_input BindProxyParam_Deserialization;
  do operatorAddress <- get_operator;
  do_ x_ValidateOwner operatorAddress;
  do_ put_var_bytes (GenBindProxyKey contract (bp_TargetChainId bindParam)) (bp_TargetHash bindParam);
  st_ret BYTE_TRUE.

Definition BindAssetHash : CM (list byte) :=
  do contract <- this_contract;
  do bindParam <- x_input BindAssetParam_Deserialization;
  do operatorAddress <- get_operator;
  do_ x_ValidateOwner operatorAddress;
  let asset := ba_SourceAssetHash bindParam in let chain := ba_TargetChainId bindParam in
  do_ put_var_bytes (GenBindAssetHashKey contract asset chain) (ba_TargetAssetHash bindParam);
  do limit <- getAmount (GenCrossedLimitKey contract asset chain);
  if negb (limit <? ba_Limit bindParam) then st_err "[BindAssetHash] new Limit should be greater than stored Limit"
  else
    do_ (if ba_IsTargetChainAsset bindParam then
           let increment := ba_Limit bindParam - limit in
           do crossedAmount <- getAmount (GenCrossedAmountKey contract asset chain);
           let newCrossedAmount := crossedAmount + increment in
           if negb (crossedAmount <? newCrossedAmount) then st_err "[BindAssetHash] new crossedAmount is not greater than stored crossed amount"
           else putAmount (GenCrossedAmountKey contract asset chain) newCrossedAmount
         else st_ret ());
    do_ putAmount (GenCrossedLimitKey contract asset chain) (ba_Limit bindParam);
    st_ret BYTE_TRUE.

Definition Lock : CM (list byte) :=
  do contract <- this_contract;
  do lockParam <- x_input LockParam_Deserialization;
  let asset := lp_SourceAssetHash lockParam in let chain := lp_ToChainID lockParam in
  if lp_Value lockParam =? 0 then st_ret BYTE_FALSE
  else if negb (bool_decide (asset = OntContractAddress)) && negb (bool_decide (asset = OngContractAddress)) then st_err "[Lock] only support ont/ong lock"
  else
    do transferInput <- st_lift (getTransferInput (mkState (lp_FromAddress lockParam) contract (lp_Value lockParam)));
    do_ call asset TRANSFER_NAME transferInput;
    do crossedAmount <- getAmount (GenCrossedAmountKey contract asset chain);
    do limit <- getAmount (GenCrossedLimitKey contract asset chain);
    let newCrossedAmount := crossedAmount + lp_Value lockParam in
    if negb (crossedAmount <? newCrossedAmount) || (limit <? newCrossedAmount) then st_err "[Lock] new crossedAmount"
    else
      do_ putAmount (GenCrossedAmountKey contract asset chain) newCrossedAmount;
      do targetProxyHashBs <- GetStorageVarBytes (GenBindProxyKey contract chain);
      if zlen targetProxyHashBs =? 0 then st_err "[Lock] get bind proxy contract hash contractHash empty"
      else
        do targetAssetHashBs <- GetStorageVarBytes (GenBindAssetHashKey contract asset chain);
        do args <- st_lift (written (Args_Serialization (mkArgs targetAssetHashBs (lp_ToAddress lockParam) (lp_Value lockParam))));
        do txInput <- st_lift (getCreateTxArgs chain targetProxyHashBs UNLOCK_NAME args);
        do_ call CrossChainContractAddress CREATE_CROSS_CHAIN_TX txInput;
        st_ret BYTE_TRUE.

Definition Unlock : CM (list byte) :=
  do contract <- this_contract;
  do ok <- on_native (check_witness CrossChainContractAddress);
  if negb ok then st_err "[Unlock] can ONLY be invoked by CrossChainContractAddress"
  else
    do unlockParam <- x_input UnlockParam_Deserialization;
    do args <- st_lift (decode Args_Deserialization (up_ArgsBs unlockParam));
    do proxyContractHash <- GetStorageVarBytes (GenBindProxyKey contract (up_FromChainId unlockParam));
    if negb (bool_decide (proxyContractHash = up_FromContractHashBs unlockParam)) then st_err "[Unlock] passed in contractHash NOT equal stored contractHash"
    else if negb (bool_decide (ar_TargetAssetHash args = OntContractAddress)) && negb (bool_decide (ar_TargetAssetHash args = OngContractAddress)) then st_err "[Unlock] target asset hash"
    else
      do assetAddress <- st_lift (AddressParseFromBytes (ar_TargetAssetHash args));
      do toAddress <- st_lift (AddressParseFromBytes (ar_ToAddress args));
      if ar_Value args =? 0 then st_ret BYTE_TRUE
      else
        do transferInput <- st_lift (getTransferInput (mkState contract toAddress (ar_Value args)));
        do_ call assetAddress TRANSFER_NAME transferInput;
        let key := GenCrossedAmountKey contract assetAddress (up_FromChainId unlockParam) in
        do crossedAmount <- getAmount key;
        let newCrossedAmount := crossedAmount - ar_Value args in
        if negb (newCrossedAmount <? crossedAmount) then st_err "[Unlock] new crossedAmount should be less than old crossedAmount"
        else do_ putAmount key newCrossedAmount; st_ret BYTE_TRUE.

(** [allowance.Uint64()]: the low bits of the absolute value. *)
Definition WithdrawONG : CM (list byte) :=
  do contract <- this_contract;
  do '(toAddress, eof) <- x_input Source.NextAddress;
  if eof : bool then st_err "[WithdrawONG] input DecodeAddress toAddress error!"
  else
    do operatorAddress <- st_lift (AddressFromBookkeepers GenesisBookkeepers);
    do_ x_ValidateOwner operatorAddress;
    do allowanceInput <- st_lift getAllowanceInput;
    do allowanceRes <- call OngContractAddress ALLOWANCE_NAME allowanceInput;
    let allowance := u64 (Z.abs (BigIntFromNeoBytes allowanceRes)) in
    do transferFromInput <- st_lift (getTransferFromInput toAddress allowance);
    do_ call OngContractAddress TRANSFERFROM_NAME transferFromInput;
    st_ret BYTE_TRUE.

Definition GetProxyHash : CM (list byte) :=
  do contract <- this_contract; do toChainId <- x_input DecodeVarUint; GetStorageVarBytes (GenBindProxyKey contract toChainId).
Definition asset_and_chain : ST ZeroCopySource (Address * Z) := do a <- DecodeAddress; do c <- DecodeVarUint; st_ret (a, c).
Definition GetAssetHash : CM (list byte) :=
  do contract <- this_contract; do '(asset, toChainId) <- x_input asset_and_chain; GetStorageVarBytes (GenBindAssetHashKey contract asset toChainId).
Definition GetCrossedAmount : CM (list byte) :=
  do contract <- this_contract; do '(asset, toChainId) <- x_input asset_and_chain; do amount <- getAmount (GenCrossedAmountKey contract asset toChainId); st_ret (BigIntToNeoBytes amount).
Definition GetCrossedLimit : CM (list byte) :=
  do contract <- this_contract; do '(asset, toChainId) <- x_input asset_and_chain; do amount <- getAmount (GenCrossedLimitKey contract asset toChainId); st_ret (BigIntToNeoBytes amount).

Definition run_cross (h : CrossHandler) : CM (list byte) :=
  match h with
  | H_CreateCrossChainTx => CreateCrossChainTx | H_ProcessCrossChainTx => ProcessCrossChainTx
  | H_SyncGenesisHeader => SyncGenesisHeader | H_SyncBlockHeader => SyncBlockHeader
  | H_Lock => Lock | H_Unlock => Unlock | H_BindProxyHash => BindProxyHash | H_BindAssetHash => BindAssetHash | H_WithdrawONG => WithdrawONG
  | H_GetProxyHash => GetProxyHash | H_GetAssetHash => GetAssetHash | H_GetCrossedAmount => GetCrossedAmount | H_GetCrossedLimit => GetCrossedLimit
  end.

End Handlers.

(** ** Registration and dispatch *)

Definition RegisterCrossChainContract : list (string * CrossHandler) := [("createCrossChainTx", H_CreateCrossChainTx); ("processCrossChainTx", H_ProcessCrossChainTx)]%string.
Definition RegisterHeaderSyncContract : list (string * CrossHandler) := [("syncGenesisHeader", H_SyncGenesisHeader); ("syncBlockHeader", H_SyncBlockHeader)]%string.
Definition RegisterLockProxyContract : list (string * CrossHandler) :=
  [("lock", H_Lock); ("unlock", H_Unlock); ("bindProxy", H_BindProxyHash); ("bindAsset", H_BindAssetHash); ("withdrawONG", H_WithdrawONG);
   ("getProxyHash", H_GetProxyHash); ("getAssetHash", H_GetAssetHash); ("getCrossedAmount", H_GetCrossedAmount); ("getCrossedLimit", H_GetCrossedLimit)]%string.

(** [services(this)]: the methods of the contract are added to the map, which keeps those of contracts called before.  The map is kept in two parts,
    for the tokens and for these contracts; no name is in both. *)
Definition register (address : Address) (s : CrossService) : option CrossService :=
  let add l := Some (set_methods (foldl (fun m x => <[fst x := snd x]> m) (methods s) l) s) in
  if decide (address = CrossChainContractAddress) then add RegisterCrossChainContract
  else if decide (address = HeaderSyncContractAddress) then add RegisterHeaderSyncContract
  else if decide (address = LockProxyContractAddress) then add RegisterLockProxyContract
  else match Contracts address with
       | Some l => Some (set_native (set_ServiceMap (foldl (fun m x => <[fst x := snd x]> m) (ServiceMap (native s)) l) (native s)) s)
       | None => None
       end.

Definition x_modify (f : CrossService -> CrossService) : CM unit := fun s => Ok ((), f s).

(** Entering and leaving a call. *)
Definition enter (address : Address) (args : list byte) (s : CrossService) : CrossService :=
  set_CrossHashes [] (set_native (set_Notifications [] (set_ContextRef (PushContext address (ContextRef (native s))) (set_Input args (native s)))) s).
Definition leave (s0 s : CrossService) : CrossService :=
  let n := native s in
  let sc := PushNotifications (Notifications n) (PopContext (ContextRef n)) in
  set_CrossHashes (CrossHashes s0) (set_sc_CrossHashes (sc_CrossHashes s ++ CrossHashes s)
    (set_native (set_Input (Input (native s0)) (set_Notifications (Notifications (native s0)) (set_ContextRef sc n))) s)).

Section Invoke.
Variable neovm_call : Address -> list byte -> list byte -> list byte -> Z -> CM Z.

(** [NativeCall] for all the modelled contracts; [fuel] bounds the depth of the calls. *)
Fixpoint CrossCall (fuel : nat) (address : Address) (method : string) (args : list byte) : CM (list byte) :=
  match fuel with
  | O => st_panic
  | S f => fun s =>
      match register address s with
      | None => Err "Native contract address haven't been registered."
      | Some s0 =>
          let run (h : CM (list byte)) := (do result <- h; do_ x_modify (leave s0); st_ret result) (enter address args s0) in
          match methods s0 !! method with
          | Some h => run (run_cross (CrossCall f) neovm_call h)
          | None => match ServiceMap (native s0) !! method with
                    | Some h => run (on_native (run_handler (NativeCall f) h))
                    | None => Err "Native contract doesn't support this function."
                    end
          end
      end
  end.

End Invoke.
End Contracts.
