(* ===== verification/CrossLogic.v ===== *)
(** * Reasoning about the cross-chain contracts

    The encodings of their parameters, and a program logic for what a contract does to the storage: a run that succeeds changes it as a given
    preorder says, if it writes only where that allows it; from the operations of the service to calls between contracts. *)

From S2P Require Import Prelude Codec BigInt VmValue IntValue Merkle MemDbSpec NativeData LedgerTypes Decode LedgerCodec LedgerExample LedgerSpec Program Validation ValidationSpec NativeService OntOng LinkedList GovData GovState TokenTheory TokenSpec CrossPath CrossChain.

(** ** Parameters are read as they were written

    Numbers are below [2^63], since [EncodeVarUint] goes through [int64]. *)

Definition text_ok (b : list byte) : Prop := zlen b < 2 ^ 32.
Definition num_ok (v : Z) : Prop := 0 <= v < 2 ^ 63.
Definition bool_wire (b : bool) : list byte := [if b then x01 else x00].

Lemma parses_NextBool b : parses Source.NextBool (b, false, false) (bool_wire b).
Proof. eapply parses_bind'; [apply parses_NextByte|]. destruct b; apply parses_ret. Qed.
Lemma parses_DecodeBool b : parses DecodeBool b (bool_wire b).
Proof. eapply parses_bind'; [apply parses_NextBool|]. cbn beta iota. apply parses_guard; [reflexivity|]. apply parses_guard; [reflexivity | apply parses_ret]. Qed.
Lemma parses_checked_bytes e b : text_ok b -> parses (checked_var_bytes e) b (enc_varbytes b).
Proof. intros Hb. eapply parses_bind'; [apply parses_NextVarBytes; unfold text_ok in Hb; lia|]. apply parses_ret. Qed.
Lemma parses_checked_uint e v : is_u64 v -> parses (checked_var_uint e) v (enc_varuint v).
Proof. intros Hv. eapply parses_bind'; [apply parses_NextVarUint, Hv|]. apply parses_ret. Qed.
Lemma parses_checked64 e v : is_u64 v -> parses (checked Source.NextUint64 e) v (z2le 8 v).
Proof. intros Hv. eapply parses_bind'; [apply (parses_NextUintN 8); [lia | exact Hv]|]. apply parses_ret. Qed.

(** One field after the other. *)
Ltac ser_field := lazymatch goal with
  | |- Sink.appends (EncodeVarUint _) _ _ => apply appends_EncodeVarUint; assumption
  | |- Sink.appends (EncodeAddress _) _ _ => apply appends_EncodeAddress; assumption
  | |- Sink.appends (Sink.WriteBool _) _ _ => apply Sink.appends_WriteBool
  | |- Sink.appends (Sink.WriteUint64 _) _ _ => apply Sink.appends_WriteUint64
  | |- Sink.appends (Sink.WriteVarUint _) _ _ => apply Sink.appends_WriteVarUint; assumption
  | |- Sink.appends _ _ _ => apply Sink.appends_WriteVarBytes; unfold text_ok in *; lia
  end.
Ltac ser_fields := repeat (eapply Sink.appends_bind; [ser_field|]); apply Sink.appends_ret.
Ltac des_field := lazymatch goal with
  | |- parses DecodeVarUint _ _ => apply parses_DecodeVarUint; unfold num_ok in *; lia
  | |- parses DecodeAddress _ _ => apply parses_DecodeAddress; assumption
  | |- parses DecodeBool _ _ => apply parses_DecodeBool
  | |- parses (checked_var_bytes _) _ _ => apply parses_checked_bytes; assumption
  | |- parses (checked_var_uint _) _ _ => apply parses_checked_uint; assumption
  | |- parses (checked Source.NextUint64 _) _ _ => apply parses_checked64; assumption
  | |- parses _ _ _ => apply parses_DecodeVarBytes; unfold text_ok in *; lia
  end.
Ltac des_fields := repeat (eapply parses_bind; [des_field|]); apply parses_ret.

#[export] Instance create_Wire : Wire CreateCrossChainTxParam.
Proof.
  refine {| wire p := enc_uint (cp_ToChainID p) ++ enc_varbytes (cp_ToContractAddress p) ++ enc_varbytes (cp_Method p) ++ enc_varbytes (cp_Args p) ++ [];
            wire_ok p := num_ok (cp_ToChainID p) /\ text_ok (cp_ToContractAddress p) /\ text_ok (cp_Method p) /\ text_ok (cp_Args p);
            Serialization := CreateCrossChainTxParam_Serialization; Deserialization := CreateCrossChainTxParam_Deserialization |};
    intros [a b c d] (H1 & H2 & H3 & H4); cbn in *; [ser_fields | des_fields].
Defined.
#[export] Instance lock_Wire : Wire LockParam.
Proof.
  refine {| wire p := enc_varbytes (lp_SourceAssetHash p) ++ enc_varbytes (lp_FromAddress p) ++ enc_uint (lp_ToChainID p) ++ enc_varbytes (lp_ToAddress p) ++ enc_uint (lp_Value p) ++ [];
            wire_ok p := addr_ok (lp_SourceAssetHash p) /\ addr_ok (lp_FromAddress p) /\ num_ok (lp_ToChainID p) /\ text_ok (lp_ToAddress p) /\ num_ok (lp_Value p);
            Serialization := LockParam_Serialization; Deserialization := LockParam_Deserialization |};
    intros [a b c d e] (H1 & H2 & H3 & H4 & H5); cbn in *; [ser_fields | des_fields].
Defined.
#[export] Instance unlock_Wire : Wire UnlockParam.
Proof.
  refine {| wire p := enc_varbytes (up_ArgsBs p) ++ enc_varbytes (up_FromContractHashBs p) ++ enc_uint (up_FromChainId p) ++ [];
            wire_ok p := text_ok (up_ArgsBs p) /\ text_ok (up_FromContractHashBs p) /\ num_ok (up_FromChainId p);
            Serialization := UnlockParam_Serialization; Deserialization := UnlockParam_Deserialization |};
    intros [a b c] (H1 & H2 & H3); cbn in *; [ser_fields | des_fields].
Defined.
#[export] Instance bindProxy_Wire : Wire BindProxyParam.
Proof.
  refine {| wire p := enc_uint (bp_TargetChainId p) ++ enc_varbytes (bp_TargetHash p) ++ []; wire_ok p := num_ok (bp_TargetChainId p) /\ text_ok (bp_TargetHash p);
            Serialization := BindProxyParam_Serialization; Deserialization := BindProxyParam_Deserialization |};
    intros [a b] (H1 & H2); cbn in *; [ser_fields | des_fields].
Defined.
#[export] Instance bindAsset_Wire : Wire BindAssetParam.
Proof.
  refine {| wire p := enc_varbytes (ba_SourceAssetHash p) ++ enc_uint (ba_TargetChainId p) ++ enc_varbytes (ba_TargetAssetHash p) ++ enc_varbytes (BigIntToNeoBytes (ba_Limit p)) ++ bool_wire (ba_IsTargetChainAsset p) ++ [];
            wire_ok p := addr_ok (ba_SourceAssetHash p) /\ num_ok (ba_TargetChainId p) /\ text_ok (ba_TargetAssetHash p) /\ text_ok (BigIntToNeoBytes (ba_Limit p));
            Serialization := BindAssetParam_Serialization; Deserialization := BindAssetParam_Deserialization |};
    intros [a b c d e] (H1 & H2 & H3 & H4); cbn [ba_SourceAssetHash ba_TargetChainId ba_TargetAssetHash ba_Limit ba_IsTargetChainAsset] in *; [ser_fields|].
  repeat (eapply parses_bind; [des_field|]). rewrite FromNeo_twos, twos_ToNeo. apply parses_ret.
Defined.
#[export] Instance args_Wire : Wire LockArgs.
Proof.
  refine {| wire p := enc_varbytes (ar_TargetAssetHash p) ++ enc_varbytes (ar_ToAddress p) ++ enc_varuint (ar_Value p) ++ [];
            wire_ok p := text_ok (ar_TargetAssetHash p) /\ text_ok (ar_ToAddress p) /\ is_u64 (ar_Value p);
            Serialization := Args_Serialization; Deserialization := Args_Deserialization |};
    intros [a b c] (H1 & H2 & H3); cbn in *; [ser_fields | des_fields].
Defined.
#[export] Instance makeTx_Wire : Wire MakeTxParam.
Proof.
  refine {| wire p := enc_varbytes (m_TxHash p) ++ enc_varbytes (m_CrossChainID p) ++ enc_varbytes (m_FromContractAddress p) ++ z2le 8 (m_ToChainID p) ++
              enc_varbytes (m_ToContractAddress p) ++ enc_varbytes (m_Method p) ++ enc_varbytes (m_Args p) ++ [];
            wire_ok p := text_ok (m_TxHash p) /\ text_ok (m_CrossChainID p) /\ text_ok (m_FromContractAddress p) /\ is_u64 (m_ToChainID p) /\
              text_ok (m_ToContractAddress p) /\ text_ok (m_Method p) /\ text_ok (m_Args p);
            Serialization := MakeTxParam_Serialization; Deserialization := MakeTxParam_Deserialization |};
    intros [a b c d e f g] (H1 & H2 & H3 & H4 & H5 & H6 & H7); cbn [m_TxHash m_CrossChainID m_FromContractAddress m_ToChainID m_ToContractAddress m_Method m_Args] in *; [ser_fields | des_fields].
Defined.
#[export] Instance process_Wire : Wire ProcessCrossChainTxParam.
Proof.
  refine {| wire p := enc_varbytes (pr_Address p) ++ enc_uint (pr_FromChainID p) ++ enc_uint (pr_Height p) ++ enc_varbytes (pr_Proof p) ++ enc_varbytes (pr_Header p) ++ [];
            wire_ok p := addr_ok (pr_Address p) /\ num_ok (pr_FromChainID p) /\ is_u32 (pr_Height p) /\ text_ok (pr_Proof p) /\ text_ok (pr_Header p);
            Serialization := ProcessCrossChainTxParam_Serialization; Deserialization := ProcessCrossChainTxParam_Deserialization |};
    intros [a b c d e] (H1 & H2 & H3 & H4 & H5); cbn [pr_Address pr_FromChainID pr_Height pr_Proof pr_Header] in *;
    assert (num_ok c) by (unfold num_ok; unfold is_u32 in H3; lia); [ser_fields|].
  repeat (eapply parses_bind; [des_field|]). rewrite u32_small by exact H3. apply parses_ret.
Defined.

(** What [written] gives. *)
Lemma written_wire {T} `{Wire T} (t : T) : wire_ok t -> zlen (wire t) + 9 <= 2 ^ 58 -> written (Serialization t) = Ok (wire t).
Proof. intros Ht Hl. exact (written_appends _ _ (ser_appends t Ht) Hl). Qed.
Lemma written_read {T} `{Wire T} (t : T) b : wire_ok t -> zlen (wire t) + 9 <= 2 ^ 58 -> written (Serialization t) = Ok b -> decode Deserialization b = Ok t.
Proof. intros Ht Hl E. rewrite written_wire in E by assumption. injection E as <-. unfold decode. destruct (parses_all _ _ _ (des_parses t Ht) ltac:(lia)) as (src & -> & _). reflexivity. Qed.
Lemma zlen_var_le x : text_ok x -> zlen (enc_varbytes x) <= 2 ^ 32 + 9.
Proof. intros Hx. unfold text_ok in Hx. unfold enc_varbytes. rewrite zlen_app. pose proof (zlen_enc_varuint (zlen x)). pose proof (getVarUintSize_bounds (zlen x)). lia. Qed.

(** ** What a contract does to the storage *)

Section Logic.
Context {D : Type} `{HD : KVCache D} `{HB58 : Base58} {K : Keypair} {HH : Hashes} {SL : SigLib} {CE : CrossEnv}.
Implicit Types (n : @NativeService D) (s : @CrossService D) (ctx : list Address).

(** [R] relates the storage before and after; [W] are the keys that may be written. *)
Context (R : view_t -> view_t -> Prop) `{HR : !PreOrder R} (W : list byte -> Prop).
Hypothesis W_upd : forall key v f, W key -> R f (upd_view key v f).

(** A run of [m] from the contexts [ctx] that succeeds changes the storage as [R] says and returns to these contexts. *)
Definition evolves {A} (ctx : list Address) (m : @NM D A) : Prop := forall n f a n', Contexts (ContextRef n) = ctx -> kv_is (CacheDB n) f -> m n = Ok (a, n') ->
  Contexts (ContextRef n') = ctx /\ exists f', kv_is (CacheDB n') f' /\ R f f'.

Lemma ev_ret {A} ctx (a : A) : evolves ctx (st_ret a).
Proof. intros n f ? ? Hc Hn [= <- <-]. split; [exact Hc|]. exists f. split; [exact Hn | reflexivity]. Qed.
Lemma ev_err {A} ctx e : evolves ctx (st_err (A := A) e). Proof. intros n f a n' _ _ [=]. Qed.
Lemma ev_panic {A} ctx : evolves ctx (st_panic (A := A)). Proof. intros n f a n' _ _ [=]. Qed.
Lemma ev_lift {A} ctx (r : res A) : evolves ctx (st_lift r).
Proof. destruct r; [apply ev_ret | apply ev_err | apply ev_panic]. Qed.
Lemma ev_guard ctx b e : evolves ctx (st_guard b e). Proof. apply ev_lift. Qed.

Lemma ev_bind {A B} ctx (m : @NM D A) (k : A -> @NM D B) : evolves ctx m -> (forall a, evolves ctx (k a)) -> evolves ctx (st_bind m k).
Proof.
  intros Hm Hk n f b n' Hc Hn H. apply st_bind_Ok in H as (a & n1 & E1 & E2). destruct (Hm _ _ _ _ Hc Hn E1) as (Hc1 & f1 & Hn1 & R1).
  destruct (Hk a _ _ _ _ Hc1 Hn1 E2) as (Hc2 & f2 & Hn2 & R2). split; [exact Hc2|]. exists f2. split; [exact Hn2 | etransitivity; eassumption].
Qed.

(** Steps that leave the cache and the contexts alone. *)
Lemma ev_still {A} ctx (m : @NM D A) : (forall n a n', m n = Ok (a, n') -> CacheDB n' = CacheDB n /\ Contexts (ContextRef n') = Contexts (ContextRef n)) -> evolves ctx m.
Proof. intros H n f a n' Hc Hn E. destruct (H _ _ _ E) as [Ed Ec]. split; [congruence|]. exists f. rewrite Ed. split; [exact Hn | reflexivity]. Qed.
Lemma ev_get ctx : evolves ctx st_get. Proof. apply ev_still. intros n a n' [= <- <-]. auto. Qed.
Lemma ev_witness ctx a : evolves ctx (check_witness a). Proof. apply ev_still. intros n b n' [= <- <-]. auto. Qed.
Lemma ev_input {A} ctx (p : ST ZeroCopySource A) : evolves ctx (input p).
Proof. apply ev_still. intros n a n'. unfold input, st_lift. destruct (decode p (Input n)); [intros [= <- <-]; auto | discriminate ..]. Qed.
Lemma ev_notify ctx c st : evolves ctx (AddNotifications c st).
Proof. apply ev_still. intros n a n'. unfold AddNotifications. destruct (EnableEventLog n); intros [= <- <-]; auto. Qed.

Lemma ev_current {A} ctx (k : Address -> @NM D A) : (forall c, last ctx = Some c -> evolves ctx (k c)) -> evolves ctx (st_bind current_contract k).
Proof.
  intros Hk n f a n' Hc Hn H. unfold st_bind, current_contract, CurrentContext in H. destruct (_ <? 1) eqn:E1; [discriminate|].
  destruct (Contexts (ContextRef n) !! _) as [c|] eqn:Ec; [|discriminate]. refine (Hk c _ _ _ _ _ Hc Hn H). rewrite <- Hc, last_lookup. rewrite <- Ec. f_equal. lia.
Qed.

Lemma ev_Get ctx key : evolves ctx (db_Get key).
Proof. intros n f a n' Hc Hn. unfold db_Get. destruct (kv_Get_law _ _ key Hn) as (d & -> & Hd). intros [= <- <-]. split; [exact Hc|]. exists f. split; [exact Hd | reflexivity]. Qed.
Lemma ev_Put ctx key v : W key -> evolves ctx (db_Put key v).
Proof. intros Hw n f a n' Hc Hn. unfold db_Put. destruct (kv_Put_law _ _ key v Hn) as (d & -> & Hd). intros [= <- <-]. split; [exact Hc|]. eexists. split; [exact Hd | apply (W_upd key), Hw]. Qed.
Lemma ev_Delete ctx key : W key -> evolves ctx (db_Delete key).
Proof. intros Hw n f a n' Hc Hn. unfold db_Delete. destruct (kv_Delete_law _ _ key Hn) as (d & -> & Hd). intros [= <- <-]. split; [exact Hc|]. eexists. split; [exact Hd | apply (W_upd key), Hw]. Qed.

(** One step, by the form of the program; [tac] takes the calls that are left. *)
Ltac ev_step tac := lazymatch goal with
  | |- evolves _ (st_bind current_contract _) => apply ev_current; intros ?c ?Hlast
  | |- evolves _ (st_bind _ _) => apply ev_bind; [|intros ?]
  | |- evolves _ (st_ret _) => apply ev_ret
  | |- evolves _ (st_err _) => apply ev_err
  | |- evolves _ st_panic => apply ev_panic
  | |- evolves _ (st_lift _) => apply ev_lift
  | |- evolves _ (st_guard _ _) => apply ev_guard
  | |- evolves _ st_get => apply ev_get
  | |- evolves _ (check_witness _) => apply ev_witness
  | |- evolves _ (input _) => apply ev_input
  | |- evolves _ (AddNotifications _ _) => apply ev_notify
  | |- evolves _ (db_Get _) => apply ev_Get
  | |- evolves _ (match ?x with _ => _ end) => destruct x
  | |- evolves _ _ => tac
  end.
Ltac ev tac := repeat ev_step ltac:(tac).

Lemma ev_GetStorageItem ctx key : evolves ctx (GetStorageItem key). Proof. unfold GetStorageItem. ev fail. Qed.
Lemma ev_Get64 ctx key : evolves ctx (GetStorageUInt64 key). Proof. unfold GetStorageUInt64, GetStorageItem. ev fail. Qed.
Lemma ev_Get32 ctx key : evolves ctx (GetStorageUInt32 key). Proof. unfold GetStorageUInt32, GetStorageItem. ev fail. Qed.
Lemma ev_put_item ctx key item : W key -> evolves ctx (put_item key item). Proof. intros Hw. unfold put_item. ev ltac:(apply ev_Put, Hw). Qed.

(** *** The tokens: they write under the current contract, and ONT calls ONG *)

Definition under (c : Address) : Prop := forall x, W (c ++ x).

Lemma ev_Transfer ctx c st : under c -> evolves ctx (Transfer c st).
Proof.
  intros Hc. unfold Transfer, authentication, fromTransfer, toTransfer, GenBalanceKey.
  ev ltac:(first [apply ev_Get64 | apply ev_put_item, Hc | apply ev_Delete, Hc]).
Qed.
Lemma ev_TransferedFrom ctx c tf : under c -> evolves ctx (TransferedFrom c tf).
Proof.
  intros Hc. unfold TransferedFrom, authentication, fromApprove, fromTransfer, toTransfer, genTransferFromKey, GenBalanceKey.
  ev ltac:(first [apply ev_Get64 | apply ev_put_item, Hc | apply ev_Delete, Hc]).
Qed.

Section Tokens.
Variable call : Address -> string -> list byte -> @NM D (list byte).
Variable ctx : list Address.
Hypothesis call_ev : forall m args, evolves ctx (call OngContractAddress m args).

Lemma ev_grantOng c a b : under c -> evolves ctx (grantOng call c a b).
Proof.
  intros Hc. unfold grantOng, getUnboundOffset, getApproveArgs, genAddressUnboundOffsetKey.
  ev ltac:(first [apply ev_Get64 | apply ev_Get32 | apply call_ev | apply ev_put_item, Hc]).
Qed.
Lemma ev_ont_transfers c l : under c -> evolves ctx (ont_transfers call c l).
Proof. intros Hc. induction l as [|v l IH]; cbn [ont_transfers]; ev ltac:(first [exact IH | apply ev_Transfer, Hc | apply ev_grantOng, Hc]). Qed.
Lemma ev_ong_transfers c l : under c -> evolves ctx (ong_transfers c l).
Proof. intros Hc. induction l as [|v l IH]; cbn [ong_transfers]; ev ltac:(first [exact IH | apply ev_Transfer, Hc]). Qed.
Lemma ev_put_balances c l : under c -> evolves ctx (put_balances c l).
Proof. intros Hc. induction l as [|[a v] l IH]; cbn [put_balances]; ev ltac:(first [exact IH | apply ev_put_item, Hc]). Qed.

Lemma ev_run_handler c h : last ctx = Some c -> under c -> evolves ctx (run_handler call h).
Proof.
  intros Hl Hc. assert (Hu : forall c', last ctx = Some c' -> under c') by (intros c' Hl'; rewrite Hl in Hl'; injection Hl' as <-; exact Hc).
  destruct h; cbn [run_handler];
    unfold OntInit, OntTransfer, OntApprove, OntTransferFrom, OntName, OntSymbol, OntDecimals, OntTotalSupply, OntBalanceOf, OntAllowance,
      OngInit, OngTransfer, OngApprove, OngTransferFrom, OngName, OngSymbol, OngDecimals, OngTotalSupply, OngBalanceOf, OngAllowance, OntTotalSupply, GetBalanceValue, approve, authentication, GenTotalSupplyKey, GenApproveKey;
    ev ltac:(first [apply ev_Get64 | apply ev_put_item, Hu; assumption | apply ev_ont_transfers, Hu; assumption | apply ev_ong_transfers, Hu; assumption
      | apply ev_put_balances, Hu; assumption | apply ev_TransferedFrom, Hu; assumption | apply ev_grantOng, Hu; assumption]).
Qed.

End Tokens.

Lemma context_popped ctx a sc : ctx <> [] -> Contexts sc = ctx ++ [a] -> Contexts (PopContext sc) = ctx.
Proof.
  intros Hne E. unfold PopContext. rewrite E, (proj2 (Z.ltb_lt _ _)).
  - cbn [Contexts]. rewrite length_app, Nat.add_sub. apply take_app_length.
  - destruct ctx; [congruence|]. unfold zlen. rewrite length_app. cbn. lia.
Qed.

Hypothesis W_ont : under OntContractAddress.
Hypothesis W_ong : under OngContractAddress.

Lemma Contracts_under address l : Contracts address = Some l -> under address.
Proof. unfold Contracts. repeat case_decide; subst; [auto | auto | discriminate]. Qed.

Lemma ev_NativeCall fuel ctx address m args : ctx <> [] -> evolves ctx (NativeCall fuel address m args).
Proof.
  revert ctx address m args. induction fuel as [|fuel IH]; intros ctx address m args Hne; [apply ev_panic|]. cbn [NativeCall].
  destruct (Contracts address) as [l|] eqn:El; [|apply ev_err]. intros n f r n' Hc Hn H. unfold st_bind at 1 2 in H. cbn [modify st_get] in H.
  destruct (_ !! m) as [h|]; [|discriminate]. unfold st_bind at 1 in H. cbn [modify] in H. apply st_bind_Ok in H as (r1 & n1 & E1 & E2).
  unfold st_bind in E2. injection E2 as <- <-. assert (Hne' : ctx ++ [address] <> []) by (destruct ctx; discriminate).
  eapply (ev_run_handler (NativeCall fuel) (ctx ++ [address]) (fun m args => IH _ OngContractAddress m args Hne') address h
    (last_snoc _ _) (Contracts_under _ _ El) _ f) in E1 as (Hc1 & f1 & Hn1 & R1); [|cbn; rewrite Hc; reflexivity | exact Hn].
  split; [|exists f1; split; [exact Hn1 | exact R1]]. cbn. eapply context_popped; [exact Hne | exact Hc1].
Qed.

(** *** The cross-chain contracts *)

Definition cross_methods : list (string * CrossHandler) := RegisterCrossChainContract ++ RegisterHeaderSyncContract ++ RegisterLockProxyContract.
Definition methods_ok s : Prop := forall name h, methods s !! name = Some h -> (name, h) ∈ cross_methods.

Definition xevolves {A} ctx (m : @CM D A) : Prop := forall s f a s', Contexts (ContextRef (native s)) = ctx -> methods_ok s -> kv_is (CacheDB (native s)) f ->
  m s = Ok (a, s') -> Contexts (ContextRef (native s')) = ctx /\ methods_ok s' /\ exists f', kv_is (CacheDB (native s')) f' /\ R f f'.

Lemma xe_ret {A} ctx (a : A) : xevolves ctx (st_ret a).
Proof. intros s f ? ? Hc Hm Hn [= <- <-]. split; [exact Hc|]. split; [exact Hm|]. exists f. split; [exact Hn | reflexivity]. Qed.
Lemma xe_err {A} ctx e : xevolves ctx (st_err (A := A) e). Proof. intros s f a s' _ _ _ [=]. Qed.
Lemma xe_panic {A} ctx : xevolves ctx (st_panic (A := A)). Proof. intros s f a s' _ _ _ [=]. Qed.
Lemma xe_lift {A} ctx (r : res A) : xevolves ctx (st_lift r).
Proof. destruct r; [apply xe_ret | apply xe_err | apply xe_panic]. Qed.
Lemma xe_bind {A B} ctx (m : @CM D A) (k : A -> @CM D B) : xevolves ctx m -> (forall a, xevolves ctx (k a)) -> xevolves ctx (st_bind m k).
Proof.
  intros Hm Hk s f b s' Hc Ho Hn H. apply st_bind_Ok in H as (a & s1 & E1 & E2). destruct (Hm _ _ _ _ Hc Ho Hn E1) as (Hc1 & Ho1 & f1 & Hn1 & R1).
  destruct (Hk a _ _ _ _ Hc1 Ho1 Hn1 E2) as (Hc2 & Ho2 & f2 & Hn2 & R2). split; [exact Hc2|]. split; [exact Ho2|]. exists f2. split; [exact Hn2 | etransitivity; eassumption].
Qed.
Lemma xe_lift_bind {A B} ctx (r : res A) (k : A -> @CM D B) : (forall a, r = Ok a -> xevolves ctx (k a)) -> xevolves ctx (st_bind (st_lift r) k).
Proof. intros H. destruct r as [a|e|]; [exact (H a eq_refl) | apply xe_err | apply xe_panic]. Qed.
Lemma xe_native {A} ctx (m : @NM D A) : evolves ctx m -> xevolves ctx (on_native m).
Proof.
  intros Hm s f a s' Hc Ho Hn. unfold on_native. destruct (m (native s)) as [[a' n']|e|] eqn:E; [|discriminate ..]. intros [= <- <-].
  destruct (Hm _ _ _ _ Hc Hn E) as (Hc1 & H). split; [exact Hc1|]. split; [exact Ho | exact H].
Qed.
Lemma xe_get ctx : xevolves ctx st_get.
Proof. intros s f a s' Hc Ho Hn [= <- <-]. split; [exact Hc|]. split; [exact Ho|]. exists f. split; [exact Hn | reflexivity]. Qed.
Lemma xe_calling ctx : xevolves ctx calling_contract.
Proof. intros s f a s' Hc Ho Hn. unfold calling_contract. destruct (CallingContext _); [|discriminate]. intros [= <- <-]. split; [exact Hc|]. split; [exact Ho|]. exists f. split; [exact Hn | reflexivity]. Qed.
Lemma xe_push ctx b : xevolves ctx (PushCrossState b).
Proof. intros s f a s' Hc Ho Hn [= <- <-]. split; [exact Hc|]. split; [exact Ho|]. exists f. split; [exact Hn | reflexivity]. Qed.
Lemma xe_this {A} ctx (k : Address -> @CM D A) : (forall c, last ctx = Some c -> xevolves ctx (k c)) -> xevolves ctx (st_bind this_contract k).
Proof.
  intros Hk s f a s' Hc Ho Hn H. apply st_bind_Ok in H as (c & s1 & E1 & E2). unfold this_contract, on_native, current_contract, CurrentContext in E1.
  destruct (_ <? 1); [discriminate|]. destruct (Contexts (ContextRef (native s)) !! _) as [c'|] eqn:Ec; [|discriminate]. injection E1 as <- <-.
  refine (Hk c' _ (set_native (native s) s) _ _ _ Hc Ho Hn E2). rewrite <- Hc, last_lookup, <- Ec. f_equal. lia.
Qed.

Ltac xe_step tac := lazymatch goal with
  | |- xevolves _ (st_bind this_contract _) => apply xe_this; intros ?c ?Hlast
  | |- xevolves _ (st_bind (st_lift _) _) => apply xe_lift_bind; intros ? ?
  | |- xevolves _ (st_bind _ _) => apply xe_bind; [|intros ?]
  | |- xevolves _ (st_ret _) => apply xe_ret
  | |- xevolves _ (st_err _) => apply xe_err
  | |- xevolves _ st_panic => apply xe_panic
  | |- xevolves _ (st_lift _) => apply xe_lift
  | |- xevolves _ (st_guard _ _) => apply xe_lift
  | |- xevolves _ st_get => apply xe_get
  | |- xevolves _ calling_contract => apply xe_calling
  | |- xevolves _ (PushCrossState _) => apply xe_push
  | |- xevolves _ (x_input _) => apply xe_native, ev_input
  | |- xevolves _ (on_native (check_witness _)) => apply xe_native, ev_witness
  | |- xevolves _ (on_native (db_Get _)) => apply xe_native, ev_Get
  | |- xevolves _ (on_native (GetStorageItem _)) => apply xe_native, ev_GetStorageItem
  | |- xevolves _ (match ?x with _ => _ end) => destruct x eqn:?
  | |- xevolves _ _ => tac
  end.
Ltac xe tac := repeat xe_step ltac:(tac).

(** A call of a NeoVM contract, when the node's parts of it evolve the storage so. *)
Lemma xe_neovm `{Interops} GetContract CheckUseGas Invoke ctx a b c d e :
  (forall a, xevolves ctx (GetContract a)) -> (forall g, xevolves ctx (CheckUseGas g)) -> (forall code array m, xevolves ctx (Invoke code array m)) ->
  xevolves ctx (neovm_result GetContract CheckUseGas Invoke a b c d e).
Proof. intros H1 H2 H3. unfold neovm_result, CrossChainNeoVMCall. xe ltac:(first [apply H1 | apply H2 | apply H3]). Qed.

Lemma xe_get_raw ctx key : xevolves ctx (get_raw key). Proof. unfold get_raw. xe fail. Qed.
Lemma xe_put_raw ctx key v : W key -> xevolves ctx (put_raw key v). Proof. intros Hw. apply xe_native, ev_put_item, Hw. Qed.
Lemma xe_put_var ctx key v : W key -> xevolves ctx (put_var_bytes key v). Proof. intros Hw. apply xe_native, ev_put_item, Hw. Qed.
Lemma xe_get_var ctx key : xevolves ctx (GetStorageVarBytes key). Proof. unfold GetStorageVarBytes. xe fail. Qed.
Lemma xe_operator ctx : xevolves ctx get_operator. Proof. unfold get_operator. xe fail. Qed.
Lemma xe_owner ctx a : xevolves ctx (x_ValidateOwner a). Proof. unfold x_ValidateOwner. xe fail. Qed.

Hypothesis W_sync : under HeaderSyncContractAddress.
Hypothesis W_proxy : under LockProxyContractAddress.
Hypothesis W_id : W crossChainID_key.
Hypothesis W_request : forall a b, W (request_key a b).

Ltac xe_io := idtac; lazymatch goal with
  | |- xevolves _ (get_raw _) => apply xe_get_raw
  | |- xevolves _ (GetStorageVarBytes _) => apply xe_get_var
  | |- xevolves _ get_operator => apply xe_operator
  | |- xevolves _ (x_ValidateOwner _) => apply xe_owner
  | |- xevolves _ (put_raw crossChainID_key _) => apply xe_put_raw, W_id
  | |- xevolves _ (put_raw (request_key _ _) _) => apply xe_put_raw, W_request
  | |- xevolves _ (put_raw _ _) => apply xe_put_raw, W_sync
  end.
Ltac xe_store := xe ltac:(xe_io).

Lemma xe_header_by_height ctx c h : xevolves ctx (GetHeaderByHeight c h). Proof. unfold GetHeaderByHeight. xe_store. Qed.
Lemma xe_VerifyHeader ctx h : xevolves ctx (x_VerifyHeader h).
Proof. unfold x_VerifyHeader, findKeyHeight, GetKeyHeights, getConsensusPeersByHeight. xe_store. Qed.
Lemma xe_PutBlockHeader ctx h b : xevolves ctx (PutBlockHeader h b). Proof. unfold PutBlockHeader. xe_store. Qed.
Lemma xe_UpdatePeers ctx h : xevolves ctx (UpdateConsensusPeer h).
Proof. unfold UpdateConsensusPeer, putConsensusPeers, GetKeyHeights, putKeyHeights. xe_store. Qed.
Lemma xe_ProcessHeader ctx h b : xevolves ctx (ProcessHeader h b).
Proof. unfold ProcessHeader. xe ltac:(first [apply xe_VerifyHeader | apply xe_PutBlockHeader | apply xe_UpdatePeers]). Qed.
Lemma xe_sync ctx l : xevolves ctx (sync_headers l).
Proof. induction l as [|v l IH]; cbn [sync_headers]; xe ltac:(first [exact IH | apply xe_header_by_height | apply xe_ProcessHeader]). Qed.
Lemma xe_create ctx p : xevolves ctx (MakeFromOntProof p).
Proof. unfold MakeFromOntProof, getCrossChainID, putCrossChainID. xe_store. Qed.

Lemma token_not_cross a : negb (bool_decide (a = OntContractAddress)) && negb (bool_decide (a = OngContractAddress)) = false -> a <> CrossChainContractAddress.
Proof. intros H ->. vm_compute in H. discriminate. Qed.
Lemma AddressParse_Ok b a : AddressParseFromBytes b = Ok a -> a = b.
Proof. unfold AddressParseFromBytes. case_match; [intros [= <-]; reflexivity | discriminate]. Qed.

Section Handlers.
Variable call : Address -> string -> list byte -> @CM D (list byte).
Variable neovm_call : Address -> list byte -> list byte -> list byte -> Z -> @CM D Z.
Variable ctx : list Address.
Hypothesis call_ev : forall address m args, address <> CrossChainContractAddress \/ m = CREATE_CROSS_CHAIN_TX -> xevolves ctx (call address m args).
Hypothesis neovm_ev : forall a b c d e, xevolves ctx (neovm_call a b c d e).
Hypothesis done_ev : forall p c h, xevolves ctx (VerifyToOntTx p c h).

Lemma xe_process : xevolves ctx (ProcessCrossChainTx call neovm_call).
Proof.
  unfold ProcessCrossChainTx, proof_header, execute_message.
  xe ltac:(first [apply xe_header_by_height | apply xe_ProcessHeader | apply done_ev | apply neovm_ev | apply call_ev; left; discriminate]).
Qed.

(** The other handlers write under the current contract too. *)
Lemma xe_run_cross c h : last ctx = Some c -> under c \/ h = H_CreateCrossChainTx \/ h = H_ProcessCrossChainTx -> xevolves ctx (run_cross call neovm_call h).
Proof.
  intros Hl Hc. destruct (decide (h = H_CreateCrossChainTx)) as [->|H1]; [unfold run_cross, CreateCrossChainTx; xe ltac:(apply xe_create)|].
  destruct (decide (h = H_ProcessCrossChainTx)) as [->|H2]; [apply xe_process|].
  assert (Hu : forall c', last ctx = Some c' -> under c') by (intros c' Hl'; rewrite Hl in Hl'; injection Hl' as <-; tauto).
  destruct h; cbn [run_cross]; try contradiction;
    unfold SyncGenesisHeader, SyncBlockHeader, Lock, Unlock, BindProxyHash, BindAssetHash, WithdrawONG, GetProxyHash, GetAssetHash, GetCrossedAmount, GetCrossedLimit, getAmount, putAmount,
      GenBindProxyKey, GenBindAssetHashKey, GenCrossedLimitKey, GenCrossedAmountKey;
    xe ltac:(idtac; lazymatch goal with
      | |- xevolves _ (call _ _ _) => apply call_ev
      | |- xevolves _ (sync_headers _) => apply xe_sync
      | |- xevolves _ (PutBlockHeader _ _) => apply xe_PutBlockHeader
      | |- xevolves _ (UpdateConsensusPeer _) => apply xe_UpdatePeers
      | |- xevolves _ (put_var_bytes _ _) => apply xe_put_var, Hu; assumption
      | _ => xe_io
      end).
  - left. eapply token_not_cross. eassumption.
  - right. reflexivity.
  - left. match goal with H : AddressParseFromBytes (ar_TargetAssetHash _) = Ok _ |- _ => apply AddressParse_Ok in H as -> end. eapply token_not_cross. eassumption.
  - left. discriminate.
  - left. discriminate.
Qed.

End Handlers.

(** Calls: the contract that is called is one of five, and under the manager only its own two methods run. *)
Variable neovm_call : Address -> list byte -> list byte -> list byte -> Z -> @CM D Z.
Hypothesis neovm_ev : forall ctx a b c d e, xevolves ctx (neovm_call a b c d e).
Hypothesis done_ev : forall ctx p c h, xevolves ctx (VerifyToOntTx p c h).

Definition admissible address m s : Prop :=
  address <> CrossChainContractAddress \/ m = CREATE_CROSS_CHAIN_TX \/ (methods s = ∅ /\ ServiceMap (native s) = ∅).

Lemma added_ok (l : list (string * CrossHandler)) (m : gmap string CrossHandler) : (forall x, x ∈ l -> x ∈ cross_methods) -> (forall name h, m !! name = Some h -> (name, h) ∈ cross_methods) ->
  forall name h, foldl (fun m x => <[fst x := snd x]> m) m l !! name = Some h -> (name, h) ∈ cross_methods.
Proof.
  revert m. induction l as [|[x hx] l IH]; intros m Hl Hm; [exact Hm|]. apply IH; [intros y Hy; apply Hl; right; exact Hy|].
  intros name h. cbn. rewrite lookup_insert_Some. intros [[<- <-]|[_ H]]; [apply Hl; left | apply Hm, H].
Qed.

Lemma register_ok address s s0 : register address s = Some s0 -> methods_ok s ->
  methods_ok s0 /\ CacheDB (native s0) = CacheDB (native s) /\ ContextRef (native s0) = ContextRef (native s) /\
  (under address \/ address = CrossChainContractAddress) /\
  (address = CrossChainContractAddress -> ServiceMap (native s0) = ServiceMap (native s) /\
     methods s0 = foldl (fun m x => <[fst x := snd x]> m) (methods s) RegisterCrossChainContract).
Proof.
  intros Hr Hm. unfold register in Hr.
  destruct (decide (address = CrossChainContractAddress)) as [->|H1].
  { injection Hr as <-. refine (conj (added_ok RegisterCrossChainContract _ _ Hm) (conj eq_refl (conj eq_refl (conj (or_intror eq_refl) (fun _ => conj eq_refl eq_refl))))).
    intros x Hx. apply elem_of_app. left. exact Hx. }
  destruct (decide (address = HeaderSyncContractAddress)) as [->|H2].
  { injection Hr as <-. refine (conj (added_ok RegisterHeaderSyncContract _ _ Hm) (conj eq_refl (conj eq_refl (conj (or_introl W_sync) _)))); [|discriminate].
    intros x Hx. apply elem_of_app. right. apply elem_of_app. left. exact Hx. }
  destruct (decide (address = LockProxyContractAddress)) as [->|H3].
  { injection Hr as <-. refine (conj (added_ok RegisterLockProxyContract _ _ Hm) (conj eq_refl (conj eq_refl (conj (or_introl W_proxy) _)))); [|discriminate].
    intros x Hx. apply elem_of_app. right. apply elem_of_app. right. exact Hx. }
  destruct (Contracts address) as [l|] eqn:El; [|discriminate]. injection Hr as <-.
  exact (conj Hm (conj eq_refl (conj eq_refl (conj (or_introl (Contracts_under _ _ El)) (fun E => False_ind _ (H1 E)))))).
Qed.

(** The handler found under a name. *)
Lemma dispatch_cross address m s s0 h : register address s = Some s0 -> methods_ok s -> admissible address m s -> methods s0 !! m = Some h ->
  under address \/ h = H_CreateCrossChainTx \/ h = H_ProcessCrossChainTx.
Proof.
  intros Hr Hm Ha Hh. destruct (register_ok _ _ _ Hr Hm) as (Ho & _ & _ & [Hu| ->] & Hx); [left; exact Hu|]. right. destruct Ha as [Ha|[->|[Hs _]]]; [congruence| |].
  - left. apply Ho in Hh. unfold cross_methods, CREATE_CROSS_CHAIN_TX in Hh.
    repeat (apply elem_of_cons in Hh as [Hh|Hh]; [first [discriminate Hh | injection Hh as ->; reflexivity]|]). apply elem_of_nil in Hh. contradiction.
  - destruct (Hx eq_refl) as [_ Em]. rewrite Em, Hs in Hh. cbn [foldl RegisterCrossChainContract fst snd] in Hh.
    apply lookup_insert_Some in Hh as [[_ <-]|[_ Hh]]; [right; reflexivity|]. apply lookup_insert_Some in Hh as [[_ <-]|[_ Hh]]; [left; reflexivity|]. rewrite lookup_empty in Hh. discriminate.
Qed.

Lemma dispatch_token address m s s0 h : register address s = Some s0 -> methods_ok s -> admissible address m s -> methods s0 !! m = None -> ServiceMap (native s0) !! m = Some h -> under address.
Proof.
  intros Hr Hm Ha Hno Hh. destruct (register_ok _ _ _ Hr Hm) as (_ & _ & _ & [Hu| ->] & Hx); [exact Hu|]. exfalso. destruct (Hx eq_refl) as [Es Em]. destruct Ha as [Ha|[->|[_ Hs]]]; [congruence| |].
  - rewrite Em in Hno. cbn [foldl RegisterCrossChainContract fst snd] in Hno. rewrite lookup_insert_ne, lookup_insert_eq in Hno by discriminate. discriminate.
  - rewrite Es, Hs, lookup_empty in Hh. discriminate.
Qed.

Lemma ev_CrossCall fuel address m args s f r s' : admissible address m s -> Contexts (ContextRef (native s)) <> [] -> methods_ok s -> kv_is (CacheDB (native s)) f ->
  CrossCall neovm_call fuel address m args s = Ok (r, s') ->
  Contexts (ContextRef (native s')) = Contexts (ContextRef (native s)) /\ methods_ok s' /\ exists f', kv_is (CacheDB (native s')) f' /\ R f f'.
Proof.
  revert address m args s f r s'. induction fuel as [|fuel IH]; intros address m args s f r s' Ha Hne Hm Hn H; [discriminate|]. cbn [CrossCall] in H.
  destruct (register address s) as [s0|] eqn:Er; [|discriminate]. destruct (register_ok _ _ _ Er Hm) as (Hm0 & Ed & Ec & _).
  assert (Hrun : forall h : @CM D (list byte), xevolves (Contexts (ContextRef (native s)) ++ [address]) h ->
    (do result <- h; do_ x_modify (leave s0); st_ret result) (enter address args s0) = Ok (r, s') ->
    Contexts (ContextRef (native s')) = Contexts (ContextRef (native s)) /\ methods_ok s' /\ exists f', kv_is (CacheDB (native s')) f' /\ R f f').
  { intros h Hh E. apply st_bind_Ok in E as (r1 & s1 & E1 & E2). unfold st_bind in E2. injection E2 as <- <-.
    eapply (Hh _ f) in E1 as (Hc1 & Hm1 & f1 & Hn1 & R1); [|cbn; rewrite Ec; reflexivity | exact Hm0 | cbn; rewrite Ed; exact Hn].
    split; [cbn; eapply context_popped; [exact Hne | exact Hc1]|]. split; [exact Hm1|]. exists f1. split; [exact Hn1 | exact R1]. }
  assert (Hne' : Contexts (ContextRef (native s)) ++ [address] <> []) by (intros E; apply app_eq_nil in E as [_ [=]]).
  destruct (methods s0 !! m) as [h|] eqn:Eh.
  - eapply Hrun; [|exact H]. apply (xe_run_cross (CrossCall neovm_call fuel) neovm_call _) with (c := address); [| auto | auto | apply last_snoc | eapply dispatch_cross; eassumption].
    intros a m' args' Ha' s1 f1 r1 s1' Hc1 Hm1 Hn1 E1. rewrite <- Hc1 in Hne' |- *.
    refine (IH a m' args' s1 f1 r1 s1' _ Hne' Hm1 Hn1 E1). unfold admissible. tauto.
  - destruct (ServiceMap (native s0) !! m) as [h|] eqn:Eh2; [|discriminate]. eapply Hrun; [|exact H].
    apply xe_native, (ev_run_handler _ _) with (c := address); [intros; apply ev_NativeCall, Hne' | apply last_snoc | eapply dispatch_token; eassumption].
Qed.

End Logic.
