(* ===== verification/CrossSpec.v ===== *)
(** * What the cross-chain contracts guarantee

    A message of another chain is executed only when it
    is proved by a header that the peers of that chain signed, and at most once for each chain named by the caller; what is
    locked stays within the limit; and where the code lets more through than it means to. *)

From S2P Require Import Prelude Codec BigInt IntValue VmValue Merkle MemDbSpec NativeData LedgerTypes Decode LedgerCodec LedgerExample LedgerSpec Program Validation ValidationSpec NativeService OntOng LinkedList GovData GovState TokenTheory TokenSpec OntSpec CrossPath CrossChain CrossLogic.

(** ** Marks of executed messages *)

Definition done_at (f : view_t) (chainID : Z) (id : list byte) : Prop := is_Some (f (done_key chainID id)).
Definition marks_kept (f f' : view_t) : Prop := forall c id, done_at f c id -> done_at f' c id.
#[export] Instance marks_kept_preorder : PreOrder marks_kept.
Proof. split; [intros f c id H; exact H | intros f g h H1 H2 c id H; auto]. Qed.

Definition no_mark (key : list byte) : Prop := forall c id, key <> done_key c id.
Lemma no_mark_upd key v f : no_mark key -> marks_kept f (upd_view key v f).
Proof. intros Hk c id H. unfold done_at. rewrite upd_view_ne by apply Hk. exact H. Qed.

(** Keys under another contract. *)
Lemma other_contract (c : Address) x y : length c = 20%nat -> c <> CrossChainContractAddress -> c ++ x <> CrossChainContractAddress ++ y.
Proof. intros Hl Hc E. apply app_inj_1 in E as [E _]; [exact (Hc E) | exact Hl]. Qed.
Lemma no_mark_under c : length c = 20%nat -> c <> CrossChainContractAddress -> under no_mark c.
Proof. intros Hl Hc x chain id. apply other_contract; assumption. Qed.
Lemma no_mark_id : no_mark crossChainID_key.
Proof. intros c id E. apply app_inv_head in E. discriminate. Qed.
Lemma no_mark_request a b : no_mark (request_key a b).
Proof. intros c id E. apply app_inv_head in E. discriminate. Qed.

Section Messages.
Context {D : Type} `{HD : KVCache D} `{HB58 : Base58} {K : Keypair} {HH : Hashes} {SL : SigLib} {CE : CrossEnv}.
Implicit Types (n : @NativeService D) (s : @CrossService D).

Local Abbreviation shows s f := (kv_is (CacheDB (native s)) f).

(** What a read sees. *)
Definition raw_at (f : view_t) (key : list byte) : res (option (list byte)) :=
  match f key with None => Ok None | Some raw => let* v := GetValueFromRawStorageItem raw in Ok (Some v) end.

(** [s'] is [s] but for the cache, which shows [f']. *)
Definition with_view s (f' : view_t) s' : Prop := exists d, s' = set_native (set_DB d (native s)) s /\ kv_is d f'.

Lemma cross_Get_view s f key v s' : shows s f -> on_native (db_Get key) s = Ok (v, s') -> v = f key /\ with_view s f s'.
Proof.
  intros Hs. unfold on_native, db_Get. destruct (kv_Get_law _ _ key Hs) as (d & -> & Hd). intros [= <- <-]. split; [reflexivity|]. exists d. auto.
Qed.
Lemma get_raw_view s f key v s' : shows s f -> get_raw key s = Ok (v, s') -> raw_at f key = Ok v /\ with_view s f s'.
Proof.
  intros Hs E. unfold get_raw in E. apply st_bind_Ok in E as (o & s1 & E1 & E2). destruct (cross_Get_view _ _ _ _ _ Hs E1) as [-> Hw]. unfold raw_at.
  destruct (f key) as [raw|]; [|injection E2 as <- <-; auto]. apply st_bind_Ok in E2 as (w & s2 & E2 & E3). unfold st_lift in E2.
  destruct (GetValueFromRawStorageItem raw); [|discriminate ..]. injection E2 as <- <-. injection E3 as <- <-. auto.
Qed.
Lemma put_raw_ok s f key v s' : shows s f -> put_raw key v s = Ok ((), s') -> exists f', with_view s f' s' /\
  (forall k, k <> key -> f' k = f k) /\ (zlen v < 2 ^ 57 -> f' key = Some (raw_item v)).
Proof.
  intros Hs E. unfold put_raw, on_native, PutBytes in E. destruct (decide (zlen v < 2 ^ 57)) as [Hv|Hv].
  - destruct (TokenTheory.put_raw_view _ _ key v Hv Hs) as (d & E1 & Hd). rewrite E1 in E. injection E as <-. eexists. split; [exists d; split; [reflexivity | exact Hd]|].
    split; [intros k Hk; apply upd_view_ne; congruence | intros _; unfold upd_view; apply decide_True; reflexivity].
  - unfold put_item, st_bind, st_lift in E. destruct (SerializeToBytes _) as [raw| |]; [|discriminate ..]. unfold db_Put in E. destruct (kv_Put_law _ _ key raw Hs) as (d & E1 & Hd).
    rewrite E1 in E. injection E as <-. eexists. split; [exists d; split; [reflexivity | exact Hd]|]. split; [intros k Hk; cbn; apply decide_False; congruence | lia].
Qed.

Lemma with_shows s f s' : with_view s f s' -> shows s' f. Proof. intros (d & -> & Hd). exact Hd. Qed.
Lemma with_trans s f s1 g s2 : with_view s f s1 -> with_view s1 g s2 -> with_view s g s2.
Proof. intros (d & -> & _) (d' & -> & Hd'). exists d'. auto. Qed.

(** The check of a proof: it is good for the root, the message was not executed for this chain, and now is. *)
Lemma VerifyToOntTx_ok proof chain header s f v s' : shows s f -> VerifyToOntTx proof chain header s = Ok (v, s') ->
  exists value f', MerkleProve sha256 proof (x_CrossStateRoot header) = Ok value /\ decode ToMerkleValue_Deserialization value = Ok v /\
    ~ done_at f chain (m_CrossChainID (v_MakeTxParam v)) /\ with_view s f' s' /\ marks_kept f f' /\
    (zlen (m_CrossChainID (v_MakeTxParam v)) < 2 ^ 57 -> done_at f' chain (m_CrossChainID (v_MakeTxParam v))).
Proof.
  intros Hs E. unfold VerifyToOntTx in E. apply st_bind_Ok in E as (value & s1 & E1 & E). unfold st_lift in E1. destruct (MerkleProve _ _ _) as [b| |]; [|discriminate ..]. injection E1 as <- <-.
  apply st_bind_Ok in E as (mv & s1 & E1 & E). unfold st_lift in E1. destruct (decode _ b) as [mv'| |] eqn:Ed; [|discriminate ..]. injection E1 as <- <-.
  apply st_bind_Ok in E as ([] & s1 & E1 & E). unfold checkDoneTx in E1. apply st_bind_Ok in E1 as (o & s2 & E1 & E2). destruct (cross_Get_view _ _ _ _ _ Hs E1) as [-> Hw].
  destruct (f (done_key _ _)) as [raw|] eqn:Ef; [discriminate|]. injection E2 as <-. apply st_bind_Ok in E as ([] & s3 & E2 & E3). injection E3 as <- <-.
  destruct (put_raw_ok _ _ _ _ _ (with_shows _ _ _ Hw) E2) as (f' & Hw' & Hother & Hset). exists b, f'. split; [reflexivity|]. split; [exact Ed|].
  split; [unfold done_at; rewrite Ef; intros [? [=]]|]. split; [exact (with_trans _ _ _ _ _ Hw Hw')|]. split.
  - intros c id [x Hx]. unfold done_at. destruct (decide (done_key c id = done_key chain (m_CrossChainID (v_MakeTxParam mv')))) as [Ek|Ek]; [rewrite Ek, Ef in Hx; discriminate|].
    rewrite Hother by exact Ek. eauto.
  - intros Hl. unfold done_at. rewrite (Hset Hl). eauto.
Qed.

(** *** Trusted headers *)

Definition header_at (f : view_t) (chainID height : Z) : res (option XHeader) :=
  let* blockHash := raw_at f (index_key chainID height) in
  match blockHash with
  | None => Ok None
  | Some blockHash =>
      let* raw := raw_at f (header_key chainID blockHash) in
      match raw with None => Ok None | Some b => let* h := decode x_Deserialization b in Ok (Some h) end
  end.
Definition key_heights_at (f : view_t) (chainID : Z) : res (list Z) :=
  let* value := raw_at f (heights_key chainID) in match value with None => Ok [] | Some b => decode KeyHeights_Deserialization b end.
Definition peers_at (f : view_t) (chainID height : Z) : res ConsensusPeers :=
  let* value := raw_at f (peers_key chainID height) in
  match value with None => Err "getConsensusPeerByHeight, can not find any record" | Some b => decode ConsensusPeers_Deserialization b end.

(** The bookkeepers of the header are peers of its chain, the list is at least two thirds as long as that of the peers, and each position has signed. *)
Definition peers_signed (f : view_t) (header : XHeader) : Prop := exists heights keyHeight peers hash,
  key_heights_at f (x_ChainID header) = Ok heights /\ find_height (x_Height header) heights = Some keyHeight /\
  peers_at f (x_ChainID header) keyHeight = Ok peers /\ Z.of_nat (size (PeerMap peers)) * 2 <= zlen (x_Bookkeepers header) * 3 /\
  Forall (fun k => is_Some (PeerMap peers !! PubkeyID k)) (x_Bookkeepers header) /\
  x_Hash header = Ok hash /\ signed_by hash (x_Bookkeepers header) (zlen (x_Bookkeepers header)) (x_SigData header).

Lemma lift_Ok {A} (r : res A) s a s' : st_lift r s = Ok (a, s') -> r = Ok a /\ s' = s.
Proof. unfold st_lift. destruct r; [intros [= <- <-]; auto | discriminate ..]. Qed.

Lemma x_VerifyHeader_signed header s f s' : shows s f -> x_VerifyHeader header s = Ok ((), s') -> peers_signed f header.
Proof.
  intros Hs E. unfold x_VerifyHeader in E. apply st_bind_Ok in E as (kh & s1 & E1 & E). unfold findKeyHeight in E1. apply st_bind_Ok in E1 as (hs & s2 & E1 & E2).
  unfold GetKeyHeights in E1. apply st_bind_Ok in E1 as (o & s3 & E1 & E3). destruct (get_raw_view _ _ _ _ _ Hs E1) as [Er W3].
  assert (Ek : key_heights_at f (x_ChainID header) = Ok hs /\ s2 = s3).
  { unfold key_heights_at. rewrite Er. cbn [res_bind]. destruct o as [b|]; [exact (lift_Ok _ _ _ _ E3) | injection E3 as <- <-; auto]. }
  destruct Ek as [Ek ->]. destruct (find_height (x_Height header) hs) as [v|] eqn:Ef; [|discriminate]. injection E2 as <- <-.
  apply st_bind_Ok in E as (peers & s4 & E4 & E). unfold getConsensusPeersByHeight in E4. apply st_bind_Ok in E4 as (o' & s5 & E4 & E5).
  destruct (get_raw_view _ _ _ _ _ (with_shows _ _ _ W3) E4) as [Er' W5]. destruct o' as [b|]; [|discriminate]. apply lift_Ok in E5 as [E5 ->].
  destruct (Z.ltb_spec (zlen (x_Bookkeepers header) * 3) (Z.of_nat (size (PeerMap peers)) * 2)) as [|Hn]; [discriminate|].
  destruct (forallb _ _) eqn:Eb; [|discriminate]. cbn [negb] in E. apply st_bind_Ok in E as (hash & s6 & E6 & E7). apply lift_Ok in E6 as [E6 ->]. apply lift_Ok in E7 as [E7 ->].
  exists hs, v, peers, hash. split_and!; [exact Ek | exact Ef | unfold peers_at; rewrite Er'; exact E5 | exact Hn | | exact E6 | exact (multi_signature_sound _ _ _ _ E7)].
  apply Forall_forall. intros k Hk. rewrite forallb_forall in Eb. apply list_elem_of_In in Hk. exact (bool_decide_eq_true_1 _ (Eb k Hk)).
Qed.

Lemma header_by_height_view chain height s f o s' : shows s f -> GetHeaderByHeight chain height s = Ok (o, s') -> header_at f chain height = Ok o /\ with_view s f s'.
Proof.
  intros Hs E. unfold GetHeaderByHeight in E. apply st_bind_Ok in E as (bh & s1 & E1 & E). destruct (get_raw_view _ _ _ _ _ Hs E1) as [Er W1]. unfold header_at. rewrite Er. cbn [res_bind].
  destruct bh as [b|]; [|injection E as <- <-; auto]. apply st_bind_Ok in E as (raw & s2 & E2 & E). destruct (get_raw_view _ _ _ _ _ (with_shows _ _ _ W1) E2) as [Er2 W2]. rewrite Er2. cbn [res_bind].
  pose proof (with_trans _ _ _ _ _ W1 W2) as W12. destruct raw as [b2|]; [|injection E as <- <-; auto]. apply st_bind_Ok in E as (h & s3 & E3 & E). apply lift_Ok in E3 as [E3 ->]. injection E as <- <-.
  rewrite E3. auto.
Qed.

(** *** One peer *)

Lemma get_raw_run s f key v : shows s f -> raw_at f key = Ok v -> exists s', get_raw key s = Ok (v, s') /\ with_view s f s'.
Proof.
  intros Hs E. destruct (kv_Get_law _ _ key Hs) as (d & Eg & Hd). exists (set_native (set_DB d (native s)) s). split; [|exists d; auto].
  unfold get_raw, st_bind, on_native, db_Get. rewrite Eg. unfold raw_at in E. destruct (f key) as [raw|]; [|injection E as <-; reflexivity].
  apply res_bind_Ok in E as (w & E & [= <-]). unfold st_lift. rewrite E. reflexivity.
Qed.

(** The greedy matching takes the positions of a repeated key one after the other. *)
Lemma mark_repeated data sg k i j : s_Verify k data sg = true ->
  mark_key data sg (replicate (i + S j) k) (replicate i true ++ replicate (S j) false) = Some (replicate (S i) true ++ replicate j false).
Proof. intros Hv. induction i as [|i IH]; cbn -[replicate]; cbn [replicate app mark_key]; [rewrite Hv; reflexivity|]. cbn [replicate app] in IH. rewrite IH. reflexivity. Qed.
Lemma multi_repeated data raw sg k j : s_Deserialize raw = Some sg -> s_Verify k data sg = true ->
  forall i, multi_loop data (replicate (i + j) k) (replicate j raw) (replicate i true ++ replicate j false) = Ok ().
Proof.
  intros Hd Hv. induction j as [|j IH]; intros i; [reflexivity|]. change (replicate (S j) raw) with (raw :: replicate j raw). cbn [multi_loop]. rewrite Hd, mark_repeated by exact Hv.
  replace (i + S j)%nat with (S i + j)%nat by lia. apply IH.
Qed.

(** The checks of [x_VerifyHeader], on the storage alone: a header that passes them is accepted, and nothing is changed by looking. *)
Definition accepted (f : view_t) (header : XHeader) : Prop := exists heights keyHeight peers hash,
  key_heights_at f (x_ChainID header) = Ok heights /\ find_height (x_Height header) heights = Some keyHeight /\ peers_at f (x_ChainID header) keyHeight = Ok peers /\
  Z.of_nat (size (PeerMap peers)) * 2 <= zlen (x_Bookkeepers header) * 3 /\ Forall (fun k => is_Some (PeerMap peers !! PubkeyID k)) (x_Bookkeepers header) /\
  x_Hash header = Ok hash /\ VerifyMultiSignature hash (x_Bookkeepers header) (zlen (x_Bookkeepers header)) (x_SigData header) = Ok ().

Lemma x_VerifyHeader_run s f header : shows s f -> accepted f header -> exists s', x_VerifyHeader header s = Ok ((), s') /\ with_view s f s'.
Proof.
  intros Hs (heights & keyHeight & peers & hash & Eh & Ef & Ep & Hn & Hb & Ehash & Hv). unfold key_heights_at in Eh. apply res_bind_Ok in Eh as (o & Er & Eh). destruct (get_raw_run _ _ _ _ Hs Er) as (s1 & R1 & W1).
  unfold peers_at in Ep. apply res_bind_Ok in Ep as (o2 & Er2 & Ep). destruct o2 as [b2|]; [|discriminate]. destruct (get_raw_run _ _ _ _ (with_shows _ _ _ W1) Er2) as (s2 & R2 & W2). exists s2. split; [|exact (with_trans _ _ _ _ _ W1 W2)].
  assert (R3 : GetKeyHeights (x_ChainID header) s = Ok (heights, s1)) by (unfold GetKeyHeights; run R1; destruct o as [b|]; [unfold st_lift; rewrite Eh | injection Eh as <-]; reflexivity).
  assert (R4 : findKeyHeight (x_Height header) (x_ChainID header) s = Ok (keyHeight, s1)) by (unfold findKeyHeight; run R3; rewrite Ef; reflexivity).
  assert (R5 : getConsensusPeersByHeight (x_ChainID header) keyHeight s1 = Ok (peers, s2)) by (unfold getConsensusPeersByHeight; run R2; unfold st_lift; rewrite Ep; reflexivity).
  unfold x_VerifyHeader. run R4. run R5. rewrite Ehash, (proj2 (Z.ltb_ge _ _)) by lia.
  assert (Hall : forallb (fun bookkeeper => bool_decide (is_Some (PeerMap peers !! PubkeyID bookkeeper))) (x_Bookkeepers header) = true).
  { apply forallb_forall. intros x Hx. apply list_elem_of_In in Hx. rewrite Forall_forall in Hb. apply bool_decide_eq_true, Hb, Hx. }
  rewrite Hall. cbn [negb]. unfold st_bind, st_lift. rewrite Hv. reflexivity.
Qed.

(** C39: the peers that sign a header are not required to be distinct.  A header that lists one and the same peer [m] times, with the same signature
    [m] times, is accepted as soon as [m] is two thirds of the number of peers: a single peer can have any header accepted, and with it any
    cross-chain root. *)
Theorem one_peer_signs_for_all s f (header : XHeader) heights keyHeight peers (k : PublicKey) m raw sg hash :
  shows s f -> key_heights_at f (x_ChainID header) = Ok heights -> find_height (x_Height header) heights = Some keyHeight ->
  peers_at f (x_ChainID header) keyHeight = Ok peers -> is_Some (PeerMap peers !! PubkeyID k) -> Z.of_nat (size (PeerMap peers)) * 2 <= Z.of_nat m * 3 ->
  x_Bookkeepers header = replicate m k -> x_SigData header = replicate m raw -> x_Hash header = Ok hash ->
  s_Deserialize raw = Some sg -> s_Verify k hash sg = true -> exists s', x_VerifyHeader header s = Ok ((), s').
Proof.
  intros Hs Eh Ef Ep Hk Hn Eb Esig Ehash Hd Hv. destruct (x_VerifyHeader_run s f header Hs) as (s' & E & _); [|exists s'; exact E].
  exists heights, keyHeight, peers, hash. rewrite Eb, Esig. unfold zlen. rewrite length_replicate. split_and!; try assumption; [apply Forall_replicate; exact Hk|].
  unfold VerifyMultiSignature, zlen. rewrite !length_replicate, Z.ltb_irrefl, Nat2Z.id, take_ge by (rewrite length_replicate; lia).
  pose proof (multi_repeated hash raw sg k m Hd Hv 0) as Hm. cbn [Nat.add replicate app] in Hm. rewrite Hm. reflexivity.
Qed.

(** *** What a successful call of [ProcessCrossChainTx] has checked *)

(** The message a call carries, read from its parameters alone. *)
Definition proof_message (args : list byte) : res (Z * ToMerkleValue) :=
  let* params := decode ProcessCrossChainTxParam_Deserialization args in
  let* proof := hex_DecodeString (pr_Proof params) in
  let* '((value, _, _, _), _) := Source.NextVarBytes (NewZeroCopySource proof) in
  let* v := decode ToMerkleValue_Deserialization value in
  Ok (pr_FromChainID params, v).

(** The parameters, the proof in them, a header the storage [f] trusts, the value proved and the message in it. *)
Definition checked_message (f : view_t) (args : list byte) (params : ProcessCrossChainTxParam) (header : XHeader) (v : ToMerkleValue) : Prop := exists proof value,
  decode ProcessCrossChainTxParam_Deserialization args = Ok params /\ hex_DecodeString (pr_Proof params) = Ok proof /\
  (header_at f (pr_FromChainID params) (pr_Height params) = Ok (Some header) \/
   header_at f (pr_FromChainID params) (pr_Height params) = Ok None /\ decode x_Deserialization (pr_Header params) = Ok header /\ peers_signed f header) /\
  MerkleProve sha256 proof (x_CrossStateRoot header) = Ok value /\ decode ToMerkleValue_Deserialization value = Ok v /\
  m_ToChainID (v_MakeTxParam v) = ONT_CHAIN_ID /\ ~ done_at f (pr_FromChainID params) (m_CrossChainID (v_MakeTxParam v)).

Lemma checked_message_proof f args params header v : checked_message f args params header v -> proof_message args = Ok (pr_FromChainID params, v).
Proof.
  intros (proof & value & E1 & E2 & _ & E3 & E4 & _). unfold proof_message. rewrite E1. cbn [res_bind]. rewrite E2. cbn [res_bind]. unfold MerkleProve in E3.
  apply res_bind_Ok in E3 as (((((val & sz) & irr) & eof) & src) & E5 & E3). rewrite E5. cbn [res_bind]. destruct (eof || irr); [discriminate|].
  apply res_bind_Ok in E3 as ((hash & src') & _ & E3). destruct (bool_decide _); [|discriminate]. injection E3 as ->. rewrite E4. reflexivity.
Qed.

Lemma checked_message_is f args params header v c w : checked_message f args params header v -> proof_message args = Ok (c, w) -> pr_FromChainID params = c /\ v = w.
Proof. intros H E. rewrite (checked_message_proof _ _ _ _ _ H) in E. injection E as <- <-. auto. Qed.

Local Abbreviation keeps ctx m := (xevolves marks_kept ctx m).

Lemma keeps_Verify ctx p c h : keeps ctx (VerifyToOntTx p c h).
Proof.
  intros s f v s' Hc Hm Hs E. destruct (VerifyToOntTx_ok _ _ _ _ _ _ _ Hs E) as (value & f' & _ & _ & _ & (d & -> & Hd) & Hk & _).
  split; [exact Hc|]. split; [exact Hm|]. exists f'. auto.
Qed.

Lemma no_marks_ont : under no_mark OntContractAddress. Proof. apply no_mark_under; [reflexivity | discriminate]. Qed.
Lemma no_marks_ong : under no_mark OngContractAddress. Proof. apply no_mark_under; [reflexivity | discriminate]. Qed.
Lemma no_marks_sync : under no_mark HeaderSyncContractAddress. Proof. apply no_mark_under; [reflexivity | discriminate]. Qed.
Lemma no_marks_proxy : under no_mark LockProxyContractAddress. Proof. apply no_mark_under; [reflexivity | discriminate]. Qed.

Section Process.
Variable call : Address -> string -> list byte -> @CM D (list byte).
Variable neovm_call : Address -> list byte -> list byte -> list byte -> Z -> @CM D Z.
Variable ctx : list Address.
Hypothesis call_keeps : forall m args, keeps ctx (call LockProxyContractAddress m args).
Hypothesis neovm_keeps : forall a b c d e, keeps ctx (neovm_call a b c d e).

Lemma proof_header_ok params s f header s' : Contexts (ContextRef (native s)) = ctx -> methods_ok s -> shows s f -> proof_header params s = Ok (header, s') ->
  (header_at f (pr_FromChainID params) (pr_Height params) = Ok (Some header) \/
   header_at f (pr_FromChainID params) (pr_Height params) = Ok None /\ decode x_Deserialization (pr_Header params) = Ok header /\ peers_signed f header) /\
  Contexts (ContextRef (native s')) = ctx /\ methods_ok s' /\ exists f', shows s' f' /\ marks_kept f f'.
Proof.
  intros Hc Hm Hs E. unfold proof_header in E. apply st_bind_Ok in E as (o & s1 & E1 & E). destruct (header_by_height_view _ _ _ _ _ _ Hs E1) as [Eh (d & -> & Hd)].
  destruct o as [h|].
  - injection E as <- <-. split; [left; exact Eh|]. split; [exact Hc|]. split; [exact Hm|]. exists f. split; [exact Hd | reflexivity].
  - apply st_bind_Ok in E as (h2 & s2 & E2 & E). apply lift_Ok in E2 as [E2 ->]. apply st_bind_Ok in E as ([] & s3 & E3 & E). injection E as <- <-.
    split; [|exact (xe_ProcessHeader marks_kept no_mark no_mark_upd no_marks_sync ctx h2 _ (set_native (set_DB d (native s)) s) f _ _ Hc Hm Hd E3)].
    right. split; [exact Eh|]. split; [exact E2|]. unfold ProcessHeader in E3. apply st_bind_Ok in E3 as ([] & s4 & E4 & _). exact (x_VerifyHeader_signed _ (set_native (set_DB d (native s)) s) _ _ Hd E4).
Qed.

Lemma process_ok s f r s' : Contexts (ContextRef (native s)) = ctx -> methods_ok s -> shows s f -> ProcessCrossChainTx call neovm_call s = Ok (r, s') ->
  exists params header v f', checked_message f (Input (native s)) params header v /\ shows s' f' /\
    (zlen (m_CrossChainID (v_MakeTxParam v)) < 2 ^ 57 -> done_at f' (pr_FromChainID params) (m_CrossChainID (v_MakeTxParam v))).
Proof.
  intros Hc Hm Hs E. unfold ProcessCrossChainTx in E. apply st_bind_Ok in E as (params & s1 & E1 & E).
  unfold x_input, on_native, input, st_lift in E1. destruct (decode _ (Input (native s))) as [p'| |] eqn:Ep; [|discriminate ..]. injection E1 as <- <-.
  apply st_bind_Ok in E as (header & s2 & E2 & E). destruct (proof_header_ok p' (set_native (native s) s) f _ _ Hc Hm Hs E2) as (Hh & Hc2 & Hm2 & f2 & Hs2 & K2).
  apply st_bind_Ok in E as (proof & s3 & E3 & E). apply lift_Ok in E3 as [E3 ->]. apply st_bind_Ok in E as (v & s4 & E4 & E).
  destruct (VerifyToOntTx_ok _ _ _ _ _ _ _ Hs2 E4) as (value & f4 & Ev & Ed & Hnd & (d & -> & Hd) & K4 & Hdone). unfold execute_message in E. cbn zeta in E.
  destruct (Z.eqb_spec (m_ToChainID (v_MakeTxParam v)) ONT_CHAIN_ID) as [Eto|]; [|discriminate]. cbn [negb] in E.
  assert (Hrest : exists f', shows s' f' /\ marks_kept f4 f').
  { apply st_bind_Ok in E as (dest & s5 & E5 & E). apply lift_Ok in E5 as [_ ->]. destruct (bool_decide _).
    - apply st_bind_Ok in E as (args & s6 & E6 & E). apply lift_Ok in E6 as [_ ->]. apply st_bind_Ok in E as (r7 & s7 & E7 & E). injection E as <- <-.
      destruct (call_keeps _ _ (set_native (set_DB d (native s2)) s2) f4 _ _ Hc2 Hm2 Hd E7) as (_ & _ & H). exact H.
    - apply st_bind_Ok in E as (r7 & s7 & E7 & E). destruct (neovm_keeps _ _ _ _ _ (set_native (set_DB d (native s2)) s2) f4 _ _ Hc2 Hm2 Hd E7) as (_ & _ & H). destruct (r7 =? 0); [discriminate|]. injection E as <- <-. exact H. }
  destruct Hrest as (f' & Hs' & K'). exists p', header, v, f'. split; [|split; [exact Hs' | intros Hl; apply K', Hdone, Hl]].
  exists proof, value. split_and!; [exact Ep | exact E3 | exact Hh | exact Ev | exact Ed | exact Eto|]. intros H. apply Hnd, K2, H.
Qed.

End Process.

(** *** Calls and sequences of calls *)

Section Calls.
Variable neovm_call : Address -> list byte -> list byte -> list byte -> Z -> @CM D Z.
(** A NeoVM contract does not remove marks: its storage is under its own address. *)
Hypothesis neovm_keeps : forall ctx a b c d e, keeps ctx (neovm_call a b c d e).

(** The service a transaction starts with. *)
Definition fresh s : Prop := methods s = ∅ /\ ServiceMap (native s) = ∅ /\ Contexts (ContextRef (native s)) <> [].

Definition PROCESS_CROSS_CHAIN_TX : string := "processCrossChainTx".

Lemma fresh_ok s : fresh s -> methods_ok s.
Proof. intros (E & _) name h H. rewrite E, lookup_empty in H. discriminate. Qed.

Lemma call_keeps_marks fuel address m args s f r s' : admissible address m s -> Contexts (ContextRef (native s)) <> [] -> methods_ok s -> shows s f ->
  CrossCall neovm_call fuel address m args s = Ok (r, s') ->
  Contexts (ContextRef (native s')) = Contexts (ContextRef (native s)) /\ methods_ok s' /\ exists f', shows s' f' /\ marks_kept f f'.
Proof.
  apply (ev_CrossCall marks_kept no_mark no_mark_upd no_marks_ont no_marks_ong no_marks_sync no_marks_proxy no_mark_id no_mark_request neovm_call neovm_keeps keeps_Verify).
Qed.

Lemma process_call fuel args s f r s' : fresh s -> shows s f -> CrossCall neovm_call fuel CrossChainContractAddress PROCESS_CROSS_CHAIN_TX args s = Ok (r, s') ->
  exists params header v f', checked_message f args params header v /\ shows s' f' /\
    (zlen (m_CrossChainID (v_MakeTxParam v)) < 2 ^ 57 -> done_at f' (pr_FromChainID params) (m_CrossChainID (v_MakeTxParam v))).
Proof.
  intros Hf Hs E. destruct Hf as (Em & Es & Hne). destruct fuel as [|fuel]; [discriminate|]. cbn [CrossCall] in E. unfold register in E. rewrite decide_True in E by reflexivity.
  rewrite Em in E. set (s0 := set_methods _ s) in E. change (methods s0 !! PROCESS_CROSS_CHAIN_TX) with (Some H_ProcessCrossChainTx) in E. cbn iota in E.
  apply st_bind_Ok in E as (r1 & s1 & E1 & E2). unfold st_bind in E2. injection E2 as <- <-. cbn [run_cross] in E1.
  assert (Hm0 : methods_ok s0) by (refine (added_ok RegisterCrossChainContract ∅ _ _); [intros x Hx; apply elem_of_app; left; exact Hx | intros name h H; rewrite lookup_empty in H; discriminate]).
  eapply (process_ok _ _ (Contexts (ContextRef (native s)) ++ [CrossChainContractAddress])) with (f := f) in E1 as (params & header & v & f' & Hc & Hs' & Hd);
    [exists params, header, v, f'; split; [exact Hc|]; split; [exact Hs' | exact Hd] | | apply neovm_keeps | reflexivity | exact Hm0 | exact Hs].
  intros m' args' s2 f2 r2 s2' Hc2 Hm2 Hn2 E2. rewrite <- Hc2. refine (call_keeps_marks fuel _ _ _ s2 f2 _ _ _ _ Hm2 Hn2 E2); [left; discriminate|].
  rewrite Hc2. intros H. apply app_eq_nil in H as [_ [=]].
Qed.

(** One transaction that calls a contract and succeeds, as the storage sees it. *)
Definition cross_step (d d' : D) : Prop := exists fuel address m args s r s',
  fresh s /\ CacheDB (native s) = d /\ CrossCall neovm_call fuel address m args s = Ok (r, s') /\ CacheDB (native s') = d'.

Lemma steps_keep_marks d d' f : rtc cross_step d d' -> kv_is d f -> exists f', kv_is d' f' /\ marks_kept f f'.
Proof.
  intros H. revert f. induction H as [d|d d1 d' (fuel & address & m & args & s & r & s' & Hf & <- & E & <-) _ IH]; intros f Hf0; [exists f; split; [exact Hf0 | reflexivity]|].
  destruct (call_keeps_marks _ _ _ _ _ f _ _ (or_intror (or_intror (conj (proj1 Hf) (proj1 (proj2 Hf))))) (proj2 (proj2 Hf)) (fresh_ok _ Hf) Hf0 E) as (_ & _ & f1 & Hf1 & K1).
  destruct (IH f1 Hf1) as (f2 & Hf2 & K2). exists f2. split; [exact Hf2 | etransitivity; eassumption].
Qed.

(** C37: a message of another chain is executed only if it is proved.  When a call of [processCrossChainTx] succeeds, its parameters decode, its
    proof leads to the cross-chain root of a header, and that header is the stored one of the chain and height named in the call or, when none is
    stored, one that came with the call and was signed by listed peers of the header's chain; the value proved is a message addressed to this
    chain, and it had not been executed under the chain named in the call. *)
Theorem cross_message_authenticated fuel args s f r s' : fresh s -> shows s f ->
  CrossCall neovm_call fuel CrossChainContractAddress PROCESS_CROSS_CHAIN_TX args s = Ok (r, s') ->
  exists params header v, checked_message f args params header v.
Proof. intros Hf Hs E. destruct (process_call _ _ _ _ _ _ Hf Hs E) as (params & header & v & _ & Hc & _). eauto. Qed.

(** C12: a message is executed at most once for each chain named by the caller.  After a call of [processCrossChainTx] has succeeded with a message,
    and after any sequence of further successful calls of the cross-chain and token contracts by any transactions, whatever they pass as proofs,
    no call with a message of the same identifier and the same named chain succeeds. *)
Theorem cross_message_once fuel1 args1 s1 f r1 s1' s2 chain v1 args2 v2 fuel2 r2 s2' :
  fresh s1 -> shows s1 f -> CrossCall neovm_call fuel1 CrossChainContractAddress PROCESS_CROSS_CHAIN_TX args1 s1 = Ok (r1, s1') ->
  proof_message args1 = Ok (chain, v1) -> zlen (m_CrossChainID (v_MakeTxParam v1)) < 2 ^ 57 ->
  rtc cross_step (CacheDB (native s1')) (CacheDB (native s2)) -> fresh s2 ->
  proof_message args2 = Ok (chain, v2) -> m_CrossChainID (v_MakeTxParam v2) = m_CrossChainID (v_MakeTxParam v1) ->
  CrossCall neovm_call fuel2 CrossChainContractAddress PROCESS_CROSS_CHAIN_TX args2 s2 <> Ok (r2, s2').
Proof.
  intros Hf1 Hs1 E1 Hp1 Hl Hsteps Hf2 Hp2 Hid E2. destruct (process_call _ _ _ _ _ _ Hf1 Hs1 E1) as (params1 & h1 & w1 & f1 & Hc1 & Hs1' & Hd1).
  destruct (checked_message_is _ _ _ _ _ _ _ Hc1 Hp1) as [<- ->]. destruct (steps_keep_marks _ _ _ Hsteps Hs1') as (f2 & Hs2 & K2).
  destruct (process_call _ _ _ _ _ _ Hf2 Hs2 E2) as (params2 & h2 & w2 & _ & Hc2 & _). destruct (checked_message_is _ _ _ _ _ _ _ Hc2 Hp2) as [Ep ->].
  destruct Hc2 as (proof & value & _ & _ & _ & _ & _ & _ & Hn). apply Hn. rewrite Ep, Hid. apply K2, Hd1, Hl.
Qed.


(** *** Messages executed again *)

Lemma put_raw_run s f key v : shows s f -> zlen v < 2 ^ 57 -> exists s', put_raw key v s = Ok ((), s') /\ with_view s (upd_view key (Some (raw_item v)) f) s'.
Proof.
  intros Hs Hv. destruct (TokenTheory.put_raw_view _ _ key v Hv Hs) as (d & E & Hd). exists (set_native (set_DB d (native s)) s). split; [|exists d; auto].
  unfold put_raw, on_native, PutBytes. rewrite E. reflexivity.
Qed.

(** The keys under which a header is put: all of the header sync contract, and of the header's own chain. *)
Definition put_header (header : XHeader) (hash raw : list byte) (f : view_t) : view_t :=
  upd_view (current_key (x_ChainID header)) (Some (raw_item (z2le 4 (x_Height header))))
    (upd_view (index_key (x_ChainID header) (x_Height header)) (Some (raw_item hash)) (upd_view (header_key (x_ChainID header) hash) (Some (raw_item raw)) f)).

Lemma ProcessHeader_run s f header hash raw : shows s f -> accepted f header -> x_Hash header = Ok hash -> zlen raw < 2 ^ 57 -> NewChainConfig_Peers (x_ConsensusPayload header) = Ok None ->
  exists s', ProcessHeader header raw s = Ok ((), s') /\ with_view s (put_header header hash raw f) s'.
Proof.
  intros Hs Ha Eh Hr Hc. destruct (x_VerifyHeader_run _ _ _ Hs Ha) as (s1 & R1 & W1). assert (Hh : zlen hash < 2 ^ 57).
  { unfold x_Hash in Eh. apply res_bind_Ok in Eh as (b & _ & [= <-]). rewrite sha256_length. lia. }
  destruct (put_raw_run _ _ (header_key (x_ChainID header) hash) raw (with_shows _ _ _ W1) Hr) as (s2 & R2 & W2).
  destruct (put_raw_run _ _ (index_key (x_ChainID header) (x_Height header)) hash (with_shows _ _ _ W2) Hh) as (s3 & R3 & W3).
  destruct (put_raw_run _ _ (current_key (x_ChainID header)) (z2le 4 (x_Height header)) (with_shows _ _ _ W3) ltac:(rewrite zlen_z2le; lia)) as (s4 & R4 & W4).
  exists s4. split; [|exact (with_trans _ _ _ _ _ (with_trans _ _ _ _ _ (with_trans _ _ _ _ _ W1 W2) W3) W4)].
  assert (Eh' : st_lift (S := @CrossService D) (x_Hash header) s1 = Ok (hash, s1)) by (unfold st_lift; rewrite Eh; reflexivity).
  assert (R : PutBlockHeader header raw s1 = Ok ((), s4)) by (unfold PutBlockHeader; run Eh'; run R2; run R3; exact R4).
  assert (R' : UpdateConsensusPeer header s4 = Ok ((), s4)) by (unfold UpdateConsensusPeer, st_bind, st_lift; rewrite Hc; reflexivity).
  unfold ProcessHeader. run R1. run R. exact R'.
Qed.

Lemma header_by_height_run chain height s f : shows s f -> header_at f chain height = Ok None -> exists s', GetHeaderByHeight chain height s = Ok (None, s') /\ with_view s f s'.
Proof.
  intros Hs E. unfold header_at in E. apply res_bind_Ok in E as (bh & E1 & E). destruct (get_raw_run _ _ _ _ Hs E1) as (s1 & R1 & W1). destruct bh as [b|].
  - apply res_bind_Ok in E as (raw & E2 & E). destruct raw as [r|]; [apply res_bind_Ok in E as (h & _ & [=])|]. destruct (get_raw_run _ _ _ _ (with_shows _ _ _ W1) E2) as (s2 & R2 & W2).
    exists s2. split; [unfold GetHeaderByHeight; run R1; run R2; reflexivity | exact (with_trans _ _ _ _ _ W1 W2)].
  - exists s1. split; [unfold GetHeaderByHeight; run R1; reflexivity | exact W1].
Qed.

Lemma VerifyToOntTx_run proof chain header s f value v : shows s f -> MerkleProve sha256 proof (x_CrossStateRoot header) = Ok value -> decode ToMerkleValue_Deserialization value = Ok v ->
  let id := m_CrossChainID (v_MakeTxParam v) in ~ done_at f chain id -> zlen id < 2 ^ 57 ->
  exists s', VerifyToOntTx proof chain header s = Ok (v, s') /\ with_view s (upd_view (done_key chain id) (Some (raw_item id)) f) s'.
Proof.
  intros Hs Ep Ed id Hn Hl. destruct (kv_Get_law _ _ (done_key chain id) Hs) as (d & Eg & Hd). set (s1 := set_native (set_DB d (native s)) s).
  assert (R1 : checkDoneTx id chain s = Ok ((), s1)).
  { unfold checkDoneTx, st_bind, on_native, db_Get. rewrite Eg. destruct (f (done_key chain id)) as [x|] eqn:Ef; [destruct Hn; exists x; exact Ef | reflexivity]. }
  assert (Hs1 : shows s1 f) by exact Hd. destruct (put_raw_run s1 f (done_key chain id) id Hs1 Hl) as (s2 & R2 & W2). exists s2.
  split; [|eapply with_trans; [|exact W2]; exists d; split; [reflexivity | exact Hd]].
  assert (E1 : st_lift (S := @CrossService D) (MerkleProve sha256 proof (x_CrossStateRoot header)) s = Ok (value, s)) by (unfold st_lift; rewrite Ep; reflexivity).
  assert (E2 : st_lift (S := @CrossService D) (decode ToMerkleValue_Deserialization value) s = Ok (v, s)) by (unfold st_lift; rewrite Ed; reflexivity).
  unfold VerifyToOntTx. run E1. run E2. fold id. run R1. unfold putDoneTx. run R2. reflexivity.
Qed.

(** C40: the manager does not compare the chain named in a call with the chain of the header it is given, and keeps its marks under the chain named.  Take any
    storage, any header that [VerifyHeader] accepts there (with no new peers in it) and any message proved by it, whatever marks the message has.  Under every
    name for which no header of the height is stored and which has no mark for the message, a call with this header and this proof
    executes the message in full: what the call returns and does is what [execute_message] does, after the header was put under its own chain and the
    mark under the name; the marks under other names, one of which may be that of an earlier execution, neither prevent it nor change. *)
Theorem cross_message_replayed call s f params header hash proof value v : shows s f ->
  decode ProcessCrossChainTxParam_Deserialization (Input (native s)) = Ok params -> decode x_Deserialization (pr_Header params) = Ok header ->
  accepted f header -> x_Hash header = Ok hash -> NewChainConfig_Peers (x_ConsensusPayload header) = Ok None ->
  hex_DecodeString (pr_Proof params) = Ok proof -> MerkleProve sha256 proof (x_CrossStateRoot header) = Ok value -> decode ToMerkleValue_Deserialization value = Ok v ->
  let id := m_CrossChainID (v_MakeTxParam v) in let name := pr_FromChainID params in
  zlen (pr_Header params) < 2 ^ 57 -> zlen id < 2 ^ 57 ->
  header_at f name (pr_Height params) = Ok None -> ~ done_at f name id ->
  exists s1 f1, ProcessCrossChainTx call neovm_call s = execute_message call neovm_call v s1 /\ with_view s f1 s1 /\
    (forall k, k <> done_key name id -> f1 k = put_header header hash (pr_Header params) f k) /\ done_at f1 name id /\
    (forall c i, done_key c i <> done_key name id -> done_at f1 c i <-> done_at f c i).
Proof.
  intros Hs Ep Eh Ha Ehash Hc Ehex Eprove Ev id name Hr Hl Hnone Hn.
  assert (R0 : x_input ProcessCrossChainTxParam_Deserialization s = Ok (params, s)) by (unfold x_input, on_native, input, st_lift; rewrite Ep; destruct s; reflexivity).
  destruct (header_by_height_run _ _ _ _ Hs Hnone) as (s1 & R1 & W1). destruct (ProcessHeader_run _ _ _ _ _ (with_shows _ _ _ W1) Ha Ehash Hr Hc) as (s2 & R2 & W2).
  assert (Hmark : forall c i, put_header header hash (pr_Header params) f (done_key c i) = f (done_key c i)).
  { intros c i. unfold put_header. rewrite !upd_view_ne; [reflexivity | ..]; apply other_contract; reflexivity || discriminate. }
  destruct (VerifyToOntTx_run proof name header s2 _ value v (with_shows _ _ _ W2) Eprove Ev) as (s3 & R3 & W3); [unfold done_at; rewrite Hmark; exact Hn | exact Hl|].
  eexists s3, _. split; [|split; [exact (with_trans _ _ _ _ _ (with_trans _ _ _ _ _ W1 W2) W3)|]].
  - assert (E1 : st_lift (S := @CrossService D) (decode x_Deserialization (pr_Header params)) s1 = Ok (header, s1)) by (unfold st_lift; rewrite Eh; reflexivity).
    assert (E2 : st_lift (S := @CrossService D) (hex_DecodeString (pr_Proof params)) s2 = Ok (proof, s2)) by (unfold st_lift; rewrite Ehex; reflexivity).
    assert (R : proof_header params s = Ok (header, s2)) by (unfold proof_header; run R1; run E1; run R2; reflexivity).
    unfold ProcessCrossChainTx. run R0. run R. run E2. run R3. reflexivity.
  - split; [intros k Hk; apply upd_view_ne, not_eq_sym, Hk|]. split; [unfold done_at, upd_view; rewrite decide_True by reflexivity; eauto|].
    intros c i Hk. unfold done_at. rewrite upd_view_ne by (apply not_eq_sym, Hk). rewrite Hmark. reflexivity.
Qed.

(** *** Amounts locked *)

(** What a contract other than the proxy leaves alone. *)
Definition proxy_same (f f' : view_t) : Prop := forall x, f' (LockProxyContractAddress ++ x) = f (LockProxyContractAddress ++ x).
Definition off_proxy (key : list byte) : Prop := forall x, key <> LockProxyContractAddress ++ x.
#[local] Instance proxy_same_preorder : PreOrder proxy_same.
Proof. split; [intros f x; reflexivity | intros f g h H1 H2 x; rewrite H2; apply H1]. Qed.
Lemma off_proxy_upd key v f : off_proxy key -> proxy_same f (upd_view key v f).
Proof. intros H x. apply upd_view_ne, H. Qed.
Lemma off_proxy_under c : length c = 20%nat -> c <> LockProxyContractAddress -> under off_proxy c.
Proof. intros Hl Hc x y E. apply app_inj_1 in E as [E _]; [exact (Hc E) | exact Hl]. Qed.
Lemma off_proxy_ont : under off_proxy OntContractAddress. Proof. apply off_proxy_under; [reflexivity | discriminate]. Qed.
Lemma off_proxy_ong : under off_proxy OngContractAddress. Proof. apply off_proxy_under; [reflexivity | discriminate]. Qed.
Lemma off_proxy_cross : under off_proxy CrossChainContractAddress. Proof. apply off_proxy_under; [reflexivity | discriminate]. Qed.

(** A call from the proxy: what it leaves of the service. *)
Definition same_frame s s' : Prop :=
  Contexts (ContextRef (native s')) = Contexts (ContextRef (native s)) /\ methods_ok s' /\ Input (native s') = Input (native s) /\ CrossHashes s' = CrossHashes s /\ x_TxHash s' = x_TxHash s.

Lemma run_handler_rest fuel h s r s' : on_native (run_handler (NativeCall fuel) h) s = Ok (r, s') ->
  methods s' = methods s /\ CrossHashes s' = CrossHashes s /\ sc_CrossHashes s' = sc_CrossHashes s /\ x_TxHash s' = x_TxHash s.
Proof. unfold on_native. destruct (run_handler _ _ _) as [[r0 n']|e|]; [|discriminate ..]. intros [= <- <-]. auto. Qed.

Lemma token_name_free s name : methods_ok s -> name ∉ map fst cross_methods -> methods s !! name = None.
Proof.
  intros Hm Hn. destruct (methods s !! name) as [h|] eqn:Eh; [|reflexivity]. apply Hm in Eh. exfalso. apply Hn, list_elem_of_fmap. exists (name, h). auto.
Qed.

Lemma token_call fuel asset args s f r s' : asset = OntContractAddress \/ asset = OngContractAddress -> Contexts (ContextRef (native s)) <> [] -> methods_ok s -> shows s f ->
  CrossCall neovm_call fuel asset TRANSFER_NAME args s = Ok (r, s') ->
  same_frame s s' /\ sc_CrossHashes s' = sc_CrossHashes s /\ exists f', shows s' f' /\ proxy_same f f'.
Proof.
  intros Ha Hne Hm Hs E. destruct fuel as [|fuel]; [discriminate|]. cbn [CrossCall] in E.
  assert (Hu : under off_proxy asset) by (destruct Ha as [-> | ->]; [exact off_proxy_ont | exact off_proxy_ong]).
  assert (Er : exists l, register asset s = Some (set_native (set_ServiceMap (foldl (fun m x => <[fst x := snd x]> m) (ServiceMap (native s)) l) (native s)) s)) by (destruct Ha as [-> | ->]; eexists; reflexivity).
  destruct Er as [l Er]. rewrite Er in E. set (s0 := set_native _ s) in E. assert (Hno : methods s0 !! TRANSFER_NAME = None).
  { apply token_name_free; [exact Hm | apply (bool_decide_unpack _); vm_compute; exact I]. }
  rewrite Hno in E. destruct (ServiceMap (native s0) !! TRANSFER_NAME) as [h|]; [|discriminate]. apply st_bind_Ok in E as (r1 & s1 & E1 & E2). unfold st_bind in E2. injection E2 as <- <-.
  destruct (run_handler_rest _ _ _ _ _ E1) as (M1 & H1 & H2 & H3).
  assert (Hx : xevolves proxy_same (Contexts (ContextRef (native s)) ++ [asset]) (on_native (run_handler (NativeCall fuel) h))).
  { apply xe_native, (ev_run_handler proxy_same off_proxy off_proxy_upd) with (c := asset); [|apply last_snoc | exact Hu].
    intros m' args'. apply (ev_NativeCall proxy_same off_proxy off_proxy_upd off_proxy_ont off_proxy_ong). intros H. apply app_eq_nil in H as [_ [=]]. }
  destruct (Hx (enter asset args s0) f r1 s1 eq_refl Hm Hs E1) as (Hc1 & Hm1 & f1 & Hs1 & R1). unfold same_frame. cbn. rewrite H1, H2, H3. cbn. rewrite app_nil_r.
  split; [|split; [reflexivity | exists f1; auto]]. split_and!; auto. eapply context_popped; [exact Hne | exact Hc1].
Qed.

(** *** Payments *)

(** What a cache shows is one map. *)
Lemma kv_unique (d : D) f g : kv_is d f -> kv_is d g -> forall k, f k = g k.
Proof. intros H1 H2 k. destruct (kv_Get_law _ _ k H1) as (d1 & E1 & _), (kv_Get_law _ _ k H2) as (d2 & E2 & _). congruence. Qed.

(** An amount of 64 bits is written as an [int64]: one that does not fit is read as negative and refused. *)
Lemma zlen_neo_s64 z : - 2 ^ 63 <= z < 0 -> zlen (BigIntToNeoBytes z) <= 9.
Proof.
  intros Hz. destruct (zlen_ToNeo z ltac:(lia)) as [Hl|Hl]; [|lia]. rewrite (proj2 (Z.ltb_lt z 0)) in Hl by lia.
  destruct (Z.le_gt_cases (zlen (BigIntToNeoBytes z)) 9) as [|Hgt]; [assumption|]. pose proof (Z.pow_le_mono_r 256 9 (zlen (BigIntToNeoBytes z) - 1)). lia.
Qed.
Lemma negative_refused from to z : addr_ok from -> addr_ok to -> - 2 ^ 63 <= z < 0 ->
  forall t, decode Des.Transfers (enc_uint 1 ++ (enc_varbytes from ++ enc_varbytes to ++ enc_varbytes (BigIntToNeoBytes z)) ++ []) <> Ok t.
Proof.
  intros Hf Ht Hz t. pose proof (zlen_neo_s64 z Hz) as Hn. unfold addr_ok, ADDR_LEN in *. set (b := _ ++ _). assert (Hw : zlen b < 2 ^ 63).
  { unfold b, enc_uint, enc_varbytes. rewrite !zlen_app, zlen_nil, Hf, Ht. pose proof (zlen_neo 1 ltac:(lia)). pose proof (zlen_enc_varuint 20). pose proof (getVarUintSize_bounds 20).
    pose proof (zlen_enc_varuint (zlen (BigIntToNeoBytes z))). pose proof (getVarUintSize_bounds (zlen (BigIntToNeoBytes z))).
    pose proof (zlen_enc_varuint (zlen (BigIntToNeoBytes 1))). pose proof (getVarUintSize_bounds (zlen (BigIntToNeoBytes 1))). lia. }
  pose proof (Source.wf_new_source b Hw) as W0. assert (R0 : Source.rest (NewZeroCopySource b) = b) by reflexivity. unfold b in R0 at 2. rewrite <- !app_assoc in R0.
  unfold decode, Des.Transfers. rewrite (st_bind_eq _ _ _ _ _ (parses_DecodeVarUint 1 ltac:(lia) _ _ W0 R0)). destruct (rest_adv_app _ _ _ W0 R0) as [W1 R1].
  set (s1 := Source.adv _ _) in *. unfold st_bind at 1, st_get at 1. cbn [Des.states Z.ltb Z.compare]. unfold Des.State.
  pose proof (parses_DecodeAddress from Hf s1 _ W1 R1) as E1. destruct (rest_adv_app _ _ _ W1 R1) as [W2 R2]. set (s2 := Source.adv _ s1) in *.
  pose proof (parses_DecodeAddress to Ht s2 _ W2 R2) as E2. destruct (rest_adv_app _ _ _ W2 R2) as [W3 R3]. set (s3 := Source.adv _ s2) in *.
  pose proof (parses_DecodeVarBytes (BigIntToNeoBytes z) ltac:(lia) s3 _ W3 R3) as E3.
  assert (E : DecodeVarUint s3 = Err "value should not be a negative number.").
  { unfold DecodeVarUint. rewrite (st_bind_eq _ _ _ _ _ E3). cbv zeta. rewrite FromNeo_twos, twos_ToNeo, (proj2 (Z.ltb_lt z 0)) by lia. reflexivity. }
  unfold st_bind. rewrite E1, E2, E. discriminate.
Qed.

Lemma transfer_input_read from to v b t : addr_ok from -> addr_ok to -> 0 <= v < 2 ^ 64 -> getTransferInput (mkState from to v) = Ok b ->
  decode Des.Transfers b = Ok t -> t = mkTransfers [mkState from to v].
Proof.
  intros Hf Ht Hv Eb Et. destruct (Z.lt_ge_cases v (2 ^ 63)) as [Hs|Hs].
  - assert (Hok : wire_ok (mkTransfers [mkState from to v])) by (split; [repeat constructor; cbn; auto; lia | reflexivity]).
    assert (Hl : zlen (wire (mkTransfers [mkState from to v])) + 9 <= 2 ^ 58).
    { cbn [wire transfers_Wire States map concat]. change (zlen [mkState from to v]) with 1. unfold state_wire, enc_uint, enc_varbytes. cbn [st_From st_To st_Value]. unfold addr_ok, ADDR_LEN in *.
      rewrite !zlen_app, zlen_nil, Hf, Ht. pose proof (zlen_neo v ltac:(lia)). pose proof (zlen_neo 1 ltac:(lia)). pose proof (zlen_enc_varuint 20). pose proof (getVarUintSize_bounds 20).
      pose proof (zlen_enc_varuint (zlen (BigIntToNeoBytes v))). pose proof (getVarUintSize_bounds (zlen (BigIntToNeoBytes v))).
      pose proof (zlen_enc_varuint (zlen (BigIntToNeoBytes 1))). pose proof (getVarUintSize_bounds (zlen (BigIntToNeoBytes 1))). lia. }
    pose proof (written_read (mkTransfers [mkState from to v]) b Hok Hl Eb) as H. cbn [Deserialization transfers_Wire] in H. congruence.
  - exfalso. assert (Ez : s64 v = v - 2 ^ 64) by (clear - Hv Hs; words).
    pose proof (zlen_neo_s64 (v - 2 ^ 64) ltac:(lia)) as Hn. unfold addr_ok, ADDR_LEN in *.
    assert (Hap : Sink.appends (Ser.Transfers (mkTransfers [mkState from to v])) ()
      (enc_uint 1 ++ (enc_varbytes from ++ enc_varbytes to ++ enc_varbytes (BigIntToNeoBytes (v - 2 ^ 64))) ++ [])).
    { unfold Ser.Transfers. cbn [States]. eapply Sink.appends_bind; [apply (appends_EncodeVarUint 1); lia|]. cbn [Ser.states]. eapply Sink.appends_bind; [|apply Sink.appends_ret].
      unfold Ser.State. cbn [st_From st_To st_Value]. eapply Sink.appends_bind; [apply appends_EncodeAddress, Hf|]. eapply Sink.appends_bind; [apply appends_EncodeAddress, Ht|].
      eapply Sink.appends_bind'; [|apply Sink.appends_ret]. unfold EncodeVarUint. rewrite Ez. apply Sink.appends_WriteVarBytes. lia. }
    unfold getTransferInput in Eb. rewrite (written_appends _ _ Hap) in Eb.
    + injection Eb as <-. exact (negative_refused from to (v - 2 ^ 64) Hf Ht ltac:(lia) t Et).
    + unfold enc_uint, enc_varbytes. rewrite !zlen_app, zlen_nil, Hf, Ht. pose proof (zlen_neo 1 ltac:(lia)). pose proof (zlen_enc_varuint 20). pose proof (getVarUintSize_bounds 20).
      pose proof (zlen_enc_varuint (zlen (BigIntToNeoBytes (v - 2 ^ 64)))). pose proof (getVarUintSize_bounds (zlen (BigIntToNeoBytes (v - 2 ^ 64)))).
      pose proof (zlen_enc_varuint (zlen (BigIntToNeoBytes 1))). pose proof (getVarUintSize_bounds (zlen (BigIntToNeoBytes 1))). lia.
Qed.

Lemma transfer_registered (m : gmap string Handler) :
  foldl (fun m x => <[fst x := snd x]> m) m RegisterOngContract !! TRANSFER_NAME = Some H_OngTransfer /\
  foldl (fun m x => <[fst x := snd x]> m) m RegisterOntContract !! TRANSFER_NAME = Some H_OntTransfer.
Proof. split; cbn [foldl RegisterOngContract RegisterOntContract fst snd]; do 8 (rewrite lookup_insert_ne by discriminate); apply lookup_insert_eq. Qed.

(** A call of [transfer] that succeeds has run the handler of the token in a service that shows the same storage. *)
Lemma transfer_call fuel asset args s f r s' : methods_ok s -> shows s f -> CrossCall neovm_call (S (S fuel)) asset TRANSFER_NAME args s = Ok (r, s') ->
  asset = OntContractAddress \/ asset = OngContractAddress ->
  exists n n', kv_is (CacheDB n) f /\ CurrentContext (ContextRef n) = Some asset /\ Input n = args /\ Time n = Time (native s) /\ PreExec n = PreExec (native s) /\
    run_handler (NativeCall (S fuel)) (if decide (asset = OngContractAddress) then H_OngTransfer else H_OntTransfer) n = Ok (r, n') /\ CacheDB n' = CacheDB (native s').
Proof.
  intros Hm Hs E Ha. remember (S fuel) as k eqn:Ek. cbn [CrossCall] in E.
  assert (Er : exists l, register asset s = Some (set_native (set_ServiceMap (foldl (fun m x => <[fst x := snd x]> m) (ServiceMap (native s)) l) (native s)) s) /\
    foldl (fun m x => <[fst x := snd x]> m) (ServiceMap (native s)) l !! TRANSFER_NAME = Some (if decide (asset = OngContractAddress) then H_OngTransfer else H_OntTransfer)).
  { destruct Ha as [-> | ->]; eexists; (split; [reflexivity|]); apply transfer_registered. }
  destruct Er as (l & Er & El). rewrite Er in E. set (s0 := set_native _ s) in E.
  assert (Hno : methods s0 !! TRANSFER_NAME = None) by (apply token_name_free; [exact Hm | apply (bool_decide_unpack _); vm_compute; exact I]).
  rewrite Hno in E. change (ServiceMap (native s0)) with (foldl (fun m x => <[fst x := snd x]> m) (ServiceMap (native s)) l) in E. rewrite El in E.
  apply st_bind_Ok in E as (r1 & s1 & E1 & E2). unfold st_bind in E2. injection E2 as <- <-. unfold on_native in E1.
  destruct (run_handler _ _ _) as [[r2 n2]|e|] eqn:E3; [|discriminate ..]. injection E1 as <- <-. exists (native (enter asset args s0)), n2.
  split_and!; [exact Hs | | reflexivity | reflexivity | reflexivity | exact E3 | reflexivity].
  cbn. unfold CurrentContext, PushContext. cbn [Contexts]. unfold zlen. rewrite length_app. cbn [length]. rewrite (proj2 (Z.ltb_ge _ _)) by lia.
  rewrite lookup_app_r by lia. replace (_ - _)%nat with 0%nat by lia. reflexivity.
Qed.

(** A single transfer that the ledger accepts. *)
Lemma ledger_single supply w from to v b b' : v <> 0 -> ledger supply w [mkState from to v] b = Some b' -> v <= b from /\ b' = move from to v b.
Proof.
  intros Hv. cbn [ledger st_Value st_From st_To]. rewrite (proj2 (Z.eqb_neq v 0)) by exact Hv. destruct (_ <? v); [discriminate|]. destruct (negb _); [discriminate|].
  destruct (Z.ltb_spec (b from) v); [discriminate|]. intros [= <-]. auto.
Qed.

(** The two accounts of a transfer. *)
Definition two (from to : Address) : list Address := if decide (to = from) then [from] else [from; to].
Lemma two_accounts from to b M : addr_ok from -> addr_ok to -> 0 <= b from -> 0 <= b to -> b from + b to <= M -> accounts (two from to) b M.
Proof.
  intros Hf Ht B1 B2 Hs. unfold two. destruct (decide (to = from)) as [->|Hne].
  - constructor; [apply NoDup_singleton | repeat constructor; exact Hf | intros a Ha; apply list_elem_of_singleton in Ha; subst; exact B1 | cbn; lia].
  - constructor; [|repeat constructor; assumption | | cbn; lia].
    + constructor; [intros H; apply list_elem_of_singleton in H; congruence | apply NoDup_singleton].
    + intros a Ha. apply elem_of_cons in Ha as [-> | Ha]; [exact B1|]. apply list_elem_of_singleton in Ha. subst. exact B2.
Qed.
Lemma two_parties from to v a : a ∈ parties [mkState from to v] -> a ∈ two from to.
Proof. unfold two. cbn. destruct (decide (to = from)) as [->|Hne]; [|auto]. intros H. apply elem_of_cons in H as [-> | H]; [left | exact H]. Qed.

(** [v] has been moved once, from one account to another, in the token [asset]; for ONG nothing else than these balances has changed in the storage, for ONT the grants of
    the two accounts besides. *)
Definition paid_ong (f f' : view_t) (from to : Address) (v : Z) : Prop := forall b, balances f OngContractAddress b -> b from + b to < 2 ^ 64 ->
  v <= b from /\ balances f' OngContractAddress (move from to v b) /\ balance_frame OngContractAddress f f'.
Definition paid_ont (f f' : view_t) (from to : Address) (v : Z) : Prop := forall o, ont_holds f o -> o_bal o from + o_bal o to <= ONT_TOTAL_SUPPLY ->
  v <= o_bal o from /\ exists o', ont_holds f' o' /\ o_bal o' = move from to v (o_bal o) /\ ont_frame f f'.

Lemma ong_paid fuel from to v args s f r s' f' : methods_ok s -> shows s f -> addr_ok from -> addr_ok to -> 0 < v < 2 ^ 64 ->
  getTransferInput (mkState from to v) = Ok args -> CrossCall neovm_call (S (S fuel)) OngContractAddress TRANSFER_NAME args s = Ok (r, s') -> shows s' f' -> paid_ong f f' from to v.
Proof.
  intros Hm Hs Hf Ht Hv Ei E Hs' b Hb Hroom. destruct (transfer_call _ _ _ _ _ _ _ Hm Hs E (or_intror eq_refl)) as (n & n' & Hn & Hc & Hi & _ & _ & Er & Hd).
  cbn [decide run_handler] in Er. unfold OngTransfer in Er. apply st_bind_Ok in Er as (t & n1 & E1 & Er). unfold input, st_lift in E1. rewrite Hi in E1. destruct (decode _ args) as [t'| |] eqn:Et; [|discriminate ..]. injection E1 as <- <-.
  assert (Hu : 0 <= v < 2 ^ 64) by lia. pose proof (transfer_input_read _ _ _ _ _ Hf Ht Hu Ei Et) as ->. apply st_bind_Ok in Er as (c & n2 & E2 & Er). unfold current_contract in E2. rewrite Hc in E2. injection E2 as <- <-.
  pose proof (balances_range _ _ _ from Hb Hf) as R1. pose proof (balances_range _ _ _ to Hb Ht) as R2. unfold is_u64 in R1, R2.
  pose proof (ong_transfers_view OngContractAddress (two from to) [mkState from to v] n f b Hn Hb (Des_Transfers_ok _ _ Et) (two_accounts from to b (2 ^ 64 - 1) Hf Ht ltac:(lia) ltac:(lia) ltac:(lia)) (two_parties from to v)) as H.
  destruct (ledger _ _ _ _) as [b'|] eqn:El; [|destruct H as (e & H); cbn [States] in Er; unfold st_bind in Er; rewrite H in Er; discriminate].
  apply ledger_single in El as [Hle ->]; [|lia]. destruct H as (d & g & Eg & Hg & Hbg & Fr & _). cbn [States] in Er. unfold st_bind in Er. rewrite Eg in Er. injection Er as _ <-.
  cbn in Hd. rewrite <- Hd in Hs'. pose proof (kv_unique _ _ _ Hs' Hg) as Hsame. split; [exact Hle|]. split; [intros a Ha; rewrite (num_at_ext 8 g) by apply Hsame; exact (Hbg a Ha)|].
  intros k Hk. rewrite Hsame. exact (Fr k Hk).
Qed.

Lemma ont_paid fuel from to v args s f r s' f' : methods_ok s -> shows s f -> is_u32 (Time (native s)) -> addr_ok from -> addr_ok to -> 0 < v < 2 ^ 64 ->
  getTransferInput (mkState from to v) = Ok args -> CrossCall neovm_call (S (S fuel)) OntContractAddress TRANSFER_NAME args s = Ok (r, s') -> shows s' f' -> paid_ont f f' from to v.
Proof.
  intros Hm Hs Hti Hf Ht Hv Ei E Hs' o Ho Hroom. destruct (transfer_call _ _ _ _ _ _ _ Hm Hs E (or_introl eq_refl)) as (n & n' & Hn & Hc & Hi & Hti' & _ & Er & Hd).
  cbn [decide run_handler] in Er. unfold OntTransfer in Er. apply st_bind_Ok in Er as (t & n1 & E1 & Er). unfold input, st_lift in E1. rewrite Hi in E1. destruct (decode _ args) as [t'| |] eqn:Et; [|discriminate ..]. injection E1 as <- <-.
  assert (Hu : 0 <= v < 2 ^ 64) by lia. pose proof (transfer_input_read _ _ _ _ _ Hf Ht Hu Ei Et) as ->. apply st_bind_Ok in Er as (c & n2 & E2 & Er). unfold current_contract in E2. rewrite Hc in E2. injection E2 as <- <-.
  pose proof (balances_range _ _ _ from (h_bal _ _ Ho) Hf) as R1. pose proof (balances_range _ _ _ to (h_bal _ _ Ho) Ht) as R2. unfold is_u64 in R1, R2. rewrite <- Hti' in Hti.
  pose proof (ont_transfers_view fuel (two from to) [mkState from to v] n f o Hn Hc Hti Ho (Des_Transfers_ok _ _ Et) (two_accounts from to (o_bal o) ONT_TOTAL_SUPPLY Hf Ht ltac:(lia) ltac:(lia) Hroom) (two_parties from to v)) as H.
  destruct (ont_ledger _ _ _ _ _) as [o'|] eqn:El; [|destruct H as (e & H); cbn [States] in Er; unfold st_bind in Er; rewrite H in Er; discriminate].
  apply ont_ledger_bal, ledger_single in El as [Hle Eo]; [|lia]. destruct H as (d & m & g & Eg & Hg & Hbg & Fr & _). cbn [States] in Er. unfold st_bind in Er. rewrite Eg in Er. injection Er as _ <-.
  cbn in Hd. rewrite <- Hd in Hs'. pose proof (kv_unique _ _ _ Hs' Hg) as Hsame. split; [exact Hle|]. exists o'. split; [|split; [exact Eo | intros k Hk; rewrite Hsame; exact (Fr k Hk)]].
  destruct Hbg as [B1 B2 B3 B4]. constructor; [intros a Ha | intros a Ha | intros a Ha | exact B4]; (rewrite (num_at_ext _ g) by apply Hsame); auto.
Qed.

Lemma put_off_proxy s f key v s' : off_proxy key -> shows s f -> put_raw key v s = Ok ((), s') -> exists f', with_view s f' s' /\ proxy_same f f'.
Proof. intros Hk Hs E. destruct (put_raw_ok _ _ _ _ _ Hs E) as (f' & Hw & Ho & _). exists f'. split; [exact Hw|]. intros x. apply Ho. apply not_eq_sym, Hk. Qed.

Lemma calling_snoc ctx a c : last ctx = Some c -> CallingContext (mkSC (ctx ++ [a]) [] []) = Some c.
Proof.
  intros Hl. unfold CallingContext. cbn [Contexts]. unfold zlen. rewrite length_app. cbn [length]. rewrite last_lookup in Hl.
  assert (ctx <> []) by (intros ->; discriminate). rewrite (proj2 (Z.ltb_ge _ _)) by (destruct ctx; [congruence | cbn; lia]).
  rewrite lookup_app_l by (destruct ctx; [congruence | cbn; lia]). rewrite <- Hl. f_equal. lia.
Qed.

(** A message put out by the contract [c]. *)
Definition announced s c p s' : Prop := exists id b,
  written (MakeTxParam_Serialization (mkMakeTx (x_TxHash s) id c (cp_ToChainID p) (cp_ToContractAddress p) (cp_Method p) (cp_Args p))) = Ok b /\
  sc_CrossHashes s' = sc_CrossHashes s ++ [HashLeaf sha256 b].

Lemma MakeFromOntProof_ok p s f c s' : CallingContext (ContextRef (native s)) = Some c -> shows s f -> MakeFromOntProof p s = Ok ((), s') ->
  exists id b f' d, written (MakeTxParam_Serialization (mkMakeTx (x_TxHash s) id c (cp_ToChainID p) (cp_ToContractAddress p) (cp_Method p) (cp_Args p))) = Ok b /\
    s' = set_CrossHashes (CrossHashes s ++ [HashLeaf sha256 b]) (set_native (set_DB d (native s)) s) /\ kv_is d f' /\ proxy_same f f'.
Proof.
  intros Hc Hs E. unfold MakeFromOntProof in E. apply st_bind_Ok in E as (id & s1 & E1 & E). unfold getCrossChainID in E1. apply st_bind_Ok in E1 as (o & s2 & E1 & E2).
  destruct (get_raw_view _ _ _ _ _ Hs E1) as [_ W1]. assert (s1 = s2) as -> by (destruct o; [apply lift_Ok in E2 as [_ E2]; exact E2 | injection E2 as _ <-; reflexivity]).
  apply st_bind_Ok in E as ([] & s3 & E3 & E). destruct (put_off_proxy _ _ _ _ _ (off_proxy_cross _) (with_shows _ _ _ W1) E3) as (f3 & W3 & P3).
  pose proof (with_trans _ _ _ _ _ W1 W3) as (d3 & -> & Hd3). apply st_bind_Ok in E as (s4 & s5 & E4 & E). injection E4 as <- <-.
  apply st_bind_Ok in E as (from & s6 & E6 & E). unfold calling_contract in E6. cbn in E6. rewrite Hc in E6. injection E6 as <- <-.
  apply st_bind_Ok in E as (b & s7 & E7 & E). apply lift_Ok in E7 as [E7 ->]. apply st_bind_Ok in E as ([] & s8 & E8 & E).
  destruct (put_off_proxy (set_native (set_DB d3 (native s)) s) f3 _ _ _ (off_proxy_cross _) Hd3 E8) as (f8 & (d8 & -> & Hd8) & P8). injection E as <-.
  exists (z2le 8 id), b, f8, d8. split_and!; [exact E7 | reflexivity | exact Hd8 | etransitivity; eassumption].
Qed.

Lemma create_call fuel args s f r s' c : last (Contexts (ContextRef (native s))) = Some c -> methods_ok s -> shows s f ->
  CrossCall neovm_call fuel CrossChainContractAddress CREATE_CROSS_CHAIN_TX args s = Ok (r, s') ->
  exists p, decode CreateCrossChainTxParam_Deserialization args = Ok p /\ announced s c p s' /\ same_frame s s' /\ exists f', shows s' f' /\ proxy_same f f'.
Proof.
  intros Hl Hm Hs E. destruct fuel as [|fuel]; [discriminate|]. cbn [CrossCall] in E. unfold register in E. rewrite decide_True in E by reflexivity.
  set (s0 := set_methods _ s) in E. assert (Hh : methods s0 !! CREATE_CROSS_CHAIN_TX = Some H_CreateCrossChainTx)
    by (cbn [s0 methods set_methods foldl RegisterCrossChainContract fst snd]; rewrite lookup_insert_ne by discriminate; apply lookup_insert_eq).
  rewrite Hh in E. assert (Hm0 : methods_ok s0) by (refine (added_ok RegisterCrossChainContract _ _ Hm); intros x Hx; apply elem_of_app; left; exact Hx).
  apply st_bind_Ok in E as (r1 & s1 & E1 & E2). unfold st_bind in E2. injection E2 as <- <-. cbn [run_cross] in E1. unfold CreateCrossChainTx in E1.
  apply st_bind_Ok in E1 as (p & s2 & E1 & E2). unfold x_input, on_native, input, st_lift in E1. cbn [enter native Input set_CrossHashes set_native set_Notifications set_ContextRef set_Input] in E1.
  destruct (decode _ args) as [p'| |] eqn:Ep; [|discriminate ..]. injection E1 as <- <-. apply st_bind_Ok in E2 as ([] & s3 & E2 & E3). injection E3 as <- <-.
  destruct (MakeFromOntProof_ok p' (set_native (native (enter CrossChainContractAddress args s0)) (enter CrossChainContractAddress args s0)) f c _ (calling_snoc _ _ _ Hl) Hs E2) as (id & b & f' & d & Eb & -> & Hd & P).
  exists p'. split; [reflexivity|]. split; [exists id, b; split; [exact Eb | reflexivity]|]. split; [|exists f'; auto].
  unfold same_frame. cbn. split_and!; auto. eapply context_popped; [|reflexivity]. intros H. cbn in H. rewrite H in Hl. discriminate.
Qed.

(** Values read from storage. *)
Definition var_at (f : view_t) (key : list byte) : res (list byte) :=
  match f key with
  | None => Ok []
  | Some raw => match item_Deserialization (NewZeroCopySource raw) with Ok (i, _) => read_var_bytes (item_Value i) | Err e => Err e | Panic => Panic end
  end.
Definition amount_at (f : view_t) (key : list byte) : res Z := let* b := var_at f key in Ok (big_SetBytes b).

Lemma get_var_view key s f v s' : shows s f -> GetStorageVarBytes key s = Ok (v, s') -> var_at f key = Ok v /\ with_view s f s'.
Proof.
  intros Hs E. unfold GetStorageVarBytes in E. apply st_bind_Ok in E as (o & s1 & E1 & E2). unfold on_native in E1. destruct (get_item_view _ _ key Hs) as (d & Hd & Eg). rewrite Eg in E1.
  unfold var_at. destruct (f key) as [raw|]; [|injection E1 as <- <-; injection E2 as <- <-; split; [reflexivity | exists d; auto]].
  destruct (item_Deserialization _) as [[i src]|e|]; [|discriminate ..]. injection E1 as <- <-. apply lift_Ok in E2 as [E2 ->]. split; [exact E2 | exists d; auto].
Qed.
Lemma get_amount_view key s f v s' : shows s f -> getAmount key s = Ok (v, s') -> amount_at f key = Ok v /\ with_view s f s'.
Proof.
  intros Hs E. unfold getAmount in E. apply st_bind_Ok in E as (b & s1 & E1 & E2). injection E2 as <- <-. destruct (get_var_view _ _ _ _ _ Hs E1) as [Ev W].
  unfold amount_at. rewrite Ev. auto.
Qed.

Lemma read_var_enc b : zlen b < 2 ^ 57 -> read_var_bytes (enc_varbytes b) = Ok b.
Proof.
  intros Hb. pose proof (zlen_nonneg b). pose proof (zlen_enc_varuint (zlen b)) as Hz. pose proof (getVarUintSize_bounds (zlen b)) as Hg.
  assert (Hl : zlen (enc_varbytes b) < 2 ^ 63) by (unfold enc_varbytes; rewrite zlen_app; lia). unfold read_var_bytes.
  assert (Hp : Source.NextVarUint (NewZeroCopySource (enc_varbytes b)) = Ok ((zlen b, Source.getVarUintSize (zlen b), false, false), Source.adv (zlen (enc_varuint (zlen b))) (NewZeroCopySource (enc_varbytes b)))).
  { apply (parses_NextVarUint (zlen b) ltac:(unfold is_u64; lia) (NewZeroCopySource (enc_varbytes b)) b); [apply Source.wf_new_source; exact Hl | reflexivity]. }
  rewrite Hp. cbn [res_bind]. unfold Source.adv. cbn [src_off NewZeroCopySource]. rewrite Z.add_0_l. unfold enc_varbytes. rewrite zlen_app, (proj2 (Z.ltb_ge _ _)) by lia.
  f_equal. unfold zlen. rewrite !Nat2Z.id, drop_app_length. apply firstn_all.
Qed.

Lemma put_amount_ok s f key v s' : shows s f -> putAmount key v s = Ok ((), s') -> exists f', with_view s f' s' /\ (forall k, k <> key -> f' k = f k) /\
  (Z.abs v < 2 ^ 256 -> amount_at f' key = Ok (Z.abs v)).
Proof.
  intros Hs E. destruct (put_raw_ok _ _ _ _ _ Hs E) as (f' & Hw & Ho & Hk). exists f'. split; [exact Hw|]. split; [exact Ho|]. intros Hv.
  assert (Hz : zlen (big_Bytes v) <= 32) by (rewrite zlen_big_Bytes; apply nbytes_fits; unfold fits; lia).
  pose proof (zlen_enc_varuint (zlen (big_Bytes v))). pose proof (getVarUintSize_bounds (zlen (big_Bytes v))). pose proof (zlen_nonneg (big_Bytes v)).
  assert (Hl : zlen (enc_varbytes (big_Bytes v)) < 2 ^ 57) by (unfold enc_varbytes; rewrite zlen_app; lia).
  unfold amount_at, var_at. rewrite (Hk Hl). pose proof (zlen_raw_item (enc_varbytes (big_Bytes v))).
  destruct (parses_all item_Deserialization (mkItem x00 (enc_varbytes (big_Bytes v))) (raw_item (enc_varbytes (big_Bytes v)))) as (src & -> & _); [|lia|].
  { refine (des_parses (mkItem x00 _) _). cbn [wire_ok item_Wire item_Value]. lia. }
  cbn [item_Value]. rewrite read_var_enc by lia. cbn [res_bind]. rewrite SetBytes_Bytes. reflexivity.
Qed.

Lemma create_args_read chain proxy args' b : 0 <= chain < 2 ^ 63 -> zlen proxy < 2 ^ 32 -> zlen args' < 2 ^ 32 -> getCreateTxArgs chain proxy UNLOCK_NAME args' = Ok b ->
  decode CreateCrossChainTxParam_Deserialization b = Ok (mkCreate chain proxy (bytes_of UNLOCK_NAME) args').
Proof.
  intros Hc Hp Ha E. pose proof (zlen_neo chain ltac:(lia)) as Hn. assert (Ht : text_ok (bytes_of UNLOCK_NAME)) by (vm_compute; reflexivity).
  refine (written_read (mkCreate chain proxy (bytes_of UNLOCK_NAME) args') b (conj Hc (conj Hp (conj Ht Ha))) _ E).
  cbn [wire create_Wire cp_ToChainID cp_ToContractAddress cp_Method cp_Args]. rewrite !zlen_app, zlen_nil. unfold enc_uint.
  pose proof (zlen_var_le (BigIntToNeoBytes chain) ltac:(unfold text_ok; lia)). pose proof (zlen_var_le proxy Hp). pose proof (zlen_var_le args' Ha). pose proof (zlen_var_le _ Ht). lia.
Qed.

(** What [Lock] has found and done. *)
Record lock_effect (f : view_t) (p : LockParam) (s : @CrossService D) (f' : view_t) (s' : @CrossService D) (amount limit : Z) (proxy target : list byte) : Prop := {
  le_asset : lp_SourceAssetHash p = OntContractAddress \/ lp_SourceAssetHash p = OngContractAddress;
  le_amount : amount_at f (GenCrossedAmountKey LockProxyContractAddress (lp_SourceAssetHash p) (lp_ToChainID p)) = Ok amount;
  le_limit : amount_at f (GenCrossedLimitKey LockProxyContractAddress (lp_SourceAssetHash p) (lp_ToChainID p)) = Ok limit;
  le_within : 0 < lp_Value p /\ amount + lp_Value p <= limit;
  le_proxy : var_at f (GenBindProxyKey LockProxyContractAddress (lp_ToChainID p)) = Ok proxy /\ proxy <> [];
  le_target : var_at f (GenBindAssetHashKey LockProxyContractAddress (lp_SourceAssetHash p) (lp_ToChainID p)) = Ok target;
  le_counted : limit < 2 ^ 256 -> amount_at f' (GenCrossedAmountKey LockProxyContractAddress (lp_SourceAssetHash p) (lp_ToChainID p)) = Ok (amount + lp_Value p);
  le_other : forall x, LockProxyContractAddress ++ x <> GenCrossedAmountKey LockProxyContractAddress (lp_SourceAssetHash p) (lp_ToChainID p) ->
    f' (LockProxyContractAddress ++ x) = f (LockProxyContractAddress ++ x);
  le_announced : exists args', written (Args_Serialization (mkArgs target (lp_ToAddress p) (lp_Value p))) = Ok args' /\
    (lp_ToChainID p < 2 ^ 63 -> zlen proxy < 2 ^ 32 -> zlen args' < 2 ^ 32 ->
     announced s LockProxyContractAddress (mkCreate (lp_ToChainID p) proxy (bytes_of UNLOCK_NAME) args') s')
}.

Lemma var_at_same f f' key : f' key = f key -> var_at f' key = var_at f key. Proof. intros E. unfold var_at. rewrite E. reflexivity. Qed.
Lemma amount_at_same f f' key : f' key = f key -> amount_at f' key = amount_at f key. Proof. intros E. unfold amount_at. rewrite (var_at_same _ _ _ E). reflexivity. Qed.

Lemma amount_nonneg f key v : amount_at f key = Ok v -> 0 <= v.
Proof. intros E. unfold amount_at in E. apply res_bind_Ok in E as (bs & _ & [= <-]). pose proof (le2z_range (rev bs)). unfold big_SetBytes. lia. Qed.

(** The start of a method of the proxy. *)
Lemma this_proxy s c s' : last (Contexts (ContextRef (native s))) = Some LockProxyContractAddress -> this_contract s = Ok (c, s') ->
  c = LockProxyContractAddress /\ s' = set_native (native s) s.
Proof.
  intros Hl E. unfold this_contract, on_native, current_contract, CurrentContext in E. destruct (_ <? 1); [discriminate|]. rewrite last_lookup in Hl.
  replace (length (Contexts (ContextRef (native s))) - 1)%nat with (pred (length (Contexts (ContextRef (native s))))) in E by lia. rewrite Hl in E. injection E as <- <-. auto.
Qed.
Lemma x_input_Ok {A} (q : ST ZeroCopySource A) s a s' : x_input q s = Ok (a, s') -> decode q (Input (native s)) = Ok a /\ s' = set_native (native s) s.
Proof. unfold x_input, on_native, input, st_lift. destruct (decode q _); [intros [= <- <-]; auto | discriminate ..]. Qed.

Lemma AddressParse_len b a : AddressParseFromBytes b = Ok a -> addr_ok b.
Proof. unfold AddressParseFromBytes, addr_ok. case_match eqn:E; [intros _; apply Z.eqb_eq in E; exact E | discriminate]. Qed.

Lemma token_asset a : negb (bool_decide (a = OntContractAddress)) && negb (bool_decide (a = OngContractAddress)) = false -> a = OntContractAddress \/ a = OngContractAddress.
Proof. destruct (bool_decide_reflect (a = OntContractAddress)); [auto|]. destruct (bool_decide_reflect (a = OngContractAddress)); [auto | discriminate]. Qed.

Lemma amount_limit_apart asset chain : GenBindProxyKey LockProxyContractAddress chain <> GenCrossedAmountKey LockProxyContractAddress asset chain /\
  GenBindAssetHashKey LockProxyContractAddress asset chain <> GenCrossedAmountKey LockProxyContractAddress asset chain.
Proof. split; intros E; apply app_inv_head in E; discriminate. Qed.

Lemma lock_param_range b p : decode LockParam_Deserialization b = Ok p -> 0 <= lp_ToChainID p.
Proof.
  intros E. unfold decode in E. destruct (LockParam_Deserialization _) as [[p' src]|e|] eqn:Ed; [|discriminate ..]. injection E as ->. unfold LockParam_Deserialization in Ed.
  apply st_bind_Ok in Ed as (a1 & s1 & _ & Ed). apply st_bind_Ok in Ed as (a2 & s2 & _ & Ed). apply st_bind_Ok in Ed as (c & s3 & Ec & Ed). apply DecodeVarUint_range in Ec.
  apply st_bind_Ok in Ed as (a4 & s4 & _ & Ed). apply st_bind_Ok in Ed as (a5 & s5 & _ & Ed). injection Ed as <- _. exact (proj1 Ec).
Qed.

Lemma Lock_ok fuel s f s' : last (Contexts (ContextRef (native s))) = Some LockProxyContractAddress -> methods_ok s -> shows s f ->
  Lock (CrossCall neovm_call fuel) s = Ok (BYTE_TRUE, s') ->
  exists p amount limit proxy target f', decode LockParam_Deserialization (Input (native s)) = Ok p /\ shows s' f' /\ CrossHashes s' = CrossHashes s /\ lock_effect f p s f' s' amount limit proxy target.
Proof.
  intros Hl Hm Hs E. assert (Hne : Contexts (ContextRef (native s)) <> []) by (intros H; rewrite H in Hl; discriminate). unfold Lock in E.
  apply st_bind_Ok in E as (contract & s1 & E1 & E). apply this_proxy in E1 as [-> ->]; [|exact Hl].
  apply st_bind_Ok in E as (p' & s1 & E1 & E). apply x_input_Ok in E1 as [Ep ->]. cbn [native set_native] in Ep.
  cbn zeta in E. destruct (lp_Value p' =? 0); [discriminate|]. destruct (_ && _) eqn:Ea; [discriminate|]. apply token_asset in Ea.
  set (s1 := set_native _ _) in E. apply st_bind_Ok in E as (ti & s2 & E2 & E). apply lift_Ok in E2 as [_ ->].
  apply st_bind_Ok in E as (r2 & s2 & E2 & E). destruct (token_call _ _ _ s1 f _ _ Ea Hne Hm Hs E2) as ((Hc2 & Hm2 & _ & Hch2 & Ht2) & Hx2 & f2 & Hs2 & P2).
  apply st_bind_Ok in E as (amount & s3 & E3 & E). destruct (get_amount_view _ _ _ _ _ Hs2 E3) as [Va W3]. apply st_bind_Ok in E as (limit & s4 & E4 & E).
  destruct (get_amount_view _ _ _ _ _ (with_shows _ _ _ W3) E4) as [Vl W4]. destruct (negb _ || _) eqn:Eg; [discriminate|]. apply orb_false_iff in Eg as [Eg1 Eg2].
  apply negb_false_iff, Z.ltb_lt in Eg1. apply Z.ltb_ge in Eg2. apply st_bind_Ok in E as ([] & s5 & E5 & E).
  destruct (put_amount_ok _ _ _ _ _ (with_shows _ _ _ W4) E5) as (f5 & W5 & O5 & V5). pose proof (amount_limit_apart (lp_SourceAssetHash p') (lp_ToChainID p')) as [Hk1 Hk2].
  apply st_bind_Ok in E as (proxy & s6 & E6 & E). destruct (get_var_view _ _ _ _ _ (with_shows _ _ _ W5) E6) as [Vp W6]. destruct (Z.eqb_spec (zlen proxy) 0) as [|Hpz]; [discriminate|].
  apply st_bind_Ok in E as (target & s7 & E7 & E). destruct (get_var_view _ _ _ _ _ (with_shows _ _ _ W6) E7) as [Vt W7].
  apply st_bind_Ok in E as (args' & s8 & E8 & E). apply lift_Ok in E8 as [E8 ->]. apply st_bind_Ok in E as (txi & s8 & E9 & E). apply lift_Ok in E9 as [E9 ->].
  apply st_bind_Ok in E as (r10 & s10 & E10 & E). injection E as <-.
  pose proof (with_trans _ _ _ _ _ (with_trans _ _ _ _ _ (with_trans _ _ _ _ _ (with_trans _ _ _ _ _ W3 W4) W5) W6) W7) as (d7 & -> & Hd7).
  destruct (create_call _ _ (set_native (set_DB d7 (native s2)) s2) f5 _ _ LockProxyContractAddress ltac:(cbn; rewrite Hc2; exact Hl) Hm2 Hd7 E10) as (p10 & Ep10 & An & (_ & _ & _ & Hch10 & _) & f10 & Hs10 & P10).
  exists p', amount, limit, proxy, target, f10. split; [exact Ep|]. split; [exact Hs10|]. split; [rewrite Hch10; exact Hch2|]. pose proof (lock_param_range _ _ Ep) as Hch. constructor.
  - exact Ea.
  - rewrite <- Va. symmetry. apply amount_at_same, P2.
  - rewrite <- Vl. symmetry. apply amount_at_same, P2.
  - lia.
  - split; [|intros ->; rewrite zlen_nil in Hpz; congruence]. rewrite <- Vp. symmetry. apply var_at_same. rewrite O5 by exact Hk1. apply P2.
  - rewrite <- Vt. symmetry. apply var_at_same. rewrite O5 by exact Hk2. apply P2.
  - intros Hl256. pose proof (amount_nonneg _ _ _ Va). rewrite Z.abs_eq in V5 by lia. rewrite <- V5 by lia. apply amount_at_same, P10.
  - intros x Hx. rewrite P10, O5 by exact Hx. apply P2.
  - exists args'. split; [exact E8|]. intros B1 B2 B3. rewrite (create_args_read _ _ _ _ (conj Hch B1) B2 B3 E9) in Ep10. injection Ep10 as <-.
    destruct An as (id & b & Eb & Esc). exists id, b. cbn in Eb, Esc. rewrite Ht2 in Eb. rewrite Hx2 in Esc. split; [exact Eb | exact Esc].
Qed.

(** C14: what is locked stays within the limit and is announced.  When a call of [lock] returns true, the asset is ONT or ONG, the amount is positive and
    the crossed amount of the asset and chain, which grows by exactly it, is at most the limit that was set; no other entry of the proxy's storage
    changes; a proxy was bound for the chain, and exactly one message leaves the call: from this contract, to that proxy, for the method
    [unlock], with the bound asset, the receiver and the amount. *)
Theorem lock_within_limit fuel args s f s' : fresh s -> shows s f ->
  CrossCall neovm_call fuel LockProxyContractAddress "lock" args s = Ok (BYTE_TRUE, s') ->
  exists p amount limit proxy target f', decode LockParam_Deserialization args = Ok p /\ shows s' f' /\ lock_effect f p s f' s' amount limit proxy target.
Proof.
  intros (Em & _ & Hne) Hs E. destruct fuel as [|fuel]; [discriminate|]. cbn [CrossCall] in E.
  change (register LockProxyContractAddress s) with (Some (set_methods (foldl (fun m x => <[fst x := snd x]> m) (methods s) RegisterLockProxyContract) s)) in E. rewrite Em in E.
  set (s0 := set_methods _ s) in E. change (methods s0 !! "lock"%string) with (Some H_Lock) in E. cbn iota in E. apply st_bind_Ok in E as (r1 & s1 & E1 & E2). unfold st_bind in E2. injection E2 as -> <-.
  assert (Hm0 : methods_ok s0) by (refine (added_ok RegisterLockProxyContract ∅ _ _); [intros x Hx; apply elem_of_app; right; apply elem_of_app; right; exact Hx | intros name h H; rewrite lookup_empty in H; discriminate]).
  destruct (Lock_ok fuel (enter LockProxyContractAddress args s0) f s1 (last_snoc _ _) Hm0 Hs E1) as (p & amount & limit & proxy & target & f' & Ep & Hs' & Hx & He).
  exists p, amount, limit, proxy, target, f'. split; [exact Ep|]. split; [exact Hs'|]. destruct He as [A1 A2 A3 A4 A5 A6 A7 A8 (args' & A9 & A10)]. constructor; try assumption.
  exists args'. split; [exact A9|]. intros B1 B2 B3. destruct (A10 B1 B2 B3) as (id & b & Eb & Esc). exists id, b. split; [exact Eb|]. cbn. rewrite Esc, Hx. cbn. apply app_nil_r.
Qed.

(** C38: what a successful [unlock] has checked and done.  The cross-chain manager called it; the source contract named in the message is what is stored as the proxy
    bound to the source chain, where nothing stored counts as the empty name (so that a chain without a bound proxy pays a message with an empty source
    contract); the asset is ONT or ONG.  A value of 0 changes nothing.  Any other value is transferred once, from the proxy to the receiver of the message:
    the balances of the token afterwards are those with exactly this amount moved, and the storage is otherwise as it was, but for the grants that come
    with a transfer of ONT and for the crossed amount of the asset and chain.  That amount becomes the distance between what it was and what is paid, not what is left: paying
    more than is counted as crossed makes it positive again instead of going below zero. *)
Theorem unlock_exact fuel s f s' : last (Contexts (ContextRef (native s))) = Some LockProxyContractAddress -> methods_ok s -> shows s f ->
  Unlock (CrossCall neovm_call (S (S fuel))) s = Ok (BYTE_TRUE, s') ->
  exists p a f', decode UnlockParam_Deserialization (Input (native s)) = Ok p /\ decode Args_Deserialization (up_ArgsBs p) = Ok a /\
    CheckWitness CrossChainContractAddress (ContextRef (native s)) = true /\
    var_at f (GenBindProxyKey LockProxyContractAddress (up_FromChainId p)) = Ok (up_FromContractHashBs p) /\
    (f (GenBindProxyKey LockProxyContractAddress (up_FromChainId p)) = None -> up_FromContractHashBs p = []) /\
    (ar_TargetAssetHash a = OntContractAddress \/ ar_TargetAssetHash a = OngContractAddress) /\ shows s' f' /\
    (ar_Value a = 0 -> forall k, f' k = f k) /\
    let key := GenCrossedAmountKey LockProxyContractAddress (ar_TargetAssetHash a) (up_FromChainId p) in
    (forall x, LockProxyContractAddress ++ x <> key -> f' (LockProxyContractAddress ++ x) = f (LockProxyContractAddress ++ x)) /\
    (ar_Value a <> 0 -> exists amount f1, amount_at f key = Ok amount /\ 0 < ar_Value a /\
       (Z.abs (amount - ar_Value a) < 2 ^ 256 -> amount_at f' key = Ok (Z.abs (amount - ar_Value a))) /\ (forall k, k <> key -> f' k = f1 k) /\
       (is_u64 (ar_Value a) -> ar_TargetAssetHash a = OngContractAddress -> paid_ong f f1 LockProxyContractAddress (ar_ToAddress a) (ar_Value a)) /\
       (is_u64 (ar_Value a) -> ar_TargetAssetHash a = OntContractAddress -> is_u32 (Time (native s)) -> paid_ont f f1 LockProxyContractAddress (ar_ToAddress a) (ar_Value a))).
Proof.
  intros Hl Hm Hs E. assert (Hne : Contexts (ContextRef (native s)) <> []) by (intros H; rewrite H in Hl; discriminate). unfold Unlock in E.
  apply st_bind_Ok in E as (contract & s1 & E1 & E). apply this_proxy in E1 as [-> ->]; [|exact Hl]. apply st_bind_Ok in E as (ok & s1 & E1 & E).
  unfold on_native, check_witness in E1. injection E1 as <- <-. destruct (CheckWitness _ _) eqn:Ew; [|discriminate]. cbn [negb] in E. cbn [native set_native] in Ew.
  apply st_bind_Ok in E as (p & s1 & E1 & E). apply x_input_Ok in E1 as [Ep ->]. apply st_bind_Ok in E as (a & s1 & E1 & E). apply lift_Ok in E1 as [Ea ->].
  apply st_bind_Ok in E as (proxy & s1 & E1 & E). eapply get_var_view in E1 as [Vp (d1 & -> & Hd1)]; [|exact Hs].
  destruct (bool_decide_reflect (proxy = up_FromContractHashBs p)) as [->|]; [|discriminate]. cbn [negb] in E. destruct (_ && _) eqn:Et; [discriminate|]. apply token_asset in Et.
  apply st_bind_Ok in E as (asset & s1 & E1 & E). apply lift_Ok in E1 as [E1 ->]. apply AddressParse_Ok in E1 as ->. apply st_bind_Ok in E as (to & s1 & E1 & E). apply lift_Ok in E1 as [E1 ->].
  pose proof (AddressParse_len _ _ E1) as Hto. apply AddressParse_Ok in E1 as ->.
  assert (Hun : f (GenBindProxyKey LockProxyContractAddress (up_FromChainId p)) = None -> up_FromContractHashBs p = []) by (intros En; unfold var_at in Vp; rewrite En in Vp; congruence).
  destruct (Z.eqb_spec (ar_Value a) 0) as [Hz|Hz].
  { injection E as <-. exists p, a, f. exact (conj Ep (conj Ea (conj eq_refl (conj Vp (conj Hun (conj Et (conj Hd1 (conj (fun _ _ => eq_refl) (conj (fun _ _ => eq_refl) (fun H => False_ind _ (H Hz))))))))))). }
  apply st_bind_Ok in E as (ti & s1 & E1 & E). apply lift_Ok in E1 as [Ei ->]. apply st_bind_Ok in E as (r2 & s2 & E2 & E). set (s1 := set_native (set_DB d1 _) _) in E2.
  assert (Hm1 : methods_ok s1) by exact Hm. assert (Hs1 : shows s1 f) by exact Hd1.
  destruct (token_call _ _ _ s1 f _ _ Et Hne Hm1 Hs1 E2) as (_ & _ & f2 & Hs2 & P2).
  apply st_bind_Ok in E as (amount & s3 & E3 & E). destruct (get_amount_view _ _ _ _ _ Hs2 E3) as [Va W3]. destruct (Z.ltb_spec (amount - ar_Value a) amount) as [Hlt|]; [|discriminate]. cbn [negb] in E.
  apply st_bind_Ok in E as ([] & s4 & E4 & E). injection E as <-. destruct (put_amount_ok _ _ _ _ _ (with_shows _ _ _ W3) E4) as (f4 & W4 & O4 & V4).
  exists p, a, f4. refine (conj Ep (conj Ea (conj eq_refl (conj Vp (conj Hun (conj Et (conj (with_shows _ _ _ W4) (conj (fun H => False_ind _ (Hz H)) (conj _ _))))))))); [intros x Hx; rewrite O4 by exact Hx; apply P2|].
  intros _. exists amount, f2. split; [rewrite <- Va; symmetry; apply amount_at_same, P2|]. split; [lia|]. split; [exact V4|]. split; [exact O4|].
  assert (Hp : addr_ok LockProxyContractAddress) by reflexivity. split; intros Hu Ha; rewrite Ha in E2; assert (Hv : 0 < ar_Value a < 2 ^ 64) by (unfold is_u64 in Hu; lia).
  - exact (ong_paid _ _ _ _ _ s1 f _ _ _ Hm1 Hs1 Hp Hto Hv Ei E2 Hs2).
  - intros Hti. exact (ont_paid _ _ _ _ _ s1 f _ _ _ Hm1 Hs1 Hti Hp Hto Hv Ei E2 Hs2).
Qed.

(** [WithdrawONG] never succeeds.  It asks for the allowance with the two addresses written as they are, but the ONG contract reads addresses with
    their lengths in front: the first byte of an address of a native contract is zero, which is read as an empty address.  The ONG that the ONT
    held by the proxy releases cannot be withdrawn. *)
Theorem withdraw_never_succeeds fuel s r s' : methods_ok s -> WithdrawONG (CrossCall neovm_call fuel) s <> Ok (r, s').
Proof.
  intros Hm E. unfold WithdrawONG in E. apply st_bind_Ok in E as (contract & s1 & E1 & E). assert (M1 : methods_ok s1) by (unfold this_contract, on_native in E1; destruct (current_contract _) as [[c n]|e|]; [injection E1 as <- <-; exact Hm | discriminate ..]).
  apply st_bind_Ok in E as ([to eof] & s2 & E2 & E). apply x_input_Ok in E2 as [_ ->]. destruct eof; [discriminate|]. apply st_bind_Ok in E as (op & s2 & E2 & E). apply lift_Ok in E2 as [_ ->].
  apply st_bind_Ok in E as ([] & s2 & E2 & E). assert (M2 : methods_ok s2).
  { unfold x_ValidateOwner in E2. apply st_bind_Ok in E2 as (ok & s3 & E3 & E2). unfold on_native, check_witness in E3. injection E3 as <- <-. unfold st_guard in E2. apply lift_Ok in E2 as [_ ->]. exact M1. }
  apply st_bind_Ok in E as (inp & s3 & E3 & E). apply lift_Ok in E3 as [Ei ->]. apply st_bind_Ok in E as (res & s4 & E4 & _). destruct fuel as [|fuel]; [discriminate|]. cbn [CrossCall] in E4.
  change (register OngContractAddress s2) with (Some (set_native (set_ServiceMap (foldl (fun m x => <[fst x := snd x]> m) (ServiceMap (native s2)) RegisterOngContract) (native s2)) s2)) in E4. cbv beta iota in E4. set (s0 := set_native _ s2) in E4.
  rewrite (token_name_free s0 ALLOWANCE_NAME) in E4; [|exact M2 | apply (bool_decide_unpack _); vm_compute; exact I].
  assert (Hh : ServiceMap (native s0) !! ALLOWANCE_NAME = Some H_OngAllowance) by apply lookup_insert_eq. rewrite Hh in E4.
  apply st_bind_Ok in E4 as (r5 & s5 & E5 & _). unfold on_native in E5. cbn [run_handler] in E5. unfold OngAllowance, GetBalanceValue, st_bind, st_get in E5.
  change (Input (native (enter OngContractAddress inp s0))) with inp in E5. vm_compute in Ei. injection Ei as <-. vm_compute in E5. discriminate.
Qed.

End Calls.
End Messages.

(** ** A chain of three peers *)

Module CrossExample.
Export ValidationExample.
#[export] Existing Instances mem_kv plain58.
#[export] Instance env : CrossEnv := {| NewChainConfig_Peers := fun _ => Ok None; GenesisBookkeepers := [] |}.
(** One NeoVM contract is deployed: it stores the first argument under its own address and returns true. *)
#[export] Instance no_objects : Interops := {| Interop := Empty_set; ToArray := fun _ => []; interop_deep_eq := fun _ _ => true |}.
Definition vm_contract : Address := repeat x33 20.
Definition vm_Invoke (code : list byte) (array : list VmValue) (m : VmValue) : CM (D := gmap (list byte) (list byte)) VmValue :=
  match array with VBytes a :: _ => do_ put_raw (vm_contract ++ bytes_of "last") a; st_ret (VBool true) | _ => st_err "bad argument" end.
Definition the_vm : Address -> list byte -> list byte -> list byte -> Z -> CM (D := gmap (list byte) (list byte)) Z :=
  neovm_result (fun a => st_ret (if bool_decide (a = vm_contract) then Some [x01] else None)) (fun _ => st_ret true) vm_Invoke.

Definition peer (k : byte) : list byte * HPeer := (PubkeyID (k : @PublicKey byte_keys), mkHPeer 1 (PubkeyID (k : @PublicKey byte_keys))).
Definition peers3 : ConsensusPeers := mkPeers 5 0 (list_to_map [peer x01; peer x02; peer x03]).
(** The proxy holds 100 ONG, 40 of which came from chain 5. *)
Definition store : gmap (list byte) (list byte) := list_to_map
  [(heights_key 5, raw_item (or_nil (written (KeyHeights_Serialization [0])))); (peers_key 5 0, raw_item (or_nil (written (ConsensusPeers_Serialization peers3))));
   (GenBalanceKey OngContractAddress LockProxyContractAddress, stored 8 100); (GenBindProxyKey LockProxyContractAddress 5, raw_item (enc_varbytes [xaa]));
   (GenCrossedAmountKey LockProxyContractAddress OngContractAddress 5, raw_item (enc_varbytes [zb 40]))].
Definition service (d : gmap (list byte) (list byte)) : CrossService :=
  mkCross (mkNative d ∅ [] [] (GENESIS_BLOCK_TIMESTAMP + 100) false (mkSC [addr_a] [addr_a] []) true) ∅ [] [] (repeat x00 32).

(** 40 ONG for [addr_b]. *)
Definition message : list byte := enc_varbytes [x77] ++ z2le 8 5 ++ or_nil (written (MakeTxParam_Serialization
  (mkMakeTx [x66] [x01] [xaa] 3 LockProxyContractAddress (bytes_of UNLOCK_NAME) (or_nil (written (Args_Serialization (mkArgs OngContractAddress addr_b 40))))))).
(** A call of the NeoVM contract. *)
Definition vm_message : list byte := enc_varbytes [x77] ++ z2le 8 5 ++ or_nil (written (MakeTxParam_Serialization (mkMakeTx [x66] [x02] [xaa] 3 vm_contract (bytes_of "pay") [xbb]))).
Definition header_of (m : list byte) : XHeader := mkXHeader 0 5 (repeat x00 32) (repeat x00 32) (HashLeaf sha256 m) (repeat x00 32) 9 7 0 [] (repeat x00 20)
  [x01 : @PublicKey byte_keys; x02; x03] [[x01]; [x02]; [x03]].
Definition header : XHeader := header_of message.
Definition call_args_of (m : list byte) (chain : Z) : list byte := or_nil (written (ProcessCrossChainTxParam_Serialization
  (mkProcess addr_a chain 7 (hex_EncodeToString (enc_varbytes m)) (or_nil (written (x_Serialization (header_of m))))))).
Definition call_args : Z -> list byte := call_args_of message.

Definition process (chain : Z) (d : gmap (list byte) (list byte)) : res (list byte * CrossService) :=
  CrossCall the_vm 5 CrossChainContractAddress PROCESS_CROSS_CHAIN_TX (call_args chain) (service d).
Definition after (r : res (list byte * CrossService)) : gmap (list byte) (list byte) := match r with Ok (_, s) => CacheDB (native s) | _ => ∅ end.
Definition summary (d : gmap (list byte) (list byte)) : option (list byte) * option (list byte) * option (list byte) :=
  (d !! GenBalanceKey OngContractAddress LockProxyContractAddress, d !! GenBalanceKey OngContractAddress addr_b, d !! GenCrossedAmountKey LockProxyContractAddress OngContractAddress 5).
End CrossExample.
Import CrossExample.

Lemma the_vm_keeps ctx a b c d e : xevolves marks_kept ctx (the_vm a b c d e).
Proof.
  apply (xe_neovm marks_kept); [intros x; apply (xe_ret marks_kept) | intros g; apply (xe_ret marks_kept)|]. intros code array m. unfold vm_Invoke.
  destruct array as [|[x| | | | | | |] array]; try apply (xe_err marks_kept). apply (xe_bind marks_kept); [|intros []; apply (xe_ret marks_kept)].
  apply (xe_put_raw marks_kept no_mark no_mark_upd), no_mark_under; [reflexivity | discriminate].
Qed.
Lemma fresh_service d : fresh (service d).
Proof. split; [reflexivity|]. split; [reflexivity | discriminate]. Qed.

(** The two calls are run by [vm_compute]. *)
Definition succeeded (r : res (list byte * @CrossService (gmap (list byte) (list byte)))) : bool := match r with Ok (b, _) => bool_decide (b = BYTE_TRUE) | _ => false end.
Lemma succeeded_Ok r : succeeded r = true -> exists s, r = Ok (BYTE_TRUE, s) /\ CacheDB (native s) = after r.
Proof. destruct r as [[b s]|e|]; [|discriminate ..]. cbn. intros H. apply bool_decide_eq_true in H as ->. eauto. Qed.
Lemma first_run : succeeded (process 5 store) = true. Proof. vm_compute. reflexivity. Qed.
Lemma second_run : succeeded (process 99 (after (process 5 store))) = true. Proof. vm_compute. reflexivity. Qed.

(** The message of the calls. *)
Definition the_message : ToMerkleValue := match decode ToMerkleValue_Deserialization message with Ok v => v | _ => mkMerkleValue [] 0 (mkMakeTx [] [] [] 0 [] [] []) end.
Lemma message_5 : proof_message (call_args 5) = Ok (5, the_message). Proof. vm_compute. reflexivity. Qed.
Lemma message_99 : proof_message (call_args 99) = Ok (99, the_message). Proof. vm_compute. reflexivity. Qed.

(** The NeoVM contract is called. *)
Definition vm_run : res (list byte * CrossService) := CrossCall the_vm 5 CrossChainContractAddress PROCESS_CROSS_CHAIN_TX (call_args_of vm_message 5) (service store).
Lemma vm_succeeds : succeeded vm_run = true. Proof. vm_compute. reflexivity. Qed.
Definition the_vm_message : ToMerkleValue := match decode ToMerkleValue_Deserialization vm_message with Ok v => v | _ => mkMerkleValue [] 0 (mkMakeTx [] [] [] 0 [] [] []) end.
Lemma message_vm : proof_message (call_args_of vm_message 5) = Ok (5, the_vm_message). Proof. vm_compute. reflexivity. Qed.

Lemma cross_message_authenticated_witness :
  exists params h v, checked_message (fun k => store !! k) (call_args_of vm_message 5) params h v /\ m_ToContractAddress (v_MakeTxParam v) = vm_contract /\
    after vm_run !! (vm_contract ++ bytes_of "last") = Some (raw_item [xbb]).
Proof.
  destruct (succeeded_Ok _ vm_succeeds) as (s' & E & _). unfold vm_run in E.
  destruct (cross_message_authenticated the_vm the_vm_keeps 5 (call_args_of vm_message 5) (service store) (fun k => store !! k) _ s' (fresh_service store) (fun _ => eq_refl) E) as (params & h & v & H).
  exists params, h, v. split; [exact H|]. rewrite (proj2 (checked_message_is _ _ _ _ _ _ _ H message_vm)). split; vm_compute; reflexivity.
Defined.

Lemma cross_message_once_witness : exists s', process 5 store = Ok (BYTE_TRUE, s') /\ forall r2 s2', process 5 (CacheDB (native s')) <> Ok (r2, s2').
Proof.
  destruct (succeeded_Ok _ first_run) as (s' & E & _). exists s'. split; [exact E|]. intros r2 s2'. unfold process in E |- *.
  refine (cross_message_once the_vm the_vm_keeps 5 (call_args 5) (service store) (fun k => store !! k) _ s' (service (CacheDB (native s'))) 5 the_message (call_args 5) the_message 5 r2 s2'
    (fresh_service store) (fun _ => eq_refl) E message_5 _ (rtc_refl _ _) (fresh_service _) message_5 eq_refl).
  vm_compute. reflexivity.
Defined.

(** The message of the example is executed under chain 5; after that a call that names chain 99, which does not exist, executes it again: the
    proxy pays the 40 ONG twice and counts them as crossed again. *)
Definition service_99 : CrossService := enter CrossChainContractAddress (call_args 99) (set_methods (list_to_map RegisterCrossChainContract) (service (after (process 5 store)))).
Definition replay_params : ProcessCrossChainTxParam := mkProcess addr_a 99 7 (hex_EncodeToString (enc_varbytes message)) (or_nil (written (x_Serialization header))).
Definition paid_twice : bool := bool_decide (summary (after (process 99 (after (process 5 store)))) = (Some (stored 8 20), Some (stored 8 80), Some (raw_item (enc_varbytes [zb 40])))).

Definition header_hash : list byte := match x_Hash header with Ok h => h | _ => [] end.

Lemma header_accepted : accepted (fun k => after (process 5 store) !! k) header.
Proof.
  exists [0], 0, (match peers_at (fun k => store !! k) 5 0 with Ok p => p | _ => peers3 end), (match x_Hash header with Ok h => h | _ => [] end).
  split_and!; try (vm_compute; reflexivity); [vm_compute; discriminate|].
  apply (bool_decide_unpack _). vm_compute. exact I.
Qed.

Lemma cross_message_replayed_witness : done_at (fun k => after (process 5 store) !! k) 5 [x01] /\
  (exists s1, ProcessCrossChainTx (CrossCall the_vm 4) the_vm service_99 = execute_message (CrossCall the_vm 4) the_vm the_message s1) /\ paid_twice = true.
Proof.
  split; [apply (bool_decide_unpack _); vm_compute; exact I|]. split; [|vm_compute; reflexivity].
  assert (P1 : decode ProcessCrossChainTxParam_Deserialization (Input (native service_99)) = Ok replay_params) by (vm_compute; reflexivity).
  assert (P2 : decode x_Deserialization (pr_Header replay_params) = Ok header) by (vm_compute; reflexivity).
  assert (P3 : hex_DecodeString (pr_Proof replay_params) = Ok (enc_varbytes message)) by (vm_compute; reflexivity).
  assert (P4 : MerkleProve sha256 (enc_varbytes message) (x_CrossStateRoot header) = Ok message) by (vm_compute; reflexivity).
  assert (P5 : decode ToMerkleValue_Deserialization message = Ok the_message) by (vm_compute; reflexivity).
  assert (P6 : header_at (fun k => after (process 5 store) !! k) 99 7 = Ok None) by (vm_compute; reflexivity).
  assert (P7 : ~ done_at (fun k => after (process 5 store) !! k) 99 (m_CrossChainID (v_MakeTxParam the_message))) by (intros [x Hx]; vm_compute in Hx; discriminate Hx).
  assert (P8 : zlen (pr_Header replay_params) < 2 ^ 57) by (vm_compute; reflexivity). assert (P9 : zlen (m_CrossChainID (v_MakeTxParam the_message)) < 2 ^ 57) by (vm_compute; reflexivity).
  assert (P10 : x_Hash header = Ok header_hash) by (vm_compute; reflexivity). assert (P11 : NewChainConfig_Peers (x_ConsensusPayload header) = Ok None) by reflexivity.
  assert (P0 : kv_is (CacheDB (native service_99)) (fun k => after (process 5 store) !! k)) by (intros k; reflexivity).
  destruct (cross_message_replayed the_vm (CrossCall the_vm 4) service_99 (fun k => after (process 5 store) !! k) replay_params header header_hash (enc_varbytes message) message the_message
    P0 P1 P2 header_accepted P10 P11 P3 P4 P5 P8 P9 P6 P7) as (s1 & f1 & E & _). exists s1. exact E.
Defined.

(** The header of the example signed three times by the first peer. *)
Definition forged : XHeader := mkXHeader 0 5 (repeat x00 32) (repeat x00 32) (HashLeaf sha256 message) (repeat x00 32) 9 7 0 [] (repeat x00 20)
  [x01 : @PublicKey byte_keys; x01; x01] [[x01]; [x01]; [x01]].
Lemma one_peer_signs_for_all_witness : exists s', x_VerifyHeader forged (service store) = Ok ((), s').
Proof.
  refine (one_peer_signs_for_all (service store) (fun k => store !! k) forged [0] 0 (match peers_at (fun k => store !! k) 5 0 with Ok p => p | _ => peers3 end) (x01 : @PublicKey byte_keys) 3 [x01] [x01]
    (match x_Hash forged with Ok h => h | _ => [] end) (fun _ => eq_refl) _ _ _ _ _ eq_refl eq_refl _ _ _); try (vm_compute; reflexivity).
  - apply (bool_decide_unpack _). vm_compute. exact I.
  - vm_compute. discriminate.
Defined.

(** [addr_a] locks 10 of its 1000 ONG for chain 5. *)
Definition lock_store : gmap (list byte) (list byte) := list_to_map
  [(GenBalanceKey OngContractAddress addr_a, stored 8 1000); (GenBindProxyKey LockProxyContractAddress 5, raw_item (enc_varbytes [xaa]));
   (GenBindAssetHashKey LockProxyContractAddress OngContractAddress 5, raw_item (enc_varbytes [xbb]));
   (GenCrossedLimitKey LockProxyContractAddress OngContractAddress 5, raw_item (enc_varbytes [zb 50]));
   (GenCrossedAmountKey LockProxyContractAddress OngContractAddress 5, raw_item (enc_varbytes [zb 40]))].
Definition lock_args : list byte := enc_varbytes OngContractAddress ++ enc_varbytes addr_a ++ enc_uint 5 ++ enc_varbytes [xcc] ++ enc_uint 10.
Definition lock_run : res (list byte * CrossService) := CrossCall the_vm 5 LockProxyContractAddress "lock" lock_args (service lock_store).
Lemma lock_succeeds : succeeded lock_run = true. Proof. vm_compute. reflexivity. Qed.
Definition lock_param : LockParam := mkLock OngContractAddress addr_a 5 [xcc] 10.
Lemma lock_args_read : decode LockParam_Deserialization lock_args = Ok lock_param. Proof. vm_compute. reflexivity. Qed.

Lemma lock_within_limit_witness : exists s' f', lock_run = Ok (BYTE_TRUE, s') /\
  amount_at f' (GenCrossedAmountKey LockProxyContractAddress OngContractAddress 5) = Ok 50 /\ length (sc_CrossHashes s') = 1%nat.
Proof.
  destruct (succeeded_Ok _ lock_succeeds) as (s' & E & _). exists s'. pose proof E as E'. unfold lock_run in E'.
  assert (Hs : kv_is (CacheDB (native (service lock_store))) (fun k => lock_store !! k)) by (intros k; reflexivity).
  destruct (lock_within_limit the_vm 5 lock_args (service lock_store) (fun k => lock_store !! k) s' (fresh_service _) Hs E') as (p & amount & limit & proxy & target & f' & Ep & _ & He).
  exists f'. split; [exact E|]. assert (p = lock_param) as -> by (rewrite lock_args_read in Ep; injection Ep as <-; reflexivity).
  pose proof (le_amount _ _ _ _ _ _ _ _ _ He) as Ha. vm_compute in Ha. injection Ha as <-. pose proof (le_limit _ _ _ _ _ _ _ _ _ He) as Hl. vm_compute in Hl. injection Hl as <-.
  split; [exact (le_counted _ _ _ _ _ _ _ _ _ He eq_refl)|]. destruct (le_announced _ _ _ _ _ _ _ _ _ He) as (args' & Ea & An).
  pose proof (proj1 (le_proxy _ _ _ _ _ _ _ _ _ He)) as Hp. vm_compute in Hp. injection Hp as <-. pose proof (le_target _ _ _ _ _ _ _ _ _ He) as Ht. vm_compute in Ht. injection Ht as <-. vm_compute in Ea. injection Ea as <-.
  destruct (An eq_refl eq_refl eq_refl) as (id & b & _ & ->). reflexivity.
Defined.

(** The manager has the proxy pay 60 where 40 are counted as crossed: 20 are counted afterwards. *)
Definition unlock_service : CrossService :=
  mkCross (mkNative store ∅ [] (wire (mkUnlock (wire (mkArgs OngContractAddress addr_b 60)) [xaa] 5)) (GENESIS_BLOCK_TIMESTAMP + 100) false (mkSC [CrossChainContractAddress; LockProxyContractAddress] [] []) true) ∅ [] [] [].
Lemma unlock_succeeds : succeeded (Unlock (CrossCall the_vm 5) unlock_service) = true. Proof. vm_compute. reflexivity. Qed.
Definition paid : LockArgs := mkArgs OngContractAddress addr_b 60.
Definition unlocked : UnlockParam := mkUnlock (wire paid) [xaa] 5.
Lemma unlock_param_read : decode UnlockParam_Deserialization (Input (native unlock_service)) = Ok unlocked /\ decode Args_Deserialization (up_ArgsBs unlocked) = Ok paid.
Proof. split; vm_compute; reflexivity. Qed.

Definition proxy_balance : balance_t := set_bal LockProxyContractAddress 100 (fun _ => 0).
Lemma off_ong c x y : length c = 20%nat -> c <> OngContractAddress -> c ++ x <> OngContractAddress ++ y.
Proof. intros Hl Hc E. apply app_inj_1 in E as [E _]; [exact (Hc E) | exact Hl]. Qed.
Lemma store_balances : balances (fun k => store !! k) OngContractAddress proxy_balance.
Proof.
  intros a Ha. unfold proxy_balance, set_bal. destruct (decide (a = LockProxyContractAddress)) as [->|Hne]; [vm_compute; reflexivity|]. apply num_at_None.
  unfold store. cbn [list_to_map foldr uncurry fst snd]. rewrite !lookup_insert_ne; [apply lookup_empty | ..]; try (apply off_ong; [reflexivity | discriminate]).
  intros E. apply app_inv_head in E. congruence.
Qed.

Lemma unlock_exact_witness : exists s' f' f1, Unlock (CrossCall the_vm 5) unlock_service = Ok (BYTE_TRUE, s') /\ kv_is (CacheDB (native s')) f' /\
  amount_at f' (GenCrossedAmountKey LockProxyContractAddress OngContractAddress 5) = Ok 20 /\
  balances f1 OngContractAddress (move LockProxyContractAddress addr_b 60 proxy_balance) /\ move LockProxyContractAddress addr_b 60 proxy_balance addr_b = 60.
Proof.
  destruct (succeeded_Ok _ unlock_succeeds) as (s' & E & _). assert (Hm : methods_ok unlock_service) by (apply fresh_ok; split; [reflexivity|]; split; [reflexivity | discriminate]).
  assert (Hs : kv_is (CacheDB (native unlock_service)) (fun k => store !! k)) by (intros k; reflexivity).
  destruct (unlock_exact the_vm 3 unlock_service (fun k => store !! k) s' eq_refl Hm Hs E) as (p & a & f' & Ep & Ea & _ & _ & _ & _ & Hs' & _ & _ & H).
  assert (p = unlocked) as -> by (rewrite (proj1 unlock_param_read) in Ep; injection Ep as <-; reflexivity). assert (a = paid) as -> by (rewrite (proj2 unlock_param_read) in Ea; injection Ea as <-; reflexivity).
  destruct (H ltac:(discriminate)) as (amount & f1 & Ha & _ & Hv & _ & Hp & _). vm_compute in Ha. injection Ha as <-. exists s', f', f1. split; [exact E|]. split; [exact Hs'|]. split; [exact (Hv eq_refl)|].
  destruct (Hp ltac:(split; [discriminate | reflexivity]) eq_refl proxy_balance store_balances ltac:(reflexivity)) as (_ & Hb & _). split; [exact Hb | vm_compute; reflexivity].
Defined.

Lemma withdraw_never_succeeds_witness : forall r s', WithdrawONG (CrossCall the_vm 5) (service lock_store) <> Ok (r, s').
Proof. intros r s'. apply (withdraw_never_succeeds the_vm 5 (service lock_store) r s'). apply fresh_ok, fresh_service. Defined.
